(* ===== verification/_CoqProject ===== *)
-Q . S2P
Prelude.v
GoStrings.v
GoTime.v
Rfc3339.v
Bytes.v
Encoding.v
Vault.v
AuthStore.v
Auth.v
AuthToy.v
AuthCalls.v
AuthSessions.v
AuthRace.v
AuthUsers.v
AuthMFA.v
ReplayGuard.v
NonceCache.v
Wire.v
Wiegand.v
Osdp.v
Agent.v
Backoff.v
Credential.v
Event.v
Alarm.v
Indexes.v
AccessData.v
AccessState.v
Schedule.v
Booking.v
AccessUsers.v
AccessGroups.v
AccessGrants.v
Space.v
AuditLog.v
Gateway.v
GatewayFleet.v
GoText.v
WalletData.v
WalletState.v
Wallet.v
WalletCards.v
WalletJobs.v
WalletPool.v
WalletMetrics.v
WalletAlerts.v
WalletDelivery.v
WalletCalls.v
CertRevocation.v
Server.v
GatewayAuth.v
Verify.v
Admission.v
GatewayRuns.v
RateLimit.v
TenantScope.v
SpaceRoutes.v
SpaceTenancy.v
Cas.v
Dlq.v
PullState.v
AuditTrail.v
Url.v
ConnectorVault.v
Tenants.v
Normalizer.v
Directory.v
Jit.v
Webhooks.v
WebhookClaims.v
WebhookQueue.v
EmployeeSync.v
DirectoryCalls.v
IdpTokens.v
EnterpriseSignIn.v
