(* ===== verification/Prelude.v ===== *)
(** * MistyPass: verification library

    MistyPass is a cloud access-control service (Go, src/api) and the edge
    gateway that opens the doors (src/api/cmd/gateway-agent).  The cloud keeps
    credentials, schedules, gateways, alarms, events and an audit log; a gateway
    pulls access rules, decides locally when a card or phone is presented (also
    while offline), drives a relay and sends its events back.  This library
    models the decision code of both sides and proves what makes it correct.

    ** How the code is modelled

    A Go struct is a [Record] with a functional update ([r <| f := v |>]).  A
    method of a service is an [op S E A]: a function from the service's state to
    the state it leaves and a value or an error.  The state is kept on an error,
    because Go keeps the assignments made before an early return.  Every service
    method runs under the service's mutex, so a run of the service is a list of
    calls; the agent's [pushEvents], which releases its mutex around the network
    call, is two steps.  The clock, the random bytes and the reply of the state
    store are the argument [Env] of a call (all [time.Now()] of one handler are
    identified, except in the nonce cache, where [Add] reads it twice).  Instants
    are nanoseconds since the epoch, [int64] arithmetic wraps ([wrap64]), [byte]
    and [uint16] arithmetic is reduced.  Case mapping covers the ASCII letters.
    Cryptographic primitives, hash functions and the attestation check are
    parameters ([Wire.Crypto], [AuditLog.Mac], [attestation_ok]); theorems that need
    a property of one state it, and the witnesses use concrete instances.

    ** The files

    - [Prelude]: record update, results and operations, symbolic execution
      lemmas, [preserves], searching and filtering slices, the persistence
      interface [Persistent] that each service instantiates.
    - [GoStrings], [GoTime], [Bytes]: the parts of package strings, time,
      encoding/hex and encoding/binary the program uses.
    - [ReplayGuard]: the interface the agent needs of a nonce cache;
      [NonceCache] (nonce_cache.go) implements it ([nonce_cache_guard]).
    - [Wire] (ble_protocol.go, nfc_protocol.go): challenge, response and result
      codecs, APDUs, signature checks.
    - [Wiegand] (wiegand_reader.go): frame decoding and the read loop.
    - [Osdp] (osdp_relay.go): packets, CRC, sequence numbers, relay commands.
    - [Agent] (agent.go, ble_reader.go, nfc_hce_reader.go): decisions over the
      cached rules, reader sessions, offline event queue, push and config pull;
      proved against [ReplayGuard] and [Wire.Crypto].
    - [Backoff] (retrybackoff/backoff.go).
    - [Credential] (modules/credential): phone keys, their life cycle and the
      lists sent to gateways.
    - [Event] (modules/event), [Alarm] (modules/alarm), [AuditLog] (modules/audit
      service.go and AppendWithTimestamp of offline.go).
    - [Rfc3339], [Encoding]: the civil calendar behind time.RFC3339, and base64,
      base32, hex and decimal texts.
    - [Vault] (internal/crypto/vault.go): secrets encrypted under versioned keys.
    - Sign-in (modules/auth/service.go): [AuthStore] has the records, the two
      stores behind the service as classes and the Postgres rows; [Auth] every
      operation; [AuthCalls] histories of calls and restarts; [AuthSessions],
      [AuthUsers] and [AuthMFA] the theorems; [AuthRace] takes Refresh apart into
      its lock sections and interleaves threads; [AuthToy] is a concrete instance
      of the primitives for the witnesses.
    - Module access: [AccessData] (the records of service.go), [AccessState] (the
      service, its tables, snapshot and restart), [Schedule]
      (service_schedules.go), [Booking] (service_bookings.go), [AccessUsers] and
      [AccessGroups] (service_users.go), [AccessGrants] (roles, policies, shares,
      guests, elevators, reviews).
    - [Space] (modules/space/service.go): buildings, floors, areas, doors, groups.
    - [Gateway] (modules/gateway/service.go): gateways, devices, serial
      inventory, configuration versions, checkpoints, firmware tasks;
      [GatewayFleet] has its theorems.

    - Wallet (modules/wallet): [GoText] has the text functions it uses;
      [WalletData] the records and errors; [WalletState] the service, its
      snapshot, the senders and [Quiet], the operations that change no table;
      [Wallet] templates, passes and the two pass providers; [WalletCards] card
      inventory and card tasks; [WalletJobs] batches, retries, the dead-letter
      queue and claims; [WalletPool] the worker pool of ProcessIssueJobs as a step
      semantics; [WalletMetrics] summaries and trends; [WalletAlerts] planning,
      cooldowns and dispatch of alerts; [WalletDelivery] confirmations and pass
      deliveries; [WalletCalls] the calls of the service and what every one keeps.

    - HTTP server (internal/http): [Server] is its state, [CertRevocation]
      (modules/gateway/cert_revocation.go) the revoked certificates;
      [GatewayAuth] (router_middleware.go, gateway_device_request.go) device
      tokens, client certificates and request nonces; [Verify]
      (routes_gateway_verify.go) the decision of the cloud about a credential
      presented at a gateway; [Admission] what an answer means, [GatewayRuns]
      histories of requests mixed with the other calls of the server.
      [RateLimit] (router_middleware.go) the limiters of sign-in and API;
      [TenantScope] (router_middleware.go) roles, tenants and building scopes;
      [SpaceRoutes] (routes_tenant_space.go) the building endpoints and
      [SpaceTenancy] what they change and show.
    - Shared documents: [Cas] is the compare-and-swap change of a stored document
      (mutateStateLocked) as steps of replicas, over the class [Document]; [Dlq]
      (modules/hris/dlq.go), [PullState] (modules/hris/pull_worker.go) and [Webhooks] are
      its instances.  [AuditTrail] (modules/audit offline.go, webhook.go) is the offline
      entries and the webhooks of the audit log.
    - [Url]: url.Parse of package net/url; [ConnectorVault] (modules/hris/vault.go)
      the secrets of connectors; [Normalizer] (modules/hris/normalizer.go) adapters by
      vendor and what is made of their results; [Tenants] (modules/tenant in its four
      layers, and its endpoints), proved against the class [Repository].
    - Module enterprise: [Directory] (service.go and the connectors of service_hris.go)
      the tables, their normalisation, domain mappings and identity providers; [Jit]
      and [EmployeeSync] (service_employees.go) employees at sign-in, approvals, state
      tokens, and batches with their part in the access service; [Webhooks]
      (service_hris.go, the other half) receipts and executions of HRIS webhooks with
      their indexes, [WebhookClaims] claims under interleaving and [WebhookQueue] the
      queue a worker reads; [DirectoryCalls] histories of its calls; [IdpTokens] (oidc.go, saml.go) keys, ID tokens and SAML
      responses; [EnterpriseSignIn] (internal/http routes_enterprise_auth.go,
      routes_enterprise_exchange.go, routes_enterprise_callback.go and the first half of
      router_handlers_enterprise_auth.go) the endpoints over [Auth] and these.
      [Indexes] is the matching of rows by two keys that [EmployeeSync] shares with
      [AccessUsers].

    Definitions keep the Go names; a prefix or suffix is added where two structs
    of one file share a field name ([CredUserID], [gwID], [Encode1]).

    ** What is shown

    - Access decisions: an expired cache denies everything at every reader, a
      card opens exactly when its rule says so, a v2 response is granted exactly
      under its conditions, once per nonce ([offline_lockdown], [card_decision],
      [v2_granted_exactly], [one_grant_per_nonce], with [replay_rejected] and
      [run_wf] for the cache).
    - Sign-in: a refresh token works once, also between threads when there is no
      store ([refresh_single_use], [steps_refine], [concurrent_single_use]); a
      logout is final; one-time codes are those of RFC 4226, recovery codes and
      reset tokens work once; the user maps stay typed; secrets survive the
      rotation of the master key.
    - Credentials: a verified signature means an active stored key of that user;
      revocation is final and reaches the gateways; full synchronisation is
      exact; a restart keeps every decision.
    - Access data: bookings respect capacity and occupancy counts them
      ([capacity_respected], [occupancy_counts]); a directory synchronisation
      keeps keys distinct and is atomic; deleting a user removes every reference
      or nothing; link and guest tokens admit exactly in their window; what a
      restart restores ([restart_restores]).
    - Topology: calls that do not overlap keep the tree of buildings, floors,
      areas and doors consistent ([topology_invariant]).
    - Requests: the cloud allows only a usable credential of an active holder who
      may open the door ([allow_sound]); a card is not in two places within 30
      seconds, as far as the spelling of its number is the same ([travel_checked]); a
      gateway request is accepted once while nonces are kept in memory
      ([gateway_request_once]); a revoked certificate is refused until it is
      restored, and its bearer let in only by a device token
      ([revoked_until_restored]); the limiters of one server bound what gets through
      by their own decisions and tell a wait that is enough ([rate_bounded],
      [retry_after_enough]).
    - Tenancy: the building endpoints change and show rows of the caller's tenant
      only, and of the caller's buildings for a building admin, door groups included
      ([tenant_isolation], [tenant_reads], [building_scope]).
    - Replicas: under every interleaving of their store accesses and every failure
      of the store, a change ends ([change_ends]), the document goes through atomic
      changes ([replicas_atomic]), and two workers never hold the same dead letter or
      connector inside its timeout ([claim_exclusive], [pull_exclusive]), nor the same
      webhook receipt or execution ([work_claimed_once]); the worker sees everything that
      is due ([due_list_complete]), and through the queue index what a scan of the table
      gives ([index_equivalent]).
    - Enterprise directory: a batch keeps addresses and external ids distinct and stays
      in its tenant ([sync_within_tenant]); a first delivery the access service refuses
      leaves no trace ([sync_rolled_back]); a request id counts once ([sync_request_once]); its job tells
      what it did ([sync_job_counts]).
    - Sign-in through a provider: tokens and assertions count for the configured issuer,
      client and address, and an assertion once ([oidc_accepts], [saml_once]); a state
      token once ([signin_state]); a session is for the address the provider vouches for,
      and for its tenant where accounts are provisioned at sign-in ([exchange_vouched],
      [jit_session], [callback_bound]); elsewhere the account is the one under the
      address, of any tenant ([callback_takeover]).
    - Connectors and tenants: a stored secret of a tenant with a plain id is resolved to
      its value whatever calls and restarts follow, and its metadata is shown to its tenant
      ([secret_kept], [metadata_of_tenant]; [secret_unreachable] for other ids); a restart
      loses no tenant that was acknowledged, and can keep a change that was refused
      ([restart_acknowledged], [refused_then_saved]).
    - Wallet: statuses stay of their kind and free cards are held by nobody
      ([wallet_typed]); a revoked pass stays revoked through any calls
      ([pass_revocation_final]); the worker pool stops under every interleaving
      ([workers_stop]) and, run alone, settles every claimed job with one pass or
      none ([process_jobs_settles]); no alert is sent twice inside its cooldown
      ([cooldown_silences]); trends add up ([trend_matches_window]).
    - Queues and events: the agent's queue keeps order and loses only counted
      events ([queue_conserves]); ingestion is idempotent in one process, and through
      restarts for an event that was saved when it was acknowledged as new
      ([ingest_exactly_once], [acknowledged_then_lost]).
    - Fleet: the invariant of gateways and devices over all reachable states,
      scrapped serials, monotone checkpoints.
    - Audit: the chain of one tenant verifies, removals inside it are noticed; an
      offline decision whose ids have no blanks is taken in once ([offline_once]); a webhook is sent three times
      at most and recorded as it ended ([dispatch_outcome]).
    - Codecs and lines: round trips of challenges, responses and OSDP packets,
      error detection by CRC and parity, frame numbering, debounce.
    - Schedules, alarms, backoff: exact activity, stored data stay well formed,
      closed form of the delay.
    - Where the code falls short of its purpose the behaviour is stated as it is:
      [v2_ignores_locks], [backoff_never_grows], [revoke_all_misses_suspended],
      [sync_blind], [failed_save_masked], [interleaving_false_alarm],
      [revocation_overwritten], [seeded_never_active], [window_half_open],
      [hhmm_on_digits], [update_partial], [hmac_fields_ambiguous],
      [refresh_race], [password_never_disabled], [enrollment_disables_mfa],
      [double_booking], [occupancy_leak], [create_door_race],
      [late_failure_undoes_success], [cancel_frees_any_card],
      [organization_role_never_ends], [nonce_returns], [append_doubles_entry],
      [late_failure_reopens], [mark_takes_over], [offline_race],
      [references_collide], [request_ids_collide], [callback_takeover],
      [foreign_downgrade], [probe_leaves_session], [recruiter_is_admin],
      [merged_input_lost], [broken_batch_stays], [secret_unreachable],
      [acknowledged_then_lost].  The properties of
      the manifest carry an identifier; the other theorems support them.

    ** Recursion and bounds

    Loops are structural on the slice, string or event list they walk (the backoff
    loops on their attempt count), so every operation is total.  The fuels are
    that of [evict_oldest], the size of the cache it shrinks by one each turn, and
    that of [run_pool], the number of worker steps left ([steps_left]); that it is
    enough for the pool to finish is part of [process_jobs_settles], and
    [workers_stop] bounds the steps of any execution.  Capacities (10000 queued
    events, 200 per batch, the cache's [maxSize], 4 or 8 devices) are those of the
    code.

    ** What is not modelled

    HTTP routing, JSON decoding and the handlers other than those of the files
    above, WebSocket and TLS transport, Redis, the tables of the database other
    than those of sign-in and gateway tokens, generated queries, mail, PDF and
    push: glue around third-party code.  The wallet's senders are lists of replies
    and of what was asked; their HTTP requests and the live Google check are left
    out.  In the agent: goroutine start-up, heartbeats, the certificate part of
    registration, Matter (an external binary), GPIO and PC/SC drivers.  In the
    cloud: the Android attestation parser, demo seeds other than those of gateways and events, the
    legacy probe plan, the audit webhook endpoint (its answers are arguments), the
    alert tables of module enterprise, and the modules
    camera, hikconnect and integration, and the vendor adapters of hris: tables and
    requests around outside services.  The parsers of signed tokens, SAML responses and
    certificates are the class [IdpLibs]. *)

From Stdlib Require Export ZArith Lia Ascii.
From Stdlib Require String.
From stdpp Require Export strings numbers option gmap.
From stdpp Require Export base list.

#[global] Open Scope Z_scope.

(** ** Record update

    [r <| f := v |>] is the Go assignment [r.f = v] on a copy of the struct.
    A record type declares its eta expansion once ([Eta]); the setter of each
    field is then found by instance search. *)

Class Eta (R : Type) := eta : R → R.
Class Setter {R T : Type} (p : R → T) := setter : (T → T) → R → R.

Definition set {R T : Type} (p : R → T) {s : Setter p} (f : T → T) (r : R) : R := s f r.
Arguments set {R T} p {s} f r /.

Ltac build_setter p :=
  match type of p with
  | ?R → ?T =>
      let inst := constr:(_ : Eta R) in
      let h := eval hnf in inst in
      let e := eval cbv beta in h in
      match eval pattern p in e with
      | ?F _ =>
          let b := constr:(fun (f : T → T) (r : R) => F (fun q : R => f (p q)) r) in
          let b := eval cbv beta in b in
          exact b
      end
  end.

#[export] Hint Extern 1 (Setter ?p) => build_setter p : typeclass_instances.

Declare Scope go_scope.
Delimit Scope go_scope with go.
#[global] Open Scope go_scope.

Notation "r <| p := v |>" := (set p (fun _ => v) r)
  (at level 1, left associativity, p constr at level 9, v constr at level 99) : go_scope.
Notation "r <| p ::= f |>" := (set p f r)
  (at level 1, left associativity, p constr at level 9, f constr at level 99) : go_scope.

(** ** Results and stateful operations

    A Go method returns a value and an error; [result] is that pair.  A method
    with a pointer receiver mutates the service and then returns: [op S E A]
    keeps the state reached also when an error is returned, because Go does not
    undo assignments on an early return. *)

Inductive result (E A : Type) : Type :=
| Ok (a : A)
| Err (e : E).
Arguments Ok {E A} a.
Arguments Err {E A} e.

#[export] Instance result_ret E : MRet (result E) := λ A a, Ok a.
#[export] Instance result_bind E : MBind (result E) :=
  λ A B f m, match m with Ok a => f a | Err e => Err e end.

Definition op (S E A : Type) : Type := S → S * result E A.

#[export] Instance op_ret S E : MRet (op S E) := λ A a s, (s, Ok a).
#[export] Instance op_bind S E : MBind (op S E) :=
  λ A B f m s,
    match m s with
    | (s', Ok a) => f a s'
    | (s', Err e) => (s', Err e)
    end.

Section op_primitives.
Context {S E : Type}.

Definition throw {A} (e : E) : op S E A := λ s, (s, Err e).
Definition gets {A} (f : S → A) : op S E A := λ s, (s, Ok (f s)).
Definition modify (f : S → S) : op S E unit := λ s, (f s, Ok tt).
Definition lift {A} (r : result E A) : op S E A := λ s, (s, r).

(** [if b { return err }] *)
Definition fail_if (b : bool) (e : E) : op S E unit :=
  λ s, if b then (s, Err e) else (s, Ok tt).
End op_primitives.

(** [if err := m(); err != nil { return e }]: any error becomes [e]. *)
Definition or_err {S E E' A} (m : op S E A) (e : E') : op S E' A := λ s,
  match m s with (s', Ok a) => (s', Ok a) | (s', Err _) => (s', Err e) end.

(** [x, err := m()] where the caller goes on after an error: [None]. *)
Definition try_op {S E E' A} (m : op S E A) : op S E' (option A) := λ s,
  match m s with (s', Ok a) => (s', Ok (Some a)) | (s', Err _) => (s', Ok None) end.

(** [_ = m()]: the error is dropped. *)
Definition ignore_err {S E E' A} (m : op S E A) : op S E' unit := λ s, (fst (m s), Ok tt).

(** The state and the answer an operation ends with. *)
Definition exec {S E A} (m : op S E A) (s : S) : S := fst (m s).
Definition answer {S E A} (m : op S E A) (s : S) : result E A := snd (m s).

Definition is_ok {E A} (r : result E A) : bool :=
  match r with Ok _ => true | Err _ => false end.

Lemma bind_op_eq {S E A B} (m : op S E A) (f : A → op S E B) s :
  (m ≫= f) s = match m s with
               | (s', Ok a) => f a s'
               | (s', Err e) => (s', Err e)
               end.
Proof. reflexivity. Qed.

Lemma bind_op_Ok {S E A B} (m : op S E A) (f : A → op S E B) s s' b :
  (m ≫= f) s = (s', Ok b) → ∃ s1 a, m s = (s1, Ok a) ∧ f a s1 = (s', Ok b).
Proof. rewrite bind_op_eq. destruct (m s) as [s1 [a|e]]; naive_solver. Qed.

Lemma fail_if_bind {S E B} (b : bool) (e : E) (f : unit → op S E B) s :
  (fail_if b e ≫= f) s = if b then (s, Err e) else f tt s.
Proof. rewrite bind_op_eq. by destruct b. Qed.

(** A sequence that succeeds: its first part did, and handed its answer on. *)
Lemma bind_ok {S E A B} (f : op S E A) (g : A → op S E B) s s' b :
  (f ≫= g) s = (s', Ok b) → ∃ s1 a, f s = (s1, Ok a) ∧ g a s1 = (s', Ok b).
Proof. rewrite bind_op_eq. destruct (f s) as [s1 [a|e]]; [eauto|done]. Qed.

Lemma bind_lift {S E A B} (r : result E A) (f : A → op S E B) s :
  (lift r ≫= f) s = match r with Ok a => f a s | Err e => (s, Err e) end.
Proof. by destruct r. Qed.

Lemma bind_gets {S E A B} (g : S → A) (f : A → op S E B) s :
  (gets g ≫= f) s = f (g s) s.
Proof. reflexivity. Qed.

Lemma bind_modify {S E B} (g : S → S) (f : unit → op S E B) s :
  (modify g ≫= f) s = f tt (g s).
Proof. reflexivity. Qed.

Lemma bind_throw {S E A B} (e : E) (f : A → op S E B) s :
  (throw e ≫= f) s = (s, Err e).
Proof. reflexivity. Qed.

Create HintDb opdb.
Create Rewrite HintDb opdb_rw.
Create Rewrite HintDb exec_rw.
#[export] Hint Rewrite @fail_if_bind @bind_lift @bind_gets @bind_modify @bind_throw : opdb_rw.

Section exec_lemmas.
Context {S E A B : Type}.
Implicit Types (s : S) (f : A → op S E B).

Lemma exec_fail_if (b : bool) (e : E) (f : unit → op S E B) s :
  exec (fail_if b e ≫= f) s = if b then s else exec (f tt) s.
Proof. unfold exec. rewrite fail_if_bind. by destruct b. Qed.
Lemma exec_gets (g : S → A) f s : exec (gets g ≫= f) s = exec (f (g s)) s.
Proof. reflexivity. Qed.
Lemma exec_modify (g : S → S) (f : unit → op S E B) s : exec (modify g ≫= f) s = exec (f tt) (g s).
Proof. reflexivity. Qed.
Lemma exec_modify_last (g : S → S) s : exec (E:=E) (modify g) s = g s.
Proof. reflexivity. Qed.
Lemma exec_lift (r : result E A) f s :
  exec (lift r ≫= f) s = match r with Ok a => exec (f a) s | Err _ => s end.
Proof. unfold exec. rewrite bind_lift. by destruct r. Qed.
Lemma exec_throw (e : E) s : exec (A:=A) (throw e) s = s.
Proof. reflexivity. Qed.
Lemma exec_ret (a : A) s : exec (E:=E) (mret a) s = s.
Proof. reflexivity. Qed.
End exec_lemmas.

#[export] Hint Rewrite @exec_fail_if @exec_gets @exec_modify @exec_modify_last @exec_lift @exec_throw @exec_ret : exec_rw.

(** [if b { m }] *)
Definition when {S E} (b : bool) (m : op S E unit) : op S E unit := if b then m else mret tt.

(** A state predicate kept on every outcome of an operation. *)
Definition preserves {S E A} (P : S → Prop) (m : op S E A) : Prop := ∀ s, P s → P (exec m s).

Section preserves.
Context {S E : Type} (P : S → Prop).

Lemma pres_bind {A B} (m : op S E A) (f : A → op S E B) :
  preserves P m → (∀ a, preserves P (f a)) → preserves P (m ≫= f).
Proof.
  intros Hm Hf s Hs. unfold exec. rewrite bind_op_eq. specialize (Hm s Hs). unfold exec in Hm.
  destruct (m s) as [s' [a|e]]; simpl in *; [by apply Hf|done].
Qed.
(** The same when the answers reached from [P] have a property [Q]. *)
Lemma pres_bind_post {A B} (Q : A → Prop) (m : op S E A) (f : A → op S E B) :
  preserves P m → (∀ s a, P s → answer m s = Ok a → Q a) → (∀ a, Q a → preserves P (f a)) →
  preserves P (m ≫= f).
Proof.
  intros Hm HQ Hf s Hs. unfold exec. rewrite bind_op_eq. specialize (Hm s Hs). specialize (HQ s).
  unfold exec, answer in *. destruct (m s) as [s' [a|e]]; simpl in *; [|done].
  apply Hf; [by apply HQ|done].
Qed.
Lemma preserves_and (Q : S → Prop) {A} (m : op S E A) :
  preserves P m → preserves Q m → preserves (λ s, P s ∧ Q s) m.
Proof. intros H1 H2 s [? ?]. split; [by apply H1|by apply H2]. Qed.
Lemma pres_lift {A} (r : result E A) : preserves P (lift (S:=S) r).
Proof. by intros s. Qed.
Lemma pres_gets {A} (f : S → A) : preserves (E:=E) P (gets f).
Proof. by intros s. Qed.
Lemma pres_ret {A} (a : A) : preserves (E:=E) P (mret a).
Proof. by intros s. Qed.
Lemma pres_throw {A} e : preserves P (throw (S:=S) (E:=E) (A:=A) e).
Proof. by intros s. Qed.
Lemma pres_fail_if b e : preserves P (fail_if (S:=S) (E:=E) b e).
Proof. intros s Hs. unfold exec. by destruct b. Qed.
Lemma pres_modify (f : S → S) : (∀ s, P s → P (f s)) → preserves (E:=E) P (modify f).
Proof. intros Hf s Hs. by apply Hf. Qed.
Lemma pres_or_err {E' A} (m : op S E' A) (e : E) : preserves P m → preserves P (or_err m e).
Proof.
  intros Hm s Hs. unfold exec, or_err. specialize (Hm s Hs). unfold exec in Hm.
  by destruct (m s) as [s' [a|e']].
Qed.
Lemma pres_try_op {E' A} (m : op S E' A) : preserves P m → preserves (E:=E) P (try_op m).
Proof.
  intros Hm s Hs. unfold exec, try_op. specialize (Hm s Hs). unfold exec in Hm.
  by destruct (m s) as [s' [a|e']].
Qed.
Lemma pres_ignore {E' A} (m : op S E' A) : preserves P m → preserves (E:=E) P (ignore_err m).
Proof. intros Hm s Hs. by apply Hm. Qed.
Lemma pres_when b (m : op S E unit) : (b = true → preserves P m) → preserves P (when b m).
Proof. intros Hm. destruct b; [by apply Hm|apply pres_ret]. Qed.

(** What follows a check, a look-up or a computed value may use it. *)
Lemma pres_check {A} b e (m : op S E A) :
  (b = false → preserves P m) → preserves P (fail_if b e ;; m).
Proof. intros Hm s Hs. rewrite exec_fail_if. destruct b; [done|by apply Hm]. Qed.
Lemma pres_lift_bind {A B} (r : result E A) (f : A → op S E B) :
  (∀ a, r = Ok a → preserves P (f a)) → preserves P (lift r ≫= f).
Proof. intros Hf s Hs. rewrite exec_lift. destruct r as [a|e]; [by apply (Hf a)|done]. Qed.
Lemma pres_gets_bind {A B} (g : S → A) (f : A → op S E B) :
  (∀ s, P s → P (exec (f (g s)) s)) → preserves P (gets g ≫= f).
Proof. intros Hf s Hs. rewrite exec_gets. by apply Hf. Qed.
End preserves.

#[export] Hint Resolve pres_lift pres_gets pres_ret pres_throw pres_fail_if : opdb.

(** ** Searching a slice

    [for i := range xs { if p(xs[i]) { ... return } }]: the first index whose
    element satisfies the test. *)

Fixpoint findi {A} (p : A → bool) (l : list A) : option (nat * A) :=
  match l with
  | [] => None
  | x :: l' =>
      if p x then Some (0%nat, x)
      else match findi p l' with
           | Some (i, y) => Some (S i, y)
           | None => None
           end
  end.

Lemma findi_Some {A} (p : A → bool) l i x :
  findi p l = Some (i, x) →
  l !! i = Some x ∧ p x = true ∧ ∀ j y, (j < i)%nat → l !! j = Some y → p y = false.
Proof.
  revert i; induction l as [|a l IH]; intros i H; [done|]. simpl in H.
  destruct (p a) eqn:Hp.
  - simplify_eq. repeat split; auto. intros j y Hj; lia.
  - destruct (findi p l) as [[k y]|] eqn:Hf; simplify_eq.
    destruct (IH _ eq_refl) as (H1 & H2 & H3). repeat split; auto.
    intros [|j] z Hj Hz; simpl in *; simplify_eq; auto. eapply H3; eauto. lia.
Qed.

Lemma findi_lookup {A} (p : A → bool) l i x : findi p l = Some (i, x) → l !! i = Some x.
Proof. intros H; by apply findi_Some in H as (? & _). Qed.

Lemma findi_true {A} (p : A → bool) l i x : findi p l = Some (i, x) → p x = true.
Proof. intros H; by apply findi_Some in H as (_ & ? & _). Qed.

Lemma findi_elem {A} (p : A → bool) l i x : findi p l = Some (i, x) → x ∈ l.
Proof. intros H%findi_lookup. by eapply list_elem_of_lookup_2. Qed.

Lemma findi_None {A} (p : A → bool) l :
  findi p l = None ↔ ∀ x, x ∈ l → p x = false.
Proof.
  induction l as [|a l IH]; simpl; [split; [|done]; intros _ x Hx; inversion Hx|].
  destruct (p a) eqn:Hp.
  - split; [done|]. intros H. specialize (H a). rewrite Hp in H.
    discriminate H. set_solver.
  - destruct (findi p l) as [[i y]|]; split; try done.
    + intros H. destruct IH as [_ IH].
      discriminate IH. intros x Hx; apply H. set_solver.
    + intros _ x [->|Hx]%elem_of_cons; [done|]. by apply IH.
Qed.

Lemma findi_ext {A} (p q : A → bool) l : (∀ x, p x = q x) → findi p l = findi q l.
Proof. intros H; induction l as [|a l IH]; [done|]; simpl. by rewrite H, IH. Qed.

Lemma findi_insert {A} (p : A → bool) l i j (x0 y x : A) :
  l !! i = Some x0 → p y = p x0 → findi p l = Some (j, x) →
  findi p (<[i := y]> l) = Some (j, if Nat.eqb i j then y else x).
Proof.
  revert i j; induction l as [|a l IH]; intros i j Hl Hp Hf; [done|]. simpl in Hf.
  destruct i as [|i]; simpl in Hl.
  - simplify_eq. simpl. rewrite Hp. destruct (p x0); [by simplify_eq|].
    destruct (findi p l) as [[k z]|]; by simplify_eq.
  - change (<[S i := y]> (a :: l)) with (a :: <[i := y]> l). cbn [findi]. destruct (p a); [by simplify_eq|].
    destruct (findi p l) as [[k z]|] eqn:Hk; simplify_eq. by rewrite (IH i k Hl Hp eq_refl).
Qed.

#[export] Hint Resolve findi_lookup findi_true findi_elem : opdb.

(** Boolean filters: [filterb] keeps the elements a Go loop appends. *)
Fixpoint filterb {A} (p : A → bool) (l : list A) : list A :=
  match l with
  | [] => []
  | x :: l' => if p x then x :: filterb p l' else filterb p l'
  end.

Lemma elem_of_filterb {A} (p : A → bool) l x : x ∈ filterb p l ↔ p x = true ∧ x ∈ l.
Proof.
  induction l as [|a l IH]; simpl; [set_solver|].
  destruct (p a) eqn:Hp; rewrite ?elem_of_cons, IH; naive_solver congruence.
Qed.

Lemma filterb_app {A} (p : A → bool) l k : filterb p (l ++ k) = filterb p l ++ filterb p k.
Proof. induction l as [|a l IH]; [done|]; simpl. destruct (p a); simpl; by rewrite IH. Qed.

Lemma filterb_length {A} (p : A → bool) l : (length (filterb p l) ≤ length l)%nat.
Proof. induction l as [|a l IH]; simpl; [lia|]. destruct (p a); simpl; lia. Qed.

Lemma filterb_idem {A} (p : A → bool) l : filterb p (filterb p l) = filterb p l.
Proof. induction l as [|a l IH]; [done|]; simpl. destruct (p a) eqn:H; simpl; by rewrite ?H, IH. Qed.

Lemma filterb_all {A} (p : A → bool) l : (∀ x, x ∈ l → p x = true) → filterb p l = l.
Proof.
  induction l as [|a l IH]; intros H; [done|]; simpl.
  rewrite (H a) by left. f_equal. apply IH. intros x Hx; apply H; by right.
Qed.

Lemma elem_of_delete_weaken {A} i (l : list A) x : x ∈ delete i l → x ∈ l.
Proof.
  revert i; induction l as [|a l IH]; intros [|i] H; simpl in *; [set_solver..|].
  apply elem_of_cons in H as [->|H]; [left|right; eauto].
Qed.

Definition existsb' {A} (p : A → bool) (l : list A) : bool :=
  match findi p l with Some _ => true | None => false end.

Lemma existsb'_true {A} (p : A → bool) l : existsb' p l = true ↔ ∃ x, x ∈ l ∧ p x = true.
Proof.
  unfold existsb'. destruct (findi p l) as [[i x]|] eqn:Hf.
  - split; [|done]. intros _. exists x. split; [by eapply findi_elem|by eapply findi_true].
  - rewrite findi_None in Hf. split; [done|]. intros (x & Hx & Hp). by rewrite Hf in Hp.
Qed.

Lemma existsb'_false {A} (p : A → bool) l : existsb' p l = false ↔ ∀ x, x ∈ l → p x = false.
Proof. unfold existsb'. rewrite <- findi_None. by destruct (findi p l) as [[]|]. Qed.

(** ** Maps

    A Go map is a [gmap].  [for k, v := range m] visits the entries in an order
    the language does not fix: [range] is any such order. *)

Class MapRange := {
  range : ∀ {K} `{Countable K} {A}, gmap K A → list (K * A);
  range_perm : ∀ {K} `{Countable K} {A} (m : gmap K A), range m ≡ₚ map_to_list m
}.

Lemma elem_of_range `{!MapRange} `{Countable K} {A} (m : gmap K A) k x :
  (k, x) ∈ range m ↔ m !! k = Some x.
Proof. by rewrite range_perm, elem_of_map_to_list. Qed.

(** One order, for the examples. *)
Definition sorted_range : MapRange :=
  {| range := λ K _ _ A m, map_to_list m; range_perm := λ K _ _ A m, Permutation_refl _ |}.

(** ** The environment of one call

    What a handler reads from outside during one call: the wall clock (all the
    [time.Now()] of one handler are identified), the hex digits read from
    [crypto/rand] for a new identifier ([None] when the read fails), and the
    reply of the state store's [Save] ([NoStore] when the service was built
    without one). *)

Inductive StoreReply := NoStore | StoreSaved | StoreFailed.

Record Env := mkEnv { now : Z; fresh : option string; store : StoreReply }.

(** The two errors every service can get from its environment. *)
Class ServiceErr (E : Type) := { ErrRand : E; ErrStore : E }.

(** ** The persistence interface

    What a service promises about its [StateStore]: the snapshot it would save
    now, the snapshot the store holds, and how a successful [Save] changes the
    latter and nothing else. *)

Class Persistent (St Snap : Type) := {
  snapshot : St → Snap;
  saved : St → option Snap;
  set_saved : option Snap → St → St;
  saved_set_saved : ∀ d s, saved (set_saved d s) = d;
  snapshot_set_saved : ∀ d s, snapshot (set_saved d s) = snapshot s
}.

Section persistence.
Context {St Snap E : Type} `{!Persistent St Snap, !ServiceErr E}.

(** [s.persistLocked()] *)
Definition persistLocked (env : Env) : op St E unit := λ s,
  match store env with
  | NoStore => (s, Ok tt)
  | StoreSaved => (set_saved (Some (snapshot s)) s, Ok tt)
  | StoreFailed => (s, Err ErrStore)
  end.

(** The store holds exactly the state in memory. *)
Definition durable (s : St) : Prop := saved s = Some (snapshot s).

Lemma persist_ok_durable env s s' :
  store env ≠ NoStore → persistLocked env s = (s', Ok tt) → durable s'.
Proof.
  unfold persistLocked, durable. destruct (store env); intros ? [=]; try done.
  subst. by rewrite saved_set_saved, snapshot_set_saved.
Qed.

Lemma persist_snapshot env s : snapshot (exec (persistLocked env) s) = snapshot s.
Proof.
  unfold exec, persistLocked. destruct (store env); simpl; try done.
  by rewrite snapshot_set_saved.
Qed.

Lemma persist_fails env s : store env = StoreFailed → persistLocked env s = (s, Err ErrStore).
Proof. unfold persistLocked. by intros ->. Qed.

(** A fresh identifier: [prefix + hex.EncodeToString(raw)]. *)
Definition fresh_id (prefix : string) (env : Env) : result E string :=
  match fresh env with
  | Some h => Ok (prefix +:+ h)
  | None => Err ErrRand
  end.
End persistence.

Arguments persistLocked {St Snap E _ _} env s.

(** ** Proof automation *)

(** Run a monadic operation symbolically in hypothesis [H] or in the goal. *)
Ltac op_run :=
  repeat (autorewrite with opdb_rw; cbv beta; simpl).
Ltac exec_run := repeat (autorewrite with exec_rw; cbv beta).
Ltac op_run_in H :=
  repeat (autorewrite with opdb_rw in H; cbv beta in H; simpl in H).

(** Split the next test a handler makes. *)
Ltac split_test H :=
  match type of H with
  | context [if ?b then _ else _] => destruct b eqn:?
  | context [match ?m with _ => _ end] => destruct m eqn:?
  end.

(** Booleans to propositions. *)
Ltac boolp :=
  repeat match goal with
  | H : (_ && _) = true |- _ => apply andb_true_iff in H as [? ?]
  | H : (_ || _) = false |- _ => apply orb_false_iff in H as [? ?]
  | H : negb _ = true |- _ => apply negb_true_iff in H
  | H : negb _ = false |- _ => apply negb_false_iff in H
  | H : String.eqb _ _ = true |- _ => apply String.eqb_eq in H
  | H : String.eqb _ _ = false |- _ => apply String.eqb_neq in H
  | H : (_ <? _)%Z = true |- _ => apply Z.ltb_lt in H
  | H : (_ <? _)%Z = false |- _ => apply Z.ltb_ge in H
  | H : (_ <=? _)%Z = true |- _ => apply Z.leb_le in H
  | H : (_ <=? _)%Z = false |- _ => apply Z.leb_gt in H
  | H : (_ =? _)%Z = true |- _ => apply Z.eqb_eq in H
  | H : (_ =? _)%Z = false |- _ => apply Z.eqb_neq in H
  end.

(** A proof that an operation keeps a predicate, by the structure of the
    operation; the calls it makes are left to the hints and to the caller. *)
Ltac pres_step :=
  first
  [ assumption
  | match goal with
    | |- preserves _ (mbind _ _) => apply pres_bind; [|intros ?]
    | |- preserves _ (lift _) => apply pres_lift
    | |- preserves _ (gets _) => apply pres_gets
    | |- preserves _ (mret _) => apply pres_ret
    | |- preserves _ (throw _) => apply pres_throw
    | |- preserves _ (fail_if _ _) => apply pres_fail_if
    | |- preserves _ (or_err _ _) => apply pres_or_err
    | |- preserves _ (try_op _) => apply pres_try_op
    | |- preserves _ (ignore_err _) => apply pres_ignore
    | |- preserves _ (when _ _) => apply pres_when; intros _
    end
  | match goal with |- preserves _ (match ?x with _ => _ end) => destruct x eqn:? end
  | match goal with |- preserves _ (let x := _ in _) => cbv zeta end
  | solve [eauto with opdb nocore] ].
Ltac pres_all := repeat pres_step.
