(* ===== verification/GoStrings.v ===== *)
(** * The parts of Go's [strings] package the services use

    A Go string is a byte sequence, here [string] (a list of 8-bit [ascii]).
    [TrimSpace] strips every Unicode white space rune by its UTF-8 encoding, as
    [unicode.IsSpace] does; case mapping ([ToLower], [ToUpper], [EqualFold]) is
    modelled on the ASCII letters and leaves other bytes alone. *)

From S2P Require Import Prelude.
#[local] Open Scope string_scope.
#[local] Open Scope Z_scope.

Definition code (c : ascii) : Z := Z.of_N (N_of_ascii c).
Definition chr (z : Z) : ascii := ascii_of_N (Z.to_N (z mod 256)).

(** [s == ""] *)
Definition is_empty (s : string) : bool := String.eqb s "".

Fixpoint rev_onto (s acc : string) : string :=
  match s with
  | EmptyString => acc
  | String c s' => rev_onto s' (String c acc)
  end.
Definition rev_string (s : string) : string := rev_onto s "".

(** White space runes of one, two and three bytes in UTF-8. *)
Definition space1 (a : ascii) : bool :=
  let x := code a in ((9 <=? x) && (x <=? 13)) || (x =? 32).
Definition space2 (a b : ascii) : bool :=
  (code a =? 194) && ((code b =? 133) || (code b =? 160)).
Definition space3 (a b c : ascii) : bool :=
  let x := code a in let y := code b in let z := code c in
  ((x =? 225) && (y =? 154) && (z =? 128))
  || ((x =? 226) && (y =? 128)
      && (((128 <=? z) && (z <=? 138)) || (z =? 168) || (z =? 169) || (z =? 175)))
  || ((x =? 226) && (y =? 129) && (z =? 159))
  || ((x =? 227) && (y =? 128) && (z =? 128)).

Fixpoint trim_left (s : string) : string :=
  match s with
  | String a ((String b ((String c v) as u)) as t) =>
      if space1 a then trim_left t
      else if space2 a b then trim_left u
      else if space3 a b c then trim_left v
      else s
  | String a ((String b EmptyString) as t) =>
      if space1 a then trim_left t
      else if space2 a b then "" else s
  | String a EmptyString => if space1 a then "" else s
  | EmptyString => ""
  end.

(** The same on the reversed string, so the bytes of a rune come last first. *)
Fixpoint trim_left_rev (s : string) : string :=
  match s with
  | String a ((String b ((String c v) as u)) as t) =>
      if space1 a then trim_left_rev t
      else if space2 b a then trim_left_rev u
      else if space3 c b a then trim_left_rev v
      else s
  | String a ((String b EmptyString) as t) =>
      if space1 a then trim_left_rev t
      else if space2 b a then "" else s
  | String a EmptyString => if space1 a then "" else s
  | EmptyString => ""
  end.

Definition trim_right (s : string) : string := rev_string (trim_left_rev (rev_string s)).

(** [strings.TrimSpace] *)
Definition TrimSpace (s : string) : string := trim_right (trim_left s).

Definition map_string (f : ascii → ascii) : string → string :=
  fix go s := match s with EmptyString => "" | String c s' => String (f c) (go s') end.

Definition lower_ascii (c : ascii) : ascii :=
  if (65 <=? code c) && (code c <=? 90) then chr (code c + 32) else c.
Definition upper_ascii (c : ascii) : ascii :=
  if (97 <=? code c) && (code c <=? 122) then chr (code c - 32) else c.

Definition ToLower : string → string := map_string lower_ascii.
Definition ToUpper : string → string := map_string upper_ascii.
Definition EqualFold (a b : string) : bool := String.eqb (ToLower a) (ToLower b).

(** [strings.Split(s, sep)] for a one-byte separator; never empty. *)
Fixpoint Split (s : string) (sep : ascii) : list string :=
  match s with
  | EmptyString => [""]
  | String c s' =>
      if Ascii.eqb c sep then "" :: Split s' sep
      else match Split s' sep with
           | [] => [String c ""]
           | w :: ws => String c w :: ws
           end
  end.

(** [strings.SplitN(s, sep, 2)]: cut once, at the first separator. *)
Fixpoint SplitN2 (s : string) (sep : ascii) : option (string * string) :=
  match s with
  | EmptyString => None
  | String c s' =>
      if Ascii.eqb c sep then Some ("", s')
      else match SplitN2 s' sep with
           | Some (a, b) => Some (String c a, b)
           | None => None
           end
  end.

Fixpoint HasPrefix (s p : string) : bool :=
  match p, s with
  | EmptyString, _ => true
  | String a p', String b s' => Ascii.eqb a b && HasPrefix s' p'
  | _, _ => false
  end.

(** [strings.TrimPrefix] *)
Definition TrimPrefix (s p : string) : string :=
  if HasPrefix s p then String.substring (String.length p) (String.length s - String.length p) s else s.

(** The ASCII fields of [strings.Fields]. *)
Fixpoint fields_go (s cur : string) : list string :=
  match s with
  | EmptyString => if is_empty cur then [] else [rev_string cur]
  | String c s' =>
      if space1 c then
        if is_empty cur then fields_go s' "" else rev_string cur :: fields_go s' ""
      else fields_go s' (String c cur)
  end.
Definition Fields (s : string) : list string := fields_go s "".

Definition len (s : string) : Z := Z.of_nat (String.length s).

Definition is_digit (c : ascii) : bool := (48 <=? code c) && (code c <=? 57).

(** Every byte of a string passes a test. *)
Fixpoint all_chars (p : ascii → bool) (s : string) : bool :=
  match s with EmptyString => true | String c s' => p c && all_chars p s' end.

(** ** Facts *)

Lemma code_range c : 0 <= code c < 256.
Proof. unfold code. pose proof (N_ascii_bounded c). lia. Qed.

Lemma chr_code c : chr (code c) = c.
Proof.
  unfold chr. rewrite Z.mod_small by apply code_range.
  unfold code. rewrite N2Z.id. apply ascii_N_embedding.
Qed.

Lemma code_chr z : code (chr z) = z mod 256.
Proof.
  unfold code, chr. pose proof (Z.mod_pos_bound z 256 ltac:(lia)).
  rewrite N_ascii_embedding; lia.
Qed.

Lemma lower_ascii_idem c : lower_ascii (lower_ascii c) = lower_ascii c.
Proof.
  unfold lower_ascii at 2 3. destruct ((65 <=? code c) && (code c <=? 90)) eqn:H.
  - unfold lower_ascii. boolp. rewrite code_chr, Z.mod_small by lia.
    by replace (code c + 32 <=? 90) with false by lia; rewrite andb_false_r.
  - unfold lower_ascii. by rewrite H.
Qed.

Lemma map_string_idem f s : (∀ c, f (f c) = f c) → map_string f (map_string f s) = map_string f s.
Proof. intros Hf; induction s as [|c s IH]; simpl; [done|]. by rewrite Hf, IH. Qed.

Lemma ToLower_idem s : ToLower (ToLower s) = ToLower s.
Proof. apply map_string_idem, lower_ascii_idem. Qed.

Lemma EqualFold_refl s : EqualFold s s = true.
Proof. apply String.eqb_refl. Qed.
Lemma EqualFold_sym a b : EqualFold a b = EqualFold b a.
Proof. apply String.eqb_sym. Qed.
Lemma EqualFold_eq a b : EqualFold a b = true ↔ ToLower a = ToLower b.
Proof. apply String.eqb_eq. Qed.
Lemma EqualFold_trans a b c : EqualFold a b = true → EqualFold b c = EqualFold a c.
Proof. rewrite EqualFold_eq. unfold EqualFold. by intros ->. Qed.

Lemma is_empty_true s : is_empty s = true ↔ s = "".
Proof. apply String.eqb_eq. Qed.
Lemma is_empty_false s : is_empty s = false ↔ s ≠ "".
Proof. apply String.eqb_neq. Qed.

Lemma Split_not_nil s c : Split s c ≠ [].
Proof. destruct s as [|a s]; simpl; [done|]. by destruct (Ascii.eqb a c), (Split s c). Qed.

(** *** Trimming *)

(** A white space rune comes first (last, in the reversed string). *)
Definition leads (w1 : ascii → bool) (w2 : ascii → ascii → bool)
    (w3 : ascii → ascii → ascii → bool) (s : string) : bool :=
  match s with
  | String a t =>
      w1 a || match t with
              | String b u => w2 a b || match u with String c _ => w3 a b c | _ => false end
              | _ => false
              end
  | _ => false
  end.

Abbreviation leads_l := (leads space1 space2 space3).
Abbreviation leads_r := (leads space1 (fun a b => space2 b a) (fun a b c => space3 c b a)).

Lemma trim_left_fix s : leads_l s = false → trim_left s = s.
Proof.
  destruct s as [|a [|b [|c s]]]; simpl; try done; rewrite ?orb_false_r; [by intros -> | |].
  - intros [-> ->]%orb_false_iff. done.
  - intros [-> [-> ->]%orb_false_iff]%orb_false_iff. done.
Qed.

Lemma trim_left_rev_fix s : leads_r s = false → trim_left_rev s = s.
Proof.
  destruct s as [|a [|b [|c s]]]; simpl; try done; rewrite ?orb_false_r; [by intros -> | |].
  - intros [-> ->]%orb_false_iff. done.
  - intros [-> [-> ->]%orb_false_iff]%orb_false_iff. done.
Qed.

Lemma append_cons c s t : String c s +:+ t = String c (s +:+ t).
Proof. reflexivity. Qed.
Lemma append_nil s : "" +:+ s = s.
Proof. reflexivity. Qed.
Lemma sapp_assoc a b c : a +:+ (b +:+ c) = (a +:+ b) +:+ c.
Proof. induction a as [|x a IH]; [done|]. by rewrite !append_cons, IH. Qed.
Lemma sapp_nil_r a : a +:+ "" = a.
Proof. induction a as [|x a IH]; [done|]. by rewrite append_cons, IH. Qed.

(** Both loops stop at a string without a leading rune, a suffix of the input. *)
Lemma trim_loop (f : string → string) (lead : string → bool) :
  (∀ s, lead s = false → f s = s) →
  (∀ s, lead s = true → ∃ p t, s = p +:+ t ∧ (String.length t < String.length s)%nat ∧ f s = f t) →
  ∀ s, lead (f s) = false ∧ ∃ p, s = p +:+ f s.
Proof.
  intros Hfix Hgo s. induction s as [s IH] using (well_founded_induction
    (Wf_nat.well_founded_ltof _ String.length)). unfold Wf_nat.ltof in IH.
  destruct (lead s) eqn:Hl.
  - destruct (Hgo s Hl) as (p & t & -> & Hlen & ->).
    destruct (IH t Hlen) as [H1 [q Hq]]. split; [done|]. exists (p +:+ q).
    rewrite <- sapp_assoc. by rewrite <- Hq.
  - rewrite Hfix by done. split; [done|]. by exists "".
Qed.

#[local] Ltac drop_rune p t :=
  intros; exists p, t; split_and!; [reflexivity | simpl; lia | reflexivity].

Lemma trim_left_spec s : leads_l (trim_left s) = false ∧ ∃ p, s = p +:+ trim_left s.
Proof.
  apply trim_loop; [apply trim_left_fix|].
  clear s; intros [|a [|b [|c s]]]; simpl; try done; rewrite ?orb_false_r.
  - intros ->. drop_rune (String a "") "".
  - destruct (space1 a); simpl; [drop_rune (String a "") (String b "")|].
    intros ->. drop_rune (String a (String b "")) "".
  - destruct (space1 a); simpl; [drop_rune (String a "") (String b (String c s))|].
    destruct (space2 a b); simpl; [drop_rune (String a (String b "")) (String c s)|].
    intros ->. drop_rune (String a (String b (String c ""))) s.
Qed.

Lemma trim_left_rev_spec s : leads_r (trim_left_rev s) = false ∧ ∃ p, s = p +:+ trim_left_rev s.
Proof.
  apply trim_loop; [apply trim_left_rev_fix|].
  clear s; intros [|a [|b [|c s]]]; simpl; try done; rewrite ?orb_false_r.
  - intros ->. drop_rune (String a "") "".
  - destruct (space1 a); simpl; [drop_rune (String a "") (String b "")|].
    intros ->. drop_rune (String a (String b "")) "".
  - destruct (space1 a); simpl; [drop_rune (String a "") (String b (String c s))|].
    destruct (space2 b a); simpl; [drop_rune (String a (String b "")) (String c s)|].
    intros ->. drop_rune (String a (String b (String c ""))) s.
Qed.

Lemma rev_onto_app s acc : rev_onto s acc = rev_string s +:+ acc.
Proof.
  unfold rev_string. revert acc; induction s as [|c s IH]; intros acc; simpl; [done|].
  by rewrite (IH (String c acc)), (IH (String c "")), <- sapp_assoc, append_cons.
Qed.

Lemma rev_string_cons c s : rev_string (String c s) = rev_string s +:+ String c "".
Proof. unfold rev_string at 1; simpl. apply rev_onto_app. Qed.

Lemma rev_string_app a b : rev_string (a +:+ b) = rev_string b +:+ rev_string a.
Proof.
  induction a as [|c a IH]; [by rewrite append_nil, sapp_nil_r|].
  by rewrite append_cons, !rev_string_cons, IH, sapp_assoc.
Qed.

Lemma rev_string_involutive s : rev_string (rev_string s) = s.
Proof. induction s as [|c s IH]; [done|]. by rewrite rev_string_cons, rev_string_app, IH. Qed.

Lemma leads_prefix w1 w2 w3 a b : leads w1 w2 w3 (a +:+ b) = false → leads w1 w2 w3 a = false.
Proof.
  destruct a as [|x [|y [|z a]]]; rewrite ?append_cons; simpl; try done; intros H;
    apply orb_false_iff in H as [-> H]; simpl; [done|].
  by apply orb_false_iff in H as [-> _].
Qed.

(** [trim_right s] is a prefix of [s] whose end is not a white space rune. *)
Lemma trim_right_spec s :
  leads_r (rev_string (trim_right s)) = false ∧ ∃ q, s = trim_right s +:+ q.
Proof.
  unfold trim_right. rewrite rev_string_involutive.
  destruct (trim_left_rev_spec (rev_string s)) as [H [p Hp]]. split; [done|].
  exists (rev_string p). rewrite <- rev_string_app, <- Hp. by rewrite rev_string_involutive.
Qed.

Lemma trim_right_fix s : leads_r (rev_string s) = false → trim_right s = s.
Proof. intros H. unfold trim_right. by rewrite trim_left_rev_fix, rev_string_involutive. Qed.

(** A string that [TrimSpace] leaves alone. *)
Definition trimmed (s : string) : Prop := leads_l s = false ∧ leads_r (rev_string s) = false.

Lemma trimmed_TrimSpace s : trimmed (TrimSpace s).
Proof.
  unfold TrimSpace. destruct (trim_left_spec s) as [H _].
  destruct (trim_right_spec (trim_left s)) as [Hr [q Hq]]. split; [|done].
  rewrite Hq in H. by apply leads_prefix in H.
Qed.

Lemma TrimSpace_fix s : trimmed s → TrimSpace s = s.
Proof. intros [H1 H2]. unfold TrimSpace. by rewrite trim_left_fix, trim_right_fix. Qed.

Lemma TrimSpace_idem s : TrimSpace (TrimSpace s) = TrimSpace s.
Proof. apply TrimSpace_fix, trimmed_TrimSpace. Qed.

(** Case mapping changes letters only, and no letter is part of a white space rune. *)
Lemma lower_ascii_code c :
  code (lower_ascii c) = if (65 <=? code c) && (code c <=? 90) then code c + 32 else code c.
Proof.
  unfold lower_ascii. destruct ((65 <=? code c) && (code c <=? 90)) eqn:H; [|done].
  boolp. rewrite code_chr, Z.mod_small; lia.
Qed.

Lemma space1_lower a : space1 (lower_ascii a) = space1 a.
Proof. unfold space1. rewrite lower_ascii_code. repeat case_match; boolp; lia. Qed.

Lemma leads_lower w2 w3 s :
  (∀ a b, w2 (lower_ascii a) (lower_ascii b) = w2 a b) →
  (∀ a b c, w3 (lower_ascii a) (lower_ascii b) (lower_ascii c) = w3 a b c) →
  leads space1 w2 w3 (ToLower s) = leads space1 w2 w3 s.
Proof.
  intros H2 H3. destruct s as [|a [|b [|c s]]]; simpl; try done; by rewrite space1_lower, ?H2, ?H3.
Qed.

Lemma lower_high c k : 128 <= k → (code (lower_ascii c) =? k) = (code c =? k).
Proof. intros Hk. rewrite lower_ascii_code. case_match; boolp; lia. Qed.

Lemma lower_above c k : 128 <= k → (k <=? code (lower_ascii c)) = (k <=? code c).
Proof. intros Hk. rewrite lower_ascii_code. case_match; boolp; lia. Qed.

Lemma space2_lower a b : space2 (lower_ascii a) (lower_ascii b) = space2 a b.
Proof. unfold space2. by rewrite !lower_high by lia. Qed.

Lemma space3_lower a b c :
  space3 (lower_ascii a) (lower_ascii b) (lower_ascii c) = space3 a b c.
Proof.
  unfold space3. rewrite !lower_high, lower_above by lia.
  destruct (Z.leb_spec 128 (code c)); [|done].
  replace (code (lower_ascii c)) with (code c); [done|].
  rewrite lower_ascii_code. case_match; boolp; lia.
Qed.

Lemma ToLower_cons c s : ToLower (String c s) = String (lower_ascii c) (ToLower s).
Proof. reflexivity. Qed.
Lemma ToLower_app a b : ToLower (a +:+ b) = ToLower a +:+ ToLower b.
Proof. induction a as [|x a IH]; [done|]. by rewrite !append_cons, !ToLower_cons, append_cons, IH. Qed.

Lemma rev_string_lower s : rev_string (ToLower s) = ToLower (rev_string s).
Proof.
  induction s as [|c s IH]; [done|].
  by rewrite ToLower_cons, !rev_string_cons, IH, ToLower_app.
Qed.

Lemma trimmed_lower s : trimmed s → trimmed (ToLower s).
Proof.
  unfold trimmed. rewrite rev_string_lower, !leads_lower; [done|..];
    intros; first [apply space2_lower | apply space3_lower].
Qed.

Lemma TrimSpace_lower s : TrimSpace (ToLower (TrimSpace s)) = ToLower (TrimSpace s).
Proof. apply TrimSpace_fix, trimmed_lower, trimmed_TrimSpace. Qed.

(** Strings of visible ASCII characters need no trimming. *)
Definition visible (c : ascii) : bool := (33 <=? code c) && (code c <=? 126).

Lemma all_chars_app p a b : all_chars p (a +:+ b) = all_chars p a && all_chars p b.
Proof.
  induction a as [|c a IH]; [done|]. rewrite append_cons. simpl. rewrite IH. by rewrite andb_assoc.
Qed.

Lemma all_chars_rev p s : all_chars p (rev_string s) = all_chars p s.
Proof.
  induction s as [|c s IH]; [done|]. rewrite rev_string_cons, all_chars_app, IH. simpl.
  rewrite andb_true_r. apply andb_comm.
Qed.

Lemma visible_leads s w2 w3 :
  (∀ a b, visible a = true → w2 a b = false) → (∀ a b c, visible a = true → w3 a b c = false) →
  all_chars visible s = true → leads space1 w2 w3 s = false.
Proof.
  intros H2 H3. destruct s as [|a s]; simpl; [done|]. intros [Ha _]%andb_true_iff.
  assert (space1 a = false) as -> by (unfold space1, visible in *; lia).
  destruct s as [|b [|c s]]; simpl; [done|..]; by rewrite ?H2, ?H3.
Qed.

Lemma visible_trimmed s : all_chars visible s = true → trimmed s.
Proof.
  intros H. split; apply visible_leads; rewrite ?all_chars_rev; auto;
    intros; unfold visible, space2, space3 in *; lia.
Qed.

Lemma all_chars_weaken (p q : ascii → bool) s :
  (∀ c, p c = true → q c = true) → all_chars p s = true → all_chars q s = true.
Proof.
  intros H; induction s as [|c s IH]; simpl; [done|]. intros [??]%andb_true_iff.
  rewrite H by done. auto.
Qed.

(** Cutting at the first separator. *)
Lemma SplitN2_app a b sep :
  all_chars (fun c => negb (Ascii.eqb c sep)) a = true →
  SplitN2 (a +:+ String sep b) sep = Some (a, b).
Proof.
  induction a as [|c a IH]; intros H.
  - rewrite append_nil. simpl. by rewrite Ascii.eqb_refl.
  - rewrite append_cons. simpl in *. apply andb_true_iff in H as [Hc Ha].
    apply negb_true_iff in Hc. by rewrite Hc, IH.
Qed.

Lemma SplitN2_none s sep :
  all_chars (fun c => negb (Ascii.eqb c sep)) s = true → SplitN2 s sep = None.
Proof.
  induction s as [|c s IH]; simpl; [done|]. intros [Hc Ha]%andb_true_iff.
  apply negb_true_iff in Hc. by rewrite Hc, IH.
Qed.

Lemma HasPrefix_app p s : HasPrefix (p +:+ s) p = true.
Proof. induction p as [|c p IH]; [by destruct s|]. rewrite append_cons. simpl. by rewrite Ascii.eqb_refl. Qed.

Lemma string_length_app a b : String.length (a +:+ b) = (String.length a + String.length b)%nat.
Proof. induction a as [|c a IH]; [done|]. rewrite append_cons. simpl. by rewrite IH. Qed.

Lemma substring_all s : String.substring 0 (String.length s) s = s.
Proof. induction s as [|c s IH]; simpl; [done|]. by rewrite IH. Qed.

Lemma substring_drop p s :
  String.substring (String.length p) (String.length s) (p +:+ s) = s.
Proof. induction p as [|c p IH]; [apply substring_all|]. rewrite append_cons. apply IH. Qed.

Lemma TrimPrefix_app p s : TrimPrefix (p +:+ s) p = s.
Proof.
  unfold TrimPrefix. rewrite HasPrefix_app, string_length_app.
  replace (_ + _ - _)%nat with (String.length s) by lia. apply substring_drop.
Qed.
