(* ===== verification/GoTime.v ===== *)
(** * Go's [time] as the services use it

    An instant ([time.Time]) is the number of nanoseconds since the Unix epoch,
    a [Z]; the zero [Time] (1 January of year 1, UTC) is [time_zero].  A
    [time.Duration] is a signed 64-bit number of nanoseconds, written as a [Z]
    with its wrap-around ([wrap64]) or saturation ([time_sub]) where Go has it.
    [parse_rfc3339] follows [time.Parse(time.RFC3339, s)] and [format_rfc3339]
    follows [Format(time.RFC3339)] in UTC, for years 0 to 9999. *)

From S2P Require Import Prelude GoStrings.
#[local] Open Scope string_scope.
#[local] Open Scope Z_scope.

Definition second : Z := 1000000000.
Definition millisecond : Z := 1000000.
Definition minute : Z := 60 * second.
Definition hour : Z := 60 * minute.

Definition min_int64 : Z := - 2 ^ 63.
Definition max_int64 : Z := 2 ^ 63 - 1.

(** Two's complement wrap-around of [int64] arithmetic. *)
Definition wrap64 (z : Z) : Z := (z + 2 ^ 63) mod 2 ^ 64 - 2 ^ 63.

(** [t.Sub(u)] saturates at the ends of [Duration]. *)
Definition time_sub (t u : Z) : Z := Z.max min_int64 (Z.min max_int64 (t - u)).

Definition time_zero : Z := -62135596800 * second.
Definition IsZero (t : Z) : bool := t =? time_zero.
Definition After (t u : Z) : bool := u <? t.
Definition Before (t u : Z) : bool := t <? u.

(** [t.Unix()]: whole seconds, rounded towards minus infinity. *)
Definition Unix (t : Z) : Z := t / second.

(** ** Calendar *)

Definition is_leap (y : Z) : bool :=
  (y mod 4 =? 0) && (negb (y mod 100 =? 0) || (y mod 400 =? 0)).

Definition days_in (m y : Z) : Z :=
  if m =? 2 then (if is_leap y then 29 else 28)
  else if (m =? 4) || (m =? 6) || (m =? 9) || (m =? 11) then 30 else 31.

(** Days since 1970-01-01 of a civil date (proleptic Gregorian). *)
Definition days_from_civil (y m d : Z) : Z :=
  let y' := if m <=? 2 then y - 1 else y in
  let era := y' / 400 in
  let yoe := y' - era * 400 in
  let mp := if 2 <? m then m - 3 else m + 9 in
  let doy := (153 * mp + 2) / 5 + d - 1 in
  let doe := yoe * 365 + yoe / 4 - yoe / 100 + doy in
  era * 146097 + doe - 719468.

Definition civil_from_days (n : Z) : Z * Z * Z :=
  let z := n + 719468 in
  let era := z / 146097 in
  let doe := z - era * 146097 in
  let yoe := (doe - doe / 1460 + doe / 36524 - doe / 146096) / 365 in
  let doy := doe - (365 * yoe + yoe / 4 - yoe / 100) in
  let mp := (5 * doy + 2) / 153 in
  let d := doy - (153 * mp + 2) / 5 + 1 in
  let m := if mp <? 10 then mp + 3 else mp - 9 in
  let y := yoe + era * 400 in
  ((if m <=? 2 then y + 1 else y), m, d).

Definition seconds_per_day : Z := 86400.

(** [time.Weekday]: Sunday = 0. *)
Definition weekday_of_days (n : Z) : Z := (n + 4) mod 7.

(** ** Parsing *)

Definition digit (c : ascii) : option Z := if is_digit c then Some (code c - 48) else None.

(** [getnum(s, fixed)]: one or two digits, exactly two when [fixed]. *)
Definition getnum (s : string) (fixed : bool) : option (Z * string) :=
  match s with
  | String a ((String b r) as t) =>
      match digit a, digit b with
      | Some x, Some y => Some (x * 10 + y, r)
      | Some x, None => if fixed then None else Some (x, t)
      | None, _ => None
      end
  | String a EmptyString =>
      match digit a with Some x => if fixed then None else Some (x, "") | None => None end
  | EmptyString => None
  end.

Definition skip (c : ascii) (s : string) : option string :=
  match s with
  | String a r => if Ascii.eqb a c then Some r else None
  | EmptyString => None
  end.

Definition in_range (lo hi : Z) (r : option (Z * string)) : option (Z * string) :=
  match r with
  | Some (x, s) => if (lo <=? x) && (x <=? hi) then r else None
  | None => None
  end.

Definition get_year (s : string) : option (Z * string) :=
  '(a, s1) ← getnum s true; '(b, s2) ← getnum s1 true; Some (a * 100 + b, s2).

(** The digits of a fractional second, nine kept, as nanoseconds. *)
Fixpoint frac_digits (s : string) (scale acc : Z) : Z * string :=
  match s with
  | String c r =>
      match digit c with
      | Some d => frac_digits r (scale / 10) (acc + d * scale)
      | None => (acc, s)
      end
  | EmptyString => (acc, s)
  end.

Definition get_frac (s : string) : Z * string :=
  match s with
  | String p ((String c _) as t) =>
      if ((code p =? 46) || (code p =? 44)) && is_digit c
      then frac_digits t 100000000 0 else (0, s)
  | _ => (0, s)
  end.

(** [Z07:00]: the offset in seconds. *)
Definition get_zone (s : string) : option (Z * string) :=
  match skip "Z"%char s with
  | Some r => Some (0, r)
  | None =>
      match s with
      | String sg r =>
          '(hh, r1) ← in_range 0 24 (getnum r true);
          r2 ← skip ":"%char r1;
          '(mm, r3) ← in_range 0 60 (getnum r2 true);
          let off := (hh * 60 + mm) * 60 in
          if code sg =? 43 then Some (off, r3)
          else if code sg =? 45 then Some (- off, r3) else None
      | EmptyString => None
      end
  end.

(** [time.Parse(time.RFC3339, s)] *)
Definition parse_rfc3339 (s : string) : option Z :=
  '(y, s) ← get_year s; s ← skip "-"%char s;
  '(mo, s) ← in_range 1 12 (getnum s true); s ← skip "-"%char s;
  '(d, s) ← getnum s true; s ← skip "T"%char s;
  '(h, s) ← in_range 0 23 (getnum s false); s ← skip ":"%char s;
  '(mi, s) ← in_range 0 59 (getnum s true); s ← skip ":"%char s;
  '(sec, s) ← in_range 0 59 (getnum s true);
  let '(ns, s) := get_frac s in
  '(off, s) ← get_zone s;
  if negb (is_empty s) then None
  else if (d <? 1) || (days_in mo y <? d) then None
  else Some ((days_from_civil y mo d * seconds_per_day + h * 3600 + mi * 60 + sec - off)
             * second + ns).

(** ** Formatting *)

Definition digit_char (d : Z) : ascii := chr (48 + d mod 10).
Definition two (z : Z) : string := String (digit_char (z / 10)) (String (digit_char z) "").
Definition four (z : Z) : string := two (z / 100) +:+ two (z mod 100).

Definition format_date (days : Z) : string :=
  let '(y, m, d) := civil_from_days days in four y +:+ "-" +:+ two m +:+ "-" +:+ two d.

(** [t.UTC().Format(time.RFC3339)] *)
Definition format_rfc3339 (t : Z) : string :=
  let s := Unix t in
  let days := s / seconds_per_day in
  let r := s mod seconds_per_day in
  format_date days +:+ "T" +:+ two (r / 3600) +:+ ":" +:+ two (r / 60 mod 60)
    +:+ ":" +:+ two (r mod 60) +:+ "Z".

(** ** Facts *)

Lemma wrap64_small z : min_int64 <= z <= max_int64 → wrap64 z = z.
Proof. unfold wrap64, min_int64, max_int64. intros. rewrite Z.mod_small; lia. Qed.

Lemma wrap64_range z : min_int64 <= wrap64 z <= max_int64.
Proof.
  unfold wrap64, min_int64, max_int64.
  pose proof (Z.mod_pos_bound (z + 2 ^ 63) (2 ^ 64) ltac:(lia)). lia.
Qed.

Lemma time_sub_gt t u d : min_int64 <= d < max_int64 → (d <? time_sub t u) = (d <? t - u).
Proof. unfold time_sub, min_int64, max_int64. intros. lia. Qed.

Example parse_rfc3339_ex :
  parse_rfc3339 "2026-04-11T20:00:00+07:00" = Some (1775912400 * second).
Proof. vm_compute. reflexivity. Qed.

Example format_rfc3339_ex : format_rfc3339 (1775912400 * second) = "2026-04-11T13:00:00Z".
Proof. vm_compute. reflexivity. Qed.

Example parse_rejects : parse_rfc3339 "2026-02-29T00:00:00Z" = None.
Proof. vm_compute. reflexivity. Qed.
