(* ===== verification/Rfc3339.v ===== *)
(** * Times written and read back

    [time.Parse(time.RFC3339, t.UTC().Format(time.RFC3339))] is [t] without its
    fraction of a second, for the years a four-digit year can write.  The calendar
    is inverted first: [days_from_civil] and [civil_from_days]. *)

From S2P Require Import Prelude GoStrings GoTime.
#[local] Open Scope string_scope.
#[local] Open Scope Z_scope.

(** ** The calendar *)

(** Days before year [y] of an era that begins on 1 March. *)
Definition year_start (y : Z) : Z := 365 * y + y / 4 - y / 100.
Definition year_of (doe : Z) : Z := (doe - doe / 1460 + doe / 36524 - doe / 146096) / 365.

Lemma year_of_spec doe :
  0 <= doe < 146097 →
  0 <= year_of doe <= 399 ∧ year_start (year_of doe) <= doe
  ∧ (doe < year_start (year_of doe + 1) ∨ year_of doe = 399 ∧ doe = 146096).
Proof.
  intros H. unfold year_of, year_start.
  Z.to_euclidean_division_equations; lia.
Qed.

(** Month and day of a day of the year, from 1 March. *)
Definition month_index (doy : Z) : Z := (5 * doy + 2) / 153.
Definition month_of (mp : Z) : Z := if mp <? 10 then mp + 3 else mp - 9.
Definition day_of (doy : Z) : Z := doy - (153 * month_index doy + 2) / 5 + 1.

Lemma month_index_range doy : 0 <= doy <= 365 → 0 <= month_index doy <= 11.
Proof. unfold month_index. intros. Z.to_euclidean_division_equations; lia. Qed.

(** The day is one of the month; the 29th of February is the last of the year. *)
Definition day_ok (doy : Z) : bool :=
  let mo := month_of (month_index doy) in
  (1 <=? mo) && (mo <=? 12) && (1 <=? day_of doy)
  && (if mo =? 2 then (day_of doy <=? 28) || (doy =? 365)
      else day_of doy <=? (if (mo =? 4) || (mo =? 6) || (mo =? 9) || (mo =? 11) then 30 else 31)).

Lemma day_ok_all : forallb day_ok (seqZ 0 366) = true.
Proof. by vm_compute. Qed.
Lemma day_ok_at doy : 0 <= doy <= 365 → day_ok doy = true.
Proof.
  intros H. pose proof day_ok_all as Hall. rewrite forallb_forall in Hall. apply Hall.
  apply list_elem_of_In, elem_of_seqZ. lia.
Qed.
Lemma last_day_february doy : doy = 365 → month_of (month_index doy) = 2 ∧ day_of doy = 29.
Proof. by intros ->. Qed.

Lemma is_leap_era y era : is_leap (y + era * 400) = is_leap y.
Proof.
  unfold is_leap. replace (y + era * 400) with (y + (era * 100) * 4) at 1 by lia.
  rewrite Z_mod_plus_full. replace (y + era * 400) with (y + (era * 4) * 100) at 1 by lia.
  by rewrite !Z_mod_plus_full.
Qed.

(** A year of 366 days is followed by the leap day. *)
Lemma long_year_leap y : 0 <= y <= 399 → year_start (y + 1) - year_start y = 366 ∨ y = 399 → is_leap (y + 1) = true.
Proof.
  intros Hy H. unfold is_leap, year_start in *. destruct H as [H| ->]; [|done].
  destruct (Z.eqb_spec ((y + 1) mod 4) 0), (Z.eqb_spec ((y + 1) mod 100) 0), (Z.eqb_spec ((y + 1) mod 400) 0); try done;
    exfalso; Z.to_euclidean_division_equations; lia.
Qed.

Lemma civil_days n :
  let '(y, mo, d) := civil_from_days n in
  days_from_civil y mo d = n ∧ 1 <= mo <= 12 ∧ 1 <= d <= days_in mo y.
Proof.
  unfold civil_from_days. set (z := n + 719468). set (era := z / 146097). set (doe := z - era * 146097).
  assert (Hdoe : 0 <= doe < 146097) by (subst doe era; Z.to_euclidean_division_equations; lia).
  change ((doe - doe / 1460 + doe / 36524 - doe / 146096) / 365) with (year_of doe).
  destruct (year_of_spec doe Hdoe) as (Hy & Hlo & Hhi). set (yoe := year_of doe) in *.
  change (doe - (365 * yoe + yoe / 4 - yoe / 100)) with (doe - year_start yoe). set (doy := doe - year_start yoe).
  assert (Hlen : year_start (yoe + 1) - year_start yoe = 365 ∨ year_start (yoe + 1) - year_start yoe = 366).
  { unfold year_start. clear -Hy. Z.to_euclidean_division_equations; lia. }
  assert (H399 : year_start 399 = 145731) by done.
  assert (Hdoy : 0 <= doy <= 365) by (subst doy; destruct Hhi as [?|[E ?]]; [lia|rewrite E in *; lia]).
  change ((5 * doy + 2) / 153) with (month_index doy).
  change (doy - (153 * month_index doy + 2) / 5 + 1) with (day_of doy).
  change (if month_index doy <? 10 then month_index doy + 3 else month_index doy - 9) with (month_of (month_index doy)).
  set (mo := month_of (month_index doy)).
  pose proof (month_index_range doy Hdoy) as Hmp. pose proof (day_ok_at doy Hdoy) as Hok.
  assert (Hmo : (mo <=? 2) = negb (month_index doy <? 10)) by (subst mo; unfold month_of; destruct (_ <? _) eqn:?; lia).
  split; [|split].
  - unfold days_from_civil.
    replace (if mo <=? 2 then (if mo <=? 2 then yoe + era * 400 + 1 else yoe + era * 400) - 1
             else (if mo <=? 2 then yoe + era * 400 + 1 else yoe + era * 400)) with (yoe + era * 400)
      by (destruct (mo <=? 2); lia).
    rewrite Z_div_plus_full, (Z.div_small yoe) by lia. replace (yoe + era * 400 - (0 + era) * 400) with yoe by lia.
    replace (if 2 <? mo then mo - 3 else mo + 9) with (month_index doy).
    + unfold day_of. subst doy doe z. unfold year_start. lia.
    + subst mo. unfold month_of. destruct (Z.ltb_spec (month_index doy) 10);
        match goal with |- context [2 <? ?x] => destruct (Z.ltb_spec 2 x) end; lia.
  - unfold day_ok in Hok. fold mo in Hok. boolp. lia.
  - unfold day_ok in Hok. fold mo in Hok. boolp. split; [lia|]. unfold days_in.
    destruct (Z.eqb_spec mo 2) as [E|E]; [|lia]. rewrite E. simpl.
    replace (yoe + era * 400 + 1) with (yoe + 1 + era * 400) by lia. rewrite is_leap_era.
    destruct (Z.eqb_spec doy 365) as [Ed|Ed]; [|destruct (is_leap _); boolp; lia].
    rewrite long_year_leap; [rewrite Ed; by vm_compute|done|].
    subst doy. destruct Hhi as [?|[? ?]]; [left; lia|by right].
Qed.

(** Years that four digits can write. *)
Lemma civil_year n : -719528 <= n < 2932897 → 0 <= (civil_from_days n).1.1 <= 9999.
Proof.
  intros Hn. unfold civil_from_days. set (z := n + 719468). set (era := z / 146097). set (doe := z - era * 146097).
  assert (Hdoe : 0 <= doe < 146097) by (subst doe era; Z.to_euclidean_division_equations; lia).
  assert (Hera : -1 <= era <= 24) by (subst era z; Z.to_euclidean_division_equations; lia).
  change ((doe - doe / 1460 + doe / 36524 - doe / 146096) / 365) with (year_of doe).
  destruct (year_of_spec doe Hdoe) as (Hy & Hlo & Hhi). set (yoe := year_of doe) in *.
  change (doe - (365 * yoe + yoe / 4 - yoe / 100)) with (doe - year_start yoe). set (doy := doe - year_start yoe).
  change ((5 * doy + 2) / 153) with (month_index doy). cbv beta iota zeta. cbn [fst].
  change (if month_index doy <? 10 then month_index doy + 3 else month_index doy - 9) with (month_of (month_index doy)).
  assert (H399 : year_start 399 = 145731) by done. assert (H400 : year_start 400 = 146096) by done.
  destruct (Z.eq_dec era (-1)) as [E|].
  - assert (yoe = 399).
    { subst doe z. rewrite E in *. clear -Hn Hhi Hy H400. destruct Hhi as [Hhi|[? _]]; [|done].
      destruct (Z_lt_ge_dec yoe 399); [|lia]. exfalso. unfold year_start in *. Z.to_euclidean_division_equations; lia. }
    assert (month_of (month_index doy) <= 2).
    { subst doy doe z. rewrite E in *. rewrite H, H399 in *. unfold month_of, month_index.
      assert ((5 * (n + 719468 - -1 * 146097 - 145731) + 2) / 153 >= 10) by (Z.to_euclidean_division_equations; lia).
      destruct (Z.ltb_spec ((5 * (n + 719468 - -1 * 146097 - 145731) + 2) / 153) 10); [lia|].
      assert ((5 * (n + 719468 - -1 * 146097 - 145731) + 2) / 153 <= 11); [|lia].
      Z.to_euclidean_division_equations; lia. }
    destruct (Z.leb_spec (month_of (month_index doy)) 2); lia.
  - destruct (Z.eq_dec yoe 399) as [Ey|]; [|destruct (_ <=? 2); lia].
    destruct (Z.eq_dec era 24) as [E|]; [|destruct (_ <=? 2); lia].
    assert (2 < month_of (month_index doy)).
    { subst doy doe z. rewrite E, Ey, H399 in *. unfold month_of, month_index.
      assert ((5 * (n + 719468 - 24 * 146097 - 145731) + 2) / 153 <= 9) by (Z.to_euclidean_division_equations; lia).
      destruct (Z.ltb_spec ((5 * (n + 719468 - 24 * 146097 - 145731) + 2) / 153) 10); [|lia].
      assert (0 <= (5 * (n + 719468 - 24 * 146097 - 145731) + 2) / 153) by (Z.to_euclidean_division_equations; lia). lia. }
    destruct (Z.leb_spec (month_of (month_index doy)) 2); lia.
Qed.

(** ** Digits *)

Lemma digit_digit_char d : digit (digit_char d) = Some (d mod 10).
Proof.
  unfold digit_char. assert (Hd : 0 <= d mod 10 < 10) by (apply Z.mod_pos_bound; lia).
  assert (d mod 10 = 0 ∨ d mod 10 = 1 ∨ d mod 10 = 2 ∨ d mod 10 = 3 ∨ d mod 10 = 4 ∨ d mod 10 = 5 ∨ d mod 10 = 6
          ∨ d mod 10 = 7 ∨ d mod 10 = 8 ∨ d mod 10 = 9) as Hc by lia.
  by destruct_or! Hc; rewrite Hc.
Qed.

Lemma getnum_two z b s : 0 <= z <= 99 → getnum (two z +:+ s) b = Some (z, s).
Proof.
  intros Hz. unfold two. rewrite !append_cons, append_nil. unfold getnum. rewrite !digit_digit_char.
  do 2 f_equal. Z.to_euclidean_division_equations; lia.
Qed.

#[local] Arguments getnum : simpl never.
#[local] Arguments two : simpl never.

Lemma get_year_four y s : 0 <= y <= 9999 → get_year (four y +:+ s) = Some (y, s).
Proof.
  intros Hy. unfold get_year, four. rewrite <- sapp_assoc.
  rewrite getnum_two by (Z.to_euclidean_division_equations; lia). simpl.
  rewrite getnum_two by (Z.to_euclidean_division_equations; lia). simpl. do 2 f_equal.
  Z.to_euclidean_division_equations; lia.
Qed.

Lemma in_range_ok lo hi x s : lo <= x <= hi → in_range lo hi (Some (x, s)) = Some (x, s).
Proof. intros H. unfold in_range. by replace ((lo <=? x) && (x <=? hi)) with true by lia. Qed.

Lemma skip_char c s : skip c (String c "" +:+ s) = Some s.
Proof. rewrite append_cons, append_nil. simpl. by rewrite Ascii.eqb_refl. Qed.

(** ** The characters of a time *)

Lemma digit_char_ok (p : ascii → bool) d :
  (∀ k, (k < 10)%nat → p (chr (48 + Z.of_nat k)) = true) → p (digit_char d) = true.
Proof.
  intros Hp. unfold digit_char. assert (Hd : 0 <= d mod 10 < 10) by (apply Z.mod_pos_bound; lia).
  rewrite <- (Z2Nat.id (d mod 10)) by lia. apply Hp. lia.
Qed.

(** Whatever holds of the digits and of four other characters. *)
Lemma format_rfc3339_chars (p : ascii → bool) t :
  (∀ k, (k < 10)%nat → p (chr (48 + Z.of_nat k)) = true) → all_chars p "-T:Z" = true →
  all_chars p (format_rfc3339 t) = true.
Proof.
  intros Hd Hp. assert (Htwo : ∀ z, all_chars p (two z) = true).
  { intros z. unfold two. simpl. by rewrite !digit_char_ok. }
  simpl in Hp. boolp. unfold format_rfc3339, format_date, four. destruct (civil_from_days _) as [[y mo] d].
  rewrite !all_chars_app, !Htwo. simpl. by repeat match goal with H : p _ = true |- _ => rewrite H; clear H end.
Qed.

Lemma format_rfc3339_visible t : all_chars visible (format_rfc3339 t) = true.
Proof. apply format_rfc3339_chars; [|done]. intros k Hk. do 10 (destruct k as [|k]; [done|]). lia. Qed.
Lemma format_rfc3339_nonempty t : TrimSpace (format_rfc3339 t) ≠ "".
Proof.
  rewrite TrimSpace_fix by apply visible_trimmed, format_rfc3339_visible.
  unfold format_rfc3339, format_date, four. destruct (civil_from_days _) as [[y mo] d]. unfold two. by rewrite append_cons.
Qed.

(** ** The round trip *)

(** The instants whose year has four digits. *)
Definition four_digit_year (t : Z) : Prop := -62167219200 <= Unix t < 253402300800.

(** A time written as RFC 3339 and read back is the time without its fraction of a
    second, for every instant of the years 0 to 9999. *)
Theorem rfc3339_roundtrip t : four_digit_year t → parse_rfc3339 (format_rfc3339 t) = Some (Unix t * second).
Proof.
  unfold four_digit_year. intros Ht. unfold format_rfc3339, format_date, seconds_per_day. set (s := Unix t) in *.
  set (days := s / 86400). set (r := s mod 86400).
  assert (Hr : 0 <= r < 86400) by (apply Z.mod_pos_bound; lia).
  assert (Hdays : -719528 <= days < 2932897) by (subst days; Z.to_euclidean_division_equations; lia).
  assert (Hs : s = days * 86400 + r) by (subst days r; Z.to_euclidean_division_equations; lia).
  pose proof (civil_days days) as Hc. pose proof (civil_year days Hdays) as Hy.
  destruct (civil_from_days days) as [[y mo] d]. destruct Hc as (Hinv & Hmo & Hd). simpl in Hy.
  assert (d <= 31) by (unfold days_in in Hd; repeat case_match; lia).
  assert (Hh : 0 <= r / 3600 <= 23 ∧ 0 <= r / 60 mod 60 <= 59 ∧ 0 <= r mod 60 <= 59
               ∧ r / 3600 * 3600 + r / 60 mod 60 * 60 + r mod 60 = r)
    by (clear -Hr; Z.to_euclidean_division_equations; lia).
  destruct Hh as (H1 & H2 & H3 & H4). rewrite <- !sapp_assoc. unfold parse_rfc3339.
  rewrite get_year_four by lia. cbn -[skip two getnum in_range days_in days_from_civil second get_frac get_zone].
  repeat (rewrite skip_char; cbn -[skip two getnum in_range days_in days_from_civil second get_frac get_zone];
          rewrite getnum_two by lia; rewrite ?in_range_ok by lia;
          cbn -[skip two getnum in_range days_in days_from_civil second get_frac get_zone]).
  change (get_frac "Z") with (0, "Z"). cbn -[days_in days_from_civil second].
  replace ((d <? 1) || (days_in mo y <? d)) with false by lia. unfold seconds_per_day. f_equal. rewrite Hinv. lia.
Qed.

Lemma rfc3339_roundtrip_witness :
  four_digit_year 1775912400123456789 ∧ format_rfc3339 1775912400123456789 = "2026-04-11T13:00:00Z"
  ∧ parse_rfc3339 (format_rfc3339 1775912400123456789) = Some (Unix 1775912400123456789 * second).
Proof. split; [by vm_compute|]. split; [by vm_compute|]. apply (rfc3339_roundtrip 1775912400123456789). by vm_compute. Defined.
