(* ===== verification/Bytes.v ===== *)
(** * Byte slices and machine integers

    A Go [[]byte] is a list of 8-bit [ascii]; [code] and [chr] (in [GoStrings])
    are the conversions [int(b)] and [byte(n)], the latter modulo 256.  Unsigned
    integers of [w] bits are [Z] values reduced modulo [2 ^ w]; big-endian
    encoding is [put_be] and [get_be], the [encoding/binary] calls. *)

From S2P Require Import Prelude GoStrings GoTime.
#[local] Open Scope Z_scope.

Abbreviation bytes := (list ascii).

(** [string(b)] and [[]byte(s)] *)
Definition to_string (b : bytes) : string := String.string_of_list_ascii b.
Definition of_string (s : string) : bytes := String.list_ascii_of_string s.

Definition blen {A} (b : list A) : Z := Z.of_nat (length b).

(** [b[i:j]] with [0 <= i <= j <= len b]. *)
Definition slice {A} (i j : nat) (b : list A) : list A := take (j - i) (drop i b).

Definition u8 (z : Z) : Z := z mod 2 ^ 8.
Definition u16 (z : Z) : Z := z mod 2 ^ 16.
Definition u32 (z : Z) : Z := z mod 2 ^ 32.
Definition u64 (z : Z) : Z := z mod 2 ^ 64.

(** [binary.BigEndian.PutUint...]: [k] bytes, the most significant first. *)
Fixpoint put_be (k : nat) (z : Z) : bytes :=
  match k with
  | O => []
  | S k' => put_be k' (z / 256) ++ [chr z]
  end.

Definition get_be (b : bytes) : Z := fold_left (fun acc c => acc * 256 + code c) b 0.

(** [hex.EncodeToString] *)
Definition hex_digit (n : Z) : ascii := chr (if n <? 10 then 48 + n else 87 + n).
Fixpoint hex_encode (b : bytes) : string :=
  match b with
  | [] => EmptyString
  | c :: b' => String (hex_digit (code c / 16)) (String (hex_digit (code c mod 16)) (hex_encode b'))
  end.

(** ** Facts *)

Lemma to_of_string s : to_string (of_string s) = s.
Proof. apply String.string_of_list_ascii_of_string. Qed.
Lemma of_to_string b : of_string (to_string b) = b.
Proof. apply String.list_ascii_of_string_of_list_ascii. Qed.

Lemma of_string_length s : length (of_string s) = String.length s.
Proof. induction s; simpl; auto. Qed.

Lemma put_be_length k z : length (put_be k z) = k.
Proof. revert z; induction k; intros z; simpl; [done|]. rewrite length_app, IHk. simpl; lia. Qed.

Lemma fold_be_acc b x :
  fold_left (fun acc c => acc * 256 + code c) b x
  = x * 256 ^ blen b + fold_left (fun acc c => acc * 256 + code c) b 0.
Proof.
  unfold blen. revert x; induction b as [|c b IH]; intros x; cbn [fold_left length].
  - rewrite Z.pow_0_r. lia.
  - rewrite IH, (IH (0 * 256 + code c)), Nat2Z.inj_succ, Z.pow_succ_r by lia. ring.
Qed.

Lemma get_be_app a b : get_be (a ++ b) = get_be a * 256 ^ blen b + get_be b.
Proof. unfold get_be. by rewrite fold_left_app, fold_be_acc. Qed.

Lemma get_be_singleton c : get_be [c] = code c.
Proof. unfold get_be; simpl; lia. Qed.

Lemma get_put_be k z : get_be (put_be k z) = z mod 256 ^ Z.of_nat k.
Proof.
  revert z; induction k as [|k IH]; intros z; [by rewrite Z.mod_1_r|].
  simpl put_be. rewrite get_be_app, IH, get_be_singleton, code_chr.
  unfold blen; simpl length. change (Z.of_nat 1) with 1.
  rewrite Nat2Z.inj_succ, Z.pow_succ_r, Z.pow_1_r by lia.
  rewrite (Z.rem_mul_r z 256) by lia. lia.
Qed.

Lemma get_be_range b : 0 <= get_be b < 256 ^ blen b.
Proof.
  induction b as [|c b IH] using rev_ind; [done|].
  rewrite get_be_app, get_be_singleton. unfold blen in *. rewrite length_app. simpl length.
  rewrite Nat2Z.inj_add, Z.pow_add_r by lia. change (Z.of_nat 1) with 1.
  rewrite Z.pow_1_r. pose proof (code_range c). nia.
Qed.

Lemma chr_mod z : chr (z mod 256) = chr z.
Proof. unfold chr. by rewrite Z.mod_mod. Qed.

Lemma put_get_be b : put_be (length b) (get_be b) = b.
Proof.
  induction b as [|c b IH] using rev_ind; [done|].
  rewrite get_be_app, get_be_singleton, length_app. simpl length.
  rewrite Nat.add_comm. cbn [put_be Nat.add]. unfold blen; simpl length.
  change (256 ^ Z.of_nat 1) with 256. pose proof (code_range c). f_equal.
  - rewrite Z.div_add_l, (Z.div_small (code c)), Z.add_0_r by lia. done.
  - f_equal. rewrite <- chr_mod, Z.add_comm, Z.mod_add, Z.mod_small by lia. apply chr_code.
Qed.

Lemma chr_inj x y : 0 <= x < 256 → 0 <= y < 256 → chr x = chr y → x = y.
Proof. intros Hx Hy H. apply (f_equal code) in H. rewrite !code_chr, !Z.mod_small in H; lia. Qed.

Lemma hex_digit_inj x y : 0 <= x < 16 → 0 <= y < 16 → hex_digit x = hex_digit y → x = y.
Proof.
  unfold hex_digit. intros Hx Hy H.
  apply chr_inj in H; destruct (Z.ltb_spec x 10), (Z.ltb_spec y 10); lia.
Qed.

Lemma code_inj a b : code a = code b → a = b.
Proof. intros H. rewrite <- (chr_code a), <- (chr_code b). by rewrite H. Qed.

Lemma hex_encode_inj a b : hex_encode a = hex_encode b → a = b.
Proof.
  revert b; induction a as [|x a IH]; intros [|y b]; simpl; try done.
  intros [=H1 H2 H3]. f_equal; [|by apply IH].
  pose proof (code_range x). pose proof (code_range y).
  apply hex_digit_inj in H1; [|split; [apply Z.div_pos|apply Z.div_lt_upper_bound]; lia..].
  apply hex_digit_inj in H2; [|apply Z.mod_pos_bound; lia..].
  apply code_inj. rewrite (Z.div_mod (code x) 16), (Z.div_mod (code y) 16) by lia. lia.
Qed.

Lemma slice_length {A} i j (b : list A) :
  (i ≤ j ≤ length b)%nat → length (slice i j b) = (j - i)%nat.
Proof. intros. unfold slice. rewrite length_take, length_drop. lia. Qed.

Lemma slice_app {A} (a b c : list A) i j :
  i = length a → j = (length a + length b)%nat → slice i j (a ++ b ++ c) = b.
Proof.
  intros -> ->. unfold slice. rewrite drop_app_length.
  replace (length a + length b - length a)%nat with (length b) by lia. apply take_app_length.
Qed.

Lemma slice_end {A} (a b : list A) i j :
  i = length a → j = (length a + length b)%nat → slice i j (a ++ b) = b.
Proof. intros. rewrite <- (app_nil_r b) at 1. by apply slice_app. Qed.

Lemma slice_take_drop {A} (b : list A) i j k :
  (i ≤ j ≤ k)%nat → slice i j b ++ slice j k b = slice i k b.
Proof.
  intros. unfold slice. replace (k - i)%nat with ((j - i) + (k - j))%nat by lia.
  assert (drop (j - i) (drop i b) = drop j b) as <- by (rewrite drop_drop; f_equal; lia).
  by rewrite take_take_drop.
Qed.
