(* ===== verification/Encoding.v ===== *)
(** * Go's [encoding/base64], [encoding/base32] and [strconv] as the services use them

    [base64.StdEncoding] (padded), [base32.StdEncoding.WithPadding(NoPadding)],
    decimal formatting ([%d], [%06d], [%08X]) and [strconv.Atoi], and
    [strings.SplitN] with a limit of three.  Decoders return [None] where Go
    returns an error. *)

From S2P Require Import Prelude GoStrings GoTime Bytes.
#[local] Open Scope string_scope.
#[local] Open Scope list_scope.
#[local] Open Scope Z_scope.

(** ** [strings.SplitN(s, sep, n)] *)
Fixpoint SplitN (n : nat) (s : string) (sep : ascii) : list string :=
  match n with
  | O => []
  | S O => [s]
  | S n' =>
      match SplitN2 s sep with
      | Some (a, b) => a :: SplitN n' b sep
      | None => [s]
      end
  end.

(** ** Decimal numbers *)

Fixpoint digits_go (fuel : nat) (n : Z) (acc : string) : string :=
  match fuel with
  | O => acc
  | S f =>
      let acc := String (digit_char n) acc in
      if n <? 10 then acc else digits_go f (n / 10) acc
  end.

(** [fmt.Sprintf("%d", n)] of an [int]: at most 19 digits. *)
Definition Itoa (n : Z) : string :=
  if n <? 0 then "-" +:+ digits_go 20 (- n) "" else digits_go 20 n "".

(** [fmt.Sprintf("%06d", n)] for [0 <= n < 10^6] *)
Definition pad6 (n : Z) : string := two (n / 10000) +:+ two (n / 100) +:+ two n.

Fixpoint parse_digits (s : string) (acc : Z) : option Z :=
  match s with
  | EmptyString => Some acc
  | String c s' =>
      match digit c with Some d => parse_digits s' (acc * 10 + d) | None => None end
  end.

(** [strconv.Atoi]: an optional sign, at least one digit, an [int64] value. *)
Definition Atoi (s : string) : option Z :=
  let '(neg, d) :=
    match s with
    | String c r => if code c =? 45 then (true, r) else if code c =? 43 then (false, r) else (false, s)
    | EmptyString => (false, s)
    end in
  if is_empty d then None
  else
    n ← parse_digits d 0;
    let n := if neg : bool then - n else n in
    if (min_int64 <=? n) && (n <=? max_int64) then Some n else None.

(** [fmt.Sprintf("%X", b)] of bytes: upper case hexadecimal. *)
Definition hex_encode_upper (b : bytes) : string := ToUpper (hex_encode b).

(** ** Base64 *)

Definition b64_char (v : Z) : ascii :=
  chr (if v <? 26 then 65 + v
       else if v <? 52 then 71 + v
       else if v <? 62 then v - 4
       else if v =? 62 then 43 else 47).

Definition b64_value (c : ascii) : option Z :=
  let x := code c in
  if (65 <=? x) && (x <=? 90) then Some (x - 65)
  else if (97 <=? x) && (x <=? 122) then Some (x - 71)
  else if (48 <=? x) && (x <=? 57) then Some (x + 4)
  else if x =? 43 then Some 62
  else if x =? 47 then Some 63
  else None.

Definition pad : ascii := "="%char.

Fixpoint base64_encode (l : bytes) : bytes :=
  match l with
  | [] => []
  | [a] => [b64_char (code a / 4); b64_char (code a mod 4 * 16); pad; pad]
  | [a; b] =>
      [b64_char (code a / 4); b64_char (code a mod 4 * 16 + code b / 16);
       b64_char (code b mod 16 * 4); pad]
  | a :: b :: c :: l' =>
      b64_char (code a / 4) :: b64_char (code a mod 4 * 16 + code b / 16)
      :: b64_char (code b mod 16 * 4 + code c / 64) :: b64_char (code c mod 64)
      :: base64_encode l'
  end.

Definition is_pad (c : ascii) : bool := Ascii.eqb c pad.

(** A group of four; padding only in the last one, trailing bits ignored. *)
Fixpoint base64_groups (l : bytes) : option bytes :=
  match l with
  | [] => Some []
  | a :: b :: c :: d :: l' =>
      x ← b64_value a;
      y ← b64_value b;
      let b1 := chr (x * 4 + y / 16) in
      if is_pad c then
        if is_pad d then match l' with [] => Some [b1] | _ => None end else None
      else
        z ← b64_value c;
        let b2 := chr (y mod 16 * 16 + z / 4) in
        if is_pad d then match l' with [] => Some [b1; b2] | _ => None end
        else
          w ← b64_value d;
          t ← base64_groups l';
          Some (b1 :: b2 :: chr (z mod 4 * 64 + w) :: t)
  | _ => None
  end.

Definition not_newline (c : ascii) : bool := negb ((code c =? 10) || (code c =? 13)).

(** [base64.StdEncoding.DecodeString]: newlines are skipped. *)
Definition base64_decode (l : bytes) : option bytes := base64_groups (filterb not_newline l).

(** ** Base32 without padding *)

Definition b32_char (v : Z) : ascii := chr (if v <? 26 then 65 + v else 24 + v).

Definition b32_value (c : ascii) : option Z :=
  let x := code c in
  if (65 <=? x) && (x <=? 90) then Some (x - 65)
  else if (50 <=? x) && (x <=? 55) then Some (x - 24)
  else None.

(** The [k] five-bit digits of [n], the most significant first. *)
Fixpoint b32_digits (k : nat) (n : Z) : bytes :=
  match k with
  | O => []
  | S k' => b32_digits k' (n / 32) ++ [b32_char (n mod 32)]
  end.

(** Five bytes are eight digits; a shorter tail is filled with zero bits. *)
Fixpoint base32_encode (l : bytes) : bytes :=
  match l with
  | a :: b :: c :: d :: e :: l' => b32_digits 8 (get_be [a; b; c; d; e]) ++ base32_encode l'
  | [] => []
  | [a] => b32_digits 2 (get_be [a] * 4)
  | [a; b] => b32_digits 4 (get_be [a; b] * 16)
  | [a; b; c] => b32_digits 5 (get_be [a; b; c] * 2)
  | [a; b; c; d] => b32_digits 7 (get_be [a; b; c; d] * 8)
  end.

Fixpoint b32_number (l : bytes) (acc : Z) : option Z :=
  match l with
  | [] => Some acc
  | c :: l' => v ← b32_value c; b32_number l' (acc * 32 + v)
  end.

(** The bytes of a last group of [j] digits ([switch dlen]): a group of one,
    three or six digits has no case of its own and writes nothing. *)
Definition b32_tail (j : nat) (n : Z) : bytes :=
  match j with
  | 2%nat => put_be 1 (n / 4)
  | 4%nat => put_be 2 (n / 16)
  | 5%nat => put_be 3 (n / 2)
  | 7%nat => put_be 4 (n / 8)
  | _ => []
  end.

Fixpoint base32_groups (fuel : nat) (l : bytes) : option bytes :=
  match fuel with
  | O => None
  | S f =>
      match l with
      | [] => Some []
      | _ =>
          if (length l <? 8)%nat then n ← b32_number l 0; Some (b32_tail (length l) n)
          else n ← b32_number (take 8 l) 0; t ← base32_groups f (drop 8 l); Some ((put_be 5 n ++ t)%list)
      end
  end.

Definition base32_decode (l : bytes) : option bytes :=
  let l := filterb not_newline l in base32_groups (S (length l)) l.

(** ** Facts *)

Lemma digit_char_digit n : digit (digit_char n) = Some (n mod 10).
Proof.
  unfold digit, digit_char, is_digit. pose proof (Z.mod_pos_bound n 10 ltac:(lia)).
  rewrite code_chr, Z.mod_small by lia.
  replace ((48 <=? 48 + n mod 10) && (48 + n mod 10 <=? 57)) with true by lia. f_equal; lia.
Qed.

Lemma parse_digits_go f n s :
  0 <= n < 10 ^ Z.of_nat f → parse_digits (digits_go f n s) 0 = parse_digits s n.
Proof.
  revert n s; induction f as [|f IH]; intros n s Hn; [replace n with 0 by (simpl in Hn; lia); done|].
  rewrite Nat2Z.inj_succ, Z.pow_succ_r in Hn by lia. simpl digits_go.
  destruct (Z.ltb_spec n 10) as [H|H].
  - simpl. rewrite digit_char_digit, Z.mod_small by lia. done.
  - rewrite IH by (split; [apply Z.div_pos; lia|apply Z.div_lt_upper_bound; lia]).
    simpl. rewrite digit_char_digit. f_equal. pose proof (Z.div_mod n 10 ltac:(lia)). lia.
Qed.

Lemma digits_go_head f n s : ∃ c t, digits_go (S f) n s = String c t ∧ 48 <= code c <= 57.
Proof.
  revert n s; induction f as [|f IH]; intros n s.
  - simpl. exists (digit_char n), s. split; [by case_match|].
    unfold digit_char. pose proof (Z.mod_pos_bound n 10 ltac:(lia)). rewrite code_chr, Z.mod_small; lia.
  - change (digits_go (S (S f)) n s) with
      (let acc := String (digit_char n) s in if n <? 10 then acc else digits_go (S f) (n / 10) acc).
    cbv zeta. case_match; [|apply IH]. exists (digit_char n), s. split; [done|].
    unfold digit_char. pose proof (Z.mod_pos_bound n 10 ltac:(lia)). rewrite code_chr, Z.mod_small; lia.
Qed.

Lemma Atoi_Itoa n : 0 <= n <= max_int64 → Atoi (Itoa n) = Some n.
Proof.
  unfold max_int64. intros Hn. unfold Itoa. replace (n <? 0) with false by lia.
  assert (parse_digits (digits_go 20 n "") 0 = Some n) as Hp by (by rewrite parse_digits_go by lia).
  destruct (digits_go_head 19 n "") as (c & t & Heq & Hc). rewrite Heq in *.
  unfold Atoi. replace (code c =? 45) with false by lia. replace (code c =? 43) with false by lia.
  simpl is_empty. rewrite Hp. simpl.
  unfold min_int64, max_int64. replace ((- (2 ^ 63) <=? n) && (n <=? 2 ^ 63 - 1)) with true by lia. done.
Qed.

(** The alphabets, checked value by value. *)
Lemma all_values (p : Z → bool) n :
  forallb p (seqZ 0 n) = true → ∀ v, 0 <= v < n → p v = true.
Proof. intros H v Hv. rewrite forallb_forall in H. apply H, list_elem_of_In, elem_of_seqZ. lia. Qed.

(** [f] computes [Some v]. *)
Definition gives (f : option Z) (v : Z) : bool := match f with Some w => w =? v | None => false end.
Lemma gives_Some f v : gives f v = true → f = Some v.
Proof. destruct f as [w|]; simpl; [|done]. by intros ->%Z.eqb_eq. Qed.

Lemma b64_value_char v : 0 <= v < 64 → b64_value (b64_char v) = Some v.
Proof.
  intros Hv. apply gives_Some.
  by apply (all_values (fun v => gives (b64_value (b64_char v)) v) 64); [vm_compute|].
Qed.

Definition alnum_plus (x : Z) : bool :=
  (65 <=? x) && (x <=? 90) || (97 <=? x) && (x <=? 122) || (48 <=? x) && (x <=? 57)
  || (x =? 43) || (x =? 47).

Lemma b64_char_code v : 0 <= v < 64 → alnum_plus (code (b64_char v)) = true.
Proof. by apply (all_values (fun v => alnum_plus (code (b64_char v))) 64); vm_compute. Qed.

Lemma b64_char_not_pad v : 0 <= v < 64 → is_pad (b64_char v) = false.
Proof.
  intros Hv. unfold is_pad. apply Ascii.eqb_neq. intros Hc.
  pose proof (b64_char_code v Hv) as H. by rewrite Hc in H.
Qed.

Lemma bytes3_ind (P : bytes → Prop) :
  P [] → (∀ a, P [a]) → (∀ a b, P [a; b]) → (∀ a b c l, P l → P (a :: b :: c :: l)) → ∀ l, P l.
Proof.
  intros H0 H1 H2 H3. fix IH 1. intros [|a [|b [|c l]]]; [done|apply H1|apply H2|apply H3, IH].
Qed.

(** Linear arithmetic with division by constants. *)
#[local] Ltac dlia := Z.to_euclidean_division_equations; lia.

(** The ranges of the sextets of a group. *)
Lemma sextets a b c :
  0 <= code a / 4 < 64 ∧ 0 <= code a mod 4 * 16 + code b / 16 < 64
  ∧ 0 <= code b mod 16 * 4 + code c / 64 < 64 ∧ 0 <= code c mod 64 < 64
  ∧ 0 <= code a mod 4 * 16 < 64 ∧ 0 <= code b mod 16 * 4 < 64.
Proof.
  pose proof (code_range a). pose proof (code_range b). pose proof (code_range c). dlia.
Qed.

Lemma chr_eq z c : z = code c → chr z = c.
Proof. intros ->. apply chr_code. Qed.

Lemma base64_groups_encode l : base64_groups (base64_encode l) = Some l.
Proof.
  induction l as [|a|a b|a b c l IH] using bytes3_ind; [done|..].
  - destruct (sextets a a a) as (? & _ & _ & _ & ? & _). cbn [base64_encode base64_groups].
    rewrite !b64_value_char by lia. cbn. do 2 f_equal. apply chr_eq. pose proof (code_range a). dlia.
  - destruct (sextets a b b) as (? & ? & _ & _ & _ & ?). cbn [base64_encode base64_groups].
    rewrite !b64_value_char, b64_char_not_pad by lia. cbn.
    do 2 f_equal; [|f_equal]; apply chr_eq; pose proof (code_range a); pose proof (code_range b); dlia.
  - destruct (sextets a b c) as (? & ? & ? & ? & _). cbn [base64_encode base64_groups].
    rewrite !b64_value_char, !b64_char_not_pad, IH by lia. cbn.
    pose proof (code_range a). pose proof (code_range b). pose proof (code_range c).
    f_equal. f_equal; [apply chr_eq; dlia|]. f_equal; [apply chr_eq; dlia|].
    f_equal. apply chr_eq; dlia.
Qed.

(** Every byte of an encoding is in the alphabet or padding. *)
Definition b64_byte (c : ascii) : Prop := (∃ v, 0 <= v < 64 ∧ c = b64_char v) ∨ c = pad.

Lemma base64_encode_bytes l c : c ∈ base64_encode l → b64_byte c.
Proof.
  induction l as [|a|a b|a b d l IH] using bytes3_ind; cbn [base64_encode];
    rewrite ?elem_of_cons; [set_solver|..].
  - destruct (sextets a a a) as (? & _ & _ & _ & ? & _).
    intros [->|[->|[->|[->|Hc]]]]; [by left; eauto..|by right|by right|set_solver].
  - destruct (sextets a b b) as (? & ? & _ & _ & _ & ?).
    intros [->|[->|[->|[->|Hc]]]]; [by left; eauto..|by right|set_solver].
  - destruct (sextets a b d) as (? & ? & ? & ? & _).
    intros [->|[->|[->|[->|Hc]]]]; [by left; eauto..|auto].
Qed.

Lemma b64_byte_code c : b64_byte c → alnum_plus (code c) || (code c =? 61) = true.
Proof. intros [(v & Hv & ->)| ->]; [by rewrite b64_char_code|done]. Qed.

(** Encoding and decoding. *)
Lemma base64_roundtrip l : base64_decode (base64_encode l) = Some l.
Proof.
  unfold base64_decode. rewrite filterb_all; [apply base64_groups_encode|].
  intros c Hc%base64_encode_bytes%b64_byte_code. unfold not_newline, alnum_plus in *. lia.
Qed.

Lemma base64_encode_nil l : base64_encode l = [] → l = [].
Proof. by destruct l as [|a [|b [|c l]]]. Qed.

(** ** Base32 *)

Lemma b32_value_char v : 0 <= v < 32 → b32_value (b32_char v) = Some v.
Proof.
  intros Hv. apply gives_Some.
  by apply (all_values (fun v => gives (b32_value (b32_char v)) v) 32); [vm_compute|].
Qed.

Lemma b32_char_newline v : 0 <= v < 32 → not_newline (b32_char v) = true.
Proof. by apply (all_values (fun v => not_newline (b32_char v)) 32); vm_compute. Qed.

Lemma b32_number_app l k acc :
  b32_number (l ++ k) acc = n ← b32_number l acc; b32_number k n.
Proof.
  revert acc; induction l as [|c l IH]; intros acc; simpl; [done|].
  destruct (b32_value c); simpl; [apply IH|done].
Qed.

Lemma b32_number_digits k n acc :
  b32_number (b32_digits k n) acc = Some (acc * 32 ^ Z.of_nat k + n mod 32 ^ Z.of_nat k).
Proof.
  revert n acc; induction k as [|k IH]; intros n acc; simpl b32_digits.
  - cbn. f_equal. rewrite Z.mod_1_r. lia.
  - rewrite b32_number_app, IH. simpl. rewrite b32_value_char by (apply Z.mod_pos_bound; lia).
    simpl. rewrite Nat2Z.inj_succ, Z.pow_succ_r by lia. f_equal.
    rewrite (Z.rem_mul_r n 32) by lia. ring.
Qed.

Lemma b32_digits_length k n : length (b32_digits k n) = k.
Proof. revert n; induction k as [|k IH]; intros n; simpl; [done|]. rewrite length_app, IH. simpl; lia. Qed.

(** What holds of the thirty-two characters holds of every character written. *)
Lemma b32_digits_all (p : ascii → Prop) k n c :
  (∀ v, 0 <= v < 32 → p (b32_char v)) → c ∈ b32_digits k n → p c.
Proof.
  intros Hp. revert n; induction k as [|k IH]; intros n; simpl; [set_solver|].
  rewrite elem_of_app, list_elem_of_singleton. intros [H| ->]; [by eapply IH|].
  apply Hp, Z.mod_pos_bound; lia.
Qed.

Lemma bytes5_ind (P : bytes → Prop) :
  (∀ l, (length l < 5)%nat → P l) →
  (∀ a b c d e l, P l → P (a :: b :: c :: d :: e :: l)) → ∀ l, P l.
Proof.
  intros H0 H5. fix IH 1.
  intros [|a [|b [|c [|d [|e l]]]]]; [apply H0; simpl; lia..|apply H5, IH].
Qed.

Lemma base32_encode_all (p : ascii → Prop) l c :
  (∀ v, 0 <= v < 32 → p (b32_char v)) → c ∈ base32_encode l → p c.
Proof.
  intros Hp. induction l as [l Hl|a b d e f l IH] using bytes5_ind.
  - destruct l as [|? [|? [|? [|? [|? l]]]]]; cbn [base32_encode length] in *;
      [set_solver|by apply b32_digits_all..|lia].
  - cbn [base32_encode]. rewrite elem_of_app. intros [H|H]; [by eapply b32_digits_all|auto].
Qed.

Lemma base32_encode_newline l c : c ∈ base32_encode l → not_newline c = true.
Proof. apply (base32_encode_all (λ c, not_newline c = true)), b32_char_newline. Qed.

#[local] Ltac closed_value x := let w := eval vm_compute in x in change x with w in *.

#[local] Ltac base32_case :=
  match goal with Hr : 0 <= get_be ?l < ?w |- _ =>
    split_and!;
      [ reflexivity | lia
      | closed_value w; match goal with |- _ < ?v => closed_value v end; lia
      | lia | unfold b32_tail; by rewrite Z.div_mul by lia]
  end.

Lemma base32_encode_tail l : (0 < length l < 5)%nat →
  ∃ k m, base32_encode l = b32_digits k (get_be l * 2 ^ m) ∧ (k < 8)%nat
  ∧ get_be l * 2 ^ m < 32 ^ Z.of_nat k ∧ (0 < k)%nat
  ∧ b32_tail k (get_be l * 2 ^ m) = put_be (length l) (get_be l).
Proof.
  intros Hl. pose proof (get_be_range l) as Hr.
  destruct l as [|a [|b [|c [|d [|e l]]]]]; simpl length in Hl; try lia.
  - exists 2%nat, 2. base32_case.
  - exists 4%nat, 4. base32_case.
  - exists 5%nat, 1. base32_case.
  - exists 7%nat, 3. base32_case.
Qed.

Lemma base32_groups_encode l f :
  (length (base32_encode l) < f)%nat → base32_groups f (base32_encode l) = Some l.
Proof.
  revert f; induction l as [l Hl|a b c d e l IH] using bytes5_ind; intros f Hf.
  - destruct f as [|f]; [lia|]. destruct (decide (l = [])) as [->|Hne]; [done|].
    assert (length l ≠ 0%nat) by by destruct l.
    destruct (base32_encode_tail l) as (k & m & Heq & Hk & Hb & Hpos & Htail); [lia|].
    rewrite Heq in *. assert (length (b32_digits k (get_be l * 2 ^ m)) = k) as Hlen by apply b32_digits_length.
    cbn [base32_groups]. destruct (b32_digits k (get_be l * 2 ^ m)) eqn:E; [simpl in Hlen; lia|].
    rewrite <- E. rewrite b32_digits_length. replace (k <? 8)%nat with true by (symmetry; by apply Nat.ltb_lt).
    rewrite b32_number_digits. simpl. pose proof (get_be_range l).
    assert (0 <= 2 ^ m) by (apply Z.pow_nonneg; lia).
    rewrite Z.mod_small by nia. rewrite ?Z.mul_0_l, ?Z.add_0_l, Htail. f_equal. apply put_get_be.
  - destruct f as [|f]; [lia|]. cbn [base32_encode] in *.
    pose proof (b32_digits_length 8 (get_be [a; b; c; d; e])) as Hlen.
    rewrite length_app, Hlen in Hf. cbn [base32_groups].
    destruct (b32_digits 8 (get_be [a; b; c; d; e]) ++ base32_encode l) eqn:E.
    { apply (f_equal length) in E. rewrite length_app, Hlen in E. simpl in E. lia. }
    rewrite <- E. rewrite length_app, Hlen. replace (8 + length (base32_encode l) <? 8)%nat with false
      by (symmetry; apply Nat.ltb_ge; lia).
    rewrite take_app_length', drop_app_length' by done. rewrite b32_number_digits. simpl mbind.
    rewrite IH by lia. cbn [mbind option_bind]. f_equal.
    pose proof (get_be_range [a; b; c; d; e]) as Hr. closed_value (256 ^ blen [a; b; c; d; e]). closed_value (32 ^ Z.of_nat 8).
    rewrite Z.mod_small, Z.mul_0_l, Z.add_0_l by lia.
    pose proof (put_get_be [a; b; c; d; e]) as Hp. apply (f_equal (λ t, t ++ l)) in Hp. exact Hp.
Qed.

Lemma base32_roundtrip l : base32_decode (base32_encode l) = Some l.
Proof.
  unfold base32_decode. rewrite filterb_all by apply base32_encode_newline.
  apply base32_groups_encode. lia.
Qed.

(** ** Characters of the encodings *)

Lemma all_chars_of_string p s : all_chars p s = forallb p (of_string s).
Proof. induction s as [|c s IH]; simpl; [done|]. by rewrite IH. Qed.

Lemma all_chars_to_string p l : (∀ c, c ∈ l → p c = true) → all_chars p (to_string l) = true.
Proof.
  intros H. rewrite all_chars_of_string, of_to_string. apply forallb_forall.
  intros c Hc. apply H. by apply list_elem_of_In.
Qed.

(** No separator and no white space in base64 text. *)
Definition b64_text (c : ascii) : bool := visible c && negb (Ascii.eqb c ":").

Lemma b64_text_code c : alnum_plus (code c) || (code c =? 61) = true → b64_text c = true.
Proof.
  unfold b64_text, alnum_plus, visible. intros H.
  destruct (Ascii.eqb_spec c ":") as [->|_]; [by vm_compute in H|]. lia.
Qed.

Lemma base64_text l : all_chars b64_text (to_string (base64_encode l)) = true.
Proof. apply all_chars_to_string. intros c Hc%base64_encode_bytes%b64_byte_code. by apply b64_text_code. Qed.

Lemma digits_go_text f n s :
  all_chars b64_text s = true → all_chars b64_text (digits_go f n s) = true.
Proof.
  revert n s; induction f as [|f IH]; intros n s Hs; simpl; [done|].
  assert (all_chars b64_text (String (digit_char n) s) = true) as Hc.
  { simpl. rewrite Hs, andb_true_r. apply b64_text_code. unfold digit_char, alnum_plus.
    pose proof (Z.mod_pos_bound n 10 ltac:(lia)). rewrite code_chr, Z.mod_small by lia. lia. }
  case_match; [done|]. by apply IH.
Qed.

Lemma Itoa_text n : 0 <= n → all_chars b64_text (Itoa n) = true.
Proof. intros Hn. unfold Itoa. replace (n <? 0) with false by lia. by apply digits_go_text. Qed.

(** Hex strings need no trimming. *)
Lemma hex_visible b : all_chars visible (hex_encode b) = true.
Proof.
  induction b as [|c b IH]; [done|]. simpl. rewrite IH, andb_true_r.
  assert (∀ n, 0 <= n < 16 → visible (hex_digit n) = true) as Hd.
  { by apply (all_values (λ n, visible (hex_digit n)) 16); vm_compute. }
  pose proof (code_range c).
  rewrite !Hd; [done|apply Z.mod_pos_bound; lia|].
  split; [apply Z.div_pos|apply Z.div_lt_upper_bound]; lia.
Qed.

Lemma TrimSpace_hex b : TrimSpace (hex_encode b) = hex_encode b.
Proof. apply TrimSpace_fix, visible_trimmed, hex_visible. Qed.
