(* ===== verification/Vault.v ===== *)
(** * Secrets at rest ([src/api/internal/crypto/vault.go])

    AES-256-GCM with versioned keys: [Vault] is the struct, [None] the nil
    pointer the constructors return without a master key.  The ciphers and the
    key derivation are the fields of [AEAD]; [GcmLaws] says what is used of
    them.  The main results: a secret encrypted under one configuration is read
    back under every configuration that still holds its key, and which order the
    fall-back visits the other keys in does not matter. *)

From S2P Require Import Prelude GoStrings GoTime Bytes Encoding.
#[local] Open Scope string_scope.
#[local] Open Scope list_scope.
#[local] Open Scope Z_scope.

(** [crypto/aes], [crypto/cipher], [crypto/sha256] and [x/crypto/hkdf]. *)
Class AEAD := {
  sha256 : bytes → bytes;
  hkdf : bytes → bytes → bytes → nat → bytes;   (* secret, salt, info, size *)
  gcm_seal : bytes → bytes → bytes → bytes;     (* key, nonce, plaintext *)
  gcm_open : bytes → bytes → bytes → option bytes
}.

Record vaultKey := mkKey { version : Z; vkey : bytes }.
Record Vault := mkVault { current : vaultKey; vkeys : gmap Z vaultKey }.

Inductive VaultErr :=
| VaultNotConfigured
| CipherErr                     (* aes.NewCipher *)
| RandErr                       (* the random source *)
| DecryptAllFailed (n : Z)
| InvalidFormat
| ReEncryptErr (e : VaultErr)
| NoncePanic.                   (* cipher: incorrect nonce length given to GCM *)

(** One [gcm.Open]: opened, refused with an error, or a panic. *)
Inductive attempt := Opened (s : string) | Refused | Panicked.

Section vault.
Context {cipher : AEAD} {order : MapRange}.

Definition DeriveKey (masterKey purpose : string) : bytes :=
  hkdf (of_string masterKey) (sha256 (of_string purpose)) (of_string ("mistypass/" +:+ purpose)) 32.

Definition NewVault (masterKey purpose : string) : option Vault :=
  let master := TrimSpace masterKey in
  if is_empty master then None
  else
    let k := mkKey 1 (DeriveKey master purpose) in
    Some (mkVault k {[ 1 := k ]}).

(** The keys of [previousMasterKeys], numbered from [i + 1]; blanks are left out. *)
Fixpoint previous_keys (purpose : string) (i : Z) (prevs : list string) (keys : gmap Z vaultKey)
    : gmap Z vaultKey :=
  match prevs with
  | [] => keys
  | prev :: prevs' =>
      let p := TrimSpace prev in
      let ver := i + 1 in
      previous_keys purpose (i + 1) prevs'
        (if is_empty p then keys else <[ver := mkKey ver (DeriveKey p purpose)]> keys)
  end.

Definition NewVaultWithRotation (currentMasterKey purpose : string) (previousMasterKeys : list string)
    : option Vault :=
  let cur := TrimSpace currentMasterKey in
  if is_empty cur then None
  else
    let keys := previous_keys purpose 0 previousMasterKeys ∅ in
    let currentVersion := Z.of_nat (length previousMasterKeys) + 1 in
    let k := mkKey currentVersion (DeriveKey cur purpose) in
    Some (mkVault k (<[currentVersion := k]> keys)).

(** [aes.NewCipher] takes 16, 24 or 32 bytes. *)
Definition aes_key_ok (key : bytes) : bool :=
  existsb (Nat.eqb (length key)) [16; 24; 32]%nat.

(** [rand] is what the random source gives for the 12 bytes of the nonce. *)
Definition encryptWithKey (k : vaultKey) (rand : option bytes) (plaintext : string)
    : result VaultErr (string * string) :=
  if negb (aes_key_ok (vkey k)) then Err CipherErr
  else
    match rand with
    | None => Err RandErr
    | Some rawNonce =>
        let sealed := gcm_seal (vkey k) rawNonce (of_string plaintext) in
        Ok (to_string (base64_encode rawNonce), to_string (base64_encode sealed))
    end.

Definition decryptWithKey (k : vaultKey) (nonce ciphertext : string) : attempt :=
  if negb (aes_key_ok (vkey k)) then Refused
  else
    match base64_decode (of_string (TrimSpace nonce)) with
    | None => Refused
    | Some rawNonce =>
        match base64_decode (of_string (TrimSpace ciphertext)) with
        | None => Refused
        | Some rawCiphertext =>
            if negb (length rawNonce =? 12)%nat then Panicked
            else
              match gcm_open (vkey k) rawNonce rawCiphertext with
              | Some plaintext => Opened (to_string plaintext)
              | None => Refused
              end
        end
    end.

(** The loop over [v.keys] after the current key has failed. *)
Fixpoint try_others (cur : Z) (ks : list (Z * vaultKey)) (nonce ciphertext : string) : attempt :=
  match ks with
  | [] => Refused
  | (ver, k) :: ks' =>
      if ver =? cur then try_others cur ks' nonce ciphertext
      else
        match decryptWithKey k nonce ciphertext with
        | Opened pt => Opened pt
        | Panicked => Panicked
        | Refused => try_others cur ks' nonce ciphertext
        end
  end.

Definition Decrypt (v : option Vault) (nonce ciphertext : string) : result VaultErr string :=
  match v with
  | None => Err VaultNotConfigured
  | Some v =>
      match decryptWithKey (current v) nonce ciphertext with
      | Opened pt => Ok pt
      | Panicked => Err NoncePanic
      | Refused =>
          match try_others (version (current v)) (range (vkeys v)) nonce ciphertext with
          | Opened pt => Ok pt
          | Panicked => Err NoncePanic
          | Refused => Err (DecryptAllFailed (Z.of_nat (size (vkeys v))))
          end
      end
  end.

Definition Encrypt (v : option Vault) (rand : option bytes) (plaintext : string)
    : result VaultErr (string * string) :=
  match v with
  | None => Err VaultNotConfigured
  | Some v => encryptWithKey (current v) rand plaintext
  end.

Definition EncryptVersioned (v : option Vault) (rand : option bytes) (plaintext : string)
    : result VaultErr string :=
  match v with
  | None => Err VaultNotConfigured
  | Some v =>
      '(nonce, ct) ← encryptWithKey (current v) rand plaintext;
      Ok ("enc:v" +:+ Itoa (version (current v)) +:+ ":" +:+ nonce +:+ ":" +:+ ct)
  end.

(** [trimmed[4:]] behind an ["enc:"] prefix, cut at [':'] into at most three. *)
Definition enc_parts (trimmed : string) : list string := SplitN 3 (TrimPrefix trimmed "enc:") ":".

Definition tail (s : string) : string := match s with String _ r => r | EmptyString => "" end.

Definition DecryptVersioned (v : option Vault) (value : string) : result VaultErr string :=
  match v with
  | None => Err VaultNotConfigured
  | Some w =>
      let trimmed := TrimSpace value in
      if is_empty trimmed then Ok ""
      else if negb (HasPrefix trimmed "enc:") then Ok trimmed
      else
        match enc_parts trimmed with
        | [p0; p1; p2] =>
            if HasPrefix p0 "v" then
              match Atoi (tail p0) ≫= fun ver => vkeys w !! ver with
              | Some k =>
                  match decryptWithKey k p1 p2 with
                  | Opened pt => Ok pt
                  | Panicked => Err NoncePanic
                  | Refused => Decrypt v p1 p2
                  end
              | None => Decrypt v p1 p2
              end
            else Err InvalidFormat
        | [p0; p1] => Decrypt v p0 p1
        | _ => Err InvalidFormat
        end
  end.

Definition NeedsReEncrypt (v : option Vault) (value : string) : bool :=
  match v with
  | None => false
  | Some v =>
      let trimmed := TrimSpace value in
      if is_empty trimmed then false
      else if negb (HasPrefix trimmed "enc:") then true
      else
        match enc_parts trimmed with
        | [p0; p1; p2] =>
            negb (HasPrefix p0 "v"
                  && match Atoi (tail p0) with
                     | Some ver => ver =? version (current v)
                     | None => false
                     end)
        | _ => true
        end
  end.

Definition ReEncrypt (v : option Vault) (rand : option bytes) (value : string)
    : result VaultErr string :=
  match v with
  | None => Err VaultNotConfigured
  | Some _ =>
      match DecryptVersioned v value with
      | Err e => Err (ReEncryptErr e)
      | Ok plaintext => if is_empty plaintext then Ok "" else EncryptVersioned v rand plaintext
      end
  end.

Definition CurrentVersion (v : option Vault) : Z :=
  match v with None => 0 | Some v => version (current v) end.
Definition KeyVersionCount (v : option Vault) : Z :=
  match v with None => 0 | Some v => Z.of_nat (size (vkeys v)) end.
Definition IsConfigured (v : option Vault) : bool :=
  match v with None => false | Some v => negb (Nat.eqb (size (vkeys v)) 0) end.
End vault.

(** ** What is used of the ciphers *)
Class GcmLaws `{!AEAD} := {
  hkdf_length : ∀ s salt info n, length (hkdf s salt info n) = n;
  gcm_open_seal : ∀ k n p, gcm_open k n (gcm_seal k n p) = Some p;
  (* another key does not authenticate the ciphertext *)
  gcm_wrong_key : ∀ k k' n p, k ≠ k' → gcm_open k' n (gcm_seal k n p) = None
}.

(** A vault is well formed when its current key is among its keys and every key
    is filed under its version. *)
Definition wf_vault (v : Vault) : Prop :=
  vkeys v !! version (current v) = Some (current v)
  ∧ (∀ ver k, vkeys v !! ver = Some k → version k = ver ∧ length (vkey k) = 32%nat)
  ∧ 0 <= version (current v) <= max_int64.

Section vault_facts.
Context {cipher : AEAD} {gcm : GcmLaws} {order : MapRange}.

Lemma aes_key_32 k : length k = 32%nat → aes_key_ok k = true.
Proof. unfold aes_key_ok. by intros ->. Qed.

Lemma DeriveKey_length m p : length (DeriveKey m p) = 32%nat.
Proof. apply hkdf_length. Qed.

(** The text of an encrypted value is visible, and its three parts are found. *)
Lemma enc_text ver n c :
  0 <= ver → all_chars b64_text n = true → all_chars b64_text c = true →
  let value := ("enc:v" +:+ Itoa ver +:+ ":" +:+ n +:+ ":" +:+ c) in
  trimmed value ∧ HasPrefix value "enc:" = true ∧ is_empty value = false
  ∧ enc_parts value = ["v" +:+ Itoa ver; n; c].
Proof.
  intros Hver Hn Hc value. pose proof (Itoa_text ver Hver) as Hi.
  assert (∀ t, all_chars b64_text t = true → all_chars visible t = true) as Hv.
  { intros t. apply all_chars_weaken. intros x. unfold b64_text. by intros [? ?]%andb_true_iff. }
  assert (∀ t, all_chars b64_text t = true → all_chars (λ x, negb (Ascii.eqb x ":")) t = true) as Hs.
  { intros t. apply all_chars_weaken. intros x. unfold b64_text. by intros [? ?]%andb_true_iff. }
  split_and!; [|reflexivity|reflexivity|].
  - apply visible_trimmed. unfold value. rewrite !all_chars_app, (Hv _ Hi), (Hv _ Hn), (Hv _ Hc). reflexivity.
  - unfold enc_parts, value. change "enc:v" with ("enc:" +:+ "v").
    rewrite <- sapp_assoc, TrimPrefix_app.
    change (":" +:+ n +:+ ":" +:+ c) with (String ":" (n +:+ ":" +:+ c)).
    rewrite sapp_assoc. cbn [SplitN].
    rewrite SplitN2_app by (by rewrite all_chars_app, (Hs _ Hi)).
    change (":" +:+ c) with (String ":" c). by rewrite SplitN2_app by auto.
Qed.

(** What a key makes of a ciphertext of the same or of another key. *)
Lemma decrypt_with k k' rand pt n c :
  length (vkey k') = 32%nat → length rand = 12%nat →
  encryptWithKey k (Some rand) pt = Ok (n, c) →
  decryptWithKey k' n c = if decide (vkey k = vkey k') then Opened pt else Refused.
Proof.
  unfold encryptWithKey, decryptWithKey. intros Hk' Hr.
  destruct (aes_key_ok (vkey k)); simpl; intros [= <- <-].
  rewrite aes_key_32 by done. simpl.
  rewrite !TrimSpace_fix by (apply visible_trimmed, (all_chars_weaken b64_text), base64_text;
    intros x; unfold b64_text; by intros [? ?]%andb_true_iff).
  rewrite !of_to_string, !base64_roundtrip, Hr. simpl.
  case_decide as Hd.
  - rewrite <- Hd, gcm_open_seal. by rewrite to_of_string.
  - by rewrite gcm_wrong_key.
Qed.

Lemma try_others_opens cur ks k rand pt n c :
  length rand = 12%nat → encryptWithKey k (Some rand) pt = Ok (n, c) →
  (∀ ver k', (ver, k') ∈ ks → length (vkey k') = 32%nat) →
  (∃ ver k', (ver, k') ∈ ks ∧ ver ≠ cur ∧ vkey k' = vkey k) →
  try_others cur ks n c = Opened pt.
Proof.
  intros Hr He Hlen (ver & k' & Hin & Hcur & Hk).
  induction ks as [|[v0 k0] ks IH]; [set_solver|]. cbn [try_others].
  destruct (Z.eqb_spec v0 cur) as [->|Hv0].
  - apply IH; [set_solver|]. apply elem_of_cons in Hin as [[= -> ->]|]; [lia|done].
  - erewrite decrypt_with by (try apply (Hlen v0 k0); set_solver || done).
    case_decide as Hd; [done|]. apply IH; [set_solver|].
    apply elem_of_cons in Hin as [[= -> ->]|]; [congruence|done].
Qed.

(** The fall-back finds the key whatever order it goes through the map in. *)
Lemma Decrypt_opens v k rand pt n c :
  wf_vault v → length rand = 12%nat → encryptWithKey k (Some rand) pt = Ok (n, c) →
  (∃ ver k', vkeys v !! ver = Some k' ∧ vkey k' = vkey k) →
  Decrypt (Some v) n c = Ok pt.
Proof.
  intros (Hcur & Hwf & _) Hr He (ver & k' & Hl & Hk). cbn [Decrypt].
  erewrite decrypt_with by (try done; by apply (Hwf _ _ Hcur)).
  case_decide as Hd; [done|].
  erewrite try_others_opens; [done|done|done|..].
  - intros ver' k''. rewrite elem_of_range. intros H. by apply (Hwf _ _ H).
  - exists ver, k'. rewrite elem_of_range. split_and!; [done| |done]. intros ->. congruence.
Qed.

Lemma DecryptVersioned_opens v v0 rand pt value :
  wf_vault v → wf_vault v0 → length rand = 12%nat →
  EncryptVersioned (Some v0) (Some rand) pt = Ok value →
  (∃ ver k, vkeys v !! ver = Some k ∧ vkey k = vkey (current v0)) →
  DecryptVersioned (Some v) value = Ok pt.
Proof.
  intros Hv Hv0 Hr He Hkey. cbn in He.
  destruct (encryptWithKey (current v0) (Some rand) pt) as [[n c]|] eqn:Hkc; [|done].
  cbn in He. injection He as <-.
  assert (all_chars b64_text n = true ∧ all_chars b64_text c = true) as [Hn Hc].
  { unfold encryptWithKey in Hkc. destruct (aes_key_ok _); simpl in Hkc; [|done].
    injection Hkc as <- <-. by rewrite !base64_text. }
  destruct Hv0 as (_ & _ & Hver).
  destruct (enc_text (version (current v0)) n c) as (Ht & Hp & He & Hparts); [lia|done|done|].
  unfold DecryptVersioned. rewrite (TrimSpace_fix _ Ht), He, Hp, Hparts. simpl negb. cbn match.
  change (tail ("v" +:+ Itoa (version (current v0)))) with (Itoa (version (current v0))).
  rewrite Atoi_Itoa by done. cbn [mbind option_bind].
  rewrite HasPrefix_app.
  pose proof (Decrypt_opens v (current v0) rand pt n c Hv Hr Hkc Hkey) as Hd.
  destruct (vkeys v !! version (current v0)) as [k|] eqn:Hk; [|done].
  erewrite decrypt_with by (try done; by apply (proj1 (proj2 Hv) _ _ Hk)).
  by case_decide.
Qed.

(** An encrypted value has no blanks around it. *)
Lemma EncryptVersioned_trimmed v0 rand pt value :
  wf_vault v0 → EncryptVersioned (Some v0) (Some rand) pt = Ok value → TrimSpace value = value.
Proof.
  intros (_ & _ & Hver). cbn. unfold encryptWithKey. destruct (aes_key_ok _); simpl; [|done].
  intros [= <-]. apply TrimSpace_fix. by apply enc_text; [lia|apply base64_text..].
Qed.

Lemma NewVault_wf m p v : NewVault m p = Some v → wf_vault v.
Proof.
  unfold NewVault. case_match; [done|]. intros [= <-]. split_and!; cbn; [by rewrite lookup_singleton_eq| |lia|unfold max_int64; lia].
  intros ver k. rewrite lookup_singleton_Some. intros [<- <-]. split; [done|apply DeriveKey_length].
Qed.

Lemma previous_keys_spec p i prevs keys ver k :
  previous_keys p i prevs keys !! ver = Some k →
  keys !! ver = Some k ∨ (version k = ver ∧ length (vkey k) = 32%nat ∧ i < ver <= i + Z.of_nat (length prevs)).
Proof.
  revert i keys; induction prevs as [|m prevs IH]; intros i keys; simpl; [by left|].
  intros [H|H]%IH; [|right; lia]. case_match; [by left|].
  apply lookup_insert_Some in H as [[<- <-]|[_ H]]; [right|by left].
  split_and!; [done|apply DeriveKey_length|lia|lia].
Qed.

Lemma previous_keys_keep p i prevs keys ver k :
  ver <= i → keys !! ver = Some k → previous_keys p i prevs keys !! ver = Some k.
Proof.
  revert i keys; induction prevs as [|m prevs IH]; intros i keys Hv Hk; simpl; [done|].
  apply IH; [lia|]. case_match; [done|]. rewrite lookup_insert_ne by lia. done.
Qed.

Lemma previous_keys_has p i prevs keys m :
  m ∈ prevs → is_empty (TrimSpace m) = false →
  ∃ ver k, previous_keys p i prevs keys !! ver = Some k ∧ vkey k = DeriveKey (TrimSpace m) p
           ∧ ver <= i + Z.of_nat (length prevs).
Proof.
  intros Hin Hm. revert i keys; induction prevs as [|m0 prevs IH]; intros i keys; [set_solver|].
  apply elem_of_cons in Hin as [<-|Hin].
  - simpl. rewrite Hm. exists (i + 1), (mkKey (i + 1) (DeriveKey (TrimSpace m) p)).
    split_and!; [|done|lia]. apply previous_keys_keep; [lia|]. by rewrite lookup_insert_eq.
  - destruct (IH Hin (i + 1) (if is_empty (TrimSpace m0) then keys
      else <[i + 1 := mkKey (i + 1) (DeriveKey (TrimSpace m0) p)]> keys)) as (ver & k & ? & ? & ?).
    exists ver, k. simpl length. split_and!; [done|done|lia].
Qed.

Lemma Rotation_wf m p prevs v :
  Z.of_nat (length prevs) < max_int64 → NewVaultWithRotation m p prevs = Some v → wf_vault v.
Proof.
  unfold NewVaultWithRotation. intros Hlen. case_match; [done|]. intros [= <-].
  split_and!; cbn; [by rewrite lookup_insert_eq| |lia|lia].
  intros ver k. rewrite lookup_insert_Some. intros [[<- <-]|[_ Hk]].
  - split; [done|apply DeriveKey_length].
  - apply previous_keys_spec in Hk as [Hk|Hk]; [by rewrite lookup_empty in Hk|tauto].
Qed.

(** The configurations a deployment goes through: one master key, then the same
    key first as the current and then among the previous ones. *)
Inductive configured (purpose master : string) : Vault → Prop :=
| conf_single v : NewVault master purpose = Some v → configured purpose master v
| conf_current prevs v :
    Z.of_nat (length prevs) < max_int64 →
    NewVaultWithRotation master purpose prevs = Some v → configured purpose master v.

Lemma configured_wf p m v : configured p m v → wf_vault v.
Proof. intros [? H|? ? ? H]; [by eapply NewVault_wf|by eapply Rotation_wf]. Qed.

Lemma configured_current p m v : configured p m v → vkey (current v) = DeriveKey (TrimSpace m) p.
Proof.
  intros [? H|? ? _ H]; revert H; unfold NewVault, NewVaultWithRotation; case_match; try done; by intros [= <-].
Qed.

Lemma configured_master p m v : configured p m v → is_empty (TrimSpace m) = false.
Proof.
  intros [? H|? ? _ H]; revert H; unfold NewVault, NewVaultWithRotation; by case_match.
Qed.

(** Secrets survive key rotation.  A secret encrypted while [master] was the
    current key is read back unchanged by every later configuration that lists
    [master] among the previous keys, at whatever place, or keeps it current,
    whichever order the fall-back visits the keys in. *)
Theorem rotation_keeps_secrets purpose master newest prevs v0 v rand pt value :
  configured purpose master v0 →
  Z.of_nat (length prevs) < max_int64 →
  NewVaultWithRotation newest purpose prevs = Some v →
  master ∈ newest :: prevs →
  length rand = 12%nat →
  EncryptVersioned (Some v0) (Some rand) pt = Ok value →
  DecryptVersioned (Some v) value = Ok pt.
Proof.
  intros Hc0 Hlen Hv Hin Hr He.
  eapply DecryptVersioned_opens; [by eapply Rotation_wf|by eapply configured_wf|done|done|].
  rewrite (configured_current _ _ _ Hc0). pose proof (configured_master _ _ _ Hc0) as Hm.
  revert Hv. unfold NewVaultWithRotation. case_match; [done|]. intros [= <-]. cbn.
  apply elem_of_cons in Hin as [<-|Hin].
  - eexists _, _. by rewrite lookup_insert_eq.
  - destruct (previous_keys_has purpose 0 prevs ∅ master Hin Hm) as (ver & k & Hk & ? & ?).
    exists ver, k. rewrite lookup_insert_ne by lia. done.
Qed.

(** Re-encryption: the value is now under the current key and holds the same secret. *)
Theorem ReEncrypt_migrates v rand value pt value' :
  wf_vault v → length rand = 12%nat → pt ≠ "" →
  DecryptVersioned (Some v) value = Ok pt → ReEncrypt (Some v) (Some rand) value = Ok value' →
  NeedsReEncrypt (Some v) value' = false ∧ DecryptVersioned (Some v) value' = Ok pt.
Proof.
  intros Hv Hr Hpt Hd. cbn [ReEncrypt]. rewrite Hd.
  replace (is_empty pt) with false by (symmetry; by apply is_empty_false). intros He.
  split.
  - cbn in He. destruct (encryptWithKey (current v) (Some rand) pt) as [[n c]|] eqn:Hkc; [|done].
    cbn in He. injection He as <-.
    assert (all_chars b64_text n = true ∧ all_chars b64_text c = true) as [Hn Hc].
    { unfold encryptWithKey in Hkc. destruct (aes_key_ok _); simpl in Hkc; [|done].
      injection Hkc as <- <-. by rewrite !base64_text. }
    destruct Hv as (_ & _ & Hver).
    destruct (enc_text (version (current v)) n c) as (Ht & Hp & He & Hparts); [lia|done|done|].
    cbn [NeedsReEncrypt]. rewrite (TrimSpace_fix _ Ht), He, Hp, Hparts. simpl negb. cbn match.
    by rewrite HasPrefix_app, append_nil, Atoi_Itoa, Z.eqb_refl by done.
  - eapply DecryptVersioned_opens; [done|done|done|exact He|].
    destruct Hv as (Hcur & _). by eexists _, _.
Qed.

(** A stored value whose nonce has another size than twelve bytes makes
    [DecryptVersioned] panic instead of returning an error. *)
Lemma malformed_nonce_panics v n c raw :
  wf_vault v → base64_decode (of_string (TrimSpace n)) = Some raw → length raw ≠ 12%nat →
  base64_decode (of_string (TrimSpace c)) ≠ None → Decrypt (Some v) n c = Err NoncePanic.
Proof.
  intros (Hcur & Hwf & _) Hn Hraw Hc. cbn. unfold decryptWithKey.
  rewrite aes_key_32 by (by apply (Hwf _ _ Hcur)). simpl. rewrite Hn.
  destruct (base64_decode (of_string (TrimSpace c))); [|done].
  by replace (length raw =? 12)%nat with false by (symmetry; by apply Nat.eqb_neq).
Qed.
End vault_facts.

(** A concrete cipher for the examples: the sealed text starts with the marked
    bytes of the key, and opening compares them. *)
Fixpoint toy_open (k c : bytes) : option bytes :=
  match k, c with
  | [], "0"%char :: p => Some p
  | x :: k', "1"%char :: y :: c' => if Ascii.eqb x y then toy_open k' c' else None
  | _, _ => None
  end.

Definition toy_seal (k p : bytes) : bytes := (k ≫= fun c => ["1"%char; c]) ++ "0"%char :: p.

Definition toy_aead : AEAD := {|
  sha256 b := b;
  hkdf s salt info n := take n (s ++ repeat "000"%char n);
  gcm_seal k n p := toy_seal k p;
  gcm_open k n c := toy_open k c
|}.

Lemma toy_open_seal k p : toy_open k (toy_seal k p) = Some p.
Proof. induction k as [|x k IH]; [done|]. cbn. by rewrite Ascii.eqb_refl. Qed.

Lemma toy_wrong_key k k' p : k ≠ k' → toy_open k' (toy_seal k p) = None.
Proof.
  revert k'; induction k as [|x k IH]; intros [|y k'] H; cbn; try done.
  destruct (Ascii.eqb_spec y x) as [->|]; [|done]. apply IH. congruence.
Qed.

Definition toy_gcm_laws : @GcmLaws toy_aead.
Proof.
  split.
  - intros s salt info n. cbn. rewrite length_take, length_app, repeat_length. lia.
  - intros k n p. apply toy_open_seal.
  - intros k k' n p. apply toy_wrong_key.
Defined.

(** The key ["old"] was current, then one of two previous keys. *)
Definition ex_old : option Vault := @NewVault toy_aead "old" "totp".
Definition ex_new : option Vault := @NewVaultWithRotation toy_aead "new" "totp" ["other"; "old"].

Lemma rotation_keeps_secrets_witness :
  ∃ v0 v value, ex_old = Some v0 ∧ ex_new = Some v
  ∧ @EncryptVersioned toy_aead (Some v0) (Some (repeat "n"%char 12)) "JBSWY3DP" = Ok value
  ∧ @DecryptVersioned toy_aead sorted_range (Some v) value = Ok "JBSWY3DP".
Proof.
  eexists _, _, _. split_and!; [reflexivity|reflexivity|reflexivity|].
  eapply (@rotation_keeps_secrets toy_aead toy_gcm_laws sorted_range "totp" "old" "new" ["other"; "old"]
           _ _ (repeat "n"%char 12));
    [ by apply conf_single | cbn; unfold max_int64; lia | reflexivity | set_solver
    | reflexivity | reflexivity ].
Defined.
