(* ===== verification/AuthStore.v ===== *)
(** * Users, sessions and the stores behind the auth service

    The data of [src/api/internal/modules/auth/service.go], its normalisation
    functions, the interfaces [VolatileStore] (here [SessionStore]) and
    [Persistence] it is written against, and the implementation of the latter
    by the Postgres tables ([src/api/internal/state/postgres_store.go] and the
    queries under [state/sqlc]).  [SessionLaws] is what the service's theorems
    use of a store; [postgres_laws] shows that the tables meet it.

    A password hash is a string of bytes, [""] for the nil slice.  A store call
    takes the wall clock first.  Whether a call to the database fails is decided
    by [pg_up], one entry per call. *)

From S2P Require Import Prelude GoStrings GoTime.
#[local] Open Scope string_scope.
#[local] Open Scope Z_scope.

#[global] Arguments TrimSpace _ : simpl never.
#[global] Arguments ToLower _ : simpl never.
#[global] Arguments is_empty _ : simpl never.

(** ** Data *)

Record User := mkUser {
  uID : string; uName : string; uEmail : string; uRole : string; uTenantID : string;
  uBuildingIDs : list string; uLanguage : string; uPasswordAuthEnabled : bool
}.
#[export] Instance eta_User : Eta User := λ u,
  mkUser (uID u) (uName u) (uEmail u) (uRole u) (uTenantID u) (uBuildingIDs u) (uLanguage u)
    (uPasswordAuthEnabled u).

Record userRecord := mkUserRecord { rUser : User; rPasswordHash : string }.

Record mfaRecoveryCode := mkCode { CodeHash : string; Used : bool }.
#[export] Instance eta_code : Eta mfaRecoveryCode := λ c, mkCode (CodeHash c) (Used c).

(** [adminMFAState], and [AdminMFAPersistenceState] with the same fields. *)
Record adminMFAState := mkMFA {
  Secret : string; PendingSecret : string; Enabled : bool;
  RecoveryCodes : list mfaRecoveryCode; mUpdatedAt : Z
}.
#[export] Instance eta_mfa : Eta adminMFAState := λ m,
  mkMFA (Secret m) (PendingSecret m) (Enabled m) (RecoveryCodes m) (mUpdatedAt m).

(** The zero value, read from a missing key of the map. *)
Definition zeroMFA : adminMFAState := mkMFA "" "" false [] time_zero.

(** ** Normalisation *)

Definition normalizeEmail (email : string) : string := ToLower (TrimSpace email).

Definition languages : list string := ["en-US"; "id-ID"; "zh-CN"].
Definition normalizeLanguage (language : string) : string :=
  let nextLanguage := TrimSpace language in
  if existsb (String.eqb nextLanguage) languages then nextLanguage else "".

Fixpoint unique_from (seen values : list string) : list string :=
  match values with
  | [] => []
  | v :: values' =>
      let value := TrimSpace v in
      if is_empty value || existsb (String.eqb value) seen then unique_from seen values'
      else value :: unique_from (value :: seen) values'
  end.
Definition uniqueNormalizedIDs (values : list string) : list string := unique_from [] values.

(** [normalizeUser], and [normalizeAuthUser] of the store *)
Definition normalizeUser (user : User) : option User :=
  let nextUser := mkUser (TrimSpace (uID user)) (TrimSpace (uName user)) (normalizeEmail (uEmail user))
    (ToLower (TrimSpace (uRole user))) (TrimSpace (uTenantID user))
    (uniqueNormalizedIDs (uBuildingIDs user)) (normalizeLanguage (uLanguage user))
    (uPasswordAuthEnabled user) in
  if is_empty (uID nextUser) || is_empty (uEmail nextUser) || is_empty (uRole nextUser) then None
  else Some nextUser.

(** ** The interfaces *)

(** An error of a store; the service never looks inside. *)
Inductive StoreError := StoreErr.

(** [VolatileStore], and the session half of [Persistence] *)
Class SessionStore (T : Type) := {
  UpsertAuthRefreshSession : Z → string → string → Z → op T StoreError unit;
  FindAuthRefreshSession : Z → string → op T StoreError (option (string * Z));
  DeleteAuthRefreshSession : Z → string → op T StoreError unit;
  DeleteAuthRefreshSessionsByUserID : Z → string → op T StoreError Z;
  UpsertAuthRevokedAccessToken : Z → string → Z → op T StoreError unit;
  IsAuthAccessTokenRevoked : Z → string → op T StoreError bool
}.

Class Persistence (T : Type) := {
  #[global] persistence_sessions :: SessionStore T;
  UpsertAuthUser : User → string → op T StoreError unit;
  FindAuthUserByEmail : string → op T StoreError (option (User * string));
  FindAuthUserByID : string → op T StoreError (option (User * string));
  UpsertAuthAdminMFAState : string → adminMFAState → op T StoreError unit;
  FindAuthAdminMFAState : string → op T StoreError (option adminMFAState)
}.

(** What the service relies on.  [session_in t now sid] is the session a store
    holds for an id at an instant, [revoked_in t now tid] whether it counts an
    access token as revoked. *)
Section session_laws.
Context {T : Type} `{!SessionStore T} (view : T → Z → string → option (string * Z)).

(** The operation gives no id a session it had not. *)
Definition shrinks {A} (m : op T StoreError A) : Prop :=
  ∀ t at_ sid r, view (exec m t) at_ sid = Some r → view t at_ sid = Some r.
End session_laws.

(** At [now] and later the operation forgets no revocation. *)
Definition keeps_revoked {T A} (rev : T → Z → string → bool) (now : Z) (m : op T StoreError A) : Prop :=
  ∀ t at_ tid, now <= at_ → rev t at_ tid = true → rev (exec m t) at_ tid = true.

Class SessionLaws (T : Type) `{!SessionStore T} := {
  session_in : T → Z → string → option (string * Z);
  revoked_in : T → Z → string → bool;
  find_answer : ∀ now sid t r,
    answer (FindAuthRefreshSession now sid) t = Ok (Some r) → session_in t now (TrimSpace sid) = Some r;
  find_live : ∀ now sid t r,
    answer (FindAuthRefreshSession now sid) t = Ok r →
    TrimSpace sid ≠ "" → r = session_in t now (TrimSpace sid);
  find_shrinks : ∀ now sid, shrinks session_in (FindAuthRefreshSession now sid);
  delete_shrinks : ∀ now sid, shrinks session_in (DeleteAuthRefreshSession now sid);
  delete_user_shrinks : ∀ now u, shrinks session_in (DeleteAuthRefreshSessionsByUserID now u);
  revoke_shrinks : ∀ now tid e, shrinks session_in (UpsertAuthRevokedAccessToken now tid e);
  isrevoked_shrinks : ∀ now tid, shrinks session_in (IsAuthAccessTokenRevoked now tid);
  upsert_other : ∀ now sid u e t at_ sid' r,
    session_in (exec (UpsertAuthRefreshSession now sid u e) t) at_ sid' = Some r →
    sid' ≠ TrimSpace sid → session_in t at_ sid' = Some r;
  upsert_found : ∀ now sid u e t at_,
    answer (UpsertAuthRefreshSession now sid u e) t = Ok tt → e mod second = 0 →
    now <= at_ → at_ + millisecond <= e →
    session_in (exec (UpsertAuthRefreshSession now sid u e) t) at_ (TrimSpace sid) = Some (TrimSpace u, e);
  delete_removes : ∀ now sid t at_,
    answer (DeleteAuthRefreshSession now sid) t = Ok tt → TrimSpace sid ≠ "" →
    session_in (exec (DeleteAuthRefreshSession now sid) t) at_ (TrimSpace sid) = None;
  upsert_keeps : ∀ now sid u e, keeps_revoked revoked_in now (UpsertAuthRefreshSession now sid u e);
  find_keeps : ∀ now sid, keeps_revoked revoked_in now (FindAuthRefreshSession now sid);
  delete_keeps : ∀ now sid, keeps_revoked revoked_in now (DeleteAuthRefreshSession now sid);
  delete_user_keeps : ∀ now u, keeps_revoked revoked_in now (DeleteAuthRefreshSessionsByUserID now u);
  isrevoked_keeps : ∀ now tid, keeps_revoked revoked_in now (IsAuthAccessTokenRevoked now tid);
  isrevoked_answer : ∀ now tid t b,
    answer (IsAuthAccessTokenRevoked now tid) t = Ok b → TrimSpace tid ≠ "" →
    b = revoked_in t now (TrimSpace tid);
  revoke_ok : ∀ now tid e t at_,
    answer (UpsertAuthRevokedAccessToken now tid e) t = Ok tt → now <= at_ → at_ + millisecond <= e →
    revoked_in (exec (UpsertAuthRevokedAccessToken now tid e) t) at_ (TrimSpace tid) = true;
  revoke_other : ∀ now tid e t at_ tid',
    now <= at_ → tid' ≠ TrimSpace tid ∨ at_ + millisecond <= e → revoked_in t at_ tid' = true →
    revoked_in (exec (UpsertAuthRevokedAccessToken now tid e) t) at_ tid' = true
}.

(** ** The Postgres tables *)

(** A row of [mistypass_auth_users]: there is no column for
    [PasswordAuthEnabled]. *)
Record PgUser := mkPgUser {
  pgName : string; pgEmail : string; pgRole : string; pgTenantID : string;
  pgBuildingIDs : list string; pgLanguage : string; pgPasswordHash : string
}.

(** A row of [mistypass_auth_admin_mfa_states]: none for the recovery codes. *)
Record PgMFA := mkPgMFA {
  pgSecret : string; pgPendingSecret : string; pgEnabled : bool; pgUpdatedAt : Z
}.

Record Postgres := mkPostgres {
  pg_up : list bool;
  auth_users : gmap string PgUser;
  auth_refresh_sessions : gmap string (string * Z);
  auth_revoked_access_tokens : gmap string Z;
  auth_admin_mfa_states : gmap string PgMFA
}.
#[export] Instance eta_Postgres : Eta Postgres := λ p,
  mkPostgres (pg_up p) (auth_users p) (auth_refresh_sessions p) (auth_revoked_access_tokens p)
    (auth_admin_mfa_states p).

Module Pg.

(** One statement sent to the database. *)
Definition query : op Postgres StoreError unit := λ p,
  match pg_up p with
  | [] => (p, Ok tt)
  | up :: ups => (p <| pg_up := ups |>, if up : bool then Ok tt else Err StoreErr)
  end.

Definition user_of_row (id : string) (r : PgUser) : User :=
  mkUser id (pgName r) (pgEmail r) (pgRole r) (pgTenantID r) (uniqueNormalizedIDs (pgBuildingIDs r))
    (pgLanguage r) false.

(** The unique index on [email]: another row has it. *)
Definition email_taken (id email : string) (p : Postgres) : bool :=
  existsb (fun '(id', r) => negb (String.eqb id' id) && String.eqb (pgEmail r) email)
    (map_to_list (auth_users p)).

Definition UpsertAuthUser (user : User) (passwordHash : string) : op Postgres StoreError unit :=
  match normalizeUser user with
  | None => throw StoreErr
  | Some u =>
      query;;
      taken ← gets (email_taken (uID u) (uEmail u));
      fail_if taken StoreErr;;
      modify (fun p => p <| auth_users ::= <[uID u :=
        mkPgUser (uName u) (uEmail u) (uRole u) (uTenantID u) (uBuildingIDs u) (uLanguage u)
          passwordHash]> |>)
  end.

(** The row read, normalised once more. *)
Definition found_user (id : string) (r : PgUser) : option (User * string) :=
  match normalizeUser (user_of_row id r) with
  | Some u => Some (u, pgPasswordHash r)
  | None => None
  end.

Definition FindAuthUserByEmail (email : string) : op Postgres StoreError (option (User * string)) :=
  let nextEmail := normalizeEmail email in
  if is_empty nextEmail then mret None
  else
    query;;
    rows ← gets (fun p => map_to_list (auth_users p));
    mret (match findi (fun '(_, r) => String.eqb (ToLower (pgEmail r)) nextEmail) rows with
          | Some (_, (id, r)) => found_user id r
          | None => None
          end).

Definition FindAuthUserByID (userID : string) : op Postgres StoreError (option (User * string)) :=
  let nextUserID := TrimSpace userID in
  if is_empty nextUserID then mret None
  else
    query;;
    row ← gets (fun p => auth_users p !! nextUserID);
    mret (match row with Some r => found_user nextUserID r | None => None end).

Definition UpsertAuthRefreshSession (now : Z) (sessionID userID : string) (expiresAt : Z)
    : op Postgres StoreError unit :=
  let nextSessionID := TrimSpace sessionID in
  let nextUserID := TrimSpace userID in
  fail_if (is_empty nextSessionID || is_empty nextUserID || IsZero expiresAt) StoreErr;;
  query;;
  modify (fun p => p <| auth_refresh_sessions ::= <[nextSessionID := (nextUserID, expiresAt)]> |>).

Definition FindAuthRefreshSession (now : Z) (sessionID : string)
    : op Postgres StoreError (option (string * Z)) :=
  let nextSessionID := TrimSpace sessionID in
  if is_empty nextSessionID then mret None
  else
    query;;
    row ← gets (fun p => auth_refresh_sessions p !! nextSessionID);
    mret (match row with Some (u, e) => Some (TrimSpace u, e) | None => None end).

Definition DeleteAuthRefreshSession (now : Z) (sessionID : string) : op Postgres StoreError unit :=
  let nextSessionID := TrimSpace sessionID in
  if is_empty nextSessionID then mret tt
  else query;; modify (fun p => p <| auth_refresh_sessions ::= delete nextSessionID |>).

Definition of_user (u : string) (row : string * Z) : bool := String.eqb (fst row) u.

Definition DeleteAuthRefreshSessionsByUserID (now : Z) (userID : string) : op Postgres StoreError Z :=
  let nextUserID := TrimSpace userID in
  if is_empty nextUserID then mret 0
  else
    query;;
    m ← gets auth_refresh_sessions;
    modify (fun p => p <| auth_refresh_sessions ::=
                filter (fun row => of_user nextUserID row.2 = false) |>);;
    mret (Z.of_nat (size (filter (fun row => of_user nextUserID row.2 = true) m))).

Definition UpsertAuthRevokedAccessToken (now : Z) (tokenID : string) (expiresAt : Z)
    : op Postgres StoreError unit :=
  let nextTokenID := TrimSpace tokenID in
  fail_if (is_empty nextTokenID || IsZero expiresAt) StoreErr;;
  query;;
  modify (fun p => p <| auth_revoked_access_tokens ::= <[nextTokenID := expiresAt]> |>).

(** The clean-up of an expired row ignores its own error. *)
Definition IsAuthAccessTokenRevoked (now : Z) (tokenID : string) : op Postgres StoreError bool :=
  let nextTokenID := TrimSpace tokenID in
  if is_empty nextTokenID then mret false
  else
    query;;
    row ← gets (fun p => auth_revoked_access_tokens p !! nextTokenID);
    match row with
    | None => mret false
    | Some e =>
        if After e now then mret true
        else
          ignore_err (query;;
            modify (fun p => p <| auth_revoked_access_tokens ::= delete nextTokenID |>));;
          mret false
    end.

Definition UpsertAuthAdminMFAState (userID : string) (state : adminMFAState)
    : op Postgres StoreError unit :=
  let nextUserID := TrimSpace userID in
  fail_if (is_empty nextUserID) StoreErr;;
  query;;
  modify (fun p => p <| auth_admin_mfa_states ::=
    <[nextUserID := mkPgMFA (TrimSpace (Secret state)) (TrimSpace (PendingSecret state))
        (Enabled state) (mUpdatedAt state)]> |>).

Definition FindAuthAdminMFAState (userID : string) : op Postgres StoreError (option adminMFAState) :=
  let nextUserID := TrimSpace userID in
  if is_empty nextUserID then mret None
  else
    query;;
    row ← gets (fun p => auth_admin_mfa_states p !! nextUserID);
    mret (match row with
          | Some r => Some (mkMFA (TrimSpace (pgSecret r)) (TrimSpace (pgPendingSecret r))
                              (pgEnabled r) [] (pgUpdatedAt r))
          | None => None
          end).
End Pg.

#[export] Instance postgres_sessions : SessionStore Postgres := {|
  UpsertAuthRefreshSession := Pg.UpsertAuthRefreshSession;
  FindAuthRefreshSession := Pg.FindAuthRefreshSession;
  DeleteAuthRefreshSession := Pg.DeleteAuthRefreshSession;
  DeleteAuthRefreshSessionsByUserID := Pg.DeleteAuthRefreshSessionsByUserID;
  UpsertAuthRevokedAccessToken := Pg.UpsertAuthRevokedAccessToken;
  IsAuthAccessTokenRevoked := Pg.IsAuthAccessTokenRevoked
|}.

#[export] Instance postgres_persistence : Persistence Postgres := {|
  UpsertAuthUser := Pg.UpsertAuthUser;
  FindAuthUserByEmail := Pg.FindAuthUserByEmail;
  FindAuthUserByID := Pg.FindAuthUserByID;
  UpsertAuthAdminMFAState := Pg.UpsertAuthAdminMFAState;
  FindAuthAdminMFAState := Pg.FindAuthAdminMFAState
|}.

(** ** Facts *)

Lemma normalizeEmail_idem e : normalizeEmail (normalizeEmail e) = normalizeEmail e.
Proof. unfold normalizeEmail. by rewrite TrimSpace_lower, ToLower_idem. Qed.

Lemma normalizeLanguage_idem l : normalizeLanguage (normalizeLanguage l) = normalizeLanguage l.
Proof.
  unfold normalizeLanguage. destruct (existsb (String.eqb (TrimSpace l)) languages) eqn:H.
  - by rewrite TrimSpace_idem, H.
  - done.
Qed.

Lemma existsb_eqb s l : existsb (String.eqb s) l = true ↔ s ∈ l.
Proof.
  rewrite existsb_exists. split.
  - intros (x & Hx & ->%String.eqb_eq). by apply list_elem_of_In.
  - intros Hx. exists s. split; [by apply list_elem_of_In|apply String.eqb_refl].
Qed.

(** A list of distinct, non-blank, trimmed ids outside [seen]. *)
Definition clean_ids (seen l : list string) : Prop :=
  NoDup l ∧ ∀ x, x ∈ l → TrimSpace x = x ∧ x ≠ "" ∧ x ∉ seen.

Lemma unique_from_clean seen l : clean_ids seen (unique_from seen l).
Proof.
  revert seen; induction l as [|v l IH]; intros seen; simpl; [split; [constructor|set_solver]|].
  destruct (is_empty (TrimSpace v)) eqn:He; simpl; [apply IH|].
  destruct (existsb (String.eqb (TrimSpace v)) seen) eqn:Hs; [apply IH|].
  destruct (IH (TrimSpace v :: seen)) as [Hnd Hall]. split.
  - constructor; [|done]. intros (_ & _ & Hn)%Hall. set_solver.
  - intros x [->|(? & ? & Hx)%Hall]%elem_of_cons; [|set_solver].
    split_and!; [apply TrimSpace_idem|by apply is_empty_false|].
    intros Hx%existsb_eqb. congruence.
Qed.

Lemma unique_from_fix seen l : clean_ids seen l → unique_from seen l = l.
Proof.
  revert seen; induction l as [|v l IH]; intros seen [Hnd Hall]; [done|]; simpl.
  destruct (Hall v) as (Ht & Hne & Hs); [left|]. rewrite Ht.
  replace (is_empty v) with false by (symmetry; by apply is_empty_false). simpl.
  destruct (existsb (String.eqb v) seen) eqn:Hx; [apply existsb_eqb in Hx; set_solver|].
  f_equal. apply IH. apply NoDup_cons in Hnd as [? ?]. split; [done|]. intros x Hin.
  destruct (Hall x) as (? & ? & ?); [by right|]. set_solver.
Qed.

Lemma uniqueNormalizedIDs_idem l : uniqueNormalizedIDs (uniqueNormalizedIDs l) = uniqueNormalizedIDs l.
Proof. apply unique_from_fix, unique_from_clean. Qed.

(** A user as the service stores it. *)
Definition normalized (u : User) : Prop := normalizeUser u = Some u.

Lemma normalizeUser_normalized u v : normalizeUser u = Some v → normalized v.
Proof.
  unfold normalized, normalizeUser. case_match eqn:Hb; [done|]. intros [= <-]. cbn in *.
  rewrite !TrimSpace_idem, normalizeEmail_idem, TrimSpace_lower, ToLower_idem, uniqueNormalizedIDs_idem,
    normalizeLanguage_idem. by rewrite Hb.
Qed.

Lemma normalized_email u : normalized u → normalizeEmail (uEmail u) = uEmail u.
Proof.
  unfold normalized, normalizeUser. case_match; [done|]. intros Hn. injection Hn as Hn.
  rewrite <- Hn. cbn. apply normalizeEmail_idem.
Qed.

Lemma normalized_fields u : normalized u →
  TrimSpace (uID u) = uID u ∧ uID u ≠ "" ∧ uEmail u ≠ "" ∧ uRole u ≠ "".
Proof.
  unfold normalized, normalizeUser. case_match eqn:Hb; [done|]. intros Hn. injection Hn as Hn.
  rewrite <- Hn. cbn in *. boolp. rewrite TrimSpace_idem. by rewrite <- !is_empty_false.
Qed.

(** *** The tables meet the laws *)

(** A statement goes through or fails; either way only [pg_up] is used up. *)
Lemma query_then {A} (k : unit → op Postgres StoreError A) t :
  ∃ u, (Pg.query ≫= k) t = (t <| pg_up := u |>, Err StoreErr)
       ∨ (Pg.query ≫= k) t = k tt (t <| pg_up := u |>).
Proof.
  rewrite bind_op_eq. unfold Pg.query.
  destruct t as [[|[] ups] us rs rv ms]; cbn; eexists; [right|right|left]; done.
Qed.

Definition pg_session (p : Postgres) (now : Z) (sid : string) : option (string * Z) :=
  match auth_refresh_sessions p !! sid with Some (u, e) => Some (TrimSpace u, e) | None => None end.
Definition pg_revoked (p : Postgres) (now : Z) (tid : string) : bool :=
  match auth_revoked_access_tokens p !! tid with Some e => After e now | None => false end.

#[local] Ltac pg_unfold :=
  cbn [UpsertAuthRefreshSession FindAuthRefreshSession DeleteAuthRefreshSession
       DeleteAuthRefreshSessionsByUserID UpsertAuthRevokedAccessToken IsAuthAccessTokenRevoked
       postgres_sessions persistence_sessions postgres_persistence] in *;
  unfold Pg.UpsertAuthRefreshSession, Pg.FindAuthRefreshSession, Pg.DeleteAuthRefreshSession,
    Pg.DeleteAuthRefreshSessionsByUserID, Pg.UpsertAuthRevokedAccessToken,
    Pg.IsAuthAccessTokenRevoked, shrinks, keeps_revoked, exec, answer in *.

(** Run the statement of an operation on the tables [t]. *)
#[local] Ltac pg_stmt t :=
  rewrite ?fail_if_bind; try (case_match; [done|]);
  match goal with
  | |- context [(Pg.query ≫= ?k) t] =>
      let u := fresh "u" in let E := fresh "E" in
      destruct (query_then k t) as [u [E|E]]; rewrite ?E; clear E
  end; unfold pg_session, pg_revoked;
  rewrite ?bind_gets, ?bind_modify; cbn [auth_revoked_access_tokens set eta_Postgres]; cbv beta;
  try done.

(** The look-up of a revocation: its answer, and the row it may drop. *)
Lemma pg_isrevoked now tid t :
  ∃ u m, exec (Pg.IsAuthAccessTokenRevoked now tid) t
         = t <| pg_up := u |> <| auth_revoked_access_tokens := m |>
  ∧ (m = auth_revoked_access_tokens t
     ∨ m = delete (TrimSpace tid) (auth_revoked_access_tokens t) ∧ pg_revoked t now (TrimSpace tid) = false)
  ∧ ∀ b, answer (Pg.IsAuthAccessTokenRevoked now tid) t = Ok b → TrimSpace tid ≠ "" →
      b = pg_revoked t now (TrimSpace tid).
Proof.
  unfold Pg.IsAuthAccessTokenRevoked. destruct (is_empty (TrimSpace tid)) eqn:He.
  { exists (pg_up t), (auth_revoked_access_tokens t). split_and!; [by destruct t|by left|].
    apply is_empty_true in He. intros b _ H. by rewrite He in H. }
  unfold exec, answer. match goal with |- context [(Pg.query ≫= ?k) t] =>
    destruct (query_then k t) as [u [E|E]]; rewrite E; clear E end.
  { exists u, (auth_revoked_access_tokens t). split_and!; [by destruct t|by left|done]. }
  rewrite !bind_gets. unfold pg_revoked. cbn.
  destruct (auth_revoked_access_tokens t !! TrimSpace tid) as [e|];
    [|exists u, (auth_revoked_access_tokens t); split_and!; [by destruct t|by left|by intros b [= <-]]].
  destruct (After e now).
  { exists u, (auth_revoked_access_tokens t). split_and!; [by destruct t|by left|by intros b [= <-]]. }
  rewrite bind_op_eq. unfold ignore_err. cbn [fst snd].
  match goal with |- context [(Pg.query ≫= ?k) ?t'] =>
    destruct (query_then k t') as [u' [E|E]]; rewrite E; clear E end; cbn.
  - exists u', (auth_revoked_access_tokens t). split_and!; [done|by left|by intros b [= <-]].
  - eexists u', _. split_and!; [done|by right|by intros b [= <-]].
Qed.

#[export] Instance postgres_laws : SessionLaws Postgres.
Proof.
  refine {| session_in := pg_session; revoked_in := pg_revoked |}; pg_unfold.
  - intros now sid t r. pg_stmt t. by intros [= Hr].
  - intros now sid t r Ha Hne%is_empty_false. revert Ha. rewrite Hne. pg_stmt t. by intros [= <-].
  - intros now sid t at_ sid' r. pg_stmt t.
  - intros now sid t at_ sid' r. pg_stmt t. cbn. rewrite lookup_delete. by case_decide.
  - intros now u t at_ sid' r. pg_stmt t. cbn.
    rewrite map_lookup_filter. destruct (_ !! sid') as [[]|]; simpl; [|done]. by case_guard.
  - intros now tid e t at_ sid' r. pg_stmt t.
  - intros now tid t at_ sid' r. destruct (pg_isrevoked now tid t) as (u & m & E & _).
    unfold exec in E. unfold Pg.IsAuthAccessTokenRevoked in E. by rewrite E.
  - intros now sid u e t at_ sid' r Hr Hne. revert Hr. pg_stmt t. cbn. by rewrite lookup_insert_ne.
  - intros now sid u e t at_ Ha _ _ _. revert Ha. pg_stmt t. cbn.
    by rewrite lookup_insert_eq, TrimSpace_idem.
  - intros now sid t at_ Ha Hne%is_empty_false. revert Ha. rewrite Hne. pg_stmt t. cbn.
    by rewrite lookup_delete_eq.
  - intros now sid u e t at_ tid _. pg_stmt t.
  - intros now sid t at_ tid _. pg_stmt t.
  - intros now sid t at_ tid _. pg_stmt t.
  - intros now u t at_ tid _. pg_stmt t.
  - intros now tid t at_ tid' Hat Hr. destruct (pg_isrevoked now tid t) as (u & m & E & Hm & _).
    unfold exec, Pg.IsAuthAccessTokenRevoked in E. rewrite E.
    unfold pg_revoked in *. cbn. destruct Hm as [->|[-> Hn]]; [done|].
    rewrite lookup_delete. case_decide as Hd; [|done]. subst tid'.
    destruct (_ !! TrimSpace tid) as [e|]; [|done]. unfold After in *. lia.
  - intros now tid t b Hb Hne. destruct (pg_isrevoked now tid t) as (u & m & _ & _ & Ha).
    by apply Ha.
  - intros now tid e t at_ Ha _ Hat. revert Ha. pg_stmt t. cbn. rewrite lookup_insert_eq.
    unfold After, millisecond in *. lia.
  - intros now tid e t at_ tid' _ Hat Hr. revert Hr. pg_stmt t. cbn.
    rewrite lookup_insert. case_decide; [|done]. destruct Hat; [congruence|].
    unfold After, millisecond in *. lia.
Defined.

(** The calls about users and codes leave sessions and revocations alone. *)
Definition leaves_sessions {T A} `{!SessionStore T, !SessionLaws T} (m : op T StoreError A) : Prop :=
  ∀ t at_ k, session_in (exec m t) at_ k = session_in t at_ k
             ∧ revoked_in (exec m t) at_ k = revoked_in t at_ k.

Class PersistenceLaws (T : Type) `{!Persistence T, !SessionLaws T} := {
  upsert_user_leaves : ∀ u h, leaves_sessions (T:=T) (UpsertAuthUser u h);
  find_email_leaves : ∀ e, leaves_sessions (T:=T) (FindAuthUserByEmail e);
  find_id_leaves : ∀ i, leaves_sessions (T:=T) (FindAuthUserByID i);
  upsert_mfa_leaves : ∀ i x, leaves_sessions (T:=T) (UpsertAuthAdminMFAState i x);
  find_mfa_leaves : ∀ i, leaves_sessions (T:=T) (FindAuthAdminMFAState i)
}.

(** A tables operation that writes neither sessions nor revocations. *)
Definition frame_sessions {A} (m : op Postgres StoreError A) : Prop :=
  ∀ p, auth_refresh_sessions (exec m p) = auth_refresh_sessions p
       ∧ auth_revoked_access_tokens (exec m p) = auth_revoked_access_tokens p.

Lemma frame_leaves {A} (m : op Postgres StoreError A) : frame_sessions m → leaves_sessions m.
Proof.
  intros Hf t at_ k. destruct (Hf t) as [H1 H2]. split; cbn -[exec];
    unfold pg_session, pg_revoked; by rewrite ?H1, ?H2.
Qed.

Lemma frame_query {A} (k : unit → op Postgres StoreError A) :
  (∀ u, frame_sessions (k u)) → frame_sessions (Pg.query ≫= k).
Proof.
  intros Hk p. unfold exec. destruct (query_then k p) as [u [E|E]]; rewrite E; [done|].
  destruct (Hk tt (p <| pg_up := u |>)) as [H1 H2]. unfold exec in *. by rewrite H1, H2.
Qed.

#[export] Instance postgres_persistence_laws : PersistenceLaws Postgres.
Proof.
  split; intros; apply frame_leaves; cbn.
  - unfold Pg.UpsertAuthUser. case_match; [|done]. apply frame_query. intros _ p.
    unfold exec. rewrite bind_gets, fail_if_bind. by case_match.
  - unfold Pg.FindAuthUserByEmail. case_match; [done|]. by apply frame_query.
  - unfold Pg.FindAuthUserByID. case_match; [done|]. by apply frame_query.
  - unfold Pg.UpsertAuthAdminMFAState. intros p. unfold exec. rewrite fail_if_bind. case_match; [done|].
    apply (frame_query (λ _, _)). done.
  - unfold Pg.FindAuthAdminMFAState. case_match; [done|]. by apply frame_query.
Qed.
