(* ===== verification/Auth.v ===== *)
(** * Authentication ([src/api/internal/modules/auth/service.go])

    The auth service: logins, token pairs, refresh rotation, revocation, users,
    passwords and multi-factor codes.  [Service] is the Go struct with its maps;
    the optional stores are the interfaces of [AuthStore], the vault is
    [Vault].  Every method is one definition in the monad [op]; the clock of a
    call is its argument [now] (all the [time.Now()] of one call are
    identified) and the random source is the field [entropy], whose next chunk
    answers the next read and a chunk of another size a failed one.  [bcrypt],
    HMAC-SHA1 and the JWT library are the fields of [AuthCrypto]. *)

From S2P Require Import Prelude GoStrings GoTime Bytes Encoding Vault AuthStore.
#[local] Open Scope string_scope.
#[local] Open Scope list_scope.
#[local] Open Scope Z_scope.

(** ** Data *)

Inductive AuthErr :=
| ErrInvalidCredentials | ErrInvalidRefreshToken | ErrInvalidAccessToken | ErrUserNotFound
| ErrUserRoleUnsupported | ErrAdminMFAEnrollmentRequired | ErrAdminMFARequired
| ErrInvalidMFACode | ErrAdminMFANotConfigured | ErrPasswordTooWeak
| ErrPasswordResetTokenInvalid | ErrPasswordResetTokenExpired | ErrPasswordAuthDisabled
| ErrText (s : string)
| ErrStoreCall | ErrRandom | ErrBcrypt | ErrSign | ErrVault (e : VaultErr).

Record SessionMetadata := mkMeta { IPAddress : string; UserAgent : string; LoginMethod : string }.
Definition noMeta : SessionMetadata := mkMeta "" "" "".

Record refreshSession := mkSession {
  sUserID : string; sExpiresAt : Z; sMeta : SessionMetadata; sCreatedAt : Z
}.

(** [LoginSession]: the id and the session. *)
Definition LoginSession : Type := string * refreshSession.

Record tokenClaims := mkClaims {
  cUserID : string; cName : string; cEmail : string; cRole : string; cTenantID : string;
  cBuildingIDs : list string; cLanguage : string; cTokenType : string;
  cID : string; cSubject : string; cIssuer : string; cAudience : list string;
  cIssuedAt : option Z; cNotBefore : option Z; cExpiresAt : option Z
}.

Record LoginResponse := mkLogin {
  AccessToken : string; RefreshToken : string; ExpiresIn : Z; LoginUser : User
}.

Record passwordResetToken := mkReset { prtEmail : string; prtExpiresAt : Z }.

Record AdminMFAStatus := mkStatus {
  stUserID : string; stEnabled : bool; stPending : bool; stUpdatedAt : option Z
}.
Record AdminMFARecoveryCodes := mkRecovery { rcUserID : string; Codes : list string }.
Record AdminMFAEnrollment := mkEnrollment { enUserID : string; enSecret : string; OTPAuthURL : string }.

(** [x/crypto/bcrypt], [crypto/hmac] with SHA-1, and [golang-jwt]: signing with
    HS256, and parsing with the check that the method is an HMAC. *)
Class AuthCrypto := {
  bcrypt_generate : bytes → string → option string;   (* salt, password *)
  bcrypt_compare : string → string → bool;            (* hash, password *)
  hmac_sha1 : bytes → bytes → bytes;
  NewNumericDate : Z → Z;
  jwt_sign : string → tokenClaims → option string;
  jwt_parse : string → Z → string → option tokenClaims
}.

(** What is used of the libraries behind [AuthCrypto]. *)
Class AuthLaws `{!AuthCrypto} := {
  hmac_length : ∀ k msg, length (hmac_sha1 k msg) = 20%nat;
  bcrypt_match : ∀ salt p h, bcrypt_generate salt p = Some h → h ≠ "" ∧ bcrypt_compare h p = true;
  numeric_second : ∀ t, NewNumericDate t mod second = 0 ∧ t - second < NewNumericDate t <= t;
  (* a token carries its claims, and is valid from [nbf] until [exp] *)
  jwt_sign_parse : ∀ key c tok now nbf exp,
    jwt_sign key c = Some tok → cNotBefore c = Some (NewNumericDate nbf) →
    cExpiresAt c = Some (NewNumericDate exp) → NewNumericDate nbf <= now < NewNumericDate exp →
    jwt_parse key now tok = Some c;
  jwt_signs : ∀ key c, is_Some (jwt_sign key c);
  jwt_stable : ∀ key t1 t2 tok c1 c2,
    jwt_parse key t1 tok = Some c1 → jwt_parse key t2 tok = Some c2 → c1 = c2;
  jwt_unexpired : ∀ key now tok c e,
    jwt_parse key now tok = Some c → cExpiresAt c = Some e → now < e
}.

Definition defaultJWTIssuer : string := "mistypass-api".
Definition defaultAccessTTL : Z := hour.
Definition defaultRefreshTTL : Z := 7 * 24 * hour.
Definition passwordResetTokenTTL : Z := 15 * minute.

(** ** Pure helpers *)

(** [ValidatePasswordPolicy]: [true] when the password is accepted. *)
Definition is_upper (c : ascii) : bool := (65 <=? code c) && (code c <=? 90).
Definition is_lower (c : ascii) : bool := (97 <=? code c) && (code c <=? 122).
Fixpoint has_char (p : ascii → bool) (s : string) : bool :=
  match s with EmptyString => false | String c s' => p c || has_char p s' end.
Definition ValidatePasswordPolicy (password : string) : bool :=
  (8 <=? len password) && has_char is_upper password && has_char is_lower password
  && has_char is_digit password.

Definition isAdminRole (role : string) : bool :=
  existsb (String.eqb (ToLower (TrimSpace role))) ["super_admin"; "tenant_admin"].

(** [url.PathEscape] and [url.QueryEscape]: percent-encoding of the bytes that
    [shouldEscape] selects in each mode. *)
Definition unreserved (c : ascii) : bool :=
  is_upper c || is_lower c || is_digit c || existsb (Ascii.eqb c) ["-"; "_"; "."; "~"]%char.
Definition path_keeps (c : ascii) : bool :=
  unreserved c || existsb (Ascii.eqb c) ["$"; "&"; "+"; ":"; "="; "@"]%char.
Fixpoint PathEscape (s : string) : string :=
  match s with
  | EmptyString => ""
  | String c s' =>
      (if path_keeps c then String c "" else "%" +:+ hex_encode_upper [c]) +:+ PathEscape s'
  end.
Fixpoint QueryEscape (s : string) : string :=
  match s with
  | EmptyString => ""
  | String c s' =>
      (if Ascii.eqb c " " then "+"
       else if unreserved c then String c "" else "%" +:+ hex_encode_upper [c]) +:+ QueryEscape s'
  end.

Definition buildOTPAuthURL (issuer email secret : string) : string :=
  let nextIssuer := TrimSpace issuer in
  let nextIssuer := if is_empty nextIssuer then "MistyPass" else nextIssuer in
  let nextEmail := normalizeEmail email in
  let nextEmail := if is_empty nextEmail then "admin" else nextEmail in
  let label := PathEscape (nextIssuer +:+ ":" +:+ nextEmail) in
  "otpauth://totp/" +:+ label +:+ "?secret=" +:+ QueryEscape secret
  +:+ "&issuer=" +:+ QueryEscape nextIssuer +:+ "&algorithm=SHA1&digits=6&period=30".

Section pure.
Context {crypto : AuthCrypto}.

Definition byte_at (b : bytes) (i : Z) : Z :=
  match b !! Z.to_nat i with Some c => code c | None => 0 end.

Definition totpCodeAt (secret : string) (counter : Z) : option string :=
  let nextSecret := ToUpper (TrimSpace secret) in
  if is_empty nextSecret then None
  else
    secretBytes ← base32_decode (of_string nextSecret);
    let counterBytes := put_be 8 (u64 counter) in
    let sum := hmac_sha1 secretBytes counterBytes in
    let offset := Z.land (byte_at sum (blen sum - 1)) 15 in
    let binaryCode :=
      Z.lor (Z.lor (Z.lor
        (Z.shiftl (Z.land (byte_at sum offset) 127) 24)
        (Z.shiftl (byte_at sum (offset + 1)) 16))
        (Z.shiftl (byte_at sum (offset + 2)) 8))
        (byte_at sum (offset + 3)) in
    Some (pad6 (binaryCode mod 1000000)).

(** The loop over the offsets; an error of [totpCodeAt] ends it. *)
Fixpoint totp_match (secret code : string) (counters : list Z) : bool :=
  match counters with
  | [] => false
  | counter :: counters' =>
      match totpCodeAt secret counter with
      | None => false
      | Some generated => if String.eqb generated code then true else totp_match secret code counters'
      end
  end.

Definition verifyTOTPCode (secret code : string) (now : Z) : bool :=
  let nextCode := TrimSpace code in
  if negb (len nextCode =? 6) || negb (all_chars is_digit nextCode) then false
  else
    let counter := Z.quot (Unix now) 30 in
    totp_match secret nextCode [counter - 1; counter; counter + 1].

Definition verifyPassword (passwordHash plain : string) : bool :=
  if is_empty passwordHash || is_empty plain then false
  else bcrypt_compare passwordHash plain.

(** [verifyAndConsumeRecoveryCode]: the codes afterwards and whether one matched. *)
Fixpoint verifyAndConsumeRecoveryCode (codes : list mfaRecoveryCode) (code : string)
    : list mfaRecoveryCode * bool :=
  match codes with
  | [] => ([], false)
  | c :: codes' =>
      if negb (Used c) && bcrypt_compare (CodeHash c) code
      then (c <| Used := true |> :: codes', true)
      else let '(l, m) := verifyAndConsumeRecoveryCode codes' code in (c :: l, m)
  end.
End pure.

(** [adminMFAStateForPersistence] and [adminMFAStateFromPersistence] *)
Definition adminMFAStateForPersistence (state : adminMFAState) : adminMFAState :=
  state <| Secret ::= TrimSpace |> <| PendingSecret ::= TrimSpace |>.
Definition adminMFAStateFromPersistence (state : adminMFAState) : adminMFAState :=
  state <| Secret ::= TrimSpace |> <| PendingSecret ::= TrimSpace |>.

Definition mfa_active (state : adminMFAState) : bool :=
  Enabled state && negb (is_empty (TrimSpace (Secret state))).

(** ** The service *)

Record Service (P V : Type) := mkService {
  signingKey : string; issuer : string; accessTTL : Z; refreshTTL : Z;
  adminMFARequired : bool;
  adminMFA : gmap string adminMFAState;
  persistence : option P;
  volatileStore : option V;
  secretVault : option Vault;
  usersByEmail : gmap string userRecord;
  usersByID : gmap string User;
  refreshSessions : gmap string refreshSession;
  revokedAccess : gmap string Z;
  passwordResetTokens : gmap string passwordResetToken;
  entropy : list bytes
}.
Arguments mkService {P V}.
Arguments signingKey {P V}. Arguments issuer {P V}. Arguments accessTTL {P V}.
Arguments refreshTTL {P V}. Arguments adminMFARequired {P V}. Arguments adminMFA {P V}.
Arguments persistence {P V}. Arguments volatileStore {P V}. Arguments secretVault {P V}.
Arguments usersByEmail {P V}. Arguments usersByID {P V}. Arguments refreshSessions {P V}.
Arguments revokedAccess {P V}. Arguments passwordResetTokens {P V}. Arguments entropy {P V}.
#[export] Instance eta_Service P V : Eta (Service P V) := λ s,
  mkService (signingKey s) (issuer s) (accessTTL s) (refreshTTL s) (adminMFARequired s)
    (adminMFA s) (persistence s) (volatileStore s) (secretVault s) (usersByEmail s) (usersByID s)
    (refreshSessions s) (revokedAccess s) (passwordResetTokens s) (entropy s).

Definition users_of (records : list userRecord) : gmap string userRecord * gmap string User :=
  fold_left (fun '(byEmail, byID) r =>
    (<[normalizeEmail (uEmail (rUser r)) := r]> byEmail, <[uID (rUser r) := rUser r]> byID))
    records (∅, ∅).

(** [NewService]: [ephemeral] is the random secret used without one, [demo] the
    built-in users when they are enabled. *)
Definition NewService {P V} (secret iss : string) (accTTL refTTL : Z) (demo : list userRecord)
    (ephemeral : string) (chunks : list bytes) : Service P V :=
  let nextSecret := if is_empty (TrimSpace secret) then ephemeral else TrimSpace secret in
  let nextIssuer := if is_empty (TrimSpace iss) then defaultJWTIssuer else TrimSpace iss in
  mkService nextSecret nextIssuer
    (if accTTL <=? 0 then defaultAccessTTL else accTTL)
    (if refTTL <=? 0 then defaultRefreshTTL else refTTL)
    false ∅ None None None (users_of demo).1 (users_of demo).2 ∅ ∅ ∅ chunks.

Section service.
Context {P V : Type} {pers : Persistence P} {vol : SessionStore V}.
Context {crypto : AuthCrypto} {cipher : AEAD} {order : MapRange}.
Abbreviation Svc := (Service P V).
Abbreviation m := (op (Service P V) AuthErr).

(** *** The random source and the stores *)

(** [rand.Read] of [n] bytes *)
Definition rand_read (n : nat) : m bytes := λ s,
  match entropy s with
  | [] => (s, Err ErrRandom)
  | c :: cs => (s <| entropy := cs |>, if (length c =? n)%nat then Ok c else Err ErrRandom)
  end.

Definition randomTokenID (byteLen : nat) : m string :=
  buf ← rand_read byteLen; mret (hex_encode buf).

(** [bcrypt.GenerateFromPassword], whose salt is sixteen random bytes *)
Definition GenerateFromPassword (password : string) : m string :=
  salt ← rand_read 16;
  match bcrypt_generate salt password with Some h => mret h | None => throw ErrBcrypt end.

(** A call of the persistence, when there is one. *)
Definition on_persistence {A} (f : op P StoreError A) : m (option A) := λ s,
  match persistence s with
  | None => (s, Ok None)
  | Some p =>
      match f p with
      | (p', Ok a) => (s <| persistence := Some p' |>, Ok (Some a))
      | (p', Err _) => (s <| persistence := Some p' |>, Err ErrStoreCall)
      end
  end.

Definition on_volatile {A} (f : op V StoreError A) : m (option A) := λ s,
  match volatileStore s with
  | None => (s, Ok None)
  | Some v =>
      match f v with
      | (v', Ok a) => (s <| volatileStore := Some v' |>, Ok (Some a))
      | (v', Err _) => (s <| volatileStore := Some v' |>, Err ErrStoreCall)
      end
  end.

(** [if s.volatileStore != nil { ... } else if s.persistence != nil { ... }] *)
Definition on_sessions {A} (f : op V StoreError A) (g : op P StoreError A) : m (option A) := λ s,
  match volatileStore s with
  | Some _ => on_volatile f s
  | None => on_persistence g s
  end.

(** *** Sessions *)

Definition cleanupExpiredLocked (now : Z) : m unit :=
  modify (fun s => s
    <| revokedAccess ::= filter (fun e => After e.2 now = true) |>
    <| refreshSessions ::= filter (fun e => After (sExpiresAt e.2) now = true) |>).

Definition upsertRefreshSessionLocked (now : Z) (sessionID : string) (session : refreshSession)
    : m unit :=
  let nextSessionID := TrimSpace sessionID in
  let nextUserID := TrimSpace (sUserID session) in
  fail_if (is_empty nextSessionID || is_empty nextUserID || IsZero (sExpiresAt session))
    (ErrText "invalid refresh session");;
  let nextSession := mkSession nextUserID (sExpiresAt session) (sMeta session) (sCreatedAt session) in
  on_sessions (UpsertAuthRefreshSession now nextSessionID nextUserID (sExpiresAt session))
    (UpsertAuthRefreshSession now nextSessionID nextUserID (sExpiresAt session));;
  modify (fun s => s <| refreshSessions ::= <[nextSessionID := nextSession]> |>).

(** The session the store has, when it counts ([session.UserID != ""] and a
    non-zero expiry). *)
Definition store_session (found : option (option (string * Z))) : option refreshSession :=
  match found with
  | Some (Some (userID, expiresAt)) =>
      let session := mkSession (TrimSpace userID) expiresAt noMeta time_zero in
      if negb (is_empty (sUserID session)) && negb (IsZero expiresAt) then Some session else None
  | _ => None
  end.

Definition local_session (nextSessionID : string) : m (option refreshSession) :=
  found ← gets (fun s => refreshSessions s !! nextSessionID);
  mret (match found with
        | Some s => Some (mkSession (TrimSpace (sUserID s)) (sExpiresAt s) (sMeta s) (sCreatedAt s))
        | None => None
        end).

(** [findRefreshSession] is two steps: the store is read without the lock, and
    what it has is then written to the map under the lock. *)
Definition findRefreshSession_read (now : Z) (sessionID : string) : m (option refreshSession) :=
  let nextSessionID := TrimSpace sessionID in
  if is_empty nextSessionID then mret None
  else
    found ← on_sessions (FindAuthRefreshSession now nextSessionID) (FindAuthRefreshSession now nextSessionID);
    mret (store_session found).

Definition findRefreshSession_cache (sessionID : string) (found : option refreshSession)
    : m (option refreshSession) :=
  let nextSessionID := TrimSpace sessionID in
  if is_empty nextSessionID then mret None
  else
    match found with
    | Some session =>
        modify (fun s => s <| refreshSessions ::= <[nextSessionID := session]> |>);;
        mret (Some session)
    | None => local_session nextSessionID
    end.

Definition findRefreshSession (now : Z) (sessionID : string) : m (option refreshSession) :=
  found ← findRefreshSession_read now sessionID; findRefreshSession_cache sessionID found.

Definition findRefreshSessionLocked (now : Z) (sessionID : string) : m (option refreshSession) :=
  let nextSessionID := TrimSpace sessionID in
  if is_empty nextSessionID then mret None
  else
    found ← on_sessions (FindAuthRefreshSession now nextSessionID) (FindAuthRefreshSession now nextSessionID);
    match store_session found with
    | Some session =>
        modify (fun s => s <| refreshSessions ::= <[nextSessionID := session]> |>);;
        mret (Some session)
    | None => local_session nextSessionID
    end.

Definition deleteRefreshSessionLocked (now : Z) (sessionID : string) : m unit :=
  let nextSessionID := TrimSpace sessionID in
  if is_empty nextSessionID then mret tt
  else
    on_sessions (DeleteAuthRefreshSession now nextSessionID) (DeleteAuthRefreshSession now nextSessionID);;
    modify (fun s => s <| refreshSessions ::= delete nextSessionID |>).

Definition revokeAccessTokenLocked (now : Z) (tokenID : string) (expiresAt : Z) : m unit :=
  let nextTokenID := TrimSpace tokenID in
  fail_if (is_empty nextTokenID || IsZero expiresAt) (ErrText "invalid access token");;
  on_sessions (UpsertAuthRevokedAccessToken now nextTokenID expiresAt)
    (UpsertAuthRevokedAccessToken now nextTokenID expiresAt);;
  modify (fun s => s <| revokedAccess ::= <[nextTokenID := expiresAt]> |>).

Definition isAccessTokenRevoked (now : Z) (tokenID : string) : m bool :=
  let nextTokenID := TrimSpace tokenID in
  if is_empty nextTokenID then mret false
  else
    found ← on_sessions (IsAuthAccessTokenRevoked now nextTokenID) (IsAuthAccessTokenRevoked now nextTokenID);
    match found with
    | Some true => mret true
    | _ => gets (fun s => match revokedAccess s !! nextTokenID with
                          | Some expiresAt => After expiresAt now
                          | None => false
                          end)
    end.

(** *** Users *)

(** Users with a password hash count as enabled for passwords. *)
Definition compat_enabled (passwordHash : string) (user : User) : User :=
  if negb (is_empty passwordHash) && negb (uPasswordAuthEnabled user)
  then user <| uPasswordAuthEnabled := true |> else user.

Definition cacheUserLocked (user : User) (passwordHash : string) : m unit :=
  modify (fun s =>
    let nextEmail := normalizeEmail (uEmail user) in
    let byEmail :=
      match usersByID s !! uID user with
      | Some existing =>
          let oldEmail := normalizeEmail (uEmail existing) in
          if negb (is_empty oldEmail) && negb (String.eqb oldEmail nextEmail)
          then delete oldEmail (usersByEmail s) else usersByEmail s
      | None => usersByEmail s
      end in
    let cachedUser := compat_enabled passwordHash user in
    s <| usersByID ::= <[uID user := cachedUser]> |>
      <| usersByEmail := <[nextEmail := mkUserRecord cachedUser passwordHash]> byEmail |>).

Definition persistUserLocked (user : User) (passwordHash : string) : m unit :=
  match normalizeUser user with
  | None => throw (ErrText "user id/email/role are required")
  | Some normalizedUser =>
      on_persistence (UpsertAuthUser normalizedUser passwordHash);;
      cacheUserLocked normalizedUser passwordHash
  end.

(** What a user look-up in the store yields, when it normalises. *)
Definition store_user (found : option (option (User * string))) : option (User * string) :=
  match found with
  | Some (Some (user, passwordHash)) =>
      match normalizeUser user with Some u => Some (u, passwordHash) | None => None end
  | _ => None
  end.

(** The two unlocked look-ups, like [findRefreshSession], read the store first
    and write the map later. *)
Definition findUserByEmail_cache (nextEmail : string) (found : option (User * string))
    : m (option userRecord) :=
  match found with
  | Some (u, h) =>
      cacheUserLocked (compat_enabled h u) h;; mret (Some (mkUserRecord (compat_enabled h u) h))
  | None => gets (fun s => usersByEmail s !! nextEmail)
  end.

Definition findUserByEmail (email : string) : m (option userRecord) :=
  let nextEmail := normalizeEmail email in
  if is_empty nextEmail then mret None
  else
    found ← on_persistence (FindAuthUserByEmail nextEmail);
    findUserByEmail_cache nextEmail (store_user found).

Definition findUserByID_read (userID : string) : m (option (User * string)) :=
  let nextUserID := TrimSpace userID in
  if is_empty nextUserID then mret None
  else found ← on_persistence (FindAuthUserByID nextUserID); mret (store_user found).

Definition findUserByID_cache (userID : string) (found : option (User * string)) : m (option User) :=
  let nextUserID := TrimSpace userID in
  if is_empty nextUserID then mret None
  else
    match found with
    | Some (u, h) => cacheUserLocked u h;; mret (Some u)
    | None => gets (fun s => usersByID s !! nextUserID)
    end.

Definition findUserByID (userID : string) : m (option User) :=
  found ← findUserByID_read userID; findUserByID_cache userID found.

Definition findUserByEmailLocked (email : string) : m (option userRecord) :=
  let nextEmail := normalizeEmail email in
  if is_empty nextEmail then mret None
  else
    found ← on_persistence (FindAuthUserByEmail nextEmail);
    match store_user found with
    | Some (u, h) => cacheUserLocked u h;; mret (Some (mkUserRecord u h))
    | None => gets (fun s => usersByEmail s !! nextEmail)
    end.

Definition findUserByIDLocked (userID : string) : m (option User) :=
  let nextUserID := TrimSpace userID in
  if is_empty nextUserID then mret None
  else
    found ← on_persistence (FindAuthUserByID nextUserID);
    match store_user found with
    | Some (u, h) => cacheUserLocked u h;; mret (Some u)
    | None => gets (fun s => usersByID s !! nextUserID)
    end.

(** [record, exists, _ := find(email)]: an error is taken for an absent user. *)
Definition record_of (find : m (option userRecord)) : m (option userRecord) :=
  found ← try_op find; mret (default None found).

(** The user a look-up must find. *)
Definition the {A} (e : AuthErr) (found : m (option A)) : m A :=
  x ← or_err found e;
  match x with Some a => mret a | None => throw e end.

(** *** Tokens *)

(** [signToken]: the token and its claims. *)
Definition signToken (now : Z) (user : User) (tokenType : string) (ttl : Z) : m (string * tokenClaims) :=
  jti ← randomTokenID 12;
  iss ← gets issuer;
  key ← gets signingKey;
  let claims := mkClaims (uID user) (TrimSpace (uName user)) (uEmail user) (uRole user) (uTenantID user)
    (uBuildingIDs user) (normalizeLanguage (uLanguage user)) tokenType
    jti (uID user) iss [iss] (Some (NewNumericDate now)) (Some (NewNumericDate now))
    (Some (NewNumericDate (now + ttl))) in
  match jwt_sign key claims with
  | Some signedToken => mret (signedToken, claims)
  | None => throw ErrSign
  end.

(** [parseTokenClaims]: [None] for any of its errors. *)
Definition parseTokenClaims (now : Z) (rawToken expectedType : string) (s : Svc) : option tokenClaims :=
  if is_empty rawToken then None
  else
    claims ← jwt_parse (signingKey s) now rawToken;
    if negb (String.eqb (cTokenType claims) expectedType) then None
    else if negb (String.eqb (cIssuer claims) (issuer s)) then None
    else if negb (Nat.eqb (length (cAudience claims)) 0)
            && negb (existsb (String.eqb (issuer s)) (cAudience claims)) then None
    else if is_empty (cUserID claims) || is_empty (cID claims) then None
    else Some claims.

Definition parse_or (now : Z) (rawToken expectedType : string) (e : AuthErr) : m tokenClaims :=
  claims ← gets (parseTokenClaims now rawToken expectedType);
  match claims with Some c => mret c | None => throw e end.

(** [refreshClaims.ExpiresAt.Time] *)
Definition expiry (c : tokenClaims) : Z := default time_zero (cExpiresAt c).

Definition issueTokenPairWithMetadataLocked (now : Z) (user : User) (meta : SessionMetadata)
    : m LoginResponse :=
  accTTL ← gets accessTTL;
  refTTL ← gets refreshTTL;
  '(accessToken, _) ← signToken now user "access" accTTL;
  '(refreshToken, refreshClaims) ← signToken now user "refresh" refTTL;
  upsertRefreshSessionLocked now (cID refreshClaims)
    (mkSession (uID user) (expiry refreshClaims) meta now);;
  mret (mkLogin accessToken refreshToken (Z.quot accTTL second) user).

Definition issueTokenPairLocked (now : Z) (user : User) : m LoginResponse :=
  issueTokenPairWithMetadataLocked now user noMeta.

(** *** Multi-factor state *)

(** The vault when it is configured ([s.secretVault != nil && IsConfigured()]). *)
Definition active_vault (s : Svc) : option (option Vault) :=
  if IsConfigured (secretVault s) then Some (secretVault s) else None.

(** [if dec, err := vault.DecryptVersioned(x); err == nil { x = dec }] *)
Definition decrypt_or_keep (vault : option (option Vault)) (x : string) : string :=
  match vault with
  | Some v => match DecryptVersioned v x with Ok dec => dec | Err _ => x end
  | None => x
  end.

(** The body the locked and the unlocked look-up share: memory, then the store. *)
Definition findAdminMFAStateLocked (userID : string) : m (option adminMFAState) :=
  let nextUserID := TrimSpace userID in
  if is_empty nextUserID then mret None
  else
    cached ← gets (fun s => adminMFA s !! nextUserID);
    match cached with
    | Some state => mret (Some state)
    | None =>
        found ← on_persistence (FindAuthAdminMFAState nextUserID);
        match found with
        | Some (Some persisted) =>
            vault ← gets active_vault;
            let persisted := persisted <| Secret ::= decrypt_or_keep vault |>
                                       <| PendingSecret ::= decrypt_or_keep vault |> in
            let state := adminMFAStateFromPersistence persisted in
            modify (fun s => s <| adminMFA ::= <[nextUserID := state]> |>);;
            mret (Some state)
        | _ => mret None
        end
    end.

(** Without an interleaved writer the two look-ups do the same. *)
Definition findAdminMFAState (userID : string) : m (option adminMFAState) :=
  findAdminMFAStateLocked userID.

(** Encrypting one field of the persisted state; blank fields stay blank. *)
Definition encrypt_field (vault : option (option Vault)) (x : string) : m string :=
  match vault with
  | Some v =>
      if is_empty x then mret x
      else
        nonce ← try_op (rand_read 12);
        match EncryptVersioned v nonce x with Ok enc => mret enc | Err e => throw (ErrVault e) end
  | None => mret x
  end.

Definition persistAdminMFAStateLocked (userID : string) (state : adminMFAState) : m unit :=
  let nextUserID := TrimSpace userID in
  fail_if (is_empty nextUserID) ErrUserNotFound;;
  let state := state <| Secret ::= TrimSpace |> <| PendingSecret ::= TrimSpace |> in
  attached ← gets persistence;
  when (bool_decide (is_Some attached)) (
    vault ← gets active_vault;
    let persisted := adminMFAStateForPersistence state in
    secret ← encrypt_field vault (Secret persisted);
    pending ← encrypt_field vault (PendingSecret persisted);
    on_persistence (UpsertAuthAdminMFAState nextUserID
      (persisted <| Secret := secret |> <| PendingSecret := pending |>));;
    mret tt);;
  modify (fun s => s <| adminMFA ::= <[nextUserID := state]> |>).

(** [enforceAdminMFA].  The matched recovery code is marked in the slice the map
    holds before the state is persisted. *)
Definition enforceAdminMFA (now : Z) (user : User) (mfaCode : string) : m unit :=
  let id := TrimSpace (uID user) in
  found ← findAdminMFAState id;
  required ← gets adminMFARequired;
  let state := default zeroMFA found in
  if negb (mfa_active state) then
    if isAdminRole (uRole user) && required then throw ErrAdminMFAEnrollmentRequired else mret tt
  else
    let nextCode := TrimSpace mfaCode in
    fail_if (is_empty nextCode) ErrAdminMFARequired;;
    if verifyTOTPCode (Secret state) nextCode now then mret tt
    else
      found ← or_err (findAdminMFAStateLocked id) ErrInvalidMFACode;
      match found with
      | None => throw ErrInvalidMFACode
      | Some state =>
          fail_if (negb (Enabled state)) ErrInvalidMFACode;;
          let '(updatedCodes, matched) := verifyAndConsumeRecoveryCode (RecoveryCodes state) nextCode in
          if matched then
            modify (fun s => s <| adminMFA ::= <[id := state <| RecoveryCodes := updatedCodes |>]> |>);;
            persistAdminMFAStateLocked (uID user)
              (state <| RecoveryCodes := updatedCodes |> <| mUpdatedAt := now |>)
          else throw ErrInvalidMFACode
      end.

(** [generateRecoveryCodes]: the plain codes and their hashes *)
Fixpoint generateRecoveryCodes (n : nat) : m (list string * list mfaRecoveryCode) :=
  match n with
  | O => mret ([], [])
  | S n' =>
      raw ← rand_read 4;
      let code := hex_encode_upper raw in
      hash ← GenerateFromPassword code;
      '(plaintext, hashed) ← generateRecoveryCodes n';
      mret (code :: plaintext, mkCode hash false :: hashed)
  end.

Definition generateTOTPSecret (byteLen : nat) : m string :=
  let size := if (byteLen =? 0)%nat then 20%nat else byteLen in
  raw ← rand_read size; mret (to_string (base32_encode raw)).

(** ** The methods *)

(** *** Logins *)

(** The metadata of a login: the default method where none is given. *)
Definition login_meta (method : string) (meta : option SessionMetadata) : SessionMetadata :=
  match meta with
  | None => mkMeta "" "" method
  | Some x => if is_empty (LoginMethod x) then mkMeta (IPAddress x) (UserAgent x) method else x
  end.

Definition Login (now : Z) (email pass mfaCode : string) (meta : option SessionMetadata)
    : m LoginResponse :=
  let email := normalizeEmail email in
  let password := TrimSpace pass in
  fail_if (is_empty email || is_empty password) ErrInvalidCredentials;;
  record ← the ErrInvalidCredentials (findUserByEmail email);
  fail_if (negb (verifyPassword (rPasswordHash record) password)) ErrInvalidCredentials;;
  fail_if (negb (uPasswordAuthEnabled (rUser record))) ErrPasswordAuthDisabled;;
  enforceAdminMFA now (rUser record) mfaCode;;
  cleanupExpiredLocked now;;
  issueTokenPairWithMetadataLocked now (rUser record) (login_meta "password" meta).

Definition LoginByTrustedIdentity (now : Z) (email : string) (meta : option SessionMetadata)
    : m LoginResponse :=
  let nextEmail := normalizeEmail email in
  fail_if (is_empty nextEmail) ErrInvalidCredentials;;
  record ← the ErrInvalidCredentials (findUserByEmail nextEmail);
  cleanupExpiredLocked now;;
  issueTokenPairWithMetadataLocked now (rUser record) (login_meta "sso" meta).

Definition LoginByWebAuthn (now : Z) (email mfaCode : string) (meta : option SessionMetadata)
    : m LoginResponse :=
  let nextEmail := normalizeEmail email in
  fail_if (is_empty nextEmail) ErrInvalidCredentials;;
  record ← the ErrInvalidCredentials (findUserByEmail nextEmail);
  enforceAdminMFA now (rUser record) mfaCode;;
  cleanupExpiredLocked now;;
  issueTokenPairWithMetadataLocked now (rUser record) (login_meta "webauthn" meta).

Definition LoginByTrustedUser (now : Z) (user : User) : m LoginResponse :=
  let trustedUser := mkUser (TrimSpace (uID user)) (TrimSpace (uName user))
    (normalizeEmail (uEmail user)) (ToLower (TrimSpace (uRole user))) (TrimSpace (uTenantID user))
    (uniqueNormalizedIDs (uBuildingIDs user)) (normalizeLanguage (uLanguage user)) false in
  fail_if (is_empty (uID trustedUser) || is_empty (uEmail trustedUser) || is_empty (uRole trustedUser))
    ErrInvalidCredentials;;
  record ← or_err (findUserByEmail (uEmail trustedUser)) ErrInvalidCredentials;
  let passwordHash := match record with Some r => rPasswordHash r | None => "" end in
  cleanupExpiredLocked now;;
  or_err (persistUserLocked trustedUser passwordHash) ErrInvalidCredentials;;
  issueTokenPairLocked now trustedUser.

(** *** Refresh tokens *)

(** The session of a parsed token, of the right user and not rejected by [dead]. *)
Definition live_session (dead : refreshSession → bool) (claims : tokenClaims)
    (found : option refreshSession) : m unit :=
  match found with
  | None => throw ErrInvalidRefreshToken
  | Some session =>
      fail_if (negb (String.eqb (sUserID session) (cUserID claims)) || dead session)
        ErrInvalidRefreshToken
  end.

(** [Refresh] accepts a session up to and including its expiry instant,
    [RevokeRefreshToken] only before it. *)
Definition refresh_dead (now : Z) (session : refreshSession) : bool := Before (sExpiresAt session) now.
Definition revoke_dead (now : Z) (session : refreshSession) : bool :=
  negb (After (sExpiresAt session) now).

(** What [Refresh] does once it holds the lock. *)
Definition refresh_locked (now : Z) (claims : tokenClaims) (user : User) : m LoginResponse :=
  cleanupExpiredLocked now;;
  session ← or_err (findRefreshSessionLocked now (cID claims)) ErrInvalidRefreshToken;
  live_session (refresh_dead now) claims session;;
  or_err (deleteRefreshSessionLocked now (cID claims)) ErrInvalidRefreshToken;;
  issueTokenPairLocked now user.

(** The checks [Refresh] and [RevokeRefreshToken] make before they take the
    lock. *)
Definition refresh_claims (dead : refreshSession → bool) (now : Z) (token : string) : m tokenClaims :=
  let refreshToken := TrimSpace token in
  fail_if (is_empty refreshToken) ErrInvalidRefreshToken;;
  claims ← parse_or now refreshToken "refresh" ErrInvalidRefreshToken;
  session ← or_err (findRefreshSession now (cID claims)) ErrInvalidRefreshToken;
  live_session dead claims session;;
  mret claims.

Definition Refresh (now : Z) (token : string) : m LoginResponse :=
  claims ← refresh_claims (refresh_dead now) now token;
  user ← the ErrInvalidRefreshToken (findUserByID (cUserID claims));
  refresh_locked now claims user.

Definition RevokeRefreshToken (now : Z) (token : string) : m unit :=
  claims ← refresh_claims (revoke_dead now) now token;
  cleanupExpiredLocked now;;
  session ← or_err (findRefreshSessionLocked now (cID claims)) ErrInvalidRefreshToken;
  live_session (revoke_dead now) claims session;;
  or_err (deleteRefreshSessionLocked now (cID claims)) ErrInvalidRefreshToken.

Definition session_of (userID : string) (e : string * refreshSession) : bool :=
  String.eqb (sUserID e.2) userID.

(** The number of revoked sessions; a store error counts as none, and the
    memory is cleared all the same. *)
Definition RevokeRefreshTokensByUserEmail (now : Z) (email : string) : m Z :=
  let nextEmail := normalizeEmail email in
  if is_empty nextEmail then mret 0
  else
    found ← record_of (findUserByEmail nextEmail);
    match found with
    | None => mret 0
    | Some record =>
        let userID := uID (rUser record) in
        cleanupExpiredLocked now;;
        stored ← try_op (on_sessions (DeleteAuthRefreshSessionsByUserID now userID)
                           (DeleteAuthRefreshSessionsByUserID now userID));
        sessions ← gets refreshSessions;
        modify (fun s => s <| refreshSessions ::= filter (fun e => session_of userID e = false) |>);;
        mret (Z.max (Z.max 0 (default 0 (default None stored)))
                (Z.of_nat (size (filter (fun e => session_of userID e = true) sessions))))
    end.

(** [None] when nothing was changed. *)
Definition DowngradeTrustedUserToLeastPrivilegeByEmail (now : Z) (email fallbackTenantID : string)
    : m (option (User * User)) :=
  let nextEmail := normalizeEmail email in
  if is_empty nextEmail then mret None
  else
    found ← record_of (findUserByEmail nextEmail);
    match found with
    | None => mret None
    | Some record =>
        let before := rUser record in
        let nextFallbackTenantID := TrimSpace fallbackTenantID in
        let after := before <| uRole := "resident" |> <| uBuildingIDs := [] |> in
        let after :=
          if is_empty (TrimSpace (uTenantID after)) && negb (is_empty nextFallbackTenantID)
          then after <| uTenantID := nextFallbackTenantID |> else after in
        cleanupExpiredLocked now;;
        done_ ← try_op (persistUserLocked after (rPasswordHash record));
        mret (match done_ with Some _ => Some (before, after) | None => None end)
    end.

(** *** Access tokens *)

Definition Logout (now : Z) (accessToken : string) : m unit :=
  claims ← parse_or now (TrimSpace accessToken) "access" ErrInvalidAccessToken;
  match cExpiresAt claims with
  | None => throw ErrInvalidAccessToken
  | Some expiresAt =>
      fail_if (is_empty (cID claims)) ErrInvalidAccessToken;;
      cleanupExpiredLocked now;;
      or_err (revokeAccessTokenLocked now (cID claims) expiresAt) ErrInvalidAccessToken
  end.

(** The user described by the claims, when none is stored any more. *)
Definition user_of_claims (c : tokenClaims) : User :=
  mkUser (cUserID c) (cName c) (cEmail c) (cRole c) (cTenantID c) (cBuildingIDs c) (cLanguage c) false.

Definition VerifyAccessToken (now : Z) (accessToken : string) : m User :=
  claims ← parse_or now (TrimSpace accessToken) "access" ErrInvalidAccessToken;
  revoked ← or_err (isAccessTokenRevoked now (cID claims)) ErrInvalidAccessToken;
  fail_if revoked ErrInvalidAccessToken;;
  user ← or_err (findUserByID (cUserID claims)) ErrInvalidAccessToken;
  match user with Some u => mret u | None => mret (user_of_claims claims) end.

Definition Me := VerifyAccessToken.

(** *** Sessions of a user *)

(** Only the memory is listed. *)
Definition ListActiveSessions (now : Z) (userID : string) (s : Svc) : list LoginSession :=
  let nextUserID := TrimSpace userID in
  if is_empty nextUserID then []
  else
    filterb (fun e => negb (negb (String.eqb (sUserID e.2) nextUserID) || Before (sExpiresAt e.2) now))
      (range (refreshSessions s)).

Definition RevokeSession (now : Z) (userID sessionID : string) : m unit :=
  let nextUserID := TrimSpace userID in
  let nextSessionID := TrimSpace sessionID in
  fail_if (is_empty nextUserID || is_empty nextSessionID) ErrInvalidRefreshToken;;
  found ← gets (fun s => refreshSessions s !! nextSessionID);
  match found with
  | None => throw ErrInvalidRefreshToken
  | Some session =>
      fail_if (negb (String.eqb (sUserID session) nextUserID)) ErrInvalidRefreshToken;;
      deleteRefreshSessionLocked now nextSessionID
  end.

(** *** Passwords *)

(** The token drawn for an address; expired ones are dropped on the way. *)
Definition newResetToken (now : Z) (nextEmail : string) : m string :=
  buf ← rand_read 24;
  let token := "prt_" +:+ hex_encode buf in
  modify (fun s => s
    <| passwordResetTokens := <[token := mkReset nextEmail (now + passwordResetTokenTTL)]>
         (filter (fun e => Before (prtExpiresAt e.2) now = false) (passwordResetTokens s)) |>);;
  mret token.

(** An unknown address gets the empty token and no error. *)
Definition RequestPasswordReset (now : Z) (email : string) : m string :=
  let nextEmail := normalizeEmail email in
  if is_empty nextEmail then mret ""
  else
    found ← record_of (findUserByEmail nextEmail);
    match found with
    | None => mret ""
    | Some _ => newResetToken now nextEmail
    end.

Definition ConfirmPasswordReset (now : Z) (token newPassword : string) : m unit :=
  let nextToken := TrimSpace token in
  fail_if (is_empty nextToken) ErrPasswordResetTokenInvalid;;
  fail_if (negb (ValidatePasswordPolicy newPassword)) ErrPasswordTooWeak;;
  found ← gets (fun s => passwordResetTokens s !! nextToken);
  match found with
  | None => throw ErrPasswordResetTokenInvalid
  | Some prt =>
      modify (fun s => s <| passwordResetTokens := delete nextToken (passwordResetTokens s) |>);;
      fail_if (Before (prtExpiresAt prt) now) ErrPasswordResetTokenExpired;;
      record ← the ErrUserNotFound (findUserByEmailLocked (prtEmail prt));
      hash ← GenerateFromPassword newPassword;
      persistUserLocked (rUser record) hash
  end.

Definition CreateUser (email name password : string) : m User :=
  let nextEmail := normalizeEmail email in
  fail_if (is_empty nextEmail) (ErrText "email is required");;
  fail_if (negb (ValidatePasswordPolicy password)) ErrPasswordTooWeak;;
  hash ← GenerateFromPassword password;
  userID ← randomTokenID 8;
  let user := mkUser ("usr_" +:+ userID) (TrimSpace name) nextEmail "resident" "" [] "" true in
  found ← record_of (findUserByEmailLocked nextEmail);
  fail_if (bool_decide (is_Some found)) (ErrText "user already exists");;
  persistUserLocked user hash;;
  mret user.

Definition VerifyUserPassword (userID password : string) : m unit :=
  let nextUserID := TrimSpace userID in
  fail_if (is_empty nextUserID) ErrUserNotFound;;
  user ← the ErrUserNotFound (findUserByID nextUserID);
  record ← the ErrUserNotFound (record_of (findUserByEmail (uEmail user)));
  fail_if (negb (verifyPassword (rPasswordHash record) password)) ErrInvalidCredentials.

Definition ChangePassword (userID currentPassword newPassword : string) : m unit :=
  let nextUserID := TrimSpace userID in
  fail_if (is_empty nextUserID) ErrUserNotFound;;
  fail_if (negb (ValidatePasswordPolicy newPassword)) ErrPasswordTooWeak;;
  user ← the ErrUserNotFound (findUserByID nextUserID);
  record ← the ErrUserNotFound (record_of (findUserByEmail (uEmail user)));
  fail_if (negb (verifyPassword (rPasswordHash record) currentPassword)) ErrInvalidCredentials;;
  hash ← GenerateFromPassword newPassword;
  locked ← the ErrUserNotFound (record_of (findUserByEmailLocked (uEmail user)));
  persistUserLocked (rUser locked) hash.

(** *** Users *)

Definition GetUserByID (userID : string) : m User :=
  let nextUserID := TrimSpace userID in
  fail_if (is_empty nextUserID) ErrUserNotFound;;
  the ErrUserNotFound (findUserByID nextUserID).

Definition FindUserByEmail (email : string) : m User :=
  record ← the ErrUserNotFound (findUserByEmail email); mret (rUser record).

(** The hash kept by an update: that of the record under the user's address. *)
Definition hash_of (record : option userRecord) : string :=
  match record with Some r => rPasswordHash r | None => "" end.

Definition UpdateUserBuildingScope (userID : string) (buildingIDs : list string) : m User :=
  let nextUserID := TrimSpace userID in
  fail_if (is_empty nextUserID) ErrUserNotFound;;
  let nextBuildingIDs := uniqueNormalizedIDs buildingIDs in
  user ← the ErrUserNotFound (findUserByIDLocked nextUserID);
  fail_if (negb (String.eqb (ToLower (TrimSpace (uRole user))) "building_admin")) ErrUserRoleUnsupported;;
  let user := user <| uBuildingIDs := nextBuildingIDs |> in
  record ← or_err (findUserByEmailLocked (uEmail user)) ErrUserNotFound;
  or_err (persistUserLocked user (hash_of record)) ErrUserNotFound;;
  mret user.

Definition UpdateUserPasswordAuth (userID : string) (enabled : bool) : m User :=
  let nextUserID := TrimSpace userID in
  fail_if (is_empty nextUserID) ErrUserNotFound;;
  user ← the ErrUserNotFound (findUserByIDLocked nextUserID);
  let user := user <| uPasswordAuthEnabled := enabled |> in
  record ← record_of (findUserByEmailLocked (uEmail user));
  persistUserLocked user (hash_of record);;
  mret user.

Definition UpdateUserProfile (userID name language : string) : m User :=
  let nextUserID := TrimSpace userID in
  fail_if (is_empty nextUserID) ErrUserNotFound;;
  user ← the ErrUserNotFound (findUserByIDLocked nextUserID);
  let user := user <| uName := TrimSpace name |> <| uLanguage := normalizeLanguage language |> in
  record ← or_err (findUserByEmailLocked (uEmail user)) ErrUserNotFound;
  or_err (persistUserLocked user (hash_of record)) ErrUserNotFound;;
  mret user.

(** *** Multi-factor authentication: [admin] selects the administrators' variant
    of a method, which also checks the role *)

Definition mfa_user (admin : bool) (find : string → m (option User)) (nextUserID : string) : m User :=
  user ← the ErrUserNotFound (find nextUserID);
  fail_if (admin && negb (isAdminRole (uRole user))) ErrUserRoleUnsupported;;
  mret user.

(** [GetAdminMFAStatus], [GetUserMFAStatus] *)
Definition GetMFAStatus (admin : bool) (userID : string) : m AdminMFAStatus :=
  let nextUserID := TrimSpace userID in
  fail_if (is_empty nextUserID) ErrUserNotFound;;
  mfa_user admin findUserByID nextUserID;;
  found ← findAdminMFAState nextUserID;
  let state := default zeroMFA found in
  mret (mkStatus nextUserID (mfa_active state) (negb (is_empty (TrimSpace (PendingSecret state))))
          (if IsZero (mUpdatedAt state) then None else Some (mUpdatedAt state))).

(** [StartAdminMFAEnrollment], [StartUserMFAEnrollment]: the state is read from
    the memory alone. *)
Definition StartMFAEnrollment (admin : bool) (now : Z) (userID iss : string) : m AdminMFAEnrollment :=
  let nextUserID := TrimSpace userID in
  fail_if (is_empty nextUserID) ErrUserNotFound;;
  let nextIssuer := if is_empty (TrimSpace iss) then "MistyPass" else TrimSpace iss in
  user ← mfa_user admin findUserByIDLocked nextUserID;
  secret ← generateTOTPSecret 20;
  cached ← gets (fun s => adminMFA s !! nextUserID);
  let state := (default zeroMFA cached) <| PendingSecret := secret |> <| mUpdatedAt := now |> in
  persistAdminMFAStateLocked nextUserID state;;
  mret (mkEnrollment nextUserID secret (buildOTPAuthURL nextIssuer (uEmail user) secret)).

(** [EnableAdminMFA], [EnableUserMFA] *)
Definition EnableMFA (admin : bool) (now : Z) (userID code : string)
    : m (AdminMFAStatus * AdminMFARecoveryCodes) :=
  let nextUserID := TrimSpace userID in
  fail_if (is_empty nextUserID) ErrUserNotFound;;
  let nextCode := TrimSpace code in
  fail_if (is_empty nextCode) ErrAdminMFARequired;;
  mfa_user admin findUserByIDLocked nextUserID;;
  found ← findAdminMFAStateLocked nextUserID;
  let state := default zeroMFA found in
  fail_if (is_empty (TrimSpace (PendingSecret state))) ErrAdminMFANotConfigured;;
  fail_if (negb (verifyTOTPCode (PendingSecret state) nextCode now)) ErrInvalidMFACode;;
  '(plaintextCodes, hashedCodes) ← generateRecoveryCodes 8;
  let state := state <| Secret := PendingSecret state |> <| PendingSecret := "" |>
    <| Enabled := true |> <| mUpdatedAt := now |> <| RecoveryCodes := hashedCodes |> in
  persistAdminMFAStateLocked nextUserID state;;
  mret (mkStatus nextUserID true false (Some now), mkRecovery nextUserID plaintextCodes).

Definition RegenerateAdminMFARecoveryCodes (now : Z) (userID : string) : m AdminMFARecoveryCodes :=
  let nextUserID := TrimSpace userID in
  fail_if (is_empty nextUserID) ErrUserNotFound;;
  found ← findAdminMFAStateLocked nextUserID;
  let state := default zeroMFA found in
  fail_if (negb (Enabled state)) ErrAdminMFANotConfigured;;
  '(plaintextCodes, hashedCodes) ← generateRecoveryCodes 8;
  persistAdminMFAStateLocked nextUserID (state <| RecoveryCodes := hashedCodes |> <| mUpdatedAt := now |>);;
  mret (mkRecovery nextUserID plaintextCodes).

(** [DisableAdminMFA], [DisableUserMFA] *)
Definition DisableMFA (admin : bool) (now : Z) (userID : string) : m AdminMFAStatus :=
  let nextUserID := TrimSpace userID in
  fail_if (is_empty nextUserID) ErrUserNotFound;;
  mfa_user admin findUserByIDLocked nextUserID;;
  found ← findAdminMFAStateLocked nextUserID;
  let state := (default zeroMFA found) <| Enabled := false |> <| Secret := "" |> <| PendingSecret := "" |>
    <| mUpdatedAt := now |> in
  persistAdminMFAStateLocked nextUserID state;;
  mret (mkStatus nextUserID false false (Some now)).

Definition VerifyUserMFACode (now : Z) (userID code : string) : m unit :=
  let nextUserID := TrimSpace userID in
  fail_if (is_empty nextUserID) ErrUserNotFound;;
  user ← the ErrUserNotFound (findUserByID nextUserID);
  found ← findAdminMFAState nextUserID;
  fail_if (negb (mfa_active (default zeroMFA found))) ErrInvalidMFACode;;
  fail_if (is_empty (TrimSpace code)) ErrInvalidMFACode;;
  enforceAdminMFA now user code.

(** The methods by their names. *)
Definition GetAdminMFAStatus := GetMFAStatus true.
Definition GetUserMFAStatus := GetMFAStatus false.
Definition StartAdminMFAEnrollment := StartMFAEnrollment true.
Definition StartUserMFAEnrollment := StartMFAEnrollment false.
Definition EnableAdminMFA := EnableMFA true.
Definition EnableUserMFA := EnableMFA false.
Definition DisableAdminMFA := DisableMFA true.
Definition DisableUserMFA := DisableMFA false.

(** *** Attaching the stores *)

(** [for k, x := range entries { if err := f(k, x); err != nil { return err } }] *)
Fixpoint each {St A} (f : A → op St StoreError unit) (l : list A) : op St StoreError unit :=
  match l with
  | [] => mret tt
  | x :: l' => f x;; each f l'
  end.

Definition push_sessions {St} `{!SessionStore St} (now : Z) (s : Svc) : op St StoreError unit :=
  each (fun e => UpsertAuthRefreshSession now e.1 (sUserID e.2) (sExpiresAt e.2)) (range (refreshSessions s));;
  each (fun e => UpsertAuthRevokedAccessToken now e.1 e.2) (range (revokedAccess s)).

(** [SetPersistence] with a store: its contents become those of [p] after the
    uploads; an error leaves it detached. *)
Definition SetPersistence (now : Z) (p : P) : m unit := λ s,
  match
    (each (fun e => UpsertAuthUser (rUser e.2) (rPasswordHash e.2)) (range (usersByEmail s));;
     when (bool_decide (volatileStore s = None)) (push_sessions now s);;
     each (fun e => UpsertAuthAdminMFAState e.1 (adminMFAStateForPersistence e.2)) (range (adminMFA s))) p
  with
  | (p', Ok _) => (s <| persistence := Some p' |>, Ok tt)
  | (_, Err _) => (s, Err ErrStoreCall)
  end.

Definition SetVolatileStore (now : Z) (v : V) : m unit := λ s,
  match push_sessions now s v with
  | (v', Ok _) => (s <| volatileStore := Some v' |>, Ok tt)
  | (_, Err _) => (s, Err ErrStoreCall)
  end.

Definition SetSecretVault (v : option Vault) : m unit := modify (fun s => s <| secretVault := v |>).
Definition SetAdminMFARequired (required : bool) : m unit :=
  modify (fun s => s <| adminMFARequired := required |>).

(** [ReEncryptMFASecrets]: the loop is over the states in memory. *)
Fixpoint reencrypt_loop (entries : list (string * adminMFAState)) (n : Z) : m Z :=
  match entries with
  | [] => mret n
  | (userID, state) :: entries' =>
      if is_empty (Secret state) then reencrypt_loop entries' n
      else
        vault ← gets secretVault;
        let persisted := adminMFAStateForPersistence state in
        if NeedsReEncrypt vault (Secret persisted) || NeedsReEncrypt vault (PendingSecret persisted)
        then persistAdminMFAStateLocked userID state;; reencrypt_loop entries' (n + 1)
        else reencrypt_loop entries' n
  end.

Definition ReEncryptMFASecrets : m Z :=
  vault ← gets active_vault;
  attached ← gets persistence;
  match vault with
  | None => mret 0
  | Some _ =>
      match attached with
      | None => mret 0
      | Some _ => entries ← gets (fun s => range (adminMFA s)); reencrypt_loop entries 0
      end
  end.
End service.
