(* ===== verification/AuthToy.v ===== *)
(** * A concrete instance of the libraries behind the auth service

    For the examples: a token is the key and the claims written out field by
    field, [bcrypt] prefixes the password, and the parser checks the times.
    [toy_auth_laws] shows that the assumptions of [AuthLaws] can hold. *)

From S2P Require Import Prelude GoStrings GoTime Bytes Encoding Vault AuthStore Auth.
#[local] Open Scope string_scope.
#[local] Open Scope list_scope.
#[local] Open Scope Z_scope.

(** ** Writing and reading fields *)

Fixpoint put_string (s k : string) : string :=
  match s with
  | EmptyString => String "0" k
  | String c s' => String "1" (String c (put_string s' k))
  end.

Fixpoint get_string (s : string) : option (string * string) :=
  match s with
  | String "0" k => Some ("", k)
  | String "1" (String c s') => '(t, k) ← get_string s'; Some (String c t, k)
  | _ => None
  end.

Lemma get_put_string s k : get_string (put_string s k) = Some (s, k).
Proof. induction s as [|c s IH]; [done|]. cbn. by rewrite IH. Qed.

Fixpoint put_strings (l : list string) (k : string) : string :=
  match l with
  | [] => String "0" k
  | x :: l' => String "1" (put_string x (put_strings l' k))
  end.

Fixpoint get_strings (fuel : nat) (s : string) : option (list string * string) :=
  match fuel, s with
  | S f, String "0" k => Some ([], k)
  | S f, String "1" s' => '(x, s1) ← get_string s'; '(l, k) ← get_strings f s1; Some (x :: l, k)
  | _, _ => None
  end.

Lemma get_put_strings l k fuel : (length l < fuel)%nat → get_strings fuel (put_strings l k) = Some (l, k).
Proof.
  revert fuel; induction l as [|x l IH]; intros [|f] Hf; simpl in Hf; try lia; [done|].
  cbn. rewrite get_put_string. cbn. by rewrite IH by lia.
Qed.

Lemma put_string_length s k :
  String.length (put_string s k) = (2 * String.length s + 1 + String.length k)%nat.
Proof. induction s as [|c s IH]; [done|]. cbn. rewrite IH. lia. Qed.

Lemma put_strings_length l k : (length l + String.length k < String.length (put_strings l k))%nat.
Proof. induction l as [|x l IH]; cbn; [lia|]. rewrite put_string_length. lia. Qed.

(** Binary digits of a positive number, the lowest first. *)
Fixpoint put_pos (p : positive) : string :=
  match p with
  | xH => "" | xO p' => String "0" (put_pos p') | xI p' => String "1" (put_pos p')
  end.
Fixpoint get_pos (s : string) : option positive :=
  match s with
  | EmptyString => Some xH
  | String "0" s' => p ← get_pos s'; Some (xO p)
  | String "1" s' => p ← get_pos s'; Some (xI p)
  | _ => None
  end.
Lemma get_put_pos p : get_pos (put_pos p) = Some p.
Proof. induction p as [p IH|p IH|]; cbn; rewrite ?IH; done. Qed.

Definition put_time (t : option Z) : string :=
  match t with
  | None => "n" | Some Z0 => "z"
  | Some (Zpos p) => String "p" (put_pos p) | Some (Zneg p) => String "m" (put_pos p)
  end.
Definition get_time (s : string) : option (option Z) :=
  match s with
  | String "n" _ => Some None
  | String "z" _ => Some (Some 0)
  | String "p" s' => p ← get_pos s'; Some (Some (Zpos p))
  | String "m" s' => p ← get_pos s'; Some (Some (Zneg p))
  | _ => None
  end.
Lemma get_put_time t : get_time (put_time t) = Some t.
Proof. destruct t as [[|p|p]|]; cbn; rewrite ?get_put_pos; done. Qed.

(** ** Tokens *)

Definition toy_token (key : string) (c : tokenClaims) : string :=
  put_strings [key; cUserID c; cName c; cEmail c; cRole c; cTenantID c; cLanguage c; cTokenType c;
    cID c; cSubject c; cIssuer c; put_time (cIssuedAt c); put_time (cNotBefore c);
    put_time (cExpiresAt c)]
   (put_strings (cBuildingIDs c) (put_strings (cAudience c) "")).

Definition toy_read (tok : string) : option (string * tokenClaims) :=
  let fuel := S (String.length tok) in
  '(fields, r) ← get_strings fuel tok;
  '(ids, r) ← get_strings fuel r;
  '(aud, r) ← get_strings fuel r;
  match fields with
  | [key; u; n; em; ro; te; la; ty; id; su; iss; iat; nbf; exp] =>
      iat ← get_time iat; nbf ← get_time nbf; exp ← get_time exp;
      Some (key, mkClaims u n em ro te ids la ty id su iss aud iat nbf exp)
  | _ => None
  end.

Lemma toy_read_token key c : toy_read (toy_token key c) = Some (key, c).
Proof.
  unfold toy_read, toy_token.
  pose proof (put_strings_length (cAudience c) "") as L1.
  pose proof (put_strings_length (cBuildingIDs c) (put_strings (cAudience c) "")) as L2.
  set (fields := [key; _; _; _; _; _; _; _; _; _; _; _; _; _]).
  pose proof (put_strings_length fields (put_strings (cBuildingIDs c) (put_strings (cAudience c) ""))) as L3.
  rewrite get_put_strings by lia. cbn [mbind option_bind]. rewrite get_put_strings by lia.
  cbn [mbind option_bind]. rewrite get_put_strings by lia. cbn [mbind option_bind].
  subst fields. cbn -[get_time put_time]. rewrite !get_put_time. by destruct c.
Qed.

Definition toy_valid (now : Z) (c : tokenClaims) : bool :=
  match cNotBefore c with Some n => n <=? now | None => true end
  && match cExpiresAt c with Some e => now <? e | None => true end.

Definition toy_parse (key : string) (now : Z) (tok : string) : option tokenClaims :=
  '(k, c) ← toy_read tok;
  if String.eqb k key && toy_valid now c then Some c else None.

Definition toy_auth : AuthCrypto := {|
  bcrypt_generate salt p := Some ("h" +:+ p);
  bcrypt_compare h p := String.eqb h ("h" +:+ p);
  hmac_sha1 k msg := take 20 (msg ++ k ++ repeat "7"%char 20);
  NewNumericDate t := t / second * second;
  jwt_sign key c := Some (toy_token key c);
  jwt_parse := toy_parse
|}.

Definition toy_auth_laws : @AuthLaws toy_auth.
Proof.
  split.
  - intros k msg. cbn [hmac_sha1 toy_auth]. rewrite length_take, !length_app, repeat_length. lia.
  - intros salt p h [= <-]. split; [done|]. apply String.eqb_refl.
  - intros t. cbn. split; [by rewrite Z.mod_mul|].
    pose proof (Z.div_mod t second ltac:(done)). pose proof (Z.mod_pos_bound t second ltac:(done)). lia.
  - intros key c tok now nbf exp Htok Hn He Ht.
    assert (tok = toy_token key c) as -> by (cbn [jwt_sign toy_auth] in Htok; congruence).
    change (toy_parse key now (toy_token key c) = Some c). unfold toy_parse.
    rewrite toy_read_token. cbn [mbind option_bind]. rewrite String.eqb_refl. unfold toy_valid.
    rewrite Hn, He. cbn [NewNumericDate toy_auth] in *.
    by replace ((nbf / second * second <=? now) && (now <? exp / second * second)) with true by lia.
  - intros key c. cbn. eauto.
  - intros key t1 t2 tok c1 c2. cbn [jwt_parse toy_auth]. unfold toy_parse.
    destruct (toy_read tok) as [[k c]|]; cbn [mbind option_bind]; [|done].
    repeat case_match; congruence.
  - intros key now tok c e. cbn [jwt_parse toy_auth]. unfold toy_parse.
    destruct (toy_read tok) as [[k c0]|]; cbn [mbind option_bind]; [|done].
    destruct (String.eqb k key); [|done]. unfold toy_valid. simpl. case_match eqn:Hv; [|done].
    intros [= ->] He. rewrite He in Hv. lia.
Defined.
