(* ===== verification/AuthCalls.v ===== *)
(** * Everything a client can ask of the auth service

    [call] is the list of its methods, [run] a history of them, restarts
    included; [Stable] lists the steps the methods are built from, so that a
    property kept by each step is kept by every history ([run_stable]). *)

From S2P Require Import Prelude GoStrings GoTime Bytes Encoding Vault AuthStore Auth.
#[local] Open Scope string_scope.
#[local] Open Scope list_scope.
#[local] Open Scope Z_scope.

Inductive call :=
| CLogin (email pass code : string) (meta : option SessionMetadata)
| CLoginByTrustedIdentity (email : string) (meta : option SessionMetadata)
| CLoginByWebAuthn (email code : string) (meta : option SessionMetadata)
| CLoginByTrustedUser (user : User)
| CRefresh (token : string)
| CRevokeRefreshToken (token : string)
| CRevokeRefreshTokensByUserEmail (email : string)
| CDowngrade (email tenant : string)
| CLogout (token : string)
| CVerifyAccessToken (token : string)
| CRevokeSession (user session : string)
| CRequestPasswordReset (email : string)
| CConfirmPasswordReset (token pass : string)
| CCreateUser (email name pass : string)
| CVerifyUserPassword (user pass : string)
| CChangePassword (user old pass : string)
| CGetUserByID (user : string)
| CFindUserByEmail (email : string)
| CUpdateUserBuildingScope (user : string) (ids : list string)
| CUpdateUserPasswordAuth (user : string) (enabled : bool)
| CUpdateUserProfile (user name language : string)
| CGetMFAStatus (admin : bool) (user : string)
| CStartMFAEnrollment (admin : bool) (user issuer : string)
| CEnableMFA (admin : bool) (user code : string)
| CRegenerate (user : string)
| CDisableMFA (admin : bool) (user : string)
| CVerifyUserMFACode (user code : string)
| CSetSecretVault (v : option Vault)
| CSetAdminMFARequired (b : bool)
| CReEncryptMFASecrets.

(** A call at an instant, or a restart: the process loses its maps and keeps
    its configuration and stores. *)
Inductive event := At (now : Z) (c : call) | Restarted.

Section calls.
Context {P V : Type} {pers : Persistence P} {vol : SessionStore V}.
Context {crypto : AuthCrypto} {cipher : AEAD} {order : MapRange}.
Abbreviation Svc := (Service P V).

Definition drop_answer {S E A} (m : op S E A) : op S E unit := m;; mret tt.

Lemma exec_drop_answer {S E A} (f : op S E A) (s : S) : exec (drop_answer f) s = exec f s.
Proof. unfold exec, drop_answer. rewrite bind_op_eq. by destruct (f s) as [s1 [a|e]]. Qed.

Definition do_call (now : Z) (c : call) : op Svc AuthErr unit :=
  match c with
  | CLogin e p k meta => drop_answer (Login now e p k meta)
  | CLoginByTrustedIdentity e meta => drop_answer (LoginByTrustedIdentity now e meta)
  | CLoginByWebAuthn e k meta => drop_answer (LoginByWebAuthn now e k meta)
  | CLoginByTrustedUser u => drop_answer (LoginByTrustedUser now u)
  | CRefresh t => drop_answer (Refresh now t)
  | CRevokeRefreshToken t => RevokeRefreshToken now t
  | CRevokeRefreshTokensByUserEmail e => drop_answer (RevokeRefreshTokensByUserEmail now e)
  | CDowngrade e t => drop_answer (DowngradeTrustedUserToLeastPrivilegeByEmail now e t)
  | CLogout t => Logout now t
  | CVerifyAccessToken t => drop_answer (VerifyAccessToken now t)
  | CRevokeSession u i => RevokeSession now u i
  | CRequestPasswordReset e => drop_answer (RequestPasswordReset now e)
  | CConfirmPasswordReset t p => ConfirmPasswordReset now t p
  | CCreateUser e n p => drop_answer (CreateUser e n p)
  | CVerifyUserPassword u p => VerifyUserPassword u p
  | CChangePassword u o p => ChangePassword u o p
  | CGetUserByID u => drop_answer (GetUserByID u)
  | CFindUserByEmail e => drop_answer (FindUserByEmail e)
  | CUpdateUserBuildingScope u ids => drop_answer (UpdateUserBuildingScope u ids)
  | CUpdateUserPasswordAuth u b => drop_answer (UpdateUserPasswordAuth u b)
  | CUpdateUserProfile u n l => drop_answer (UpdateUserProfile u n l)
  | CGetMFAStatus a u => drop_answer (GetMFAStatus a u)
  | CStartMFAEnrollment a u i => drop_answer (StartMFAEnrollment a now u i)
  | CEnableMFA a u k => drop_answer (EnableMFA a now u k)
  | CRegenerate u => drop_answer (RegenerateAdminMFARecoveryCodes now u)
  | CDisableMFA a u => drop_answer (DisableMFA a now u)
  | CVerifyUserMFACode u k => VerifyUserMFACode now u k
  | CSetSecretVault v => SetSecretVault v
  | CSetAdminMFARequired b => SetAdminMFARequired b
  | CReEncryptMFASecrets => drop_answer ReEncryptMFASecrets
  end.

Definition restart (s : Svc) : Svc :=
  s <| adminMFA := ∅ |> <| usersByEmail := ∅ |> <| usersByID := ∅ |> <| refreshSessions := ∅ |>
    <| revokedAccess := ∅ |> <| passwordResetTokens := ∅ |>.

Definition step (s : Svc) (e : event) : Svc :=
  match e with At now c => exec (do_call now c) s | Restarted => restart s end.
Definition run (s : Svc) (es : list event) : Svc := fold_left step es s.

(** Every call of a history is made at an instant of [T], and [L] holds of the
    tokens logged out. *)
Definition within (T : Z → Prop) (L : Z → string → Prop) (es : list event) : Prop :=
  ∀ now c, At now c ∈ es → T now ∧ match c with CLogout t => L now t | _ => True end.
Definition any_token (now : Z) (t : string) : Prop := True.

(** ** The steps the methods are built from *)

Record Stable (now : Z) (L : string → Prop) (I : Svc → Prop) : Prop := {
  st_rand n : preserves I (rand_read n);
  st_cleanup : preserves I (cleanupExpiredLocked now);
  st_issue u meta : preserves I (issueTokenPairWithMetadataLocked now u meta);
  st_find id : preserves I (findRefreshSession now id);
  st_findL id : preserves I (findRefreshSessionLocked now id);
  st_delete id : preserves I (deleteRefreshSessionLocked now id);
  st_delete_user u : preserves I (on_sessions (DeleteAuthRefreshSessionsByUserID now u)
                                    (DeleteAuthRefreshSessionsByUserID now u));
  st_drop u : preserves (E:=AuthErr) I
    (modify (fun s : Svc => s <| refreshSessions ::= filter (fun e => session_of u e = false) |>));
  st_logout t : L t → preserves I (Logout now t);
  st_isrevoked t : preserves I (isAccessTokenRevoked now t);
  st_cache u h : normalized u → preserves I (cacheUserLocked u h);
  st_upsert_user u h : normalized u → preserves I (on_persistence (UpsertAuthUser u h));
  st_find_email e : preserves I (on_persistence (FindAuthUserByEmail e));
  st_find_id i : preserves I (on_persistence (FindAuthUserByID i));
  st_upsert_mfa i x : preserves I (on_persistence (UpsertAuthAdminMFAState i x));
  st_find_mfa i : preserves I (on_persistence (FindAuthAdminMFAState i));
  st_mfa f : preserves (E:=AuthErr) I (modify (fun s : Svc => s <| adminMFA ::= f |>));
  st_new_reset e : preserves I (newResetToken now e);
  st_use_reset k : preserves (E:=AuthErr) I
    (modify (fun s : Svc => s <| passwordResetTokens := delete k (passwordResetTokens s) |>));
  st_vault v : preserves I (SetSecretVault v);
  st_required b : preserves I (SetAdminMFARequired b)
}.
#[local] Hint Resolve st_rand st_cleanup st_issue st_find st_findL st_delete st_delete_user st_drop
  st_logout st_isrevoked st_cache st_upsert_user st_find_email st_find_id st_upsert_mfa st_find_mfa
  st_mfa st_new_reset st_use_reset st_vault st_required : opdb.

Lemma normalized_compat h u : normalized u → normalized (compat_enabled h u).
Proof.
  unfold compat_enabled. case_match; [|done]. destruct u. unfold normalized, normalizeUser. cbn.
  case_match; [done|]. congruence.
Qed.

Lemma store_user_normalized found u h : store_user found = Some (u, h) → normalized u.
Proof.
  unfold store_user. destruct found as [[[u' h']|]|]; try done.
  destruct (normalizeUser u') eqn:Hn; [|done]. intros [= -> ->]. by eapply normalizeUser_normalized.
Qed.
#[local] Hint Resolve normalized_compat store_user_normalized normalizeUser_normalized : opdb.

Section stable.
Context (now : Z) (L : string → Prop) (I : Svc → Prop) (HI : Stable now L I).

Lemma pres_the {A} (f : op Svc AuthErr (option A)) e : preserves I f → preserves I (the e f).
Proof. intros Hf. unfold the. pres_all. Qed.
Lemma pres_record_of f : preserves I f → preserves I (record_of f).
Proof. intros Hf. unfold record_of. pres_all. Qed.

Lemma pres_findUserByEmail e : preserves I (findUserByEmail e).
Proof. unfold findUserByEmail, findUserByEmail_cache. pres_all. Qed.
Lemma pres_findUserByID_cache i found :
  (∀ u h, found = Some (u, h) → normalized u) → preserves I (findUserByID_cache i found).
Proof. intros Hn. unfold findUserByID_cache. destruct found as [[u h]|]; pres_all. eapply st_cache; [done|by eapply Hn]. Qed.
Lemma pres_findUserByEmailLocked e : preserves I (findUserByEmailLocked e).
Proof. unfold findUserByEmailLocked. pres_all. Qed.
Lemma pres_findUserByIDLocked i : preserves I (findUserByIDLocked i).
Proof. unfold findUserByIDLocked. pres_all. Qed.

(** The unlocked look-up by id, run without interruption, is the locked one. *)
Lemma findUserByID_locked i (s : Svc) : findUserByID i s = findUserByIDLocked i s.
Proof.
  unfold findUserByID, findUserByID_read, findUserByID_cache, findUserByIDLocked.
  destruct (is_empty (TrimSpace i)); [done|]. rewrite !bind_op_eq.
  by destruct (on_persistence (FindAuthUserByID (TrimSpace i)) s) as [s1 [found|e]].
Qed.
Lemma pres_findUserByID i : preserves I (findUserByID i).
Proof. intros s Hs. unfold exec. rewrite findUserByID_locked. by apply pres_findUserByIDLocked. Qed.

Lemma pres_persistUser u h : preserves I (persistUserLocked u h).
Proof. unfold persistUserLocked. pres_all. Qed.

(** Multi-factor state. *)
Lemma pres_encrypt_field v x : preserves I (encrypt_field v x).
Proof. unfold encrypt_field. pres_all. Qed.
#[local] Hint Resolve pres_the pres_record_of pres_findUserByEmail pres_findUserByEmailLocked
  pres_findUserByIDLocked pres_findUserByID pres_persistUser pres_encrypt_field : opdb.

Lemma pres_findMFA i : preserves I (findAdminMFAStateLocked i).
Proof. unfold findAdminMFAStateLocked. pres_all. Qed.
Lemma pres_persistMFA i x : preserves I (persistAdminMFAStateLocked i x).
Proof. unfold persistAdminMFAStateLocked. pres_all. Qed.
#[local] Hint Resolve pres_findMFA pres_persistMFA : opdb.
Lemma pres_enforce u k : preserves I (enforceAdminMFA now u k).
Proof. unfold enforceAdminMFA, findAdminMFAState. pres_all. Qed.
Lemma pres_token n : preserves I (randomTokenID n).
Proof. unfold randomTokenID. pres_all. Qed.
Lemma pres_bcrypt p : preserves I (GenerateFromPassword p).
Proof. unfold GenerateFromPassword. pres_all. Qed.
#[local] Hint Resolve pres_enforce pres_token pres_bcrypt : opdb.
Lemma pres_codes n : preserves I (generateRecoveryCodes n).
Proof. induction n; cbn [generateRecoveryCodes]; pres_all. Qed.
Lemma pres_secret n : preserves I (generateTOTPSecret n).
Proof. unfold generateTOTPSecret. pres_all. Qed.
Lemma pres_parse raw ty e : preserves I (parse_or now raw ty e).
Proof. unfold parse_or. pres_all. Qed.
Lemma pres_live dead c found : preserves I (live_session dead c found).
Proof. unfold live_session. pres_all. Qed.
#[local] Hint Resolve pres_codes pres_secret pres_parse pres_live : opdb.
Lemma pres_mfa_user b find i :
  (∀ i, preserves I (find i)) → preserves I (mfa_user b find i).
Proof. intros Hf. unfold mfa_user. pres_all. Qed.
#[local] Hint Resolve pres_mfa_user : opdb.
Lemma pres_reencrypt l n : preserves I (reencrypt_loop l n).
Proof. revert n; induction l as [|[u x] l IH]; intros n; cbn [reencrypt_loop]; pres_all. Qed.
#[local] Hint Resolve pres_reencrypt : opdb.
Lemma pres_issue u : preserves I (issueTokenPairLocked now u).
Proof. unfold issueTokenPairLocked. pres_all. Qed.
#[local] Hint Resolve pres_issue : opdb.

(** Every method is made of the steps. *)
Theorem stable_call c :
  match c with CLogout t => L t | _ => True end → preserves I (do_call now c).
Proof.
  intros Hc. destruct c; cbn [do_call]; unfold drop_answer;
    unfold Login, LoginByTrustedIdentity, LoginByWebAuthn, LoginByTrustedUser, Refresh, refresh_locked,
      RevokeRefreshToken, RevokeRefreshTokensByUserEmail, DowngradeTrustedUserToLeastPrivilegeByEmail,
      VerifyAccessToken, RevokeSession, RequestPasswordReset, ConfirmPasswordReset, CreateUser,
      VerifyUserPassword, ChangePassword, GetUserByID, FindUserByEmail, UpdateUserBuildingScope,
      UpdateUserPasswordAuth, UpdateUserProfile, GetMFAStatus, StartMFAEnrollment, EnableMFA,
      RegenerateAdminMFARecoveryCodes, DisableMFA, VerifyUserMFACode, ReEncryptMFASecrets,
      findAdminMFAState, refresh_claims; pres_all.
Qed.
End stable.

(** *** Histories *)

(** Both of two kept properties. *)
Lemma Stable_and now L (I J : Svc → Prop) :
  Stable now L I → Stable now L J → Stable now L (λ s, I s ∧ J s).
Proof.
  intros HI HJ. split; intros; apply preserves_and;
    (let step H := first
       [ by apply (st_rand _ _ _ H) | by apply (st_cleanup _ _ _ H) | by apply (st_issue _ _ _ H) |
         by apply (st_find _ _ _ H) | by apply (st_findL _ _ _ H) | by apply (st_delete _ _ _ H) |
         by apply (st_delete_user _ _ _ H) | by apply (st_drop _ _ _ H) | by apply (st_logout _ _ _
         H) | by apply (st_isrevoked _ _ _ H) | by apply (st_cache _ _ _ H) | by apply
         (st_upsert_user _ _ _ H) | by apply (st_find_email _ _ _ H) | by apply (st_find_id _ _ _
         H) | by apply (st_upsert_mfa _ _ _ H) | by apply (st_find_mfa _ _ _ H) | by apply (st_mfa
         _ _ _ H) | by apply (st_new_reset _ _ _ H) | by apply (st_use_reset _ _ _ H) | by apply (st_vault _ _ _ H) | by apply
         (st_required _ _ _ H) ] in
     first [step HI | step HJ]).
Qed.

Lemma stable_step (L : Z → string → Prop) I s e :
  match e with
  | At now c => Stable now (L now) I ∧ match c with CLogout t => L now t | _ => True end
  | Restarted => ∀ s, I s → I (restart s)
  end → I s → I (step s e).
Proof.
  destruct e as [now c|]; simpl; [intros [H Hc] Hs|intros H Hs; by apply H].
  by apply (stable_call now (L now) I H c).
Qed.

(** A property kept by the steps at the instants [T], and by restarts if there
    are any, is kept by every history within [T]. *)
Theorem run_stable (T : Z → Prop) (L : Z → string → Prop) I es s :
  (∀ now, T now → Stable now (L now) I) → (Restarted ∈ es → ∀ s, I s → I (restart s)) →
  within T L es → I s → I (run s es).
Proof.
  intros Hst. revert s; induction es as [|e es IH]; intros s Hre Hft Hs; [done|].
  simpl. apply IH.
  - intros Hin. apply Hre. by right.
  - intros now c Hin. apply (Hft now c). by right.
  - apply (stable_step L); [|done]. destruct e as [now c|]; [|apply Hre; by left].
    destruct (Hft now c) as [Ht Hl]; [by left|]. split; [by apply Hst|done].
Qed.

Lemma within_all es : within (λ _, True) any_token es.
Proof. intros now c _. split; [done|]. by destruct c. Qed.
End calls.
