(* ===== verification/AuthSessions.v ===== *)
(** * Sessions and tokens of the auth service

    A refresh token is used at most once, in any history and across restarts,
    when calls do not overlap ([refresh_single_use]); a logged-out access token
    stays rejected ([logout_final]); and what overlapping calls do to both, with
    and without a store. *)

From S2P Require Import Prelude GoStrings GoTime Bytes Encoding Vault AuthStore Auth AuthToy AuthCalls.
#[local] Open Scope string_scope.
#[local] Open Scope list_scope.
#[local] Open Scope Z_scope.

Section sessions.
Context {P V : Type} {pers : Persistence P} {vol : SessionStore V}.
Context {plaws : SessionLaws P} {plaws2 : PersistenceLaws P} {vlaws : SessionLaws V}.
Context {crypto : AuthCrypto} {laws : AuthLaws} {cipher : AEAD} {order : MapRange}.
Abbreviation Svc := (Service P V).
Abbreviation m := (op (Service P V) AuthErr).
Implicit Types (s : Service P V).

(** The store sessions are kept in, and its view. *)
Definition store_view (s : Svc) (at_ : Z) (sid : string) : option (string * Z) :=
  match volatileStore s with
  | Some v => session_in v at_ sid
  | None => match persistence s with Some p => session_in p at_ sid | None => None end
  end.

Definition store_revoked (s : Svc) (at_ : Z) (tid : string) : bool :=
  match volatileStore s with
  | Some v => revoked_in v at_ tid
  | None => match persistence s with Some p => revoked_in p at_ tid | None => false end
  end.

Definition has_store (s : Svc) : Prop := is_Some (volatileStore s) ∨ is_Some (persistence s).

(** ** How the calls of a store reach the service *)

(** A call of the persistence changes nothing else. *)
Lemma on_persistence_exec {A} (f : op P StoreError A) s :
  exec (on_persistence f) s
  = match persistence s with Some p => s <| persistence := Some (exec f p) |> | None => s end.
Proof.
  unfold exec, on_persistence. destruct (persistence s) as [p|]; [|done].
  by destruct (f p) as [p' [a|e]].
Qed.

Lemma on_volatile_exec {A} (f : op V StoreError A) s :
  exec (on_volatile f) s
  = match volatileStore s with Some v => s <| volatileStore := Some (exec f v) |> | None => s end.
Proof.
  unfold exec, on_volatile. destruct (volatileStore s) as [v|]; [|done].
  by destruct (f v) as [v' [a|e]].
Qed.

Lemma on_sessions_exec {A} (f : op V StoreError A) (g : op P StoreError A) s :
  exec (on_sessions f g) s
  = match volatileStore s with
    | Some v => s <| volatileStore := Some (exec f v) |>
    | None => match persistence s with
              | Some p => s <| persistence := Some (exec g p) |>
              | None => s
              end
    end.
Proof.
  change (exec (on_sessions f g) s) with
    (fst (match volatileStore s with Some _ => on_volatile f s | None => on_persistence g s end)).
  destruct (volatileStore s) as [v|] eqn:Hv.
  - pose proof (on_volatile_exec f s) as H. rewrite Hv in H. exact H.
  - pose proof (on_persistence_exec g s) as H. exact H.
Qed.

(** The answer of the store asked, when there is one. *)
Lemma on_sessions_answer {A} (f : op V StoreError A) (g : op P StoreError A) s x :
  answer (on_sessions f g) s = Ok (Some x) →
  (∃ v, volatileStore s = Some v ∧ answer f v = Ok x)
  ∨ (volatileStore s = None ∧ ∃ p, persistence s = Some p ∧ answer g p = Ok x).
Proof.
  unfold answer, on_sessions, on_volatile, on_persistence.
  destruct (volatileStore s) as [v|]; [|destruct (persistence s) as [p|]; [|done]].
  - destruct (f v) as [v' [a|e]] eqn:E; simpl; [|done]. intros [= ->]. left. exists v. by rewrite E.
  - destruct (g p) as [p' [a|e]] eqn:E; simpl; [|done]. intros [= ->]. right. split; [done|].
    exists p. by rewrite E.
Qed.

Lemma on_sessions_none {A} (f : op V StoreError A) (g : op P StoreError A) s :
  answer (on_sessions f g) s = Ok None → ¬ has_store s.
Proof.
  unfold answer, on_sessions, on_volatile, on_persistence, has_store.
  destruct (volatileStore s) as [v|]; [|destruct (persistence s) as [p|]].
  - by destruct (f v) as [v' [a|e]].
  - by destruct (g p) as [p' [a|e]].
  - intros _ [[? H]|[? H]]; by inversion H.
Qed.

(** ** A session that is gone *)

Section gone.
Context (sid : string).

(** No session has the id, in memory or in the store, and no later random
    chunk will produce it. *)
Definition gone (s : Svc) : Prop :=
  refreshSessions s !! sid = None ∧ (∀ at_, store_view s at_ sid = None)
  ∧ sid ∉ hex_encode <$> entropy s.

Lemma gone_persistence {A} (f : op P StoreError A) s :
  (∀ t at_ r, session_in (exec f t) at_ sid = Some r → session_in t at_ sid = Some r) →
  gone s → gone (exec (on_persistence f) s).
Proof.
  intros Hf (H1 & H2 & H3). rewrite on_persistence_exec.
  destruct (persistence s) as [p|] eqn:Hp; [|done]. split_and!; [done| |done].
  intros at_. specialize (H2 at_). unfold store_view in *. cbn in *. rewrite Hp in H2.
  destruct (volatileStore s); [done|]. destruct (session_in (exec f p) at_ sid) eqn:E; [|done].
  apply Hf in E. congruence.
Qed.

Lemma gone_volatile {A} (f : op V StoreError A) s :
  (∀ t at_ r, session_in (exec f t) at_ sid = Some r → session_in t at_ sid = Some r) →
  gone s → gone (exec (on_volatile f) s).
Proof.
  intros Hf (H1 & H2 & H3). rewrite on_volatile_exec.
  destruct (volatileStore s) as [v|] eqn:Hv; [|done]. split_and!; [done| |done].
  intros at_. specialize (H2 at_). unfold store_view in *. cbn in *. rewrite Hv in H2.
  destruct (session_in (exec f v) at_ sid) eqn:E; [|done]. apply Hf in E. congruence.
Qed.

Lemma pres_on_sessions (I : Svc → Prop) {A} (f : op V StoreError A) (g : op P StoreError A) :
  preserves I (on_volatile f) → preserves I (on_persistence g) → preserves I (on_sessions f g).
Proof.
  intros Hf Hg s Hs. unfold on_sessions, exec. destruct (volatileStore s); [by apply Hf|by apply Hg].
Qed.

Lemma gone_on_sessions {A} (f : op V StoreError A) (g : op P StoreError A) :
  (∀ t at_ r, session_in (exec f t) at_ sid = Some r → session_in t at_ sid = Some r) →
  (∀ t at_ r, session_in (exec g t) at_ sid = Some r → session_in t at_ sid = Some r) →
  preserves gone (on_sessions f g).
Proof.
  intros Hf Hg. apply pres_on_sessions; intros s Hs; [by apply gone_volatile|by apply gone_persistence].
Qed.

Lemma gone_leaves {A} (f : op P StoreError A) :
  leaves_sessions f → preserves gone (on_persistence f).
Proof. intros Hf s Hs. apply gone_persistence; [|done]. intros t at_ r. by rewrite (proj1 (Hf _ _ _)). Qed.

(** The tables a step may write when it writes no session. *)
Lemma gone_frame s s' :
  refreshSessions s' = refreshSessions s → volatileStore s' = volatileStore s →
  persistence s' = persistence s → entropy s' = entropy s → gone s → gone s'.
Proof. unfold gone, store_view. intros -> -> -> ->. done. Qed.

Lemma gone_rand n : preserves gone (rand_read n).
Proof.
  intros s Hs. unfold exec, rand_read. destruct (entropy s) as [|c cs] eqn:E; [exact Hs|].
  destruct Hs as (H1 & H2 & H3). split_and!; [done|done|]. cbn. rewrite E in H3. set_solver.
Qed.

Lemma gone_cleanup now : preserves gone (cleanupExpiredLocked now).
Proof.
  apply pres_modify. intros s (H1 & H2 & H3). split_and!; [|done|done]. cbn.
  rewrite map_lookup_filter, H1. done.
Qed.

(** What [signToken] returns, and the state it leaves. *)
Definition token_claims (now ttl : Z) (user : User) (ty jti : string) (s : Svc) : tokenClaims :=
  mkClaims (uID user) (TrimSpace (uName user)) (uEmail user) (uRole user) (uTenantID user)
    (uBuildingIDs user) (normalizeLanguage (uLanguage user)) ty jti (uID user) (issuer s) [issuer s]
    (Some (NewNumericDate now)) (Some (NewNumericDate now)) (Some (NewNumericDate (now + ttl))).

Lemma signToken_ok now user ty ttl s s' tok c :
  signToken now user ty ttl s = (s', Ok (tok, c)) →
  ∃ b bs, entropy s = b :: bs ∧ length b = 12%nat ∧ s' = s <| entropy := bs |>
          ∧ c = token_claims now ttl user ty (hex_encode b) s ∧ jwt_sign (signingKey s) c = Some tok.
Proof.
  unfold signToken, randomTokenID. rewrite !bind_op_eq. unfold rand_read.
  destruct (entropy s) as [|b bs] eqn:E; [done|].
  destruct (length b =? 12)%nat eqn:Hb; [|done]. cbn. rewrite !bind_gets. cbn.
  destruct (jwt_sign _ _) as [t|] eqn:Ht; [|done]. intros [= <- <- <-].
  exists b, bs. apply Nat.eqb_eq in Hb. done.
Qed.

Lemma pres_sign (I : Svc → Prop) now user ty ttl :
  (∀ n, preserves I (rand_read n)) → preserves I (signToken now user ty ttl).
Proof. intros Hr. unfold signToken, randomTokenID. pres_all. Qed.

Lemma gone_upsert now id sess :
  TrimSpace id ≠ sid → preserves gone (upsertRefreshSessionLocked now id sess).
Proof.
  intros Hne. unfold upsertRefreshSessionLocked. cbv zeta. apply pres_bind; [apply pres_fail_if|intros _].
  apply pres_bind.
  - apply gone_on_sessions; intros t at_ r Hr; eapply upsert_other in Hr; try done; rewrite TrimSpace_idem; congruence.
  - intros _. apply pres_modify. intros s (H1 & H2 & H3). split_and!; [|done|done]. cbn.
    by rewrite lookup_insert_ne.
Qed.

Lemma gone_issue now u meta : preserves gone (issueTokenPairWithMetadataLocked now u meta).
Proof.
  unfold issueTokenPairWithMetadataLocked.
  apply pres_bind; [apply pres_gets|intros accTTL]. apply pres_bind; [apply pres_gets|intros refTTL].
  apply pres_bind; [apply pres_sign, gone_rand|intros [access _]].
  apply (pres_bind_post _ (fun tc => TrimSpace (cID tc.2) ≠ sid)); [apply pres_sign, gone_rand| |].
  - intros s [tok c] (_ & _ & H3) Ha. unfold answer in Ha.
    destruct (signToken now u "refresh" refTTL s) as [s' [tc|]] eqn:E; [|done]. simpl in Ha.
    injection Ha as ->. apply signToken_ok in E as (b & bs & Hent & _ & _ & -> & _). cbn.
    rewrite TrimSpace_hex. rewrite Hent in H3. set_solver.
  - intros [tok c] Hne. apply pres_bind; [by apply gone_upsert|intros _; apply pres_ret].
Qed.

Lemma local_session_exec id s : exec (local_session id) s = s.
Proof. unfold local_session. by rewrite exec_gets. Qed.

(** A session found in a store is one the store's view has. *)
Lemma store_session_view now id s found r :
  answer (on_sessions (FindAuthRefreshSession now id) (FindAuthRefreshSession now id)) s = Ok found →
  store_session found = Some r → is_Some (store_view s now (TrimSpace id)).
Proof.
  intros Ha Hs. destruct found as [[[u e]|]|]; try done.
  apply on_sessions_answer in Ha as [(v & Hv & Ha)|(Hv & p & Hp & Ha)];
    apply find_answer in Ha; unfold store_view; rewrite Hv, ?Hp; eauto.
Qed.

Lemma gone_findL now id : preserves gone (findRefreshSessionLocked now id).
Proof.
  unfold findRefreshSessionLocked. destruct (is_empty (TrimSpace id)); [apply pres_ret|].
  apply (pres_bind_post _ (fun found => is_Some (store_session found) → TrimSpace id ≠ sid)).
  - apply gone_on_sessions; intros t at_ r; apply find_shrinks.
  - intros s found (_ & H2 & _) Ha [r Hr] <-.
    destruct (store_session_view _ _ _ _ _ Ha Hr) as [x Hx]. rewrite TrimSpace_idem in Hx.
    rewrite H2 in Hx. done.
  - intros found Hf. destruct (store_session found) as [sess|] eqn:E.
    + apply pres_bind; [|intros _; apply pres_ret]. apply pres_modify. intros s (H1 & H2 & H3).
      split_and!; [|done|done]. cbn. rewrite lookup_insert_ne; [done|]. by apply Hf.
    + intros s Hs. by rewrite local_session_exec.
Qed.

(** The unlocked look-up, run without interruption, is the locked one. *)
Lemma findRefreshSession_locked now id s :
  findRefreshSession now id s = findRefreshSessionLocked now id s.
Proof.
  unfold findRefreshSession, findRefreshSession_read, findRefreshSession_cache, findRefreshSessionLocked.
  destruct (is_empty (TrimSpace id)); [done|]. rewrite !bind_op_eq.
  destruct (on_sessions _ _ s) as [s1 [found|e]]; [|done]. cbn. by destruct (store_session found).
Qed.

Lemma gone_find now id : preserves gone (findRefreshSession now id).
Proof. intros s Hs. unfold exec. rewrite findRefreshSession_locked. by apply gone_findL. Qed.

Lemma gone_delete now id : preserves gone (deleteRefreshSessionLocked now id).
Proof.
  unfold deleteRefreshSessionLocked. destruct (is_empty (TrimSpace id)); [apply pres_ret|].
  apply pres_bind; [apply gone_on_sessions; intros t at_ r; apply delete_shrinks|intros _].
  apply pres_modify. intros s (H1 & H2 & H3). split_and!; [|done|done]. cbn.
  rewrite lookup_delete. by case_decide.
Qed.

Lemma gone_filter (p : string * refreshSession → Prop) `{∀ x, Decision (p x)} :
  preserves (E:=AuthErr) gone (modify (fun s : Svc => s <| refreshSessions ::= filter p |>)).
Proof.
  apply pres_modify. intros s (H1 & H2 & H3). split_and!; [|done|done]. cbn.
  by rewrite map_lookup_filter, H1.
Qed.

Lemma gone_revoke now t e : preserves gone (revokeAccessTokenLocked now t e).
Proof.
  unfold revokeAccessTokenLocked. apply pres_bind; [apply pres_fail_if|intros _].
  apply pres_bind; [apply gone_on_sessions; intros x at_ r; apply revoke_shrinks|intros _].
  apply pres_modify. intros s. by apply gone_frame.
Qed.

Lemma gone_isrevoked now t : preserves gone (isAccessTokenRevoked now t).
Proof.
  unfold isAccessTokenRevoked. destruct (is_empty (TrimSpace t)); [apply pres_ret|].
  apply pres_bind; [apply gone_on_sessions; intros x at_ r; apply isrevoked_shrinks|intros found].
  destruct found as [[]|]; (apply pres_ret || apply pres_gets).
Qed.

Lemma gone_stable now L : Stable now L gone.
Proof.
  split; intros.
  - apply gone_rand.
  - apply gone_cleanup.
  - apply gone_issue.
  - apply gone_find.
  - apply gone_findL.
  - apply gone_delete.
  - apply gone_on_sessions; intros t at_ r; apply delete_user_shrinks.
  - apply gone_filter.
  - unfold Logout, parse_or. pres_all; [apply gone_cleanup|apply gone_revoke].
  - apply gone_isrevoked.
  - apply pres_modify. intros s. by apply gone_frame.
  - apply gone_leaves, upsert_user_leaves.
  - apply gone_leaves, find_email_leaves.
  - apply gone_leaves, find_id_leaves.
  - apply gone_leaves, upsert_mfa_leaves.
  - apply gone_leaves, find_mfa_leaves.
  - apply pres_modify. intros s. by apply gone_frame.
  - unfold newResetToken. apply pres_bind; [apply gone_rand|intros buf].
    apply pres_bind; [|intros _; apply pres_ret]. apply pres_modify. intros s. by apply gone_frame.
  - apply pres_modify. intros s. by apply gone_frame.
  - apply pres_modify. intros s. by apply gone_frame.
  - apply pres_modify. intros s. by apply gone_frame.
Qed.

Lemma gone_restart s : gone s → gone (restart s).
Proof. intros (H1 & H2 & H3). by split_and!. Qed.
End gone.

(** ** Refresh tokens are used once *)

(** A look-up of a gone session finds nothing. *)
Lemma gone_findL_none now id s r :
  gone (TrimSpace id) s → answer (findRefreshSessionLocked now id) s = Ok (Some r) → False.
Proof.
  intros (H1 & H2 & H3). unfold findRefreshSessionLocked.
  destruct (is_empty (TrimSpace id)); [done|]. unfold answer. rewrite bind_op_eq.
  match goal with |- context [on_sessions ?f ?g s] =>
    destruct (on_sessions f g s) as [s1 [found|e]] eqn:E; [|done];
    assert (exec (on_sessions f g) s = s1) as Hs1 by (unfold exec; by rewrite E);
    assert (answer (on_sessions f g) s = Ok found) as Ha by (unfold answer; by rewrite E)
  end.
  destruct (store_session found) as [x|] eqn:Hst.
  - destruct (store_session_view _ _ _ _ _ Ha Hst) as [y Hy]. rewrite TrimSpace_idem, H2 in Hy. done.
  - assert (refreshSessions s1 = refreshSessions s) as Hr.
    { rewrite <- Hs1, on_sessions_exec. destruct (volatileStore s); [done|]. by destruct (persistence s). }
    unfold local_session. rewrite bind_gets. cbn. rewrite Hr, H1. done.
Qed.

(** So neither [Refresh] nor [RevokeRefreshToken] accepts its token. *)
Lemma parse_or_run now raw ty e s :
  parse_or now raw ty e s
  = match parseTokenClaims now raw ty s with Some c => (s, Ok c) | None => (s, Err e) end.
Proof. unfold parse_or. rewrite bind_gets. by destruct (parseTokenClaims now raw ty s). Qed.

Lemma gone_refused now raw (dead : refreshSession → bool) sid s :
  gone sid s →
  (∀ c, parseTokenClaims now (TrimSpace raw) "refresh" s = Some c → TrimSpace (cID c) = sid) →
  answer (refresh_claims dead now raw) s = Err ErrInvalidRefreshToken.
Proof.
  intros Hg Hc. unfold answer, refresh_claims. cbv zeta. rewrite fail_if_bind. case_match; [done|].
  rewrite bind_op_eq, parse_or_run. destruct (parseTokenClaims _ _ _ s) as [c|] eqn:E; [|done].
  rewrite bind_op_eq. unfold or_err. rewrite findRefreshSession_locked.
  destruct (findRefreshSessionLocked now (cID c) s) as [s1 [[r|]|e]] eqn:Ef; [|done|done].
  exfalso. apply (gone_findL_none now (cID c) s r); [by rewrite (Hc c)|]. unfold answer. by rewrite Ef.
Qed.

(** A method that starts with these checks fails with their error. *)
Lemma answer_bind_err {S E A B} (f : op S E A) (g : A → op S E B) (s : S) e :
  answer f s = Err e → answer (f ≫= g) s = Err e.
Proof. unfold answer. rewrite bind_op_eq. by destruct (f s) as [s1 [a|e']]; simpl; intros [=->]. Qed.

Lemma gone_refresh now raw sid s :
  gone sid s →
  (∀ c, parseTokenClaims now (TrimSpace raw) "refresh" s = Some c → TrimSpace (cID c) = sid) →
  answer (Refresh now raw) s = Err ErrInvalidRefreshToken
  ∧ answer (RevokeRefreshToken now raw) s = Err ErrInvalidRefreshToken.
Proof. intros Hg Hc. split; apply answer_bind_err; by eapply gone_refused. Qed.

(** The configuration is never written. *)
Definition same_keys (k i : string) (s : Svc) : Prop := signingKey s = k ∧ issuer s = i.

Lemma keys_frame k i s s' :
  signingKey s' = signingKey s → issuer s' = issuer s → same_keys k i s → same_keys k i s'.
Proof. unfold same_keys. by intros -> ->. Qed.

Lemma keys_persistence k i {A} (f : op P StoreError A) : preserves (same_keys k i) (on_persistence f).
Proof. intros s. rewrite on_persistence_exec. by destruct (persistence s). Qed.
Lemma keys_sessions k i {A} (f : op V StoreError A) (g : op P StoreError A) :
  preserves (same_keys k i) (on_sessions f g).
Proof. intros s. rewrite on_sessions_exec. by destruct (volatileStore s), (persistence s). Qed.
Lemma keys_rand k i n : preserves (same_keys k i) (rand_read n).
Proof. intros s Hs. unfold exec, rand_read. by destruct (entropy s). Qed.
#[local] Hint Resolve keys_persistence keys_sessions keys_rand : opdb.

(** A step that writes maps only. *)
Ltac maps_only := apply pres_modify; intros ?; by apply keys_frame.

Lemma keys_stable k i now L : Stable now L (same_keys k i).
Proof.
  assert (∀ t, preserves (same_keys k i) (findRefreshSessionLocked now t)) as HL.
  { intros t. unfold findRefreshSessionLocked, local_session. pres_all; maps_only. }
  split; intros;
    unfold issueTokenPairWithMetadataLocked, upsertRefreshSessionLocked, deleteRefreshSessionLocked, Logout,
      parse_or, revokeAccessTokenLocked, cleanupExpiredLocked, isAccessTokenRevoked, cacheUserLocked,
      SetSecretVault, SetAdminMFARequired, newResetToken;
    try (by apply HL); try (by intros s Hs; unfold exec; rewrite findRefreshSession_locked; apply HL);
    pres_all; try (by apply pres_sign, keys_rand); try maps_only.
Qed.

(** An id that no later random chunk produces. *)
Definition unborn (sid : string) (s : Svc) : Prop := sid ∉ hex_encode <$> entropy s.

Lemma unborn_frame sid s s' : entropy s' = entropy s → unborn sid s → unborn sid s'.
Proof. unfold unborn. by intros ->. Qed.
Lemma unborn_persistence sid {A} (f : op P StoreError A) : preserves (unborn sid) (on_persistence f).
Proof. intros s. rewrite on_persistence_exec. by destruct (persistence s). Qed.
Lemma unborn_sessions sid {A} (f : op V StoreError A) (g : op P StoreError A) :
  preserves (unborn sid) (on_sessions f g).
Proof. intros s. rewrite on_sessions_exec. by destruct (volatileStore s), (persistence s). Qed.
Lemma unborn_rand sid n : preserves (unborn sid) (rand_read n).
Proof.
  intros s Hs. unfold exec, rand_read, unborn in *. destruct (entropy s) as [|c cs] eqn:E; simpl; [by rewrite E|].
  set_solver.
Qed.
#[local] Hint Resolve unborn_persistence unborn_sessions unborn_rand : opdb.

Lemma unborn_stable sid now L : Stable now L (unborn sid).
Proof.
  assert (∀ t, preserves (unborn sid) (findRefreshSessionLocked now t)) as HL.
  { intros t. unfold findRefreshSessionLocked, local_session. pres_all; by apply pres_modify. }
  split; intros;
    unfold issueTokenPairWithMetadataLocked, upsertRefreshSessionLocked, deleteRefreshSessionLocked, Logout,
      parse_or, revokeAccessTokenLocked, cleanupExpiredLocked, isAccessTokenRevoked, cacheUserLocked,
      SetSecretVault, SetAdminMFARequired, newResetToken;
    try (by apply HL); try (by intros s Hs; unfold exec; rewrite findRefreshSession_locked; apply HL);
    pres_all; try (by apply pres_sign, unborn_rand); try (by apply pres_modify).
Qed.

Lemma answer_bind_ok {S E A B} (f : op S E A) (g : A → op S E B) (s : S) b :
  answer (f ≫= g) s = Ok b →
  ∃ a, answer f s = Ok a ∧ answer (g a) (exec f s) = Ok b
       ∧ exec (f ≫= g) s = exec (g a) (exec f s).
Proof.
  unfold answer, exec. rewrite bind_op_eq. destruct (f s) as [s1 [a|e]]; simpl; [|done]. eauto.
Qed.

Lemma answer_or_err {S E E' A} (f : op S E A) (e : E') (s : S) a :
  answer (or_err f e) s = Ok a → answer f s = Ok a ∧ exec (or_err f e) s = exec f s.
Proof. unfold answer, exec, or_err. destruct (f s) as [s1 [x|e1]]; simpl; [|done]. by intros [= ->]. Qed.

Lemma exec_or_err {S E E' A} (f : op S E A) (e : E') (s : S) : exec (or_err f e) s = exec f s.
Proof. unfold exec, or_err. by destruct (f s) as [s1 [x|e1]]. Qed.

Lemma delete_removes_trimmed {T} `{!SessionStore T, !SessionLaws T} now id (t : T) at_ :
  answer (DeleteAuthRefreshSession now (TrimSpace id)) t = Ok tt → TrimSpace id ≠ "" →
  session_in (exec (DeleteAuthRefreshSession now (TrimSpace id)) t) at_ (TrimSpace id) = None.
Proof. intros Ha Hne. rewrite <- (TrimSpace_idem id) at 2. apply delete_removes; by rewrite ?TrimSpace_idem. Qed.

(** A deleted session is gone. *)
Lemma delete_gone now id s :
  answer (deleteRefreshSessionLocked now id) s = Ok tt → TrimSpace id ≠ "" → unborn (TrimSpace id) s →
  gone (TrimSpace id) (exec (deleteRefreshSessionLocked now id) s).
Proof.
  unfold deleteRefreshSessionLocked. intros Ha Hne Hb. revert Ha.
  apply is_empty_false in Hne as He. rewrite He.
  intros (found & Hf & _ & ->)%answer_bind_ok. rewrite exec_modify_last. set (s1 := exec (on_sessions _ _) s).
  assert (∀ at_, store_view s1 at_ (TrimSpace id) = None) as Hv.
  { subst s1. intros at_. rewrite on_sessions_exec. unfold store_view.
    destruct found as [[]|].
    - destruct (on_sessions_answer _ _ _ _ Hf) as [(v & Hv & Ha)|(Hv & p & Hp & Ha)]; rewrite Hv, ?Hp; cbn;
        rewrite ?Hv; by apply delete_removes_trimmed.
    - apply on_sessions_none in Hf. unfold has_store in Hf.
      destruct (volatileStore s) eqn:Hv; [exfalso; eauto|].
      destruct (persistence s) eqn:Hp; [exfalso; eauto|]. by rewrite Hv, Hp. }
  split_and!; cbn.
  - apply lookup_delete_eq.
  - exact Hv.
  - subst s1. rewrite on_sessions_exec. by destruct (volatileStore s), (persistence s).
Qed.

(** A live session was found under a non-blank id. *)
Lemma refresh_claims_ok dead now tok s c :
  answer (refresh_claims dead now tok) s = Ok c →
  parseTokenClaims now (TrimSpace tok) "refresh" s = Some c ∧ TrimSpace (cID c) ≠ "".
Proof.
  unfold refresh_claims, answer. cbv zeta. rewrite fail_if_bind. case_match; [done|].
  rewrite bind_op_eq, parse_or_run. destruct (parseTokenClaims _ _ _ s) as [c'|]; [|done].
  intros (found & Hf & Hl & _)%answer_bind_ok. apply answer_or_err in Hf as [Hf _].
  apply answer_bind_ok in Hl as ([] & Hl & Hr & _). unfold answer in Hr. cbn in Hr. injection Hr as ->.
  split; [done|]. intros He. revert Hf. unfold findRefreshSession, findRefreshSession_read,
    findRefreshSession_cache, answer. rewrite He. cbn. intros [= <-]. done.
Qed.

Lemma pres_unborn_claims sid dead now tok : preserves (unborn sid) (refresh_claims dead now tok).
Proof.
  pose proof (unborn_stable sid now (λ _, True)) as Hs. unfold refresh_claims. cbv zeta. pres_all;
    first [by apply pres_parse | by eapply pres_live | by apply Hs].
Qed.

(** Going past a call that keeps [I], inside an operation that succeeds. *)
Lemma ok_past {S E A B} (I : S → Prop) (Q : S → Prop) (f : op S E A) (g : A → op S E B) (s : S) b :
  preserves I f → I s → answer (f ≫= g) s = Ok b →
  (∀ a (s' : S), I s' → answer (g a) s' = Ok b → Q (exec (g a) s')) → Q (exec (f ≫= g) s).
Proof. intros Hf Hs (a & _ & Ha & ->)%answer_bind_ok Hg. apply Hg; [by apply Hf|done]. Qed.

(** The section under the lock: a pair is issued only while the session is
    there, and the session is gone afterwards. *)
Lemma refresh_locked_gone now c u s r :
  answer (refresh_locked now c u) s = Ok r → unborn (TrimSpace (cID c)) s →
  ¬ gone (TrimSpace (cID c)) s ∧ gone (TrimSpace (cID c)) (exec (refresh_locked now c u) s).
Proof.
  set (sid := TrimSpace (cID c)). intros Ha Hb.
  pose proof (unborn_stable sid now (λ _, True)) as Hst.
  pose proof (gone_stable sid now (λ _, True)) as Hg.
  unfold refresh_locked in *. apply answer_bind_ok in Ha as ([] & _ & Ha & ->).
  apply (st_cleanup _ _ _ Hst) in Hb. pose proof (st_cleanup _ _ _ Hg s) as Hgc.
  revert Ha Hb Hgc. generalize (exec (cleanupExpiredLocked now) s). intros s1 Ha Hb Hgc.
  apply answer_bind_ok in Ha as (found & Hf & Ha & ->). apply answer_or_err in Hf as [Hf Hex]. rewrite Hex in *.
  destruct found as [x|]; [|by apply answer_bind_ok in Ha as ([] & Ha & _)].
  assert (sid ≠ "") as Hne.
  { intros He. revert Hf. unfold findRefreshSessionLocked, answer. fold sid. by rewrite He. }
  split; [intros Hgs; by apply (gone_findL_none _ _ _ _ (Hgc Hgs) Hf)|].
  apply (st_findL _ _ _ Hst (cID c)) in Hb. clear Hex Hf Hgc.
  eapply (ok_past (unborn sid)); [apply pres_live|exact Hb|exact Ha|]. clear s s1 Hb Ha. intros [] s Hb Ha.
  apply answer_bind_ok in Ha as ([] & Hd & _ & ->). apply answer_or_err in Hd as [Hd ->].
  apply (pres_issue now (λ _, True) (gone sid) Hg). by apply delete_gone.
Qed.

(** Once [Refresh] has answered, its session is gone. *)
Lemma refresh_gone now tok s r c :
  answer (Refresh now tok) s = Ok r →
  parseTokenClaims now (TrimSpace tok) "refresh" s = Some c → unborn (TrimSpace (cID c)) s →
  gone (TrimSpace (cID c)) (exec (Refresh now tok) s).
Proof.
  unfold Refresh. intros Ha Hp Hb. apply answer_bind_ok in Ha as (c' & Hc & Ha & ->).
  destruct (refresh_claims_ok _ _ _ _ _ Hc) as [Hp' Hne]. rewrite Hp in Hp'. injection Hp' as <-.
  apply (pres_unborn_claims _ (refresh_dead now) now tok) in Hb. set (sid := TrimSpace (cID c)) in *.
  eapply (ok_past (unborn sid)); [apply pres_the; eapply pres_findUserByID, (unborn_stable sid now (λ _, True))
    |exact Hb|exact Ha|].
  intros u s1 Hb1 Ha1. by eapply refresh_locked_gone.
Qed.

(** The claims a token parses to. *)
Lemma parse_jwt now raw ty s c :
  parseTokenClaims now raw ty s = Some c → jwt_parse (signingKey s) now raw = Some c.
Proof.
  unfold parseTokenClaims. case_match; [done|]. destruct (jwt_parse _ now raw) as [c1|]; [|done]. cbn.
  by repeat case_match.
Qed.

Lemma keys_run s es : same_keys (signingKey s) (issuer s) (run s es).
Proof.
  apply (run_stable (λ _, True) any_token);
    [intros; apply keys_stable|intros _ x; by apply keys_frame|apply within_all|done].
Qed.

(** C6: A refresh token is used at most once.  After a successful [Refresh] the
    same token is refused by [Refresh] and by [RevokeRefreshToken], whatever
    calls and restarts come between and whatever the stores answer, as long as
    the random source never repeats the id of its session. *)
Theorem refresh_single_use now tok s r es later :
  answer (Refresh now tok) s = Ok r →
  (∀ c, parseTokenClaims now (TrimSpace tok) "refresh" s = Some c → unborn (TrimSpace (cID c)) s) →
  let s' := run (exec (Refresh now tok) s) es in
  answer (Refresh later tok) s' = Err ErrInvalidRefreshToken
  ∧ answer (RevokeRefreshToken later tok) s' = Err ErrInvalidRefreshToken.
Proof.
  intros Ha Hb s'. pose proof Ha as Ha'. unfold Refresh in Ha'.
  apply answer_bind_ok in Ha' as (c & Hc & _). apply refresh_claims_ok in Hc as [Hc _].
  assert (gone (TrimSpace (cID c)) s') as Hg.
  { apply (run_stable (λ _, True) any_token);
      [intros; apply gone_stable|intros; by apply gone_restart|apply within_all|].
    apply (refresh_gone _ _ _ r); auto. }
  apply (gone_refresh later tok (TrimSpace (cID c))); [done|].
  intros c' Hc'. do 2 f_equal.
  pose proof (keys_run s (At now (CRefresh tok) :: es)) as [Hk _].
  cbn in Hk. rewrite exec_drop_answer in Hk. fold (run (exec (Refresh now tok) s) es) in Hk. fold s' in Hk.
  apply parse_jwt in Hc, Hc'. rewrite Hk in Hc'. by eapply jwt_stable.
Qed.

(** ** Logged-out access tokens *)

Section logged_out.
Context (key tid : string) (e t : Z).

(** A token with this id expires when the one that was logged out does. *)
Definition same_expiry (now : Z) (tok : string) : Prop := ∀ c e',
  jwt_parse key now (TrimSpace tok) = Some c → TrimSpace (cID c) = tid → cExpiresAt c = Some e' → e' = e.

(** The revocation is in memory; the store holds it for the instant [t]. *)
Definition listed (s : Svc) : Prop := signingKey s = key ∧ revokedAccess s !! tid = Some e.
Definition struck (s : Svc) : Prop := signingKey s = key ∧ store_revoked s t tid = true.

(** *** In memory *)

Lemma listed_frame s s' :
  signingKey s' = signingKey s → revokedAccess s' = revokedAccess s → listed s → listed s'.
Proof. unfold listed. by intros -> ->. Qed.
Lemma listed_persistence {A} (f : op P StoreError A) : preserves listed (on_persistence f).
Proof. intros s. rewrite on_persistence_exec. by destruct (persistence s). Qed.
Lemma listed_sessions {A} (f : op V StoreError A) (g : op P StoreError A) : preserves listed (on_sessions f g).
Proof. intros s. rewrite on_sessions_exec. by destruct (volatileStore s), (persistence s). Qed.
Lemma listed_rand n : preserves listed (rand_read n).
Proof. intros s Hs. unfold exec, rand_read. by destruct (entropy s). Qed.
#[local] Hint Resolve listed_persistence listed_sessions listed_rand : opdb.

(** [Logout] keeps what revoking a token with another id, or with the same
    expiry, keeps. *)
Lemma pres_logout (I : Svc → Prop) now tok :
  (∀ s, I s → signingKey s = key) → preserves I (cleanupExpiredLocked now) →
  (∀ id e', (TrimSpace id = tid → e' = e) → preserves I (revokeAccessTokenLocked now id e')) →
  same_expiry now tok → preserves I (Logout now tok).
Proof.
  intros Hk Hc Hr Htok s Hs. unfold Logout, exec. rewrite bind_op_eq, parse_or_run.
  destruct (parseTokenClaims _ _ _ s) as [c|] eqn:Hp; [|done].
  destruct (cExpiresAt c) as [e'|] eqn:He; [|done].
  assert (TrimSpace (cID c) = tid → e' = e) as Ht.
  { intros Hid. apply parse_jwt in Hp. rewrite Hk in Hp by done. by eapply Htok. }
  apply (pres_bind I (fail_if (is_empty (cID c)) ErrInvalidAccessToken)); [apply pres_fail_if|intros _|done].
  apply pres_bind; [done|intros _]. by apply pres_or_err, Hr.
Qed.

Lemma listed_cleanup now : now < e → preserves listed (cleanupExpiredLocked now).
Proof.
  intros Hlt. apply pres_modify. intros s [Hk Hl]. split; [done|]. cbn.
  apply map_lookup_filter_Some. split; [done|]. unfold After; simpl; lia.
Qed.

Lemma listed_revoke now id e' :
  (TrimSpace id = tid → e' = e) → preserves listed (revokeAccessTokenLocked now id e').
Proof.
  intros Ht. unfold revokeAccessTokenLocked. pres_all. apply pres_modify. intros s [Hk Hl].
  split; [done|]. cbn. rewrite lookup_insert. case_decide as Hd; [|done]. by rewrite Ht.
Qed.

Lemma listed_stable now : now < e → Stable now (same_expiry now) listed.
Proof.
  intros Hlt. assert (∀ id, preserves listed (findRefreshSessionLocked now id)) as HL.
  { intros id. unfold findRefreshSessionLocked, local_session. pres_all; by apply pres_modify. }
  split; intros;
    try (apply pres_logout; [by intros ? []|by apply listed_cleanup|intros; by apply listed_revoke|done]);
    try (by apply listed_cleanup);
    unfold issueTokenPairWithMetadataLocked, upsertRefreshSessionLocked, deleteRefreshSessionLocked,
      isAccessTokenRevoked, cacheUserLocked, SetSecretVault, SetAdminMFARequired, newResetToken;
    try (by apply HL); try (by intros s Hs; unfold exec; rewrite findRefreshSession_locked; apply HL);
    pres_all; try (by apply pres_sign, listed_rand); try (by apply pres_modify).
Qed.

(** The same for the store, at the instants up to [t]. *)
Lemma struck_frame s s' :
  signingKey s' = signingKey s → volatileStore s' = volatileStore s → persistence s' = persistence s →
  struck s → struck s'.
Proof. unfold struck, store_revoked. by intros -> -> ->. Qed.

Lemma struck_volatile {A} (f : op V StoreError A) :
  (∀ v, revoked_in v t tid = true → revoked_in (exec f v) t tid = true) → preserves struck (on_volatile f).
Proof.
  intros Hf s [Hk Hs]. rewrite on_volatile_exec. destruct (volatileStore s) as [v|] eqn:Hv; [|done].
  split; [done|]. unfold store_revoked in *. cbn. rewrite Hv in Hs. by apply Hf.
Qed.

Lemma struck_persistence {A} (f : op P StoreError A) :
  (∀ p, revoked_in p t tid = true → revoked_in (exec f p) t tid = true) → preserves struck (on_persistence f).
Proof.
  intros Hf s [Hk Hs]. rewrite on_persistence_exec. destruct (persistence s) as [p|] eqn:Hp; [|done].
  split; [done|]. unfold store_revoked in *. cbn. rewrite Hp in Hs. destruct (volatileStore s); [done|].
  by apply Hf.
Qed.

Lemma struck_leaves {A} (f : op P StoreError A) : leaves_sessions f → preserves struck (on_persistence f).
Proof. intros Hf. apply struck_persistence. intros p. by rewrite (proj2 (Hf p t tid)). Qed.

Lemma struck_rand n : preserves struck (rand_read n).
Proof. intros s Hs. unfold exec, rand_read. by destruct (entropy s). Qed.

Lemma struck_revoke now id e' :
  now <= t → t + millisecond <= e → (TrimSpace id = tid → e' = e) →
  preserves struck (revokeAccessTokenLocked now id e').
Proof.
  intros Hn He Ht. unfold revokeAccessTokenLocked. pres_all; [|by apply pres_modify; intros s; apply struck_frame].
  assert (tid ≠ TrimSpace id ∨ t + millisecond <= e') as Hor.
  { destruct (decide (TrimSpace id = tid)) as [E|E]; [right; by rewrite Ht|left; congruence]. }
  apply pres_on_sessions; [apply struck_volatile|apply struck_persistence]; intros x Hx;
    apply revoke_other; rewrite ?TrimSpace_idem; auto.
Qed.

Lemma struck_stable now :
  now <= t → t + millisecond <= e → Stable now (same_expiry now) struck.
Proof.
  intros Hn He.
  assert (∀ {A} (f : op V StoreError A) (g : op P StoreError A),
    keeps_revoked revoked_in now f → keeps_revoked revoked_in now g → preserves struck (on_sessions f g)) as Hs.
  { intros A f g Hf Hg. apply pres_on_sessions; [apply struck_volatile|apply struck_persistence];
      intros x; [by apply Hf|by apply Hg]. }
  pose proof (upsert_keeps (T:=V) now) as U1. pose proof (upsert_keeps (T:=P) now) as U2.
  pose proof (find_keeps (T:=V) now) as F1. pose proof (find_keeps (T:=P) now) as F2.
  pose proof (delete_keeps (T:=V) now) as D1. pose proof (delete_keeps (T:=P) now) as D2.
  pose proof (delete_user_keeps (T:=V) now) as X1. pose proof (delete_user_keeps (T:=P) now) as X2.
  pose proof (isrevoked_keeps (T:=V) now) as R1. pose proof (isrevoked_keeps (T:=P) now) as R2.
  assert (∀ id, preserves struck (findRefreshSessionLocked now id)) as HL.
  { intros id. unfold findRefreshSessionLocked, local_session.
    pres_all; try (by apply pres_modify; intros ?; apply struck_frame); apply Hs; eauto. }
  split; intros;
    try (apply pres_logout; [by intros ? []|by apply pres_modify; intros ?; apply struck_frame|
         intros; by apply struck_revoke|done]);
    try (apply struck_leaves; first [apply upsert_user_leaves | apply find_email_leaves
         | apply find_id_leaves | apply upsert_mfa_leaves | apply find_mfa_leaves]);
    unfold issueTokenPairWithMetadataLocked, upsertRefreshSessionLocked, deleteRefreshSessionLocked,
      isAccessTokenRevoked, cacheUserLocked, SetSecretVault, SetAdminMFARequired, cleanupExpiredLocked,
      newResetToken;
    try (by apply HL); try (by intros s; unfold exec; rewrite findRefreshSession_locked; apply HL);
    pres_all; try (by apply pres_sign, struck_rand); try (by apply struck_rand);
    try (by apply pres_modify; intros ?; apply struck_frame); try (by apply Hs).
Qed.
End logged_out.

(** What a successful revocation has done. *)
Lemma revoke_done now id e s :
  answer (revokeAccessTokenLocked now id e) s = Ok tt →
  let s' := exec (revokeAccessTokenLocked now id e) s in
  TrimSpace id ≠ "" ∧ revokedAccess s' !! TrimSpace id = Some e
  ∧ (has_store s → ∀ t, now <= t → t + millisecond <= e → store_revoked s' t (TrimSpace id) = true).
Proof.
  unfold revokeAccessTokenLocked. cbv zeta. intros Ha.
  assert (is_empty (TrimSpace id) = false) as Hne.
  { unfold answer in Ha. rewrite fail_if_bind in Ha. by destruct (is_empty (TrimSpace id)). }
  apply answer_bind_ok in Ha as ([] & Hf & Ha & ->). apply answer_bind_ok in Ha as (found & Ha & _ & ->).
  replace (exec (fail_if _ _) s) with s in * by (unfold exec, fail_if; by case_match).
  rewrite exec_modify_last. split_and!; cbn; [by apply is_empty_false|apply lookup_insert_eq|].
  intros Hst t Hn He. unfold store_revoked. cbn. rewrite on_sessions_exec.
  destruct found as [[]|]; [|by apply on_sessions_none in Ha].
  apply on_sessions_answer in Ha as [(v & Hv & Ha)|(Hv & p & Hp & Ha)]; rewrite Hv, ?Hp; cbn; rewrite ?Hv;
    rewrite <- (TrimSpace_idem id) at 2; by apply (revoke_ok now).
Qed.

Lemma Logout_run now tok s c e :
  parseTokenClaims now (TrimSpace tok) "access" s = Some c → cExpiresAt c = Some e → is_empty (cID c) = false →
  Logout now tok s
  = (cleanupExpiredLocked now;; or_err (revokeAccessTokenLocked now (cID c) e) ErrInvalidAccessToken) s.
Proof.
  intros Hp He Hc. unfold Logout. rewrite bind_op_eq, parse_or_run, Hp, He. by rewrite fail_if_bind, Hc.
Qed.

Lemma parse_id now raw ty s c : parseTokenClaims now raw ty s = Some c → is_empty (cID c) = false.
Proof.
  unfold parseTokenClaims. case_match; [done|]. destruct (jwt_parse _ _ _); [|done]. cbn.
  repeat case_match; try done. intros [= <-]. by destruct (is_empty (cUserID _)).
Qed.

Lemma logout_done now tok s c :
  answer (Logout now tok) s = Ok tt → parseTokenClaims now (TrimSpace tok) "access" s = Some c →
  let s' := exec (Logout now tok) s in
  cExpiresAt c = Some (expiry c) ∧ TrimSpace (cID c) ≠ ""
  ∧ revokedAccess s' !! TrimSpace (cID c) = Some (expiry c)
  ∧ (has_store s → ∀ t, now <= t → t + millisecond <= expiry c → store_revoked s' t (TrimSpace (cID c)) = true).
Proof.
  intros Ha Hp. cbv zeta. unfold expiry. destruct (cExpiresAt c) as [e|] eqn:He.
  2:{ revert Ha. unfold Logout, answer. by rewrite bind_op_eq, parse_or_run, Hp, He. }
  pose proof (Logout_run now tok s c e Hp He (parse_id _ _ _ _ _ Hp)) as Hr.
  unfold answer, exec in *. rewrite Hr in *.
  apply (answer_bind_ok (cleanupExpiredLocked now)) in Ha as ([] & _ & Ha & Hex).
  unfold exec in Hex. rewrite Hex. apply answer_or_err in Ha as [Ha Hor]. unfold exec in Hor. rewrite Hor.
  apply revoke_done in Ha as (? & ? & Hs). split_and!; [done|done|done|].
  intros Hst. apply Hs. exact Hst.
Qed.

(** A token rejected in memory or in the store does not verify. *)
Lemma rejected_verify now raw s :
  (∀ c, parseTokenClaims now (TrimSpace raw) "access" s = Some c → TrimSpace (cID c) ≠ "" ∧
     ((∃ e, revokedAccess s !! TrimSpace (cID c) = Some e ∧ now < e)
      ∨ store_revoked s now (TrimSpace (cID c)) = true)) →
  answer (VerifyAccessToken now raw) s = Err ErrInvalidAccessToken.
Proof.
  intros Hrej. unfold VerifyAccessToken, answer. rewrite bind_op_eq, parse_or_run.
  destruct (parseTokenClaims _ _ _ s) as [c|] eqn:Hp; [|done].
  destruct (Hrej c eq_refl) as [Hne Hr]. clear Hrej.
  assert (∀ b, answer (isAccessTokenRevoked now (cID c)) s = Ok b → b = true) as Hb.
  { intros b. unfold isAccessTokenRevoked. apply is_empty_false in Hne as He. rewrite He.
    intros (found & Hf & Hb & _)%answer_bind_ok.
    assert (revokedAccess (exec (on_sessions (IsAuthAccessTokenRevoked now (TrimSpace (cID c)))
      (IsAuthAccessTokenRevoked now (TrimSpace (cID c)))) s) = revokedAccess s) as Hm.
    { rewrite on_sessions_exec. by destruct (volatileStore s), (persistence s). }
    destruct Hr as [(e & Hl & Hlt)|Hs].
    - assert (After e now = true) as Ha by (unfold After; lia).
      destruct found as [[]|]; unfold answer in Hb; cbn -[exec on_sessions] in Hb; [congruence| |];
        rewrite Hm, Hl, Ha in Hb; congruence.
    - unfold store_revoked in Hs. destruct found as [x|].
      + assert (x = true) as ->; [|unfold answer in Hb; cbn in Hb; congruence].
        apply on_sessions_answer in Hf as [(v & Hv & Hf)|(Hv & p & Hp' & Hf)];
          apply isrevoked_answer in Hf; rewrite ?TrimSpace_idem in *; auto;
          rewrite Hv, ?Hp' in Hs; congruence.
      + apply on_sessions_none in Hf. unfold has_store in Hf.
        destruct (volatileStore s); [exfalso; eauto|]. destruct (persistence s); [exfalso; eauto|done]. }
  rewrite bind_op_eq. unfold or_err. unfold answer in Hb.
  destruct (isAccessTokenRevoked now (cID c) s) as [s1 [b|e]]; [|done].
  rewrite (Hb b) by done. by rewrite fail_if_bind.
Qed.

(** C9: A logged-out access token stays rejected until it expires.  After a
    successful [Logout] the token does not verify at any later instant [t],
    whatever calls are made in between: without a restart always, and across
    restarts when a store is attached, until a millisecond before the expiry. *)
Theorem logout_final t0 tok s c es t :
  answer (Logout t0 tok) s = Ok tt →
  parseTokenClaims t0 (TrimSpace tok) "access" s = Some c →
  within (λ now, t0 <= now <= t) (same_expiry (signingKey s) (TrimSpace (cID c)) (expiry c)) es → t0 <= t →
  (Restarted ∉ es ∨ has_store s ∧ t + millisecond <= expiry c) →
  answer (VerifyAccessToken t tok) (run (exec (Logout t0 tok) s) es) = Err ErrInvalidAccessToken.
Proof.
  intros Ha Hp Hw Ht Hor. destruct (logout_done _ _ _ _ Ha Hp) as (He & Hne & Hm & Hst).
  set (s1 := exec (Logout t0 tok) s) in *.
  assert (signingKey s1 = signingKey s) as Hk.
  { by apply (st_logout _ _ _ (keys_stable (signingKey s) (issuer s) t0 (λ _, True)) tok Logic.I s). }
  assert (signingKey (run s1 es) = signingKey s) as Hk' by (rewrite <- Hk; apply keys_run).
  apply rejected_verify. intros c' Hp'.
  assert (c' = c) as ->.
  { apply parse_jwt in Hp, Hp'. rewrite Hk' in Hp'. by eapply jwt_stable. }
  assert (t < expiry c) as Hlt.
  { apply parse_jwt in Hp'. by eapply jwt_unexpired. }
  split; [done|]. destruct Hor as [Hr|[Hs Hms]].
  - left. exists (expiry c). split; [|done].
    apply (run_stable (λ now, t0 <= now <= t) (same_expiry (signingKey s) (TrimSpace (cID c)) (expiry c)) (listed (signingKey s) (TrimSpace (cID c)) (expiry c)));
      [|done|done|done].
    intros now Hn. apply listed_stable. lia.
  - right. apply (run_stable (λ now, t0 <= now <= t) (same_expiry (signingKey s) (TrimSpace (cID c)) (expiry c)) (struck (signingKey s) (TrimSpace (cID c)) t));
      [|intros _ x; by apply struck_frame|done|split; [done|by apply Hst]].
    intros now Hn. apply struck_stable; [lia|done].
Qed.
End sessions.

(** ** Examples: the tables of [AuthStore], the libraries of [AuthToy] *)

Definition ex_pg : Postgres := mkPostgres [] ∅ ∅ ∅ ∅.
Definition ex_chunks : list bytes :=
  (fun i => repeat (chr i) 12) <$> [1; 2; 3; 4; 5; 6; 7; 8].
Definition ex_s0 : Service Postgres Postgres :=
  (NewService "key" "" 0 0 [] "" ex_chunks) <| persistence := Some ex_pg |>.
Definition ex_user : User := mkUser "usr_1" "A" "a@b.co" "resident" "t1" [] "" false.
Definition ex_t0 : Z := 1000 * second.

(** The state and the tokens after a login. *)
Definition ex_login := @LoginByTrustedUser Postgres Postgres _ _ toy_auth ex_t0 ex_user ex_s0.
Definition ex_s1 : Service Postgres Postgres := fst ex_login.
Definition ex_access : string := match snd ex_login with Ok l => AccessToken l | Err _ => "" end.
Definition ex_refresh : string := match snd ex_login with Ok l => RefreshToken l | Err _ => "" end.

Definition ex_later : Z := ex_t0 + 60 * second.

Lemma refresh_single_use_witness :
  ∃ r, answer (@Refresh Postgres Postgres _ _ toy_auth ex_later ex_refresh) ex_s1 = Ok r
  ∧ answer (@Refresh Postgres Postgres _ _ toy_auth (ex_later + second) ex_refresh)
      (@run Postgres Postgres _ _ toy_auth toy_aead sorted_range
         (exec (@Refresh Postgres Postgres _ _ toy_auth ex_later ex_refresh) ex_s1) [Restarted])
    = Err ErrInvalidRefreshToken.
Proof.
  eexists. split; [vm_compute; reflexivity|].
  eapply (@refresh_single_use Postgres Postgres _ _ _ _ _ toy_auth toy_auth_laws toy_aead sorted_range
           ex_later ex_refresh ex_s1 _ [Restarted] (ex_later + second));
    [vm_compute; reflexivity|].
  intros c Hc. vm_compute in Hc. injection Hc as <-. apply (bool_decide_unpack _). vm_compute. exact Logic.I.
Defined.

(** The access token is logged out, the process restarts, and the token is
    tried in between. *)
Definition ex_events : list event := [Restarted; At ex_later (CVerifyAccessToken ex_access)].

Lemma logout_final_witness :
  ∃ c, @parseTokenClaims Postgres Postgres toy_auth ex_t0 (TrimSpace ex_access) "access" ex_s1 = Some c
  ∧ answer (@VerifyAccessToken Postgres Postgres _ _ toy_auth ex_later ex_access)
      (@run Postgres Postgres _ _ toy_auth toy_aead sorted_range
         (exec (@Logout Postgres Postgres _ _ toy_auth ex_t0 ex_access) ex_s1) ex_events)
    = Err ErrInvalidAccessToken.
Proof.
  eexists. split; [vm_compute; reflexivity|].
  eapply (@logout_final Postgres Postgres _ _ _ _ _ toy_auth toy_auth_laws toy_aead sorted_range
           ex_t0 ex_access ex_s1 _ ex_events ex_later).
  - vm_compute. reflexivity.
  - vm_compute. reflexivity.
  - intros now c Hin. apply elem_of_cons in Hin as [Heq|Hin]; [discriminate|].
    apply list_elem_of_singleton in Hin. injection Hin as -> ->.
    split; [vm_compute; split; congruence|exact Logic.I].
  - vm_compute. congruence.
  - right. split; [right; vm_compute; eauto|vm_compute; congruence].
Defined.
