(* ===== verification/AuthRace.v ===== *)
(** * Overlapping refreshes

    [Refresh] is not one atomic step: it reads the store without the lock,
    writes what it found to the map under the lock, does the same for the user,
    and takes the lock again for the rest.  [refresh_step] makes these the steps
    of a thread; run alone they are [Refresh] ([steps_refine]).  Without a store
    one session yields one token pair under every schedule
    ([concurrent_single_use]); with a store a late write of the map brings a
    used session back ([refresh_race]). *)

From S2P Require Import Prelude GoStrings GoTime Bytes Encoding Vault AuthStore Auth AuthToy AuthCalls AuthSessions.
#[local] Open Scope string_scope.
#[local] Open Scope list_scope.
#[local] Open Scope Z_scope.

(** Where a thread stands in [Refresh]. *)
Inductive pc :=
| PStart (now : Z) (token : string)
| PSession (now : Z) (c : tokenClaims) (found : option refreshSession)   (* the store was read *)
| PUser (now : Z) (c : tokenClaims)                                      (* the session was checked *)
| PUserRead (now : Z) (c : tokenClaims) (found : option (User * string)) (* the user row was read *)
| PLock (now : Z) (c : tokenClaims) (user : User)                        (* waits for the lock *)
| PDone (r : result AuthErr LoginResponse).

Section race.
Context {P V : Type} {pers : Persistence P} {vol : SessionStore V} {crypto : AuthCrypto}.
Abbreviation Svc := (Service P V).
Abbreviation m := (op (Service P V) AuthErr).
Implicit Types (s : Service P V).

(** One step: an operation whose answer picks the next place. *)
Definition goto {A} (f : m A) (next : A → pc) (s : Svc) : Svc * pc :=
  match f s with (s', Ok a) => (s', next a) | (s', Err e) => (s', PDone (Err e)) end.

Definition start_read (now : Z) (token : string) : m (tokenClaims * option refreshSession) :=
  let refreshToken := TrimSpace token in
  fail_if (is_empty refreshToken) ErrInvalidRefreshToken;;
  claims ← parse_or now refreshToken "refresh" ErrInvalidRefreshToken;
  found ← or_err (findRefreshSession_read now (cID claims)) ErrInvalidRefreshToken;
  mret (claims, found).

Definition session_checked (now : Z) (c : tokenClaims) (found : option refreshSession) : m unit :=
  session ← or_err (findRefreshSession_cache (cID c) found) ErrInvalidRefreshToken;
  live_session (refresh_dead now) c session.

Definition user_read (c : tokenClaims) : m (option (User * string)) :=
  or_err (findUserByID_read (cUserID c)) ErrInvalidRefreshToken.

Definition user_cached (c : tokenClaims) (found : option (User * string)) : m User :=
  the ErrInvalidRefreshToken (findUserByID_cache (cUserID c) found).

Definition refresh_step (p : pc) (s : Svc) : Svc * pc :=
  match p with
  | PStart now token => goto (start_read now token) (fun '(c, found) => PSession now c found) s
  | PSession now c found => goto (session_checked now c found) (fun _ => PUser now c) s
  | PUser now c => goto (user_read c) (PUserRead now c) s
  | PUserRead now c found => goto (user_cached c found) (PLock now c) s
  | PLock now c user => let '(s', r) := refresh_locked now c user s in (s', PDone r)
  | PDone r => (s, PDone r)
  end.

(** A pool of threads on one service; a schedule names the thread of each step. *)
Definition pool_step (w : Svc * list pc) (i : nat) : Svc * list pc :=
  match w.2 !! i with
  | Some p => let '(s', p') := refresh_step p w.1 in (s', <[i := p']> w.2)
  | None => w
  end.
Definition run_pool (w : Svc * list pc) (schedule : list nat) : Svc * list pc :=
  fold_left pool_step schedule w.

(** The five steps in a row. *)
Definition alone (p : pc) (s : Svc) : Svc * pc :=
  Nat.iter 5 (fun '(s, p) => refresh_step p s) (s, p).

Lemma done_steps n r s : Nat.iter n (fun '(s, p) => refresh_step p s) (s, PDone r) = (s, PDone r).
Proof. induction n as [|n IH]; [done|]. simpl. by rewrite IH. Qed.

Lemma iter_goto {A} n (f : m A) next p s :
  refresh_step p s = goto f next s →
  Nat.iter (S n) (fun '(s, p) => refresh_step p s) (s, p)
  = match f s with
    | (s', Ok a) => Nat.iter n (fun '(s, p) => refresh_step p s) (s', next a)
    | (s', Err e) => (s', PDone (Err e))
    end.
Proof.
  intros Hp. rewrite Nat.iter_succ_r, Hp. unfold goto.
  destruct (f s) as [s' [a|e]]; [done|apply done_steps].
Qed.

(** The method as the sequence of its steps. *)
Definition in_steps (now : Z) (token : string) : m LoginResponse :=
  '(c, found) ← start_read now token;
  session_checked now c found;;
  row ← user_read c;
  user ← user_cached c row;
  refresh_locked now c user.

Lemma Refresh_in_steps now token s : Refresh now token s = in_steps now token s.
Proof.
  unfold Refresh, refresh_claims, in_steps, start_read, session_checked, user_read, user_cached,
    findRefreshSession, findUserByID, the, or_err. cbv zeta.
  rewrite !bind_op_eq. unfold fail_if. destruct (is_empty (TrimSpace token)); [done|].
  rewrite !bind_op_eq, parse_or_run. destruct (parseTokenClaims _ _ _ s) as [c|]; [|done].
  rewrite !bind_op_eq. destruct (findRefreshSession_read now (cID c) s) as [s1 [found|e]]; [|done].
  cbn [mret op_ret]. rewrite !bind_op_eq.
  destruct (findRefreshSession_cache (cID c) found s1) as [s2 [x|e]]; [|done].
  rewrite !bind_op_eq. destruct (live_session (refresh_dead now) c x s2) as [s3 [[]|e]]; [|done].
  cbn [mret op_ret]. rewrite !bind_op_eq.
  destruct (findUserByID_read (cUserID c) s3) as [s4 [row|e]]; [|done]. cbn. rewrite !bind_op_eq.
  destruct (findUserByID_cache (cUserID c) row s4) as [s5 [[u|]|e]]; done.
Qed.

(** The step relation refines the method.  A thread that runs its steps
    without interruption ends in the state and with the answer of [Refresh], for
    every service, clock and token. *)
Theorem steps_refine now token s :
  alone (PStart now token) s = (exec (Refresh now token) s, PDone (answer (Refresh now token) s)).
Proof.
  unfold exec, answer. rewrite Refresh_in_steps. unfold alone, in_steps.
  erewrite iter_goto by reflexivity. rewrite bind_op_eq.
  destruct (start_read now token s) as [s1 [[c found]|e]]; [|done].
  erewrite iter_goto by reflexivity. rewrite bind_op_eq.
  destruct (session_checked now c found s1) as [s2 [[]|e]]; [|done].
  erewrite iter_goto by reflexivity. rewrite bind_op_eq.
  destruct (user_read c s2) as [s3 [row|e]]; [|done].
  erewrite iter_goto by reflexivity. rewrite bind_op_eq.
  destruct (user_cached c row s3) as [s4 [u|e]]; [|done].
  cbn. by destruct (refresh_locked now c u s4) as [s5 r].
Qed.
End race.

(** ** Without a store *)

Section memory.
Context {P V : Type} {pers : Persistence P} {vol : SessionStore V}.
Context {plaws : SessionLaws P} {plaws2 : PersistenceLaws P} {vlaws : SessionLaws V}.
Context {crypto : AuthCrypto} {laws : AuthLaws} {cipher : AEAD} {order : MapRange}.
Abbreviation Svc := (Service P V).
Implicit Types (s : Service P V).
Context (sid key iss : string).

Definition nostore (s : Svc) : Prop := volatileStore s = None ∧ persistence s = None.

Lemma nostore_frame s s' :
  volatileStore s' = volatileStore s → persistence s' = persistence s → nostore s → nostore s'.
Proof. unfold nostore. by intros -> ->. Qed.
Lemma nostore_persistence {A} (f : op P StoreError A) : preserves nostore (on_persistence f).
Proof. intros s [Hv Hp]. rewrite on_persistence_exec, Hp. done. Qed.
Lemma nostore_sessions {A} (f : op V StoreError A) (g : op P StoreError A) : preserves nostore (on_sessions f g).
Proof. intros s [Hv Hp]. rewrite on_sessions_exec, Hv, Hp. done. Qed.
Lemma nostore_rand n : preserves nostore (rand_read n).
Proof. intros s Hs. unfold exec, rand_read. by destruct (entropy s). Qed.
#[local] Hint Resolve nostore_persistence nostore_sessions nostore_rand : opdb.

Lemma nostore_stable now L : Stable now L nostore.
Proof.
  assert (∀ t, preserves nostore (findRefreshSessionLocked now t)) as HL.
  { intros t. unfold findRefreshSessionLocked, local_session. pres_all; by apply pres_modify. }
  split; intros;
    unfold issueTokenPairWithMetadataLocked, upsertRefreshSessionLocked, deleteRefreshSessionLocked, Logout,
      parse_or, revokeAccessTokenLocked, cleanupExpiredLocked, isAccessTokenRevoked, cacheUserLocked,
      SetSecretVault, SetAdminMFARequired, newResetToken;
    try (by apply HL); try (by intros s Hs; unfold exec; rewrite findRefreshSession_locked; apply HL);
    pres_all; try (by apply pres_sign, nostore_rand); try (by apply pres_modify).
Qed.

(** The state of the service between steps. *)
Definition ready (s : Svc) : Prop := nostore s ∧ same_keys key iss s ∧ unborn sid s.

Lemma ready_stable now L : Stable now L ready.
Proof.
  apply Stable_and; [apply nostore_stable|]. apply Stable_and; [apply keys_stable|apply unborn_stable].
Qed.

(** Without a store the two look-ups read nothing. *)
Lemma read_nostore now id s :
  nostore s → findRefreshSession_read now id s = (s, Ok None).
Proof.
  intros [Hv Hp]. unfold findRefreshSession_read. case_match; [done|].
  rewrite bind_op_eq. unfold on_sessions, on_persistence. by rewrite Hv, Hp.
Qed.
Lemma cache_none id s : exec (findRefreshSession_cache id None) s = s.
Proof. unfold findRefreshSession_cache. case_match; [done|]. apply local_session_exec. Qed.

(** The claims a thread works with belong to the session. *)
Definition tracks (p : pc) : Prop :=
  match p with
  | PStart now token => ∀ c s, same_keys key iss s →
      parseTokenClaims now (TrimSpace token) "refresh" s = Some c → TrimSpace (cID c) = sid
  | PSession _ c found => TrimSpace (cID c) = sid ∧ found = None
  | PUserRead _ c found => TrimSpace (cID c) = sid ∧ found = None
  | PUser _ c | PLock _ c _ => TrimSpace (cID c) = sid
  | PDone _ => True
  end.

Definition success (p : pc) : bool := match p with PDone (Ok _) => true | _ => false end.
Definition spent (s : Svc) : Prop := refreshSessions s !! sid = None.

Lemma gone_spent s : gone sid s → spent s.
Proof. by intros (H & _). Qed.
Lemma spent_gone s : ready s → spent s → gone sid s.
Proof.
  intros ((Hv & Hp) & _ & Hb) Hs. split_and!; [done| |done].
  intros at_. unfold store_view. by rewrite Hv, Hp.
Qed.

(** A step keeps [I] when its operation does. *)
Lemma goto_exec {A} (f : op Svc AuthErr A) next s : (goto f next s).1 = exec f s.
Proof. unfold goto, exec. by destruct (f s) as [s' [a|e]]. Qed.

(** The operations of the steps keep what the steps of the methods keep. *)
Section kept.
Context (now : Z) (L : string → Prop) (I : Svc → Prop) (HI : Stable now L I).

Lemma pres_session_checked c : preserves I (session_checked now c None).
Proof.
  unfold session_checked. apply pres_bind; [|intros x; apply pres_live].
  apply pres_or_err. intros s. by rewrite cache_none.
Qed.
Lemma pres_user_read c : preserves I (user_read c).
Proof.
  unfold user_read, findUserByID_read. apply pres_or_err. case_match; [apply pres_ret|].
  apply pres_bind; [apply (st_find_id _ _ _ HI)|intros; apply pres_ret].
Qed.
Lemma pres_refresh_locked c u : preserves I (refresh_locked now c u).
Proof.
  unfold refresh_locked. apply pres_bind; [apply (st_cleanup _ _ _ HI)|intros _].
  apply pres_bind; [apply pres_or_err, (st_findL _ _ _ HI)|intros x].
  apply pres_bind; [apply pres_live|intros _].
  apply pres_bind; [apply pres_or_err, (st_delete _ _ _ HI)|intros _]. by eapply pres_issue.
Qed.
End kept.

(** Without a store the user look-up is in memory too. *)
Lemma user_cached_none c s : exec (user_cached c None) s = s.
Proof.
  unfold user_cached, the, findUserByID_cache, exec, or_err.
  destruct (is_empty (TrimSpace (cUserID c))); [done|]. rewrite bind_op_eq. cbn.
  by destruct (usersByID s !! TrimSpace (cUserID c)).
Qed.
Lemma user_read_none c s : nostore s → (user_read c s).2 = Ok None.
Proof.
  intros [Hv Hp]. unfold user_read, findUserByID_read, or_err.
  destruct (is_empty (TrimSpace (cUserID c))); [done|].
  rewrite bind_op_eq. unfold on_persistence. by rewrite Hp.
Qed.

(** The last step, by the session of the thread. *)
Lemma refresh_locked_once now c u s r :
  TrimSpace (cID c) = sid → ready s → answer (refresh_locked now c u) s = Ok r →
  ¬ spent s ∧ spent (exec (refresh_locked now c u) s).
Proof.
  intros Hid Hr Ha. pose proof Hr as (_ & _ & Hb). rewrite <- Hid in Hb.
  destruct (refresh_locked_gone _ _ _ _ _ Ha Hb) as [Hng Hg]. rewrite Hid in *. split.
  - intros Hs. apply Hng. by apply spent_gone.
  - by apply gone_spent.
Qed.

(** The number of token pairs the threads have obtained. *)
Definition successes (ts : list pc) : nat := length (filterb success ts).

Lemma successes_insert ts i p p' :
  ts !! i = Some p → success p = false →
  successes (<[i := p']> ts) = (successes ts + if success p' then 1 else 0)%nat.
Proof.
  unfold successes. revert i; induction ts as [|q ts IH]; intros [|i] Hi Hp; simpl in *; try done.
  - injection Hi as ->. rewrite Hp. destruct (success p'); simpl; lia.
  - destruct (success q); simpl; rewrite (IH _ Hi Hp); done.
Qed.

(** Between steps: every thread follows the session, and at most one pair was
    issued, after which the session is spent. *)
Definition pool_ok (w : Svc * list pc) : Prop :=
  ready w.1 ∧ (∀ p, p ∈ w.2 → tracks p)
  ∧ (successes w.2 = 0%nat ∨ successes w.2 = 1%nat ∧ spent w.1).

(** The effect of a step that does not end in a pair. *)
Lemma pool_ok_step s ts i p s' p' :
  pool_ok (s, ts) → ts !! i = Some p → success p = false → success p' = false →
  ready s' → tracks p' → (spent s → spent s') → pool_ok (s', <[i := p']> ts).
Proof.
  intros (Hr & Ht & Hc) Hi Hp Hp' Hr' Ht' Hs. split_and!; [done| |]; cbn [fst snd] in *.
  - intros q Hq. apply list_elem_of_lookup in Hq as [k Hk].
    destruct (decide (k = i)) as [->|Hne].
    + rewrite list_lookup_insert_eq in Hk by (by eapply lookup_lt_Some). by injection Hk as <-.
    + rewrite list_lookup_insert_ne in Hk by done. apply Ht. by eapply list_elem_of_lookup_2.
  - rewrite (successes_insert _ _ _ _ Hi Hp), Hp'. replace (successes ts + 0)%nat with (successes ts) by lia.
    destruct Hc as [?|[? ?]]; [by left|right; auto].
Qed.

Lemma pool_ok_pair s ts i p s' r :
  pool_ok (s, ts) → ts !! i = Some p → success p = false → ready s' → ¬ spent s → spent s' →
  pool_ok (s', <[i := PDone (Ok r)]> ts).
Proof.
  intros (Hr & Ht & Hc) Hi Hp Hr' Hn Hs. split_and!; [done| |]; cbn [fst snd] in *.
  - intros q Hq. apply list_elem_of_lookup in Hq as [k Hk].
    destruct (decide (k = i)) as [->|Hne].
    + rewrite list_lookup_insert_eq in Hk by (by eapply lookup_lt_Some). by injection Hk as <-.
    + rewrite list_lookup_insert_ne in Hk by done. apply Ht. by eapply list_elem_of_lookup_2.
  - right. rewrite (successes_insert _ _ _ _ Hi Hp). simpl. destruct Hc as [->|[_ ?]]; [by split|done].
Qed.

(** A step that runs an operation. *)
Lemma pool_ok_goto {A} (f : op Svc AuthErr A) next s ts i p :
  pool_ok (s, ts) → ts !! i = Some p → success p = false → preserves ready f → preserves (gone sid) f →
  (∀ a, answer f s = Ok a → tracks (next a) ∧ success (next a) = false) →
  pool_ok (let '(s', p') := goto f next s in (s', <[i := p']> ts)).
Proof.
  intros Hw Hi Hp Hr Hg Hn. pose proof Hw as (Hr0 & _). cbn in Hr0.
  pose proof (Hr s Hr0) as Hr'. pose proof (Hg s) as Hg'. unfold goto, answer, exec in *.
  destruct (f s) as [s' [a|e]]; cbn in *; eapply pool_ok_step; eauto using gone_spent, spent_gone;
    try done; by apply Hn.
Qed.

Lemma start_read_nostore now tok s :
  nostore s → start_read now tok s
  = (s, if is_empty (TrimSpace tok) then Err ErrInvalidRefreshToken
        else match parseTokenClaims now (TrimSpace tok) "refresh" s with
             | Some c => Ok (c, None) | None => Err ErrInvalidRefreshToken end).
Proof.
  intros Hn. unfold start_read. cbv zeta. rewrite fail_if_bind. case_match; [done|].
  rewrite bind_op_eq, parse_or_run. destruct (parseTokenClaims _ _ _ s) as [c|]; [|done].
  rewrite bind_op_eq. unfold or_err. by rewrite read_nostore.
Qed.

Lemma pool_step_ok w i : pool_ok w → pool_ok (pool_step w i).
Proof.
  destruct w as [s ts]. intros Hw. unfold pool_step. cbn [fst snd].
  destruct (ts !! i) as [p|] eqn:Hi; [|done].
  pose proof Hw as (Hr & Ht & _). cbn [fst snd] in Hr, Ht. pose proof Hr as (Hn & Hk & _).
  specialize (Ht p ltac:(by eapply list_elem_of_lookup_2)).
  pose proof (λ now, ready_stable now (λ _, True)) as Hst.
  pose proof (λ now, gone_stable sid now (λ _, True)) as Hgst.
  destruct p as [now tok|now c found|now c|now c found|now c u|r]; cbn [refresh_step].
  - unfold goto. rewrite start_read_nostore by done.
    destruct (is_empty (TrimSpace tok)); [by eapply pool_ok_step|].
    destruct (parseTokenClaims _ _ _ s) as [c|] eqn:Hp; [|by eapply pool_ok_step].
    eapply pool_ok_step; try done. split; [by eapply Ht|done].
  - destruct Ht as [Hid ->]. apply (pool_ok_goto _ _ s ts i _ Hw Hi);
      [done|apply pres_session_checked|apply pres_session_checked|done].
  - apply (pool_ok_goto _ _ s ts i _ Hw Hi);
      [done|apply (pres_user_read now _ _ (Hst now))|apply (pres_user_read now _ _ (Hgst now))|].
    intros a Ha. split; [split; [done|]|done]. pose proof (user_read_none c s Hn) as Hu.
    unfold answer in Ha. congruence.
  - destruct Ht as [Hid ->]. apply (pool_ok_goto _ _ s ts i _ Hw Hi);
      [done|intros x; by rewrite user_cached_none|intros x; by rewrite user_cached_none|done].
  - pose proof (pres_refresh_locked now _ _ (Hst now) c u s Hr) as Hr'.
    pose proof (refresh_locked_once now c u s) as Ho.
    pose proof (pres_refresh_locked now _ _ (Hgst now) c u s) as Hg.
    unfold exec, answer in *. destruct (refresh_locked now c u s) as [s' [r|e]]; cbn in *.
    + destruct (Ho r Ht Hr eq_refl). by eapply pool_ok_pair.
    + eapply pool_ok_step; try done. intros Hs. by apply gone_spent, Hg, spent_gone.
  - by rewrite list_insert_id.
Qed.

(** C8: Without a store, one session yields at most one token pair, however
    many [Refresh] calls present its token and however their steps interleave. *)
Theorem concurrent_single_use s ts schedule :
  ready s →
  (∀ p, p ∈ ts → ∃ now token, p = PStart now token
     ∧ ∀ c s', same_keys key iss s' →
         parseTokenClaims now (TrimSpace token) "refresh" s' = Some c → TrimSpace (cID c) = sid) →
  (successes (run_pool (s, ts) schedule).2 ≤ 1)%nat.
Proof.
  intros Hr Hts. assert (pool_ok (run_pool (s, ts) schedule)) as (_ & _ & Hc).
  { assert (pool_ok (s, ts)) as H0.
    { split_and!; [done| |]; cbn [fst snd].
      - intros p Hp. by destruct (Hts p Hp) as (now & tok & -> & Hs).
      - left. clear -Hts. unfold successes. induction ts as [|p ts IH]; [done|]. simpl.
        destruct (Hts p) as (now & tok & -> & _); [by left|]. simpl. apply IH.
        intros q Hq. apply Hts. by right. }
    revert H0. generalize (s, ts). induction schedule as [|i schedule IH]; intros w Hw; [done|].
    simpl. by apply IH, pool_step_ok. }
  lia.
Qed.
End memory.

(** ** With a store *)

(** Two threads present the refresh token of [ex_s1], whose session is in the
    tables.  The second reads the row before the first deletes it and writes it
    to the map afterwards; the tables no longer have it, the map does. *)
Definition ex_threads : list pc := [PStart ex_later ex_refresh; PStart ex_later ex_refresh].
Definition ex_race : list nat := [0; 1; 0; 0; 0; 0; 1; 1; 1; 1]%nat.

(** With a store, one session can yield two token pairs: under the schedule
    [ex_race] both threads obtain one, although each alone would use the token
    up. *)
Theorem refresh_race :
  successes (@run_pool Postgres Postgres _ _ toy_auth (ex_s1, ex_threads) ex_race).2 = 2%nat
  ∧ successes (@run_pool Postgres Postgres _ _ toy_auth (ex_s1, ex_threads)
                 [0; 0; 0; 0; 0; 1; 1; 1; 1; 1]%nat).2 = 1%nat.
Proof. split; vm_compute; reflexivity. Qed.

(** The same two threads on a service without a store. *)
Definition ex_mem0 : Service Postgres Postgres := NewService "key" "" 0 0 [] "" ex_chunks.
Definition ex_mem := @LoginByTrustedUser Postgres Postgres _ _ toy_auth ex_t0 ex_user ex_mem0.
Definition ex_sid : string := hex_encode (repeat (chr 2) 12).

Lemma concurrent_single_use_witness :
  (successes (@run_pool Postgres Postgres _ _ toy_auth (fst ex_mem, ex_threads) ex_race).2 ≤ 1)%nat.
Proof.
  apply (@concurrent_single_use Postgres Postgres _ _ _ _ _ toy_auth toy_auth_laws ex_sid "key" defaultJWTIssuer).
  - split; [by split|split; [by split|]]. apply (bool_decide_unpack _). vm_compute. exact Logic.I.
  - intros p Hp. exists ex_later, ex_refresh. split; [set_solver|].
    intros c s' [Hk Hi] Hc. apply parse_jwt in Hc. rewrite Hk in Hc. vm_compute in Hc.
    injection Hc as <-. vm_compute. reflexivity.
Defined.
