(* ===== verification/AuthUsers.v ===== *)
(** * Users and passwords of the auth service

    The maps of users stay well typed ([users_typed]); a user with a password
    hash can never be cut off from password logins
    ([password_never_disabled]); a reset token works once and for fifteen
    minutes ([reset_token_once]). *)

From S2P Require Import Prelude GoStrings GoTime Bytes Encoding Vault AuthStore Auth AuthToy AuthCalls AuthSessions.
#[local] Open Scope string_scope.
#[local] Open Scope list_scope.
#[local] Open Scope Z_scope.

Section users.
Context {P V : Type} {pers : Persistence P} {vol : SessionStore V}.
Context {plaws : SessionLaws P} {plaws2 : PersistenceLaws P} {vlaws : SessionLaws V}.
Context {crypto : AuthCrypto} {laws : AuthLaws} {cipher : AEAD} {order : MapRange}.
Abbreviation Svc := (Service P V).
Abbreviation m := (op (Service P V) AuthErr).
Implicit Types (s : Service P V).

(** ** The type of the user maps *)

(** A stored record: a normalised user, enabled for passwords when it has a
    hash. *)
Definition record_typed (r : userRecord) : Prop :=
  normalized (rUser r) ∧ (rPasswordHash r ≠ "" → uPasswordAuthEnabled (rUser r) = true).

(** Every record sits under its own address and its user under its own id. *)
Definition users_typed (s : Svc) : Prop :=
  (∀ e r, usersByEmail s !! e = Some r →
     record_typed r ∧ uEmail (rUser r) = e ∧ usersByID s !! uID (rUser r) = Some (rUser r))
  ∧ (∀ i u, usersByID s !! i = Some u → normalized u ∧ uID u = i).

Lemma typed_frame s s' :
  usersByEmail s' = usersByEmail s → usersByID s' = usersByID s → users_typed s → users_typed s'.
Proof. unfold users_typed. by intros -> ->. Qed.

Lemma compat_fields h u : uID (compat_enabled h u) = uID u ∧ uEmail (compat_enabled h u) = uEmail u.
Proof. unfold compat_enabled. by case_match. Qed.

Lemma compat_typed h u : normalized u → record_typed (mkUserRecord (compat_enabled h u) h).
Proof.
  intros Hn. split; [by apply normalized_compat|]. cbn. intros Hh%is_empty_false.
  unfold compat_enabled. rewrite Hh. simpl. by destruct (uPasswordAuthEnabled u) eqn:E.
Qed.

Lemma typed_cache u h : normalized u → preserves users_typed (cacheUserLocked u h).
Proof.
  intros Hn. apply pres_modify. intros s [H1 H2]. destruct (compat_fields h u) as [Hi He].
  rewrite (normalized_email u Hn). set (u' := compat_enabled h u) in *.
  assert (normalized u') as Hn' by (by apply normalized_compat).
  split; cbn.
  - intros e r. rewrite lookup_insert_Some. intros [[<- <-]|[Hne Hl]].
    + split_and!; [by apply compat_typed|done|]. cbn. rewrite Hi. apply lookup_insert_eq.
    + assert (usersByEmail s !! e = Some r ∧ uID (rUser r) ≠ uID u) as [Hs Hu].
      { destruct (usersByID s !! uID u) as [old|] eqn:Hold.
        - destruct (H2 _ _ Hold) as [Hno Hio]. rewrite (normalized_email old Hno) in Hl.
          assert (∀ r', usersByEmail s !! e = Some r' → uID (rUser r') = uID u → uEmail old = e) as Hsame.
          { intros r' Hr' Hid. destruct (H1 _ _ Hr') as (_ & Hem & Hby). rewrite Hid, Hold in Hby. congruence. }
          destruct (normalized_fields old Hno) as (_ & _ & Hem%is_empty_false & _). rewrite Hem in Hl. simpl in Hl.
          destruct (String.eqb_spec (uEmail old) (uEmail u)) as [Heq|Heq]; simpl in Hl.
          + split; [done|]. intros Hid. apply Hne. by rewrite <- (Hsame r Hl Hid).
          + apply lookup_delete_Some in Hl as [Hd Hl]. split; [done|]. intros Hid. apply Hd. by eapply Hsame.
        - split; [done|]. intros Hid. destruct (H1 _ _ Hl) as (_ & _ & Hby). congruence. }
      destruct (H1 _ _ Hs) as (? & ? & ?). split_and!; [done|done|]. by rewrite lookup_insert_ne.
  - intros i x. rewrite lookup_insert_Some. intros [[<- <-]|[_ Hl]]; [by split|by apply H2].
Qed.

Lemma typed_persistence {A} (f : op P StoreError A) : preserves users_typed (on_persistence f).
Proof. intros s. rewrite on_persistence_exec. by destruct (persistence s). Qed.
Lemma typed_sessions {A} (f : op V StoreError A) (g : op P StoreError A) : preserves users_typed (on_sessions f g).
Proof. intros s. rewrite on_sessions_exec. by destruct (volatileStore s), (persistence s). Qed.
Lemma typed_rand n : preserves users_typed (rand_read n).
Proof. intros s Hs. unfold exec, rand_read. by destruct (entropy s). Qed.
#[local] Hint Resolve typed_persistence typed_sessions typed_rand : opdb.

Lemma typed_stable now L : Stable now L users_typed.
Proof.
  assert (∀ t, preserves users_typed (findRefreshSessionLocked now t)) as HL.
  { intros t. unfold findRefreshSessionLocked, local_session. pres_all; by apply pres_modify. }
  split; intros; try (by apply typed_cache);
    unfold issueTokenPairWithMetadataLocked, upsertRefreshSessionLocked, deleteRefreshSessionLocked, Logout,
      parse_or, revokeAccessTokenLocked, cleanupExpiredLocked, isAccessTokenRevoked, newResetToken,
      SetSecretVault, SetAdminMFARequired;
    try (by apply HL); try (by intros s Hs; unfold exec; rewrite findRefreshSession_locked; apply HL);
    pres_all; try (by apply pres_sign, typed_rand); try (by apply pres_modify).
Qed.

(** The user maps are well typed in every history.  Whatever the stores
    return, every record in memory is normalised (trimmed id, lower-case address
    and role, distinct building ids, a known language), sits under its own
    address, belongs to the user filed under its id, and is enabled for
    passwords when it has a hash. *)
Theorem user_maps_typed s es : users_typed s → users_typed (run s es).
Proof.
  apply (run_stable (λ _, True) any_token); [intros; apply typed_stable| |apply within_all].
  intros _ x _. split; intros ? ?; cbn; by rewrite lookup_empty.
Qed.

(** ** Password logins are never disabled *)

(** What the unlocked look-up returns is typed, from the store or from memory. *)
Lemma findUserByEmail_typed e s r :
  users_typed s → answer (findUserByEmail e) s = Ok (Some r) → record_typed r.
Proof.
  intros Ht. unfold findUserByEmail. case_match; [done|].
  intros (found & Hf & Ha & _)%answer_bind_ok. unfold findUserByEmail_cache in Ha.
  destruct (store_user found) as [[u h]|] eqn:Hs.
  - assert (record_typed (mkUserRecord (compat_enabled h u) h)) as Hr.
    { apply compat_typed. by eapply store_user_normalized. }
    apply answer_bind_ok in Ha as ([] & _ & Ha & _). unfold answer in Ha. cbn in Ha. congruence.
  - unfold answer, gets in Ha. cbn in Ha. injection Ha as Ha.
    apply (typed_persistence (FindAuthUserByEmail (normalizeEmail e))) in Ht. by destruct (proj1 Ht _ _ Ha).
Qed.

Lemma the_answer {A} (f : m (option A)) e s :
  answer (the e f) s = match answer f s with Ok (Some a) => Ok a | _ => Err e end.
Proof. unfold answer, the, or_err. rewrite bind_op_eq. by destruct (f s) as [s' [[a|]|e']]. Qed.

Lemma the_exec {A} (f : m (option A)) e s : exec (the e f) s = exec f s.
Proof. unfold exec, the, or_err. rewrite bind_op_eq. by destruct (f s) as [s' [[a|]|e']]. Qed.

(** An error an operation never returns. *)
Definition never {A} (e : AuthErr) (f : m A) : Prop := ∀ s, answer f s ≠ Err e.

Lemma never_bind {A B} e (f : m A) (g : A → m B) : never e f → (∀ a, never e (g a)) → never e (f ≫= g).
Proof.
  intros Hf Hg s. specialize (Hf s). unfold answer in *. rewrite bind_op_eq.
  destruct (f s) as [s' [a|e']]; simpl in *; [apply Hg|congruence].
Qed.
Lemma never_or_err {A} e e' (f : m A) : e' ≠ e → never e (or_err f e').
Proof. intros Hne s. unfold answer, or_err. destruct (f s) as [s' [a|x]]; simpl; congruence. Qed.
Lemma never_the {A} e e' (f : m (option A)) : e' ≠ e → never e (the e' f).
Proof. intros Hne s. rewrite the_answer. destruct (answer f s) as [[a|]|]; congruence. Qed.
Lemma never_fail_if e b e' : e' ≠ e → never e (fail_if b e').
Proof. intros Hne s. unfold answer, fail_if. destruct b; simpl; congruence. Qed.
Lemma never_persistence {A} e (f : op P StoreError A) : e ≠ ErrStoreCall → never e (on_persistence f).
Proof.
  intros Hne s. unfold answer, on_persistence. destruct (persistence s) as [p|]; [|done].
  destruct (f p) as [p' [a|x]]; simpl; congruence.
Qed.
Lemma never_sessions {A} e (f : op V StoreError A) (g : op P StoreError A) :
  e ≠ ErrStoreCall → never e (on_sessions f g).
Proof.
  intros Hne s. unfold answer, on_sessions. destruct (volatileStore s) as [v|] eqn:Hv.
  - unfold on_volatile. rewrite Hv. destruct (f v) as [v' [a|x]]; simpl; congruence.
  - by apply never_persistence.
Qed.
Lemma never_rand e n : e ≠ ErrRandom → never e (rand_read n).
Proof. intros Hne s. unfold answer, rand_read. destruct (entropy s); simpl; [congruence|]. case_match; congruence. Qed.
Lemma never_try {A} e (f : m A) : never e (try_op f).
Proof. intros s. unfold answer, try_op. by destruct (f s) as [s' [a|x]]. Qed.

Ltac never_step :=
  first
  [ assumption
  | match goal with
    | |- never _ (mbind _ _) => apply never_bind; [|intros ?]
    | |- never _ (gets _) => by intros ?
    | |- never _ (modify _) => by intros ?
    | |- never _ (mret _) => by intros ?
    | |- never _ (throw _) => by intros ? [=]
    | |- never _ (fail_if _ _) => by apply never_fail_if
    | |- never _ (or_err _ _) => by apply never_or_err
    | |- never _ (the _ _) => by apply never_the
    | |- never _ (try_op _) => by apply never_try
    | |- never _ (on_persistence _) => by apply never_persistence
    | |- never _ (on_sessions _ _) => by apply never_sessions
    | |- never _ (rand_read _) => by apply never_rand
    | |- never _ (when ?b _) => destruct b; unfold when
    end
  | match goal with |- never _ (match ?x with _ => _ end) => destruct x eqn:? end
  | match goal with |- never _ (let x := _ in _) => cbv zeta end ].

Lemma never_enforce now u k : never ErrPasswordAuthDisabled (enforceAdminMFA now u k).
Proof.
  unfold enforceAdminMFA, findAdminMFAState, findAdminMFAStateLocked, persistAdminMFAStateLocked, encrypt_field.
  repeat never_step.
Qed.

Lemma never_issue now u meta :
  never ErrPasswordAuthDisabled (issueTokenPairWithMetadataLocked now u meta).
Proof.
  unfold issueTokenPairWithMetadataLocked, signToken, randomTokenID, upsertRefreshSessionLocked.
  repeat never_step.
Qed.

(** Password logins cannot be switched off.  In every state with well typed
    maps, so after every history, [Login] never answers that password
    authentication is disabled: a record whose password matches has a hash, and a
    record with a hash is always read as enabled, [UpdateUserPasswordAuth]
    notwithstanding. *)
Theorem password_never_disabled now email pass code meta s :
  users_typed s → answer (Login now email pass code meta) s ≠ Err ErrPasswordAuthDisabled.
Proof.
  intros Ht. unfold Login. cbv zeta. unfold answer. rewrite fail_if_bind. case_match; [done|].
  rewrite bind_op_eq. pose proof (the_answer (findUserByEmail (normalizeEmail email)) ErrInvalidCredentials s) as Ha.
  pose proof (findUserByEmail_typed (normalizeEmail email) s) as Hr. unfold answer in *.
  destruct (the ErrInvalidCredentials _ s) as [s1 [r|e]]; cbn in *.
  - destruct (findUserByEmail (normalizeEmail email) s) as [s2 [[r'|]|]]; cbn in *; simplify_eq.
    destruct (Hr r' Ht eq_refl) as [_ Hen]. rewrite fail_if_bind.
    destruct (verifyPassword (rPasswordHash r') (TrimSpace pass)) eqn:Hv; [|done]. simpl.
    rewrite fail_if_bind, Hen.
    2:{ intros He. unfold verifyPassword in Hv. by rewrite He in Hv. }
    simpl. apply never_bind; [apply never_enforce|intros _].
    apply never_bind; [by intros ?|intros _]. apply never_issue.
  - destruct (findUserByEmail (normalizeEmail email) s) as [s2 [[r'|]|]]; cbn in *; congruence.
Qed.

(** ** Reset tokens *)

Definition reset_text (c : bytes) : string := "prt_" +:+ hex_encode c.

(** At most [x] is on record for the token, and the random source will not draw
    the token (again). *)
Definition reset_at (tok : string) (x : option passwordResetToken) (s : Svc) : Prop :=
  (∀ r, passwordResetTokens s !! tok = Some r → x = Some r) ∧ tok ∉ reset_text <$> entropy s.

Section reset.
Context (tok : string) (x : option passwordResetToken).

Lemma reset_frame s s' :
  passwordResetTokens s' = passwordResetTokens s → entropy s' = entropy s →
  reset_at tok x s → reset_at tok x s'.
Proof. unfold reset_at. by intros -> ->. Qed.
Lemma reset_persistence {A} (f : op P StoreError A) : preserves (reset_at tok x) (on_persistence f).
Proof. intros s. rewrite on_persistence_exec. by destruct (persistence s). Qed.
Lemma reset_sessions {A} (f : op V StoreError A) (g : op P StoreError A) :
  preserves (reset_at tok x) (on_sessions f g).
Proof. intros s. rewrite on_sessions_exec. by destruct (volatileStore s), (persistence s). Qed.
Lemma reset_rand n : preserves (reset_at tok x) (rand_read n).
Proof.
  intros s [H1 H2]. unfold exec, rand_read. destruct (entropy s) as [|c cs] eqn:E; simpl;
    [by split; rewrite ?E|].
  rewrite ?E, fmap_cons, not_elem_of_cons in H2. destruct H2 as [_ H2]. by split.
Qed.
#[local] Hint Resolve reset_persistence reset_sessions reset_rand : opdb.

(** Other tokens may come, expired ones may go. *)
Lemma reset_new now e : preserves (reset_at tok x) (newResetToken now e).
Proof.
  intros s [H1 H2]. unfold newResetToken, rand_read, exec. rewrite bind_op_eq.
  destruct (entropy s) as [|c cs] eqn:E; cbn; [by split; rewrite ?E|].
  rewrite ?E, fmap_cons, not_elem_of_cons in H2. destruct H2 as [Hc H2].
  destruct (length c =? 24)%nat; [|done]. rewrite bind_modify. split; [|done]. cbn. intros r.
  rewrite lookup_insert_ne by (intros Ht; by apply Hc).
  intros [Hr _]%map_lookup_filter_Some. by apply H1.
Qed.

Lemma reset_stable now L : Stable now L (reset_at tok x).
Proof.
  assert (∀ t, preserves (reset_at tok x) (findRefreshSessionLocked now t)) as HL.
  { intros t. unfold findRefreshSessionLocked, local_session. pres_all; by apply pres_modify. }
  split; intros; try (by apply reset_new);
    unfold issueTokenPairWithMetadataLocked, upsertRefreshSessionLocked, deleteRefreshSessionLocked, Logout,
      parse_or, revokeAccessTokenLocked, cleanupExpiredLocked, isAccessTokenRevoked, cacheUserLocked,
      SetSecretVault, SetAdminMFARequired;
    try (by apply HL); try (by intros s Hs; unfold exec; rewrite findRefreshSession_locked; apply HL);
    pres_all; try (by apply pres_sign, reset_rand); try (by apply pres_modify).
  apply pres_modify. intros s [H1 H2]. split; [|done]. cbn. intros r [_ Hr]%lookup_delete_Some. by apply H1.
Qed.

Lemma reset_run s es : reset_at tok x s → reset_at tok x (run s es).
Proof.
  apply (run_stable (λ _, True) any_token); [intros; apply reset_stable| |apply within_all].
  intros _ s' [_ H]. by split.
Qed.
End reset.

(** The record is deleted before anything else can fail. *)
Lemma confirm_ok now t p s :
  answer (ConfirmPasswordReset now t p) s = Ok tt →
  ∃ r, passwordResetTokens s !! TrimSpace t = Some r ∧ now <= prtExpiresAt r
       ∧ ∀ x, reset_at (TrimSpace t) x s →
              reset_at (TrimSpace t) None (exec (ConfirmPasswordReset now t p) s).
Proof.
  unfold ConfirmPasswordReset, answer, exec. cbv zeta. rewrite !fail_if_bind.
  destruct (is_empty (TrimSpace t)); [done|].
  destruct (negb (ValidatePasswordPolicy p)); [done|]. rewrite bind_gets.
  destruct (passwordResetTokens s !! TrimSpace t) as [r|] eqn:Hr; [|done].
  rewrite bind_modify. set (s1 := s <| passwordResetTokens := _ |>). rewrite fail_if_bind.
  destruct (Before (prtExpiresAt r) now) eqn:Hb; [done|]. intros _. exists r.
  split; [done|]. split; [unfold Before in Hb; lia|]. intros x [_ Hx].
  assert (reset_at (TrimSpace t) None s1) as H1.
  { split; [|done]. subst s1. cbn. intros r'. by rewrite lookup_delete_eq. }
  pose proof (reset_stable (TrimSpace t) None now (λ _, True)) as Hst.
  clearbody s1. match goal with |- reset_at _ _ (?f s1).1 => cut (preserves (reset_at (TrimSpace t) None) f) end.
  { intros Hp. by apply Hp. }
  pres_all; first [by eapply pres_the, pres_findUserByEmailLocked | by eapply pres_bcrypt | by eapply pres_persistUser].
Qed.

(** What a request puts on record. *)
Lemma request_ok now email s tok :
  answer (RequestPasswordReset now email) s = Ok tok → tok ≠ "" →
  let s' := exec (RequestPasswordReset now email) s in
  TrimSpace tok = tok
  ∧ passwordResetTokens s' !! tok = Some (mkReset (normalizeEmail email) (now + passwordResetTokenTTL)).
Proof.
  unfold RequestPasswordReset. cbv zeta. intros Ha Hne. revert Ha.
  case_match; [intros [= <-]; done|]. intros (found & _ & Ha & ->)%answer_bind_ok.
  destruct found as [r|]; [|by injection Ha as <-].
  generalize dependent (exec (record_of (findUserByEmail (normalizeEmail email))) s). intros s1 Ha.
  unfold newResetToken in *. apply answer_bind_ok in Ha as (c & _ & Ha & ->).
  generalize dependent (exec (rand_read 24) s1). intros s2 [= <-]. split.
  - apply TrimSpace_fix. apply visible_trimmed. cbn. apply hex_visible.
  - cbn. apply lookup_insert_eq.
Qed.

(** A reset token works once and for fifteen minutes.  Take the token a
    request returns, as long as the random source does not draw it again, and
    any calls and restarts: a confirmation with it succeeds no later than
    fifteen minutes after the request, and after one success no confirmation
    with it ever succeeds again. *)
Theorem reset_token_once t0 email s tok es now pass es' now' pass' :
  answer (RequestPasswordReset t0 email) s = Ok tok → tok ≠ "" →
  let s0 := exec (RequestPasswordReset t0 email) s in
  tok ∉ reset_text <$> entropy s0 →
  answer (ConfirmPasswordReset now tok pass) (run s0 es) = Ok tt →
  now <= t0 + 15 * minute
  ∧ answer (ConfirmPasswordReset now' tok pass')
      (run (exec (ConfirmPasswordReset now tok pass) (run s0 es)) es') ≠ Ok tt.
Proof.
  intros Ha Hne s0 Hf Hc. destruct (request_ok _ _ _ _ Ha Hne) as [Ht Hr]. fold s0 in Hr.
  assert (reset_at tok (Some (mkReset (normalizeEmail email) (t0 + passwordResetTokenTTL))) s0) as H0.
  { split; [|done]. intros r. by rewrite Hr. }
  apply (reset_run _ _ _ es) in H0. pose proof (confirm_ok _ _ _ _ Hc) as (r & Hl & Hn & Hx). rewrite Ht in *.
  specialize (Hx _ H0). split.
  - destruct H0 as [H0 _]. apply H0 in Hl. injection Hl as <-. done.
  - intros Hagain. apply (reset_run _ _ _ es') in Hx. apply confirm_ok in Hagain as (r' & Hl' & _).
    rewrite Ht in Hl'. by apply Hx in Hl'.
Qed.
End users.

(** ** Examples *)

(** A user is created and a reset asked for; the chunks are a salt, an id and a
    token, then the salt of the new password. *)
Definition ex_pass : string := "Secret123".
Definition ex_pw_chunks : list bytes :=
  [repeat (chr 1) 16; repeat (chr 2) 8; repeat (chr 3) 24; repeat (chr 4) 16; repeat (chr 5) 16].
Definition ex_pw0 : Service Postgres Postgres :=
  (NewService "key" "" 0 0 [] "" ex_pw_chunks) <| persistence := Some ex_pg |>.
Definition ex_create : list event :=
  [At ex_t0 (CCreateUser "a@b.co" "A" ex_pass); At ex_t0 (CUpdateUserPasswordAuth "usr_0202020202020202" false)].
Definition ex_pw1 : Service Postgres Postgres :=
  @run Postgres Postgres _ _ toy_auth toy_aead sorted_range ex_pw0 ex_create.

Lemma users_typed_empty {P V} (s : Service P V) :
  usersByEmail s = ∅ → usersByID s = ∅ → users_typed s.
Proof. intros H1 H2. unfold users_typed. rewrite H1, H2. split; intros ? ?; by rewrite lookup_empty. Qed.

Lemma user_maps_typed_witness :
  users_typed ex_pw0 ∧ size (usersByID ex_pw1) = 1%nat ∧ users_typed ex_pw1.
Proof.
  assert (users_typed ex_pw0) as H0 by by apply users_typed_empty.
  split; [exact H0|]. split; [vm_compute; reflexivity|].
  exact (@user_maps_typed Postgres Postgres _ _ toy_auth toy_aead sorted_range ex_pw0 ex_create H0).
Defined.

Lemma ex_pw1_typed : users_typed ex_pw1.
Proof.
  unfold ex_pw1.
  apply (run_stable (λ _, True) any_token); [intros; apply typed_stable| |apply within_all|by apply users_typed_empty].
  intros _ s _. by apply users_typed_empty.
Qed.

(** The update said [false], and the login is answered with tokens or asks for
    random bytes, never with "disabled". *)
Lemma password_never_disabled_witness :
  users_typed ex_pw1
  ∧ answer (@Login Postgres Postgres _ _ toy_auth toy_aead sorted_range ex_t0 "a@b.co" ex_pass "" None) ex_pw1
    ≠ Err ErrPasswordAuthDisabled.
Proof.
  split; [exact ex_pw1_typed|].
  exact (@password_never_disabled Postgres Postgres _ _ toy_auth toy_aead sorted_range ex_t0 "a@b.co" ex_pass "" None ex_pw1 ex_pw1_typed).
Defined.

#[local] Abbreviation ex_reset := (@RequestPasswordReset Postgres Postgres _ ex_t0 "a@b.co").
Definition ex_token : string := match answer ex_reset ex_pw1 with Ok t => t | Err _ => "" end.
#[local] Abbreviation ex_confirm :=
  (@ConfirmPasswordReset Postgres Postgres _ toy_auth (ex_t0 + minute) ex_token).
#[local] Abbreviation ex_run := (@run Postgres Postgres _ _ toy_auth toy_aead sorted_range).

Lemma ex_token_fresh : ex_token ∉ reset_text <$> entropy (exec ex_reset ex_pw1).
Proof. apply (bool_decide_unpack _). vm_compute. exact Logic.I. Qed.

Lemma reset_token_once_witness :
  answer (ex_confirm "Another456") (ex_run (exec ex_reset ex_pw1) []) = Ok tt
  ∧ ex_t0 + minute <= ex_t0 + 15 * minute
  ∧ answer (ex_confirm "Another456")
      (ex_run (exec (ex_confirm "Another456") (ex_run (exec ex_reset ex_pw1) [])) []) ≠ Ok tt.
Proof.
  assert (answer ex_reset ex_pw1 = Ok ex_token) as H1 by (vm_compute; reflexivity).
  assert (ex_token ≠ "") as H2 by (vm_compute; congruence).
  assert (answer (ex_confirm "Another456") (ex_run (exec ex_reset ex_pw1) []) = Ok tt) as H3
    by (vm_compute; reflexivity).
  split; [exact H3|].
  exact (@reset_token_once Postgres Postgres _ _ toy_auth toy_aead sorted_range
    ex_t0 "a@b.co" ex_pw1 ex_token [] (ex_t0 + minute) "Another456" [] (ex_t0 + minute) "Another456"
    H1 H2 ex_token_fresh H3).
Defined.
