(* ===== verification/AuthMFA.v ===== *)
(** * Multi-factor authentication of the auth service

    The codes of the authenticator are the truncated HMACs of RFC 4226, and one
    is accepted exactly when it is that of the running or a neighbouring half
    minute ([totp_exact]); a secret handed out at enrolment decodes to the bytes
    drawn ([secret_decodes]); a recovery code is spent by the login it admits
    ([recovery_code_spent]); what the database gives back after a restart, with
    rotated vault keys ([mfa_restart]); and an enrolment started after a restart
    switches an enabled second factor off ([enrollment_disables_mfa]). *)

From S2P Require Import Prelude GoStrings GoTime Bytes Encoding Vault AuthStore Auth AuthToy AuthCalls AuthSessions.
#[local] Open Scope string_scope.
#[local] Open Scope list_scope.
#[local] Open Scope Z_scope.

(** ** One-time codes *)

Section totp.
Context {crypto : AuthCrypto} {laws : AuthLaws}.

(** RFC 4226: the four bytes of the MAC at the offset in its last nibble, without
    the sign bit, modulo a million. *)
Definition hotp (key : bytes) (counter : Z) : string :=
  let mac := hmac_sha1 key (put_be 8 counter) in
  let offset := Z.to_nat (get_be (drop 19 mac) mod 16) in
  pad6 (get_be (take 4 (drop offset mac)) mod 2 ^ 31 mod 10 ^ 6).

(** The key a secret stands for. *)
Definition totp_key (secret : string) : option bytes :=
  if is_empty (TrimSpace secret) then None else base32_decode (of_string (ToUpper (TrimSpace secret))).

Lemma byte_at_lookup b i c : b !! i = Some c → byte_at b (Z.of_nat i) = code c.
Proof. intros H. unfold byte_at. by rewrite Nat2Z.id, H. Qed.

(** Shifting and or-ing four bytes together is reading them big-endian. *)
Lemma or_bytes a b c d :
  0 <= a < 128 → 0 <= b < 256 → 0 <= c < 256 → 0 <= d < 256 →
  Z.lor (Z.lor (Z.lor (Z.shiftl a 24) (Z.shiftl b 16)) (Z.shiftl c 8)) d
  = a * 2 ^ 24 + b * 2 ^ 16 + c * 2 ^ 8 + d.
Proof.
  intros Ha Hb Hc Hd.
  assert (∀ x n y, 0 <= n → 0 <= y < 2 ^ n → Z.lor (Z.shiftl x n) y = x * 2 ^ n + y) as Hor.
  { intros x n y Hn Hy. rewrite Z.shiftl_mul_pow2 by lia. rewrite <- Z.add_lor_land.
    replace (Z.land (x * 2 ^ n) y) with 0; [lia|]. symmetry. apply Z.bits_inj_iff'. intros k Hk.
    rewrite Z.land_spec, Z.bits_0, <- Z.shiftl_mul_pow2 by lia.
    destruct (Z.ltb_spec k n).
    - rewrite Z.shiftl_spec_low by lia. done.
    - destruct (Z.eq_dec y 0) as [->|]; [by rewrite Z.bits_0, andb_false_r|].
      pose proof (Z.log2_lt_pow2 y n). rewrite (Z.bits_above_log2 y k) by lia. apply andb_false_r. }
  replace (Z.lor (Z.shiftl a 24) (Z.shiftl b 16)) with (Z.shiftl (a * 2 ^ 8 + b) 16).
  2:{ rewrite <- (Hor a 8 b) by lia. rewrite Z.shiftl_lor, Z.shiftl_shiftl by lia. done. }
  replace (Z.lor (Z.shiftl (a * 2 ^ 8 + b) 16) (Z.shiftl c 8)) with (Z.shiftl ((a * 2 ^ 8 + b) * 2 ^ 8 + c) 8).
  2:{ rewrite <- (Hor (a * 2 ^ 8 + b) 8 c) by lia. rewrite Z.shiftl_lor, Z.shiftl_shiftl by lia. done. }
  rewrite Hor by lia. lia.
Qed.

Lemma put_be_u64 z : put_be 8 (u64 z) = put_be 8 z.
Proof.
  pose proof (put_get_be (put_be 8 z)) as H. rewrite put_be_length, get_put_be in H.
  unfold u64. change (2 ^ 64) with (256 ^ Z.of_nat 8). by rewrite H.
Qed.

Lemma byte_at_app l c r i : Z.of_nat (length l) = i → byte_at (l ++ c :: r) i = code c.
Proof. intros <-. apply byte_at_lookup. by rewrite list_lookup_middle. Qed.

(** A list long enough is cut in three. *)
Lemma cut4 (l : bytes) n : (n + 4 ≤ length l)%nat →
  ∃ a b c d r, l = take n l ++ a :: b :: c :: d :: r.
Proof.
  intros H. pose proof (take_drop n l) as Hl. pose proof (length_drop l n) as Hd.
  destruct (drop n l) as [|a [|b [|c [|d r]]]]; simpl in *; try lia. eauto 10.
Qed.

Theorem totpCodeAt_hotp secret counter key :
  totp_key secret = Some key → totpCodeAt secret counter = Some (hotp key counter).
Proof.
  unfold totp_key, totpCodeAt. replace (is_empty (ToUpper (TrimSpace secret))) with (is_empty (TrimSpace secret))
    by by destruct (TrimSpace secret). destruct (is_empty (TrimSpace secret)); [done|]. intros ->. cbn [mbind option_bind].
  cbv zeta. f_equal. unfold hotp. rewrite put_be_u64.
  set (mac := hmac_sha1 key (put_be 8 counter)). assert (length mac = 20%nat) as Hl by apply hmac_length.
  assert (∃ x, drop 19 mac = [x] ∧ byte_at mac 19 = code x) as (x & Hx & Hb).
  { pose proof (take_drop 19 mac) as Ht. pose proof (length_drop mac 19) as Hd. rewrite Hl in Hd.
    destruct (drop 19 mac) as [|x [|]]; simpl in Hd; try lia. exists x. split; [done|].
    rewrite <- Ht. apply byte_at_app. rewrite length_take. lia. }
  unfold blen. rewrite Hl. change (Z.of_nat 20 - 1) with 19. rewrite Hx, Hb, get_be_singleton.
  change 15 with (Z.ones 4). rewrite (Z.land_ones (code x) 4) by lia. change (2 ^ 4) with 16.
  pose proof (Z.mod_pos_bound (code x) 16 ltac:(lia)) as Ho. set (o := code x mod 16) in *.
  destruct (cut4 mac (Z.to_nat o)) as (a & b & c & d & r & Hm); [lia|].
  assert (Z.of_nat (length (take (Z.to_nat o) mac)) = o) as Hlt by (rewrite length_take; lia).
  set (l := take (Z.to_nat o) mac) in *.
  replace (drop (Z.to_nat o) mac) with (a :: b :: c :: d :: r).
  2:{ rewrite Hm at 1. rewrite drop_app_length'; [done|lia]. }
  rewrite Hm at 1 2 3 4. rewrite byte_at_app by done.
  change (l ++ a :: b :: c :: d :: r) with (l ++ [a] ++ b :: c :: d :: r) at 1.
  rewrite app_assoc, byte_at_app by (rewrite length_app; simpl; lia).
  change (l ++ a :: b :: c :: d :: r) with (l ++ [a; b] ++ c :: d :: r) at 1.
  rewrite app_assoc, byte_at_app by (rewrite length_app; simpl; lia).
  change (l ++ a :: b :: c :: d :: r) with (l ++ [a; b; c] ++ d :: r) at 1.
  rewrite app_assoc, byte_at_app by (rewrite length_app; simpl; lia).
  change 127 with (Z.ones 7). rewrite (Z.land_ones (code a) 7) by lia. change (2 ^ 7) with 128.
  pose proof (code_range a). pose proof (code_range b). pose proof (code_range c). pose proof (code_range d).
  rewrite or_bytes by (try apply Z.mod_pos_bound; lia).
  change (take 4 (a :: b :: c :: d :: r)) with [a; b; c; d]. unfold get_be. cbn [fold_left].
  f_equal. change (10 ^ 6) with 1000000. f_equal.
  pose proof (Z.div_mod (code a) 128 ltac:(lia)). pose proof (Z.mod_pos_bound (code a) 128 ltac:(lia)).
  apply (Z.mod_unique_pos _ _ (code a / 128)); lia.
Qed.

(** A code is six digits. *)
Lemma digit_char_is n : is_digit (digit_char n) = true.
Proof. pose proof (digit_char_digit n) as H. unfold digit in H. by case_match. Qed.

Lemma hotp_text key counter : len (hotp key counter) = 6 ∧ all_chars is_digit (hotp key counter) = true.
Proof.
  unfold hotp, pad6, two. set (n := _ mod 10 ^ 6). split; [done|]. rewrite !all_chars_app. cbn -[digit_char is_digit].
  by rewrite !digit_char_is.
Qed.

Lemma totp_undecoded secret counter : totp_key secret = None → totpCodeAt secret counter = None.
Proof.
  unfold totp_key, totpCodeAt. replace (is_empty (ToUpper (TrimSpace secret))) with (is_empty (TrimSpace secret))
    by by destruct (TrimSpace secret). destruct (is_empty (TrimSpace secret)); [done|]. by intros ->.
Qed.

Lemma totp_match_iff secret key code counters :
  totp_key secret = Some key →
  totp_match secret code counters = true ↔ ∃ c, c ∈ counters ∧ code = hotp key c.
Proof.
  intros Hk. induction counters as [|c counters IH]; cbn [totp_match]; [set_solver|].
  rewrite (totpCodeAt_hotp _ _ _ Hk). destruct (String.eqb_spec (hotp key c) code) as [<-|Hne].
  - split; [|done]. intros _. exists c. by split; [left|].
  - rewrite IH. split.
    + intros (x & Hx & He). exists x. by split; [right|].
    + intros (x & [->|Hx]%elem_of_cons & He); [congruence|]. by exists x.
Qed.

(** A one-time code is accepted exactly when it is the RFC 4226 value of the
    secret for the running half minute or one of its two neighbours; a secret
    that is not base32 accepts nothing. *)
Theorem totp_exact secret code now :
  verifyTOTPCode secret code now = true
  ↔ ∃ key c, totp_key secret = Some key ∧ Z.quot (Unix now) 30 - 1 <= c <= Z.quot (Unix now) 30 + 1
             ∧ TrimSpace code = hotp key c.
Proof.
  unfold verifyTOTPCode. cbv zeta. set (n := Z.quot (Unix now) 30). split.
  - destruct (negb _ || negb _); [done|]. destruct (totp_key secret) as [key|] eqn:Hk.
    + rewrite (totp_match_iff _ _ _ _ Hk). intros (c & Hc & He). exists key, c.
      rewrite !elem_of_cons, elem_of_nil in Hc. split_and!; [done|lia|lia|done].
    + cbn [totp_match]. by rewrite (totp_undecoded _ _ Hk).
  - intros (key & c & Hk & Hc & He). rewrite He. destruct (hotp_text key c) as [-> ->]. cbn [negb orb Z.eqb Pos.eqb].
    apply (totp_match_iff _ _ _ _ Hk). exists c. split; [|done].
    rewrite !elem_of_cons. lia.
Qed.
End totp.

(** The text a secret is handed out as decodes to the random bytes. *)
Definition plain_upper (c : ascii) : bool := visible c && Ascii.eqb (upper_ascii c) c.

Lemma plain_upper_text l :
  (∀ c, c ∈ l → plain_upper c = true) → trimmed (to_string l) ∧ ToUpper (to_string l) = to_string l.
Proof.
  intros H. split.
  - apply visible_trimmed, all_chars_to_string. intros c Hc. by apply H, andb_true_iff in Hc as [? _].
  - induction l as [|c l IH]; [done|].
    change (ToUpper (to_string (c :: l))) with (String (upper_ascii c) (ToUpper (to_string l))).
    rewrite IH by set_solver. pose proof (H c ltac:(left)) as [_ Hc%Ascii.eqb_eq]%andb_true_iff. by rewrite Hc.
Qed.

Lemma secret_decodes raw : raw ≠ [] → totp_key (to_string (base32_encode raw)) = Some raw.
Proof.
  intros Hne. destruct (plain_upper_text (base32_encode raw)) as [Ht Hu].
  { intros c. apply (base32_encode_all (λ c, plain_upper c = true)).
    apply (all_values (λ v, plain_upper (b32_char v))). reflexivity. }
  unfold totp_key. rewrite (TrimSpace_fix _ Ht), Hu, of_to_string, base32_roundtrip.
  destruct (is_empty _) eqn:He; [|done]. apply is_empty_true in He.
  pose proof (base32_roundtrip raw) as Hr. destruct (base32_encode raw); [|done]. by injection Hr as <-.
Qed.

(** ** Recovery codes *)

Section recovery.
Context {P V : Type} {pers : Persistence P} {vol : SessionStore V}.
Context {crypto : AuthCrypto} {cipher : AEAD} {order : MapRange}.
Abbreviation Svc := (Service P V).
Abbreviation m := (op (Service P V) AuthErr).
Implicit Types (s : Service P V).

Definition code_fits (code : string) (c : mfaRecoveryCode) : Prop :=
  Used c = false ∧ bcrypt_compare (CodeHash c) code = true.

(** The first fitting code is marked. *)
Lemma consume_first l1 c l2 code :
  (∀ x, x ∈ l1 → ¬ code_fits code x) → code_fits code c →
  verifyAndConsumeRecoveryCode (l1 ++ c :: l2) code = (l1 ++ c <| Used := true |> :: l2, true).
Proof.
  intros Hl [Hu Hm]. induction l1 as [|x l1 IH]; simpl.
  - by rewrite Hu, Hm.
  - rewrite IH by set_solver.
    destruct (negb (Used x) && bcrypt_compare (CodeHash x) code) eqn:E; [|done].
    apply andb_true_iff in E as [E1%negb_true_iff E2]. exfalso. by apply (Hl x); [left|].
Qed.

Lemma consume_none l code :
  (∀ x, x ∈ l → ¬ code_fits code x) → verifyAndConsumeRecoveryCode l code = (l, false).
Proof.
  intros Hl. induction l as [|x l IH]; [done|]. simpl. rewrite IH by set_solver.
  destruct (negb (Used x) && bcrypt_compare (CodeHash x) code) eqn:E; [|done].
  apply andb_true_iff in E as [E1%negb_true_iff E2]. exfalso. by apply (Hl x); [left|].
Qed.

(** The state kept after a call of the store. *)
Lemma mfa_kept_persistence M {A} (f : op P StoreError A) :
  preserves (λ s, adminMFA s = M) (on_persistence f).
Proof. intros s. rewrite on_persistence_exec. by destruct (persistence s). Qed.
Lemma mfa_kept_rand M n : preserves (E:=AuthErr) (λ s, adminMFA s = M) (rand_read n).
Proof. intros s Hs. unfold exec, rand_read. by destruct (entropy s). Qed.
#[local] Hint Resolve mfa_kept_persistence mfa_kept_rand : opdb.

(** Persisting writes the trimmed state to the map, or fails and leaves it. *)
Lemma persist_mfa i x s :
  adminMFA (exec (persistAdminMFAStateLocked i x) s)
  = match answer (persistAdminMFAStateLocked i x) s with
    | Ok _ => <[TrimSpace i := adminMFAStateForPersistence x]> (adminMFA s)
    | Err _ => adminMFA s
    end.
Proof.
  unfold persistAdminMFAStateLocked. cbv zeta.
  match goal with |- context [fail_if ?b ?e ;; ?f] => set (g := f) end.
  unfold exec, answer. rewrite fail_if_bind. case_match; [done|]. subst g.
  rewrite bind_gets. rewrite bind_op_eq.
  match goal with |- context [when ?b ?f s] => assert (preserves (λ s', adminMFA s' = adminMFA s) (when b f)) as Hp end.
  { unfold encrypt_field. pres_all. }
  specialize (Hp s eq_refl). unfold exec in Hp. destruct (when _ _ s) as [s1 [[]|e]]; simpl in *; [|done].
  by rewrite Hp.
Qed.

Lemma find_cached i s st :
  adminMFA s !! TrimSpace i = Some st → is_empty (TrimSpace i) = false →
  findAdminMFAStateLocked i s = (s, Ok (Some st)).
Proof. intros Hs Hi. unfold findAdminMFAStateLocked. by rewrite Hi, bind_gets, Hs. Qed.

(** An enabled second factor in memory, checked against a code that is no
    one-time code. *)
Lemma enforce_recovery now u code s st :
  adminMFA s !! TrimSpace (uID u) = Some st → is_empty (TrimSpace (uID u)) = false → mfa_active st = true →
  is_empty (TrimSpace code) = false → verifyTOTPCode (Secret st) (TrimSpace code) now = false →
  enforceAdminMFA now u code s
  = (let '(l, matched) := verifyAndConsumeRecoveryCode (RecoveryCodes st) (TrimSpace code) in
     if matched then
       persistAdminMFAStateLocked (uID u) (st <| RecoveryCodes := l |> <| mUpdatedAt := now |>)
         (s <| adminMFA ::= <[TrimSpace (uID u) := st <| RecoveryCodes := l |>]> |>)
     else (s, Err ErrInvalidMFACode)).
Proof.
  intros Hs Hid Hst Hc Ht. unfold enforceAdminMFA, findAdminMFAState. cbv zeta.
  rewrite bind_op_eq, (find_cached _ _ st) by by rewrite ?TrimSpace_idem.
  cbv beta iota. rewrite bind_gets. cbn [default from_option id]. rewrite Hst. cbn [negb].
  rewrite fail_if_bind, Hc, Ht. rewrite bind_op_eq. unfold or_err.
  rewrite (find_cached _ _ st) by by rewrite ?TrimSpace_idem. cbv beta iota.
  rewrite fail_if_bind. assert (Enabled st = true) as -> by (by apply andb_true_iff in Hst as [? _]).
  cbn [negb]. by destruct (verifyAndConsumeRecoveryCode _ _) as [l []].
Qed.

(** A recovery code admits one login.  If exactly one unspent code of a user
    in memory fits what was entered, the check succeeds without a store, marks
    that code and no other, and keeps it marked even when the database refuses
    the write; afterwards the same entry is refused at any time at which it is
    not also a one-time code. *)
Theorem recovery_code_once now u code s st l1 c l2 :
  adminMFA s !! TrimSpace (uID u) = Some st → TrimSpace (uID u) ≠ "" → mfa_active st = true →
  TrimSpace code ≠ "" → verifyTOTPCode (Secret st) (TrimSpace code) now = false →
  RecoveryCodes st = l1 ++ c :: l2 → code_fits (TrimSpace code) c →
  (∀ x, x ∈ l1 ++ l2 → ¬ code_fits (TrimSpace code) x) →
  let s' := exec (enforceAdminMFA now u code) s in
  (persistence s = None → answer (enforceAdminMFA now u code) s = Ok tt)
  ∧ ∃ st', adminMFA s' !! TrimSpace (uID u) = Some st'
    ∧ RecoveryCodes st' = l1 ++ c <| Used := true |> :: l2
    ∧ ∀ later, verifyTOTPCode (Secret st') (TrimSpace code) later = false →
        answer (enforceAdminMFA later u code) s' = Err ErrInvalidMFACode.
Proof.
  intros Hs Hid Hst Hc Ht Hl Hfit Hother. cbv zeta.
  apply is_empty_false in Hid, Hc. pose proof (enforce_recovery now u code s st Hs Hid Hst Hc Ht) as He.
  rewrite Hl, consume_first in He by (try done; intros; apply Hother; set_solver).
  set (st1 := st <| RecoveryCodes := l1 ++ c <| Used := true |> :: l2 |>) in *.
  unfold exec, answer. rewrite He. split.
  { intros Hp. unfold persistAdminMFAStateLocked. cbv zeta. rewrite fail_if_bind, Hid, bind_gets.
    cbn. by rewrite Hp. }
  pose proof (persist_mfa (uID u) (st1 <| mUpdatedAt := now |>) (s <| adminMFA ::= <[TrimSpace (uID u) := st1]> |>)) as Hm.
  set (p := persistAdminMFAStateLocked _ _ _) in *. unfold exec, answer in Hm. fold p in Hm.
  assert (∃ st', adminMFA p.1 !! TrimSpace (uID u) = Some st' ∧ RecoveryCodes st' = RecoveryCodes st1
                 ∧ mfa_active st' = true) as (st' & Hs' & Hr & Ha').
  { rewrite Hm. destruct p.2; cbn.
    - eexists. rewrite lookup_insert_eq. split_and!; [done|done|]. unfold mfa_active in *. cbn. by rewrite TrimSpace_idem.
    - exists st1. by rewrite lookup_insert_eq. }
  exists st'. split_and!; [done|done|]. intros later Hlate.
  erewrite enforce_recovery by done. rewrite Hr. cbn [RecoveryCodes st1 set].
  rewrite consume_none; [done|]. intros x. subst st1. cbn.
  rewrite elem_of_app, elem_of_cons. intros [Hx|[->|Hx]].
  - apply Hother. set_solver.
  - intros [Hu _]. done.
  - apply Hother. set_solver.
Qed.

(** ** Rotation at start-up *)

(** [ReEncryptMFASecrets] right after a start: nothing is in memory, so nothing
    is re-encrypted. *)
Lemma reencrypt_at_start s : adminMFA s = ∅ → ReEncryptMFASecrets s = (s, Ok 0).
Proof.
  intros He. unfold ReEncryptMFASecrets. rewrite !bind_gets.
  destruct (active_vault s); [|done]. destruct (persistence s); [|done]. rewrite bind_gets, He.
  assert (range (∅ : gmap string adminMFAState) = []) as ->; [|done].
  apply Permutation_nil. rewrite range_perm. by rewrite map_to_list_empty.
Qed.
End recovery.

(** ** What the database gives back *)

#[local] Arguments DecryptVersioned : simpl never.
#[local] Arguments decrypt_or_keep : simpl never.

Section database.
Context {V : Type} {vol : SessionStore V}.
Context {crypto : AuthCrypto} {cipher : AEAD} {gcm : GcmLaws} {order : MapRange}.
Implicit Types (s : Service Postgres V) (p : Postgres).

(** The row of a state: its fields trimmed. *)
Definition row_of (x : adminMFAState) : PgMFA :=
  mkPgMFA (TrimSpace (Secret x)) (TrimSpace (PendingSecret x)) (Enabled x) (mUpdatedAt x).

Lemma upsert_mfa_ok i x p :
  answer (Pg.UpsertAuthAdminMFAState i x) p = Ok tt →
  auth_admin_mfa_states (exec (Pg.UpsertAuthAdminMFAState i x) p) !! TrimSpace i = Some (row_of x).
Proof.
  unfold Pg.UpsertAuthAdminMFAState, answer, exec. cbv zeta. rewrite fail_if_bind. case_match; [done|].
  rewrite bind_op_eq. unfold Pg.query. destruct (pg_up p) as [|[] ups]; cbn; intros; try done;
    apply lookup_insert_eq.
Qed.

(** What a field is encrypted to reads back as the field. *)
Lemma encrypt_field_ok (v0 v : Vault) x s y :
  wf_vault v0 → wf_vault v → (∃ ver k, vkeys v !! ver = Some k ∧ vkey k = vkey (current v0)) →
  TrimSpace x = x → answer (encrypt_field (Some (Some v0)) x) s = Ok y →
  TrimSpace y = y ∧ DecryptVersioned (Some v) y = Ok x.
Proof.
  intros Hv0 Hv Hk Hx. unfold encrypt_field. destruct (is_empty x) eqn:He.
  - intros [= <-]. apply is_empty_true in He as ->. done.
  - intros (rand & Hr & Ha & _)%answer_bind_ok.
    destruct rand as [rand|]; [|destruct (EncryptVersioned (Some v0) None x) eqn:E; [|done];
      cbn in E; unfold encryptWithKey in E; by destruct (negb _) in E].
    assert (length rand = 12%nat) as Hlen.
    { unfold answer, try_op, rand_read in Hr. destruct (entropy s) as [|c cs]; [done|].
      destruct (Nat.eqb_spec (length c) 12); simpl in Hr; [|done]. by injection Hr as <-. }
    destruct (EncryptVersioned (Some v0) (Some rand) x) as [enc|e] eqn:E; [|done].
    unfold answer in Ha. cbn in Ha. injection Ha as <-. split.
    + by apply (EncryptVersioned_trimmed v0 rand x).
    + by apply (DecryptVersioned_opens v v0 rand).
Qed.

Lemma wf_active v0 s : secretVault s = Some v0 → wf_vault v0 → active_vault s = Some (Some v0).
Proof.
  intros Hv (Hcur & _). unfold active_vault. rewrite Hv. cbn [IsConfigured].
  replace (size (vkeys v0) =? 0)%nat with false; [done|].
  symmetry. apply Nat.eqb_neq. intros Hz%map_size_empty_inv. by rewrite Hz, lookup_empty in Hcur.
Qed.

Lemma encrypt_field_frame v x s s' r :
  encrypt_field (P:=Postgres) (V:=V) v x s = (s', r) → persistence s' = persistence s ∧ adminMFA s' = adminMFA s.
Proof.
  assert (preserves (λ s', persistence s' = persistence s ∧ adminMFA s' = adminMFA s) (encrypt_field v x)) as H.
  { unfold encrypt_field, rand_read. pres_all. intros s0 Hs0. unfold exec. by destruct (entropy s0). }
  specialize (H s). unfold exec in H. destruct (encrypt_field v x s). intros [= <- <-]. by apply H.
Qed.

(** The write: the row holds the two fields encrypted. *)
Lemma persist_row i x s s' p :
  persistence s = Some p →
  persistAdminMFAStateLocked i x s = (s', Ok tt) →
  ∃ p' sec pen, persistence s' = Some p'
    ∧ auth_admin_mfa_states p' !! TrimSpace i
      = Some (mkPgMFA (TrimSpace sec) (TrimSpace pen) (Enabled x) (mUpdatedAt x))
    ∧ (∃ s1, answer (encrypt_field (active_vault s) (TrimSpace (Secret x))) s1 = Ok sec)
    ∧ (∃ s1, answer (encrypt_field (active_vault s) (TrimSpace (PendingSecret x))) s1 = Ok pen).
Proof.
  intros Hp. unfold persistAdminMFAStateLocked. cbv zeta.
  rewrite fail_if_bind. destruct (is_empty (TrimSpace i)); [done|]. rewrite bind_gets, Hp.
  rewrite bool_decide_eq_true_2 by eauto. unfold when.
  intros (s1 & [] & Hw & Hm)%bind_ok. injection Hm as <-.
  rewrite bind_gets in Hw. cbn [Secret PendingSecret adminMFAStateForPersistence set] in Hw.
  rewrite !TrimSpace_idem in Hw.
  apply bind_ok in Hw as (s2 & sec & Hsec & Hw). destruct (encrypt_field_frame _ _ _ _ _ Hsec) as [Hp2 _].
  apply bind_ok in Hw as (s3 & pen & Hpen & Hw). destruct (encrypt_field_frame _ _ _ _ _ Hpen) as [Hp3 _].
  apply bind_ok in Hw as (s4 & o & Hq & Hret). injection Hret as <-.
  unfold on_persistence in Hq. rewrite Hp3, Hp2, Hp in Hq.
  destruct (UpsertAuthAdminMFAState (TrimSpace i) _ p) as [p' [[]|e]] eqn:E; [|done]. injection Hq as <- <-.
  exists p', sec, pen. split; [done|]. split; [|split; [exists s; unfold answer; by rewrite Hsec|exists s2; unfold answer; by rewrite Hpen]].
  - pose proof (upsert_mfa_ok (TrimSpace i) _ p (f_equal snd E)) as Hr. unfold exec in Hr.
    cbn [UpsertAuthAdminMFAState postgres_persistence] in E. rewrite E in Hr. cbn [fst] in Hr.
    rewrite TrimSpace_idem in Hr. exact Hr.
Qed.

(** What the store answers for a row, when it answers. *)
Lemma find_mfa_row i p row :
  is_empty (TrimSpace i) = false → auth_admin_mfa_states p !! TrimSpace i = Some row →
  match Pg.FindAuthAdminMFAState (TrimSpace i) p with
  | (_, Ok found) => found = Some (mkMFA (TrimSpace (pgSecret row)) (TrimSpace (pgPendingSecret row))
                                     (pgEnabled row) [] (pgUpdatedAt row))
  | (_, Err _) => True
  end.
Proof.
  intros Hi Hrow. unfold Pg.FindAuthAdminMFAState. rewrite TrimSpace_idem, Hi, bind_op_eq. unfold Pg.query.
  destruct (pg_up p) as [|[] ups]; cbn; rewrite ?bind_gets; cbn; by rewrite ?Hrow.
Qed.

(** The state read from a row: its fields decrypted, no recovery code. *)
Definition state_of_row (v : Vault) (row : PgMFA) : adminMFAState :=
  let read x := TrimSpace (decrypt_or_keep (Some (Some v)) (TrimSpace x)) in
  mkMFA (read (pgSecret row)) (read (pgPendingSecret row)) (pgEnabled row) [] (pgUpdatedAt row).

Lemma find_uncached i s p row v y :
  adminMFA s !! TrimSpace i = None → persistence s = Some p → secretVault s = Some v → wf_vault v →
  is_empty (TrimSpace i) = false → auth_admin_mfa_states p !! TrimSpace i = Some row →
  answer (findAdminMFAStateLocked i) s = Ok y → y = Some (state_of_row v row).
Proof.
  intros Hm Hp Hv Hwf Hi Hrow. unfold findAdminMFAStateLocked, answer. rewrite Hi, bind_gets, Hm, bind_op_eq.
  unfold on_persistence. rewrite Hp. cbn [FindAuthAdminMFAState postgres_persistence].
  pose proof (find_mfa_row i p row Hi Hrow) as Hf.
  destruct (Pg.FindAuthAdminMFAState (TrimSpace i) p) as [p2 [found|e]]; [subst found|done].
  rewrite bind_gets, (wf_active v) by done. cbn. intros [= <-]. done.
Qed.

(** The second factor survives a restart under rotated vault keys, except for
    its recovery codes.  After a successful write with an encrypting vault, a new
    process whose vault still has that key reads back the trimmed secrets, the
    switch and the time, and no recovery code. *)
Theorem mfa_restart (v0 v : Vault) i x s s' y :
  wf_vault v0 → wf_vault v → (∃ ver k, vkeys v !! ver = Some k ∧ vkey k = vkey (current v0)) →
  is_Some (persistence s) → secretVault s = Some v0 →
  persistAdminMFAStateLocked i x s = (s', Ok tt) →
  answer (findAdminMFAStateLocked i) (restart s' <| secretVault := Some v |>) = Ok y →
  y = Some (mkMFA (TrimSpace (Secret x)) (TrimSpace (PendingSecret x)) (Enabled x) [] (mUpdatedAt x)).
Proof.
  intros Hv0 Hv Hkey [p Hp] Hs Hw.
  destruct (persist_row i x s s' p Hp Hw) as (p' & sec & pen & Hp' & Hrow & (s1 & Hsec) & (s2 & Hpen)).
  assert (is_empty (TrimSpace i) = false) as Hi.
  { unfold persistAdminMFAStateLocked in Hw. cbv zeta in Hw. rewrite fail_if_bind in Hw. by case_match. }
  rewrite (wf_active v0) in Hsec, Hpen by done.
  apply (encrypt_field_ok v0 v) in Hsec as [Hts Hds], Hpen as [Htp Hdp]; try done; try apply TrimSpace_idem.
  rewrite Hts, Htp in Hrow. intros Hy. eapply find_uncached in Hy; try done.
  rewrite Hy. unfold state_of_row, decrypt_or_keep. cbn [pgSecret pgPendingSecret pgEnabled pgUpdatedAt].
  by rewrite Hts, Htp, Hds, Hdp, !TrimSpace_idem.
Qed.

(** A service with a database whose map of states is [M]. *)
Definition attached_with (M : gmap string adminMFAState) s : Prop := adminMFA s = M ∧ is_Some (persistence s).

Lemma attached_persistence M {A} (f : op Postgres StoreError A) :
  preserves (E:=AuthErr) (attached_with M) (on_persistence (V:=V) f).
Proof. intros s. rewrite on_persistence_exec. unfold attached_with. destruct (persistence s); naive_solver. Qed.
Lemma attached_rand M n : preserves (E:=AuthErr) (attached_with M) (rand_read n).
Proof. intros s Hs. unfold exec, rand_read. by destruct (entropy s). Qed.
Lemma attached_cache M u h : preserves (E:=AuthErr) (attached_with M) (cacheUserLocked u h).
Proof. by apply pres_modify. Qed.
#[local] Hint Resolve attached_persistence attached_rand attached_cache : opdb.

Lemma attached_user M admin i : preserves (attached_with M) (mfa_user admin findUserByIDLocked i).
Proof. unfold mfa_user, the, findUserByIDLocked. pres_all. Qed.
Lemma attached_secret M n : preserves (E:=AuthErr) (attached_with M) (generateTOTPSecret n).
Proof. unfold generateTOTPSecret. pres_all. Qed.

Lemma persist_ok_mfa i x s s' :
  persistAdminMFAStateLocked i x s = (s', Ok tt) →
  adminMFA s' !! TrimSpace i = Some (adminMFAStateForPersistence x) ∧ is_empty (TrimSpace i) = false.
Proof.
  intros Hw. pose proof (persist_mfa i x s) as Hm. unfold exec, answer in Hm. rewrite Hw in Hm.
  cbn in Hm. rewrite Hm, lookup_insert_eq. split; [done|].
  unfold persistAdminMFAStateLocked in Hw. cbv zeta in Hw. rewrite fail_if_bind in Hw. by case_match.
Qed.

(** An enrolment started after a restart switches the second factor off.
    The state is looked up in the memory alone, so whatever the row of the user
    says, a successful start writes a state that is not enabled to the memory
    and to the row, and until it is confirmed every code, or none, passes the
    check of a user who is not required to have a second factor. *)
Theorem enrollment_disables_mfa admin now i iss s s' p r :
  adminMFA s !! TrimSpace i = None → persistence s = Some p →
  StartMFAEnrollment admin now i iss s = (s', Ok r) →
  (∃ p' row, persistence s' = Some p' ∧ auth_admin_mfa_states p' !! TrimSpace i = Some row ∧ pgEnabled row = false)
  ∧ ∀ later u code, TrimSpace (uID u) = TrimSpace i → isAdminRole (uRole u) && adminMFARequired s' = false →
      enforceAdminMFA later u code s' = (s', Ok tt).
Proof.
  intros Hm Hp. unfold StartMFAEnrollment. cbv zeta. rewrite fail_if_bind.
  destruct (is_empty (TrimSpace i)) eqn:Hi; [done|].
  assert (attached_with (adminMFA s) s) as Ha by (split; [done|by eexists]).
  intros (s1 & user & Hu & Hw)%bind_ok. apply (attached_user _ admin (TrimSpace i)) in Ha. unfold exec in Ha. rewrite Hu in Ha. cbn [fst] in Ha.
  apply bind_ok in Hw as (s2 & sec & Hsec & Hw). apply (attached_secret _ 20) in Ha. unfold exec in Ha. rewrite Hsec in Ha.
  destruct Ha as [Hm2 [p2 Hp2]]. rewrite bind_gets in Hw. cbn [fst] in Hm2. rewrite Hm2, Hm in Hw.
  apply bind_ok in Hw as (s3 & [] & Hw & Hret). injection Hret as <- _.
  cbn [fst] in Hp2. pose proof (persist_row _ _ _ _ _ Hp2 Hw) as (p' & se & pe & Hp' & Hrow & _).
  apply persist_ok_mfa in Hw as [Hst _]. rewrite TrimSpace_idem in *.
  split; [by eauto 10|]. intros later u code Hu' Hreq. unfold enforceAdminMFA, findAdminMFAState. cbv zeta.
  rewrite Hu', bind_op_eq, (find_cached _ _ _ ltac:(rewrite TrimSpace_idem; exact Hst)) by by rewrite TrimSpace_idem.
  cbv beta iota. rewrite bind_gets. cbn [default from_option id]. by rewrite Hreq.
Qed.
End database.

(** ** Examples *)

Definition ex_secret : string := " jbswy3dpehpk3pxp ".
Definition ex_code : string := Eval vm_compute in
  default "" (@totpCodeAt toy_auth ex_secret (Unix ex_t0 / 30 + 1)).

Lemma totp_exact_witness :
  @verifyTOTPCode toy_auth ex_secret ex_code ex_t0 = true
  ∧ ∃ key c, totp_key ex_secret = Some key
    ∧ Z.quot (Unix ex_t0) 30 - 1 <= c <= Z.quot (Unix ex_t0) 30 + 1
    ∧ TrimSpace ex_code = @hotp toy_auth key c.
Proof.
  assert (@verifyTOTPCode toy_auth ex_secret ex_code ex_t0 = true) as H by (vm_compute; reflexivity).
  split; [exact H|]. exact (proj1 (@totp_exact toy_auth toy_auth_laws ex_secret ex_code ex_t0) H).
Defined.

(** A user with an enabled second factor and two recovery codes, no database. *)
Definition ex_codes : list mfaRecoveryCode := [mkCode "hAAAA" false; mkCode "hBBBB" false].
Definition ex_factor : adminMFAState := mkMFA ex_secret "" true ex_codes ex_t0.
Definition ex_mfa0 : Service Postgres Postgres := (NewService "key" "" 0 0 [] "" []) <| adminMFA := {["usr_1" := ex_factor]} |>.

Lemma recovery_code_once_witness :
  let s' := exec (@enforceAdminMFA Postgres Postgres _ toy_auth toy_aead sorted_range ex_t0 ex_user "BBBB") ex_mfa0 in
  answer (@enforceAdminMFA Postgres Postgres _ toy_auth toy_aead sorted_range ex_t0 ex_user "BBBB") ex_mfa0 = Ok tt
  ∧ answer (@enforceAdminMFA Postgres Postgres _ toy_auth toy_aead sorted_range ex_later ex_user "BBBB") s'
    = Err ErrInvalidMFACode.
Proof.
  intros s'.
  destruct (@recovery_code_once Postgres Postgres _ toy_auth toy_aead sorted_range ex_t0 ex_user "BBBB" ex_mfa0
    ex_factor [mkCode "hAAAA" false] (mkCode "hBBBB" false) []) as (Hok & st & Hst & _ & Hlater).
  - vm_compute. reflexivity.
  - vm_compute. congruence.
  - vm_compute. reflexivity.
  - vm_compute. congruence.
  - vm_compute. reflexivity.
  - reflexivity.
  - split; vm_compute; reflexivity.
  - intros x Hx. apply list_elem_of_singleton in Hx as ->. intros [_ H]. vm_compute in H. discriminate.
  - split; [apply Hok; vm_compute; reflexivity|]. apply Hlater. vm_compute in Hst. injection Hst as <-.
    vm_compute. reflexivity.
Defined.

(** The factor is written under the vault of [ex_old] and read under that of
    [ex_new], which lists the old master key among its previous ones. *)
Definition ex_vault (v : option Vault) : Vault := default (mkVault (mkKey 0 []) ∅) v.
Definition ex_mfa1 : Service Postgres Postgres :=
  (NewService "key" "" 0 0 [] "" [repeat (chr 1) 12; repeat (chr 2) 12])
  <| persistence := Some ex_pg |> <| secretVault := Some (ex_vault ex_old) |>.
Definition ex_mfa2 : Service Postgres Postgres :=
  exec (@persistAdminMFAStateLocked Postgres Postgres _ toy_aead "usr_1" ex_factor) ex_mfa1.
Definition ex_mfa3 : Service Postgres Postgres := restart ex_mfa2 <| secretVault := Some (ex_vault ex_new) |>.

Lemma ex_old_configured : @configured toy_aead "totp" "old" (ex_vault ex_old).
Proof. by apply conf_single. Qed.
Lemma ex_new_configured : @configured toy_aead "totp" "new" (ex_vault ex_new).
Proof. eapply conf_current; [|reflexivity]. vm_compute. reflexivity. Qed.

Lemma mfa_restart_witness :
  answer (@findAdminMFAStateLocked Postgres Postgres _ toy_aead sorted_range "usr_1") ex_mfa3
  = Ok (Some (mkMFA "jbswy3dpehpk3pxp" "" true [] ex_t0)).
Proof.
  assert (∃ y, answer (@findAdminMFAStateLocked Postgres Postgres _ toy_aead sorted_range "usr_1") ex_mfa3 = Ok y)
    as [y Hy] by (eexists; vm_compute; reflexivity).
  rewrite Hy. do 2 f_equal.
  apply (@mfa_restart Postgres toy_aead toy_gcm_laws sorted_range (ex_vault ex_old) (ex_vault ex_new) "usr_1" ex_factor ex_mfa1 ex_mfa2 y).
  - exact (@configured_wf toy_aead toy_gcm_laws _ _ _ ex_old_configured).
  - exact (@configured_wf toy_aead toy_gcm_laws _ _ _ ex_new_configured).
  - exists 2. eexists. split; vm_compute; reflexivity.
  - eexists. reflexivity.
  - reflexivity.
  - vm_compute. reflexivity.
  - exact Hy.
Defined.

(** The process has restarted; the row still says enabled. *)
Definition ex_mfa4 : Service Postgres Postgres :=
  ex_mfa3 <| entropy := [repeat (chr 3) 20; repeat (chr 4) 12] |>
          <| usersByID := {["usr_1" := ex_user]} |>.
#[local] Abbreviation ex_start := (@StartMFAEnrollment Postgres Postgres _ toy_aead false ex_later "usr_1" "").

Lemma enrollment_disables_mfa_witness :
  pgEnabled <$> (p ← persistence ex_mfa4; auth_admin_mfa_states p !! "usr_1") = Some true
  ∧ @enforceAdminMFA Postgres Postgres _ toy_auth toy_aead sorted_range ex_later ex_user "" (exec ex_start ex_mfa4)
    = (exec ex_start ex_mfa4, Ok tt).
Proof.
  split; [vm_compute; reflexivity|].
  assert (∃ r, answer ex_start ex_mfa4 = Ok r) as [r Hr] by (eexists; vm_compute; reflexivity).
  assert (∃ p, persistence ex_mfa4 = Some p) as [p Hp] by (eexists; vm_compute; reflexivity).
  refine (proj2 (@enrollment_disables_mfa Postgres toy_auth toy_aead sorted_range false ex_later "usr_1" "" ex_mfa4
    (exec ex_start ex_mfa4) p r _ Hp _) ex_later ex_user "" _ _).
  - vm_compute. reflexivity.
  - unfold exec. unfold answer in Hr. rewrite <- Hr. by destruct (ex_start ex_mfa4).
  - vm_compute. reflexivity.
  - vm_compute. reflexivity.
Defined.
