(* ===== verification/ReplayGuard.v ===== *)
(** * The replay guard: an interface

    What the agent's verification code relies on in its nonce cache, without the
    cache's data structure: a guard can be asked for a nonce and told one, it
    stays healthy under a clock that does not go back, and a nonce it was told
    of is remembered until a deadline while the additions made since stay within
    its capacity.  [NonceCache] is the implementation. *)

From S2P Require Import Prelude GoStrings GoTime Bytes.
#[local] Open Scope Z_scope.

Class ReplayGuard (G : Type) := {
  guard_contains : bytes → Z → G → G * bool;
  guard_add : bytes → Z → Z → G → G;
  (** the life of a remembered nonce, and how many can be remembered *)
  guard_ttl : G → Z;
  guard_capacity : G → Z;
  (** healthy at a time no read of the clock has passed *)
  guard_ok : Z → G → Prop;
  (** [guard_holds n d k g]: [n] is remembered until [d], and would still be
      after [k] further additions *)
  guard_holds : bytes → Z → Z → G → Prop;

  guard_ok_later now t g : now <= t → guard_ok now g → guard_ok t g;
  guard_contains_ok now t n g :
    now <= t → guard_ok now g → guard_ok t (fst (guard_contains n t g));
  guard_add_ok now t1 t2 n g :
    now <= t1 → t1 <= t2 → guard_ok now g → guard_ok t2 (guard_add n t1 t2 g);
  guard_contains_pars n t g :
    guard_ttl (fst (guard_contains n t g)) = guard_ttl g
    ∧ guard_capacity (fst (guard_contains n t g)) = guard_capacity g;
  guard_add_pars n t1 t2 g :
    guard_ttl (guard_add n t1 t2 g) = guard_ttl g
    ∧ guard_capacity (guard_add n t1 t2 g) = guard_capacity g;
  guard_contains_again now n t g :
    guard_ok now g →
    snd (guard_contains n t (fst (guard_contains n t g))) = snd (guard_contains n t g);
  guard_add_holds now n t1 t2 g :
    guard_ok now g → now <= t1 → t1 <= t2 → snd (guard_contains n t1 g) = false →
    guard_holds n (t2 + guard_ttl g) (guard_capacity g - 1) (guard_add n t1 t2 g);
  guard_contains_keeps now m t n d k g :
    guard_ok now g → t <= d → guard_holds n d k g → guard_holds n d k (fst (guard_contains m t g));
  guard_add_keeps now m t1 t2 n d k g :
    guard_ok now g → t1 <= d → 0 < k → guard_holds n d k g →
    guard_holds n d (k - 1) (guard_add m t1 t2 g);
  guard_holds_contains now n d k g t :
    guard_ok now g → guard_holds n d k g → t <= d → snd (guard_contains n t g) = true
}.
