(* ===== verification/NonceCache.v ===== *)
(** * The gateway agent's nonce cache (api/cmd/gateway-agent/nonce_cache.go)

    The cache that rejects replayed challenge nonces: a map from the hex of a
    nonce to its expiry, and the same entries in insertion order.  Each call
    reads the clock; [Add] reads it twice (once to evict, once to stamp).  The
    mutex makes each call one atomic step, so a run is a list of calls. *)

From S2P Require Import Prelude GoStrings GoTime Bytes ReplayGuard.
#[local] Open Scope Z_scope.

Record nonceCacheEntry := mkEntry { key : string; expiresAt : Z }.

Record NonceCache := mkCache {
  entries : gmap string Z;
  order : list nonceCacheEntry;
  maxSize : Z;
  ttl : Z
}.

#[export] Instance eta_cache : Eta NonceCache :=
  fun c => mkCache (entries c) (order c) (maxSize c) (ttl c).

Definition NewNonceCache (maxSize ttl : Z) : NonceCache := mkCache ∅ [] maxSize ttl.

(** [evictExpired] at time [now]: the loop stops at the first live entry. *)
Fixpoint evict_front (now : Z) (ord : list nonceCacheEntry) (m : gmap string Z)
  : list nonceCacheEntry * gmap string Z :=
  match ord with
  | e :: ord' =>
      if After now (expiresAt e) then evict_front now ord' (delete (key e) m) else (ord, m)
  | [] => ([], m)
  end.

Definition evictExpired (now : Z) (c : NonceCache) : NonceCache :=
  let '(ord, m) := evict_front now (order c) (entries c) in
  c <| order := ord |> <| entries := m |>.

Definition Contains (nonce : bytes) (now : Z) (c : NonceCache) : NonceCache * bool :=
  let c := evictExpired now c in
  (c, match entries c !! hex_encode nonce with Some _ => true | None => false end).

(** The capacity loop of [Add]: drop the oldest until there is room. *)
Fixpoint evict_oldest (maxSize : Z) (ord : list nonceCacheEntry) (m : gmap string Z)
  : list nonceCacheEntry * gmap string Z :=
  match ord with
  | e :: ord' =>
      if maxSize <=? Z.of_nat (size m) then evict_oldest maxSize ord' (delete (key e) m)
      else (ord, m)
  | [] => ([], m)
  end.

(** [t1] is the clock read by [evictExpired], [t2] the one stamped. *)
Definition Add (nonce : bytes) (t1 t2 : Z) (c : NonceCache) : NonceCache :=
  let k := hex_encode nonce in
  let c := evictExpired t1 c in
  match entries c !! k with
  | Some _ => c
  | None =>
      let '(ord, m) := evict_oldest (maxSize c) (order c) (entries c) in
      let e := t2 + ttl c in
      c <| entries := <[k := e]> m |> <| order := ord ++ [mkEntry k e] |>
  end.

(** ** Well-formed caches *)

Definition pairs (ord : list nonceCacheEntry) : list (string * Z) :=
  (fun e => (key e, expiresAt e)) <$> ord.

(** Expiries in insertion order never decrease. *)
Fixpoint sorted_from (lo : Z) (ord : list nonceCacheEntry) : Prop :=
  match ord with
  | [] => True
  | e :: ord' => lo <= expiresAt e ∧ sorted_from (expiresAt e) ord'
  end.

(** [now] bounds the clock read so far: the map is the ordered list, its keys
    are distinct, it is within capacity, sorted by expiry, and nothing outlives
    [now + ttl]. *)
Record wf (now : Z) (c : NonceCache) : Prop := {
  wf_map : entries c = list_to_map (pairs (order c));
  wf_nodup : NoDup (key <$> order c);
  wf_size : Z.of_nat (length (order c)) <= maxSize c;
  wf_sorted : ∃ lo, sorted_from lo (order c);
  wf_bound : Forall (fun e => expiresAt e <= now + ttl c) (order c);
  wf_room : 0 < maxSize c;
  wf_ttl : 0 <= ttl c
}.

(** One call of the cache, with the clock values it reads. *)
Inductive call := CContains (n : bytes) (t : Z) | CAdd (n : bytes) (t1 t2 : Z).

Definition call_time (k : call) : Z * Z :=
  match k with CContains _ t => (t, t) | CAdd _ t1 t2 => (t1, t2) end.

Definition step (k : call) (c : NonceCache) : NonceCache :=
  match k with
  | CContains n t => fst (Contains n t c)
  | CAdd n t1 t2 => Add n t1 t2 c
  end.

Definition run (ks : list call) (c : NonceCache) : NonceCache := fold_left (fun c k => step k c) ks c.

(** The clock does not go back: the calls read non-decreasing times from [t]. *)
Fixpoint clocked (t : Z) (ks : list call) : Prop :=
  match ks with
  | [] => True
  | k :: ks' => let '(t1, t2) := call_time k in t <= t1 ∧ t1 <= t2 ∧ clocked t2 ks'
  end.

Fixpoint last_time (t : Z) (ks : list call) : Z :=
  match ks with [] => t | k :: ks' => last_time (snd (call_time k)) ks' end.

Definition is_add (k : call) : bool := match k with CAdd _ _ _ => true | _ => false end.
Definition adds (ks : list call) : nat := length (filterb is_add ks).

(** ** Lemmas on the two eviction loops *)

Section eviction.
Implicit Types ord : list nonceCacheEntry.

(** The map is the ordered list and the keys are distinct. *)
Definition mirrors ord (m : gmap string Z) : Prop :=
  m = list_to_map (pairs ord) ∧ NoDup (key <$> ord).

Lemma pairs_fst ord : (pairs ord).*1 = key <$> ord.
Proof. unfold pairs. by rewrite <- list_fmap_compose. Qed.

Lemma mirrors_size ord m : mirrors ord m → size m = length ord.
Proof.
  intros [-> Hnd]. rewrite <- pairs_fst in Hnd.
  rewrite map_size_list_to_map by done. unfold pairs. by rewrite length_fmap.
Qed.

Lemma mirrors_tail e ord m : mirrors (e :: ord) m → mirrors ord (delete (key e) m).
Proof.
  intros [-> Hnd]. apply NoDup_cons in Hnd as [Hni Hnd]. split; [|done].
  simpl. apply delete_insert_id, not_elem_of_list_to_map_1. by rewrite pairs_fst.
Qed.

Lemma mirrors_lookup ord m k x :
  mirrors ord m → m !! k = Some x ↔ mkEntry k x ∈ ord.
Proof.
  intros [-> Hnd]. rewrite <- elem_of_list_to_map by by rewrite pairs_fst.
  unfold pairs. rewrite list_elem_of_fmap. split.
  - intros ([k' x'] & [= -> ->] & H). done.
  - intros H. by exists (mkEntry k x).
Qed.

Lemma evict_front_mirrors now ord m :
  mirrors ord m → mirrors (fst (evict_front now ord m)) (snd (evict_front now ord m)).
Proof.
  revert m; induction ord as [|e ord IH]; intros m H; simpl.
  - destruct H as [-> _]. by split; [|constructor].
  - destruct (After now (expiresAt e)); [|done]. by apply IH, mirrors_tail.
Qed.

Lemma evict_oldest_mirrors M ord m :
  mirrors ord m → mirrors (fst (evict_oldest M ord m)) (snd (evict_oldest M ord m)).
Proof.
  revert m; induction ord as [|e ord IH]; intros m H; simpl.
  - destruct H as [-> _]. by split; [|constructor].
  - destruct (M <=? Z.of_nat (size m)); [|done]. by apply IH, mirrors_tail.
Qed.

Lemma evict_front_suffix now ord m : ∃ d, ord = d ++ fst (evict_front now ord m).
Proof.
  revert m; induction ord as [|e ord IH]; intros m; simpl; [by exists []|].
  destruct (After now (expiresAt e)); [|by exists []].
  destruct (IH (delete (key e) m)) as [d Hd]. exists (e :: d). simpl. by rewrite <- Hd.
Qed.

Lemma evict_oldest_suffix M ord m : ∃ d, ord = d ++ fst (evict_oldest M ord m).
Proof.
  revert m; induction ord as [|e ord IH]; intros m; simpl; [by exists []|].
  destruct (M <=? Z.of_nat (size m)); [|by exists []].
  destruct (IH (delete (key e) m)) as [d Hd]. exists (e :: d). simpl. by rewrite <- Hd.
Qed.

Lemma evict_oldest_room M ord m :
  0 < M → mirrors ord m → Z.of_nat (length (fst (evict_oldest M ord m))) < M.
Proof.
  intros HM. revert m; induction ord as [|e ord IH]; intros m H; simpl; [done|].
  rewrite (mirrors_size _ _ H). destruct (Z.leb_spec M (Z.of_nat (length (e :: ord)))).
  - by apply IH, mirrors_tail.
  - done.
Qed.

(** The loop keeps everything from a live entry on. *)
Lemma evict_front_keeps now pre e suf m :
  now <= expiresAt e →
  ∃ pre', fst (evict_front now (pre ++ e :: suf) m) = pre' ++ e :: suf.
Proof.
  intros He. revert m; induction pre as [|a pre IH]; intros m; simpl.
  - unfold After. destruct (Z.ltb_spec (expiresAt e) now); [lia|]. by exists [].
  - destruct (After now (expiresAt a)); [apply IH|]. by exists (a :: pre).
Qed.

Lemma evict_oldest_keeps M pre e suf m :
  Z.of_nat (length (e :: suf)) < M → mirrors (pre ++ e :: suf) m →
  ∃ pre', fst (evict_oldest M (pre ++ e :: suf) m) = pre' ++ e :: suf.
Proof.
  intros HM. revert m; induction pre as [|a pre IH]; intros m H; simpl.
  - pose proof (mirrors_size _ _ H) as Hs. rewrite app_nil_l in Hs. rewrite Hs.
    destruct (Z.leb_spec M (Z.of_nat (length (e :: suf)))); [lia|]. by exists [].
  - destruct (M <=? Z.of_nat (size m)); [|by exists (a :: pre)].
    by apply IH, mirrors_tail.
Qed.

Lemma sorted_from_weaken lo lo' ord : lo' <= lo → sorted_from lo ord → sorted_from lo' ord.
Proof. destruct ord; simpl; [done|]. intros ? [? ?]. split; [lia|done]. Qed.

Lemma sorted_from_app lo a b :
  sorted_from lo (a ++ b) → ∃ lo', lo <= lo' ∧ sorted_from lo' b.
Proof.
  revert lo; induction a as [|e a IH]; intros lo; simpl; [by exists lo|].
  intros [? (lo' & ? & ?)%IH]. exists lo'. split; [lia|done].
Qed.

Lemma sorted_from_bound lo ord e :
  sorted_from lo ord → e ∈ ord → lo <= expiresAt e.
Proof.
  revert lo; induction ord as [|a ord IH]; intros lo; simpl; [set_solver|].
  intros [? Hs] [->|Hin]%elem_of_cons; [done|]. specialize (IH _ Hs Hin). lia.
Qed.

Lemma sorted_from_snoc lo ord e :
  sorted_from lo ord → Forall (fun a => expiresAt a <= expiresAt e) ord →
  lo <= expiresAt e → sorted_from lo (ord ++ [e]).
Proof.
  revert lo; induction ord as [|a ord IH]; intros lo; simpl; [done|].
  intros [? ?] [? ?]%Forall_cons ?. split; [done|]. by apply IH.
Qed.

(** Under the sort order what [evict_front] leaves is exactly the live part. *)
Lemma evict_front_live now lo ord m e :
  sorted_from lo ord → e ∈ ord →
  e ∈ fst (evict_front now ord m) ↔ now <= expiresAt e ∧ e ∈ ord.
Proof.
  revert lo m; induction ord as [|a ord IH]; intros lo m Hs Hin; simpl; [set_solver|].
  destruct Hs as [Hlo Hs]. unfold After. destruct (Z.ltb_spec (expiresAt a) now) as [Hx|Hx].
  - apply elem_of_cons in Hin as [->|Hin].
    + split; [|lia]. intros Hin. exfalso.
      destruct (evict_front_suffix now ord (delete (key a) m)) as [d Hd].
      assert (a ∈ ord) as Ha by (rewrite Hd; set_solver).
      apply (IH _ (delete (key a) m)) in Hs as [Hs _]; [|done]. by destruct (Hs Hin); lia.
    + rewrite (IH (expiresAt a)) by done. set_solver.
  - split; [|tauto]. intros _. split; [|done].
    apply elem_of_cons in Hin as [->|Hin]; [done|].
    pose proof (sorted_from_bound _ _ _ Hs Hin). lia.
Qed.
End eviction.

(** ** Preservation *)

Lemma wf_new M d now : 0 < M → 0 <= d → wf now (NewNonceCache M d).
Proof.
  intros. split; simpl; try done; try lia; try constructor; try done.
Qed.

Lemma wf_mirrors now c : wf now c → mirrors (order c) (entries c).
Proof. intros H. by split; apply H. Qed.

Lemma suffix_wf now c ord m d :
  wf now c → order c = d ++ ord → mirrors ord m →
  wf now (c <| order := ord |> <| entries := m |>).
Proof.
  intros [H1 H2 H3 [lo H4] H5 H6 H7] Hd [-> Hnd]. rewrite Hd in *.
  split; simpl; try done.
  - rewrite length_app in H3. lia.
  - apply sorted_from_app in H4 as (lo' & _ & ?). by exists lo'.
  - by apply Forall_app in H5 as [_ ?].
Qed.

Lemma evictExpired_wf now now' c : wf now c → wf now (evictExpired now' c).
Proof.
  intros H. unfold evictExpired.
  pose proof (evict_front_mirrors now' _ _ (wf_mirrors _ _ H)) as Hm.
  destruct (evict_front_suffix now' (order c) (entries c)) as [d Hd].
  destruct (evict_front now' (order c) (entries c)) as [ord m]. by eapply suffix_wf.
Qed.

Lemma evictExpired_pars now c :
  maxSize (evictExpired now c) = maxSize c ∧ ttl (evictExpired now c) = ttl c.
Proof. unfold evictExpired. by destruct (evict_front now (order c) (entries c)). Qed.

Lemma wf_later now now' c : now <= now' → wf now c → wf now' c.
Proof.
  intros Hle [H1 H2 H3 H4 H5 H6 H7]. split; try done.
  eapply Forall_impl; [exact H5|]. simpl. intros e He. lia.
Qed.

Lemma Add_fresh_wf now t2 c k :
  now <= t2 → wf now c → entries c !! k = None →
  let '(ord, m) := evict_oldest (maxSize c) (order c) (entries c) in
  wf t2 (c <| entries := <[k := t2 + ttl c]> m |>
           <| order := ord ++ [mkEntry k (t2 + ttl c)] |>).
Proof.
  intros Hle Hwf Hk. pose proof (wf_mirrors _ _ Hwf) as Hm.
  pose proof (evict_oldest_mirrors (maxSize c) _ _ Hm) as Hm'.
  pose proof (evict_oldest_room (maxSize c) _ _ (wf_room _ _ Hwf) Hm) as Hroom.
  destruct (evict_oldest_suffix (maxSize c) (order c) (entries c)) as [d Hd].
  destruct (evict_oldest (maxSize c) (order c) (entries c)) as [ord m]; simpl in *.
  destruct Hwf as [H1 H2 H3 [lo H4] H5 H6 H7].
  assert (k ∉ key <$> ord) as Hfresh.
  { intros Hin. rewrite H1 in Hk. apply not_elem_of_list_to_map_2 in Hk.
    rewrite pairs_fst, Hd, fmap_app in Hk. set_solver. }
  assert (Forall (fun e => expiresAt e <= t2 + ttl c) ord) as Hb.
  { rewrite Hd in H5. apply Forall_app in H5 as [_ H5].
    eapply Forall_impl; [exact H5|]. simpl; intros; lia. }
  destruct Hm' as [-> Hnd]. split; simpl; try done.
  - unfold pairs. rewrite fmap_app. simpl. rewrite list_to_map_snoc; [done|].
    by rewrite <- list_fmap_compose.
  - rewrite fmap_app. apply NoDup_app. split; [done|]. split; [|apply NoDup_singleton].
    intros x Hx ->%list_elem_of_singleton. done.
  - rewrite length_app. simpl. lia.
  - exists (Z.min lo (t2 + ttl c)). rewrite Hd in H4.
    apply sorted_from_app in H4 as (lo' & ? & ?).
    apply sorted_from_snoc; simpl; [|done|lia].
    eapply sorted_from_weaken; [|done]. lia.
  - apply Forall_app. split; [done|]. constructor; [done|constructor].
Qed.

Lemma Add_wf now n t1 t2 c : now <= t1 → t1 <= t2 → wf now c → wf t2 (Add n t1 t2 c).
Proof.
  intros ?? Hwf. unfold Add. apply (evictExpired_wf _ t1) in Hwf.
  destruct (entries _ !! _) eqn:Hk; [by eapply wf_later; [|done]; lia|].
  pose proof (Add_fresh_wf now t2 _ _ ltac:(lia) Hwf Hk) as HA.
  by destruct (evict_oldest _ _ _).
Qed.

Lemma step_wf now k c :
  now <= fst (call_time k) → fst (call_time k) <= snd (call_time k) →
  wf now c → wf (snd (call_time k)) (step k c).
Proof.
  destruct k as [n t|n t1 t2]; simpl; intros ?? Hwf.
  - eapply wf_later; [|by apply evictExpired_wf]. done.
  - by eapply Add_wf.
Qed.

Lemma run_keeps_wf now ks c :
  wf now c → clocked now ks → wf (last_time now ks) (run ks c).
Proof.
  revert now c; induction ks as [|k ks IH]; intros now c Hwf Hck; [done|].
  simpl in *. destruct (call_time k) as [t1 t2] eqn:Hct. destruct Hck as (? & ? & Hck).
  apply IH; [|done]. pose proof (step_wf now k c) as Hs. rewrite Hct in Hs. simpl in Hs. auto.
Qed.

(** Every sequence of cache calls under a clock that does not go back keeps
    the cache well formed: the map and the ordered slice hold the same distinct
    nonces, sorted by expiry, at most [maxSize] of them, none expiring later
    than the clock plus [ttl]. *)
Theorem run_wf now ks c :
  wf now c → clocked now ks → wf (last_time now ks) (run ks c).
Proof. apply run_keeps_wf. Qed.

(** ** Replay protection *)

(** The entry is in the cache with at most [s] newer entries. *)
Definition recent (e : nonceCacheEntry) (s : nat) (c : NonceCache) : Prop :=
  ∃ pre suf, order c = pre ++ e :: suf ∧ (length suf ≤ s)%nat.

Lemma recent_contains now e s c n :
  wf now c → recent e s c → key e = hex_encode n → ∀ t, t <= expiresAt e →
  snd (Contains n t c) = true.
Proof.
  intros Hwf (pre & suf & Hord & _) Hkey t Ht. unfold Contains, evictExpired.
  pose proof (evict_front_mirrors t _ _ (wf_mirrors _ _ Hwf)) as Hm.
  destruct (evict_front_keeps t pre e suf (entries c) Ht) as [pre' Hk].
  rewrite Hord in *. destruct (evict_front t _ _) as [ord m]. simpl in *.
  assert (m !! hex_encode n = Some (expiresAt e)) as ->; [|done].
  apply (mirrors_lookup ord); [done|]. rewrite Hk, <- Hkey. destruct e; set_solver.
Qed.

Lemma recent_evict now e s c t :
  t <= expiresAt e → wf now c → recent e s c → recent e s (evictExpired t c).
Proof.
  intros Ht Hwf (pre & suf & Hord & Hs). unfold evictExpired.
  destruct (evict_front_keeps t pre e suf (entries c) Ht) as [pre' Hk].
  rewrite Hord. destruct (evict_front t _ _) as [ord m]. simpl in *.
  exists pre', suf. by split.
Qed.

Lemma recent_add now e s c n t1 t2 :
  t1 <= expiresAt e → wf now c → Z.of_nat s + 1 < maxSize c →
  recent e s c → recent e (S s) (Add n t1 t2 c).
Proof.
  intros Ht Hwf Hroom Hr. unfold Add.
  destruct (evictExpired_pars t1 c) as [HM _].
  apply (recent_evict now _ _ _ t1) in Hr; [|done..]. apply (evictExpired_wf _ t1) in Hwf.
  destruct (entries _ !! _) eqn:Hk.
  { destruct Hr as (pre & suf & ? & ?). exists pre, suf. split; [done|lia]. }
  destruct Hr as (pre & suf & Hord & Hs). pose proof (wf_mirrors _ _ Hwf) as Hm.
  rewrite HM, Hord in *.
  destruct (evict_oldest_keeps (maxSize c) pre e suf _ ltac:(simpl; lia) Hm) as [pre' Hk'].
  destruct (evict_oldest _ _ _) as [ord m]. simpl in *.
  exists pre', (suf ++ [mkEntry (hex_encode n) (t2 + ttl (evictExpired t1 c))]).
  split; [|rewrite length_app; simpl; lia]. rewrite Hk'. by rewrite <- app_assoc.
Qed.

Lemma step_pars k c : maxSize (step k c) = maxSize c ∧ ttl (step k c) = ttl c.
Proof.
  destruct k as [n t|n t1 t2]; simpl; [apply evictExpired_pars|].
  unfold Add. destruct (evictExpired_pars t1 c) as [? ?].
  destruct (entries _ !! _); [done|]. by destruct (evict_oldest _ _ _).
Qed.

Lemma run_pars ks c : maxSize (run ks c) = maxSize c ∧ ttl (run ks c) = ttl c.
Proof.
  revert c; induction ks as [|k ks IH]; intros c; [done|]. simpl.
  destruct (IH (step k c)) as [-> ->]. apply step_pars.
Qed.

Lemma recent_run ks : ∀ now e s c,
  wf now c → clocked now ks → last_time now ks <= expiresAt e →
  recent e s c → Z.of_nat s + Z.of_nat (adds ks) < maxSize c →
  recent e (s + adds ks) (run ks c).
Proof.
  induction ks as [|k ks IH]; intros now e s c Hwf Hck Hlast Hr Hroom.
  { unfold adds in *; simpl. by rewrite Nat.add_0_r. }
  simpl in Hck, Hlast. destruct (call_time k) as [t1 t2] eqn:Hct.
  destruct Hck as (? & ? & Hck).
  assert (t2 <= last_time t2 ks) as Hmono.
  { clear -Hck. revert t2 Hck; induction ks as [|k ks IH]; simpl; intros t2 Hck; [lia|].
    destruct (call_time k) as [a b]; simpl. destruct Hck as (? & ? & Hck).
    specialize (IH b Hck). lia. }
  pose proof (step_wf now k c) as Hs. rewrite Hct in Hs. simpl in *.
  assert (adds (k :: ks) = ((if is_add k then 1 else 0) + adds ks)%nat) as Hadds.
  { unfold adds. simpl. by destruct (is_add k). }
  rewrite Hadds, Nat.add_assoc in *. simpl.
  apply (IH t2); auto; try (destruct (step_pars k c); lia).
  destruct k as [n t|n a b]; simpl in *; simplify_eq; rewrite ?Nat.add_0_r.
  - eapply recent_evict; eauto. lia.
  - rewrite Nat.add_1_r. eapply recent_add; eauto; lia.
Qed.

Lemma Add_recent now n t1 t2 c :
  wf now c → snd (Contains n t1 c) = false →
  recent (mkEntry (hex_encode n) (t2 + ttl c)) 0 (Add n t1 t2 c).
Proof.
  unfold Contains, Add, recent. simpl. destruct (evictExpired_pars t1 c) as [_ ->].
  destruct (entries _ !! _) eqn:Hk; [done|]. intros _ _.
  destruct (evict_oldest _ _ _) as [ord m]. simpl. by exists ord, [].
Qed.

(** Replay protection. After a nonce that was not in the cache is added at
    [t2], [Contains] answers true for it at every later time up to [t2 + ttl],
    whatever calls come between, as long as fewer than [maxSize] of them are
    additions. *)
Theorem replay_rejected now n t1 t2 ks t c :
  wf now c → now <= t1 → t1 <= t2 → snd (Contains n t1 c) = false →
  clocked t2 ks → Z.of_nat (adds ks) < maxSize c →
  last_time t2 ks <= t2 + ttl c → t <= t2 + ttl c →
  snd (Contains n t (run ks (Add n t1 t2 c))) = true.
Proof.
  intros Hwf H1 H2 Hc Hck Hadds Hlast Ht.
  pose proof (Add_wf now n t1 t2 c H1 H2 Hwf) as Hwf'.
  pose proof (Add_recent now n t1 t2 c Hwf Hc) as Hr.
  destruct (step_pars (CAdd n t1 t2) c) as [HM _]; simpl in HM.
  apply (recent_contains (last_time t2 ks) (mkEntry (hex_encode n) (t2 + ttl c)) (0 + adds ks));
    [by apply run_keeps_wf| |done|done].
  apply (recent_run ks t2); auto. rewrite HM. simpl. lia.
Qed.

Lemma replay_rejected_witness :
  snd (Contains ["a"%char] 25
        (run [CAdd ["b"%char] 12 12; CContains ["b"%char] 20] (Add ["a"%char] 10 10 (NewNonceCache 2 30))))
  = true.
Proof.
  apply (replay_rejected 0 ["a"%char] 10 10 _ 25 (NewNonceCache 2 30));
    [by apply wf_new|lia|lia|reflexivity|vm_compute; intuition congruence|vm_compute; reflexivity
    |vm_compute; congruence|vm_compute; congruence].
Defined.

Lemma run_wf_witness :
  wf 21 (run [CAdd ["b"%char] 12 13; CContains ["b"%char] 21] (NewNonceCache 2 30)).
Proof.
  apply (run_wf 0 [CAdd ["b"%char] 12 13; CContains ["b"%char] 21]); [by apply wf_new|].
  vm_compute; intuition congruence.
Defined.

(** ** Tightness of the capacity bound *)

Lemma evictExpired_order now c : ∃ d, order c = d ++ order (evictExpired now c).
Proof.
  unfold evictExpired. destruct (evict_front_suffix now (order c) (entries c)) as [d Hd].
  exists d. by destruct (evict_front _ _ _).
Qed.

Lemma Add_keys n t1 t2 c k :
  k ∈ key <$> order (Add n t1 t2 c) → k = hex_encode n ∨ k ∈ key <$> order c.
Proof.
  unfold Add. destruct (evictExpired_order t1 c) as [d Hd]. rewrite Hd, fmap_app.
  destruct (entries _ !! _); [set_solver|].
  destruct (evict_oldest_suffix (maxSize (evictExpired t1 c)) (order (evictExpired t1 c))
    (entries (evictExpired t1 c))) as [d' Hd'].
  destruct (evict_oldest _ _ _) as [ord m]. simpl in *. rewrite Hd', !fmap_app. set_solver.
Qed.

Definition adds_at (t : Z) (ms : list bytes) : list call := (fun m => CAdd m t t) <$> ms.

Lemma run_keys t ms c k :
  k ∈ key <$> order (run (adds_at t ms) c) → k ∈ hex_encode <$> ms ∨ k ∈ key <$> order c.
Proof.
  revert c; induction ms as [|m ms IH]; intros c; simpl; [by right|].
  intros [?|[->|?]%Add_keys]%IH; set_solver.
Qed.

Lemma clocked_adds t ms : clocked t (adds_at t ms) ∧ last_time t (adds_at t ms) = t.
Proof. induction ms as [|m ms [IH1 IH2]]; simpl; [done|]. split; [|done]. split_and!; done || lia. Qed.

Lemma adds_length t ms : adds (adds_at t ms) = length ms.
Proof. induction ms as [|m ms IH]; unfold adds in *; simpl; [done|]. by rewrite IH. Qed.

Lemma absent_not_contained now c n t :
  wf now c → hex_encode n ∉ key <$> order c → snd (Contains n t c) = false.
Proof.
  intros Hwf Hni. unfold Contains. simpl.
  pose proof (wf_mirrors _ _ (evictExpired_wf _ t _ Hwf)) as Hm.
  destruct (entries (evictExpired t c) !! hex_encode n) eqn:Hl; [|done].
  exfalso. apply (mirrors_lookup (order (evictExpired t c))) in Hl; [|done].
  destruct (evictExpired_order t c) as [d Hd]. apply Hni. rewrite Hd, fmap_app.
  apply elem_of_app; right. by apply (list_elem_of_fmap_2 key) in Hl.
Qed.

(** Every one of at most [maxSize] fresh distinct nonces added at [t] is kept. *)
Lemma adds_kept t ms c :
  wf t c → NoDup ms → (∀ m, m ∈ ms → hex_encode m ∉ key <$> order c) →
  Z.of_nat (length ms) <= maxSize c →
  ∀ m, m ∈ ms → hex_encode m ∈ key <$> order (run (adds_at t ms) c).
Proof.
  intros Hwf Hnd Hfresh Hlen m Hm. apply list_elem_of_split in Hm as (l1 & l2 & ->).
  assert (adds_at t (l1 ++ m :: l2) = adds_at t l1 ++ CAdd m t t :: adds_at t l2) as ->.
  { unfold adds_at. by rewrite fmap_app. }
  unfold run. rewrite fold_left_app. cbn [fold_left step].
  fold (run (adds_at t l1) c). set (c1 := run (adds_at t l1) c).
  fold (run (adds_at t l2) (Add m t t c1)).
  destruct (clocked_adds t l1) as [Hc1 Ht1]. destruct (clocked_adds t l2) as [Hc2 Ht2].
  assert (wf t c1) as Hwf1 by (rewrite <- Ht1; by apply run_keeps_wf).
  destruct (run_pars (adds_at t l1) c) as [HM HT]. fold c1 in HM, HT.
  rewrite length_app in Hlen. simpl in Hlen.
  apply NoDup_app in Hnd as (Hnd1 & Hdisj & Hnd2). apply NoDup_cons in Hnd2 as [Hm2 Hnd2].
  assert (snd (Contains m t c1) = false) as Hnot.
  { apply (absent_not_contained t); [done|]. intros [Hin|Hin]%run_keys.
    - apply list_elem_of_fmap in Hin as (x & Hx%hex_encode_inj & ?). subst.
      by apply (Hdisj x); [|left].
    - by apply (Hfresh m); [set_solver|]. }
  pose proof (Add_recent t m t t c1 Hwf1 Hnot) as Hr.
  pose proof (Add_wf t m t t c1 ltac:(lia) ltac:(lia) Hwf1) as Hwf2.
  destruct (step_pars (CAdd m t t) c1) as [HM' _]; simpl in HM'.
  eapply (recent_run (adds_at t l2) t) in Hr as (pre & suf & -> & _); [|done|done| |].
  - rewrite fmap_app. set_solver.
  - rewrite Ht2. simpl. pose proof (wf_ttl _ _ Hwf1). lia.
  - rewrite adds_length. lia.
Qed.

(** The capacity bound of [replay_rejected] is tight. A cache of capacity
    [M] forgets a nonce as soon as [M] other distinct nonces have been added,
    even at the very same instant: within its life the nonce is accepted again. *)
Theorem capacity_forgets n t ms M d :
  0 < M → 0 <= d → Z.of_nat (length ms) = M → NoDup (n :: ms) →
  snd (Contains n t (run (adds_at t ms) (Add n t t (NewNonceCache M d)))) = false.
Proof.
  intros HM Hd Hlen [Hn Hnd]%NoDup_cons.
  set (c0 := Add n t t (NewNonceCache M d)).
  assert (wf t c0) as Hwf0 by (apply (Add_wf t); [lia|lia|by apply wf_new]).
  assert (∀ m, m ∈ ms → hex_encode m ∉ key <$> order c0) as Hfresh.
  { intros m Hm [Heq%hex_encode_inj|Hin]%Add_keys; [congruence|]. simpl in Hin. set_solver. }
  destruct (step_pars (CAdd n t t) (NewNonceCache M d)) as [HM0 _]; simpl in HM0; fold c0 in HM0.
  destruct (clocked_adds t ms) as [Hck Ht].
  assert (wf t (run (adds_at t ms) c0)) as Hwf by (rewrite <- Ht at 1; by apply run_keeps_wf).
  apply (absent_not_contained t); [done|]. intros Hin.
  pose proof (adds_kept t ms c0 Hwf0 Hnd Hfresh ltac:(lia)) as Hkept.
  destruct (run_pars (adds_at t ms) c0) as [HMr _]. pose proof (wf_size _ _ Hwf) as Hsize.
  assert (length (hex_encode <$> (n :: ms)) ≤ length (key <$> order (run (adds_at t ms) c0)))%nat as Hle.
  { apply submseteq_length, NoDup_submseteq.
    - apply NoDup_fmap_2; [|by constructor]. intros a b. apply hex_encode_inj.
    - intros k (m & -> & [->|Hm]%elem_of_cons)%list_elem_of_fmap; [done|by apply Hkept]. }
  rewrite !length_fmap in Hle. simpl in Hle. lia.
Qed.

Lemma capacity_forgets_witness :
  snd (Contains ["a"%char] 10
    (run (adds_at 10 [["b"%char]; ["c"%char]]) (Add ["a"%char] 10 10 (NewNonceCache 2 30)))) = false.
Proof.
  apply (capacity_forgets ["a"%char] 10 [["b"%char]; ["c"%char]] 2 30);
    [lia|lia|reflexivity|].
  repeat constructor; set_solver.
Defined.

(** ** The cache is a replay guard *)

Lemma evict_front_again now ord m ord' m' m'' :
  evict_front now ord m = (ord', m') → evict_front now ord' m'' = (ord', m'').
Proof.
  revert m; induction ord as [|e ord IH]; intros m; simpl; [by intros [= <- _]|].
  destruct (After now (expiresAt e)) eqn:He; [by apply IH|]. intros [= <- <-]. simpl. by rewrite He.
Qed.

Lemma evictExpired_again now c : evictExpired now (evictExpired now c) = evictExpired now c.
Proof.
  unfold evictExpired. destruct (evict_front now (order c) (entries c)) as [ord m] eqn:He. simpl.
  by rewrite (evict_front_again _ _ _ _ _ _ He).
Qed.

#[export, program] Instance nonce_cache_guard : ReplayGuard NonceCache := {|
  guard_contains := Contains;
  guard_add := Add;
  guard_ttl := ttl;
  guard_capacity := maxSize;
  guard_ok := wf;
  guard_holds := λ n d k c,
    0 <= k ∧ ∃ s, recent (mkEntry (hex_encode n) d) s c ∧ Z.of_nat s + k < maxSize c
|}.
Next Obligation. intros. by eapply wf_later. Qed.
Next Obligation.
  intros now t n g Ht Hwf. unfold Contains. simpl. by eapply wf_later, evictExpired_wf.
Qed.
Next Obligation. intros. by eapply Add_wf. Qed.
Next Obligation. intros n t g. destruct (step_pars (CContains n t) g). done. Qed.
Next Obligation. intros n t1 t2 g. destruct (step_pars (CAdd n t1 t2) g). done. Qed.
Next Obligation. intros now n t c _. unfold Contains. simpl. by rewrite evictExpired_again. Qed.
Next Obligation.
  intros now n t1 t2 c Hwf H1 H2 Hc. pose proof (wf_room _ _ Hwf). split; [lia|].
  exists 0%nat. split; [by eapply Add_recent|].
  destruct (step_pars (CAdd n t1 t2) c) as [HM _]; simpl in HM. rewrite HM. lia.
Qed.
Next Obligation.
  intros now m t n d k c Hwf Ht (Hk & s & Hr & Hs). split; [done|]. exists s.
  destruct (step_pars (CContains m t) c) as [HM _]; simpl in HM.
  split; [by eapply recent_evict|]. simpl. by rewrite HM.
Qed.
Next Obligation.
  intros now m t1 t2 n d k c Hwf Ht Hk (_ & s & Hr & Hs). split; [lia|]. exists (S s).
  destruct (step_pars (CAdd m t1 t2) c) as [HM _]; simpl in HM.
  split; [eapply recent_add; eauto; lia|]. rewrite HM. lia.
Qed.
Next Obligation.
  intros now n d k c t Hwf (_ & s & Hr & _) Ht. by eapply recent_contains.
Qed.
