(* ===== verification/Wire.v ===== *)
(** * BLE and NFC wire protocols (ble_protocol.go, nfc_protocol.go)

    Challenges, signed responses, results and APDUs as the gateway agent encodes
    and decodes them, and the signature checks.  The primitives of
    [crypto/...] (PEM and PKIX parsing, SHA-256, ECDSA) are the fields of the
    class [Crypto]; what the agent builds around them is defined here. *)

From S2P Require Import Prelude GoStrings GoTime Bytes.
#[local] Open Scope Z_scope.

(** ** Constants *)

Definition BLEResultGranted : Z := 0x01.
Definition BLEResultDenied : Z := 0x02.
Definition BLEResultExpiredChallenge : Z := 0x03.
Definition BLEResultInvalidSignature : Z := 0x04.
Definition BLEResultUnknownUser : Z := 0x05.

Definition ChallengeV2Size : nat := 52.
Definition TransportTagBLE : string := "BLE".
Definition TransportTagNFCHCE : string := "NFC_HCE".
Definition challengeValidDuration : Z := 30 * second.

(** ** Challenges *)

(** [Nonce] is a [[32]byte] in Go: see [challenge_ok]. *)
Record BLEChallenge := mkBLEChallenge { Nonce1 : bytes; IssuedAt1 : Z; ExpiresAt1 : Z }.

Definition Encode1 (c : BLEChallenge) : bytes :=
  take 32 (Nonce1 c) ++ put_be 8 (u64 (Unix (IssuedAt1 c))) ++ put_be 8 (u64 (Unix (ExpiresAt1 c))).

Definition IsExpired1 (now : Z) (c : BLEChallenge) : bool := After now (ExpiresAt1 c).

Record BLEChallengeV2 := mkBLEChallengeV2 {
  Nonce : bytes; IssuedAt : Z; ExpiresAt : Z; GatewayID : Z
}.

(** [rnd] is what [rand.Read] put in the nonce, [None] when it failed. *)
Definition NewBLEChallengeV2 (rnd : option bytes) (now gatewayID : Z) : result string BLEChallengeV2 :=
  match rnd with
  | None => Err "generate nonce"
  | Some nonce => Ok (mkBLEChallengeV2 nonce now (now + challengeValidDuration) gatewayID)
  end.

Definition EncodeV2 (c : BLEChallengeV2) : bytes :=
  take 32 (Nonce c) ++ put_be 8 (u64 (Unix (IssuedAt c)))
  ++ put_be 8 (u64 (Unix (ExpiresAt c))) ++ put_be 4 (GatewayID c).

Definition DecodeBLEChallengeV2 (data : bytes) : result string BLEChallengeV2 :=
  if negb (Nat.eqb (length data) ChallengeV2Size) then Err "v2 challenge must be 52 bytes"
  else Ok {| Nonce := take 32 data;
             IssuedAt := wrap64 (get_be (slice 32 40 data)) * second;
             ExpiresAt := wrap64 (get_be (slice 40 48 data)) * second;
             GatewayID := get_be (slice 48 52 data) |}.

Definition IsExpiredV2 (now : Z) (c : BLEChallengeV2) : bool := After now (ExpiresAt c).

(** What a [BLEChallengeV2] value can be: 32 bytes, [int64] seconds, a [uint32]. *)
Definition challenge_ok (c : BLEChallengeV2) : Prop :=
  length (Nonce c) = 32%nat
  ∧ min_int64 <= Unix (IssuedAt c) <= max_int64
  ∧ min_int64 <= Unix (ExpiresAt c) <= max_int64
  ∧ 0 <= GatewayID c < 2 ^ 32.

Definition truncate_seconds (c : BLEChallengeV2) : BLEChallengeV2 :=
  mkBLEChallengeV2 (Nonce c) (Unix (IssuedAt c) * second) (Unix (ExpiresAt c) * second) (GatewayID c).

(** ** Responses and results *)

Record BLEAuthResponse := mkResp { UserID : string; Signature : bytes }.

Definition DecodeBLEAuthResponse (data : bytes) : result string BLEAuthResponse :=
  if blen data <? 3 then Err "auth response too short"
  else match data with
  | [] => Err "auth response too short"
  | c :: _ =>
      let userIDLen := code c in
      if (userIDLen =? 0) || (blen data <=? 1 + userIDLen)
      then Err "invalid user_id length in auth response"
      else
        let n := Z.to_nat userIDLen in
        let signature := drop (1 + n) data in
        if blen signature =? 0 then Err "empty signature in auth response"
        else Ok (mkResp (to_string (slice 1 (1 + n) data)) signature)
  end.

Definition EncodeBLEAuthResponse (userID : string) (signature : bytes) : bytes :=
  chr (len userID) :: of_string userID ++ signature.

Record BLEAuthResult := mkResult { Code : Z; Reason : string }.

Definition EncodeResult (r : BLEAuthResult) : bytes := chr (Code r) :: of_string (Reason r).

(** ** APDUs *)

Definition NFCAID : bytes := chr <$> [0xF0; 0x4D; 0x49; 0x53; 0x54; 0x59; 0x01; 0x00].

Definition BuildSelectAID : bytes :=
  (chr <$> [0x00; 0xA4; 0x04; 0x00; blen NFCAID]) ++ NFCAID ++ [chr 0].

Definition BuildAuthenticate (challenge : bytes) : result string bytes :=
  if negb (Nat.eqb (length challenge) ChallengeV2Size) then Err "challenge must be 52 bytes"
  else Ok ((chr <$> [0x80; 0x88; 0x00; 0x00; Z.of_nat ChallengeV2Size]) ++ challenge ++ [chr 0]).

Definition ParseAPDUResponse (resp : bytes) : result string (bytes * Z) :=
  if Nat.ltb (length resp) 2 then Err "APDU response too short"
  else Ok (take (length resp - 2) resp, get_be (drop (length resp - 2) resp)).

Definition ParseNFCAuthResponse (data : bytes) : result string BLEAuthResponse :=
  if blen data <? 2 then Err "auth response too short"
  else match data with
  | [] => Err "auth response too short"
  | c :: _ =>
      let userIDLen := code c in
      if blen data <? 1 + userIDLen + 1 then Err "auth response truncated"
      else if 180 <? userIDLen then Err "userId too long"
      else
        let n := Z.to_nat userIDLen in
        let signature := drop (1 + n) data in
        if blen signature <? 64 then Err "signature too short"
        else Ok (mkResp (to_string (slice 1 (1 + n) data)) signature)
  end.

(** ** Signatures *)

(** The calls into [crypto/...] and [encoding/pem]. *)
Class Crypto := {
  AnyKey : Type;
  ECKey : Type;
  pem_decode : string → option bytes;          (* pem.Decode: the first block *)
  ParsePKIXPublicKey : bytes → result string AnyKey;
  as_ecdsa : AnyKey → option ECKey;            (* the type assertion to an ECDSA key *)
  curve_name : ECKey → string;
  Sum256 : bytes → bytes;
  VerifyASN1 : ECKey → bytes → bytes → bool;
  VerifyRS : ECKey → bytes → Z → Z → bool
}.

Section signatures.
Context `{!Crypto}.

Definition parseBLEPublicKey (pemStr : string) : result string ECKey :=
  match pem_decode pemStr with
  | None => Err "failed to decode PEM block"
  | Some block =>
      pub ← ParsePKIXPublicKey block;
      match as_ecdsa pub with
      | None => Err "not an EC public key"
      | Some ecPub =>
          if negb (String.eqb (curve_name ecPub) "P-256")
          then Err ("expected P-256, got " +:+ curve_name ecPub)
          else Ok ecPub
      end
  end.

(** DER first, then raw [r || s] of 64 bytes. *)
Definition verify_hash (pubKey : ECKey) (hash signature : bytes) : bool :=
  VerifyASN1 pubKey hash signature
  || (Nat.eqb (length signature) 64
      && VerifyRS pubKey hash (get_be (take 32 signature)) (get_be (drop 32 signature))).

Definition message1 (nonce : bytes) (userID : string) : bytes := nonce ++ of_string userID.
Definition message2 (nonce : bytes) (userID transportTag : string) : bytes :=
  nonce ++ of_string userID ++ of_string transportTag.

Definition verify_message (publicKeyPEM : string) (msg signature : bytes) : result string unit :=
  match parseBLEPublicKey publicKeyPEM with
  | Err e => Err ("parse public key: " +:+ e)
  | Ok pubKey =>
      if verify_hash pubKey (Sum256 msg) signature then Ok tt
      else Err "ECDSA signature verification failed"
  end.

Definition VerifyBLESignature (publicKeyPEM : string) (nonce : bytes) (userID : string)
    (signature : bytes) : result string unit :=
  verify_message publicKeyPEM (message1 nonce userID) signature.

Definition VerifyBLESignatureV2 (publicKeyPEM : string) (nonce : bytes)
    (userID transportTag : string) (signature : bytes) : result string unit :=
  verify_message publicKeyPEM (message2 nonce userID transportTag) signature.
End signatures.

(** ** Round trips *)

Lemma unix_seconds z : Unix (z * second) = z.
Proof. apply Z.div_mul. unfold second; lia. Qed.

Lemma wrap_u64 z : min_int64 <= z <= max_int64 → wrap64 (u64 z) = z.
Proof.
  unfold wrap64, u64, min_int64, max_int64. intros H.
  rewrite Z.add_mod_idemp_l by lia. rewrite Z.mod_small; lia.
Qed.

Lemma get_put_u64 z : min_int64 <= z <= max_int64 → wrap64 (get_be (put_be 8 (u64 z))) = z.
Proof.
  intros H. rewrite get_put_be. change (256 ^ Z.of_nat 8) with (2 ^ 64).
  unfold u64 at 1. rewrite Z.mod_mod by lia. by apply wrap_u64.
Qed.

Lemma EncodeV2_length c : length (Nonce c) = 32%nat → length (EncodeV2 c) = ChallengeV2Size.
Proof. intros H. unfold EncodeV2. rewrite !length_app, !put_be_length, length_take, H. done. Qed.

Lemma u64_wrap x : 0 <= x < 2 ^ 64 → u64 (wrap64 x) = x.
Proof.
  unfold wrap64, u64. intros H. rewrite Zminus_mod_idemp_l.
  replace (x + 2 ^ 63 - 2 ^ 63) with x by lia. by apply Z.mod_small.
Qed.

Lemma put_get_seconds b :
  length b = 8%nat → put_be 8 (u64 (Unix (wrap64 (get_be b) * second))) = b.
Proof.
  intros H. rewrite unix_seconds, u64_wrap; [rewrite <- H; apply put_get_be|].
  pose proof (get_be_range b) as Hr. unfold blen in Hr. by rewrite H in Hr.
Qed.

Lemma encode_decode data c :
  DecodeBLEChallengeV2 data = Ok c → EncodeV2 c = data.
Proof.
  unfold DecodeBLEChallengeV2. destruct (Nat.eqb_spec (length data) ChallengeV2Size) as [Hl|]; [|done].
  unfold ChallengeV2Size in Hl. intros [= <-]. unfold EncodeV2.
  cbn [Nonce IssuedAt ExpiresAt GatewayID].
  rewrite !put_get_seconds by (apply slice_length; lia).
  rewrite take_take, Nat.min_id.
  assert (put_be 4 (get_be (slice 48 52 data)) = slice 48 52 data) as ->.
  { assert (length (slice 48 52 data) = 4%nat) as H by (apply slice_length; lia).
    rewrite <- H at 1. apply put_get_be. }
  rewrite !slice_take_drop by lia.
  change (take 32 data) with (slice 0 32 data). rewrite slice_take_drop by lia.
  unfold slice. rewrite drop_0. apply take_ge. lia.
Qed.

Lemma decode_encode c :
  challenge_ok c → DecodeBLEChallengeV2 (EncodeV2 c) = Ok (truncate_seconds c).
Proof.
  intros (Hn & Hi & He & Hg).
  unfold DecodeBLEChallengeV2. rewrite EncodeV2_length by done. simpl negb. cbv iota.
  unfold EncodeV2, truncate_seconds. rewrite (take_ge (Nonce c)) by lia. f_equal. f_equal.
  - by rewrite take_app_le, take_ge by lia.
  - rewrite slice_app by (rewrite ?put_be_length; lia). by rewrite get_put_u64.
  - rewrite app_assoc, slice_app by (rewrite ?length_app, ?put_be_length; lia).
    by rewrite get_put_u64.
  - rewrite !app_assoc, slice_end by (rewrite ?length_app, ?put_be_length; lia).
    rewrite get_put_be. change (256 ^ Z.of_nat 4) with (2 ^ 32). apply Z.mod_small. lia.
Qed.

(** The v2 challenge codec. Decoding an encoded challenge gives it back with
    its two instants truncated to whole seconds; encoding what any bytes decode
    to gives those bytes back; exactly the 52-byte inputs decode. *)
Theorem challenge_roundtrip :
  (∀ c, challenge_ok c → DecodeBLEChallengeV2 (EncodeV2 c) = Ok (truncate_seconds c))
  ∧ (∀ data c, DecodeBLEChallengeV2 data = Ok c → EncodeV2 c = data)
  ∧ (∀ data, is_ok (DecodeBLEChallengeV2 data) = true ↔ length data = 52%nat).
Proof.
  split_and!; [apply decode_encode|apply encode_decode|]. intros data.
  unfold DecodeBLEChallengeV2. by destruct (Nat.eqb_spec (length data) ChallengeV2Size).
Qed.

(** ** Signed responses *)

Lemma response_split {A} (data : list A) n :
  data ≠ [] → take 1 data ++ slice 1 (1 + n) data ++ drop (1 + n) data = data.
Proof.
  intros. destruct data as [|c data]; [done|]. unfold slice. simpl.
  rewrite drop_0, Nat.sub_0_r. by rewrite take_drop.
Qed.

Lemma of_string_slice (data : bytes) n :
  (1 + n ≤ length data)%nat → String.length (to_string (slice 1 (1 + n) data)) = n.
Proof. intros. rewrite <- of_string_length, of_to_string, slice_length; lia. Qed.

(** What both response parsers return when they succeed. *)
Definition response_of (data : bytes) (r : BLEAuthResponse) : Prop :=
  data = EncodeBLEAuthResponse (UserID r) (Signature r) ∧ len (UserID r) < 256.

Lemma response_of_prefix c data :
  let n := Z.to_nat (code c) in
  1 + code c <= blen (c :: data) →
  response_of (c :: data) (mkResp (to_string (slice 1 (1 + n) (c :: data))) (drop (1 + n) (c :: data))).
Proof.
  intros n Hlen. unfold response_of, EncodeBLEAuthResponse, len. cbn [UserID Signature].
  pose proof (code_range c). unfold blen in Hlen.
  rewrite of_string_slice by (subst n; lia). subst n. rewrite Z2Nat.id by lia.
  split; [|lia]. rewrite chr_code, of_to_string.
  symmetry. by apply (response_split (c :: data)).
Qed.

Lemma decode_encoded uid sig :
  len uid < 256 →
  (let data := EncodeBLEAuthResponse uid sig in
   1 ≤ len uid → sig ≠ [] → DecodeBLEAuthResponse data = Ok (mkResp uid sig))
  ∧ (let data := EncodeBLEAuthResponse uid sig in
     len uid <= 180 → 64 <= blen sig → ParseNFCAuthResponse data = Ok (mkResp uid sig)).
Proof.
  intros Hlt. unfold EncodeBLEAuthResponse, len in *. cbv zeta.
  assert (code (chr (Z.of_nat (String.length uid))) = Z.of_nat (String.length uid)) as Hc
    by (rewrite code_chr, Z.mod_small; lia).
  assert (blen (chr (Z.of_nat (String.length uid)) :: of_string uid ++ sig)
          = 1 + Z.of_nat (String.length uid) + blen sig) as Hb.
  { unfold blen. cbn [length]. rewrite length_app, of_string_length. lia. }
  assert (∀ x, slice 1 (1 + String.length uid) (x :: of_string uid ++ sig) = of_string uid) as Hs.
  { intros x. unfold slice. simpl. rewrite drop_0, Nat.sub_0_r, <- of_string_length.
    apply take_app_length. }
  assert (∀ x, drop (1 + String.length uid) (x :: of_string uid ++ sig) = sig) as Hd.
  { intros x. simpl. rewrite <- of_string_length. apply drop_app_length. }
  split.
  - intros Hu Hsig. assert (0 < blen sig) by (unfold blen; destruct sig; [done|simpl; lia]).
    unfold DecodeBLEAuthResponse. rewrite Hb, Hc, Nat2Z.id, Hs, Hd, to_of_string.
    destruct (Z.ltb_spec (1 + Z.of_nat (String.length uid) + blen sig) 3); [lia|].
    destruct (Z.eqb_spec (Z.of_nat (String.length uid)) 0); [lia|]. cbn [orb].
    destruct (Z.leb_spec (1 + Z.of_nat (String.length uid) + blen sig)
      (1 + Z.of_nat (String.length uid))); [lia|].
    destruct (Z.eqb_spec (blen sig) 0); [lia|]. done.
  - intros Hu Hsig. unfold ParseNFCAuthResponse. rewrite Hb, Hc, Nat2Z.id, Hs, Hd, to_of_string.
    destruct (Z.ltb_spec (1 + Z.of_nat (String.length uid) + blen sig) 2); [lia|].
    destruct (Z.ltb_spec (1 + Z.of_nat (String.length uid) + blen sig)
      (1 + Z.of_nat (String.length uid) + 1)); [lia|].
    destruct (Z.ltb_spec 180 (Z.of_nat (String.length uid))); [lia|].
    destruct (Z.ltb_spec (blen sig) 64); [lia|]. done.
Qed.

Lemma ble_decoded data r :
  DecodeBLEAuthResponse data = Ok r →
  response_of data r ∧ 1 <= len (UserID r) ∧ Signature r ≠ [].
Proof.
  unfold DecodeBLEAuthResponse. destruct (blen data <? 3) eqn:?; [done|].
  destruct data as [|c data]; [done|]. pose proof (code_range c).
  destruct ((code c =? 0) || (blen (c :: data) <=? 1 + code c)) eqn:?; [done|].
  destruct (blen (drop (1 + Z.to_nat (code c)) (c :: data)) =? 0) eqn:Hs; [done|].
  intros [= <-]. boolp. split; [by apply response_of_prefix; lia|].
  unfold len. cbn [UserID Signature]. unfold blen in *. rewrite of_string_slice by lia.
  split; [lia|]. intros Hn%(f_equal length).
  rewrite length_drop in *. simpl length in *. lia.
Qed.

Lemma nfc_decoded data r :
  ParseNFCAuthResponse data = Ok r →
  response_of data r ∧ len (UserID r) <= 180 ∧ 64 <= blen (Signature r).
Proof.
  unfold ParseNFCAuthResponse. destruct (blen data <? 2) eqn:?; [done|].
  destruct data as [|c data]; [done|]. pose proof (code_range c).
  destruct (blen (c :: data) <? 1 + code c + 1) eqn:?; [done|].
  destruct (180 <? code c) eqn:?; [done|].
  destruct (blen (drop (1 + Z.to_nat (code c)) (c :: data)) <? 64) eqn:?; [done|].
  intros [= <-]. boolp. split; [by apply response_of_prefix; lia|].
  unfold len. cbn [UserID Signature]. unfold blen in *. rewrite of_string_slice by lia.
  rewrite Z2Nat.id by lia. done.
Qed.

(** The BLE response codec. The inputs that decode are exactly the encodings
    of a user id of 1 to 255 bytes with a non-empty signature, and they decode
    to that pair: no two responses share an encoding. *)
Theorem ble_response_roundtrip data r :
  DecodeBLEAuthResponse data = Ok r ↔
  data = EncodeBLEAuthResponse (UserID r) (Signature r)
  ∧ 1 <= len (UserID r) <= 255 ∧ Signature r ≠ [].
Proof.
  split.
  - intros ((-> & ?) & ? & ?)%ble_decoded. split_and!; done || lia.
  - intros (-> & [? ?] & ?). destruct r as [uid sig]. simpl in *.
    apply decode_encoded; done || lia.
Qed.

(** The NFC parser accepts exactly the encodings with a user id of at most
    180 bytes and a signature of at least 64, and on a non-empty user id it
    agrees with the BLE parser. *)
Theorem nfc_response_spec data r :
  (ParseNFCAuthResponse data = Ok r ↔
   data = EncodeBLEAuthResponse (UserID r) (Signature r)
   ∧ len (UserID r) <= 180 ∧ 64 <= blen (Signature r))
  ∧ (ParseNFCAuthResponse data = Ok r → UserID r ≠ "" → DecodeBLEAuthResponse data = Ok r).
Proof.
  split; [split|].
  - intros ((-> & ?) & ? & ?)%nfc_decoded. by split_and!.
  - intros (-> & ? & ?). destruct r as [uid sig]. simpl in *. apply decode_encoded; done || lia.
  - intros ((-> & ?) & ? & Hs)%nfc_decoded Hu. destruct r as [uid sig]. simpl in *.
    apply decode_encoded; [done|..].
    + unfold len. destruct uid; [done|simpl; lia].
    + by intros ->.
Qed.

(** ** What a signature binds *)

Definition known_tag (t : string) : Prop := t = TransportTagBLE ∨ t = TransportTagNFCHCE.

Lemma tag_suffix u1 u2 t1 t2 :
  known_tag t1 → known_tag t2 →
  of_string u1 ++ of_string t1 = of_string u2 ++ of_string t2 → u1 = u2 ∧ t1 = t2.
Proof.
  assert (∀ a b, of_string a = of_string b → a = b) as Hinj.
  { intros a b H. rewrite <- (to_of_string a), <- (to_of_string b). by rewrite H. }
  intros [->| ->] [->| ->] H;
    try (split; [|done]; by apply app_inv_tail, Hinj in H).
  all: apply (f_equal reverse) in H; rewrite !reverse_app in H; cbv in H; discriminate.
Qed.

Section binding.
Context `{!Crypto}.

(** The v2 signed message binds its transport. Over the two transport
    tags and 32-byte nonces, equal messages have equal nonce, user and tag, so
    a signature made for one transport is never checked against the message of
    another. *)
Theorem transport_separation n1 n2 u1 u2 t1 t2 :
  length n1 = 32%nat → length n2 = 32%nat → known_tag t1 → known_tag t2 →
  message2 n1 u1 t1 = message2 n2 u2 t2 → n1 = n2 ∧ u1 = u2 ∧ t1 = t2.
Proof.
  unfold message2. intros L1 L2 K1 K2 Hm. apply app_inj_1 in Hm as [-> Hm]; [|congruence].
  by apply tag_suffix in Hm as [-> ->].
Qed.

Lemma verify_message_ok pem msg sig :
  verify_message pem msg sig = Ok tt ↔
  ∃ k, parseBLEPublicKey pem = Ok k ∧ verify_hash k (Sum256 msg) sig = true.
Proof.
  unfold verify_message. destruct (parseBLEPublicKey pem) as [k|e].
  - destruct (verify_hash k (Sum256 msg) sig) eqn:Hv; split; try done.
    + intros _. by exists k.
    + intros (k' & [= <-] & ?). congruence.
  - split; [done|]. by intros (? & ? & _).
Qed.
End binding.

(** A concrete scheme for the examples: a key verifies the signatures that
    start with the bytes of its text, and hashing is the identity. *)
Definition toy_crypto : Crypto := {|
  AnyKey := bytes; ECKey := bytes;
  pem_decode := fun s => if is_empty s then None else Some (of_string s);
  ParsePKIXPublicKey := fun b => Ok b;
  as_ecdsa := fun b => Some b;
  curve_name := fun _ => "P-256";
  Sum256 := fun b => b;
  VerifyASN1 := fun k h sig => String.eqb (to_string sig) (to_string (k ++ h));
  VerifyRS := fun _ _ _ _ => false
|}.

Lemma transport_separation_witness :
  repeat "a"%char 32 = repeat "a"%char 32 ∧ "u"%string = "u"%string
  ∧ TransportTagBLE = TransportTagBLE.
Proof.
  apply (transport_separation (repeat "a"%char 32) (repeat "a"%char 32) "u" "u"
    TransportTagBLE TransportTagBLE); first [reflexivity | by left].
Defined.

Lemma challenge_roundtrip_witness :
  DecodeBLEChallengeV2 (EncodeV2 (mkBLEChallengeV2 (repeat "n"%char 32) 5000000001 35000000001 77))
  = Ok (mkBLEChallengeV2 (repeat "n"%char 32) 5000000000 35000000000 77).
Proof.
  apply (proj1 challenge_roundtrip).
  split_and!; first [reflexivity | vm_compute; congruence].
Defined.
