(* ===== verification/Wiegand.v ===== *)
(** * Wiegand card reader (wiegand_reader.go)

    Frame decoding (26 and 34 bits, with their two parity bits) and the read
    loop as a state machine over the events of its [select]: a bit from a pin
    watcher, or the 50 ms frame timer.  Bits are Go bytes, [Z] values; GPIO set
    up and the pin watchers themselves are hardware access and are not here. *)

From S2P Require Import Prelude GoStrings GoTime Bytes.
From stdpp Require Import pretty.
From Stdlib Require Import Sorted.
#[local] Open Scope Z_scope.

Abbreviation bits := (list Z).

Definition count_ones (l : bits) : Z := Z.of_nat (length (filterb (fun b => negb (b =? 0)) l)).

Definition checkEvenParity (l : bits) : bool := count_ones l mod 2 =? 0.
Definition checkOddParity (l : bits) : bool := negb (checkEvenParity l).

Definition bitsToUint (l : bits) : Z :=
  fold_left (fun val b => u32 (Z.lor (Z.shiftl val 1) (Z.land b 1))) l 0.

Definition decodeWiegand26 (l : bits) : result string (Z * Z) :=
  if negb (Nat.eqb (length l) 26) then Err "wiegand26: expected 26 bits"
  else if negb (checkEvenParity (slice 0 13 l)) then Err "wiegand26: even parity check failed"
  else if negb (checkOddParity (slice 13 26 l)) then Err "wiegand26: odd parity check failed"
  else Ok (u16 (bitsToUint (slice 1 9 l)), bitsToUint (slice 9 25 l)).

Definition decodeWiegand34 (l : bits) : result string (Z * Z) :=
  if negb (Nat.eqb (length l) 34) then Err "wiegand34: expected 34 bits"
  else if negb (checkEvenParity (slice 0 17 l)) then Err "wiegand34: even parity check failed"
  else if negb (checkOddParity (slice 17 34 l)) then Err "wiegand34: odd parity check failed"
  else Ok (u16 (bitsToUint (slice 1 17 l)), bitsToUint (slice 17 33 l)).

(** The credential type is returned also when the frame does not decode. *)
Definition decodeWiegandFrame (l : bits) : string * result string (Z * Z) :=
  match length l with
  | 26%nat => ("wiegand_26", decodeWiegand26 l)
  | 34%nat => ("wiegand_34", decodeWiegand34 l)
  | _ => ("", Err "wiegand: unsupported frame length")
  end.

(** ** The read loop *)

Record Reader := mkReader {
  frame : bits;            (* var bits []byte *)
  timerArmed : bool;       (* frameTimer is running *)
  debounceUntil : Z
}.

#[export] Instance eta_reader : Eta Reader :=
  fun r => mkReader (frame r) (timerArmed r) (debounceUntil r).

Inductive event := EvBit (bit now : Z) | EvFrameTimer (now : Z).

Definition event_time (e : event) : Z := match e with EvBit _ t => t | EvFrameTimer t => t end.

(** The state before the first event; [time.Time{}] is the zero instant. *)
Definition reader_start : Reader := mkReader [] false time_zero.

Definition debounce : Z := 2 * second.

(** One iteration of [readLoop]; the result is what [onCredential] is called with. *)
Definition read_step (e : event) (r : Reader) : Reader * option (string * string) :=
  match e with
  | EvBit bit now =>
      if Before now (debounceUntil r) then (r, None)
      else (r <| frame := frame r ++ [bit] |> <| timerArmed := true |>, None)
  | EvFrameTimer now =>
      let r := r <| timerArmed := false |> in
      if Nat.eqb (length (frame r)) 0 then (r, None)
      else if Before now (debounceUntil r) then (r <| frame := [] |>, None)
      else match decodeWiegandFrame (frame r) with
           | (_, Err _) => (r <| frame := [] |>, None)
           | (credType, Ok (fc, card)) =>
               (r <| debounceUntil := now + debounce |> <| frame := [] |>,
                Some (credType, pretty fc +:+ ":" +:+ pretty card))
           end
  end.

(** A run of the loop: the credentials reported, each with its time. *)
Fixpoint read_run (es : list event) (r : Reader) : list (Z * (string * string)) :=
  match es with
  | [] => []
  | e :: es' =>
      match read_step e r with
      | (r', Some c) => (event_time e, c) :: read_run es' r'
      | (r', None) => read_run es' r'
      end
  end.

(** ** Reference encoder *)

Definition is_bit (b : Z) : Prop := b = 0 ∨ b = 1.
#[export] Instance is_bit_dec b : Decision (is_bit b) := ltac:(unfold is_bit; apply _).

Fixpoint bits_of (k : nat) (z : Z) : bits :=
  match k with O => [] | S k' => bits_of k' (z / 2) ++ [z mod 2] end.

Definition bits_val (l : bits) : Z := fold_left (fun v b => v * 2 + b) l 0.

(** A frame: even parity over the first half, odd parity over the second. *)
Definition with_parity (h1 h2 : bits) : bits :=
  [count_ones h1 mod 2] ++ h1 ++ h2 ++ [1 - count_ones h2 mod 2].

Definition encode26 (fc card : Z) : bits :=
  let d := bits_of 8 fc ++ bits_of 16 card in with_parity (take 12 d) (drop 12 d).
Definition encode34 (fc card : Z) : bits :=
  let d := bits_of 16 fc ++ bits_of 16 card in with_parity (take 16 d) (drop 16 d).

(** ** Lemmas *)

Lemma count_ones_app a b : count_ones (a ++ b) = count_ones a + count_ones b.
Proof. unfold count_ones. rewrite filterb_app, length_app. lia. Qed.

Lemma count_ones_bit b : is_bit b → count_ones [b] = b.
Proof. by intros [->| ->]. Qed.

Lemma bits_of_length k z : length (bits_of k z) = k.
Proof. revert z; induction k; intros z; simpl; [done|]. rewrite length_app, IHk. simpl; lia. Qed.

Lemma bits_of_bits k z : Forall is_bit (bits_of k z).
Proof.
  revert z; induction k as [|k IH]; intros z; simpl; [constructor|].
  apply Forall_app; split; [done|]. constructor; [|constructor].
  unfold is_bit. pose proof (Z.mod_pos_bound z 2). lia.
Qed.

Lemma bits_val_snoc l b : bits_val (l ++ [b]) = bits_val l * 2 + b.
Proof. unfold bits_val. by rewrite fold_left_app. Qed.

Lemma bits_val_range l : Forall is_bit l → 0 <= bits_val l < 2 ^ blen l.
Proof.
  induction l as [|b l IH] using rev_ind; [done|].
  intros [Hl Hb]%Forall_app. apply Forall_cons in Hb as [Hb _]. specialize (IH Hl).
  rewrite bits_val_snoc. unfold blen in *. rewrite length_app. simpl length.
  rewrite Nat2Z.inj_add, Z.pow_add_r by lia. change (2 ^ Z.of_nat 1) with 2.
  unfold is_bit in Hb. lia.
Qed.

Lemma bits_val_of k z : 0 <= z < 2 ^ Z.of_nat k → bits_val (bits_of k z) = z.
Proof.
  revert z; induction k as [|k IH]; intros z Hz; simpl; [change (2 ^ Z.of_nat 0) with 1 in Hz; cbv; lia|].
  rewrite Nat2Z.inj_succ, Z.pow_succ_r in Hz by lia.
  rewrite bits_val_snoc, IH by (split; [apply Z.div_pos|apply Z.div_lt_upper_bound]; lia).
  pose proof (Z.div_mod z 2). lia.
Qed.

Lemma bits_of_val l : Forall is_bit l → bits_of (length l) (bits_val l) = l.
Proof.
  induction l as [|b l IH] using rev_ind; [done|].
  intros [Hl Hb]%Forall_app. apply Forall_cons in Hb as [Hb _].
  rewrite bits_val_snoc, length_app, Nat.add_comm. cbn [bits_of Nat.add length].
  rewrite Z.div_add_l by lia. rewrite (Z.div_small b), Z.add_0_r, IH by (unfold is_bit in Hb; lia || done).
  f_equal. f_equal. rewrite Z.add_comm, Z.mod_add, Z.mod_small; unfold is_bit in Hb; lia.
Qed.

Lemma lor_shift v b : 0 <= v → is_bit b → Z.lor (Z.shiftl v 1) (Z.land b 1) = v * 2 + b.
Proof.
  intros Hv Hb. rewrite Z.shiftl_mul_pow2 by lia. change (2 ^ 1) with 2. rewrite (Z.mul_comm v 2).
  destruct Hb as [->| ->], v as [|p|p]; reflexivity || lia.
Qed.

Lemma bitsToUint_val l : Forall is_bit l → (length l ≤ 32)%nat → bitsToUint l = bits_val l.
Proof.
  induction l as [|b l IH] using rev_ind; intros Hl Hlen; [done|].
  pose proof (bits_val_range _ Hl) as Hr. rewrite bits_val_snoc in *.
  apply Forall_app in Hl as [Hl Hb]. apply Forall_cons in Hb as [Hb _].
  unfold blen in Hr. rewrite length_app in *. simpl length in *.
  unfold bitsToUint. rewrite fold_left_app. cbn [fold_left]. fold (bitsToUint l).
  pose proof (bits_val_range _ Hl). rewrite IH, lor_shift by (done || lia).
  unfold u32. apply Z.mod_small.
  assert (2 ^ Z.of_nat (length l + 1) <= 2 ^ 32) by (apply Z.pow_le_mono_r; lia). lia.
Qed.

Lemma even_parity_cons b l :
  is_bit b → checkEvenParity (b :: l) = (b =? count_ones l mod 2).
Proof.
  intros Hb. unfold checkEvenParity. change (b :: l) with ([b] ++ l).
  rewrite count_ones_app, count_ones_bit by done.
  pose proof (Z.mod_pos_bound (count_ones l) 2 ltac:(lia)).
  rewrite <- Z.add_mod_idemp_r by lia.
  destruct Hb as [->| ->]; assert (count_ones l mod 2 = 0 ∨ count_ones l mod 2 = 1) as [->| ->] by lia;
    reflexivity.
Qed.

Lemma odd_parity_snoc b l :
  is_bit b → checkOddParity (l ++ [b]) = (b =? 1 - count_ones l mod 2).
Proof.
  intros Hb. unfold checkOddParity, checkEvenParity. rewrite count_ones_app, count_ones_bit by done.
  pose proof (Z.mod_pos_bound (count_ones l) 2 ltac:(lia)).
  rewrite <- Z.add_mod_idemp_l by lia.
  destruct Hb as [->| ->]; assert (count_ones l mod 2 = 0 ∨ count_ones l mod 2 = 1) as [->| ->] by lia;
    reflexivity.
Qed.

(** A frame of two halves of [n + 1] bits passes both checks exactly when it is
    its data with the parity bits of [with_parity]. *)
Lemma parity_frame n pe h1 h2 po :
  is_bit pe → is_bit po → length h1 = n → length h2 = n →
  let l := [pe] ++ h1 ++ h2 ++ [po] in
  checkEvenParity (slice 0 (n + 1) l) && checkOddParity (slice (n + 1) (2 * n + 2) l) = true
  ↔ l = with_parity h1 h2.
Proof.
  intros Hpe Hpo H1 H2 l.
  assert (slice 0 (n + 1) l = pe :: h1) as ->.
  { subst l. change ([pe] ++ h1 ++ h2 ++ [po]) with ([] ++ (pe :: h1) ++ (h2 ++ [po])).
    apply slice_app; simpl; lia. }
  assert (slice (n + 1) (2 * n + 2) l = h2 ++ [po]) as ->.
  { subst l. change ([pe] ++ h1 ++ h2 ++ [po]) with ((pe :: h1) ++ (h2 ++ [po])).
    apply slice_end; simpl; rewrite ?length_app; simpl; lia. }
  rewrite even_parity_cons, odd_parity_snoc by done. unfold with_parity, l.
  rewrite andb_true_iff, !Z.eqb_eq. split.
  - by intros [-> ->].
  - intros [= -> H]. split; [done|]. apply app_inv_head in H. by apply app_inv_head in H as [= ->].
Qed.

Lemma frame_split n (l : bits) :
  length l = (2 * n + 2)%nat →
  ∃ pe h1 h2 po, l = [pe] ++ h1 ++ h2 ++ [po] ∧ length h1 = n ∧ length h2 = n.
Proof.
  intros Hl. destruct l as [|pe l]; [simpl in Hl; lia|]. simpl in Hl.
  destruct l as [|po l _] using rev_ind; [simpl in Hl; lia|].
  rewrite length_app in Hl. simpl in Hl.
  exists pe, (take n l), (drop n l), po. rewrite (app_assoc (take n l)), take_drop.
  rewrite length_take, length_drop. split; [done|lia].
Qed.

Lemma data_slices n (pe : Z) (d : bits) (po : Z) a b :
  length d = n → (1 ≤ a ≤ b)%nat → (b ≤ n + 1)%nat →
  slice a b ([pe] ++ d ++ [po]) = slice (a - 1) (b - 1) d.
Proof.
  intros Hd Ha Hb. unfold slice. destruct a as [|a]; [lia|].
  replace (S a - 1)%nat with a by lia. simpl. rewrite drop_app_le by lia.
  replace (b - S a)%nat with (b - 1 - a)%nat by lia. apply take_app_le. rewrite length_drop. lia.
Qed.

Lemma ends_bits pe (h1 h2 : bits) po : Forall is_bit ([pe] ++ h1 ++ h2 ++ [po]) → is_bit pe ∧ is_bit po.
Proof.
  rewrite !Forall_app, !Forall_singleton. tauto.
Qed.

Lemma slice_bits l i j : Forall is_bit l → Forall is_bit (slice i j l).
Proof. intros. unfold slice. by apply Forall_take, Forall_drop. Qed.

Lemma bitsToUint_slice l i j :
  Forall is_bit l → (i ≤ j ≤ length l)%nat → (j - i ≤ 32)%nat →
  bitsToUint (slice i j l) = bits_val (slice i j l) ∧ 0 <= bits_val (slice i j l) < 2 ^ Z.of_nat (j - i).
Proof.
  intros Hl Hij H32. pose proof (slice_bits l i j Hl) as Hs. pose proof (slice_length i j l Hij) as Hsl.
  split; [apply bitsToUint_val; [done|lia]|].
  pose proof (bits_val_range _ Hs) as H. unfold blen in H. by rewrite Hsl in H.
Qed.

(** Both decoders at once: [n] data bits per half, [k] bits of facility code. *)
Section both_formats.
Variables (n k : nat) (decode : bits → result string (Z * Z)) (encode : Z → Z → bits).
Hypothesis Hk : (k ≤ 16)%nat.
Hypothesis Hn : (2 * n = k + 16)%nat.
Hypothesis Hdecode : ∀ l x, decode l = Ok x ↔
  length l = (2 * n + 2)%nat
  ∧ checkEvenParity (slice 0 (n + 1) l) && checkOddParity (slice (n + 1) (2 * n + 2) l) = true
  ∧ x = (u16 (bitsToUint (slice 1 (k + 1) l)), bitsToUint (slice (k + 1) (2 * n + 1) l)).
Hypothesis Hencode : ∀ fc card, encode fc card =
  with_parity (take n (bits_of k fc ++ bits_of 16 card)) (drop n (bits_of k fc ++ bits_of 16 card)).

Definition values_ok (fc card : Z) : Prop := 0 <= fc < 2 ^ Z.of_nat k ∧ 0 <= card < 2 ^ 16.

Lemma frame_fields l pe d po :
  l = [pe] ++ d ++ [po] → Forall is_bit l → length d = (2 * n)%nat →
  let fc := bits_val (take k d) in let card := bits_val (drop k d) in
  u16 (bitsToUint (slice 1 (k + 1) l)) = fc ∧ bitsToUint (slice (k + 1) (2 * n + 1) l) = card
  ∧ values_ok fc card ∧ d = bits_of k fc ++ bits_of 16 card.
Proof.
  intros -> Hl Hd. assert (Forall is_bit d) as Hdb.
  { apply Forall_app in Hl as [_ Hl]. by apply Forall_app in Hl as [Hl _]. }
  assert (length (take k d) = k ∧ length (drop k d) = 16%nat) as [Lt Ld]
    by (rewrite length_take, length_drop; lia).
  rewrite !(data_slices (2 * n)) by (done || lia).
  change (1 - 1)%nat with 0%nat. replace (k + 1 - 1)%nat with k by lia. replace (2 * n + 1 - 1)%nat with (2 * n)%nat by lia.
  destruct (bitsToUint_slice d 0 k) as [E1 R1]; [done|lia|lia|].
  destruct (bitsToUint_slice d k (2 * n)) as [E2 R2]; [done|lia|lia|].
  assert (slice 0 k d = take k d) as S1 by (unfold slice; by rewrite drop_0, Nat.sub_0_r).
  assert (slice k (2 * n) d = drop k d) as S2
    by (unfold slice; apply take_ge; rewrite length_drop; lia).
  rewrite E1, E2. rewrite S1 in R1 |- *. rewrite S2 in R2 |- *. rewrite Nat.sub_0_r in R1.
  replace (2 * n - k)%nat with 16%nat in R2 by lia. change (2 ^ Z.of_nat 16) with (2 ^ 16) in R2.
  intros fc card. fold fc card in R1, R2 |- *.
  assert (2 ^ Z.of_nat k <= 2 ^ 16) by (apply Z.pow_le_mono_r; lia).
  split_and!; [by apply Z.mod_small; lia|done|done|].
  pose proof (bits_of_val (take k d)) as V1. rewrite Lt in V1.
  pose proof (bits_of_val (drop k d)) as V2. rewrite Ld in V2.
  subst fc card. rewrite V1, V2 by (by apply Forall_take || by apply Forall_drop). by rewrite take_drop.
Qed.

Lemma decode_sound l fc card :
  Forall is_bit l → decode l = Ok (fc, card) → values_ok fc card ∧ l = encode fc card.
Proof.
  intros Hl [Hlen [Hpar [-> ->]%pair_equal_spec]]%Hdecode.
  destruct (frame_split n l Hlen) as (pe & h1 & h2 & po & El & H1 & H2).
  assert (l = [pe] ++ (h1 ++ h2) ++ [po]) as El' by by rewrite <- app_assoc.
  destruct (frame_fields l pe (h1 ++ h2) po El' Hl) as (F1 & F2 & Hok & Hd);
    [rewrite length_app; lia|].
  rewrite F1, F2. split; [done|]. rewrite Hencode, <- Hd, take_app_length', drop_app_length' by done.
  rewrite El in Hpar, Hl. destruct (ends_bits _ _ _ _ Hl) as [Hpe Hpo].
  apply parity_frame in Hpar; [by rewrite El|done..].
Qed.

Lemma encode_split fc card :
  ∃ pe h1 h2 po, encode fc card = [pe] ++ h1 ++ h2 ++ [po] ∧ is_bit pe ∧ is_bit po
    ∧ length h1 = n ∧ length h2 = n ∧ with_parity h1 h2 = encode fc card
    ∧ h1 ++ h2 = bits_of k fc ++ bits_of 16 card.
Proof.
  rewrite Hencode. set (d := bits_of k fc ++ bits_of 16 card).
  assert (length d = (2 * n)%nat) as Ld by (subst d; rewrite length_app, !bits_of_length; lia).
  exists (count_ones (take n d) mod 2), (take n d), (drop n d), (1 - count_ones (drop n d) mod 2).
  pose proof (Z.mod_pos_bound (count_ones (take n d)) 2 ltac:(lia)).
  pose proof (Z.mod_pos_bound (count_ones (drop n d)) 2 ltac:(lia)).
  split_and!; unfold is_bit; try done; try lia.
  - rewrite length_take. lia.
  - rewrite length_drop. lia.
  - apply take_drop.
Qed.

Lemma encode_bits fc card : Forall is_bit (encode fc card).
Proof.
  destruct (encode_split fc card) as (pe & h1 & h2 & po & -> & ? & ? & _ & _ & _ & Hd).
  rewrite (app_assoc h1), Hd, !Forall_app, !Forall_singleton. by pose proof bits_of_bits.
Qed.

Lemma decode_complete fc card : values_ok fc card → decode (encode fc card) = Ok (fc, card).
Proof.
  intros [Hfc Hcard]. pose proof (encode_bits fc card) as Hb.
  destruct (encode_split fc card) as (pe & h1 & h2 & po & El & Hpe & Hpo & H1 & H2 & Hw & Hd).
  apply Hdecode. assert (length (encode fc card) = (2 * n + 2)%nat) as Hlen.
  { rewrite El. simpl. rewrite !length_app. simpl. lia. }
  split; [done|]. split; [rewrite El; by apply parity_frame; [..|rewrite <- El]|].
  assert (encode fc card = [pe] ++ (h1 ++ h2) ++ [po]) as El' by by rewrite <- app_assoc.
  destruct (frame_fields _ pe (h1 ++ h2) po El' Hb) as (F1 & F2 & _ & _); [rewrite length_app; lia|].
  rewrite F1, F2, Hd, take_app_length', drop_app_length' by by rewrite bits_of_length.
  by rewrite !bits_val_of.
Qed.
End both_formats.

(** ** The decoders *)

Lemma decode26_iff l x :
  decodeWiegand26 l = Ok x ↔
    length l = (2 * 12 + 2)%nat
    ∧ checkEvenParity (slice 0 (12 + 1) l) && checkOddParity (slice (12 + 1) (2 * 12 + 2) l) = true
    ∧ x = (u16 (bitsToUint (slice 1 (8 + 1) l)), bitsToUint (slice (8 + 1) (2 * 12 + 1) l)).
Proof.
  unfold decodeWiegand26. change (2 * 12 + 2)%nat with 26%nat. change (12 + 1)%nat with 13%nat.
  change (8 + 1)%nat with 9%nat. change (2 * 12 + 1)%nat with 25%nat.
  destruct (Nat.eqb_spec (length l) 26); simpl; [|naive_solver].
  destruct (checkEvenParity (slice 0 13 l)), (checkOddParity (slice 13 26 l)); simpl; naive_solver.
Qed.

Lemma decode34_iff l x :
  decodeWiegand34 l = Ok x ↔
    length l = (2 * 16 + 2)%nat
    ∧ checkEvenParity (slice 0 (16 + 1) l) && checkOddParity (slice (16 + 1) (2 * 16 + 2) l) = true
    ∧ x = (u16 (bitsToUint (slice 1 (16 + 1) l)), bitsToUint (slice (16 + 1) (2 * 16 + 1) l)).
Proof.
  unfold decodeWiegand34. change (2 * 16 + 2)%nat with 34%nat. change (16 + 1)%nat with 17%nat.
  change (2 * 16 + 1)%nat with 33%nat.
  destruct (Nat.eqb_spec (length l) 34); simpl; [|naive_solver].
  destruct (checkEvenParity (slice 0 17 l)), (checkOddParity (slice 17 34 l)); simpl; naive_solver.
Qed.

Lemma frame26 l x : decodeWiegandFrame l = ("wiegand_26", Ok x) ↔ decodeWiegand26 l = Ok x.
Proof.
  unfold decodeWiegandFrame. split.
  - intros H. repeat case_match; by simplify_eq.
  - intros H. pose proof H as [Hn _]%decode26_iff. change (2 * 12 + 2)%nat with 26%nat in Hn. by rewrite Hn, H.
Qed.

Lemma frame34 l x : decodeWiegandFrame l = ("wiegand_34", Ok x) ↔ decodeWiegand34 l = Ok x.
Proof.
  unfold decodeWiegandFrame. split.
  - intros H. repeat case_match; by simplify_eq.
  - intros H. pose proof H as [Hn _]%decode34_iff. change (2 * 16 + 2)%nat with 34%nat in Hn. by rewrite Hn, H.
Qed.

Definition in_range (k : nat) (z : Z) : Prop := 0 <= z < 2 ^ Z.of_nat k.

(** C35: The decoders are exactly the inverse of the frame format.  A frame of
    D0/D1 bits is accepted as a 26-bit (34-bit) credential exactly when it is the
    encoding, parity bits included, of an 8-bit (16-bit) facility code and a
    16-bit card number, and those are the values reported: no value is ever
    truncated and no frame has two readings. *)
Theorem decode_exact (l : bits) (fc card : Z) :
  Forall is_bit l →
  (decodeWiegandFrame l = ("wiegand_26", Ok (fc, card))
     ↔ in_range 8 fc ∧ in_range 16 card ∧ l = encode26 fc card)
  ∧ (decodeWiegandFrame l = ("wiegand_34", Ok (fc, card))
     ↔ in_range 16 fc ∧ in_range 16 card ∧ l = encode34 fc card).
Proof.
  intros Hl.
  pose proof (decode_sound 12 8 _ encode26 ltac:(lia) ltac:(lia) decode26_iff (λ _ _, eq_refl)) as S26.
  pose proof (decode_sound 16 16 _ encode34 ltac:(lia) ltac:(lia) decode34_iff (λ _ _, eq_refl)) as S34.
  pose proof (decode_complete 12 8 _ encode26 ltac:(lia) ltac:(lia) decode26_iff (λ _ _, eq_refl)) as C26.
  pose proof (decode_complete 16 16 _ encode34 ltac:(lia) ltac:(lia) decode34_iff (λ _ _, eq_refl)) as C34.
  unfold values_ok in *. unfold in_range. change (2 ^ Z.of_nat 16) with (2 ^ 16) in *.
  rewrite frame26, frame34. split; split.
  - intros H. destruct (S26 l fc card Hl H) as [[] ?]. done.
  - intros (Hf & Hc & ->). by apply C26.
  - intros H. destruct (S34 l fc card Hl H) as [[] ?]. done.
  - intros (Hf & Hc & ->). by apply C34.
Qed.

Lemma decode_exact_witness :
  decodeWiegandFrame (encode26 123 45678) = ("wiegand_26", Ok (123, 45678)).
Proof.
  apply (decode_exact (encode26 123 45678) 123 45678).
  - apply (bool_decide_unpack _). vm_compute. exact I.
  - vm_compute. repeat split; congruence.
Defined.

(** ** One flipped bit *)

(** The frame with the bit at position [i] inverted. *)
Definition flip (i : nat) (l : bits) : bits := alter (λ b, 1 - b) i l.

Lemma count_ones_flip i l :
  Forall is_bit l → (i < length l)%nat → count_ones (flip i l) mod 2 = (count_ones l + 1) mod 2.
Proof.
  revert i; induction l as [|b l IH]; intros i Hl Hi; simpl in Hi; [lia|].
  apply Forall_cons in Hl as [Hb Hl].
  assert (count_ones (b :: l) = b + count_ones l) as ->.
  { change (b :: l) with ([b] ++ l). by rewrite count_ones_app, count_ones_bit. }
  destruct i as [|i]; simpl.
  - change (1 - b :: l) with ([1 - b] ++ l).
    rewrite count_ones_app, count_ones_bit by (unfold is_bit in *; lia).
    destruct Hb as [->| ->]; [f_equal; lia|].
    replace (1 + count_ones l + 1) with (count_ones l + 1 * 2) by lia. rewrite Z.mod_add by lia. f_equal; lia.
  - unfold flip at 1; simpl; change (b :: alter (fun b => 1 - b) i l) with ([b] ++ flip i l). rewrite (count_ones_app [b]), count_ones_bit by done.
    rewrite <- Z.add_mod_idemp_r, IH, Z.add_mod_idemp_r by (done || lia). f_equal. lia.
Qed.

Lemma slice_flip_out i j k l : ¬ (j ≤ i < k)%nat → slice j k (flip i l) = slice j k l.
Proof.
  intros Hn. apply list_eq. intros m. unfold slice.
  destruct (decide (m < k - j)%nat).
  - rewrite !lookup_take_lt, !lookup_drop by done. unfold flip. apply list_lookup_alter_ne. lia.
  - rewrite !lookup_take_ge by lia. done.
Qed.

Lemma slice_flip_in i j k l :
  (j ≤ i < k)%nat → slice j k (flip i l) = flip (i - j) (slice j k l).
Proof.
  intros Hi. apply list_eq. intros m. unfold slice, flip.
  destruct (decide (m = i - j)%nat) as [->|Hne].
  - rewrite list_lookup_alter_eq, !lookup_take_lt, !lookup_drop by lia.
    replace (j + (i - j))%nat with i by lia. by rewrite list_lookup_alter_eq.
  - rewrite list_lookup_alter_ne by done. destruct (decide (m < k - j)%nat).
    + rewrite !lookup_take_lt, !lookup_drop by done. apply list_lookup_alter_ne. lia.
    + by rewrite !lookup_take_ge by lia.
Qed.

Lemma even_parity_flip i l :
  Forall is_bit l → (i < length l)%nat → checkEvenParity (flip i l) = negb (checkEvenParity l).
Proof.
  intros Hl Hi. unfold checkEvenParity. rewrite count_ones_flip by done.
  rewrite <- Z.add_mod_idemp_l by lia. pose proof (Z.mod_pos_bound (count_ones l) 2 ltac:(lia)).
  assert (count_ones l mod 2 = 0 ∨ count_ones l mod 2 = 1) as [->| ->] by lia; done.
Qed.

Section flipped.
Variables (n k : nat) (decode : bits → result string (Z * Z)).
Hypothesis Hdecode : ∀ l x, decode l = Ok x ↔
  length l = (2 * n + 2)%nat
  ∧ checkEvenParity (slice 0 (n + 1) l) && checkOddParity (slice (n + 1) (2 * n + 2) l) = true
  ∧ x = (u16 (bitsToUint (slice 1 (k + 1) l)), bitsToUint (slice (k + 1) (2 * n + 1) l)).

Lemma flip_rejected l x i :
  Forall is_bit l → decode l = Ok x → (i < length l)%nat → ∀ y, decode (flip i l) ≠ Ok y.
Proof.
  intros Hl [Hn [[He Ho]%andb_true_iff _]]%Hdecode Hi y [_ [[He' Ho']%andb_true_iff _]]%Hdecode.
  assert (∀ j m, (j ≤ i < m)%nat → (m ≤ length l)%nat →
    checkEvenParity (slice j m (flip i l)) = negb (checkEvenParity (slice j m l))) as Hf.
  { intros j m Hj Hm. rewrite slice_flip_in by done. apply even_parity_flip; [by apply slice_bits|].
    rewrite slice_length by lia. lia. }
  unfold checkOddParity in *. destruct (decide (i < n + 1)%nat).
  - rewrite Hf, He in He' by lia. done.
  - rewrite Hf, Ho in Ho' by lia. done.
Qed.
End flipped.

(** A reading error in one bit is always caught.  When a frame decodes,
    no frame that differs from it in a single bit does, in either format. *)
Theorem single_flip_rejected (l : bits) ct x (i : nat) :
  Forall is_bit l → decodeWiegandFrame l = (ct, Ok x) → (i < length l)%nat →
  ∀ y, snd (decodeWiegandFrame (flip i l)) ≠ Ok y.
Proof.
  intros Hl Hd Hi y. unfold decodeWiegandFrame, flip. rewrite length_alter. fold (flip i l).
  unfold decodeWiegandFrame in Hd. intros Hy. repeat case_match; simplify_eq/=.
  - by apply (flip_rejected 12 8 decodeWiegand26 decode26_iff l x i Hl) with y; [|lia|].
  - by apply (flip_rejected 16 16 decodeWiegand34 decode34_iff l x i Hl) with y; [|lia|].
Qed.

Lemma single_flip_rejected_witness :
  snd (decodeWiegandFrame (flip 5 (encode26 123 45678))) ≠ Ok (127, 45678).
Proof.
  apply (single_flip_rejected _ "wiegand_26" (123, 45678)).
  - apply (bool_decide_unpack _). vm_compute. exact I.
  - vm_compute. reflexivity.
  - vm_compute. lia.
Defined.

(** ** The loop *)

Lemma read_step_report e r r' c :
  read_step e r = (r', Some c) →
  debounceUntil r <= event_time e ∧ debounceUntil r' = event_time e + debounce ∧ frame r' = [].
Proof.
  destruct e as [bit t|t]; simpl; intros H.
  - by destruct (Before t (debounceUntil r)).
  - destruct (Nat.eqb (length (frame r)) 0); [done|].
    destruct (Before t (debounceUntil r)) eqn:B; [done|].
    destruct (decodeWiegandFrame (frame r)) as [ct [[fc card]|e]]; simplify_eq.
    unfold Before in B. boolp. done.
Qed.

Lemma read_step_silent e r r' : read_step e r = (r', None) → debounceUntil r' = debounceUntil r.
Proof.
  destruct e as [bit t|t]; simpl; intros H; repeat case_match; by simplify_eq.
Qed.

Lemma read_run_after es r : Forall (λ p, debounceUntil r <= fst p) (read_run es r).
Proof.
  revert r; induction es as [|e es IH]; intros r; simpl; [constructor|].
  destruct (read_step e r) as [r' [c|]] eqn:H.
  - apply read_step_report in H as (H1 & H2 & _). constructor; [done|].
    eapply Forall_impl; [apply IH|]. intros p. simpl. rewrite H2. unfold debounce, second. lia.
  - apply read_step_silent in H. rewrite <- H. apply IH.
Qed.

(** One presentation of a card is one read.  In every run of the read loop,
    from any state and whatever the events and their times, each credential
    reported comes at least two seconds after every earlier one. *)
Theorem reads_debounced (es : list event) (r : Reader) :
  StronglySorted (λ a b, fst a + debounce <= fst b) (read_run es r).
Proof.
  revert r; induction es as [|e es IH]; intros r; simpl; [constructor|].
  destruct (read_step e r) as [r' [c|]] eqn:H; [|apply IH].
  constructor; [apply IH|]. apply read_step_report in H as (_ & H2 & _).
  pose proof (read_run_after es r') as Ha. by rewrite H2 in Ha.
Qed.

Lemma read_bits (bs : list (Z * Z)) r es :
  Forall (λ p, debounceUntil r <= snd p) bs → bs ≠ [] →
  read_run (map (λ p, EvBit p.1 p.2) bs ++ es) r =
  read_run es (mkReader (frame r ++ bs.*1) true (debounceUntil r)).
Proof.
  revert r; induction bs as [|[b t] bs IH]; intros r Hf Hne; [done|].
  apply Forall_cons in Hf as [Ht Hf]. simpl in *.
  unfold Before. rewrite (proj2 (Z.ltb_ge _ _) Ht). destruct bs as [|p bs]; [done|].
  rewrite IH by done. simpl. by rewrite <- app_assoc.
Qed.

(** A card read ends in its credential.  When the bits of a 26-bit frame
    arrive in order outside the debounce window and the 50 ms silence follows,
    [onCredential] gets ["wiegand_26"] and ["fc:card"], and the loop goes on
    with an empty frame and the debounce window open. *)
Theorem card_read (fc card : Z) (ts : list Z) (t : Z) (r : Reader) (es : list event) :
  in_range 8 fc → in_range 16 card → frame r = [] → length ts = 26%nat →
  Forall (λ u, debounceUntil r <= u) ts → debounceUntil r <= t →
  read_run (zip_with EvBit (encode26 fc card) ts ++ EvFrameTimer t :: es) r =
  (t, ("wiegand_26", pretty fc +:+ ":" +:+ pretty card))
    :: read_run es (mkReader [] false (t + debounce)).
Proof.
  intros Hfc Hcard Hr Hts Hf Ht.
  assert (decodeWiegand26 (encode26 fc card) = Ok (fc, card)) as Hd.
  { apply (decode_complete 12 8 _ encode26 ltac:(lia) ltac:(lia) decode26_iff (λ _ _, eq_refl)).
    by split. }
  pose proof Hd as [Hlen _]%decode26_iff. change (2 * 12 + 2)%nat with 26%nat in Hlen.
  assert (zip_with EvBit (encode26 fc card) ts = map (λ p, EvBit p.1 p.2) (zip (encode26 fc card) ts)) as ->.
  { clear. revert ts. induction (encode26 fc card); intros [|u ts]; simpl; by f_equal. }
  rewrite read_bits.
  - rewrite Hr, (fst_zip (encode26 fc card) ts) by lia. set (fr := encode26 fc card) in *. clearbody fr. simpl. rewrite Hlen. simpl.
    unfold Before. rewrite (proj2 (Z.ltb_ge _ _) Ht). unfold decodeWiegandFrame. rewrite Hlen, Hd. done.
  - apply Forall_forall. intros [b u] Hin%elem_of_zip_r. rewrite Forall_forall in Hf. by apply Hf.
  - destruct (encode26 fc card), ts; done.
Qed.

Lemma card_read_witness :
  read_run (zip_with EvBit (encode26 123 45678) (replicate 26 1) ++ [EvFrameTimer 2]) (mkReader [] false 0) =
  [(2, ("wiegand_26", "123:45678"))].
Proof.
  apply (card_read 123 45678 (replicate 26 1) 2 (mkReader [] false 0) []);
    first [reflexivity | vm_compute; split; congruence | repeat constructor; vm_compute; congruence | vm_compute; congruence].
Defined.
