(* ===== verification/Osdp.v ===== *)
(** * OSDP v2 relay (osdp_relay.go)

    Packet construction with its CRC-16, the commands of the relay, and the
    rolling sequence number.  The serial device is the environment: opening or
    writing it may fail ([SerialReply]); [wire] records the packets completely
    written, in order.  A reference receiver ([parse_packet]) reads packets back. *)

From S2P Require Import Prelude GoStrings GoTime Bytes.
#[local] Open Scope Z_scope.

Definition osdpSOM : Z := 0x53.
Definition osdpCmdPoll : Z := 0x60.
Definition osdpCmdOut : Z := 0x68.
Definition osdpCmdLED : Z := 0x69.
Definition osdpCmdBuz : Z := 0x6A.
Definition osdpOutPermanentOff : Z := 0x01.
Definition osdpOutTemporaryOn : Z := 0x03.

Record OSDPRelay := mkOSDPRelay {
  address : Z;
  seq : Z;
  wire : list bytes
}.

#[export] Instance eta_osdp : Eta OSDPRelay := fun r => mkOSDPRelay (address r) (seq r) (wire r).

Inductive SerialReply := SerialOk | OpenFails | WriteFails.
Inductive osdp_err := ErrDeviceNotFound | ErrAddress | ErrOpen | ErrWrite.

(** [device_found] is the answer of [os.Stat]; the address is a Go byte. *)
Definition NewOSDPRelay (device_found : bool) (addr : Z) : result osdp_err OSDPRelay :=
  if negb device_found then Err ErrDeviceNotFound
  else if 126 <? addr then Err ErrAddress
  else Ok (mkOSDPRelay addr 0 []).

(** ** CRC-16 *)

(** One bit of the inner loop. *)
Definition crc_bit (crc : Z) : Z :=
  if negb (Z.land crc 0x8000 =? 0) then Z.lxor (u16 (Z.shiftl crc 1)) 0x1021
  else u16 (Z.shiftl crc 1).

Definition crc_shift (crc : Z) : Z := Nat.iter 8 crc_bit crc.

(** One byte of the outer loop. *)
Definition crc_byte (crc : Z) (b : ascii) : Z :=
  crc_shift (Z.lxor crc (u16 (Z.shiftl (code b) 8))).

Definition osdpCRC16 (data : bytes) : Z := fold_left crc_byte data 0x1D0F.

(** ** Packets *)

Definition controlByte (r : OSDPRelay) : Z := Z.lor 0x04 (Z.land (seq r) 0x03).

(** Two bytes, the least significant first: [byte(n&0xFF), byte((n>>8)&0xFF)]. *)
Definition le16 (n : Z) : bytes := [chr (Z.land n 0xFF); chr (Z.land (Z.shiftr n 8) 0xFF)].

Definition buildPacket (r : OSDPRelay) (cmdID : Z) (data : bytes) : bytes :=
  let totalLen := 5 + 1 + blen data + 2 in
  let pkt := [chr osdpSOM; chr (address r)] ++ le16 totalLen
               ++ [chr (controlByte r); chr cmdID] ++ data in
  pkt ++ le16 (osdpCRC16 pkt).

Definition sendCommand (io : SerialReply) (cmdID : Z) (data : bytes) : op OSDPRelay osdp_err unit :=
  packet ← gets (λ r, buildPacket r cmdID data);
  match io with
  | OpenFails => throw ErrOpen
  | WriteFails => throw ErrWrite
  | SerialOk =>
      modify (λ r, r <| wire := wire r ++ [packet] |> <| seq := Z.land (u8 (seq r + 1)) 0x03 |>)
  end.

(** ** Commands *)

(** [duration] in nanoseconds; [Milliseconds] and the division truncate. *)
Definition timer_units (duration : Z) : Z :=
  let timerUnits := Z.quot (Z.quot duration 1000000) 100 in
  let timerUnits := if 65535 <? timerUnits then 65535 else timerUnits in
  if timerUnits <? 1 then 50 else timerUnits.

Definition Unlock (io : SerialReply) (duration : Z) : op OSDPRelay osdp_err unit :=
  sendCommand io osdpCmdOut ([chr 0x00; chr osdpOutTemporaryOn] ++ le16 (timer_units duration)).

Definition Close (io : SerialReply) : op OSDPRelay osdp_err unit :=
  sendCommand io osdpCmdOut [chr 0x00; chr osdpOutPermanentOff; chr 0x00; chr 0x00].

Definition Poll (io : SerialReply) : op OSDPRelay osdp_err unit := sendCommand io osdpCmdPoll [].

Definition SetLED (io : SerialReply) (readerNum ledNum tempColor permColor timerUnits : Z) : op OSDPRelay osdp_err unit :=
  sendCommand io osdpCmdLED
    ([chr readerNum; chr ledNum; chr 0x01; chr 0x01; chr 0x01; chr tempColor; chr 0x00]
       ++ le16 timerUnits ++ [chr 0x01; chr 0x01; chr 0x00; chr permColor; chr 0x00]).

Definition Buzzer (io : SerialReply) (readerNum toneCode onTime offTime count : Z) : op OSDPRelay osdp_err unit :=
  sendCommand io osdpCmdBuz [chr readerNum; chr toneCode; chr onTime; chr offTime; chr count].

(** ** Reference receiver *)

Definition le_value (b : bytes) : Z :=
  match b with [lo; hi] => code lo + 256 * code hi | _ => -1 end.

(** A received packet is accepted when its marker, length and CRC agree; the
    fields are address, sequence number, command and data. *)
Definition parse_packet (p : bytes) : option (Z * Z * Z * bytes) :=
  match p with
  | som :: adr :: l0 :: l1 :: ctrl :: cmd :: rest =>
      if (code som =? osdpSOM) && (le_value [l0; l1] =? blen p) && (8 <=? blen p)
         && (le_value (drop (length p - 2) p) =? osdpCRC16 (take (length p - 2) p))
      then Some (code adr, Z.land (code ctrl) 0x03, code cmd, take (length rest - 2) rest)
      else None
  | _ => None
  end.

(** ** CRC facts *)

Lemma low_byte n : Z.land n 0xFF = n mod 256.
Proof. change 0xFF with (Z.ones 8). by rewrite Z.land_ones. Qed.

Lemma le_value_le16 n : 0 <= n < 65536 → le_value (le16 n) = n.
Proof.
  intros Hn. unfold le_value, le16. rewrite !low_byte, !code_chr, !Z.mod_mod, Z.shiftr_div_pow2 by lia.
  change (2 ^ 8) with 256. rewrite (Z.mod_small (n / 256)).
  - pose proof (Z.div_mod n 256). lia.
  - split; [apply Z.div_pos|apply Z.div_lt_upper_bound]; lia.
Qed.

Definition word16 (z : Z) : Prop := 0 <= z < 65536.

Lemma lxor_word16 a b : word16 a → word16 b → word16 (Z.lxor a b).
Proof.
  intros [Ha Ha'] [Hb Hb']. assert (0 <= Z.lxor a b) as H0 by (apply Z.lxor_nonneg; lia).
  split; [done|]. destruct (Z.eq_dec (Z.lxor a b) 0) as [->|Hne]; [lia|].
  apply (Z.log2_lt_pow2 _ 16); [lia|]. pose proof (Z.log2_lxor a b Ha Hb).
  assert (∀ x, 0 <= x → x < 65536 → Z.log2 x < 16) as Hlog.
  { intros x ? ?. destruct (Z.eq_dec x 0) as [->|]; [cbv; done|]. apply Z.log2_lt_pow2; lia. }
  pose proof (Hlog a Ha Ha'). pose proof (Hlog b Hb Hb'). lia.
Qed.

(** Multiplication by x modulo the polynomial, arithmetically. *)
Lemma crc_bit_eq c : word16 c →
  crc_bit c = if c <? 32768 then 2 * c else Z.lxor (2 * (c - 32768)) 0x1021.
Proof.
  intros [Hc0 Hc1]. unfold crc_bit, u16. rewrite Z.shiftl_mul_pow2 by lia.
  assert (Z.land c 0x8000 = 32768 * (c / 32768)) as ->.
  { change 0x8000 with (Z.shiftl (Z.ones 1) 15).
    replace c with (Z.lor (Z.shiftl (c / 32768) 15) (c mod 32768)) at 1.
    2: { rewrite Z.lor_comm. change 32768 with (2 ^ 15). rewrite <- Z.land_ones, <- Z.shiftr_div_pow2 by lia.
         rewrite Z.lor_comm. rewrite <- Z.ldiff_ones_r by lia. apply Z.lor_ldiff_and. }
    rewrite Z.land_lor_distr_l, <- Z.shiftl_land, Z.land_ones by lia.
    rewrite Z.shiftl_mul_pow2 by lia. change (2 ^ 15) with 32768.
    assert (Z.land (c mod 32768) (Z.shiftl (Z.ones 1) 15) = 0) as ->.
    { change 32768 with (2 ^ 15). rewrite <- Z.land_ones, <- Z.land_assoc by lia. apply Z.land_0_r. }
    rewrite Z.lor_0_r. change (Z.shiftl (Z.ones 1) 15) with 32768. change (2 ^ 1) with 2. rewrite Z.mod_small; [lia|]. pose proof (Z.div_pos c 32768). pose proof (Z.div_lt_upper_bound c 32768 2). lia. }
  change (2 ^ 1) with 2. change (2 ^ 16) with 65536.
  destruct (Z.ltb_spec c 32768).
  - rewrite (Z.div_small c) by lia. simpl. rewrite Z.mod_small by lia. lia.
  - assert (c / 32768 = 1) as -> by (symmetry; apply (Z.div_unique_pos c 32768 1 (c - 32768)); lia).
    simpl negb. cbv iota. f_equal. symmetry. apply (Z.mod_unique_pos _ _ 1); lia.
Qed.

Lemma crc_bit_word c : word16 c → word16 (crc_bit c).
Proof.
  intros H. rewrite crc_bit_eq by done. unfold word16 in *. destruct (Z.ltb_spec c 32768); [lia|].
  apply lxor_word16; unfold word16; lia.
Qed.

Lemma crc_bit_inj a b : word16 a → word16 b → crc_bit a = crc_bit b → a = b.
Proof.
  intros Ha Hb. rewrite !crc_bit_eq by done. unfold word16 in *.
  assert (∀ z, Z.odd (Z.lxor (2 * z) 0x1021) = true) as Hodd.
  { intros z. rewrite <- !Z.bit0_odd, Z.lxor_spec, Z.testbit_even_0. done. }
  assert (∀ z, Z.odd (2 * z) = false) as Heven by (intros; by rewrite Z.odd_mul).
  destruct (Z.ltb_spec a 32768), (Z.ltb_spec b 32768); intros E; try lia.
  - apply (f_equal Z.odd) in E. by rewrite Hodd, Heven in E.
  - apply (f_equal Z.odd) in E. by rewrite Hodd, Heven in E.
  - apply (f_equal (λ z, Z.lxor z 0x1021)) in E. rewrite !Z.lxor_assoc, Z.lxor_nilpotent, !Z.lxor_0_r in E. lia.
Qed.

Lemma crc_bit_xor c : word16 c →
  crc_bit c = Z.lxor (Z.land (Z.shiftl c 1) (Z.ones 16)) (if Z.testbit c 15 then 0x1021 else 0).
Proof.
  intros Hc. rewrite crc_bit_eq by done. destruct Hc as [Hc0 Hc1].
  rewrite Z.land_ones, Z.shiftl_mul_pow2, Z.testbit_odd, Z.shiftr_div_pow2 by lia.
  change (2 ^ 15) with 32768. change (2 ^ 16) with 65536. change (2 ^ 1) with 2.
  destruct (Z.ltb_spec c 32768).
  - rewrite (Z.div_small c) by lia. simpl Z.odd. cbv iota. rewrite Z.lxor_0_r, Z.mod_small; lia.
  - assert (c / 32768 = 1) as -> by (symmetry; apply (Z.div_unique_pos c 32768 1 (c - 32768)); lia).
    simpl Z.odd. cbv iota. f_equal. apply (Z.mod_unique_pos _ _ 1); lia.
Qed.

Lemma crc_bit_linear a b :
  word16 a → word16 b → crc_bit (Z.lxor a b) = Z.lxor (crc_bit a) (crc_bit b).
Proof.
  intros Ha Hb. rewrite !crc_bit_xor by (done || by apply lxor_word16). rewrite Z.lxor_spec.
  apply Z.bits_inj'. intros n Hn. rewrite Z.shiftl_lxor.
  repeat rewrite ?Z.lxor_spec, ?Z.land_spec.
  destruct (Z.testbit (Z.ones 16) n), (Z.testbit a 15), (Z.testbit b 15),
    (Z.testbit (Z.shiftl a 1) n), (Z.testbit (Z.shiftl b 1) n); simpl; rewrite ?Z.bits_0;
    by destruct (Z.testbit 0x1021 n).
Qed.

Lemma iter_word k c : word16 c → word16 (Nat.iter k crc_bit c).
Proof. intros; induction k; simpl; [done|]. by apply crc_bit_word. Qed.

Lemma iter_inj k a b : word16 a → word16 b → Nat.iter k crc_bit a = Nat.iter k crc_bit b → a = b.
Proof.
  intros Ha Hb; induction k; simpl; [done|]. intros E%crc_bit_inj; [auto|by apply iter_word..].
Qed.

Lemma iter_linear k a b : word16 a → word16 b →
  Nat.iter k crc_bit (Z.lxor a b) = Z.lxor (Nat.iter k crc_bit a) (Nat.iter k crc_bit b).
Proof.
  intros Ha Hb; induction k as [|k IH]; simpl; [done|]. rewrite IH. apply crc_bit_linear; by apply iter_word.
Qed.

Lemma iter_small k v : 0 <= v → (k ≤ 8)%nat → v < 256 → Nat.iter k crc_bit v = v * 2 ^ Z.of_nat k.
Proof.
  intros H0 Hk Hv. induction k as [|k IH]; [simpl; lia|]. change (Nat.iter (S k) crc_bit v) with (crc_bit (Nat.iter k crc_bit v)). rewrite IH by lia.
  assert (2 ^ Z.of_nat k <= 2 ^ 7) by (apply Z.pow_le_mono_r; lia). change (2 ^ 7) with 128 in *.
  rewrite crc_bit_eq by (unfold word16; nia).
  rewrite (proj2 (Z.ltb_lt _ _)) by nia. rewrite Nat2Z.inj_succ, Z.pow_succ_r by lia. lia.
Qed.

Lemma code_word b : u16 (Z.shiftl (code b) 8) = code b * 256 ∧ word16 (code b * 256).
Proof.
  pose proof (code_range b). unfold u16, word16. rewrite Z.shiftl_mul_pow2 by lia.
  change (2 ^ 8) with 256. change (2 ^ 16) with 65536. rewrite Z.mod_small; lia.
Qed.

Lemma crc_byte_word c b : word16 c → word16 (crc_byte c b).
Proof.
  intros Hc. unfold crc_byte. destruct (code_word b) as [-> Hb]. by apply iter_word, lxor_word16.
Qed.

Lemma crc_fold_word l c : word16 c → word16 (fold_left crc_byte l c).
Proof. revert c; induction l; intros c Hc; simpl; [done|]. apply IHl. by apply crc_byte_word. Qed.

Lemma crc16_word l : word16 (osdpCRC16 l).
Proof. apply crc_fold_word. unfold word16. lia. Qed.

Lemma lxor_cancel_l a b c : Z.lxor a b = Z.lxor a c → b = c.
Proof.
  intros E. apply (f_equal (Z.lxor a)) in E. by rewrite <- !Z.lxor_assoc, Z.lxor_nilpotent, !Z.lxor_0_l in E.
Qed.

Lemma crc_fold_inj l a b :
  word16 a → word16 b → fold_left crc_byte l a = fold_left crc_byte l b → a = b.
Proof.
  revert a b; induction l as [|x l IH]; intros a b Ha Hb; simpl; [done|].
  intros E%IH; [|by apply crc_byte_word..]. unfold crc_byte in E. destruct (code_word x) as [Hx ?].
  rewrite Hx in E. apply iter_inj in E; [|by apply lxor_word16..].
  rewrite !(Z.lxor_comm _ (code x * 256)) in E. by apply lxor_cancel_l in E.
Qed.

(** Two bytes in a row are one 16-bit word shifted sixteen times. *)
Lemma crc_two c x y : word16 c →
  crc_byte (crc_byte c x) y = Nat.iter (8 + 8) crc_bit (Z.lxor c (Z.lxor (code x * 256) (code y))).
Proof.
  intros Hc. unfold crc_byte, crc_shift. destruct (code_word x) as [-> Hx], (code_word y) as [-> Hy].
  pose proof (code_range y) as Ry. assert (word16 (code y)) as Hyw by (unfold word16; lia).
  replace (code y * 256) with (Nat.iter 8 crc_bit (code y)) by (rewrite iter_small; lia).
  rewrite <- iter_linear by (done || by apply lxor_word16).
  by rewrite Nat.iter_add, Z.lxor_assoc.
Qed.

Lemma word_of_bytes x y : Z.lxor (code x * 256) (code y) = code x * 256 + code y.
Proof.
  pose proof (code_range x). pose proof (code_range y).
  rewrite Z.add_nocarry_lxor; [done|]. change 256 with (2 ^ 8). rewrite <- Z.shiftl_mul_pow2 by lia.
  apply Z.bits_inj'. intros n Hn. rewrite Z.land_spec, Z.bits_0, Z.shiftl_spec by done.
  destruct (Z.ltb_spec n 8).
  - by rewrite (Z.testbit_neg_r _ (n - 8)) by lia.
  - rewrite (Z.bits_above_log2 (code y) n), andb_false_r; [done|lia|].
    destruct (Z.eq_dec (code y) 0) as [->|]; [cbn; lia|].
    apply Z.log2_lt_pow2; [lia|]. apply Z.lt_le_trans with (2 ^ 8); [change (2 ^ 8) with 256; lia|].
    apply Z.pow_le_mono_r; lia.
Qed.

Lemma crc_two_inj c x y x' y' : word16 c →
  crc_byte (crc_byte c x) y = crc_byte (crc_byte c x') y' → x = x' ∧ y = y'.
Proof.
  intros Hc. rewrite !crc_two by done. intros E%iter_inj.
  - apply lxor_cancel_l in E. rewrite !word_of_bytes in E.
    pose proof (code_range x). pose proof (code_range x'). pose proof (code_range y). pose proof (code_range y').
    split; apply code_inj; lia.
  - apply lxor_word16; [done|]. rewrite word_of_bytes. pose proof (code_range x). pose proof (code_range y). unfold word16; lia.
  - apply lxor_word16; [done|]. rewrite word_of_bytes. pose proof (code_range x'). pose proof (code_range y'). unfold word16; lia.
Qed.

Lemma crc_burst (pre post : bytes) x y x' y' :
  osdpCRC16 (pre ++ [x; y] ++ post) = osdpCRC16 (pre ++ [x'; y'] ++ post) → x = x' ∧ y = y'.
Proof.
  unfold osdpCRC16. rewrite !fold_left_app. simpl.
  assert (word16 (fold_left crc_byte pre 0x1D0F)) as Hw by (apply crc_fold_word; unfold word16; lia).
  intros E%crc_fold_inj; [|by apply crc_byte_word, crc_byte_word..]. by apply crc_two_inj in E.
Qed.

(** ** Packets read back *)

Definition relay_ok (r : OSDPRelay) : Prop := 0 <= address r <= 126 ∧ 0 <= seq r <= 3.

Lemma le16_length n : length (le16 n) = 2%nat.
Proof. done. Qed.

Lemma controlByte_range r : 0 <= seq r <= 3 → controlByte r = 4 + seq r.
Proof.
  intros Hs. assert (seq r = 0 ∨ seq r = 1 ∨ seq r = 2 ∨ seq r = 3) as [E|[E|[E|E]]] by lia;
    unfold controlByte; by rewrite E.
Qed.

Lemma crc_trailer (b : bytes) : le_value (drop (length (b ++ le16 (osdpCRC16 b)) - 2) (b ++ le16 (osdpCRC16 b)))
  = osdpCRC16 (take (length (b ++ le16 (osdpCRC16 b)) - 2) (b ++ le16 (osdpCRC16 b))).
Proof.
  rewrite length_app, le16_length, Nat.add_sub, drop_app_length, take_app_length.
  apply le_value_le16, crc16_word.
Qed.

Lemma parse_build r cmd data :
  relay_ok r → 0 <= cmd < 256 → blen data <= 65527 →
  parse_packet (buildPacket r cmd data) = Some (address r, seq r, cmd, data).
Proof.
  intros [Ha Hs] Hc Hd. unfold buildPacket.
  set (tl := 5 + 1 + blen data + 2).
  set (b := [chr osdpSOM; chr (address r)] ++ le16 tl ++ [chr (controlByte r); chr cmd] ++ data).
  pose proof (crc_trailer b) as Hcrc. set (t := le16 (osdpCRC16 b)) in *.
  assert (length t = 2%nat) as Ht by done. clearbody t.
  assert (blen (b ++ t) = tl) as Hl.
  { unfold blen, tl, blen in *. rewrite length_app, Ht. subst b. simpl. lia. }
  set (p := b ++ t) in *.
  assert (p = chr osdpSOM :: chr (address r) :: chr (Z.land tl 0xFF) :: chr (Z.land (Z.shiftr tl 8) 0xFF)
    :: chr (controlByte r) :: chr cmd :: data ++ t) as Hp by reflexivity.
  clearbody p. unfold parse_packet. rewrite Hp at 1. cbv iota.
  rewrite Hl, Hcrc, Z.eqb_refl.
  change [chr (Z.land tl 0xFF); chr (Z.land (Z.shiftr tl 8) 0xFF)] with (le16 tl).
  assert (0 <= blen data) by (unfold blen; lia).
  rewrite le_value_le16 by (unfold tl; lia). rewrite Z.eqb_refl, (proj2 (Z.leb_le 8 tl)) by (unfold tl; lia).
  rewrite !code_chr, controlByte_range, !(Z.mod_small _ 256) by (unfold osdpSOM; lia).
  rewrite length_app, Ht, Nat.add_sub, take_app_length.
  assert (Z.land (4 + seq r) 0x03 = seq r) as ->; [|by rewrite Z.eqb_refl].
  assert (seq r = 0 ∨ seq r = 1 ∨ seq r = 2 ∨ seq r = 3) as [E|[E|[E|E]]] by lia; by rewrite E.
Qed.

(** The last two bytes decide, together with the rest, whether a packet is taken. *)
Lemma parse_crc (b t : bytes) f :
  length t = 2%nat → parse_packet (b ++ t) = Some f → le_value t = osdpCRC16 b.
Proof.
  intros Ht. unfold parse_packet. rewrite !length_app, !Ht, !Nat.add_sub, !drop_app_length, !take_app_length.
  destruct (b ++ t) as [|? [|? [|? [|? [|? [|? ?]]]]]]; try done. intros H.
  match type of H with (if ?c then _ else _) = _ => destruct c eqn:E; [|done] end. by boolp.
Qed.

(** ** Sequences of commands *)

Inductive command :=
| CUnlock (duration : Z) | CClose | CPoll
| CSetLED (readerNum ledNum tempColor permColor timerUnits : Z)
| CBuzzer (readerNum toneCode onTime offTime count : Z).

Definition run_command (c : SerialReply * command) : OSDPRelay → OSDPRelay :=
  let '(io, c) := c in
  exec match c with
       | CUnlock d => Unlock io d
       | CClose => Close io
       | CPoll => Poll io
       | CSetLED a b c d e => SetLED io a b c d e
       | CBuzzer a b c d e => Buzzer io a b c d e
       end.

Definition run_commands (cs : list (SerialReply * command)) (r : OSDPRelay) : OSDPRelay :=
  fold_left (λ r c, run_command c r) cs r.

Lemma next_seq s : 0 <= s <= 3 → Z.land (u8 (s + 1)) 0x03 = (s + 1) mod 4.
Proof.
  intros Hs. unfold u8. rewrite Z.mod_small by (change (2 ^ 8) with 256; lia).
  change 0x03 with (Z.ones 2). by rewrite Z.land_ones.
Qed.

(** Every command sends one packet of its own or leaves the relay as it was. *)
Lemma run_command_spec c r :
  run_command c r = r ∨
  ∃ cmd data, 0 <= cmd < 256 ∧ blen data <= 65527 ∧
    run_command c r = r <| wire := wire r ++ [buildPacket r cmd data] |>
                        <| seq := Z.land (u8 (seq r + 1)) 0x03 |>.
Proof.
  destruct c as [[| |] c]; [right|by left; destruct c|by left; destruct c].
  destruct c; (eexists _, _; split; [|split; [|reflexivity]]); vm_compute; intuition congruence.
Qed.

(** What a listener on the bus has been told: packet [i] is accepted, comes from
    this address and carries sequence number [i mod 4]. *)
Definition numbered (addr : Z) (w : list bytes) : Prop :=
  ∀ i p, w !! i = Some p →
    ∃ cmd data, parse_packet p = Some (addr, Z.of_nat i mod 4, cmd, data).

Definition wire_inv (addr : Z) (r : OSDPRelay) : Prop :=
  address r = addr ∧ relay_ok r ∧ seq r = blen (wire r) mod 4 ∧ numbered addr (wire r).

Lemma run_command_inv addr c r : wire_inv addr r → wire_inv addr (run_command c r).
Proof.
  intros (Ha & Hok & Hs & Hn). destruct (run_command_spec c r) as [->|(cmd & data & Hc & Hd & ->)]; [done|].
  destruct Hok as [Haddr Hseq]. unfold wire_inv, relay_ok; simpl. rewrite next_seq by done.
  pose proof (Z.mod_pos_bound (seq r + 1) 4 ltac:(lia)). split_and!; try done; try lia.
  - rewrite Hs. unfold blen. rewrite length_app. simpl length.
    rewrite Nat2Z.inj_add. by rewrite Z.add_mod_idemp_l.
  - intros i p [[_ Hi]|[-> ?]]%lookup_snoc_Some; [by apply Hn|]. simplify_eq.
    exists cmd, data. rewrite parse_build by done. unfold blen in Hs. congruence.
Qed.

(** An OSDP receiver reads back exactly what was sent.  For every relay
    state, command and payload up to 65527 bytes, the packet [buildPacket] makes
    passes the marker, length and CRC checks and yields the relay's address, its
    sequence number, the command and the payload. *)
Theorem packet_roundtrip r cmd (data : bytes) :
  relay_ok r → 0 <= cmd < 256 → blen data <= 65527 →
  parse_packet (buildPacket r cmd data) = Some (address r, seq r, cmd, data).
Proof. apply parse_build. Qed.

Lemma packet_roundtrip_witness :
  parse_packet (buildPacket (mkOSDPRelay 5 2 []) 0x60 []) = Some (5, 2, 0x60, []).
Proof.
  apply (packet_roundtrip (mkOSDPRelay 5 2 []) 0x60 []); [split; simpl; lia|lia|unfold blen; simpl; lia].
Defined.

(** Line noise on at most two neighbouring bytes is always detected.  If a
    packet is accepted, then no packet that differs from it only in two adjacent
    bytes before the CRC field is accepted. *)
Theorem burst_rejected (pre post crc : bytes) x y x' y' f :
  parse_packet (pre ++ [x; y] ++ post ++ crc) = Some f → length crc = 2%nat →
  (x, y) ≠ (x', y') → parse_packet (pre ++ [x'; y'] ++ post ++ crc) = None.
Proof.
  intros H Hc Hne. destruct (parse_packet (pre ++ [x'; y'] ++ post ++ crc)) as [f'|] eqn:H'; [|done].
  exfalso. apply Hne. rewrite app_assoc, app_assoc in H, H'.
  apply parse_crc in H; [|done]. apply parse_crc in H'; [|done].
  rewrite H in H'. rewrite <- !app_assoc in H'. by apply crc_burst in H' as [-> ->].
Qed.

Lemma burst_rejected_witness :
  let p := buildPacket (mkOSDPRelay 5 2 []) 0x60 [] in
  parse_packet (take 4 p ++ [chr 6; chr 0x68] ++ [] ++ drop 6 p) = None.
Proof.
  set (p := buildPacket (mkOSDPRelay 5 2 []) 0x60 []). cbv zeta.
  apply (burst_rejected (take 4 p) [] (drop 6 p) (chr 6) (chr 0x60) (chr 6) (chr 0x68) (5, 2, 0x60, [])).
  - vm_compute. reflexivity.
  - vm_compute. reflexivity.
  - vm_compute. congruence.
Defined.

Definition ms : Z := 1000000.

(** The unlock time sent to the reader is the one asked for.  [Unlock] puts
    one osdp_OUT packet on the wire that turns output 0 on for a timer that fits
    in 16 bits and is never zero; for requests between 100 ms and 6553.5 s it is
    the request rounded down to 100 ms, longer requests give 6553.5 s.  When the
    serial port fails, neither the wire nor the sequence number changes. *)
Theorem unlock_spec io d r :
  relay_ok r →
  match Unlock io d r with
  | (r', Ok _) =>
      io = SerialOk ∧ ∃ p u, wire r' = wire r ++ [p]
        ∧ parse_packet p = Some (address r, seq r, osdpCmdOut, [chr 0; chr osdpOutTemporaryOn] ++ le16 u)
        ∧ 1 <= u <= 65535 ∧ le_value (le16 u) = u
        ∧ (100 * ms <= d → d < 6553600 * ms → u * (100 * ms) <= d < (u + 1) * (100 * ms))
        ∧ (6553600 * ms <= d → u = 65535)
  | (r', Err _) => io ≠ SerialOk ∧ r' = r
  end.
Proof.
  intros Hok. destruct io; simpl; [|done..]. split; [done|].
  eexists _, (timer_units d). split; [reflexivity|].
  assert (1 <= timer_units d <= 65535 ∧
    (100 * ms <= d → d < 6553600 * ms → timer_units d * (100 * ms) <= d < (timer_units d + 1) * (100 * ms))
    ∧ (6553600 * ms <= d → timer_units d = 65535)) as (H1 & H2 & H3).
  { unfold timer_units, ms. rewrite Z.quot_quot by lia. change (1000000 * 100) with 100000000.
    pose proof (Z.quot_rem d 100000000 ltac:(lia)) as Q.
    assert (0 <= d → 0 <= Z.rem d 100000000 < 100000000) by (intros; apply Z.rem_bound_pos; lia).
    assert (d <= 0 → Z.rem d 100000000 <= 0) by (intros; apply Z.rem_nonpos; lia).
    set (q := Z.quot d 100000000) in *. set (m := Z.rem d 100000000) in *. clearbody q m.
    destruct (Z.ltb_spec 65535 q).
    - destruct (Z.ltb_spec 65535 1); lia.
    - destruct (Z.ltb_spec q 1); lia. }
  split_and!; try done; try lia.
  - apply parse_build; [done|unfold osdpCmdOut; lia|unfold blen; simpl length; lia].
  - apply le_value_le16. lia.
Qed.

Lemma unlock_spec_witness : ∃ p, wire (exec (Unlock SerialOk (5 * second)) (mkOSDPRelay 5 2 [])) = [p].
Proof.
  pose proof (unlock_spec SerialOk (5 * second) (mkOSDPRelay 5 2 [])) as H.
  destruct H as (_ & p & u & H & _); [split; simpl; lia|]. exists p. exact H.
Defined.

(** The packets on the bus are numbered 0, 1, 2, 3, 0, ...  Whatever
    commands are issued and whichever of them the serial port lets through, the
    [i]-th packet that reaches the wire is accepted by a receiver, carries the
    relay's address and the sequence number [i mod 4]: a failed write uses up no
    number, and two successive packets never share one. *)
Theorem packets_numbered (found : bool) addr r cs :
  0 <= addr → NewOSDPRelay found addr = Ok r →
  numbered addr (wire (run_commands cs r)).
Proof.
  intros Ha Hn. assert (wire_inv addr r) as Hinv.
  { unfold NewOSDPRelay in Hn. destruct found; [|done]. simpl in Hn.
    destruct (Z.ltb_spec 126 addr); simplify_eq.
    split; [done|]. split; [split; simpl; lia|]. split; [done|]. by intros i p. }
  assert (wire_inv addr (run_commands cs r)) as (_ & _ & _ & ?); [|done].
  unfold run_commands. clear Hn. revert r Hinv.
  induction cs as [|c cs IH]; intros r Hinv; simpl; [done|]. by apply IH, run_command_inv.
Qed.

Lemma packets_numbered_witness :
  numbered 7 (wire (run_commands [(SerialOk, CPoll); (WriteFails, CPoll); (SerialOk, CUnlock (3 * second))]
                      (mkOSDPRelay 7 0 []))).
Proof. apply (packets_numbered true 7); [lia|reflexivity]. Defined.
