(* ===== verification/Agent.v ===== *)
(** * The gateway agent (agent.go, ble_reader.go, nfc_hce_reader.go, relay.go)

    Local access decisions from the cached rules, the credential and BLE/NFC
    handlers that drive the relay, the offline event queue with its push loop,
    configuration pulls and token handling.  The nonce cache is used through the
    interface [ReplayGuard]; the relay is its [Unlock] calls ([unlocks], whose
    errors the agent only logs); HTTP, WebSocket and file replies are arguments.
    The agent's mutex makes each locked region one step: [pushEvents] is the two
    steps [push_take] and [push_finish], between which events can be queued. *)

From S2P Require Import Prelude GoStrings GoTime Bytes ReplayGuard NonceCache Wire.
#[local] Open Scope Z_scope.

Record AccessRule := mkRule {
  CredentialType : string;
  CredentialData : string;
  RuleUserID : string;
  RuleUserEmail : string;
  LockIDs : list string;
  ValidUntil : string
}.

#[export] Instance eta_rule : Eta AccessRule := fun r =>
  mkRule (CredentialType r) (CredentialData r) (RuleUserID r) (RuleUserEmail r) (LockIDs r) (ValidUntil r).

Record AccessEvent := mkEvent {
  EvGatewayID : string;
  EventType : string;
  LockID : string;
  Actor : string;
  Result : string;
  OccurredAt : string
}.

(** The part of the [Agent] struct that is state; [G] is the nonce cache. *)
Record Agent (G : Type) := mkAgent {
  gatewayID : string;
  bootstrapToken : string;
  unlockDuration : Z;
  deviceToken : string;
  accessRules : list AccessRule;
  ruleVersion : string;
  rulesUpdatedAt : Z;
  rulesCacheTTL : Z;
  eventQueue : list AccessEvent;
  nonceCache : option G;
  gatewayIDUint32 : Z;
  offlineSince : Z;
  eventPushBackoff : Z;
  eventQueueDropped : Z;
  unlocks : list Z
}.
Arguments mkAgent {G}.
Arguments gatewayID {G}. Arguments bootstrapToken {G}. Arguments unlockDuration {G}.
Arguments deviceToken {G}. Arguments accessRules {G}. Arguments ruleVersion {G}.
Arguments rulesUpdatedAt {G}. Arguments rulesCacheTTL {G}. Arguments eventQueue {G}.
Arguments nonceCache {G}. Arguments gatewayIDUint32 {G}. Arguments offlineSince {G}.
Arguments eventPushBackoff {G}. Arguments eventQueueDropped {G}. Arguments unlocks {G}.

#[export] Instance eta_agent G : Eta (Agent G) := fun a =>
  mkAgent (gatewayID a) (bootstrapToken a) (unlockDuration a) (deviceToken a) (accessRules a)
    (ruleVersion a) (rulesUpdatedAt a) (rulesCacheTTL a) (eventQueue a) (nonceCache a)
    (gatewayIDUint32 a) (offlineSince a) (eventPushBackoff a) (eventQueueDropped a) (unlocks a).

Definition eventQueueMaxSize : nat := Z.to_nat 10000.
Definition eventPushInterval : Z := 5 * second.
Definition eventBackoffMax : Z := 5 * minute.
Definition eventBatchMaxSize : nat := Z.to_nat 200.

(** ** Decisions from the cached rules *)

(** The two tests on a rule's fields. *)
Definition rule_expired (now : Z) (r : AccessRule) : bool :=
  negb (is_empty (ValidUntil r))
  && match parse_rfc3339 (ValidUntil r) with
     | Some expiry => After now expiry
     | None => false
     end.
Definition has_lock (lockID : string) (r : AccessRule) : bool :=
  existsb' (fun id => String.eqb id lockID) (LockIDs r).

Section agent.
Context {G : Type} `{!ReplayGuard G, !Crypto}.
Implicit Types a : Agent G.

(** The cached rules are older than [rulesCacheTTL]: deny everything. *)
Definition cacheExpired (now : Z) a : bool :=
  (0 <? rulesCacheTTL a) && negb (IsZero (rulesUpdatedAt a))
  && (rulesCacheTTL a <? time_sub now (rulesUpdatedAt a)).

Definition rule_matches (credentialType credentialData : string) (r : AccessRule) : bool :=
  String.eqb (ToLower (CredentialType r)) (ToLower (TrimSpace credentialType))
  && String.eqb (ToUpper (CredentialData r)) (ToUpper (TrimSpace credentialData)).

Definition VerifyCredential (credentialType credentialData lockID : string) (now : Z) a
  : string * string * string :=
  if cacheExpired now a then ("deny", "", "")
  else match findi (rule_matches credentialType credentialData) (accessRules a) with
  | None => ("deny", "", "")
  | Some (_, rule) =>
      if rule_expired now rule then ("deny", RuleUserID rule, RuleUserEmail rule)
      else if has_lock lockID rule then ("allow", RuleUserID rule, RuleUserEmail rule)
      else ("deny", RuleUserID rule, RuleUserEmail rule)
  end.

Definition ble_rule (userID : string) (r : AccessRule) : bool :=
  String.eqb (ToLower (CredentialType r)) "ble_signature" && String.eqb (RuleUserID r) userID.

(** The arguments are pointers: [None] is nil. *)
Definition VerifyBLEAuth (challenge : option BLEChallenge) (response : option BLEAuthResponse)
    (lockID : string) (now : Z) a : string * string * string :=
  match challenge, response with
  | Some challenge, Some response =>
      if IsExpired1 now challenge then ("deny", UserID response, "")
      else if cacheExpired now a then ("deny", UserID response, "")
      else match findi (ble_rule (UserID response)) (accessRules a) with
      | None => ("deny", UserID response, "")
      | Some (_, rule) =>
          match VerifyBLESignature (CredentialData rule) (Nonce1 challenge) (UserID response)
                  (Signature response) with
          | Err _ => ("deny", RuleUserID rule, RuleUserEmail rule)
          | Ok _ =>
              if has_lock lockID rule then ("allow", RuleUserID rule, RuleUserEmail rule)
              else ("deny", RuleUserID rule, RuleUserEmail rule)
          end
      end
  | _, _ => ("deny", "", "")
  end.

(** The keys collected from the rules: exact credential type, not expired. *)
Definition candidate (now : Z) (userID : string) (r : AccessRule) : bool :=
  String.eqb (CredentialType r) "ble_signature" && String.eqb (RuleUserID r) userID
  && negb (rule_expired now r).

(** The loop over candidate keys: the first that verifies, or the last error. *)
Fixpoint try_keys (keys : list string) (nonce : bytes) (userID transport : string)
    (signature : bytes) (lastErr : option string) : option string :=
  match keys with
  | [] => lastErr
  | k :: keys' =>
      match VerifyBLESignatureV2 k nonce userID transport signature with
      | Ok _ => None
      | Err e => try_keys keys' nonce userID transport signature (Some e)
      end
  end.

Definition VerifyAuthResponseV2 (resp : BLEAuthResponse) (challenge : bytes) (transport : string)
    (now : Z) a : Agent G * BLEAuthResult :=
  if Nat.ltb (length challenge) 32 then (a, mkResult BLEResultDenied "challenge_too_short")
  else
    let nonce := take 32 challenge in
    if cacheExpired now a then (a, mkResult BLEResultDenied "cache_expired_offline_too_long")
    else
      let '(cache, reused) :=
        match nonceCache a with
        | None => (None, false)
        | Some g => let '(g', b) := guard_contains nonce now g in (Some g', b)
        end in
      let a := a <| nonceCache := cache |> in
      if reused then (a, mkResult BLEResultDenied "nonce_reuse")
      else if Nat.leb ChallengeV2Size (length challenge)
              && negb (get_be (slice 48 52 challenge) =? gatewayIDUint32 a)
      then (a, mkResult BLEResultDenied "gateway_id_mismatch")
      else
        let candidates := CredentialData <$> filterb (candidate now (UserID resp)) (accessRules a) in
        if Nat.eqb (length candidates) 0 then (a, mkResult BLEResultUnknownUser "unknown_user")
        else match try_keys candidates nonce (UserID resp) transport (Signature resp) None with
        | Some e => (a, mkResult BLEResultInvalidSignature e)
        | None =>
            (a <| nonceCache := guard_add nonce now now <$> nonceCache a |>,
             mkResult BLEResultGranted "access_granted")
        end.

(** ** Events *)

Definition queueEvent (evt : AccessEvent) a : Agent G :=
  let a :=
    if Nat.leb eventQueueMaxSize (length (eventQueue a)) then
      let n := (length (eventQueue a) - eventQueueMaxSize + 1)%nat in
      a <| eventQueue := drop n (eventQueue a) |>
        <| eventQueueDropped := wrap64 (eventQueueDropped a + Z.of_nat n) |>
    else a in
  a <| eventQueue := eventQueue a ++ [evt] |>.

(** The subscription of a Matter lock appends without the bound. *)
Definition lock_state_changed (state : string) (now : Z) a : Agent G :=
  a <| eventQueue := eventQueue a ++
         [mkEvent (gatewayID a) "lock_state_changed" "" "" state (format_rfc3339 now)] |>.

(** [relay.Unlock(a.unlockDuration)]; its error is logged. *)
Definition unlock a : Agent G := a <| unlocks := unlocks a ++ [unlockDuration a] |>.

Definition HandleBLEAuth (challenge : BLEChallenge) (response : BLEAuthResponse) (lockID : string)
    (now : Z) a : Agent G * BLEAuthResult :=
  let '(decision, userID, userEmail) := VerifyBLEAuth (Some challenge) (Some response) lockID now a in
  if String.eqb decision "allow" then
    (queueEvent (mkEvent (gatewayID a) "access_granted" lockID userEmail "allow" (format_rfc3339 now))
       (unlock a),
     mkResult BLEResultGranted "access_granted")
  else
    let '(reason, code) :=
      if IsExpired1 now challenge then ("challenge_expired", BLEResultExpiredChallenge)
      else if is_empty userID then ("unknown_user", BLEResultUnknownUser)
      else ("no_access", BLEResultDenied) in
    (queueEvent (mkEvent (gatewayID a) "access_denied" lockID userEmail reason (format_rfc3339 now)) a,
     mkResult code reason).

Definition HandleCredentialPresented (credentialType credentialData lockID : string) (now : Z) a : Agent G :=
  let '(decision, userID, userEmail) := VerifyCredential credentialType credentialData lockID now a in
  let a := if String.eqb decision "allow" then unlock a else a in
  let eventType := if String.eqb decision "allow" then "access_granted" else "access_denied" in
  queueEvent (mkEvent (gatewayID a) eventType lockID userEmail decision (format_rfc3339 now)) a.

(** ** Pushing events *)

(** First locked region: the backoff, then the batch taken off the queue. *)
Definition push_take a : Agent G * option (list AccessEvent) :=
  if Nat.eqb (length (eventQueue a)) 0 then (a, None)
  else
    let take_batch a :=
      let n := Nat.min (length (eventQueue a)) eventBatchMaxSize in
      (a <| eventQueue := drop n (eventQueue a) |>, Some (take n (eventQueue a))) in
    if 0 <? eventPushBackoff a then
      let a := a <| eventPushBackoff := eventPushBackoff a - eventPushInterval |> in
      if 0 <? eventPushBackoff a then (a, None)
      else take_batch (a <| eventPushBackoff := 0 |>)
    else take_batch a.

(** How the batch fared: accepted by the WebSocket or by an HTTP exchange
    (whatever its status), or the exchange failed. *)
Inductive Sent := SentWS | SentHTTP (status : Z) | SendFailed.

Definition push_finish (batch : list AccessEvent) (r : Sent) (now : Z) a : Agent G :=
  match r with
  | SentWS | SentHTTP _ =>
      let a := if negb (IsZero (offlineSince a)) then a <| offlineSince := time_zero |> else a in
      a <| eventPushBackoff := 0 |> <| eventQueueDropped := 0 |>
  | SendFailed =>
      let a := a <| eventQueue := batch ++ eventQueue a |> in
      let a := if IsZero (offlineSince a) then a <| offlineSince := now |> else a in
      if eventPushBackoff a =? 0 then a <| eventPushBackoff := 10 * second |>
      else
        let b := eventPushBackoff a * 2 in
        a <| eventPushBackoff := if eventBackoffMax <? b then eventBackoffMax else b |>
  end.

(** ** Configuration and tokens *)

(** The reply to [config/pull]: the request failed, a status, a body. *)
Inductive PullReply :=
| PullFailed | PullStatus (code : Z) | PullUndecodable
| PullOk (version : string) (rules : list AccessRule).

Definition pullConfig (reply : PullReply) (now : Z) a : Agent G * result string unit :=
  match reply with
  | PullFailed => (a, Err "request")
  | PullStatus code => (a, Err "config/pull status")
  | PullUndecodable => (a, Err "config/pull decode")
  | PullOk version rules =>
      (a <| accessRules := rules |> <| ruleVersion := version |> <| rulesUpdatedAt := now |>, Ok tt)
  end.

Definition activeToken a : string :=
  if negb (is_empty (deviceToken a)) then deviceToken a else bootstrapToken a.

(** [file] is [None] when no file is configured or it cannot be read. *)
Definition loadDeviceToken (file : option string) a : Agent G * result string unit :=
  match file with
  | None => (a, Err "no device token file")
  | Some data =>
      let token := TrimSpace data in
      if is_empty token then (a, Err "device token file is empty")
      else (a <| deviceToken := token |>, Ok tt)
  end.

Inductive RegisterReply :=
| RegisterFailed | RegisterConflict | RegisterStatus (code : Z) | RegisterUndecodable
| RegisterCreated (newGatewayID newToken : string).

(** [registerDevice] without the certificate exchange (see the header). *)
Definition registerDevice (reply : RegisterReply) a : Agent G * result string unit :=
  match reply with
  | RegisterFailed => (a, Err "register call")
  | RegisterConflict => (a, Ok tt)
  | RegisterStatus _ => (a, Err "register status")
  | RegisterUndecodable => (a, Err "register decode")
  | RegisterCreated gid token =>
      if is_empty token then (a, Err "register returned empty device token")
      else
        let a := a <| deviceToken := token |> in
        (if negb (is_empty gid) then a <| gatewayID := gid |> else a, Ok tt)
  end.

(** ** Readers *)

(** One TCP session of the BLE reader: the nonce read from [rand], whether the
    challenge could be written, and the bytes of the phone's answer. *)
Record Session := mkSession {
  s_nonce : option bytes; s_write_ok : bool; s_read : option bytes; s_now : Z
}.

(** The second component is what the phone is sent. *)
Definition handleSession (lockID : string) (s : Session) a : Agent G * list bytes :=
  let now := s_now s in
  match NewBLEChallengeV2 (s_nonce s) now (gatewayIDUint32 a) with
  | Err _ => (a, [])
  | Ok challenge =>
      let challengeBytes := EncodeV2 challenge in
      if negb (s_write_ok s) then (a, [])
      else match s_read s with
      | None => (a, [challengeBytes])
      | Some input =>
          match DecodeBLEAuthResponse (take 384 input) with
          | Err _ => (a, [challengeBytes; EncodeResult (mkResult BLEResultDenied "invalid_response")])
          | Ok response =>
              let '(a, result) := VerifyAuthResponseV2 response challengeBytes TransportTagBLE now a in
              let sent := [challengeBytes; EncodeResult result] in
              if Code result =? BLEResultGranted then
                (queueEvent (mkEvent (gatewayID a) "access_granted" lockID (UserID response) "allow"
                               (format_rfc3339 now)) (unlock a), sent)
              else
                (queueEvent (mkEvent (gatewayID a) "access_denied" lockID (UserID response)
                               (Reason result) (format_rfc3339 now)) a, sent)
          end
      end
  end.

(** The NFC reader's own state. *)
Record NFCHCEReader := mkNFC { lastGrantedUser : string; lastGrantedAt : Z; cooldown : Z }.

(** One poll; [auth] is what [reader.Authenticate] returns for the challenge. *)
Definition handleOnce (lockID : string) (rnd : option bytes)
    (auth : bytes → result string BLEAuthResponse) (now : Z) (ra : NFCHCEReader * Agent G)
  : NFCHCEReader * Agent G :=
  let '(r, a) := ra in
  match NewBLEChallengeV2 rnd now (gatewayIDUint32 a) with
  | Err _ => (r, a)
  | Ok challenge =>
      let challengeBytes := EncodeV2 challenge in
      match auth challengeBytes with
      | Err _ => (r, a)
      | Ok response =>
          let '(a, result) := VerifyAuthResponseV2 response challengeBytes TransportTagNFCHCE now a in
          if Code result =? BLEResultGranted then
            if String.eqb (UserID response) (lastGrantedUser r)
               && (time_sub now (lastGrantedAt r) <? cooldown r)
            then (r, a)
            else
              (mkNFC (UserID response) now (cooldown r),
               queueEvent (mkEvent (gatewayID a) "access_granted" lockID (UserID response) "allow"
                             (format_rfc3339 now)) (unlock a))
          else
            (r, queueEvent (mkEvent (gatewayID a) "access_denied" lockID (UserID response)
                              (Reason result) (format_rfc3339 now)) a)
      end
  end.
End agent.

Arguments queueEvent : simpl never.
Arguments VerifyAuthResponseV2 : simpl never.
Arguments VerifyCredential : simpl never.
Arguments VerifyBLEAuth : simpl never.
Arguments HandleCredentialPresented : simpl never.
Arguments HandleBLEAuth : simpl never.
Arguments handleSession : simpl never.
Opaque eventQueueMaxSize eventBatchMaxSize.

Fixpoint trim_slashes (s : string) : string :=
  match s with String c s' => if (c =? "/")%char then trim_slashes s' else s | EmptyString => s end.

(** [strings.TrimRight(s, "/")] *)
Definition TrimRightSlash (s : string) : string := rev_string (trim_slashes (rev_string s)).

Definition deriveWSURL (apiURL : string) : string :=
  let u := TrimRightSlash apiURL in
  if HasPrefix u "https://" then "wss://" +:+ TrimPrefix u "https://" +:+ "/api/v1/gateway/ws"
  else if HasPrefix u "http://" then "ws://" +:+ TrimPrefix u "http://" +:+ "/api/v1/gateway/ws"
  else "wss://" +:+ u +:+ "/api/v1/gateway/ws".

Example deriveWSURL_ex :
  deriveWSURL "https://api.example.com/" = "wss://api.example.com/api/v1/gateway/ws"
  ∧ deriveWSURL "http://localhost:8081" = "ws://localhost:8081/api/v1/gateway/ws".
Proof. by vm_compute. Qed.

(** ** Frame lemmas *)

(** Everything a decision depends on but the nonce cache and the event queue. *)
Definition config {G} (a : Agent G) :=
  (gatewayID a, bootstrapToken a, unlockDuration a, deviceToken a, accessRules a, ruleVersion a,
   (rulesUpdatedAt a, rulesCacheTTL a, gatewayIDUint32 a)).

Section frame.
Context {G : Type} `{!ReplayGuard G, !Crypto}.
Implicit Types a : Agent G.

Lemma queueEvent_frame e a :
  config (queueEvent e a) = config a ∧ unlocks (queueEvent e a) = unlocks a
  ∧ nonceCache (queueEvent e a) = nonceCache a ∧ eventPushBackoff (queueEvent e a) = eventPushBackoff a.
Proof. unfold queueEvent. by destruct (Nat.leb _ _). Qed.

Lemma cacheExpired_config now a (b : Agent G) : config a = config b → cacheExpired now a = cacheExpired now b.
Proof. intros [= ]. unfold cacheExpired. congruence. Qed.

Lemma verify2_frame resp ch tr now a :
  let a' := fst (VerifyAuthResponseV2 resp ch tr now a) in
  config a' = config a ∧ unlocks a' = unlocks a ∧ eventQueue a' = eventQueue a.
Proof.
  unfold VerifyAuthResponseV2. repeat case_match; simplify_eq; done.
Qed.

Lemma try_keys_None keys n u tr sig e :
  try_keys keys n u tr sig e = None ↔
  (e = None ∧ keys = []) ∨ ∃ k, k ∈ keys ∧ VerifyBLESignatureV2 k n u tr sig = Ok tt.
Proof.
  revert e; induction keys as [|k keys IH]; intros e; simpl; [set_solver|].
  destruct (VerifyBLESignatureV2 k n u tr sig) as [[]|err] eqn:Hv.
  - split; [|done]. intros _. right. exists k. set_solver.
  - rewrite IH. split.
    + intros [[? _]|(k' & Hk & Hv')]; [done|]. right. exists k'. set_solver.
    + intros [[_ ?]|(k' & [->|Hk]%elem_of_cons & Hv')]; [done|congruence|]. right. eauto.
Qed.

(** When v2 grants, and what it leaves behind. *)
Definition v2_conditions (resp : BLEAuthResponse) (ch : bytes) (tr : string) (now : Z) a : Prop :=
  (32 ≤ length ch)%nat
  ∧ cacheExpired now a = false
  ∧ (∀ g, nonceCache a = Some g → snd (guard_contains (take 32 ch) now g) = false)
  ∧ ((ChallengeV2Size ≤ length ch)%nat → get_be (slice 48 52 ch) = gatewayIDUint32 a)
  ∧ ∃ rule, rule ∈ accessRules a ∧ CredentialType rule = "ble_signature"
      ∧ RuleUserID rule = UserID resp ∧ rule_expired now rule = false
      ∧ VerifyBLESignatureV2 (CredentialData rule) (take 32 ch) (UserID resp) tr (Signature resp) = Ok tt.

Lemma keys_verify now uid rules n tr sig :
  (∃ k, k ∈ CredentialData <$> filterb (candidate now uid) rules
        ∧ VerifyBLESignatureV2 k n uid tr sig = Ok tt) ↔
  ∃ rule, rule ∈ rules ∧ CredentialType rule = "ble_signature"
      ∧ RuleUserID rule = uid ∧ rule_expired now rule = false
      ∧ VerifyBLESignatureV2 (CredentialData rule) n uid tr sig = Ok tt.
Proof.
  split.
  - intros (k & (rule & -> & [Hc Hin]%elem_of_filterb)%list_elem_of_fmap & Hv).
    unfold candidate in Hc. boolp. eauto 10.
  - intros (rule & Hin & Ht & Hu & He & Hv). exists (CredentialData rule). split; [|done].
    apply list_elem_of_fmap_2, elem_of_filterb. unfold candidate.
    by rewrite Ht, Hu, He, !String.eqb_refl.
Qed.

Lemma v2_granted_iff resp ch tr now a :
  Code (snd (VerifyAuthResponseV2 resp ch tr now a)) = BLEResultGranted ↔
  v2_conditions resp ch tr now a.
Proof.
  unfold VerifyAuthResponseV2, v2_conditions. rewrite <- keys_verify.
  destruct (Nat.ltb_spec (length ch) 32); [split; [done|lia]|].
  destruct (cacheExpired now a); [naive_solver|].
  set (keys := CredentialData <$> filterb (candidate now (UserID resp)) (accessRules a)).
  assert (∀ c : option G, Code (snd (
    if Nat.leb ChallengeV2Size (length ch) && negb (get_be (slice 48 52 ch) =? gatewayIDUint32 a)
    then (a <| nonceCache := c |>, mkResult BLEResultDenied "gateway_id_mismatch")
    else if Nat.eqb (length keys) 0 then (a <| nonceCache := c |>, mkResult BLEResultUnknownUser "unknown_user")
    else match try_keys keys (take 32 ch) (UserID resp) tr (Signature resp) None with
      | Some e => (a <| nonceCache := c |>, mkResult BLEResultInvalidSignature e)
      | None => (a <| nonceCache := guard_add (take 32 ch) now now <$> c |>,
                 mkResult BLEResultGranted "access_granted")
      end)) = BLEResultGranted ↔
    ((ChallengeV2Size ≤ length ch)%nat → get_be (slice 48 52 ch) = gatewayIDUint32 a)
    ∧ ∃ k, k ∈ keys ∧ VerifyBLESignatureV2 k (take 32 ch) (UserID resp) tr (Signature resp) = Ok tt) as Hrest.
  { intros c. destruct (Nat.leb_spec ChallengeV2Size (length ch)) as [Hl|Hl]; simpl.
    - destruct (Z.eqb_spec (get_be (slice 48 52 ch)) (gatewayIDUint32 a)); simpl; [|naive_solver].
      destruct keys as [|k0 keys]; simpl length; [set_solver|]. simpl Nat.eqb. cbv iota.
      destruct (try_keys _ _ _ _ _ None) eqn:Ht.
      + split; [done|]. intros [_ Hk]. by rewrite (proj2 (try_keys_None _ _ _ _ _ _) (or_intror Hk)) in Ht.
      + apply try_keys_None in Ht as [[_ ?]|Hk]; [done|]. done.
    - destruct keys as [|k0 keys]; simpl length; [set_solver|]. simpl Nat.eqb. cbv iota.
      destruct (try_keys _ _ _ _ _ None) eqn:Ht.
      + split; [done|]. intros [_ Hk]. by rewrite (proj2 (try_keys_None _ _ _ _ _ _) (or_intror Hk)) in Ht.
      + apply try_keys_None in Ht as [[_ ?]|Hk]; [done|]. split; [|done]. intros _. split; [lia|done]. }
  destruct (nonceCache a) as [g|] eqn:Hg; simpl.
  - destruct (guard_contains (take 32 ch) now g) as [g' b] eqn:Hgc. destruct b.
    + split; [done|]. intros (_ & _ & Hn & _). specialize (Hn g eq_refl). by rewrite Hgc in Hn.
    + etransitivity; [exact (Hrest (Some g'))|]. split; [|naive_solver]. intros []. split_and!; try done.
      intros g0 [= <-]. by rewrite Hgc.
  - etransitivity; [exact (Hrest None)|]. naive_solver.
Qed.
End frame.

(** ** Access decisions *)

(** What reaches the door of a gateway: a credential, a v1 BLE exchange, a v2 BLE
    session, a poll of the NFC reader. *)
Inductive input :=
| InCredential (credentialType credentialData lockID : string) (now : Z)
| InBLE (challenge : BLEChallenge) (response : BLEAuthResponse) (lockID : string) (now : Z)
| InSession (lockID : string) (s : Session)
| InNFC (lockID : string) (rnd : option bytes) (auth : bytes → result string BLEAuthResponse) (now : Z).

Definition input_time (i : input) : Z :=
  match i with
  | InCredential _ _ _ t | InBLE _ _ _ t | InNFC _ _ _ t => t
  | InSession _ s => s_now s
  end.

Section decisions.
Context {G : Type} `{!ReplayGuard G, !Crypto}.
Implicit Types a : Agent G.

Definition present (i : input) (ra : NFCHCEReader * Agent G) : NFCHCEReader * Agent G :=
  let '(r, a) := ra in
  match i with
  | InCredential ct cd l t => (r, HandleCredentialPresented ct cd l t a)
  | InBLE c resp l t => (r, fst (HandleBLEAuth c resp l t a))
  | InSession l s => (r, fst (handleSession l s a))
  | InNFC l rnd auth t => handleOnce l rnd auth t (r, a)
  end.

Lemma v2_denied_when_expired resp ch tr now a :
  cacheExpired now a = true →
  (Code (snd (VerifyAuthResponseV2 resp ch tr now a)) =? BLEResultGranted) = false.
Proof.
  intros He. apply Z.eqb_neq. rewrite v2_granted_iff. intros (_ & Hf & _). congruence.
Qed.

Lemma present_config i ra : config (snd (present i ra)) = config (snd ra).
Proof.
  destruct ra as [r a], i as [ct cd l t|c resp l t|l s|l rnd auth t]; simpl.
  - unfold HandleCredentialPresented. destruct (VerifyCredential ct cd l t a) as [[d u] e].
    destruct (queueEvent_frame
      (mkEvent (gatewayID (if String.eqb d "allow" then unlock a else a))
         (if String.eqb d "allow" then "access_granted" else "access_denied") l e d (format_rfc3339 t))
      (if String.eqb d "allow" then unlock a else a)) as [-> _]. by destruct (String.eqb d "allow").
  - unfold HandleBLEAuth. destruct (VerifyBLEAuth _ _ l t a) as [[d u] e].
    destruct (String.eqb d "allow"); cbn [fst snd]; [by destruct (queueEvent_frame (mkEvent (gatewayID a) "access_granted" l e "allow" (format_rfc3339 t)) (unlock a)) as [-> _]|].
    destruct (if IsExpired1 t c then _ else _) as [reason code]; cbn [fst snd].
    by destruct (queueEvent_frame (mkEvent (gatewayID a) "access_denied" l e reason (format_rfc3339 t)) a) as [-> _].
  - unfold handleSession. destruct (NewBLEChallengeV2 _ _ _) as [ch|]; [|done].
    destruct (negb (s_write_ok s)); [done|]. destruct (s_read s) as [inp|]; [|done].
    destruct (DecodeBLEAuthResponse (take 384 inp)) as [resp|]; [|done].
    destruct (verify2_frame resp (EncodeV2 ch) TransportTagBLE (s_now s) a) as [Hc _].
    destruct (VerifyAuthResponseV2 _ _ _ _ _) as [a' res]; simpl in *.
    destruct (Code res =? BLEResultGranted); cbn [fst snd]; by rewrite (proj1 (queueEvent_frame _ _)).
  - destruct (NewBLEChallengeV2 _ _ _) as [ch|]; [|done]. destruct (auth (EncodeV2 ch)) as [resp|]; [|done].
    destruct (verify2_frame resp (EncodeV2 ch) TransportTagNFCHCE t a) as [Hc _].
    destruct (VerifyAuthResponseV2 _ _ _ _ _) as [a' res]; simpl in *.
    destruct (Code res =? BLEResultGranted); [destruct (_ && _)|]; cbn [fst snd];
      rewrite ?(proj1 (queueEvent_frame _ _)); done.
Qed.

Lemma present_lockdown i ra :
  cacheExpired (input_time i) (snd ra) = true → unlocks (snd (present i ra)) = unlocks (snd ra).
Proof.
  destruct ra as [r a], i as [ct cd l t|c resp l t|l s|l rnd auth t]; simpl; intros He.
  - unfold HandleCredentialPresented, VerifyCredential. rewrite He. cbn [String.eqb].
    by rewrite (proj1 (proj2 (queueEvent_frame _ _))).
  - unfold HandleBLEAuth, VerifyBLEAuth. rewrite He.
    destruct (IsExpired1 t c), (is_empty (UserID resp)); cbv iota beta;
      change (String.eqb "deny" "allow") with false; cbn [fst snd];
      by rewrite (proj1 (proj2 (queueEvent_frame _ _))).
  - unfold handleSession. destruct (NewBLEChallengeV2 _ _ _) as [ch|]; [|done].
    destruct (negb (s_write_ok s)); [done|]. destruct (s_read s) as [inp|]; [|done].
    destruct (DecodeBLEAuthResponse (take 384 inp)) as [resp|]; [|done].
    pose proof (v2_denied_when_expired resp (EncodeV2 ch) TransportTagBLE (s_now s) a He) as Hd.
    destruct (verify2_frame resp (EncodeV2 ch) TransportTagBLE (s_now s) a) as (_ & Hu & _).
    destruct (VerifyAuthResponseV2 _ _ _ _ _) as [a' res]; simpl in *. rewrite Hd.
    by cbn [fst snd]; rewrite (proj1 (proj2 (queueEvent_frame _ _))).
  - destruct (NewBLEChallengeV2 _ _ _) as [ch|]; [|done]. destruct (auth (EncodeV2 ch)) as [resp|]; [|done].
    pose proof (v2_denied_when_expired resp (EncodeV2 ch) TransportTagNFCHCE t a He) as Hd.
    destruct (verify2_frame resp (EncodeV2 ch) TransportTagNFCHCE t a) as (_ & Hu & _).
    destruct (VerifyAuthResponseV2 _ _ _ _ _) as [a' res]; simpl in *. rewrite Hd.
    by cbn [fst snd]; rewrite (proj1 (proj2 (queueEvent_frame _ _))).
Qed.

Lemma cacheExpired_late now a :
  0 < rulesCacheTTL a < max_int64 → rulesUpdatedAt a ≠ time_zero →
  rulesUpdatedAt a + rulesCacheTTL a < now → cacheExpired now a = true.
Proof.
  intros Ht Hz Hn. unfold cacheExpired, IsZero. rewrite (proj2 (Z.ltb_lt _ _)) by lia.
  rewrite (proj2 (Z.eqb_neq _ _)) by done. simpl. apply Z.ltb_lt.
  unfold time_sub, min_int64, max_int64 in *. lia.
Qed.

(** C1: The offline lockdown.  Once the rules cache is older than
    [rulesCacheTTL] (set, and rules were pulled at least once), nothing that is
    presented at any reader (card, v1 or v2 BLE, NFC phone, in any number and
    order, whatever keys and signatures) makes the agent drive the relay. *)
Theorem offline_lockdown (ins : list input) (r : NFCHCEReader) a :
  0 < rulesCacheTTL a < max_int64 → rulesUpdatedAt a ≠ time_zero →
  Forall (λ i, rulesUpdatedAt a + rulesCacheTTL a < input_time i) ins →
  unlocks (snd (fold_left (λ ra i, present i ra) ins (r, a))) = unlocks a.
Proof.
  intros Ht Hz Hf.
  assert (∀ ra : NFCHCEReader * Agent G, config (snd ra) = config a →
    unlocks (snd (fold_left (λ ra i, present i ra) ins ra)) = unlocks (snd ra)) as Hall; [|by apply Hall].
  induction ins as [|i ins IH]; intros ra Hc; [done|]. apply Forall_cons in Hf as [Hi Hf]. simpl.
  rewrite IH; [|done|by rewrite present_config]. apply present_lockdown.
  rewrite (cacheExpired_config _ _ _ Hc). by apply cacheExpired_late.
Qed.
End decisions.

(** A concrete agent for the examples, with the real nonce cache. *)
Definition agent0 (rules : list AccessRule) : Agent NonceCache :=
  {| gatewayID := "gw"; bootstrapToken := ""; unlockDuration := 5 * second; deviceToken := "t";
     accessRules := rules; ruleVersion := "1"; rulesUpdatedAt := 0; rulesCacheTTL := 72 * hour;
     eventQueue := []; nonceCache := Some (NewNonceCache 10000 (30 * second)); gatewayIDUint32 := 7;
     offlineSince := time_zero; eventPushBackoff := 0; eventQueueDropped := 0; unlocks := [] |}.

Definition card_rule : AccessRule := mkRule "wiegand_26" "123:45678" "u1" "u1@x" ["lock-1"] "".

Lemma offline_lockdown_witness :
  unlocks (snd (fold_left (λ ra i, @present _ nonce_cache_guard toy_crypto i ra)
    [InCredential "wiegand_26" "123:45678" "lock-1" (73 * hour)]
    (mkNFC "" 0 0, agent0 [card_rule]))) = [].
Proof.
  apply (@offline_lockdown NonceCache nonce_cache_guard toy_crypto
    [InCredential "wiegand_26" "123:45678" "lock-1" (73 * hour)] (mkNFC "" 0 0) (agent0 [card_rule]));
    [split; reflexivity|discriminate|].
  repeat constructor.
Defined.

Section card.
Context {G : Type}.
Implicit Types a : Agent G.

Lemma verify_allow ct cd lockID now a u e :
  VerifyCredential ct cd lockID now a = ("allow", u, e) ↔
  cacheExpired now a = false ∧ ∃ i rule,
    findi (rule_matches ct cd) (accessRules a) = Some (i, rule) ∧ rule_expired now rule = false
    ∧ has_lock lockID rule = true ∧ u = RuleUserID rule ∧ e = RuleUserEmail rule.
Proof.
  unfold VerifyCredential. destruct (cacheExpired now a); [by split; [|intros [? _]]|].
  destruct (findi (rule_matches ct cd) (accessRules a)) as [[i rule]|];
    [|by split; [|intros (_ & ? & ? & ? & _)]].
  destruct (rule_expired now rule) eqn:E, (has_lock lockID rule) eqn:L; (split;
    [try done; intros [= <- <-]; eauto 10 | intros (_ & ? & ? & ? & ? & ? & -> & ->); simplify_eq; congruence]).
Qed.

Lemma verify_decision ct cd lockID now a :
  ∃ u e, VerifyCredential ct cd lockID now a = ("allow", u, e)
         ∨ VerifyCredential ct cd lockID now a = ("deny", u, e).
Proof. unfold VerifyCredential. repeat case_match; eauto. Qed.

(** When a card opens the door.  Presenting a credential drives the relay
    exactly when the rules cache is fresh and the first cached rule with that
    type and data (case-insensitively, blanks trimmed) is not past its
    [valid_until] and lists the lock; the relay is then driven once, for the
    configured time.  Either way exactly one event, of the matching type, ends
    the queue. *)
Theorem card_decision ct cd lockID now a :
  let a' := HandleCredentialPresented ct cd lockID now a in
  let granted := cacheExpired now a = false ∧ ∃ i rule,
    accessRules a !! i = Some rule ∧ rule_matches ct cd rule = true
    ∧ (∀ j r, (j < i)%nat → accessRules a !! j = Some r → rule_matches ct cd r = false)
    ∧ rule_expired now rule = false ∧ lockID ∈ LockIDs rule in
  (granted ∧ unlocks a' = unlocks a ++ [unlockDuration a]
     ∧ ∃ u, last (eventQueue a') = Some (mkEvent (gatewayID a) "access_granted" lockID u "allow" (format_rfc3339 now)))
  ∨ (¬ granted ∧ unlocks a' = unlocks a
     ∧ ∃ u, last (eventQueue a') = Some (mkEvent (gatewayID a) "access_denied" lockID u "deny" (format_rfc3339 now))).
Proof.
  intros a' granted.
  assert (granted ↔ ∃ u e, VerifyCredential ct cd lockID now a = ("allow", u, e)) as Hg.
  { subst granted. split.
    - intros (Hc & i & rule & Hi & Hm & Hfirst & He & Hl). exists (RuleUserID rule), (RuleUserEmail rule).
      apply verify_allow. split; [done|].
      destruct (findi (rule_matches ct cd) (accessRules a)) as [[j r]|] eqn:Hf.
      + apply findi_Some in Hf as (Hj & Hmr & Hfr).
        destruct (lt_eq_lt_dec i j) as [[?| ->]|?].
        * specialize (Hfr i rule). rewrite Hfr in Hm; done.
        * simplify_eq. exists j, rule. split_and!; try done. unfold has_lock, existsb'.
          destruct (findi _ _) as [[]|] eqn:Hn; [done|]. rewrite findi_None in Hn.
          specialize (Hn lockID Hl). by rewrite String.eqb_refl in Hn.
        * specialize (Hfirst j r). rewrite Hfirst in Hmr; done.
      + rewrite findi_None in Hf. rewrite Hf in Hm; [done|]. by eapply list_elem_of_lookup_2.
    - intros (u & e & (Hc & i & rule & Hf & He & Hl & _)%verify_allow). split; [done|].
      apply findi_Some in Hf as (Hi & Hm & Hfirst). exists i, rule. split_and!; try done.
      unfold has_lock, existsb' in Hl. destruct (findi _ _) as [[k id]|] eqn:Hn; [|done].
      pose proof (findi_true _ _ _ _ Hn) as E%String.eqb_eq. subst. by eapply findi_elem. }
  subst a'. unfold HandleCredentialPresented.
  destruct (verify_decision ct cd lockID now a) as (u & e & [Hv|Hv]); rewrite Hv.
  - left. split; [apply Hg; eauto|]. simpl String.eqb. cbv iota.
    split; [by rewrite (proj1 (proj2 (queueEvent_frame _ _)))|]. exists e. unfold queueEvent. simpl. apply last_snoc.
  - right. split; [|simpl String.eqb; cbv iota; split].
    + intros (u' & e' & Hv')%Hg. congruence.
    + by rewrite (proj1 (proj2 (queueEvent_frame _ _))).
    + exists e. unfold queueEvent. simpl. apply last_snoc.
Qed.
End card.

Section v2.
Context {G : Type} `{!ReplayGuard G, !Crypto}.
Implicit Types a : Agent G.

(** C26: What a v2 grant means.  A signed response is granted exactly when the
    challenge has its nonce, the rules cache is fresh, the nonce is not in the
    replay cache, a full-size challenge names this gateway, and some unexpired
    BLE rule of that very user has a key that verifies the signature over
    nonce, user and transport tag. *)
Theorem v2_granted_exactly resp ch tr now a :
  Code (snd (VerifyAuthResponseV2 resp ch tr now a)) = BLEResultGranted ↔
  (32 ≤ length ch)%nat
  ∧ cacheExpired now a = false
  ∧ (∀ g, nonceCache a = Some g → snd (guard_contains (take 32 ch) now g) = false)
  ∧ ((ChallengeV2Size ≤ length ch)%nat → get_be (slice 48 52 ch) = gatewayIDUint32 a)
  ∧ ∃ rule, rule ∈ accessRules a ∧ CredentialType rule = "ble_signature"
      ∧ RuleUserID rule = UserID resp ∧ rule_expired now rule = false
      ∧ ∃ k, parseBLEPublicKey (CredentialData rule) = Ok k
             ∧ verify_hash k (Sum256 (message2 (take 32 ch) (UserID resp) tr)) (Signature resp) = true.
Proof.
  rewrite v2_granted_iff. unfold v2_conditions. setoid_rewrite verify_message_ok. reflexivity.
Qed.

Definition strip_locks (r : AccessRule) : AccessRule := r <| LockIDs := [] |>.

(** The v2 path does not look at the lock.  Its answer is the same when
    the lock list of every cached rule is emptied: a user with a valid key is
    granted at a reader of a lock none of the rules gives access to (the v1
    path and cards check the lock). *)
Theorem v2_ignores_locks resp ch tr now a :
  snd (VerifyAuthResponseV2 resp ch tr now (a <| accessRules := strip_locks <$> accessRules a |>))
  = snd (VerifyAuthResponseV2 resp ch tr now a).
Proof.
  assert (∀ rules, CredentialData <$> filterb (candidate now (UserID resp)) (strip_locks <$> rules)
    = CredentialData <$> filterb (candidate now (UserID resp)) rules) as Hs.
  { induction rules as [|r rules IH]; [done|]. csimpl.
    change (candidate now (UserID resp) (strip_locks r)) with (candidate now (UserID resp) r).
    destruct (candidate _ _ r); csimpl; by rewrite IH. }
  destruct a as [gid bt ud dt rules ver upd ttl q nc gid32 off bo dr ul].
  unfold VerifyAuthResponseV2.
  cbn -[filterb candidate guard_contains guard_add try_keys fmap slice take get_be cacheExpired Nat.ltb Nat.leb ChallengeV2Size].
  rewrite Hs. unfold cacheExpired. cbn -[time_sub IsZero take guard_contains ChallengeV2Size try_keys fmap Nat.ltb Nat.leb].
  repeat case_match; simplify_eq; done.
Qed.
End v2.

(** ** One grant per nonce *)

Record attempt := mkAttempt { at_resp : BLEAuthResponse; at_challenge : bytes; at_transport : string; at_time : Z }.

Section single_use.
Context {G : Type} `{!ReplayGuard G, !Crypto}.
Implicit Types a : Agent G.

Definition attempt_answer (x : attempt) a : BLEAuthResult :=
  snd (VerifyAuthResponseV2 (at_resp x) (at_challenge x) (at_transport x) (at_time x) a).
Definition after_attempt (x : attempt) a : Agent G :=
  fst (VerifyAuthResponseV2 (at_resp x) (at_challenge x) (at_transport x) (at_time x) a).
Definition after_attempts (xs : list attempt) a : Agent G := fold_left (λ a x, after_attempt x a) xs a.

(** Attempts in the order of the clock, from [t] and up to [d]. *)
Fixpoint in_order (t d : Z) (xs : list attempt) : Prop :=
  match xs with
  | [] => True
  | x :: xs' => t <= at_time x <= d ∧ in_order (at_time x) d xs'
  end.

Lemma attempt_guard x a t0 g :
  nonceCache a = Some g → guard_ok t0 g → t0 <= at_time x →
  ∃ g', nonceCache (after_attempt x a) = Some g' ∧ guard_ok (at_time x) g'
    ∧ ∀ n d k, guard_holds n d k g → at_time x <= d → 0 < k →
        ∃ k', k - 1 <= k' ∧ guard_holds n d k' g'.
Proof.
  intros Hg Hok Ht. unfold after_attempt, VerifyAuthResponseV2. rewrite Hg.
  assert (∃ g', Some g = Some g' ∧ guard_ok (at_time x) g'
    ∧ ∀ n d k, guard_holds n d k g → at_time x <= d → 0 < k → ∃ k', k - 1 <= k' ∧ guard_holds n d k' g') as Hsame.
  { exists g. split_and!; [done|by eapply guard_ok_later|]. intros. exists k. split; [lia|done]. }
  destruct (Nat.ltb _ _); [simpl; by rewrite Hg|].
  destruct (cacheExpired _ _); [simpl; by rewrite Hg|]. clear Hsame.
  set (n0 := take 32 (at_challenge x)).
  pose proof (guard_contains_ok t0 (at_time x) n0 g Ht Hok) as Hok1.
  pose proof (λ n d k, guard_contains_keeps t0 n0 (at_time x) n d k g Hok) as Hk1.
  destruct (guard_contains n0 (at_time x) g) as [g1 b]. simpl in Hok1, Hk1.
  assert (∃ g', Some g1 = Some g' ∧ guard_ok (at_time x) g'
    ∧ ∀ n d k, guard_holds n d k g → at_time x <= d → 0 < k → ∃ k', k - 1 <= k' ∧ guard_holds n d k' g') as Hmid.
  { exists g1. split_and!; [done..|]. intros. exists k. split; [lia|]. by apply Hk1. }
  destruct b; [done|]. destruct (_ && _); [done|]. destruct (Nat.eqb _ _); [done|].
  destruct (try_keys _ _ _ _ _ _); [done|]. clear Hmid. simpl.
  exists (guard_add n0 (at_time x) (at_time x) g1). split_and!; [done|eapply guard_add_ok; [..|exact Hok1]; lia|].
  intros n d k Hh Hd Hkk. exists (k - 1). split; [lia|]. eapply guard_add_keeps; eauto.
Qed.

Lemma granted_holds x a t0 g :
  nonceCache a = Some g → guard_ok t0 g → t0 <= at_time x →
  Code (attempt_answer x a) = BLEResultGranted →
  ∃ g', nonceCache (after_attempt x a) = Some g' ∧ guard_ok (at_time x) g'
    ∧ guard_holds (take 32 (at_challenge x)) (at_time x + guard_ttl g) (guard_capacity g - 1) g'.
Proof.
  intros Hg Hok Ht. unfold attempt_answer, after_attempt, VerifyAuthResponseV2. rewrite Hg.
  destruct (Nat.ltb _ _); [done|]. destruct (cacheExpired _ _); [done|].
  set (n0 := take 32 (at_challenge x)).
  pose proof (guard_contains_ok t0 (at_time x) n0 g Ht Hok) as Hok1.
  destruct (guard_contains_pars n0 (at_time x) g) as [Hp1 Hp2].
  pose proof (guard_contains_again t0 n0 (at_time x) g Hok) as Hagain.
  destruct (guard_contains n0 (at_time x) g) as [g1 b]. simpl in Hok1, Hp1, Hp2, Hagain.
  destruct b; [done|]. destruct (_ && _); [done|]. destruct (Nat.eqb _ _); [done|].
  destruct (try_keys _ _ _ _ _ _); [done|]. intros _. simpl.
  exists (guard_add n0 (at_time x) (at_time x) g1). split_and!; [done|eapply guard_add_ok; [..|exact Hok1]; lia|].
  rewrite <- Hp1, <- Hp2. eapply guard_add_holds; eauto; lia.
Qed.

Lemma held_nonce_denied x a t0 g d k :
  nonceCache a = Some g → guard_ok t0 g → at_time x <= d →
  guard_holds (take 32 (at_challenge x)) d k g → Code (attempt_answer x a) ≠ BLEResultGranted.
Proof.
  intros Hg Hok Hd Hh. unfold attempt_answer. rewrite v2_granted_iff. intros (_ & _ & Hn & _).
  specialize (Hn g Hg). by rewrite (guard_holds_contains t0 _ d k) in Hn.
Qed.

Lemma attempts_hold xs : ∀ a t g n d k,
  nonceCache a = Some g → guard_ok t g → in_order t d xs →
  guard_holds n d k g → Z.of_nat (length xs) <= k →
  ∃ t' g' k', nonceCache (after_attempts xs a) = Some g' ∧ guard_ok t' g' ∧ guard_holds n d k' g'.
Proof.
  induction xs as [|x xs IH]; intros a t g n d k Hg Hok Ho Hh Hlen; [by eauto 10|].
  destruct Ho as [Ht Ho]. simpl in *.
  destruct (attempt_guard x a t g Hg Hok) as (g1 & Hg1 & Hok1 & Hkeep); [lia|].
  destruct (Hkeep n d k Hh) as (k1 & Hk1 & Hh1); [lia|lia|].
  apply (IH _ (at_time x) g1 n d k1); try done. lia.
Qed.

(** C25: A v2 challenge is good for one grant.  After a response to a challenge
    was granted, no attempt with the same nonce is granted, on any transport
    and by any user, for the life of the nonce cache entry, as long as fewer
    attempts than the cache's capacity are made in between. *)
Theorem one_grant_per_nonce (x : attempt) (xs : list attempt) (y : attempt) a t0 g :
  nonceCache a = Some g → guard_ok t0 g → t0 <= at_time x →
  Code (attempt_answer x a) = BLEResultGranted →
  in_order (at_time x) (at_time x + guard_ttl g) (xs ++ [y]) →
  Z.of_nat (length xs) < guard_capacity g →
  take 32 (at_challenge y) = take 32 (at_challenge x) →
  Code (attempt_answer y (after_attempts xs (after_attempt x a))) ≠ BLEResultGranted.
Proof.
  intros Hg Hok Ht Hgr Ho Hlen Hn.
  destruct (granted_holds x a t0 g Hg Hok Ht Hgr) as (g1 & Hg1 & Hok1 & Hh1).
  assert (in_order (at_time x) (at_time x + guard_ttl g) xs ∧ at_time y <= at_time x + guard_ttl g) as [Ho1 Hy].
  { clear -Ho. generalize dependent (at_time x + guard_ttl g). generalize (at_time x) as t.
    induction xs as [|z xs IH]; intros t d; simpl; [lia|]. intros [Hz Ho]. destruct (IH _ _ Ho). done. }
  destruct (attempts_hold xs _ (at_time x) g1 _ _ _ Hg1 Hok1 Ho1 Hh1) as (t' & g' & k' & Hg' & Hok' & Hh'); [lia|].
  rewrite <- Hn in Hh'. by eapply held_nonce_denied.
Qed.
End single_use.

(** A challenge of this gateway, and the phone's answer to it under [toy_crypto]. *)
Definition ch0 : bytes := EncodeV2 (mkBLEChallengeV2 (repeat "n"%char 32) 0 (30 * second) 7).
Definition phone_rule : AccessRule := mkRule "ble_signature" "k" "u1" "u1@x" ["lock-1"] "".
Definition resp0 : BLEAuthResponse :=
  mkResp "u1" (of_string "k" ++ message2 (take 32 ch0) "u1" TransportTagBLE).

Lemma one_grant_per_nonce_witness :
  let a := agent0 [phone_rule] in
  let x := mkAttempt resp0 ch0 TransportTagBLE (1 * second) in
  let y := mkAttempt resp0 ch0 TransportTagBLE (20 * second) in
  Code (@attempt_answer _ nonce_cache_guard toy_crypto y
         (@after_attempt _ nonce_cache_guard toy_crypto x a)) ≠ BLEResultGranted.
Proof.
  intros a x y.
  apply (@one_grant_per_nonce _ nonce_cache_guard toy_crypto x [] y a 0 (NewNonceCache 10000 (30 * second)));
    [reflexivity|apply wf_new; [reflexivity|discriminate]|discriminate|vm_compute; reflexivity
    |vm_compute; intuition congruence|reflexivity|reflexivity].
Defined.

(** ** The event queue *)

(** The queue and what happened to its events: [inflight] is the batch taken by
    a push under way, [queued] every event handed to [queueEvent], [delivered]
    those the transport took, [lost] how many were dropped for room. *)
Record Queue (G : Type) := mkQueue {
  agent : Agent G;
  inflight : option (list AccessEvent);
  queued : list AccessEvent;
  delivered : list AccessEvent;
  lost : nat
}.
Arguments mkQueue {G}. Arguments agent {G}. Arguments inflight {G}.
Arguments queued {G}. Arguments delivered {G}. Arguments lost {G}.

Inductive queue_step := QEvent (e : AccessEvent) | QTake | QFinish (r : Sent) (now : Z).

Section queue.
Context {G : Type}.
Implicit Types a : Agent G.
Implicit Types w : Queue G.

(** The push loop is one goroutine: it takes a batch only when none is in
    flight; events are queued at any moment. *)
Definition run_step (s : queue_step) w : Queue G :=
  match s with
  | QEvent e =>
      mkQueue (queueEvent e (agent w)) (inflight w) (queued w ++ [e]) (delivered w)
        (lost w + (length (eventQueue (agent w)) + 1 - length (eventQueue (queueEvent e (agent w)))))%nat
  | QTake =>
      match inflight w with
      | Some _ => w
      | None =>
          let '(a, b) := push_take (agent w) in mkQueue a b (queued w) (delivered w) (lost w)
      end
  | QFinish r now =>
      match inflight w with
      | None => w
      | Some b =>
          mkQueue (push_finish b r now (agent w)) None (queued w)
            (match r with SendFailed => delivered w | _ => delivered w ++ b end) (lost w)
      end
  end.

Definition run_steps (ss : list queue_step) w : Queue G := fold_left (λ w s, run_step s w) ss w.

Definition queue_start a : Queue G := mkQueue a None [] [] 0.

Definition pending w : list AccessEvent := default [] (inflight w) ++ eventQueue (agent w).

(** No event is invented, duplicated or reordered, and the ones missing are
    exactly those counted as lost. *)
Definition conserved w : Prop :=
  (delivered w ++ pending w) `sublist_of` queued w
  ∧ (length (delivered w) + length (pending w) + lost w = length (queued w))%nat.

Definition bounded w : Prop :=
  match inflight w with
  | None => (length (eventQueue (agent w)) ≤ eventQueueMaxSize + eventBatchMaxSize)%nat
  | Some b => (length b ≤ eventBatchMaxSize)%nat ∧ (length (eventQueue (agent w)) ≤ eventQueueMaxSize)%nat
  end.

Lemma queueEvent_queue e a :
  eventQueue (queueEvent e a) =
  drop (length (eventQueue a) + 1 - eventQueueMaxSize) (eventQueue a) ++ [e].
Proof.
  unfold queueEvent. simpl. destruct (Nat.leb_spec eventQueueMaxSize (length (eventQueue a))); simpl.
  - do 2 f_equal. lia.
  - f_equal. replace (length (eventQueue a) + 1 - eventQueueMaxSize)%nat with 0%nat by lia. done.
Qed.

Lemma max_pos : (0 < eventQueueMaxSize)%nat.
Proof. Transparent eventQueueMaxSize. unfold eventQueueMaxSize. lia. Opaque eventQueueMaxSize. Qed.

Lemma queueEvent_length e a :
  (length (eventQueue (queueEvent e a)) = Nat.min (length (eventQueue a) + 1) eventQueueMaxSize)%nat.
Proof.
  pose proof max_pos. rewrite queueEvent_queue, length_app, length_drop. simpl. lia.
Qed.

Lemma push_take_spec a :
  match push_take a with
  | (a', None) => eventQueue a' = eventQueue a
  | (a', Some b) => b ++ eventQueue a' = eventQueue a ∧ eventPushBackoff a' <= 0
      ∧ length b = Nat.min (length (eventQueue a)) eventBatchMaxSize
  end.
Proof.
  unfold push_take. destruct (Nat.eqb _ _); [done|].
  destruct (Z.ltb_spec 0 (eventPushBackoff a)); simpl; [destruct (Z.ltb_spec 0 (eventPushBackoff a - eventPushInterval)); [done|]|];
    simpl; (split; [apply take_drop|split; [lia|rewrite length_take; lia]]).
Qed.

Lemma push_finish_queue b r now a :
  eventQueue (push_finish b r now a) = match r with SendFailed => b ++ eventQueue a | _ => eventQueue a end.
Proof. unfold push_finish. destruct r; simpl; repeat case_match; done. Qed.

Lemma sublist_drop_mid {A} (d i q : list A) n :
  (d ++ i ++ drop n q) `sublist_of` (d ++ i ++ q).
Proof. apply sublist_app; [done|]. apply sublist_app; [done|]. apply sublist_drop. Qed.

Lemma conserved_step s w : conserved w → conserved (run_step s w).
Proof.
  unfold conserved, pending. intros [Hs Hl]. destruct s as [e| |r now]; cbn [run_step agent inflight delivered queued lost default].
  - rewrite queueEvent_length, queueEvent_queue. split.
    + rewrite !app_assoc. apply sublist_app; [|done]. rewrite <- !app_assoc.
      etrans; [apply sublist_drop_mid|done].
    + pose proof max_pos. rewrite !length_app, length_drop in *. simpl length. lia.
  - destruct (inflight w) eqn:Hi; [by rewrite Hi|]. pose proof (push_take_spec (agent w)) as Ht.
    destruct (push_take (agent w)) as [a' [b|]]; simpl in *; [destruct Ht as [Ht _]|]; rewrite Ht; by split.
  - destruct (inflight w) as [b|] eqn:Hi; [|by rewrite Hi]. simpl in *. rewrite push_finish_queue.
    destruct r; simpl; rewrite ?length_app, <- ?app_assoc in *; split; done || lia.
Qed.

Lemma bounded_step s w : bounded w → bounded (run_step s w).
Proof.
  unfold bounded. intros Hb. destruct s as [e| |r now]; cbn [run_step agent inflight].
  - rewrite queueEvent_length. destruct (inflight w); lia.
  - destruct (inflight w) eqn:Hi; [by rewrite Hi|]. pose proof (push_take_spec (agent w)) as Ht.
    destruct (push_take (agent w)) as [a' [b|]]; simpl in *; [|by rewrite Ht].
    destruct Ht as (Ht & _ & Hlb). apply (f_equal length) in Ht. rewrite length_app in Ht. lia.
  - destruct (inflight w) as [b|] eqn:Hi; [|by rewrite Hi]. simpl. rewrite push_finish_queue.
    destruct r; rewrite ?length_app; lia.
Qed.

Lemma run_steps_keep (P : Queue G → Prop) ss w :
  (∀ s w, P w → P (run_step s w)) → P w → P (run_steps ss w).
Proof. intros Hs. revert w. induction ss as [|s ss IH]; intros w Hw; simpl; [done|]. by apply IH, Hs. Qed.

(** The offline queue loses only what it must and keeps the order.  In
    every run of queueing, taking and finishing pushes (successful or not), the
    events delivered, then those in flight, then those waiting form a
    subsequence of the events queued, in queueing order and without repeats;
    the missing ones are exactly those dropped for room, and the queue never
    holds more than its 10000 events plus one batch that came back. *)
Theorem queue_conserves ss a :
  eventQueue a = [] →
  let w := run_steps ss (queue_start a) in
  (delivered w ++ pending w) `sublist_of` queued w
  ∧ (length (delivered w) + length (pending w) + lost w = length (queued w))%nat
  ∧ (length (eventQueue (agent w)) ≤ eventQueueMaxSize + eventBatchMaxSize)%nat.
Proof.
  intros Ha w.
  assert (conserved w) as [H1 H2].
  { apply (run_steps_keep conserved); [apply conserved_step|]. unfold conserved, pending. simpl. by rewrite Ha. }
  assert (bounded w) as Hb.
  { apply (run_steps_keep bounded); [apply bounded_step|]. unfold bounded. simpl. rewrite Ha. simpl. lia. }
  split_and!; try done. unfold bounded in Hb. destruct (inflight w); lia.
Qed.

(** The retry delay never grows.  In every run from a fresh agent the
    backoff is 0, 5 s or 10 s: each push clears it before sending, so every
    failure starts again at 10 s and the doubling up to five minutes never
    happens. *)
Theorem backoff_never_grows ss a :
  eventPushBackoff a = 0 →
  let b := eventPushBackoff (agent (run_steps ss (queue_start a))) in
  b = 0 ∨ b = 5 * second ∨ b = 10 * second.
Proof.
  intros Ha b.
  set (P := λ w, match inflight w with
    | Some _ => eventPushBackoff (agent w) = 0
    | None => eventPushBackoff (agent w) = 0 ∨ eventPushBackoff (agent w) = 5 * second
              ∨ eventPushBackoff (agent w) = 10 * second end).
  assert (P (run_steps ss (queue_start a))) as HP.
  { apply run_steps_keep; [|by left]. clear. intros s w HP. unfold P in *.
    destruct s as [e| |r now]; cbn [run_step agent inflight].
    - by rewrite (proj2 (proj2 (proj2 (queueEvent_frame e (agent w))))).
    - destruct (inflight w) eqn:Hi; [by rewrite Hi|]. unfold push_take. destruct (Nat.eqb _ _); [done|].
      destruct HP as [E|[E|E]]; rewrite E; unfold eventPushInterval, second; simpl; auto.
    - destruct (inflight w) as [l|] eqn:Hi; [|by rewrite Hi]. simpl. unfold push_finish.
      destruct r; simpl; [repeat case_match; by left..|].
      destruct (IsZero (offlineSince (agent w))); simpl; rewrite HP; simpl; auto. }
  unfold P in HP. subst b. destruct (inflight _); [by left|done].
Qed.
End queue.

Lemma queue_conserves_witness :
  let e := mkEvent "gw" "access_denied" "l" "u" "deny" "t" in
  let w := run_steps [QEvent e; QTake; QEvent e; QFinish SendFailed 1; QTake] (queue_start (agent0 [])) in
  (delivered w ++ pending w) `sublist_of` queued w.
Proof.
  intros e w.
  apply (queue_conserves [QEvent e; QTake; QEvent e; QFinish SendFailed 1; QTake] (agent0 [])). reflexivity.
Defined.

Lemma backoff_never_grows_witness :
  let e := mkEvent "gw" "access_denied" "l" "u" "deny" "t" in
  let b := eventPushBackoff (agent (run_steps [QEvent e; QTake; QFinish SendFailed 1] (queue_start (agent0 [])))) in
  b = 0 ∨ b = 5 * second ∨ b = 10 * second.
Proof.
  apply (backoff_never_grows [QEvent _; QTake; QFinish SendFailed 1] (agent0 [])). reflexivity.
Defined.
