(* ===== verification/Backoff.v ===== *)
(** * Retry backoff (retrybackoff/backoff.go)

    Exponential delays with a cap, used by the outbox and webhook workers.
    Durations are [int64] nanoseconds; the doubling is written with its
    wrap-around, and the closed form shows that it never wraps. *)

From S2P Require Import Prelude GoStrings GoTime.
#[local] Open Scope Z_scope.

Definition Normalize (base max : Z) : Z * Z :=
  let base := if base <? 0 then 0 else base in
  if base =? 0 then (0, 0)
  else
    let max := if (max <=? 0) || (max <? base) then base else max in
    (base, max).

(** The loop from iteration [i], [n] of them left: [Some] is an early return. *)
Fixpoint backoff_loop (n : nat) (delay max : Z) : option Z * Z :=
  match n with
  | O => (None, delay)
  | S n' =>
      if max <=? delay then (Some max, delay)
      else if Z.quot max 2 <? delay then (Some max, delay)
      else backoff_loop n' (wrap64 (delay * 2)) max
  end.

Definition Exponential (attempt base max : Z) : Z :=
  let '(base, max) := Normalize base max in
  if (attempt <=? 0) || (base <=? 0) then 0
  else match backoff_loop (Z.to_nat (attempt - 1)) base max with
  | (Some d, _) => d
  | (None, delay) => if max <? delay then max else delay
  end.

(** The cap in force. *)
Definition cap (base max : Z) : Z := if (max <=? 0) || (max <? base) then base else max.

Lemma backoff_loop_closed n d max :
  0 < d <= max → max <= max_int64 →
  match backoff_loop n d max with
  | (Some r, _) => r = max ∧ max <= d * 2 ^ Z.of_nat n
  | (None, delay) => delay = d * 2 ^ Z.of_nat n ∧ delay <= max
  end.
Proof.
  revert d; induction n as [|n IH]; intros d Hd Hm.
  { simpl. lia. }
  cbn [backoff_loop]. rewrite Nat2Z.inj_succ, Z.pow_succ_r by lia.
  assert (0 < 2 ^ Z.of_nat n) by lia.
  destruct (Z.leb_spec max d); [nia|]. rewrite Z.quot_div_nonneg by lia.
  pose proof (Z.div_mod max 2 ltac:(lia)). pose proof (Z.mod_pos_bound max 2 ltac:(lia)).
  destruct (Z.ltb_spec (max / 2) d); [nia|].
  rewrite wrap64_small by (unfold min_int64, max_int64 in *; lia).
  specialize (IH (d * 2) ltac:(lia) Hm). destruct (backoff_loop n (d * 2) max) as [[r|] delay]; lia.
Qed.

(** The backoff is [base * 2^(attempt-1)] cut at the cap, with no overflow:
    for every attempt count, base and maximum a [Duration] can hold, [Exponential]
    is that closed form (the cap is [max], or [base] when [max] is smaller or not
    positive), and 0 when the attempt or the base is not positive. *)
Theorem exponential_closed attempt base max :
  base <= max_int64 → max <= max_int64 →
  Exponential attempt base max =
    if (attempt <=? 0) || (base <=? 0) then 0
    else Z.min (base * 2 ^ (attempt - 1)) (cap base max).
Proof.
  intros Hb Hm. unfold Exponential, Normalize, cap.
  destruct (Z.ltb_spec base 0) as [|H0].
  { simpl. rewrite (proj2 (Z.leb_le base 0)) by lia. by rewrite !orb_true_r. }
  destruct (Z.eqb_spec base 0) as [->|Hne]; [by rewrite !orb_true_r|].
  rewrite (proj2 (Z.leb_gt base 0)), orb_false_r by lia.
  destruct (Z.leb_spec attempt 0); [done|]. cbv iota.
  set (c := if (max <=? 0) || (max <? base) then base else max).
  assert (base <= c <= max_int64) as Hc.
  { subst c. destruct (Z.leb_spec max 0), (Z.ltb_spec max base); simpl; lia. }
  pose proof (backoff_loop_closed (Z.to_nat (attempt - 1)) base c ltac:(lia) ltac:(lia)) as Hl.
  rewrite Z2Nat.id in Hl by lia. destruct (backoff_loop _ _ _) as [[r|] d].
  - destruct Hl as [-> ?]. lia.
  - destruct Hl as [-> ?]. destruct (Z.ltb_spec c (base * 2 ^ (attempt - 1))); lia.
Qed.

Lemma exponential_closed_witness : Exponential 4 (5 * second) (30 * second) = 30 * second.
Proof.
  rewrite (exponential_closed 4 (5 * second) (30 * second)); [reflexivity|vm_compute; congruence..].
Defined.
