(* ===== verification/Credential.v ===== *)
(** * Mobile credentials (modules/credential/service.go, model.go)

    Registration of phone keys, their life cycle (active, suspended, revoked),
    signature verification against the stored keys, and the lists sent to the
    gateways.  Cryptography is the class [Crypto] of [Wire]; the attestation
    check of attestation.go is the argument [attestation_ok].  [persistLocked]
    only logs a failed save, so operations never fail on it. *)

From S2P Require Import Prelude GoStrings GoTime Bytes Wire.
#[local] Open Scope Z_scope.

Record MobileCredential := mkCred {
  ID : string;
  TenantID : string;
  CredUserID : string;
  UserEmail : string;
  DeviceID : string;
  Platform : string;
  DeviceModel : string;
  KeystoreLevel : string;
  PublicKeyPEM : string;
  Status : string;
  CredIssuedAt : Z;
  CredExpiresAt : Z;
  RevokedAt : option Z;
  LastUsedAt : option Z
}.

#[export] Instance eta_cred : Eta MobileCredential := fun c =>
  mkCred (ID c) (TenantID c) (CredUserID c) (UserEmail c) (DeviceID c) (Platform c) (DeviceModel c)
    (KeystoreLevel c) (PublicKeyPEM c) (Status c) (CredIssuedAt c) (CredExpiresAt c) (RevokedAt c) (LastUsedAt c).

Record RegisterDeviceInput := mkInput {
  inTenantID : string; inUserID : string; inUserEmail : string; inPublicKeyPEM : string;
  inPlatform : string; inDeviceID : string; inDeviceModel : string; inKeystoreLevel : string;
  inAttestationCertChain : list string
}.

Record GatewayCredentialSync := mkSync {
  syUserID : string; syUserEmail : string; syPublicKeyPEM : string; syLockIDs : list string;
  syExpiresAt : Z; syRevokedAt : option Z; sySyncVersion : Z
}.

Definition day : Z := 24 * hour.
Definition TTLStrongBox : Z := 90 * day.
Definition TTLTee : Z := 30 * day.
Definition TTLSoftware : Z := 7 * day.

Definition CredentialTTL (keystoreLevel : string) : Z :=
  if String.eqb keystoreLevel "strongbox" then TTLStrongBox
  else if String.eqb keystoreLevel "tee" then TTLTee
  else TTLSoftware.

Record Service := mkService {
  credentials : list MobileCredential;
  savedState : option (list MobileCredential)
}.
#[export] Instance eta_service : Eta Service := fun s => mkService (credentials s) (savedState s).

#[export, program] Instance credential_persistent : Persistent Service (list MobileCredential) := {|
  snapshot := credentials; saved := savedState; set_saved := λ d s, s <| savedState := d |>
|}.
Solve All Obligations with done.

Inductive cred_err :=
| ErrInvalidInput (msg : string) | ErrPublicKey | ErrAttestation
| ErrNotFound | ErrAlreadyRevoked | ErrRevoked | ErrAlreadySuspended | ErrAlreadyActive | ErrNotActive
| ErrNoActiveCredential | ErrStoredKey | ErrSignature.

(** A failed save is logged. *)
Definition persist (env : Env) : op Service cred_err unit := λ s,
  match store env with
  | StoreSaved => (s <| savedState := Some (credentials s) |>, Ok tt)
  | NoStore | StoreFailed => (s, Ok tt)
  end.

Definition by_id (tenantID credentialID : string) (c : MobileCredential) : bool :=
  String.eqb (ID c) credentialID && String.eqb (TenantID c) tenantID.

(** Overwrite one element of the slice. *)
Definition put (i : nat) (c : MobileCredential) : op Service cred_err unit :=
  modify (λ s, s <| credentials := <[i := c]> (credentials s) |>).

(** The loop that looks for a credential and works on it. *)
Definition with_credential {A} (tenantID credentialID : string)
    (k : nat → MobileCredential → op Service cred_err A) : op Service cred_err A :=
  found ← gets (λ s, findi (by_id tenantID credentialID) (credentials s));
  match found with
  | None => throw ErrNotFound
  | Some (i, c) => k i c
  end.

Definition validateRegisterInput (input : RegisterDeviceInput) : result cred_err unit :=
  if is_empty (inTenantID input) then Err (ErrInvalidInput "tenant_id is required")
  else if is_empty (inUserID input) then Err (ErrInvalidInput "user_id is required")
  else if is_empty (inPublicKeyPEM input) then Err (ErrInvalidInput "public_key_pem is required")
  else if is_empty (inDeviceID input) then Err (ErrInvalidInput "device_id is required")
  else
    let platform := ToLower (inPlatform input) in
    if negb (String.eqb platform "android") && negb (String.eqb platform "ios")
    then Err (ErrInvalidInput "platform must be 'android' or 'ios'")
    else
      let level := ToLower (inKeystoreLevel input) in
      if negb (String.eqb level "strongbox") && negb (String.eqb level "tee") && negb (String.eqb level "software")
      then Err (ErrInvalidInput "keystore_level must be 'strongbox', 'tee', or 'software'")
      else Ok tt.

(** [RevokedAt = &now], [Status = "revoked"] *)
Definition revoke (now : Z) (c : MobileCredential) : MobileCredential :=
  c <| Status := "revoked" |> <| RevokedAt := Some now |>.

Definition is_status (st : string) (c : MobileCredential) : bool := String.eqb (Status c) st.

(** Assignments in a loop over the whole slice. *)
Definition update_all (p : MobileCredential → bool) (f : MobileCredential → MobileCredential)
    (l : list MobileCredential) : list MobileCredential :=
  (λ c, if p c then f c else c) <$> l.

Definition same_device (tenantID userID deviceID : string) (c : MobileCredential) : bool :=
  String.eqb (TenantID c) tenantID && String.eqb (CredUserID c) userID && String.eqb (DeviceID c) deviceID.

Section service.
Context {CR : Crypto} (attestation_ok : list string → string → bool).

Definition ParseECPublicKey (pemStr : string) : option ECKey :=
  match pem_decode pemStr with
  | None => None
  | Some block =>
      match ParsePKIXPublicKey block with
      | Err _ => None
      | Ok pub =>
          match as_ecdsa pub with
          | None => None
          | Some ecPub => if negb (String.eqb (curve_name ecPub) "P-256") then None else Some ecPub
          end
      end
  end.

(** [rnd] is the hex of the 12 random bytes of the new identifier. *)
Definition RegisterDevice (input : RegisterDeviceInput) (rnd : string) (env : Env)
  : op Service cred_err MobileCredential :=
  lift (validateRegisterInput input) ;;
  fail_if (match ParseECPublicKey (inPublicKeyPEM input) with None => true | Some _ => false end) ErrPublicKey ;;
  fail_if (negb (Nat.eqb (length (inAttestationCertChain input)) 0)
           && negb (attestation_ok (inAttestationCertChain input) (inPublicKeyPEM input))) ErrAttestation ;;
  let now := now env in
  let cred := {| ID := "mcred_" +:+ rnd; TenantID := inTenantID input; CredUserID := inUserID input;
                 UserEmail := inUserEmail input; DeviceID := inDeviceID input; Platform := inPlatform input;
                 DeviceModel := inDeviceModel input; KeystoreLevel := inKeystoreLevel input;
                 PublicKeyPEM := inPublicKeyPEM input; Status := "active"; CredIssuedAt := now;
                 CredExpiresAt := now + CredentialTTL (inKeystoreLevel input);
                 RevokedAt := None; LastUsedAt := None |} in
  modify (λ s, s <| credentials :=
    update_all (λ c, same_device (inTenantID input) (inUserID input) (inDeviceID input) c && is_status "active" c)
      (revoke now) (credentials s) ++ [cred] |>) ;;
  persist env ;;
  mret cred.

Definition GetCredential (tenantID credentialID : string) : op Service cred_err MobileCredential :=
  with_credential tenantID credentialID (λ _ c, mret c).

Definition ListUserCredentials (tenantID userID : string) (s : Service) : list MobileCredential :=
  filterb (λ c, String.eqb (TenantID c) tenantID && String.eqb (CredUserID c) userID) (credentials s).

Definition usable (now : Z) (c : MobileCredential) : bool :=
  is_status "active" c && After (CredExpiresAt c) now.

Definition ListActiveCredentials (tenantID : string) (now : Z) (s : Service) : list MobileCredential :=
  filterb (λ c, String.eqb (TenantID c) tenantID && usable now c) (credentials s).

Definition RevokeCredential (tenantID credentialID : string) (env : Env) : op Service cred_err unit :=
  with_credential tenantID credentialID (λ i c,
    fail_if (is_status "revoked" c) ErrAlreadyRevoked ;;
    put i (revoke (now env) c) ;;
    persist env).

Definition SuspendCredential (tenantID credentialID : string) (env : Env) : op Service cred_err unit :=
  with_credential tenantID credentialID (λ i c,
    fail_if (is_status "revoked" c) ErrRevoked ;;
    fail_if (is_status "suspended" c) ErrAlreadySuspended ;;
    put i (c <| Status := "suspended" |>) ;;
    persist env).

Definition ActivateCredential (tenantID credentialID : string) (env : Env) : op Service cred_err unit :=
  with_credential tenantID credentialID (λ i c,
    fail_if (is_status "revoked" c) ErrRevoked ;;
    fail_if (is_status "active" c) ErrAlreadyActive ;;
    put i (c <| Status := "active" |>) ;;
    persist env).

Definition user_active (tenantID userID : string) (c : MobileCredential) : bool :=
  String.eqb (TenantID c) tenantID && String.eqb (CredUserID c) userID && is_status "active" c.

Definition RevokeAllUserCredentials (tenantID userID : string) (env : Env) : op Service cred_err Z :=
  count ← gets (λ s, length (filterb (user_active tenantID userID) (credentials s)));
  modify (λ s, s <| credentials := update_all (user_active tenantID userID) (revoke (now env)) (credentials s) |>) ;;
  (if Nat.ltb 0 count then persist env else mret tt) ;;
  mret (Z.of_nat count).

Definition RefreshCredential (tenantID credentialID : string) (env : Env) : op Service cred_err MobileCredential :=
  with_credential tenantID credentialID (λ i c,
    fail_if (negb (is_status "active" c)) ErrNotActive ;;
    let c' := c <| CredExpiresAt := now env + CredentialTTL (KeystoreLevel c) |> in
    put i c' ;;
    persist env ;;
    mret c').

Definition TouchCredential (tenantID credentialID : string) (env : Env) : op Service cred_err unit :=
  found ← gets (λ s, findi (by_id tenantID credentialID) (credentials s));
  match found with
  | None => mret tt
  | Some (i, c) => put i (c <| LastUsedAt := Some (now env) |>)
  end.

(** ** Signatures *)

(** The first active, unexpired credential of the user. *)
Definition active_credential (tenantID userID : string) (now : Z) (s : Service) : option (nat * MobileCredential) :=
  findi (λ c, String.eqb (TenantID c) tenantID && String.eqb (CredUserID c) userID && usable now c) (credentials s).

Definition VerifyBLESignature (tenantID userID : string) (nonce signature : bytes) (now : Z) (s : Service)
  : result cred_err MobileCredential :=
  match active_credential tenantID userID now s with
  | None => Err ErrNoActiveCredential
  | Some (_, c) =>
      match ParseECPublicKey (PublicKeyPEM c) with
      | None => Err ErrStoredKey
      | Some pubKey =>
          if negb (VerifyASN1 pubKey (Sum256 (message1 nonce userID)) signature) then Err ErrSignature
          else Ok c
      end
  end.

Definition VerifyBLESignatureV2 (tenantID userID : string) (nonce : bytes) (transportTag : string)
    (signature : bytes) (now : Z) (s : Service) : result cred_err MobileCredential :=
  match active_credential tenantID userID now s with
  | None => Err ErrNoActiveCredential
  | Some (_, c) =>
      match ParseECPublicKey (PublicKeyPEM c) with
      | None => Err ErrStoredKey
      | Some pubKey =>
          if verify_hash pubKey (Sum256 (message2 nonce userID transportTag)) signature
          then Ok c else Err ErrSignature
      end
  end.
End service.

(** ** Gateway synchronisation *)

(** [for gwLock { for uLock { if equal { append; break } } }] *)
Definition matched_locks (gatewayLockIDs userLocks : list string) : list string :=
  filterb (λ g, existsb' (λ u, String.eqb g u) userLocks) gatewayLockIDs.

Definition BuildGatewayCredentialSync (tenantID : string) (gatewayLockIDs : list string)
    (userLockAccess : gmap string (list string)) (now : Z) (s : Service) : list GatewayCredentialSync :=
  omap (λ cred,
    match userLockAccess !! CredUserID cred with
    | None => None
    | Some userLocks =>
        let matchedLocks := matched_locks gatewayLockIDs userLocks in
        if Nat.eqb (length matchedLocks) 0 then None
        else Some (mkSync (CredUserID cred) (UserEmail cred) (PublicKeyPEM cred) matchedLocks
                     (Unix (CredExpiresAt cred)) None 0)
    end) (ListActiveCredentials tenantID now s).

Definition gatewayCredentialSyncVersion (c : MobileCredential) : Z :=
  let syncVersion := CredIssuedAt c in
  match RevokedAt c with
  | Some revokedVersion => if syncVersion <? revokedVersion then revokedVersion else wrap64 (syncVersion + 1)
  | None => syncVersion
  end.

(** [seen] holds the locks already in the result. *)
Fixpoint intersect_loop (gatewayLockSet : gset string) (userLocks : list string) (seen : gset string) : list string :=
  match userLocks with
  | [] => []
  | id :: rest =>
      let nextID := TrimSpace id in
      if is_empty nextID then intersect_loop gatewayLockSet rest seen
      else if bool_decide (nextID ∉ gatewayLockSet) then intersect_loop gatewayLockSet rest seen
      else if bool_decide (nextID ∈ seen) then intersect_loop gatewayLockSet rest seen
      else nextID :: intersect_loop gatewayLockSet rest ({[nextID]} ∪ seen)
  end.

Definition intersectGatewayLocks (gatewayLockSet : gset string) (userLocks : list string) : list string :=
  if bool_decide (gatewayLockSet = ∅) || Nat.eqb (length userLocks) 0 then []
  else intersect_loop gatewayLockSet userLocks ∅.

Definition lock_set (ids : list string) : gset string :=
  list_to_set (filterb (λ s, negb (is_empty s)) (TrimSpace <$> ids)).

(** The entry a credential gives in an incremental sync, if any. *)
Definition sync_entry (tenantID : string) (gatewayLockSet : gset string)
    (userLockAccess : gmap string (list string)) (sinceVersion now : Z) (c : MobileCredential)
  : option GatewayCredentialSync :=
  if negb (String.eqb (TenantID c) tenantID) then None
  else
    let syncVersion := gatewayCredentialSyncVersion c in
    if syncVersion <=? sinceVersion then None
    else if negb (is_status "active" c) && negb (is_status "revoked" c) then None
    else if is_status "active" c && negb (After (CredExpiresAt c) now) then None
    else
      let lockIDs := intersectGatewayLocks gatewayLockSet (default [] (userLockAccess !! CredUserID c)) in
      if Nat.eqb (length lockIDs) 0 then None
      else Some (mkSync (CredUserID c) (UserEmail c) (PublicKeyPEM c) lockIDs (Unix (CredExpiresAt c))
                   (if is_status "revoked" c then Unix <$> RevokedAt c else None) syncVersion).

Definition BuildGatewayCredentialSyncSince (tenantID : string) (gatewayLockIDs : list string)
    (userLockAccess : gmap string (list string)) (sinceVersion now : Z) (s : Service) : list GatewayCredentialSync :=
  if is_empty (TrimSpace tenantID) || Nat.eqb (length gatewayLockIDs) 0 || bool_decide (userLockAccess = ∅) then []
  else if bool_decide (lock_set gatewayLockIDs = ∅) then []
  else omap (sync_entry tenantID (lock_set gatewayLockIDs) userLockAccess sinceVersion now) (credentials s).

Definition GetGatewayCredentialSyncSince (sinceVersion : Z) (s : Service) : list GatewayCredentialSync :=
  omap (λ c,
    let syncVersion := Unix (CredIssuedAt c) in
    if syncVersion <=? sinceVersion then None
    else Some (mkSync (CredUserID c) (UserEmail c) (PublicKeyPEM c) [] (Unix (CredExpiresAt c))
                 (if is_status "revoked" c then Unix <$> RevokedAt c else None) syncVersion)) (credentials s).

Inductive LoadReply := LoadErr | LoadMissing | LoadFound (snap : list MobileCredential).

Definition restoreFromStateStore (r : LoadReply) : op Service string unit := λ s,
  match r with
  | LoadErr => (s, Err "load")
  | LoadMissing => (s, Ok tt)
  | LoadFound snap => (s <| credentials := snap |>, Ok tt)
  end.

(** ** Runs *)

Inductive call :=
| CRegister (input : RegisterDeviceInput) (rnd : string)
| CRevoke (tenantID credentialID : string)
| CSuspend (tenantID credentialID : string)
| CActivate (tenantID credentialID : string)
| CRevokeAll (tenantID userID : string)
| CRefresh (tenantID credentialID : string)
| CTouch (tenantID credentialID : string).

Section runs.
Context {CR : Crypto} (attestation_ok : list string → string → bool).

Definition run_call (k : call) (env : Env) : Service → Service :=
  match k with
  | CRegister input rnd => exec (RegisterDevice attestation_ok input rnd env)
  | CRevoke t c => exec (RevokeCredential t c env)
  | CSuspend t c => exec (SuspendCredential t c env)
  | CActivate t c => exec (ActivateCredential t c env)
  | CRevokeAll t u => exec (RevokeAllUserCredentials t u env)
  | CRefresh t c => exec (RefreshCredential t c env)
  | CTouch t c => exec (TouchCredential t c env)
  end.

Definition run_calls (ks : list (call * Env)) (s : Service) : Service :=
  fold_left (λ s k, run_call (fst k) (snd k) s) ks s.

(** How one credential may change: who it belongs to and its key never do, and
    a revoked one only has its last use updated. *)
Definition identity (c : MobileCredential) :=
  (ID c, TenantID c, CredUserID c, DeviceID c, KeystoreLevel c, PublicKeyPEM c, CredIssuedAt c).

Definition evolves (c c' : MobileCredential) : Prop :=
  identity c' = identity c ∧
  (Status c = "revoked" → Status c' = "revoked" ∧ RevokedAt c' = RevokedAt c ∧ CredExpiresAt c' = CredExpiresAt c).

#[export] Instance evolves_preorder : PreOrder evolves.
Proof.
  split; [done|]. intros a b c [H1 H2] [H3 H4]. split; [congruence|].
  intros Hr. destruct (H2 Hr) as (Hr' & ? & ?). destruct (H4 Hr') as (? & ? & ?). split_and!; congruence.
Qed.

(** The slice only grows, each entry evolving. *)
Definition grows (l l' : list MobileCredential) : Prop :=
  ∃ l1 new, l' = l1 ++ new ∧ Forall2 evolves l l1.

Lemma grows_Forall2 l l' : Forall2 evolves l l' → grows l l'.
Proof. intros. exists l', []. by rewrite app_nil_r. Qed.

Lemma grows_refl l : grows l l.
Proof. apply grows_Forall2. by apply Forall_Forall2_diag, Forall_forall. Qed.

Lemma grows_snoc l c : grows l (l ++ [c]).
Proof. exists l, [c]. split; [done|]. by apply Forall_Forall2_diag, Forall_forall. Qed.

Lemma grows_trans a b c : grows a b → grows b c → grows a c.
Proof.
  intros (l1 & n1 & -> & H1) (l2 & n2 & -> & H2). apply Forall2_app_inv_l in H2 as (x & y & Hx & Hy & ->).
  exists x, (y ++ n2). rewrite app_assoc. split; [done|]. by etrans.
Qed.

Lemma grows_put l i c c' : l !! i = Some c → evolves c c' → grows l (<[i := c']> l).
Proof.
  intros Hi He. apply grows_Forall2. apply Forall2_same_length_lookup. rewrite length_insert. split; [done|].
  intros j x y Hx Hy. destruct (decide (i = j)) as [->|Hne].
  - rewrite list_lookup_insert_eq in Hy by by apply lookup_lt_Some in Hi. by simplify_eq.
  - rewrite list_lookup_insert_ne in Hy by done. by simplify_eq.
Qed.

Lemma grows_update_all p f l :
  (∀ c, p c = true → evolves c (f c)) → grows l (update_all p f l).
Proof.
  intros Hf. apply grows_Forall2. unfold update_all. apply Forall2_fmap_r, Forall_Forall2_diag, Forall_forall.
  intros c _. change (evolves c (if p c then f c else c)). destruct (p c) eqn:Hp; [by apply Hf|done].
Qed.

Lemma persist_credentials env s : credentials (exec (persist env) s) = credentials s.
Proof. unfold exec, persist. by destruct (store env). Qed.

Lemma exec_persist {A} env (k : op Service cred_err A) s :
  exec (persist env ;; k) s = exec k (exec (persist env) s).
Proof. unfold exec. rewrite bind_op_eq. unfold persist. by destruct (store env). Qed.

(** Working on one credential. *)
Lemma with_credential_grows {A} t cid (k : nat → MobileCredential → op Service cred_err A) s :
  (∀ i c, credentials s !! i = Some c → grows (credentials s) (credentials (exec (k i c) s))) →
  grows (credentials s) (credentials (exec (with_credential t cid k) s)).
Proof.
  intros Hk. unfold with_credential, exec. rewrite bind_gets.
  destruct (findi (by_id t cid) (credentials s)) as [[i c]|] eqn:Hf; [|apply grows_refl].
  apply Hk. by eapply findi_lookup.
Qed.

Lemma exec_put {A} i c (k : op Service cred_err A) s :
  exec (put i c ;; k) s = exec k (s <| credentials := <[i := c]> (credentials s) |>).
Proof. reflexivity. Qed.

Lemma not_revoked c : is_status "revoked" c = false → Status c ≠ "revoked".
Proof. unfold is_status. by intros ?%String.eqb_neq. Qed.

Lemma active_evolves now c : is_status "active" c = true → evolves c (revoke now c).
Proof. unfold is_status. intros Ha%String.eqb_eq. split; [done|]. by rewrite Ha. Qed.

Lemma run_call_grows k env s : grows (credentials s) (credentials (run_call k env s)).
Proof.
  destruct k as [input rnd|t c|t c|t c|t u|t c|t c]; simpl.
  - unfold RegisterDevice. exec_run. destruct (validateRegisterInput input); [|apply grows_refl]. exec_run.
    destruct (ParseECPublicKey (inPublicKeyPEM input)); [|apply grows_refl].
    destruct (negb (Nat.eqb _ _) && _); [apply grows_refl|]. exec_run. rewrite exec_persist. exec_run.
    rewrite persist_credentials. cbn [credentials set].
    eapply grows_trans; [|apply grows_snoc]. apply grows_update_all.
    intros x [_ Ha]%andb_true_iff. by apply active_evolves.
  - apply with_credential_grows. intros i x Hx. rewrite exec_fail_if.
    destruct (is_status "revoked" x) eqn:Hr; [apply grows_refl|].
    rewrite exec_put, persist_credentials. eapply grows_put; [done|]. split; [done|].
    intros ?. by apply not_revoked in Hr.
  - apply with_credential_grows. intros i x Hx. rewrite !exec_fail_if.
    destruct (is_status "revoked" x) eqn:Hr; [apply grows_refl|].
    destruct (is_status "suspended" x); [apply grows_refl|].
    rewrite exec_put, persist_credentials. eapply grows_put; [done|]. split; [done|].
    intros ?. by apply not_revoked in Hr.
  - apply with_credential_grows. intros i x Hx. rewrite !exec_fail_if.
    destruct (is_status "revoked" x) eqn:Hr; [apply grows_refl|].
    destruct (is_status "active" x); [apply grows_refl|].
    rewrite exec_put, persist_credentials. eapply grows_put; [done|]. split; [done|].
    intros ?. by apply not_revoked in Hr.
  - unfold RevokeAllUserCredentials. exec_run.
    assert (∀ x, user_active t u x = true → evolves x (revoke (now env) x)) as He.
    { intros x [_ Ha]%andb_true_iff. by apply active_evolves. }
    destruct (Nat.ltb _ _); [rewrite exec_persist; exec_run; rewrite persist_credentials|];
      by apply grows_update_all.
  - apply with_credential_grows. intros i x Hx. rewrite exec_fail_if.
    destruct (is_status "active" x) eqn:Hr; [|apply grows_refl]. simpl negb. cbv iota.
    rewrite exec_put, exec_persist. unfold exec at 1. cbn. rewrite persist_credentials.
    eapply grows_put; [done|]. split; [done|]. intros Hs. unfold is_status in Hr. by rewrite Hs in Hr.
  - unfold TouchCredential, exec. rewrite bind_gets.
    destruct (findi (by_id t c) (credentials s)) as [[i x]|] eqn:Hf; [|apply grows_refl].
    simpl. eapply grows_put; [by eapply findi_lookup|]. by split.
Qed.

Lemma run_calls_grow ks s : grows (credentials s) (credentials (run_calls ks s)).
Proof.
  revert s; induction ks as [|[k env] ks IH]; intros s; simpl; [apply grows_refl|].
  eapply grows_trans; [apply (run_call_grows k env)|apply IH].
Qed.

Lemma active_credential_usable t u now s i c :
  active_credential t u now s = Some (i, c) →
  c ∈ credentials s ∧ TenantID c = t ∧ CredUserID c = u ∧ Status c = "active" ∧ now < CredExpiresAt c.
Proof.
  unfold active_credential, usable, is_status, After. intros H.
  pose proof (findi_true _ _ _ _ H) as Hp. cbv beta in Hp. boolp. split; [by eapply findi_elem|done].
Qed.

(** What a verified signature proves.  When the cloud accepts a v2
    signature, the credential it returns is stored, belongs to that tenant and
    user, is active, is not past its expiry, and its key verifies the signature
    over nonce, user and transport tag. *)
Theorem verify_v2_sound t u nonce tag sig now s c :
  VerifyBLESignatureV2 t u nonce tag sig now s = Ok c →
  c ∈ credentials s ∧ TenantID c = t ∧ CredUserID c = u ∧ Status c = "active" ∧ now < CredExpiresAt c
  ∧ ∃ k, ParseECPublicKey (PublicKeyPEM c) = Some k
         ∧ verify_hash k (Sum256 (message2 nonce u tag)) sig = true.
Proof.
  unfold VerifyBLESignatureV2. destruct (active_credential t u now s) as [[i x]|] eqn:Ha; [|done].
  destruct (ParseECPublicKey (PublicKeyPEM x)) as [k|] eqn:Hk; [|done].
  destruct (verify_hash _ _ _) eqn:Hv; [|done]. intros [= <-].
  destruct (active_credential_usable _ _ _ _ _ _ Ha) as (? & ? & ? & ? & ?). split_and!; eauto.
Qed.

(** C27: Revocation is final.  Whatever calls follow, with whatever clock and
    store, a revoked credential stays where it is, revoked, with the same
    revocation time, key and owner, and it is never the one a signature check
    or an active listing returns. *)
Theorem revocation_final ks s i c :
  credentials s !! i = Some c → Status c = "revoked" →
  ∃ c', credentials (run_calls ks s) !! i = Some c' ∧ identity c' = identity c
    ∧ Status c' = "revoked" ∧ RevokedAt c' = RevokedAt c
    ∧ (∀ t now, c' ∉ ListActiveCredentials t now (run_calls ks s))
    ∧ ∀ t u nonce tag sig now, VerifyBLESignatureV2 t u nonce tag sig now (run_calls ks s) ≠ Ok c'.
Proof.
  intros Hi Hr. destruct (run_calls_grow ks s) as (l1 & new & Hl & Hf).
  destruct (Forall2_lookup_l _ _ _ _ _ Hf Hi) as (c' & Hc' & Hid & Hkeep).
  destruct (Hkeep Hr) as (Hr' & Ht & _). exists c'. split_and!; try done.
  - rewrite Hl. by apply lookup_app_l_Some.
  - intros t now0 [H _]%elem_of_filterb. unfold usable, is_status in H. by rewrite Hr', andb_false_r in H.
  - unfold VerifyBLESignatureV2. intros t u nonce tag sig now0.
    destruct (active_credential t u now0 (run_calls ks s)) as [[j x]|] eqn:Ha; [|done].
    destruct (active_credential_usable _ _ _ _ _ _ Ha) as (_ & _ & _ & ? & _).
    destruct (ParseECPublicKey _); [|done]. destruct (verify_hash _ _ _); [|done]. intros [= ->]. congruence.
Qed.

(** A phone has one active key.  A successful registration leaves exactly
    one active credential for that tenant, user and device: the new one, last
    in the slice, expiring one keystore lifetime from now; credentials of other
    devices are untouched. *)
Theorem registration_replaces input rnd env s s' c :
  RegisterDevice attestation_ok input rnd env s = (s', Ok c) →
  let dev := same_device (inTenantID input) (inUserID input) (inDeviceID input) in
  filterb (λ x, dev x && is_status "active" x) (credentials s') = [c]
  ∧ last (credentials s') = Some c
  ∧ CredExpiresAt c = now env + CredentialTTL (inKeystoreLevel input)
  ∧ filterb (λ x, negb (dev x)) (credentials s') = filterb (λ x, negb (dev x)) (credentials s).
Proof.
  intros H dev. assert (∃ c0, c = c0 ∧ dev c0 = true ∧ is_status "active" c0 = true
    ∧ CredExpiresAt c0 = now env + CredentialTTL (inKeystoreLevel input)
    ∧ credentials s' = update_all (λ x, dev x && is_status "active" x) (revoke (now env)) (credentials s) ++ [c0])
    as (c0 & <- & Hd & Ha & He & Hs).
  { unfold RegisterDevice in H. rewrite bind_lift in H. destruct (validateRegisterInput input); [|done].
    rewrite !fail_if_bind in H. destruct (ParseECPublicKey (inPublicKeyPEM input)); [|done].
    destruct (negb (Nat.eqb _ _) && _); [done|]. rewrite bind_modify, bind_op_eq in H.
    unfold persist in H. destruct (store env); cbn in H; injection H as <- <-;
      (eexists; split; [reflexivity|]); unfold dev, same_device; simpl; by rewrite !String.eqb_refl. }
  rewrite Hs, !filterb_app. simpl. rewrite Hd, Ha, last_snoc. simpl. split_and!; try done.
  - replace (filterb _ (update_all _ _ _)) with (@nil MobileCredential); [done|]. clear -dev.
    induction (credentials s) as [|x l IH]; [done|]. simpl.
    destruct (dev x && is_status "active" x) eqn:E; simpl.
    + unfold is_status at 1. simpl. rewrite andb_false_r. done.
    + by rewrite E.
  - rewrite app_nil_r. clear -dev. induction (credentials s) as [|x l IH]; [done|]. simpl.
    destruct (dev x && is_status "active" x) eqn:E; simpl.
    + apply andb_true_iff in E as [E _]. assert (dev (revoke (now env) x) = true) as -> by done.
      rewrite E. simpl. apply IH.
    + destruct (dev x); simpl; [apply IH|]. f_equal. apply IH.
Qed.

(** Ending a user's access misses suspended phones.  After
    [RevokeAllUserCredentials] a suspended credential of that user is still
    only suspended, and [ActivateCredential] makes it active again. *)
Theorem revoke_all_misses_suspended s c env env' i :
  findi (by_id (TenantID c) (ID c)) (credentials s) = Some (i, c) → Status c = "suspended" →
  let s1 := exec (RevokeAllUserCredentials (TenantID c) (CredUserID c) env) s in
  credentials s1 !! i = Some c ∧
  ∃ s2, ActivateCredential (TenantID c) (ID c) env' s1 = (s2, Ok tt)
    ∧ credentials s2 !! i = Some (c <| Status := "active" |>).
Proof.
  intros Hf Hs s1.
  assert (credentials s1 = update_all (user_active (TenantID c) (CredUserID c)) (revoke (now env)) (credentials s)) as H1.
  { subst s1. unfold RevokeAllUserCredentials. exec_run.
    destruct (Nat.ltb _ _); [rewrite exec_persist; exec_run; by rewrite persist_credentials|done]. }
  assert (user_active (TenantID c) (CredUserID c) c = false) as Hna.
  { unfold user_active, is_status. by rewrite Hs, andb_false_r. }
  assert (findi (by_id (TenantID c) (ID c)) (credentials s1) = Some (i, c)) as Hf1.
  { rewrite H1. clear -Hf Hna. revert i Hf. induction (credentials s) as [|x l IH]; intros i Hf; [done|]. simpl in *.
    assert (by_id (TenantID c) (ID c) (if user_active (TenantID c) (CredUserID c) x then revoke (now env) x else x)
      = by_id (TenantID c) (ID c) x) as -> by by destruct (user_active _ _ x).
    destruct (by_id _ _ x); [simplify_eq; by rewrite Hna|].
    destruct (findi _ l) as [[j y]|] eqn:Hj; [|done]. simplify_eq. by rewrite (IH _ eq_refl). }
  split; [by eapply findi_lookup|].
  pose proof (findi_lookup _ _ _ _ Hf1) as Hl%lookup_lt_Some.
  unfold ActivateCredential, with_credential. rewrite bind_gets, Hf1, !fail_if_bind.
  unfold is_status. rewrite Hs. simpl. unfold put. rewrite bind_modify. unfold persist.
  destruct (store env'); (eexists; split; [reflexivity|]); simpl; by rewrite list_lookup_insert_eq.
Qed.
End runs.

(** ** What the gateways are told *)

Lemma matched_locks_spec gws us l : l ∈ matched_locks gws us ↔ l ∈ gws ∧ l ∈ us.
Proof.
  unfold matched_locks. rewrite elem_of_filterb. unfold existsb'.
  destruct (findi (λ u, String.eqb l u) us) as [[i x]|] eqn:Hf.
  - pose proof (findi_true _ _ _ _ Hf) as <-%String.eqb_eq. apply findi_elem in Hf. naive_solver.
  - rewrite findi_None in Hf. split; [by intros [? _]|]. intros [_ Hl]. specialize (Hf l Hl).
    by rewrite String.eqb_refl in Hf.
Qed.

(** The full list sent to a gateway.  It has an entry for a key exactly when
    some active, unexpired credential of the tenant has it and its user has
    access to a lock of that gateway; the entry lists exactly the gateway's locks
    that user may open, and never a revoked or suspended key. *)
Theorem full_sync_exact tenantID gws (access : gmap string (list string)) now s y :
  y ∈ BuildGatewayCredentialSync tenantID gws access now s ↔
  ∃ c userLocks, c ∈ credentials s ∧ TenantID c = tenantID ∧ Status c = "active" ∧ now < CredExpiresAt c
    ∧ access !! CredUserID c = Some userLocks
    ∧ y = mkSync (CredUserID c) (UserEmail c) (PublicKeyPEM c) (matched_locks gws userLocks)
            (Unix (CredExpiresAt c)) None 0
    ∧ ∃ l, l ∈ gws ∧ l ∈ userLocks.
Proof.
  unfold BuildGatewayCredentialSync, ListActiveCredentials, usable, is_status, After. rewrite list_elem_of_omap.
  assert (∀ us, Nat.eqb (length (matched_locks gws us)) 0 = false ↔ ∃ l, l ∈ gws ∧ l ∈ us) as Hne.
  { intros us. rewrite Nat.eqb_neq. destruct (matched_locks gws us) as [|x l] eqn:Hm; simpl.
    - split; [done|]. intros (l & Hl). apply matched_locks_spec in Hl. rewrite Hm in Hl. set_solver.
    - split; [|done]. intros _. exists x. apply matched_locks_spec. rewrite Hm. set_solver. }
  split.
  - intros (c & [Hp Hc]%elem_of_filterb & Hy). boolp.
    destruct (access !! CredUserID c) as [us|] eqn:Hu; [|done].
    destruct (Nat.eqb _ _) eqn:He; [done|]. apply Hne in He. simplify_eq. exists c, us. split_and!; try done.
  - intros (c & us & Hc & Ht & Hs & Hx & Hu & -> & Hl). exists c. split.
    + apply elem_of_filterb. rewrite Ht, Hs, !String.eqb_refl. simpl. split; [by apply Z.ltb_lt|done].
    + rewrite Hu. by rewrite (proj2 (Hne us) Hl).
Qed.

Definition version_fits (c : MobileCredential) : Prop := min_int64 <= CredIssuedAt c < max_int64.

Lemma revoke_raises_version now c :
  version_fits c → RevokedAt c = None →
  gatewayCredentialSyncVersion c < gatewayCredentialSyncVersion (revoke now c) ∧ now <= gatewayCredentialSyncVersion (revoke now c).
Proof.
  unfold version_fits, gatewayCredentialSyncVersion, revoke. intros Hf ->. simpl.
  destruct (Z.ltb_spec (CredIssuedAt c) now); [done|]. rewrite wrap64_small; lia.
Qed.

(** C28: A revocation reaches every gateway it concerns.  After a successful
    [RevokeCredential], a gateway that has the tenant's door and whose door the user may
    open gets from the incremental sync an entry with that key marked revoked and a version
    it has not seen: whatever it has seen before the revocation, other credentials that
    were issued or revoked later than this one was issued included. *)
Theorem revocation_delivered tenantID credID env s s' gws access since now' c i :
  findi (by_id tenantID credID) (credentials s) = Some (i, c) → RevokedAt c = None → version_fits c →
  RevokeCredential tenantID credID env s = (s', Ok tt) →
  is_empty (TrimSpace tenantID) = false → gws ≠ [] →
  intersectGatewayLocks (lock_set gws) (default [] (access !! CredUserID c)) ≠ [] →
  since < now env ∨ since <= gatewayCredentialSyncVersion c →
  ∃ y, y ∈ BuildGatewayCredentialSyncSince tenantID gws access since now' s'
    ∧ syPublicKeyPEM y = PublicKeyPEM c ∧ syRevokedAt y = Some (Unix (now env)) ∧ since < sySyncVersion y.
Proof.
  intros Hf Hnr Hv Hok Ht Hg Hl Hs.
  assert (credentials s' = <[i := revoke (now env) c]> (credentials s)) as Hs'.
  { unfold RevokeCredential, with_credential in Hok. rewrite bind_gets, Hf, fail_if_bind in Hok.
    destruct (is_status "revoked" c); [done|]. unfold put in Hok. rewrite bind_modify in Hok.
    unfold persist in Hok. by destruct (store env); simplify_eq. }
  destruct (revoke_raises_version (now env) c Hv Hnr) as [Hgt Hnow].
  pose proof (findi_true _ _ _ _ Hf) as Hid. unfold by_id in Hid. boolp.
  unfold BuildGatewayCredentialSyncSince. rewrite Ht.
  assert (access ≠ ∅ ∧ lock_set gws ≠ ∅) as [Ha Hne].
  { split; intros He; apply Hl; unfold intersectGatewayLocks;
      [by rewrite He, lookup_empty, orb_true_r|by rewrite bool_decide_eq_true_2]. }
  rewrite !bool_decide_eq_false_2 by done. destruct gws as [|g gws]; [done|]. simpl length. simpl orb. cbv iota.
  destruct (intersectGatewayLocks (lock_set (g :: gws)) (default [] (access !! CredUserID c))) as [|l0 ls] eqn:Hil; [done|].
  eexists. split; [apply list_elem_of_omap; exists (revoke (now env) c); split|].
  - rewrite Hs'. apply list_elem_of_lookup_2 with i. apply list_lookup_insert_eq. by eapply lookup_lt_Some, findi_lookup.
  - unfold sync_entry. change (TenantID (revoke (now env) c)) with (TenantID c). change (CredUserID (revoke (now env) c)) with (CredUserID c).
    replace (String.eqb (TenantID c) tenantID) with true by (symmetry; by apply String.eqb_eq). simpl negb. cbv iota zeta.
    rewrite (proj2 (Z.leb_gt _ _)) by lia. change (is_status "active" (revoke (now env) c)) with false.
    change (is_status "revoked" (revoke (now env) c)) with true. cbn [negb andb]. cbv iota. rewrite Hil. reflexivity.
  - split_and!; [done|done|]. cbn [sySyncVersion]. lia.
Qed.

Section blind.
Context {CR : Crypto} (attestation_ok : list string → string → bool).

(** The incremental sync is blind to everything but issue and revocation.
  A gateway that is up to date with every credential of the service is told
  nothing after a credential is suspended, reactivated, refreshed or used: a
  suspended key stays usable at its doors until the key expires there, and a
  new expiry is never delivered. *)
Theorem sync_blind k env s tenantID gws access since now' :
(∃ t c, k = CSuspend t c ∨ k = CActivate t c ∨ k = CRefresh t c ∨ k = CTouch t c) →
Forall (λ c, gatewayCredentialSyncVersion c <= since) (credentials s) →
BuildGatewayCredentialSyncSince tenantID gws access since now'
  (run_call attestation_ok k env s) = [].
Proof.
intros Hk Hv.
assert (Forall (λ c, gatewayCredentialSyncVersion c <= since)
          (credentials (run_call attestation_ok k env s))) as Hv'.
{ assert (∀ i c f, credentials s !! i = Some c → gatewayCredentialSyncVersion f = gatewayCredentialSyncVersion c →
    Forall (λ c, gatewayCredentialSyncVersion c <= since) (<[i := f]> (credentials s))) as Hput.
  { intros i c f Hi Hf. apply Forall_insert; [done|]. rewrite Hf. by rewrite Forall_lookup in Hv; apply (Hv i). }
  destruct Hk as (t & cid & [-> |[-> |[-> | ->]]]); simpl; unfold SuspendCredential, ActivateCredential,
    RefreshCredential, TouchCredential, with_credential; exec_run;
    destruct (findi (by_id t cid) (credentials s)) as [[i c]|] eqn:Hf; try done; apply findi_lookup in Hf;
    exec_run.
  - destruct (is_status "revoked" c), (is_status "suspended" c); try done.
    rewrite exec_put, persist_credentials. by eapply Hput.
  - destruct (is_status "revoked" c), (is_status "active" c); try done.
    rewrite exec_put, persist_credentials. by eapply Hput.
  - destruct (negb (is_status "active" c)); [done|].
    rewrite exec_put, exec_persist. exec_run. rewrite persist_credentials. by eapply Hput.
  - by eapply Hput. }
unfold BuildGatewayCredentialSyncSince. destruct (_ || _); [done|]. destruct (bool_decide _); [done|].
revert Hv'. generalize (credentials (run_call attestation_ok k env s)). clear.
induction l as [|c l IH]; [done|]. intros [Hc Hl]%Forall_cons. simpl. unfold sync_entry at 1.
destruct (negb _); [by apply IH|]. rewrite (proj2 (Z.leb_le _ _) Hc). by apply IH.
Qed.

End blind.

(** ** Restart *)

Definition untouched (c : MobileCredential) : MobileCredential := c <| LastUsedAt := None |>.

Section restart.
Context {CR : Crypto} (attestation_ok : list string → string → bool).

(** Store and memory agree up to the last-used stamps. *)
Definition synced (s : Service) : Prop :=
  ∃ snap, savedState s = Some snap ∧ untouched <$> snap = untouched <$> credentials s.

Lemma persist_synced env s : store env = StoreSaved → synced (exec (persist env) s).
Proof. unfold exec, persist, synced. intros ->. simpl. eauto. Qed.

Lemma run_call_synced k env s :
  store env = StoreSaved → synced s → synced (run_call attestation_ok k env s).
Proof.
  intros Hst Hs. destruct k as [input rnd|t c|t c|t c|t u|t c|t c]; simpl.
  - unfold RegisterDevice. exec_run. destruct (validateRegisterInput input); [|done]. exec_run.
    destruct (ParseECPublicKey (inPublicKeyPEM input)); [|done].
    destruct (negb (Nat.eqb _ _) && _); [done|]. exec_run. rewrite exec_persist. exec_run. by apply persist_synced.
  - unfold RevokeCredential, with_credential. exec_run. destruct (findi _ _) as [[i x]|]; [|done]. exec_run.
    destruct (is_status "revoked" x); [done|]. rewrite exec_put. by apply persist_synced.
  - unfold SuspendCredential, with_credential. exec_run. destruct (findi _ _) as [[i x]|]; [|done]. exec_run.
    destruct (is_status "revoked" x), (is_status "suspended" x); try done. rewrite exec_put. by apply persist_synced.
  - unfold ActivateCredential, with_credential. exec_run. destruct (findi _ _) as [[i x]|]; [|done]. exec_run.
    destruct (is_status "revoked" x), (is_status "active" x); try done. rewrite exec_put. by apply persist_synced.
  - unfold RevokeAllUserCredentials. exec_run.
    destruct (Nat.ltb_spec 0 (length (filterb (user_active t u) (credentials s)))) as [|H0];
      [rewrite exec_persist; exec_run; by apply persist_synced|]. exec_run.
    destruct Hs as (snap & H1 & H2). exists snap. split; [done|]. simpl. rewrite H2. f_equal. unfold update_all.
    assert (filterb (user_active t u) (credentials s) = []) as Hnil by (destruct (filterb _ _); simpl in H0; [done|lia]).
    clear -Hnil. induction (credentials s) as [|x l IH]; [done|]. csimpl in *.
    destruct (user_active t u x); [done|]. by rewrite <- IH.
  - unfold RefreshCredential, with_credential. exec_run. destruct (findi _ _) as [[i x]|]; [|done]. exec_run.
    destruct (negb _); [done|]. rewrite exec_put, exec_persist. exec_run. by apply persist_synced.
  - unfold TouchCredential. exec_run. destruct (findi _ _) as [[i x]|] eqn:Hf; [|done].
    destruct Hs as (snap & H1 & H2). exists snap. split; [done|]. simpl. rewrite H2.
    rewrite list_fmap_insert. symmetry. apply list_insert_id. rewrite list_lookup_fmap.
    by rewrite (findi_lookup _ _ _ _ Hf).
Qed.

(** A restart loses no decision.  While every save succeeds, whatever calls
    are made, a service restored from the store has the same credentials in
    the same states (active, suspended, revoked, expiry, keys), up to the
    last-used stamps, which are not saved on use. *)
Theorem restart_keeps_state (ks : list (call * Env)) s0 :
  synced s0 → Forall (λ k, store (snd k) = StoreSaved) ks →
  let s := run_calls attestation_ok ks s0 in
  ∃ snap, savedState s = Some snap ∧
    untouched <$> credentials (exec (restoreFromStateStore (LoadFound snap)) s0)
    = untouched <$> credentials s.
Proof.
  intros Hs Hf s. assert (synced s) as (snap & H1 & H2); [|by exists snap].
  subst s. revert s0 Hs. induction ks as [|[k env] ks IH]; intros s Hs; [done|].
  apply Forall_cons in Hf as [Hk Hf]. simpl. apply IH; [done|]. by apply run_call_synced.
Qed.
End restart.

(** ** Witnesses *)

Definition cred0 (st : string) : MobileCredential :=
  {| ID := "c1"; TenantID := "t"; CredUserID := "u"; UserEmail := "u@x"; DeviceID := "d"; Platform := "ios";
     DeviceModel := "m"; KeystoreLevel := "tee"; PublicKeyPEM := "k"; Status := st; CredIssuedAt := 100;
     CredExpiresAt := 30 * day; RevokedAt := if String.eqb st "revoked" then Some 200 else None; LastUsedAt := None |}.
Definition service0 (st : string) : Service := mkService [cred0 st] (Some [cred0 st]).
Definition input0 : RegisterDeviceInput := mkInput "t" "u" "u@x" "k2" "ios" "d" "m" "tee" [].
Definition env0 : Env := mkEnv 1000 None StoreSaved.
Definition access0 : gmap string (list string) := {["u" := ["lock-1"]]}.

Lemma verify_v2_sound_witness :
  ∃ c, @VerifyBLESignatureV2 toy_crypto "t" "u" [] "BLE" (of_string "kuBLE") 1000 (service0 "active") = Ok c
    ∧ Status c = "active".
Proof.
  exists (cred0 "active"). split; [vm_compute; reflexivity|].
  apply (@verify_v2_sound toy_crypto "t" "u" [] "BLE" (of_string "kuBLE") 1000 (service0 "active") (cred0 "active")).
  vm_compute. reflexivity.
Defined.

Lemma revocation_final_witness :
  ∃ c', credentials (@run_calls toy_crypto (λ _ _, true) [(CActivate "t" "c1", env0)] (service0 "revoked")) !! 0%nat
        = Some c' ∧ Status c' = "revoked".
Proof.
  destruct (@revocation_final toy_crypto (λ _ _, true) [(CActivate "t" "c1", env0)] (service0 "revoked") 0 (cred0 "revoked"))
    as (c' & ? & _ & ? & _); [reflexivity|reflexivity|]. exists c'. split; assumption.
Defined.

Lemma registration_replaces_witness :
  last (credentials (exec (@RegisterDevice toy_crypto (λ _ _, true) input0 "ff" env0) (service0 "active")))
  = match answer (@RegisterDevice toy_crypto (λ _ _, true) input0 "ff" env0) (service0 "active") with
    | Ok c => Some c | Err _ => None end.
Proof.
  destruct (@RegisterDevice toy_crypto (λ _ _, true) input0 "ff" env0 (service0 "active")) as [s' [c|e]] eqn:H;
    [|vm_compute in H; discriminate].
  unfold exec, answer. rewrite H.
  apply (@registration_replaces toy_crypto (λ _ _, true) input0 "ff" env0 (service0 "active") s' c H).
Defined.

Lemma revoke_all_misses_suspended_witness :
  ∃ s2, ActivateCredential "t" "c1" env0 (exec (RevokeAllUserCredentials "t" "u" env0) (service0 "suspended"))
        = (s2, Ok tt).
Proof.
  destruct (revoke_all_misses_suspended (service0 "suspended") (cred0 "suspended") env0 env0 0) as (_ & s2 & H & _);
    [reflexivity|reflexivity|]. exists s2. exact H.
Defined.

(** The gateway has seen another credential, issued at 999. *)
Lemma revocation_delivered_witness :
  ∃ y, y ∈ BuildGatewayCredentialSyncSince "t" ["lock-1"] access0 999 2000
             (exec (RevokeCredential "t" "c1" env0) (service0 "active"))
    ∧ syRevokedAt y = Some 0.
Proof.
  destruct (revocation_delivered "t" "c1" env0 (service0 "active")
    (exec (RevokeCredential "t" "c1" env0) (service0 "active")) ["lock-1"] access0 999 2000 (cred0 "active") 0)
    as (y & Hy & _ & Hr & _);
    [reflexivity|reflexivity|vm_compute; split; congruence|reflexivity|reflexivity|discriminate
    |vm_compute; discriminate|left; vm_compute; reflexivity|].
  exists y. split; [exact Hy|exact Hr].
Defined.

Lemma sync_blind_witness :
  BuildGatewayCredentialSyncSince "t" ["lock-1"] access0 100 2000
    (@run_call toy_crypto (λ _ _, true) (CSuspend "t" "c1") env0 (service0 "active")) = [].
Proof.
  apply (@sync_blind toy_crypto (λ _ _, true) (CSuspend "t" "c1") env0 (service0 "active")).
  - exists "t", "c1". by left.
  - repeat constructor. vm_compute. congruence.
Defined.

Lemma restart_keeps_state_witness :
  ∃ snap, savedState (@run_calls toy_crypto (λ _ _, true) [(CSuspend "t" "c1", env0)] (service0 "active")) = Some snap.
Proof.
  destruct (@restart_keeps_state toy_crypto (λ _ _, true) [(CSuspend "t" "c1", env0)] (service0 "active")) as (snap & H & _).
  - exists [cred0 "active"]. by split.
  - by repeat constructor.
  - exists snap. exact H.
Defined.
