(* ===== verification/Event.v ===== *)
(** * Event ingestion (modules/event/service.go)

    Access and device events sent by the gateways, stored newest first, with
    duplicates recognised by idempotency key or by id within a tenant and
    gateway.  Subscribers are channels of capacity one: [subscribers] maps a
    subscription to whether its channel holds a wake-up. *)

From S2P Require Import Prelude GoStrings GoTime.
#[local] Open Scope Z_scope.

Record AccessEvent := mkAccessEvent {
  aeID : string; aeIdempotencyKey : string; aeTenantID : string; aeBuildingID : string; aeAreaID : string;
  aeType : string; aeActor : string; aeDoorID : string; aeGatewayID : string; aeResult : string; aeAt : Z
}.

Record DeviceEvent := mkDeviceEvent {
  deID : string; deIdempotencyKey : string; deTenantID : string; deBuildingID : string;
  deType : string; deGatewayID : string; deDetail : string; deResult : string; deAt : Z
}.

(** The input structs have the same fields. *)
Definition IngestAccessEventInput := AccessEvent.
Definition IngestDeviceEventInput := DeviceEvent.

(** What the duplicate checks look at, in both kinds of event. *)
Class Identified (E : Type) := {
  evID : E → string; evKey : E → string; evTenant : E → string; evGateway : E → string
}.
#[export] Instance access_identified : Identified AccessEvent :=
  {| evID := aeID; evKey := aeIdempotencyKey; evTenant := aeTenantID; evGateway := aeGatewayID |}.
#[export] Instance device_identified : Identified DeviceEvent :=
  {| evID := deID; evKey := deIdempotencyKey; evTenant := deTenantID; evGateway := deGatewayID |}.

Section lookup.
Context {E : Type} `{!Identified E}.

Definition same_key (tenantID gatewayID key : string) (e : E) : bool :=
  String.eqb (evTenant e) tenantID && String.eqb (evGateway e) gatewayID && String.eqb (evKey e) key.
Definition same_id (tenantID gatewayID id : string) (e : E) : bool :=
  String.eqb (evTenant e) tenantID && String.eqb (evGateway e) gatewayID && String.eqb (evID e) id.

(** [find...ByIdempotencyLocked], [find...ByIDLocked] *)
Definition findByIdempotencyLocked (events : list E) (tenantID gatewayID key : string) : option E :=
  if is_empty key then None else snd <$> findi (same_key tenantID gatewayID key) events.
Definition findByIDLocked (events : list E) (tenantID gatewayID id : string) : option E :=
  if is_empty id then None else snd <$> findi (same_id tenantID gatewayID id) events.

(** The two checks in the order of the handlers. *)
Definition find_duplicate (events : list E) (tenantID gatewayID key id : string) : option E :=
  match findByIdempotencyLocked events tenantID gatewayID key with
  | Some e => Some e
  | None => findByIDLocked events tenantID gatewayID id
  end.
End lookup.

Record Service := mkService {
  accessEvents : list AccessEvent;
  deviceEvents : list DeviceEvent;
  savedState : option (list AccessEvent * list DeviceEvent);
  subscribers : gmap N bool;
  nextSubID : N
}.
#[export] Instance eta_service : Eta Service := fun s =>
  mkService (accessEvents s) (deviceEvents s) (savedState s) (subscribers s) (nextSubID s).

#[export, program] Instance event_persistent : Persistent Service (list AccessEvent * list DeviceEvent) := {|
  snapshot := λ s, (accessEvents s, deviceEvents s); saved := savedState;
  set_saved := λ d s, s <| savedState := d |>
|}.
Solve All Obligations with done.

Inductive event_err :=
| ErrTenantIDRequired | ErrGatewayIDRequired | ErrAccessEventTypeRequired | ErrDeviceEventTypeRequired
| ErrRandom | ErrSave.
#[export] Instance event_service_err : ServiceErr event_err := {| ErrRand := ErrRandom; ErrStore := ErrSave |}.

(** ** Subscriptions *)

Definition SubscribeChanges : op Service event_err N := λ s,
  let subID := nextSubID s in
  (s <| nextSubID := (subID + 1)%N |> <| subscribers := <[subID := false]> (subscribers s) |>, Ok subID).

(** The returned cancel function. *)
Definition unsubscribe (subID : N) : op Service event_err unit :=
  modify (λ s, s <| subscribers := delete subID (subscribers s) |>).

(** A send that would block is dropped: the channel already holds a wake-up. *)
Definition notifySubscribersLocked : op Service event_err unit :=
  modify (λ s, s <| subscribers := (λ _, true) <$> subscribers s |>).

(** ** Listing *)

Definition keep_tenant {E} `{!Identified E} (filterTenantID : string) (e : E) : bool :=
  is_empty filterTenantID || String.eqb (evTenant e) filterTenantID.
Definition keep_gateway {E} `{!Identified E} (filterGatewayID : string) (e : E) : bool :=
  is_empty filterGatewayID || String.eqb (evGateway e) filterGatewayID.

Definition ListAccessEvents (tenantID : string) (s : Service) : list AccessEvent :=
  filterb (keep_tenant (TrimSpace tenantID)) (accessEvents s).
Definition ListDeviceEvents (tenantID : string) (s : Service) : list DeviceEvent :=
  filterb (keep_tenant (TrimSpace tenantID)) (deviceEvents s).

Definition CountEventsByGateway (tenantID gatewayID : string) (s : Service) : nat * nat :=
  let t := TrimSpace tenantID in
  let g := TrimSpace gatewayID in
  (length (filterb (λ e, keep_tenant t e && keep_gateway g e) (accessEvents s)),
   length (filterb (λ e, keep_tenant t e && keep_gateway g e) (deviceEvents s))).

(** ** Ingestion *)

(** [nextEventID(prefix)]: the prefix, "_" and the hex of six random bytes. *)
Definition nextEventID (prefix : string) (env : Env) : result event_err string :=
  fresh_id (TrimSpace prefix +:+ "_") env.

Definition trim_access (input : IngestAccessEventInput) : AccessEvent :=
  mkAccessEvent (TrimSpace (aeID input)) (TrimSpace (aeIdempotencyKey input)) (TrimSpace (aeTenantID input))
    (TrimSpace (aeBuildingID input)) (TrimSpace (aeAreaID input)) (TrimSpace (aeType input))
    (TrimSpace (aeActor input)) (TrimSpace (aeDoorID input)) (TrimSpace (aeGatewayID input))
    (TrimSpace (aeResult input)) (aeAt input).

#[export] Instance eta_access : Eta AccessEvent := fun e =>
  mkAccessEvent (aeID e) (aeIdempotencyKey e) (aeTenantID e) (aeBuildingID e) (aeAreaID e) (aeType e)
    (aeActor e) (aeDoorID e) (aeGatewayID e) (aeResult e) (aeAt e).

Definition IngestAccessEvent (input : IngestAccessEventInput) (env : Env) : op Service event_err (AccessEvent * bool) :=
  let next := trim_access input in
  fail_if (is_empty (aeTenantID next)) ErrTenantIDRequired ;;
  fail_if (is_empty (aeGatewayID next)) ErrGatewayIDRequired ;;
  fail_if (is_empty (aeType next)) ErrAccessEventTypeRequired ;;
  let next := if IsZero (aeAt next) then next <| aeAt := now env |> else next in
  let next := if is_empty (aeResult next) then next <| aeResult := "accepted" |> else next in
  dup ← gets (λ s, find_duplicate (accessEvents s) (aeTenantID next) (aeGatewayID next)
                     (aeIdempotencyKey next) (aeID next));
  match dup with
  | Some existing => mret (existing, true)
  | None =>
      id ← lift (if is_empty (aeID next) then nextEventID "gwea" env else Ok (aeID next));
      let record := next <| aeID := id |> in
      modify (λ s, s <| accessEvents := record :: accessEvents s |>) ;;
      persistLocked env ;;
      notifySubscribersLocked ;;
      mret (record, false)
  end.

Definition trim_device (input : IngestDeviceEventInput) : DeviceEvent :=
  mkDeviceEvent (TrimSpace (deID input)) (TrimSpace (deIdempotencyKey input)) (TrimSpace (deTenantID input))
    (TrimSpace (deBuildingID input)) (TrimSpace (deType input)) (TrimSpace (deGatewayID input))
    (TrimSpace (deDetail input)) (TrimSpace (deResult input)) (deAt input).

#[export] Instance eta_device : Eta DeviceEvent := fun e =>
  mkDeviceEvent (deID e) (deIdempotencyKey e) (deTenantID e) (deBuildingID e) (deType e)
    (deGatewayID e) (deDetail e) (deResult e) (deAt e).

Definition IngestDeviceEvent (input : IngestDeviceEventInput) (env : Env) : op Service event_err (DeviceEvent * bool) :=
  let next := trim_device input in
  fail_if (is_empty (deTenantID next)) ErrTenantIDRequired ;;
  fail_if (is_empty (deGatewayID next)) ErrGatewayIDRequired ;;
  fail_if (is_empty (deType next)) ErrDeviceEventTypeRequired ;;
  let next := if IsZero (deAt next) then next <| deAt := now env |> else next in
  let next := if is_empty (deResult next) then next <| deResult := "accepted" |> else next in
  dup ← gets (λ s, find_duplicate (deviceEvents s) (deTenantID next) (deGatewayID next)
                     (deIdempotencyKey next) (deID next));
  match dup with
  | Some existing => mret (existing, true)
  | None =>
      id ← lift (if is_empty (deID next) then nextEventID "gwed" env else Ok (deID next));
      let record := next <| deID := id |> in
      modify (λ s, s <| deviceEvents := record :: deviceEvents s |>) ;;
      persistLocked env ;;
      notifySubscribersLocked ;;
      mret (record, false)
  end.

(** ** Restore *)

Inductive LoadReply := LoadErr | LoadMissing | LoadFound (snap : list AccessEvent * list DeviceEvent).

Definition restoreFromStateStore (r : LoadReply) (env : Env) : op Service event_err unit :=
  match r with
  | LoadErr => throw ErrSave
  | LoadMissing => persistLocked env
  | LoadFound (a, d) => modify (λ s, s <| accessEvents := a |> <| deviceEvents := d |>)
  end.

(** The events a new service starts with, and one with a store: what the store has takes
    their place, and they are written when it has nothing. *)
Definition NewService (now : Z) : Service :=
  mkService
    [mkAccessEvent "evt_1001" "" "tenant_demo_jakarta" "building_demo_001" "area_demo_001" "access_granted" "indra.saputra"
       "door_jkt_001" "MP-GW-JKT-0001" "success" (now - 5 * minute);
     mkAccessEvent "evt_1002" "" "tenant_demo_factory" "building_demo_003" "area_demo_003" "access_denied" "unknown_device"
       "door_fct_029" "MP-GW-BTN-0098" "denied" (now - 9 * minute);
     mkAccessEvent "evt_1004" "" "tenant_demo_jakarta" "building_demo_002" "area_demo_002" "access_granted" "dina.wijaya"
       "door_jkt_014" "MP-GW-JKT-0042" "success" (now - 16 * minute)]
    [mkDeviceEvent "evt_1003" "" "tenant_demo_jakarta" "building_demo_002" "gateway_event" "MP-GW-JKT-0042"
       "heartbeat jitter above threshold" "warning" (now - 12 * minute)]
    None ∅ 0%N.
Definition NewServiceWithStateStore (env : Env) (kept : option (list AccessEvent * list DeviceEvent)) : op Service event_err unit := λ _,
  restoreFromStateStore (match kept with Some snap => LoadFound snap | None => LoadMissing end) env
    ((NewService (now env)) <| savedState := kept |>).

(** ** Keys are unique *)

Section keys.
Context {E : Type} `{!Identified E}.

(** No two stored events of one tenant and gateway share a non-empty key. *)
Definition keys_unique (l : list E) : Prop :=
  ∀ i j a b, l !! i = Some a → l !! j = Some b → evKey a ≠ "" →
    evTenant a = evTenant b → evGateway a = evGateway b → evKey a = evKey b → i = j.

Lemma keys_unique_cons (e : E) l :
  keys_unique l →
  (evKey e ≠ "" → ∀ a, a ∈ l → same_key (evTenant e) (evGateway e) (evKey e) a = false) →
  keys_unique (e :: l).
Proof.
  unfold same_key. intros Hu Hn [|i] [|j] a b Ha Hb Hk Ht Hg Hkk; simpl in *; simplify_eq; auto.
  - specialize (Hn Hk b ltac:(by eapply list_elem_of_lookup_2)).
    rewrite Ht, Hg, Hkk, !String.eqb_refl in Hn. done.
  - specialize (Hn ltac:(congruence) a ltac:(by eapply list_elem_of_lookup_2)).
    rewrite <- Ht, <- Hg, <- Hkk, !String.eqb_refl in Hn. done.
  - f_equal. by eapply Hu.
Qed.

(** With unique keys, looking up the key of a stored event finds that event. *)
Lemma find_stored (l : list E) e :
  keys_unique l → e ∈ l → evKey e ≠ "" →
  findByIdempotencyLocked l (evTenant e) (evGateway e) (evKey e) = Some e.
Proof.
  intros Hu Hin Hk. unfold findByIdempotencyLocked, is_empty.
  rewrite (proj2 (String.eqb_neq _ _) Hk).
  apply list_elem_of_lookup_1 in Hin as [i Hi].
  destruct (findi _ l) as [[j x]|] eqn:Hf; simpl.
  - pose proof (findi_lookup _ _ _ _ Hf) as Hj. pose proof (findi_true _ _ _ _ Hf) as Ht.
    unfold same_key in Ht. boolp. assert (i = j) as -> by (eapply Hu; eauto). congruence.
  - rewrite findi_None in Hf. specialize (Hf e ltac:(by eapply list_elem_of_lookup_2)).
    unfold same_key in Hf. by rewrite !String.eqb_refl in Hf.
Qed.

Lemma find_duplicate_None (l : list E) t g k id :
  find_duplicate l t g k id = None → k ≠ "" → ∀ a, a ∈ l → same_key t g k a = false.
Proof.
  unfold find_duplicate, findByIdempotencyLocked, is_empty. intros H Hk.
  rewrite (proj2 (String.eqb_neq _ _) Hk) in H.
  destruct (findi (same_key t g k) l) as [[i x]|] eqn:Hf; [done|]. by apply findi_None.
Qed.
End keys.

(** ** Ingestion is exactly-once *)

Definition valid_access (input : IngestAccessEventInput) : bool :=
  negb (is_empty (TrimSpace (aeTenantID input))) && negb (is_empty (TrimSpace (aeGatewayID input)))
  && negb (is_empty (TrimSpace (aeType input))).

(** The event with its defaults, before the id is chosen. *)
Definition completed (input : IngestAccessEventInput) (env : Env) : AccessEvent :=
  let next := trim_access input in
  let next := if IsZero (aeAt next) then next <| aeAt := now env |> else next in
  if is_empty (aeResult next) then next <| aeResult := "accepted" |> else next.

Definition duplicate_of (input : IngestAccessEventInput) (s : Service) : option AccessEvent :=
  find_duplicate (accessEvents s) (TrimSpace (aeTenantID input)) (TrimSpace (aeGatewayID input))
    (TrimSpace (aeIdempotencyKey input)) (TrimSpace (aeID input)).

Definition chosen_id (input : IngestAccessEventInput) (env : Env) : result event_err string :=
  if is_empty (TrimSpace (aeID input)) then nextEventID "gwea" env else Ok (TrimSpace (aeID input)).

Lemma completed_fields input env :
  aeTenantID (completed input env) = TrimSpace (aeTenantID input)
  ∧ aeGatewayID (completed input env) = TrimSpace (aeGatewayID input)
  ∧ aeIdempotencyKey (completed input env) = TrimSpace (aeIdempotencyKey input)
  ∧ aeID (completed input env) = TrimSpace (aeID input)
  ∧ aeType (completed input env) = TrimSpace (aeType input).
Proof. unfold completed. destruct (IsZero _); simpl; by destruct (is_empty _). Qed.

(** The handler, outcome by outcome. *)
Lemma ingest_access_cases input env s :
  IngestAccessEvent input env s =
    if negb (valid_access input) then (s, answer (IngestAccessEvent input env) s)
    else match duplicate_of input s with
    | Some e => (s, Ok (e, true))
    | None =>
        match chosen_id input env with
        | Err e => (s, Err e)
        | Ok id =>
            let r := (completed input env) <| aeID := id |> in
            let s1 := s <| accessEvents := r :: accessEvents s |> in
            match persistLocked (E:=event_err) env s1 with
            | (s2, Err e) => (s2, Err e)
            | (s2, Ok _) => (s2 <| subscribers := (λ _, true) <$> subscribers s2 |>, Ok (r, false))
            end
        end
    end.
Proof.
  unfold answer, IngestAccessEvent, valid_access, duplicate_of, chosen_id. rewrite !fail_if_bind.
  fold (completed input env). destruct (completed_fields input env) as (Ht & Hg & Hk & Hi & Hy).
  cbn [aeTenantID aeGatewayID aeType trim_access] in *.
  destruct (is_empty (TrimSpace (aeTenantID input))); [done|].
  destruct (is_empty (TrimSpace (aeGatewayID input))); [done|].
  destruct (is_empty (TrimSpace (aeType input))); [done|]. simpl negb. simpl andb. cbv iota.
  rewrite bind_gets, Ht, Hg, Hk, Hi. destruct (find_duplicate _ _ _ _ _); [done|].
  rewrite bind_lift. destruct (if is_empty (TrimSpace (aeID input)) then _ else _) as [id|e]; [|done].
  rewrite bind_modify, bind_op_eq. destruct (persistLocked env _) as [s2 [[]|e]]; done.
Qed.

Lemma persist_access env s :
  accessEvents (exec (persistLocked (E:=event_err) env) s) = accessEvents s.
Proof. unfold exec, persistLocked. by destruct (store env). Qed.

Lemma ingest_access_effect input env s :
  accessEvents (exec (IngestAccessEvent input env) s) = accessEvents s
  ∨ (duplicate_of input s = None ∧ ∃ id,
       accessEvents (exec (IngestAccessEvent input env) s) = ((completed input env) <| aeID := id |>) :: accessEvents s).
Proof.
  unfold exec. rewrite ingest_access_cases. destruct (negb _); [by left|].
  destruct (duplicate_of input s) as [e|]; [by left|]. destruct (chosen_id input env) as [id|e]; [|by left].
  right. split; [done|]. exists id.
  pose proof (persist_access env (s <| accessEvents := (completed input env) <| aeID := id |> :: accessEvents s |>)) as Hp.
  unfold exec in Hp. cbv zeta. destruct (persistLocked env _) as [s2 [[]|e]]; exact Hp.
Qed.

Lemma ingest_device_access input env s :
  accessEvents (exec (IngestDeviceEvent input env) s) = accessEvents s.
Proof.
  unfold exec, IngestDeviceEvent. rewrite !fail_if_bind.
  destruct (is_empty (deTenantID _)); [done|]. destruct (is_empty (deGatewayID _)); [done|].
  destruct (is_empty (deType _)); [done|]. cbv zeta.
  match goal with |- context [find_duplicate _ (deTenantID ?n)] => generalize n as next end. intros next.
  rewrite bind_gets. destruct (find_duplicate _ _ _ _ _); [done|]. rewrite bind_lift.
  destruct (if is_empty (deID next) then _ else _) as [id|e]; [|done]. rewrite bind_modify, bind_op_eq.
  unfold persistLocked. by destruct (store env).
Qed.

Lemma ingest_keys_unique input env s :
  keys_unique (accessEvents s) → keys_unique (accessEvents (exec (IngestAccessEvent input env) s)).
Proof.
  intros Hu. destruct (ingest_access_effect input env s) as [->|(Hd & id & ->)]; [done|].
  apply keys_unique_cons; [done|]. destruct (completed_fields input env) as (Ht & Hg & Hk & _).
  cbn [evKey evTenant evGateway access_identified aeIdempotencyKey aeTenantID aeGatewayID set].
  rewrite Ht, Hg, Hk. intros Hne. by eapply find_duplicate_None.
Qed.

(** What a service goes through: deliveries, subscriptions, a save that failed but was made
    nonetheless, and a restart with what the store has. *)
Inductive occurrence :=
| Access (i : IngestAccessEventInput) | Device (i : IngestDeviceEventInput)
| Subscribe | Unsubscribe (subID : N) | Committed | Restart.
Definition happens (x : occurrence * Env) (s : Service) : Service :=
  match x with
  | (Access i, env) => exec (IngestAccessEvent i env) s
  | (Device i, env) => exec (IngestDeviceEvent i env) s
  | (Subscribe, _) => exec SubscribeChanges s
  | (Unsubscribe n, _) => exec (unsubscribe n) s
  | (Committed, _) => set_saved (Some (snapshot s)) s
  | (Restart, env) => exec (NewServiceWithStateStore env (savedState s)) s
  end.
Definition history (xs : list (occurrence * Env)) (s : Service) : Service := fold_left (λ s x, happens x s) xs s.
Definition restarts (x : occurrence * Env) : bool := match x with (Restart, _) => true | _ => false end.

(** The keys are unique in memory and in the store; the event is in memory, and when
    it has to outlive the process in the store. *)
Definition well_keyed (s : Service) : Prop :=
  keys_unique (accessEvents s) ∧ ∀ snap, savedState s = Some snap → keys_unique snap.1.
Definition stays (safe : bool) (e : AccessEvent) (s : Service) : Prop :=
  well_keyed s ∧ e ∈ accessEvents s ∧ (safe = true → ∃ snap, savedState s = Some snap ∧ e ∈ snap.1).

Lemma saves_access {A} (f : op Service event_err A) s safe e :
  (savedState (exec f s) = savedState s ∨ savedState (exec f s) = Some (snapshot (exec f s))) →
  keys_unique (accessEvents (exec f s)) → e ∈ accessEvents (exec f s) → stays safe e s → stays safe e (exec f s).
Proof.
  intros Hs Hu He [[_ Hk] [_ Hsafe]]. unfold stays, well_keyed. destruct Hs as [-> | ->]; [by split_and!|].
  split_and!; [done|by intros snap [= <-]|done|intros _; by eexists].
Qed.
Lemma ingest_access_saved input env s :
  let s' := exec (IngestAccessEvent input env) s in savedState s' = savedState s ∨ savedState s' = Some (snapshot s').
Proof.
  cbv zeta. unfold exec. rewrite ingest_access_cases. destruct (negb _); [by left|]. destruct (duplicate_of input s); [by left|].
  destruct (chosen_id input env); [|by left]. cbv zeta. unfold persistLocked. by destruct (store env); [left|right|left].
Qed.
Lemma ingest_device_saved input env s :
  let s' := exec (IngestDeviceEvent input env) s in savedState s' = savedState s ∨ savedState s' = Some (snapshot s').
Proof.
  cbv zeta. unfold exec, IngestDeviceEvent. rewrite !fail_if_bind.
  destruct (is_empty (deTenantID _)); [by left|]. destruct (is_empty (deGatewayID _)); [by left|].
  destruct (is_empty (deType _)); [by left|]. cbv zeta.
  match goal with |- context [find_duplicate _ (deTenantID ?n)] => generalize n as next end. intros next.
  rewrite bind_gets. destruct (find_duplicate _ _ _ _ _); [by left|]. rewrite bind_lift.
  destruct (if is_empty (deID next) then _ else _) as [id|e]; [|by left]. rewrite bind_modify, bind_op_eq.
  unfold persistLocked. by destruct (store env); [left|right|left].
Qed.
Lemma happens_stays safe e x s : (restarts x = true → safe = true) → stays safe e s → stays safe e (happens x s).
Proof.
  intros Hr Hs. pose proof Hs as [[Hu Hk] [He Hsafe]]. destruct x as [[i|i| |n| |] env]; simpl.
  - apply saves_access; [by apply ingest_access_saved|by apply ingest_keys_unique| |done].
    destruct (ingest_access_effect i env s) as [->|(_ & id & ->)]; set_solver.
  - apply saves_access; [by apply ingest_device_saved|by rewrite ingest_device_access..|done].
  - done.
  - done.
  - unfold stays, well_keyed. simpl. split_and!; [done|by intros snap [= <-]|done|intros _; by eexists].
  - destruct (Hsafe (Hr eq_refl)) as ([a d] & Hsv & Ha). unfold exec, NewServiceWithStateStore. rewrite Hsv. simpl.
    unfold stays, well_keyed. simpl. split_and!; [by apply (Hk _ Hsv)|by intros snap [= <-]; apply (Hk _ Hsv)|done|intros _; by eexists].
Qed.
Lemma history_stays safe e xs s : Forall (λ x, restarts x = true → safe = true) xs → stays safe e s → stays safe e (history xs s).
Proof. intros Hf. revert s. induction Hf as [|x xs Hx _ IH]; intros s Hs; [done|]. by apply IH, happens_stays. Qed.

Lemma ingest_ok_stored input env s s1 e b :
  IngestAccessEvent input env s = (s1, Ok (e, b)) → e ∈ accessEvents s1.
Proof.
  rewrite ingest_access_cases. destruct (negb (valid_access input)) eqn:Hv.
  { intros [= <- Ha]. unfold answer, IngestAccessEvent, valid_access in *. rewrite !fail_if_bind in Ha.
    cbn [aeTenantID aeGatewayID aeType trim_access] in Ha.
    destruct (is_empty (TrimSpace (aeTenantID input))); [done|].
    destruct (is_empty (TrimSpace (aeGatewayID input))); [done|].
    by destruct (is_empty (TrimSpace (aeType input))). }
  destruct (duplicate_of input s) as [x|] eqn:Hd.
  - intros [= <- <- <-]. unfold duplicate_of, find_duplicate, findByIdempotencyLocked, findByIDLocked in Hd.
    repeat case_match; simplify_eq;
      repeat match goal with H : snd <$> findi _ _ = Some _ |- _ => apply fmap_Some in H as ([? ?] & H & ->); simpl end;
      by eapply findi_elem.
  - destruct (chosen_id input env) as [id|]; [|done].
    pose proof (persist_access env (s <| accessEvents := (completed input env) <| aeID := id |> :: accessEvents s |>)) as Hp.
    unfold exec in Hp. cbv zeta. destruct (persistLocked env _) as [s2 [[]|e2]]; [|done].
    intros [= <- <- <-]. simpl in *. rewrite Hp. set_solver.
Qed.

(** An event that is acknowledged as new and saved is in the store. *)
Lemma ingest_new_saved input env s s1 e :
  well_keyed s → IngestAccessEvent input env s = (s1, Ok (e, false)) → store env = StoreSaved → stays true e s1.
Proof.
  intros [Hu Hk] Hi Hst. pose proof (ingest_ok_stored _ _ _ _ _ _ Hi) as He.
  pose proof (ingest_keys_unique input env s Hu) as Hu1. unfold exec in Hu1. rewrite Hi in Hu1. simpl in Hu1.
  assert (savedState s1 = Some (snapshot s1)) as Hs.
  { rewrite ingest_access_cases in Hi. destruct (negb (valid_access input)) eqn:Hv.
    - exfalso. injection Hi as _ Ha. unfold answer, IngestAccessEvent, valid_access in *. rewrite !fail_if_bind in Ha.
      cbn [aeTenantID aeGatewayID aeType trim_access] in Ha.
      destruct (is_empty (TrimSpace (aeTenantID input))); [done|].
      destruct (is_empty (TrimSpace (aeGatewayID input))); [done|].
      by destruct (is_empty (TrimSpace (aeType input))).
    - destruct (duplicate_of input s); [done|]. destruct (chosen_id input env); [|done]. cbv zeta in Hi.
      unfold persistLocked in Hi. rewrite Hst in Hi. by injection Hi as <- _. }
  unfold stays, well_keyed. rewrite Hs. split_and!; [done|by intros snap [= <-]|done|intros _; by eexists].
Qed.

(** C39: Exactly-once ingestion.  Once an access event with an idempotency key has been
    acknowledged (as new or as duplicate), every later delivery to that process for the
    same tenant and gateway with that key, after any other traffic and in any store
    condition, is answered with the very same stored event, marked as a duplicate, and
    changes nothing.  After restarts too, when the event was acknowledged as new by a
    service that keeps its state in a store: an acknowledgement as duplicate is not enough,
    as the event may be one whose save has failed. *)
Theorem ingest_exactly_once input env s s1 e b xs input' env' :
  well_keyed s → IngestAccessEvent input env s = (s1, Ok (e, b)) →
  (existsb restarts xs = true → b = false ∧ store env = StoreSaved) → aeIdempotencyKey e ≠ "" →
  TrimSpace (aeTenantID input') = aeTenantID e → TrimSpace (aeGatewayID input') = aeGatewayID e →
  TrimSpace (aeIdempotencyKey input') = aeIdempotencyKey e → valid_access input' = true →
  IngestAccessEvent input' env' (history xs s1) = (history xs s1, Ok (e, true)).
Proof.
  intros Hw Hi Hr Hk Ht Hg Hkey Hv.
  assert (stays (existsb restarts xs) e s1) as He.
  { destruct (existsb restarts xs) eqn:Hex; [destruct (Hr eq_refl) as [-> Hst]; by eapply ingest_new_saved|].
    pose proof (ingest_ok_stored _ _ _ _ _ _ Hi) as He. split; [|split; [done|discriminate]].
    pose proof (ingest_keys_unique input env s (proj1 Hw)) as Hu. pose proof (ingest_access_saved input env s) as Hs.
    unfold exec in *. rewrite Hi in *. simpl in *. split; [done|]. destruct Hs as [-> | ->]; [apply Hw|by intros snap [= <-]]. }
  apply (history_stays _ _ xs) in He as [[Hu2 _] [He2 _]].
  2: { apply Forall_forall. intros x Hx Hxr. apply existsb_exists. exists x. split; [by apply list_elem_of_In|done]. }
  rewrite ingest_access_cases, Hv. simpl negb. cbv iota.
  unfold duplicate_of, find_duplicate. rewrite Ht, Hg, Hkey.
  by rewrite (find_stored _ e Hu2 He2 Hk : findByIdempotencyLocked _ (aeTenantID e) (aeGatewayID e) (aeIdempotencyKey e) = Some e).
Qed.

(** A failed save is later reported as success.  When the save of a new
    event with a key fails, the sender gets an error, but the event stays in
    memory: the retry is answered as an accepted duplicate without being saved,
    and the store still holds what it held before. *)
Theorem failed_save_masked input env env' s s1 :
  keys_unique (accessEvents s) → TrimSpace (aeIdempotencyKey input) ≠ "" →
  IngestAccessEvent input env s = (s1, Err ErrSave) → valid_access input = true →
  saved s1 = saved s ∧ ∃ e, IngestAccessEvent input env' s1 = (s1, Ok (e, true)).
Proof.
  intros Hu Hk Hi Hv. rewrite ingest_access_cases, Hv in Hi. simpl negb in Hi. cbv iota in Hi.
  destruct (duplicate_of input s) as [x|] eqn:Hd; [done|].
  unfold chosen_id, nextEventID, fresh_id in Hi.
  destruct (if is_empty (TrimSpace (aeID input)) then _ else _) as [id|er] eqn:Hc; cbv zeta in Hi.
  2: { destruct (is_empty _), (fresh env); simplify_eq. }
  set (r := (completed input env) <| aeID := id |>) in *.
  unfold persistLocked in Hi. destruct (store env); simplify_eq. split; [done|].
  exists r. rewrite ingest_access_cases, Hv. simpl negb. cbv iota. unfold duplicate_of, find_duplicate.
  destruct (completed_fields input env) as (Ht & Hg & Hkey & _).
  change (aeTenantID r = TrimSpace (aeTenantID input)) in Ht.
  change (aeGatewayID r = TrimSpace (aeGatewayID input)) in Hg.
  change (aeIdempotencyKey r = TrimSpace (aeIdempotencyKey input)) in Hkey. clearbody r.
  unfold duplicate_of in Hd. rewrite <- Ht, <- Hg, <- Hkey in *.
  assert (keys_unique (r :: accessEvents s)) as Hu1.
  { apply keys_unique_cons; [done|]. intros Hne. by eapply find_duplicate_None. }
  change (accessEvents (s <| accessEvents := r :: accessEvents s |>)) with (r :: accessEvents s).
  by rewrite (find_stored _ r Hu1 ltac:(set_solver) Hk
    : findByIdempotencyLocked (r :: accessEvents s) (aeTenantID r) (aeGatewayID r) (aeIdempotencyKey r) = Some r).
Qed.

Definition service0 : Service := mkService [] [] None ∅ 0%N.
Definition input0 : IngestAccessEventInput :=
  mkAccessEvent "" "k1" "t" "" "" "access_granted" "" "" "gw" "" 5.

(** The event is saved; a later save fails, the service is started again. *)
Lemma ingest_exactly_once_witness :
  let s1 := exec (IngestAccessEvent input0 (mkEnv 9 (Some "ab") StoreSaved)) service0 in
  let xs := [(Device (mkDeviceEvent "d1" "" "t" "" "boot" "gw" "" "" 5), mkEnv 10 None StoreFailed); (Restart, mkEnv 11 None StoreSaved)] in
  length (deviceEvents (happens (Device (mkDeviceEvent "d1" "" "t" "" "boot" "gw" "" "" 5), mkEnv 10 None StoreFailed) s1)) = 1%nat
  ∧ deviceEvents (history xs s1) = []
  ∧ ∃ e, IngestAccessEvent input0 (mkEnv 12 None StoreFailed) (history xs s1) = (history xs s1, Ok (e, true)).
Proof.
  intros s1 xs. split; [vm_compute; reflexivity|]. split; [vm_compute; reflexivity|].
  destruct (IngestAccessEvent input0 (mkEnv 9 (Some "ab") StoreSaved) service0) as [s2 [[e b]|er]] eqn:H;
    [|vm_compute in H; discriminate].
  exists e. assert (s1 = s2) as -> by (unfold s1, exec; by rewrite H).
  vm_compute in H. injection H as <- <- <-.
  apply (ingest_exactly_once input0 (mkEnv 9 (Some "ab") StoreSaved) service0 _ _ false xs);
    [split; [by intros i j a b Ha|done]|vm_compute; reflexivity|done|vm_compute; discriminate|vm_compute; reflexivity..].
Defined.

(** An event whose save failed, acknowledged as a duplicate and lost in a restart. *)
Example acknowledged_then_lost :
  let s1 := exec (IngestAccessEvent input0 (mkEnv 9 (Some "ab") StoreFailed)) service0 in
  snd <$> (match answer (IngestAccessEvent input0 (mkEnv 10 None StoreSaved)) s1 with Ok a => Some a | Err _ => None end) = Some true
  ∧ snd <$> (match answer (IngestAccessEvent input0 (mkEnv 12 (Some "cd") StoreSaved)) (history [(Restart, mkEnv 11 None StoreSaved)] s1) with
             | Ok a => Some a | Err _ => None end) = Some false.
Proof. vm_compute. split; reflexivity. Qed.

Lemma failed_save_masked_witness :
  let s1 := exec (IngestAccessEvent input0 (mkEnv 9 (Some "ab") StoreFailed)) service0 in
  saved s1 = None ∧ ∃ e, IngestAccessEvent input0 (mkEnv 10 None StoreSaved) s1 = (s1, Ok (e, true)).
Proof.
  apply (failed_save_masked input0 (mkEnv 9 (Some "ab") StoreFailed) (mkEnv 10 None StoreSaved) service0);
    [by intros i j a b Ha|vm_compute; discriminate|vm_compute; reflexivity|vm_compute; reflexivity].
Defined.
