(* ===== verification/Alarm.v ===== *)
(** * Alarms and alarm schedules (modules/alarm/service.go)

    Status changes of alarms, the weekly schedules with their validation, and the
    calendar built from them.  [UpdateSchedule] assigns field by field and checks
    as it goes; the model keeps the assignments made before an error. *)

From S2P Require Import Prelude GoStrings GoTime.
#[local] Open Scope Z_scope.

Record Alarm := mkAlarm {
  alID : string; alTenantID : string; alBuildingID : string; alAreaID : string; alDoorID : string;
  alType : string; alSeverity : string; alLocation : string; alStatus : string; alCreatedAt : Z
}.
#[export] Instance eta_alarm : Eta Alarm := fun a =>
  mkAlarm (alID a) (alTenantID a) (alBuildingID a) (alAreaID a) (alDoorID a) (alType a) (alSeverity a)
    (alLocation a) (alStatus a) (alCreatedAt a).

Record AlarmSchedule := mkSchedule {
  scID : string; scTenantID : string; scName : string; scDescription : string; DaysOfWeek : list Z;
  StartTime : string; EndTime : string; Timezone : string; AlarmTypes : list string; Enabled : bool;
  scCreatedAt : Z; scUpdatedAt : Z
}.
#[export] Instance eta_schedule : Eta AlarmSchedule := fun c =>
  mkSchedule (scID c) (scTenantID c) (scName c) (scDescription c) (DaysOfWeek c) (StartTime c) (EndTime c)
    (Timezone c) (AlarmTypes c) (Enabled c) (scCreatedAt c) (scUpdatedAt c).

Record AlarmScheduleCalendarEntry := mkEntry {
  ScheduleID : string; EntryName : string; DayOfWeek : Z; EntryStart : string; EntryEnd : string;
  EntryAlarmTypes : list string
}.

Record Service := mkService {
  alarms : list Alarm;
  schedules : list AlarmSchedule;
  savedState : option (list Alarm * list AlarmSchedule);
  subscribers : gmap N bool;
  nextSubID : N
}.
#[export] Instance eta_service : Eta Service := fun s =>
  mkService (alarms s) (schedules s) (savedState s) (subscribers s) (nextSubID s).

#[export, program] Instance alarm_persistent : Persistent Service (list Alarm * list AlarmSchedule) := {|
  snapshot := λ s, (alarms s, schedules s); saved := savedState; set_saved := λ d s, s <| savedState := d |>
|}.
Solve All Obligations with done.

Inductive alarm_err :=
| ErrAlarmNotFound | ErrInvalidAlarmStatus | ErrScheduleNotFound | ErrScheduleNameRequired
| ErrScheduleInvalidDayOfWeek | ErrScheduleInvalidTime | ErrScheduleTimezoneRequired
| ErrTenantRequired | ErrRandom | ErrSave.
#[export] Instance alarm_service_err : ServiceErr alarm_err := {| ErrRand := ErrRandom; ErrStore := ErrSave |}.

(** ** Alarms *)

Definition statuses : list string :=
  ["open"; "acknowledged"; "investigating"; "mitigated"; "escalated"; "resolved"; "false_positive"].

Definition normalizeStatus (status : string) : result alarm_err string :=
  let st := ToLower (TrimSpace status) in
  if existsb' (String.eqb st) statuses then Ok st else Err ErrInvalidAlarmStatus.

Definition keeps (filterTenantID tenantID : string) : bool :=
  is_empty filterTenantID || String.eqb tenantID filterTenantID.

Definition List (tenantID : string) (s : Service) : list Alarm :=
  filterb (λ a, keeps (TrimSpace tenantID) (alTenantID a)) (alarms s).

Definition SubscribeChanges : op Service alarm_err N := λ s,
  let subID := nextSubID s in
  (s <| nextSubID := (subID + 1)%N |> <| subscribers := <[subID := false]> (subscribers s) |>, Ok subID).

Definition unsubscribe (subID : N) : op Service alarm_err unit :=
  modify (λ s, s <| subscribers := delete subID (subscribers s) |>).

Definition notifySubscribersLocked : op Service alarm_err unit :=
  modify (λ s, s <| subscribers := (λ _, true) <$> subscribers s |>).

(** The loop stops at the first alarm with the id, whatever its tenant. *)
Definition UpdateStatus (tenantID alarmID status : string) (env : Env) : op Service alarm_err Alarm :=
  nextStatus ← lift (normalizeStatus status);
  let targetID := TrimSpace alarmID in
  fail_if (is_empty targetID) ErrAlarmNotFound ;;
  let filterTenantID := TrimSpace tenantID in
  found ← gets (λ s, findi (λ a, String.eqb (alID a) targetID) (alarms s));
  match found with
  | None => throw ErrAlarmNotFound
  | Some (i, a) =>
      fail_if (negb (keeps filterTenantID (alTenantID a))) ErrAlarmNotFound ;;
      let a' := a <| alStatus := nextStatus |> in
      modify (λ s, s <| alarms := <[i := a']> (alarms s) |>) ;;
      persistLocked env ;;
      notifySubscribersLocked ;;
      mret a'
  end.

(** ** Schedules *)

(** Go's byte arithmetic: [(t[0]-'0')*10 + (t[1]-'0')] modulo 256. *)
Definition two_digits (a b : ascii) : Z := ((code a - 48) mod 256 * 10 + (code b - 48) mod 256) mod 256.

Definition isValidTimeHHMM (t : string) : bool :=
  match String.list_ascii_of_string t with
  | [a; b; c; d; e] =>
      (c =? ":")%char && (two_digits a b <=? 23) && (two_digits d e <=? 59)
  | _ => false
  end.

Definition valid_days (ds : list Z) : bool := forallb (λ d, negb ((d <? 0) || (6 <? d))) ds.

Definition validateSchedule (c : AlarmSchedule) : result alarm_err unit :=
  if is_empty (TrimSpace (scName c)) then Err ErrScheduleNameRequired
  else if negb (valid_days (DaysOfWeek c)) then Err ErrScheduleInvalidDayOfWeek
  else if negb (isValidTimeHHMM (StartTime c)) || negb (isValidTimeHHMM (EndTime c)) then Err ErrScheduleInvalidTime
  else if is_empty (TrimSpace (Timezone c)) then Err ErrScheduleTimezoneRequired
  else Ok tt.

Definition CreateSchedule (tenantID : string) (schedule : AlarmSchedule) (env : Env) : op Service alarm_err AlarmSchedule :=
  fail_if (is_empty (TrimSpace tenantID)) ErrTenantRequired ;;
  lift (validateSchedule schedule) ;;
  id ← lift (fresh_id "alarm_schedule_" env);
  let record := mkSchedule id (TrimSpace tenantID) (TrimSpace (scName schedule)) (TrimSpace (scDescription schedule))
    (DaysOfWeek schedule) (StartTime schedule) (EndTime schedule) (TrimSpace (Timezone schedule))
    (AlarmTypes schedule) (Enabled schedule) (now env) (now env) in
  modify (λ s, s <| schedules := record :: schedules s |>) ;;
  persistLocked env ;;
  mret record.

Definition ListSchedules (tenantID : string) (s : Service) : list AlarmSchedule :=
  filterb (λ c, keeps (TrimSpace tenantID) (scTenantID c)) (schedules s).

Definition GetSchedule (tenantID scheduleID : string) (s : Service) : option AlarmSchedule :=
  snd <$> findi (λ c, String.eqb (scID c) (TrimSpace scheduleID) && keeps (TrimSpace tenantID) (scTenantID c))
            (schedules s).

(** Assignment to [s.schedules[i]]. *)
Definition set_schedule (i : nat) (f : AlarmSchedule → AlarmSchedule) : op Service alarm_err unit :=
  modify (λ s, s <| schedules := alter f i (schedules s) |>).

Definition UpdateSchedule (tenantID scheduleID : string) (schedule : AlarmSchedule) (env : Env)
  : op Service alarm_err AlarmSchedule :=
  let targetID := TrimSpace scheduleID in
  fail_if (is_empty targetID) ErrScheduleNotFound ;;
  found ← gets (λ s, findi (λ c, String.eqb (scID c) targetID) (schedules s));
  match found with
  | None => throw ErrScheduleNotFound
  | Some (i, c) =>
      fail_if (negb (keeps (TrimSpace tenantID) (scTenantID c))) ErrScheduleNotFound ;;
      when (negb (is_empty (TrimSpace (scName schedule))))
        (set_schedule i (λ c, c <| scName := TrimSpace (scName schedule) |>)) ;;
      when (negb (is_empty (TrimSpace (scDescription schedule))))
        (set_schedule i (λ c, c <| scDescription := TrimSpace (scDescription schedule) |>)) ;;
      when (Nat.ltb 0 (length (DaysOfWeek schedule)))
        (fail_if (negb (valid_days (DaysOfWeek schedule))) ErrScheduleInvalidDayOfWeek ;;
         set_schedule i (λ c, c <| DaysOfWeek := DaysOfWeek schedule |>)) ;;
      when (negb (is_empty (StartTime schedule)))
        (fail_if (negb (isValidTimeHHMM (StartTime schedule))) ErrScheduleInvalidTime ;;
         set_schedule i (λ c, c <| StartTime := StartTime schedule |>)) ;;
      when (negb (is_empty (EndTime schedule)))
        (fail_if (negb (isValidTimeHHMM (EndTime schedule))) ErrScheduleInvalidTime ;;
         set_schedule i (λ c, c <| EndTime := EndTime schedule |>)) ;;
      when (negb (is_empty (TrimSpace (Timezone schedule))))
        (set_schedule i (λ c, c <| Timezone := TrimSpace (Timezone schedule) |>)) ;;
      when (Nat.ltb 0 (length (AlarmTypes schedule)))
        (set_schedule i (λ c, c <| AlarmTypes := AlarmTypes schedule |>)) ;;
      set_schedule i (λ c, c <| Enabled := Enabled schedule |> <| scUpdatedAt := now env |>) ;;
      persistLocked env ;;
      gets (λ s, default c (schedules s !! i))
  end.

Definition DeleteSchedule (tenantID scheduleID : string) (env : Env) : op Service alarm_err unit :=
  let targetID := TrimSpace scheduleID in
  fail_if (is_empty targetID) ErrScheduleNotFound ;;
  found ← gets (λ s, findi (λ c, String.eqb (scID c) targetID) (schedules s));
  match found with
  | None => throw ErrScheduleNotFound
  | Some (i, c) =>
      fail_if (negb (keeps (TrimSpace tenantID) (scTenantID c))) ErrScheduleNotFound ;;
      modify (λ s, s <| schedules := delete i (schedules s) |>) ;;
      persistLocked env
  end.

Definition GetWeeklyCalendar (tenantID : string) (s : Service) : list AlarmScheduleCalendarEntry :=
  concat ((λ c,
    if negb (keeps (TrimSpace tenantID) (scTenantID c)) || negb (Enabled c) then []
    else (λ day, mkEntry (scID c) (scName c) day (StartTime c) (EndTime c) (AlarmTypes c)) <$> DaysOfWeek c)
    <$> schedules s).

(** ** Restore *)

Inductive LoadReply := LoadErr | LoadMissing | LoadFound (snap : list Alarm * list AlarmSchedule).

Definition restoreFromStateStore (r : LoadReply) (env : Env) : op Service alarm_err unit :=
  match r with
  | LoadErr => throw ErrSave
  | LoadMissing => persistLocked env
  | LoadFound (a, c) => modify (λ s, s <| alarms := a |> <| schedules := c |>)
  end.

(** ** What the service guarantees *)

Definition alarm_ok (a : Alarm) : Prop := alStatus a ∈ statuses.

Definition schedule_ok (c : AlarmSchedule) : Prop :=
  Forall (λ d, 0 <= d <= 6) (DaysOfWeek c)
  ∧ isValidTimeHHMM (StartTime c) = true ∧ isValidTimeHHMM (EndTime c) = true.

Definition service_ok (s : Service) : Prop := Forall alarm_ok (alarms s) ∧ Forall schedule_ok (schedules s).

Inductive call :=
| CUpdateStatus (tenantID alarmID status : string)
| CCreate (tenantID : string) (c : AlarmSchedule)
| CUpdate (tenantID scheduleID : string) (c : AlarmSchedule)
| CDelete (tenantID scheduleID : string).

Definition run_call (k : call) (env : Env) : Service → Service :=
  match k with
  | CUpdateStatus t a st => exec (UpdateStatus t a st env)
  | CCreate t c => exec (CreateSchedule t c env)
  | CUpdate t i c => exec (UpdateSchedule t i c env)
  | CDelete t i => exec (DeleteSchedule t i env)
  end.
Definition run_calls (ks : list (call * Env)) (s : Service) : Service :=
  fold_left (λ s k, run_call (fst k) (snd k) s) ks s.

Lemma normalizeStatus_ok st x : normalizeStatus st = Ok x → x ∈ statuses.
Proof.
  unfold normalizeStatus, existsb'. destruct (findi _ statuses) as [[i y]|] eqn:Hf; [|done]. intros [= <-].
  pose proof (findi_true _ _ _ _ Hf) as ->%String.eqb_eq. by eapply findi_elem.
Qed.

Lemma valid_days_ok ds : valid_days ds = true → Forall (λ d, 0 <= d <= 6) ds.
Proof.
  unfold valid_days. rewrite forallb_forall. intros H. apply Forall_forall. intros d Hd.
  specialize (H d (proj1 (list_elem_of_In _ _) Hd)). boolp. lia.
Qed.

Lemma pres_persist env : preserves service_ok (persistLocked env).
Proof. intros s Hs. unfold exec, persistLocked. by destruct (store env). Qed.

Lemma pres_notify : preserves service_ok notifySubscribersLocked.
Proof. by intros s Hs. Qed.

Lemma pres_set_schedule i f :
  (∀ c, schedule_ok c → schedule_ok (f c)) → preserves service_ok (set_schedule i f).
Proof.
  intros Hf s [Ha Hc]. split; [done|]. simpl. rewrite Forall_lookup in *. intros j x Hj.
  destruct (decide (i = j)) as [->|Hne].
  - rewrite list_lookup_alter_eq in Hj. apply fmap_Some in Hj as (y & Hy & ->). eauto.
  - rewrite list_lookup_alter_ne in Hj by done. eauto.
Qed.
#[export] Hint Resolve pres_persist pres_notify : opdb.

Lemma update_status_ok t a st env : preserves service_ok (UpdateStatus t a st env).
Proof.
  unfold UpdateStatus. intros s Hs. rewrite exec_lift. destruct (normalizeStatus st) as [x|] eqn:Hst; [|done].
  apply normalizeStatus_ok in Hst. revert s Hs. apply pres_check. intros _. intros s Hs. rewrite exec_gets.
  destruct (findi _ (alarms s)) as [[i y]|] eqn:Hf; [|done]. revert s Hs Hf.
  intros s Hs Hf. rewrite exec_fail_if. destruct (negb _); [done|]. rewrite exec_modify.
  apply (pres_bind service_ok); [auto with opdb|intros; apply pres_bind; auto with opdb|].
  destruct Hs as [Ha Hc]. split; [|done]. simpl. by apply Forall_insert.
Qed.

Lemma create_schedule_ok t c env : preserves service_ok (CreateSchedule t c env).
Proof.
  unfold CreateSchedule. apply pres_check. intros _ s Hs. rewrite exec_lift.
  destruct (validateSchedule c) as [u|] eqn:Hv; [|done]. rewrite exec_lift.
  destruct (fresh_id _ env) as [id|]; [|done]. rewrite exec_modify.
  apply (pres_bind service_ok); [auto with opdb|intros; auto with opdb|].
  destruct Hs as [Ha Hc]. split; [done|]. simpl. constructor; [|done].
  unfold validateSchedule in Hv. destruct (is_empty _); [done|].
  destruct (valid_days (DaysOfWeek c)) eqn:Hd; [|done].
  destruct (isValidTimeHHMM (StartTime c)) eqn:H1, (isValidTimeHHMM (EndTime c)) eqn:H2; try done.
  split; [by apply valid_days_ok|done].
Qed.

Lemma update_schedule_ok t i c env : preserves service_ok (UpdateSchedule t i c env).
Proof.
  unfold UpdateSchedule. apply pres_check. intros _ s Hs. rewrite exec_gets.
  destruct (findi _ (schedules s)) as [[j y]|]; [|done]. revert s Hs.
  assert (∀ f, (∀ x, DaysOfWeek (f x) = DaysOfWeek x ∧ StartTime (f x) = StartTime x ∧ EndTime (f x) = EndTime x) →
    preserves service_ok (set_schedule j f)) as Hmeta.
  { intros f Hf. apply pres_set_schedule. intros x Hx. destruct (Hf x) as (E1 & E2 & E3).
    unfold schedule_ok. by rewrite E1, E2, E3. }
  apply pres_check. intros _. repeat (apply pres_bind; [|intros _]); auto with opdb.
  all: try (apply pres_when; intros _; by apply Hmeta). all: try by apply Hmeta.
  - apply pres_when. intros _. apply pres_check. intros Hd%negb_false_iff. apply pres_set_schedule.
    intros x (_ & ? & ?). split; [by apply valid_days_ok|done].
  - apply pres_when. intros _. apply pres_check. intros Hd%negb_false_iff. apply pres_set_schedule.
    intros x (? & _ & ?). by split.
  - apply pres_when. intros _. apply pres_check. intros Hd%negb_false_iff. apply pres_set_schedule.
    intros x (? & ? & _). by split.
Qed.

Lemma delete_schedule_ok t i env : preserves service_ok (DeleteSchedule t i env).
Proof.
  unfold DeleteSchedule. apply pres_check. intros _ s Hs. rewrite exec_gets.
  destruct (findi _ (schedules s)) as [[j y]|]; [|done]. rewrite exec_fail_if. destruct (negb _); [done|].
  rewrite exec_modify. apply pres_persist. destruct Hs as [Ha Hc]. split; [done|]. simpl. by apply Forall_delete.
Qed.

(** The stored data stay well formed.  Whatever calls are made, accepted or
    refused at any point (an update that fails half way included), and whatever
    the store answers: every alarm has one of the seven statuses, every schedule
    only has days 0 to 6 and start and end times that pass the time check. *)
Theorem alarm_service_invariant ks s : service_ok s → service_ok (run_calls ks s).
Proof.
  revert s; induction ks as [|[k env] ks IH]; intros s Hs; simpl; [done|]. apply IH.
  destruct k; simpl; [by apply update_status_ok|by apply create_schedule_ok|by apply update_schedule_ok
    |by apply delete_schedule_ok].
Qed.

(** ** The time check *)

Definition digit_value (c : ascii) : Z := code c - 48.

(** On times written with digits the check is exact: "HH:MM" is accepted
    exactly when the hour is at most 23 and the minute at most 59.  It does not
    check that the characters are digits: the byte arithmetic wraps, and some
    strings that are no time at all pass. *)
Theorem hhmm_on_digits a b c d :
  Forall (λ x, is_digit x = true) [a; b; c; d] →
  let t := String a (String b (String ":" (String c (String d "")))) in
  (isValidTimeHHMM t = true ↔
     digit_value a * 10 + digit_value b <= 23 ∧ digit_value c * 10 + digit_value d <= 59)
  ∧ isValidTimeHHMM "/::/:" = true.
Proof.
  intros Hd t. split; [|reflexivity]. subst t. unfold isValidTimeHHMM. simpl.
  rewrite !Forall_cons in Hd. destruct Hd as (Ha & Hb & Hc & Hd & _).
  unfold is_digit in *. boolp. unfold two_digits, digit_value.
  rewrite !(Z.mod_small (_ - 48) 256), !(Z.mod_small _ 256) by lia.
  rewrite andb_true_iff, !Z.leb_le. done.
Qed.

Lemma hhmm_on_digits_witness : isValidTimeHHMM "23:59" = true.
Proof.
  destruct (hhmm_on_digits "2" "3" "5" "9") as [[_ H] _]; [repeat constructor|].
  apply H. vm_compute. split; congruence.
Defined.

Definition schedule0 : AlarmSchedule := mkSchedule "s1" "t" "Night" "" [1; 5] "22:00" "23:30" "UTC" [] true 0 0.
Definition service0 : Service := mkService [] [schedule0] None ∅ 0%N.

(** An update refused for its start time has already renamed the schedule. *)
Example update_partial :
  UpdateSchedule "t" "s1" (mkSchedule "" "" "Day" "" [] "25:00" "" "" [] true 0 0) (mkEnv 5 None StoreSaved) service0
  = (service0 <| schedules := [schedule0 <| scName := "Day" |>] |>, Err ErrScheduleInvalidTime).
Proof. reflexivity. Qed.

Lemma alarm_service_invariant_witness :
  service_ok (run_calls [(CUpdate "t" "s1" (mkSchedule "" "" "Day" "" [7] "" "" "" [] true 0 0), mkEnv 5 None StoreSaved)]
                service0).
Proof.
  apply (alarm_service_invariant [(CUpdate "t" "s1" (mkSchedule "" "" "Day" "" [7] "" "" "" [] true 0 0), mkEnv 5 None StoreSaved)]
    service0).
  split; [constructor|]. repeat constructor; vm_compute; congruence.
Defined.
