(* ===== verification/Indexes.v ===== *)
(** * Indexes of a table

    What the directory synchronisations of the modules access and enterprise keep
    beside their tables while they go through their inputs: maps from a key to the place
    of its row, one over the rows that were there and one over those the call makes.
    [target_of] is the choice both make of the row an input is for. *)

From S2P Require Import Prelude GoStrings.
#[local] Open Scope string_scope.
#[local] Open Scope list_scope.
#[local] Open Scope Z_scope.

(** A key is entered unless it is blank. *)
Definition enter (key : string) (i : nat) (idx : gmap string nat) : gmap string nat :=
  if is_empty key then idx else <[key := i]> idx.

(** Which row an input is for. *)
Inductive Target := NewRow | ExistingRow (i : nat) | CreatedRow (i : nat) | Clash.

Definition given (x : option nat) : bool := if x is Some _ then true else false.
Definition same (x y : option nat) : bool :=
  match x, y with Some i, Some j => (i =? j)%nat | _, _ => false end.
Definition prefer (existing created : option nat) : Target :=
  match existing, created with Some i, _ => ExistingRow i | None, Some i => CreatedRow i | None, None => NewRow end.

Definition target_of (existingSync createdSync existingEmail createdEmail : option nat) : Target :=
  let hasSyncMatch := given existingSync || given createdSync in
  let hasEmailMatch := given existingEmail || given createdEmail in
  if hasSyncMatch && hasEmailMatch then
    if same existingSync existingEmail then prefer existingSync None
    else if same createdSync createdEmail then prefer None createdSync
    else Clash
  else if hasSyncMatch then prefer existingSync createdSync
  else prefer existingEmail createdEmail.

(** The key of row [i] becomes [next]. *)
Definition rekey (previous next : string) (i : nat) (idx : gmap string nat) : gmap string nat :=
  <[next := i]>
    (if negb (String.eqb previous next) && bool_decide (idx !! previous = Some i) then delete previous idx else idx).

(** ** Facts *)

(** No two rows have the same key. *)
Definition unique {A} (f : A → option string) (l : list A) : Prop :=
  ∀ i j x y k, l !! i = Some x → l !! j = Some y → f x = Some k → f y = Some k → i = j.

(** The index says where each key is. *)
Definition index_ok {A} (f : A → option string) (idx : gmap string nat) (l : list A) : Prop :=
  ∀ k i, idx !! k = Some i ↔ ∃ x, l !! i = Some x ∧ f x = Some k.

Section index.
Context {A : Type} (f : A → option string).
Implicit Types (idx : gmap string nat) (l : list A).

Lemma index_ok_nil : index_ok f ∅ [].
Proof. intros k i. rewrite lookup_empty. split; [done|]. by intros (x & Hx & _). Qed.

(** Row [j] is replaced. *)
Lemma index_ok_put idx idx' l j x y :
  index_ok f idx l → l !! j = Some x →
  (∀ k i, idx' !! k = Some i ↔ (i = j ∧ f y = Some k) ∨ (i ≠ j ∧ idx !! k = Some i)) →
  index_ok f idx' (<[j := y]> l).
Proof.
  intros Hok Hj Hidx k i. rewrite Hidx. apply lookup_lt_Some in Hj. destruct (decide (i = j)) as [->|Hne].
  - rewrite list_lookup_insert_eq by done. naive_solver.
  - rewrite list_lookup_insert_ne by done. specialize (Hok k i). naive_solver.
Qed.

(** A row is added at the end, its key, if any, being new. *)
Lemma index_ok_snoc idx l x :
  index_ok f idx l → (∀ k, f x = Some k → idx !! k = None) →
  index_ok f (match f x with Some k => <[k := length l]> idx | None => idx end) (l ++ [x]).
Proof.
  intros Hok Hnew k i. rewrite lookup_app.
  assert (H : (∃ y, match l !! i with Some z => Some z | None => [x] !! (i - length l)%nat end = Some y ∧ f y = Some k)
              ↔ idx !! k = Some i ∨ (i = length l ∧ f x = Some k)).
  { rewrite (Hok k i). destruct (l !! i) as [z|] eqn:Hz.
    - apply lookup_lt_Some in Hz. naive_solver lia.
    - apply lookup_ge_None in Hz. destruct (decide (i = length l)) as [->|].
      + rewrite Nat.sub_diag. simpl. naive_solver.
      + replace (i - length l)%nat with (S (i - length l - 1)) by lia. simpl. naive_solver. }
  rewrite H. destruct (f x) as [k'|] eqn:Hx; [|naive_solver].
  specialize (Hnew k' eq_refl). destruct (decide (k = k')) as [->|].
  - rewrite lookup_insert_eq, Hnew. naive_solver.
  - rewrite lookup_insert_ne by done. naive_solver.
Qed.

Lemma index_ok_unique idx l : index_ok f idx l → unique f l.
Proof.
  intros Hok i j x y k Hi Hj Hx Hy.
  assert (H1 : idx !! k = Some i) by (apply Hok; eauto).
  assert (H2 : idx !! k = Some j) by (apply Hok; eauto). congruence.
Qed.

(** Two lists with different keys. *)
Lemma index_ok_app idx1 idx2 l1 l2 :
  index_ok f idx1 l1 → index_ok f idx2 l2 → (∀ k, idx1 !! k = None ∨ idx2 !! k = None) → unique f (l1 ++ l2).
Proof.
  intros H1 H2 Hd i j x y k Hi Hj Hx Hy. rewrite lookup_app in Hi, Hj.
  assert (Hin : ∀ n z, match l1 !! n with Some w => Some w | None => l2 !! (n - length l1)%nat end = Some z → f z = Some k →
                (n < length l1 ∧ idx1 !! k = Some n)%nat ∨ (length l1 ≤ n ∧ idx2 !! k = Some (n - length l1))%nat).
  { intros n z Hn Hz. destruct (l1 !! n) as [w|] eqn:Hw.
    - left. split; [by eapply lookup_lt_Some|]. apply H1. naive_solver.
    - right. apply lookup_ge_None in Hw. split; [lia|]. apply H2. naive_solver. }
  specialize (Hd k). destruct (Hin i x Hi Hx) as [[? ?]|[? ?]], (Hin j y Hj Hy) as [[? ?]|[? ?]]; simplify_eq;
    destruct Hd; congruence || lia.
Qed.
End index.

(** What an input finds, when no key is both in the old users and in the new. *)
Lemma target_of_spec es cs ee ce :
  (es = None ∨ cs = None) → (ee = None ∨ ce = None) →
  match target_of es cs ee ce with
  | NewRow => es = None ∧ cs = None ∧ ee = None ∧ ce = None
  | ExistingRow j => cs = None ∧ ce = None ∧ (es = Some j ∨ ee = Some j) ∧ (es = None ∨ es = Some j) ∧ (ee = None ∨ ee = Some j)
  | CreatedRow j => es = None ∧ ee = None ∧ (cs = Some j ∨ ce = Some j) ∧ (cs = None ∨ cs = Some j) ∧ (ce = None ∨ ce = Some j)
  | Clash => True
  end.
Proof.
  intros [-> | ->] [-> | ->]; unfold target_of;
    repeat match goal with |- context [given ?x] => is_var x; destruct x end; simpl;
    try match goal with |- context [(?i =? ?j)%nat] => destruct (Nat.eqb_spec i j) as [->|] end; simpl; auto 10.
Qed.

Lemma rekey_other prev next i idx k : k ≠ next → idx !! k = None → rekey prev next i idx !! k = None.
Proof.
  intros Hk H. unfold rekey. rewrite lookup_insert_ne by done. destruct (_ && _); [|done].
  apply lookup_delete_None. by right.
Qed.
Lemma enter_other key i idx k : (is_empty key = false → k ≠ key) → idx !! k = None → enter key i idx !! k = None.
Proof. unfold enter. destruct (is_empty key); [done|]. intros Hk H. specialize (Hk eq_refl). by rewrite lookup_insert_ne. Qed.

