(* ===== verification/AccessData.v ===== *)
(** * The data of the access service (modules/access)

    One record per Go struct, the fields with the struct's prefix.  An [int] is
    a [Z], a [time.Time] its instant, a pointer an [option]; the one
    [float64] is a [spec_float]. *)

From Stdlib Require Export SpecFloat.
From S2P Require Import Prelude GoStrings GoTime.
#[local] Open Scope string_scope.
#[local] Open Scope list_scope.
#[local] Open Scope Z_scope.

(** ** Schedules, calendars, settings *)

Record TimeWindow := mkWindow { StartTime : string; EndTime : string; DayOfWeekSet : string; TwTimezone : string }.
Record HolidayEntry := mkHoliday { Date : string; HolidayName : string; HolidayDescription : string }.

Record Schedule := mkSchedule {
  ID : string; TenantID : string; Name : string; Description : string; ValidFrom : string; ValidUntil : string;
  TimeWindows : list TimeWindow; ExceptionDates : list string; HolidayCalendarID : string;
  CreatedAt : Z; UpdatedAt : Z
}.
#[export] Instance eta_schedule : Eta Schedule := fun c =>
  mkSchedule (ID c) (TenantID c) (Name c) (Description c) (ValidFrom c) (ValidUntil c) (TimeWindows c)
    (ExceptionDates c) (HolidayCalendarID c) (CreatedAt c) (UpdatedAt c).

Record HolidayCalendar := mkCalendar {
  calID : string; calTenantID : string; calName : string; Country : string; Entries : list HolidayEntry; calUpdatedAt : Z
}.
#[export] Instance eta_calendar : Eta HolidayCalendar := fun c =>
  mkCalendar (calID c) (calTenantID c) (calName c) (Country c) (Entries c) (calUpdatedAt c).

Record OrganizationSettings := mkSettings {
  orgTenantID : string; orgName : string; PrimaryDomain : string; Timezone : string; SupportEmail : string;
  EmailNotifications : bool; PushNotifications : bool; WeeklyReports : bool; EnforceMFA : bool;
  WebAuthnEnabled : bool; PasswordPolicy : string; SessionTimeoutMinutes : Z; WebhookSigningKey : string;
  WebhookRotatedAt : Z; orgStatus : string; orgUpdatedAt : Z
}.
#[export] Instance eta_settings : Eta OrganizationSettings := fun o =>
  mkSettings (orgTenantID o) (orgName o) (PrimaryDomain o) (Timezone o) (SupportEmail o) (EmailNotifications o)
    (PushNotifications o) (WeeklyReports o) (EnforceMFA o) (WebAuthnEnabled o) (PasswordPolicy o)
    (SessionTimeoutMinutes o) (WebhookSigningKey o) (WebhookRotatedAt o) (orgStatus o) (orgUpdatedAt o).

(** ** Users, groups, grants, bookings *)

Record OAuth2Client := mkOAuth2Client {
  ocID : string; ocTenantID : string; ocName : string; ocClientSecret : string; ocSecretHash : string;
  ocRedirectURIs : list string; ocScopes : list string; ocEnabled : bool; ocCreatedAt : Z; ocUpdatedAt : Z
}.
#[export] Instance eta_OAuth2Client : Eta OAuth2Client := λ x,
  mkOAuth2Client (ocID x) (ocTenantID x) (ocName x) (ocClientSecret x) (ocSecretHash x) (ocRedirectURIs x)
  (ocScopes x) (ocEnabled x) (ocCreatedAt x) (ocUpdatedAt x).

Record RoleAssignment := mkRoleAssignment {
  raID : string; raTenantID : string; raRoleID : string; raAppliesToType : string; raAppliesToID : string;
  raAssigneeType : string; raAssigneeID : string; raAssigneeEmail : string; raValidFrom : string;
  raValidUntil : string; raTimeWindows : list TimeWindow; raExceptionDates : list string;
  raHolidayCalendarID : string; raReviewedAt : string; raReviewedBy : string; raCreatedAt : Z;
  raUpdatedAt : Z
}.
#[export] Instance eta_RoleAssignment : Eta RoleAssignment := λ x,
  mkRoleAssignment (raID x) (raTenantID x) (raRoleID x) (raAppliesToType x) (raAppliesToID x)
  (raAssigneeType x) (raAssigneeID x) (raAssigneeEmail x) (raValidFrom x) (raValidUntil x) (raTimeWindows x)
  (raExceptionDates x) (raHolidayCalendarID x) (raReviewedAt x) (raReviewedBy x) (raCreatedAt x)
  (raUpdatedAt x).

Record RoleAssignmentInput := mkRoleAssignmentInput {
  rinTenantID : string; rinRoleID : string; rinAppliesToType : string; rinAppliesToID : string;
  rinAssigneeType : string; rinAssigneeID : string; rinAssigneeEmail : string; rinValidFrom : string;
  rinValidUntil : string; rinTimeWindows : list TimeWindow; rinExceptionDates : list string;
  rinHolidayCalendarID : string
}.
#[export] Instance eta_RoleAssignmentInput : Eta RoleAssignmentInput := λ x,
  mkRoleAssignmentInput (rinTenantID x) (rinRoleID x) (rinAppliesToType x) (rinAppliesToID x)
    (rinAssigneeType x) (rinAssigneeID x) (rinAssigneeEmail x) (rinValidFrom x) (rinValidUntil x)
    (rinTimeWindows x) (rinExceptionDates x) (rinHolidayCalendarID x).

Record Policy := mkPolicy {
  polID : string; polTenantID : string; polName : string; polScopeType : string; polBuildingID : string;
  polAreaID : string; polDoorID : string; polSchedule : string; polMembers : Z; polStatus : string;
  polUpdatedAt : Z
}.
#[export] Instance eta_Policy : Eta Policy := λ x,
  mkPolicy (polID x) (polTenantID x) (polName x) (polScopeType x) (polBuildingID x) (polAreaID x)
  (polDoorID x) (polSchedule x) (polMembers x) (polStatus x) (polUpdatedAt x).

Record AccessUser := mkAccessUser {
  usrID : string; usrTenantID : string; usrBuildingID : string; usrName : string; usrEmail : string;
  usrRole : string; usrStatus : string; usrGroupIDs : list string; usrSyncSource : string;
  usrSyncRef : string; usrCreatedAt : Z
}.
#[export] Instance eta_AccessUser : Eta AccessUser := λ x,
  mkAccessUser (usrID x) (usrTenantID x) (usrBuildingID x) (usrName x) (usrEmail x) (usrRole x)
  (usrStatus x) (usrGroupIDs x) (usrSyncSource x) (usrSyncRef x) (usrCreatedAt x).

Record UserInvitationDelivery := mkUserInvitationDelivery {
  invID : string; invResourceType : string; invTenantID : string; invUserID : string; invEmail : string;
  invPlaceID : string; invDeliveryMethod : string; invStatus : string; invProvider : string;
  invProviderDeliveryID : string; invProviderError : string; invRetryable : bool; invQueuedAt : Z;
  invDeliveredAt : option Z; invUpdatedAt : Z
}.
#[export] Instance eta_UserInvitationDelivery : Eta UserInvitationDelivery := λ x,
  mkUserInvitationDelivery (invID x) (invResourceType x) (invTenantID x) (invUserID x) (invEmail x)
  (invPlaceID x) (invDeliveryMethod x) (invStatus x) (invProvider x) (invProviderDeliveryID x)
  (invProviderError x) (invRetryable x) (invQueuedAt x) (invDeliveredAt x) (invUpdatedAt x).

Record BatchUpsertUserByEmailInput := mkBatchUpsertUserByEmailInput {
  biBuildingID : string; biName : string; biEmail : string; biRole : string; biStatus : string;
  biGroupIDs : list string; biSyncSource : string; biSyncRef : string
}.

Record UserGroup := mkUserGroup {
  grpID : string; grpResourceType : string; grpTenantID : string; grpBuildingID : string;
  grpPlaceID : string; grpName : string; grpDescription : string; grpLoginEnabled : bool;
  grpGeofenceRestrictionEnabled : bool; grpGeofenceRestrictionRadius : spec_float;
  grpPrimaryDeviceRestrictionEnabled : bool; grpManagedDeviceRestrictionEnabled : bool;
  grpReaderRestrictionEnabled : bool; grpTimeRestrictionEnabled : bool;
  grpTapToAccessRestrictionEnabled : bool; grpTimeRestrictionTimeZone : string; grpMembers : list string;
  grpUsersCount : Z; grpLocksCount : Z; grpElevatorStopsCount : Z; grpCreatedAt : Z; grpUpdatedAt : Z
}.
#[export] Instance eta_UserGroup : Eta UserGroup := λ x,
  mkUserGroup (grpID x) (grpResourceType x) (grpTenantID x) (grpBuildingID x) (grpPlaceID x) (grpName x)
  (grpDescription x) (grpLoginEnabled x) (grpGeofenceRestrictionEnabled x) (grpGeofenceRestrictionRadius x)
  (grpPrimaryDeviceRestrictionEnabled x) (grpManagedDeviceRestrictionEnabled x)
  (grpReaderRestrictionEnabled x) (grpTimeRestrictionEnabled x) (grpTapToAccessRestrictionEnabled x)
  (grpTimeRestrictionTimeZone x) (grpMembers x) (grpUsersCount x) (grpLocksCount x)
  (grpElevatorStopsCount x) (grpCreatedAt x) (grpUpdatedAt x).

Record UserGroupRestrictionsInput := mkUserGroupRestrictionsInput {
  griLoginEnabled : option bool; griGeofenceRestrictionEnabled : option bool;
  griGeofenceRestrictionRadius : option spec_float; griPrimaryDeviceRestrictionEnabled : option bool;
  griManagedDeviceRestrictionEnabled : option bool; griReaderRestrictionEnabled : option bool;
  griTimeRestrictionEnabled : option bool; griTapToAccessRestrictionEnabled : option bool;
  griTimeRestrictionTimeZone : option string
}.

Record GroupLink := mkGroupLink {
  glID : string; glResourceType : string; glTenantID : string; glGroupID : string; glGroupName : string;
  glName : string; glEmail : string; glPhone : string; glLastUsedAt : string; glLinkEnabled : bool;
  glQuickResponseCodeType : string; glValidFrom : string; glValidUntil : string; glCreatedByType : string;
  glCreatedByID : string; glCreatedByEmail : string; glCreatedByName : string; glIssuedByID : string;
  glSecret : string; glQuickResponseCodeToken : string; glQuickResponseCodeImage : string; glCreatedAt : Z;
  glUpdatedAt : Z
}.
#[export] Instance eta_GroupLink : Eta GroupLink := λ x,
  mkGroupLink (glID x) (glResourceType x) (glTenantID x) (glGroupID x) (glGroupName x) (glName x)
  (glEmail x) (glPhone x) (glLastUsedAt x) (glLinkEnabled x) (glQuickResponseCodeType x) (glValidFrom x)
  (glValidUntil x) (glCreatedByType x) (glCreatedByID x) (glCreatedByEmail x) (glCreatedByName x)
  (glIssuedByID x) (glSecret x) (glQuickResponseCodeToken x) (glQuickResponseCodeImage x) (glCreatedAt x)
  (glUpdatedAt x).

Record GroupLinkInput := mkGroupLinkInput {
  gliTenantID : string; gliGroupID : string; gliName : string; gliEmail : string; gliPhone : string;
  gliLinkEnabled : option bool; gliQuickResponseCodeType : string; gliValidFrom : string;
  gliValidUntil : string; gliCreatedByType : string; gliCreatedByID : string; gliCreatedByEmail : string;
  gliCreatedByName : string
}.

Record GroupLinkUpdateInput := mkGroupLinkUpdateInput {
  gluTenantID : string; gluGroupID : option string; gluName : option string; gluEmail : option string;
  gluPhone : option string; gluLinkEnabled : option bool; gluQuickResponseCodeType : option string;
  gluValidFrom : option string; gluValidUntil : option string
}.

Record Team := mkTeam {
  tmID : string; tmResourceType : string; tmTenantID : string; tmName : string; tmScope : string;
  tmPlaceID : string; tmDescription : string; tmSource : string; tmCreatedAt : Z; tmUpdatedAt : Z
}.
#[export] Instance eta_Team : Eta Team := λ x,
  mkTeam (tmID x) (tmResourceType x) (tmTenantID x) (tmName x) (tmScope x) (tmPlaceID x) (tmDescription x)
  (tmSource x) (tmCreatedAt x) (tmUpdatedAt x).

Record TeamMembership := mkTeamMembership {
  mbID : string; mbResourceType : string; mbTenantID : string; mbTeamID : string; mbMemberType : string;
  mbMemberID : string; mbMemberEmail : string; mbMemberName : string; mbSource : string; mbCreatedAt : Z;
  mbUpdatedAt : Z
}.
#[export] Instance eta_TeamMembership : Eta TeamMembership := λ x,
  mkTeamMembership (mbID x) (mbResourceType x) (mbTenantID x) (mbTeamID x) (mbMemberType x) (mbMemberID x)
  (mbMemberEmail x) (mbMemberName x) (mbSource x) (mbCreatedAt x) (mbUpdatedAt x).

Record TemporaryAccess := mkTemporaryAccess {
  taID : string; taTenantID : string; taScopeType : string; taBuildingID : string; taAreaID : string;
  taDoorID : string; taGroupID : string; taRoleID : string; taDeliveryMethod : string;
  taGranteeName : string; taGranteeGender : string; taGranteePhone : string; taGranteeEmail : string;
  taMobileModel : string; taPassType : string; taValidFrom : string; taValidUntil : string;
  taTimeWindows : list TimeWindow; taExceptionDates : list string; taHolidayCalendarID : string;
  taAuthorizedByID : string; taAuthorizedByEmail : string; taAuthorizedByRole : string; taAuthorizedAt : Z;
  taReviewedAt : string; taReviewedBy : string; taCreatedAt : Z
}.
#[export] Instance eta_TemporaryAccess : Eta TemporaryAccess := λ x,
  mkTemporaryAccess (taID x) (taTenantID x) (taScopeType x) (taBuildingID x) (taAreaID x) (taDoorID x)
  (taGroupID x) (taRoleID x) (taDeliveryMethod x) (taGranteeName x) (taGranteeGender x) (taGranteePhone x)
  (taGranteeEmail x) (taMobileModel x) (taPassType x) (taValidFrom x) (taValidUntil x) (taTimeWindows x)
  (taExceptionDates x) (taHolidayCalendarID x) (taAuthorizedByID x) (taAuthorizedByEmail x)
  (taAuthorizedByRole x) (taAuthorizedAt x) (taReviewedAt x) (taReviewedBy x) (taCreatedAt x).

Record TemporaryAccessInput := mkTemporaryAccessInput {
  tinTenantID : string; tinScopeType : string; tinBuildingID : string; tinAreaID : string;
  tinDoorID : string; tinGroupID : string; tinRoleID : string; tinDeliveryMethod : string;
  tinGranteeName : string; tinGranteeGender : string; tinGranteePhone : string; tinGranteeEmail : string;
  tinMobileModel : string; tinPassType : string; tinValidFrom : string; tinValidUntil : string;
  tinAuthorizedByID : string; tinAuthorizedByEmail : string; tinAuthorizedByRole : string;
  tinKeepAuthorizedTime : bool; tinReviewedAt : string; tinReviewedBy : string
}.
#[export] Instance eta_TemporaryAccessInput : Eta TemporaryAccessInput := λ x,
  mkTemporaryAccessInput (tinTenantID x) (tinScopeType x) (tinBuildingID x) (tinAreaID x) (tinDoorID x)
    (tinGroupID x) (tinRoleID x) (tinDeliveryMethod x) (tinGranteeName x) (tinGranteeGender x)
    (tinGranteePhone x) (tinGranteeEmail x) (tinMobileModel x) (tinPassType x) (tinValidFrom x)
    (tinValidUntil x) (tinAuthorizedByID x) (tinAuthorizedByEmail x) (tinAuthorizedByRole x)
    (tinKeepAuthorizedTime x) (tinReviewedAt x) (tinReviewedBy x).

Record VisitorPass := mkVisitorPass {
  vpID : string; vpTenantID : string; vpBuildingID : string; vpHost : string; vpVisitor : string;
  vpDeliveryMethod : string; vpExpiresAt : string; vpCreatedAt : Z
}.
#[export] Instance eta_VisitorPass : Eta VisitorPass := λ x,
  mkVisitorPass (vpID x) (vpTenantID x) (vpBuildingID x) (vpHost x) (vpVisitor x) (vpDeliveryMethod x)
  (vpExpiresAt x) (vpCreatedAt x).

Record Elevator := mkElevator {
  elID : string; elTenantID : string; elPlaceID : string; elName : string; elDescription : string;
  elStopsCount : Z; elCreatedAt : Z; elUpdatedAt : Z
}.
#[export] Instance eta_Elevator : Eta Elevator := λ x,
  mkElevator (elID x) (elTenantID x) (elPlaceID x) (elName x) (elDescription x) (elStopsCount x)
  (elCreatedAt x) (elUpdatedAt x).

Record ElevatorStop := mkElevatorStop {
  esID : string; esTenantID : string; esElevatorID : string; esFloorID : string; esName : string;
  esStatus : string; esCreatedAt : Z; esUpdatedAt : Z
}.
#[export] Instance eta_ElevatorStop : Eta ElevatorStop := λ x,
  mkElevatorStop (esID x) (esTenantID x) (esElevatorID x) (esFloorID x) (esName x) (esStatus x)
  (esCreatedAt x) (esUpdatedAt x).

Record GroupElevatorStop := mkGroupElevatorStop {
  gesID : string; gesTenantID : string; gesGroupID : string; gesElevatorStopID : string; gesCreatedAt : Z
}.
#[export] Instance eta_GroupElevatorStop : Eta GroupElevatorStop := λ x,
  mkGroupElevatorStop (gesID x) (gesTenantID x) (gesGroupID x) (gesElevatorStopID x) (gesCreatedAt x).

Record GroupTerminal := mkGroupTerminal {
  gtID : string; gtTenantID : string; gtGroupID : string; gtTerminalID : string; gtCreatedAt : Z
}.
#[export] Instance eta_GroupTerminal : Eta GroupTerminal := λ x,
  mkGroupTerminal (gtID x) (gtTenantID x) (gtGroupID x) (gtTerminalID x) (gtCreatedAt x).

Record Presence := mkPresence {
  prsID : string; prsTenantID : string; prsPlaceID : string; prsUserID : string; prsUserName : string;
  prsUserEmail : string; prsEnteredAt : Z; prsExitedAt : string
}.

Record CSVCardImport := mkCSVCardImport {
  cciID : string; cciTenantID : string; cciFileName : string; cciStatus : string; cciTotalRows : Z;
  cciImported : Z; cciFailed : Z; cciCreatedAt : Z; cciUpdatedAt : Z
}.
#[export] Instance eta_CSVCardImport : Eta CSVCardImport := λ x,
  mkCSVCardImport (cciID x) (cciTenantID x) (cciFileName x) (cciStatus x) (cciTotalRows x) (cciImported x)
  (cciFailed x) (cciCreatedAt x) (cciUpdatedAt x).

Record Guest := mkGuest {
  gstID : string; gstTenantID : string; gstBuildingID : string; gstName : string; gstEmail : string;
  gstPhone : string; gstCompany : string; gstPurpose : string; gstHostName : string; gstHostEmail : string;
  gstHostPhone : string; gstIDDocumentType : string; gstIDDocumentNumber : string; gstStatus : string;
  gstCheckedInAt : string; gstCheckedOutAt : string; gstExpectedAt : string; gstNotifyHost : bool;
  gstHostNotifiedAt : string; gstAccessToken : string; gstAccessTokenExpiresAt : string;
  gstDoorIDs : list string; gstCreatedAt : Z; gstUpdatedAt : Z
}.
#[export] Instance eta_Guest : Eta Guest := λ x,
  mkGuest (gstID x) (gstTenantID x) (gstBuildingID x) (gstName x) (gstEmail x) (gstPhone x) (gstCompany x)
  (gstPurpose x) (gstHostName x) (gstHostEmail x) (gstHostPhone x) (gstIDDocumentType x)
  (gstIDDocumentNumber x) (gstStatus x) (gstCheckedInAt x) (gstCheckedOutAt x) (gstExpectedAt x)
  (gstNotifyHost x) (gstHostNotifiedAt x) (gstAccessToken x) (gstAccessTokenExpiresAt x) (gstDoorIDs x)
  (gstCreatedAt x) (gstUpdatedAt x).

Record CreateGuestInput := mkCreateGuestInput {
  cgiTenantID : string; cgiBuildingID : string; cgiName : string; cgiEmail : string; cgiPhone : string;
  cgiCompany : string; cgiPurpose : string; cgiHostName : string; cgiHostEmail : string;
  cgiHostPhone : string; cgiIDDocumentType : string; cgiIDDocumentNumber : string; cgiExpectedAt : string;
  cgiNotifyHost : bool; cgiDoorIDs : list string; cgiAccessTTLHours : Z
}.

Record BookableSpace := mkBookableSpace {
  spID : string; spTenantID : string; spName : string; spDescription : string; spSpaceType : string;
  spCapacityMode : string; spMaxCapacity : Z; spCurrentOccupancy : Z; spLockID : string;
  spRequiresBooking : bool; spEnabled : bool; spCreatedAt : Z; spUpdatedAt : Z
}.
#[export] Instance eta_BookableSpace : Eta BookableSpace := λ x,
  mkBookableSpace (spID x) (spTenantID x) (spName x) (spDescription x) (spSpaceType x) (spCapacityMode x)
  (spMaxCapacity x) (spCurrentOccupancy x) (spLockID x) (spRequiresBooking x) (spEnabled x) (spCreatedAt x)
  (spUpdatedAt x).

Record Booking := mkBooking {
  bkID : string; bkTenantID : string; bkSpaceID : string; bkUserID : string; bkUserName : string;
  bkTitle : string; bkStartTime : string; bkEndTime : string; bkStatus : string; bkCheckedInAt : string;
  bkCheckedOutAt : string; bkCreatedAt : Z; bkUpdatedAt : Z
}.
#[export] Instance eta_Booking : Eta Booking := λ x,
  mkBooking (bkID x) (bkTenantID x) (bkSpaceID x) (bkUserID x) (bkUserName x) (bkTitle x) (bkStartTime x)
  (bkEndTime x) (bkStatus x) (bkCheckedInAt x) (bkCheckedOutAt x) (bkCreatedAt x) (bkUpdatedAt x).

Record CreateBookableSpaceInput := mkCreateBookableSpaceInput {
  csiTenantID : string; csiName : string; csiDescription : string; csiSpaceType : string;
  csiCapacityMode : string; csiMaxCapacity : Z; csiLockID : string; csiRequiresBooking : bool;
  csiEnabled : bool
}.

Record UpdateBookableSpaceInput := mkUpdateBookableSpaceInput {
  usiName : option string; usiDescription : option string; usiSpaceType : option string;
  usiCapacityMode : option string; usiMaxCapacity : option Z; usiLockID : option string;
  usiRequiresBooking : option bool; usiEnabled : option bool
}.

Record CreateBookingInput := mkCreateBookingInput {
  cbiTenantID : string; cbiSpaceID : string; cbiUserID : string; cbiUserName : string; cbiTitle : string;
  cbiStartTime : string; cbiEndTime : string
}.

Record UpdateBookingInput := mkUpdateBookingInput {
  ubiTitle : option string; ubiStartTime : option string; ubiEndTime : option string;
  ubiStatus : option string
}.

Record BookableSpaceStatus := mkBookableSpaceStatus {
  bssSpace : BookableSpace; bssActiveBookings : list Booking
}.

Record UserImportRecord := mkUserImportRecord {
  uirName : string; uirEmail : string; uirRole : string; uirStatus : string; uirBuildingID : string
}.

Record UserImportResult := mkUserImportResult {
  uisTenantID : string; uisCreated : Z; uisUpdated : Z; uisSkipped : Z; uisErrors : Z
}.

Record BatchUserStatusResult := mkBatchUserStatusResult {
  bsrTenantID : string; bsrStatus : string; bsrUpdated : Z; bsrSkipped : Z; bsrNotFound : Z;
  bsrUserIDs : list string
}.

Record BatchUserDeleteResult := mkBatchUserDeleteResult {
  bdrTenantID : string; bdrDeleted : Z; bdrNotFound : Z; bdrUserIDs : list string
}.

Record BatchUserInviteResult := mkBatchUserInviteResult {
  bvrTenantID : string; bvrQueued : Z; bvrSkipped : Z; bvrNotFound : Z; bvrUserIDs : list string
}.

Record AccessRightsReviewResult := mkAccessRightsReviewResult {
  arrTenantID : string; arrReviewedAt : string; arrReviewedBy : string; arrReviewedCount : Z;
  arrSkippedCount : Z; arrReviewedRoleAssignmentIDs : list string; arrReviewedShareIDs : list string
}.
#[export] Instance eta_AccessRightsReviewResult : Eta AccessRightsReviewResult := λ x,
  mkAccessRightsReviewResult (arrTenantID x) (arrReviewedAt x) (arrReviewedBy x) (arrReviewedCount x)
  (arrSkippedCount x) (arrReviewedRoleAssignmentIDs x) (arrReviewedShareIDs x).

Record Role := mkRole {
  rlID : string; rlName : string; rlAppliesTo : string; rlDescription : string;
  rlPermissions : gmap string bool; rlBuiltIn : bool
}.

(** ** Errors: the named ones, those made in place ([ErrText]), a failed read of
    random bytes and a failed save *)

Inductive access_err :=
| ErrAccessRightSelectionRequired | ErrAppliesToIDRequired | ErrAssigneeIDRequired
| ErrBookingAlreadyCheckedIn | ErrBookingEndBeforeStart | ErrBookingEndTimeRequired
| ErrBookingNotCheckedIn | ErrBookingNotFound | ErrBookingSpaceIDRequired
| ErrBookingStartTimeRequired | ErrBookingStatusInvalid | ErrBookingTimeConflict
| ErrBookingUserIDRequired | ErrDeliveryMethodInvalid | ErrDoorIDRequired | ErrElevatorNotFound
| ErrElevatorStopNotFound | ErrExpiresAtRequired | ErrGranteeEmailRequired | ErrGranteeNameRequired
| ErrGranteePhoneRequired | ErrGroupIDRequired | ErrGroupLinkDisabled | ErrGroupLinkExpired
| ErrGroupLinkNameRequired | ErrGroupLinkNotFound | ErrGroupLinkNotYetValid | ErrGroupLinkTokenInvalid
| ErrGroupLinkTokenRequired | ErrGuestHostRequired | ErrGuestIDDocumentTypeInvalid
| ErrGuestNameRequired | ErrGuestNotFound | ErrGuestPhoneRequired | ErrGuestStatusInvalid
| ErrHolidayCalendarNameRequired | ErrHolidayCalendarNotFound | ErrHostRequired
| ErrInvalidAssigneeType | ErrInvalidCapacityMode | ErrInvalidGroupLinkQRCodeType
| ErrInvalidGroupLinkValidityWindow | ErrInvalidPolicyStatus | ErrInvalidRoleScope
| ErrInvalidScopeType | ErrInvalidSpaceType | ErrInvalidTeamMemberType
| ErrInvalidUserInvitationStatus | ErrInvalidUserStatus | ErrOAuth2ClientNameRequired
| ErrOAuth2ClientNotFound | ErrOAuth2ClientRedirectURIRequired | ErrPolicyNameRequired
| ErrPolicyNotFound | ErrRoleAssignmentNotFound | ErrRoleIDRequired | ErrRoleNotFound | ErrScheduleNotFound | ErrScheduleNameRequired
| ErrSpaceAtCapacity | ErrSpaceNameRequired | ErrSpaceNotFound | ErrSpaceTypeRequired
| ErrTeamIDRequired | ErrTeamMemberIDRequired | ErrTeamMembershipNotFound | ErrTeamNameRequired
| ErrTeamNotFound | ErrTemporaryAccessNotFound | ErrTenantIDRequired | ErrUserEmailRequired
| ErrUserGroupNameRequired | ErrUserGroupNotFound | ErrUserIDsRequired
| ErrUserInvitationDeliveryNotFound | ErrUserNameRequired | ErrUserNotFound | ErrUserRequired
| ErrUsersImportRecordsRequired | ErrValidUntilRequired | ErrVisitorRequired
| ErrText (s : string) | ErrRandom | ErrSave.
