(* ===== verification/AccessState.v ===== *)
(** * The state of the access service (modules/access)

    [Service] is the Go struct: the tables, the settings map, the state store and
    the random source ([entropy], one chunk per read).  The store answers each
    [Save] with the next of [replies] and keeps the last snapshot it accepted;
    what the snapshot leaves out does not survive a restart
    ([restoreFromStateStore]).  [Item] and [Table] are what the handlers of the
    other files need of a table: an id and a tenant per row, and the rows of the
    state. *)

From S2P Require Import Prelude GoStrings GoTime Bytes AccessData.
#[local] Open Scope string_scope.
#[local] Open Scope list_scope.
#[local] Open Scope Z_scope.

(** ** The store *)

Record stateSnapshot := mkSnapshot {
  snUsers : list AccessUser; snUserInvitationDeliveries : list UserInvitationDelivery;
  snUserGroups : list UserGroup; snPolicies : list Policy; snTemporaryAccess : list TemporaryAccess;
  snVisitorPasses : list VisitorPass; snGuests : list Guest; snRoleAssignments : list RoleAssignment;
  snTeams : list Team; snTeamMemberships : list TeamMembership; snGroupLinks : list GroupLink;
  snBookableSpaces : list BookableSpace; snBookings : list Booking; snOAuth2Clients : list OAuth2Client
}.

Record StateStore := mkStore { replies : list bool; stored : option stateSnapshot }.

Record Service := mkService {
  users : list AccessUser; userInvitationDeliveries : list UserInvitationDelivery;
  userGroups : list UserGroup; policies : list Policy; temporaryAccess : list TemporaryAccess;
  visitorPasses : list VisitorPass; guests : list Guest; elevators : list Elevator;
  elevatorStops : list ElevatorStop; groupElevatorStops : list GroupElevatorStop;
  groupTerminals : list GroupTerminal; presences : list Presence; csvCardImports : list CSVCardImport;
  roleAssignments : list RoleAssignment; teams : list Team; teamMemberships : list TeamMembership;
  groupLinks : list GroupLink; bookableSpaces : list BookableSpace; bookings : list Booking;
  oauth2Clients : list OAuth2Client; holidayCalendars : list HolidayCalendar; schedules : list Schedule;
  organizationSettings : gmap string OrganizationSettings;
  stateStore : option StateStore; entropy : list bytes
}.
#[export] Instance eta_Service : Eta Service := λ s,
  mkService (users s) (userInvitationDeliveries s) (userGroups s) (policies s) (temporaryAccess s)
    (visitorPasses s) (guests s) (elevators s) (elevatorStops s) (groupElevatorStops s) (groupTerminals s)
    (presences s) (csvCardImports s) (roleAssignments s) (teams s) (teamMemberships s) (groupLinks s)
    (bookableSpaces s) (bookings s) (oauth2Clients s) (holidayCalendars s) (schedules s)
    (organizationSettings s) (stateStore s) (entropy s).

Abbreviation m := (op Service access_err).

(** ** Copies

    [cloneAccessUser] and its like copy the slices of a row, which values do
    not share; four of them also normalise. *)

(** An int64-sized length. *)
Definition size_of {A} (l : list A) : Z := Z.of_nat (length l).

(** The float64 150. *)
Definition float150 : spec_float := S754_finite false 5277655813324800 (-45).

Definition applyUserGroupDefaults (g : UserGroup) : UserGroup :=
  g <| grpResourceType := "Group" |>
    <| grpPlaceID ::= (fun p => if is_empty (TrimSpace p) then TrimSpace (grpBuildingID g) else p) |>
    <| grpGeofenceRestrictionRadius ::=
         (fun r => if SFleb r (S754_zero false) then float150 else r) |>
    <| grpUsersCount := size_of (grpMembers g) |>.
Definition cloneUserGroup (g : UserGroup) : UserGroup := applyUserGroupDefaults g.
Definition cloneUserInvitationDelivery (d : UserInvitationDelivery) : UserInvitationDelivery :=
  d <| invResourceType := "UserInvitationDelivery" |>.
Definition cloneGroupLink (l : GroupLink) : GroupLink := l <| glResourceType := "GroupLink" |>.
Definition cloneOAuth2Client (c : OAuth2Client) : OAuth2Client := c <| ocClientSecret := "" |>.

Definition snapshot (s : Service) : stateSnapshot :=
  mkSnapshot (users s) (cloneUserInvitationDelivery <$> userInvitationDeliveries s)
    (cloneUserGroup <$> userGroups s) (policies s) (temporaryAccess s) (visitorPasses s) (guests s)
    (roleAssignments s) (teams s) (teamMemberships s) (cloneGroupLink <$> groupLinks s)
    (bookableSpaces s) (bookings s) (cloneOAuth2Client <$> oauth2Clients s).

(** [s.stateStore.Save(stateKey, snap)] *)
Definition save (snap : stateSnapshot) : m unit := λ s,
  match stateStore s with
  | None => (s, Ok tt)
  | Some st =>
      match replies st with
      | false :: rs => (s <| stateStore := Some (mkStore rs (stored st)) |>, Err ErrSave)
      | rs => (s <| stateStore := Some (mkStore (tail rs) (Some snap)) |>, Ok tt)
      end
  end.

Definition persistLocked : m unit := snap ← gets snapshot; save snap.

(** [if err := s.persistLocked(); err != nil { undo; return err }] *)
Definition persist_or (undo : Service → Service) : m unit := λ s,
  match persistLocked s with
  | (s', Ok tt) => (s', Ok tt)
  | (s', Err e) => (undo s', Err e)
  end.

(** A list of the snapshot, unless it is empty. *)
Definition restored {A} (kept loaded : list A) : list A := match loaded with [] => kept | _ => loaded end.

(** The state after a start on a store: what was seeded for the tables that are
    not saved, and for those whose saved list is empty.  On an empty store the
    seeds are saved, without guests, spaces and bookings. *)
Definition restoreFromStateStore : m unit :=
  st ← gets stateStore;
  match st with
  | None => mret tt
  | Some st =>
      match stored st with
      | None =>
          snap ← gets snapshot;
          save (mkSnapshot (snUsers snap) (snUserInvitationDeliveries snap) (snUserGroups snap)
            (snPolicies snap) (snTemporaryAccess snap) (snVisitorPasses snap) [] (snRoleAssignments snap)
            (snTeams snap) (snTeamMemberships snap) (snGroupLinks snap) [] [] (snOAuth2Clients snap))
      | Some sn =>
          modify (fun s => s
            <| users := snUsers sn |>
            <| userInvitationDeliveries := cloneUserInvitationDelivery <$> snUserInvitationDeliveries sn |>
            <| userGroups := cloneUserGroup <$> snUserGroups sn |>
            <| policies := snPolicies sn |>
            <| temporaryAccess := snTemporaryAccess sn |>
            <| visitorPasses := snVisitorPasses sn |>
            <| guests := snGuests sn |>
            <| roleAssignments := restored (roleAssignments s) (snRoleAssignments sn) |>
            <| teams := restored (teams s) (snTeams sn) |>
            <| teamMemberships := restored (teamMemberships s) (snTeamMemberships sn) |>
            <| groupLinks := restored (groupLinks s) (cloneGroupLink <$> snGroupLinks sn) |>
            <| bookableSpaces := restored (bookableSpaces s) (snBookableSpaces sn) |>
            <| bookings := restored (bookings s) (snBookings sn) |>
            <| oauth2Clients := restored (oauth2Clients s) (cloneOAuth2Client <$> snOAuth2Clients sn) |>)
      end
  end.

(** [rand.Read] of [n] bytes *)
Definition rand_read (n : nat) : m bytes := λ s,
  match entropy s with
  | [] => (s, Err ErrRandom)
  | c :: cs => (s <| entropy := cs |>, if (length c =? n)%nat then Ok c else Err ErrRandom)
  end.

Definition accessID (prefix : string) : m string :=
  raw ← rand_read 4; mret (prefix +:+ hex_encode raw).

(** ** Tables *)

Class Item (A : Type) := { item_id : A → string; item_tenant : A → string }.
Class Table (A : Type) := {
  #[global] table_item :: Item A;
  rows : Service → list A;
  set_rows : (list A → list A) → Service → Service
}.
Class TableLaws (A : Type) `{!Table A} := {
  rows_set : ∀ f s, rows (set_rows f s) = f (rows s);
  store_set : ∀ f s, stateStore (set_rows f s) = stateStore s;
  entropy_set : ∀ f s, entropy (set_rows f s) = entropy s;
  rows_store : ∀ s st, rows (s <| stateStore := st |>) = rows s;
  rows_entropy : ∀ s e, rows (s <| entropy := e |>) = rows s
}.

#[export] Instance table_AccessUser : Table AccessUser := {|
  table_item := {| item_id := usrID; item_tenant := usrTenantID |};
  rows := users; set_rows := λ f s, s <| users ::= f |> |}.
#[export] Instance laws_AccessUser : TableLaws AccessUser.
Proof. by split. Qed.
#[export] Instance table_UserInvitationDelivery : Table UserInvitationDelivery := {|
  table_item := {| item_id := invID; item_tenant := invTenantID |};
  rows := userInvitationDeliveries; set_rows := λ f s, s <| userInvitationDeliveries ::= f |> |}.
#[export] Instance laws_UserInvitationDelivery : TableLaws UserInvitationDelivery.
Proof. by split. Qed.
#[export] Instance table_UserGroup : Table UserGroup := {|
  table_item := {| item_id := grpID; item_tenant := grpTenantID |};
  rows := userGroups; set_rows := λ f s, s <| userGroups ::= f |> |}.
#[export] Instance laws_UserGroup : TableLaws UserGroup.
Proof. by split. Qed.
#[export] Instance table_Policy : Table Policy := {|
  table_item := {| item_id := polID; item_tenant := polTenantID |};
  rows := policies; set_rows := λ f s, s <| policies ::= f |> |}.
#[export] Instance laws_Policy : TableLaws Policy.
Proof. by split. Qed.
#[export] Instance table_TemporaryAccess : Table TemporaryAccess := {|
  table_item := {| item_id := taID; item_tenant := taTenantID |};
  rows := temporaryAccess; set_rows := λ f s, s <| temporaryAccess ::= f |> |}.
#[export] Instance laws_TemporaryAccess : TableLaws TemporaryAccess.
Proof. by split. Qed.
#[export] Instance table_VisitorPass : Table VisitorPass := {|
  table_item := {| item_id := vpID; item_tenant := vpTenantID |};
  rows := visitorPasses; set_rows := λ f s, s <| visitorPasses ::= f |> |}.
#[export] Instance laws_VisitorPass : TableLaws VisitorPass.
Proof. by split. Qed.
#[export] Instance table_Guest : Table Guest := {|
  table_item := {| item_id := gstID; item_tenant := gstTenantID |};
  rows := guests; set_rows := λ f s, s <| guests ::= f |> |}.
#[export] Instance laws_Guest : TableLaws Guest.
Proof. by split. Qed.
#[export] Instance table_Elevator : Table Elevator := {|
  table_item := {| item_id := elID; item_tenant := elTenantID |};
  rows := elevators; set_rows := λ f s, s <| elevators ::= f |> |}.
#[export] Instance laws_Elevator : TableLaws Elevator.
Proof. by split. Qed.
#[export] Instance table_ElevatorStop : Table ElevatorStop := {|
  table_item := {| item_id := esID; item_tenant := esTenantID |};
  rows := elevatorStops; set_rows := λ f s, s <| elevatorStops ::= f |> |}.
#[export] Instance laws_ElevatorStop : TableLaws ElevatorStop.
Proof. by split. Qed.
#[export] Instance table_GroupElevatorStop : Table GroupElevatorStop := {|
  table_item := {| item_id := gesID; item_tenant := gesTenantID |};
  rows := groupElevatorStops; set_rows := λ f s, s <| groupElevatorStops ::= f |> |}.
#[export] Instance laws_GroupElevatorStop : TableLaws GroupElevatorStop.
Proof. by split. Qed.
#[export] Instance table_GroupTerminal : Table GroupTerminal := {|
  table_item := {| item_id := gtID; item_tenant := gtTenantID |};
  rows := groupTerminals; set_rows := λ f s, s <| groupTerminals ::= f |> |}.
#[export] Instance laws_GroupTerminal : TableLaws GroupTerminal.
Proof. by split. Qed.
#[export] Instance table_Presence : Table Presence := {|
  table_item := {| item_id := prsID; item_tenant := prsTenantID |};
  rows := presences; set_rows := λ f s, s <| presences ::= f |> |}.
#[export] Instance laws_Presence : TableLaws Presence.
Proof. by split. Qed.
#[export] Instance table_CSVCardImport : Table CSVCardImport := {|
  table_item := {| item_id := cciID; item_tenant := cciTenantID |};
  rows := csvCardImports; set_rows := λ f s, s <| csvCardImports ::= f |> |}.
#[export] Instance laws_CSVCardImport : TableLaws CSVCardImport.
Proof. by split. Qed.
#[export] Instance table_RoleAssignment : Table RoleAssignment := {|
  table_item := {| item_id := raID; item_tenant := raTenantID |};
  rows := roleAssignments; set_rows := λ f s, s <| roleAssignments ::= f |> |}.
#[export] Instance laws_RoleAssignment : TableLaws RoleAssignment.
Proof. by split. Qed.
#[export] Instance table_Team : Table Team := {|
  table_item := {| item_id := tmID; item_tenant := tmTenantID |};
  rows := teams; set_rows := λ f s, s <| teams ::= f |> |}.
#[export] Instance laws_Team : TableLaws Team.
Proof. by split. Qed.
#[export] Instance table_TeamMembership : Table TeamMembership := {|
  table_item := {| item_id := mbID; item_tenant := mbTenantID |};
  rows := teamMemberships; set_rows := λ f s, s <| teamMemberships ::= f |> |}.
#[export] Instance laws_TeamMembership : TableLaws TeamMembership.
Proof. by split. Qed.
#[export] Instance table_GroupLink : Table GroupLink := {|
  table_item := {| item_id := glID; item_tenant := glTenantID |};
  rows := groupLinks; set_rows := λ f s, s <| groupLinks ::= f |> |}.
#[export] Instance laws_GroupLink : TableLaws GroupLink.
Proof. by split. Qed.
#[export] Instance table_BookableSpace : Table BookableSpace := {|
  table_item := {| item_id := spID; item_tenant := spTenantID |};
  rows := bookableSpaces; set_rows := λ f s, s <| bookableSpaces ::= f |> |}.
#[export] Instance laws_BookableSpace : TableLaws BookableSpace.
Proof. by split. Qed.
#[export] Instance table_Booking : Table Booking := {|
  table_item := {| item_id := bkID; item_tenant := bkTenantID |};
  rows := bookings; set_rows := λ f s, s <| bookings ::= f |> |}.
#[export] Instance laws_Booking : TableLaws Booking.
Proof. by split. Qed.
#[export] Instance table_OAuth2Client : Table OAuth2Client := {|
  table_item := {| item_id := ocID; item_tenant := ocTenantID |};
  rows := oauth2Clients; set_rows := λ f s, s <| oauth2Clients ::= f |> |}.
#[export] Instance laws_OAuth2Client : TableLaws OAuth2Client.
Proof. by split. Qed.
#[export] Instance table_HolidayCalendar : Table HolidayCalendar := {|
  table_item := {| item_id := calID; item_tenant := calTenantID |};
  rows := holidayCalendars; set_rows := λ f s, s <| holidayCalendars ::= f |> |}.
#[export] Instance laws_HolidayCalendar : TableLaws HolidayCalendar.
Proof. by split. Qed.
#[export] Instance table_Schedule : Table Schedule := {|
  table_item := {| item_id := ID; item_tenant := TenantID |};
  rows := schedules; set_rows := λ f s, s <| schedules ::= f |> |}.
#[export] Instance laws_Schedule : TableLaws Schedule.
Proof. by split. Qed.

(** What the handlers do with a table.  [visible] is the filter of the listings;
    [look] stops at the first row with the id and then compares the tenant,
    [look_any] goes on to the first row that has both. *)
Section table.
Context {A : Type} `{!Table A}.

Definition visible (tenant : string) (x : A) : bool := is_empty tenant || String.eqb (item_tenant x) tenant.
Definition list_rows (tenant : string) (s : Service) : list A := filterb (visible tenant) (rows s).

Definition look (notFound : access_err) (tenant id : string) : m (nat * A) :=
  found ← gets (fun s => findi (fun x => String.eqb (item_id x) id) (rows s));
  match found with
  | None => throw notFound
  | Some (i, x) => fail_if (negb (visible tenant x)) notFound;; mret (i, x)
  end.

Definition look_any (notFound : access_err) (tenant id : string) : m (nat * A) :=
  found ← gets (fun s => findi (fun x => String.eqb (item_id x) id && visible tenant x) (rows s));
  match found with None => throw notFound | Some r => mret r end.

Definition prepend (x : A) : m unit := modify (set_rows (cons x)).
Definition put (i : nat) (x : A) : m unit := modify (set_rows <[i := x]>).
Definition remove (i : nat) : m unit := modify (set_rows (delete i)).
End table.

(** ** Normalisation *)

Definition firstNonEmpty (values : list string) : string :=
  match findi (fun v => negb (is_empty (TrimSpace v))) values with Some (_, v) => TrimSpace v | None => "" end.

Definition normalizeEmail (email : string) : string := ToLower (TrimSpace email).
Definition normalizeSyncSource (source : string) : string := ToLower (TrimSpace source).
Definition accessSyncIdentityKey (source ref : string) : string :=
  let nextSource := normalizeSyncSource source in
  let nextRef := TrimSpace ref in
  if is_empty nextSource || is_empty nextRef then "" else nextSource +:+ ":" +:+ nextRef.

(** The loop of [uniqueIDs] and [removeID]: blanks, the target and repetitions
    are dropped. *)
Fixpoint unique_from (target : string) (seen values : list string) : list string :=
  match values with
  | [] => []
  | v :: values' =>
      let value := TrimSpace v in
      if is_empty value || String.eqb value target || existsb (String.eqb value) seen
      then unique_from target seen values'
      else value :: unique_from target (value :: seen) values'
  end.
Definition uniqueIDs (values : list string) : list string := unique_from "" [] values.
Definition removeID (values : list string) (target : string) : list string :=
  unique_from (TrimSpace target) [] values.

(** [switch strings.ToLower(strings.TrimSpace(v)) { case ...: }] *)
Definition switch {A} (v : string) (cases : list (list string * A)) (e : access_err) : result access_err A :=
  match findi (fun c => existsb (String.eqb (ToLower (TrimSpace v))) c.1) cases with
  | Some (_, c) => Ok c.2
  | None => Err e
  end.

Definition normalizePolicyStatus (v : string) :=
  switch v [(["";"active"], "active"); (["inactive"], "inactive"); (["draft"], "draft")] ErrInvalidPolicyStatus.
Definition normalizeUserStatus (v : string) :=
  switch v [(["";"active"], "active"); (["inactive"], "inactive"); (["suspended"], "suspended")]
    ErrInvalidUserStatus.
Definition normalizeUserInvitationDeliveryMethod (v : string) :=
  switch v [(["";"email"], "email"); (["email_qr"], "email_qr")] ErrDeliveryMethodInvalid.
Definition normalizeUserInvitationStatus (v : string) :=
  switch v [(["sent";"delivered"], "sent"); (["failed";"bounced";"rejected";"undelivered"], "failed")]
    ErrInvalidUserInvitationStatus.
Definition normalizeScopeType (v : string) :=
  switch v [(["";"all"], "all"); (["building"], "building"); (["area"], "area"); (["door"], "door")]
    ErrInvalidScopeType.
Definition normalizeDeliveryMethod (v : string) :=
  switch v [(["";"wallet"], "wallet"); (["email_qr"], "email_qr")] ErrDeliveryMethodInvalid.
Definition normalizeGroupLinkQRCodeType (v : string) :=
  switch v [(["";"none";"null"], ""); (["online"], "online"); (["offline"], "offline")]
    ErrInvalidGroupLinkQRCodeType.
Definition normalizeRoleScope (v : string) :=
  switch v [(["organization"], "Organization"); (["place"], "Place"); (["group"], "Group")] ErrInvalidRoleScope.
Definition normalizeAssigneeType (v : string) :=
  switch v [(["user"], "User"); (["team"], "Team"); (["guest"], "Guest")] ErrInvalidAssigneeType.
Definition normalizeTeamMemberType (v : string) :=
  switch v [(["user";""], "User"); (["guest"], "Guest")] ErrInvalidTeamMemberType.
Definition normalizeTeamScope (scope placeID : string) : result access_err string :=
  switch scope [(["";"organization"], if is_empty (TrimSpace placeID) then "organization" else "place");
                (["place"], "place")] ErrInvalidScopeType.
Definition normalizeGroupLinkCreatorType (v : string) : string :=
  match switch v [(["user"], "User");
                  (["marketplaceinstallation";"marketplace_installation"], "MarketplaceInstallation")]
          (ErrText "") with
  | Ok t => t
  | Err _ => ""
  end.

(** ** Facts *)

Section table_facts.
Context {A : Type} `{!Table A, !TableLaws A}.

(** Saving touches the store alone. *)
Lemma save_rows snap s : rows (exec (save snap) s) = rows s.
Proof.
  unfold exec, save. destruct (stateStore s) as [[[|[] rs] st]|]; cbn [fst replies]; rewrite ?rows_store; done.
Qed.
Lemma persist_rows s : rows (exec persistLocked s) = rows s.
Proof. apply save_rows. Qed.

Lemma look_answer e tenant id s i x :
  look e tenant id s = (s, Ok (i, x)) →
  rows s !! i = Some x ∧ item_id x = id ∧ visible tenant x = true.
Proof.
  unfold look. rewrite bind_gets. destruct (findi _ (rows s)) as [[j y]|] eqn:Hf; [|done].
  rewrite fail_if_bind. destruct (negb (visible tenant y)) eqn:Hv; [done|]. intros [= <- <-].
  apply findi_Some in Hf as (Hl & Hp & _). apply negb_false_iff in Hv. apply String.eqb_eq in Hp. done.
Qed.

Lemma look_state e tenant id s : exec (look e tenant id) s = s.
Proof.
  unfold exec, look. rewrite bind_gets. destruct (findi _ (rows s)) as [[j y]|]; [|done].
  rewrite fail_if_bind. by case_match.
Qed.

Lemma look_any_run e tenant id s :
  look_any e tenant id s
  = (s, match findi (fun x => String.eqb (item_id x) id && visible tenant x) (rows s) with
        | Some r => Ok r | None => Err e end).
Proof. unfold look_any. rewrite bind_gets. by destruct (findi _ (rows s)). Qed.
End table_facts.

(** Everything but the store and the random source. *)
Definition same_tables (s s' : Service) : Prop :=
  s' = s <| stateStore := stateStore s' |> <| entropy := entropy s' |>.

Lemma service_eta s : s = s <| stateStore := stateStore s |> <| entropy := entropy s |>.
Proof. by destruct s. Qed.
Lemma persist_tables s : same_tables s (exec persistLocked s).
Proof.
  unfold exec, persistLocked, same_tables. rewrite bind_gets. unfold save. cbn [fst snd].
  destruct (stateStore s) as [[[|[] rs] st]|]; try done. apply service_eta.
Qed.
Lemma accessID_tables p s : same_tables s (exec (accessID p) s).
Proof.
  unfold exec, accessID, same_tables. rewrite bind_op_eq. unfold rand_read.
  destruct (entropy s) as [|c cs]; [apply service_eta|]. destruct (length c =? 4)%nat; by destruct s.
Qed.

Lemma exec_accessID {B} p (f : string → m B) s :
  ∃ s1, same_tables s s1 ∧ (exec (accessID p ≫= f) s = s1 ∨ ∃ id, exec (accessID p ≫= f) s = exec (f id) s1).
Proof.
  exists (exec (accessID p) s). split; [apply accessID_tables|]. unfold exec. rewrite bind_op_eq.
  destruct (accessID p s) as [s1 [id|e]]; simpl; eauto.
Qed.
Lemma same_rows {A} `{!Table A, !TableLaws A} s s' : same_tables s s' → rows s' = rows s.
Proof. intros ->. by rewrite rows_entropy, rows_store. Qed.

(** ** Counting and searching after a change of one row *)

Definition count {A} (p : A → bool) (l : list A) : Z := size_of (filterb p l).

Lemma count_cons {A} (p : A → bool) x l : count p (x :: l) = (if p x then 1 else 0) + count p l.
Proof. unfold count, size_of. simpl. destruct (p x); simpl; lia. Qed.

Lemma count_app {A} (p : A → bool) l k : count p (l ++ k) = count p l + count p k.
Proof. unfold count, size_of. rewrite filterb_app, length_app. lia. Qed.

Lemma count_nonneg {A} (p : A → bool) l : 0 <= count p l.
Proof. unfold count, size_of. lia. Qed.

Lemma count_insert {A} (p : A → bool) l i x y :
  l !! i = Some x →
  count p (<[i := y]> l) = count p l - (if p x then 1 else 0) + (if p y then 1 else 0).
Proof.
  intros Hl. rewrite <- (take_drop_middle l i x Hl), insert_app_r_alt;
    (rewrite length_take; pose proof (lookup_lt_Some _ _ _ Hl)); [|lia].
  rewrite Nat.min_l, Nat.sub_diag by lia. simpl. rewrite !count_app, !count_cons. lia.
Qed.

Lemma count_delete {A} (p : A → bool) l i x :
  l !! i = Some x → count p (delete i l) = count p l - (if p x then 1 else 0).
Proof.
  intros Hl. rewrite <- (take_drop_middle l i x Hl) at 2. rewrite delete_take_drop, !count_app, count_cons. lia.
Qed.

Lemma count_filter {A} (p q : A → bool) l : count p (filterb q l) <= count p l.
Proof.
  induction l as [|x l IH]; [done|]. simpl. rewrite count_cons. pose proof (count_nonneg p l).
  destruct (q x); rewrite ?count_cons; [lia|destruct (p x); lia].
Qed.

Lemma count_mono {A} (p q : A → bool) l :
  (∀ x, p x = true → q x = true) → count p l <= count q l.
Proof.
  intros H. induction l as [|x l IH]; [done|]. rewrite !count_cons. specialize (H x).
  destruct (p x); [rewrite H by done; lia|destruct (q x); lia].
Qed.

Lemma count_filter_all {A} (p q : A → bool) l :
  (∀ x, p x = true → q x = true) → count p (filterb q l) = count p l.
Proof.
  intros H. induction l as [|x l IH]; [done|]. simpl. rewrite count_cons. specialize (H x).
  destruct (q x) eqn:E; rewrite ?count_cons, IH; [done|]. destruct (p x); [naive_solver|lia].
Qed.

(** A change of one row that keeps the test keeps what is found. *)
Lemma findi_alter {A} (p : A → bool) (f : A → A) l j :
  (∀ x, p (f x) = p x) →
  findi p (alter f j l)
  = match findi p l with Some (i, x) => Some (i, if (i =? j)%nat then f x else x) | None => None end.
Proof.
  intros Hp. revert j; induction l as [|x l IH]; intros [|j]; simpl; try done.
  - rewrite Hp. destruct (p x); [done|]. destruct (findi p l) as [[i y]|]; [|done]. done.
  - destruct (p x); [done|]. fold (alter f j l). change (list_alter f j l) with (alter f j l).
    rewrite IH. by destruct (findi p l) as [[i y]|].
Qed.

(** ** A restart *)

Lemma applyUserGroupDefaults_idem g : applyUserGroupDefaults (applyUserGroupDefaults g) = applyUserGroupDefaults g.
Proof.
  destruct g. unfold applyUserGroupDefaults. cbn -[TrimSpace SFleb]. f_equal.
  - destruct (is_empty (TrimSpace grpPlaceID)) eqn:E; [|by rewrite E]. rewrite TrimSpace_idem.
    by destruct (is_empty (TrimSpace grpBuildingID)).
  - destruct (SFleb grpGeofenceRestrictionRadius _) eqn:E; [done|]. by rewrite E.
Qed.

Lemma fmap_idem {A} (f : A → A) : (∀ x, f (f x) = f x) → ∀ l : list A, f <$> (f <$> l) = f <$> l.
Proof. intros Hf l. rewrite <- list_fmap_compose. apply list_fmap_ext. intros i x _. apply Hf. Qed.

(** The service after a start on the store of another, with [fresh] what
    [NewService] sets up. *)
Definition restarted (fresh s : Service) : Service :=
  exec restoreFromStateStore (fresh <| stateStore := stateStore s |>).

(** C36: after a save, a restart has the users, policies, shares, passes and guests, and the
    deliveries and groups as they are handed out; the roles, teams, memberships,
    links, spaces and bookings too unless there were none of a kind, in which case
    those set up at the start are back; what was kept of schedules, calendars,
    settings, elevators and imports is gone. *)
Theorem restart_restores fresh s s1 st :
  persistLocked s = (s1, Ok tt) → stateStore s1 = Some st →
  let r := restarted fresh s1 in
  (users r = users s ∧ policies r = policies s ∧ temporaryAccess r = temporaryAccess s
   ∧ visitorPasses r = visitorPasses s ∧ guests r = guests s
   ∧ userInvitationDeliveries r = cloneUserInvitationDelivery <$> userInvitationDeliveries s
   ∧ userGroups r = cloneUserGroup <$> userGroups s)
  ∧ (roleAssignments r = restored (roleAssignments fresh) (roleAssignments s)
     ∧ teams r = restored (teams fresh) (teams s)
     ∧ teamMemberships r = restored (teamMemberships fresh) (teamMemberships s)
     ∧ groupLinks r = restored (groupLinks fresh) (cloneGroupLink <$> groupLinks s)
     ∧ bookableSpaces r = restored (bookableSpaces fresh) (bookableSpaces s)
     ∧ bookings r = restored (bookings fresh) (bookings s)
     ∧ oauth2Clients r = restored (oauth2Clients fresh) (cloneOAuth2Client <$> oauth2Clients s))
  ∧ (schedules r = schedules fresh ∧ holidayCalendars r = holidayCalendars fresh
     ∧ organizationSettings r = organizationSettings fresh ∧ elevators r = elevators fresh
     ∧ elevatorStops r = elevatorStops fresh ∧ groupElevatorStops r = groupElevatorStops fresh
     ∧ groupTerminals r = groupTerminals fresh ∧ csvCardImports r = csvCardImports fresh).
Proof.
  intros Hp Hst. unfold persistLocked in Hp. rewrite bind_gets in Hp. unfold save in Hp.
  assert (stored st = Some (snapshot s)) as Hs.
  { destruct (stateStore s) as [[[|[] rs] o]|] eqn:E; injection Hp as <-; simpl in Hst; congruence || by injection Hst as <-. }
  unfold restarted, restoreFromStateStore. rewrite exec_gets. set (f := fresh <| stateStore := stateStore s1 |>).
  assert (stateStore f = Some st) as -> by exact Hst. rewrite Hs, exec_modify_last.
  split_and!; try reflexivity.
  - by apply (fmap_idem cloneUserInvitationDelivery).
  - by apply (fmap_idem cloneUserGroup), applyUserGroupDefaults_idem.
  - by apply (f_equal (restored (groupLinks fresh)) (fmap_idem cloneGroupLink ltac:(done) (groupLinks s))).
  - by apply (f_equal (restored (oauth2Clients fresh)) (fmap_idem cloneOAuth2Client ltac:(done) (oauth2Clients s))).
Qed.

#[local] Abbreviation ex_empty st :=
  (mkService [] [] [] [] [] [] [] [] [] [] [] [] [] [] [] [] [] [] [] [] [] [] ∅ st []).
#[local] Abbreviation ex_seed :=
  (mkRoleAssignment "ra_1" "t" "role_organization_admin" "Organization" "t" "User" "usr_1" "" "" "" [] [] "" "" "" 0 0).

(** The last role taken away comes back. *)
Lemma restart_restores_witness :
  let s := ex_empty (Some (mkStore [true] None)) in
  let fresh := (ex_empty None) <| roleAssignments := [ex_seed] |> in
  roleAssignments s = [] ∧ roleAssignments (restarted fresh (exec persistLocked s)) = [ex_seed].
Proof.
  split; [done|].
  destruct (restart_restores ((ex_empty None) <| roleAssignments := [ex_seed] |>) (ex_empty (Some (mkStore [true] None)))
    (exec persistLocked (ex_empty (Some (mkStore [true] None))))
    (mkStore [] (Some (snapshot (ex_empty (Some (mkStore [true] None))))))) as (_ & (H & _) & _); [done|done|].
  exact H.
Defined.
