(* ===== verification/Schedule.v ===== *)
(** * Access schedules (modules/access/service_schedules.go)

    Evaluation of a schedule at an instant (validity range, exception dates,
    holidays, weekly time windows) and the stores of schedules, holiday calendars
    and organization settings.  A [Clock] is a Go [time.Time]: an instant and the
    UTC offset of its location, which decides the date, weekday and hour. *)

From S2P Require Import Prelude GoStrings GoTime Bytes AccessData AccessState.
#[local] Open Scope Z_scope.

Record Clock := mkClock { instant : Z; offset : Z (* seconds east of UTC *) }.

(** Seconds of local time since the epoch. *)
Definition local (t : Clock) : Z := Unix (instant t) + offset t.
Definition Weekday (t : Clock) : Z := weekday_of_days (local t / seconds_per_day).
Definition Hour (t : Clock) : Z := local t mod seconds_per_day / 3600.
Definition Minute (t : Clock) : Z := local t mod seconds_per_day mod 3600 / 60.
Definition date_string (t : Clock) : string := format_date (local t / seconds_per_day).

(** ** Evaluation *)

(** The digits of a string read in base 10, other characters skipped; a Go [int]. *)
Fixpoint digits_acc (s : string) (n : Z) : Z :=
  match s with
  | EmptyString => n
  | String c s' => digits_acc s' (if is_digit c then wrap64 (n * 10 + (code c - 48)) else n)
  end.

(** -1 when there is no colon or the values are out of range. *)
Definition parseHHMM (s : string) : Z :=
  match SplitN2 (TrimSpace s) ":" with
  | None => -1
  | Some (h, m) =>
      let hour := digits_acc (TrimSpace h) 0 in
      let minute := digits_acc (TrimSpace m) 0 in
      if (23 <? hour) || (59 <? minute) then -1 else wrap64 (wrap64 (hour * 60) + minute)
  end.

Definition isoDay (weekday : Z) : Z := if weekday =? 0 then 7 else weekday.

Definition isDayInSet (weekday : Z) (daySet : string) : bool :=
  let normalized := ToLower (TrimSpace daySet) in
  if is_empty normalized || String.eqb normalized "all" || String.eqb normalized "everyday" then true
  else if String.eqb normalized "weekday" || String.eqb normalized "weekdays" then (1 <=? weekday) && (weekday <=? 5)
  else if String.eqb normalized "weekend" || String.eqb normalized "weekends" then (weekday =? 6) || (weekday =? 0)
  else existsb' (λ part, let d := TrimSpace part in negb (is_empty d) && (digits_acc d 0 =? isoDay weekday))
         (Split normalized ",").

Definition isInTimeWindow (now : Clock) (tw : TimeWindow) : bool :=
  if negb (isDayInSet (Weekday now) (DayOfWeekSet tw)) then false
  else
    let startTime := parseHHMM (StartTime tw) in
    let endTime := parseHHMM (EndTime tw) in
    if (startTime <? 0) || (endTime <? 0) then true
    else
      let currentMinutes := Hour now * 60 + Minute now in
      (startTime <=? currentMinutes) && (currentMinutes <? endTime).

(** [IsActive] and [Reason] of the [ScheduleEvaluation]. *)
Definition EvaluateSchedule (now : Clock) (validFrom validUntil : string) (timeWindows : list TimeWindow)
    (exceptionDates : list string) (holidays : list HolidayEntry) : bool * string :=
  if negb (is_empty validFrom)
     && match parse_rfc3339 validFrom with Some from => Before (instant now) from | None => false end
  then (false, "not_yet_valid")
  else if negb (is_empty validUntil)
     && match parse_rfc3339 validUntil with Some until => After (instant now) until | None => false end
  then (false, "expired")
  else
    let todayStr := date_string now in
    if existsb' (λ d, String.eqb (TrimSpace d) todayStr) exceptionDates then (false, "exception_date")
    else match findi (λ h, String.eqb (TrimSpace (Date h)) todayStr) holidays with
    | Some (_, h) => (false, "holiday:" +:+ HolidayName h)
    | None =>
        if Nat.ltb 0 (length timeWindows) && negb (existsb' (isInTimeWindow now) timeWindows)
        then (false, "outside_time_window")
        else (true, "active")
    end.

(** ** Stores *)

(** [_ = s.persistLocked()] *)
Definition persist_ignored : m unit := ignore_err persistLocked.

(** A new value unless it is blank. *)
Definition or_keep (v old : string) : string := let v := TrimSpace v in if is_empty v then old else v.

Definition normalizeHolidayEntries (entries : list HolidayEntry) : list HolidayEntry :=
  omap (λ e, let date := TrimSpace (Date e) in
             if is_empty date then None
             else Some (mkHoliday date (TrimSpace (HolidayName e)) (TrimSpace (HolidayDescription e)))) entries.

Definition normalizeExceptionDates (dates : list string) : list string :=
  filterb (λ d, negb (is_empty d)) (TrimSpace <$> dates).

Definition ListHolidayCalendars (tenantID : string) (s : Service) : list HolidayCalendar :=
  list_rows (TrimSpace tenantID) s.

Definition GetHolidayCalendar (tenantID calendarID : string) : m HolidayCalendar :=
  '(_, c) ← look_any ErrHolidayCalendarNotFound (TrimSpace tenantID) (TrimSpace calendarID); mret c.

(** A failed read of random bytes is ignored and leaves zeros. *)
Definition CreateHolidayCalendar (now : Z) (tenantID name country : string) (entries : list HolidayEntry)
    : m HolidayCalendar :=
  let nextTenantID := TrimSpace tenantID in
  fail_if (is_empty nextTenantID) ErrTenantIDRequired ;;
  let nextName := TrimSpace name in
  fail_if (is_empty nextName) ErrHolidayCalendarNameRequired ;;
  idBytes ← try_op (rand_read 6);
  let cal := mkCalendar ("hcal_" +:+ hex_encode (default (repeat (chr 0) 6) idBytes)) nextTenantID nextName
               (TrimSpace country) (normalizeHolidayEntries entries) now in
  modify (fun s => s <| holidayCalendars ::= (fun l => (l ++ [cal])%list) |>) ;;
  persist_ignored ;;
  mret cal.

(** [entries] is [None] for a nil slice. *)
Definition UpdateHolidayCalendar (now : Z) (tenantID calendarID name country : string)
    (entries : option (list HolidayEntry)) : m HolidayCalendar :=
  '(i, c) ← look_any ErrHolidayCalendarNotFound (TrimSpace tenantID) (TrimSpace calendarID);
  let c' := mkCalendar (calID c) (calTenantID c) (or_keep name (calName c)) (or_keep country (Country c))
              (match entries with Some es => normalizeHolidayEntries es | None => Entries c end) now in
  put i c' ;;
  persist_ignored ;;
  mret c'.

Definition DeleteHolidayCalendar (tenantID calendarID : string) : m unit :=
  '(i, _) ← look_any (A:=HolidayCalendar) ErrHolidayCalendarNotFound (TrimSpace tenantID) (TrimSpace calendarID);
  remove (A:=HolidayCalendar) i ;;
  persist_ignored.

Definition ListSchedules (tenantID : string) (s : Service) : list Schedule :=
  list_rows (TrimSpace tenantID) s.

(** Look a schedule up by a non-blank id. *)
Definition find_schedule (tenantID scheduleID : string) : m (nat * Schedule) :=
  fail_if (is_empty (TrimSpace scheduleID)) ErrScheduleNotFound ;;
  look_any ErrScheduleNotFound (TrimSpace tenantID) (TrimSpace scheduleID).

Definition GetSchedule (tenantID scheduleID : string) : m Schedule :=
  '(_, c) ← find_schedule tenantID scheduleID; mret c.

Definition CreateSchedule (now : Z) (tenantID name description validFrom validUntil holidayCalendarID : string)
    (timeWindows : list TimeWindow) (exceptionDates : list string) : m Schedule :=
  let nextTenantID := TrimSpace tenantID in
  fail_if (is_empty nextTenantID) ErrTenantIDRequired ;;
  let nextName := TrimSpace name in
  fail_if (is_empty nextName) ErrScheduleNameRequired ;;
  id ← accessID "sched_";
  let schedule := mkSchedule id nextTenantID nextName (TrimSpace description) (TrimSpace validFrom)
    (TrimSpace validUntil) timeWindows (normalizeExceptionDates exceptionDates) (TrimSpace holidayCalendarID)
    now now in
  prepend schedule ;;
  persistLocked ;;
  mret schedule.

Definition UpdateSchedule (now : Z) (tenantID scheduleID name description validFrom validUntil
    holidayCalendarID : string) (timeWindows : option (list TimeWindow)) (exceptionDates : option (list string))
    : m Schedule :=
  '(i, c) ← find_schedule tenantID scheduleID;
  let c' := mkSchedule (ID c) (TenantID c) (or_keep name (Name c)) (or_keep description (Description c))
    (or_keep validFrom (ValidFrom c)) (or_keep validUntil (ValidUntil c))
    (default (TimeWindows c) timeWindows)
    (match exceptionDates with Some ds => normalizeExceptionDates ds | None => ExceptionDates c end)
    (or_keep holidayCalendarID (HolidayCalendarID c)) (CreatedAt c) now in
  put i c' ;;
  persistLocked ;;
  mret c'.

Definition DeleteSchedule (tenantID scheduleID : string) : m unit :=
  '(i, _) ← find_schedule tenantID scheduleID;
  remove (A:=Schedule) i ;;
  persistLocked.

(** ** Organization settings *)

Definition defaultOrganizationSettings (now : Z) (tenantID : string) : OrganizationSettings :=
  mkSettings tenantID "Mistyislet" "mistypass.local" "Asia/Jakarta" "support@mistypass.local"
    true true false false false "standard" 480 "" time_zero "active" now.

Definition GetOrganizationSettings (now : Z) (tenantID : string) (s : Service) : OrganizationSettings :=
  let t := TrimSpace tenantID in
  if is_empty t then defaultOrganizationSettings now t
  else default (defaultOrganizationSettings now t) (organizationSettings s !! t).

(** The pointer arguments of [UpdateOrganizationSettings]. *)
Record SettingsUpdate := mkUpdate {
  uName : option string; uPrimaryDomain : option string; uTimezone : option string; uSupportEmail : option string;
  uEmailNotifications : option bool; uPushNotifications : option bool; uWeeklyReports : option bool;
  uEnforceMFA : option bool; uWebAuthnEnabled : option bool; uPasswordPolicy : option string;
  uSessionTimeoutMinutes : option Z
}.

Definition apply_update (now : Z) (u : SettingsUpdate) (o : OrganizationSettings) : OrganizationSettings :=
  let str (v : option string) old := match v with Some x => TrimSpace x | None => old end in
  mkSettings (orgTenantID o) (str (uName u) (orgName o)) (str (uPrimaryDomain u) (PrimaryDomain o))
    (str (uTimezone u) (Timezone o)) (str (uSupportEmail u) (SupportEmail o))
    (default (EmailNotifications o) (uEmailNotifications u)) (default (PushNotifications o) (uPushNotifications u))
    (default (WeeklyReports o) (uWeeklyReports u)) (default (EnforceMFA o) (uEnforceMFA u))
    (default (WebAuthnEnabled o) (uWebAuthnEnabled u))
    (match uPasswordPolicy u with
     | Some p => let p := TrimSpace p in
                 if String.eqb p "standard" || String.eqb p "strict" then p else PasswordPolicy o
     | None => PasswordPolicy o
     end)
    (match uSessionTimeoutMinutes u with
     | Some m => if 0 <? m then m else SessionTimeoutMinutes o
     | None => SessionTimeoutMinutes o
     end)
    (WebhookSigningKey o) (WebhookRotatedAt o) (orgStatus o) now.

(** Change a tenant's settings, starting from the defaults when it has none. *)
Definition change_settings (now : Z) (tenantID : string) (f : OrganizationSettings → OrganizationSettings)
    : m OrganizationSettings :=
  let t := TrimSpace tenantID in
  fail_if (is_empty t) ErrTenantIDRequired ;;
  o ← gets (fun s => f (default (defaultOrganizationSettings now t) (organizationSettings s !! t)));
  modify (fun s => s <| organizationSettings ::= <[t := o]> |>) ;;
  persistLocked ;;
  mret o.

Definition UpdateOrganizationSettings (now : Z) (tenantID : string) (u : SettingsUpdate)
    : m OrganizationSettings :=
  change_settings now tenantID (apply_update now u).

Definition RotateWebhookSecret (now : Z) (tenantID : string) : m string :=
  fail_if (is_empty (TrimSpace tenantID)) ErrTenantIDRequired ;;
  secret ← rand_read 32;
  let newKey := hex_encode secret in
  change_settings now tenantID (fun o => o <| WebhookSigningKey := newKey |> <| WebhookRotatedAt := now |>
                                           <| orgUpdatedAt := now |>) ;;
  mret newKey.

Definition DisableOrganization (now : Z) (tenantID : string) : m unit :=
  change_settings now tenantID (fun o => o <| orgStatus := "disabled" |> <| orgUpdatedAt := now |>) ;;
  mret tt.

(** [TransferOrganization]: five of the tables move to the target tenant. *)
Definition TransferOrganization (now : Z) (sourceTenantID targetTenantID : string) : m unit :=
  let source := TrimSpace sourceTenantID in
  let target := TrimSpace targetTenantID in
  fail_if (is_empty source || is_empty target) ErrTenantIDRequired ;;
  fail_if (String.eqb source target) (ErrText "source and target tenant must be different") ;;
  let move t := if String.eqb t source then target else t in
  modify (fun s => s
    <| users ::= fmap (fun x => x <| usrTenantID ::= move |>) |>
    <| userGroups ::= fmap (fun x => x <| grpTenantID ::= move |>) |>
    <| policies ::= fmap (fun x => x <| polTenantID ::= move |>) |>
    <| userInvitationDeliveries ::= fmap (fun x => x <| invTenantID ::= move |>) |>
    <| roleAssignments ::= fmap (fun x => x <| raTenantID ::= move |>) |>
    <| organizationSettings ::= alter (fun o => o <| orgStatus := "transferred" |> <| orgUpdatedAt := now |>) source |>) ;;
  persistLocked.

(** ** What evaluation means *)

Definition valid_at (now : Clock) (validFrom validUntil : string) : Prop :=
  (∀ t, validFrom ≠ "" → parse_rfc3339 validFrom = Some t → t <= instant now)
  ∧ (∀ t, validUntil ≠ "" → parse_rfc3339 validUntil = Some t → instant now <= t).

Lemma schedule_active_spec now vf vu tws exs hols :
  fst (EvaluateSchedule now vf vu tws exs hols) = true ↔
  valid_at now vf vu
  ∧ (∀ d, d ∈ exs → TrimSpace d ≠ date_string now)
  ∧ (∀ h, h ∈ hols → TrimSpace (Date h) ≠ date_string now)
  ∧ (tws = [] ∨ ∃ tw, tw ∈ tws ∧ isInTimeWindow now tw = true).
Proof.
  unfold EvaluateSchedule, valid_at, is_empty.
  assert ((negb (String.eqb vf "") && match parse_rfc3339 vf with Some from => Before (instant now) from | None => false end = false)
    ↔ ∀ t, vf ≠ "" → parse_rfc3339 vf = Some t → t <= instant now) as Hvf.
  { unfold Before. destruct (String.eqb_spec vf ""); simpl; [naive_solver|].
    destruct (parse_rfc3339 vf) as [f|]; [|naive_solver]. rewrite Z.ltb_ge. naive_solver. }
  assert ((negb (String.eqb vu "") && match parse_rfc3339 vu with Some u => After (instant now) u | None => false end = false)
    ↔ ∀ t, vu ≠ "" → parse_rfc3339 vu = Some t → instant now <= t) as Hvu.
  { unfold After. destruct (String.eqb_spec vu ""); simpl; [naive_solver|].
    destruct (parse_rfc3339 vu) as [f|]; [|naive_solver]. rewrite Z.ltb_ge. naive_solver. }
  rewrite <- Hvf, <- Hvu. destruct (negb (String.eqb vf "") && _); [split; [done|by intros [[? _] _]]|].
  destruct (negb (String.eqb vu "") && _); [split; [done|by intros [[_ ?] _]]|]. cbv zeta.
  assert (existsb' (λ d, String.eqb (TrimSpace d) (date_string now)) exs = false
    ↔ ∀ d, d ∈ exs → TrimSpace d ≠ date_string now) as Hex.
  { rewrite existsb'_false. by setoid_rewrite String.eqb_neq. }
  rewrite <- Hex. destruct (existsb' _ exs); [split; [done|by intros (_ & ? & _)]|].
  assert (findi (λ h, String.eqb (TrimSpace (Date h)) (date_string now)) hols = None
    ↔ ∀ h, h ∈ hols → TrimSpace (Date h) ≠ date_string now) as Hh.
  { rewrite findi_None. by setoid_rewrite String.eqb_neq. }
  rewrite <- Hh. destruct (findi _ hols) as [[i h]|]; [split; [done|by intros (_ & _ & ? & _)]|].
  rewrite <- existsb'_true. destruct tws as [|tw tws]; simpl Nat.ltb; [simpl; naive_solver|].
  change (Nat.ltb 0 (length (tw :: tws))) with true. simpl andb.
  destruct (existsb' _ (tw :: tws)); simpl; naive_solver.
Qed.

(** When a schedule grants access.  Evaluation says active exactly when the
    instant is inside the validity range (ends that are not RFC 3339 instants are
    ignored), the local date is neither an exception date nor a holiday, and
    there are no time windows or the instant is in one of them. *)
Theorem schedule_active_exact now vf vu tws exs hols :
  fst (EvaluateSchedule now vf vu tws exs hols) = true ↔
  valid_at now vf vu
  ∧ (∀ d, d ∈ exs → TrimSpace d ≠ date_string now)
  ∧ (∀ h, h ∈ hols → TrimSpace (Date h) ≠ date_string now)
  ∧ (tws = [] ∨ ∃ tw, tw ∈ tws ∧ isInTimeWindow now tw = true).
Proof. apply schedule_active_spec. Qed.

Lemma clock_range t : 0 <= Hour t * 60 + Minute t < 1440.
Proof.
  unfold Hour, Minute. pose proof (Z.mod_pos_bound (local t) seconds_per_day ltac:(done)).
  set (x := local t mod seconds_per_day) in *. unfold seconds_per_day in *.
  pose proof (Z.mod_pos_bound x 3600 ltac:(lia)). pose proof (Z.div_mod x 3600 ltac:(lia)).
  set (y := x mod 3600) in *. pose proof (Z.div_mod y 60 ltac:(lia)). pose proof (Z.mod_pos_bound y 60 ltac:(lia)). lia.
Qed.

Lemma Weekday_range t : 0 <= Weekday t <= 6.
Proof. unfold Weekday, weekday_of_days. pose proof (Z.mod_pos_bound (local t / seconds_per_day + 4) 7 ltac:(lia)). lia. Qed.

(** A window is half-open and lies within one day.  A window with two
    readable times holds exactly on its days from start (included) to end
    (excluded); so a window that ends at or before its start, such as 22:00 to
    06:00, never holds, and neither its time zone nor anything else changes
    that. *)
Theorem window_half_open now tw :
  0 <= parseHHMM (StartTime tw) → 0 <= parseHHMM (EndTime tw) →
  (isInTimeWindow now tw = true ↔
     isDayInSet (Weekday now) (DayOfWeekSet tw) = true
     ∧ parseHHMM (StartTime tw) <= Hour now * 60 + Minute now < parseHHMM (EndTime tw))
  ∧ (parseHHMM (EndTime tw) <= parseHHMM (StartTime tw) → isInTimeWindow now tw = false).
Proof.
  intros Hs He. unfold isInTimeWindow. rewrite !(proj2 (Z.ltb_ge _ 0)) by done. simpl orb. cbv iota.
  destruct (isDayInSet _ _); simpl; [|naive_solver]. rewrite andb_true_iff, Z.leb_le, Z.ltb_lt. split; [naive_solver|].
  intros Hle. apply andb_false_iff. rewrite Z.leb_gt, Z.ltb_ge. lia.
Qed.

Lemma window_half_open_witness :
  ∀ now, isInTimeWindow now (mkWindow "22:00" "06:00" "all" "Asia/Jakarta") = false.
Proof.
  intros now. apply (window_half_open now (mkWindow "22:00" "06:00" "all" "Asia/Jakarta"));
    vm_compute; congruence.
Defined.

(** The windows of the two schedules the service is seeded with. *)
Definition office_hours : TimeWindow := mkWindow "07:00" "19:00" "Mon,Tue,Wed,Thu,Fri" "Asia/Jakarta".
Definition security_access : TimeWindow := mkWindow "00:00" "23:59" "Mon,Tue,Wed,Thu,Fri,Sat,Sun" "Asia/Jakarta".

(** The seeded schedules are never active.  Day names are not understood by
    the day check, which reads digits only, so at every instant, in every zone,
    "Office Hours" and "24/7 Security Access" evaluate to inactive. *)
Theorem seeded_never_active now exs hols :
  fst (EvaluateSchedule now "2026-01-01" "2026-12-31" [office_hours] exs hols) = false
  ∧ fst (EvaluateSchedule now "2026-01-01" "2026-12-31" [security_access] exs hols) = false.
Proof.
  assert (∀ tw, tw = office_hours ∨ tw = security_access → isInTimeWindow now tw = false) as Hf.
  { intros tw Htw. unfold isInTimeWindow. pose proof (Weekday_range now) as Hw.
    replace (isDayInSet (Weekday now) (DayOfWeekSet tw)) with false; [done|]. generalize dependent (Weekday now). intros w Hw.
    assert (w = 0 ∨ w = 1 ∨ w = 2 ∨ w = 3 ∨ w = 4 ∨ w = 5 ∨ w = 6) as Hc by lia.
    destruct Htw as [->| ->]; destruct Hc as [->|[->|[->|[->|[->|[->| ->]]]]]]; vm_compute; reflexivity. }
  split; apply not_true_is_false; rewrite schedule_active_spec; intros (_ & _ & _ & [?|(tw & Htw & Hin)]); try done;
    apply list_elem_of_singleton in Htw as ->; (rewrite Hf in Hin; [done|auto]).
Qed.
