(* ===== verification/Booking.v ===== *)
(** * Bookable spaces, bookings and OAuth2 clients (modules/access/service_bookings.go)

    The calls on spaces and bookings, with what they promise when only the
    regular ones are used: no more than the capacity of a space is booked at any
    instant ([capacity_respected]), the occupancy counts the bookings that are
    checked in ([occupancy_counts]); and what the others do to both. *)

From S2P Require Import Prelude GoStrings GoTime Bytes AccessData AccessState.
#[local] Open Scope string_scope.
#[local] Open Scope list_scope.
#[local] Open Scope Z_scope.

Definition is_one_of (l : list string) (x : string) : bool := existsb (String.eqb x) l.

(** ** Spaces *)

Definition ListBookableSpaces (tenantID : string) (s : Service) : list BookableSpace :=
  list_rows (TrimSpace tenantID) s.

(** The tenant is compared as it is given. *)
Definition GetBookableSpace (tenantID spaceID : string) : m BookableSpace :=
  '(_, sp) ← look_any ErrSpaceNotFound tenantID (TrimSpace spaceID); mret sp.

Definition validateSpaceType : string → bool := is_one_of ["meeting_room"; "prayer_room"; "phone_booth"; "custom"].
Definition validateCapacityMode : string → bool := is_one_of ["single_occupancy"; "limited_capacity"; "unlimited"].

Definition CreateBookableSpace (now : Z) (i : CreateBookableSpaceInput) : m BookableSpace :=
  let nextTenantID := TrimSpace (csiTenantID i) in
  fail_if (is_empty nextTenantID) ErrTenantIDRequired ;;
  let nextName := TrimSpace (csiName i) in
  fail_if (is_empty nextName) ErrSpaceNameRequired ;;
  let nextType := TrimSpace (ToLower (csiSpaceType i)) in
  fail_if (is_empty nextType) ErrSpaceTypeRequired ;;
  fail_if (negb (validateSpaceType nextType)) ErrInvalidSpaceType ;;
  let nextCapMode := TrimSpace (ToLower (csiCapacityMode i)) in
  let nextCapMode := if is_empty nextCapMode then "unlimited" else nextCapMode in
  fail_if (negb (validateCapacityMode nextCapMode)) ErrInvalidCapacityMode ;;
  id ← accessID "bsp_";
  let record := mkBookableSpace id nextTenantID nextName (TrimSpace (csiDescription i)) nextType nextCapMode
    (csiMaxCapacity i) 0 (TrimSpace (csiLockID i)) (csiRequiresBooking i) (csiEnabled i) now now in
  prepend record ;;
  persistLocked ;;
  mret record.

(** A pointer field of an update: checked and assigned when it is given.  The
    assignments made before a failed check stay. *)
Definition assign {T} (x : option T) (k : T → m unit) : m unit :=
  match x with Some v => k v | None => mret tt end.

Definition change_space (i : nat) (f : BookableSpace → BookableSpace) : m unit :=
  modify (fun s => s <| bookableSpaces ::= alter f i |>).

Definition UpdateBookableSpace (now : Z) (tenantID spaceID : string) (u : UpdateBookableSpaceInput)
    : m BookableSpace :=
  '(i, _) ← look_any (A:=BookableSpace) ErrSpaceNotFound tenantID (TrimSpace spaceID);
  assign (usiName u) (fun x =>
    let n := TrimSpace x in
    fail_if (is_empty n) ErrSpaceNameRequired ;; change_space i (fun sp => sp <| spName := n |>)) ;;
  assign (usiDescription u) (fun x => change_space i (fun sp => sp <| spDescription := TrimSpace x |>)) ;;
  assign (usiSpaceType u) (fun x =>
    let t := TrimSpace (ToLower x) in
    fail_if (negb (validateSpaceType t)) ErrInvalidSpaceType ;;
    change_space i (fun sp => sp <| spSpaceType := t |>)) ;;
  assign (usiCapacityMode u) (fun x =>
    let c := TrimSpace (ToLower x) in
    fail_if (negb (validateCapacityMode c)) ErrInvalidCapacityMode ;;
    change_space i (fun sp => sp <| spCapacityMode := c |>)) ;;
  assign (usiMaxCapacity u) (fun x => change_space i (fun sp => sp <| spMaxCapacity := x |>)) ;;
  assign (usiLockID u) (fun x => change_space i (fun sp => sp <| spLockID := TrimSpace x |>)) ;;
  assign (usiRequiresBooking u) (fun x => change_space i (fun sp => sp <| spRequiresBooking := x |>)) ;;
  assign (usiEnabled u) (fun x => change_space i (fun sp => sp <| spEnabled := x |>)) ;;
  change_space i (fun sp => sp <| spUpdatedAt := now |>) ;;
  persistLocked ;;
  found ← gets (fun s => bookableSpaces s !! i);
  match found with Some sp => mret sp | None => throw ErrSpaceNotFound end.

Definition DeleteBookableSpace (tenantID spaceID : string) : m unit :=
  '(i, _) ← look_any (A:=BookableSpace) ErrSpaceNotFound tenantID (TrimSpace spaceID);
  remove (A:=BookableSpace) i ;;
  persistLocked.

(** Confirmed or checked in. *)
Definition active (b : Booking) : bool := is_one_of ["confirmed"; "checked_in"] (bkStatus b).
(** A booking of the space of that id and tenant. *)
Definition of_space (spaceID tenantID : string) (b : Booking) : bool :=
  String.eqb (bkSpaceID b) spaceID && String.eqb (bkTenantID b) tenantID.

Definition GetBookableSpaceStatus (tenantID spaceID : string) : m BookableSpaceStatus :=
  let nextID := TrimSpace spaceID in
  '(_, found) ← look_any ErrSpaceNotFound tenantID nextID;
  bs ← gets bookings;
  mret (mkBookableSpaceStatus found (filterb (fun b => of_space nextID (spTenantID found) b && active b) bs)).

(** ** Bookings *)

Definition ListBookings (tenantID spaceID : string) (s : Service) : list Booking :=
  let filterSpaceID := TrimSpace spaceID in
  filterb (fun b => visible (TrimSpace tenantID) b
                    && (is_empty filterSpaceID || String.eqb (bkSpaceID b) filterSpaceID)) (bookings s).

Definition GetBooking (tenantID bookingID : string) : m Booking :=
  '(_, b) ← look_any ErrBookingNotFound tenantID (TrimSpace bookingID); mret b.

(** The times of a booking, when both can be read. *)
Definition span (b : Booking) : option (Z * Z) :=
  st ← parse_rfc3339 (bkStartTime b); en ← parse_rfc3339 (bkEndTime b); Some (st, en).

(** An active booking of the space whose time overlaps [startT] to [endT]. *)
Definition conflicts (spaceID tenantID : string) (startT endT : Z) (b : Booking) : bool :=
  of_space spaceID tenantID b && active b
  && match span b with Some (bStart, bEnd) => Before startT bEnd && After endT bStart | None => false end.

(** The check of the capacity mode. *)
Definition capacity_check (sp : BookableSpace) (overlapping : Z) : m unit :=
  if String.eqb (spCapacityMode sp) "single_occupancy" then fail_if (0 <? overlapping) ErrBookingTimeConflict
  else if String.eqb (spCapacityMode sp) "limited_capacity"
  then fail_if ((0 <? spMaxCapacity sp) && (spMaxCapacity sp <=? overlapping)) ErrSpaceAtCapacity
  else mret tt.

(** A time that can be read, or the error. *)
Definition parse_or (t : string) (e : access_err) : m Z :=
  match parse_rfc3339 t with Some x => mret x | None => throw e end.

Definition CreateBooking (now : Z) (i : CreateBookingInput) : m Booking :=
  let nextTenantID := TrimSpace (cbiTenantID i) in
  fail_if (is_empty nextTenantID) ErrTenantIDRequired ;;
  let nextSpaceID := TrimSpace (cbiSpaceID i) in
  fail_if (is_empty nextSpaceID) ErrBookingSpaceIDRequired ;;
  let nextUserID := TrimSpace (cbiUserID i) in
  fail_if (is_empty nextUserID) ErrBookingUserIDRequired ;;
  let nextStart := TrimSpace (cbiStartTime i) in
  fail_if (is_empty nextStart) ErrBookingStartTimeRequired ;;
  let nextEnd := TrimSpace (cbiEndTime i) in
  fail_if (is_empty nextEnd) ErrBookingEndTimeRequired ;;
  startT ← parse_or nextStart ErrBookingStartTimeRequired;
  endT ← parse_or nextEnd ErrBookingEndTimeRequired;
  fail_if (negb (After endT startT)) ErrBookingEndBeforeStart ;;
  found ← gets (fun s => findi (fun sp => String.eqb (spID sp) nextSpaceID
                                          && String.eqb (spTenantID sp) nextTenantID) (bookableSpaces s));
  match found with
  | None => throw ErrSpaceNotFound
  | Some (_, sp) =>
      overlapping ← gets (fun s => size_of (filterb (conflicts nextSpaceID nextTenantID startT endT) (bookings s)));
      capacity_check sp overlapping ;;
      id ← accessID "bkg_";
      let record := mkBooking id nextTenantID nextSpaceID nextUserID (TrimSpace (cbiUserName i))
        (TrimSpace (cbiTitle i)) nextStart nextEnd "confirmed" "" "" now now in
      prepend record ;;
      persistLocked ;;
      mret record
  end.

Definition change_booking (i : nat) (f : Booking → Booking) : m unit :=
  modify (fun s => s <| bookings ::= alter f i |>).
Definition booking_at (i : nat) : m Booking :=
  found ← gets (fun s => bookings s !! i);
  match found with Some b => mret b | None => throw ErrBookingNotFound end.

Definition booking_statuses : list string := ["confirmed"; "checked_in"; "completed"; "cancelled"; "no_show"].

(** The new times and status are not compared with other bookings. *)
Definition UpdateBooking (now : Z) (tenantID bookingID : string) (u : UpdateBookingInput) : m Booking :=
  '(i, _) ← look_any (A:=Booking) ErrBookingNotFound tenantID (TrimSpace bookingID);
  assign (ubiTitle u) (fun x => change_booking i (fun b => b <| bkTitle := TrimSpace x |>)) ;;
  assign (ubiStartTime u) (fun x =>
    parse_or (TrimSpace x) ErrBookingStartTimeRequired ;;
    change_booking i (fun b => b <| bkStartTime := TrimSpace x |>)) ;;
  assign (ubiEndTime u) (fun x =>
    parse_or (TrimSpace x) ErrBookingEndTimeRequired ;;
    change_booking i (fun b => b <| bkEndTime := TrimSpace x |>)) ;;
  assign (ubiStatus u) (fun x =>
    let st := ToLower (TrimSpace x) in
    fail_if (negb (is_one_of booking_statuses st)) ErrBookingStatusInvalid ;;
    change_booking i (fun b => b <| bkStatus := st |>)) ;;
  b ← booking_at i;
  fail_if (match span b with Some (startT, endT) => negb (After endT startT) | None => false end)
    ErrBookingEndBeforeStart ;;
  change_booking i (fun b => b <| bkUpdatedAt := now |>) ;;
  persistLocked ;;
  booking_at i.

Definition DeleteBooking (tenantID bookingID : string) : m unit :=
  '(i, _) ← look_any (A:=Booking) ErrBookingNotFound tenantID (TrimSpace bookingID);
  remove (A:=Booking) i ;;
  persistLocked.

(** The first space of a booking's id and tenant. *)
Definition space_of (b : Booking) (sp : BookableSpace) : bool :=
  String.eqb (spID sp) (bkSpaceID b) && String.eqb (spTenantID sp) (bkTenantID b).
Definition on_space_of (b : Booking) (f : BookableSpace → BookableSpace) : m unit :=
  found ← gets (fun s => findi (space_of b) (bookableSpaces s));
  match found with Some (j, _) => change_space j f | None => mret tt end.

Definition CheckInBooking (now : Z) (tenantID bookingID : string) : m Booking :=
  '(i, b) ← look_any (A:=Booking) ErrBookingNotFound tenantID (TrimSpace bookingID);
  fail_if (String.eqb (bkStatus b) "checked_in") ErrBookingAlreadyCheckedIn ;;
  let b' := b <| bkStatus := "checked_in" |> <| bkCheckedInAt := format_rfc3339 now |> <| bkUpdatedAt := now |> in
  put i b' ;;
  on_space_of b' (fun sp => sp <| spCurrentOccupancy ::= (fun n => wrap64 (n + 1)) |> <| spUpdatedAt := now |>) ;;
  persistLocked ;;
  mret b'.

Definition CheckOutBooking (now : Z) (tenantID bookingID : string) : m Booking :=
  '(i, b) ← look_any (A:=Booking) ErrBookingNotFound tenantID (TrimSpace bookingID);
  fail_if (negb (String.eqb (bkStatus b) "checked_in")) ErrBookingNotCheckedIn ;;
  let b' := b <| bkStatus := "completed" |> <| bkCheckedOutAt := format_rfc3339 now |> <| bkUpdatedAt := now |> in
  put i b' ;;
  on_space_of b' (fun sp => sp <| spCurrentOccupancy ::= (fun n => if 0 <? n then n - 1 else n) |>
                              <| spUpdatedAt := now |>) ;;
  persistLocked ;;
  mret b'.

Definition terminal (b : Booking) : bool := is_one_of ["completed"; "cancelled"; "no_show"] (bkStatus b).
Definition stale (olderThan : Z) (b : Booking) : bool := terminal b && Before (bkUpdatedAt b) olderThan.

Definition CleanupOldBookings (olderThan : Z) : m Z :=
  bs ← gets bookings;
  let kept := filterb (fun b => negb (stale olderThan b)) bs in
  let removed := size_of (filterb (stale olderThan) bs) in
  if removed =? 0 then mret 0
  else
    modify (fun s => s <| bookings := kept |>) ;;
    ignore_err persistLocked ;;
    mret removed.

(** ** OAuth2 clients *)

Definition ListOAuth2Clients (tenantID : string) (s : Service) : list OAuth2Client :=
  filterb (fun c => String.eqb (ocTenantID c) tenantID) (oauth2Clients s).

Definition GetOAuth2Client (clientID : string) (s : Service) : option OAuth2Client :=
  snd <$> findi (fun c => String.eqb (ocID c) clientID) (oauth2Clients s).

Definition CreateOAuth2Client (client : OAuth2Client) : m unit :=
  fail_if (is_empty (TrimSpace (ocName client))) ErrOAuth2ClientNameRequired ;;
  fail_if (size_of (ocRedirectURIs client) =? 0) ErrOAuth2ClientRedirectURIRequired ;;
  modify (fun s => s <| oauth2Clients ::= (fun l => l ++ [client]) |>) ;;
  persistLocked.

(** The client of exactly that id and tenant. *)
Definition look_client (tenantID clientID : string) : m (nat * OAuth2Client) :=
  found ← gets (fun s => findi (fun c => String.eqb (ocID c) clientID && String.eqb (ocTenantID c) tenantID)
                           (oauth2Clients s));
  match found with Some r => mret r | None => throw ErrOAuth2ClientNotFound end.

Definition UpdateOAuth2Client (tenantID clientID : string) (updated : OAuth2Client) : m OAuth2Client :=
  '(i, _) ← look_client tenantID clientID;
  put i updated ;;
  persistLocked ;;
  mret updated.

Definition DeleteOAuth2Client (tenantID clientID : string) : m unit :=
  '(i, _) ← look_client tenantID clientID;
  remove (A:=OAuth2Client) i ;;
  persistLocked.

(** ** Regular use

    What one call does to the bookings and the spaces, leaving out what neither
    invariant depends on. *)

Definition key_of (spaceID tenantID : string) (sp : BookableSpace) : bool :=
  String.eqb (spID sp) spaceID && String.eqb (spTenantID sp) tenantID.
Definition checked_in (b : Booking) : bool := String.eqb (bkStatus b) "checked_in".

(** The bookings the mode of a space admits at one instant, if it bounds them. *)
Definition limit (sp : BookableSpace) : option Z :=
  if String.eqb (spCapacityMode sp) "single_occupancy" then Some 1
  else if String.eqb (spCapacityMode sp) "limited_capacity" && (0 <? spMaxCapacity sp)
  then Some (spMaxCapacity sp) else None.

(** An active booking of the space at the instant [t]. *)
Definition covers (spaceID tenantID : string) (t : Z) (b : Booking) : bool :=
  of_space spaceID tenantID b && active b
  && match span b with Some (st, en) => (st <=? t) && (t <? en) | None => false end.
Definition inside (spaceID tenantID : string) (b : Booking) : bool := of_space spaceID tenantID b && checked_in b.

(** The same space and times. *)
Definition moved (b b' : Booking) : Prop :=
  bkSpaceID b' = bkSpaceID b ∧ bkTenantID b' = bkTenantID b
  ∧ bkStartTime b' = bkStartTime b ∧ bkEndTime b' = bkEndTime b.

Definition on_first (b : Booking) (f : BookableSpace → BookableSpace) (sps : list BookableSpace) :=
  match findi (space_of b) sps with Some (j, _) => alter f j sps | None => sps end.
Definition entered (now : Z) (sp : BookableSpace) : BookableSpace :=
  sp <| spCurrentOccupancy ::= (fun n => wrap64 (n + 1)) |> <| spUpdatedAt := now |>.
Definition left_ (now : Z) (sp : BookableSpace) : BookableSpace :=
  sp <| spCurrentOccupancy ::= (fun n => if 0 <? n then n - 1 else n) |> <| spUpdatedAt := now |>.

Inductive effect (bs : list Booking) (sps : list BookableSpace) : list Booking → list BookableSpace → Prop :=
| eff_none : effect bs sps bs sps
| eff_book b sp j st en :
    findi (space_of b) sps = Some (j, sp) → bkStatus b = "confirmed" → span b = Some (st, en) →
    (∀ c, limit sp = Some c → count (conflicts (bkSpaceID b) (bkTenantID b) st en) bs < c) →
    effect bs sps (b :: bs) sps
| eff_enter now i b b' :
    bs !! i = Some b → moved b b' → bkStatus b = "confirmed" → bkStatus b' = "checked_in" →
    size_of bs < max_int64 →
    effect bs sps (<[i := b']> bs) (on_first b' (entered now) sps)
| eff_leave now i b b' :
    bs !! i = Some b → moved b b' → bkStatus b = "checked_in" → active b' = false →
    effect bs sps (<[i := b']> bs) (on_first b' (left_ now) sps)
| eff_change i b b' :
    bs !! i = Some b → moved b b' →
    (bkStatus b' = bkStatus b ∨ checked_in b = false ∧ active b' = false) →
    effect bs sps (<[i := b']> bs) sps
| eff_delete i b : bs !! i = Some b → checked_in b = false → effect bs sps (delete i bs) sps
| eff_filter keep : (∀ b, keep b = false → checked_in b = false) → effect bs sps (filterb keep bs) sps.

(** [tenantID] and [id] name it. *)
Definition named (tenantID id : string) (b : Booking) : bool :=
  String.eqb (item_id b) (TrimSpace id) && visible tenantID b.

(** The calls of an application that checks in confirmed bookings, checks out
    before it deletes, and updates titles or ends bookings nobody has checked in. *)
Inductive regular : Service → Service → Prop :=
| reg_create now i s : regular s (exec (CreateBooking now i) s)
| reg_check_in now tenantID id s :
    (∀ j b, findi (named tenantID id) (bookings s) = Some (j, b) → bkStatus b = "confirmed") →
    size_of (bookings s) < max_int64 →
    regular s (exec (CheckInBooking now tenantID id) s)
| reg_check_out now tenantID id s : regular s (exec (CheckOutBooking now tenantID id) s)
| reg_update now tenantID id u s :
    ubiStartTime u = None → ubiEndTime u = None →
    (∀ x, ubiStatus u = Some x → is_one_of ["completed"; "cancelled"; "no_show"] (ToLower (TrimSpace x)) = true) →
    (∀ j b, findi (named tenantID id) (bookings s) = Some (j, b) → checked_in b = false) →
    regular s (exec (UpdateBooking now tenantID id u) s)
| reg_delete tenantID id s :
    (∀ j b, findi (named tenantID id) (bookings s) = Some (j, b) → checked_in b = false) →
    regular s (exec (DeleteBooking tenantID id) s)
| reg_cleanup olderThan s : regular s (exec (CleanupOldBookings olderThan) s).

Definition view_effect (s s' : Service) : Prop :=
  effect (bookings s) (bookableSpaces s) (bookings s') (bookableSpaces s').

Lemma view_eq s s1 s2 :
  bookings s2 = bookings s1 → bookableSpaces s2 = bookableSpaces s1 → view_effect s s1 → view_effect s s2.
Proof. unfold view_effect. by intros -> ->. Qed.

Lemma exec_named {B} e tenantID id (f : nat * Booking → m B) s :
  exec (look_any e tenantID (TrimSpace id) ≫= f) s
  = match findi (named tenantID id) (bookings s) with Some r => exec (f r) s | None => s end.
Proof.
  unfold exec. rewrite bind_op_eq, look_any_run. unfold named. simpl. by destruct (findi _ (bookings s)).
Qed.

(** What follows a save does not depend on it. *)
Lemma view_persist {B} (f : unit → m B) s s1 :
  (∀ s2, exec (f tt) s2 = s2) → view_effect s s1 → view_effect s (exec (persistLocked ≫= f) s1).
Proof.
  intros Hf. apply view_eq; unfold exec in *; rewrite bind_op_eq;
    pose proof (persist_rows (A:=Booking) s1) as H1; pose proof (persist_rows (A:=BookableSpace) s1) as H2;
    unfold exec in *; simpl in *; destruct (persistLocked s1) as [s2 [[]|e]]; simpl in *; by rewrite ?Hf.
Qed.
Lemma view_persist_last s s1 : view_effect s s1 → view_effect s (exec persistLocked s1).
Proof. apply view_eq; [exact (persist_rows (A:=Booking) s1)|exact (persist_rows (A:=BookableSpace) s1)]. Qed.

Lemma exec_parse_or {B} t e (f : Z → m B) s :
  exec (parse_or t e ≫= f) s = match parse_rfc3339 t with Some x => exec (f x) s | None => s end.
Proof. unfold parse_or. by destruct (parse_rfc3339 t). Qed.
Lemma exec_capacity {B} sp n (f : unit → m B) s :
  exec (capacity_check sp n ≫= f) s
  = if match limit sp with Some c => c <=? n | None => false end then s else exec (f tt) s.
Proof.
  unfold capacity_check, limit. destruct (spCapacityMode sp =? "single_occupancy")%string.
  { rewrite exec_fail_if. assert (H : (0 <? n) = (1 <=? n)) by lia. by rewrite H. }
  destruct (_ =? _)%string; [|done]. rewrite exec_fail_if. simpl. by destruct (0 <? spMaxCapacity sp).
Qed.
#[local] Hint Rewrite @exec_parse_or @exec_capacity : exec_rw.

Lemma moved_of_space i t b b' : moved b b' → of_space i t b' = of_space i t b.
Proof. unfold of_space. by intros (-> & -> & _). Qed.
Lemma moved_span b b' : moved b b' → span b' = span b.
Proof. unfold span. by intros (_ & _ & -> & ->). Qed.

Lemma view_new p (mk : string → Booking) s :
  (∀ id, effect (bookings s) (bookableSpaces s) (mk id :: bookings s) (bookableSpaces s)) →
  view_effect s (exec (id ← accessID p; prepend (mk id) ;; persistLocked ;; mret (mk id)) s).
Proof.
  intros Hmk. match goal with |- context [accessID p ≫= ?f] =>
    destruct (exec_accessID p f s) as (s1 & Hs1 & [->|[id ->]]) end.
  - apply (view_eq s s); [exact (same_rows (A:=Booking) s s1 Hs1)|exact (same_rows (A:=BookableSpace) s s1 Hs1)|].
    apply eff_none.
  - unfold prepend. rewrite exec_modify. apply view_persist; [done|]. unfold view_effect.
    pose proof (same_rows (A:=Booking) s s1 Hs1) as Hb.
    pose proof (same_rows (A:=BookableSpace) s s1 Hs1) as Hsp. simpl in *. rewrite Hb, Hsp. apply Hmk.
Qed.

(** Run a handler up to its changes. *)
Ltac view_run :=
  cbv zeta;
  repeat first
    [ progress exec_run
    | match goal with
      | |- view_effect ?s ?s => apply eff_none
      | |- view_effect _ (match ?x with _ => _ end) => destruct x eqn:?
      | |- view_effect _ (exec (match ?x with _ => _ end) _) => destruct x eqn:?
      end ].

Lemma create_booking_effect now i s : view_effect s (exec (CreateBooking now i) s).
Proof.
  unfold CreateBooking. view_run.
  match goal with H : parse_rfc3339 (TrimSpace (cbiStartTime i)) = Some ?a,
                  H' : parse_rfc3339 (TrimSpace (cbiEndTime i)) = Some ?b |- _ =>
    apply view_new; intros id; eapply (eff_book _ _ _ _ _ a b); [eassumption|done| |];
    [unfold span; simpl; by rewrite H, H'|]
  end.
  intros c Hc. rewrite Hc in *. unfold count. simpl. lia.
Qed.

Lemma exec_on_space {B} b f (k : unit → m B) s :
  exec (on_space_of b f ≫= k) s = exec (k tt) (s <| bookableSpaces ::= on_first b f |>).
Proof.
  unfold on_space_of, on_first. unfold exec. rewrite !bind_op_eq. simpl.
  destruct (findi (space_of b) (bookableSpaces s)) as [[j sp]|]; [done|]. by destruct s.
Qed.
#[local] Hint Rewrite @exec_on_space @exec_named : exec_rw.

Lemma named_row tenantID id s i b : findi (named tenantID id) (bookings s) = Some (i, b) → bookings s !! i = Some b.
Proof. apply findi_lookup. Qed.

Lemma check_in_effect now tenantID id s :
  (∀ j b, findi (named tenantID id) (bookings s) = Some (j, b) → bkStatus b = "confirmed") →
  size_of (bookings s) < max_int64 →
  view_effect s (exec (CheckInBooking now tenantID id) s).
Proof.
  intros Hc Hn. unfold CheckInBooking, put. view_run. specialize (Hc n b eq_refl).
  apply view_persist; [done|]. eapply (eff_enter _ _ now n b); [by eapply named_row| |done| |done]; done.
Qed.

Lemma check_out_effect now tenantID id s : view_effect s (exec (CheckOutBooking now tenantID id) s).
Proof.
  unfold CheckOutBooking, put. view_run. apply view_persist; [done|]. boolp.
  eapply (eff_leave _ _ now n b); [by eapply named_row| |done|]; done.
Qed.

Lemma delete_effect tenantID id s :
  (∀ j b, findi (named tenantID id) (bookings s) = Some (j, b) → checked_in b = false) →
  view_effect s (exec (DeleteBooking tenantID id) s).
Proof.
  intros Hc. unfold DeleteBooking, remove. view_run. apply view_persist_last.
  eapply (eff_delete _ _ n b); [by eapply named_row|by eapply Hc].
Qed.

Lemma cleanup_effect older s : view_effect s (exec (CleanupOldBookings older) s).
Proof.
  unfold CleanupOldBookings. view_run.
  match goal with |- view_effect _ (exec (ignore_err persistLocked ;; _) ?s1) =>
    apply (view_eq s (exec persistLocked s1)); [done|done|] end.
  apply view_persist_last. apply (eff_filter _ _ (λ b, negb (stale older b))).
  intros b Hb. apply negb_false_iff in Hb. unfold stale, terminal, is_one_of in Hb. boolp.
  unfold checked_in. destruct (String.eqb_spec (bkStatus b) "checked_in") as [E|]; [|done].
  by rewrite E in *.
Qed.

Lemma pres_assign {T} P (x : option T) (k : T → m unit) :
  (∀ v, x = Some v → preserves P (k v)) → preserves P (assign x k).
Proof. destruct x as [v|]; intros H; [by apply H|apply pres_ret]. Qed.

(** Between the assignments of an update: row [i], which was [b], may have
    another title, and a status that ends it. *)
Definition updating (s : Service) (i : nat) (b : Booking) (s1 : Service) : Prop :=
  bookableSpaces s1 = bookableSpaces s ∧
  ∃ b', bookings s1 = <[i := b']> (bookings s) ∧ moved b b' ∧ (bkStatus b' = bkStatus b ∨ active b' = false).

Lemma updating_change s i b (f : Booking → Booking) :
  bookings s !! i = Some b → (∀ b', moved b' (f b')) →
  (∀ b', bkStatus (f b') = bkStatus b' ∨ active (f b') = false) →
  preserves (updating s i b) (change_booking i f).
Proof.
  intros Hi Hm Hst s1 (Hsp & b' & Hb & Hbm & Hbs). split; [done|]. exists (f b'). split_and!.
  - unfold change_booking. rewrite exec_modify_last. cbn. rewrite Hb.
    apply list_eq. intros k. destruct (decide (k = i)) as [->|Hk].
    + apply lookup_lt_Some in Hi. by rewrite list_lookup_alter_eq, !list_lookup_insert_eq.
    + by rewrite list_lookup_alter_ne, !list_lookup_insert_ne.
  - unfold moved in *. destruct (Hm b') as (? & ? & ? & ?), Hbm as (? & ? & ? & ?). split_and!; congruence.
  - destruct (Hst b') as [H|H]; [|by right]. unfold active in *. rewrite H. done.
Qed.

Lemma updating_persist s i b : preserves (updating s i b) persistLocked.
Proof.
  intros s1 (Hsp & b' & Hb & H). split.
  - rewrite <- Hsp. exact (persist_rows (A:=BookableSpace) s1).
  - exists b'. split; [|done]. rewrite <- Hb. exact (persist_rows (A:=Booking) s1).
Qed.

Lemma update_effect now tenantID id u s :
  ubiStartTime u = None → ubiEndTime u = None →
  (∀ x, ubiStatus u = Some x → is_one_of ["completed"; "cancelled"; "no_show"] (ToLower (TrimSpace x)) = true) →
  (∀ j b, findi (named tenantID id) (bookings s) = Some (j, b) → checked_in b = false) →
  view_effect s (exec (UpdateBooking now tenantID id u) s).
Proof.
  intros Hst Hen Hx Hc. unfold UpdateBooking. view_run. rewrite Hst, Hen.
  apply named_row in Heqo as Hi. specialize (Hc _ _ eq_refl).
  match goal with |- view_effect _ (exec ?m _) => assert (H : preserves (updating s n b) m) end.
  { pose proof (λ f, updating_change s n b f Hi) as Hch.
    apply pres_bind; [apply pres_assign; intros v _; apply Hch; [done|by left]|intros _]. simpl.
    apply pres_bind; [apply pres_ret|intros _]. apply pres_bind; [apply pres_ret|intros _].
    apply pres_bind; [apply pres_assign; intros v Hv|intros _].
    { apply pres_check. intros _. apply Hch; [done|]. intros b'. right. specialize (Hx v Hv).
      unfold active, is_one_of in *. cbn -[String.eqb] in *. boolp.
      destruct (String.eqb_spec (ToLower (TrimSpace v)) "completed") as [->|]; [done|].
      destruct (String.eqb_spec (ToLower (TrimSpace v)) "cancelled") as [->|]; [done|].
      destruct (String.eqb_spec (ToLower (TrimSpace v)) "no_show") as [->|]; [done|]. done. }
    unfold booking_at. pres_all; [apply Hch; [done|by left]|apply updating_persist]. }
  destruct (H s) as (Hsp & b' & Hb & Hm & Hs).
  { split; [done|]. exists b. rewrite list_insert_id by done. split_and!; [done..|by left]. }
  unfold view_effect. rewrite Hsp, Hb. apply (eff_change _ _ n b); [done|done|naive_solver].
Qed.

Lemma regular_effect s s' : regular s s' → view_effect s s'.
Proof.
  destruct 1; [apply create_booking_effect|by apply check_in_effect|apply check_out_effect
    |by apply update_effect|by apply delete_effect|apply cleanup_effect].
Qed.

(** ** The two invariants *)

Definition within_capacity (bs : list Booking) (sps : list BookableSpace) : Prop :=
  ∀ spaceID tenantID i sp c t,
    findi (key_of spaceID tenantID) sps = Some (i, sp) → limit sp = Some c →
    count (covers spaceID tenantID t) bs <= c.

Definition occupancy_exact (bs : list Booking) (sps : list BookableSpace) : Prop :=
  ∀ spaceID tenantID i sp,
    findi (key_of spaceID tenantID) sps = Some (i, sp) →
    spCurrentOccupancy sp = count (inside spaceID tenantID) bs.

(** The key of the space of [b] is the one changed. *)
Lemma on_first_findi b f sps spaceID tenantID :
  (∀ sp, spID (f sp) = spID sp) → (∀ sp, spTenantID (f sp) = spTenantID sp) →
  findi (key_of spaceID tenantID) (on_first b f sps)
  = match findi (key_of spaceID tenantID) sps with
    | Some (i, sp) => Some (i, if of_space spaceID tenantID b then f sp else sp)
    | None => None
    end.
Proof.
  intros Hid Htn. unfold on_first.
  assert (Hkey : ∀ i t x, key_of i t (f x) = key_of i t x) by (intros; unfold key_of; by rewrite Hid, Htn).
  destruct (of_space spaceID tenantID b) eqn:Hb.
  - unfold of_space in Hb. boolp. subst.
    change (space_of b) with (key_of (bkSpaceID b) (bkTenantID b)).
    destruct (findi _ sps) as [[j sp]|] eqn:Hf; [|by rewrite Hf].
    rewrite findi_alter, Hf by done. by rewrite Nat.eqb_refl.
  - destruct (findi (space_of b) sps) as [[j y]|] eqn:Hf; [|by destruct (findi (key_of _ _) sps) as [[??]|]].
    rewrite findi_alter by done. destruct (findi (key_of spaceID tenantID) sps) as [[i sp]|] eqn:Hk; [|done].
    destruct (Nat.eqb_spec i j) as [->|]; [|done].
    apply findi_lookup in Hf as Hlf. apply findi_lookup in Hk as Hlk. simplify_eq.
    apply findi_true in Hf, Hk. unfold space_of, key_of, of_space in *. boolp.
      apply andb_false_iff in Hb as [Hb|Hb]; boolp; congruence.
Qed.

Lemma entered_findi b now sps spaceID tenantID :
  findi (key_of spaceID tenantID) (on_first b (entered now) sps)
  = match findi (key_of spaceID tenantID) sps with
    | Some (i, sp) => Some (i, if of_space spaceID tenantID b then entered now sp else sp)
    | None => None
    end.
Proof. by apply on_first_findi. Qed.
Lemma left_findi b now sps spaceID tenantID :
  findi (key_of spaceID tenantID) (on_first b (left_ now) sps)
  = match findi (key_of spaceID tenantID) sps with
    | Some (i, sp) => Some (i, if of_space spaceID tenantID b then left_ now sp else sp)
    | None => None
    end.
Proof. by apply on_first_findi. Qed.

Lemma covers_moved i tn t b b' :
  moved b b' → (active b' = true → active b = true) → covers i tn t b' = true → covers i tn t b = true.
Proof.
  intros Hm Ha. unfold covers. rewrite (moved_of_space _ _ _ _ Hm), (moved_span _ _ Hm).
  intros [[H1 H2]%andb_true_iff H3]%andb_true_iff. by rewrite H1, Ha, H3.
Qed.

Lemma count_replace (p : Booking → bool) bs i b b' :
  bs !! i = Some b → (p b' = true → p b = true) → count p (<[i := b']> bs) <= count p bs.
Proof. intros Hi H. rewrite (count_insert _ _ _ b) by done. destruct (p b'), (p b); naive_solver lia. Qed.

(** A booking that covers an instant overlaps any other that does. *)
Lemma covers_conflicts b st en t b' :
  span b = Some (st, en) → covers (bkSpaceID b) (bkTenantID b) t b = true →
  covers (bkSpaceID b) (bkTenantID b) t b' = true →
  conflicts (bkSpaceID b) (bkTenantID b) st en b' = true.
Proof.
  unfold covers, conflicts. intros -> H H'. destruct (span b') as [[st' en']|]; cbv beta iota in *; boolp; [|done].
  match goal with H : of_space _ _ b' = true, Ha : active b' = true |- _ => rewrite H, Ha end.
  unfold Before, After. simpl. lia.
Qed.

Lemma effect_capacity bs sps bs' sps' :
  effect bs sps bs' sps' → within_capacity bs sps → within_capacity bs' sps'.
Proof.
  intros He Hw spaceID tenantID i sp c t Hf Hc.
  assert (Hle : (∀ sp', findi (key_of spaceID tenantID) sps = Some (i, sp') → limit sp' = Some c →
                  count (covers spaceID tenantID t) bs' <= c) → count (covers spaceID tenantID t) bs' <= c).
  { intros H. destruct He; try by eapply H.
    - rewrite entered_findi in Hf. destruct (findi _ sps) as [[k sp0]|]; [|done]. simplify_eq.
      apply (H sp0); [done|]. by destruct (of_space _ _ _).
    - rewrite left_findi in Hf. destruct (findi _ sps) as [[k sp0]|]; [|done]. simplify_eq.
      apply (H sp0); [done|]. by destruct (of_space _ _ _). }
  apply Hle. clear Hle Hf Hc. intros sp0 Hf Hc. specialize (Hw _ _ _ _ _ t Hf Hc).
  destruct He as [|b sp' j st en Hsp Hst Hspan Hn|now k b b' Hk Hm Hst Hst' _|now k b b' Hk Hm Hst Hst'
                 |k b b' Hk Hm Hst|k b Hk Hst|keep _]; [done|..].
  - rewrite count_cons. destruct (covers spaceID tenantID t b) eqn:Hcov; [|lia].
    assert (bkSpaceID b = spaceID ∧ bkTenantID b = tenantID) as [<- <-].
    { unfold covers, of_space in Hcov. by boolp. }
    change (space_of b) with (key_of (bkSpaceID b) (bkTenantID b)) in Hsp. simplify_eq.
    specialize (Hn c Hc). pose proof (count_mono _ _ bs (λ x, covers_conflicts b st en t x Hspan Hcov)). lia.
  - etransitivity; [|exact Hw]. apply (count_replace _ _ _ b); [done|]. apply covers_moved; [done|].
    unfold active. by rewrite Hst.
  - etransitivity; [|exact Hw]. apply (count_replace _ _ _ b); [done|]. apply covers_moved; [done|].
    by rewrite Hst'.
  - etransitivity; [|exact Hw]. apply (count_replace _ _ _ b); [done|]. apply covers_moved; [done|].
    unfold active in *. destruct Hst as [->|[_ ->]]; done.
  - rewrite (count_delete _ _ _ b) by done. destruct (covers _ _ _ b); lia.
  - pose proof (count_filter (covers spaceID tenantID t) keep bs). lia.
Qed.

Lemma not_active_not_in b : active b = false → checked_in b = false.
Proof.
  unfold active, checked_in, is_one_of. intros H.
  destruct (String.eqb_spec (bkStatus b) "checked_in") as [E|]; [|done]. by rewrite E in H.
Qed.

Lemma inside_moved i tn b b' :
  moved b b' → inside i tn b' = of_space i tn b && checked_in b'.
Proof. intros Hm. unfold inside. by rewrite (moved_of_space _ _ _ _ Hm). Qed.

Lemma count_size {A} (p : A → bool) l : count p l <= size_of l.
Proof. unfold count, size_of. pose proof (filterb_length p l). lia. Qed.

Lemma effect_occupancy bs sps bs' sps' :
  effect bs sps bs' sps' → occupancy_exact bs sps → occupancy_exact bs' sps'.
Proof.
  intros He Ho i tn j sp Hf.
  destruct He as [|b sp' j' st en Hsp Hst Hspan Hn|now k b b' Hk Hm Hst Hst' Hn|now k b b' Hk Hm Hst Hst'
                 |k b b' Hk Hm Hst|k b Hk Hst|keep Hkeep]; [by eapply Ho|..].
  - rewrite count_cons. unfold inside at 1, checked_in. rewrite Hst, andb_false_r. by eapply Ho.
  - rewrite entered_findi in Hf. destruct (findi _ sps) as [[j0 sp0]|] eqn:Hf0; [|done].
    rewrite (count_insert _ _ _ b) by done. rewrite (inside_moved _ _ _ _ Hm).
    specialize (Ho _ _ _ _ Hf0). pose proof (count_size (inside i tn) bs). pose proof (count_nonneg (inside i tn) bs).
    unfold inside at 2. unfold checked_in. rewrite Hst, Hst'. rewrite (moved_of_space _ _ _ _ Hm) in Hf.
    destruct (of_space i tn b); simplify_eq; simpl; [|lia].
    rewrite Ho, wrap64_small; unfold min_int64, max_int64 in *; lia.
  - rewrite left_findi in Hf. destruct (findi _ sps) as [[j0 sp0]|] eqn:Hf0; [|done].
    pose proof (count_delete (inside i tn) bs k b Hk) as Hd. pose proof (count_nonneg (inside i tn) (delete k bs)).
    rewrite (count_insert _ _ _ b) by done. rewrite (inside_moved _ _ _ _ Hm).
    specialize (Ho _ _ _ _ Hf0).
    assert (Hin : inside i tn b = of_space i tn b) by (unfold inside, checked_in; by rewrite Hst, andb_true_r).
    rewrite (not_active_not_in b' Hst'). rewrite Hin in *.
    rewrite (moved_of_space _ _ _ _ Hm) in Hf.
    destruct (of_space i tn b); simplify_eq; simpl in *; [|lia].
    rewrite Ho. destruct (Z.ltb_spec 0 (count (inside i tn) bs)); lia.
  - rewrite (count_insert _ _ _ b) by done. rewrite (inside_moved _ _ _ _ Hm), (Ho _ _ _ _ Hf).
    assert (checked_in b' = checked_in b) as ->; [|unfold inside; lia].
    destruct Hst as [Hst|[-> Hst]]; [unfold checked_in; by rewrite Hst|].
    by apply not_active_not_in.
  - rewrite (count_delete _ _ _ b) by done. unfold inside at 2. rewrite Hst, andb_false_r.
    rewrite (Ho _ _ _ _ Hf). lia.
  - rewrite (Ho _ _ _ _ Hf). symmetry. apply count_filter_all. intros b Hb.
    destruct (keep b) eqn:Hkb; [done|]. unfold inside in Hb. by rewrite (Hkeep _ Hkb), andb_false_r in Hb.
Qed.

(** An invariant of the effects holds after any number of regular calls. *)
Lemma rtc_view (P : list Booking → list BookableSpace → Prop) s s' :
  (∀ bs sps bs' sps', effect bs sps bs' sps' → P bs sps → P bs' sps') →
  rtc regular s s' → P (bookings s) (bookableSpaces s) → P (bookings s') (bookableSpaces s').
Proof. intros He. induction 1 as [|s s1 s' H%regular_effect _ IH]; [done|]. intros HP. by apply IH, (He _ _ _ _ H). Qed.

(** C33: whatever regular calls are made, in any order and with any answers of the store, no
    instant has more active bookings of a space than its mode admits: one under
    [single_occupancy], [MaxCapacity] under [limited_capacity]. *)
Theorem capacity_respected s s' :
  rtc regular s s' → within_capacity (bookings s) (bookableSpaces s) →
  within_capacity (bookings s') (bookableSpaces s').
Proof. apply rtc_view, effect_capacity. Qed.

(** Whatever regular calls are made, the occupancy of a space remains the number of
    its bookings that are checked in: it does not wrap and does not stop at zero. *)
Theorem occupancy_counts s s' :
  rtc regular s s' → occupancy_exact (bookings s) (bookableSpaces s) →
  occupancy_exact (bookings s') (bookableSpaces s').
Proof. apply rtc_view, effect_occupancy. Qed.

(** ** Examples *)

#[local] Abbreviation ex_space :=
  (mkBookableSpace "bsp_1" "t" "Booth" "" "phone_booth" "single_occupancy" 0 0 "" true true 0 0).
#[local] Abbreviation ex_service entropy :=
  (mkService [] [] [] [] [] [] [] [] [] [] [] [] [] [] [] [] [] [ex_space] [] [] [] [] ∅
     (Some (mkStore [] None)) entropy).
#[local] Abbreviation ex_chunks :=
  [chr <$> [0; 0; 0; 1]; chr <$> [0; 0; 0; 2]].
#[local] Abbreviation ex_input :=
  (mkCreateBookingInput "t" "bsp_1" "usr_1" "Ana" "" "2026-04-11T09:00:00Z" "2026-04-11T10:00:00Z").
#[local] Abbreviation ex_cancel := (mkUpdateBookingInput None None None (Some "cancelled")).
#[local] Abbreviation ex_noon := (match parse_rfc3339 "2026-04-11T09:30:00Z" with Some t => t | None => 0 end).

(** Booked, checked in, and the same slot refused to the next. *)
#[local] Abbreviation ex_booked := (exec (CreateBooking 1 ex_input) (ex_service ex_chunks)).
#[local] Abbreviation ex_entered := (exec (CheckInBooking 2 "t" "bkg_00000001") ex_booked).

Lemma ex_regular : rtc regular (ex_service ex_chunks) ex_entered.
Proof.
  eapply rtc_l; [apply (reg_create 1 ex_input)|]. eapply rtc_l; [|apply rtc_refl].
  apply reg_check_in; [|by vm_compute]. vm_compute. by intros j b [= <- <-].
Qed.

Lemma capacity_respected_witness :
  within_capacity (bookings ex_entered) (bookableSpaces ex_entered)
  ∧ answer (CreateBooking 3 ex_input) ex_entered = Err ErrBookingTimeConflict.
Proof.
  split; [|by vm_compute]. apply (capacity_respected _ _ ex_regular).
  intros i tn j sp c t. simpl. destruct (key_of _ _ _); [|done]. intros [= <- <-] [= <-]. done.
Defined.

Lemma occupancy_counts_witness :
  occupancy_exact (bookings ex_entered) (bookableSpaces ex_entered)
  ∧ (spCurrentOccupancy <$> bookableSpaces ex_entered) = [1].
Proof.
  split; [|by vm_compute]. apply (occupancy_counts _ _ ex_regular).
  intros i tn j sp. simpl. destruct (key_of _ _ _); [|done]. by intros [= <- <-].
Defined.

(** Outside regular use the guarantee fails: a booking is cancelled, its slot is given
    to another, and the first is then checked in; every call succeeds and a
    [single_occupancy] space has two active bookings at the same instant. *)
Theorem double_booking :
  let s1 := exec (CreateBooking 1 ex_input) (ex_service ex_chunks) in
  let s2 := exec (UpdateBooking 2 "t" "bkg_00000001" ex_cancel) s1 in
  let s3 := exec (CreateBooking 3 ex_input) s2 in
  is_ok (answer (CreateBooking 3 ex_input) s2) = true
  ∧ is_ok (answer (CheckInBooking 4 "t" "bkg_00000001") s3) = true
  ∧ count (covers "bsp_1" "t" ex_noon) (bookings (exec (CheckInBooking 4 "t" "bkg_00000001") s3)) = 2
  ∧ limit ex_space = Some 1.
Proof. by vm_compute. Qed.

(** Deleting a booking that is checked in leaves its place occupied. *)
Lemma occupancy_leak :
  let s := exec (DeleteBooking "t" "bkg_00000001") ex_entered in
  bookings s = [] ∧ (spCurrentOccupancy <$> bookableSpaces s) = [1].
Proof. by vm_compute. Qed.
