(* ===== verification/AccessUsers.v ===== *)
(** * Users and their invitations (modules/access/service_users.go)

    The calls on users: one at a time, in batches, by e-mail, and the CSV export
    and import.  The instant of a call is an argument; the calls that read the
    clock once per row take a function from the row to the instant. *)

From S2P Require Import Prelude GoStrings GoTime Bytes Rfc3339 Indexes AccessData AccessState.
#[local] Open Scope string_scope.
#[local] Open Scope list_scope.
#[local] Open Scope Z_scope.

(** ** One user *)

Definition ListUsers (tenantID : string) (s : Service) : list AccessUser := list_rows (TrimSpace tenantID) s.

Definition GetUser (tenantID userID : string) : m AccessUser :=
  let nextID := TrimSpace userID in
  fail_if (is_empty nextID) ErrUserNotFound ;;
  '(_, u) ← look ErrUserNotFound (TrimSpace tenantID) nextID; mret u.

Definition FindUserByEmail (tenantID email : string) (s : Service) : option AccessUser :=
  let nextEmail := normalizeEmail email in
  if is_empty nextEmail then None
  else snd <$> findi (fun u => visible (TrimSpace tenantID) u
                               && String.eqb (normalizeEmail (usrEmail u)) nextEmail) (users s).

(** What the calls that write a user require of its fields, and the values they
    store. *)
Record UserFields := mkUserFields {
  ufBuildingID : string; ufName : string; ufEmail : string; ufRole : string; ufStatus : string;
  ufGroupIDs : list string
}.

Definition normalizeRole (role : string) : string :=
  let r := ToLower (TrimSpace role) in if is_empty r then "employee" else r.

Definition user_fields (buildingID name email role status : string) (groupIDs : list string) : m UserFields :=
  let nextName := TrimSpace name in
  fail_if (is_empty nextName) ErrUserNameRequired ;;
  let nextEmail := normalizeEmail email in
  fail_if (is_empty nextEmail) ErrUserEmailRequired ;;
  nextStatus ← lift (normalizeUserStatus status);
  mret (mkUserFields (TrimSpace buildingID) nextName nextEmail (normalizeRole role) nextStatus (uniqueIDs groupIDs)).

Definition new_user (id tenantID : string) (f : UserFields) (syncSource syncRef : string) (now : Z) : AccessUser :=
  mkAccessUser id tenantID (ufBuildingID f) (ufName f) (ufEmail f) (ufRole f) (ufStatus f) (ufGroupIDs f)
    syncSource syncRef now.

Definition set_fields (f : UserFields) (u : AccessUser) : AccessUser :=
  u <| usrBuildingID := ufBuildingID f |> <| usrName := ufName f |> <| usrEmail := ufEmail f |>
    <| usrRole := ufRole f |> <| usrStatus := ufStatus f |> <| usrGroupIDs := ufGroupIDs f |>.

Definition CreateUser (now : Z) (tenantID buildingID name email role status : string) (groupIDs : list string)
    : m AccessUser :=
  let nextTenantID := TrimSpace tenantID in
  fail_if (is_empty nextTenantID) ErrTenantIDRequired ;;
  f ← user_fields buildingID name email role status groupIDs;
  id ← accessID "usr_";
  let record := new_user id nextTenantID f "" "" now in
  prepend record ;;
  persistLocked ;;
  mret record.

Definition UpdateUser (tenantID userID buildingID name email role status : string) (groupIDs : list string)
    : m AccessUser :=
  let nextID := TrimSpace userID in
  fail_if (is_empty nextID) ErrUserNotFound ;;
  f ← user_fields buildingID name email role status groupIDs;
  '(i, u) ← look ErrUserNotFound (TrimSpace tenantID) nextID;
  let u' := set_fields f u in
  put i u' ;;
  persistLocked ;;
  mret u'.

(** A reference of the given kind to one of the ids. *)
Definition refers (kind : string) (gone : string → bool) (type id : string) : bool :=
  EqualFold type kind && gone id.

(** The rows that name a user who is gone. *)
Definition drop_users (gone : string → bool) (s : Service) : Service :=
  s <| roleAssignments ::= filterb (fun a => negb (refers "User" gone (raAssigneeType a) (raAssigneeID a))) |>
    <| teamMemberships ::= filterb (fun t => negb (refers "User" gone (mbMemberType t) (mbMemberID t))) |>.

(** The groups come back through [cloneUserGroups]. *)
Definition DeleteUser (tenantID userID : string) : m AccessUser :=
  let nextID := TrimSpace userID in
  fail_if (is_empty nextID) ErrUserNotFound ;;
  '(i, removed) ← look (A:=AccessUser) ErrUserNotFound (TrimSpace tenantID) nextID;
  original ← gets (fun s => s);
  remove (A:=AccessUser) i ;;
  modify (fun s => s <| userGroups ::= fmap (fun g => g <| grpMembers ::= (fun l => removeID l nextID) |>) |>) ;;
  modify (drop_users (String.eqb nextID)) ;;
  persist_or (fun s => s <| users := users original |>
                         <| userGroups := cloneUserGroup <$> userGroups original |>
                         <| roleAssignments := roleAssignments original |>
                         <| teamMemberships := teamMemberships original |>) ;;
  mret removed.

(** ** Batches *)

(** The ids a batch names: [targetSet]. *)
Definition targetSet (userIDs : list string) : gset string := list_to_set (uniqueIDs userIDs).
Definition targeted (tenantID : string) (targets : gset string) (u : AccessUser) : bool :=
  String.eqb (usrTenantID u) tenantID && bool_decide (usrID u ∈ targets).
Definition ids_of (us : list AccessUser) : list string := usrID <$> us.
Definition set_size (X : gset string) : Z := Z.of_nat (size X).

Definition BatchUpdateUserStatus (tenantID : string) (userIDs : list string) (status : string)
    : m BatchUserStatusResult :=
  let filterTenantID := TrimSpace tenantID in
  fail_if (is_empty filterTenantID) ErrTenantIDRequired ;;
  fail_if (size_of userIDs =? 0) ErrUserIDsRequired ;;
  nextStatus ← lift (normalizeUserStatus status);
  let targets := targetSet userIDs in
  let hit := targeted filterTenantID targets in
  let stays u := EqualFold (usrStatus u) nextStatus in
  us ← gets users;
  let updatedIDs := ids_of (filterb (fun u => hit u && negb (stays u)) us) in
  let skipped := size_of (filterb (fun u => hit u && stays u) us) in
  let found : gset string := list_to_set (ids_of (filterb hit us)) in
  let notFound := set_size targets - set_size found in
  modify (fun s => s <| users ::= fmap (fun u => if hit u && negb (stays u) then u <| usrStatus := nextStatus |>
                                                 else u) |>) ;;
  when (0 <? size_of updatedIDs) persistLocked ;;
  mret (mkBatchUserStatusResult filterTenantID nextStatus (size_of updatedIDs) skipped notFound updatedIDs).

(** [for rid := range removedIDs]: the order is that of a range over a map. *)
Definition removeIDs `{!MapRange} (gone : gset string) (members : list string) : list string :=
  foldl removeID members (fst <$> range (gset_to_gmap tt gone)).

(** A failed save leaves the users removed. *)
Definition BatchDeleteUsers `{!MapRange} (tenantID : string) (userIDs : list string) : m BatchUserDeleteResult :=
  let filterTenantID := TrimSpace tenantID in
  fail_if (is_empty filterTenantID) ErrTenantIDRequired ;;
  fail_if (size_of userIDs =? 0) ErrUserIDsRequired ;;
  let targets := targetSet userIDs in
  let hit := targeted filterTenantID targets in
  us ← gets users;
  let deletedIDs := ids_of (filterb hit us) in
  let removedIDs : gset string := list_to_set deletedIDs in
  when (0 <? size_of deletedIDs)
    (modify (fun s => s <| users ::= filterb (fun u => negb (hit u)) |>
                        <| userGroups ::= fmap (fun g => g <| grpMembers ::= removeIDs removedIDs |>) |>) ;;
     modify (drop_users (fun id => bool_decide (id ∈ removedIDs))) ;;
     persistLocked) ;;
  mret (mkBatchUserDeleteResult filterTenantID (size_of deletedIDs)
          (set_size targets - size_of deletedIDs) deletedIDs).

(** ** Invitations *)

Definition ListUserInvitationDeliveries (tenantID userID : string) (s : Service) : list UserInvitationDelivery :=
  let filterUserID := TrimSpace userID in
  cloneUserInvitationDelivery <$>
    filterb (fun d => visible (TrimSpace tenantID) d
                      && (is_empty filterUserID || String.eqb (invUserID d) filterUserID))
      (userInvitationDeliveries s).

Definition CreateUserInvitationDelivery (now : Z) (tenantID userID deliveryMethod : string)
    : m (UserInvitationDelivery * AccessUser) :=
  let nextUserID := TrimSpace userID in
  fail_if (is_empty nextUserID) ErrUserNotFound ;;
  nextMethod ← lift (normalizeUserInvitationDeliveryMethod deliveryMethod);
  id ← accessID "user_invite_";
  '(_, user) ← look (A:=AccessUser) ErrUserNotFound (TrimSpace tenantID) nextUserID;
  let record := mkUserInvitationDelivery id "UserInvitationDelivery" (usrTenantID user) (usrID user)
    (usrEmail user) (usrBuildingID user) nextMethod "queued" "" "" "" false now None now in
  prepend record ;;
  persistLocked ;;
  mret (cloneUserInvitationDelivery record, user).

(** The first delivery of that id and user; another tenant's ends the search. *)
Definition look_delivery (tenantID userID deliveryID : string) : m (nat * UserInvitationDelivery) :=
  found ← gets (fun s => findi (fun d => String.eqb (invID d) deliveryID && String.eqb (invUserID d) userID)
                           (userInvitationDeliveries s));
  match found with
  | None => throw ErrUserInvitationDeliveryNotFound
  | Some (i, d) => fail_if (negb (visible tenantID d)) ErrUserInvitationDeliveryNotFound ;; mret (i, d)
  end.

Definition RecordUserInvitationReceipt (now : Z)
    (tenantID userID deliveryID status provider providerDeliveryID providerError : string) (retryable : bool)
    : m UserInvitationDelivery :=
  let nextUserID := TrimSpace userID in
  let nextDeliveryID := TrimSpace deliveryID in
  fail_if (is_empty nextUserID) ErrUserNotFound ;;
  fail_if (is_empty nextDeliveryID) ErrUserInvitationDeliveryNotFound ;;
  nextStatus ← lift (normalizeUserInvitationStatus status);
  '(i, d) ← look_delivery (TrimSpace tenantID) nextUserID nextDeliveryID;
  let d' := d <| invStatus := nextStatus |> <| invProvider := TrimSpace provider |>
              <| invProviderDeliveryID := TrimSpace providerDeliveryID |>
              <| invProviderError := TrimSpace providerError |> <| invRetryable := retryable |>
              <| invUpdatedAt := now |>
              <| invDeliveredAt ::= (fun t => if String.eqb nextStatus "sent" then Some now else t) |> in
  put i d' ;;
  persistLocked ;;
  mret (cloneUserInvitationDelivery d').

Definition GetInvitationDelivery (tenantID deliveryID : string) : m UserInvitationDelivery :=
  let nextDeliveryID := TrimSpace deliveryID in
  fail_if (is_empty nextDeliveryID) ErrUserInvitationDeliveryNotFound ;;
  '(_, d) ← look_any ErrUserInvitationDeliveryNotFound (TrimSpace tenantID) nextDeliveryID;
  mret (cloneUserInvitationDelivery d).

Definition CancelInvitationDelivery (now : Z) (tenantID deliveryID : string) : m UserInvitationDelivery :=
  let nextDeliveryID := TrimSpace deliveryID in
  fail_if (is_empty nextDeliveryID) ErrUserInvitationDeliveryNotFound ;;
  '(i, d) ← look_any ErrUserInvitationDeliveryNotFound (TrimSpace tenantID) nextDeliveryID;
  fail_if (String.eqb (invStatus d) "sent") (ErrText "cannot cancel a delivered invitation") ;;
  if String.eqb (invStatus d) "cancelled" then mret (cloneUserInvitationDelivery d)
  else
    let d' := d <| invStatus := "cancelled" |> <| invUpdatedAt := now |> in
    put i d' ;;
    persistLocked ;;
    mret (cloneUserInvitationDelivery d').

Definition ResendInvitationDelivery (now : Z) (tenantID deliveryID : string)
    : m (UserInvitationDelivery * AccessUser) :=
  let nextDeliveryID := TrimSpace deliveryID in
  fail_if (is_empty nextDeliveryID) ErrUserInvitationDeliveryNotFound ;;
  '(_, original) ← look_any (A:=UserInvitationDelivery) ErrUserInvitationDeliveryNotFound
                     (TrimSpace tenantID) nextDeliveryID;
  CreateUserInvitationDelivery now (invTenantID original) (invUserID original) (invDeliveryMethod original).

(** The loop over the users read at the start; [now] is the clock at each. *)
Fixpoint invite_each (now : nat → Z) (tenantID method : string) (us : list AccessUser) (i : nat)
    (queued : list string) (skipped : Z) : m (list string * Z) :=
  match us with
  | [] => mret (queued, skipped)
  | u :: us' =>
      if EqualFold (usrStatus u) "suspended" || EqualFold (usrStatus u) "disabled"
      then invite_each now tenantID method us' (S i) queued (skipped + 1)
      else
        sent ← try_op (CreateUserInvitationDelivery (now i) tenantID (usrID u) method);
        match sent with
        | Some _ => invite_each now tenantID method us' (S i) (queued ++ [usrID u]) skipped
        | None => invite_each now tenantID method us' (S i) queued (skipped + 1)
        end
  end.

Definition BatchInviteUsers (now : nat → Z) (tenantID : string) (userIDs : list string) (deliveryMethod : string)
    : m BatchUserInviteResult :=
  let filterTenantID := TrimSpace tenantID in
  fail_if (is_empty filterTenantID) ErrTenantIDRequired ;;
  fail_if (size_of userIDs =? 0) ErrUserIDsRequired ;;
  let nextMethod := ToLower (TrimSpace deliveryMethod) in
  let nextMethod := if is_empty nextMethod then "email" else nextMethod in
  fail_if (negb (String.eqb nextMethod "email") && negb (String.eqb nextMethod "email_qr")) ErrDeliveryMethodInvalid ;;
  let targets := targetSet userIDs in
  us ← gets users;
  let hits := filterb (targeted filterTenantID targets) us in
  let found : gset string := list_to_set (ids_of hits) in
  '(queued, skipped) ← invite_each now filterTenantID nextMethod hits 0 [] 0;
  mret (mkBatchUserInviteResult filterTenantID (size_of queued) skipped
          (set_size targets - set_size found) queued).

(** ** By e-mail *)

Definition UpsertUserByEmail (now : Z) (tenantID buildingID name email role status : string) (groupIDs : list string)
    : m (AccessUser * bool) :=
  let nextTenantID := TrimSpace tenantID in
  fail_if (is_empty nextTenantID) ErrTenantIDRequired ;;
  f ← user_fields buildingID name email role status groupIDs;
  found ← gets (fun s => findi (fun u => String.eqb (usrTenantID u) nextTenantID
                                         && String.eqb (normalizeEmail (usrEmail u)) (ufEmail f)) (users s));
  match found with
  | Some (i, u) =>
      let u' := set_fields f u in
      put i u' ;;
      persistLocked ;;
      mret (u', false)
  | None =>
      id ← accessID "usr_";
      let record := new_user id nextTenantID f "" "" now in
      prepend record ;;
      persistLocked ;;
      mret (record, true)
  end.

(** The loop of the CSV import: created, updated, failed. *)
Fixpoint import_each (now : nat → Z) (tenantID : string) (records : list UserImportRecord) (i : nat)
    (created updated errors : Z) : m (Z * Z * Z) :=
  match records with
  | [] => mret (created, updated, errors)
  | r :: records' =>
      let email := normalizeEmail (uirEmail r) in
      if is_empty email then import_each now tenantID records' (S i) created updated (errors + 1)
      else
        let name := TrimSpace (uirName r) in
        let name := if is_empty name then email else name in
        let role := normalizeRole (uirRole r) in
        let status := ToLower (TrimSpace (uirStatus r)) in
        let status := if is_empty status then "active" else status in
        done ← try_op (UpsertUserByEmail (now i) tenantID (TrimSpace (uirBuildingID r)) name email role status []);
        match done with
        | None => import_each now tenantID records' (S i) created updated (errors + 1)
        | Some (_, true) => import_each now tenantID records' (S i) (created + 1) updated errors
        | Some (_, false) => import_each now tenantID records' (S i) created (updated + 1) errors
        end
  end.

Definition ImportUsersCSV (now : nat → Z) (tenantID : string) (records : list UserImportRecord) : m UserImportResult :=
  let filterTenantID := TrimSpace tenantID in
  fail_if (is_empty filterTenantID) ErrTenantIDRequired ;;
  fail_if (size_of records =? 0) ErrUsersImportRecordsRequired ;;
  '(created, updated, errors) ← import_each now filterTenantID records 0 0 0 0;
  mret (mkUserImportResult filterTenantID created updated 0 errors).

(** ** Directory synchronisation *)

(** What the loop of [UpsertUsersByEmail] keeps beside the users: where the
    e-mails and the synchronisation keys of the tenant are, in the users that
    were there and in those it creates. *)
Record Upsert := mkUpsert {
  existingByEmail : gmap string nat; existingBySyncRef : gmap string nat;
  createdRecords : list AccessUser; createdByEmail : gmap string nat; createdBySyncRef : gmap string nat;
  created : Z; updated : Z; rejected : Z
}.
#[export] Instance eta_Upsert : Eta Upsert := λ a,
  mkUpsert (existingByEmail a) (existingBySyncRef a) (createdRecords a) (createdByEmail a) (createdBySyncRef a)
    (created a) (updated a) (rejected a).

Definition syncKey (u : AccessUser) : string := accessSyncIdentityKey (usrSyncSource u) (usrSyncRef u).

Fixpoint index_users (tenantID : string) (us : list AccessUser) (i : nat) (a : Upsert) : Upsert :=
  match us with
  | [] => a
  | u :: us' =>
      index_users tenantID us' (S i)
        (if String.eqb (usrTenantID u) tenantID
         then a <| existingByEmail ::= <[normalizeEmail (usrEmail u) := i]> |>
                <| existingBySyncRef ::= enter (syncKey u) i |>
         else a)
  end.

Definition sync_fields (f : UserFields) (key source ref : string) (u : AccessUser) : AccessUser :=
  let u' := set_fields f u in
  if is_empty key then u' else u' <| usrSyncSource := source |> <| usrSyncRef := ref |>.

(** A row with another synchronisation key. *)
Definition other_key (key : string) (u : AccessUser) : bool :=
  negb (is_empty key) && negb (is_empty (syncKey u)) && negb (String.eqb key (syncKey u)).

Definition reject (a : Upsert) : m Upsert := mret (a <| rejected ::= Z.add 1 |>).

(** One turn of the loop.  The rows the indexes name exist. *)
Definition upsert_one (now : Z) (tenantID : string) (a : Upsert) (i : BatchUpsertUserByEmailInput) : m Upsert :=
  let nextName := TrimSpace (biName i) in
  let nextEmail := normalizeEmail (biEmail i) in
  if is_empty nextName || is_empty nextEmail then reject a
  else match normalizeUserStatus (biStatus i) with
  | Err _ => reject a
  | Ok nextStatus =>
      let f := mkUserFields (TrimSpace (biBuildingID i)) nextName nextEmail (normalizeRole (biRole i)) nextStatus
                 (uniqueIDs (biGroupIDs i)) in
      let nextSyncSource := normalizeSyncSource (biSyncSource i) in
      let nextSyncRef := TrimSpace (biSyncRef i) in
      if negb (Bool.eqb (is_empty nextSyncSource) (is_empty nextSyncRef)) then reject a
      else
        let key := accessSyncIdentityKey nextSyncSource nextSyncRef in
        let by_key (idx : gmap string nat) := if is_empty key then None else idx !! key in
        us ← gets users;
        match target_of (by_key (existingBySyncRef a)) (by_key (createdBySyncRef a))
                (existingByEmail a !! nextEmail) (createdByEmail a !! nextEmail) with
        | Clash => reject a
        | CreatedRow j =>
            match createdRecords a !! j with
            | None => mret a
            | Some u =>
                if other_key key u then reject a
                else mret (a <| createdRecords := <[j := sync_fields f key nextSyncSource nextSyncRef u]> (createdRecords a) |>
                             <| createdBySyncRef ::= enter key j |>
                             <| createdByEmail ::= rekey (normalizeEmail (usrEmail u)) nextEmail j |>)
            end
        | ExistingRow j =>
            match us !! j with
            | None => mret a
            | Some u =>
                if other_key key u then reject a
                else
                  put j (sync_fields f key nextSyncSource nextSyncRef u) ;;
                  mret (a <| existingBySyncRef ::= enter key j |>
                          <| existingByEmail ::= rekey (normalizeEmail (usrEmail u)) nextEmail j |>
                          <| updated ::= Z.add 1 |>)
            end
        | NewRow =>
            id ← accessID "usr_";
            let j := length (createdRecords a) in
            mret (a <| createdRecords ::= (fun l => l ++ [new_user id tenantID f nextSyncSource nextSyncRef now]) |>
                    <| createdByEmail ::= <[nextEmail := j]> |>
                    <| createdBySyncRef ::= enter key j |>
                    <| created ::= Z.add 1 |>)
        end
  end.

Fixpoint upsert_each (now : nat → Z) (tenantID : string) (n : nat) (a : Upsert)
    (inputs : list BatchUpsertUserByEmailInput) : m Upsert :=
  match inputs with
  | [] => mret a
  | i :: inputs' => a' ← upsert_one (now n) tenantID a i; upsert_each now tenantID (S n) a' inputs'
  end.

(** [s.users = originalUsers] on an error. *)
Definition with_rollback {A} (original : list AccessUser) (k : m A) : m A := λ s,
  match k s with
  | (s', Ok x) => (s', Ok x)
  | (s', Err e) => (s' <| users := original |>, Err e)
  end.

Definition UpsertUsersByEmail (now : nat → Z) (tenantID : string) (inputs : list BatchUpsertUserByEmailInput)
    : m (Z * Z * Z) :=
  let nextTenantID := TrimSpace tenantID in
  fail_if (is_empty nextTenantID) ErrTenantIDRequired ;;
  match inputs with
  | [] => mret (0, 0, 0)
  | _ =>
      originalUsers ← gets users;
      with_rollback originalUsers (
        a ← upsert_each now nextTenantID 0
              (index_users nextTenantID originalUsers 0 (mkUpsert ∅ ∅ [] ∅ ∅ 0 0 0)) inputs;
        modify (fun s => s <| users ::= app (createdRecords a) |>) ;;
        when ((0 <? created a) || (0 <? updated a)) persistLocked ;;
        mret (created a, updated a, rejected a))
  end.

(** ** The CSV export *)

Definition quote : ascii := chr 34.
Definition quote_string : string := String quote "".
Definition newline : ascii := chr 10.

(** [strings.ContainsAny(s, chars)], for single bytes *)
Definition ContainsAny (s : string) (chars : list ascii) : bool :=
  existsb (fun c => existsb (Ascii.eqb c) chars) (String.list_ascii_of_string s).

(** [strings.ReplaceAll(s, old, new)] of one byte by a string *)
Fixpoint replace_all (s : string) (old : ascii) (new : string) : string :=
  match s with
  | EmptyString => ""
  | String c r => (if Ascii.eqb c old then new else String c "") +:+ replace_all r old new
  end.

Definition csvEscape (s : string) : string :=
  if ContainsAny s [","%char; quote; newline; chr 13]
  then quote_string +:+ replace_all s quote (quote_string +:+ quote_string) +:+ quote_string
  else s.

Definition csv_header : string := "id,name,email,role,status,building_id,sync_source,created_at" +:+ String newline "".

(** The values of one line, and the line. *)
Definition csv_values (u : AccessUser) : list string :=
  [usrID u; usrName u; usrEmail u; usrRole u; usrStatus u; usrBuildingID u; usrSyncSource u].
Definition csv_line (u : AccessUser) : string :=
  foldr (fun v rest => csvEscape v +:+ "," +:+ rest) (format_rfc3339 (usrCreatedAt u) +:+ String newline "")
    (csv_values u).

Definition ExportUsersCSV (tenantID : string) (s : Service) : result access_err string :=
  let filterTenantID := TrimSpace tenantID in
  if is_empty filterTenantID then Err ErrTenantIDRequired
  else Ok (csv_header +:+ foldr (fun u rest => csv_line u +:+ rest) ""
             (filterb (fun u => String.eqb (usrTenantID u) filterTenantID) (users s))).

(** ** Facts: the indexes of [UpsertUsersByEmail] *)

(** The key of a user of the tenant, if it has one. *)
Definition email_key (tenantID : string) (u : AccessUser) : option string :=
  if String.eqb (usrTenantID u) tenantID then Some (normalizeEmail (usrEmail u)) else None.
Definition sync_key (tenantID : string) (u : AccessUser) : option string :=
  if String.eqb (usrTenantID u) tenantID && negb (is_empty (syncKey u)) then Some (syncKey u) else None.

Lemma normalizeEmail_idem' e : normalizeEmail (normalizeEmail e) = normalizeEmail e.
Proof. unfold normalizeEmail. by rewrite TrimSpace_lower, ToLower_idem. Qed.

Section sync_fields.
Context (tn : string) (f : UserFields) (src ref : string).
Let key := accessSyncIdentityKey src ref.
Hypothesis Hemail : normalizeEmail (ufEmail f) = ufEmail f.
Implicit Types x : AccessUser.

Lemma email_key_put x : usrTenantID x = tn → email_key tn (sync_fields f key src ref x) = Some (ufEmail f).
Proof.
  intros Ht. unfold email_key, sync_fields. destruct (is_empty key); simpl; by rewrite Ht, String.eqb_refl, Hemail.
Qed.

Lemma sync_key_put x :
  usrTenantID x = tn →
  sync_key tn (sync_fields f key src ref x) = if is_empty key then sync_key tn x else Some key.
Proof.
  intros Ht. unfold sync_key, sync_fields. destruct (is_empty key) eqn:Hk; simpl; [done|].
  rewrite Ht, String.eqb_refl. unfold syncKey at 1 2. simpl. fold key. by rewrite Hk.
Qed.

Lemma rekey_spec idx l j x :
  index_ok (email_key tn) idx l → l !! j = Some x → usrTenantID x = tn →
  (idx !! ufEmail f = None ∨ idx !! ufEmail f = Some j) →
  index_ok (email_key tn) (rekey (normalizeEmail (usrEmail x)) (ufEmail f) j idx)
    (<[j := sync_fields f key src ref x]> l).
Proof.
  intros Hok Hj Ht Hn. eapply index_ok_put; [done..|]. intros k i. rewrite email_key_put by done.
  set (prev := normalizeEmail (usrEmail x)).
  assert (Hx : email_key tn x = Some prev) by (unfold email_key; by rewrite Ht, String.eqb_refl).
  assert (Hprev : idx !! prev = Some j) by (apply Hok; eauto).
  assert (Honly : idx !! k = Some j → k = prev) by (intros (z & Hz & Hk)%Hok; congruence).
  unfold rekey. rewrite bool_decide_true by done. rewrite andb_true_r.
  destruct (decide (k = ufEmail f)) as [->|Hk].
  - rewrite lookup_insert_eq. naive_solver.
  - rewrite lookup_insert_ne by done. destruct (String.eqb_spec prev (ufEmail f)) as [E|E]; simpl.
    + naive_solver.
    + destruct (decide (k = prev)) as [->|]; [rewrite lookup_delete_eq|rewrite lookup_delete_ne by done]; naive_solver.
Qed.

Lemma enter_spec idx l j x :
  index_ok (sync_key tn) idx l → l !! j = Some x → usrTenantID x = tn → other_key key x = false →
  (is_empty key = false → idx !! key = None ∨ idx !! key = Some j) →
  index_ok (sync_key tn) (enter key j idx) (<[j := sync_fields f key src ref x]> l).
Proof.
  intros Hok Hj Ht Ho Hn. eapply index_ok_put; [done..|]. intros k i. rewrite sync_key_put by done.
  assert (Honly : idx !! k = Some j ↔ sync_key tn x = Some k).
  { rewrite (Hok k j). naive_solver. }
  unfold enter. destruct (is_empty key) eqn:Hk.
  { destruct (decide (i = j)) as [->|]; naive_solver. }
  specialize (Hn eq_refl). unfold other_key in Ho. rewrite Hk in Ho. simpl in Ho.
  destruct (decide (k = key)) as [->|Hne]; [rewrite lookup_insert_eq; naive_solver|].
  rewrite lookup_insert_ne by done. split; [|naive_solver]. intros Hi. right. split; [|done].
  intros ->. apply Honly in Hi. unfold sync_key in Hi. rewrite Ht, String.eqb_refl in Hi. simpl in Hi.
  destruct (is_empty (syncKey x)); simpl in *; [done|]. boolp. congruence.
Qed.
End sync_fields.

(** The indexes of an [Upsert], and no key on both sides. *)
Definition Upsert_ok (tn : string) (us : list AccessUser) (a : Upsert) : Prop :=
  (index_ok (email_key tn) (existingByEmail a) us ∧ index_ok (sync_key tn) (existingBySyncRef a) us)
  ∧ (index_ok (email_key tn) (createdByEmail a) (createdRecords a)
     ∧ index_ok (sync_key tn) (createdBySyncRef a) (createdRecords a))
  ∧ (∀ k, existingByEmail a !! k = None ∨ createdByEmail a !! k = None)
  ∧ (∀ k, existingBySyncRef a !! k = None ∨ createdBySyncRef a !! k = None).

Lemma index_tenant tn (f := email_key tn) idx l k j : index_ok f idx l → idx !! k = Some j →
  ∃ x, l !! j = Some x ∧ usrTenantID x = tn.
Proof.
  intros Hok (x & Hx & Hk)%Hok. exists x. split; [done|]. unfold f, email_key in Hk.
  destruct (String.eqb_spec (usrTenantID x) tn); naive_solver.
Qed.
Lemma index_tenant_sync tn idx l k j : index_ok (sync_key tn) idx l → idx !! k = Some j →
  ∃ x, l !! j = Some x ∧ usrTenantID x = tn.
Proof.
  intros Hok (x & Hx & Hk)%Hok. exists x. split; [done|]. unfold sync_key in Hk.
  destruct (String.eqb_spec (usrTenantID x) tn); naive_solver.
Qed.

Lemma mret_inv {A} (x y : A) (s s' : Service) : (mret x : m A) s = (s', Ok y) → s' = s ∧ y = x.
Proof. by intros [= <- <-]. Qed.

(** An existing row takes the input. *)
Lemma existing_row_ok tn us a f src ref j x (key := accessSyncIdentityKey src ref) :
  Upsert_ok tn us a → normalizeEmail (ufEmail f) = ufEmail f → us !! j = Some x → usrTenantID x = tn →
  other_key key x = false →
  createdByEmail a !! ufEmail f = None → (is_empty key = false → createdBySyncRef a !! key = None) →
  (existingByEmail a !! ufEmail f = None ∨ existingByEmail a !! ufEmail f = Some j) →
  (is_empty key = false → existingBySyncRef a !! key = None ∨ existingBySyncRef a !! key = Some j) →
  Upsert_ok tn (<[j := sync_fields f key src ref x]> us)
    (a <| existingBySyncRef ::= enter key j |>
       <| existingByEmail ::= rekey (normalizeEmail (usrEmail x)) (ufEmail f) j |> <| updated ::= Z.add 1 |>).
Proof.
  intros ([He Hs] & Hcr & Hde & Hds) Hf Hj Ht Ho Hce Hcs Hee Hes. split; [|split; [exact Hcr|split; simpl; intros k]].
  - split; [by apply rekey_spec|by apply enter_spec].
  - destruct (decide (k = ufEmail f)) as [->|Hk]; [by right|].
    destruct (Hde k) as [H|H]; [left; by apply rekey_other|by right].
  - destruct (decide (k = key)) as [->|Hk].
    + destruct (is_empty key) eqn:Hke; [|right; by apply Hcs]. unfold enter. rewrite Hke. apply Hds.
    + destruct (Hds k) as [H|H]; [left; by apply enter_other|by right].
Qed.

(** A row the call has created takes it. *)
Lemma created_row_ok tn us a f src ref j x (key := accessSyncIdentityKey src ref) :
  Upsert_ok tn us a → normalizeEmail (ufEmail f) = ufEmail f → createdRecords a !! j = Some x → usrTenantID x = tn →
  other_key key x = false →
  existingByEmail a !! ufEmail f = None → (is_empty key = false → existingBySyncRef a !! key = None) →
  (createdByEmail a !! ufEmail f = None ∨ createdByEmail a !! ufEmail f = Some j) →
  (is_empty key = false → createdBySyncRef a !! key = None ∨ createdBySyncRef a !! key = Some j) →
  Upsert_ok tn us
    (a <| createdRecords := <[j := sync_fields f key src ref x]> (createdRecords a) |>
       <| createdBySyncRef ::= enter key j |>
       <| createdByEmail ::= rekey (normalizeEmail (usrEmail x)) (ufEmail f) j |>).
Proof.
  intros (Hex & [He Hs] & Hde & Hds) Hf Hj Ht Ho Hce Hcs Hee Hes. split; [exact Hex|split; [|split; simpl; intros k]].
  - split; [by apply rekey_spec|by apply enter_spec].
  - destruct (decide (k = ufEmail f)) as [->|Hk]; [by left|].
    destruct (Hde k) as [H|H]; [by left|right; by apply rekey_other].
  - destruct (decide (k = key)) as [->|Hk].
    + destruct (is_empty key) eqn:Hke; [|left; by apply Hcs]. unfold enter. rewrite Hke. apply Hds.
    + destruct (Hds k) as [H|H]; [by left|right; by apply enter_other].
Qed.

(** A row is created. *)
Lemma new_row_ok tn us a f src ref id now (key := accessSyncIdentityKey src ref) :
  Upsert_ok tn us a → normalizeEmail (ufEmail f) = ufEmail f →
  existingByEmail a !! ufEmail f = None → createdByEmail a !! ufEmail f = None →
  (is_empty key = false → existingBySyncRef a !! key = None ∧ createdBySyncRef a !! key = None) →
  Upsert_ok tn us
    (a <| createdRecords ::= (fun l => l ++ [new_user id tn f src ref now]) |>
       <| createdByEmail ::= <[ufEmail f := length (createdRecords a)]> |>
       <| createdBySyncRef ::= enter key (length (createdRecords a)) |> <| created ::= Z.add 1 |>).
Proof.
  intros (Hex & [He Hs] & Hde & Hds) Hf Hee Hce Hk. set (u := new_user id tn f src ref now).
  assert (Hu : email_key tn u = Some (ufEmail f)) by (unfold email_key; simpl; by rewrite String.eqb_refl, Hf).
  assert (Hv : sync_key tn u = if is_empty key then None else Some key).
  { unfold sync_key, syncKey. simpl. fold key. rewrite String.eqb_refl. by destruct (is_empty key). }
  split; [exact Hex|split; [split|split; simpl; intros k]].
  - pose proof (index_ok_snoc _ _ _ u He) as H. rewrite Hu in H. apply H. by intros k [= <-].
  - pose proof (index_ok_snoc _ _ _ u Hs) as H. rewrite Hv in H. simpl. unfold enter.
    destruct (is_empty key); apply H; [done|]. intros k [= <-]. by apply Hk.
  - destruct (decide (k = ufEmail f)) as [->|]; [by left|]. by rewrite lookup_insert_ne.
  - destruct (decide (k = key)) as [->|Hne].
    + destruct (is_empty key) eqn:Hke; [|left; by apply Hk]. unfold enter. rewrite Hke. apply Hds.
    + destruct (Hds k) as [H|H]; [by left|right; by apply enter_other].
Qed.

(** A turn keeps the indexes right. *)
Lemma upsert_one_ok now tn s a i s' a' :
  upsert_one now tn a i s = (s', Ok a') → Upsert_ok tn (users s) a → Upsert_ok tn (users s') a'.
Proof.
  unfold upsert_one, reject. intros Hrun Hok. pose proof Hok as ([He Hs] & [Hce Hcs] & Hde & Hds).
  case_match; [by apply mret_inv in Hrun as [-> ->]|]. destruct (normalizeUserStatus _) as [st|e]; [|by apply mret_inv in Hrun as [-> ->]].
  set (f := mkUserFields _ _ _ _ _ _) in *. set (src := normalizeSyncSource _) in *. set (ref := TrimSpace (biSyncRef i)) in *.
  case_match; [by apply mret_inv in Hrun as [-> ->]|]. rewrite bind_gets in Hrun.
  set (key := accessSyncIdentityKey src ref) in *.
  assert (Hf : normalizeEmail (ufEmail f) = ufEmail f) by apply normalizeEmail_idem'.
  change (normalizeEmail (biEmail i)) with (ufEmail f) in Hrun.
  pose proof (target_of_spec (if is_empty key then None else existingBySyncRef a !! key)
    (if is_empty key then None else createdBySyncRef a !! key) (existingByEmail a !! ufEmail f)
    (createdByEmail a !! ufEmail f) ltac:(destruct (is_empty key); auto) (Hde _)) as Hsp.
  destruct (target_of _ _ _ _) as [|j|j|].
  - destruct Hsp as (H1 & H2 & H3 & H4). rewrite bind_op_eq in Hrun.
    pose proof (accessID_tables "usr_" s) as Ht. unfold exec in Ht.
    destruct (accessID "usr_" s) as [s1 [id|e]]; [|done]. apply mret_inv in Hrun as [-> ->].
    pose proof (same_rows (A:=AccessUser) s s1 Ht) as Hu. simpl in Hu. rewrite Hu.
    apply new_row_ok; [done..|]. intros Hk. fold key in Hk. by rewrite Hk in H1, H2.
  - destruct Hsp as (H1 & H2 & H3 & H4 & H5).
    assert (∃ x, users s !! j = Some x ∧ usrTenantID x = tn) as (x & Hx & Ht).
    { destruct H3 as [H3|H3]; [destruct (is_empty key); [done|]; by eapply index_tenant_sync|by eapply index_tenant]. }
    rewrite Hx in Hrun. destruct (other_key key x) eqn:Ho; [by apply mret_inv in Hrun as [-> ->]|].
    apply mret_inv in Hrun as [-> ->]. apply existing_row_ok; try done.
    + intros Hk. fold key in Hk. by rewrite Hk in H1.
    + intros Hk. fold key in Hk. by rewrite Hk in H4.
  - destruct Hsp as (H1 & H2 & H3 & H4 & H5).
    assert (∃ x, createdRecords a !! j = Some x ∧ usrTenantID x = tn) as (x & Hx & Ht).
    { destruct H3 as [H3|H3]; [destruct (is_empty key); [done|]; by eapply index_tenant_sync|by eapply index_tenant]. }
    rewrite Hx in Hrun. destruct (other_key key x) eqn:Ho; [by apply mret_inv in Hrun as [-> ->]|].
    apply mret_inv in Hrun as [-> ->]. apply created_row_ok; try done.
    + intros Hk. fold key in Hk. by rewrite Hk in H1.
    + intros Hk. fold key in Hk. by rewrite Hk in H4.
  - by apply mret_inv in Hrun as [-> ->].
Qed.

Lemma upsert_each_ok now tn inputs n s a s' a' :
  upsert_each now tn n a inputs s = (s', Ok a') → Upsert_ok tn (users s) a → Upsert_ok tn (users s') a'.
Proof.
  revert n s a. induction inputs as [|i inputs IH]; simpl; intros n s a H Hok.
  { by apply mret_inv in H as [-> ->]. }
  apply bind_ok in H as (s1 & a1 & H1 & H). eapply IH; [exact H|]. by eapply upsert_one_ok.
Qed.

(** The indexes made at the start. *)
Lemma index_users_ok tn us pre a :
  unique (email_key tn) (pre ++ us) → unique (sync_key tn) (pre ++ us) →
  index_ok (email_key tn) (existingByEmail a) pre → index_ok (sync_key tn) (existingBySyncRef a) pre →
  let a' := index_users tn us (length pre) a in
  index_ok (email_key tn) (existingByEmail a') (pre ++ us) ∧ index_ok (sync_key tn) (existingBySyncRef a') (pre ++ us)
  ∧ createdRecords a' = createdRecords a ∧ createdByEmail a' = createdByEmail a ∧ createdBySyncRef a' = createdBySyncRef a.
Proof.
  revert pre a. induction us as [|u us IH]; simpl; intros pre a Hue Hus He Hs; [by rewrite app_nil_r|].
  assert (Hfresh : ∀ f idx k, unique f (pre ++ u :: us) → index_ok f idx pre → f u = Some k → idx !! k = None).
  { intros f idx k Hu Hok Hk. destruct (idx !! k) as [j|] eqn:Hj; [|done]. apply Hok in Hj as (x & Hx & Hfx).
    pose proof (lookup_lt_Some _ _ _ Hx). enough (j = length pre) by lia.
    eapply (Hu j _ x u k); [by rewrite lookup_app_l|by rewrite list_lookup_middle|done..]. }
  pose proof (index_ok_snoc _ _ _ u He (λ k, Hfresh _ _ k Hue He)) as He'.
  pose proof (index_ok_snoc _ _ _ u Hs (λ k, Hfresh _ _ k Hus Hs)) as Hs'.
  rewrite cons_middle, app_assoc in Hue, Hus |- *. replace (S (length pre)) with (length (pre ++ [u])) by (rewrite length_app; simpl; lia).
  match goal with |- context [index_users tn us _ ?a1] =>
    assert (Hb : index_ok (email_key tn) (existingByEmail a1) (pre ++ [u])
                 ∧ index_ok (sync_key tn) (existingBySyncRef a1) (pre ++ [u])) end.
  { unfold email_key at 2 in He'. unfold sync_key at 2 in Hs'. destruct (String.eqb (usrTenantID u) tn); simpl in *.
    - split; [done|]. unfold enter. by destruct (is_empty (syncKey u)).
    - by split. }
  destruct (IH _ _ Hue Hus (proj1 Hb) (proj2 Hb)) as (H1 & H2 & H3 & H4 & H5). split_and!; [done|done|..];
    [rewrite H3|rewrite H4|rewrite H5]; by destruct (String.eqb (usrTenantID u) tn).
Qed.

(** Everything but the users, the store and the random source. *)
Definition only_users (s s' : Service) : Prop := same_tables (s <| users := users s' |>) s'.

Lemma only_users_refl s : only_users s s.
Proof. by destruct s. Qed.  
(** Two states that agree on their fields. *)
Ltac fields_eq :=
  unfold only_users, same_tables in *; simpl in *;
  repeat match goal with H : mkService _ _ _ _ _ _ _ _ _ _ _ _ _ _ _ _ _ _ _ _ _ _ _ _ _ = _ |- _ => injection H; clear H; intros end;
  subst; done.

Lemma only_users_trans s s1 s2 : only_users s s1 → same_tables s1 s2 → only_users s s2.
Proof. intros H1 H2. destruct s, s1, s2. fields_eq. Qed.

Lemma upsert_one_only now tn a i s0 : preserves (only_users s0) (upsert_one now tn a i).
Proof.
  unfold upsert_one, reject. pres_all.
  - intros s H. eapply only_users_trans; [exact H|apply accessID_tables].
  - intros s H. unfold put. rewrite exec_modify_last. destruct s0, s. fields_eq.
Qed.

Lemma upsert_each_only now tn n a inputs s0 : preserves (only_users s0) (upsert_each now tn n a inputs).
Proof.
  revert n a. induction inputs as [|i inputs IH]; simpl; intros n a; [apply pres_ret|].
  apply pres_bind; [apply upsert_one_only|intros a'; apply IH].
Qed.

Definition keys_unique (tn : string) (us : list AccessUser) : Prop :=
  unique (email_key tn) us ∧ unique (sync_key tn) us.

(** A synchronisation of a tenant's directory, whatever its inputs and whether it succeeds
    or fails, keeps the e-mails of the tenant's users distinct, and their
    synchronisation keys too. *)
Theorem upsert_keeps_unique now tenantID inputs s :
  keys_unique (TrimSpace tenantID) (users s) →
  keys_unique (TrimSpace tenantID) (users (exec (UpsertUsersByEmail now tenantID inputs) s)).
Proof.
  intros [Hue Hus]. unfold UpsertUsersByEmail. rewrite exec_fail_if. destruct (is_empty _); [done|].
  destruct inputs as [|i0 inputs0]; [done|]. set (inputs := i0 :: inputs0). rewrite exec_gets. unfold exec, with_rollback.
  set (tn := TrimSpace tenantID) in *.
  rewrite bind_op_eq. destruct (upsert_each _ _ _ _ _ s) as [s1 [a|e]] eqn:He; [|done].
  apply upsert_each_ok in He.
  2:{ destruct (index_users_ok tn (users s) [] (mkUpsert ∅ ∅ [] ∅ ∅ 0 0 0) Hue Hus (index_ok_nil _) (index_ok_nil _))
        as (H1 & H2 & H3 & H4 & H5).
      simpl in *. unfold Upsert_ok. rewrite H3, H4, H5. split_and!; try done; try apply index_ok_nil; by right. }
  rewrite bind_modify, bind_op_eq. set (s2 := s1 <| users ::= app (createdRecords a) |>).
  assert (Hw : users (fst (when ((0 <? created a) || (0 <? updated a)) persistLocked s2)) = createdRecords a ++ users s1).
  { destruct (_ || _); [|done]. exact (persist_rows (A:=AccessUser) s2). }
  destruct (when _ _ s2) as [s3 [[]|e]]; simpl in *; [|done]. rewrite Hw.
  destruct He as ([He Hs] & [Hce Hcs] & Hde & Hds). split; eapply index_ok_app; try done; intros k.
  - destruct (Hde k); auto.
  - destruct (Hds k); auto.
Qed.

(** A synchronisation that fails, because no id could be drawn or the state could not be
    saved, leaves every table of the service as it was. *)
Theorem upsert_atomic now tenantID inputs s e :
  answer (UpsertUsersByEmail now tenantID inputs) s = Err e →
  same_tables s (exec (UpsertUsersByEmail now tenantID inputs) s).
Proof.
  unfold UpsertUsersByEmail, exec, answer. rewrite fail_if_bind. destruct (is_empty _); [intros _; apply service_eta|].
  destruct inputs as [|i0 inputs0]; [done|]. set (inputs := i0 :: inputs0). rewrite bind_gets. unfold with_rollback.
  match goal with |- context [match ?k s with _ => _ end] => assert (H : preserves (only_users s) k) end.
  { apply pres_bind; [apply upsert_each_only|intros a]. apply pres_bind.
    - apply pres_modify. intros s1 H. destruct s, s1. fields_eq.
    - intros _. apply pres_bind; [|intros _; apply pres_ret]. apply pres_when. intros _ s1 H.
      eapply only_users_trans; [exact H|apply persist_tables]. }
  specialize (H s (only_users_refl s)). unfold exec in H. match type of H with only_users _ (fst ?r) => destruct r as [s1 [x|e1]] end; [done|]. intros _. simpl in *.
  destruct s, s1. fields_eq.
Qed.

(** ** Facts: removing a user *)

Lemma unique_from_spec target seen values x :
  x ∈ unique_from target seen values → x ≠ target ∧ (x ∉ seen) ∧ is_empty x = false.
Proof.
  revert seen. induction values as [|v values IH]; simpl; intros seen; [by intros ?%elem_of_nil|].
  case_match; [by apply IH|]. rewrite elem_of_cons. boolp.
  assert (Hs : TrimSpace v ∉ seen).
  { intros Hin. rename select (existsb _ _ = false) into He.
    enough (existsb (String.eqb (TrimSpace v)) seen = true) by congruence.
    apply existsb_exists. exists (TrimSpace v). split; [by apply list_elem_of_In|apply String.eqb_refl]. }
  intros [->|Hx]; [done|]. apply IH in Hx as (? & Hn & ?). split_and!; [done| |done].
  intros ?. apply Hn. by apply elem_of_cons; right.
Qed.

Lemma removeID_gone values target : TrimSpace target = target → target ∉ removeID values target.
Proof. unfold removeID. intros -> (Hne & _)%unique_from_spec. done. Qed.

(** No row left by [drop_users] names the user. *)
Definition no_reference (id : string) (s : Service) : Prop :=
  (∀ g, g ∈ userGroups s → id ∉ grpMembers g)
  ∧ (∀ a, a ∈ roleAssignments s → EqualFold (raAssigneeType a) "User" = true → raAssigneeID a ≠ id)
  ∧ (∀ t, t ∈ teamMemberships s → EqualFold (mbMemberType t) "User" = true → mbMemberID t ≠ id).

(** Deleting a user takes one row, the first of that id, and with it every membership of a
    group, every role and every membership of a team that names the user; when the
    state cannot be saved the four tables come back, the groups normalised. *)
Theorem delete_user_all_or_nothing tenantID userID s :
  let s' := exec (DeleteUser tenantID userID) s in
  match answer (DeleteUser tenantID userID) s with
  | Ok u => no_reference (TrimSpace userID) s'
            ∧ ∃ i, users s !! i = Some u ∧ usrID u = TrimSpace userID ∧ visible (TrimSpace tenantID) u = true
                   ∧ users s' = delete i (users s)
  | Err _ => users s' = users s ∧ roleAssignments s' = roleAssignments s ∧ teamMemberships s' = teamMemberships s
             ∧ (userGroups s' = userGroups s ∨ userGroups s' = cloneUserGroup <$> userGroups s)
  end.
Proof.
  unfold exec, answer. destruct (DeleteUser tenantID userID s) as [s' r] eqn:H. simpl.
  unfold DeleteUser in H. rewrite fail_if_bind in H. destruct (is_empty _) eqn:Hid; [by simplify_eq; auto|].
  rewrite bind_op_eq in H.
  pose proof (look_state (A:=AccessUser) ErrUserNotFound (TrimSpace tenantID) (TrimSpace userID) s) as Hst.
  unfold exec in Hst. destruct (look _ _ _ s) as [s0 [[i u]|e]] eqn:Hl; simpl in Hst; subst s0; [|by simplify_eq; auto].
  apply look_answer in Hl as (Hu & Huid & Hv). unfold remove in H. rewrite bind_gets, !bind_modify, bind_op_eq in H.
  unfold persist_or in H. set (s1 := drop_users _ _) in *.
  pose proof (persist_rows (A:=UserGroup) s1) as H1. pose proof (persist_rows (A:=RoleAssignment) s1) as H2.
  pose proof (persist_rows (A:=TeamMembership) s1) as H3. pose proof (persist_rows (A:=AccessUser) s1) as H4.
  unfold exec in *. destruct (persistLocked s1) as [s2 [[]|e]]; [|injection H as <- <-; auto].
  injection H as <- <-. simpl in *. rewrite H4. split; [|by exists i]. split_and!.
  - rewrite H1. intros g (g0 & -> & _)%list_elem_of_fmap. apply removeID_gone, TrimSpace_idem.
  - rewrite H2. intros a [Ha _]%elem_of_filterb Ht He. unfold refers in Ha. by rewrite Ht, He, String.eqb_refl in Ha.
  - rewrite H3. intros a [Ha _]%elem_of_filterb Ht He. unfold refers in Ha. by rewrite Ht, He, String.eqb_refl in Ha.
Qed.

(** ** Facts: reading the export back

    [csv_read] reads the lines of RFC 4180: [quoted] within quotes, [cur] the
    field and [row] the line read so far. *)

Fixpoint csv_read (quoted : bool) (cur : string) (row : list string) (l : string) : list (list string) :=
  match l with
  | EmptyString => match row with [] => [] | _ => [row ++ [cur]] end
  | String c r =>
      if quoted then
        if Ascii.eqb c quote then
          match r with
          | String c' r' => if Ascii.eqb c' quote then csv_read true (cur +:+ quote_string) row r'
                            else csv_read false cur row r
          | EmptyString => csv_read false cur row r
          end
        else csv_read true (cur +:+ String c "") row r
      else if Ascii.eqb c quote && is_empty cur then csv_read true "" row r
      else if Ascii.eqb c "," then csv_read false "" (row ++ [cur]) r
      else if Ascii.eqb c newline then (row ++ [cur]) :: csv_read false "" [] r
      else csv_read false (cur +:+ String c "") row r
  end.

(** A value without the four characters reads as itself. *)
Definition plain (s : string) : bool := negb (ContainsAny s [","%char; quote; newline; chr 13]).

Lemma plain_cons c s : plain (String c s) = true →
  Ascii.eqb c "," = false ∧ Ascii.eqb c quote = false ∧ Ascii.eqb c newline = false ∧ plain s = true.
Proof.
  unfold plain, ContainsAny. rewrite !negb_true_iff. cbn [String.list_ascii_of_string existsb]. intros H.
  apply orb_false_iff in H as [H Hs]. repeat (apply orb_false_iff in H as [? H]). done.
Qed.

Lemma string_snoc_app a c b : (a +:+ String c "") +:+ b = a +:+ String c b.
Proof. by rewrite <- sapp_assoc. Qed.

Lemma read_plain v cur row rest :
  plain v = true →
  csv_read false cur row (v +:+ rest) = csv_read false (cur +:+ v) row rest.
Proof.
  intros Hp. revert cur. induction v as [|c v IH]; intros cur.
  { by rewrite sapp_nil_r. }
  apply plain_cons in Hp as (H1 & H2 & H3 & Hp). rewrite append_cons. cbn [csv_read]. rewrite H1, H2, H3. simpl.
  rewrite IH by done. by rewrite string_snoc_app.
Qed.

Lemma read_quoted v cur row rest :
  (∀ c r, rest = String c r → Ascii.eqb c quote = false) →
  csv_read true cur row (replace_all v quote (quote_string +:+ quote_string) +:+ quote_string +:+ rest)
  = csv_read false (cur +:+ v) row rest.
Proof.
  intros Hr. revert cur. induction v as [|c v IH]; intros cur.
  - change (csv_read true cur row (String quote rest) = csv_read false (cur +:+ "") row rest).
    rewrite sapp_nil_r. cbn [csv_read]. rewrite Ascii.eqb_refl.
    destruct rest as [|c r]; [done|]. by rewrite (Hr c r eq_refl).
  - cbn [replace_all]. destruct (Ascii.eqb_spec c quote) as [->|Hc].
    + match goal with |- context [replace_all v ?q ?n] =>
        change (csv_read true cur row (String quote (String quote (replace_all v q n +:+ quote_string +:+ rest)))
                = csv_read false (cur +:+ String quote v) row rest) end.
      cbn [csv_read]. rewrite Ascii.eqb_refl, IH. unfold quote_string. by rewrite string_snoc_app.
    + match goal with |- context [replace_all v ?q ?n] =>
        change (csv_read true cur row (String c (replace_all v q n +:+ quote_string +:+ rest))
                = csv_read false (cur +:+ String c v) row rest) end.
      cbn [csv_read]. apply Ascii.eqb_neq in Hc. rewrite Hc, IH. by rewrite string_snoc_app.
Qed.

(** A value as it is written, followed by a character that ends it. *)
Lemma read_escaped v row c rest :
  (c = ","%char ∨ c = newline) →
  csv_read false "" row (csvEscape v +:+ String c rest) = csv_read false v row (String c rest).
Proof.
  intros Hc. assert (Hq : Ascii.eqb c quote = false) by by destruct Hc as [-> | ->].
  unfold csvEscape. destruct (ContainsAny v _) eqn:Hp.
  - rewrite <- !sapp_assoc. change (quote_string +:+ ?x) with (String quote x). cbn [csv_read]. rewrite Ascii.eqb_refl. simpl.
    apply (read_quoted v "" row (String c rest)). by intros c' r' [= <- _].
  - apply (read_plain v "" row). unfold plain. by rewrite Hp.
Qed.

(** What [format_rfc3339] writes. *)
Lemma plain_chars s :
  all_chars (λ c, negb (existsb (Ascii.eqb c) [","%char; quote; newline; chr 13])) s = true → plain s = true.
Proof.
  unfold plain, ContainsAny. induction s as [|c s IH]; [done|]. cbn [all_chars String.list_ascii_of_string existsb].
  intros [Hc%negb_true_iff Hs]%andb_true_iff. cbn [existsb] in Hc. rewrite Hc. by apply IH.
Qed.
Lemma format_rfc3339_plain t : plain (format_rfc3339 t) = true.
Proof.
  apply plain_chars, format_rfc3339_chars; [|done]. intros k Hk. do 10 (destruct k as [|k]; [done|]). lia.
Qed.

Definition csv_row (u : AccessUser) : list string := csv_values u ++ [format_rfc3339 (usrCreatedAt u)].

Lemma read_line u rest : csv_read false "" [] (csv_line u +:+ rest) = csv_row u :: csv_read false "" [] rest.
Proof.
  unfold csv_line, csv_row. set (tl := format_rfc3339 _ +:+ _).
  assert (Hgo : ∀ vs row, csv_read false "" row (foldr (λ v r, csvEscape v +:+ "," +:+ r) tl vs +:+ rest)
                = (row ++ vs ++ [format_rfc3339 (usrCreatedAt u)]) :: csv_read false "" [] rest).
  { induction vs as [|v vs IH]; intros row; cbn [foldr].
    - rewrite app_nil_l. unfold tl. rewrite <- sapp_assoc. rewrite read_plain by apply format_rfc3339_plain.
      rewrite append_nil, append_cons, append_nil. done.
    - rewrite <- !sapp_assoc. rewrite !append_cons, append_nil. rewrite read_escaped by auto. cbn [csv_read].
      cbv beta iota delta [Ascii.eqb quote newline Bool.eqb andb]. rewrite IH. by rewrite <- app_assoc. }
  apply (Hgo (csv_values u) []).
Qed.

(** Reading the CSV export gives the header and one line per user of the tenant, in order,
    each with the values of the user, whatever commas, quotes and line ends they hold. *)
Theorem csv_reads_back tenantID s :
  match ExportUsersCSV tenantID s with
  | Ok out => csv_read false "" [] out
              = ["id"; "name"; "email"; "role"; "status"; "building_id"; "sync_source"; "created_at"]
                :: (csv_row <$> filterb (λ u, String.eqb (usrTenantID u) (TrimSpace tenantID)) (users s))
  | Err e => e = ErrTenantIDRequired ∧ TrimSpace tenantID = ""
  end.
Proof.
  unfold ExportUsersCSV. destruct (is_empty _) eqn:Ht; [split; [done|by apply String.eqb_eq]|].
  change (csv_read false "" [] (csv_header +:+ ?x))
    with (["id"; "name"; "email"; "role"; "status"; "building_id"; "sync_source"; "created_at"] :: csv_read false "" [] x).
  f_equal. induction (filterb _ _) as [|u us IH]; [done|]. cbn [foldr]. by rewrite read_line, IH.
Qed.

(** ** Examples *)

#[local] Abbreviation ex_ana := (mkAccessUser "usr_1" "t" "b" "Ana" "ana@x.io" "employee" "active" [] "scim" "1" 0).
#[local] Abbreviation ex_bob := (mkAccessUser "usr_2" "t" "b" "Bob" "bob@x.io" "employee" "active" [] "" "" 0).
#[local] Abbreviation ex_service reply entropy :=
  (mkService [ex_ana; ex_bob] [] [] [] [] [] [] [] [] [] [] [] [] [] [] [] [] [] [] [] [] [] ∅
     (Some (mkStore [reply] None)) entropy).
(** Ana's e-mail changes, Bob gets a key, and Cid is new. *)
#[local] Abbreviation ex_inputs :=
  [mkBatchUpsertUserByEmailInput "b" "Ana" "Ana@new.io" "" "" [] "SCIM" "1";
   mkBatchUpsertUserByEmailInput "b" "Bob" "bob@x.io" "" "" [] "scim" "2";
   mkBatchUpsertUserByEmailInput "b" "Cid" "ana@x.io" "" "" [] "scim" "3"].

Lemma ex_keys : keys_unique (TrimSpace "t") [ex_ana; ex_bob].
Proof.
  split; intros [|[|i]] [|[|j]] x y k Hx Hy Hfx Hfy; try done; simpl in Hx, Hy; simplify_eq;
    vm_compute in Hfx, Hfy; by simplify_eq.
Qed.

Lemma upsert_keeps_unique_witness :
  let s' := exec (UpsertUsersByEmail (λ _, 5) "t" ex_inputs) (ex_service true [chr <$> [0; 0; 0; 1]]) in
  keys_unique (TrimSpace "t") (users s')
  ∧ usrEmail <$> users s' = ["ana@x.io"; "ana@new.io"; "bob@x.io"]
  ∧ answer (UpsertUsersByEmail (λ _, 5) "t" ex_inputs) (ex_service true [chr <$> [0; 0; 0; 1]]) = Ok (1, 2, 0).
Proof.
  split; [apply (upsert_keeps_unique (λ _, 5) "t" ex_inputs (ex_service true [chr <$> [0; 0; 0; 1]])), ex_keys|].
  by vm_compute.
Defined.

Lemma upsert_atomic_witness :
  answer (UpsertUsersByEmail (λ _, 5) "t" ex_inputs) (ex_service false [chr <$> [0; 0; 0; 1]]) = Err ErrSave
  ∧ same_tables (ex_service false [chr <$> [0; 0; 0; 1]])
      (exec (UpsertUsersByEmail (λ _, 5) "t" ex_inputs) (ex_service false [chr <$> [0; 0; 0; 1]])).
Proof.
  split; [by vm_compute|].
  apply (upsert_atomic (λ _, 5) "t" ex_inputs (ex_service false [chr <$> [0; 0; 0; 1]]) ErrSave). by vm_compute.
Defined.
