(* ===== verification/AccessGroups.v ===== *)
(** * Groups, teams and group links (modules/access/service_users.go)

    The calls on groups, teams, memberships and the links that admit guests to a
    group, with the instants a link is valid in ([parseGroupLinkInstant]). *)

From S2P Require Import Prelude GoStrings GoTime Bytes AccessData AccessState.
#[local] Open Scope string_scope.
#[local] Open Scope list_scope.
#[local] Open Scope Z_scope.

(** ** Groups *)

Definition ListUserGroups (tenantID : string) (s : Service) : list UserGroup :=
  cloneUserGroup <$> list_rows (TrimSpace tenantID) s.

Definition GetUserGroup (tenantID groupID : string) : m UserGroup :=
  let nextID := TrimSpace groupID in
  fail_if (is_empty nextID) ErrUserGroupNotFound ;;
  '(_, g) ← look ErrUserGroupNotFound (TrimSpace tenantID) nextID; mret (cloneUserGroup g).

Definition CreateUserGroup (now : Z) (tenantID buildingID name description : string) (members : list string)
    : m UserGroup :=
  let nextTenantID := TrimSpace tenantID in
  fail_if (is_empty nextTenantID) ErrTenantIDRequired ;;
  let nextName := TrimSpace name in
  fail_if (is_empty nextName) ErrUserGroupNameRequired ;;
  id ← accessID "ug_";
  let record := mkUserGroup id "Group" nextTenantID (TrimSpace buildingID) (TrimSpace buildingID) nextName
    (TrimSpace description) true false float150 false false false false false "" (uniqueIDs members) 0 0 0 now now in
  prepend record ;;
  persistLocked ;;
  mret record.

Definition UpdateUserGroup (now : Z) (tenantID groupID buildingID name description : string) (members : list string)
    : m UserGroup :=
  let nextID := TrimSpace groupID in
  fail_if (is_empty nextID) ErrUserGroupNotFound ;;
  let nextName := TrimSpace name in
  fail_if (is_empty nextName) ErrUserGroupNameRequired ;;
  '(i, g) ← look ErrUserGroupNotFound (TrimSpace tenantID) nextID;
  let g' := g <| grpName := nextName |> <| grpBuildingID := TrimSpace buildingID |>
              <| grpPlaceID := TrimSpace buildingID |> <| grpDescription := TrimSpace description |>
              <| grpMembers := uniqueIDs members |> <| grpUpdatedAt := now |> in
  put i g' ;;
  persistLocked ;;
  mret (cloneUserGroup g').

(** What names a group: the lists of the users, the roles on it, its links. *)
Definition drop_group (id : string) (s : Service) : Service :=
  s <| users ::= fmap (fun u => u <| usrGroupIDs ::= (fun l => removeID l id) |>) |>
    <| roleAssignments ::= filterb (fun a => negb (String.eqb (raAppliesToType a) "Group"
                                                   && String.eqb (raAppliesToID a) id)) |>
    <| groupLinks ::= filterb (fun l => negb (String.eqb (glGroupID l) id)) |>.

Definition DeleteUserGroup (tenantID groupID : string) : m unit :=
  let nextID := TrimSpace groupID in
  fail_if (is_empty nextID) ErrUserGroupNotFound ;;
  '(i, _) ← look (A:=UserGroup) ErrUserGroupNotFound (TrimSpace tenantID) nextID;
  original ← gets (fun s => s);
  remove (A:=UserGroup) i ;;
  modify (drop_group nextID) ;;
  persist_or (fun s => s <| userGroups := cloneUserGroup <$> userGroups original |>
                         <| users := users original |>
                         <| roleAssignments := roleAssignments original |>
                         <| groupLinks := cloneGroupLink <$> groupLinks original |>).

(** A field of an update that may be left out. *)
Definition given_or {T} (x : option T) (old : T) : T := default old x.

Definition UpdateUserGroupRestrictions (now : Z) (tenantID groupID : string) (input : UserGroupRestrictionsInput)
    : m UserGroup :=
  let nextID := TrimSpace groupID in
  fail_if (is_empty nextID) ErrUserGroupNotFound ;;
  '(i, g) ← look ErrUserGroupNotFound (TrimSpace tenantID) nextID;
  let g' := applyUserGroupDefaults g
    <| grpLoginEnabled ::= given_or (griLoginEnabled input) |>
    <| grpGeofenceRestrictionEnabled ::= given_or (griGeofenceRestrictionEnabled input) |>
    <| grpGeofenceRestrictionRadius ::= given_or (griGeofenceRestrictionRadius input) |>
    <| grpPrimaryDeviceRestrictionEnabled ::= given_or (griPrimaryDeviceRestrictionEnabled input) |>
    <| grpManagedDeviceRestrictionEnabled ::= given_or (griManagedDeviceRestrictionEnabled input) |>
    <| grpReaderRestrictionEnabled ::= given_or (griReaderRestrictionEnabled input) |>
    <| grpTimeRestrictionEnabled ::= given_or (griTimeRestrictionEnabled input) |>
    <| grpTapToAccessRestrictionEnabled ::= given_or (griTapToAccessRestrictionEnabled input) |>
    <| grpTimeRestrictionTimeZone ::= given_or (TrimSpace <$> griTimeRestrictionTimeZone input) |>
    <| grpUpdatedAt := now |> in
  put i g' ;;
  persistLocked ;;
  mret (cloneUserGroup g').

(** ** Teams *)

Definition ListTeams (tenantID : string) (s : Service) : list Team := list_rows (TrimSpace tenantID) s.

Definition GetTeam (tenantID teamID : string) : m Team :=
  let nextID := TrimSpace teamID in
  fail_if (is_empty nextID) ErrTeamNotFound ;;
  '(_, t) ← look ErrTeamNotFound (TrimSpace tenantID) nextID; mret t.

Definition ListTeamMemberships (tenantID : string) (s : Service) : list TeamMembership :=
  list_rows (TrimSpace tenantID) s.

Definition team_place (scope placeID : string) : string :=
  if String.eqb scope "organization" then "" else TrimSpace placeID.

Definition CreateTeam (now : Z) (tenantID name scope placeID description source : string) : m Team :=
  let nextTenantID := TrimSpace tenantID in
  fail_if (is_empty nextTenantID) ErrTenantIDRequired ;;
  let nextName := TrimSpace name in
  fail_if (is_empty nextName) ErrTeamNameRequired ;;
  nextScope ← lift (normalizeTeamScope scope placeID);
  id ← accessID "team_";
  let record := mkTeam id "Team" nextTenantID nextName nextScope (team_place nextScope placeID)
    (TrimSpace description) (firstNonEmpty [TrimSpace source; "Manual"]) now now in
  prepend record ;;
  persistLocked ;;
  mret record.

Definition UpdateTeam (now : Z) (tenantID teamID name scope placeID description source : string) : m Team :=
  let nextID := TrimSpace teamID in
  fail_if (is_empty nextID) ErrTeamNotFound ;;
  let nextName := TrimSpace name in
  fail_if (is_empty nextName) ErrTeamNameRequired ;;
  nextScope ← lift (normalizeTeamScope scope placeID);
  '(i, t) ← look ErrTeamNotFound (TrimSpace tenantID) nextID;
  let t' := t <| tmName := nextName |> <| tmScope := nextScope |> <| tmPlaceID := team_place nextScope placeID |>
              <| tmDescription := TrimSpace description |>
              <| tmSource := firstNonEmpty [TrimSpace source; tmSource t; "Manual"] |> <| tmUpdatedAt := now |> in
  put i t' ;;
  persistLocked ;;
  mret t'.

Definition drop_team (id : string) (s : Service) : Service :=
  s <| teamMemberships ::= filterb (fun t => negb (String.eqb (mbTeamID t) id)) |>
    <| roleAssignments ::= filterb (fun a => negb (String.eqb (raAssigneeType a) "Team"
                                                   && String.eqb (raAssigneeID a) id)) |>.

Definition DeleteTeam (tenantID teamID : string) : m unit :=
  let nextID := TrimSpace teamID in
  fail_if (is_empty nextID) ErrTeamNotFound ;;
  '(i, _) ← look (A:=Team) ErrTeamNotFound (TrimSpace tenantID) nextID;
  original ← gets (fun s => s);
  remove (A:=Team) i ;;
  modify (drop_team nextID) ;;
  persist_or (fun s => s <| teams := teams original |> <| teamMemberships := teamMemberships original |>
                         <| roleAssignments := roleAssignments original |>).

(** The membership of that member in that team. *)
Definition same_member (tenantID teamID memberType memberID : string) (t : TeamMembership) : bool :=
  String.eqb (mbTenantID t) tenantID && String.eqb (mbTeamID t) teamID
  && String.eqb (mbMemberType t) memberType && String.eqb (mbMemberID t) memberID.

Definition CreateTeamMembership (now : Z) (tenantID teamID memberType memberID memberEmail memberName source : string)
    : m TeamMembership :=
  let nextTenantID := TrimSpace tenantID in
  fail_if (is_empty nextTenantID) ErrTenantIDRequired ;;
  let nextTeamID := TrimSpace teamID in
  fail_if (is_empty nextTeamID) ErrTeamIDRequired ;;
  nextMemberType ← lift (normalizeTeamMemberType memberType);
  let nextMemberID := TrimSpace memberID in
  fail_if (is_empty nextMemberID) ErrTeamMemberIDRequired ;;
  id ← accessID "tm_";
  let record := mkTeamMembership id "TeamMembership" nextTenantID nextTeamID nextMemberType nextMemberID
    (TrimSpace memberEmail) (TrimSpace memberName) (firstNonEmpty [TrimSpace source; "Manual"]) now now in
  ts ← gets teams;
  fail_if (negb (existsb' (fun t => String.eqb (tmID t) nextTeamID && String.eqb (tmTenantID t) nextTenantID) ts))
    ErrTeamNotFound ;;
  found ← gets (fun s => findi (same_member nextTenantID nextTeamID nextMemberType nextMemberID) (teamMemberships s));
  match found with
  | Some (i, t) =>
      let t' := t <| mbMemberEmail := mbMemberEmail record |> <| mbMemberName := mbMemberName record |>
                  <| mbSource := mbSource record |> <| mbUpdatedAt := now |> in
      put i t' ;;
      persistLocked ;;
      mret t'
  | None =>
      prepend record ;;
      persistLocked ;;
      mret record
  end.

Definition DeleteTeamMembership (tenantID membershipID : string) : m unit :=
  let nextID := TrimSpace membershipID in
  fail_if (is_empty nextID) ErrTeamMembershipNotFound ;;
  '(i, _) ← look (A:=TeamMembership) ErrTeamMembershipNotFound (TrimSpace tenantID) nextID;
  original ← gets teamMemberships;
  remove (A:=TeamMembership) i ;;
  persist_or (fun s => s <| teamMemberships := original |>).

(** ** Instants

    [time.Parse] with the layouts of [parseGroupLinkInstant]; those with
    fractions of a second accept what [time.RFC3339] does. *)

Definition parse_day (s : string) : option (Z * string) :=
  '(y, s) ← get_year s; s ← skip "-"%char s;
  '(mo, s) ← in_range 1 12 (getnum s true); s ← skip "-"%char s;
  '(d, s) ← getnum s true;
  if (d <? 1) || (days_in mo y <? d) then None else Some (days_from_civil y mo d, s).

(** A space in a layout: any number of them, one at least before other text. *)
Fixpoint cut_spaces (s : string) : string :=
  match s with String c r => if Ascii.eqb c " " then cut_spaces r else s | EmptyString => s end.
Definition skip_space (s : string) : option string :=
  match s with
  | EmptyString => Some ""
  | String c _ => if Ascii.eqb c " " then Some (cut_spaces s) else None
  end.

Definition parse_minute (sep : string → option string) (s : string) : option Z :=
  '(day, s) ← parse_day s; s ← sep s;
  '(h, s) ← in_range 0 23 (getnum s false); s ← skip ":"%char s;
  '(mi, s) ← in_range 0 59 (getnum s true);
  if negb (is_empty s) then None else Some ((day * seconds_per_day + h * 3600 + mi * 60) * second).

Definition parse_date (s : string) : option Z :=
  '(day, s) ← parse_day s;
  if negb (is_empty s) then None else Some (day * seconds_per_day * second).

Definition or_else {A} (x y : option A) : option A := match x with Some _ => x | None => y end.

Definition parseGroupLinkInstant (value : string) : result access_err (option Z) :=
  let raw := TrimSpace value in
  if is_empty raw then Ok None
  else match or_else (parse_rfc3339 raw)
               (or_else (parse_minute (skip "T"%char) raw)
                  (or_else (parse_minute skip_space raw) (parse_date raw))) with
       | Some t => Ok (Some t)
       | None => Err ErrInvalidGroupLinkValidityWindow
       end.

Example instant_minute : parseGroupLinkInstant " 2026-04-11 20:00 " = Ok (Some (1775937600 * second)).
Proof. vm_compute. reflexivity. Qed.
Example instant_date : parseGroupLinkInstant "2026-04-11" = Ok (Some (1775865600 * second)).
Proof. vm_compute. reflexivity. Qed.
Example instant_bad : parseGroupLinkInstant "2026-04-31" = Err ErrInvalidGroupLinkValidityWindow.
Proof. vm_compute. reflexivity. Qed.

(** ** Group links *)

Definition ListGroupLinks (tenantID : string) (s : Service) : list GroupLink :=
  cloneGroupLink <$> list_rows (TrimSpace tenantID) s.

Definition GetGroupLink (tenantID groupLinkID : string) : m GroupLink :=
  let nextID := TrimSpace groupLinkID in
  fail_if (is_empty nextID) ErrGroupLinkNotFound ;;
  '(_, l) ← look ErrGroupLinkNotFound (TrimSpace tenantID) nextID; mret (cloneGroupLink l).

(** The name of the group of that id and tenant; a blank one is as good as none. *)
Definition group_name (tenantID groupID : string) : m string :=
  found ← gets (fun s => findi (fun g => String.eqb (grpID g) groupID) (userGroups s));
  match found with
  | None => throw ErrUserGroupNotFound
  | Some (_, g) =>
      fail_if (negb (String.eqb (grpTenantID g) tenantID)) ErrUserGroupNotFound ;;
      fail_if (is_empty (grpName g)) ErrUserGroupNotFound ;;
      mret (grpName g)
  end.

Definition CreateGroupLink (now : Z) (input : GroupLinkInput) : m GroupLink :=
  let nextTenantID := TrimSpace (gliTenantID input) in
  fail_if (is_empty nextTenantID) ErrTenantIDRequired ;;
  let nextGroupID := TrimSpace (gliGroupID input) in
  fail_if (is_empty nextGroupID) ErrGroupIDRequired ;;
  let nextName := TrimSpace (gliName input) in
  fail_if (is_empty nextName) ErrGroupLinkNameRequired ;;
  qrType ← lift (normalizeGroupLinkQRCodeType (gliQuickResponseCodeType input));
  id ← accessID "gl_";
  secret ← accessID "gls_";
  qrToken ← (if is_empty qrType then mret "" else accessID "glq_");
  let linkEnabled := default true (gliLinkEnabled input) in
  groupName ← group_name nextTenantID nextGroupID;
  let record := mkGroupLink id "GroupLink" nextTenantID nextGroupID groupName nextName
    (normalizeEmail (gliEmail input)) (TrimSpace (gliPhone input)) "" linkEnabled qrType
    (TrimSpace (gliValidFrom input)) (TrimSpace (gliValidUntil input))
    (normalizeGroupLinkCreatorType (gliCreatedByType input)) (TrimSpace (gliCreatedByID input))
    (normalizeEmail (gliCreatedByEmail input)) (TrimSpace (gliCreatedByName input)) (TrimSpace (gliCreatedByID input))
    secret qrToken "" now now in
  prepend record ;;
  persistLocked ;;
  mret (cloneGroupLink record).

(** A field that may be left out, but not blank. *)
Definition required (x : option string) (e : access_err) : m (option string) :=
  match x with
  | None => mret None
  | Some v => let v := TrimSpace v in fail_if (is_empty v) e ;; mret (Some v)
  end.

(** The token that goes with the QR type of an update. *)
Definition update_qr (qrType : option string) (r : GroupLink) : m GroupLink :=
  match qrType with
  | None => mret r
  | Some t =>
      let r := r <| glQuickResponseCodeType := t |> in
      if is_empty t then mret (r <| glQuickResponseCodeToken := "" |> <| glQuickResponseCodeImage := "" |>)
      else if is_empty (glQuickResponseCodeToken r) then
        qrToken ← accessID "glq_"; mret (r <| glQuickResponseCodeToken := qrToken |>)
      else mret r
  end.

Definition restore_links (original : list GroupLink) (s : Service) : Service :=
  s <| groupLinks := cloneGroupLink <$> original |>.

Definition UpdateGroupLink (now : Z) (tenantID groupLinkID : string) (input : GroupLinkUpdateInput) : m GroupLink :=
  let nextID := TrimSpace groupLinkID in
  fail_if (is_empty nextID) ErrGroupLinkNotFound ;;
  let filterTenantID := firstNonEmpty [tenantID; gluTenantID input] in
  nextGroupID ← required (gluGroupID input) ErrGroupIDRequired;
  nextName ← required (gluName input) ErrGroupLinkNameRequired;
  nextQRCodeType ← match gluQuickResponseCodeType input with
                   | None => mret None
                   | Some t => t ← lift (normalizeGroupLinkQRCodeType t); mret (Some t)
                   end;
  '(i, record) ← look ErrGroupLinkNotFound filterTenantID nextID;
  original ← gets groupLinks;
  record ← match nextGroupID with
           | None => mret record
           | Some g => groupName ← group_name (glTenantID record) g;
                       mret (record <| glGroupID := g |> <| glGroupName := groupName |>)
           end;
  let record := record
    <| glName ::= given_or nextName |>
    <| glEmail ::= given_or (normalizeEmail <$> gluEmail input) |>
    <| glPhone ::= given_or (TrimSpace <$> gluPhone input) |>
    <| glLinkEnabled ::= given_or (gluLinkEnabled input) |> in
  record ← update_qr nextQRCodeType record;
  let record := record
    <| glValidFrom ::= given_or (TrimSpace <$> gluValidFrom input) |>
    <| glValidUntil ::= given_or (TrimSpace <$> gluValidUntil input) |>
    <| glResourceType := "GroupLink" |> <| glUpdatedAt := now |> in
  put i record ;;
  persist_or (restore_links original) ;;
  mret (cloneGroupLink record).

Definition DeleteGroupLink (tenantID groupLinkID : string) : m unit :=
  let nextID := TrimSpace groupLinkID in
  fail_if (is_empty nextID) ErrGroupLinkNotFound ;;
  '(i, _) ← look (A:=GroupLink) ErrGroupLinkNotFound (TrimSpace tenantID) nextID;
  original ← gets groupLinks;
  remove (A:=GroupLink) i ;;
  persist_or (restore_links original).

(** The link the token is of. *)
Definition bears (tenantID token : string) (l : GroupLink) : bool :=
  visible tenantID l && (String.eqb (glSecret l) token || String.eqb (glQuickResponseCodeToken l) token).

(** A zero [verifiedAt] is now. *)
Definition VerifyGroupLinkToken (now : Z) (tenantID token : string) (verifiedAt : Z) : m GroupLink :=
  let nextToken := TrimSpace token in
  fail_if (is_empty nextToken) ErrGroupLinkTokenRequired ;;
  let verifiedAt := if IsZero verifiedAt then now else verifiedAt in
  found ← gets (fun s => findi (bears (TrimSpace tenantID) nextToken) (groupLinks s));
  match found with
  | None => throw ErrGroupLinkTokenInvalid
  | Some (i, record) =>
      fail_if (negb (glLinkEnabled record)) ErrGroupLinkDisabled ;;
      validFrom ← lift (parseGroupLinkInstant (glValidFrom record));
      fail_if (match validFrom with Some t => Before verifiedAt t | None => false end) ErrGroupLinkNotYetValid ;;
      validUntil ← lift (parseGroupLinkInstant (glValidUntil record));
      fail_if (match validUntil with Some t => After verifiedAt t | None => false end) ErrGroupLinkExpired ;;
      original ← gets groupLinks;
      let record := record <| glLastUsedAt := format_rfc3339 verifiedAt |> <| glResourceType := "GroupLink" |>
                      <| glUpdatedAt := verifiedAt |> in
      put i record ;;
      persist_or (restore_links original) ;;
      mret (cloneGroupLink record)
  end.

(** ** A token admits only within the window of its link *)

(** The instant lies in the window a link gives; a blank bound is none. *)
Definition in_window (l : GroupLink) (t : Z) : Prop :=
  (∃ from, parseGroupLinkInstant (glValidFrom l) = Ok from ∧ from_option (λ x, x <= t) True from)
  ∧ (∃ until, parseGroupLinkInstant (glValidUntil l) = Ok until ∧ from_option (λ x, t <= x) True until).

(** A token is accepted only if some link of the tenant bears it, that link is enabled and
    the instant lies within its window; what changes is when the link was last used,
    and nothing changes when the state cannot be saved. *)
Theorem group_link_admits now tenantID token verifiedAt s :
  let s' := exec (VerifyGroupLinkToken now tenantID token verifiedAt) s in
  let t := if IsZero verifiedAt then now else verifiedAt in
  match answer (VerifyGroupLinkToken now tenantID token verifiedAt) s with
  | Ok l => ∃ i old, groupLinks s !! i = Some old ∧ bears (TrimSpace tenantID) (TrimSpace token) old = true
              ∧ TrimSpace token ≠ "" ∧ glLinkEnabled old = true ∧ in_window old t
              ∧ l = old <| glLastUsedAt := format_rfc3339 t |> <| glResourceType := "GroupLink" |> <| glUpdatedAt := t |>
              ∧ groupLinks s' = <[i := l]> (groupLinks s)
  | Err _ => cloneGroupLink <$> groupLinks s' = cloneGroupLink <$> groupLinks s
  end.
Proof.
  cbv zeta. unfold exec, answer. destruct (VerifyGroupLinkToken _ _ _ _ s) as [s' r] eqn:H. simpl.
  unfold VerifyGroupLinkToken in H. rewrite fail_if_bind in H.
  destruct (is_empty _) eqn:Hid; [by injection H as <- <-|]. cbv zeta in H. rewrite bind_gets in H.
  set (t := if IsZero verifiedAt then now else verifiedAt) in *.
  destruct (findi _ (groupLinks s)) as [[i old]|] eqn:Hf; [|by injection H as <- <-].
  rewrite fail_if_bind in H. destruct (glLinkEnabled old) eqn:He; [|by injection H as <- <-]. cbn [negb] in H.
  rewrite bind_lift in H. destruct (parseGroupLinkInstant (glValidFrom old)) as [from|e] eqn:Hfrom; [|by injection H as <- <-].
  rewrite fail_if_bind in H. destruct (match from with Some _ => _ | None => _ end) eqn:Hb; [by injection H as <- <-|].
  rewrite bind_lift in H. destruct (parseGroupLinkInstant (glValidUntil old)) as [until|e] eqn:Huntil; [|by injection H as <- <-].
  rewrite fail_if_bind in H. destruct (match until with Some _ => _ | None => _ end) eqn:Ha; [by injection H as <- <-|].
  rewrite bind_gets in H. unfold put in H. rewrite bind_modify, bind_op_eq in H. unfold persist_or in H.
  match type of H with context [persistLocked ?x] => set (s1 := x) in * end.
  pose proof (persist_rows (A:=GroupLink) s1) as H1. unfold exec in H1.
  destruct (persistLocked s1) as [s2 [[]|e]]; injection H as <- <-; simpl in *.
  - exists i, old. split_and!; [by eapply findi_lookup|by eapply findi_true|by apply String.eqb_neq|done| |done|done].
    split; [exists from|exists until]; split; try done.
    + destruct from; simpl; [|done]. unfold Before in Hb. lia.
    + destruct until; simpl; [|done]. unfold After in Ha. lia.
  - by rewrite <- list_fmap_compose.
Qed.
