(* ===== verification/AccessGrants.v ===== *)
(** * Roles, policies, shares and guests (modules/access/service.go, service_policies.go)

    The roles and their assignment, policies, temporary access, visitor passes,
    guests and their tokens, elevators and the lists on them, with the review of
    access rights. *)

From S2P Require Import Prelude GoStrings GoTime Bytes Encoding Rfc3339 AccessData AccessState.
#[local] Open Scope string_scope.
#[local] Open Scope list_scope.
#[local] Open Scope Z_scope.

(** ** Roles *)

Definition permissions (names : list string) : gmap string bool := list_to_map ((fun n => (n, true)) <$> names).

Definition builtInRoles : list Role := [
  mkRole "role_organization_admin" "Organization Admin" "Organization"
    "Manage organization users, places, access, credentials, integrations, and reports."
    (permissions ["places_read"; "places_write"; "locks_read"; "locks_write"; "locks_unlock"; "users_read";
      "users_write"; "groups_read"; "groups_write"; "teams_read"; "teams_write"; "team_memberships_read";
      "team_memberships_write"; "roles_read"; "role_assignments_read"; "role_assignments_write"; "shares_read";
      "shares_write"; "cards_read"; "cards_write"; "integrations_read"; "integrations_write"; "reports_read"]) true;
  mkRole "role_place_admin" "Place Admin" "Place"
    "Manage assigned place users, groups, locks, hardware, and local events."
    (permissions ["places_read"; "locks_read"; "locks_write"; "locks_unlock"; "users_read"; "users_write";
      "groups_read"; "groups_write"; "teams_read"; "team_memberships_read"; "role_assignments_read";
      "role_assignments_write"; "shares_read"; "shares_write"; "events_read"]) true;
  mkRole "role_group_access" "Group Access" "Group"
    "Grant access through a group without creating a management persona."
    (permissions ["locks_read"; "locks_unlock"]) true].

Definition ListRoles : list Role := builtInRoles.

Definition roleByID (roleID : string) : option Role :=
  snd <$> findi (fun r => String.eqb (rlID r) (TrimSpace roleID)) builtInRoles.

Definition normalizeRoleAssignmentInput (i : RoleAssignmentInput) : result access_err RoleAssignmentInput :=
  let nextTenantID := TrimSpace (rinTenantID i) in
  if is_empty nextTenantID then Err ErrTenantIDRequired else
  let nextRoleID := TrimSpace (rinRoleID i) in
  if is_empty nextRoleID then Err ErrRoleIDRequired else
  match roleByID nextRoleID with
  | None => Err ErrRoleNotFound
  | Some role =>
      match normalizeRoleScope (rinAppliesToType i) with
      | Err e => Err e
      | Ok nextAppliesToType =>
          if negb (String.eqb (rlAppliesTo role) nextAppliesToType) then Err ErrInvalidRoleScope else
          let nextAppliesToID := TrimSpace (rinAppliesToID i) in
          if is_empty nextAppliesToID then Err ErrAppliesToIDRequired else
          match normalizeAssigneeType (rinAssigneeType i) with
          | Err e => Err e
          | Ok nextAssigneeType =>
              let nextAssigneeID := TrimSpace (rinAssigneeID i) in
              if is_empty nextAssigneeID then Err ErrAssigneeIDRequired
              else Ok (mkRoleAssignmentInput nextTenantID nextRoleID nextAppliesToType nextAppliesToID
                         nextAssigneeType nextAssigneeID (TrimSpace (rinAssigneeEmail i))
                         (TrimSpace (rinValidFrom i)) (TrimSpace (rinValidUntil i)) [] [] "")
          end
      end
  end.

Definition ListRoleAssignments (tenantID : string) (s : Service) : list RoleAssignment :=
  list_rows (TrimSpace tenantID) s.

Definition GetRoleAssignment (tenantID assignmentID : string) : m RoleAssignment :=
  let nextID := TrimSpace assignmentID in
  fail_if (is_empty nextID) ErrRoleAssignmentNotFound ;;
  '(_, a) ← look ErrRoleAssignmentNotFound (TrimSpace tenantID) nextID; mret a.

Definition CreateRoleAssignment (now : Z) (input : RoleAssignmentInput) : m RoleAssignment :=
  n ← lift (normalizeRoleAssignmentInput input);
  id ← accessID "ra_";
  let record := mkRoleAssignment id (rinTenantID n) (rinRoleID n) (rinAppliesToType n) (rinAppliesToID n)
    (rinAssigneeType n) (rinAssigneeID n) (normalizeEmail (rinAssigneeEmail n)) (TrimSpace (rinValidFrom n))
    (TrimSpace (rinValidUntil n)) [] [] "" "" "" now now in
  prepend record ;;
  persistLocked ;;
  mret record.

(** The review of the assignment stays with it. *)
Definition UpdateRoleAssignment (now : Z) (tenantID assignmentID : string) (input : RoleAssignmentInput)
    : m RoleAssignment :=
  let nextID := TrimSpace assignmentID in
  fail_if (is_empty nextID) ErrRoleAssignmentNotFound ;;
  let filterTenantID := TrimSpace tenantID in
  n ← lift (normalizeRoleAssignmentInput
              (input <| rinTenantID ::= (fun t => firstNonEmpty [t; filterTenantID]) |>));
  '(i, a) ← look ErrRoleAssignmentNotFound filterTenantID nextID;
  let a' := a <| raTenantID := rinTenantID n |> <| raRoleID := rinRoleID n |>
              <| raAppliesToType := rinAppliesToType n |> <| raAppliesToID := rinAppliesToID n |>
              <| raAssigneeType := rinAssigneeType n |> <| raAssigneeID := rinAssigneeID n |>
              <| raAssigneeEmail := normalizeEmail (rinAssigneeEmail n) |>
              <| raValidFrom := TrimSpace (rinValidFrom n) |> <| raValidUntil := TrimSpace (rinValidUntil n) |>
              <| raUpdatedAt := now |> in
  put i a' ;;
  persistLocked ;;
  mret a'.

Definition DeleteRoleAssignment (tenantID assignmentID : string) : m unit :=
  let nextID := TrimSpace assignmentID in
  fail_if (is_empty nextID) ErrRoleAssignmentNotFound ;;
  '(i, _) ← look (A:=RoleAssignment) ErrRoleAssignmentNotFound (TrimSpace tenantID) nextID;
  original ← gets roleAssignments;
  remove (A:=RoleAssignment) i ;;
  persist_or (fun s => s <| roleAssignments := original |>).

(** ** Review *)

(** The rows of the tenant that the ids name, all of them or an error. *)
Fixpoint find_all {A} `{!Table A} (e : access_err) (tenantID : string) (ids : list string) : m (list nat) :=
  match ids with
  | [] => mret []
  | id :: ids' =>
      found ← gets (fun s => findi (fun x => String.eqb (item_id x) id) (rows s));
      match found with
      | None => throw e
      | Some (i, x) =>
          fail_if (negb (String.eqb (item_tenant x) tenantID)) e ;;
          idx ← find_all e tenantID ids'; mret (i :: idx)
      end
  end.

(** The two kinds of right that are reviewed. *)
Class Reviewable (A : Type) := { reviewed_at : A → string; set_review : string → string → Z → A → A }.
#[export] Instance reviewable_RoleAssignment : Reviewable RoleAssignment := {|
  reviewed_at := raReviewedAt;
  set_review := λ at_ by_ now a, a <| raReviewedAt := at_ |> <| raReviewedBy := by_ |> <| raUpdatedAt := now |> |}.
#[export] Instance reviewable_TemporaryAccess : Reviewable TemporaryAccess := {|
  reviewed_at := taReviewedAt;
  set_review := λ at_ by_ _ a, a <| taReviewedAt := at_ |> <| taReviewedBy := by_ |> |}.

(** The loop over the indexes: the ids reviewed, how many were skipped. *)
Fixpoint review_all {A} `{!Table A, !Reviewable A} (at_ by_ : string) (now : Z) (idx : list nat)
    (ids : list string) (skipped : Z) : m (list string * Z) :=
  match idx with
  | [] => mret (ids, skipped)
  | i :: idx' =>
      found ← gets (fun s => rows s !! i);
      match found with
      | None => mret (ids, skipped)
      | Some x =>
          if negb (is_empty (TrimSpace (reviewed_at x))) then review_all at_ by_ now idx' ids (skipped + 1)
          else
            put i (set_review at_ by_ now x) ;;
            review_all at_ by_ now idx' (ids ++ [item_id x]) skipped
      end
  end.

Definition ReviewAccessRights (now : Z) (tenantID : string) (roleAssignmentIDs shareIDs : list string)
    (reviewedBy : string) : m AccessRightsReviewResult :=
  let nextTenantID := TrimSpace tenantID in
  fail_if (is_empty nextTenantID) ErrTenantIDRequired ;;
  let nextRoleAssignmentIDs := uniqueIDs roleAssignmentIDs in
  let nextShareIDs := uniqueIDs shareIDs in
  fail_if ((size_of nextRoleAssignmentIDs =? 0) && (size_of nextShareIDs =? 0)) ErrAccessRightSelectionRequired ;;
  let nextReviewedBy := firstNonEmpty [reviewedBy; "system"] in
  let reviewedAt := format_rfc3339 now in
  idx ← find_all (A:=RoleAssignment) ErrRoleAssignmentNotFound nextTenantID nextRoleAssignmentIDs;
  sidx ← find_all (A:=TemporaryAccess) ErrTemporaryAccessNotFound nextTenantID nextShareIDs;
  original ← gets (fun s => s);
  '(assignments, skipped1) ← review_all (A:=RoleAssignment) reviewedAt nextReviewedBy now idx [] 0;
  '(shares, skipped2) ← review_all (A:=TemporaryAccess) reviewedAt nextReviewedBy now sidx [] 0;
  persist_or (fun s => s <| roleAssignments := roleAssignments original |>
                         <| temporaryAccess := temporaryAccess original |>) ;;
  mret (mkAccessRightsReviewResult nextTenantID reviewedAt nextReviewedBy (size_of assignments + size_of shares)
          (skipped1 + skipped2) assignments shares).

(** ** Policies *)

Definition ListPolicies (tenantID : string) (s : Service) : list Policy := list_rows (TrimSpace tenantID) s.

Definition CreatePolicy (now : Z) (tenantID name scopeType buildingID areaID doorID schedule : string) (members : Z)
    (status : string) : m Policy :=
  let nextTenantID := TrimSpace tenantID in
  fail_if (is_empty nextTenantID) ErrTenantIDRequired ;;
  let nextName := TrimSpace name in
  fail_if (is_empty nextName) ErrPolicyNameRequired ;;
  nextScopeType ← lift (normalizeScopeType scopeType);
  nextStatus ← lift (normalizePolicyStatus status);
  id ← accessID "plc_";
  let record := mkPolicy id nextTenantID nextName nextScopeType (TrimSpace buildingID) (TrimSpace areaID)
    (TrimSpace doorID) (TrimSpace schedule) (Z.max 0 members) nextStatus now in
  prepend record ;;
  persistLocked ;;
  mret record.

Definition UpdatePolicy (now : Z) (tenantID policyID name scopeType buildingID areaID doorID schedule : string)
    (members : Z) (status : string) : m Policy :=
  let nextID := TrimSpace policyID in
  fail_if (is_empty nextID) ErrPolicyNotFound ;;
  let nextName := TrimSpace name in
  fail_if (is_empty nextName) ErrPolicyNameRequired ;;
  nextScopeType ← lift (normalizeScopeType scopeType);
  nextStatus ← lift (normalizePolicyStatus status);
  '(i, p) ← look ErrPolicyNotFound (TrimSpace tenantID) nextID;
  let p' := p <| polName := nextName |> <| polScopeType := nextScopeType |>
              <| polBuildingID := TrimSpace buildingID |> <| polAreaID := TrimSpace areaID |>
              <| polDoorID := TrimSpace doorID |> <| polSchedule := TrimSpace schedule |>
              <| polMembers := Z.max 0 members |> <| polStatus := nextStatus |> <| polUpdatedAt := now |> in
  put i p' ;;
  persistLocked ;;
  mret p'.

(** ** Temporary access and visitor passes *)

Definition ListTemporaryAccess (tenantID : string) (s : Service) : list TemporaryAccess :=
  list_rows (TrimSpace tenantID) s.

Definition GetTemporaryAccess (tenantID shareID : string) : m TemporaryAccess :=
  let nextID := TrimSpace shareID in
  fail_if (is_empty nextID) ErrTemporaryAccessNotFound ;;
  '(_, a) ← look ErrTemporaryAccessNotFound (TrimSpace tenantID) nextID; mret a.

Definition normalizeTemporaryAccessInput (i : TemporaryAccessInput) : result access_err TemporaryAccessInput :=
  let nextTenantID := TrimSpace (tinTenantID i) in
  if is_empty nextTenantID then Err ErrTenantIDRequired else
  match normalizeScopeType (tinScopeType i) with
  | Err e => Err e
  | Ok nextScopeType =>
      match normalizeDeliveryMethod (tinDeliveryMethod i) with
      | Err e => Err e
      | Ok nextMethod =>
          let nextGranteeName := TrimSpace (tinGranteeName i) in
          if is_empty nextGranteeName then Err ErrGranteeNameRequired else
          let nextGranteePhone := TrimSpace (tinGranteePhone i) in
          if is_empty nextGranteePhone then Err ErrGranteePhoneRequired else
          let nextGranteeEmail := TrimSpace (tinGranteeEmail i) in
          if is_empty nextGranteeEmail then Err ErrGranteeEmailRequired else
          let nextValidUntil := TrimSpace (tinValidUntil i) in
          if is_empty nextValidUntil then Err ErrValidUntilRequired else
          Ok (mkTemporaryAccessInput nextTenantID nextScopeType (TrimSpace (tinBuildingID i))
                (TrimSpace (tinAreaID i)) (TrimSpace (tinDoorID i)) (TrimSpace (tinGroupID i))
                (firstNonEmpty [tinRoleID i; "role_group_access"]) nextMethod nextGranteeName
                (TrimSpace (tinGranteeGender i)) nextGranteePhone nextGranteeEmail (TrimSpace (tinMobileModel i))
                (TrimSpace (tinPassType i)) (TrimSpace (tinValidFrom i)) nextValidUntil
                (TrimSpace (tinAuthorizedByID i)) (normalizeEmail (tinAuthorizedByEmail i))
                (TrimSpace (tinAuthorizedByRole i)) false (TrimSpace (tinReviewedAt i)) (TrimSpace (tinReviewedBy i)))
      end
  end.

Definition share (id : string) (r : TemporaryAccessInput) (authorizedAt createdAt : Z) : TemporaryAccess :=
  mkTemporaryAccess id (tinTenantID r) (tinScopeType r) (tinBuildingID r) (tinAreaID r) (tinDoorID r) (tinGroupID r)
    (tinRoleID r) (tinDeliveryMethod r) (tinGranteeName r) (tinGranteeGender r) (tinGranteePhone r)
    (tinGranteeEmail r) (tinMobileModel r) (tinPassType r) (tinValidFrom r) (tinValidUntil r) [] [] ""
    (tinAuthorizedByID r) (tinAuthorizedByEmail r) (tinAuthorizedByRole r) authorizedAt
    (TrimSpace (tinReviewedAt r)) (TrimSpace (tinReviewedBy r)) createdAt.

Definition CreateTemporaryAccessWithInput (now : Z) (input : TemporaryAccessInput) : m TemporaryAccess :=
  r ← lift (normalizeTemporaryAccessInput input);
  id ← accessID "tmp_";
  let record := share id r now now in
  prepend record ;;
  persistLocked ;;
  mret record.

Definition CreateTemporaryAccess (now : Z)
    (tenantID scopeType buildingID areaID doorID deliveryMethod granteeName granteeGender granteePhone granteeEmail
     mobileModel passType validUntil authorizedByID authorizedByEmail authorizedByRole : string) : m TemporaryAccess :=
  CreateTemporaryAccessWithInput now (mkTemporaryAccessInput tenantID scopeType buildingID areaID doorID "" ""
    deliveryMethod granteeName granteeGender granteePhone granteeEmail mobileModel passType "" validUntil
    authorizedByID authorizedByEmail authorizedByRole false "" "").

Definition UpdateTemporaryAccess (now : Z) (tenantID shareID : string) (input : TemporaryAccessInput)
    : m TemporaryAccess :=
  let nextID := TrimSpace shareID in
  fail_if (is_empty nextID) ErrTemporaryAccessNotFound ;;
  let filterTenantID := TrimSpace tenantID in
  r ← lift (normalizeTemporaryAccessInput
              (input <| tinTenantID ::= (fun t => firstNonEmpty [t; filterTenantID]) |>));
  '(i, a) ← look ErrTemporaryAccessNotFound filterTenantID nextID;
  let authorizedAt := if tinKeepAuthorizedTime input then taAuthorizedAt a else now in
  let a' := share nextID r authorizedAt (taCreatedAt a) in
  put i a' ;;
  persistLocked ;;
  mret a'.

Definition DeleteTemporaryAccess (tenantID shareID : string) : m unit :=
  let nextID := TrimSpace shareID in
  fail_if (is_empty nextID) ErrTemporaryAccessNotFound ;;
  '(i, _) ← look (A:=TemporaryAccess) ErrTemporaryAccessNotFound (TrimSpace tenantID) nextID;
  original ← gets temporaryAccess;
  remove (A:=TemporaryAccess) i ;;
  persist_or (fun s => s <| temporaryAccess := original |>).

Definition ListVisitorPasses (tenantID : string) (s : Service) : list VisitorPass := list_rows (TrimSpace tenantID) s.

Definition CreateVisitorPass (now : Z) (tenantID buildingID host visitor deliveryMethod expiresAt : string)
    : m VisitorPass :=
  let nextTenantID := TrimSpace tenantID in
  fail_if (is_empty nextTenantID) ErrTenantIDRequired ;;
  let nextHost := TrimSpace host in
  fail_if (is_empty nextHost) ErrHostRequired ;;
  let nextVisitor := TrimSpace visitor in
  fail_if (is_empty nextVisitor) ErrVisitorRequired ;;
  nextMethod ← lift (normalizeDeliveryMethod deliveryMethod);
  let nextExpiresAt := TrimSpace expiresAt in
  fail_if (is_empty nextExpiresAt) ErrExpiresAtRequired ;;
  id ← accessID "vst_";
  let record := mkVisitorPass id nextTenantID (TrimSpace buildingID) nextHost nextVisitor nextMethod nextExpiresAt now in
  prepend record ;;
  persistLocked ;;
  mret record.

(** ** Guests *)

Definition ListGuests (tenantID : string) (s : Service) : list Guest := list_rows (TrimSpace tenantID) s.

Definition GetGuest (tenantID guestID : string) : m Guest :=
  '(_, g) ← look_any ErrGuestNotFound tenantID (TrimSpace guestID); mret g.

Definition one_of (l : list string) (x : string) : bool := existsb (String.eqb x) l.

(** The guest a token admits now. *)
Definition GetGuestByAccessToken (now : Z) (tenantID token : string) (s : Service) : option Guest :=
  let nextToken := TrimSpace token in
  if is_empty nextToken then None
  else match findi (fun g => String.eqb (gstAccessToken g) nextToken && visible tenantID g) (guests s) with
  | None => None
  | Some (_, g) =>
      if one_of ["cancelled"; "checked_out"] (gstStatus g) then None
      else if negb (is_empty (gstAccessTokenExpiresAt g))
           && match parse_rfc3339 (gstAccessTokenExpiresAt g) with Some exp => After now exp | None => false end
      then None
      else Some g
  end.

(** Hours a token lasts: 24 unless given, 72 at most. *)
Definition ttl_hours (given : Z) : Z := Z.min 72 (if given <=? 0 then 24 else given).

Definition CreateGuest (now : Z) (i : CreateGuestInput) : m Guest :=
  let nextTenantID := TrimSpace (cgiTenantID i) in
  fail_if (is_empty nextTenantID) ErrTenantIDRequired ;;
  let nextName := TrimSpace (cgiName i) in
  fail_if (is_empty nextName) ErrGuestNameRequired ;;
  let nextPhone := TrimSpace (cgiPhone i) in
  fail_if (is_empty nextPhone) ErrGuestPhoneRequired ;;
  let nextHostName := TrimSpace (cgiHostName i) in
  fail_if (is_empty nextHostName) ErrGuestHostRequired ;;
  let docType := TrimSpace (ToUpper (cgiIDDocumentType i)) in
  fail_if (negb (is_empty docType) && negb (one_of ["KTP"; "KITAS"; "ITAS"; "SIM"; "PASSPORT"; "OTHER"] docType))
    ErrGuestIDDocumentTypeInvalid ;;
  id ← accessID "gst_";
  token ← accessID "gqr_";
  let tokenExpiry := now + ttl_hours (cgiAccessTTLHours i) * hour in
  let doorIDs := filterb (fun d => negb (is_empty d)) (TrimSpace <$> cgiDoorIDs i) in
  let record := mkGuest id nextTenantID (TrimSpace (cgiBuildingID i)) nextName (TrimSpace (cgiEmail i)) nextPhone
    (TrimSpace (cgiCompany i)) (TrimSpace (cgiPurpose i)) nextHostName (TrimSpace (cgiHostEmail i))
    (TrimSpace (cgiHostPhone i)) docType (TrimSpace (cgiIDDocumentNumber i)) "expected" "" ""
    (TrimSpace (cgiExpectedAt i)) (cgiNotifyHost i) "" token (format_rfc3339 tokenExpiry) doorIDs now now in
  prepend record ;;
  persistLocked ;;
  mret record.

(** The first time of each is kept. *)
Definition stamp (b : bool) (now : Z) (old : string) : string :=
  if b && is_empty old then format_rfc3339 now else old.

Definition UpdateGuestStatus (now : Z) (tenantID guestID status : string) : m Guest :=
  let nextStatus := ToLower (TrimSpace status) in
  fail_if (negb (one_of ["expected"; "checked_in"; "checked_out"; "cancelled"] nextStatus)) ErrGuestStatusInvalid ;;
  '(i, g) ← look_any ErrGuestNotFound tenantID (TrimSpace guestID);
  let g' := g <| gstStatus := nextStatus |> <| gstUpdatedAt := now |>
              <| gstCheckedInAt ::= stamp (String.eqb nextStatus "checked_in") now |>
              <| gstCheckedOutAt ::= stamp (String.eqb nextStatus "checked_out") now |> in
  put i g' ;;
  persistLocked ;;
  mret g'.

Definition DeleteGuest (tenantID guestID : string) : m unit :=
  '(i, _) ← look_any (A:=Guest) ErrGuestNotFound tenantID (TrimSpace guestID);
  remove (A:=Guest) i ;;
  persistLocked.

(** ** Elevators, presences, card imports

    Written in memory: none of these tables is saved. *)

(** [_ = s.persistLocked()] *)
Definition persist_anyway : m unit := ignore_err persistLocked.

Definition add_row {A} `{!Table A} (x : A) : m A := prepend x ;; persist_anyway ;; mret x.
Definition change_row {A} `{!Table A} (e : access_err) (tenantID id : string) (f : A → A) : m A :=
  '(i, x) ← look_any e tenantID id;
  put i (f x) ;;
  persist_anyway ;;
  mret (f x).
Definition delete_row (A : Type) `{!Table A} (e : access_err) (tenantID id : string) : m unit :=
  '(i, _) ← look_any (A:=A) e tenantID id;
  remove (A:=A) i ;;
  persistLocked.

(** [if id != "" && x.Field != id { continue }] *)
Definition or_any (wanted value : string) : bool := is_empty wanted || String.eqb value wanted.

Definition ListElevators (tenantID : string) (s : Service) : list Elevator := list_rows tenantID s.
Definition GetElevator (tenantID id : string) : m Elevator :=
  '(_, e) ← look_any ErrElevatorNotFound tenantID id; mret e.
Definition CreateElevator (now : Z) (tenantID placeID name description : string) : m Elevator :=
  fail_if (is_empty (TrimSpace name)) (ErrText "elevator name is required") ;;
  id ← accessID "elv_";
  add_row (mkElevator id tenantID placeID (TrimSpace name) (TrimSpace description) 0 now now).
Definition UpdateElevator (now : Z) (tenantID id : string) (name description : option string) : m Elevator :=
  change_row ErrElevatorNotFound tenantID id (fun e =>
    e <| elName ::= (fun n => default n (TrimSpace <$> name)) |>
      <| elDescription ::= (fun d => default d (TrimSpace <$> description)) |> <| elUpdatedAt := now |>).
Definition DeleteElevator : string → string → m unit := delete_row Elevator ErrElevatorNotFound.

Definition ListElevatorStops (tenantID elevatorID : string) (s : Service) : list ElevatorStop :=
  filterb (fun e => or_any elevatorID (esElevatorID e)) (list_rows tenantID s).
Definition GetElevatorStop (tenantID id : string) : m ElevatorStop :=
  '(_, e) ← look_any ErrElevatorStopNotFound tenantID id; mret e.
Definition CreateElevatorStop (now : Z) (tenantID elevatorID floorID name : string) : m ElevatorStop :=
  fail_if (is_empty (TrimSpace name)) (ErrText "elevator stop name is required") ;;
  id ← accessID "els_";
  add_row (mkElevatorStop id tenantID elevatorID floorID (TrimSpace name) "active" now now).
Definition UpdateElevatorStop (now : Z) (tenantID id : string) (name : option string) : m ElevatorStop :=
  change_row ErrElevatorStopNotFound tenantID id (fun e =>
    e <| esName ::= (fun n => default n (TrimSpace <$> name)) |> <| esUpdatedAt := now |>).
Definition DeleteElevatorStop : string → string → m unit := delete_row ElevatorStop ErrElevatorStopNotFound.
Definition SetElevatorStopStatus (now : Z) (tenantID id status : string) : m ElevatorStop :=
  change_row ErrElevatorStopNotFound tenantID id (fun e => e <| esStatus := status |> <| esUpdatedAt := now |>).

Definition ListGroupElevatorStops (tenantID groupID : string) (s : Service) : list GroupElevatorStop :=
  filterb (fun e => or_any groupID (gesGroupID e)) (list_rows tenantID s).
Definition CreateGroupElevatorStop (now : Z) (tenantID groupID elevatorStopID : string) : m GroupElevatorStop :=
  id ← accessID "ges_";
  add_row (mkGroupElevatorStop id tenantID groupID elevatorStopID now).
Definition DeleteGroupElevatorStop : string → string → m unit :=
  delete_row GroupElevatorStop (ErrText "group elevator stop not found").

Definition ListGroupTerminals (tenantID groupID : string) (s : Service) : list GroupTerminal :=
  filterb (fun e => or_any groupID (gtGroupID e)) (list_rows tenantID s).
Definition CreateGroupTerminal (now : Z) (tenantID groupID terminalID : string) : m GroupTerminal :=
  id ← accessID "gt_";
  add_row (mkGroupTerminal id tenantID groupID terminalID now).
Definition DeleteGroupTerminal : string → string → m unit :=
  delete_row GroupTerminal (ErrText "group terminal not found").

Definition ListPresences (tenantID placeID : string) (s : Service) : list Presence :=
  filterb (fun p => or_any placeID (prsPlaceID p) && is_empty (prsExitedAt p)) (list_rows tenantID s).

Definition ListCSVCardImports (tenantID : string) (s : Service) : list CSVCardImport := list_rows tenantID s.
Definition CreateCSVCardImport (now : Z) (tenantID fileName : string) : m CSVCardImport :=
  fail_if (is_empty (TrimSpace fileName)) (ErrText "file_name is required") ;;
  id ← accessID "cci_";
  add_row (mkCSVCardImport id tenantID (TrimSpace fileName) "pending" 0 0 0 now now).
Definition GetCSVCardImport (tenantID id : string) : m CSVCardImport :=
  '(_, c) ← look_any (ErrText "csv card import not found") tenantID id; mret c.

(** ** What a token and a review do *)

Lemma accessID_answer p s s1 id : accessID p s = (s1, Ok id) → same_tables s s1 ∧ ∃ raw, id = p +:+ hex_encode raw.
Proof.
  intros H. pose proof (accessID_tables p s) as Ht. unfold exec in Ht. rewrite H in Ht. split; [exact Ht|].
  apply bind_ok in H as (s2 & raw & _ & [= <- <-]). by exists raw.
Qed.

(** An id needs no trimming. *)
Lemma accessID_trimmed p raw :
  all_chars GoStrings.visible p = true → TrimSpace (p +:+ hex_encode raw) = p +:+ hex_encode raw.
Proof. intros Hp. apply TrimSpace_fix, visible_trimmed. by rewrite all_chars_app, Hp, hex_visible. Qed.

Lemma ttl_hours_cases given : ttl_hours given = if given <=? 0 then 24 else if 72 <? given then 72 else given.
Proof. unfold ttl_hours. destruct (Z.leb_spec given 0); [done|]. destruct (Z.ltb_spec 72 given); lia. Qed.

(** The token of a new guest admits that guest for the hours asked for, 24 when none are
    given and 72 at most, up to a whole second, and no longer. *)
Theorem guest_token_lasts now i s g now' :
  let given := cgiAccessTTLHours i in
  let expiry := now + (if given <=? 0 then 24 else if 72 <? given then 72 else given) * hour in
  answer (CreateGuest now i) s = Ok g → four_digit_year expiry →
  GetGuestByAccessToken now' (gstTenantID g) (gstAccessToken g) (exec (CreateGuest now i) s)
  = if now' <=? Unix expiry * second then Some g else None.
Proof.
  cbv zeta. rewrite <- ttl_hours_cases.
  unfold answer, exec. destruct (CreateGuest now i s) as [s' r] eqn:H. simpl. intros -> Hyear.
  unfold CreateGuest in H. rewrite !fail_if_bind in H. repeat (case_match; [done|]).
  apply bind_ok in H as (s1 & id & _ & H). apply bind_ok in H as (s2 & token & Htok & H).
  apply accessID_answer in Htok as (_ & raw & ->). cbv zeta in H. unfold prepend in H. rewrite bind_modify in H.
  apply bind_ok in H as (s3 & [] & Hp & H). injection H as <- <-.
  match type of Hp with persistLocked ?x = _ => pose proof (persist_rows (A:=Guest) x) as Hg end.
  unfold exec in Hg. rewrite Hp in Hg. pose proof (rfc3339_roundtrip _ Hyear) as Hr.
  set (exp := now + _) in *. clearbody exp. set (e := format_rfc3339 exp) in *. clearbody e.
  assert (He : is_empty e = false) by (apply String.eqb_neq; intros ->; done).
  clear Hp. cbn in Hg. unfold GetGuestByAccessToken. cbn [gstAccessToken gstTenantID fst]. rewrite accessID_trimmed by done.
  rewrite append_cons. cbn [is_empty String.eqb]. rewrite Hg. cbn [findi].
  unfold visible. cbn [gstAccessToken item_tenant table_item table_Guest gstTenantID gstStatus gstAccessTokenExpiresAt].
  rewrite append_cons, !String.eqb_refl, orb_true_r.
  cbn [andb one_of existsb gstStatus gstAccessTokenExpiresAt String.eqb Ascii.eqb Bool.eqb orb].
  rewrite He, Hr. cbn [negb andb]. unfold After. rewrite Z.leb_antisym. by destruct (_ <? now').
Qed.

(** A review keeps the id and the tenant of a right, and leaves it reviewed. *)
Class ReviewLaws (A : Type) `{!Table A, !Reviewable A} := {
  review_id : ∀ at_ by_ now (x : A), item_id (set_review at_ by_ now x) = item_id x;
  review_tenant : ∀ at_ by_ now (x : A), item_tenant (set_review at_ by_ now x) = item_tenant x;
  review_at : ∀ at_ by_ now (x : A), reviewed_at (set_review at_ by_ now x) = at_
}.
#[export] Instance review_laws_RoleAssignment : ReviewLaws RoleAssignment.
Proof. by split. Qed.
#[export] Instance review_laws_TemporaryAccess : ReviewLaws TemporaryAccess.
Proof. by split. Qed.

Definition is_reviewed {A} `{!Reviewable A} (x : A) : bool := negb (is_empty (TrimSpace (reviewed_at x))).

Section review.
Context {A : Type} `{!Table A, !TableLaws A, !Reviewable A, !ReviewLaws A}.

Lemma find_all_answer e tenantID ids s s' idx :
  find_all e tenantID ids s = (s', Ok idx) →
  s' = s ∧ Forall2 (λ id i, ∃ x, rows s !! i = Some x ∧ item_id x = id ∧ item_tenant x = tenantID) ids idx.
Proof.
  revert idx. induction ids as [|id ids IH]; simpl; intros idx H; [by injection H as <- <-|].
  rewrite bind_gets in H. destruct (findi _ (rows s)) as [[i x]|] eqn:Hf; [|done]. rewrite fail_if_bind in H.
  case_match; [done|]. apply bind_ok in H as (s1 & idx' & H & [= <- <-]). apply IH in H as [-> H].
  split; [done|]. constructor; [|done]. exists x. apply findi_lookup in Hf as Hl. apply findi_true in Hf. boolp. done.
Qed.
Lemma find_all_state e tenantID ids s : exec (find_all e tenantID ids) s = s.
Proof.
  induction ids as [|id ids IH]; [done|]. simpl. rewrite exec_gets. destruct (findi _ (rows s)) as [[i x]|]; [|done].
  rewrite exec_fail_if. case_match; [done|]. unfold exec in *. rewrite bind_op_eq.
  destruct (find_all e tenantID ids s) as [s1 [idx|err]]; simpl in *; by subst.
Qed.

(** Row [i] after a review: the same right, reviewed if it was to be. *)
Definition reviewed_row (l : list A) (due : nat → Prop) (l' : list A) : Prop :=
  ∀ i x, l !! i = Some x → ∃ x', l' !! i = Some x' ∧ item_id x' = item_id x ∧ item_tenant x' = item_tenant x
         ∧ (due i → is_reviewed x' = true) ∧ (is_reviewed x = true → x' = x).

Lemma review_all_spec at_ by_ now idx ids n s :
  TrimSpace at_ ≠ "" → Forall (λ i, is_Some (rows s !! i)) idx →
  ∃ s' r, review_all at_ by_ now idx ids n s = (s', Ok r) ∧ reviewed_row (rows s) (λ i, i ∈ idx) (rows s').
Proof.
  intros Hat. revert ids n s. induction idx as [|i idx IH]; intros ids n s Hidx; simpl.
  { do 2 eexists. split; [done|]. intros i x Hx. exists x. split_and!; [done..|by intros ?%elem_of_nil|done]. }
  apply Forall_cons in Hidx as [[x Hx] Hidx]. rewrite bind_gets, Hx.
  destruct (negb (is_empty (TrimSpace (reviewed_at x)))) eqn:Hr.
  - destruct (IH ids (n + 1) s Hidx) as (s' & r & -> & Hrow). do 2 eexists. split; [done|]. intros j y Hy.
    destruct (Hrow j y Hy) as (y' & H1 & H2 & H3 & H4 & H5). exists y'. split_and!; [done..| |done].
    rewrite elem_of_cons. intros [->|?]; [|auto]. simplify_eq. by rewrite (H5 Hr).
  - unfold put. rewrite bind_modify. set (x' := set_review at_ by_ now x). set (s1 := set_rows _ s).
    assert (Hs1 : rows s1 = <[i := x']> (rows s)) by apply rows_set.
    assert (Hlt := lookup_lt_Some _ _ _ Hx).
    destruct (IH (ids ++ [item_id x]) n s1) as (s' & r & -> & Hrow).
    { eapply Forall_impl; [exact Hidx|]. intros j Hj. rewrite Hs1. apply lookup_lt_is_Some_1 in Hj.
      apply lookup_lt_is_Some_2. by rewrite length_insert. }
    do 2 eexists. split; [done|]. rewrite Hs1 in Hrow. intros j y Hy.
    destruct (decide (j = i)) as [->|Hne].
    + simplify_eq. destruct (Hrow i x') as (y' & H1 & H2 & H3 & H4 & H5); [by apply list_lookup_insert_eq|].
      assert (Hx' : is_reviewed x' = true).
      { unfold is_reviewed, x'. rewrite review_at. by apply negb_true_iff, String.eqb_neq. }
      rewrite (H5 Hx') in *. exists x'. split_and!; [done|apply review_id|apply review_tenant|done|].
      unfold is_reviewed. by rewrite Hr.
    + destruct (Hrow j y) as (y' & H1 & H2 & H3 & H4 & H5); [by rewrite list_lookup_insert_ne|].
      exists y'. split_and!; [done..| |done]. rewrite elem_of_cons. intros [?|?]; [done|auto].
Qed.

(** A review of one kind leaves the other. *)
Lemma review_all_other {B} (f : Service → B) at_ by_ now idx ids n s :
  (∀ (g : list A → list A) s, f (set_rows g s) = f s) → f (exec (review_all at_ by_ now idx ids n) s) = f s.
Proof.
  intros Hf. revert ids n s. induction idx as [|i idx IH]; intros ids n s; [done|]. simpl. rewrite exec_gets.
  destruct (rows s !! i) as [x|]; [|done]. destruct (negb _); [apply IH|]. unfold put. by rewrite exec_modify, IH, Hf.
Qed.
End review.

(** The rights of a tenant that the ids name have been reviewed. *)
Definition all_reviewed {A} `{!Table A, !Reviewable A} (tenantID : string) (ids : list string) (l : list A) : Prop :=
  ∀ id, id ∈ ids → ∃ x, x ∈ l ∧ item_id x = id ∧ item_tenant x = tenantID ∧ is_reviewed x = true.

Lemma reviewed_rows_all {A} `{!Table A, !Reviewable A} tenantID ids idx (l l' : list A) :
  Forall2 (λ id i, ∃ x, l !! i = Some x ∧ item_id x = id ∧ item_tenant x = tenantID) ids idx →
  reviewed_row l (λ i, i ∈ idx) l' → all_reviewed tenantID ids l'.
Proof.
  intros H Hrow id Hid. apply list_elem_of_lookup in Hid as [k Hk].
  destruct (Forall2_lookup_l _ _ _ _ _ H Hk) as (i & Hi & x & Hx & <- & <-).
  destruct (Hrow i x Hx) as (x' & H1 & H2 & H3 & H4 & _). exists x'. split_and!; [|done..|].
  - by eapply list_elem_of_lookup_2.
  - apply H4. by eapply list_elem_of_lookup_2.
Qed.

Lemma rows_in_range {A} `{!Table A} tenantID ids idx (s : Service) :
  Forall2 (λ id i, ∃ x : A, rows s !! i = Some x ∧ item_id x = id ∧ item_tenant x = tenantID) ids idx →
  Forall (λ i, is_Some (rows (A:=A) s !! i)) idx.
Proof. induction 1 as [|id i ids idx (x & Hx & _) _ IH]; constructor; eauto. Qed.

(** A review of access rights is all or nothing: when it succeeds every right it was asked
    for, roles and shares alike, is one of the tenant and has been reviewed; when it
    fails, because an id is unknown or another tenant's or the state cannot be saved,
    both tables are as they were. *)
Theorem review_all_or_nothing now tenantID roleAssignmentIDs shareIDs reviewedBy s :
  let s' := exec (ReviewAccessRights now tenantID roleAssignmentIDs shareIDs reviewedBy) s in
  match answer (ReviewAccessRights now tenantID roleAssignmentIDs shareIDs reviewedBy) s with
  | Ok _ => all_reviewed (TrimSpace tenantID) (uniqueIDs roleAssignmentIDs) (roleAssignments s')
            ∧ all_reviewed (TrimSpace tenantID) (uniqueIDs shareIDs) (temporaryAccess s')
  | Err _ => roleAssignments s' = roleAssignments s ∧ temporaryAccess s' = temporaryAccess s
  end.
Proof.
  unfold exec, answer. destruct (ReviewAccessRights _ _ _ _ _ s) as [s' r] eqn:H. simpl.
  unfold ReviewAccessRights in H. rewrite !fail_if_bind in H. case_match; [by injection H as <- <-|].
  case_match; [by injection H as <- <-|]. cbv zeta in H.
  pose proof (find_all_state (A:=RoleAssignment) ErrRoleAssignmentNotFound (TrimSpace tenantID) (uniqueIDs roleAssignmentIDs) s) as Hst.
  unfold exec in Hst. rewrite bind_op_eq in H. destruct (find_all _ _ _ s) as [s1 [idx|e]] eqn:Hidx; simpl in Hst; subst s1;
    [|by injection H as <- <-].
  pose proof (find_all_state (A:=TemporaryAccess) ErrTemporaryAccessNotFound (TrimSpace tenantID) (uniqueIDs shareIDs) s) as Hst.
  unfold exec in Hst. rewrite bind_op_eq in H.
  destruct (find_all (A:=TemporaryAccess) _ _ _ s) as [s1 [sidx|e]] eqn:Hsidx; simpl in Hst; subst s1; [|by injection H as <- <-].
  apply find_all_answer in Hidx as [_ Hidx]. apply find_all_answer in Hsidx as [_ Hsidx].
  rewrite bind_gets, bind_op_eq in H. set (at_ := format_rfc3339 now) in *. set (by_ := firstNonEmpty _) in *.
  destruct (review_all_spec (A:=RoleAssignment) at_ by_ now idx [] 0 s) as (s1 & [as_ n1] & Hr1 & Hrow1);
    [apply format_rfc3339_nonempty|by eapply rows_in_range|]. rewrite Hr1, bind_op_eq in H.
  pose proof (review_all_other (A:=RoleAssignment) temporaryAccess at_ by_ now idx [] 0 s ltac:(done)) as Ho1.
  unfold exec in Ho1. rewrite Hr1 in Ho1. simpl in Ho1.
  destruct (review_all_spec (A:=TemporaryAccess) at_ by_ now sidx [] 0 s1) as (s2 & [sh n2] & Hr2 & Hrow2).
  { apply format_rfc3339_nonempty. }
  { apply rows_in_range in Hsidx. simpl in *. by rewrite Ho1. }
  rewrite Hr2, bind_op_eq in H.
  pose proof (review_all_other (A:=TemporaryAccess) roleAssignments at_ by_ now sidx [] 0 s1 ltac:(done)) as Ho2.
  unfold exec in Ho2. rewrite Hr2 in Ho2. unfold persist_or in H.
  pose proof (persist_rows (A:=RoleAssignment) s2) as P1. pose proof (persist_rows (A:=TemporaryAccess) s2) as P2.
  unfold exec in P1, P2. destruct (persistLocked s2) as [s3 [[]|e]]; simpl in *; injection H as <- <-; [|done].
  rewrite P1, P2, Ho2. rewrite Ho1 in Hrow2. split; by eapply reviewed_rows_all.
Qed.

(** ** Example *)

#[local] Abbreviation ex_service :=
  (mkService [] [] [] [] [] [] [] [] [] [] [] [] [] [] [] [] [] [] [] [] [] [] ∅ (Some (mkStore [] None))
     [chr <$> [0; 0; 0; 1]; chr <$> [0; 0; 0; 2]]).
#[local] Abbreviation ex_input :=
  (mkCreateGuestInput "t" "b" "Eva" "" "0811" "" "" "Ana" "" "" "passport" "" "" false [] 100).
#[local] Abbreviation ex_now := 1775912400123456789%Z.
#[local] Abbreviation ex_guest := (match answer (CreateGuest ex_now ex_input) ex_service with
                                   | Ok g => g
                                   | Err _ => mkGuest "" "" "" "" "" "" "" "" "" "" "" "" "" "" "" "" "" false "" "" "" [] 0 0
                                   end).

(** A hundred hours are cut to 72. *)
Lemma guest_token_lasts_witness :
  gstAccessTokenExpiresAt ex_guest = "2026-04-14T13:00:00Z"
  ∧ GetGuestByAccessToken (ex_now + 72 * hour) (gstTenantID ex_guest) (gstAccessToken ex_guest) (exec (CreateGuest ex_now ex_input) ex_service)
    = None.
Proof.
  split; [by vm_compute|].
  etransitivity; [apply (guest_token_lasts ex_now ex_input ex_service ex_guest); by vm_compute|by vm_compute].
Defined.
