(* ===== verification/Space.v ===== *)
(** * Buildings, floors, areas, doors and door groups (modules/space/service.go)

    The topology a tenant's doors live in.  [CreateFloor], [CreateArea],
    [CreateDoor] and [CreateDoorGroup] check what they refer to under the read
    lock and insert under the write lock taken afterwards: each is a check and an
    insertion, which another call may come between. *)

From S2P Require Import Prelude GoStrings GoTime.
#[local] Open Scope string_scope.
#[local] Open Scope list_scope.
#[local] Open Scope Z_scope.

Record Building := mkBuilding {
  bdID : string; bdTenantID : string; bdName : string; Address : string; Region : string; bdStatus : string;
  ArchivedAt : option Z; bdCreatedAt : Z
}.
#[export] Instance eta_Building : Eta Building := λ x,
  mkBuilding (bdID x) (bdTenantID x) (bdName x) (Address x) (Region x) (bdStatus x) (ArchivedAt x) (bdCreatedAt x).

Record Floor := mkFloor { flID : string; flTenantID : string; flBuildingID : string; flName : string; flCreatedAt : Z }.
#[export] Instance eta_Floor : Eta Floor := λ x,
  mkFloor (flID x) (flTenantID x) (flBuildingID x) (flName x) (flCreatedAt x).

Record Area := mkArea {
  arID : string; arTenantID : string; arBuildingID : string; arFloorID : string; arName : string; arCreatedAt : Z
}.
#[export] Instance eta_Area : Eta Area := λ x,
  mkArea (arID x) (arTenantID x) (arBuildingID x) (arFloorID x) (arName x) (arCreatedAt x).

Record Door := mkDoor {
  drID : string; drTenantID : string; drBuildingID : string; drFloorID : string; drAreaID : string;
  drName : string; drGatewayID : string; Kind : string; drStatus : string; drCreatedAt : Z
}.
#[export] Instance eta_Door : Eta Door := λ x,
  mkDoor (drID x) (drTenantID x) (drBuildingID x) (drFloorID x) (drAreaID x) (drName x) (drGatewayID x) (Kind x)
    (drStatus x) (drCreatedAt x).

Record DoorGroup := mkDoorGroup {
  dgID : string; dgTenantID : string; dgName : string; DoorIDs : list string; dgCreatedAt : Z
}.
#[export] Instance eta_DoorGroup : Eta DoorGroup := λ x,
  mkDoorGroup (dgID x) (dgTenantID x) (dgName x) (DoorIDs x) (dgCreatedAt x).

Record TenantTopology := mkTopology {
  topTenantID : string; topBuildings : list Building; topFloors : list Floor; topAreas : list Area; topDoors : list Door
}.

(** The tables, which are also what is saved. *)
Record Tables := mkTables {
  buildings : list Building; floors : list Floor; areas : list Area; doors : list Door; doorGroups : list DoorGroup
}.
#[export] Instance eta_Tables : Eta Tables := λ x,
  mkTables (buildings x) (floors x) (areas x) (doors x) (doorGroups x).

Record Service := mkService { tables : Tables; savedTables : option Tables }.
#[export] Instance eta_Service : Eta Service := λ s, mkService (tables s) (savedTables s).

Inductive space_err :=
| ErrTenantIDRequired | ErrBuildingIDRequired | ErrBuildingNameRequired | ErrBuildingNotFound
| ErrFloorIDRequired | ErrFloorNameRequired | ErrFloorNotFound
| ErrAreaIDRequired | ErrAreaNameRequired | ErrAreaNotFound
| ErrDoorNameRequired | ErrDoorGroupNameRequired | ErrDoorGroupNotFound | ErrDoorNotFound
| ErrFloorBuildingMismatch | ErrAreaFloorMismatch | ErrTenantOwnershipMismatch
| ErrInvalidDoorKind | ErrInvalidDoorStatus | ErrRandom | ErrSave.
#[export] Instance space_service_err : ServiceErr space_err := {| ErrRand := ErrRandom; ErrStore := ErrSave |}.

Abbreviation m := (op Service space_err).

(** ** Normalisation and look-ups *)

Definition normalizeBuildingStatus (status : string) : string :=
  if String.eqb (ToLower (TrimSpace status)) "archived" then "archived" else "active".
Definition normalizeBuildingRecord (b : Building) : Building := b <| bdStatus ::= normalizeBuildingStatus |>.
Definition isBuildingArchived (b : Building) : bool := String.eqb (normalizeBuildingStatus (bdStatus b)) "archived".
Definition cloneBuildings (bs : list Building) : list Building := normalizeBuildingRecord <$> bs.

#[export, program] Instance space_persistent : Persistent Service Tables := {|
  snapshot := λ s, (tables s) <| buildings ::= cloneBuildings |>;
  saved := savedTables; set_saved := λ d s, s <| savedTables := d |>
|}.
Solve All Obligations with done.

(** [restoreFromStateStore]: the tables of the store, or a first save of the seeds. *)
Definition restoreFromStateStore (env : Env) : m unit :=
  st ← gets savedTables;
  match st with
  | None => persistLocked env
  | Some t => modify (fun s => s <| tables := t <| buildings ::= cloneBuildings |> |>)
  end.

Definition normalizeDoorKind (kind : string) : result space_err string :=
  let nextKind := ToLower (TrimSpace kind) in
  if is_empty nextKind then Ok "office"
  else if existsb (String.eqb nextKind) ["office"; "turnstile"; "server-room"; "elevator"; "parking-gate"; "emergency-exit"]
  then Ok nextKind else Err ErrInvalidDoorKind.
Definition normalizeDoorStatus (status : string) : result space_err string :=
  let nextStatus := ToLower (TrimSpace status) in
  if is_empty nextStatus then Ok "offline"
  else if existsb (String.eqb nextStatus) ["online"; "offline"] then Ok nextStatus else Err ErrInvalidDoorStatus.

Definition findBuildingLocked (id : string) (t : Tables) : option (nat * Building) :=
  findi (fun b => String.eqb (bdID b) id && negb (isBuildingArchived b)) (buildings t).
Definition findBuildingIncludingArchivedLocked (id : string) (t : Tables) : option (nat * Building) :=
  findi (fun b => String.eqb (bdID b) id) (buildings t).
Definition findFloorLocked (id : string) (t : Tables) : option (nat * Floor) :=
  findi (fun f => String.eqb (flID f) id) (floors t).
Definition findAreaLocked (id : string) (t : Tables) : option (nat * Area) :=
  findi (fun a => String.eqb (arID a) id) (areas t).
Definition findDoorLocked (id : string) (t : Tables) : option (nat * Door) :=
  findi (fun d => String.eqb (drID d) id) (doors t).
Definition findDoorGroup (id : string) (t : Tables) : option (nat * DoorGroup) :=
  findi (fun g => String.eqb (dgID g) id) (doorGroups t).

Definition removeDoorIDsFromGroups (gone : string → bool) (gs : list DoorGroup) : list DoorGroup :=
  (fun g => g <| DoorIDs ::= filterb (fun d => negb (gone d)) |>) <$> gs.

(** A trimmed field, or the error when it is blank. *)
Definition need (v : string) (e : space_err) : m string :=
  let v := TrimSpace v in fail_if (is_empty v) e ;; mret v.

(** A row, or the error when there is none or it is another tenant's. *)
Definition own {A} (found : option (nat * A)) (tenant : A → string) (tenantID : string) (e : space_err) : m (nat * A) :=
  match found with
  | None => throw e
  | Some r => fail_if (negb (String.eqb (tenant r.2) tenantID)) e ;; mret r
  end.

Definition change (f : Tables → Tables) : m unit := modify (fun s => s <| tables ::= f |>).

(** The listings show one tenant, or all when none is given. *)
Definition shown {A} (tenant : A → string) (tenantID : string) (l : list A) : list A :=
  filterb (fun x => is_empty (TrimSpace tenantID) || String.eqb (tenant x) (TrimSpace tenantID)) l.

(** ** Buildings *)

Definition ListBuildings (tenantID : string) (s : Service) : list Building :=
  normalizeBuildingRecord <$>
    filterb (fun b => negb (isBuildingArchived b)) (shown bdTenantID tenantID (buildings (tables s))).
Definition ListBuildingsIncludingArchived (tenantID : string) (s : Service) : list Building :=
  normalizeBuildingRecord <$> shown bdTenantID tenantID (buildings (tables s)).

Definition CreateBuilding (env : Env) (tenantID name address region : string) : m Building :=
  nextTenantID ← need tenantID ErrTenantIDRequired;
  nextName ← need name ErrBuildingNameRequired;
  id ← lift (fresh_id "building_" env);
  let record := mkBuilding id nextTenantID nextName (TrimSpace address) (TrimSpace region) "active" None (now env) in
  change (fun t => t <| buildings ::= cons record |>) ;;
  persistLocked env ;;
  mret record.

Definition GetBuilding (tenantID buildingID : string) : m Building :=
  nextTenantID ← need tenantID ErrTenantIDRequired;
  nextBuildingID ← need buildingID ErrBuildingIDRequired;
  found ← gets (fun s => findBuildingLocked nextBuildingID (tables s));
  '(_, b) ← own found bdTenantID nextTenantID ErrBuildingNotFound;
  mret (normalizeBuildingRecord b).
Definition GetBuildingIncludingArchived (tenantID buildingID : string) : m Building :=
  nextTenantID ← need tenantID ErrTenantIDRequired;
  nextBuildingID ← need buildingID ErrBuildingIDRequired;
  found ← gets (fun s => findBuildingIncludingArchivedLocked nextBuildingID (tables s));
  '(_, b) ← own found bdTenantID nextTenantID ErrBuildingNotFound;
  mret (normalizeBuildingRecord b).

(** The first building of the id, if it is the tenant's and not archived. *)
Definition live_building (tenantID id : string) : m (nat * Building) :=
  found ← gets (fun s => findBuildingIncludingArchivedLocked id (tables s));
  '(i, b) ← own found bdTenantID tenantID ErrBuildingNotFound;
  fail_if (isBuildingArchived b) ErrBuildingNotFound ;;
  mret (i, b).

Definition UpdateBuilding (env : Env) (tenantID buildingID name address region : string) : m Building :=
  nextTenantID ← need tenantID ErrTenantIDRequired;
  nextBuildingID ← need buildingID ErrBuildingIDRequired;
  nextName ← need name ErrBuildingNameRequired;
  '(i, b) ← live_building nextTenantID nextBuildingID;
  let b' := b <| bdName := nextName |> <| Address := TrimSpace address |> <| Region := TrimSpace region |> in
  change (fun t => t <| buildings ::= <[i := b']> |>) ;;
  persistLocked env ;;
  mret b'.

(** The ids of the doors a removal takes. *)
Definition door_gone (p : Door → bool) (t : Tables) (id : string) : bool :=
  existsb (fun d => String.eqb (drID d) id && p d) (doors t).

Definition archive_building (i : nat) (b : Building) (archivedAt : Z) (t : Tables) : Tables :=
  let id := bdID b in
  t <| buildings ::= <[i := b <| bdStatus := "archived" |> <| ArchivedAt := Some archivedAt |>]> |>
    <| floors ::= filterb (fun f => negb (String.eqb (flBuildingID f) id)) |>
    <| areas ::= filterb (fun a => negb (String.eqb (arBuildingID a) id)) |>
    <| doors ::= filterb (fun d => negb (String.eqb (drBuildingID d) id)) |>
    <| doorGroups ::= removeDoorIDsFromGroups (door_gone (fun d => String.eqb (drBuildingID d) id) t) |>.

Definition DeleteBuilding (env : Env) (tenantID buildingID : string) : m unit :=
  nextTenantID ← need tenantID ErrTenantIDRequired;
  nextBuildingID ← need buildingID ErrBuildingIDRequired;
  '(i, b) ← live_building nextTenantID nextBuildingID;
  change (archive_building i b (now env)) ;;
  persistLocked env.

(** ** Floors *)

Definition ListFloors (tenantID : string) (s : Service) : list Floor := shown flTenantID tenantID (floors (tables s)).

(** The building of an insertion. *)
Definition check_building (tenantID buildingID : string) : m unit :=
  found ← gets (fun s => findBuildingLocked buildingID (tables s));
  match found with
  | None => throw ErrBuildingNotFound
  | Some (_, b) => fail_if (negb (String.eqb (bdTenantID b) tenantID)) ErrTenantOwnershipMismatch
  end.

(** The checks under the read lock and the record they lead to. *)
Definition CreateFloor_check (env : Env) (tenantID buildingID name : string) : m Floor :=
  nextTenantID ← need tenantID ErrTenantIDRequired;
  nextBuildingID ← need buildingID ErrBuildingIDRequired;
  nextName ← need name ErrFloorNameRequired;
  check_building nextTenantID nextBuildingID ;;
  id ← lift (fresh_id "floor_" env);
  mret (mkFloor id nextTenantID nextBuildingID nextName (now env)).
Definition CreateFloor_insert (env : Env) (record : Floor) : m Floor :=
  change (fun t => t <| floors ::= cons record |>) ;;
  persistLocked env ;;
  mret record.
Definition CreateFloor (env : Env) (tenantID buildingID name : string) : m Floor :=
  record ← CreateFloor_check env tenantID buildingID name; CreateFloor_insert env record.

Definition GetFloor (tenantID floorID : string) : m Floor :=
  nextTenantID ← need tenantID ErrTenantIDRequired;
  nextFloorID ← need floorID ErrFloorIDRequired;
  found ← gets (fun s => findFloorLocked nextFloorID (tables s));
  '(_, f) ← own found flTenantID nextTenantID ErrFloorNotFound; mret f.

Definition move_floor (i : nat) (f f' : Floor) (t : Tables) : Tables :=
  let t' := t <| floors ::= <[i := f']> |> in
  if String.eqb (flBuildingID f) (flBuildingID f') then t'
  else t' <| areas ::= fmap (fun a => if String.eqb (arFloorID a) (flID f)
                                      then a <| arBuildingID := flBuildingID f' |> else a) |>
          <| doors ::= fmap (fun d => if String.eqb (drFloorID d) (flID f)
                                      then d <| drBuildingID := flBuildingID f' |> else d) |>.

Definition UpdateFloor (env : Env) (tenantID floorID buildingID name : string) : m Floor :=
  nextTenantID ← need tenantID ErrTenantIDRequired;
  nextFloorID ← need floorID ErrFloorIDRequired;
  nextBuildingID ← need buildingID ErrBuildingIDRequired;
  nextName ← need name ErrFloorNameRequired;
  found ← gets (fun s => findFloorLocked nextFloorID (tables s));
  '(i, f) ← own found flTenantID nextTenantID ErrFloorNotFound;
  check_building nextTenantID nextBuildingID ;;
  let f' := f <| flBuildingID := nextBuildingID |> <| flName := nextName |> in
  change (move_floor i f f') ;;
  persistLocked env ;;
  mret f'.

Definition drop_floor (i : nat) (id : string) (t : Tables) : Tables :=
  t <| floors ::= delete i |>
    <| areas ::= filterb (fun a => negb (String.eqb (arFloorID a) id)) |>
    <| doors ::= filterb (fun d => negb (String.eqb (drFloorID d) id)) |>
    <| doorGroups ::= removeDoorIDsFromGroups (door_gone (fun d => String.eqb (drFloorID d) id) t) |>.

Definition DeleteFloor (env : Env) (tenantID floorID : string) : m unit :=
  nextTenantID ← need tenantID ErrTenantIDRequired;
  nextFloorID ← need floorID ErrFloorIDRequired;
  found ← gets (fun s => findFloorLocked nextFloorID (tables s));
  '(i, _) ← own found flTenantID nextTenantID ErrFloorNotFound;
  change (drop_floor i nextFloorID) ;;
  persistLocked env.

(** ** Areas *)

Definition ListAreas (tenantID : string) (s : Service) : list Area := shown arTenantID tenantID (areas (tables s)).

(** A building and one of its floors, both the tenant's. *)
Definition check_floor (tenantID buildingID floorID : string) : m unit :=
  t ← gets tables;
  match findBuildingLocked buildingID t, findFloorLocked floorID t with
  | None, _ => throw ErrBuildingNotFound
  | _, None => throw ErrFloorNotFound
  | Some (_, b), Some (_, f) =>
      fail_if (negb (String.eqb (bdTenantID b) tenantID) || negb (String.eqb (flTenantID f) tenantID))
        ErrTenantOwnershipMismatch ;;
      fail_if (negb (String.eqb (flBuildingID f) buildingID)) ErrFloorBuildingMismatch
  end.

Definition CreateArea_check (env : Env) (tenantID buildingID floorID name : string) : m Area :=
  nextTenantID ← need tenantID ErrTenantIDRequired;
  nextBuildingID ← need buildingID ErrBuildingIDRequired;
  nextFloorID ← need floorID ErrFloorIDRequired;
  nextName ← need name ErrAreaNameRequired;
  check_floor nextTenantID nextBuildingID nextFloorID ;;
  id ← lift (fresh_id "area_" env);
  mret (mkArea id nextTenantID nextBuildingID nextFloorID nextName (now env)).
Definition CreateArea_insert (env : Env) (record : Area) : m Area :=
  change (fun t => t <| areas ::= cons record |>) ;;
  persistLocked env ;;
  mret record.
Definition CreateArea (env : Env) (tenantID buildingID floorID name : string) : m Area :=
  record ← CreateArea_check env tenantID buildingID floorID name; CreateArea_insert env record.

Definition GetArea (tenantID areaID : string) : m Area :=
  nextTenantID ← need tenantID ErrTenantIDRequired;
  nextAreaID ← need areaID ErrAreaIDRequired;
  found ← gets (fun s => findAreaLocked nextAreaID (tables s));
  '(_, a) ← own found arTenantID nextTenantID ErrAreaNotFound; mret a.

Definition move_area (i : nat) (a a' : Area) (t : Tables) : Tables :=
  let t' := t <| areas ::= <[i := a']> |> in
  if String.eqb (arBuildingID a) (arBuildingID a') && String.eqb (arFloorID a) (arFloorID a') then t'
  else t' <| doors ::= fmap (fun d => if String.eqb (drAreaID d) (arID a)
                                      then d <| drBuildingID := arBuildingID a' |> <| drFloorID := arFloorID a' |>
                                      else d) |>.

Definition UpdateArea (env : Env) (tenantID areaID buildingID floorID name : string) : m Area :=
  nextTenantID ← need tenantID ErrTenantIDRequired;
  nextAreaID ← need areaID ErrAreaIDRequired;
  nextBuildingID ← need buildingID ErrBuildingIDRequired;
  nextFloorID ← need floorID ErrFloorIDRequired;
  nextName ← need name ErrAreaNameRequired;
  found ← gets (fun s => findAreaLocked nextAreaID (tables s));
  '(i, a) ← own found arTenantID nextTenantID ErrAreaNotFound;
  check_floor nextTenantID nextBuildingID nextFloorID ;;
  let a' := a <| arBuildingID := nextBuildingID |> <| arFloorID := nextFloorID |> <| arName := nextName |> in
  change (move_area i a a') ;;
  persistLocked env ;;
  mret a'.

(** ** Doors *)

Definition ListDoors (tenantID : string) (s : Service) : list Door := shown drTenantID tenantID (doors (tables s)).

Definition GetDoor (tenantID doorID : string) : m Door :=
  nextTenantID ← need tenantID ErrTenantIDRequired;
  nextDoorID ← need doorID ErrDoorNotFound;
  found ← gets (fun s => findDoorLocked nextDoorID (tables s));
  '(_, d) ← own found drTenantID nextTenantID ErrDoorNotFound; mret d.

(** A building, one of its floors and one of its areas, all the tenant's. *)
Definition check_area (tenantID buildingID floorID areaID : string) : m unit :=
  t ← gets tables;
  match findBuildingLocked buildingID t, findFloorLocked floorID t, findAreaLocked areaID t with
  | None, _, _ => throw ErrBuildingNotFound
  | _, None, _ => throw ErrFloorNotFound
  | _, _, None => throw ErrAreaNotFound
  | Some (_, b), Some (_, f), Some (_, a) =>
      fail_if (negb (String.eqb (bdTenantID b) tenantID) || negb (String.eqb (flTenantID f) tenantID)
               || negb (String.eqb (arTenantID a) tenantID)) ErrTenantOwnershipMismatch ;;
      fail_if (negb (String.eqb (flBuildingID f) buildingID)) ErrFloorBuildingMismatch ;;
      fail_if (negb (String.eqb (arFloorID a) floorID) || negb (String.eqb (arBuildingID a) buildingID)) ErrAreaFloorMismatch
  end.

(** The fields of a door, as they are given and as they are stored. *)
Record DoorInput := mkDoorInput {
  diTenantID : string; diBuildingID : string; diFloorID : string; diAreaID : string; diName : string;
  diGatewayID : string; diKind : string; diStatus : string
}.

(** What follows the id of the door in [UpdateDoor], and all of it in [CreateDoor]. *)
Definition door_fields (i : DoorInput) : m DoorInput :=
  nextBuildingID ← need (diBuildingID i) ErrBuildingIDRequired;
  nextFloorID ← need (diFloorID i) ErrFloorIDRequired;
  nextAreaID ← need (diAreaID i) ErrAreaIDRequired;
  nextName ← need (diName i) ErrDoorNameRequired;
  nextKind ← lift (normalizeDoorKind (diKind i));
  nextStatus ← lift (normalizeDoorStatus (diStatus i));
  mret (mkDoorInput (TrimSpace (diTenantID i)) nextBuildingID nextFloorID nextAreaID nextName
          (TrimSpace (diGatewayID i)) nextKind nextStatus).

Definition CreateDoor_check (env : Env) (i : DoorInput) : m Door :=
  nextTenantID ← need (diTenantID i) ErrTenantIDRequired;
  n ← door_fields i;
  check_area nextTenantID (diBuildingID n) (diFloorID n) (diAreaID n) ;;
  id ← lift (fresh_id "door_" env);
  mret (mkDoor id nextTenantID (diBuildingID n) (diFloorID n) (diAreaID n) (diName n) (diGatewayID n) (diKind n)
          (diStatus n) (now env)).
Definition CreateDoor_insert (env : Env) (record : Door) : m Door :=
  change (fun t => t <| doors ::= cons record |>) ;;
  persistLocked env ;;
  mret record.
Definition CreateDoor (env : Env) (i : DoorInput) : m Door :=
  record ← CreateDoor_check env i; CreateDoor_insert env record.

Definition UpdateDoor (env : Env) (doorID : string) (i : DoorInput) : m Door :=
  nextTenantID ← need (diTenantID i) ErrTenantIDRequired;
  nextDoorID ← need doorID ErrDoorNotFound;
  n ← door_fields i;
  found ← gets (fun s => findDoorLocked nextDoorID (tables s));
  '(k, d) ← own found drTenantID nextTenantID ErrDoorNotFound;
  check_area nextTenantID (diBuildingID n) (diFloorID n) (diAreaID n) ;;
  let d' := d <| drBuildingID := diBuildingID n |> <| drFloorID := diFloorID n |> <| drAreaID := diAreaID n |>
              <| drName := diName n |> <| drGatewayID := diGatewayID n |> <| Kind := diKind n |>
              <| drStatus := diStatus n |> in
  change (fun t => t <| doors ::= <[k := d']> |>) ;;
  persistLocked env ;;
  mret d'.

Definition drop_door (i : nat) (id : string) (t : Tables) : Tables :=
  t <| doors ::= delete i |> <| doorGroups ::= removeDoorIDsFromGroups (String.eqb id) |>.

Definition DeleteDoor (env : Env) (tenantID doorID : string) : m unit :=
  nextTenantID ← need tenantID ErrTenantIDRequired;
  nextDoorID ← need doorID ErrDoorNotFound;
  found ← gets (fun s => findDoorLocked nextDoorID (tables s));
  '(i, _) ← own found drTenantID nextTenantID ErrDoorNotFound;
  change (drop_door i nextDoorID) ;;
  persistLocked env.

(** ** Door groups *)

Definition ListDoorGroups (tenantID : string) (s : Service) : list DoorGroup :=
  shown dgTenantID tenantID (doorGroups (tables s)).

(** The loop over the ids: blanks and repetitions are dropped. *)
Fixpoint check_doors (tenantID : string) (seen ids : list string) : m (list string) :=
  match ids with
  | [] => mret []
  | raw :: ids' =>
      let id := TrimSpace raw in
      if is_empty id || existsb (String.eqb id) seen then check_doors tenantID seen ids'
      else
        found ← gets (fun s => findDoorLocked id (tables s));
        match found with
        | None => throw ErrDoorNotFound
        | Some (_, d) =>
            fail_if (negb (String.eqb (drTenantID d) tenantID)) ErrTenantOwnershipMismatch ;;
            rest ← check_doors tenantID (id :: seen) ids';
            mret (id :: rest)
        end
  end.

Definition CreateDoorGroup_check (env : Env) (tenantID name : string) (doorIDs : list string) : m DoorGroup :=
  nextTenantID ← need tenantID ErrTenantIDRequired;
  nextName ← need name ErrDoorGroupNameRequired;
  nextDoorIDs ← check_doors nextTenantID [] doorIDs;
  id ← lift (fresh_id "dg_" env);
  mret (mkDoorGroup id nextTenantID nextName nextDoorIDs (now env)).
Definition CreateDoorGroup_insert (env : Env) (record : DoorGroup) : m DoorGroup :=
  change (fun t => t <| doorGroups ::= cons record |>) ;;
  persistLocked env ;;
  mret record.
Definition CreateDoorGroup (env : Env) (tenantID name : string) (doorIDs : list string) : m DoorGroup :=
  record ← CreateDoorGroup_check env tenantID name doorIDs; CreateDoorGroup_insert env record.

Definition put_group (i : nat) (g : DoorGroup) : m unit := change (fun t => t <| doorGroups ::= <[i := g]> |>).

Definition AddDoorToGroup (env : Env) (tenantID groupID doorID : string) : m DoorGroup :=
  nextTenantID ← need tenantID ErrTenantIDRequired;
  nextGroupID ← need groupID ErrDoorGroupNotFound;
  nextDoorID ← need doorID ErrDoorNotFound;
  found ← gets (fun s => findDoorLocked nextDoorID (tables s));
  match found with
  | None => throw ErrDoorNotFound
  | Some (_, d) =>
      fail_if (negb (String.eqb (drTenantID d) nextTenantID)) ErrTenantOwnershipMismatch ;;
      group ← gets (fun s => findDoorGroup nextGroupID (tables s));
      '(i, g) ← own group dgTenantID nextTenantID ErrDoorGroupNotFound;
      if existsb (String.eqb nextDoorID) (DoorIDs g) then mret g
      else
        let g' := g <| DoorIDs ::= (fun l => l ++ [nextDoorID]) |> in
        put_group i g' ;;
        persistLocked env ;;
        mret g'
  end.

Definition RemoveDoorFromGroup (env : Env) (tenantID groupID doorID : string) : m DoorGroup :=
  nextTenantID ← need tenantID ErrTenantIDRequired;
  nextGroupID ← need groupID ErrDoorGroupNotFound;
  nextDoorID ← need doorID ErrDoorNotFound;
  group ← gets (fun s => findDoorGroup nextGroupID (tables s));
  '(i, g) ← own group dgTenantID nextTenantID ErrDoorGroupNotFound;
  fail_if (negb (existsb (String.eqb nextDoorID) (DoorIDs g))) ErrDoorNotFound ;;
  let g' := g <| DoorIDs ::= filterb (fun d => negb (String.eqb d nextDoorID)) |> in
  put_group i g' ;;
  persistLocked env ;;
  mret g'.

Definition TopologyByTenant (tenantID : string) : m TenantTopology :=
  nextTenantID ← need tenantID ErrTenantIDRequired;
  t ← gets tables;
  let of_tenant {A} (tenant : A → string) := filterb (fun x : A => String.eqb (tenant x) nextTenantID) in
  mret (mkTopology nextTenantID
          (normalizeBuildingRecord <$> filterb (fun b => String.eqb (bdTenantID b) nextTenantID && negb (isBuildingArchived b))
                                         (buildings t))
          (of_tenant flTenantID (floors t)) (of_tenant arTenantID (areas t)) (of_tenant drTenantID (doors t))).

(** ** The topology is consistent

    Every floor is in a building that is not archived, every area on a floor of
    its building, every door in an area of its floor and building, every door of
    a group exists; all within one tenant, and no two rows of a table share an id. *)

Definition building_at (t : Tables) (tenant id : string) : Prop :=
  ∃ b, b ∈ buildings t ∧ bdID b = id ∧ bdTenantID b = tenant ∧ isBuildingArchived b = false.
Definition floor_at (t : Tables) (tenant building id : string) : Prop :=
  ∃ f, f ∈ floors t ∧ flID f = id ∧ flTenantID f = tenant ∧ flBuildingID f = building.
Definition area_at (t : Tables) (tenant building floor id : string) : Prop :=
  ∃ a, a ∈ areas t ∧ arID a = id ∧ arTenantID a = tenant ∧ arBuildingID a = building ∧ arFloorID a = floor.
Definition door_at (t : Tables) (tenant id : string) : Prop :=
  ∃ d, d ∈ doors t ∧ drID d = id ∧ drTenantID d = tenant.

Record Topology (t : Tables) : Prop := {
  top_building_ids : NoDup (bdID <$> buildings t);
  top_floor_ids : NoDup (flID <$> floors t);
  top_area_ids : NoDup (arID <$> areas t);
  top_door_ids : NoDup (drID <$> doors t);
  top_floor : ∀ f, f ∈ floors t → building_at t (flTenantID f) (flBuildingID f);
  top_area : ∀ a, a ∈ areas t → floor_at t (arTenantID a) (arBuildingID a) (arFloorID a);
  top_door : ∀ d, d ∈ doors t → area_at t (drTenantID d) (drBuildingID d) (drFloorID d) (drAreaID d);
  top_group : ∀ g id, g ∈ doorGroups t → id ∈ DoorIDs g → door_at t (dgTenantID g) id
}.

(** Rows after a replacement. *)
Lemma elem_of_put {A} (l : list A) i x x' y : l !! i = Some x → y ∈ <[i := x']> l → y = x' ∨ y ∈ l.
Proof.
  intros Hi [k Hk]%list_elem_of_lookup. destruct (decide (k = i)) as [->|].
  - rewrite list_lookup_insert_eq in Hk by by eapply lookup_lt_Some. naive_solver.
  - rewrite list_lookup_insert_ne in Hk by done. right. by eapply list_elem_of_lookup_2.
Qed.
Lemma put_keeps {A} (l : list A) i x x' y : l !! i = Some x → y ∈ l → y = x ∨ y ∈ <[i := x']> l.
Proof.
  intros Hi [k Hk]%list_elem_of_lookup. destruct (decide (k = i)) as [->|]; [left; congruence|right].
  apply (list_elem_of_lookup_2 _ k). by rewrite list_lookup_insert_ne.
Qed.
Lemma put_elem {A} (l : list A) i x x' : l !! i = Some x → x' ∈ <[i := x']> l.
Proof. intros Hi. apply (list_elem_of_lookup_2 _ i), list_lookup_insert_eq. by eapply lookup_lt_Some. Qed.

Lemma ids_put {A} (id : A → string) (l : list A) i x x' :
  l !! i = Some x → id x' = id x → id <$> <[i := x']> l = id <$> l.
Proof.
  intros Hi He. rewrite list_fmap_insert, He. apply list_insert_id. by rewrite list_lookup_fmap, Hi.
Qed.
Lemma ids_filter {A} (id : A → string) (p : A → bool) (l : list A) : NoDup (id <$> l) → NoDup (id <$> filterb p l).
Proof.
  induction l as [|x l IH]; simpl; [done|]. intros [Hx Hl]%NoDup_cons. destruct (p x); [|auto]. simpl.
  apply NoDup_cons. split; [|auto]. intros (y & He & [_ Hy]%elem_of_filterb)%list_elem_of_fmap. apply Hx.
  apply list_elem_of_fmap. eauto.
Qed.
Lemma ids_delete {A} (id : A → string) i (l : list A) : NoDup (id <$> l) → NoDup (id <$> delete i l).
Proof.
  revert i. induction l as [|x l IH]; intros [|i]; simpl; try done; intros [Hx Hl]%NoDup_cons; [done|].
  apply NoDup_cons. split; [|by apply IH]. intros (y & He & Hy)%list_elem_of_fmap. apply Hx.
  apply list_elem_of_fmap. exists y. split; [done|]. by eapply elem_of_delete_weaken.
Qed.
(** The row of an id is the only one. *)
Lemma ids_inj {A} (id : A → string) (l : list A) x y : NoDup (id <$> l) → x ∈ l → y ∈ l → id x = id y → x = y.
Proof.
  intros Hnd [i Hi]%list_elem_of_lookup [j Hj]%list_elem_of_lookup He.
  assert (i = j) by (eapply (NoDup_lookup _ _ _ (id x) Hnd); rewrite list_lookup_fmap, ?Hi, ?Hj; simpl; congruence).
  congruence.
Qed.
Lemma ids_delete_other {A} (id : A → string) i (l : list A) x y :
  NoDup (id <$> l) → l !! i = Some x → y ∈ delete i l ↔ y ∈ l ∧ id y ≠ id x.
Proof.
  intros Hnd Hi. split.
  - intros Hy. split; [by eapply elem_of_delete_weaken|]. intros He.
    assert (Hyl : y ∈ l) by by eapply elem_of_delete_weaken.
    assert (y = x) as -> by (eapply ids_inj; [done..|by eapply list_elem_of_lookup_2|done]).
    apply list_elem_of_lookup in Hy as [k Hk]. rewrite list_lookup_delete in Hk.
    assert (Hk' : (if (k <? i)%nat then k else S k) = i).
    { apply (NoDup_lookup _ _ _ (id x) Hnd); rewrite list_lookup_fmap, ?Hi; [|done].
      destruct (Nat.ltb_spec k i); [rewrite decide_True in Hk by done|rewrite decide_False in Hk by lia]; by rewrite Hk. }
    destruct (Nat.ltb_spec k i); lia.
  - intros [[k Hk]%list_elem_of_lookup Hne]. assert (k ≠ i) by congruence. apply list_elem_of_lookup.
    destruct (decide (k < i)%nat).
    + exists k. by rewrite list_lookup_delete, decide_True.
    + exists (k - 1)%nat. rewrite list_lookup_delete, decide_False by lia. by replace (S (k - 1)) with k by lia.
Qed.

(** *** Rows added *)

Section topology.
Context (t : Tables) (Ht : Topology t).

Lemma topo_add_building b : bdID b ∉ bdID <$> buildings t → Topology (t <| buildings ::= cons b |>).
Proof.
  intros Hb. destruct Ht as [H1 H2 H3 H4 H5 H6 H7 H8]. split; try done.
  - simpl. by apply NoDup_cons.
  - intros f Hf. destruct (H5 f Hf) as (x & Hx & ?). exists x. split; [by right|done].
Qed.

Lemma topo_put_building i b b' :
  buildings t !! i = Some b → bdID b' = bdID b → bdTenantID b' = bdTenantID b →
  isBuildingArchived b' = isBuildingArchived b → Topology (t <| buildings ::= <[i := b']> |>).
Proof.
  intros Hi Hid Htn Har. destruct Ht as [H1 H2 H3 H4 H5 H6 H7 H8]. split; try done.
  - simpl. by rewrite (ids_put bdID _ _ _ _ Hi Hid).
  - intros f Hf. destruct (H5 f Hf) as (x & Hx & ? & ? & ?).
    destruct (put_keeps _ i b b' x Hi Hx) as [->|Hx']; [exists b'|by exists x].
    split; [by eapply put_elem|]. split_and!; congruence.
Qed.

Lemma topo_add_floor f :
  flID f ∉ flID <$> floors t → building_at t (flTenantID f) (flBuildingID f) → Topology (t <| floors ::= cons f |>).
Proof.
  intros Hf Hb. destruct Ht as [H1 H2 H3 H4 H5 H6 H7 H8]. split; try done.
  - simpl. by apply NoDup_cons.
  - simpl. intros x [->|Hx]%elem_of_cons; [done|by apply H5].
  - intros a Ha. destruct (H6 a Ha) as (x & Hx & ?). exists x. split; [by right|done].
Qed.

Lemma topo_add_area a :
  arID a ∉ arID <$> areas t → floor_at t (arTenantID a) (arBuildingID a) (arFloorID a) →
  Topology (t <| areas ::= cons a |>).
Proof.
  intros Ha Hf. destruct Ht as [H1 H2 H3 H4 H5 H6 H7 H8]. split; try done.
  - simpl. by apply NoDup_cons.
  - simpl. intros x [->|Hx]%elem_of_cons; [done|by apply H6].
  - intros d Hd. destruct (H7 d Hd) as (x & Hx & ?). exists x. split; [by right|done].
Qed.

Lemma topo_add_door d :
  drID d ∉ drID <$> doors t → area_at t (drTenantID d) (drBuildingID d) (drFloorID d) (drAreaID d) →
  Topology (t <| doors ::= cons d |>).
Proof.
  intros Hd Ha. destruct Ht as [H1 H2 H3 H4 H5 H6 H7 H8]. split; try done.
  - simpl. by apply NoDup_cons.
  - simpl. intros x [->|Hx]%elem_of_cons; [done|by apply H7].
  - intros g id Hg Hid. destruct (H8 g id Hg Hid) as (x & Hx & ?). exists x. split; [by right|done].
Qed.

Lemma topo_put_door i d d' :
  doors t !! i = Some d → drID d' = drID d → drTenantID d' = drTenantID d →
  area_at t (drTenantID d') (drBuildingID d') (drFloorID d') (drAreaID d') →
  Topology (t <| doors ::= <[i := d']> |>).
Proof.
  intros Hi Hid Htn Ha. destruct Ht as [H1 H2 H3 H4 H5 H6 H7 H8]. split; try done.
  - simpl. by rewrite (ids_put drID _ _ _ _ Hi Hid).
  - simpl. intros x Hx. destruct (elem_of_put _ _ _ _ _ Hi Hx) as [->|]; [done|by apply H7].
  - intros g id Hg Hgid. destruct (H8 g id Hg Hgid) as (x & Hx & ? & ?).
    destruct (put_keeps _ i d d' x Hi Hx) as [->|Hx']; [exists d'|by exists x].
    split; [by eapply put_elem|]. split; congruence.
Qed.

Lemma topo_groups f :
  (∀ g id, g ∈ f (doorGroups t) → id ∈ DoorIDs g → door_at t (dgTenantID g) id) → Topology (t <| doorGroups ::= f |>).
Proof. intros Hg. destruct Ht as [H1 H2 H3 H4 H5 H6 H7 H8]. by split. Qed.

(** *** Rows moved *)

Lemma topo_move_floor i f f' :
  floors t !! i = Some f → flID f' = flID f → flTenantID f' = flTenantID f →
  building_at t (flTenantID f') (flBuildingID f') → Topology (move_floor i f f' t).
Proof.
  intros Hi Hid Htn Hb. assert (Hf := list_elem_of_lookup_2 _ _ _ Hi). unfold move_floor.
  destruct Ht as [H1 H2 H3 H4 H5 H6 H7 H8].
  assert (H5' : ∀ x, x ∈ <[i := f']> (floors t) → building_at t (flTenantID x) (flBuildingID x)).
  { intros x Hx. destruct (elem_of_put _ _ _ _ _ Hi Hx) as [->|]; [done|by apply H5]. }
  assert (Hsame : ∀ x, x ∈ floors t → flID x ≠ flID f → x ∈ <[i := f']> (floors t)).
  { intros x Hx Hne. destruct (put_keeps _ i f f' x Hi Hx) as [->|]; done. }
  assert (Honly : ∀ x, x ∈ floors t → flID x = flID f → x = f) by (intros; by eapply ids_inj).
  destruct (String.eqb_spec (flBuildingID f) (flBuildingID f')) as [Eb|Eb].
  - split; try done; simpl.
    + by rewrite (ids_put flID _ _ _ _ Hi Hid).
    + intros a Ha. destruct (H6 a Ha) as (x & Hx & Hxi & Hxt & Hxb).
      destruct (put_keeps _ i f f' x Hi Hx) as [->|Hx']; [exists f'|by exists x].
      split; [by eapply put_elem|]. split_and!; congruence.
  - split; try done; simpl.
    + by rewrite (ids_put flID _ _ _ _ Hi Hid).
    + rewrite <- list_fmap_compose. erewrite list_fmap_ext; [exact H3|]. intros k a _. simpl. by destruct (_ =? _)%string.
    + rewrite <- list_fmap_compose. erewrite list_fmap_ext; [exact H4|]. intros k a _. simpl. by destruct (_ =? _)%string.
    + intros a (a0 & -> & Ha)%list_elem_of_fmap. destruct (H6 a0 Ha) as (x & Hx & Hxi & Hxt & Hxb).
      destruct (String.eqb_spec (arFloorID a0) (flID f)) as [E|E]; simpl.
      * assert (x = f) as -> by (apply Honly; congruence). exists f'. split; [by eapply put_elem|]. split_and!; congruence.
      * exists x. split_and!; try done. apply Hsame; congruence.
    + intros d (d0 & -> & Hd)%list_elem_of_fmap. destruct (H7 d0 Hd) as (a & Ha & Hai & Hat & Hab & Haf).
      eexists. split; [by apply list_elem_of_fmap_2|]. simpl.
      destruct (String.eqb_spec (drFloorID d0) (flID f)) as [E|E], (String.eqb_spec (arFloorID a) (flID f)) as [E'|E'];
        simpl; split_and!; congruence.
    + intros g id Hg Hgid. destruct (H8 g id Hg Hgid) as (d & Hd & ? & ?).
      eexists. split; [by apply list_elem_of_fmap_2|]. by destruct (_ =? _)%string.
Qed.

Lemma topo_move_area i a a' :
  areas t !! i = Some a → arID a' = arID a → arTenantID a' = arTenantID a →
  floor_at t (arTenantID a') (arBuildingID a') (arFloorID a') → Topology (move_area i a a' t).
Proof.
  intros Hi Hid Htn Hf. assert (Ha := list_elem_of_lookup_2 _ _ _ Hi). unfold move_area.
  destruct Ht as [H1 H2 H3 H4 H5 H6 H7 H8].
  assert (H6' : ∀ x, x ∈ <[i := a']> (areas t) → floor_at t (arTenantID x) (arBuildingID x) (arFloorID x)).
  { intros x Hx. destruct (elem_of_put _ _ _ _ _ Hi Hx) as [->|]; [done|by apply H6]. }
  assert (Honly : ∀ x, x ∈ areas t → arID x = arID a → x = a) by (intros; by eapply ids_inj).
  destruct (_ && _) eqn:Eb.
  - boolp. split; try done; simpl.
    + by rewrite (ids_put arID _ _ _ _ Hi Hid).
    + intros d Hd. destruct (H7 d Hd) as (x & Hx & Hxi & Hxt & Hxb & Hxf).
      destruct (put_keeps _ i a a' x Hi Hx) as [->|Hx']; [exists a'|by exists x].
      split; [by eapply put_elem|]. split_and!; congruence.
  - split; try done; simpl.
    + by rewrite (ids_put arID _ _ _ _ Hi Hid).
    + rewrite <- list_fmap_compose. erewrite list_fmap_ext; [exact H4|]. intros k d _. simpl.
      by destruct (drAreaID d =? arID a)%string.
    + intros d (d0 & -> & Hd)%list_elem_of_fmap. destruct (H7 d0 Hd) as (x & Hx & Hxi & Hxt & Hxb & Hxf).
      destruct (String.eqb_spec (drAreaID d0) (arID a)) as [E|E]; simpl.
      * assert (x = a) as -> by (apply Honly; congruence). exists a'. split; [by eapply put_elem|]. split_and!; congruence.
      * exists x. split_and!; try done. destruct (put_keeps _ i a a' x Hi Hx) as [->|]; [|done]. by rewrite Hxi in E.
    + intros g id Hg Hgid. destruct (H8 g id Hg Hgid) as (d & Hd & ? & ?).
      eexists. split; [by apply list_elem_of_fmap_2|]. by destruct (drAreaID d =? arID a)%string.
Qed.

(** *** Rows removed *)

Lemma topo_groups_filter gone (ds : list Door) :
  (∀ d, d ∈ doors t → gone (drID d) = false → d ∈ ds) →
  ∀ g id, g ∈ removeDoorIDsFromGroups gone (doorGroups t) → id ∈ DoorIDs g →
  ∃ d, d ∈ ds ∧ drID d = id ∧ drTenantID d = dgTenantID g.
Proof.
  intros Hds g id (g0 & -> & Hg)%list_elem_of_fmap [Hid Hin]%elem_of_filterb.
  destruct (top_group t Ht g0 id Hg Hin) as (d & Hd & <- & Htn). exists d. split_and!; [|done|done].
  apply Hds; [done|]. by apply negb_true_iff.
Qed.

(** The doors a predicate keeps are those whose ids stay. *)
Lemma door_gone_keeps p d : d ∈ doors t → door_gone p t (drID d) = false → d ∈ filterb (λ d, negb (p d)) (doors t).
Proof.
  intros Hd Hg. apply elem_of_filterb. split; [|done]. unfold door_gone in Hg. apply negb_true_iff.
  destruct (p d) eqn:Hp; [|done]. rewrite <- Hg. symmetry. apply existsb_exists. exists d.
  split; [by apply list_elem_of_In|]. by rewrite String.eqb_refl.
Qed.

Lemma topo_archive i b at_ : buildings t !! i = Some b → Topology (archive_building i b at_ t).
Proof.
  intros Hi. assert (Hb := list_elem_of_lookup_2 _ _ _ Hi). pose proof (topo_groups_filter) as Hgr.
  pose proof (door_gone_keeps (λ d, String.eqb (drBuildingID d) (bdID b))) as Hkeep.
  specialize (Hgr _ _ Hkeep). unfold archive_building.
  destruct Ht as [H1 H2 H3 H4 H5 H6 H7 H8]. split; simpl; try by apply ids_filter.
  - by rewrite (ids_put bdID _ _ _ _ Hi).
  - intros f [Hne Hf]%elem_of_filterb. boolp. destruct (H5 f Hf) as (x & Hx & Hxi & ?). exists x. split; [|done].
    destruct (put_keeps _ i b (b <| bdStatus := "archived" |> <| ArchivedAt := Some at_ |>) x Hi Hx) as [->|Hx'].
    + by rewrite Hxi in Hne.
    + exact Hx'.
  - intros a [Hne Ha]%elem_of_filterb. boolp. destruct (H6 a Ha) as (f & Hf & ? & ? & Hfb). exists f. split_and!; try done.
    apply elem_of_filterb. split; [|done]. rewrite Hfb. by apply negb_true_iff, String.eqb_neq.
  - intros d [Hne Hd]%elem_of_filterb. boolp. destruct (H7 d Hd) as (a & Ha & ? & ? & Hab & ?). exists a. split_and!; try done.
    apply elem_of_filterb. split; [|done]. rewrite Hab. by apply negb_true_iff, String.eqb_neq.
  - exact Hgr.
Qed.

Lemma topo_drop_floor i f : floors t !! i = Some f → Topology (drop_floor i (flID f) t).
Proof.
  intros Hi. pose proof (topo_groups_filter _ _ (door_gone_keeps (λ d, String.eqb (drFloorID d) (flID f)))) as Hgr.
  unfold drop_floor. destruct Ht as [H1 H2 H3 H4 H5 H6 H7 H8].
  split; simpl; try done; try by apply ids_filter.
  - by apply ids_delete.
  - intros x Hx. apply H5. by eapply elem_of_delete_weaken.
  - intros a [Hne Ha]%elem_of_filterb. boolp. destruct (H6 a Ha) as (x & Hx & Hxi & ?). exists x. split; [|done].
    apply (ids_delete_other flID i _ f x H2 Hi). split; [done|congruence].
  - intros d [Hne Hd]%elem_of_filterb. boolp. destruct (H7 d Hd) as (a & Ha & ? & ? & ? & Haf). exists a. split_and!; try done.
    apply elem_of_filterb. split; [|done]. rewrite Haf. by apply negb_true_iff, String.eqb_neq.
Qed.

Lemma topo_drop_door i d : doors t !! i = Some d → Topology (drop_door i (drID d) t).
Proof.
  intros Hi.
  assert (Hds : ∀ x, x ∈ doors t → String.eqb (drID d) (drID x) = false → x ∈ delete i (doors t)).
  { intros x Hx Hne. apply String.eqb_neq in Hne. apply (ids_delete_other drID i _ d x (top_door_ids t Ht) Hi). auto. }
  pose proof (topo_groups_filter _ _ Hds) as Hgr.
  unfold drop_door. destruct Ht as [H1 H2 H3 H4 H5 H6 H7 H8]. split; simpl; try done.
  - by apply ids_delete.
  - intros x Hx. apply H7. by eapply elem_of_delete_weaken.
Qed.
End topology.

(** *** One call at a time *)

Definition topo (s : Service) : Prop := Topology (tables s).

Lemma exec_need {B} v e (f : string → m B) s :
  exec (need v e ≫= f) s = if is_empty (TrimSpace v) then s else exec (f (TrimSpace v)) s.
Proof. unfold exec, need. rewrite !bind_op_eq. unfold fail_if. simpl. by destruct (is_empty _). Qed.
Lemma exec_own {A B} (found : option (nat * A)) tenant tenantID e (f : nat * A → m B) s :
  exec (own found tenant tenantID e ≫= f) s
  = match found with
    | Some r => if String.eqb (tenant r.2) tenantID then exec (f r) s else s
    | None => s
    end.
Proof.
  destruct found as [r|]; [|done]. unfold exec, own. rewrite !bind_op_eq. unfold fail_if. simpl.
  by destruct (tenant r.2 =? tenantID)%string.
Qed.
Lemma exec_change {B} f (k : unit → m B) s : exec (change f ≫= k) s = exec (k tt) (s <| tables ::= f |>).
Proof. done. Qed.
#[local] Hint Rewrite @exec_need @exec_own @exec_change : exec_rw.

(** A save keeps the tables. *)
Lemma topo_persist env s : topo s → topo (exec (persistLocked (E:=space_err) env) s).
Proof. unfold topo, exec, persistLocked. by destruct (store env). Qed.
Lemma topo_persist_bind {B} env (f : unit → m B) s :
  (∀ s2, exec (f tt) s2 = s2) → topo s → topo (exec (persistLocked env ≫= f) s).
Proof. intros Hf. unfold topo, exec in *. rewrite bind_op_eq. unfold persistLocked. destruct (store env); simpl; by rewrite ?Hf. Qed.

Ltac topo_run :=
  cbv zeta;
  repeat first
    [ assumption
    | progress exec_run
    | match goal with
      | |- topo (match ?x with _ => _ end) => destruct x eqn:?
      | |- topo (exec (match ?x with _ => _ end) _) => destruct x eqn:?
      | |- topo (exec (persistLocked _ ≫= _) _) => apply topo_persist_bind; [done|]
      | |- topo (exec (persistLocked _) _) => apply topo_persist
      end ].

(** The checks of the references. *)
Definition building_ok (tenantID buildingID : string) (t : Tables) : bool :=
  match findBuildingLocked buildingID t with
  | Some (_, b) => String.eqb (bdTenantID b) tenantID
  | None => false
  end.
Definition floor_ok (tenantID buildingID floorID : string) (t : Tables) : bool :=
  building_ok tenantID buildingID t &&
  match findFloorLocked floorID t with
  | Some (_, f) => String.eqb (flTenantID f) tenantID && String.eqb (flBuildingID f) buildingID
  | None => false
  end.
Definition area_ok (tenantID buildingID floorID areaID : string) (t : Tables) : bool :=
  floor_ok tenantID buildingID floorID t &&
  match findAreaLocked areaID t with
  | Some (_, a) => String.eqb (arTenantID a) tenantID && String.eqb (arFloorID a) floorID
                   && String.eqb (arBuildingID a) buildingID
  | None => false
  end.

Lemma exec_check_building {B} tn b (f : unit → m B) s :
  exec (check_building tn b ≫= f) s = if building_ok tn b (tables s) then exec (f tt) s else s.
Proof.
  unfold exec, check_building, building_ok. rewrite !bind_op_eq. simpl.
  destruct (findBuildingLocked _ _) as [[i x]|]; [|done]. unfold fail_if. by destruct (bdTenantID x =? tn)%string.
Qed.
Lemma exec_check_floor {B} tn b fl (f : unit → m B) s :
  exec (check_floor tn b fl ≫= f) s = if floor_ok tn b fl (tables s) then exec (f tt) s else s.
Proof.
  unfold exec, check_floor, floor_ok, building_ok. rewrite !bind_op_eq. simpl.
  destruct (findBuildingLocked _ _) as [[i x]|]; [|done]. destruct (findFloorLocked _ _) as [[j y]|];
    [|by rewrite andb_false_r]. rewrite !bind_op_eq. unfold fail_if.
  destruct (bdTenantID x =? tn)%string, (flTenantID y =? tn)%string; simpl; try done.
  by destruct (flBuildingID y =? b)%string.
Qed.
Lemma exec_check_area {B} tn b fl ar (f : unit → m B) s :
  exec (check_area tn b fl ar ≫= f) s = if area_ok tn b fl ar (tables s) then exec (f tt) s else s.
Proof.
  unfold exec, check_area, area_ok, floor_ok, building_ok. rewrite !bind_op_eq. simpl.
  destruct (findBuildingLocked _ _) as [[i x]|]; [|done]. destruct (findFloorLocked _ _) as [[j y]|];
    [|by rewrite andb_false_r]. destruct (findAreaLocked _ _) as [[k z]|]; [|by rewrite andb_false_r].
  rewrite !bind_op_eq. unfold fail_if.
  destruct (bdTenantID x =? tn)%string, (flTenantID y =? tn)%string, (arTenantID z =? tn)%string; simpl;
    rewrite ?andb_false_r; try done. rewrite !bind_op_eq.
  destruct (flBuildingID y =? b)%string; simpl; try done.
  by destruct (arFloorID z =? fl)%string, (arBuildingID z =? b)%string.
Qed.

Lemma building_ok_at tn b t : building_ok tn b t = true → building_at t tn b.
Proof.
  unfold building_ok. destruct (findBuildingLocked b t) as [[i x]|] eqn:Hf; [|done]. intros Ht.
  pose proof (findi_true _ _ _ _ Hf) as Hx. cbv beta in Hx. apply findi_elem in Hf. boolp. by exists x.
Qed.
Lemma floor_ok_at tn b fl t : floor_ok tn b fl t = true → floor_at t tn b fl.
Proof.
  unfold floor_ok. destruct (findFloorLocked fl t) as [[i x]|] eqn:Hf; [|by rewrite andb_false_r]. intros Ht.
  pose proof (findi_true _ _ _ _ Hf) as Hx. cbv beta in Hx. apply findi_elem in Hf. boolp. by exists x.
Qed.
Lemma area_ok_at tn b fl ar t : area_ok tn b fl ar t = true → area_at t tn b fl ar.
Proof.
  unfold area_ok. destruct (findAreaLocked ar t) as [[i x]|] eqn:Hf; [|by rewrite andb_false_r]. intros Ht.
  pose proof (findi_true _ _ _ _ Hf) as Hx. cbv beta in Hx. apply findi_elem in Hf. boolp. by exists x.
Qed.

(** The ids of the loop are doors of the tenant. *)
Lemma check_doors_at tn seen ids s :
  ∃ r, check_doors tn seen ids s = (s, r) ∧ ∀ l id, r = Ok l → id ∈ l → door_at (tables s) tn id.
Proof.
  revert seen. induction ids as [|raw ids IH]; intros seen; simpl.
  { eexists. split; [done|]. intros l id [= <-] Hid. by apply not_elem_of_nil in Hid. }
  destruct (_ || _); [apply IH|]. rewrite bind_op_eq. simpl.
  destruct (findDoorLocked _ _) as [[i d]|] eqn:Hf; [|by eexists]. rewrite bind_op_eq. unfold fail_if.
  destruct (String.eqb_spec (drTenantID d) tn) as [Et|]; simpl; [|by eexists]. rewrite bind_op_eq.
  destruct (IH (TrimSpace raw :: seen)) as (r & -> & Hr). destruct r as [l|e]; [|by eexists].
  eexists. split; [done|]. intros l' id [= <-] [->|Hid]%elem_of_cons; [|by eapply Hr].
  exists d. pose proof (findi_true _ _ _ _ Hf) as Hx. cbv beta in Hx. apply findi_elem in Hf. by boolp.
Qed.
Lemma topo_check_doors {B} tn ids (f : list string → m B) s :
  topo s → (∀ l, (∀ id, id ∈ l → door_at (tables s) tn id) → topo (exec (f l) s)) →
  topo (exec (check_doors tn [] ids ≫= f) s).
Proof.
  intros Hs Hf. unfold exec. rewrite bind_op_eq. destruct (check_doors_at tn [] ids s) as (r & -> & Hr).
  destruct r as [l|e]; [|done]. apply Hf. intros id Hid. by eapply Hr.
Qed.

(** The identifier drawn from [crypto/rand] is in no row yet. *)
Definition unused (env : Env) (prefix : string) (ids : list string) : Prop :=
  ∀ h, fresh env = Some h → prefix +:+ h ∉ ids.

Lemma unused_fresh env p ids a : unused env p ids → fresh_id (E:=space_err) p env = Ok a → a ∉ ids.
Proof. unfold fresh_id. destruct (fresh env) as [h|] eqn:Hh; [|done]. intros Hu [= <-]. by apply Hu. Qed.

(** A call, run to its end. *)
Inductive call : Service → Service → Prop :=
| call_create_building env tenantID name address region s :
    unused env "building_" (bdID <$> buildings (tables s)) →
    call s (exec (CreateBuilding env tenantID name address region) s)
| call_update_building env tenantID id name address region s :
    call s (exec (UpdateBuilding env tenantID id name address region) s)
| call_delete_building env tenantID id s : call s (exec (DeleteBuilding env tenantID id) s)
| call_create_floor env tenantID b name s :
    unused env "floor_" (flID <$> floors (tables s)) → call s (exec (CreateFloor env tenantID b name) s)
| call_update_floor env tenantID id b name s : call s (exec (UpdateFloor env tenantID id b name) s)
| call_delete_floor env tenantID id s : call s (exec (DeleteFloor env tenantID id) s)
| call_create_area env tenantID b f name s :
    unused env "area_" (arID <$> areas (tables s)) → call s (exec (CreateArea env tenantID b f name) s)
| call_update_area env tenantID id b f name s : call s (exec (UpdateArea env tenantID id b f name) s)
| call_create_door env i s :
    unused env "door_" (drID <$> doors (tables s)) → call s (exec (CreateDoor env i) s)
| call_update_door env id i s : call s (exec (UpdateDoor env id i) s)
| call_delete_door env tenantID id s : call s (exec (DeleteDoor env tenantID id) s)
| call_create_group env tenantID name ids s : call s (exec (CreateDoorGroup env tenantID name ids) s)
| call_add_to_group env tenantID g d s : call s (exec (AddDoorToGroup env tenantID g d) s)
| call_remove_from_group env tenantID g d s : call s (exec (RemoveDoorFromGroup env tenantID g d) s).

#[local] Hint Rewrite @exec_check_building @exec_check_floor @exec_check_area : exec_rw.

Section calls.
Context (env : Env) (s : Service) (Hs : topo s).

(** The row a look-up by id found. *)
Lemma own_building i b id : findBuildingIncludingArchivedLocked id (tables s) = Some (i, b) → buildings (tables s) !! i = Some b.
Proof. apply findi_lookup. Qed.
Lemma own_floor i f id : findFloorLocked id (tables s) = Some (i, f) → floors (tables s) !! i = Some f ∧ flID f = id.
Proof. intros H. split; [by eapply findi_lookup|]. by apply findi_true, String.eqb_eq in H. Qed.
Lemma own_area i a id : findAreaLocked id (tables s) = Some (i, a) → areas (tables s) !! i = Some a ∧ arID a = id.
Proof. intros H. split; [by eapply findi_lookup|]. by apply findi_true, String.eqb_eq in H. Qed.
Lemma own_door i d id : findDoorLocked id (tables s) = Some (i, d) → doors (tables s) !! i = Some d ∧ drID d = id.
Proof. intros H. split; [by eapply findi_lookup|]. by apply findi_true, String.eqb_eq in H. Qed.

Lemma create_building_topo tn name address region :
  unused env "building_" (bdID <$> buildings (tables s)) → topo (exec (CreateBuilding env tn name address region) s).
Proof. intros Hu. unfold CreateBuilding. topo_run. by apply topo_add_building; [|eapply unused_fresh]. Qed.

Lemma exec_live_building {B} tn id (f : nat * Building → m B) s0 :
  exec (live_building tn id ≫= f) s0
  = match findBuildingIncludingArchivedLocked id (tables s0) with
    | Some (i, b) => if String.eqb (bdTenantID b) tn then if isBuildingArchived b then s0 else exec (f (i, b)) s0 else s0
    | None => s0
    end.
Proof.
  unfold exec, live_building. rewrite !bind_op_eq. simpl.
  destruct (findBuildingIncludingArchivedLocked _ _) as [[i b]|]; [|done]. unfold own. rewrite !bind_op_eq. simpl.
  unfold fail_if. destruct (bdTenantID b =? tn)%string; [|done]. simpl. rewrite bind_op_eq. by destruct (isBuildingArchived b).
Qed.
#[local] Hint Rewrite @exec_live_building : exec_rw.

Lemma update_building_topo tn id name address region : topo (exec (UpdateBuilding env tn id name address region) s).
Proof. unfold UpdateBuilding. topo_run. by eapply topo_put_building; [|by eapply own_building|..]. Qed.
Lemma delete_building_topo tn id : topo (exec (DeleteBuilding env tn id) s).
Proof. unfold DeleteBuilding. topo_run. by eapply topo_archive; [|by eapply own_building]. Qed.

Lemma exec_bind_bind {A B C} (a : m A) (f : A → m B) (g : B → m C) s0 :
  exec ((a ≫= f) ≫= g) s0 = exec (x ← a; f x ≫= g) s0.
Proof. unfold exec. rewrite !bind_op_eq. destruct (a s0) as [s1 [x|e]]; [|done]. by rewrite bind_op_eq. Qed.
Lemma exec_ret_bind {A B} (a : A) (f : A → m B) s0 : exec (mret a ≫= f) s0 = exec (f a) s0.
Proof. done. Qed.
#[local] Hint Rewrite @exec_bind_bind @exec_ret_bind : exec_rw.

Lemma create_floor_topo tn b name :
  unused env "floor_" (flID <$> floors (tables s)) → topo (exec (CreateFloor env tn b name) s).
Proof.
  intros Hu. unfold CreateFloor, CreateFloor_check, CreateFloor_insert. topo_run.
  apply topo_add_floor; [done|by eapply unused_fresh|by apply building_ok_at].
Qed.
Lemma update_floor_topo tn id b name : topo (exec (UpdateFloor env tn id b name) s).
Proof.
  unfold UpdateFloor. topo_run. boolp.
  match goal with H : findFloorLocked _ _ = Some (?i, ?f) |- _ => apply own_floor in H as [Hi _]; simpl in * end.
  apply (topo_move_floor _ Hs _ _ _ Hi); [done..|]. apply building_ok_at. simpl. congruence.
Qed.
Lemma delete_floor_topo tn id : topo (exec (DeleteFloor env tn id) s).
Proof.
  unfold DeleteFloor. topo_run.
  match goal with H : findFloorLocked _ _ = Some (?i, ?f) |- _ => apply own_floor in H as [Hi <-] end.
  by apply topo_drop_floor.
Qed.
Lemma create_area_topo tn b f name :
  unused env "area_" (arID <$> areas (tables s)) → topo (exec (CreateArea env tn b f name) s).
Proof.
  intros Hu. unfold CreateArea, CreateArea_check, CreateArea_insert. topo_run.
  apply topo_add_area; [done|by eapply unused_fresh|by apply floor_ok_at].
Qed.
Lemma update_area_topo tn id b f name : topo (exec (UpdateArea env tn id b f name) s).
Proof.
  unfold UpdateArea. topo_run. boolp.
  match goal with H : findAreaLocked _ _ = Some (?i, ?a) |- _ => apply own_area in H as [Hi _]; simpl in * end.
  apply (topo_move_area _ Hs _ _ _ Hi); [done..|]. apply floor_ok_at. simpl. congruence.
Qed.
Lemma create_door_topo i :
  unused env "door_" (drID <$> doors (tables s)) → topo (exec (CreateDoor env i) s).
Proof.
  intros Hu. unfold CreateDoor, CreateDoor_check, CreateDoor_insert, door_fields. topo_run.
  apply topo_add_door; [done|by eapply unused_fresh|by apply area_ok_at].
Qed.
Lemma update_door_topo id i : topo (exec (UpdateDoor env id i) s).
Proof.
  unfold UpdateDoor, door_fields. topo_run. boolp.
  match goal with H : findDoorLocked _ _ = Some (?k, ?d) |- _ => apply own_door in H as [Hk _]; simpl in * end.
  apply (topo_put_door _ Hs _ _ _ Hk); [done..|]. apply area_ok_at. simpl. congruence.
Qed.
Lemma delete_door_topo tn id : topo (exec (DeleteDoor env tn id) s).
Proof.
  unfold DeleteDoor. topo_run.
  match goal with H : findDoorLocked _ _ = Some (?i, ?d) |- _ => apply own_door in H as [Hi <-] end.
  by apply topo_drop_door.
Qed.
Lemma create_group_topo tn name ids : topo (exec (CreateDoorGroup env tn name ids) s).
Proof.
  unfold CreateDoorGroup, CreateDoorGroup_check, CreateDoorGroup_insert. topo_run.
  apply topo_check_doors; [done|]. intros l Hl. topo_run. apply topo_groups; [done|].
  intros g id [->|Hg]%elem_of_cons; [apply Hl|by apply (top_group _ Hs)].
Qed.

(** A group changed in place: its doors stay doors of the tenant. *)
Lemma put_group_topo i g g' :
  findDoorGroup (dgID g) (tables s) = Some (i, g) → dgTenantID g' = dgTenantID g →
  (∀ id, id ∈ DoorIDs g' → id ∈ DoorIDs g ∨ door_at (tables s) (dgTenantID g) id) →
  topo (s <| tables ::= λ t, t <| doorGroups ::= <[i := g']> |> |>).
Proof.
  intros Hi%findi_lookup Htn Hd. apply topo_groups; [done|]. intros x id Hx Hid.
  destruct (elem_of_put _ _ _ _ _ Hi Hx) as [->|Hx']; [|by apply (top_group _ Hs)]. rewrite Htn.
  destruct (Hd id Hid); [|done]. by eapply (top_group _ Hs); [eapply list_elem_of_lookup_2|].
Qed.
Lemma own_group i g id : findDoorGroup id (tables s) = Some (i, g) → findDoorGroup (dgID g) (tables s) = Some (i, g).
Proof. intros H. pose proof H as E. apply findi_true, String.eqb_eq in E. by rewrite E. Qed.

Lemma add_to_group_topo tn g d : topo (exec (AddDoorToGroup env tn g d) s).
Proof.
  unfold AddDoorToGroup, put_group. topo_run. boolp.
  match goal with H : findDoorGroup _ _ = Some _ |- _ => apply own_group in H; eapply (put_group_topo _ _ _ H) end; [done|].
  match goal with H : findDoorLocked _ _ = Some (?i, ?x) |- _ => apply own_door in H as [Hi Hx] end.
  simpl. intros id [Hid|Hid]%elem_of_app; [by left|right]. apply list_elem_of_singleton in Hid as ->.
  eexists. split; [by eapply list_elem_of_lookup_2|]. simpl in *. split; congruence.
Qed.
Lemma remove_from_group_topo tn g d : topo (exec (RemoveDoorFromGroup env tn g d) s).
Proof.
  unfold RemoveDoorFromGroup, put_group. topo_run.
  match goal with H : findDoorGroup _ _ = Some _ |- _ => apply own_group in H; eapply (put_group_topo _ _ _ H) end; [done|].
  simpl. intros id [_ Hid]%elem_of_filterb. by left.
Qed.
End calls.

Create HintDb spdb.
#[local] Hint Resolve create_building_topo update_building_topo delete_building_topo create_floor_topo update_floor_topo
  delete_floor_topo create_area_topo update_area_topo create_door_topo update_door_topo delete_door_topo
  create_group_topo add_to_group_topo remove_from_group_topo : spdb.

Lemma call_topo s s' : call s s' → topo s → topo s'.
Proof. intros []; eauto with spdb. Qed.

(** ** Properties *)

(** C34: calls that do not overlap, in any order and with any failures of the
    random source and of the store, keep the topology consistent: a floor is in a
    live building, an area on a floor of its building, a door in an area of its
    floor, a group holds doors that exist, all within one tenant. *)
Theorem topology_invariant s s' : rtc call s s' → topo s → topo s'.
Proof. induction 1; eauto using call_topo. Qed.

#[local] Abbreviation ex_env := (mkEnv 5%Z (Some "0a0b") StoreSaved).
#[local] Abbreviation ex_hq := (mkBuilding "b1" "acme" "HQ" "" "" "active" None 1%Z).
#[local] Abbreviation ex_depot := (mkBuilding "b2" "acme" "Depot" "" "" "" None 1%Z).
#[local] Abbreviation ex_door :=
  (mkDoor "d1" "acme" "b1" "f1" "a1" "Front" "gw1" "office" "offline" 1%Z).
#[local] Abbreviation ex_tables :=
  (mkTables [ex_hq; ex_depot] [mkFloor "f1" "acme" "b1" "Ground" 1%Z] [mkArea "a1" "acme" "b1" "f1" "Lobby" 1%Z]
     [ex_door] [mkDoorGroup "g1" "acme" "Doors" ["d1"] 1%Z]).
#[local] Abbreviation ex_service := (mkService ex_tables None).

(** The floor moves to the depot with its area and its door; then the depot goes,
    and takes them and the group's entry with it. *)
Lemma topology_invariant_witness :
  topo (exec (DeleteBuilding ex_env "acme" " b2 ") (exec (UpdateFloor ex_env "acme" "f1" "b2" "Ground") ex_service)) ∧
  ListDoors "acme" (exec (UpdateFloor ex_env "acme" "f1" "b2" "Ground") ex_service)
  = [ex_door <| drBuildingID := "b2" |>] ∧
  let s := exec (DeleteBuilding ex_env "acme" " b2 ") (exec (UpdateFloor ex_env "acme" "f1" "b2" "Ground") ex_service) in
  ListDoors "acme" s = [] ∧ DoorIDs <$> ListDoorGroups "acme" s = [[]] ∧ bdID <$> ListBuildings "acme" s = ["b1"].
Proof.
  split.
  - apply (topology_invariant ex_service).
    + eapply rtc_l; [apply call_update_floor|]. eapply rtc_l; [apply call_delete_building|]. apply rtc_refl.
    + split.
      1-4: repeat constructor; set_solver.
      * intros f ->%list_elem_of_singleton. exists ex_hq. split; [left|done].
      * intros a ->%list_elem_of_singleton. eexists. split; [left|done].
      * intros d ->%list_elem_of_singleton. eexists. split; [left|done].
      * intros g id ->%list_elem_of_singleton Hid. exists ex_door. split; [left|]. by apply list_elem_of_singleton in Hid as ->.
  - by vm_compute.
Defined.

(** The checks of an insertion and the insertion hold the lock separately.
    When the building is deleted in between, all calls succeed, and a door is left
    whose building, floor and area are gone; no call of the API can remove its
    building's record again, and the topology of the tenant shows the door. *)
Theorem create_door_race :
  ∃ record s1 s2 s3,
    CreateDoor_check ex_env (mkDoorInput "acme" "b1" "f1" "a1" "Back" "gw1" "" "") ex_service = (s1, Ok record) ∧
    DeleteBuilding ex_env "acme" "b1" s1 = (s2, Ok tt) ∧
    CreateDoor_insert ex_env record s2 = (s3, Ok record) ∧
    s1 = ex_service ∧ ¬ topo s3 ∧
    (∃ v, TopologyByTenant "acme" s3 = (s3, Ok v) ∧ topDoors v = [record] ∧ topFloors v = [] ∧ topAreas v = [] ∧
          bdID <$> topBuildings v = ["b2"]) ∧
    (DeleteBuilding ex_env "acme" "b1" s3).2 = Err ErrBuildingNotFound.
Proof.
  do 4 eexists. split_and!; [vm_compute; reflexivity..| | |vm_compute; reflexivity].
  - intros Ht. destruct (top_door _ Ht _ (list_elem_of_here _ _)) as (a & Ha & _). by apply not_elem_of_nil in Ha.
  - eexists. by vm_compute.
Qed.
