(* ===== verification/AuditLog.v ===== *)
(** * Audit log with a hash chain (modules/audit/service.go)

    Log entries, newest first, each carrying an HMAC over its fields and the HMAC
    of the entry that was newest before it, and the check of the chain for one
    tenant.  HMAC-SHA256 (hex) is the class [Mac]; times are formatted in UTC, as
    the callers pass them. *)

From S2P Require Import Prelude GoStrings GoTime.
#[local] Open Scope Z_scope.

Record Log := mkLog {
  TenantID : string; ID : string; Actor : string; Role : string; Action : string; Target : string;
  Source : string; At : Z; PrevHash : string; Hash : string
}.
#[export] Instance eta_log : Eta Log := fun l =>
  mkLog (TenantID l) (ID l) (Actor l) (Role l) (Action l) (Target l) (Source l) (At l) (PrevHash l) (Hash l).

(** [hex(HMAC-SHA256(key, message))]; the hex of 32 bytes is not empty. *)
Class Mac := { mac : string → string → string; mac_nonempty k m : mac k m ≠ "" }.

Record Service := mkService { logs : list Log; hmacKey : string; savedState : option (list Log) }.
#[export] Instance eta_service : Eta Service := fun s => mkService (logs s) (hmacKey s) (savedState s).

#[export, program] Instance audit_persistent : Persistent Service (list Log) := {|
  snapshot := logs; saved := savedState; set_saved := λ d s, s <| savedState := d |>
|}.
Solve All Obligations with done.

Inductive audit_err := ErrNoKey | ErrRandom | ErrSave.
#[export] Instance audit_service_err : ServiceErr audit_err := {| ErrRand := ErrRandom; ErrStore := ErrSave |}.

(** ** Timestamps in the hash *)

(** [n] decimal digits of [z]. *)
Fixpoint digits (n : nat) (z : Z) : string :=
  match n with O => "" | S n' => digits n' (z / 10) +:+ String (chr (48 + z mod 10)) "" end.

Fixpoint trim_zeros (s : string) : string :=
  match s with String c s' => if (c =? "0")%char then trim_zeros s' else s | EmptyString => s end.

(** [t.Format(time.RFC3339Nano)] in UTC: the fraction without trailing zeros. *)
Definition format_nano (t : Z) : string :=
  let base := rev_string (format_rfc3339 t) in
  let base := match base with String _ r => rev_string r | EmptyString => "" end in
  let frac := rev_string (trim_zeros (rev_string (digits 9 (t mod second)))) in
  base +:+ (if is_empty frac then "" else "." +:+ frac) +:+ "Z".

Example format_nano_ex :
  format_nano (1775912400 * second) = "2026-04-11T13:00:00Z"
  ∧ format_nano (1775912400 * second + 120000000) = "2026-04-11T13:00:00.12Z".
Proof. by vm_compute. Qed.

(** ** Operations *)

Definition ListFiltered (tenantID action source : string) (limit : Z) (s : Service) : list Log :=
  let t := TrimSpace tenantID in
  let a := TrimSpace action in
  let src := TrimSpace source in
  let items := filterb (λ l, (is_empty t || String.eqb (TenantID l) t) && (is_empty a || String.eqb (Action l) a)
                             && (is_empty src || String.eqb (Source l) src)) (logs s) in
  if (0 <? limit) && (limit <? Z.of_nat (length items)) then take (Z.to_nat limit) items else items.

Definition List (tenantID : string) (s : Service) : list Log := ListFiltered tenantID "" "" 0 s.

Section mac.
Context `{!Mac}.

(** The message: the fields one after the other. *)
Definition mac_message (e : Log) : string :=
  ID e +:+ TenantID e +:+ Actor e +:+ Role e +:+ Action e +:+ Target e +:+ Source e
  +:+ format_nano (At e) +:+ PrevHash e.

Definition computeAuditLogHMAC (key : string) (entry : Log) : string := mac key (mac_message entry).

Definition or_default (v d : string) : string := let v := TrimSpace v in if is_empty v then d else v.

(** [Append] stamps the clock, [AppendWithTimestamp] a given time. *)
Definition AppendWithTimestamp (tenantID actor role action target source : string) (at_ : Z) (env : Env)
  : op Service audit_err Log :=
  id ← lift (fresh_id "aud_" env);
  let record := mkLog (TrimSpace tenantID) id (or_default actor "system") (or_default role "system")
    (TrimSpace action) (TrimSpace target) (or_default source "api") at_ "" "" in
  record ← gets (λ s,
    if is_empty (hmacKey s) then record
    else
      let record := record <| PrevHash := match logs s with [] => "" | l :: _ => Hash l end |> in
      record <| Hash := computeAuditLogHMAC (hmacKey s) record |>);
  modify (λ s, s <| logs := record :: logs s |>) ;;
  persistLocked env ;;
  mret record.

Definition Append (tenantID actor role action target source : string) (env : Env) : op Service audit_err Log :=
  AppendWithTimestamp tenantID actor role action target source (now env) env.

Definition SetHMACKey (key : string) : op Service audit_err unit := modify (λ s, s <| hmacKey := key |>).

(** The loop over a tenant's entries from index [i]. *)
Fixpoint verify_from (key : string) (i : Z) (l : list Log) : Z :=
  match l with
  | [] => -1
  | entry :: rest =>
      if is_empty (Hash entry) then verify_from key (i + 1) rest
      else if negb (String.eqb (Hash entry) (computeAuditLogHMAC key entry)) then i
      else match rest with
      | older :: _ =>
          if negb (is_empty (Hash older)) && negb (String.eqb (PrevHash entry) (Hash older)) then i
          else verify_from key (i + 1) rest
      | [] => verify_from key (i + 1) rest
      end
  end.

Definition VerifyChain (tenantID : string) (s : Service) : result audit_err (Z * nat) :=
  if is_empty (hmacKey s) then Err ErrNoKey
  else
    let tenantLogs := filterb (λ l, String.eqb (TenantID l) (TrimSpace tenantID)) (logs s) in
    Ok (verify_from (hmacKey s) 0 tenantLogs, length tenantLogs).

(** ** Chains *)

(** Every entry is hashed and names the hash of the one before it. *)
Fixpoint chained (key : string) (l : list Log) : Prop :=
  match l with
  | [] => True
  | e :: rest =>
      Hash e = computeAuditLogHMAC key e
      ∧ match rest with o :: _ => PrevHash e = Hash o | [] => True end
      ∧ chained key rest
  end.

Lemma mac_not_empty key e : is_empty (computeAuditLogHMAC key e) = false.
Proof. apply String.eqb_neq, mac_nonempty. Qed.

Lemma chained_hashed key l e : chained key l → e ∈ l → is_empty (Hash e) = false.
Proof.
  induction l as [|x l IH]; [set_solver|]. intros (Hx & _ & Hl) [->|He]%elem_of_cons; [|auto].
  rewrite Hx. apply mac_not_empty.
Qed.

Lemma verify_chained key l : chained key l → ∀ i, verify_from key i l = -1.
Proof.
  induction l as [|e l IH]; intros Hc i; [done|]. destruct Hc as (Hh & Hp & Hl). cbn [verify_from].
  rewrite Hh, mac_not_empty, String.eqb_refl. simpl negb. cbv iota.
  destruct l as [|o l]; [by apply IH|]. rewrite Hp, String.eqb_refl, andb_false_r. by apply IH.
Qed.

(** With all entries hashed, -1 means a chain. *)
Lemma verify_from_chained key l :
  (∀ e, e ∈ l → is_empty (Hash e) = false) → ∀ i, 0 <= i → verify_from key i l = -1 → chained key l.
Proof.
  induction l as [|e l IH]; intros Hne i Hi Hv; [done|]. cbn [verify_from] in Hv.
  rewrite (Hne e ltac:(set_solver)) in Hv. destruct (String.eqb_spec (Hash e) (computeAuditLogHMAC key e)); simpl in Hv; [|lia].
  destruct l as [|o l]; [by split_and!|]. rewrite (Hne o ltac:(set_solver)) in Hv. simpl in Hv.
  destruct (String.eqb_spec (PrevHash e) (Hash o)); simpl in Hv; [|lia].
  split_and!; [done|done|]. apply (IH ltac:(set_solver) (i + 1)); [lia|done].
Qed.

Inductive call :=
| CAppend (actor role action target source : string)
| CAppendAt (actor role action target source : string) (at_ : Z).

(** Calls of one tenant. *)
Definition run_call (tenantID : string) (k : call * Env) (s : Service) : Service :=
  match k with
  | (CAppend ac r a tg src, env) => exec (Append tenantID ac r a tg src env) s
  | (CAppendAt ac r a tg src t, env) => exec (AppendWithTimestamp tenantID ac r a tg src t env) s
  end.

Lemma append_effect t ac r a tg src at_ env s :
  let s' := exec (AppendWithTimestamp t ac r a tg src at_ env) s in
  hmacKey s' = hmacKey s ∧
  (logs s' = logs s ∨ ∃ e, logs s' = e :: logs s ∧ TenantID e = TrimSpace t ∧
     (is_empty (hmacKey s) = false →
        Hash e = computeAuditLogHMAC (hmacKey s) e
        ∧ PrevHash e = match logs s with [] => "" | l :: _ => Hash l end)).
Proof.
  unfold AppendWithTimestamp. exec_run. destruct (fresh_id "aud_" env) as [id|e]; [|by simpl; auto]. exec_run.
  set (e := if is_empty (hmacKey s) then _ else _).
  assert (∀ A (k : op Service audit_err A) x, logs (exec (persistLocked env ;; mret e) x) = logs x
    ∧ hmacKey (exec (persistLocked env ;; mret e) x) = hmacKey x) as Hp.
  { intros A k x. unfold exec. rewrite bind_op_eq. unfold persistLocked. by destruct (store env). }
  destruct (Hp Log (mret e) (s <| logs := e :: logs s |>)) as [-> ->]. split; [done|]. right.
  exists e. split; [done|]. subst e. destruct (is_empty (hmacKey s)) eqn:Hk; [done|]. split; [done|]. intros _. by split.
Qed.

Definition tenant_chain (t : string) (s : Service) : Prop :=
  is_empty (hmacKey s) = false ∧ chained (hmacKey s) (logs s) ∧ Forall (λ l, TenantID l = TrimSpace t) (logs s).

Lemma append_chain t ac r a tg src at_ env s :
  tenant_chain t s → tenant_chain t (exec (AppendWithTimestamp t ac r a tg src at_ env) s).
Proof.
  intros (Hk & Hc & Ht). destruct (append_effect t ac r a tg src at_ env s) as [Hk' He].
  unfold tenant_chain. rewrite Hk'. destruct He as [->|(e & -> & Hte & Hh)]; [done|].
  destruct (Hh Hk) as [Hhash Hprev]. split_and!; [done| |by constructor]. split_and!; [done| |done].
  by destruct (logs s).
Qed.

Lemma filter_tenant t s :
  tenant_chain t s → filterb (λ l, String.eqb (TenantID l) (TrimSpace t)) (logs s) = logs s.
Proof.
  intros (_ & _ & Ht). apply filterb_all. intros l Hl. rewrite Forall_forall in Ht.
  apply String.eqb_eq. by apply Ht.
Qed.

(** The chain of a single-tenant log always verifies.  Starting from an
    empty log with a key, after any appends of one tenant, stamped by the clock
    or with given times, whatever the random source and the store do, the check
    finds no broken link and counts every entry. *)
Theorem chain_intact t ks s :
  logs s = [] → is_empty (hmacKey s) = false →
  let s' := fold_left (λ s k, run_call t k s) ks s in
  VerifyChain t s' = Ok (-1, length (logs s')).
Proof.
  intros Hl Hk s'. assert (tenant_chain t s') as Hc.
  { assert (tenant_chain t s) as H0 by (unfold tenant_chain; rewrite Hl; by split_and!).
    subst s'. clear Hl Hk. revert s H0. induction ks as [|[[] env] ks IH]; intros s H0; simpl; [done| |];
      apply IH; by apply append_chain. }
  unfold VerifyChain. rewrite (proj1 Hc), (filter_tenant t s' Hc). by rewrite verify_chained by apply Hc.
Qed.

(** Cutting entries out of the middle is noticed.  From a log of one tenant
    whose chain verifies and whose hashes are distinct, removing any entry that
    has both a newer and an older neighbour makes the check report a break. *)
Theorem removal_detected t s i :
  tenant_chain t s → NoDup (Hash <$> logs s) → (0 < i)%nat → (S i < length (logs s))%nat →
  ∃ b n, VerifyChain t (s <| logs := delete i (logs s) |>) = Ok (b, n) ∧ 0 <= b.
Proof.
  intros Hc Hnd Hi Hlen. unfold VerifyChain. simpl. rewrite (proj1 Hc).
  assert (filterb (λ l, String.eqb (TenantID l) (TrimSpace t)) (delete i (logs s)) = delete i (logs s)) as ->.
  { apply filterb_all. intros l Hl. destruct Hc as (_ & _ & Ht). rewrite Forall_forall in Ht.
    apply String.eqb_eq, Ht. by eapply elem_of_delete_weaken. }
  eexists _, _. split; [reflexivity|]. destruct (Z.le_gt_cases 0 (verify_from (hmacKey s) 0 (delete i (logs s)))); [done|].
  exfalso.
  assert (∀ l j, 0 <= j → verify_from (hmacKey s) j l < 0 → verify_from (hmacKey s) j l = -1) as Hneg.
  { clear. induction l as [|e l IH]; intros j Hj Hv; cbn [verify_from] in *; [done|].
    destruct (is_empty (Hash e)); [apply IH; [lia|done]|]. destruct (negb _); [lia|].
    destruct l as [|o l]; [apply IH; [lia|done]|]. destruct (_ && _); [lia|]. apply IH; [lia|done]. }
  destruct Hc as (_ & Hc & _).
  assert (chained (hmacKey s) (delete i (logs s))) as Hd.
  { apply (verify_from_chained _ _) with 0; [|lia|by apply Hneg]. intros e He.
    eapply chained_hashed; [done|]. by eapply elem_of_delete_weaken. }
  clear -Hc Hd Hnd Hi Hlen. revert i Hi Hlen Hd. induction (logs s) as [|x l IH]; intros i Hi Hlen Hd; [simpl in Hlen; lia|].
  destruct i as [|i]; [lia|]. destruct i as [|i].
  - destruct l as [|y [|z l]]; simpl in Hlen; [lia|lia|].
    destruct Hc as (_ & Hp & Hc). destruct Hd as (_ & Hp' & _). simpl in *.
    rewrite !NoDup_cons in Hnd. destruct Hnd as (_ & Hny & _). apply Hny. rewrite <- Hp, Hp'. left.
  - destruct Hc as (_ & _ & Hc). simpl in Hd. apply NoDup_cons in Hnd as [_ Hnd].
    apply (IH Hc Hnd (S i)); [lia|simpl in Hlen; lia|]. destruct Hd as (_ & _ & Hd). done.
Qed.

(** With several tenants the check raises false alarms.  When a tenant
    appends while the newest entry is another tenant's, the new entry links to
    that one; if the tenant already had a hashed entry with a different hash,
    its chain is reported broken at once, although nothing was touched. *)
Theorem interleaving_false_alarm t ac r a tg src env s s' e h older rest :
  is_empty (hmacKey s) = false → logs s = h :: older ++ rest →
  Append t ac r a tg src env s = (s', Ok e) →
  filterb (λ l, String.eqb (TenantID l) (TrimSpace t)) (logs s) = older ++ rest →
  (∃ o os, older = o :: os ∧ is_empty (Hash o) = false ∧ Hash h ≠ Hash o) →
  ∃ n, VerifyChain t s' = Ok (0, n).
Proof.
  intros Hk Hl Hok Hf (o & os & -> & Ho & Hne).
  destruct (append_effect t ac r a tg src (now env) env s) as [Hk' He]. unfold Append in Hok.
  unfold exec in *. rewrite Hok in *. cbn [fst] in *.
  destruct He as [He|(x & Hx & Ht & Hh)].
  { exfalso. unfold AppendWithTimestamp in Hok. rewrite bind_lift in Hok.
    destruct (fresh_id "aud_" env); [|done]. rewrite bind_gets, bind_modify, bind_op_eq in Hok.
    unfold persistLocked in Hok. destruct (store env); try done; apply (f_equal fst) in Hok; cbn in Hok;
      subst s'; apply (f_equal length) in He; cbn in He; lia. }
  destruct (Hh Hk) as [Hhash Hprev]. rewrite Hl in Hprev.
  unfold VerifyChain. rewrite Hk', Hk, Hx. cbn [filterb]. rewrite Ht, String.eqb_refl, Hf.
  eexists. do 2 f_equal. cbn [verify_from app]. rewrite Hhash, mac_not_empty, String.eqb_refl. simpl negb. cbv iota.
  rewrite Ho. simpl negb. simpl andb. rewrite Hprev. by rewrite (proj2 (String.eqb_neq _ _) Hne).
Qed.

(** The fields are hashed one after the other without separators: moving
    characters from one field to the next leaves the hash unchanged. *)
Theorem hmac_fields_ambiguous key e x :
  computeAuditLogHMAC key (e <| Actor := Actor e +:+ x |>)
  = computeAuditLogHMAC key (e <| Role := x +:+ Role e |>).
Proof.
  unfold computeAuditLogHMAC, mac_message. simpl. f_equal. do 2 f_equal.
  assert (∀ a b c : string, (a +:+ b) +:+ c = a +:+ b +:+ c) as Happ 
    by (intros a b c; induction a as [|y a IH]; [done|]; change (String y ((a +:+ b) +:+ c) = String y (a +:+ b +:+ c)); by rewrite IH).
  by rewrite !Happ.
Qed.
End mac.

(** ** Witnesses *)

(** A stand-in for HMAC: the message itself behind a letter. *)
Definition toy_mac : Mac := {| mac := λ _ m, String "h" m; mac_nonempty := λ _ _, ltac:(discriminate) |}.

Definition empty_log : Service := mkService [] "key" None.
Definition env_at (t : Z) (id : string) : Env := mkEnv t (Some id) StoreSaved.

Lemma chain_intact_witness :
  @VerifyChain toy_mac "t" (fold_left (λ s k, @run_call toy_mac "t" k s)
    [(CAppend "a" "" "login" "x" "", env_at 1 "01"); (CAppendAt "a" "" "open" "y" "" 5, env_at 2 "02")] empty_log)
  = Ok (-1, 2%nat).
Proof.
  apply (@chain_intact toy_mac "t"
    [(CAppend "a" "" "login" "x" "", env_at 1 "01"); (CAppendAt "a" "" "open" "y" "" 5, env_at 2 "02")] empty_log);
    reflexivity.
Defined.

Definition three_logs : Service := fold_left (λ s k, @run_call toy_mac "t" k s)
  [(CAppend "a" "" "l" "x" "", env_at 1 "01"); (CAppend "a" "" "l" "x" "", env_at 2 "02");
   (CAppend "a" "" "l" "x" "", env_at 3 "03")] empty_log.

Lemma removal_detected_witness :
  ∃ b n, @VerifyChain toy_mac "t" (three_logs <| logs := delete 1%nat (logs three_logs) |>) = Ok (b, n) ∧ 0 <= b.
Proof.
  apply (@removal_detected toy_mac "t" three_logs 1).
  - split; [reflexivity|]. split; [vm_compute; repeat split|]. by repeat constructor.
  - apply (bool_decide_unpack _). vm_compute. exact I.
  - lia.
  - vm_compute. lia.
Defined.

Definition two_tenants : Service :=
  exec (@Append toy_mac "u" "a" "" "l" "x" "" (env_at 2 "02"))
    (exec (@Append toy_mac "t" "a" "" "l" "x" "" (env_at 1 "01")) empty_log).

Lemma interleaving_false_alarm_witness :
  ∃ n, @VerifyChain toy_mac "t" (exec (@Append toy_mac "t" "a" "" "l" "x" "" (env_at 3 "03")) two_tenants) = Ok (0, n).
Proof.
  destruct (@Append toy_mac "t" "a" "" "l" "x" "" (env_at 3 "03") two_tenants) as [s' [e|er]] eqn:H;
    [|vm_compute in H; discriminate].
  unfold exec. rewrite H. cbn [fst].
  apply (@interleaving_false_alarm toy_mac "t" "a" "" "l" "x" "" (env_at 3 "03") two_tenants s' e
    (nth 0 (logs two_tenants) (mkLog "" "" "" "" "" "" "" 0 "" "")) [nth 1 (logs two_tenants) (mkLog "" "" "" "" "" "" "" 0 "" "")] []);
    [reflexivity|vm_compute; reflexivity|exact H|vm_compute; reflexivity|].
  eexists _, []. split; [reflexivity|]. split; [vm_compute; reflexivity|vm_compute; discriminate].
Defined.
