(* ===== verification/Gateway.v ===== *)
(** * Gateways and their hardware (modules/gateway/service.go)

    The serial-number inventory and its status machine, registration of gateways
    and of the devices behind them, doors bound to gateways, published and
    applied configuration versions, upload checkpoints per queue, and firmware
    tasks.  All operations run under the service's mutex, one at a time. *)

From S2P Require Import Prelude GoStrings GoTime Bytes.
#[local] Open Scope Z_scope.

(** ** Data *)

Record RS485Config := mkRS485 { BaudRate : Z; Parity : string; StopBits : Z; DeviceAddress : Z; TimeoutMS : Z }.

Record RS485Health := mkHealth {
  RetryCount : Z; TimeoutCount : Z; CollisionCount : Z; ConsecutiveTimeouts : Z; hLastError : string; LastReportAt : Z
}.

Record RS485TelemetryReport := mkReport {
  Retries : Z; Timeouts : Z; Collisions : Z; rpLastError : string; ResetConsecutiveTimeouts : bool
}.

Record GatewayDevice := mkDevice {
  devID : string; devGatewayID : string; devSerialNumber : string; devKind : string; devSource : string;
  devProtocol : string; devRS485Config : option RS485Config; devRS485Health : option RS485Health;
  devStatus : string; devLastSeenAt : Z
}.
#[export] Instance eta_device : Eta GatewayDevice := fun d =>
  mkDevice (devID d) (devGatewayID d) (devSerialNumber d) (devKind d) (devSource d) (devProtocol d)
    (devRS485Config d) (devRS485Health d) (devStatus d) (devLastSeenAt d).

Record Gateway := mkGateway {
  gwID : string; gwTenantID : string; gwSerialNumber : string; BuildingID : string; DeviceCapacity : Z;
  Devices : list GatewayDevice; gwStatus : string; gwLastSeenAt : Z; BoundDoorIDs : list string
}.
#[export] Instance eta_gateway : Eta Gateway := fun g =>
  mkGateway (gwID g) (gwTenantID g) (gwSerialNumber g) (BuildingID g) (DeviceCapacity g) (Devices g)
    (gwStatus g) (gwLastSeenAt g) (BoundDoorIDs g).

Record SerialInventoryItem := mkItem {
  itID : string; itTenantID : string; itSerialNumber : string; ProductType : string; itStatus : string;
  BatchCode : string; itSource : string; ConsumedGatewayID : string; ConsumedAt : option Z;
  itCreatedAt : Z; itUpdatedAt : Z
}.
#[export] Instance eta_item : Eta SerialInventoryItem := fun i =>
  mkItem (itID i) (itTenantID i) (itSerialNumber i) (ProductType i) (itStatus i) (BatchCode i) (itSource i)
    (ConsumedGatewayID i) (ConsumedAt i) (itCreatedAt i) (itUpdatedAt i).

Record SerialInventoryImportItem := mkImport {
  imSerialNumber : string; imProductType : string; imBatchCode : string; imSource : string
}.

Record GatewayConfigState := mkConfig {
  cfGatewayID : string; DesiredVersion : string; DesiredUpdatedAt : option Z; AppliedVersion : string; AppliedAt : option Z
}.
#[export] Instance eta_config : Eta GatewayConfigState := fun c =>
  mkConfig (cfGatewayID c) (DesiredVersion c) (DesiredUpdatedAt c) (AppliedVersion c) (AppliedAt c).

Record GatewayEventCheckpoint := mkCheckpoint {
  cpGatewayID : string; cpQueue : string; CheckpointID : string; LastRequestID : string; AckedCount : Z;
  LastOccurredAt : option Z; cpUpdatedAt : Z
}.
#[export] Instance eta_checkpoint : Eta GatewayEventCheckpoint := fun c =>
  mkCheckpoint (cpGatewayID c) (cpQueue c) (CheckpointID c) (LastRequestID c) (AckedCount c) (LastOccurredAt c)
    (cpUpdatedAt c).

Record GatewayQueueIngestTotal := mkTotal {
  qtGatewayID : string; qtQueue : string; IngestedTotal : Z; qtUpdatedAt : Z
}.
#[export] Instance eta_total : Eta GatewayQueueIngestTotal := fun t =>
  mkTotal (qtGatewayID t) (qtQueue t) (IngestedTotal t) (qtUpdatedAt t).

Record GatewayOTATask := mkTask {
  otID : string; otGatewayID : string; otTenantID : string; FirmwareVersion : string; FirmwareURL : string;
  FirmwareSHA256 : string; FirmwareSignature : string; otStatus : string; ErrorMessage : string;
  RequestedBy : string; UpdatedBy : string; otCreatedAt : Z; otUpdatedAt : Z
}.
#[export] Instance eta_task : Eta GatewayOTATask := fun t =>
  mkTask (otID t) (otGatewayID t) (otTenantID t) (FirmwareVersion t) (FirmwareURL t) (FirmwareSHA256 t)
    (FirmwareSignature t) (otStatus t) (ErrorMessage t) (RequestedBy t) (UpdatedBy t) (otCreatedAt t) (otUpdatedAt t).

Definition Snap : Type :=
  list Gateway * list SerialInventoryItem * list GatewayConfigState * list GatewayEventCheckpoint
  * list GatewayQueueIngestTotal * list GatewayOTATask.

Record Service := mkService {
  gateways : list Gateway;
  serialInventory : list SerialInventoryItem;
  configStates : list GatewayConfigState;
  eventCheckpoints : list GatewayEventCheckpoint;
  queueIngestTotals : list GatewayQueueIngestTotal;
  otaTasks : list GatewayOTATask;
  savedState : option Snap
}.
#[export] Instance eta_service : Eta Service := fun s =>
  mkService (gateways s) (serialInventory s) (configStates s) (eventCheckpoints s) (queueIngestTotals s)
    (otaTasks s) (savedState s).

#[export, program] Instance gateway_persistent : Persistent Service Snap := {|
  snapshot := λ s, (gateways s, serialInventory s, configStates s, eventCheckpoints s, queueIngestTotals s, otaTasks s);
  saved := savedState; set_saved := λ d s, s <| savedState := d |>
|}.
Solve All Obligations with done.

Inductive gw_err :=
| ErrSerialNumberRequired | ErrSerialNumberInvalid | ErrGatewaySerialAlreadyRegistered
| ErrSerialNumberNotProvisioned | ErrSerialNumberAlreadyConsumed | ErrSerialNumberNotAvailable
| ErrSerialNumberTenantMismatch | ErrSerialNumberProductTypeMismatch | ErrTenantIDRequired
| ErrGatewayNotFound | ErrGatewayIDRequired | ErrGatewayStatusRequired | ErrGatewayStatusInvalid
| ErrDoorIDRequired | ErrConfigVersionRequired | ErrInvalidDeviceCapacity | ErrGatewayDeviceSerialRequired
| ErrGatewayDeviceIDRequired | ErrGatewayDeviceSerialConflict | ErrGatewayDeviceCapacityExceeded
| ErrGatewayDeviceNotFound | ErrGatewayDeviceKindInvalid | ErrGatewayDeviceSourceInvalid
| ErrGatewayDeviceStatusInvalid | ErrGatewayDeviceProtocolInvalid | ErrGatewayDeviceRS485ConfigInvalid
| ErrGatewayDeviceRS485ConfigProtocolMismatch | ErrGatewayDeviceRS485TelemetryInvalid
| ErrGatewayDeviceRS485TelemetryProtocolMismatch | ErrGatewayDeviceSerialNotProvisioned
| ErrGatewayDeviceSerialNotAvailable | ErrGatewayDeviceSerialProductTypeMismatch
| ErrSerialInventoryRecordsRequired | ErrSerialInventoryProductTypeInvalid | ErrSerialInventoryStatusInvalid
| ErrSerialInventoryTenantMismatch | ErrSerialInventoryProductTypeMismatch | ErrSerialInventoryNotFound
| ErrSerialInventoryStatusTransitionInvalid | ErrSerialInventorySerialNumbersRequired
| ErrGatewayEventCheckpointRequired | ErrGatewayEventCheckpointQueueRequired
| ErrGatewayEventCheckpointAckedCountInvalid | ErrGatewayEventCheckpointAckedCountRegression
| ErrGatewayQueueIngestDeltaInvalid | ErrGatewayOTATaskIDRequired | ErrGatewayOTAFirmwareVersionRequired
| ErrGatewayOTAFirmwareURLRequired | ErrGatewayOTAFirmwareSHA256Invalid | ErrGatewayOTAFirmwareSignatureInvalid
| ErrGatewayOTATaskStatusInvalid | ErrGatewayOTATaskNotFound | ErrRandom | ErrSave | ErrLoad.
#[export] Instance gateway_service_err : ServiceErr gw_err := {| ErrRand := ErrRandom; ErrStore := ErrSave |}.

Abbreviation gwop := (op Service gw_err).

(** ** Normalisation *)

Definition one_of (vs : list string) (v : string) : bool := existsb' (String.eqb v) vs.

Definition normalizeDeviceCapacity (capacity : Z) : result gw_err Z :=
  if capacity =? 0 then Ok 4
  else if (capacity =? 4) || (capacity =? 8) then Ok capacity else Err ErrInvalidDeviceCapacity.

Definition normalizeDeviceKind (kind : string) : result gw_err string :=
  let k := ToLower (TrimSpace kind) in
  if is_empty k then Ok "reader"
  else if one_of ["reader"; "door_controller"; "relay"; "sensor"; "legacy_reader"; "legacy_controller"] k then Ok k
  else Err ErrGatewayDeviceKindInvalid.

Definition normalizeDeviceSource (source : string) : result gw_err string :=
  let k := ToLower (TrimSpace source) in
  if is_empty k then Ok "mistypass_procured"
  else if one_of ["mistypass_procured"; "legacy_integration"] k then Ok k
  else Err ErrGatewayDeviceSourceInvalid.

Definition normalizeDeviceStatus (status : string) : result gw_err string :=
  let k := ToLower (TrimSpace status) in
  if is_empty k then Ok "online"
  else if one_of ["online"; "offline"] k then Ok k else Err ErrGatewayDeviceStatusInvalid.

Definition normalizeGatewayStatus (status : string) : result gw_err string :=
  let k := ToLower (TrimSpace status) in
  if is_empty k then Err ErrGatewayStatusRequired
  else if one_of ["online"; "offline"; "disabled"; "revoked"] k then Ok k else Err ErrGatewayStatusInvalid.

Definition normalizeSerialInventoryProductType (productType : string) : result gw_err string :=
  let k := ToLower (TrimSpace productType) in
  if one_of ["gateway"; "reader"; "controller"; "relay"; "sensor"] k then Ok k
  else Err ErrSerialInventoryProductTypeInvalid.

Definition normalizeSerialInventoryStatus (status : string) : result gw_err string :=
  let k := ToLower (TrimSpace status) in
  if one_of ["available"; "consumed"; "frozen"; "scrapped"] k then Ok k else Err ErrSerialInventoryStatusInvalid.

Definition normalizeDeviceProtocol (kind source protocol : string) : result gw_err string :=
  let p := ToLower (TrimSpace protocol) in
  if is_empty p then
    if String.eqb source "legacy_integration" || String.eqb kind "legacy_reader" || String.eqb kind "legacy_controller"
    then Ok "wiegand_26" else Ok "osdp_v2"
  else if one_of ["wiegand_26"; "wiegand_34"; "osdp_v2"; "ble"; "rs485"] p then Ok p
  else Err ErrGatewayDeviceProtocolInvalid.

Definition isSupportedRS485BaudRate (b : Z) : bool :=
  existsb' (Z.eqb b) [1200; 2400; 4800; 9600; 19200; 38400; 57600; 115200].

Definition normalizeRS485Config (protocol : string) (cfg : option RS485Config) : result gw_err (option RS485Config) :=
  if negb (String.eqb protocol "rs485") then
    match cfg with None => Ok None | Some _ => Err ErrGatewayDeviceRS485ConfigProtocolMismatch end
  else
    let pick (v d : Z) := if v =? 0 then d else v in
    let next :=
      match cfg with
      | None => mkRS485 9600 "none" 1 1 800
      | Some c =>
          let parity := ToLower (TrimSpace (Parity c)) in
          mkRS485 (pick (BaudRate c) 9600) (if is_empty parity then "none" else parity) (pick (StopBits c) 1)
            (pick (DeviceAddress c) 1) (pick (TimeoutMS c) 800)
      end in
    if negb (isSupportedRS485BaudRate (BaudRate next)) then Err ErrGatewayDeviceRS485ConfigInvalid
    else if negb (one_of ["none"; "even"; "odd"] (Parity next)) then Err ErrGatewayDeviceRS485ConfigInvalid
    else if negb (StopBits next =? 1) && negb (StopBits next =? 2) then Err ErrGatewayDeviceRS485ConfigInvalid
    else if (DeviceAddress next <? 1) || (247 <? DeviceAddress next) then Err ErrGatewayDeviceRS485ConfigInvalid
    else if (TimeoutMS next <? 100) || (5000 <? TimeoutMS next) then Err ErrGatewayDeviceRS485ConfigInvalid
    else Ok (Some next).

Definition serial_char (c : ascii) : bool :=
  (c =? "-")%char || ((65 <=? code c) && (code c <=? 90)) || is_digit c.

Definition normalizeGatewaySerial (serialNumber : string) : result gw_err string :=
  let serial := ToUpper (TrimSpace serialNumber) in
  if is_empty serial then Err ErrSerialNumberRequired
  else if (len serial <? 9) || (64 <? len serial) then Err ErrSerialNumberInvalid
  else if negb (HasPrefix serial "MP-GW-") then Err ErrSerialNumberInvalid
  else if negb (all_chars serial_char serial) then Err ErrSerialNumberInvalid
  else Ok serial.

Definition normalizeInventorySerial (productType serialNumber : string) : result gw_err string :=
  if String.eqb productType "gateway" then normalizeGatewaySerial serialNumber
  else
    let serial := ToUpper (TrimSpace serialNumber) in
    if is_empty serial then Err ErrSerialNumberRequired
    else if (len serial <? 3) || (64 <? len serial) then Err ErrSerialNumberInvalid
    else if negb (all_chars serial_char serial) then Err ErrSerialNumberInvalid
    else Ok serial.

Definition inventoryProductTypeByDeviceKind (kind : string) : string :=
  if one_of ["door_controller"; "legacy_controller"] kind then "controller"
  else if String.eqb kind "relay" then "relay"
  else if String.eqb kind "sensor" then "sensor"
  else "reader".

(** ** The serial inventory *)

Definition findSerialInventoryIndexLocked (serialNumber : string) (s : Service) : option (nat * SerialInventoryItem) :=
  findi (λ it, EqualFold (itSerialNumber it) serialNumber) (serialInventory s).

(** The status machine of one item. *)
Definition applySerialInventoryStatusTransition (nextStatus consumedGatewayID : string) (now : Z)
    (item : SerialInventoryItem) : result gw_err SerialInventoryItem :=
  let currentStatus := TrimSpace (itStatus item) in
  if String.eqb currentStatus nextStatus then Ok (item <| itUpdatedAt := now |>)
  else if String.eqb nextStatus "available" then
    if String.eqb currentStatus "scrapped" then Err ErrSerialInventoryStatusTransitionInvalid
    else Ok (item <| itStatus := "available" |> <| ConsumedGatewayID := "" |> <| ConsumedAt := None |>
                  <| itUpdatedAt := now |>)
  else if String.eqb nextStatus "consumed" then
    if String.eqb currentStatus "scrapped" then Err ErrSerialInventoryStatusTransitionInvalid
    else
      let g := TrimSpace consumedGatewayID in
      Ok (item <| itStatus := "consumed" |>
               <| ConsumedGatewayID := if is_empty g then ConsumedGatewayID item else g |>
               <| ConsumedAt := Some (default now (ConsumedAt item)) |> <| itUpdatedAt := now |>)
  else if String.eqb nextStatus "frozen" then
    if String.eqb currentStatus "scrapped" then Err ErrSerialInventoryStatusTransitionInvalid
    else Ok (item <| itStatus := "frozen" |> <| itUpdatedAt := now |>)
  else if String.eqb nextStatus "scrapped" then
    Ok (item <| itStatus := "scrapped" |> <| ConsumedGatewayID := "" |> <| ConsumedAt := None |>
             <| itUpdatedAt := now |>)
  else Err ErrSerialInventoryStatusInvalid.

Definition put_item (i : nat) (it : SerialInventoryItem) : gwop unit :=
  modify (λ s, s <| serialInventory := <[i := it]> (serialInventory s) |>).

(** An error of the transition leaves the item as it was. *)
Definition transition_item (i : nat) (nextStatus consumedGatewayID : string) (now : Z) : gwop unit := λ s,
  match serialInventory s !! i with
  | None => (s, Ok tt)
  | Some it =>
      match applySerialInventoryStatusTransition nextStatus consumedGatewayID now it with
      | Ok it' => put_item i it' s
      | Err e => (s, Err e)
      end
  end.

Definition UpdateSerialInventoryStatus (tenantID serialNumber status consumedGatewayID : string) (env : Env)
  : gwop SerialInventoryItem :=
  let nextTenantID := TrimSpace tenantID in
  fail_if (is_empty nextTenantID) ErrTenantIDRequired ;;
  let serial := ToUpper (TrimSpace serialNumber) in
  fail_if (is_empty serial) ErrSerialNumberRequired ;;
  nextStatus ← lift (normalizeSerialInventoryStatus status);
  found ← gets (findSerialInventoryIndexLocked serial);
  match found with
  | None => throw ErrSerialInventoryNotFound
  | Some (i, it) =>
      fail_if (negb (String.eqb (itTenantID it) nextTenantID)) ErrSerialInventoryTenantMismatch ;;
      if String.eqb (itStatus it) nextStatus then mret it
      else
        transition_item i nextStatus consumedGatewayID (now env) ;;
        persistLocked env ;;
        gets (λ s, default it (serialInventory s !! i))
  end.

(** Trimmed, upper-cased, without blanks and repeats, in order. *)
Fixpoint unique_serials (seen : gset string) (l : list string) : list string :=
  match l with
  | [] => []
  | x :: l' =>
      let serial := ToUpper (TrimSpace x) in
      if is_empty serial then unique_serials seen l'
      else if bool_decide (serial ∈ seen) then unique_serials seen l'
      else serial :: unique_serials ({[serial]} ∪ seen) l'
  end.

Fixpoint batch_indexes (tenantID : string) (serials : list string) (s : Service) : result gw_err (list nat) :=
  match serials with
  | [] => Ok []
  | x :: rest =>
      match findSerialInventoryIndexLocked x s with
      | None => Err ErrSerialInventoryNotFound
      | Some (i, it) =>
          if negb (String.eqb (itTenantID it) tenantID) then Err ErrSerialInventoryTenantMismatch
          else idxs ← batch_indexes tenantID rest s; Ok (i :: idxs)
      end
  end.

Fixpoint transition_all (indexes : list nat) (nextStatus consumedGatewayID : string) (now : Z) : gwop unit :=
  match indexes with
  | [] => mret tt
  | i :: rest => transition_item i nextStatus consumedGatewayID now ;; transition_all rest nextStatus consumedGatewayID now
  end.

Definition BatchUpdateSerialInventoryStatus (tenantID : string) (serialNumbers : list string)
    (status consumedGatewayID : string) (env : Env) : gwop (list SerialInventoryItem) :=
  let nextTenantID := TrimSpace tenantID in
  fail_if (is_empty nextTenantID) ErrTenantIDRequired ;;
  nextStatus ← lift (normalizeSerialInventoryStatus status);
  let serials := unique_serials ∅ serialNumbers in
  fail_if (Nat.eqb (length serials) 0) ErrSerialInventorySerialNumbersRequired ;;
  r ← gets (batch_indexes nextTenantID serials);
  indexes ← lift r;
  transition_all indexes nextStatus consumedGatewayID (now env) ;;
  persistLocked env ;;
  gets (λ s, omap (λ i, serialInventory s !! i) indexes).

Definition or_factory (source : string) : string := let s := TrimSpace source in if is_empty s then "factory" else s.

(** One record of an import; [id] is the random identifier for a new item. *)
Definition import_record (nextTenantID : string) (r : SerialInventoryImportItem) (id : option string) (now : Z)
  : gwop SerialInventoryItem :=
  productType ← lift (normalizeSerialInventoryProductType (imProductType r));
  serial ← lift (normalizeInventorySerial productType (imSerialNumber r));
  found ← gets (findSerialInventoryIndexLocked serial);
  match found with
  | Some (i, it) =>
      fail_if (negb (String.eqb (itTenantID it) nextTenantID)) ErrSerialInventoryTenantMismatch ;;
      fail_if (negb (String.eqb (ProductType it) productType)) ErrSerialInventoryProductTypeMismatch ;;
      if String.eqb (itStatus it) "available" then
        let it' := it <| BatchCode := TrimSpace (imBatchCode r) |> <| itSource := or_factory (imSource r) |>
                      <| itUpdatedAt := now |> in
        put_item i it' ;; mret it'
      else mret it
  | None =>
      id ← lift (match id with Some h => Ok ("siv_" +:+ h) | None => Err ErrRandom end);
      let record := mkItem id nextTenantID serial productType "available" (TrimSpace (imBatchCode r))
                      (or_factory (imSource r)) "" None now now in
      modify (λ s, s <| serialInventory := record :: serialInventory s |>) ;;
      mret record
  end.

Fixpoint import_all (nextTenantID : string) (rs : list (SerialInventoryImportItem * option string)) (now : Z)
  : gwop (list SerialInventoryItem) :=
  match rs with
  | [] => mret []
  | (r, id) :: rest =>
      x ← import_record nextTenantID r id now;
      xs ← import_all nextTenantID rest now;
      mret (x :: xs)
  end.

(** Each record comes with the random bytes read for it. *)
Definition ImportSerialInventory (tenantID : string) (records : list (SerialInventoryImportItem * option string))
    (env : Env) : gwop (list SerialInventoryItem) :=
  let nextTenantID := TrimSpace tenantID in
  fail_if (is_empty nextTenantID) ErrTenantIDRequired ;;
  fail_if (Nat.eqb (length records) 0) ErrSerialInventoryRecordsRequired ;;
  xs ← import_all nextTenantID records (now env);
  persistLocked env ;;
  mret xs.

Definition releaseSerialInventoryLocked (serialNumber tenantID : string) (now : Z) : gwop unit := λ s,
  match findSerialInventoryIndexLocked serialNumber s with
  | Some (i, it) =>
      if negb (String.eqb (itTenantID it) tenantID) then (s, Ok tt)
      else (fst (transition_item i "available" "" now s), Ok tt)
  | None => (s, Ok tt)
  end.

Definition consumed (gatewayID : string) (now : Z) (it : SerialInventoryItem) : SerialInventoryItem :=
  it <| itStatus := "consumed" |> <| ConsumedGatewayID := gatewayID |> <| ConsumedAt := Some now |>
     <| itUpdatedAt := now |>.

Definition consumeGatewaySerialLocked (serialNumber tenantID gatewayID : string) (now : Z) : gwop unit :=
  found ← gets (findSerialInventoryIndexLocked serialNumber);
  match found with
  | None => throw ErrSerialNumberNotProvisioned
  | Some (i, it) =>
      fail_if (negb (String.eqb (itTenantID it) tenantID)) ErrSerialNumberTenantMismatch ;;
      fail_if (negb (String.eqb (ProductType it) "gateway")) ErrSerialNumberProductTypeMismatch ;;
      if String.eqb (itStatus it) "available" then put_item i (consumed gatewayID now it)
      else if String.eqb (itStatus it) "consumed" then throw ErrSerialNumberAlreadyConsumed
      else throw ErrSerialNumberNotAvailable
  end.

Definition consumeDeviceSerialLocked (serialNumber tenantID gatewayID kind source : string) (now : Z) : gwop unit :=
  if negb (String.eqb source "mistypass_procured") then mret tt
  else
    found ← gets (findSerialInventoryIndexLocked serialNumber);
    match found with
    | None => throw ErrGatewayDeviceSerialNotProvisioned
    | Some (i, it) =>
        fail_if (negb (String.eqb (itTenantID it) tenantID)) ErrSerialNumberTenantMismatch ;;
        fail_if (negb (String.eqb (ProductType it) (inventoryProductTypeByDeviceKind kind)))
          ErrGatewayDeviceSerialProductTypeMismatch ;;
        if String.eqb (itStatus it) "available" then put_item i (consumed gatewayID now it)
        else if String.eqb (itStatus it) "consumed" then
          fail_if (negb (is_empty (ConsumedGatewayID it)) && negb (String.eqb (ConsumedGatewayID it) gatewayID))
            ErrGatewayDeviceSerialConflict ;;
          put_item i (it <| itUpdatedAt := now |>
                         <| ConsumedGatewayID := if is_empty (ConsumedGatewayID it) then gatewayID else ConsumedGatewayID it |>
                         <| ConsumedAt := Some (default now (ConsumedAt it)) |>)
        else throw ErrGatewayDeviceSerialNotAvailable
    end.

(** ** Gateways, devices and doors *)

(** [for i := range s.gateways]: the first gateway with the identifier; one of
    another tenant counts as not found. *)
Definition find_gateway (gwID' filterTenantID : string) : gwop (nat * Gateway) := λ s,
  match findi (λ g, String.eqb (gwID g) gwID') (gateways s) with
  | None => (s, Err ErrGatewayNotFound)
  | Some (i, g) =>
      if negb (is_empty filterTenantID) && negb (String.eqb (gwTenantID g) filterTenantID)
      then (s, Err ErrGatewayNotFound) else (s, Ok (i, g))
  end.

Definition put_gateway (i : nat) (g : Gateway) : gwop unit :=
  modify (λ s, s <| gateways := <[i := g]> (gateways s) |>).

(** [return s.gateways[i], nil] *)
Definition gateway_at (i : nat) (g : Gateway) : gwop Gateway := gets (λ s, default g (gateways s !! i)).

Definition UpdateGatewayStatus (tenantID gatewayID status : string) (env : Env) : gwop Gateway :=
  let nextGatewayID := TrimSpace gatewayID in
  fail_if (is_empty nextGatewayID) ErrGatewayIDRequired ;;
  nextStatus ← lift (normalizeGatewayStatus status);
  '(i, g) ← find_gateway nextGatewayID (TrimSpace tenantID);
  put_gateway i (g <| gwStatus := nextStatus |> <| gwLastSeenAt := now env |>) ;;
  persistLocked env ;;
  gateway_at i g.

Definition Register (serialNumber tenantID buildingID : string) (deviceCapacity : Z) (env : Env) : gwop Gateway :=
  fail_if (is_empty (TrimSpace serialNumber)) ErrSerialNumberRequired ;;
  serial ← lift (normalizeGatewaySerial serialNumber);
  let nextTenantID := TrimSpace tenantID in
  fail_if (is_empty nextTenantID) ErrTenantIDRequired ;;
  nextCapacity ← lift (normalizeDeviceCapacity deviceCapacity);
  id ← lift (fresh_id "gw_" env);
  let record := mkGateway id nextTenantID serial (TrimSpace buildingID) nextCapacity [] "online" (now env) [] in
  taken ← gets (λ s, existsb' (λ g, EqualFold (gwSerialNumber g) serial) (gateways s));
  fail_if taken ErrGatewaySerialAlreadyRegistered ;;
  consumeGatewaySerialLocked serial nextTenantID id (now env) ;;
  modify (λ s, s <| gateways := gateways s ++ [record] |>) ;;
  persistLocked env ;;
  mret record.

Definition removeGatewayRuntimeStateLocked (gatewayID : string) (s : Service) : Service :=
  let nextGatewayID := TrimSpace gatewayID in
  if is_empty nextGatewayID then s
  else
    s <| configStates := filterb (λ c, negb (String.eqb (cfGatewayID c) nextGatewayID)) (configStates s) |>
      <| eventCheckpoints := filterb (λ c, negb (String.eqb (cpGatewayID c) nextGatewayID)) (eventCheckpoints s) |>
      <| queueIngestTotals := filterb (λ c, negb (String.eqb (qtGatewayID c) nextGatewayID)) (queueIngestTotals s) |>
      <| otaTasks := filterb (λ c, negb (String.eqb (otGatewayID c) nextGatewayID)) (otaTasks s) |>.

(** The serials of procured devices go back to the inventory. *)
Fixpoint release_devices (ds : list GatewayDevice) (tenantID : string) (now : Z) : gwop unit :=
  match ds with
  | [] => mret tt
  | d :: rest =>
      when (String.eqb (devSource d) "mistypass_procured")
        (releaseSerialInventoryLocked (devSerialNumber d) tenantID now) ;;
      release_devices rest tenantID now
  end.

Definition Deassign (tenantID gatewayID : string) (env : Env) : gwop Gateway :=
  let gwID' := TrimSpace gatewayID in
  fail_if (is_empty gwID') ErrGatewayIDRequired ;;
  '(i, removed) ← find_gateway gwID' (TrimSpace tenantID);
  releaseSerialInventoryLocked (gwSerialNumber removed) (gwTenantID removed) (now env) ;;
  release_devices (Devices removed) (gwTenantID removed) (now env) ;;
  modify (λ s, s <| gateways := delete i (gateways s) |>) ;;
  modify (removeGatewayRuntimeStateLocked gwID') ;;
  persistLocked env ;;
  mret removed.

Definition BindDoor (tenantID gatewayID doorID : string) (env : Env) : gwop Gateway :=
  let gwID' := TrimSpace gatewayID in
  fail_if (is_empty gwID') ErrGatewayIDRequired ;;
  let nextDoorID := TrimSpace doorID in
  fail_if (is_empty nextDoorID) ErrDoorIDRequired ;;
  '(i, g) ← find_gateway gwID' (TrimSpace tenantID);
  if existsb' (λ d, String.eqb d nextDoorID) (BoundDoorIDs g) then mret g
  else
    put_gateway i (g <| BoundDoorIDs := BoundDoorIDs g ++ [nextDoorID] |> <| gwLastSeenAt := now env |>) ;;
    persistLocked env ;;
    gateway_at i g.

Definition UnbindDoor (tenantID gatewayID doorID : string) (env : Env) : gwop Gateway :=
  let gwID' := TrimSpace gatewayID in
  fail_if (is_empty gwID') ErrGatewayIDRequired ;;
  let nextDoorID := TrimSpace doorID in
  fail_if (is_empty nextDoorID) ErrDoorIDRequired ;;
  '(i, g) ← find_gateway gwID' (TrimSpace tenantID);
  put_gateway i (g <| BoundDoorIDs := filterb (λ d, negb (String.eqb d nextDoorID)) (BoundDoorIDs g) |>
                   <| gwLastSeenAt := now env |>) ;;
  persistLocked env ;;
  gateway_at i g.

(** A device with this serial sits on a gateway with another identifier. *)
Definition serial_elsewhere (serial gwID' : string) (s : Service) : bool :=
  existsb' (λ g, existsb' (λ d, EqualFold (devSerialNumber d) serial) (Devices g) && negb (String.eqb (gwID g) gwID'))
    (gateways s).

(** The branch of [RegisterDevice] for a serial the gateway already has. *)
Definition refresh_device (i : nat) (g : Gateway) (d : nat) (dev : GatewayDevice) (status protocol : string)
    (cfg : option RS485Config) (env : Env) : gwop Gateway :=
  put_gateway i (g <| Devices := <[d := dev <| devStatus := status |> <| devProtocol := protocol |>
                                           <| devRS485Config := cfg |> <| devLastSeenAt := now env |>]> (Devices g) |>) ;;
  persistLocked env ;;
  gateway_at i g.

(** The branch for a new device: it goes to the front of the gateway's list. *)
Definition add_device (i : nat) (g : Gateway) (record : GatewayDevice) (env : Env) : gwop Gateway :=
  put_gateway i (g <| Devices := record :: Devices g |> <| gwLastSeenAt := now env |>
                   <| gwStatus := if String.eqb (devStatus record) "online" then "online" else gwStatus g |>) ;;
  persistLocked env ;;
  gateway_at i g.

Definition RegisterDevice (tenantID gatewayID serialNumber kind source status protocol : string)
    (rs485Config : option RS485Config) (env : Env) : gwop Gateway :=
  let gwID' := TrimSpace gatewayID in
  fail_if (is_empty gwID') ErrGatewayIDRequired ;;
  let serial := TrimSpace serialNumber in
  fail_if (is_empty serial) ErrGatewayDeviceSerialRequired ;;
  nextKind ← lift (normalizeDeviceKind kind);
  nextSource ← lift (normalizeDeviceSource source);
  nextStatus ← lift (normalizeDeviceStatus status);
  nextProtocol ← lift (normalizeDeviceProtocol nextKind nextSource protocol);
  nextRS485Config ← lift (normalizeRS485Config nextProtocol rs485Config);
  '(i, g) ← find_gateway gwID' (TrimSpace tenantID);
  conflict ← gets (serial_elsewhere serial gwID');
  fail_if conflict ErrGatewayDeviceSerialConflict ;;
  match findi (λ d, EqualFold (devSerialNumber d) serial) (Devices g) with
  | Some (d, dev) =>
      consumeDeviceSerialLocked serial (gwTenantID g) gwID' nextKind nextSource (now env) ;;
      refresh_device i g d dev nextStatus nextProtocol nextRS485Config env
  | None =>
      fail_if (DeviceCapacity g <=? Z.of_nat (length (Devices g))) ErrGatewayDeviceCapacityExceeded ;;
      consumeDeviceSerialLocked serial (gwTenantID g) gwID' nextKind nextSource (now env) ;;
      deviceID ← lift (fresh_id "gdv_" env);
      add_device i g
        (mkDevice deviceID gwID' serial nextKind nextSource nextProtocol nextRS485Config None nextStatus (now env)) env
  end.

(** The first device with the identifier on a gateway the tenant may see. *)
Definition find_device (filterTenantID devID' : string) (gws : list Gateway)
  : option (nat * Gateway * (nat * GatewayDevice)) :=
  match findi (λ g, (is_empty filterTenantID || String.eqb (gwTenantID g) filterTenantID)
                    && existsb' (λ d, String.eqb (devID d) devID') (Devices g)) gws with
  | Some (i, g) =>
      match findi (λ d, String.eqb (devID d) devID') (Devices g) with
      | Some dd => Some (i, g, dd)
      | None => None
      end
  | None => None
  end.

Definition DeassignDevice (tenantID deviceID : string) (env : Env) : gwop (Gateway * GatewayDevice) :=
  let devID' := TrimPrefix (TrimSpace deviceID) "terminal_" in
  fail_if (is_empty devID') ErrGatewayDeviceIDRequired ;;
  found ← gets (λ s, find_device (TrimSpace tenantID) devID' (gateways s));
  match found with
  | None => throw ErrGatewayDeviceNotFound
  | Some (i, g, (d, removed)) =>
      when (String.eqb (devSource removed) "mistypass_procured")
        (releaseSerialInventoryLocked (devSerialNumber removed) (gwTenantID g) (now env)) ;;
      let rest := delete d (Devices g) in
      put_gateway i (g <| Devices := rest |> <| gwLastSeenAt := now env |>
                       <| gwStatus := if Nat.eqb (length rest) 0 then "offline" else gwStatus g |>) ;;
      persistLocked env ;;
      g' ← gateway_at i g;
      mret (g', removed)
  end.

(** The protocol is checked after the status has been written. *)
Definition UpdateDevice (tenantID deviceID status protocol : string) (env : Env) : gwop (Gateway * GatewayDevice) :=
  let devID' := TrimSpace deviceID in
  fail_if (is_empty devID') ErrGatewayDeviceIDRequired ;;
  found ← gets (λ s, find_device tenantID devID' (gateways s));
  match found with
  | None => throw ErrGatewayDeviceNotFound
  | Some (i, g, (d, dev)) =>
      let put dev' := put_gateway i (g <| Devices := <[d := dev']> (Devices g) |>) in
      dev1 ← (let nextStatus := TrimSpace status in
              if is_empty nextStatus then mret dev
              else v ← lift (normalizeDeviceStatus nextStatus);
                   let dev1 := dev <| devStatus := v |> in put dev1 ;; mret dev1);
      dev2 ← (let nextProtocol := TrimSpace protocol in
              if is_empty nextProtocol then mret dev1
              else v ← lift (normalizeDeviceProtocol (devKind dev1) (devSource dev1) nextProtocol);
                   mret (dev1 <| devProtocol := v |>));
      let dev3 := dev2 <| devLastSeenAt := now env |> in
      put dev3 ;;
      persistLocked env ;;
      g' ← gateway_at i g;
      mret (g', dev3)
  end.

Definition ResetDeviceTamper (tenantID deviceID : string) (env : Env) : gwop (Gateway * GatewayDevice) :=
  let devID' := TrimSpace deviceID in
  fail_if (is_empty devID') ErrGatewayDeviceIDRequired ;;
  found ← gets (λ s, find_device tenantID devID' (gateways s));
  match found with
  | None => throw ErrGatewayDeviceNotFound
  | Some (i, g, (d, dev)) =>
      let dev' := dev <| devRS485Health := None |> <| devLastSeenAt := now env |> in
      put_gateway i (g <| Devices := <[d := dev']> (Devices g) |>) ;;
      persistLocked env ;;
      g' ← gateway_at i g;
      mret (g', dev')
  end.

(** ** RS-485 line telemetry *)

Definition normalizeRS485TelemetryReport (report : RS485TelemetryReport) : result gw_err RS485TelemetryReport :=
  let next := mkReport (Retries report) (Timeouts report) (Collisions report) (TrimSpace (rpLastError report))
                (ResetConsecutiveTimeouts report) in
  if (Retries next <? 0) || (Timeouts next <? 0) || (Collisions next <? 0) then Err ErrGatewayDeviceRS485TelemetryInvalid
  else if (Retries next =? 0) && (Timeouts next =? 0) && (Collisions next =? 0) && is_empty (rpLastError next)
          && negb (ResetConsecutiveTimeouts next) then Err ErrGatewayDeviceRS485TelemetryInvalid
  else Ok next.

(** The counters are Go [int]s: they wrap. *)
Definition add_report (r : RS485TelemetryReport) (now : Z) (h : RS485Health) : RS485Health :=
  mkHealth (wrap64 (RetryCount h + Retries r)) (wrap64 (TimeoutCount h + Timeouts r))
    (wrap64 (CollisionCount h + Collisions r))
    (if ResetConsecutiveTimeouts r then 0
     else if 0 <? Timeouts r then wrap64 (ConsecutiveTimeouts h + Timeouts r) else 0)
    (if is_empty (rpLastError r) then hLastError h else rpLastError r) now.

Definition line_alerted (h : RS485Health) : bool := (3 <=? ConsecutiveTimeouts h) || (5 <=? CollisionCount h).

Definition ReportRS485Telemetry (tenantID gatewayID deviceID : string) (report : RS485TelemetryReport) (env : Env)
  : gwop (GatewayDevice * bool) :=
  let gwID' := TrimSpace gatewayID in
  fail_if (is_empty gwID') ErrGatewayIDRequired ;;
  let devID' := TrimSpace deviceID in
  fail_if (is_empty devID') ErrGatewayDeviceIDRequired ;;
  nextReport ← lift (normalizeRS485TelemetryReport report);
  '(i, g) ← find_gateway gwID' (TrimSpace tenantID);
  match findi (λ d, String.eqb (devID d) devID') (Devices g) with
  | None => throw ErrGatewayDeviceNotFound
  | Some (d, dev) =>
      fail_if (negb (String.eqb (devProtocol dev) "rs485")) ErrGatewayDeviceRS485TelemetryProtocolMismatch ;;
      let health := add_report nextReport (now env) (default (mkHealth 0 0 0 0 "" time_zero) (devRS485Health dev)) in
      let dev' := dev <| devRS485Health := Some health |> <| devLastSeenAt := now env |> in
      put_gateway i (g <| Devices := <[d := dev']> (Devices g) |> <| gwLastSeenAt := now env |>
                       <| gwStatus := "online" |>) ;;
      persistLocked env ;;
      mret (dev', line_alerted health)
  end.

Record DeviceTelemetrySummary := mkSummary {
  dsProtocol : string; AlertLevel : string; LineQuality : string; GovernanceAction : string; Degraded : bool;
  ReasonCodes : list string; dsLastReportAt : option Z
}.

Definition summarizeDeviceTelemetry (device : GatewayDevice) : DeviceTelemetrySummary :=
  let p := TrimSpace (devProtocol device) in
  let p := if is_empty p then "unknown" else p in
  if negb (String.eqb p "rs485") then mkSummary p "none" "healthy" "follow_protocol_default" false [] None
  else
    match devRS485Health device with
    | None => mkSummary p "none" "healthy" "report_telemetry" false [] None
    | Some h =>
        let at' := if IsZero (LastReportAt h) then None else Some (LastReportAt h) in
        let reasonCodes := (if 3 <=? ConsecutiveTimeouts h then ["consecutive_timeouts"] else [])
                           ++ (if 5 <=? CollisionCount h then ["collision_spike"] else []) in
        if (6 <=? ConsecutiveTimeouts h) || (10 <=? CollisionCount h) then
          mkSummary p "critical" "critical" "switch_to_offline_cache_and_schedule_line_repair" true reasonCodes at'
        else if Nat.ltb 0 (length reasonCodes) then
          mkSummary p "warning" "degraded" "inspect_line_and_prepare_osdp_upgrade" true reasonCodes at'
        else mkSummary p "none" "healthy" "keep_observing" false [] at'
    end.

(** ** Configuration versions, upload checkpoints and firmware tasks *)

Record CommandAck := mkAck { TaskID : string; ackGatewayID : string; Command : string; ackStatus : string; ackCreatedAt : Z }.

Definition findConfigStateIndexLocked (gatewayID : string) (s : Service) : option (nat * GatewayConfigState) :=
  let nextGatewayID := TrimSpace gatewayID in
  if is_empty nextGatewayID then None
  else findi (λ c, String.eqb (cfGatewayID c) nextGatewayID) (configStates s).

(** The index of the gateway's configuration state, appended when missing. *)
Definition ensureConfigStateLocked (gatewayID : string) : gwop (nat * GatewayConfigState) := λ s,
  let nextGatewayID := TrimSpace gatewayID in
  match findConfigStateIndexLocked nextGatewayID s with
  | Some ic => (s, Ok ic)
  | None =>
      let c := mkConfig nextGatewayID "" None "" None in
      (s <| configStates := configStates s ++ [c] |>, Ok (length (configStates s), c))
  end.

Definition put_config (k : nat) (c : GatewayConfigState) : gwop unit :=
  modify (λ s, s <| configStates := <[k := c]> (configStates s) |>).

Definition PublishConfig (tenantID gatewayID version : string) (env : Env) : gwop CommandAck :=
  let gwID' := TrimSpace gatewayID in
  fail_if (is_empty gwID') ErrGatewayIDRequired ;;
  let nextVersion := TrimSpace version in
  fail_if (is_empty nextVersion) ErrConfigVersionRequired ;;
  taskID ← lift (fresh_id "task_" env);
  '(i, g) ← find_gateway gwID' (TrimSpace tenantID);
  put_gateway i (g <| gwLastSeenAt := now env |>) ;;
  '(k, cfg) ← ensureConfigStateLocked gwID';
  put_config k (cfg <| DesiredVersion := nextVersion |> <| DesiredUpdatedAt := Some (now env) |>) ;;
  persistLocked env ;;
  mret (mkAck taskID gwID' "update_config" "queued" (now env)).

Record GatewayConfigSnapshot := mkConfigSnapshot {
  snGatewayID : string; snTenantID : string; snDesiredVersion : string; snDesiredUpdatedAt : option Z;
  snAppliedVersion : string; snAppliedAt : option Z; snBoundDoorIDs : list string; snDevices : list GatewayDevice
}.

Definition PullConfig (tenantID gatewayID : string) : gwop GatewayConfigSnapshot :=
  let gwID' := TrimSpace gatewayID in
  fail_if (is_empty gwID') ErrGatewayIDRequired ;;
  '(i, g) ← find_gateway gwID' (TrimSpace tenantID);
  found ← gets (findConfigStateIndexLocked gwID');
  let c := match found with Some (_, c) => c | None => mkConfig gwID' "" None "" None end in
  mret (mkConfigSnapshot (gwID g) (gwTenantID g) (DesiredVersion c) (DesiredUpdatedAt c) (AppliedVersion c)
          (AppliedAt c) (BoundDoorIDs g) (Devices g)).

Definition MarkConfigApplied (tenantID gatewayID version : string) (env : Env) : gwop GatewayConfigSnapshot :=
  let gwID' := TrimSpace gatewayID in
  fail_if (is_empty gwID') ErrGatewayIDRequired ;;
  let nextVersion := TrimSpace version in
  fail_if (is_empty nextVersion) ErrConfigVersionRequired ;;
  '(i, g) ← find_gateway gwID' (TrimSpace tenantID);
  put_gateway i (g <| gwStatus := "online" |> <| gwLastSeenAt := now env |>) ;;
  '(k, cfg) ← ensureConfigStateLocked gwID';
  let c1 := cfg <| AppliedVersion := nextVersion |> <| AppliedAt := Some (now env) |> in
  let c := if is_empty (DesiredVersion c1)
           then c1 <| DesiredVersion := nextVersion |> <| DesiredUpdatedAt := Some (now env) |> else c1 in
  put_config k c ;;
  persistLocked env ;;
  mret (mkConfigSnapshot (gwID g) (gwTenantID g) (DesiredVersion c) (DesiredUpdatedAt c) (AppliedVersion c)
          (AppliedAt c) (BoundDoorIDs g) (Devices g)).

Definition checkpoint_of (gatewayID queue : string) (c : GatewayEventCheckpoint) : bool :=
  String.eqb (cpGatewayID c) gatewayID && String.eqb (cpQueue c) queue.

Definition findEventCheckpointIndexLocked (gatewayID queue : string) (s : Service)
  : option (nat * GatewayEventCheckpoint) :=
  let nextGatewayID := TrimSpace gatewayID in
  let nextQueue := TrimSpace queue in
  if is_empty nextGatewayID || is_empty nextQueue then None
  else findi (checkpoint_of nextGatewayID nextQueue) (eventCheckpoints s).

Definition UpsertEventCheckpoint (tenantID gatewayID queue checkpointID lastRequestID : string) (ackedCount : Z)
    (lastOccurredAt : option Z) (env : Env) : gwop GatewayEventCheckpoint :=
  let gwID' := TrimSpace gatewayID in
  fail_if (is_empty gwID') ErrGatewayIDRequired ;;
  let nextQueue := TrimSpace queue in
  fail_if (is_empty nextQueue) ErrGatewayEventCheckpointQueueRequired ;;
  let nextCheckpointID := TrimSpace checkpointID in
  fail_if (is_empty nextCheckpointID) ErrGatewayEventCheckpointRequired ;;
  fail_if (ackedCount <? 0) ErrGatewayEventCheckpointAckedCountInvalid ;;
  let at' := match lastOccurredAt with Some t => if IsZero t then None else Some t | None => None end in
  '(i, g) ← find_gateway gwID' (TrimSpace tenantID);
  put_gateway i (g <| gwLastSeenAt := now env |>) ;;
  let record := mkCheckpoint gwID' nextQueue nextCheckpointID (TrimSpace lastRequestID) ackedCount at' (now env) in
  found ← gets (findEventCheckpointIndexLocked gwID' nextQueue);
  match found with
  | None =>
      modify (λ s, s <| eventCheckpoints := eventCheckpoints s ++ [record] |>) ;;
      persistLocked env ;;
      mret record
  | Some (k, c) =>
      fail_if (ackedCount <? AckedCount c) ErrGatewayEventCheckpointAckedCountRegression ;;
      let c' := c <| CheckpointID := nextCheckpointID |> <| LastRequestID := TrimSpace lastRequestID |>
                  <| AckedCount := ackedCount |> <| LastOccurredAt := at' |> <| cpUpdatedAt := now env |> in
      modify (λ s, s <| eventCheckpoints := <[k := c']> (eventCheckpoints s) |>) ;;
      persistLocked env ;;
      mret c'
  end.

Definition findQueueIngestTotalIndexLocked (gatewayID queue : string) (s : Service)
  : option (nat * GatewayQueueIngestTotal) :=
  let nextGatewayID := TrimSpace gatewayID in
  let nextQueue := TrimSpace queue in
  if is_empty nextGatewayID || is_empty nextQueue then None
  else findi (λ t, String.eqb (qtGatewayID t) nextGatewayID && String.eqb (qtQueue t) nextQueue) (queueIngestTotals s).

Definition AddQueueIngestTotal (tenantID gatewayID queue : string) (delta : Z) (env : Env)
  : gwop GatewayQueueIngestTotal :=
  let gwID' := TrimSpace gatewayID in
  fail_if (is_empty gwID') ErrGatewayIDRequired ;;
  let nextQueue := TrimSpace queue in
  fail_if (is_empty nextQueue) ErrGatewayEventCheckpointQueueRequired ;;
  fail_if (delta <=? 0) ErrGatewayQueueIngestDeltaInvalid ;;
  '(i, g) ← find_gateway gwID' (TrimSpace tenantID);
  put_gateway i (g <| gwLastSeenAt := now env |>) ;;
  found ← gets (findQueueIngestTotalIndexLocked gwID' nextQueue);
  match found with
  | None =>
      let record := mkTotal gwID' nextQueue delta (now env) in
      modify (λ s, s <| queueIngestTotals := queueIngestTotals s ++ [record] |>) ;;
      persistLocked env ;;
      mret record
  | Some (k, t) =>
      let t' := t <| IngestedTotal := wrap64 (IngestedTotal t + delta) |> <| qtUpdatedAt := now env |> in
      modify (λ s, s <| queueIngestTotals := <[k := t']> (queueIngestTotals s) |>) ;;
      persistLocked env ;;
      mret t'
  end.

Definition Reboot (tenantID gatewayID : string) (env : Env) : gwop CommandAck :=
  let gwID' := TrimSpace gatewayID in
  fail_if (is_empty gwID') ErrGatewayIDRequired ;;
  taskID ← lift (fresh_id "task_" env);
  '(i, g) ← find_gateway gwID' (TrimSpace tenantID);
  put_gateway i (g <| gwStatus := "online" |> <| gwLastSeenAt := now env |>) ;;
  persistLocked env ;;
  mret (mkAck taskID gwID' "reboot" "queued" (now env)).

(** [hex.DecodeString] accepts the string. *)
Definition hex_char (c : ascii) : bool :=
  is_digit c || ((97 <=? code c) && (code c <=? 102)) || ((65 <=? code c) && (code c <=? 70)).
Definition valid_hex (s : string) : bool := all_chars hex_char s && (len s mod 2 =? 0).

Definition isValidSHA256Hex (value : string) : bool := (len value =? 64) && valid_hex value.
Definition isValidEd25519SignatureHex (value : string) : bool := (len value =? 128) && valid_hex value.

(** An empty tenant on the gateway found reads as no gateway at all. *)
Definition CreateOTATask (tenantID gatewayID firmwareVersion firmwareURL firmwareSHA256 firmwareSignature
    requestedBy : string) (env : Env) : gwop GatewayOTATask :=
  let gwID' := TrimSpace gatewayID in
  fail_if (is_empty gwID') ErrGatewayIDRequired ;;
  let nextVersion := TrimSpace firmwareVersion in
  fail_if (is_empty nextVersion) ErrGatewayOTAFirmwareVersionRequired ;;
  let nextURL := TrimSpace firmwareURL in
  fail_if (is_empty nextURL) ErrGatewayOTAFirmwareURLRequired ;;
  let nextSHA256 := ToLower (TrimSpace firmwareSHA256) in
  fail_if (negb (is_empty nextSHA256) && negb (isValidSHA256Hex nextSHA256)) ErrGatewayOTAFirmwareSHA256Invalid ;;
  let nextSignature := ToLower (TrimSpace firmwareSignature) in
  fail_if (negb (is_empty nextSignature) && negb (isValidEd25519SignatureHex nextSignature))
    ErrGatewayOTAFirmwareSignatureInvalid ;;
  taskID ← lift (fresh_id "ota_" env);
  '(i, g) ← find_gateway gwID' (TrimSpace tenantID);
  put_gateway i (g <| gwLastSeenAt := now env |>) ;;
  fail_if (is_empty (gwTenantID g)) ErrGatewayNotFound ;;
  let by' := TrimSpace requestedBy in
  let task := mkTask taskID gwID' (gwTenantID g) nextVersion nextURL nextSHA256 nextSignature "queued" "" by' by'
                (now env) (now env) in
  modify (λ s, s <| otaTasks := task :: otaTasks s |>) ;;
  persistLocked env ;;
  mret task.

Definition normalizeGatewayOTATaskStatus (status : string) : result gw_err string :=
  let k := ToLower (TrimSpace status) in
  if one_of ["queued"; "dispatching"; "succeeded"; "failed"; "canceled"] k then Ok k
  else Err ErrGatewayOTATaskStatusInvalid.

Definition findOTATaskIndexLocked (taskID gatewayID : string) (s : Service) : option (nat * GatewayOTATask) :=
  let nextTaskID := TrimSpace taskID in
  let nextGatewayID := TrimSpace gatewayID in
  if is_empty nextTaskID || is_empty nextGatewayID then None
  else findi (λ t, String.eqb (otID t) nextTaskID && String.eqb (otGatewayID t) nextGatewayID) (otaTasks s).

Definition UpdateOTATaskStatus (tenantID gatewayID taskID status errorMessage updatedBy : string) (env : Env)
  : gwop GatewayOTATask :=
  let gwID' := TrimSpace gatewayID in
  fail_if (is_empty gwID') ErrGatewayIDRequired ;;
  let nextTaskID := TrimSpace taskID in
  fail_if (is_empty nextTaskID) ErrGatewayOTATaskIDRequired ;;
  nextStatus ← lift (normalizeGatewayOTATaskStatus status);
  let nextErrorMessage := if String.eqb nextStatus "failed" then TrimSpace errorMessage else "" in
  let nextUpdatedBy := TrimSpace updatedBy in
  let filterTenantID := TrimSpace tenantID in
  '(i, g) ← find_gateway gwID' filterTenantID;
  put_gateway i (g <| gwLastSeenAt := now env |>) ;;
  found ← gets (findOTATaskIndexLocked nextTaskID gwID');
  match found with
  | None => throw ErrGatewayOTATaskNotFound
  | Some (k, t) =>
      fail_if (negb (is_empty filterTenantID) && negb (String.eqb (otTenantID t) filterTenantID)) ErrGatewayOTATaskNotFound ;;
      let t' := t <| otStatus := nextStatus |> <| ErrorMessage := nextErrorMessage |>
                  <| UpdatedBy := if is_empty nextUpdatedBy then UpdatedBy t else nextUpdatedBy |>
                  <| otUpdatedAt := now env |> in
      modify (λ s, s <| otaTasks := <[k := t']> (otaTasks s) |>) ;;
      persistLocked env ;;
      mret t'
  end.

(** ** Start-up and look-ups *)

Definition serialInventorySeedID (serialNumber gatewayID : string) : string :=
  let base := ToLower (TrimSpace (serialNumber +:+ "-" +:+ gatewayID)) in
  if is_empty base then "siv_seed_empty"
  else "siv_seed_" +:+ String.substring 0 42 (hex_encode (of_string base)).

(** The accumulator of [serialInventoryFromGateways]: the serials seen and the items. *)
Definition appendConsumed (now : Z) (tenantID serialNumber productType gatewayID : string) (consumedAt : Z)
    (acc : gset string * list SerialInventoryItem) : gset string * list SerialInventoryItem :=
  let '(seen, items) := acc in
  let serial := ToUpper (TrimSpace serialNumber) in
  if is_empty serial then acc
  else if bool_decide (serial ∈ seen) then acc
  else
    let ts := if IsZero consumedAt then now else consumedAt in
    ({[serial]} ∪ seen,
     items ++ [mkItem (serialInventorySeedID serial gatewayID) (TrimSpace tenantID) serial productType "consumed"
                 "legacy-seed" "seed" (TrimSpace gatewayID) (Some ts) ts ts]).

Definition serialInventoryFromGateways (now : Z) (gws : list Gateway) : list SerialInventoryItem :=
  snd (fold_left (λ acc g,
         let acc := appendConsumed now (gwTenantID g) (gwSerialNumber g) "gateway" (gwID g) (gwLastSeenAt g) acc in
         fold_left (λ acc d,
           if negb (String.eqb (devSource d) "mistypass_procured") then acc
           else appendConsumed now (gwTenantID g) (devSerialNumber d) (inventoryProductTypeByDeviceKind (devKind d))
                  (gwID g) (devLastSeenAt d) acc)
         (Devices g) acc)
       gws (∅, [])).

Definition seed_gateways (now : Z) : list Gateway :=
  [mkGateway "gw_demo_001" "tenant_demo_jakarta" "MP-GW-JKT-0001" "building_demo_001" 8
     [mkDevice "gdv_demo_001" "gw_demo_001" "RD-JKT-001" "reader" "mistypass_procured" "osdp_v2" None None "online" now;
      mkDevice "gdv_demo_002" "gw_demo_001" "RD-JKT-002" "legacy_reader" "legacy_integration" "wiegand_26" None None
        "offline" (now - 8 * minute)]
     "online" now
     ["door_jkt_001"; "door_jkt_002"; "door_jkt_003"; "door_jkt_004"; "door_jkt_005"; "door_jkt_006"; "door_jkt_014"];
   mkGateway "gw_demo_002" "tenant_demo_factory" "MP-GW-BTN-0001" "building_demo_003" 4
     [mkDevice "gdv_demo_003" "gw_demo_002" "RD-BTN-100" "reader" "mistypass_procured" "osdp_v2" None None "offline"
        (now - 15 * minute)]
     "offline" (now - 12 * minute) []].

Definition NewService (now : Z) : Service :=
  mkService (seed_gateways now) (serialInventoryFromGateways now (seed_gateways now)) [] [] [] [] None.

Inductive LoadReply := LoadErr | LoadMissing | LoadFound (snap : Snap).

(** A first start saves the seeds; a store from before the inventory existed gets
    one computed from its gateways, which is saved at once. *)
Definition restoreFromStateStore (r : LoadReply) (env : Env) : gwop unit :=
  match r with
  | LoadErr => throw ErrLoad
  | LoadMissing => persistLocked env
  | LoadFound (gs, inv, cfgs, cps, tots, tasks) =>
      let backfill := Nat.eqb (length inv) 0 in
      let inv' := if backfill then serialInventoryFromGateways (now env) gs else inv in
      modify (λ s, mkService gs inv' cfgs cps tots tasks (savedState s)) ;;
      when backfill (persistLocked env)
  end.

Definition visible (filterTenantID : string) (g : Gateway) : bool :=
  is_empty filterTenantID || String.eqb (gwTenantID g) filterTenantID.

Definition List (tenantID : string) (s : Service) : list Gateway := filterb (visible (TrimSpace tenantID)) (gateways s).

Definition FindGatewayByID (tenantID gatewayID : string) (s : Service) : option Gateway :=
  let nextGatewayID := TrimSpace gatewayID in
  if is_empty nextGatewayID then None
  else snd <$> findi (λ g, String.eqb (gwID g) nextGatewayID && visible (TrimSpace tenantID) g) (gateways s).

Definition FindGatewayByDoorID (tenantID doorID : string) (s : Service) : option Gateway :=
  let nextDoorID := TrimSpace doorID in
  if is_empty nextDoorID then None
  else snd <$> findi (λ g, visible (TrimSpace tenantID) g && existsb' (λ d, String.eqb d nextDoorID) (BoundDoorIDs g))
                 (gateways s).

Definition ListSerialInventory (tenantID productType status : string) (s : Service)
  : result gw_err (list SerialInventoryItem) :=
  filterProductType ← (if is_empty (TrimSpace productType) then Ok "" else normalizeSerialInventoryProductType productType);
  filterStatus ← (if is_empty (TrimSpace status) then Ok "" else normalizeSerialInventoryStatus status);
  let pass f v := is_empty f || String.eqb v f in
  Ok (filterb (λ it, pass (TrimSpace tenantID) (itTenantID it) && pass filterProductType (ProductType it)
                     && pass filterStatus (itStatus it)) (serialInventory s)).

Definition ListEventCheckpoints (tenantID gatewayID : string) : gwop (list GatewayEventCheckpoint) :=
  let gwID' := TrimSpace gatewayID in
  fail_if (is_empty gwID') ErrGatewayIDRequired ;;
  find_gateway gwID' (TrimSpace tenantID) ;;
  gets (λ s, filterb (λ c, String.eqb (cpGatewayID c) gwID') (eventCheckpoints s)).

Definition ListOTATasks (tenantID gatewayID : string) : gwop (list GatewayOTATask) :=
  let gwID' := TrimSpace gatewayID in
  fail_if (is_empty gwID') ErrGatewayIDRequired ;;
  find_gateway gwID' (TrimSpace tenantID) ;;
  gets (λ s, filterb (λ t, String.eqb (otGatewayID t) gwID') (otaTasks s)).

(** ** One call *)

Inductive gw_call :=
| CallUpdateGatewayStatus (tenantID gatewayID status : string)
| CallImport (tenantID : string) (records : list (SerialInventoryImportItem * option string))
| CallUpdateSerial (tenantID serialNumber status consumedGatewayID : string)
| CallBatchUpdateSerial (tenantID : string) (serialNumbers : list string) (status consumedGatewayID : string)
| CallRegister (serialNumber tenantID buildingID : string) (deviceCapacity : Z)
| CallDeassign (tenantID gatewayID : string)
| CallBindDoor (tenantID gatewayID doorID : string)
| CallUnbindDoor (tenantID gatewayID doorID : string)
| CallRegisterDevice (tenantID gatewayID serialNumber kind source status protocol : string) (cfg : option RS485Config)
| CallDeassignDevice (tenantID deviceID : string)
| CallUpdateDevice (tenantID deviceID status protocol : string)
| CallResetDeviceTamper (tenantID deviceID : string)
| CallTelemetry (tenantID gatewayID deviceID : string) (report : RS485TelemetryReport)
| CallPublishConfig (tenantID gatewayID version : string)
| CallPullConfig (tenantID gatewayID : string)
| CallMarkConfigApplied (tenantID gatewayID version : string)
| CallCheckpoint (tenantID gatewayID queue checkpointID lastRequestID : string) (ackedCount : Z) (lastOccurredAt : option Z)
| CallAddIngest (tenantID gatewayID queue : string) (delta : Z)
| CallReboot (tenantID gatewayID : string)
| CallCreateOTA (tenantID gatewayID version url sha256 signature requestedBy : string)
| CallUpdateOTA (tenantID gatewayID taskID status errorMessage updatedBy : string).

Definition run_gw_call (c : gw_call) (env : Env) (s : Service) : Service :=
  match c with
  | CallUpdateGatewayStatus t g st => exec (UpdateGatewayStatus t g st env) s
  | CallImport t rs => exec (ImportSerialInventory t rs env) s
  | CallUpdateSerial t n st g => exec (UpdateSerialInventoryStatus t n st g env) s
  | CallBatchUpdateSerial t ns st g => exec (BatchUpdateSerialInventoryStatus t ns st g env) s
  | CallRegister n t b c => exec (Register n t b c env) s
  | CallDeassign t g => exec (Deassign t g env) s
  | CallBindDoor t g d => exec (BindDoor t g d env) s
  | CallUnbindDoor t g d => exec (UnbindDoor t g d env) s
  | CallRegisterDevice t g n k so st p cfg => exec (RegisterDevice t g n k so st p cfg env) s
  | CallDeassignDevice t d => exec (DeassignDevice t d env) s
  | CallUpdateDevice t d st p => exec (UpdateDevice t d st p env) s
  | CallResetDeviceTamper t d => exec (ResetDeviceTamper t d env) s
  | CallTelemetry t g d r => exec (ReportRS485Telemetry t g d r env) s
  | CallPublishConfig t g v => exec (PublishConfig t g v env) s
  | CallPullConfig t g => exec (PullConfig t g) s
  | CallMarkConfigApplied t g v => exec (MarkConfigApplied t g v env) s
  | CallCheckpoint t g q c r n at' => exec (UpsertEventCheckpoint t g q c r n at' env) s
  | CallAddIngest t g q d => exec (AddQueueIngestTotal t g q d env) s
  | CallReboot t g => exec (Reboot t g env) s
  | CallCreateOTA t g v u h sg by' => exec (CreateOTATask t g v u h sg by' env) s
  | CallUpdateOTA t g k st e by' => exec (UpdateOTATaskStatus t g k st e by' env) s
  end.

Definition run_gw_calls (cs : list (gw_call * Env)) (s : Service) : Service :=
  foldl (λ s ce, run_gw_call ce.1 ce.2 s) s cs.
