(* ===== verification/GatewayFleet.v ===== *)
(** * The gateway fleet: what its operations promise

    Theorems about the service of [Gateway.v]: a scrapped serial stays scrapped,
    the fleet invariant holds in every reachable state, acknowledged counts do not
    go down, and a revoked status is overwritten by the gateway's next report.
    Each rests on frame lemmas that say which tables an operation leaves alone. *)

From S2P Require Import Prelude GoStrings GoTime Gateway.
#[local] Open Scope Z_scope.

(** ** What each operation leaves alone

    The operations fall into three groups by the tables they write: the
    inventory, the gateways, and the per-gateway runtime tables. *)

Section frame.
Context {A : Type} (Q : A → Prop).

Lemma persist_frame (f : Service → A) env :
  (∀ d s, f (set_saved d s) = f s) → preserves (E:=gw_err) (λ s, Q (f s)) (persistLocked env).
Proof. intros Hf s Hs. unfold exec, persistLocked. destruct (store env); cbn [fst]; rewrite ?Hf; done. Qed.
Lemma find_gateway_frame (f : Service → A) id t : preserves (λ s, Q (f s)) (find_gateway id t).
Proof. intros s Hs. unfold exec, find_gateway. destruct (findi _ _) as [[i g]|]; simpl; [|done]. by destruct (_ && _). Qed.
End frame.

Section inventory_only.
Context {A : Type} (Q : A → Prop) (f : Service → A).
Hypothesis Hinv : ∀ l s, f (s <| serialInventory := l |>) = f s.
Hypothesis Hsave : ∀ d s, f (set_saved d s) = f s.
Let P s := Q (f s).

Lemma put_item_frame i it : preserves P (put_item i it).
Proof. apply pres_modify. intros s. unfold P. rewrite Hinv. done. Qed.
Lemma transition_item_frame i st g now : preserves P (transition_item i st g now).
Proof.
  intros s Hs. unfold exec, transition_item. destruct (_ !! _) as [it|]; [|done].
  destruct (applySerialInventoryStatusTransition _ _ _ _); [|done]. by apply (put_item_frame i a s).
Qed.
Lemma transition_all_frame is' st g now : preserves P (transition_all is' st g now).
Proof. induction is' as [|i is' IH]; simpl; pres_all. by apply transition_item_frame. Qed.
Lemma release_frame n t now : preserves P (releaseSerialInventoryLocked n t now).
Proof.
  intros s Hs. unfold exec, releaseSerialInventoryLocked. destruct (findSerialInventoryIndexLocked n s) as [[i it]|]; [|done].
  destruct (negb _); [done|]. by apply (transition_item_frame i "available" "" now s).
Qed.
Lemma release_devices_frame ds t now : preserves P (release_devices ds t now).
Proof. induction ds as [|d ds IH]; simpl; pres_all. by apply release_frame. Qed.
Lemma consume_gateway_frame n t g now : preserves P (consumeGatewaySerialLocked n t g now).
Proof. unfold consumeGatewaySerialLocked. pres_all. apply put_item_frame. Qed.
Lemma consume_device_frame n t g k so now : preserves P (consumeDeviceSerialLocked n t g k so now).
Proof. unfold consumeDeviceSerialLocked. pres_all; apply put_item_frame. Qed.
Lemma import_record_frame t r id now : preserves P (import_record t r id now).
Proof.
  unfold import_record. pres_all; try apply put_item_frame.
  apply pres_modify. intros s. unfold P. by rewrite Hinv.
Qed.
Lemma import_all_frame t rs now : preserves P (import_all t rs now).
Proof. induction rs as [|[r id] rs IH]; simpl; pres_all. apply import_record_frame. Qed.
Lemma import_frame t rs env : preserves P (ImportSerialInventory t rs env).
Proof. unfold ImportSerialInventory. pres_all; [apply import_all_frame|exact (persist_frame Q f env Hsave)]. Qed.
Lemma update_serial_frame t n st g env : preserves P (UpdateSerialInventoryStatus t n st g env).
Proof. unfold UpdateSerialInventoryStatus. pres_all; [apply transition_item_frame|exact (persist_frame Q f env Hsave)]. Qed.
Lemma batch_frame t ns st g env : preserves P (BatchUpdateSerialInventoryStatus t ns st g env).
Proof. unfold BatchUpdateSerialInventoryStatus. pres_all; [apply transition_all_frame|exact (persist_frame Q f env Hsave)]. Qed.
End inventory_only.

(** ** Scrapped serials *)

Definition scrapped (serial : string) (s : Service) : Prop :=
  match findSerialInventoryIndexLocked serial s with
  | Some (_, it) => itStatus it = "scrapped"
  | None => False
  end.

(** An item may change, but neither its serial nor, once scrapped, its status. *)
Definition item_evolves (it it' : SerialInventoryItem) : Prop :=
  itSerialNumber it' = itSerialNumber it ∧ (itStatus it = "scrapped" → itStatus it' = "scrapped").

Lemma transition_evolves st g now it it' :
  applySerialInventoryStatusTransition st g now it = Ok it' → item_evolves it it'.
Proof.
  unfold applySerialInventoryStatusTransition, item_evolves. intros H. split.
  - by repeat (destruct (String.eqb _ _)); simplify_eq.
  - intros Hs. rewrite Hs in H. change (TrimSpace "scrapped") with "scrapped" in H.
    destruct (String.eqb "scrapped" st) eqn:E; [by simplify_eq/=|].
    rewrite String.eqb_sym in E. rewrite E in H. simpl in H. by repeat (destruct (String.eqb _ _)); simplify_eq.
Qed.

Section scrapped_stays.
Context (serial : string).
Let P := scrapped serial.

Lemma scrapped_inventory s s' : serialInventory s' = serialInventory s → P s → P s'.
Proof. unfold P, scrapped, findSerialInventoryIndexLocked. by intros ->. Qed.

Lemma scr_modify f : (∀ s, serialInventory (f s) = serialInventory s) → preserves (E:=gw_err) P (modify f).
Proof. intros Hf. apply pres_modify. intros s. by apply scrapped_inventory. Qed.
Lemma scr_persist env : preserves (E:=gw_err) P (persistLocked env).
Proof. intros s. apply scrapped_inventory. unfold exec, persistLocked. by destruct (store env). Qed.
Lemma scr_find id t : preserves P (find_gateway id t).
Proof. by apply (find_gateway_frame P (λ s, s)). Qed.
Lemma scr_ensure id : preserves P (ensureConfigStateLocked id).
Proof.
  intros s. apply scrapped_inventory. unfold exec, ensureConfigStateLocked.
  by destruct (findConfigStateIndexLocked _ s).
Qed.

Lemma scr_put i it it' s :
  serialInventory s !! i = Some it → item_evolves it it' → P s → P (exec (put_item i it') s).
Proof.
  intros Hi [Hn Hst]. unfold P, scrapped, findSerialInventoryIndexLocked. cbn [exec put_item modify fst serialInventory].
  destruct (findi _ (serialInventory s)) as [[j x]|] eqn:Hf; [|done]. intros Hx.
  change (serialInventory (s <| serialInventory := <[i := it']> (serialInventory s) |>))
    with (<[i := it']> (serialInventory s)).
  rewrite (findi_insert _ _ i j it it' x) by (rewrite ?Hn; done).
  destruct (Nat.eqb_spec i j) as [->|]; [|done].
  apply findi_lookup in Hf. rewrite Hi in Hf. simplify_eq. auto.
Qed.

Lemma scr_transition i st g now : preserves P (transition_item i st g now).
Proof.
  intros s Hs. unfold exec, transition_item. destruct (serialInventory s !! i) as [it|] eqn:Hi; [|done].
  destruct (applySerialInventoryStatusTransition st g now it) as [it'|] eqn:E; [|done].
  exact (scr_put i it it' s Hi (transition_evolves _ _ _ _ _ E) Hs).
Qed.
Lemma scr_transition_all l st g now : preserves P (transition_all l st g now).
Proof. induction l as [|i l IH]; simpl; pres_all. apply scr_transition. Qed.
Lemma scr_release n t now : preserves P (releaseSerialInventoryLocked n t now).
Proof.
  intros s Hs. unfold exec, releaseSerialInventoryLocked.
  destruct (findSerialInventoryIndexLocked n s) as [[i it]|]; [|done].
  destruct (negb _); [done|]. by apply (scr_transition i "available" "" now s).
Qed.
Lemma scr_release_devices ds t now : preserves P (release_devices ds t now).
Proof. induction ds as [|d ds IH]; simpl; pres_all. apply scr_release. Qed.

Lemma consumed_evolves g now it : itStatus it = "available" → item_evolves it (consumed g now it).
Proof. intros Ha. by split; [|rewrite Ha]. Qed.

Lemma scr_consume_gateway n t g now : preserves P (consumeGatewaySerialLocked n t g now).
Proof.
  apply pres_gets_bind. intros s Hs. destruct (findSerialInventoryIndexLocked n s) as [[i it]|] eqn:Hf; [|done].
  do 2 (rewrite exec_fail_if; destruct (negb _); [done|]).
  destruct (String.eqb (itStatus it) "available") eqn:Ha; [|by destruct (String.eqb (itStatus it) "consumed")]. boolp.
  eapply scr_put; [by eapply findi_lookup|by apply consumed_evolves|done].
Qed.
Lemma scr_consume_device n t g k so now : preserves P (consumeDeviceSerialLocked n t g k so now).
Proof.
  unfold consumeDeviceSerialLocked. destruct (negb (String.eqb so _)); [apply pres_ret|].
  apply pres_gets_bind. intros s Hs. destruct (findSerialInventoryIndexLocked n s) as [[i it]|] eqn:Hf; [|done].
  do 2 (rewrite exec_fail_if; destruct (negb _); [done|]).
  destruct (String.eqb (itStatus it) "available") eqn:Ha; boolp.
  - eapply scr_put; [by eapply findi_lookup|by apply consumed_evolves|done].
  - destruct (String.eqb (itStatus it) "consumed"); [|done].
    rewrite exec_fail_if. destruct (_ && _); [done|].
    eapply scr_put; [by eapply findi_lookup|by split|done].
Qed.

Lemma scr_import_record t r id now : preserves P (import_record t r id now).
Proof.
  unfold import_record. apply pres_lift_bind. intros pt _. apply pres_lift_bind. intros sn _.
  apply pres_gets_bind. intros s Hs. destruct (findSerialInventoryIndexLocked sn s) as [[i it]|] eqn:Hf.
  - do 2 (rewrite exec_fail_if; destruct (negb _); [done|]).
    destruct (String.eqb (itStatus it) "available"); [|done].
    apply (scr_put i it); [by eapply findi_lookup|by split|done].
  - rewrite exec_lift. destruct id as [h|]; [|done]. rewrite exec_modify.
    revert Hs. unfold P, scrapped, findSerialInventoryIndexLocked. simpl.
    destruct (EqualFold sn serial) eqn:He; [|by destruct (findi _ (serialInventory s)) as [[]|]].
    destruct (findi _ (serialInventory s)) as [[j x]|] eqn:Hx; [|done]. exfalso.
    pose proof (proj1 (findi_None _ _) Hf x (findi_elem _ _ _ _ Hx)) as Hno.
    apply findi_true in Hx. cbv beta in Hx, Hno. rewrite EqualFold_sym in He.
    rewrite EqualFold_sym, (EqualFold_trans serial sn) in Hno by done. by rewrite EqualFold_sym, Hx in Hno.
Qed.
Lemma scr_import_all t rs now : preserves P (import_all t rs now).
Proof. induction rs as [|[r id] rs IH]; simpl; pres_all. apply scr_import_record. Qed.

Lemma scr_put_gateway i g : preserves P (put_gateway i g).
Proof. by apply scr_modify. Qed.
Lemma scr_put_config k c : preserves P (put_config k c).
Proof. by apply scr_modify. Qed.
Lemma scr_gateway_at i g : preserves P (gateway_at i g).
Proof. apply pres_gets. Qed.
Lemma scr_runtime id : preserves (E:=gw_err) P (modify (removeGatewayRuntimeStateLocked id)).
Proof. apply scr_modify. intros s. unfold removeGatewayRuntimeStateLocked. by destruct (is_empty _). Qed.

#[local] Hint Resolve scr_persist scr_find scr_ensure scr_transition scr_transition_all scr_release
  scr_release_devices scr_consume_gateway scr_consume_device scr_import_all scr_put_gateway scr_put_config
  scr_gateway_at scr_runtime : opdb.

Lemma call_keeps_scrapped c env s : P s → P (run_gw_call c env s).
Proof.
  intros Hs. destruct c; cbn [run_gw_call]; match goal with |- P (exec ?m s) => enough (preserves P m) by auto end;
  match goal with |- preserves _ ?m => let h := get_head m in unfold h end;
  unfold refresh_device, add_device; cbv zeta; pres_all; by apply scr_modify.
Qed.

Lemma calls_keep_scrapped cs s : P s → P (run_gw_calls cs s).
Proof. revert s. induction cs as [|[c env] cs IH]; intros s Hs; [done|]. by apply IH, call_keeps_scrapped. Qed.
End scrapped_stays.

(** A scrapped serial cannot be registered as a gateway. *)
Lemma scrapped_not_consumed serial t g now s :
  scrapped serial s → is_ok (answer (consumeGatewaySerialLocked serial t g now) s) = false.
Proof.
  unfold scrapped, consumeGatewaySerialLocked, answer. intros Hs. rewrite bind_gets.
  destruct (findSerialInventoryIndexLocked serial s) as [[i it]|]; [|done].
  rewrite fail_if_bind. destruct (negb _); [done|]. rewrite fail_if_bind. destruct (negb _); [done|].
  by rewrite Hs.
Qed.

Lemma scrapped_not_registered serial s sn t b cap env :
  scrapped serial s → normalizeGatewaySerial sn = Ok serial →
  is_ok (answer (Register sn t b cap env) s) = false ∧ gateways (exec (Register sn t b cap env) s) = gateways s.
Proof.
  intros Hs Hn. unfold answer, exec, Register. rewrite fail_if_bind. destruct (is_empty _); [done|].
  rewrite Hn, bind_lift, fail_if_bind. destruct (is_empty _); [done|]. rewrite bind_lift.
  destruct (normalizeDeviceCapacity cap); [|done]. rewrite bind_lift. destruct (fresh_id _ env) as [id|]; [|done].
  cbv zeta. rewrite bind_gets, fail_if_bind. destruct (existsb' _ _); [done|]. rewrite bind_op_eq.
  pose proof (scrapped_not_consumed serial (TrimSpace t) id (now env) s Hs) as Hno.
  pose proof (consume_gateway_frame (λ l, l = gateways s) gateways ltac:(done) serial (TrimSpace t) id (now env) s eq_refl)
    as Hg.
  unfold answer, exec in Hno, Hg. destruct (consumeGatewaySerialLocked _ _ _ _ s) as [s' [[]|e]]; [done|]. by split.
Qed.

(** A scrapped serial number stays scrapped whatever calls follow (status updates
    single or in batch, imports, registrations, releases by a gateway or device
    going away), and no gateway can ever be registered with it. *)
Theorem scrapped_forever serial s cs :
  scrapped serial s →
  scrapped serial (run_gw_calls cs s)
  ∧ ∀ sn t b cap env, normalizeGatewaySerial sn = Ok serial →
      is_ok (answer (Register sn t b cap env) (run_gw_calls cs s)) = false
      ∧ gateways (exec (Register sn t b cap env) (run_gw_calls cs s)) = gateways (run_gw_calls cs s).
Proof.
  intros Hs. apply (calls_keep_scrapped serial cs) in Hs. split; [done|]. intros; by eapply scrapped_not_registered.
Qed.

Definition empty_service : Service := mkService [] [] [] [] [] [] None.
Definition demo_env (n : Z) : Env := mkEnv n (Some "00ff00ff00ff") StoreSaved.
Definition demo_stock : Service :=
  run_gw_calls
    [(CallImport "t1" [(mkImport "mp-gw-0001" "gateway" "b1" "", Some "0a"); (mkImport "rd-7" "reader" "b1" "", Some "0b");
                       (mkImport "mp-gw-0002" "gateway" "b1" "", Some "0c")], demo_env 10);
     (CallUpdateSerial "t1" "MP-GW-0002" "scrapped" "", demo_env 20)] empty_service.

Lemma scrapped_forever_witness :
  scrapped "MP-GW-0002" demo_stock
  ∧ is_ok (answer (Register "mp-gw-0002 " "t1" "" 0 (demo_env 40))
             (run_gw_calls [(CallUpdateSerial "t1" "MP-GW-0002" "available" "", demo_env 30)] demo_stock)) = false.
Proof.
  assert (scrapped "MP-GW-0002" demo_stock) as H by (vm_compute; reflexivity).
  split; [exact H|].
  apply (scrapped_forever "MP-GW-0002" demo_stock [(CallUpdateSerial "t1" "MP-GW-0002" "available" "", demo_env 30)] H).
  vm_compute; reflexivity.
Defined.

(** ** The fleet invariant *)

Definition gkey (g : Gateway) : string := ToLower (gwSerialNumber g).
Definition dkey (d : GatewayDevice) : string := ToLower (devSerialNumber d).

Record gateway_ok (g : Gateway) : Prop := {
  ok_capacity : DeviceCapacity g = 4 ∨ DeviceCapacity g = 8;
  ok_room : Z.of_nat (length (Devices g)) <= DeviceCapacity g;
  ok_serials : NoDup (dkey <$> Devices g);
  ok_owner : ∀ d, d ∈ Devices g → devGatewayID d = gwID g;
  ok_doors : NoDup (BoundDoorIDs g)
}.

Record fleet_ok (gs : list Gateway) : Prop := {
  ok_ids : NoDup (gwID <$> gs);
  ok_gateway_serials : NoDup (gkey <$> gs);
  ok_each : ∀ g, g ∈ gs → gateway_ok g;
  ok_device_serials : ∀ g1 g2 d1 d2, g1 ∈ gs → g2 ∈ gs → d1 ∈ Devices g1 → d2 ∈ Devices g2 →
    dkey d1 = dkey d2 → gwID g1 = gwID g2
}.

(** The random identifier of a registration is not the one of a gateway in service. *)
Definition fresh_for (c : gw_call) (env : Env) (s : Service) : Prop :=
  match c, fresh env with
  | CallRegister _ _ _ _, Some h => ("gw_" +:+ h) ∉ gwID <$> gateways s
  | _, _ => True
  end.

(** One call on the service, as a step. *)
Inductive gw_step : Service → Service → Prop :=
| gw_step_call c env s : fresh_for c env s → gw_step s (run_gw_call c env s).

Lemma fmap_insert_same {A B} (f : A → B) (l : list A) (i : nat) x y : l !! i = Some x → f y = f x → f <$> <[i := y]> l = f <$> l.
Proof. intros Hl Hf. rewrite list_fmap_insert, Hf, list_insert_id; [done|]. by rewrite list_lookup_fmap, Hl. Qed.

Lemma elem_of_insert {A} (l : list A) i x y : x ∈ <[i := y]> l → x = y ∨ x ∈ l.
Proof.
  intros [j Hj]%list_elem_of_lookup. destruct (decide (i = j)) as [<-|Hne].
  - left. destruct (decide (i < length l)%nat); [rewrite list_lookup_insert_eq in Hj by done; by simplify_eq|].
    rewrite list_insert_ge in Hj by lia. apply lookup_lt_Some in Hj. lia.
  - right. rewrite list_lookup_insert_ne in Hj by done. by eapply list_elem_of_lookup_2.
Qed.

(** Replacing a gateway by a version of it whose serials are old or unused elsewhere. *)
Lemma fleet_put gs i g g' :
  fleet_ok gs → gs !! i = Some g → gwID g' = gwID g → gwSerialNumber g' = gwSerialNumber g → gateway_ok g' →
  (∀ d, d ∈ Devices g' → dkey d ∈ dkey <$> Devices g
        ∨ ∀ g2 d2, g2 ∈ gs → d2 ∈ Devices g2 → dkey d2 = dkey d → gwID g2 = gwID g) →
  fleet_ok (<[i := g']> gs).
Proof.
  intros [Hids Hser Heach Hdev] Hi Hid Hsn Hok Hnew. split.
  - by rewrite (fmap_insert_same gwID gs i g).
  - rewrite (fmap_insert_same gkey gs i g); [done..|]. unfold gkey. by rewrite Hsn.
  - intros x [->|Hx]%elem_of_insert; auto.
  - assert (g ∈ gs) as Hg by by eapply list_elem_of_lookup_2.
    assert (∀ d g2 d2, d ∈ Devices g' → g2 ∈ gs → d2 ∈ Devices g2 → dkey d2 = dkey d → gwID g2 = gwID g) as Hcross.
    { intros d g2 d2 Hd Hg2 Hd2 Hk. destruct (Hnew d Hd) as [Hold|Hnone]; [|eauto].
      apply list_elem_of_fmap in Hold as (d0 & Hk0 & Hd0). eapply (Hdev g2 g d2 d0); congruence. }
    intros g1 g2 d1 d2 [->|H1]%elem_of_insert [->|H2]%elem_of_insert Hd1 Hd2 Hk; rewrite ?Hid; eauto.
    symmetry. eapply (Hcross d1 g2 d2); congruence.
Qed.

Lemma lookup_ok gs i g : fleet_ok gs → gs !! i = Some g → gateway_ok g.
Proof. intros Hf Hi. apply (ok_each _ Hf). by eapply list_elem_of_lookup_2. Qed.

(** A version with the same devices up to their status and telemetry. *)
Lemma fleet_put_same gs i g g' :
  fleet_ok gs → gs !! i = Some g → gwID g' = gwID g → gwSerialNumber g' = gwSerialNumber g →
  DeviceCapacity g' = DeviceCapacity g → dkey <$> Devices g' = dkey <$> Devices g →
  devGatewayID <$> Devices g' = devGatewayID <$> Devices g → NoDup (BoundDoorIDs g') →
  fleet_ok (<[i := g']> gs).
Proof.
  intros Hf Hi Hid Hsn Hc Hk Ho Hb. assert (g ∈ gs) as Hg by by eapply list_elem_of_lookup_2.
  destruct (ok_each _ Hf g Hg) as [H1 H2 H3 H4 H5].
  apply (fleet_put gs i g g'); [done..| |].
  - split; rewrite ?Hc, ?Hk; auto.
    + by rewrite <- (length_fmap dkey), Hk, length_fmap.
    + intros d Hd. rewrite Hid. assert (devGatewayID d ∈ devGatewayID <$> Devices g) as Hin
        by (rewrite <- Ho; by apply list_elem_of_fmap_2).
      apply list_elem_of_fmap in Hin as (d0 & -> & Hd0). auto.
  - intros d Hd. left. rewrite <- Hk. by apply list_elem_of_fmap_2.
Qed.

Definition fleet (s : Service) : Prop := fleet_ok (gateways s).

(** Operations that do not touch the gateways. *)
Definition keeps_gateways {A} (m : gwop A) : Prop := ∀ l, preserves (λ s, gateways s = l) m.

Lemma kg_modify f : (∀ s, gateways (f s) = gateways s) → keeps_gateways (modify f).
Proof. intros Hf l. apply pres_modify. intros s <-. apply Hf. Qed.
Lemma kg_persist env : keeps_gateways (persistLocked env).
Proof. intros l. by apply (persist_frame (λ x, x = l)). Qed.
Lemma kg_ensure id : keeps_gateways (ensureConfigStateLocked id).
Proof. intros l s <-. unfold exec, ensureConfigStateLocked. by destruct (findConfigStateIndexLocked _ s). Qed.
Lemma kg_put_config k c : keeps_gateways (put_config k c).
Proof. by apply kg_modify. Qed.
Lemma kg_gateway_at i g : keeps_gateways (gateway_at i g).
Proof. intros l. apply pres_gets. Qed.
Lemma kg_runtime id : keeps_gateways (modify (removeGatewayRuntimeStateLocked id)).
Proof. apply kg_modify. intros s. unfold removeGatewayRuntimeStateLocked. by destruct (is_empty _). Qed.
Lemma kg_release n t now : keeps_gateways (releaseSerialInventoryLocked n t now).
Proof. intros l. by apply (release_frame (λ x, x = l)). Qed.
Lemma kg_release_devices ds t now : keeps_gateways (release_devices ds t now).
Proof. intros l. by apply (release_devices_frame (λ x, x = l)). Qed.
Lemma kg_consume_gateway n t g now : keeps_gateways (consumeGatewaySerialLocked n t g now).
Proof. intros l. by apply (consume_gateway_frame (λ x, x = l)). Qed.
Lemma kg_consume_device n t g k so now : keeps_gateways (consumeDeviceSerialLocked n t g k so now).
Proof. intros l. by apply (consume_device_frame (λ x, x = l)). Qed.
Lemma kg_when b m : keeps_gateways m → keeps_gateways (when b m).
Proof. intros Hm l. apply pres_when. intros _. apply Hm. Qed.

Lemma kg_fleet {A} (m : gwop A) : keeps_gateways m → preserves fleet m.
Proof. intros Hm s Hs. unfold fleet. by rewrite (Hm (gateways s) s eq_refl). Qed.

Lemma keep_then {A B} (m : gwop A) (f : A → gwop B) s :
  keeps_gateways m → fleet s → (∀ a s', gateways s' = gateways s → fleet (exec (f a) s')) → fleet (exec (m ≫= f) s).
Proof.
  intros Hm Hs Hf. pose proof (Hm (gateways s) s eq_refl) as Hg. unfold exec in *. rewrite bind_op_eq.
  destruct (m s) as [s' [a|e]]; simpl in *; [by apply Hf|]. unfold fleet in *. by rewrite Hg.
Qed.

Lemma find_then {B} id t (f : nat * Gateway → gwop B) :
  (∀ i g s, fleet s → gateways s !! i = Some g → gwID g = id → fleet (exec (f (i, g)) s)) →
  preserves fleet (find_gateway id t ≫= f).
Proof.
  intros Hf s Hs. unfold exec. rewrite bind_op_eq. unfold find_gateway.
  destruct (findi _ (gateways s)) as [[i g]|] eqn:Hfi; [|done]. destruct (_ && _); [done|].
  apply Hf; [done|by eapply findi_lookup|]. apply findi_true in Hfi. by apply String.eqb_eq.
Qed.

Lemma put_then {B} i g' (f : unit → gwop B) s :
  fleet_ok (<[i := g']> (gateways s)) → preserves fleet (f tt) → fleet (exec (put_gateway i g' ≫= f) s).
Proof. intros Hg Hf. unfold put_gateway. rewrite exec_modify. by apply Hf. Qed.

#[local] Hint Resolve kg_persist kg_ensure kg_put_config kg_gateway_at kg_runtime kg_release kg_release_devices
  kg_consume_gateway kg_consume_device kg_when : opdb.
#[local] Hint Extern 5 (preserves fleet _) => apply kg_fleet : opdb.
#[local] Hint Extern 6 (keeps_gateways (modify _)) => by apply kg_modify : opdb.

(** A call that finds a gateway and puts back a version with the same devices. *)
Ltac same_devices :=
  eapply fleet_put_same; [eassumption|eassumption|done|done|done| | | ];
  [try done; by erewrite fmap_insert_same by (try eapply findi_lookup; eauto)
  |try done; by erewrite fmap_insert_same by (try eapply findi_lookup; eauto)
  |match goal with H1 : fleet_ok _, H2 : _ !! _ = Some _ |- _ => exact (ok_doors _ (lookup_ok _ _ _ H1 H2)) end].
Ltac touch_gateway :=
  apply find_then; let i := fresh "i" in let g := fresh "g" in let s := fresh "s" in let Hs := fresh "Hs" in
  let Hi := fresh "Hi" in intros i g s Hs Hi _; cbv zeta; apply put_then; [unfold fleet in Hs; same_devices|pres_all].

Lemma fl_UpdateGatewayStatus t g st env : preserves fleet (UpdateGatewayStatus t g st env).
Proof. unfold UpdateGatewayStatus. cbv zeta. do 2 (apply pres_bind; [pres_all|intros ?]). touch_gateway. Qed.
Lemma fl_Reboot t g env : preserves fleet (Reboot t g env).
Proof. unfold Reboot. cbv zeta. do 2 (apply pres_bind; [pres_all|intros ?]). touch_gateway. Qed.
Lemma fl_PublishConfig t g v env : preserves fleet (PublishConfig t g v env).
Proof. unfold PublishConfig. cbv zeta. do 3 (apply pres_bind; [pres_all|intros ?]). touch_gateway. Qed.
Lemma fl_MarkConfigApplied t g v env : preserves fleet (MarkConfigApplied t g v env).
Proof. unfold MarkConfigApplied. cbv zeta. do 2 (apply pres_bind; [pres_all|intros ?]). touch_gateway. Qed.
Lemma fl_Checkpoint t g q c r n at' env : preserves fleet (UpsertEventCheckpoint t g q c r n at' env).
Proof. unfold UpsertEventCheckpoint. cbv zeta. do 4 (apply pres_bind; [pres_all|intros ?]). touch_gateway. Qed.
Lemma fl_AddIngest t g q d env : preserves fleet (AddQueueIngestTotal t g q d env).
Proof. unfold AddQueueIngestTotal. cbv zeta. do 3 (apply pres_bind; [pres_all|intros ?]). touch_gateway. Qed.
Lemma fl_CreateOTA t g v u h sg by' env : preserves fleet (CreateOTATask t g v u h sg by' env).
Proof. unfold CreateOTATask. cbv zeta. do 6 (apply pres_bind; [pres_all|intros ?]). touch_gateway. Qed.
Lemma fl_UpdateOTA t g k st e by' env : preserves fleet (UpdateOTATaskStatus t g k st e by' env).
Proof. unfold UpdateOTATaskStatus. cbv zeta. do 3 (apply pres_bind; [pres_all|intros ?]). touch_gateway. Qed.
Lemma fl_PullConfig t g : preserves fleet (PullConfig t g).
Proof.
  unfold PullConfig. cbv zeta. apply pres_bind; [pres_all|intros ?]. apply find_then. intros; by apply pres_bind; pres_all.
Qed.
Lemma fl_Import t rs env : preserves fleet (ImportSerialInventory t rs env).
Proof. by apply (import_frame fleet_ok gateways). Qed.
Lemma fl_UpdateSerial t n st g env : preserves fleet (UpdateSerialInventoryStatus t n st g env).
Proof. by apply (update_serial_frame fleet_ok gateways). Qed.
Lemma fl_Batch t ns st g env : preserves fleet (BatchUpdateSerialInventoryStatus t ns st g env).
Proof. by apply (batch_frame fleet_ok gateways). Qed.

Lemma fl_BindDoor t g d env : preserves fleet (BindDoor t g d env).
Proof.
  unfold BindDoor. cbv zeta. do 2 (apply pres_bind; [pres_all|intros ?]). apply find_then. intros i g0 s Hs Hi _.
  destruct (existsb' _ _) eqn:Hx; [done|]. apply put_then; [|pres_all].
  pose proof (lookup_ok _ _ _ Hs Hi) as Hok. eapply fleet_put_same; [done..|]. simpl.
  apply NoDup_app. split; [apply Hok|]. split; [|apply NoDup_singleton].
  intros x Hin ->%list_elem_of_singleton. rewrite existsb'_false in Hx. specialize (Hx _ Hin). by rewrite String.eqb_refl in Hx.
Qed.

Lemma NoDup_filterb {A} (p : A → bool) l : NoDup l → NoDup (filterb p l).
Proof.
  induction 1 as [|x l Hx Hl IH]; simpl; [constructor|]. destruct (p x); [|done]. constructor; [|done].
  rewrite elem_of_filterb. naive_solver.
Qed.
Lemma fl_UnbindDoor t g d env : preserves fleet (UnbindDoor t g d env).
Proof.
  unfold UnbindDoor. cbv zeta. do 2 (apply pres_bind; [pres_all|intros ?]). apply find_then. intros i g0 s Hs Hi _.
  apply put_then; [|pres_all]. pose proof (lookup_ok _ _ _ Hs Hi) as Hok. eapply fleet_put_same; [done..|].
  apply NoDup_filterb, Hok.
Qed.

Lemma fl_Telemetry t g d r env : preserves fleet (ReportRS485Telemetry t g d r env).
Proof.
  unfold ReportRS485Telemetry. cbv zeta. do 3 (apply pres_bind; [pres_all|intros ?]). apply find_then.
  intros i g0 s Hs Hi _. destruct (findi _ _) as [[k dev]|] eqn:Hk; [|done]. apply findi_lookup in Hk.
  rewrite exec_fail_if. destruct (negb _); [done|]. apply put_then; [|pres_all]. unfold fleet in Hs.
  eapply fleet_put_same; [done..| | |apply (lookup_ok _ _ _ Hs Hi)]; by eapply fmap_insert_same.
Qed.

Lemma find_device_lookup t d gs i g k dev :
  find_device t d gs = Some (i, g, (k, dev)) → gs !! i = Some g ∧ Devices g !! k = Some dev.
Proof.
  unfold find_device. destruct (findi _ gs) as [[i' g']|] eqn:Hg; [|done].
  destruct (findi _ (Devices g')) as [[k' dev']|] eqn:Hd; intros [= -> -> -> ->].
  split; by eapply findi_lookup.
Qed.

(** Replacing one device by a version with the same serial and owner. *)
Lemma fleet_put_device gs i g k dev dev' :
  fleet_ok gs → gs !! i = Some g → Devices g !! k = Some dev → devSerialNumber dev' = devSerialNumber dev →
  devGatewayID dev' = devGatewayID dev → fleet_ok (<[i := g <| Devices := <[k := dev']> (Devices g) |>]> gs).
Proof.
  intros Hs Hi Hk Hn Ho. eapply fleet_put_same; [done..| | |apply (lookup_ok _ _ _ Hs Hi)]; simpl;
    (eapply fmap_insert_same; [done|]); [unfold dkey; by rewrite Hn|done].
Qed.

Lemma fl_ResetTamper t d env : preserves fleet (ResetDeviceTamper t d env).
Proof.
  unfold ResetDeviceTamper. cbv zeta. apply pres_bind; [pres_all|intros ?]. apply pres_gets_bind. intros s Hs.
  destruct (find_device _ _ _) as [[[i g] [k dev]]|] eqn:Hd; [|done]. apply find_device_lookup in Hd as [Hi Hk].
  apply put_then; [|pres_all]. by eapply fleet_put_device.
Qed.

(** The last part of [UpdateDevice], after the status has been written or not. *)
Lemma fl_update_tail gs i g k dev dev1 protocol env s :
  fleet_ok gs → gs !! i = Some g → Devices g !! k = Some dev → devSerialNumber dev1 = devSerialNumber dev →
  devGatewayID dev1 = devGatewayID dev → fleet s → (∀ x, <[i := x]> (gateways s) = <[i := x]> gs) →
  fleet (exec (dev2 ← (let nextProtocol := TrimSpace protocol in
                       if is_empty nextProtocol then mret dev1
                       else v ← lift (normalizeDeviceProtocol (devKind dev1) (devSource dev1) nextProtocol);
                            mret (dev1 <| devProtocol := v |>));
               let dev3 := dev2 <| devLastSeenAt := now env |> in
               put_gateway i (g <| Devices := <[k := dev3]> (Devices g) |>) ;;
               persistLocked env ;; g' ← gateway_at i g; mret (g', dev3)) s).
Proof.
  intros Hf Hi Hk Hn Ho Hs Hall. cbv zeta.
  assert (∀ a, devSerialNumber a = devSerialNumber dev → devGatewayID a = devGatewayID dev →
    fleet (exec (put_gateway i (g <| Devices := <[k := a <| devLastSeenAt := now env |>]> (Devices g) |>) ;;
                 persistLocked env ;; g' ← gateway_at i g; mret (g', a <| devLastSeenAt := now env |>)) s)) as Hput.
  { intros a Ha1 Ha2. apply put_then; [|pres_all]. rewrite Hall. by eapply fleet_put_device. }
  destruct (is_empty _); [by apply (Hput dev1)|].
  destruct (normalizeDeviceProtocol _ _ _) as [v|e]; [by apply (Hput (dev1 <| devProtocol := v |>))|done].
Qed.

Lemma fl_UpdateDevice t d st p env : preserves fleet (UpdateDevice t d st p env).
Proof.
  unfold UpdateDevice. cbv zeta. apply pres_bind; [pres_all|intros ?]. apply pres_gets_bind. intros s Hs.
  destruct (find_device _ _ _) as [[[i g] [k dev]]|] eqn:Hd; [|done]. apply find_device_lookup in Hd as [Hi Hk].
  destruct (is_empty (TrimSpace st)); [by apply (fl_update_tail (gateways s) i g k dev dev p env s)|].
  destruct (normalizeDeviceStatus _) as [v|e]; [|done].
  apply (fl_update_tail (gateways s) i g k dev (dev <| devStatus := v |>) p env
           (s <| gateways := <[i := g <| Devices := <[k := dev <| devStatus := v |>]> (Devices g) |>]> (gateways s) |>));
    [done..| |].
  - by eapply fleet_put_device.
  - intros x. apply list_insert_insert_eq.
Qed.

(** A device leaves its gateway. *)
Lemma fleet_remove_device gs i g k f :
  fleet_ok gs → gs !! i = Some g → (∀ x, Devices (f x) = Devices x ∧ gwID (f x) = gwID x ∧
    gwSerialNumber (f x) = gwSerialNumber x ∧ DeviceCapacity (f x) = DeviceCapacity x ∧ BoundDoorIDs (f x) = BoundDoorIDs x) →
  fleet_ok (<[i := f (g <| Devices := delete k (Devices g) |>)]> gs).
Proof.
  intros Hf Hi Hs. destruct (Hs (g <| Devices := delete k (Devices g) |>)) as (E1 & E2 & E3 & E4 & E5).
  simpl in *. destruct (lookup_ok _ _ _ Hf Hi) as [H1 H2 H3 H4 H5].
  apply (fleet_put gs i g); [done..| |].
  - split; rewrite ?E1, ?E2, ?E4, ?E5; auto.
    + pose proof (sublist_length _ _ (sublist_delete (Devices g) k)). lia.
    + rewrite list_fmap_delete. eapply sublist_NoDup; [exact H3|apply sublist_delete].
    + intros d Hd%elem_of_delete_weaken. auto.
  - intros d Hd. left. rewrite E1 in Hd. apply elem_of_delete_weaken in Hd. by apply list_elem_of_fmap_2.
Qed.

Lemma fl_DeassignDevice t d env : preserves fleet (DeassignDevice t d env).
Proof.
  unfold DeassignDevice. cbv zeta. apply pres_bind; [pres_all|intros ?]. apply pres_gets_bind. intros s Hs.
  destruct (find_device _ _ _) as [[[i g] [k dev]]|] eqn:Hd; [|done]. apply find_device_lookup in Hd as [Hi _].
  apply keep_then; [auto with opdb|done|]. intros ? s' Hg. apply put_then; [|pres_all]. rewrite Hg.
  by apply (fleet_remove_device (gateways s) i g k
              (λ x, x <| gwLastSeenAt := now env |> <| gwStatus := if Nat.eqb (length (delete k (Devices g))) 0
                                                                   then "offline" else gwStatus g |>)).
Qed.

Lemma fl_Deassign t g env : preserves fleet (Deassign t g env).
Proof.
  unfold Deassign. cbv zeta. apply pres_bind; [pres_all|intros ?]. apply find_then. intros i g0 s Hs Hi _.
  apply keep_then; [auto with opdb|done|]. intros _ s1 H1.
  apply keep_then; [auto with opdb|unfold fleet; by rewrite H1|]. intros _ s2 H2.
  rewrite exec_modify. match goal with |- fleet (exec ?m _) => enough (preserves fleet m) as Hm end; [|pres_all].
  apply Hm. unfold fleet. simpl. rewrite H2, H1. destruct Hs as [Hids Hser Heach Hdev]. split.
  - rewrite list_fmap_delete. eapply sublist_NoDup; [exact Hids|apply sublist_delete].
  - rewrite list_fmap_delete. eapply sublist_NoDup; [exact Hser|apply sublist_delete].
  - intros x Hx%elem_of_delete_weaken. auto.
  - intros g1 g2 d1 d2 H3%elem_of_delete_weaken H4%elem_of_delete_weaken. eauto.
Qed.

Lemma fl_Register n t b cap env s :
  fleet s → fresh_for (CallRegister n t b cap) env s → fleet (exec (Register n t b cap env) s).
Proof.
  intros Hs Hfr. unfold Register, fresh_id. unfold fresh_for in Hfr.
  rewrite exec_fail_if. destruct (is_empty _); [done|]. rewrite exec_lift.
  destruct (normalizeGatewaySerial n) as [serial|]; [|done]. cbv zeta. rewrite exec_fail_if.
  destruct (is_empty _); [done|]. rewrite exec_lift. destruct (normalizeDeviceCapacity cap) as [cap'|] eqn:Hcap; [|done].
  rewrite exec_lift. destruct (fresh env) as [h|]; [|done]. rewrite exec_gets, exec_fail_if.
  destruct (existsb' _ _) eqn:Hx; [done|]. rewrite existsb'_false in Hx.
  apply keep_then; [auto with opdb|done|]. intros _ s' Hg. rewrite exec_modify.
  match goal with |- fleet (exec ?m _) => enough (preserves fleet m) as Hm end; [|pres_all].
  apply Hm. unfold fleet. simpl. rewrite Hg. destruct Hs as [Hids Hser Heach Hdev]. split.
  - rewrite fmap_app. apply NoDup_app. split; [done|]. split; [|apply NoDup_singleton]. set_solver.
  - rewrite fmap_app. apply NoDup_app. split; [done|]. split; [|apply NoDup_singleton].
    intros x (g & -> & Hin)%list_elem_of_fmap Hs%list_elem_of_singleton. specialize (Hx g Hin).
    by rewrite (proj2 (EqualFold_eq (gwSerialNumber g) serial) Hs) in Hx.
  - intros g [Hin| ->%list_elem_of_singleton]%elem_of_app; [auto|].
    split; simpl; [|destruct (cap' =? 8)|constructor|set_solver|constructor].
    all: unfold normalizeDeviceCapacity in Hcap; destruct (cap =? 0) eqn:?; [simplify_eq; lia|];
      destruct ((cap =? 4) || (cap =? 8)) eqn:?; simplify_eq; lia.
  - intros g1 g2 d1 d2 [H1| ->%list_elem_of_singleton]%elem_of_app [H2| ->%list_elem_of_singleton]%elem_of_app; simpl; [eauto|set_solver..].
Qed.

Lemma fl_RegisterDevice t g n k so st p cfg env : preserves fleet (RegisterDevice t g n k so st p cfg env).
Proof.
  unfold RegisterDevice, refresh_device, add_device. cbv zeta. do 7 (apply pres_bind; [pres_all|intros ?]).
  apply find_then. intros i g0 s Hs Hi Hid. rewrite exec_gets, exec_fail_if.
  destruct (serial_elsewhere _ _ s) eqn:Hx; [done|]. pose proof (lookup_ok _ _ _ Hs Hi) as [H1 H2 H3 H4 H5].
  destruct (findi _ (Devices g0)) as [[j dev]|] eqn:Hf.
  - apply findi_lookup in Hf. apply keep_then; [auto with opdb|done|]. intros _ s' Hg.
    apply put_then; [|pres_all]. rewrite Hg. by eapply fleet_put_device.
  - rewrite exec_fail_if. destruct (DeviceCapacity g0 <=? _) eqn:Hc; [done|]. boolp.
    apply keep_then; [auto with opdb|done|]. intros _ s' Hg. rewrite exec_lift.
    destruct (fresh_id _ env) as [id|]; [|unfold fleet; by rewrite Hg]. apply put_then; [|pres_all]. rewrite Hg.
    rewrite findi_None in Hf. unfold serial_elsewhere in Hx. rewrite existsb'_false in Hx.
    eapply fleet_put; [done..| |]; simpl.
    + split; simpl; [done|lia| |set_solver|done]. constructor; [|done].
      intros (d0 & Hk & Hin)%list_elem_of_fmap. specialize (Hf d0 Hin).
      by rewrite (proj2 (EqualFold_eq (devSerialNumber d0) (TrimSpace n)) (eq_sym Hk)) in Hf.
    + intros d [->|Hd]%elem_of_cons; [right|left; by apply list_elem_of_fmap_2].
      intros g2 d2 Hg2 Hd2 Hk. specialize (Hx g2 Hg2). cbv beta in Hx. apply andb_false_iff in Hx as [Hx|Hx]; boolp.
      * rewrite existsb'_false in Hx. specialize (Hx d2 Hd2).
        by rewrite (proj2 (EqualFold_eq (devSerialNumber d2) (TrimSpace n)) Hk) in Hx.
      * congruence.
Qed.

Lemma step_keeps_fleet s s' : gw_step s s' → fleet s → fleet s'.
Proof.
  intros [c env s0 Hfr] Hs. destruct c; cbn [run_gw_call];
  first [ by apply fl_Register
        | match goal with |- fleet (exec ?m _) => enough (preserves fleet m) by auto end ].
  - apply fl_UpdateGatewayStatus. - apply fl_Import. - apply fl_UpdateSerial. - apply fl_Batch. - apply fl_Deassign.
  - apply fl_BindDoor. - apply fl_UnbindDoor. - apply fl_RegisterDevice. - apply fl_DeassignDevice.
  - apply fl_UpdateDevice. - apply fl_ResetTamper. - apply fl_Telemetry. - apply fl_PublishConfig.
  - apply fl_PullConfig. - apply fl_MarkConfigApplied. - apply fl_Checkpoint. - apply fl_AddIngest. - apply fl_Reboot.
  - apply fl_CreateOTA. - apply fl_UpdateOTA.
Qed.

(** From the seeded service (or any good one), whatever calls are made in
    whatever order, failing calls included, as long as random identifiers of new
    gateways do not collide: gateway identifiers and serials stay
    unique (serials up to case), a gateway never holds more devices than its
    capacity of 4 or 8, every device serial belongs to one gateway only, devices
    name the gateway they sit on, and no door is bound twice to a gateway. *)
Theorem fleet_invariant s s' : fleet s → rtc gw_step s s' → fleet s'.
Proof. intros Hs H. induction H as [|s1 s2 s3 H12 _ IH]; [done|]. by eapply IH, step_keeps_fleet. Qed.

Lemma seed_fleet now : fleet (NewService now).
Proof.
  unfold fleet. simpl. split.
  - apply (bool_decide_unpack _). vm_compute. exact I.
  - apply (bool_decide_unpack _). vm_compute. exact I.
  - intros g Hg. repeat (apply elem_of_cons in Hg as [->|Hg]); [| |set_solver].
    all: split; simpl; [lia|lia|apply (bool_decide_unpack _); vm_compute; exact I|set_solver|].
    all: apply (bool_decide_unpack _); vm_compute; exact I.
  - intros g1 g2 d1 d2 H1 H2 Hd1 Hd2 Hk.
    repeat (apply elem_of_cons in H1 as [->|H1]); [| |set_solver];
    (repeat (apply elem_of_cons in H2 as [->|H2]); [| |set_solver]); try done; exfalso; simpl in Hd1, Hd2;
    repeat (apply elem_of_cons in Hd1 as [->|Hd1]); try set_solver;
    repeat (apply elem_of_cons in Hd2 as [->|Hd2]); try set_solver; discriminate Hk.
Qed.

Definition demo_fleet : Service :=
  run_gw_call (CallRegister "mp-gw-0001" "t1" "b" 4) (demo_env 50) demo_stock.

Lemma fleet_invariant_witness :
  let s := run_gw_call (CallBindDoor "" "gw_demo_002" "door_9") (demo_env 50) (NewService 0) in
  FindGatewayByDoorID "" "door_9" s ≠ None ∧ fleet s.
Proof.
  cbv zeta. split; [vm_compute; discriminate|].
  apply (fleet_invariant (NewService 0)); [exact (seed_fleet 0)|].
  apply rtc_once. apply (gw_step_call (CallBindDoor "" "gw_demo_002" "door_9") (demo_env 50) (NewService 0)). exact I.
Defined.

(** ** Upload checkpoints *)

(** The acknowledged count of a gateway's queue is at least [n]. *)
Definition acked (gatewayID queue : string) (n : Z) (s : Service) : Prop :=
  ∃ k c, findi (checkpoint_of gatewayID queue) (eventCheckpoints s) = Some (k, c) ∧ n <= AckedCount c.

Lemma findi_filterb {A} (p q : A → bool) l k x :
  (∀ y, p y = true → q y = true) → findi p l = Some (k, x) → ∃ j, findi p (filterb q l) = Some (j, x).
Proof.
  intros Hpq. revert k. induction l as [|a l IH]; intros k H; [done|]. simpl in *. destruct (p a) eqn:Ha.
  - rewrite (Hpq a Ha). simplify_eq. simpl. rewrite Ha. eauto.
  - destruct (findi p l) as [[k' y]|] eqn:Hl; [|done]. injection H as _ <-.
    destruct (IH k' eq_refl) as [j Hj]. destruct (q a); [|eauto]. simpl. rewrite Ha, Hj. eauto.
Qed.

Lemma findi_app_l {A} (p : A → bool) l l' kx : findi p l = Some kx → findi p (l ++ l') = Some kx.
Proof.
  revert kx. induction l as [|a l IH]; intros kx H; [done|]. simpl in *. destruct (p a); [done|].
  destruct (findi p l) as [[k y]|]; [|done]. by rewrite (IH (k, y) eq_refl).
Qed.

Section acked_grows.
Context (gatewayID queue : string) (n : Z).
Let P := acked gatewayID queue n.

Lemma acked_same s s' : eventCheckpoints s' = eventCheckpoints s → P s → P s'.
Proof. unfold P, acked. by intros ->. Qed.
Lemma ack_modify f : (∀ s, eventCheckpoints (f s) = eventCheckpoints s) → preserves (E:=gw_err) P (modify f).
Proof. intros Hf. apply pres_modify. intros s. by apply acked_same. Qed.
Lemma ack_persist env : preserves (E:=gw_err) P (persistLocked env).
Proof. intros s. apply acked_same. unfold exec, persistLocked. by destruct (store env). Qed.
Lemma ack_find id t : preserves P (find_gateway id t).
Proof. by apply (find_gateway_frame P (λ s, s)). Qed.
Lemma ack_ensure id : preserves P (ensureConfigStateLocked id).
Proof. intros s. apply acked_same. unfold exec, ensureConfigStateLocked. by destruct (findConfigStateIndexLocked _ s). Qed.
Lemma ack_put_gateway i g : preserves P (put_gateway i g).
Proof. by apply ack_modify. Qed.
Lemma ack_put_config k c : preserves P (put_config k c).
Proof. by apply ack_modify. Qed.
Lemma ack_gateway_at i g : preserves P (gateway_at i g).
Proof. apply pres_gets. Qed.
Lemma ack_frame {A} (m : gwop A) :
  (∀ Q : list GatewayEventCheckpoint → Prop, preserves (λ s, Q (eventCheckpoints s)) m) → preserves P m.
Proof. intros Hm. exact (Hm (λ l, ∃ k c, findi (checkpoint_of gatewayID queue) l = Some (k, c) ∧ n <= AckedCount c)). Qed.
Lemma ack_transition i st g now : preserves P (transition_item i st g now).
Proof. apply ack_frame. intros Q. by apply (transition_item_frame Q eventCheckpoints). Qed.
Lemma ack_transition_all l st g now : preserves P (transition_all l st g now).
Proof. apply ack_frame. intros Q. by apply (transition_all_frame Q eventCheckpoints). Qed.
Lemma ack_release sn t now : preserves P (releaseSerialInventoryLocked sn t now).
Proof. apply ack_frame. intros Q. by apply (release_frame Q eventCheckpoints). Qed.
Lemma ack_release_devices ds t now : preserves P (release_devices ds t now).
Proof. apply ack_frame. intros Q. by apply (release_devices_frame Q eventCheckpoints). Qed.
Lemma ack_consume_gateway sn t g now : preserves P (consumeGatewaySerialLocked sn t g now).
Proof. apply ack_frame. intros Q. by apply (consume_gateway_frame Q eventCheckpoints). Qed.
Lemma ack_consume_device sn t g k so now : preserves P (consumeDeviceSerialLocked sn t g k so now).
Proof. apply ack_frame. intros Q. by apply (consume_device_frame Q eventCheckpoints). Qed.
Lemma ack_import_all t rs now : preserves P (import_all t rs now).
Proof. apply ack_frame. intros Q. by apply (import_all_frame Q eventCheckpoints). Qed.

Lemma ack_runtime id : TrimSpace id ≠ gatewayID → preserves (E:=gw_err) P (modify (removeGatewayRuntimeStateLocked id)).
Proof.
  intros Hne. apply pres_modify. intros s (k & c & Hf & Hn). unfold removeGatewayRuntimeStateLocked.
  destruct (is_empty _); [by exists k, c|].
  destruct (findi_filterb (checkpoint_of gatewayID queue)
              (λ c, negb (String.eqb (cpGatewayID c) (TrimSpace id))) (eventCheckpoints s) k c) as [j Hj]; [|done|].
  - unfold checkpoint_of. intros y Hy. boolp. apply negb_true_iff, String.eqb_neq. congruence.
  - by exists j, c.
Qed.

Lemma ack_put k c c' s :
  eventCheckpoints s !! k = Some c → cpGatewayID c' = cpGatewayID c → cpQueue c' = cpQueue c →
  AckedCount c <= AckedCount c' → P s → P (s <| eventCheckpoints := <[k := c']> (eventCheckpoints s) |>).
Proof.
  intros Hk Hg Hq Hle (j & x & Hf & Hn). exists j, (if Nat.eqb k j then c' else x). simpl. split.
  - apply (findi_insert _ _ k j c c' x); [done| |done]. unfold checkpoint_of. by rewrite Hg, Hq.
  - destruct (Nat.eqb_spec k j) as [->|]; [|done]. apply findi_lookup in Hf. rewrite Hk in Hf. simplify_eq. lia.
Qed.

#[local] Hint Resolve ack_persist ack_find ack_ensure ack_transition ack_transition_all ack_release
  ack_release_devices ack_consume_gateway ack_consume_device ack_import_all ack_put_gateway ack_put_config
  ack_gateway_at ack_runtime : opdb.

Lemma ack_Checkpoint t g q c r m at' env : preserves P (UpsertEventCheckpoint t g q c r m at' env).
Proof.
  unfold UpsertEventCheckpoint. cbv zeta. do 5 (apply pres_bind; [pres_all|intros ?]). destruct a3 as [i g0].
  apply pres_bind; [pres_all|intros _]. apply pres_gets_bind. intros s Hs.
  destruct (findEventCheckpointIndexLocked _ _ s) as [[k x]|] eqn:Hf.
  - rewrite exec_fail_if. destruct (m <? AckedCount x) eqn:Hlt; [done|]. boolp. rewrite exec_modify.
    match goal with |- P (exec ?m _) => enough (preserves P m) as Hm end; [|pres_all]. apply Hm.
    unfold findEventCheckpointIndexLocked in Hf. destruct (_ || _) in Hf; [done|].
    by eapply ack_put; [by eapply findi_lookup|..].
  - rewrite exec_modify. match goal with |- P (exec ?m _) => enough (preserves P m) as Hm end; [|pres_all]. apply Hm.
    destruct Hs as (j & x & Hj & Hn). exists j, x. split; [|done]. by apply findi_app_l.
Qed.

(** The handler trims the identifier and so does the clean-up it calls. *)
Definition spares (c : gw_call) : Prop :=
  match c with CallDeassign _ g => TrimSpace (TrimSpace g) ≠ gatewayID | _ => True end.

Lemma call_keeps_acked c env s : spares c → P s → P (run_gw_call c env s).
Proof.
  intros Hsp Hs. destruct c; cbn [run_gw_call spares] in *; match goal with |- P (exec ?m s) => enough (preserves P m) by auto end;
  try apply ack_Checkpoint;
  match goal with |- preserves _ ?m => let h := get_head m in unfold h end;
  unfold refresh_device, add_device; cbv zeta; pres_all; by apply ack_modify.
Qed.
End acked_grows.

Lemma calls_keep_acked gatewayID queue n cs s :
  Forall (λ ce, spares gatewayID ce.1) cs → acked gatewayID queue n s → acked gatewayID queue n (run_gw_calls cs s).
Proof.
  intros Hc. revert s. induction Hc as [|[c env] cs Hc _ IH]; intros s Hs; [done|]. by apply IH, call_keeps_acked.
Qed.

(** The acknowledged count the cloud holds for one queue of one gateway never goes
    down: once it has reached [n] it stays at least [n] through every call, until
    that gateway is deassigned. *)
Theorem acked_monotone gatewayID queue n cs s :
  acked gatewayID queue n s → Forall (λ ce, spares gatewayID ce.1) cs → acked gatewayID queue n (run_gw_calls cs s).
Proof. intros; by apply calls_keep_acked. Qed.

Definition demo_acked : Service :=
  run_gw_call (CallCheckpoint "t1" "gw_00ff00ff00ff" "access" "cp1" "r1" 7 None) (demo_env 60) demo_fleet.

Lemma acked_monotone_witness :
  acked "gw_00ff00ff00ff" "access" 7
    (run_gw_calls [(CallCheckpoint "t1" "gw_00ff00ff00ff" "access" "cp2" "r2" 3 None, demo_env 70);
                   (CallDeassign "t1" "gw_other", demo_env 80)] demo_acked).
Proof.
  apply acked_monotone.
  - exists 0%nat. eexists. split; [vm_compute; reflexivity|]. vm_compute. discriminate.
  - constructor; [exact I|]. constructor; [vm_compute; discriminate|constructor].
Defined.

(** ** Revoked gateways *)

Definition status_of (id : string) (s : Service) : option string :=
  (λ ig, gwStatus ig.2) <$> findi (λ g, String.eqb (gwID g) id) (gateways s).

Lemma findi_gateway_put gs i (g g' : Gateway) id :
  findi (λ g, String.eqb (gwID g) id) gs = Some (i, g) → gwID g' = gwID g →
  findi (λ g, String.eqb (gwID g) id) (<[i := g']> gs) = Some (i, g').
Proof.
  intros Hf Hid. rewrite (findi_insert _ gs i i g g' g); [by rewrite Nat.eqb_refl|by eapply findi_lookup|by rewrite Hid|done].
Qed.

(** An administrator's "revoked" (or "disabled") status does not last: the next
    configuration acknowledgement of that gateway puts it back to "online",
    whatever its status was, and so does a reboot command. *)
Theorem revocation_overwritten t id v env s g i :
  findi (λ g, String.eqb (gwID g) (TrimSpace id)) (gateways s) = Some (i, g) →
  gwTenantID g = TrimSpace t → is_empty (TrimSpace id) = false → is_empty (TrimSpace v) = false →
  fresh env ≠ None →
  status_of (TrimSpace id) (exec (MarkConfigApplied t id v env) s) = Some "online"
  ∧ status_of (TrimSpace id) (exec (Reboot t id env) s) = Some "online".
Proof.
  intros Hf Ht Hid Hv Hfr.
  assert (find_gateway (TrimSpace id) (TrimSpace t) s = (s, Ok (i, g))) as Hfind.
  { unfold find_gateway. rewrite Hf, <- Ht, String.eqb_refl. simpl. by rewrite andb_false_r. }
  assert (∀ {A} (m : gwop A) s1, keeps_gateways m → gateways s1 = <[i := g <| gwStatus := "online" |> <| gwLastSeenAt := now env |>]> (gateways s) →
    status_of (TrimSpace id) (exec m s1) = Some "online") as Hrest.
  { intros A m s1 Hm Hg. unfold status_of. rewrite (Hm (gateways s1) s1 eq_refl), Hg.
    erewrite findi_gateway_put; [|exact Hf|done]. done. }
  split.
  - unfold MarkConfigApplied, exec. cbv zeta. rewrite Hid, fail_if_bind, Hv, fail_if_bind, bind_op_eq, Hfind.
    unfold put_gateway. rewrite bind_modify. apply Hrest; [|done]. intros l. pres_all; first [apply kg_persist|apply kg_ensure|apply kg_put_config].
  - unfold Reboot, exec. cbv zeta. rewrite Hid, fail_if_bind, bind_lift. unfold fresh_id.
    destruct (fresh env) as [h|]; [|done]. rewrite bind_op_eq, Hfind.
    unfold put_gateway. rewrite bind_modify. apply Hrest; [|done]. intros l. pres_all; first [apply kg_persist|apply kg_ensure|apply kg_put_config].
Qed.

Lemma revocation_overwritten_witness :
  let s := run_gw_call (CallUpdateGatewayStatus "t1" "gw_00ff00ff00ff" "revoked") (demo_env 60) demo_fleet in
  status_of "gw_00ff00ff00ff" s = Some "revoked"
  ∧ status_of "gw_00ff00ff00ff" (exec (MarkConfigApplied "t1" "gw_00ff00ff00ff" "v2" (demo_env 70)) s) = Some "online".
Proof.
  cbv zeta. split; [vm_compute; reflexivity|].
  eapply (revocation_overwritten "t1" "gw_00ff00ff00ff" "v2" (demo_env 70));
    [vm_compute; reflexivity|vm_compute; reflexivity|vm_compute; reflexivity|vm_compute; reflexivity|discriminate].
Defined.
