(* ===== verification/GoText.v ===== *)
(** * More of Go's [strings], and [encoding/json] as the wallet service uses it

    Searching and cutting by substring, joining, and the text [json.Marshal] and
    [json.MarshalIndent] write for a value whose strings are valid UTF-8.  An
    object is given with its keys in the order of the output: sorted for a map,
    as declared for a struct. *)

From S2P Require Import Prelude GoStrings GoTime Bytes Encoding.
#[local] Open Scope string_scope.
#[local] Open Scope list_scope.
#[local] Open Scope Z_scope.

(** [strings.Index(s, sub)]; [None] for -1. *)
Fixpoint Index (s sub : string) : option nat :=
  if HasPrefix s sub then Some 0%nat
  else match s with
       | EmptyString => None
       | String _ s' => S <$> Index s' sub
       end.
Definition Contains (s sub : string) : bool := bool_decide (is_Some (Index s sub)).
Definition HasSuffix (s suffix : string) : bool := HasPrefix (rev_string s) (rev_string suffix).

(** [s[i:]] *)
Definition drop_string (i : nat) (s : string) : string := String.substring i (String.length s - i) s.

(** [strings.ReplaceAll(s, c, "")] for one byte, [strings.TrimRight(s, c)] *)
Fixpoint RemoveByte (c : ascii) (s : string) : string :=
  match s with
  | EmptyString => ""
  | String a s' => if Ascii.eqb a c then RemoveByte c s' else String a (RemoveByte c s')
  end.
Fixpoint TrimLeftByte (c : ascii) (s : string) : string :=
  match s with
  | String a s' => if Ascii.eqb a c then TrimLeftByte c s' else s
  | EmptyString => ""
  end.
Definition TrimRightByte (c : ascii) (s : string) : string := rev_string (TrimLeftByte c (rev_string s)).

Fixpoint Join (l : list string) (sep : string) : string :=
  match l with
  | [] => ""
  | [x] => x
  | x :: l' => x +:+ sep +:+ Join l' sep
  end.

Definition newline : string := String (chr 10) "".

(** [base64.RawURLEncoding]: the standard alphabet with [-] and [_] for [+] and
    [/], without padding. *)
Definition url_char (c : ascii) : ascii := if code c =? 43 then chr 45 else if code c =? 47 then chr 95 else c.
Definition base64_rawurl (b : bytes) : string :=
  to_string (url_char <$> filterb (fun c => negb (is_pad c)) (base64_encode b)).

(** ** JSON *)

Inductive json :=
| JInt (n : Z)
| JBool (b : bool)
| JStr (s : string)
| JArr (l : list json)
| JObj (l : list (string * json)).

Definition dq : string := String (chr 34) "".
Definition backslash : string := String (chr 92) "".
Definition hex4 (n : Z) : string := backslash +:+ "u00" +:+ hex_encode [chr n].

(** One byte of a string, escaped as the default encoder does. *)
Definition json_char (c : ascii) : string :=
  let n := code c in
  if n =? 34 then backslash +:+ dq
  else if n =? 92 then backslash +:+ backslash
  else if n =? 8 then backslash +:+ "b" else if n =? 12 then backslash +:+ "f"
  else if n =? 10 then backslash +:+ "n" else if n =? 13 then backslash +:+ "r"
  else if n =? 9 then backslash +:+ "t"
  else if (n <? 32) || (n =? 60) || (n =? 62) || (n =? 38) then hex4 n
  else String c "".

(** U+2028 and U+2029 are escaped too. *)
Fixpoint json_chars (s : string) : string :=
  match s with
  | EmptyString => ""
  | String a s' =>
      match s' with
      | String b (String c r) =>
          if (code a =? 226) && (code b =? 128) && ((code c =? 168) || (code c =? 169))
          then backslash +:+ (if code c =? 168 then "u2028" else "u2029") +:+ json_chars r
          else json_char a +:+ json_chars s'
      | _ => json_char a +:+ json_chars s'
      end
  end.
Definition json_string (s : string) : string := dq +:+ json_chars s +:+ dq.

(** [json.Marshal] *)
Fixpoint Marshal (v : json) : string :=
  match v with
  | JInt n => Itoa n
  | JBool b => if b then "true" else "false"
  | JStr s => json_string s
  | JArr l => "[" +:+ Join (Marshal <$> l) "," +:+ "]"
  | JObj l => "{" +:+ Join ((fun '(k, x) => json_string k +:+ ":" +:+ Marshal x) <$> l) "," +:+ "}"
  end.

(** [json.MarshalIndent(v, "", "  ")] *)
Fixpoint indent_at (pad : string) (v : json) : string :=
  let pad' := pad +:+ "  " in
  match v with
  | JArr [] => "[]"
  | JObj [] => "{}"
  | JArr l =>
      "[" +:+ newline +:+ Join ((fun x => pad' +:+ indent_at pad' x) <$> l) ("," +:+ newline)
        +:+ newline +:+ pad +:+ "]"
  | JObj l =>
      "{" +:+ newline
        +:+ Join ((fun '(k, x) => pad' +:+ json_string k +:+ ": " +:+ indent_at pad' x) <$> l) ("," +:+ newline)
        +:+ newline +:+ pad +:+ "}"
  | _ => Marshal v
  end.
Definition MarshalIndent (v : json) : string := indent_at "" v.

Example marshal_ex :
  Marshal (JObj [("a", JArr [JInt 1; JBool true]); ("b", JStr "x<y")])
  = "{" +:+ dq +:+ "a" +:+ dq +:+ ":[1,true]," +:+ dq +:+ "b" +:+ dq +:+ ":" +:+ dq +:+ "x" +:+ backslash
    +:+ "u003cy" +:+ dq +:+ "}".
Proof. vm_compute. reflexivity. Qed.

Example rawurl_ex : base64_rawurl (of_string "hi?>") = "aGk_Pg".
Proof. vm_compute. reflexivity. Qed.
