(* ===== verification/WalletData.v ===== *)
(** * The data of the wallet service (modules/wallet)

    One record per Go struct, the fields with a prefix per struct.  An [int], an
    [int64] and a [time.Duration] are a [Z], a [time.Time] its instant, a pointer
    an [option], a nil slice or map the empty one.  Of [ApplePassBundle] and
    [GoogleWalletPassObject] every field is kept. *)

From S2P Require Import Prelude GoStrings GoTime.
#[local] Open Scope string_scope.
#[local] Open Scope list_scope.
#[local] Open Scope Z_scope.

(** ** Configuration *)

Record GoogleConfig := mkGoogleConfig {
  gcID : string; gcTenantID : string; gcProvider : string; gcIssuerID : string;
  gcServiceAccountEmail : string; gcKeyRef : string; gcStatus : string; gcCreatedAt : Z; gcUpdatedAt : Z
}.
#[export] Instance eta_GoogleConfig : Eta GoogleConfig := λ x,
  mkGoogleConfig (gcID x) (gcTenantID x) (gcProvider x) (gcIssuerID x) (gcServiceAccountEmail x)
  (gcKeyRef x) (gcStatus x) (gcCreatedAt x) (gcUpdatedAt x).

Record ConfigValidationItem := mkConfigValidationItem {
  cviField : string; cviStatus : string; cviMessage : string
}.

Record GoogleConfigValidation := mkGoogleConfigValidation {
  gcvProvider : string; gcvTenantID : string; gcvValid : bool; gcvItems : list ConfigValidationItem;
  gcvCheckedAt : Z
}.
#[export] Instance eta_GoogleConfigValidation : Eta GoogleConfigValidation := λ x,
  mkGoogleConfigValidation (gcvProvider x) (gcvTenantID x) (gcvValid x) (gcvItems x) (gcvCheckedAt x).

(** ** Templates and passes *)

Record PassTemplate := mkPassTemplate {
  tplID : string; tplTenantID : string; tplProvider : string; tplPassType : string; tplClassID : string;
  tplName : string; tplStyleConfig : gmap string string; tplStatus : string; tplCreatedAt : Z;
  tplUpdatedAt : Z
}.
#[export] Instance eta_PassTemplate : Eta PassTemplate := λ x,
  mkPassTemplate (tplID x) (tplTenantID x) (tplProvider x) (tplPassType x) (tplClassID x) (tplName x)
  (tplStyleConfig x) (tplStatus x) (tplCreatedAt x) (tplUpdatedAt x).

Record PassInstance := mkPassInstance {
  psID : string; psTenantID : string; psProvider : string; psCredentialKind : string; psTemplateID : string;
  psTargetType : string; psTargetID : string; psObjectID : string; psToken : string; psUID : string;
  psCardNumber : string; psDeviceName : string; psStatus : string; psSaveLink : string;
  psExpiresAt : string; psIssuedAt : Z; psActivatedAt : option Z; psRevokedAt : option Z;
  psCreatedBy : string; psUpdatedBy : string; psCreatedAt : Z; psUpdatedAt : Z
}.
#[export] Instance eta_PassInstance : Eta PassInstance := λ x,
  mkPassInstance (psID x) (psTenantID x) (psProvider x) (psCredentialKind x) (psTemplateID x)
  (psTargetType x) (psTargetID x) (psObjectID x) (psToken x) (psUID x) (psCardNumber x) (psDeviceName x)
  (psStatus x) (psSaveLink x) (psExpiresAt x) (psIssuedAt x) (psActivatedAt x) (psRevokedAt x)
  (psCreatedBy x) (psUpdatedBy x) (psCreatedAt x) (psUpdatedAt x).

(** ** Issuing jobs *)

Record IssueJob := mkIssueJob {
  jobID : string; jobTenantID : string; jobProvider : string; jobBatchID : string; jobTemplateID : string;
  jobTargetType : string; jobTargetID : string; jobExpiresAt : string; jobPassID : string;
  jobStatus : string; jobRetryCount : Z; jobErrorCode : string; jobErrorMessage : string; jobCreatedAt : Z;
  jobUpdatedAt : Z
}.
#[export] Instance eta_IssueJob : Eta IssueJob := λ x,
  mkIssueJob (jobID x) (jobTenantID x) (jobProvider x) (jobBatchID x) (jobTemplateID x) (jobTargetType x)
  (jobTargetID x) (jobExpiresAt x) (jobPassID x) (jobStatus x) (jobRetryCount x) (jobErrorCode x)
  (jobErrorMessage x) (jobCreatedAt x) (jobUpdatedAt x).

Record JobProcessOptions := mkJobProcessOptions {
  jpoTenantID : string; jpoLimit : Z; jpoWorkerCount : Z; jpoMaxRetry : Z; jpoBaseBackoff : Z;
  jpoMaxBackoff : Z; jpoActor : string
}.
#[export] Instance eta_JobProcessOptions : Eta JobProcessOptions := λ x,
  mkJobProcessOptions (jpoTenantID x) (jpoLimit x) (jpoWorkerCount x) (jpoMaxRetry x) (jpoBaseBackoff x)
  (jpoMaxBackoff x) (jpoActor x).

Record JobProcessResult := mkJobProcessResult {
  jprTenantID : string; jprLimit : Z; jprWorkerCount : Z; jprMaxRetry : Z; jprClaimed : Z; jprSucceeded : Z;
  jprFailed : Z; jprDLQ : Z; jprSkipped : Z; jprRetried : Z; jprPendingAfter : Z;
  jprProcessedJobIDs : list string; jprStartedAt : Z; jprCompletedAt : Z
}.
#[export] Instance eta_JobProcessResult : Eta JobProcessResult := λ x,
  mkJobProcessResult (jprTenantID x) (jprLimit x) (jprWorkerCount x) (jprMaxRetry x) (jprClaimed x)
  (jprSucceeded x) (jprFailed x) (jprDLQ x) (jprSkipped x) (jprRetried x) (jprPendingAfter x)
  (jprProcessedJobIDs x) (jprStartedAt x) (jprCompletedAt x).

Record JobSummary := mkJobSummary {
  jsTenantID : string; jsMaxRetry : Z; jsTotal : Z; jsPending : Z; jsProcessing : Z; jsSuccess : Z;
  jsFailed : Z; jsDLQ : Z; jsRetryableFailed : Z; jsNonRetryableFailed : Z;
  jsErrorCodeBreakdown : gmap string Z; jsUpdatedAt : Z
}.
#[export] Instance eta_JobSummary : Eta JobSummary := λ x,
  mkJobSummary (jsTenantID x) (jsMaxRetry x) (jsTotal x) (jsPending x) (jsProcessing x) (jsSuccess x)
  (jsFailed x) (jsDLQ x) (jsRetryableFailed x) (jsNonRetryableFailed x) (jsErrorCodeBreakdown x)
  (jsUpdatedAt x).

Record JobMetricsAlert := mkJobMetricsAlert {
  jmaType : string; jmaErrorCode : string; jmaCount : Z; jmaThreshold : Z
}.

Record JobMetricsWindow := mkJobMetricsWindow {
  jmwWindowSeconds : Z; jmwSince : Z; jmwUntil : Z; jmwCreated : Z; jmwUpdated : Z; jmwPending : Z;
  jmwProcessing : Z; jmwSuccess : Z; jmwFailed : Z; jmwDLQ : Z; jmwErrorCodeBreakdown : gmap string Z
}.
#[export] Instance eta_JobMetricsWindow : Eta JobMetricsWindow := λ x,
  mkJobMetricsWindow (jmwWindowSeconds x) (jmwSince x) (jmwUntil x) (jmwCreated x) (jmwUpdated x)
  (jmwPending x) (jmwProcessing x) (jmwSuccess x) (jmwFailed x) (jmwDLQ x) (jmwErrorCodeBreakdown x).

Record JobMetrics := mkJobMetrics {
  jmTenantID : string; jmMaxRetry : Z; jmDLQAlertThreshold : Z; jmSummary : JobSummary;
  jmWindow : JobMetricsWindow; jmAlerts : list JobMetricsAlert; jmUpdatedAt : Z
}.

Record JobMetricsTrendBucket := mkJobMetricsTrendBucket {
  tbIndex : Z; tbStart : Z; tbEnd : Z; tbCreated : Z; tbUpdated : Z; tbPending : Z; tbProcessing : Z;
  tbSuccess : Z; tbFailed : Z; tbDLQ : Z; tbErrorCodeBreakdown : gmap string Z
}.
#[export] Instance eta_JobMetricsTrendBucket : Eta JobMetricsTrendBucket := λ x,
  mkJobMetricsTrendBucket (tbIndex x) (tbStart x) (tbEnd x) (tbCreated x) (tbUpdated x) (tbPending x)
  (tbProcessing x) (tbSuccess x) (tbFailed x) (tbDLQ x) (tbErrorCodeBreakdown x).

Record JobMetricsTrend := mkJobMetricsTrend {
  jtTenantID : string; jtMaxRetry : Z; jtDLQAlertThreshold : Z; jtWindowSeconds : Z; jtBucketSeconds : Z;
  jtBucketCount : Z; jtSince : Z; jtUntil : Z; jtSummary : JobSummary; jtAlerts : list JobMetricsAlert;
  jtBuckets : list JobMetricsTrendBucket; jtUpdatedAt : Z
}.

(** ** Alerts on failed jobs *)

Record JobAlertSubscriptionChannels := mkJobAlertSubscriptionChannels {
  schEmail : bool; schWhatsApp : bool
}.

Record JobAlertSubscription := mkJobAlertSubscription {
  subTenantID : string; subEnabled : bool; subDLQAlertThreshold : Z; subWindowSeconds : Z;
  subCooldownSeconds : Z; subChannels : JobAlertSubscriptionChannels; subReceiverGroups : list string;
  subUpdatedAt : Z
}.
#[export] Instance eta_JobAlertSubscription : Eta JobAlertSubscription := λ x,
  mkJobAlertSubscription (subTenantID x) (subEnabled x) (subDLQAlertThreshold x) (subWindowSeconds x)
  (subCooldownSeconds x) (subChannels x) (subReceiverGroups x) (subUpdatedAt x).

Record JobAlertSubscriptionUpsertOptions := mkJobAlertSubscriptionUpsertOptions {
  suoTenantID : string; suoEnabled : bool; suoDLQAlertThreshold : Z; suoWindow : Z; suoCooldown : Z;
  suoEmailEnabled : bool; suoWhatsAppEnabled : bool; suoReceiverGroups : list string; suoActor : string
}.
#[export] Instance eta_JobAlertSubscriptionUpsertOptions : Eta JobAlertSubscriptionUpsertOptions := λ x,
  mkJobAlertSubscriptionUpsertOptions (suoTenantID x) (suoEnabled x) (suoDLQAlertThreshold x) (suoWindow x)
  (suoCooldown x) (suoEmailEnabled x) (suoWhatsAppEnabled x) (suoReceiverGroups x) (suoActor x).

Record JobAlertEmailDeliveryOptions := mkJobAlertEmailDeliveryOptions {
  edoProvider : string; edoEmailFrom : string; edoReceiverMap : gmap string (list string);
  edoResendEndpoint : string; edoResendAPIKey : string; edoResendTimeout : Z;
  edoCloudflareEndpoint : string; edoCloudflareAccountID : string; edoCloudflareAPIToken : string;
  edoCloudflareTimeout : Z; edoWhatsAppProvider : string;
  edoWhatsAppReceiverMap : gmap string (list string); edoWhatsAppEndpoint : string;
  edoWhatsAppAPIKey : string; edoWhatsAppPhoneNumberID : string; edoWhatsAppTimeout : Z;
  edoWhatsAppTemplateName : string; edoWhatsAppTemplateLang : string; edoLarkAlertWebhookURL : string
}.

Record JobAlertChannelResult := mkJobAlertChannelResult {
  crChannel : string; crStatus : string; crReason : string; crProvider : string; crProviderError : string;
  crProviderDeliveryID : string; crProviderDeliveryStatus : string; crRetryable : bool;
  crReceivers : list string
}.
#[export] Instance eta_JobAlertChannelResult : Eta JobAlertChannelResult := λ x,
  mkJobAlertChannelResult (crChannel x) (crStatus x) (crReason x) (crProvider x) (crProviderError x)
  (crProviderDeliveryID x) (crProviderDeliveryStatus x) (crRetryable x) (crReceivers x).

Record JobAlertNotification := mkJobAlertNotification {
  janID : string; janTenantID : string; janType : string; janErrorCode : string; janCount : Z;
  janThreshold : Z; janChannels : list string; janReceiverGroups : list string; janStatus : string;
  janReason : string; janIdempotencyKey : string; janAttempt : Z; janRetryable : bool; janProvider : string;
  janProviderError : string; janChannelResults : list JobAlertChannelResult;
  janSourceNotificationID : string; janTriggeredAt : Z
}.
#[export] Instance eta_JobAlertNotification : Eta JobAlertNotification := λ x,
  mkJobAlertNotification (janID x) (janTenantID x) (janType x) (janErrorCode x) (janCount x)
  (janThreshold x) (janChannels x) (janReceiverGroups x) (janStatus x) (janReason x) (janIdempotencyKey x)
  (janAttempt x) (janRetryable x) (janProvider x) (janProviderError x) (janChannelResults x)
  (janSourceNotificationID x) (janTriggeredAt x).

Record JobAlertDispatchResult := mkJobAlertDispatchResult {
  jadTenantID : string; jadTotalAlerts : Z; jadDispatched : Z; jadSkipped : Z; jadFailed : Z;
  jadItems : list JobAlertNotification; jadUpdatedAt : Z
}.
#[export] Instance eta_JobAlertDispatchResult : Eta JobAlertDispatchResult := λ x,
  mkJobAlertDispatchResult (jadTenantID x) (jadTotalAlerts x) (jadDispatched x) (jadSkipped x) (jadFailed x)
  (jadItems x) (jadUpdatedAt x).

Record JobAlertDispatchCooldown := mkJobAlertDispatchCooldown {
  cdTenantID : string; cdErrorCode : string; cdLastSentAt : Z
}.
#[export] Instance eta_JobAlertDispatchCooldown : Eta JobAlertDispatchCooldown := λ x,
  mkJobAlertDispatchCooldown (cdTenantID x) (cdErrorCode x) (cdLastSentAt x).

(** ** The dead-letter queue *)

Record JobDLQRequeueOptions := mkJobDLQRequeueOptions {
  rqoTenantID : string; rqoLimit : Z; rqoErrorCode : string; rqoTargetIDOverride : string; rqoActor : string
}.
#[export] Instance eta_JobDLQRequeueOptions : Eta JobDLQRequeueOptions := λ x,
  mkJobDLQRequeueOptions (rqoTenantID x) (rqoLimit x) (rqoErrorCode x) (rqoTargetIDOverride x) (rqoActor x).

Record JobDLQRequeueResult := mkJobDLQRequeueResult {
  rqrTenantID : string; rqrLimit : Z; rqrRequeued : Z; rqrSkipped : Z; rqrRemainingDLQ : Z;
  rqrProcessedJobs : list string; rqrUpdatedAt : Z
}.
#[export] Instance eta_JobDLQRequeueResult : Eta JobDLQRequeueResult := λ x,
  mkJobDLQRequeueResult (rqrTenantID x) (rqrLimit x) (rqrRequeued x) (rqrSkipped x) (rqrRemainingDLQ x)
  (rqrProcessedJobs x) (rqrUpdatedAt x).

Record JobDLQCleanupOptions := mkJobDLQCleanupOptions {
  cloTenantID : string; cloLimit : Z; cloErrorCode : string; cloOlderThan : Z; cloActor : string
}.
#[export] Instance eta_JobDLQCleanupOptions : Eta JobDLQCleanupOptions := λ x,
  mkJobDLQCleanupOptions (cloTenantID x) (cloLimit x) (cloErrorCode x) (cloOlderThan x) (cloActor x).

Record JobDLQCleanupResult := mkJobDLQCleanupResult {
  clrTenantID : string; clrLimit : Z; clrRemoved : Z; clrRemainingDLQ : Z; clrProcessedJobs : list string;
  clrUpdatedAt : Z
}.
#[export] Instance eta_JobDLQCleanupResult : Eta JobDLQCleanupResult := λ x,
  mkJobDLQCleanupResult (clrTenantID x) (clrLimit x) (clrRemoved x) (clrRemainingDLQ x) (clrProcessedJobs x)
  (clrUpdatedAt x).

Record JobDLQCleanupArchive := mkJobDLQCleanupArchive {
  dcaID : string; dcaTenantID : string; dcaLimit : Z; dcaErrorCode : string; dcaOlderThanSeconds : Z;
  dcaActor : string; dcaRemoved : Z; dcaRemainingDLQ : Z; dcaProcessedJobs : list string; dcaAt : Z
}.
#[export] Instance eta_JobDLQCleanupArchive : Eta JobDLQCleanupArchive := λ x,
  mkJobDLQCleanupArchive (dcaID x) (dcaTenantID x) (dcaLimit x) (dcaErrorCode x) (dcaOlderThanSeconds x)
  (dcaActor x) (dcaRemoved x) (dcaRemainingDLQ x) (dcaProcessedJobs x) (dcaAt x).

Record AuditLog := mkAuditLog {
  alID : string; alTenantID : string; alAction : string; alActor : string; alTargetID : string;
  alResult : string; alAt : Z
}.

(** ** Physical cards *)

Record PhysicalCardTask := mkPhysicalCardTask {
  ctID : string; ctTenantID : string; ctPassID : string; ctTemplateID : string; ctTargetType : string;
  ctTargetID : string; ctTaskType : string; ctStatus : string; ctCardNumber : string;
  ctInventoryID : string; ctVendorID : string; ctVendorName : string; ctNote : string;
  ctPassStatus : string; ctCompletedAt : option Z; ctCreatedBy : string; ctUpdatedBy : string;
  ctCreatedAt : Z; ctUpdatedAt : Z
}.
#[export] Instance eta_PhysicalCardTask : Eta PhysicalCardTask := λ x,
  mkPhysicalCardTask (ctID x) (ctTenantID x) (ctPassID x) (ctTemplateID x) (ctTargetType x) (ctTargetID x)
  (ctTaskType x) (ctStatus x) (ctCardNumber x) (ctInventoryID x) (ctVendorID x) (ctVendorName x) (ctNote x)
  (ctPassStatus x) (ctCompletedAt x) (ctCreatedBy x) (ctUpdatedBy x) (ctCreatedAt x) (ctUpdatedAt x).

Record PhysicalCardVendor := mkPhysicalCardVendor {
  cvID : string; cvTenantID : string; cvName : string; cvProvider : string; cvStatus : string;
  cvCreatedAt : Z; cvUpdatedAt : Z
}.

Record PhysicalCardInventoryItem := mkPhysicalCardInventoryItem {
  ciID : string; ciTenantID : string; ciCardNumber : string; ciUID : string; ciVendorID : string;
  ciVendorName : string; ciSource : string; ciReaderID : string; ciStatus : string;
  ciAssignedPassID : string; ciActiveTaskID : string; ciScannedAt : option Z; ciCreatedAt : Z;
  ciUpdatedAt : Z
}.
#[export] Instance eta_PhysicalCardInventoryItem : Eta PhysicalCardInventoryItem := λ x,
  mkPhysicalCardInventoryItem (ciID x) (ciTenantID x) (ciCardNumber x) (ciUID x) (ciVendorID x)
  (ciVendorName x) (ciSource x) (ciReaderID x) (ciStatus x) (ciAssignedPassID x) (ciActiveTaskID x)
  (ciScannedAt x) (ciCreatedAt x) (ciUpdatedAt x).

Record PhysicalCardInventoryImportItem := mkPhysicalCardInventoryImportItem {
  ciiCardNumber : string; ciiUID : string; ciiVendorID : string; ciiStatus : string
}.

(** ** Deliveries *)

Record PassDeliveryChannelResult := mkPassDeliveryChannelResult {
  pcrChannel : string; pcrStatus : string; pcrReason : string; pcrProvider : string;
  pcrProviderError : string; pcrRetryable : bool; pcrReceivers : list string
}.

Record PassDeliveryNotification := mkPassDeliveryNotification {
  pdnID : string; pdnTenantID : string; pdnPassID : string; pdnTemplateID : string; pdnTargetType : string;
  pdnTargetID : string; pdnChannels : list string; pdnStatus : string; pdnReason : string; pdnAttempt : Z;
  pdnRetryable : bool; pdnProvider : string; pdnProviderError : string;
  pdnChannelResults : list PassDeliveryChannelResult; pdnSourceNotificationID : string; pdnTriggeredAt : Z
}.
#[export] Instance eta_PassDeliveryNotification : Eta PassDeliveryNotification := λ x,
  mkPassDeliveryNotification (pdnID x) (pdnTenantID x) (pdnPassID x) (pdnTemplateID x) (pdnTargetType x)
  (pdnTargetID x) (pdnChannels x) (pdnStatus x) (pdnReason x) (pdnAttempt x) (pdnRetryable x)
  (pdnProvider x) (pdnProviderError x) (pdnChannelResults x) (pdnSourceNotificationID x) (pdnTriggeredAt x).

Record AlertDeliveryConfirmationInput := mkAlertDeliveryConfirmationInput {
  aciTenantID : string; aciIdempotencyKey : string; aciChannelResults : list JobAlertChannelResult
}.

Record AlertDeliveryConfirmationResult := mkAlertDeliveryConfirmationResult {
  acrConfirmed : bool; acrRetryable : bool; acrProvider : string; acrProviderError : string;
  acrChannelResults : list JobAlertChannelResult
}.

Record AlertDeliveryInput := mkAlertDeliveryInput {
  adiTenantID : string; adiChannels : list string; adiReceiverGroups : list string;
  adiIdempotencyKey : string; adiEmailSubject : string; adiEmailText : string; adiWhatsAppText : string;
  adiWhatsAppTemplateName : string; adiWhatsAppTemplateParams : list string;
  adiWhatsAppTemplateLang : string; adiLarkWebhookURL : string; adiLarkAlertText : string
}.

Record AlertDeliveryResult := mkAlertDeliveryResult {
  adrStatus : string; adrReason : string; adrProvider : string; adrProviderError : string;
  adrRetryable : bool; adrChannelResults : list JobAlertChannelResult
}.

(** ** Senders *)

Record AlertEmailSendInput := mkAlertEmailSendInput {
  esTenantID : string; esTo : list string; esIdempotencyKey : string; esSubject : string; esText : string
}.

Record AlertEmailSendResult := mkAlertEmailSendResult {
  esrProviderDeliveryID : string; esrProviderDeliveryStatus : string
}.

Record AlertEmailConfirmInput := mkAlertEmailConfirmInput {
  eciProviderDeliveryID : string
}.

Record AlertEmailConfirmResult := mkAlertEmailConfirmResult {
  ecrConfirmed : bool; ecrProviderDeliveryID : string; ecrProviderDeliveryStatus : string
}.

Record AlertWhatsAppSendInput := mkAlertWhatsAppSendInput {
  wsTenantID : string; wsTo : list string; wsIdempotencyKey : string; wsText : string;
  wsTemplateName : string; wsTemplateParams : list string; wsTemplateLang : string
}.

Record AlertWhatsAppSendResult := mkAlertWhatsAppSendResult {
  wsrProviderDeliveryID : string; wsrProviderDeliveryStatus : string
}.

(** ** The mock providers *)

Record ApplePassConfig := mkApplePassConfig {
  apcTeamID : string; apcPassTypeID : string; apcOrganizationID : string; apcWebServiceURL : string
}.

Record ApplePassBundle := mkApplePassBundle {
  apbSerialNumber : string; apbAuthToken : string; apbPassJSON : string; apbManifestJSON : string;
  apbSignature : string; apbSaveLink : string; apbNfcPayload : string; apbBundleSize : Z;
  apbCreatedAt : string; apbMockProvider : bool
}.

Record ApplePassDeviceRegistration := mkApplePassDeviceRegistration {
  apdDeviceLibraryID : string; apdPushToken : string; apdSerialNumber : string; apdPassTypeID : string;
  apdRegisteredAt : string
}.

Record GoogleWalletConfig := mkGoogleWalletConfig {
  gwcIssuerID : string; gwcServiceAccountEmail : string; gwcClassPrefix : string
}.

Record GoogleWalletPassClass := mkGoogleWalletPassClass {
  gwkID : string; gwkIssuerName : string; gwkClassTemplateID : string; gwkReviewStatus : string;
  gwkNfcEnabled : bool; gwkCreatedAt : string; gwkMockProvider : bool
}.

Record GoogleWalletPassObject := mkGoogleWalletPassObject {
  gwoID : string; gwoClassID : string; gwoObjectID : string; gwoHolderName : string;
  gwoHolderEmail : string; gwoState : string; gwoNfcPayload : string; gwoBarcode : string;
  gwoSaveLink : string; gwoSaveLinkJWT : string; gwoCreatedAt : string; gwoMockProvider : bool
}.

Record GoogleWalletUpdateResult := mkGoogleWalletUpdateResult {
  gwuObjectID : string; gwuState : string; gwuUpdatedAt : string
}.

(** ** Errors: the named ones, a failed read of random bytes, a failed save and
    those made in place, with their texts *)

Inductive wallet_err :=
| ErrGoogleConfigNotFound | ErrIssuerIDRequired | ErrServiceAccountEmailRequired | ErrKeyRefRequired
| ErrInvalidConfigStatus | ErrTemplateIDRequired | ErrTemplateNameRequired | ErrTemplateNotFound
| ErrTemplateInactive | ErrInvalidTemplateStatus | ErrInvalidPassType | ErrInvalidTargetType
| ErrTargetIDRequired | ErrTargetIDsRequired | ErrPassNotFound | ErrPassIDRequired
| ErrInvalidPassTransition | ErrPassDeliveryChannelRequired | ErrInvalidPassDeliveryChannel
| ErrPassDeliveryNotificationNotFound | ErrPassDeliveryRetryNotAllowed | ErrPhysicalCardTaskNotFound
| ErrInvalidPhysicalCardTaskType | ErrInvalidPhysicalCardTaskStatus
| ErrInvalidPhysicalCardTaskTransition | ErrPhysicalCardTaskEmployeePassRequired
| ErrPhysicalCardInventoryCardNumberRequired | ErrPhysicalCardInventoryUIDRequired
| ErrPhysicalCardInventoryRecordsRequired | ErrPhysicalCardInventoryNotFound
| ErrPhysicalCardInventoryAlreadyExists | ErrPhysicalCardInventoryIDsRequired
| ErrInvalidPhysicalCardInventoryStatus | ErrInvalidPhysicalCardInventoryTransition
| ErrPhysicalCardVendorNotFound | ErrJobNotFound | ErrJobRetryNotAllowed | ErrJobNotInDLQ
| ErrInvalidJobDLQOptions | ErrInvalidJobProcessOptions | ErrInvalidJobAlertSubscriptionOptions
| ErrInvalidJobAlertEmailProvider | ErrInvalidJobAlertWhatsAppProvider
| ErrJobAlertNotificationNotFound | ErrJobAlertRetryNotAllowed
| ErrRandom (text : string) | ErrSave (text : string) | ErrText (text : string).

(** [err.Error()] *)
Definition Error (e : wallet_err) : string :=
  match e with
  | ErrGoogleConfigNotFound => "google wallet config not found"
  | ErrIssuerIDRequired => "issuer_id is required"
  | ErrServiceAccountEmailRequired => "service_account_email is required"
  | ErrKeyRefRequired => "key_ref is required"
  | ErrInvalidConfigStatus => "invalid config status"
  | ErrTemplateIDRequired => "template_id is required"
  | ErrTemplateNameRequired => "template name is required"
  | ErrTemplateNotFound => "template not found"
  | ErrTemplateInactive => "template is not active"
  | ErrInvalidTemplateStatus => "invalid template status"
  | ErrInvalidPassType => "invalid pass_type"
  | ErrInvalidTargetType => "invalid target_type"
  | ErrTargetIDRequired => "target_id is required"
  | ErrTargetIDsRequired => "target_ids is required"
  | ErrPassNotFound => "pass not found"
  | ErrPassIDRequired => "pass_id is required"
  | ErrInvalidPassTransition => "invalid pass status transition"
  | ErrPassDeliveryChannelRequired => "delivery channel is required"
  | ErrInvalidPassDeliveryChannel => "invalid pass delivery channel"
  | ErrPassDeliveryNotificationNotFound => "pass delivery notification not found"
  | ErrPassDeliveryRetryNotAllowed => "pass delivery retry not allowed"
  | ErrPhysicalCardTaskNotFound => "physical card task not found"
  | ErrInvalidPhysicalCardTaskType => "invalid physical card task type"
  | ErrInvalidPhysicalCardTaskStatus => "invalid physical card task status"
  | ErrInvalidPhysicalCardTaskTransition => "invalid physical card task status transition"
  | ErrPhysicalCardTaskEmployeePassRequired => "physical card task requires employee pass"
  | ErrPhysicalCardInventoryCardNumberRequired => "physical card inventory card_number is required"
  | ErrPhysicalCardInventoryUIDRequired => "physical card inventory uid is required"
  | ErrPhysicalCardInventoryRecordsRequired => "physical card inventory records are required"
  | ErrPhysicalCardInventoryNotFound => "physical card inventory not found"
  | ErrPhysicalCardInventoryAlreadyExists => "physical card inventory already exists"
  | ErrPhysicalCardInventoryIDsRequired => "physical card inventory ids are required"
  | ErrInvalidPhysicalCardInventoryStatus => "invalid physical card inventory status"
  | ErrInvalidPhysicalCardInventoryTransition => "invalid physical card inventory status transition"
  | ErrPhysicalCardVendorNotFound => "physical card vendor not found"
  | ErrJobNotFound => "job not found"
  | ErrJobRetryNotAllowed => "job retry not allowed"
  | ErrJobNotInDLQ => "job is not in dlq"
  | ErrInvalidJobDLQOptions => "invalid wallet job dlq options"
  | ErrInvalidJobProcessOptions => "invalid wallet job process options"
  | ErrInvalidJobAlertSubscriptionOptions => "invalid wallet job alert subscription options"
  | ErrInvalidJobAlertEmailProvider => "invalid wallet job alert email provider"
  | ErrInvalidJobAlertWhatsAppProvider => "invalid wallet job alert whatsapp provider"
  | ErrJobAlertNotificationNotFound => "wallet job alert notification not found"
  | ErrJobAlertRetryNotAllowed => "wallet job alert retry not allowed"
  | ErrRandom t | ErrSave t | ErrText t => t
  end.
