(* ===== verification/WalletState.v ===== *)
(** * The state of the wallet service (modules/wallet/service.go)

    [Service] is the Go struct with its state store, the random source
    ([entropy], one chunk or failure per read) and the [network] the senders talk
    to (the answers to come, the requests made).  The store answers each [Save]
    with the next of [replies] and keeps the last snapshot it accepted.  The
    mutex makes each locked part of a method one step; methods take the wall
    clock [now] once. *)

From S2P Require Import Prelude GoStrings GoTime Bytes Encoding GoText WalletData.
#[local] Open Scope string_scope.
#[local] Open Scope list_scope.
#[local] Open Scope Z_scope.

(** ** The store and the outside *)

Record stateSnapshot := mkSnapshot {
  snConfig : option GoogleConfig; snTemplates : list PassTemplate; snPasses : list PassInstance;
  snPassDeliveryNotifications : list PassDeliveryNotification; snPhysicalCardTasks : list PhysicalCardTask;
  snPhysicalCardVendors : list PhysicalCardVendor; snPhysicalCardInventory : list PhysicalCardInventoryItem;
  snJobs : list IssueJob; snAuditLogs : list AuditLog; snDLQCleanupArchives : list JobDLQCleanupArchive;
  snJobAlertSubscriptions : list JobAlertSubscription; snJobAlertNotifications : list JobAlertNotification;
  snJobAlertCooldowns : list JobAlertDispatchCooldown
}.

(** A reply is the text of the error, if any. *)
Record StateStore := mkStore { replies : list (option string); stored : option stateSnapshot }.

(** What [errors.As] and [errors.Is] tell about the error of a sender. *)
Inductive send_error :=
| HTTPError (status : Z) (body : string)
| ContextError (text : string)
| OtherError (text : string).

(** The senders built by the constructors; a mail provider answers a message or
    a confirmation, Meta one message per receiver, Lark one text. *)
Inductive EmailSender := ResendSender | CloudflareSender.
Inductive WhatsAppSender := WhatsAppMock | MetaWhatsApp.

Record Network := mkNetwork {
  mailReplies : list (result send_error AlertEmailSendResult);
  confirmReplies : list (result send_error AlertEmailConfirmResult);
  metaReplies : list (result send_error string);
  larkReplies : list (option string);
  mailsSent : list AlertEmailSendInput;
  metaSent : list (string * AlertWhatsAppSendInput);
  larkSent : list (string * string)
}.
#[export] Instance eta_Network : Eta Network := λ x,
  mkNetwork (mailReplies x) (confirmReplies x) (metaReplies x) (larkReplies x) (mailsSent x) (metaSent x)
    (larkSent x).

Record ApplePassProvider := mkApple { TeamID : string; PassTypeID : string; OrganizationID : string; WebServiceURL : string }.
Record GoogleWalletProvider := mkGoogle { IssuerID : string; ServiceAccountEmail : string; ClassPrefix : string }.

Record Service := mkService {
  config : option GoogleConfig; templates : list PassTemplate; passes : list PassInstance;
  passDeliveryNotifications : list PassDeliveryNotification; physicalCardTasks : list PhysicalCardTask;
  physicalCardVendors : list PhysicalCardVendor; physicalCardInventory : list PhysicalCardInventoryItem;
  jobs : list IssueJob; auditLogs : list AuditLog; dlqCleanupArchives : list JobDLQCleanupArchive;
  jobAlertSubscriptions : list JobAlertSubscription; jobAlertNotifications : list JobAlertNotification;
  jobAlertCooldowns : list JobAlertDispatchCooldown; jobAlertMockTransientFailCount : Z;
  jobAlertEmailProvider : string; jobAlertEmailFrom : string;
  jobAlertEmailReceiverMap : gmap string (list string); jobAlertEmailSender : option EmailSender;
  jobAlertWhatsAppProvider : string; jobAlertWhatsAppReceiverMap : gmap string (list string);
  jobAlertWhatsAppSender : option WhatsAppSender; jobAlertWhatsAppTemplateName : string;
  jobAlertWhatsAppTemplateLang : string; jobAlertLarkWebhookURL : string;
  stateStore : option StateStore; applePassProvider : option ApplePassProvider;
  googleWalletProvider : option GoogleWalletProvider;
  entropy : list (string + bytes); network : Network
}.
#[export] Instance eta_Service : Eta Service := λ s,
  mkService (config s) (templates s) (passes s) (passDeliveryNotifications s) (physicalCardTasks s)
    (physicalCardVendors s) (physicalCardInventory s) (jobs s) (auditLogs s) (dlqCleanupArchives s)
    (jobAlertSubscriptions s) (jobAlertNotifications s) (jobAlertCooldowns s) (jobAlertMockTransientFailCount s)
    (jobAlertEmailProvider s) (jobAlertEmailFrom s) (jobAlertEmailReceiverMap s) (jobAlertEmailSender s)
    (jobAlertWhatsAppProvider s) (jobAlertWhatsAppReceiverMap s) (jobAlertWhatsAppSender s)
    (jobAlertWhatsAppTemplateName s) (jobAlertWhatsAppTemplateLang s) (jobAlertLarkWebhookURL s)
    (stateStore s) (applePassProvider s) (googleWalletProvider s) (entropy s) (network s).

Abbreviation m := (op Service wallet_err).

(** ** Normalisation *)

Definition firstNonEmpty (values : list string) : string :=
  match findi (fun v => negb (is_empty (TrimSpace v))) values with Some (_, v) => TrimSpace v | None => "" end.
Definition default_to (default v : string) : string := if is_empty (TrimSpace v) then default else TrimSpace v.
Definition normalizeTenantID (tenantID : string) : string := default_to "tenant_demo_jakarta" tenantID.
Definition normalizeActor (actor : string) : string := default_to "system" actor.

(** [switch strings.ToLower(strings.TrimSpace(v)) { case ...: }] *)
Definition one_of (values : list string) (v : string) : bool := existsb (String.eqb v) values.
Definition lowered (v : string) : string := ToLower (TrimSpace v).

Definition active_or_inactive (status : string) (e : wallet_err) : result wallet_err string :=
  if one_of ["";"active"] (lowered status) then Ok "active"
  else if one_of ["inactive"] (lowered status) then Ok "inactive" else Err e.
Definition normalizeConfigStatus (status : string) := active_or_inactive status ErrInvalidConfigStatus.
Definition normalizeTemplateStatus (status : string) := active_or_inactive status ErrInvalidTemplateStatus.

Definition normalizePassType (passType : string) : result wallet_err string :=
  if one_of ["employee";"visitor"] (lowered passType) then Ok (lowered passType) else Err ErrInvalidPassType.
Definition normalizeTargetType (targetType : string) : result wallet_err string :=
  if one_of ["user";"visitor"] (lowered targetType) then Ok (lowered targetType) else Err ErrInvalidTargetType.

Definition looksLikeServiceAccountEmail (value : string) : bool :=
  Contains (lowered value) "@" && HasSuffix (lowered value) ".iam.gserviceaccount.com".
Definition looksLikeKeyRef (value : string) : bool :=
  existsb (HasPrefix (lowered value)) ["kms://";"sm://";"secret://";"env://";"file://"].

(** The loop of [normalizeReceiverGroups], [dedupStrings] and
    [normalizeDispatchChannels]: blanks and repetitions up to case are dropped. *)
Fixpoint dedup_from (seen values : list string) : list string :=
  match values with
  | [] => []
  | v :: values' =>
      let next := TrimSpace v in
      if is_empty next || existsb (String.eqb (ToLower next)) seen then dedup_from seen values'
      else next :: dedup_from (ToLower next :: seen) values'
  end.
Definition normalizeReceiverGroups (items : list string) : list string := dedup_from [] items.
Definition dedupStrings (items : list string) : list string := dedup_from [] items.
Definition normalizeDispatchChannels (channels : list string) : list string := dedup_from [] (lowered <$> channels).

Definition looksLikeEmail (value : string) : bool :=
  let next := TrimSpace value in
  match Index next "@" with
  | None => false
  | Some at' =>
      negb ((Z.of_nat at' <=? 0) || (len next - 1 <=? Z.of_nat at')) && Contains (drop_string (S at') next) "."
  end.
Definition looksLikePhoneNumber (value : string) : bool :=
  let next := TrimSpace value in
  negb (is_empty next) &&
  let next := TrimPrefix (TrimPrefix next "whatsapp:") "+" in
  (8 <=? len next) && (len next <=? 20) && all_chars is_digit next.

(** ** Copies

    Copying a slice or a pointer is the identity on values; what is left is the
    normalisation some copies make. *)

Section maps.
Context {MR : MapRange}.

(** Keys that trim to the same string: the entry visited last stays. *)
Definition cloneStringMap (source : gmap string string) : gmap string string :=
  fold_left (fun items '(key, value) =>
    if is_empty (TrimSpace key) then items else <[TrimSpace key := TrimSpace value]> items) (range source) ∅.
Definition cloneTemplate (t : PassTemplate) : PassTemplate := t <| tplStyleConfig ::= cloneStringMap |>.

Definition normalizeJobAlertReceiverMap (source : gmap string (list string)) : gmap string (list string) :=
  fold_left (fun output '(key, values) =>
    let group := lowered key in
    let unique := dedupStrings values in
    if is_empty group then output
    else match unique with [] => output | _ => <[group := unique]> output end) (range source) ∅.

Definition cloneJobAlertSubscription (x : JobAlertSubscription) : JobAlertSubscription :=
  x <| subReceiverGroups ::= normalizeReceiverGroups |>.
Definition cloneJobAlertNotification (x : JobAlertNotification) : JobAlertNotification :=
  x <| janReceiverGroups ::= normalizeReceiverGroups |>.

Definition snapshot (s : Service) : stateSnapshot :=
  mkSnapshot (config s) (cloneTemplate <$> templates s) (passes s) (passDeliveryNotifications s)
    (physicalCardTasks s) (physicalCardVendors s) (physicalCardInventory s) (jobs s) (auditLogs s)
    (dlqCleanupArchives s) (cloneJobAlertSubscription <$> jobAlertSubscriptions s)
    (cloneJobAlertNotification <$> jobAlertNotifications s) (jobAlertCooldowns s).

(** [s.stateStore.Save(stateKey, snap)] *)
Definition save (snap : stateSnapshot) : m unit := λ s,
  match stateStore s with
  | None => (s, Ok tt)
  | Some st =>
      match replies st with
      | Some e :: rs => (s <| stateStore := Some (mkStore rs (stored st)) |>, Err (ErrSave e))
      | rs => (s <| stateStore := Some (mkStore (tail rs) (Some snap)) |>, Ok tt)
      end
  end.
Definition persistLocked : m unit := snap ← gets snapshot; save snap.

Definition restoreFromStateStore : m unit :=
  st ← gets stateStore;
  match st with
  | None => mret tt
  | Some st =>
      match stored st with
      | None => persistLocked
      | Some sn =>
          modify (fun s => s
            <| config := snConfig sn |>
            <| templates := cloneTemplate <$> snTemplates sn |>
            <| passes := snPasses sn |>
            <| passDeliveryNotifications := snPassDeliveryNotifications sn |>
            <| physicalCardTasks := snPhysicalCardTasks sn |>
            <| physicalCardVendors := snPhysicalCardVendors sn |>
            <| physicalCardInventory := snPhysicalCardInventory sn |>
            <| jobs := snJobs sn |>
            <| auditLogs := snAuditLogs sn |>
            <| dlqCleanupArchives := snDLQCleanupArchives sn |>
            <| jobAlertSubscriptions := cloneJobAlertSubscription <$> snJobAlertSubscriptions sn |>
            <| jobAlertNotifications := cloneJobAlertNotification <$> snJobAlertNotifications sn |>
            <| jobAlertCooldowns := snJobAlertCooldowns sn |>)
      end
  end.
End maps.

(** ** Random identifiers and the audit log *)

(** [rand.Read(b)] for [len(b) = n]: a short source is an unexpected end. *)
Definition rand_read (n : nat) : m bytes := λ s,
  match entropy s with
  | [] => (s, Err (ErrRandom "EOF"))
  | c :: cs =>
      (s <| entropy := cs |>,
       match c with
       | inl e => Err (ErrRandom e)
       | inr b => if (length b =? n)%nat then Ok b else Err (ErrRandom "unexpected EOF")
       end)
  end.

(** The same where the error is dropped: what was not read stays zero. *)
Definition rand_fill (n : nat) : m bytes := λ s,
  match entropy s with
  | [] => (s, Ok (replicate n (chr 0)))
  | c :: cs =>
      (s <| entropy := cs |>,
       Ok (match c with inl _ => replicate n (chr 0) | inr b => take n (b ++ replicate n (chr 0)) end))
  end.

Definition walletID (prefix : string) : m string := raw ← rand_read 6; mret (prefix +:+ hex_encode raw).

(** [id, err := walletID(prefix); if err != nil { id = prefix + "fallback_" + nanos }] *)
Definition walletID_or (prefix : string) (now : Z) : m string :=
  id ← try_op (E':=wallet_err) (walletID prefix);
  mret (match id with Some id => id | None => prefix +:+ "fallback_" +:+ Itoa now end).

Definition appendAuditLocked (now : Z) (tenantID action actor targetID result : string) : m unit :=
  id ← walletID_or "wal_" now;
  modify (fun s => s <| auditLogs ::= cons (mkAuditLog id tenantID action actor targetID result now) |>).

(** ** The senders *)

Definition send_error_text (e : send_error) : string :=
  match e with
  | HTTPError status body =>
      let body := TrimSpace body in
      "email provider http status " +:+ Itoa status +:+ (if is_empty body then "" else ": " +:+ body)
  | ContextError t | OtherError t => t
  end.
Definition Retryable (status : Z) : bool := (status =? 429) || (500 <=? status).
Definition isJobAlertProviderRetryable (e : send_error) : bool :=
  match e with
  | HTTPError status _ => Retryable status
  | ContextError _ => true
  | OtherError t =>
      let msg := lowered t in
      existsb (Contains msg) ["timeout";"temporar";"connection reset";"connection refused"]
  end.

(** [s.jobAlertEmailSender.Send(ctx, input)]: the request as the provider gets it. *)
Definition email_Send (input : AlertEmailSendInput) : m (result send_error AlertEmailSendResult) := λ s,
  let n := network s in
  let sent := mkAlertEmailSendInput (esTenantID input) (esTo input) (TrimSpace (esIdempotencyKey input))
                (TrimSpace (esSubject input)) (TrimSpace (esText input)) in
  match mailReplies n with
  | [] => (s <| network := n <| mailsSent ::= cons sent |> |>, Ok (Err (OtherError "EOF")))
  | r :: rs =>
      (s <| network := n <| mailReplies := rs |> <| mailsSent ::= cons sent |> |>,
       Ok (match r with
           | Ok a => Ok (mkAlertEmailSendResult (TrimSpace (esrProviderDeliveryID a))
                           (TrimSpace (esrProviderDeliveryStatus a)))
           | Err e => Err e
           end))
  end.

(** [confirmSender.Confirm(ctx, input)] *)
Definition email_Confirm (input : AlertEmailConfirmInput) : m (result send_error AlertEmailConfirmResult) := λ s,
  let n := network s in
  if is_empty (TrimSpace (eciProviderDeliveryID input)) then (s, Ok (Ok (mkAlertEmailConfirmResult false "" "")))
  else match confirmReplies n with
  | [] => (s, Ok (Err (OtherError "EOF")))
  | r :: rs =>
      (s <| network := n <| confirmReplies := rs |> |>,
       Ok (match r with
           | Ok a => Ok (mkAlertEmailConfirmResult (ecrConfirmed a) (TrimSpace (ecrProviderDeliveryID a))
                           (TrimSpace (ecrProviderDeliveryStatus a)))
           | Err e => Err e
           end))
  end.

(** The loop of the Meta sender: one message per receiver, up to the first error;
    the first id stays. *)
Fixpoint meta_loop (input : AlertWhatsAppSendInput) (receivers : list string) (deliveryID : string) :
    m (result send_error string) :=
  match receivers with
  | [] => mret (Ok deliveryID)
  | to :: rest =>
      r ← (λ s, let n := network s in
             let n' := n <| metaSent ::= cons (to, input) |> in
             match metaReplies n with
             | [] => (s <| network := n' |>, Ok (Err (OtherError "EOF")))
             | r :: rs => (s <| network := n' <| metaReplies := rs |> |>, Ok r)
             end : Service * result wallet_err (result send_error string));
      match r with
      | Err e => mret (Err e)
      | Ok id => meta_loop input rest (if is_empty deliveryID then TrimSpace id else deliveryID)
      end
  end.

(** [s.jobAlertWhatsAppSender.Send(ctx, input)] *)
Definition whatsapp_Send (sender : WhatsAppSender) (input : AlertWhatsAppSendInput) :
    m (result send_error AlertWhatsAppSendResult) :=
  match sender with
  | WhatsAppMock => mret (Ok (mkAlertWhatsAppSendResult "" "accepted"))
  | MetaWhatsApp =>
      let nextTo := dedupStrings (wsTo input) in
      match nextTo with
      | [] => mret (Err (OtherError "meta whatsapp requires at least one receiver"))
      | _ =>
          if is_empty (TrimSpace (wsText input)) then mret (Err (OtherError "meta whatsapp text is required"))
          else
            r ← meta_loop input nextTo "";
            mret (match r with Ok id => Ok (mkAlertWhatsAppSendResult id "accepted") | Err e => Err e end)
      end
  end.

(** [larkBotSenderInstance().SendText(ctx, url, text)] *)
Definition lark_SendText (url text : string) : m (option string) := λ s,
  let n := network s in
  let n' := n <| larkSent ::= cons (url, text) |> in
  match larkReplies n with
  | [] => (s <| network := n' |>, Ok (Some "EOF"))
  | r :: rs => (s <| network := n' <| larkReplies := rs |> |>, Ok r)
  end.

(** ** What leaves the tables alone

    [quiet s0 s]: [s] is [s0] up to the audit log, the store, the random source
    and the network. *)

Definition quiet (s0 s : Service) : Prop :=
  s = s0 <| auditLogs := auditLogs s |> <| stateStore := stateStore s |> <| entropy := entropy s |>
         <| network := network s |>.

Lemma quiet_refl s : quiet s s.
Proof. by destruct s. Qed.
Lemma quiet_trans s1 s2 s3 : quiet s1 s2 → quiet s2 s3 → quiet s1 s3.
Proof. unfold quiet. intros -> ->. done. Qed.

(** A method that is quiet from any state, and a predicate such methods keep. *)
Class Quiet {A} (f : m A) : Prop := quiet_exec s : quiet s (exec f s).
Definition quiet_closed (P : Service → Prop) : Prop := ∀ s s', quiet s s' → P s → P s'.
Lemma quiet_preserves {A} (f : m A) `{!Quiet f} P : quiet_closed P → preserves P f.
Proof. intros HP s Hs. exact (HP _ _ (quiet_exec s) Hs). Qed.
Lemma quiet_run {A} (f : m A) `{!Quiet f} s s' r : f s = (s', r) → quiet s s'.
Proof. intros H. pose proof (quiet_exec (f:=f) s) as Hq. unfold exec in Hq. by rewrite H in Hq. Qed.

#[export] Instance quiet_bind {A B} (f : m A) (g : A → m B) `{!Quiet f} `{!∀ a, Quiet (g a)} : Quiet (f ≫= g).
Proof.
  intros s. unfold exec. rewrite bind_op_eq. pose proof (quiet_exec (f:=f) s) as Hx. unfold exec in Hx.
  destruct (f s) as [s1 [a|e]]; [|done]. exact (quiet_trans _ _ _ Hx (quiet_exec s1)).
Qed.
#[export] Instance quiet_ret {A} (a : A) : Quiet (mret a : m A).
Proof. intros s. apply quiet_refl. Qed.
#[export] Instance quiet_gets {A} (g : Service → A) : Quiet (gets g).
Proof. intros s. apply quiet_refl. Qed.
#[export] Instance quiet_lift {A} (r : result wallet_err A) : Quiet (lift r).
Proof. intros s. apply quiet_refl. Qed.
#[export] Instance quiet_throw {A} e : Quiet (throw e : m A).
Proof. intros s. apply quiet_refl. Qed.
#[export] Instance quiet_fail_if b e : Quiet (fail_if b e).
Proof. intros s. unfold exec, fail_if. destruct b; apply quiet_refl. Qed.
#[export] Instance quiet_try {E A} (f : op Service E A) (Hf : ∀ s, quiet s (exec f s)) : Quiet (try_op f).
Proof. intros s. specialize (Hf s). unfold exec, try_op in *. by destruct (f s) as [s' []]. Qed.
#[export] Instance quiet_ignore {A} (f : m A) `{!Quiet f} : Quiet (ignore_err f).
Proof. intros s. exact (quiet_exec (f:=f) s). Qed.
#[export] Instance quiet_if {A} (b : bool) (f g : m A) `{!Quiet f} `{!Quiet g} : Quiet (if b then f else g).
Proof. by destruct b. Qed.

#[export] Instance quiet_rand_read n : Quiet (rand_read n).
Proof. intros s. unfold exec, rand_read. destruct (entropy s) as [|c cs]; [apply quiet_refl|]. by destruct s. Qed.
#[export] Instance quiet_rand_fill n : Quiet (rand_fill n).
Proof. intros s. unfold exec, rand_fill. destruct (entropy s) as [|c cs]; [apply quiet_refl|]. by destruct s. Qed.
#[export] Instance quiet_walletID p : Quiet (walletID p).
Proof. apply _. Qed.
#[export] Instance quiet_walletID_or p now : Quiet (walletID_or p now).
Proof. apply quiet_bind; [|apply _]. apply quiet_try, quiet_walletID. Qed.
#[export] Instance quiet_audit now t a b c d : Quiet (appendAuditLocked now t a b c d).
Proof. apply quiet_bind; [apply _|]. intros id s. by destruct s. Qed.
#[export] Instance quiet_persist `{!MapRange} : Quiet persistLocked.
Proof.
  intros s. unfold exec, persistLocked. rewrite bind_gets. unfold save.
  destruct (stateStore s) as [[[|[e|] rs] o]|]; destruct s; done.
Qed.
#[export] Instance quiet_email input : Quiet (email_Send input).
Proof. intros s. unfold exec, email_Send. destruct (mailReplies (network s)); by destruct s. Qed.
#[export] Instance quiet_confirm input : Quiet (email_Confirm input).
Proof.
  intros s. unfold exec, email_Confirm. destruct (is_empty _); [apply quiet_refl|].
  destruct (confirmReplies (network s)); by destruct s.
Qed.
#[export] Instance quiet_meta input l d : Quiet (meta_loop input l d).
Proof.
  revert d; induction l as [|to l IH]; intros d; [apply _|]. simpl. apply quiet_bind.
  - intros s. unfold exec. destruct (metaReplies (network s)); by destruct s.
  - intros [id|e]; apply _.
Qed.
#[export] Instance quiet_whatsapp w input : Quiet (whatsapp_Send w input).
Proof. destruct w; simpl; [apply _|]. destruct (dedupStrings (wsTo input)); apply _. Qed.
#[export] Instance quiet_lark url text : Quiet (lark_SendText url text).
Proof. intros s. unfold exec, lark_SendText. destruct (larkReplies (network s)); by destruct s. Qed.

(** Each table of a quiet successor. *)
Section quiet_tables.
Context (s s' : Service) (H : quiet s s').
Lemma quiet_templates : templates s' = templates s. Proof. by rewrite H. Qed.
Lemma quiet_passes : passes s' = passes s. Proof. by rewrite H. Qed.
Lemma quiet_jobs : jobs s' = jobs s. Proof. by rewrite H. Qed.
Lemma quiet_inventory : physicalCardInventory s' = physicalCardInventory s. Proof. by rewrite H. Qed.
Lemma quiet_tasks : physicalCardTasks s' = physicalCardTasks s. Proof. by rewrite H. Qed.
Lemma quiet_cooldowns : jobAlertCooldowns s' = jobAlertCooldowns s. Proof. by rewrite H. Qed.
Lemma quiet_notifications : jobAlertNotifications s' = jobAlertNotifications s. Proof. by rewrite H. Qed.
End quiet_tables.
