(* ===== verification/Wallet.v ===== *)
(** * Passes of the wallet service (modules/wallet/service.go, service_passes.go,
    apple_pass_provider.go, google_wallet_provider.go)

    The Google configuration, templates, and passes: issuing one pass or a batch
    at once, cards without a holder, enrolment of an Apple pass, assignment,
    suspension, activation and revocation.  SHA-256 is the field of [Digest]; the
    queue of batch jobs is in WalletJobs, physical cards in WalletCards. *)

From S2P Require Import Prelude GoStrings GoTime Bytes Encoding GoText WalletData WalletState.
#[local] Open Scope string_scope.
#[local] Open Scope list_scope.
#[local] Open Scope Z_scope.

(** [crypto/sha256] *)
Class Digest := { sha256 : bytes → bytes }.

(** ** The mock providers *)

Definition NewApplePassProvider (cfg : ApplePassConfig) : ApplePassProvider :=
  mkApple (default_to "MISTYISLET_DEV" (apcTeamID cfg)) (default_to "pass.com.mistyislet.access" (apcPassTypeID cfg))
    (default_to "mistyislet" (apcOrganizationID cfg))
    (default_to "https://api.mistyislet.com/v1/passes" (apcWebServiceURL cfg)).

Definition NewGoogleWalletProvider (cfg : GoogleWalletConfig) : GoogleWalletProvider :=
  mkGoogle (default_to "mistyislet_dev_issuer" (gwcIssuerID cfg))
    (default_to "wallet@mistyislet-dev.iam.gserviceaccount.com" (gwcServiceAccountEmail cfg))
    (default_to "mistyislet.access" (gwcClassPrefix cfg)).

Section providers.
Context {DG : Digest}.

Definition pass_field (key label value : string) : json :=
  JObj [("key", JStr key); ("label", JStr label); ("value", JStr value)].

(** The [pass.json] of a bundle. *)
Definition apple_pass_json (p : ApplePassProvider) (now : Z)
    (tenantID holderName holderEmail passID serialNumber authToken nfcPayload : string) : json :=
  JObj [("authenticationToken", JStr authToken);
        ("backgroundColor", JStr "rgb(32, 36, 67)");
        ("barcode", JObj [("format", JStr "PKBarcodeFormatQR"); ("message", JStr nfcPayload);
                          ("messageEncoding", JStr "iso-8859-1")]);
        ("description", JStr "Mistyislet Access Pass");
        ("foregroundColor", JStr "rgb(255, 255, 255)");
        ("formatVersion", JInt 1);
        ("generic", JObj [("auxiliaryFields", JArr [pass_field "pass_id" "Pass ID" passID]);
                          ("backFields", JArr [pass_field "issued" "Issued" (format_rfc3339 now);
                                               pass_field "tenant" "Tenant" tenantID]);
                          ("primaryFields", JArr [pass_field "holder" "Holder" holderName]);
                          ("secondaryFields", JArr [pass_field "email" "Email" holderEmail;
                                                    pass_field "org" "Organization" (OrganizationID p)])]);
        ("labelColor", JStr "rgb(200, 200, 220)");
        ("nfc", JObj [("encryptionPublicKey", JStr ""); ("message", JStr nfcPayload);
                      ("requiresAuthentication", JBool false)]);
        ("organizationName", JStr "Mistyislet");
        ("passTypeIdentifier", JStr (PassTypeID p));
        ("serialNumber", JStr serialNumber);
        ("teamIdentifier", JStr (TeamID p));
        ("webServiceURL", JStr (WebServiceURL p))].

(** [(p *ApplePassProvider) IssuePass]: failures of the random source are dropped. *)
Definition apple_IssuePass (p : ApplePassProvider) (now : Z) (tenantID holderName holderEmail passID : string) :
    m ApplePassBundle :=
  serialBytes ← rand_fill 12;
  authTokenBytes ← rand_fill 16;
  nfcPayloadBytes ← rand_fill 8;
  let serialNumber := hex_encode serialBytes in
  let authToken := hex_encode authTokenBytes in
  let nfcPayload := "mistyislet:" +:+ passID +:+ ":" +:+ hex_encode nfcPayloadBytes in
  let passJSON := MarshalIndent
    (apple_pass_json p now tenantID holderName holderEmail passID serialNumber authToken nfcPayload) in
  let manifest := Marshal
    (JObj [("icon.png", JStr "placeholder_icon_hash"); ("icon@2x.png", JStr "placeholder_icon_2x_hash");
           ("logo.png", JStr "placeholder_logo_hash");
           ("pass.json", JStr (hex_encode (sha256 (of_string passJSON))))]) in
  let mockSignature := "MOCK_PKCS7_" +:+ hex_encode (sha256 (of_string manifest)) in
  mret (mkApplePassBundle serialNumber authToken passJSON manifest mockSignature
    (WebServiceURL p +:+ "/v1/passes/" +:+ PassTypeID p +:+ "/" +:+ serialNumber) nfcPayload
    (len passJSON + len manifest + len mockSignature) (format_rfc3339 now) true).

Definition RegisterDevice (p : ApplePassProvider) (now : Z) (serialNumber deviceLibraryID pushToken : string) :
    ApplePassDeviceRegistration :=
  mkApplePassDeviceRegistration (TrimSpace deviceLibraryID) (TrimSpace pushToken) (TrimSpace serialNumber)
    (PassTypeID p) (format_rfc3339 now).

Definition CreatePassClass (p : GoogleWalletProvider) (now : Z) (tenantID templateID templateName : string) :
    GoogleWalletPassClass :=
  mkGoogleWalletPassClass (IssuerID p +:+ "." +:+ ClassPrefix p +:+ ".class." +:+ templateID) "Mistyislet"
    templateID "UNDER_REVIEW" true (format_rfc3339 now) true.

Definition mockJWTSign (payload : string) : string :=
  let headerB64 := base64_rawurl (of_string (Marshal (JObj [("alg", JStr "RS256"); ("typ", JStr "JWT")]))) in
  let payloadB64 := base64_rawurl (of_string payload) in
  let sigInput := headerB64 +:+ "." +:+ payloadB64 in
  sigInput +:+ "." +:+ base64_rawurl (sha256 (of_string sigInput)).

Definition default_value (value : string) : json :=
  JObj [("defaultValue", JObj [("language", JStr "en"); ("value", JStr value)])].

(** The claims of the save link. *)
Definition google_jwt_payload (p : GoogleWalletProvider) (now : Z)
    (objectID classID holderName holderEmail nfcPayload : string) : json :=
  JObj [("aud", JStr "google"); ("iat", JInt (Unix now)); ("iss", JStr (ServiceAccountEmail p));
        ("payload", JObj [("genericObjects", JArr [JObj [
            ("barcode", JObj [("type", JStr "QR_CODE"); ("value", JStr nfcPayload)]);
            ("cardTitle", default_value "Mistyislet Access"); ("classId", JStr classID);
            ("genericType", JStr "GENERIC_TYPE_UNSPECIFIED"); ("header", default_value holderName);
            ("id", JStr objectID); ("state", JStr "ACTIVE"); ("subheader", default_value holderEmail)]])]);
        ("typ", JStr "savetowallet")].

Definition IssuePassObject (p : GoogleWalletProvider) (now : Z)
    (tenantID passID classID holderName holderEmail : string) : m GoogleWalletPassObject :=
  nfcBytes ← rand_fill 8;
  barcodeBytes ← rand_fill 6;
  let objectID := IssuerID p +:+ "." +:+ ClassPrefix p +:+ "." +:+ passID in
  let nfcPayload := "mistyislet:" +:+ passID +:+ ":" +:+ hex_encode nfcBytes in
  let mockJWT := mockJWTSign (Marshal (google_jwt_payload p now objectID classID holderName holderEmail nfcPayload)) in
  mret (mkGoogleWalletPassObject passID classID objectID holderName holderEmail "ACTIVE" nfcPayload
    (hex_encode barcodeBytes) ("https://pay.google.com/gp/v/save/" +:+ mockJWT) mockJWT (format_rfc3339 now) true).

Definition UpdatePassObjectState (now : Z) (objectID state : string) : GoogleWalletUpdateResult :=
  mkGoogleWalletUpdateResult objectID (ToUpper (TrimSpace state)) (format_rfc3339 now).
End providers.

(** ** Kinds of credentials *)

Definition physical_kinds : list string :=
  ["physical_card";"desfire";"mifare";"mifare_desfire";"third_party_hf";"hid";"fob"].
Definition credentialKindForProvider (provider targetType : string) : string :=
  if one_of ["apple"] (lowered provider) then "apple_wallet"
  else if one_of ["google";""] (lowered provider) then
    if EqualFold (TrimSpace targetType) "visitor" then "google_wallet" else "google_wallet"
  else if one_of physical_kinds (lowered provider) then "physical_card"
  else "credential".

Definition normalizeCardCredentialProvider (cardType token uid cardNumber fallbackProvider : string) : string * string :=
  let normalizedType := lowered cardType in
  let hasPhysicalIdentifier :=
    negb (is_empty (TrimSpace token)) || negb (is_empty (TrimSpace uid)) || negb (is_empty (TrimSpace cardNumber)) in
  if one_of ["apple";"apple_wallet";"apple_pass";"apple_passes"] normalizedType then ("apple", "apple_wallet")
  else if one_of ["google";"google_wallet";"wallet"] normalizedType then ("google", "google_wallet")
  else if one_of ["physical";"physical_card";"card";"desfire";"mifare";"mifare_desfire";"third_party_hf";"hid";"fob"]
            normalizedType then
    if one_of ["physical";"physical_card";"card"] normalizedType then ("physical_card", "physical_card")
    else (normalizedType, "physical_card")
  else if hasPhysicalIdentifier then ("physical_card", "physical_card")
  else let provider := firstNonEmpty [lowered fallbackProvider; "google"] in
       (provider, credentialKindForProvider provider "").

Definition normalizeNFCUID (raw : string) : string :=
  ToUpper (RemoveByte " "%char (RemoveByte "-"%char (RemoveByte ":"%char (TrimSpace raw)))).

Definition canTransitPassStatus (current next : string) : bool :=
  String.eqb current next
  || if one_of ["suspended"] next then one_of ["active";"issued"] current
     else if one_of ["active"] next then one_of ["issued";"suspended"] current
     else if one_of ["revoked"] next then one_of ["issued";"active";"suspended"] current
     else false.

(** ** Finding and replacing rows *)

Definition findTemplateByID (items : list PassTemplate) (templateID : string) : option PassTemplate :=
  snd <$> findi (fun t => String.eqb (tplID t) templateID) items.

(** The first row with the id; of another tenant it counts as missing. *)
Definition look {A} (rows : Service → list A) (id tenant : A → string) (notFound : wallet_err)
    (tenantID rowID : string) : m (nat * A) :=
  found ← gets (fun s => findi (fun x => String.eqb (id x) rowID) (rows s));
  match found with
  | None => throw notFound
  | Some (i, x) => fail_if (negb (String.eqb (tenant x) tenantID)) notFound;; mret (i, x)
  end.
Definition look_pass := look passes psID psTenantID ErrPassNotFound.
Definition put_pass (i : nat) (p : PassInstance) : m unit := modify (fun s => s <| passes ::= <[i := p]> |>).
Definition of_tenant {A} (tenant : A → string) (tenantID : string) (l : list A) : list A :=
  filterb (fun x => String.eqb (tenant x) (normalizeTenantID tenantID)) l.

(** ** The Google configuration *)

Definition GetGoogleConfig (tenantID : string) : m GoogleConfig :=
  c ← gets config;
  match c with
  | None => throw ErrGoogleConfigNotFound
  | Some c =>
      fail_if (negb (String.eqb (gcTenantID c) (normalizeTenantID tenantID))) ErrGoogleConfigNotFound;; mret c
  end.

Section wallet.
Context {MR : MapRange} {DG : Digest}.

Definition UpsertGoogleConfig (now : Z) (tenantID issuerID serviceAccountEmail keyRef status actor : string) :
    m GoogleConfig :=
  fail_if (is_empty (TrimSpace issuerID)) ErrIssuerIDRequired;;
  fail_if (is_empty (TrimSpace serviceAccountEmail)) ErrServiceAccountEmailRequired;;
  fail_if (is_empty (TrimSpace keyRef)) ErrKeyRefRequired;;
  nextStatus ← lift (normalizeConfigStatus status);
  old ← gets config;
  let createdAt := match old with Some c => gcCreatedAt c | None => now end in
  configID ← match old with
             | Some c => if is_empty (gcID c) then walletID "wcfg_" else mret (gcID c)
             | None => walletID "wcfg_"
             end;
  let c := mkGoogleConfig configID (normalizeTenantID tenantID) "google" (TrimSpace issuerID)
             (TrimSpace serviceAccountEmail) (TrimSpace keyRef) nextStatus createdAt now in
  modify (fun s => s <| config := Some c |>);;
  appendAuditLocked now (normalizeTenantID tenantID) "wallet.google.config.upsert" (normalizeActor actor) configID
    "success";;
  persistLocked;; mret c.

(** The report on a configuration; [remote] is what the live check answers, none
    when it is switched off. *)
Definition push_item (v : GoogleConfigValidation) (i : ConfigValidationItem) : GoogleConfigValidation :=
  v <| gcvItems ::= (fun l => l ++ [i]) |>
    <| gcvValid ::= (fun b => b && negb (String.eqb (cviStatus i) "error")) |>.
Definition ValidateGoogleConfig (now : Z) (remote : option (result string (list ConfigValidationItem)))
    (tenantID issuerID serviceAccountEmail keyRef : string) (s : Service) : GoogleConfigValidation :=
  let nextTenantID := normalizeTenantID tenantID in
  let item := mkConfigValidationItem in
  let hasConfig := match config s with Some c => String.eqb (gcTenantID c) nextTenantID | None => false end in
  let v := fold_left push_item
    [if is_empty (TrimSpace issuerID) then item "issuer_id" "error" (Error ErrIssuerIDRequired)
     else item "issuer_id" "ok" "issuer_id looks good";
     if is_empty (TrimSpace serviceAccountEmail)
     then item "service_account_email" "error" (Error ErrServiceAccountEmailRequired)
     else if negb (looksLikeServiceAccountEmail (TrimSpace serviceAccountEmail))
     then item "service_account_email" "error" "service_account_email must be a google service account address"
     else item "service_account_email" "ok" "service_account_email format is valid";
     if is_empty (TrimSpace keyRef) then item "key_ref" "error" (Error ErrKeyRefRequired)
     else if negb (looksLikeKeyRef (TrimSpace keyRef))
     then item "key_ref" "error" "key_ref must start with kms://, sm://, secret://, env://, or file://"
     else item "key_ref" "ok" "key_ref format is valid";
     if hasConfig then item "existing_config" "ok" "existing tenant config found"
     else item "existing_config" "warn" "no existing tenant config, next save will create one"]
    (mkGoogleConfigValidation "google" nextTenantID true [] now) in
  if negb (gcvValid v) then v
  else match remote with
  | None => push_item v (item "google_remote_validation" "warn"
      "remote google validation disabled; set WALLET_GOOGLE_REMOTE_VALIDATE=true to enable live issuer verification")
  | Some (Err e) => push_item v (item "google_remote_validation" "error" e)
  | Some (Ok items) => fold_left push_item items v
  end.

(** ** Templates *)

Definition ListTemplates (tenantID : string) (s : Service) : list PassTemplate :=
  cloneTemplate <$> of_tenant tplTenantID tenantID (templates s).

Definition CreateTemplate (now : Z) (tenantID passType classID name : string) (styleConfig : gmap string string)
    (status actor : string) : m PassTemplate :=
  nextPassType ← lift (normalizePassType passType);
  fail_if (is_empty (TrimSpace name)) ErrTemplateNameRequired;;
  nextStatus ← lift (normalizeTemplateStatus status);
  let nextClassID := default_to ("mistypass." +:+ nextPassType +:+ ".class") classID in
  id ← walletID "wpt_";
  let record := mkPassTemplate id (normalizeTenantID tenantID) "google" nextPassType nextClassID (TrimSpace name)
                  (cloneStringMap styleConfig) nextStatus now now in
  modify (fun s => s <| templates ::= cons record |>);;
  appendAuditLocked now (tplTenantID record) "wallet.template.create" (normalizeActor actor) id "success";;
  persistLocked;; mret (cloneTemplate record).

Definition UpdateTemplateStatus (now : Z) (tenantID templateID status actor : string) : m PassTemplate :=
  fail_if (is_empty (TrimSpace templateID)) ErrTemplateIDRequired;;
  nextStatus ← lift (normalizeTemplateStatus status);
  '(i, t) ← look templates tplID tplTenantID ErrTemplateNotFound (normalizeTenantID tenantID) (TrimSpace templateID);
  let t' := t <| tplStatus := nextStatus |> <| tplUpdatedAt := now |> in
  modify (fun s => s <| templates ::= <[i := t']> |>);;
  appendAuditLocked now (tplTenantID t) "wallet.template.status" (normalizeActor actor) (tplID t) "success";;
  persistLocked;; mret (cloneTemplate t').

(** The template a pass may be issued from: the tenant's, and active. *)
Definition usable_template (tenantID templateID : string) : m PassTemplate :=
  t ← gets (fun s => findTemplateByID (templates s) templateID);
  match t with
  | None => throw ErrTemplateNotFound
  | Some t =>
      fail_if (negb (String.eqb (tplTenantID t) tenantID)) ErrTemplateNotFound;;
      fail_if (negb (String.eqb (tplStatus t) "active")) ErrTemplateInactive;; mret t
  end.

(** ** Passes *)

Definition ListPasses (tenantID : string) (s : Service) : list PassInstance := of_tenant psTenantID tenantID (passes s).
Definition GetPass (tenantID passID : string) : m PassInstance :=
  fail_if (is_empty (TrimSpace passID)) ErrPassNotFound;;
  '(_, p) ← look_pass (normalizeTenantID tenantID) (TrimSpace passID); mret p.
Definition GetSaveLink (tenantID passID : string) : m string := p ← GetPass tenantID passID; mret (psSaveLink p).

Definition google_link (id : string) : string := "https://pay.google.com/gp/v/save/" +:+ id.

(** What the providers give for a new pass: object id, save link, payload. *)
Definition createPassRecord (now : Z) (tenantID : string) (template : PassTemplate)
    (targetType targetID holderName holderEmail expiresAt actor : string) : m PassInstance :=
  id ← walletID "wps_";
  let provider := firstNonEmpty [tplProvider template; "google"] in
  let objectID := tplClassID template +:+ "." +:+ id in
  '(objectID, saveLink, nfcPayload) ←
    if String.eqb (ToLower provider) "apple" then
      apple ← gets applePassProvider;
      match apple with
      | None => mret (objectID, "", "")
      | Some a =>
          bundle ← apple_IssuePass a now tenantID holderName holderEmail id;
          mret (apbSerialNumber bundle, apbSaveLink bundle, apbNfcPayload bundle)
      end
    else if one_of ["google";""] (ToLower provider) then
      google ← gets googleWalletProvider;
      '(objectID, saveLink, nfcPayload) ←
        match google with
        | None => mret (objectID, "", "")
        | Some g =>
            let classID := firstNonEmpty [tplClassID template; "mistyislet.access.default"] in
            obj ← IssuePassObject g now tenantID id classID holderName holderEmail;
            mret (gwoObjectID obj, gwoSaveLink obj, gwoNfcPayload obj)
        end;
      mret (objectID, (if is_empty saveLink then google_link id else saveLink), nfcPayload)
    else mret (objectID, "", "");
  mret (mkPassInstance id tenantID provider (credentialKindForProvider provider targetType) (tplID template)
    targetType targetID objectID nfcPayload "" "" "" "issued" saveLink expiresAt now None None actor actor now now).

(** A new pass, audited and saved. *)
Definition add_pass (now : Z) (tenantID action actor : string) (record : PassInstance) : m PassInstance :=
  modify (fun s => s <| passes ::= cons record |>);;
  appendAuditLocked now tenantID action actor (psID record) "success";;
  persistLocked;; mret record.

Definition IssuePass (now : Z) (tenantID templateID targetType targetID expiresAt actor : string) : m PassInstance :=
  fail_if (is_empty (TrimSpace templateID)) ErrTemplateIDRequired;;
  nextTargetType ← lift (normalizeTargetType targetType);
  fail_if (is_empty (TrimSpace targetID)) ErrTargetIDRequired;;
  template ← usable_template (normalizeTenantID tenantID) (TrimSpace templateID);
  record ← createPassRecord now (normalizeTenantID tenantID) template nextTargetType (TrimSpace targetID) "" ""
             (TrimSpace expiresAt) (normalizeActor actor);
  add_pass now (normalizeTenantID tenantID) "wallet.pass.issue" (normalizeActor actor) record.

Definition CreateUnassignedCard (now : Z)
    (tenantID templateID token uid cardNumber cardType expiresAt actor : string) : m PassInstance :=
  fail_if (is_empty (TrimSpace templateID)) ErrTemplateIDRequired;;
  let nextActor := normalizeActor actor in
  let nextTenantID := normalizeTenantID tenantID in
  template ← usable_template nextTenantID (TrimSpace templateID);
  id ← walletID "wps_";
  let objectID := firstNonEmpty [TrimSpace token; TrimSpace uid; TrimSpace cardNumber] in
  let objectID := if is_empty objectID then tplClassID template +:+ "." +:+ id else objectID in
  let '(provider, credentialKind) :=
    normalizeCardCredentialProvider cardType token uid cardNumber (tplProvider template) in
  let saveLink := if String.eqb credentialKind "google_wallet" then google_link id else "" in
  add_pass now nextTenantID "wallet.card.create" nextActor
    (mkPassInstance id nextTenantID provider credentialKind (TrimSpace templateID) "" "" objectID (TrimSpace token)
      (TrimSpace uid) (TrimSpace cardNumber) "" "issued" saveLink (TrimSpace expiresAt) now None None
      nextActor nextActor now now).

(** A pass that answers an enrolment again. *)
Definition enrolled (tenantID targetID passSerial deviceID : string) (p : PassInstance) : bool :=
  String.eqb (psTenantID p) tenantID && String.eqb (psTargetType p) "user" && String.eqb (psTargetID p) targetID
  && (String.eqb (credentialKindForProvider (psProvider p) (psTargetType p)) "apple_wallet"
      || String.eqb (lowered (psCredentialKind p)) "apple_wallet")
  && negb (String.eqb (psStatus p) "revoked")
  && (is_empty passSerial || String.eqb (psObjectID p) passSerial)
  && (is_empty deviceID || String.eqb (psToken p) deviceID).

Definition EnrollApplePass (now : Z) (tenantID userID deviceID passSerial expiresAt actor : string) :
    m PassInstance :=
  let nextTargetID := TrimSpace userID in
  fail_if (is_empty nextTargetID) ErrTargetIDRequired;;
  let nextTenantID := normalizeTenantID tenantID in
  let nextDeviceID := TrimSpace deviceID in
  let nextPassSerial := TrimSpace passSerial in
  let nextActor := normalizeActor actor in
  found ← gets (fun s => findi (enrolled nextTenantID nextTargetID nextPassSerial nextDeviceID) (passes s));
  match found with
  | Some (_, p) => mret p
  | None =>
      id ← walletID "wps_";
      let objectID := if is_empty nextPassSerial then "apple." +:+ nextTargetID +:+ "." +:+ id else nextPassSerial in
      add_pass now nextTenantID "wallet.apple_pass.enroll" nextActor
        (mkPassInstance id nextTenantID "apple" "apple_wallet" "wpt_apple_pass_self" "user" nextTargetID objectID
          nextDeviceID "" "" "" "active" "" (TrimSpace expiresAt) now (Some now) None nextActor nextActor now now)
  end.

Definition RegisterNFCCard (now : Z) (tenantID uid cardType targetID label expiresAt actor : string) :
    m PassInstance :=
  id ← walletID "wps_";
  add_pass now (TrimSpace tenantID) "wallet.nfc.register" actor
    (mkPassInstance id (TrimSpace tenantID) "physical_card" "physical_card" "nfc_card" "user" (TrimSpace targetID)
      ("mistypass.nfc." +:+ id) (normalizeNFCUID uid) (normalizeNFCUID uid) "" label "active" "" (TrimSpace expiresAt)
      now (Some now) None actor actor now now).

(** A stored pass replaced, audited and saved. *)
Definition change_pass (now : Z) (tenantID action actor : string) (i : nat) (p : PassInstance) : m PassInstance :=
  put_pass i p;;
  appendAuditLocked now tenantID action actor (psID p) "success";;
  persistLocked;; mret p.

Definition updatePassStatus (now : Z) (tenantID passID status actor : string) : m PassInstance :=
  fail_if (is_empty (TrimSpace passID)) ErrPassNotFound;;
  let nextStatus := TrimSpace status in
  let nextActor := normalizeActor actor in
  '(i, p) ← look_pass (normalizeTenantID tenantID) (TrimSpace passID);
  fail_if (negb (canTransitPassStatus (psStatus p) nextStatus)) ErrInvalidPassTransition;;
  change_pass now (psTenantID p) ("wallet.pass." +:+ nextStatus) nextActor i
    (p <| psStatus := nextStatus |> <| psUpdatedBy := nextActor |> <| psUpdatedAt := now |>
       <| psActivatedAt ::= (fun a => if String.eqb nextStatus "active" then Some now else a) |>
       <| psRevokedAt ::= (fun a => if String.eqb nextStatus "revoked" then Some now else a) |>).
Definition SuspendPass (now : Z) (tenantID passID actor : string) := updatePassStatus now tenantID passID "suspended" actor.
Definition ActivatePass (now : Z) (tenantID passID actor : string) := updatePassStatus now tenantID passID "active" actor.
Definition RevokePass (now : Z) (tenantID passID actor : string) := updatePassStatus now tenantID passID "revoked" actor.

Definition AssignPass (now : Z) (tenantID passID targetType targetID actor : string) : m PassInstance :=
  fail_if (is_empty (TrimSpace passID)) ErrPassNotFound;;
  nextTargetType ← lift (normalizeTargetType targetType);
  fail_if (is_empty (TrimSpace targetID)) ErrTargetIDRequired;;
  '(i, p) ← look_pass (normalizeTenantID tenantID) (TrimSpace passID);
  fail_if (String.eqb (psStatus p) "revoked") ErrInvalidPassTransition;;
  change_pass now (normalizeTenantID tenantID) "wallet.card.assign" (normalizeActor actor) i
    (p <| psTargetType := nextTargetType |> <| psTargetID := TrimSpace targetID |> <| psStatus := "active" |>
       <| psUpdatedBy := normalizeActor actor |> <| psUpdatedAt := now |> <| psActivatedAt := Some now |>
       <| psRevokedAt := None |>).

Definition DeassignPass (now : Z) (tenantID passID actor : string) : m PassInstance :=
  fail_if (is_empty (TrimSpace passID)) ErrPassNotFound;;
  '(i, p) ← look_pass (normalizeTenantID tenantID) (TrimSpace passID);
  fail_if (String.eqb (psStatus p) "revoked") ErrInvalidPassTransition;;
  change_pass now (normalizeTenantID tenantID) "wallet.card.deassign" (normalizeActor actor) i
    (p <| psTargetType := "" |> <| psTargetID := "" |> <| psStatus := "issued" |>
       <| psUpdatedBy := normalizeActor actor |> <| psUpdatedAt := now |> <| psActivatedAt := None |>).
End wallet.

(** ** Making a pass leaves the tables alone *)

#[export] Instance quiet_look {A} (rows : Service → list A) id tenant e t i : Quiet (look rows id tenant e t i).
Proof. apply quiet_bind; [apply _|]. intros [[j x]|]; apply _. Qed.
#[export] Instance quiet_look_pass t i : Quiet (look_pass t i).
Proof. apply quiet_look. Qed.
#[export] Instance quiet_usable t i : Quiet (usable_template t i).
Proof. apply quiet_bind; [apply _|]. intros [x|]; apply _. Qed.
#[export] Instance quiet_create `{!Digest} now t tpl tt ti hn he ex ac : Quiet (createPassRecord now t tpl tt ti hn he ex ac).
Proof.
  unfold createPassRecord. apply quiet_bind; [apply _|]. intros id. apply quiet_bind; [|intros [[??]?]; apply _].
  apply quiet_if; [|apply quiet_if; [|apply _]].
  - apply quiet_bind; [apply _|]. intros [a|]; apply _.
  - apply quiet_bind; [apply _|]. intros g. apply quiet_bind; [destruct g; apply _|]. intros [[??]?]; apply _.
Qed.

(** A look-up that succeeds. *)
Lemma look_ok {A} (rows : Service → list A) id tenant e t i s j x :
  answer (look rows id tenant e t i) s = Ok (j, x) → rows s !! j = Some x ∧ id x = i ∧ tenant x = t.
Proof.
  unfold answer, look. rewrite bind_gets. destruct (findi _ (rows s)) as [[k y]|] eqn:Hf; [|done].
  rewrite fail_if_bind. destruct (negb _) eqn:Hv; [done|]. intros [= -> ->].
  apply findi_Some in Hf as (Hl & Hp & _). boolp. done.
Qed.
Lemma look_exec {A} (rows : Service → list A) id tenant e t i s : exec (look rows id tenant e t i) s = s.
Proof.
  unfold exec, look. rewrite bind_gets. destruct (findi _ (rows s)) as [[k y]|]; [|done].
  rewrite fail_if_bind. by destruct (negb _).
Qed.

(** What follows a look-up may use it. *)
Lemma pres_look {A B} (P : Service → Prop) (rows : Service → list A) id tenant e t i (f : nat * A → m B) :
  (∀ s j x, rows s !! j = Some x → id x = i → tenant x = t → P s → P (exec (f (j, x)) s)) →
  preserves P (look rows id tenant e t i ≫= f).
Proof.
  intros Hf s Hs. pose proof (look_exec rows id tenant e t i s) as He.
  pose proof (look_ok rows id tenant e t i s) as Ha. unfold exec, answer in *. rewrite bind_op_eq.
  destruct (look _ _ _ _ _ _ s) as [s' [[j x]|e']]; simpl in *; subst; [|done].
  destruct (Ha j x eq_refl) as (?&?&?). eapply Hf; eauto.
Qed.

(** A pass that was made: a new id for the target, issued. *)
Lemma create_ok `{!Digest} now t tpl tt ti hn he ex ac s s' p :
  createPassRecord now t tpl tt ti hn he ex ac s = (s', Ok p) →
  psTenantID p = t ∧ psTargetType p = tt ∧ psTargetID p = ti ∧ psStatus p = "issued" ∧ psExpiresAt p = ex
  ∧ psTemplateID p = tplID tpl.
Proof.
  unfold createPassRecord. intros Hr. apply bind_ok in Hr as (s1 & id & _ & Hr).
  apply bind_ok in Hr as (s2 & [[a b] c] & _ & Hr). injection Hr as _ <-. done.
Qed.
