(* ===== verification/WalletCards.v ===== *)
(** * Physical cards (modules/wallet/physical_card.go)

    The inventory of blank cards and the tasks that issue, replace and report
    them.  A card is available, reserved for a task, issued, lost, frozen or
    scrapped; a task moves its pass and its card along.  The second half follows
    what can happen to a revoked pass and to a scrapped card. *)

From S2P Require Import Prelude GoStrings GoTime Bytes Encoding GoText WalletData WalletState Wallet.
#[local] Open Scope string_scope.
#[local] Open Scope list_scope.
#[local] Open Scope Z_scope.

(** ** Statuses *)

Definition inventory_statuses : list string := ["available";"reserved";"issued";"lost";"frozen";"scrapped"].
Definition normalizePhysicalCardInventoryStatus (raw : string) : result wallet_err string :=
  let next := if is_empty (lowered raw) then "available" else lowered raw in
  if one_of inventory_statuses next then Ok next else Err ErrInvalidPhysicalCardInventoryStatus.

Definition canTransitPhysicalCardInventoryStatus (current next : string) : bool :=
  String.eqb current next
  || if one_of ["available"] current then one_of ["frozen";"scrapped"] next
     else if one_of ["frozen"] current then one_of ["available";"scrapped"] next
     else if one_of ["lost"] current then one_of ["scrapped"] next
     else false.

Definition normalizePhysicalCardTaskType (raw : string) : result wallet_err string :=
  if one_of ["issue";"reissue";"loss_report"] (lowered raw) then Ok (lowered raw)
  else Err ErrInvalidPhysicalCardTaskType.

Definition normalizePhysicalCardTaskStatus (taskType raw : string) : result wallet_err string :=
  let next := if is_empty (lowered raw) then "queued" else lowered raw in
  if one_of ["issue";"reissue"] taskType && one_of ["queued";"printing";"ready";"issued";"cancelled"] next then Ok next
  else if one_of ["loss_report"] taskType && one_of ["queued";"reported_lost";"cancelled"] next then Ok next
  else Err ErrInvalidPhysicalCardTaskStatus.

Definition canTransitPhysicalCardTaskStatus (taskType current next : string) : bool :=
  String.eqb current next
  || if one_of ["issue";"reissue"] taskType then
       if one_of ["queued"] current then one_of ["printing";"ready";"issued";"cancelled"] next
       else if one_of ["printing"] current then one_of ["ready";"issued";"cancelled"] next
       else if one_of ["ready"] current then one_of ["issued";"cancelled"] next
       else false
     else if one_of ["loss_report"] taskType then
       String.eqb current "queued" && one_of ["reported_lost";"cancelled"] next
     else false.

(** ** Finding *)

Definition findPhysicalCardVendorLocked (items : list PhysicalCardVendor) (tenantID vendorID : string) :
    option PhysicalCardVendor :=
  if is_empty (TrimSpace vendorID) then None
  else snd <$> findi (fun v => String.eqb (cvTenantID v) tenantID && String.eqb (cvID v) (TrimSpace vendorID)) items.

(** By id when there is one, else by card number. *)
Definition findPhysicalCardInventoryIndexLocked (items : list PhysicalCardInventoryItem)
    (tenantID inventoryID cardNumber : string) : option (nat * PhysicalCardInventoryItem) :=
  let id := TrimSpace inventoryID in
  let number := TrimSpace cardNumber in
  findi (fun c => String.eqb (ciTenantID c) tenantID
    && ((negb (is_empty id) && String.eqb (ciID c) id)
        || (is_empty id && negb (is_empty number) && EqualFold (ciCardNumber c) number))) items.

Definition findPhysicalCardInventoryIndexByUIDLocked (items : list PhysicalCardInventoryItem) (tenantID uid : string) :
    option (nat * PhysicalCardInventoryItem) :=
  if is_empty (TrimSpace uid) then None
  else findi (fun c => String.eqb (ciTenantID c) tenantID && EqualFold (TrimSpace (ciUID c)) (TrimSpace uid)) items.

(** The vendor of a request, when it names one: id and name. *)
Definition named_vendor (tenantID vendorID : string) : m (string * string) :=
  if is_empty (TrimSpace vendorID) then mret ("", "")
  else
    v ← gets (fun s => findPhysicalCardVendorLocked (physicalCardVendors s) tenantID vendorID);
    match v with Some v => mret (cvID v, cvName v) | None => throw ErrPhysicalCardVendorNotFound end.

Definition ListPhysicalCardVendors (tenantID : string) (s : Service) : list PhysicalCardVendor :=
  of_tenant cvTenantID tenantID (physicalCardVendors s).
Definition ListPhysicalCardInventory (tenantID status : string) (s : Service) : list PhysicalCardInventoryItem :=
  filterb (fun c => is_empty (lowered status) || String.eqb (ciStatus c) (lowered status))
    (of_tenant ciTenantID tenantID (physicalCardInventory s)).
Definition ListPhysicalCardTasks (tenantID : string) (s : Service) : list PhysicalCardTask :=
  of_tenant ctTenantID tenantID (physicalCardTasks s).

(** ** The inventory *)

Definition put_card (i : nat) (c : PhysicalCardInventoryItem) : m unit :=
  modify (fun s => s <| physicalCardInventory ::= <[i := c]> |>).
Definition add_card (c : PhysicalCardInventoryItem) : m unit :=
  modify (fun s => s <| physicalCardInventory ::= cons c |>).

Definition current_status (c : PhysicalCardInventoryItem) : string :=
  if is_empty (TrimSpace (ciStatus c)) then "available" else TrimSpace (ciStatus c).
Definition applyPhysicalCardInventoryStatusTransition (c : PhysicalCardInventoryItem) (nextStatus : string) (now : Z) :
    result wallet_err PhysicalCardInventoryItem :=
  if String.eqb (current_status c) nextStatus then Ok (c <| ciUpdatedAt := now |>)
  else if negb (canTransitPhysicalCardInventoryStatus (current_status c) nextStatus)
  then Err ErrInvalidPhysicalCardInventoryTransition
  else
    let c := c <| ciStatus := nextStatus |> in
    let c := if one_of ["available";"frozen";"scrapped"] nextStatus
             then c <| ciAssignedPassID := "" |> <| ciActiveTaskID := "" |> else c in
    Ok (c <| ciUpdatedAt := now |>).

Section cards.
Context {MR : MapRange}.

Definition CreatePhysicalCardInventoryItem (now : Z) (tenantID cardNumber uid vendorID status actor : string) :
    m PhysicalCardInventoryItem :=
  let nextTenantID := normalizeTenantID tenantID in
  let nextCardNumber := TrimSpace cardNumber in
  fail_if (is_empty nextCardNumber) ErrPhysicalCardInventoryCardNumberRequired;;
  nextStatus ← lift (normalizePhysicalCardInventoryStatus status);
  id ← walletID "wpci_";
  old ← gets (fun s => findPhysicalCardInventoryIndexLocked (physicalCardInventory s) nextTenantID "" nextCardNumber);
  fail_if (bool_decide (is_Some old)) ErrPhysicalCardInventoryAlreadyExists;;
  '(vendorID', vendorName) ← named_vendor nextTenantID vendorID;
  let item := mkPhysicalCardInventoryItem id nextTenantID nextCardNumber (TrimSpace uid) vendorID' vendorName
                "manual" "" nextStatus "" "" None now now in
  add_card item;;
  appendAuditLocked now nextTenantID "wallet.physical_card_inventory.create" (normalizeActor actor) id "success";;
  persistLocked;; mret item.

Definition UpdatePhysicalCardInventoryStatus (now : Z) (tenantID inventoryID status reason actor : string) :
    m PhysicalCardInventoryItem :=
  let nextTenantID := normalizeTenantID tenantID in
  fail_if (is_empty (TrimSpace inventoryID)) ErrPhysicalCardInventoryNotFound;;
  nextStatus ← lift (normalizePhysicalCardInventoryStatus status);
  found ← gets (fun s =>
    findPhysicalCardInventoryIndexLocked (physicalCardInventory s) nextTenantID (TrimSpace inventoryID) "");
  match found with
  | None => throw ErrPhysicalCardInventoryNotFound
  | Some (i, c) =>
      c' ← lift (applyPhysicalCardInventoryStatusTransition c nextStatus now);
      put_card i c';;
      appendAuditLocked now nextTenantID "wallet.physical_card_inventory.status" (normalizeActor actor) (ciID c)
        ("status=" +:+ nextStatus +:+ ",reason=" +:+ TrimSpace reason);;
      persistLocked;; mret c'
  end.

(** The ids of a batch: trimmed, without blanks and repetitions. *)
Fixpoint distinct_from (seen values : list string) : list string :=
  match values with
  | [] => []
  | v :: values' =>
      let id := TrimSpace v in
      if is_empty id || existsb (String.eqb id) seen then distinct_from seen values'
      else id :: distinct_from (id :: seen) values'
  end.

(** All ids are looked up and checked before the first card changes. *)
Fixpoint batch_check (tenantID nextStatus : string) (ids : list string) (s : Service) : result wallet_err (list nat) :=
  match ids with
  | [] => Ok []
  | id :: ids' =>
      match findPhysicalCardInventoryIndexLocked (physicalCardInventory s) tenantID id "" with
      | None => Err ErrPhysicalCardInventoryNotFound
      | Some (i, c) =>
          if canTransitPhysicalCardInventoryStatus (current_status c) nextStatus
          then rest ← batch_check tenantID nextStatus ids' s; Ok (i :: rest)
          else Err ErrInvalidPhysicalCardInventoryTransition
      end
  end.
Fixpoint batch_apply (nextStatus : string) (now : Z) (indexes : list nat) : m unit :=
  match indexes with
  | [] => mret tt
  | i :: indexes' =>
      c ← gets (fun s => physicalCardInventory s !! i);
      match c with
      | None => mret tt
      | Some c =>
          c' ← lift (applyPhysicalCardInventoryStatusTransition c nextStatus now);
          put_card i c';; batch_apply nextStatus now indexes'
      end
  end.

Definition BatchUpdatePhysicalCardInventoryStatus (now : Z) (tenantID : string) (inventoryIDs : list string)
    (status reason actor : string) : m (list PhysicalCardInventoryItem) :=
  let nextTenantID := normalizeTenantID tenantID in
  nextStatus ← lift (normalizePhysicalCardInventoryStatus status);
  let normalizedIDs := distinct_from [] inventoryIDs in
  fail_if (bool_decide (normalizedIDs = [])) ErrPhysicalCardInventoryIDsRequired;;
  checked ← gets (batch_check nextTenantID nextStatus normalizedIDs);
  indexes ← lift checked;
  batch_apply nextStatus now indexes;;
  updated ← gets (fun s => omap (fun i => physicalCardInventory s !! i) indexes);
  appendAuditLocked now nextTenantID "wallet.physical_card_inventory.status_batch" (normalizeActor actor)
    ("count=" +:+ Itoa (Z.of_nat (length updated))) ("status=" +:+ nextStatus +:+ ",reason=" +:+ TrimSpace reason);;
  persistLocked;; mret updated.

(** One record of an import; what was done before an error stays. *)
Definition import_one (now : Z) (tenantID : string) (r : PhysicalCardInventoryImportItem) :
    m PhysicalCardInventoryItem :=
  let nextCardNumber := TrimSpace (ciiCardNumber r) in
  fail_if (is_empty nextCardNumber) ErrPhysicalCardInventoryCardNumberRequired;;
  nextStatus ← lift (normalizePhysicalCardInventoryStatus (ciiStatus r));
  '(vendorID, vendorName) ← named_vendor tenantID (ciiVendorID r);
  found ← gets (fun s => findPhysicalCardInventoryIndexLocked (physicalCardInventory s) tenantID "" nextCardNumber);
  match found with
  | Some (i, c) =>
      if negb (String.eqb (ciStatus c) "available") then mret c
      else
        let c' := c <| ciUID := TrimSpace (ciiUID r) |> <| ciVendorID := vendorID |>
                    <| ciVendorName := vendorName |> <| ciSource ::= (fun x => firstNonEmpty [x; "import"]) |>
                    <| ciStatus := nextStatus |> <| ciUpdatedAt := now |> in
        put_card i c';; mret c'
  | None =>
      id ← walletID "wpci_";
      let item := mkPhysicalCardInventoryItem id tenantID nextCardNumber (TrimSpace (ciiUID r)) vendorID vendorName
                    "import" "" nextStatus "" "" None now now in
      add_card item;; mret item
  end.
Fixpoint import_all (now : Z) (tenantID : string) (records : list PhysicalCardInventoryImportItem) :
    m (list PhysicalCardInventoryItem) :=
  match records with
  | [] => mret []
  | r :: records' => c ← import_one now tenantID r; cs ← import_all now tenantID records'; mret (c :: cs)
  end.

Definition ImportPhysicalCardInventory (now : Z) (tenantID : string) (records : list PhysicalCardInventoryImportItem)
    (actor : string) : m (list PhysicalCardInventoryItem) :=
  let nextTenantID := normalizeTenantID tenantID in
  fail_if (match records with [] => true | _ => false end) ErrPhysicalCardInventoryRecordsRequired;;
  items ← import_all now nextTenantID records;
  appendAuditLocked now nextTenantID "wallet.physical_card_inventory.import" (normalizeActor actor)
    ("count=" +:+ Itoa (Z.of_nat (length items))) "success";;
  persistLocked;; mret items.

Definition ScanPhysicalCardInventory (now : Z) (tenantID uid cardNumber readerID vendorID actor : string) :
    m PhysicalCardInventoryItem :=
  let nextTenantID := normalizeTenantID tenantID in
  let nextUID := TrimSpace uid in
  fail_if (is_empty nextUID) ErrPhysicalCardInventoryUIDRequired;;
  let requested := TrimSpace cardNumber in
  let nextCardNumber := if is_empty requested then nextUID else requested in
  id ← walletID "wpci_";
  '(vendorID', vendorName) ← named_vendor nextTenantID vendorID;
  found ← gets (fun s =>
    match findPhysicalCardInventoryIndexByUIDLocked (physicalCardInventory s) nextTenantID nextUID with
    | Some r => Some r
    | None => findPhysicalCardInventoryIndexLocked (physicalCardInventory s) nextTenantID "" nextCardNumber
    end);
  let audit (id : string) := appendAuditLocked now nextTenantID "wallet.physical_card_inventory.scan"
                               (normalizeActor actor) id "success" in
  match found with
  | Some (i, c) =>
      let free := String.eqb (ciStatus c) "available" in
      let c' := c <| ciUID := nextUID |>
                  <| ciCardNumber ::= (fun x => if negb (is_empty requested) && free then requested else x) |>
                  <| ciVendorID ::= (fun x => if negb (is_empty vendorID') && free then vendorID' else x) |>
                  <| ciVendorName ::= (fun x => if negb (is_empty vendorID') && free then vendorName else x) |>
                  <| ciSource := "reader_scan" |> <| ciReaderID := TrimSpace readerID |>
                  <| ciScannedAt := Some now |> <| ciUpdatedAt := now |> in
      put_card i c';; audit (ciID c);; persistLocked;; mret c'
  | None =>
      let item := mkPhysicalCardInventoryItem id nextTenantID nextCardNumber nextUID vendorID' vendorName
                    "reader_scan" (TrimSpace readerID) "available" "" "" (Some now) now now in
      add_card item;; audit id;; persistLocked;; mret item
  end.

(** ** Tasks *)

Definition CreatePhysicalCardTask (now : Z)
    (tenantID passID taskType cardNumber inventoryID vendorID note actor : string) : m PhysicalCardTask :=
  fail_if (is_empty (TrimSpace passID)) ErrPassIDRequired;;
  nextTaskType ← lift (normalizePhysicalCardTaskType taskType);
  nextStatus ← lift (normalizePhysicalCardTaskStatus nextTaskType "");
  let nextTenantID := normalizeTenantID tenantID in
  let nextActor := normalizeActor actor in
  id ← walletID "wpc_";
  '(_, p) ← look_pass nextTenantID (TrimSpace passID);
  fail_if (negb (String.eqb (psTargetType p) "user")) ErrPhysicalCardTaskEmployeePassRequired;;
  card ← gets (fun s => findPhysicalCardInventoryIndexLocked (physicalCardInventory s) nextTenantID
                          (TrimSpace inventoryID) (TrimSpace cardNumber));
  '(nextInventoryID, nextCardNumber, nextVendorID, vendorName) ←
    match card with
    | Some (_, c) =>
        fail_if (negb (String.eqb (ciStatus c) "available")) ErrPhysicalCardInventoryNotFound;;
        mret (ciID c, ciCardNumber c, ciVendorID c, ciVendorName c)
    | None => mret (TrimSpace inventoryID, TrimSpace cardNumber, TrimSpace vendorID, "")
    end;
  vendorName ←
    (if negb (is_empty nextVendorID) && is_empty vendorName then
       v ← gets (fun s => findPhysicalCardVendorLocked (physicalCardVendors s) nextTenantID nextVendorID);
       match v with Some v => mret (cvName v) | None => throw ErrPhysicalCardVendorNotFound end
     else mret vendorName);
  let task := mkPhysicalCardTask id nextTenantID (psID p) (psTemplateID p) (psTargetType p) (psTargetID p)
                nextTaskType nextStatus nextCardNumber nextInventoryID nextVendorID vendorName (TrimSpace note)
                (psStatus p) None nextActor nextActor now now in
  match card with
  | Some (i, c) =>
      put_card i (c <| ciStatus := "reserved" |> <| ciAssignedPassID := psID p |> <| ciActiveTaskID := id |>
                    <| ciUpdatedAt := now |>)
  | None => mret tt
  end;;
  modify (fun s => s <| physicalCardTasks ::= cons task |>);;
  appendAuditLocked now nextTenantID "wallet.physical_card_task.create" nextActor id "success";;
  persistLocked;; mret task.

(** What a task does to its pass: a loss suspends it, a replacement activates it. *)
Definition task_moves_pass (now : Z) (tenantID nextStatus taskType actor : string) (pi : nat) (p : PassInstance) :
    m PassInstance :=
  let p1 := p <| psUpdatedBy := actor |> <| psUpdatedAt := now |> in
  if String.eqb nextStatus "reported_lost" && canTransitPassStatus (psStatus p) "suspended" then
    put_pass pi (p1 <| psStatus := "suspended" |>);;
    appendAuditLocked now tenantID "wallet.pass.suspended" actor (psID p) "success";;
    mret (p1 <| psStatus := "suspended" |>)
  else if String.eqb nextStatus "issued" && String.eqb taskType "reissue" && canTransitPassStatus (psStatus p) "active" then
    let p2 := p1 <| psStatus := "active" |> <| psActivatedAt := Some now |> in
    put_pass pi p2;;
    appendAuditLocked now tenantID "wallet.pass.active" actor (psID p) "success";;
    mret p2
  else mret p.

(** What a task does to its card. *)
Definition task_moves_card (now : Z) (nextStatus : string) (t : PhysicalCardTask) (c : PhysicalCardInventoryItem) :
    PhysicalCardInventoryItem :=
  let held (status : string) := c <| ciStatus := status |> <| ciAssignedPassID := ctPassID t |>
                                  <| ciActiveTaskID := ctID t |> in
  let c' :=
    if String.eqb nextStatus "issued" then held "issued"
    else if String.eqb nextStatus "reported_lost" then held "lost"
    else if String.eqb nextStatus "cancelled"
    then c <| ciStatus := "available" |> <| ciAssignedPassID := "" |> <| ciActiveTaskID := "" |>
    else if String.eqb (ciStatus c) "available" then held "reserved" else c in
  c' <| ciUpdatedAt := now |>.

Definition UpdatePhysicalCardTaskStatus (now : Z) (tenantID taskID status cardNumber note actor : string) :
    m PhysicalCardTask :=
  fail_if (is_empty (TrimSpace taskID)) ErrPhysicalCardTaskNotFound;;
  let nextTenantID := normalizeTenantID tenantID in
  let nextActor := normalizeActor actor in
  '(i, t) ← look physicalCardTasks ctID ctTenantID ErrPhysicalCardTaskNotFound nextTenantID (TrimSpace taskID);
  nextStatus ← lift (normalizePhysicalCardTaskStatus (ctTaskType t) status);
  fail_if (negb (canTransitPhysicalCardTaskStatus (ctTaskType t) (ctStatus t) nextStatus))
    ErrInvalidPhysicalCardTaskTransition;;
  '(pi, p) ← look_pass nextTenantID (ctPassID t);
  let t := t <| ctStatus := nextStatus |> <| ctUpdatedBy := nextActor |> <| ctUpdatedAt := now |>
             <| ctCardNumber ::= (fun x => if is_empty (TrimSpace cardNumber) then x else TrimSpace cardNumber) |>
             <| ctNote ::= (fun x => if is_empty (TrimSpace note) then x else TrimSpace note) |>
             <| ctCompletedAt ::= (fun x => if one_of ["issued";"reported_lost";"cancelled"] nextStatus
                                            then Some now else x) |> in
  p ← task_moves_pass now nextTenantID nextStatus (ctTaskType t) nextActor pi p;
  let t := t <| ctPassStatus := psStatus p |> in
  modify (fun s => s <| physicalCardTasks ::= <[i := t]> |>);;
  card ← gets (fun s => findPhysicalCardInventoryIndexLocked (physicalCardInventory s) nextTenantID
                          (ctInventoryID t) (ctCardNumber t));
  match card with
  | Some (ci, c) => put_card ci (task_moves_card now nextStatus t c)
  | None => mret tt
  end;;
  appendAuditLocked now nextTenantID "wallet.physical_card_task.status" nextActor (ctID t) "success";;
  persistLocked;; mret t.
End cards.

(** ** Cancelling twice *)

Lemma look_exec_bind {A B} (rows : Service → list A) id tenant e t k i x s (f : nat * A → m B) :
  findi (fun y => String.eqb (id y) k) (rows s) = Some (i, x) → tenant x = t →
  exec (look rows id tenant e t k ≫= f) s = exec (f (i, x)) s.
Proof.
  intros Hf Ht. unfold exec. rewrite bind_op_eq. unfold look. rewrite bind_gets, Hf, fail_if_bind, Ht, String.eqb_refl.
  done.
Qed.
Lemma normalize_cancelled ty : ty ∈ ["issue";"reissue";"loss_report"] →
  normalizePhysicalCardTaskStatus ty "cancelled" = Ok "cancelled"
  ∧ canTransitPhysicalCardTaskStatus ty "cancelled" "cancelled" = true.
Proof. rewrite !elem_of_cons, elem_of_nil. by intros [-> | [-> | [-> |[]]]]. Qed.

Section cancelling.
Context {MR : MapRange}.

(** A cancelled task may be cancelled again, and each time the card with its
    inventory id (or number) becomes available and is taken from whoever has it:
    also when it has been issued for another task since, or was scrapped. *)
Theorem cancel_frees_any_card now tenantID taskID note actor i t pi p ci c s :
  findi (fun x => String.eqb (ctID x) (TrimSpace taskID)) (physicalCardTasks s) = Some (i, t) →
  ctTenantID t = normalizeTenantID tenantID → is_empty (TrimSpace taskID) = false →
  ctStatus t = "cancelled" → ctTaskType t ∈ ["issue";"reissue";"loss_report"] →
  findi (fun x => String.eqb (psID x) (ctPassID t)) (passes s) = Some (pi, p) →
  psTenantID p = normalizeTenantID tenantID →
  findPhysicalCardInventoryIndexLocked (physicalCardInventory s) (normalizeTenantID tenantID) (ctInventoryID t)
    (ctCardNumber t) = Some (ci, c) →
  let s' := exec (UpdatePhysicalCardTaskStatus now tenantID taskID "cancelled" "" note actor) s in
  physicalCardInventory s' =
    <[ci := c <| ciStatus := "available" |> <| ciAssignedPassID := "" |> <| ciActiveTaskID := "" |>
              <| ciUpdatedAt := now |>]> (physicalCardInventory s)
  ∧ passes s' = passes s.
Proof.
  intros Ht Htt Hid Hst Hty Hp Hpt Hc. cbv zeta. destruct (normalize_cancelled _ Hty) as [Hn Hm].
  unfold UpdatePhysicalCardTaskStatus. rewrite exec_fail_if, Hid. cbv zeta.
  rewrite (look_exec_bind _ _ _ _ _ _ _ _ _ _ Ht Htt). rewrite exec_lift, Hn, exec_fail_if, Hst, Hm. simpl negb.
  cbv iota. unfold look_pass. rewrite (look_exec_bind _ _ _ _ _ _ _ _ _ _ Hp Hpt).
  assert (∀ t n ty ac pi (f : PassInstance → m PhysicalCardTask) s,
    n = "cancelled" → exec (task_moves_pass now t n ty ac pi p ≫= f) s = exec (f p) s) as Hk by (by intros * ->).
  rewrite Hk by done. rewrite exec_modify, exec_gets.
  match goal with |- context [findPhysicalCardInventoryIndexLocked (physicalCardInventory ?s1) ?x ?y ?z] =>
    change (findPhysicalCardInventoryIndexLocked (physicalCardInventory s1) x y z)
      with (findPhysicalCardInventoryIndexLocked (physicalCardInventory s) (normalizeTenantID tenantID)
              (ctInventoryID t) (ctCardNumber t)) end.
  rewrite Hc. unfold put_card at 1 2. rewrite exec_modify.
  match goal with |- context [exec ?f ?s1] => assert (quiet s1 (exec f s1)) as Hq by (apply (quiet_exec (f:=f))) end.
  split; [rewrite (quiet_inventory _ _ Hq)|rewrite (quiet_passes _ _ Hq)]; done.
Qed.
End cancelling.

(** Card C-1 was reserved by task T-1, freed when that was cancelled, and issued to
    another pass; cancelling T-1 again takes it away. *)
Definition ex_card (status pass task : string) : PhysicalCardInventoryItem :=
  mkPhysicalCardInventoryItem "C-1" "t" "0001" "" "" "" "manual" "" status pass task None 0 0.
Definition ex_wallet : Service :=
  mkService None [] [mkPassInstance "P-1" "t" "" "" "" "user" "u1" "" "" "" "" "" "active" "" "" 0 None None "" "" 0 0]
    [] [mkPhysicalCardTask "T-1" "t" "P-1" "" "user" "u1" "issue" "cancelled" "0001" "C-1" "" "" "" "active" (Some 0)
          "ops" "ops" 0 0]
    [] [ex_card "issued" "P-2" "T-2"] [] [] [] [] [] [] 0 "" "" ∅ None "" ∅ None "" "" "" None None None []
    (mkNetwork [] [] [] [] [] [] []).
#[local] Existing Instance sorted_range.

Lemma cancel_frees_any_card_witness :
  physicalCardInventory (exec (UpdatePhysicalCardTaskStatus 5 "t" "T-1" "cancelled" "" "" "ops") ex_wallet)
  = [(ex_card "available" "" "") <| ciUpdatedAt := 5 |>].
Proof.
  rewrite (proj1 (cancel_frees_any_card 5 "t" "T-1" "" "ops" 0 _ 0 _ 0 (ex_card "issued" "P-2" "T-2") ex_wallet
    eq_refl eq_refl eq_refl eq_refl ltac:(left) eq_refl eq_refl eq_refl)). reflexivity.
Defined.
