(* ===== verification/WalletJobs.v ===== *)
(** * Batch issuing of passes (modules/wallet/service_passes.go, service_jobs.go)

    A batch becomes one job per target.  [ProcessIssueJobs] claims the jobs that
    are due and hands them to a pool of workers; a failing job is tried again or
    put on the dead-letter queue (status "dlq"), from which it is queued again or
    removed.  The pool runs concurrently: a worker's locked sections are its
    steps, and a schedule picks who goes next. *)

From S2P Require Import Prelude GoStrings GoTime Bytes Encoding GoText WalletData WalletState Wallet.
#[local] Open Scope string_scope.
#[local] Open Scope list_scope.
#[local] Open Scope Z_scope.

Definition look_job := look jobs jobID jobTenantID ErrJobNotFound.
Definition put_job (i : nat) (j : IssueJob) : m unit := modify (fun s => s <| jobs ::= <[i := j]> |>).
Definition add_job (j : IssueJob) : m unit := modify (fun s => s <| jobs ::= cons j |>).

(** A call whose error the caller handles. *)
Definition catch {A} (f : m A) : m (result wallet_err A) := λ s, let '(s', r) := f s in (s', Ok r).

(** [int64(d.Seconds())], the float64 in between being exact for whole seconds and
    below 2^23 seconds. *)
Definition whole_seconds (d : Z) : Z := Z.quot d second.

Definition ListJobs (tenantID : string) (s : Service) : list IssueJob := of_tenant jobTenantID tenantID (jobs s).
Definition GetJob (tenantID job : string) : m IssueJob :=
  fail_if (is_empty (TrimSpace job)) ErrJobNotFound;;
  '(_, j) ← look_job (normalizeTenantID tenantID) (TrimSpace job); mret j.
Definition ListAuditLogs (tenantID : string) (s : Service) : list AuditLog := of_tenant alTenantID tenantID (auditLogs s).

(** [limit <= 0] means the default, and there is a cap. *)
Definition limited (default cap limit : Z) : Z := if limit <=? 0 then default else Z.min limit cap.
Definition ListDLQCleanupArchives (tenantID : string) (limit : Z) (s : Service) : list JobDLQCleanupArchive :=
  take (Z.to_nat (limited 20 500 limit)) (of_tenant dcaTenantID tenantID (dlqCleanupArchives s)).

(** ** Options *)

Definition normalizeJobDLQRequeueOptions (x : JobDLQRequeueOptions) : result wallet_err JobDLQRequeueOptions :=
  let limit := if rqoLimit x <=? 0 then 20 else rqoLimit x in
  if 500 <? limit then Err ErrInvalidJobDLQOptions
  else Ok (mkJobDLQRequeueOptions (normalizeTenantID (rqoTenantID x)) limit (TrimSpace (rqoErrorCode x))
             (TrimSpace (rqoTargetIDOverride x)) (normalizeActor (rqoActor x))).

Definition normalizeJobDLQCleanupOptions (x : JobDLQCleanupOptions) : result wallet_err JobDLQCleanupOptions :=
  let limit := if cloLimit x <=? 0 then 50 else cloLimit x in
  let older := if cloOlderThan x <=? 0 then 24 * hour else cloOlderThan x in
  if 1000 <? limit then Err ErrInvalidJobDLQOptions
  else if 365 * 24 * hour <? older then Err ErrInvalidJobDLQOptions
  else Ok (mkJobDLQCleanupOptions (normalizeTenantID (cloTenantID x)) limit (TrimSpace (cloErrorCode x)) older
             (normalizeActor (cloActor x))).

Definition normalizeJobProcessOptions (x : JobProcessOptions) : result wallet_err JobProcessOptions :=
  let limit := if jpoLimit x <=? 0 then 20 else jpoLimit x in
  let workers := if jpoWorkerCount x <=? 0 then 2 else jpoWorkerCount x in
  let maxRetry := if jpoMaxRetry x =? 0 then 3 else jpoMaxRetry x in
  let base := if jpoBaseBackoff x =? 0 then 200 * millisecond else jpoBaseBackoff x in
  let max := if jpoMaxBackoff x =? 0 then 5 * second else jpoMaxBackoff x in
  if (500 <? limit) || (32 <? workers) || (jpoMaxRetry x <? 0) || (20 <? maxRetry)
     || (jpoBaseBackoff x <? 0) || (jpoMaxBackoff x <? 0) || (max <? base)
  then Err ErrInvalidJobProcessOptions
  else Ok (mkJobProcessOptions (normalizeTenantID (jpoTenantID x)) limit workers maxRetry base max
             (normalizeActor (jpoActor x))).

(** ** The states of a job *)

Definition isAutoRetryableJob (j : IssueJob) (maxRetry : Z) : bool :=
  String.eqb (jobStatus j) "failed" && String.eqb (TrimSpace (jobErrorCode j)) "issue_failed"
  && (jobRetryCount j <? maxRetry).
Definition processable (tenantID : string) (maxRetry : Z) (j : IssueJob) : bool :=
  String.eqb (jobTenantID j) tenantID && (String.eqb (jobStatus j) "pending" || isAutoRetryableJob j maxRetry).

Definition clear_error (j : IssueJob) : IssueJob := j <| jobErrorCode := "" |> <| jobErrorMessage := "" |>.

(** The loop of [claimProcessableJobsLocked] over the jobs, [room] of the limit left. *)
Fixpoint claim_from (now : Z) (tenantID : string) (maxRetry : Z) (room : nat) (l : list IssueJob) :
    list IssueJob * list string :=
  match l with
  | [] => ([], [])
  | j :: l' =>
      match room with
      | O => (l, [])
      | S room' =>
          if processable tenantID maxRetry j then
            let j' := clear_error (j
              <| jobRetryCount ::= (fun n => if String.eqb (jobStatus j) "pending" then n else n + 1) |>
              <| jobStatus := "processing" |> <| jobUpdatedAt := now |>) in
            let '(rest, ids) := claim_from now tenantID maxRetry room' l' in (j' :: rest, jobID j :: ids)
          else
            let '(rest, ids) := claim_from now tenantID maxRetry room l' in (j :: rest, ids)
      end
  end.
Definition claimProcessableJobsLocked (now : Z) (tenantID : string) (limit maxRetry : Z) : m (list string) := λ s,
  let '(l, ids) := claim_from now tenantID maxRetry (Z.to_nat limit) (jobs s) in (s <| jobs := l |>, Ok ids).

Definition countProcessableJobs (tenantID : string) (maxRetry : Z) (s : Service) : Z :=
  Z.of_nat (length (filterb (processable tenantID maxRetry) (jobs s))).
Definition dlq_of (tenantID : string) (j : IssueJob) : bool :=
  String.eqb (jobTenantID j) tenantID && String.eqb (jobStatus j) "dlq".
Definition countDLQJobsByTenantLocked (items : list IssueJob) (tenantID : string) : Z :=
  Z.of_nat (length (filterb (dlq_of tenantID) items)).

Definition resolveJobFailureStatus (j : IssueJob) (errorCode : string) (retryable : bool) (maxRetry : Z) : string :=
  if negb retryable then "dlq"
  else if negb (String.eqb (TrimSpace errorCode) "issue_failed") then "dlq"
  else if (if maxRetry <=? 0 then 3 else maxRetry) <=? jobRetryCount j then "dlq"
  else "failed".

(** [delay *= 2] on an [int64], [n] iterations left. *)
Fixpoint backoff_loop (n : nat) (delay max : Z) : Z :=
  match n with
  | O => if max <? delay then max else delay
  | S n' => let delay := wrap64 (delay * 2) in if max <=? delay then max else backoff_loop n' delay max
  end.
Definition exponentialBackoff (retryCount base max : Z) : Z :=
  if (retryCount <=? 0) || (base <=? 0) then 0 else backoff_loop (Z.to_nat (retryCount - 1)) base max.

Section jobs.
Context {MR : MapRange} {DG : Digest}.

(** ** Creating jobs *)

Definition new_job (now : Z) (id tenantID batchID templateID targetType targetID expiresAt : string)
    (template : PassTemplate) : IssueJob :=
  let j := mkIssueJob id tenantID (firstNonEmpty [tplProvider template; "google"]) batchID templateID targetType
             targetID (TrimSpace expiresAt) "" "pending" 0 "" "" now now in
  if is_empty targetID
  then j <| jobStatus := "failed" |> <| jobErrorCode := "target_id_required" |>
         <| jobErrorMessage := Error ErrTargetIDRequired |>
  else j.

Fixpoint batch_jobs (now : Z) (issue_now : bool) (tenantID batchID templateID targetType : string)
    (template : PassTemplate) (expiresAt actor : string) (targetIDs : list string) : m (list IssueJob) :=
  match targetIDs with
  | [] => mret []
  | raw :: rest =>
      let targetID := TrimSpace raw in
      id ← walletID "wjb_";
      let job := new_job now id tenantID batchID templateID targetType targetID expiresAt template in
      job ←
        (if is_empty targetID || negb issue_now then mret job
         else
           made ← catch (createPassRecord now tenantID template targetType targetID "" "" (TrimSpace expiresAt) actor);
           match made with
           | Err e => mret (job <| jobStatus := "failed" |> <| jobErrorCode := "issue_failed" |>
                                <| jobErrorMessage := Error e |>)
           | Ok record =>
               modify (fun s => s <| passes ::= cons record |>);;
               mret (job <| jobStatus := "success" |> <| jobPassID := psID record |>)
           end);
      add_job job;;
      jobs' ← batch_jobs now issue_now tenantID batchID templateID targetType template expiresAt actor rest;
      mret (job :: jobs')
  end.

(** [IssuePassBatch] issues at once, [IssuePassBatchQueued] leaves the jobs pending. *)
Definition issue_batch (now : Z) (issue_now : bool) (action tenantID templateID targetType : string)
    (targetIDs : list string) (expiresAt actor : string) : m (list IssueJob) :=
  fail_if (is_empty (TrimSpace templateID)) ErrTemplateIDRequired;;
  nextTargetType ← lift (normalizeTargetType targetType);
  fail_if (match targetIDs with [] => true | _ => false end) ErrTargetIDsRequired;;
  batchID ← walletID "wbt_";
  let nextActor := normalizeActor actor in
  let nextTenantID := normalizeTenantID tenantID in
  template ← usable_template nextTenantID (TrimSpace templateID);
  jobs' ← batch_jobs now issue_now nextTenantID batchID (TrimSpace templateID) nextTargetType template expiresAt
            nextActor targetIDs;
  appendAuditLocked now nextTenantID action nextActor batchID "success";;
  persistLocked;; mret jobs'.
Definition IssuePassBatch (now : Z) := issue_batch now true "wallet.pass.issue_batch".
Definition IssuePassBatchQueued (now : Z) := issue_batch now false "wallet.pass.issue_batch_queued".

(** ** One job by hand *)

(** The job changed, audited and saved. *)
Definition settle_job (now : Z) (tenantID action actor auditResult : string) (i : nat) (j : IssueJob) : m IssueJob :=
  put_job i j;;
  appendAuditLocked now tenantID action actor (jobID j) auditResult;;
  persistLocked;; mret j.

Definition RetryJob (now : Z) (tenantID job targetID actor : string) : m IssueJob :=
  fail_if (is_empty (TrimSpace job)) ErrJobNotFound;;
  let nextTenantID := normalizeTenantID tenantID in
  let nextActor := normalizeActor actor in
  '(i, j) ← look_job nextTenantID (TrimSpace job);
  fail_if (String.eqb (jobStatus j) "success") ErrJobRetryNotAllowed;;
  fail_if (is_empty (TrimSpace (jobTemplateID j))) ErrTemplateIDRequired;;
  template ← usable_template nextTenantID (TrimSpace (jobTemplateID j));
  let retryTargetID := if is_empty (TrimSpace targetID) then TrimSpace (jobTargetID j) else TrimSpace targetID in
  let j := clear_error (j <| jobRetryCount ::= Z.add 1 |> <| jobUpdatedAt := now |>
                          <| jobTargetID := retryTargetID |>) in
  let failed (code text : string) :=
    j <| jobStatus := "failed" |> <| jobErrorCode := code |> <| jobErrorMessage := text |> in
  if is_empty retryTargetID then
    settle_job now nextTenantID "wallet.job.retry" nextActor "failed" i
      (failed "target_id_required" (Error ErrTargetIDRequired))
  else
    made ← catch (createPassRecord now nextTenantID template (jobTargetType j) retryTargetID "" "" (jobExpiresAt j)
                    nextActor);
    match made with
    | Err e =>
        settle_job now nextTenantID "wallet.job.retry" nextActor "failed" i (failed "issue_failed" (Error e))
    | Ok record =>
        modify (fun s => s <| passes ::= cons record |>);;
        settle_job now nextTenantID "wallet.job.retry" nextActor "success" i
          (j <| jobPassID := psID record |> <| jobStatus := "success" |>)
    end.

(** Back from the dead-letter queue. *)
Definition requeued (now : Z) (targetID : string) (j : IssueJob) : IssueJob :=
  clear_error (j <| jobTargetID := targetID |> <| jobStatus := "pending" |> <| jobRetryCount := 0 |>
                 <| jobUpdatedAt := now |>).

Definition RequeueDLQJob (now : Z) (tenantID job targetID actor : string) : m IssueJob :=
  fail_if (is_empty (TrimSpace job)) ErrJobNotFound;;
  let nextTenantID := normalizeTenantID tenantID in
  '(i, j) ← look_job nextTenantID (TrimSpace job);
  fail_if (negb (String.eqb (jobStatus j) "dlq")) ErrJobNotInDLQ;;
  let target := if is_empty (TrimSpace targetID) then jobTargetID j else TrimSpace targetID in
  fail_if (is_empty (TrimSpace target)) ErrTargetIDRequired;;
  settle_job now nextTenantID "wallet.job.dlq_requeue" (normalizeActor actor) "success" i (requeued now target j).

(** ** The dead-letter queue *)

(** The jobs of a request: the tenant's dead letters, with the error code if one is given. *)
Definition dlq_selected (tenantID errorCode : string) (j : IssueJob) : bool :=
  dlq_of tenantID j && (is_empty errorCode || String.eqb (TrimSpace (jobErrorCode j)) errorCode).

Fixpoint requeue_loop (now : Z) (o : JobDLQRequeueOptions) (indexes : list nat) (r : JobDLQRequeueResult) :
    m JobDLQRequeueResult :=
  match indexes with
  | [] => mret r
  | i :: rest =>
      if rqoLimit o <=? rqrRequeued r then mret r
      else
        j ← gets (fun s => jobs s !! i);
        match j with
        | None => mret r
        | Some j =>
            if negb (dlq_selected (rqoTenantID o) (rqoErrorCode o) j) then requeue_loop now o rest r
            else
              let target := if is_empty (rqoTargetIDOverride o) then TrimSpace (jobTargetID j)
                            else rqoTargetIDOverride o in
              let r := r <| rqrProcessedJobs ::= (fun l => l ++ [jobID j]) |> in
              if is_empty target then requeue_loop now o rest (r <| rqrSkipped ::= Z.add 1 |>)
              else
                put_job i (requeued now target j);;
                appendAuditLocked now (jobTenantID j) "wallet.job.dlq_requeue_batch" (rqoActor o) (jobID j) "success";;
                requeue_loop now o rest (r <| rqrRequeued ::= Z.add 1 |>)
        end
  end.

Definition RequeueDLQJobs (now : Z) (options : JobDLQRequeueOptions) : m JobDLQRequeueResult :=
  o ← lift (normalizeJobDLQRequeueOptions options);
  n ← gets (fun s => length (jobs s));
  r ← requeue_loop now o (seq 0 n) (mkJobDLQRequeueResult (rqoTenantID o) (rqoLimit o) 0 0 0 [] now);
  remaining ← gets (fun s => countDLQJobsByTenantLocked (jobs s) (rqoTenantID o));
  persistLocked;; mret (r <| rqrRemainingDLQ := remaining |>).

(** The jobs kept and the ids removed, [room] of the limit left; a job must not have
    changed after the cutoff. *)
Fixpoint cleanup_from (tenantID errorCode : string) (cutoff : Z) (room : nat) (l : list IssueJob) :
    list IssueJob * list IssueJob :=
  match l with
  | [] => ([], [])
  | j :: l' =>
      match room with
      | O => (l, [])
      | S room' =>
          if dlq_selected tenantID errorCode j && negb (After (jobUpdatedAt j) cutoff)
          then let '(kept, gone) := cleanup_from tenantID errorCode cutoff room' l' in (kept, j :: gone)
          else let '(kept, gone) := cleanup_from tenantID errorCode cutoff room l' in (j :: kept, gone)
      end
  end.

Fixpoint audit_all (now : Z) (action actor : string) (l : list IssueJob) : m unit :=
  match l with
  | [] => mret tt
  | j :: l' => appendAuditLocked now (jobTenantID j) action actor (jobID j) "success";; audit_all now action actor l'
  end.

Definition appendDLQCleanupArchiveLocked (now : Z) (o : JobDLQCleanupOptions) (r : JobDLQCleanupResult) : m unit :=
  id ← walletID_or "wdca_" now;
  modify (fun s => s <| dlqCleanupArchives ::= (fun l => take 2000
    (mkJobDLQCleanupArchive id (cloTenantID o) (cloLimit o) (TrimSpace (cloErrorCode o))
       (whole_seconds (cloOlderThan o)) (normalizeActor (cloActor o)) (clrRemoved r) (clrRemainingDLQ r)
       (clrProcessedJobs r) now :: l)) |>).

Definition CleanupDLQJobs (now : Z) (options : JobDLQCleanupOptions) : m JobDLQCleanupResult :=
  o ← lift (normalizeJobDLQCleanupOptions options);
  '(kept, gone) ← gets (fun s => cleanup_from (cloTenantID o) (cloErrorCode o) (now - cloOlderThan o)
                                   (Z.to_nat (cloLimit o)) (jobs s));
  audit_all now "wallet.job.dlq_cleanup" (cloActor o) gone;;
  modify (fun s => s <| jobs := kept |>);;
  let r := mkJobDLQCleanupResult (cloTenantID o) (cloLimit o) (Z.of_nat (length gone))
             (countDLQJobsByTenantLocked kept (cloTenantID o)) (jobID <$> gone) now in
  appendDLQCleanupArchiveLocked now o r;;
  persistLocked;; mret r.
End jobs.

(** ** The wait before a retry *)

Lemma wallet_backoff_loop_closed n d mx :
  0 < d <= mx → mx < 2 ^ 62 → backoff_loop n d mx = Z.min (d * 2 ^ Z.of_nat n) mx.
Proof.
  revert d; induction n as [|n IH]; intros d Hd Hm; cbn [backoff_loop].
  - rewrite Z.mul_1_r. destruct (Z.ltb_spec mx d); lia.
  - rewrite wrap64_small by (unfold min_int64, max_int64; lia). rewrite Nat2Z.inj_succ, Z.pow_succ_r by lia.
    assert (0 < 2 ^ Z.of_nat n) by lia. destruct (Z.leb_spec mx (d * 2)); [nia|]. rewrite IH by lia. f_equal. lia.
Qed.

(** The wait before the [n]-th retry is [base * 2^(n-1)] capped at [max], for the
    options [ProcessIssueJobs] accepts as long as the cap stays below 2^62 ns (146
    years); at 2^62 the doubling wraps and the wait is negative, that is none. *)
Theorem wallet_backoff n base mx :
  0 < base <= mx →
  (mx < 2 ^ 62 → exponentialBackoff n base mx = if n <=? 0 then 0 else Z.min (base * 2 ^ (n - 1)) mx)
  ∧ exponentialBackoff 2 (2 ^ 62) (2 ^ 62) = min_int64.
Proof.
  intros Hb. split; [|reflexivity]. intros Hm. unfold exponentialBackoff. destruct (Z.leb_spec n 0); [done|].
  rewrite (proj2 (Z.leb_gt base 0)) by lia. simpl. rewrite wallet_backoff_loop_closed by lia. by rewrite Z2Nat.id by lia.
Qed.

Lemma wallet_backoff_witness : exponentialBackoff 3 (200 * millisecond) (5 * second) = 800 * millisecond.
Proof.
  destruct (wallet_backoff 3 (200 * millisecond) (5 * second)) as [H _]; [vm_compute; split; congruence|].
  rewrite H; [reflexivity|vm_compute; congruence].
Defined.
