(* ===== verification/WalletPool.v ===== *)
(** * The workers of the issuing queue (modules/wallet/service_jobs.go, [ProcessIssueJobs])

    The claimed ids go into a channel that is closed at once; each worker takes
    an id, reads the job, waits when it was tried before, reads the template, makes
    the pass and settles the job.  A step of a worker is what it does between two points where another
    goroutine can come in: one locked section, or one local computation.  Other
    calls of the service may run between any two steps.  The results: the pool
    stops under every interleaving, with one outcome per claimed job. *)

From S2P Require Import Prelude GoStrings GoTime Bytes Encoding GoText WalletData WalletState Wallet WalletJobs.
#[local] Open Scope string_scope.
#[local] Open Scope list_scope.
#[local] Open Scope Z_scope.

Record jobProcessOutcome := mkOutcome { ocJobID : string; ocStatus : string; ocRetried : bool }.

(** Where a worker is in [processClaimedIssueJob]. *)
Inductive worker :=
| Idle
| Took (id : string)
| Loaded (id : string) (j : IssueJob)
| Issuing (id : string) (j : IssueJob) (template : PassTemplate)
| Settling (id : string) (retried : bool) (record : PassInstance)
| Failing (id : string) (retried : bool) (code text : string) (retryable : bool)
| Stopped.

Record pool := mkPool {
  svc : Service; jobCh : list string; workers : list worker; outcomeCh : list jobProcessOutcome
}.

Section pool.
Context {MR : MapRange} {DG : Digest}.

(** [s.setJobFailure(...)]: the job's status is not looked at; the save's error is dropped. *)
Definition setJobFailure (now : Z) (job errorCode errorMessage actor : string) (retryable : bool) (maxRetry : Z) :
    m string :=
  found ← gets (fun s => findi (fun j => String.eqb (jobID j) job) (jobs s));
  match found with
  | None => mret "skipped"
  | Some (i, j) =>
      let status := resolveJobFailureStatus j (TrimSpace errorCode) retryable maxRetry in
      put_job i (j <| jobStatus := status |> <| jobErrorCode := TrimSpace errorCode |>
                   <| jobErrorMessage := TrimSpace errorMessage |> <| jobUpdatedAt := now |>);;
      appendAuditLocked now (jobTenantID j) "wallet.job.process" (normalizeActor actor) (jobID j)
        (if String.eqb status "dlq" then "dlq" else "failed");;
      ignore_err persistLocked;;
      mret status
  end.

(** [s.setJobSuccess(...)]: a job that is no longer processing is left alone. *)
Definition setJobSuccess (now : Z) (job : string) (record : PassInstance) (actor : string) : m unit :=
  found ← gets (fun s => findi (fun j => String.eqb (jobID j) job) (jobs s));
  match found with
  | None => throw ErrJobNotFound
  | Some (i, j) =>
      if negb (String.eqb (jobStatus j) "processing") then mret tt
      else
        modify (fun s => s <| passes ::= cons record |>);;
        put_job i (clear_error (j <| jobPassID := psID record |> <| jobStatus := "success" |>
                                  <| jobUpdatedAt := now |>));;
        appendAuditLocked now (jobTenantID j) "wallet.job.process" (normalizeActor actor) (jobID j) "success";;
        persistLocked
  end.

(** What a failing call settles for: its answer, [d] on an error. *)
Definition answer_or {A} (d : A) (r : result wallet_err A) : A := match r with Ok a => a | Err _ => d end.

(** One step of a worker: where it is next, what is left of the channel, the
    state, and the outcome it sends. *)
Definition worker_step (now : Z) (o : JobProcessOptions) (w : worker) (ch : list string) (s : Service) :
    worker * list string * Service * option jobProcessOutcome :=
  match w with
  | Idle => match ch with [] => (Stopped, [], s, None) | id :: ch' => (Took id, ch', s, None) end
  | Took id =>
      match findi (fun j => String.eqb (jobID j) id) (jobs s) with
      | None => (Idle, ch, s, Some (mkOutcome id "skipped" false))
      | Some (_, j) =>
          if negb (String.eqb (jobStatus j) "processing") then (Idle, ch, s, Some (mkOutcome id "skipped" false))
          else (Loaded id j, ch, s, None)
      end
  | Loaded id j =>
      let retried := 0 <? jobRetryCount j in
      let failing (code : string) (e : wallet_err) := (Failing id retried code (Error e) false, ch, s, None) in
      if is_empty (TrimSpace (jobTargetID j)) then failing "target_id_required" ErrTargetIDRequired
      else match findTemplateByID (templates s) (TrimSpace (jobTemplateID j)) with
      | None => failing "template_not_found" ErrTemplateNotFound
      | Some t =>
          if negb (String.eqb (tplTenantID t) (jpoTenantID o)) then failing "template_not_found" ErrTemplateNotFound
          else if negb (String.eqb (tplStatus t) "active") then failing "template_inactive" ErrTemplateInactive
          else (Issuing id j t, ch, s, None)
      end
  | Issuing id j t =>
      let retried := 0 <? jobRetryCount j in
      match createPassRecord now (jpoTenantID o) t (jobTargetType j) (jobTargetID j) "" "" (jobExpiresAt j)
              (jpoActor o) s with
      | (s', Err e) => (Failing id retried "issue_failed" (Error e) true, ch, s', None)
      | (s', Ok record) => (Settling id retried record, ch, s', None)
      end
  | Failing id retried code text retryable =>
      let '(s', r) := setJobFailure now id code text (jpoActor o) retryable (jpoMaxRetry o) s in
      (Idle, ch, s', Some (mkOutcome id (answer_or "skipped" r) retried))
  | Settling id retried record =>
      let '(s', r) := setJobSuccess now id record (jpoActor o) s in
      (Idle, ch, s', Some (mkOutcome id (if is_ok r then "success" else "failed") retried))
  | Stopped => (Stopped, ch, s, None)
  end.

Definition running (w : worker) : bool := match w with Stopped => false | _ => true end.
Definition finished (p : pool) : bool := forallb (fun w => negb (running w)) (workers p).

(** Worker [k] takes a step; nothing happens when it has stopped. *)
Definition step_pool (now : Z) (o : JobProcessOptions) (k : nat) (p : pool) : pool :=
  match workers p !! k with
  | None => p
  | Some w =>
      let '(w', ch, s, out) := worker_step now o w (jobCh p) (svc p) in
      mkPool s ch (<[k := w']> (workers p)) (outcomeCh p ++ match out with Some r => [r] | None => [] end)
  end.

(** The steps left at most: five per waiting job, and what the workers have begun. *)
Definition steps_left_of (w : worker) : nat :=
  match w with
  | Stopped => 0 | Idle => 1 | Failing _ _ _ _ _ | Settling _ _ _ => 2 | Issuing _ _ _ => 3 | Loaded _ _ => 4
  | Took _ => 5
  end.
Definition steps_left (p : pool) : nat := 5 * length (jobCh p) + sum_list_with steps_left_of (workers p).

(** The scheduler gives, for the [n]-th step, a worker among those still running
    and the clock. *)
Definition runnable (p : pool) : list nat :=
  filterb (fun k => match workers p !! k with Some w => running w | None => false end) (seq 0 (length (workers p))).
Definition scheduled (choice : nat) (p : pool) : nat :=
  let r := runnable p in default 0%nat (r !! (choice mod length r)%nat).
Fixpoint run_pool (fuel : nat) (schedule : nat → nat * Z) (o : JobProcessOptions) (p : pool) : pool :=
  match fuel with
  | O => p
  | S fuel' =>
      if finished p then p
      else let '(choice, now) := schedule fuel' in
           run_pool fuel' schedule o (step_pool now o (scheduled choice p) p)
  end.

(** The counters of the result, from the outcomes in the order they were sent. *)
Definition tally (r : JobProcessResult) (oc : jobProcessOutcome) : JobProcessResult :=
  let r := r <| jprProcessedJobIDs ::= (fun l => l ++ [ocJobID oc]) |>
             <| jprRetried ::= (fun n => if ocRetried oc then n + 1 else n) |> in
  if String.eqb (ocStatus oc) "success" then r <| jprSucceeded ::= Z.add 1 |>
  else if String.eqb (ocStatus oc) "failed" then r <| jprFailed ::= Z.add 1 |>
  else if String.eqb (ocStatus oc) "dlq" then r <| jprDLQ ::= Z.add 1 |>
  else r <| jprSkipped ::= Z.add 1 |>.

(** The pool as [ProcessIssueJobs] starts it on the claimed ids. *)
Definition start_pool (o : JobProcessOptions) (claimed : list string) (s : Service) : pool :=
  mkPool s claimed (replicate (Nat.min (Z.to_nat (jpoWorkerCount o)) (length claimed)) Idle) [].

Definition ProcessIssueJobs (now : Z) (schedule : nat → nat * Z) (options : JobProcessOptions) : m JobProcessResult :=
  o ← lift (normalizeJobProcessOptions options);
  claimed ← claimProcessableJobsLocked now (jpoTenantID o) (jpoLimit o) (jpoMaxRetry o);
  let result := mkJobProcessResult (jpoTenantID o) (jpoLimit o) (jpoWorkerCount o) (jpoMaxRetry o)
                  (Z.of_nat (length claimed)) 0 0 0 0 0 0 [] now now in
  ran ← ((λ s, let p := start_pool o claimed s in
               let p := run_pool (steps_left p) schedule o p in (svc p, Ok (outcomeCh p))) : m (list jobProcessOutcome));
  pending ← gets (countProcessableJobs (jpoTenantID o) (jpoMaxRetry o));
  mret (fold_left tally ran result <| jprPendingAfter := pending |>).
End pool.

(** ** Termination *)

(** The id a worker holds. *)
Definition held (w : worker) : option string :=
  match w with
  | Idle | Stopped => None
  | Took id | Loaded id _ | Issuing id _ _ | Settling id _ _ | Failing id _ _ _ _ => Some id
  end.

(** Every claimed id, wherever it is by now. *)
Definition accounted (p : pool) : list string :=
  jobCh p ++ omap held (workers p) ++ (ocJobID <$> outcomeCh p).

Lemma split_lookup {A} (l : list A) k x :
  l !! k = Some x → ∃ l1 l2, l = l1 ++ x :: l2 ∧ ∀ y, <[k := y]> l = l1 ++ y :: l2.
Proof.
  intros Hl. exists (take k l), (drop (S k) l). pose proof (take_drop_middle l k x Hl) as Hs.
  split; [done|]. intros y. rewrite <- Hs at 1. pose proof (lookup_lt_Some _ _ _ Hl).
  rewrite insert_app_r_alt; rewrite length_take, Nat.min_l by lia; [|done]. by rewrite Nat.sub_diag.
Qed.

Section termination.
Context {MR : MapRange} {DG : Digest}.

Lemma worker_step_accounts now o w ch s w' ch' s' out :
  running w = true → worker_step now o w ch s = (w', ch', s', out) →
  (ch ++ option_list (held w) ≡ₚ ch' ++ option_list (held w') ++ option_list (ocJobID <$> out))
  ∧ (5 * length ch' + steps_left_of w' < 5 * length ch + steps_left_of w)%nat.
Proof.
  intros Hr. destruct w; simpl in *; try done.
  - destruct ch; intros [= <- <- <- <-]; simpl; split; [done|lia|solve_Permutation|lia].
  - destruct (findi _ (jobs s)) as [[i j]|]; [destruct (negb _)|]; intros [= <- <- <- <-];
      simpl; split; solve [solve_Permutation | lia].
  - destruct (is_empty _); [|destruct (findTemplateByID _ _); [destruct (negb _); [|destruct (negb _)]|]];
      intros [= <- <- <- <-]; simpl; split; solve [solve_Permutation | lia].
  - destruct (createPassRecord _ _ _ _ _ _ _ _ _ s) as [s1 [r|e]]; intros [= <- <- <- <-];
      simpl; split; solve [solve_Permutation | lia].
  - destruct (setJobSuccess _ _ _ _ s) as [s1 r]; intros [= <- <- <- <-];
      simpl; split; solve [solve_Permutation | lia].
  - destruct (setJobFailure _ _ _ _ _ _ _ s) as [s1 r]; intros [= <- <- <- <-];
      simpl; split; solve [solve_Permutation | lia].
Qed.

Lemma step_pool_accounts now o k p w :
  workers p !! k = Some w → running w = true →
  accounted (step_pool now o k p) ≡ₚ accounted p
  ∧ (steps_left (step_pool now o k p) < steps_left p)%nat
  ∧ length (workers (step_pool now o k p)) = length (workers p).
Proof.
  intros Hk Hr. unfold step_pool. rewrite Hk.
  destruct (worker_step now o w (jobCh p) (svc p)) as [[[w' ch'] s'] out] eqn:He.
  destruct (worker_step_accounts _ _ _ _ _ _ _ _ _ Hr He) as [Hp Hm].
  destruct (split_lookup _ _ _ Hk) as (l1 & l2 & Hl & Hi). unfold accounted, steps_left. cbn [jobCh workers outcomeCh].
  split_and!; [|rewrite Hi, Hl, !sum_list_with_app; simpl; lia|by rewrite length_insert].
  rewrite Hi, Hl, !omap_app.
  assert (∀ v, omap held (v :: l2) = option_list (held v) ++ omap held l2) as Ho
    by (intros v; simpl; by destruct (held v)).
  rewrite !Ho.
  assert ((ocJobID <$> (outcomeCh p ++ match out with Some r => [r] | None => [] end))
          = (ocJobID <$> outcomeCh p) ++ option_list (ocJobID <$> out)) as -> by (rewrite fmap_app; by destruct out).
  trans ((ch' ++ option_list (held w') ++ option_list (ocJobID <$> out)) ++ omap held l1 ++ omap held l2
         ++ (ocJobID <$> outcomeCh p)); [solve_Permutation|].
  rewrite <- Hp. solve_Permutation.
Qed.

(** A worker that has stopped saw the channel empty, and it stays empty. *)
Definition drained (p : pool) : Prop := Stopped ∈ workers p → jobCh p = [].

Lemma step_pool_drained now o k p : drained p → drained (step_pool now o k p).
Proof.
  unfold drained, step_pool. intros Hd. destruct (workers p !! k) as [w|] eqn:Hk; [|done].
  destruct (worker_step now o w (jobCh p) (svc p)) as [[[w' ch'] s'] out] eqn:He. simpl. intros Hin.
  assert (jobCh p = [] → ch' = []) as Hch.
  { intros Hn. rewrite Hn in He. clear -He. destruct w; simpl in He; repeat case_match; congruence. }
  destruct (split_lookup _ _ _ Hk) as (l1 & l2 & Hl & Hi). rewrite Hi in Hin. rewrite Hl in Hd.
  apply elem_of_app in Hin as [Hin|[Hin|Hin]%elem_of_cons]; [apply Hch, Hd; set_solver| |apply Hch, Hd; set_solver].
  subst w'. destruct w; simpl in He; repeat case_match; try congruence. apply Hch, Hd. set_solver.
Qed.

(** An execution: steps of the running workers, counted, and in between any
    change of the service by other calls. *)
Inductive runs (o : JobProcessOptions) : nat → pool → pool → Prop :=
| runs_start p : runs o 0 p p
| runs_work n p p' k w now :
    runs o n p p' → workers p' !! k = Some w → running w = true → runs o (S n) p (step_pool now o k p')
| runs_other n p p' s : runs o n p p' → runs o n p (mkPool s (jobCh p') (workers p') (outcomeCh p')).

Lemma runs_accounts o n p p' :
  runs o n p p' →
  accounted p' ≡ₚ accounted p ∧ (n + steps_left p' <= steps_left p)%nat
  ∧ length (workers p') = length (workers p) ∧ (drained p → drained p').
Proof.
  induction 1 as [p|n p p' k w now Hr (IH1 & IH2 & IH3 & IH4) Hk Hw|n p p' s Hr IH]; [split_and!; [done|lia|done|done]| |done].
  destruct (step_pool_accounts now o k p' w Hk Hw) as (H1 & H2 & H3). split_and!.
  - by rewrite H1.
  - lia.
  - by rewrite H3.
  - intros Hd. by apply step_pool_drained, IH4.
Qed.

Lemma finished_false p : finished p = false → ∃ k w, workers p !! k = Some w ∧ running w = true.
Proof.
  unfold finished. induction (workers p) as [|w l IH]; simpl; [done|]. destruct (running w) eqn:E.
  - intros _. by exists 0%nat, w.
  - intros H. destruct (IH H) as (k & w' & ? & ?). by exists (S k), w'.
Qed.

Lemma finished_true p : finished p = true → omap held (workers p) = [] ∧ (workers p ≠ [] → Stopped ∈ workers p).
Proof.
  unfold finished. induction (workers p) as [|w l IH]; simpl; [done|]. intros [Hw Hl]%andb_true_iff.
  destruct w; try done. simpl. split; [by apply IH|]. intros _. left.
Qed.

Lemma start_accounts o claimed s :
  accounted (start_pool o claimed s) = claimed ∧ drained (start_pool o claimed s)
  ∧ (steps_left (start_pool o claimed s) <= 6 * length claimed)%nat
  ∧ (1 <= jpoWorkerCount o → claimed ≠ [] → workers (start_pool o claimed s) ≠ []).
Proof.
  unfold start_pool, accounted, drained, steps_left. simpl. set (n := Nat.min _ _).
  assert (n <= length claimed)%nat by lia. split_and!.
  - assert (omap held (replicate n Idle) = []) as -> by (induction n as [|n IH]; [done|]; apply IH; lia).
    by rewrite app_nil_r.
  - intros [Hs _]%elem_of_replicate. done.
  - assert (sum_list_with steps_left_of (replicate n Idle) = n) as -> by (clear; induction n; simpl; lia). lia.
  - intros H1 H2. destruct claimed as [|c l]; [done|]. subst n. simpl.
    destruct (Z.to_nat (jpoWorkerCount o)) eqn:E; [lia|]. simpl. done.
Qed.

(** At the end the channel is empty and every id has its outcome. *)
Lemma finished_accounts o claimed s n p :
  1 <= jpoWorkerCount o → runs o n (start_pool o claimed s) p → finished p = true →
  jobCh p = [] ∧ (ocJobID <$> outcomeCh p) ≡ₚ claimed.
Proof.
  intros Ho Hr [Hh Hs]%finished_true. destruct (runs_accounts _ _ _ _ Hr) as (H1 & H2 & H3 & H4).
  destruct (start_accounts o claimed s) as (S1 & S2 & S3 & S4). rewrite S1 in H1.
  destruct (decide (claimed = [])) as [->|Hc].
  - symmetry in H1. apply Permutation_nil_l in H1. unfold accounted in H1.
    destruct (app_eq_nil _ _ (eq_sym H1)) as [-> [_ ->]%app_eq_nil]. done.
  - assert (workers p ≠ []) as Hne.
    { intros E. specialize (S4 Ho Hc). rewrite E in H3. symmetry in H3. by apply nil_length_inv in H3. }
    unfold accounted in H1. rewrite Hh, (H4 S2 (Hs Hne)) in H1. split; [exact (H4 S2 (Hs Hne))|exact H1].
Qed.

(** C31: The workers stop whatever the other calls do and however they interleave: an
    execution has at most six worker steps per claimed job, a pool that is not
    finished can step, and when it is finished the channel is empty and there is
    exactly one outcome per claimed job. *)
Theorem workers_stop o claimed s n p :
  1 <= jpoWorkerCount o → runs o n (start_pool o claimed s) p →
  (n <= 6 * length claimed)%nat
  ∧ (finished p = false → ∃ k w, workers p !! k = Some w ∧ ∀ now, runs o (S n) (start_pool o claimed s) (step_pool now o k p))
  ∧ (finished p = true → jobCh p = [] ∧ (ocJobID <$> outcomeCh p) ≡ₚ claimed).
Proof.
  intros Ho Hr. destruct (runs_accounts _ _ _ _ Hr) as (_ & H2 & _ & _).
  destruct (start_accounts o claimed s) as (_ & _ & S3 & _). split_and!; [lia| |by eapply finished_accounts].
  intros (k & w & Hk & Hw)%finished_false. exists k, w. split; [done|]. intros now. by eapply runs_work.
Qed.
End termination.

(** ** What one run of the pool does *)

(** The job a worker finds under an id. *)
Definition job_of (id : string) (s : Service) : option IssueJob :=
  snd <$> findi (fun j => String.eqb (jobID j) id) (jobs s).

Lemma next_found {A} (f : option (nat * A)) :
  snd <$> match f with Some (i, y) => Some (S i, y) | None => None end = snd <$> f.
Proof. by destruct f as [[]|]. Qed.

Lemma findi_insert_id (l : list IssueJob) id i j j' id' :
  findi (fun x => String.eqb (jobID x) id) l = Some (i, j) → jobID j' = jobID j →
  snd <$> findi (fun x => String.eqb (jobID x) id') (<[i := j']> l)
  = if String.eqb id' id then Some j' else snd <$> findi (fun x => String.eqb (jobID x) id') l.
Proof.
  intros Hf Hid. revert i Hf; induction l as [|x l IH]; intros i Hf; [done|]. simpl in Hf.
  destruct (String.eqb_spec (jobID x) id) as [E|E].
  - injection Hf as <- <-. simpl. rewrite Hid, E. rewrite (String.eqb_sym id' id). by destruct (String.eqb id id').
  - destruct (findi _ l) as [[k y]|] eqn:Hl; [|done]. injection Hf as <- <-. specialize (IH k eq_refl). simpl.
    destruct (String.eqb_spec (jobID x) id') as [E'|E'].
    + destruct (String.eqb_spec id' id); [congruence|done].
    + by rewrite !next_found.
Qed.

Section settling.
Context {MR : MapRange} {DG : Digest}.

(** [setJobFailure] and [setJobSuccess] change the one job, and the latter adds the pass. *)
Lemma failure_run now id code text actor retryable maxRetry s j :
  job_of id s = Some j →
  ∃ j', jobStatus j' ∈ ["failed"; "dlq"] ∧ jobPassID j' = jobPassID j
  ∧ jobStatus j' = resolveJobFailureStatus j (TrimSpace code) retryable maxRetry
  ∧ (∀ id', job_of id' (exec (setJobFailure now id code text actor retryable maxRetry) s)
            = if String.eqb id' id then Some j' else job_of id' s)
  ∧ passes (exec (setJobFailure now id code text actor retryable maxRetry) s) = passes s
  ∧ (jobID <$> jobs (exec (setJobFailure now id code text actor retryable maxRetry) s)) = (jobID <$> jobs s).
Proof.
  unfold job_of. intros Hj. destruct (findi _ (jobs s)) as [[i j0]|] eqn:Hf; [|done]. injection Hj as ->.
  unfold setJobFailure. rewrite exec_gets, Hf. unfold put_job. rewrite exec_modify.
  set (j' := j <| jobStatus := _ |> <| jobErrorCode := _ |> <| jobErrorMessage := _ |> <| jobUpdatedAt := _ |>).
  set (s1 := s <| jobs ::= <[i:=j']> |>).
  match goal with |- context [exec ?f s1] => assert (quiet s1 (exec f s1)) as Hq by (apply (quiet_exec (f:=f))) end.
  exists j'. split_and!; [|done|done| |by rewrite (quiet_passes _ _ Hq)|].
  - subst j'. simpl. unfold resolveJobFailureStatus. repeat case_match; set_solver.
  - intros id'. rewrite (quiet_jobs _ _ Hq). by apply (findi_insert_id _ id i j j').
  - rewrite (quiet_jobs _ _ Hq). simpl. rewrite list_fmap_insert. subst j'. simpl.
    apply list_insert_id. rewrite list_lookup_fmap, (findi_lookup _ _ _ _ Hf). done.
Qed.

Lemma success_run now id record actor s j :
  job_of id s = Some j → jobStatus j = "processing" →
  ∃ j', jobStatus j' = "success" ∧ jobPassID j' = psID record
  ∧ jobTargetID j' = jobTargetID j ∧ jobTargetType j' = jobTargetType j
  ∧ (∀ id', job_of id' (exec (setJobSuccess now id record actor) s)
            = if String.eqb id' id then Some j' else job_of id' s)
  ∧ passes (exec (setJobSuccess now id record actor) s) = record :: passes s
  ∧ (jobID <$> jobs (exec (setJobSuccess now id record actor) s)) = (jobID <$> jobs s).
Proof.
  unfold job_of. intros Hj Hst. destruct (findi _ (jobs s)) as [[i j0]|] eqn:Hf; [|done]. injection Hj as ->.
  unfold setJobSuccess. rewrite exec_gets, Hf, Hst. simpl negb. cbv iota. unfold put_job. rewrite !exec_modify.
  set (j' := clear_error _). set (s1 := s <| passes ::= cons record |> <| jobs ::= <[i:=j']> |>).
  match goal with |- context [exec ?f s1] => assert (quiet s1 (exec f s1)) as Hq by (apply (quiet_exec (f:=f))) end.
  exists j'. split_and!; try done; [|by rewrite (quiet_passes _ _ Hq)|].
  - intros id'. rewrite (quiet_jobs _ _ Hq). by apply (findi_insert_id _ id i j j').
  - rewrite (quiet_jobs _ _ Hq). simpl. rewrite list_fmap_insert. subst j'. simpl.
    apply list_insert_id. rewrite list_lookup_fmap, (findi_lookup _ _ _ _ Hf). done.
Qed.
End settling.

(** The pass a job that succeeded got: for its target, newly issued. *)
Definition issued_for (o : JobProcessOptions) (s : Service) (id : string) (p : PassInstance) : Prop :=
  ∃ j, job_of id s = Some j ∧ jobStatus j = "success" ∧ jobPassID j = psID p ∧ psTargetID p = jobTargetID j
  ∧ psTargetType p = jobTargetType j ∧ psTenantID p = jpoTenantID o ∧ psStatus p = "issued".

(** What a worker knows of the job it holds. *)
Definition knows (o : JobProcessOptions) (s : Service) (w : worker) : Prop :=
  match w with
  | Loaded id j | Issuing id j _ => job_of id s = Some j
  | Settling id _ r =>
      ∃ j, job_of id s = Some j ∧ psTargetID r = jobTargetID j ∧ psTargetType r = jobTargetType j
      ∧ psTenantID r = jpoTenantID o ∧ psStatus r = "issued"
  | _ => True
  end.
Definition busy (s : Service) (id : string) : Prop := ∃ j, job_of id s = Some j ∧ jobStatus j = "processing".

(** A job settled: its row replaced, a pass added exactly when it succeeded. *)
Definition settles (o : JobProcessOptions) (id : string) (s s' : Service) : Prop :=
  ∃ j', (∀ id', job_of id' s' = if String.eqb id' id then Some j' else job_of id' s)
  ∧ ((passes s' = passes s ∧ jobStatus j' ∈ ["failed";"dlq"])
     ∨ ∃ r, passes s' = r :: passes s ∧ issued_for o s' id r).
Definition untouched (s s' : Service) : Prop := (∀ id, job_of id s' = job_of id s) ∧ passes s' = passes s.

Lemma knows_ext o s s' w :
  (∀ id, held w = Some id → job_of id s' = job_of id s) → knows o s w → knows o s' w.
Proof. destruct w; simpl; intros H; rewrite ?H by done; done. Qed.
Lemma quiet_untouched s s' : quiet s s' → untouched s s'.
Proof. intros Hq. split; [intros id; unfold job_of; by rewrite (quiet_jobs _ _ Hq)|by rewrite (quiet_passes _ _ Hq)]. Qed.

Section runs_to_the_end.
Context {MR : MapRange} {DG : Digest}.

Lemma worker_step_settles now o w ch s w' ch' s' out :
  (∀ id, held w = Some id → busy s id) → knows o s w → worker_step now o w ch s = (w', ch', s', out) →
  (out = None ∧ untouched s s' ∧ knows o s' w' ∧ (held w' = held w ∧ ch' = ch ∨ w = Idle))
  ∨ (∃ id st re, held w = Some id ∧ w' = Idle ∧ ch' = ch ∧ out = Some (mkOutcome id st re) ∧ settles o id s s').
Proof.
  intros Hb Hk. assert (untouched s s) as Hs by done. destruct w; simpl in *.
  - destruct ch; intros [= <- <- <- <-]; left; naive_solver.
  - destruct (Hb _ eq_refl) as (j & Hj & Hst). unfold job_of in Hj.
    destruct (findi _ (jobs s)) as [[i j0]|] eqn:Hf; [|done]. injection Hj as ->. rewrite Hst. simpl.
    intros [= <- <- <- <-]. left. split_and!; [done|done| |naive_solver]. simpl. unfold job_of. by rewrite Hf.
  - destruct (is_empty _); [|destruct (findTemplateByID _ _); [destruct (negb _); [|destruct (negb _)]|]];
      intros [= <- <- <- <-]; left; simpl; naive_solver.
  - destruct (createPassRecord _ _ _ _ _ _ _ _ _ s) as [s1 [r|e]] eqn:Hc; intros [= <- <- <- <-]; left.
    + pose proof (quiet_untouched _ _ (quiet_run _ _ _ _ Hc)) as Hu.
      destruct (create_ok _ _ _ _ _ _ _ _ _ _ _ _ Hc) as (?&?&?&?&_).
      split_and!; [done|done| |naive_solver]. simpl. exists j. destruct Hu as [-> _]. done.
    + pose proof (quiet_untouched _ _ (quiet_run _ _ _ _ Hc)). simpl. naive_solver.
  - destruct (setJobSuccess _ _ _ _ s) as [s1 r] eqn:Hset. intros [= <- <- <- <-]. right.
    destruct Hk as (j & Hj & H1 & H2 & H3 & H4). destruct (Hb _ eq_refl) as (j0 & Hj0 & Hst). rewrite Hj in Hj0.
    injection Hj0 as <-. destruct (success_run now id record (jpoActor o) s j Hj Hst) as (j' & E1 & E2 & E3 & E4 & E5 & E6 & _).
    unfold exec in E5, E6. rewrite Hset in E5, E6. simpl in E5, E6. eexists id, _, _. split_and!; try done.
    exists j'. split; [done|]. right. exists record. split; [done|]. exists j'. rewrite E5, String.eqb_refl.
    split_and!; congruence.
  - destruct (setJobFailure _ _ _ _ _ _ _ s) as [s1 r] eqn:Hset. intros [= <- <- <- <-]. right.
    destruct (Hb _ eq_refl) as (j & Hj & _).
    destruct (failure_run now id code text (jpoActor o) retryable (jpoMaxRetry o) s j Hj) as (j' & E1 & _ & _ & E3 & E4 & _).
    unfold exec in E3, E4. rewrite Hset in E3, E4. simpl in E3, E4. eexists id, _, _. split_and!; try done.
    exists j'. split; [done|]. left. done.
  - intros [= <- <- <- <-]. left. naive_solver.
Qed.

(** The invariant of a run nobody interferes with. *)
Record settling_inv (o : JobProcessOptions) (claimed : list string) (s0 : Service) (p : pool) : Prop := {
  inv_accounts : accounted p ≡ₚ claimed;
  inv_busy : ∀ id, id ∈ jobCh p ++ omap held (workers p) → busy (svc p) id;
  inv_knows : ∀ w, w ∈ workers p → knows o (svc p) w;
  inv_done : ∀ id, id ∈ ocJobID <$> outcomeCh p →
    ∃ j, job_of id (svc p) = Some j ∧ jobStatus j ∈ ["success";"failed";"dlq"];
  inv_other : ∀ id, id ∉ claimed → job_of id (svc p) = job_of id s0;
  inv_news : ∃ done news, passes (svc p) = news ++ passes s0 ∧ NoDup done
    ∧ Forall2 (issued_for o (svc p)) done news
    ∧ ∀ id, id ∈ done ↔ id ∈ claimed ∧ ∃ j, job_of id (svc p) = Some j ∧ jobStatus j = "success"
}.

Lemma issued_for_ext o s s' id p : job_of id s' = job_of id s → issued_for o s id p → issued_for o s' id p.
Proof. unfold issued_for. by intros ->. Qed.

Lemma settling_untouched o claimed s0 p p' :
  settling_inv o claimed s0 p → untouched (svc p) (svc p') → accounted p' ≡ₚ claimed →
  jobCh p' ++ omap held (workers p') ≡ₚ jobCh p ++ omap held (workers p) → outcomeCh p' = outcomeCh p →
  (∀ w, w ∈ workers p' → knows o (svc p') w) → settling_inv o claimed s0 p'.
Proof.
  intros [I1 I2 I3 I4 I5 I6] [Hu Hpass] Ha Hp Ho Hk. split; auto.
  - intros id. rewrite Hp. unfold busy. rewrite Hu. apply I2.
  - intros id. rewrite Ho, Hu. apply I4.
  - intros id Hid. rewrite Hu. by apply I5.
  - destruct I6 as (done & news & E1 & E2 & E3 & E4). exists done, news. split_and!; [congruence|done| |].
    + eapply Forall2_impl; [exact E3|]. intros id q. by apply issued_for_ext.
    + intros id. rewrite Hu. apply E4.
Qed.

Lemma Forall2_mem {A B} (P Q : A → B → Prop) l k :
  Forall2 P l k → (∀ x y, x ∈ l → P x y → Q x y) → Forall2 Q l k.
Proof. induction 1; constructor; [set_solver|]. apply IHForall2. set_solver. Qed.

Lemma settling_settles o claimed s0 p id j' ch l1 l2 w s' oc :
  NoDup claimed → settling_inv o claimed s0 p →
  workers p = l1 ++ w :: l2 → held w = Some id → ch = jobCh p → ocJobID oc = id →
  (∀ id', job_of id' s' = if String.eqb id' id then Some j' else job_of id' (svc p)) →
  ((passes s' = passes (svc p) ∧ jobStatus j' ∈ ["failed";"dlq"])
   ∨ ∃ r, passes s' = r :: passes (svc p) ∧ issued_for o s' id r) →
  settling_inv o claimed s0 (mkPool s' ch (l1 ++ Idle :: l2) (outcomeCh p ++ [oc])).
Proof.
  intros Hnd [I1 I2 I3 I4 I5 I6] Hw Hh -> Hoc Hj Hp. pose proof I1 as Ha. unfold accounted in Ha.
  rewrite Hw, omap_app in Ha, I2. cbn [omap list_omap] in Ha, I2. rewrite Hh in Ha, I2.
  assert (NoDup (id :: jobCh p ++ omap held l1 ++ omap held l2 ++ (ocJobID <$> outcomeCh p))) as Hn.
  { eapply NoDup_Permutation_proper; [|exact Hnd]. rewrite <- Ha. solve_Permutation. }
  apply NoDup_cons in Hn as [Hid Hn]. rewrite !elem_of_app in Hid.
  assert (∀ id', id' ≠ id → job_of id' s' = job_of id' (svc p)) as Hoth
    by (intros id' Hne; rewrite Hj; by destruct (String.eqb_spec id' id)).
  assert (job_of id s' = Some j') as Hself by (by rewrite Hj, String.eqb_refl).
  assert (id ∈ claimed) as Hcl by (rewrite <- Ha; set_solver).
  split; cbn [svc jobCh workers outcomeCh].
  - rewrite <- I1. unfold accounted. cbn [jobCh workers outcomeCh]. rewrite Hw, !omap_app, fmap_app. cbn [omap list_omap held].
    rewrite Hh. simpl. rewrite Hoc. solve_Permutation.
  - rewrite omap_app. cbn [omap list_omap held]. intros id' Hin. unfold busy. rewrite Hoth; [apply I2; set_solver|].
    intros ->. set_solver.
  - intros w0 Hin. assert (w0 = Idle ∨ w0 ∈ l1 ++ l2) as [->|Hin'] by set_solver; [done|].
    apply (knows_ext o (svc p)); [|apply I3; rewrite Hw; set_solver]. intros id' Hh'. apply Hoth. intros ->.
    assert (id ∈ omap held l1 ∨ id ∈ omap held l2); [|set_solver]. rewrite !list_elem_of_omap. set_solver.
  - intros id'. rewrite fmap_app, elem_of_app. intros [Hin|Hin].
    + rewrite Hoth by (intros ->; set_solver). by apply I4.
    + simpl in Hin. apply list_elem_of_singleton in Hin. rewrite Hin, Hoc. exists j'. split; [done|].
      destruct Hp as [[_ H]|(r & _ & j & Hjj & Hst & _)]; [set_solver|]. rewrite Hself in Hjj. injection Hjj as <-.
      rewrite Hst. set_solver.
  - intros id' Hin. rewrite Hoth; [by apply I5|]. by intros ->.
  - destruct I6 as (done & news & E1 & E2 & E3 & E4).
    assert (id ∉ done) as Hnd'.
    { rewrite E4. intros (_ & j & Hjj & Hst). destruct (I2 id) as (j0 & Hj0 & Hst0); [set_solver|].
      rewrite Hjj in Hj0. injection Hj0 as ->. by rewrite Hst in Hst0. }
    assert (Forall2 (issued_for o s') done news) as E3'.
    { apply (Forall2_mem _ _ _ _ E3). intros x q Hx. apply issued_for_ext, Hoth. by intros ->. }
    destruct Hp as [[Hpass Hst]|(r & Hpass & Hr)].
    + exists done, news. split_and!; [congruence|done|done|]. intros id'. destruct (decide (id' = id)) as [->|Hne].
      * split; [done|]. intros (_ & j & Hjj & Hs). rewrite Hself in Hjj. injection Hjj as <-. rewrite Hs in Hst. set_solver.
      * rewrite Hoth by done. apply E4.
    + exists (id :: done), (r :: news). split_and!; [rewrite Hpass, E1; done|by constructor|by constructor|].
      intros id'. rewrite elem_of_cons. destruct (decide (id' = id)) as [->|Hne].
      * split; [|by left]. intros _. split; [done|]. destruct Hr as (j & ? & ? & _). eauto.
      * rewrite Hoth by done. rewrite <- E4. naive_solver.
Qed.

Lemma settling_step now o k claimed s0 p :
  NoDup claimed → settling_inv o claimed s0 p → settling_inv o claimed s0 (step_pool now o k p).
Proof.
  intros Hnd Hi. destruct (workers p !! k) as [w|] eqn:Hk; [|unfold step_pool; by rewrite Hk].
  destruct (running w) eqn:Hr.
  2: { destruct w; try done. unfold step_pool. rewrite Hk. simpl. rewrite list_insert_id by done. by destruct p; rewrite app_nil_r. }
  destruct (step_pool_accounts now o k p w Hk Hr) as [Hacc _]. revert Hacc. unfold step_pool. rewrite Hk.
  destruct (worker_step now o w (jobCh p) (svc p)) as [[[w' ch'] s'] out] eqn:He. intros Hacc.
  destruct (split_lookup _ _ _ Hk) as (l1 & l2 & Hl & Hins). rewrite Hins in *.
  apply worker_step_settles in He as [(-> & Hu & Hkn & _)|(id & st & re & Hh & -> & -> & -> & j' & Hj & Hp)].
  - eapply settling_untouched; [exact Hi|exact Hu|by rewrite Hacc; apply Hi| |apply app_nil_r|].
    + unfold accounted in Hacc. simpl in Hacc. rewrite app_nil_r, !app_assoc in Hacc. by apply Permutation_app_inv_r in Hacc.
    + simpl. intros w0 Hin. assert (w0 = w' ∨ w0 ∈ workers p) as [->|Hin'] by (rewrite Hl; set_solver); [done|].
      apply (knows_ext o (svc p)); [|by apply Hi]. intros. apply Hu.
  - by eapply settling_settles.
  - intros id Hh. apply Hi, elem_of_app. right. apply list_elem_of_omap. exists w. split; [|done].
    by eapply list_elem_of_lookup_2.
  - apply Hi. by eapply list_elem_of_lookup_2.
Qed.

Lemma runnable_scheduled choice p : finished p = false →
  ∃ w, workers p !! scheduled choice p = Some w ∧ running w = true.
Proof.
  intros (k & w & Hk & Hw)%finished_false. unfold scheduled.
  assert (k ∈ runnable p) as Hin.
  { apply elem_of_filterb. rewrite Hk. split; [done|]. apply elem_of_seq. pose proof (lookup_lt_Some _ _ _ Hk). lia. }
  destruct (lookup_lt_is_Some_2 (runnable p) (choice mod length (runnable p))) as [c Hc].
  { apply Nat.mod_upper_bound. destruct (runnable p); [by apply elem_of_nil in Hin|done]. }
  rewrite Hc. simpl. apply list_elem_of_lookup_2, elem_of_filterb in Hc as [Hc _].
  destruct (workers p !! c) as [v|]; [|done]. by exists v.
Qed.

(** With as many steps as the measure says, every schedule ends the run. *)
Lemma run_pool_ends fuel schedule o p : (steps_left p <= fuel)%nat → finished (run_pool fuel schedule o p) = true.
Proof.
  revert p; induction fuel as [|fuel IH]; intros p Hf; simpl.
  - destruct (finished p) eqn:E; [done|]. apply finished_false in E as (k & w & Hk & Hw).
    destruct (split_lookup _ _ _ Hk) as (l1 & l2 & Hl & _). unfold steps_left in Hf. rewrite Hl, sum_list_with_app in Hf.
    simpl in Hf. destruct w; simpl in *; (done || lia).
  - destruct (finished p) eqn:E; [done|]. destruct (schedule fuel) as [choice now]. apply IH.
    destruct (runnable_scheduled choice p E) as (w & Hk & Hw).
    destruct (step_pool_accounts now o _ p w Hk Hw) as (_ & H & _). lia.
Qed.

Lemma run_pool_runs fuel schedule o p : ∃ n, runs o n p (run_pool fuel schedule o p).
Proof.
  enough (∀ p0 n, runs o n p0 p → ∃ n', runs o n' p0 (run_pool fuel schedule o p)) as H by (eapply H; constructor).
  revert p; induction fuel as [|fuel IH]; intros p p0 n Hr; simpl; [eauto|].
  destruct (finished p) eqn:E; [eauto|]. destruct (schedule fuel) as [choice now].
  destruct (runnable_scheduled choice p E) as (w & Hk & Hw). eapply IH. by eapply runs_work.
Qed.

Lemma settling_run fuel schedule o claimed s0 p :
  NoDup claimed → settling_inv o claimed s0 p → settling_inv o claimed s0 (run_pool fuel schedule o p).
Proof.
  intros Hnd. revert p; induction fuel as [|fuel IH]; intros p Hi; simpl; [done|].
  destruct (finished p); [done|]. destruct (schedule fuel) as [choice now]. by apply IH, settling_step.
Qed.

(** *** Claiming *)

Lemma claim_spec now t mr room l l' ids :
  claim_from now t mr room l = (l', ids) →
  jobID <$> l' = jobID <$> l ∧ sublist ids (jobID <$> l) ∧ (length ids <= room)%nat
  ∧ (NoDup (jobID <$> l) →
     (∀ id, id ∈ ids → ∃ j, snd <$> findi (fun j => String.eqb (jobID j) id) l' = Some j ∧ jobStatus j = "processing")
     ∧ (∀ id, id ∉ ids → snd <$> findi (fun j => String.eqb (jobID j) id) l'
                         = snd <$> findi (fun j => String.eqb (jobID j) id) l)).
Proof.
  revert room l' ids; induction l as [|j l IH]; intros room l' ids; simpl.
  { intros [= <- <-]. split_and!; [done|done|simpl; lia|]. intros _. split; [set_solver|done]. }
  destruct room as [|room].
  { intros [= <- <-]. split_and!; [done|apply sublist_nil_l|done|]. intros _. split; [set_solver|done]. }
  assert (∀ (x : IssueJob) r id, jobID x = jobID j → id ≠ jobID j →
    snd <$> findi (fun j => String.eqb (jobID j) id) (x :: r) = snd <$> findi (fun j => String.eqb (jobID j) id) r) as Hskip.
  { intros x r id Hx Hne. simpl. rewrite Hx. destruct (String.eqb_spec (jobID j) id); [congruence|]. apply next_found. }
  destruct (processable t mr j).
  - destruct (claim_from now t mr room l) as [rest ids0] eqn:Hc. intros [= <- <-].
    destruct (IH _ _ _ Hc) as (E1 & E2 & E3 & E4). split_and!; [by rewrite !fmap_cons, E1|by apply sublist_skip|simpl; lia|].
    simpl. intros [Hn1 Hn2]%NoDup_cons. destruct (E4 Hn2) as [E5 E6].
    assert (jobID j ∉ ids0) by (intros Hin; apply Hn1; by eapply sublist_subseteq). split.
    + intros id [->|Hin]%elem_of_cons; [rewrite String.eqb_refl; by eexists|].
      destruct (String.eqb_spec (jobID j) id) as [<-|Hne]; [done|]. rewrite next_found. by apply E5.
    + intros id [Hne Hid]%not_elem_of_cons. destruct (String.eqb_spec (jobID j) id) as [<-|_]; [done|].
      rewrite !next_found. by apply E6.
  - destruct (claim_from now t mr (S room) l) as [rest ids0] eqn:Hc. intros [= <- <-].
    destruct (IH _ _ _ Hc) as (E1 & E2 & E3 & E4). split_and!; [by rewrite !fmap_cons, E1|by apply sublist_cons|done|].
    simpl. intros [Hn1 Hn2]%NoDup_cons. destruct (E4 Hn2) as [E5 E6].
    assert (jobID j ∉ ids0) by (intros Hin; apply Hn1; by eapply sublist_subseteq). split.
    + intros id Hin. destruct (String.eqb_spec (jobID j) id) as [<-|_]; [done|]. rewrite next_found. by apply E5.
    + intros id Hid. destruct (String.eqb (jobID j) id); [done|]. rewrite !next_found. by apply E6.
Qed.

Lemma tally_ids outs r : jprProcessedJobIDs (fold_left tally outs r) = jprProcessedJobIDs r ++ (ocJobID <$> outs).
Proof.
  revert r; induction outs as [|oc outs IH]; intros r; simpl; [by rewrite app_nil_r|]. rewrite IH.
  assert (jprProcessedJobIDs (tally r oc) = jprProcessedJobIDs r ++ [ocJobID oc]) as ->.
  { unfold tally. cbv zeta. by repeat case_match. }
  by rewrite <- app_assoc.
Qed.

(** Every counter counts outcomes, and there are no others. *)
Lemma tally_total outs r :
  let t := fold_left tally outs r in
  jprSucceeded t + jprFailed t + jprDLQ t + jprSkipped t
  = jprSucceeded r + jprFailed r + jprDLQ r + jprSkipped r + Z.of_nat (length outs).
Proof.
  revert r; induction outs as [|oc outs IH]; intros r; cbv zeta in *; [simpl; lia|]. cbn [fold_left]. rewrite (IH (tally r oc)).
  unfold tally. cbv zeta. repeat case_match; simpl; lia.
Qed.

Lemma tally_claimed outs r : jprClaimed (fold_left tally outs r) = jprClaimed r.
Proof.
  revert r; induction outs as [|oc outs IH]; intros r; [done|]. cbn [fold_left]. rewrite IH. unfold tally. cbv zeta.
  by repeat case_match.
Qed.

Lemma process_options_ok x o : normalizeJobProcessOptions x = Ok o → 1 <= jpoWorkerCount o <= 32 ∧ 1 <= jpoLimit o <= 500.
Proof.
  unfold normalizeJobProcessOptions. destruct (_ || _) eqn:E; [done|]. intros [= <-]. boolp. simpl.
  repeat case_match; boolp; lia.
Qed.

(** C32: A run of the queue settles what it claims, under every interleaving of the
    workers and whatever the store answers: each claimed job, and no other, is
    reported once and ends as success, failed or dead letter; the other jobs are
    untouched; and the passes added are one to one with the claimed jobs that
    succeeded, each issued to its job's target. *)
Theorem process_jobs_settles now schedule options o s :
  NoDup (jobID <$> jobs s) → normalizeJobProcessOptions options = Ok o →
  ∃ s' res, ProcessIssueJobs now schedule options s = (s', Ok res) ∧
  let claimed := (claim_from now (jpoTenantID o) (jpoMaxRetry o) (Z.to_nat (jpoLimit o)) (jobs s)).2 in
  jprProcessedJobIDs res ≡ₚ claimed
  ∧ jprSucceeded res + jprFailed res + jprDLQ res + jprSkipped res = jprClaimed res
  ∧ (∀ id, id ∈ claimed → ∃ j, job_of id s' = Some j ∧ jobStatus j ∈ ["success";"failed";"dlq"])
  ∧ (∀ id, id ∉ claimed → job_of id s' = job_of id s)
  ∧ ∃ done news, passes s' = news ++ passes s ∧ NoDup done ∧ Forall2 (issued_for o s') done news
    ∧ ∀ id, id ∈ done ↔ id ∈ claimed ∧ ∃ j, job_of id s' = Some j ∧ jobStatus j = "success".
Proof.
  intros Hnd Ho. unfold ProcessIssueJobs. rewrite bind_lift, Ho. unfold claimProcessableJobsLocked.
  rewrite bind_op_eq. destruct (claim_from _ _ _ _ (jobs s)) as [l claimed] eqn:Hc.
  rewrite bind_op_eq. set (s1 := s <| jobs := l |>). set (p0 := start_pool o claimed s1).
  set (p := run_pool (steps_left p0) schedule o p0). cbv iota beta. rewrite bind_gets.
  destruct (claim_spec _ _ _ _ _ _ _ Hc) as (E1 & E2 & _ & E4). destruct (E4 Hnd) as [E5 E6].
  assert (NoDup claimed) as Hn by (by eapply sublist_NoDup).
  destruct (process_options_ok _ _ Ho) as [Hw _]. destruct (start_accounts o claimed s1) as (A1 & A2 & A3 & A4).
  assert (settling_inv o claimed s1 p0) as Hi0.
  { assert (omap held (workers p0) = []) as Hh.
    { unfold p0, start_pool. simpl. clear. induction (Nat.min _ _) as [|n IH]; [done|exact IH]. }
    split; [by fold p0 in A1; rewrite A1| | |by intros id Hid; apply elem_of_nil in Hid|done|].
    - rewrite Hh, app_nil_r. exact E5.
    - intros w [-> _]%elem_of_replicate. done.
    - exists [], []. split_and!; [done|constructor|constructor|]. intros id. split; [by intros Hid; apply elem_of_nil in Hid|].
      intros (Hin & j & Hj & Hst). destruct (E5 id Hin) as (j0 & Hj0 & Hst0). change (job_of id s1 = Some j0) in Hj0.
      change (job_of id s1 = Some j) in Hj. congruence. }
  pose proof (settling_run (steps_left p0) schedule o claimed s1 p0 Hn Hi0) as Hi. fold p in Hi.
  assert (finished p = true) as Hf by (by apply run_pool_ends).
  destruct (run_pool_runs (steps_left p0) schedule o p0) as [n Hr]. fold p in Hr.
  destruct (finished_accounts o claimed s1 n p (proj1 Hw) Hr Hf) as [_ Hout].
  destruct Hi as [I1 I2 I3 I4 I5 I6]. eexists _, _. split; [reflexivity|]. cbv zeta. cbn [snd]. split_and!.
  - simpl. by rewrite tally_ids.
  - simpl. rewrite tally_claimed, <- Hout, length_fmap. etrans; [apply tally_total|]. simpl. lia.
  - intros id Hid. apply I4. by rewrite Hout.
  - intros id Hid. rewrite I5 by done. by apply E6.
  - exact I6.
Qed.

(** A worker that comes late undoes a success: [setJobSuccess] leaves alone a job
    that was settled meanwhile ([RetryJob] may do so while a worker holds it), but
    [setJobFailure] does not look: the job, its pass issued, is failed or a dead
    letter again, and as a dead letter it can be queued for a second pass. *)
Theorem late_failure_undoes_success now job j record code text actor retryable maxRetry s :
  job_of job s = Some j → jobStatus j = "success" →
  exec (setJobSuccess now job record actor) s = s
  ∧ let s' := exec (setJobFailure now job code text actor retryable maxRetry) s in
    ∃ j', job_of job s' = Some j' ∧ jobPassID j' = jobPassID j ∧ passes s' = passes s
    ∧ jobStatus j' = (if retryable && String.eqb (TrimSpace code) "issue_failed"
                         && (jobRetryCount j <? (if maxRetry <=? 0 then 3 else maxRetry)) then "failed" else "dlq").
Proof.
  intros Hj Hst. split.
  - unfold job_of in Hj. unfold setJobSuccess. rewrite exec_gets. destruct (findi _ (jobs s)) as [[i j0]|]; [|done].
    injection Hj as ->. rewrite Hst. reflexivity.
  - destruct (failure_run now job code text actor retryable maxRetry s j Hj) as (j' & _ & Hp & Hs & Hall & Hpass & _).
    exists j'. rewrite Hall, String.eqb_refl. split_and!; [done|done|done|]. rewrite Hs. unfold resolveJobFailureStatus.
    rewrite TrimSpace_idem. destruct retryable; [|done]. simpl. destruct (String.eqb _ _); [|done]. simpl.
    set (n := if maxRetry <=? 0 then 3 else maxRetry).
    destruct (Z.leb_spec n (jobRetryCount j)), (Z.ltb_spec (jobRetryCount j) n); (done || lia).
Qed.
End runs_to_the_end.

(** ** A run *)

#[local] Instance toy_digest : Digest := {| sha256 := λ b, b |}.
#[local] Existing Instance sorted_range.

#[local] Abbreviation ex_service tpls js ent :=
  (mkService None tpls [] [] [] [] [] js [] [] [] [] [] 0 "mock" "" ∅ None "mock" ∅ None "" "" "" None None None ent
     (mkNetwork [] [] [] [] [] [] [])).
#[local] Abbreviation ex_template :=
  (mkPassTemplate "wpt_1" "t" "desfire" "employee" "c" "Staff" ∅ "active" 0 0).
#[local] Abbreviation ex_job id target status :=
  (mkIssueJob id "t" "desfire" "wbt_1" "wpt_1" "user" target "" "" status 0 "" "" 0 0).
#[local] Abbreviation ex_bytes n := (inr (replicate 6 (chr n))).
#[local] Abbreviation ex_options := (mkJobProcessOptions "t" 20 2 3 (200 * millisecond) (5 * second) "ops").

Lemma workers_stop_witness :
  let s := ex_service [ex_template] [ex_job "a" "u1" "processing"] [ex_bytes 1; ex_bytes 2] in
  let p := run_pool 6 (λ n, (n, 0)) ex_options (start_pool ex_options ["a"] s) in
  finished p = true ∧ (ocJobID <$> outcomeCh p) ≡ₚ ["a"].
Proof.
  split; [reflexivity|].
  assert (∃ n, runs ex_options n (start_pool ex_options ["a"]
      (ex_service [ex_template] [ex_job "a" "u1" "processing"] [ex_bytes 1; ex_bytes 2]))
    (run_pool 6 (λ n, (n, 0)) ex_options (start_pool ex_options ["a"]
      (ex_service [ex_template] [ex_job "a" "u1" "processing"] [ex_bytes 1; ex_bytes 2])))) as [n Hr] by apply run_pool_runs.
  apply (workers_stop ex_options ["a"]
    (ex_service [ex_template] [ex_job "a" "u1" "processing"] [ex_bytes 1; ex_bytes 2]) n _ ltac:(reflexivity || (vm_compute; congruence)) Hr).
  reflexivity.
Defined.

(** Two jobs, the second without a target: one pass, one dead letter. *)
Lemma process_jobs_settles_witness :
  ∃ s' res, ProcessIssueJobs 0 (λ n, (n, 0)) (mkJobProcessOptions "t" 0 0 0 0 0 "ops")
    (ex_service [ex_template] [ex_job "a" "u1" "pending"; ex_job "b" " " "pending"] [ex_bytes 1; ex_bytes 2; ex_bytes 3])
    = (s', Ok res) ∧ jprProcessedJobIDs res ≡ₚ ["a"; "b"].
Proof.
  destruct (process_jobs_settles 0 (λ n, (n, 0)) (mkJobProcessOptions "t" 0 0 0 0 0 "ops") ex_options
    (ex_service [ex_template] [ex_job "a" "u1" "pending"; ex_job "b" " " "pending"] [ex_bytes 1; ex_bytes 2; ex_bytes 3]))
    as (s' & res & Hrun & Hids & _).
  - repeat constructor; set_solver.
  - reflexivity.
  - exists s', res. split; [exact Hrun|exact Hids].
Defined.

Lemma late_failure_undoes_success_witness :
  ∃ j', job_of "a" (exec (setJobFailure 0 "a" "template_inactive" "" "ops" false 3)
    (ex_service [ex_template] [ex_job "a" "u1" "success"] [])) = Some j' ∧ jobStatus j' = "dlq".
Proof.
  destruct (late_failure_undoes_success 0 "a" (ex_job "a" "u1" "success")
    (mkPassInstance "p" "t" "" "" "" "" "" "" "" "" "" "" "" "" "" 0 None None "" "" 0 0)
    "template_inactive" "" "ops" false 3 (ex_service [ex_template] [ex_job "a" "u1" "success"] []))
    as (_ & j' & Hj & _ & _ & Hs); [reflexivity|reflexivity|]. exists j'. split; [exact Hj|exact Hs].
Defined.
