(* ===== verification/WalletMetrics.v ===== *)
(** * Numbers about the issuing queue (modules/wallet/service_jobs.go)

    The summary of a tenant's jobs, the metrics of a window, their trend in
    buckets, and the alerts for error codes with many dead letters.  A missing
    breakdown is the empty map. *)

From S2P Require Import Prelude GoStrings GoTime Bytes GoText WalletData WalletState Wallet WalletJobs.
From stdpp Require Import sorting.
#[local] Open Scope string_scope.
#[local] Open Scope list_scope.
#[local] Open Scope Z_scope.

(** [m[key]++] *)
Definition bump (key : string) (b : gmap string Z) : gmap string Z := <[key := default 0 (b !! key) + 1]> b.
Definition bump_code (j : IssueJob) (b : gmap string Z) : gmap string Z :=
  if is_empty (TrimSpace (jobErrorCode j)) then b else bump (TrimSpace (jobErrorCode j)) b.

Definition is_status (status : string) (j : IssueJob) : bool := String.eqb (jobStatus j) status.
Definition one_if (b : bool) (n : Z) : Z := if b then n + 1 else n.

Definition count_summary (maxRetry : Z) (s : JobSummary) (j : IssueJob) : JobSummary :=
  s <| jsTotal ::= one_if true |>
    <| jsPending ::= one_if (is_status "pending" j) |>
    <| jsProcessing ::= one_if (is_status "processing" j) |>
    <| jsSuccess ::= one_if (is_status "success" j) |>
    <| jsFailed ::= one_if (is_status "failed" j) |>
    <| jsDLQ ::= one_if (is_status "dlq" j) |>
    <| jsRetryableFailed ::= one_if (is_status "failed" j && isAutoRetryableJob j maxRetry) |>
    <| jsNonRetryableFailed ::=
         one_if ((is_status "failed" j && negb (isAutoRetryableJob j maxRetry)) || is_status "dlq" j) |>
    <| jsErrorCodeBreakdown ::= bump_code j |>.

Definition jobs_of (tenantID : string) (l : list IssueJob) : list IssueJob :=
  filterb (fun j => String.eqb (jobTenantID j) tenantID) l.
Definition buildJobSummary (tenantID : string) (maxRetry : Z) (l : list IssueJob) (now : Z) : JobSummary :=
  fold_left (count_summary maxRetry) (jobs_of tenantID l)
    (mkJobSummary tenantID maxRetry 0 0 0 0 0 0 0 0 ∅ now).
Definition retries_or_3 (maxRetry : Z) : Z := if maxRetry <=? 0 then 3 else maxRetry.
Definition GetJobSummary (now : Z) (tenantID : string) (maxRetry : Z) (s : Service) : JobSummary :=
  buildJobSummary (normalizeTenantID tenantID) (retries_or_3 maxRetry) (jobs s) now.

(** Dead letters per error code. *)
Definition count_dlq (b : gmap string Z) (j : IssueJob) : gmap string Z :=
  if is_status "dlq" j then
    bump (if is_empty (TrimSpace (jobErrorCode j)) then "unknown" else TrimSpace (jobErrorCode j)) b
  else b.

(** The most frequent first, then by code. *)
Definition alert_before (a b : JobMetricsAlert) : Prop :=
  if jmaCount a =? jmaCount b then String.leb (jmaErrorCode a) (jmaErrorCode b) = true
  else jmaCount b < jmaCount a.
#[export] Instance alert_before_dec a b : Decision (alert_before a b).
Proof. unfold alert_before. destruct (_ =? _); apply _. Defined.

Section metrics.
Context {MR : MapRange}.

Definition buildJobMetricsAlerts (breakdown : gmap string Z) (threshold : Z) : list JobMetricsAlert :=
  merge_sort alert_before
    ((fun '(code, n) => mkJobMetricsAlert "dlq_error_code_threshold" code n threshold)
       <$> filterb (fun '(_, n) => negb (n <? threshold)) (range breakdown)).

Definition window_or_default (window : Z) : Z := if window <? second then 15 * minute else window.
Definition threshold_or_20 (threshold : Z) : Z := if threshold <=? 0 then 20 else threshold.
Definition inside (since until t : Z) : bool := negb (Before t since) && negb (After t until).

Definition count_window (w : JobMetricsWindow) (j : IssueJob) : JobMetricsWindow :=
  w <| jmwUpdated ::= one_if true |>
    <| jmwPending ::= one_if (is_status "pending" j) |>
    <| jmwProcessing ::= one_if (is_status "processing" j) |>
    <| jmwSuccess ::= one_if (is_status "success" j) |>
    <| jmwFailed ::= one_if (is_status "failed" j) |>
    <| jmwDLQ ::= one_if (is_status "dlq" j) |>
    <| jmwErrorCodeBreakdown ::= bump_code j |>.

Definition GetJobMetrics (now : Z) (tenantID : string) (window maxRetry dlqAlertThreshold : Z) (s : Service) :
    JobMetrics :=
  let t := normalizeTenantID tenantID in
  let maxRetry := retries_or_3 maxRetry in
  let window := window_or_default window in
  let threshold := threshold_or_20 dlqAlertThreshold in
  let since := now - window in
  let own := jobs_of t (jobs s) in
  let created := Z.of_nat (length (filterb (fun j => inside since now (jobCreatedAt j)) own)) in
  let w := fold_left count_window (filterb (fun j => inside since now (jobUpdatedAt j)) own)
             (mkJobMetricsWindow (whole_seconds window) since now created 0 0 0 0 0 0 ∅) in
  mkJobMetrics t maxRetry threshold (buildJobSummary t maxRetry (jobs s) now) w
    (buildJobMetricsAlerts (fold_left count_dlq own ∅) threshold) now.

(** The bucket of an instant; products are [int64]. *)
Definition resolveMetricsTrendBucketIndex (timestamp since until bucketCount windowNS : Z) : option Z :=
  if Before timestamp since || After timestamp until || (bucketCount <=? 0) || (windowNS <=? 0) then None
  else
    let offset := time_sub timestamp since in
    let index := Z.quot (wrap64 (offset * bucketCount)) windowNS in
    if index <? 0 then None else Some (if bucketCount <=? index then bucketCount - 1 else index).

Definition count_bucket (j : IssueJob) (b : JobMetricsTrendBucket) : JobMetricsTrendBucket :=
  b <| tbUpdated ::= one_if true |>
    <| tbPending ::= one_if (is_status "pending" j) |>
    <| tbProcessing ::= one_if (is_status "processing" j) |>
    <| tbSuccess ::= one_if (is_status "success" j) |>
    <| tbFailed ::= one_if (is_status "failed" j) |>
    <| tbDLQ ::= one_if (is_status "dlq" j) |>
    <| tbErrorCodeBreakdown ::= bump_code j |>.

Definition bucket_count (window bucketCount : Z) : Z :=
  let n := if bucketCount <=? 0 then 12 else bucketCount in
  let n := Z.min n 120 in
  let bySeconds := whole_seconds window in
  let n := if (0 <? bySeconds) && (bySeconds <? n) then bySeconds else n in
  if n <=? 0 then 1 else n.

Definition empty_bucket (now since windowNS n i : Z) : JobMetricsTrendBucket :=
  mkJobMetricsTrendBucket i (since + Z.quot (wrap64 (windowNS * i)) n)
    (if i =? n - 1 then now else since + Z.quot (wrap64 (windowNS * (i + 1))) n) 0 0 0 0 0 0 0 ∅.

Definition count_trend (since now n windowNS : Z) (bs : list JobMetricsTrendBucket) (j : IssueJob) :
    list JobMetricsTrendBucket :=
  let at_bucket (t : Z) (f : JobMetricsTrendBucket → JobMetricsTrendBucket) (bs : list JobMetricsTrendBucket) :=
    match resolveMetricsTrendBucketIndex t since now n windowNS with
    | Some i => alter f (Z.to_nat i) bs
    | None => bs
    end in
  at_bucket (jobCreatedAt j) (fun b => b <| tbCreated ::= one_if true |>)
    (at_bucket (jobUpdatedAt j) (count_bucket j) bs).

Definition GetJobMetricsTrend (now : Z) (tenantID : string) (window bucketCount maxRetry dlqAlertThreshold : Z)
    (s : Service) : JobMetricsTrend :=
  let t := normalizeTenantID tenantID in
  let maxRetry := retries_or_3 maxRetry in
  let window := window_or_default window in
  let threshold := threshold_or_20 dlqAlertThreshold in
  let n := bucket_count window bucketCount in
  let since := now - window in
  let own := jobs_of t (jobs s) in
  let buckets := fold_left (count_trend since now n window) own
                   ((fun i => empty_bucket now since window n (Z.of_nat i)) <$> seq 0 (Z.to_nat n)) in
  mkJobMetricsTrend t maxRetry threshold (whole_seconds window)
    (Z.max 1 (Z.quot window (second * n))) n since now
    (buildJobSummary t maxRetry (jobs s) now)
    (buildJobMetricsAlerts (fold_left count_dlq own ∅) threshold) buckets now.
End metrics.

(** ** Facts *)

Lemma summary_loop maxRetry l s :
  let r := fold_left (count_summary maxRetry) l s in
  jsTotal r = jsTotal s + Z.of_nat (length l)
  ∧ jsPending r = jsPending s + Z.of_nat (length (filterb (is_status "pending") l))
  ∧ jsProcessing r = jsProcessing s + Z.of_nat (length (filterb (is_status "processing") l))
  ∧ jsSuccess r = jsSuccess s + Z.of_nat (length (filterb (is_status "success") l))
  ∧ jsFailed r = jsFailed s + Z.of_nat (length (filterb (is_status "failed") l))
  ∧ jsDLQ r = jsDLQ s + Z.of_nat (length (filterb (is_status "dlq") l))
  ∧ jsRetryableFailed r + jsNonRetryableFailed r
    = jsRetryableFailed s + jsNonRetryableFailed s + (jsFailed r - jsFailed s) + (jsDLQ r - jsDLQ s).
Proof.
  revert s; induction l as [|j l IH]; intros s; cbv zeta in *; [simpl; lia|]. cbn [fold_left filterb length].
  specialize (IH (count_summary maxRetry s j)). revert IH.
  generalize (fold_left (count_summary maxRetry) l (count_summary maxRetry s j)). intros r. simpl.
  unfold one_if, is_status. destruct (String.eqb_spec (jobStatus j) "pending") as [->|]; simpl; [lia|].
  destruct (String.eqb_spec (jobStatus j) "processing") as [->|]; simpl; [lia|].
  destruct (String.eqb_spec (jobStatus j) "success") as [->|]; simpl; [lia|].
  destruct (String.eqb_spec (jobStatus j) "failed") as [->|]; simpl; [destruct (isAutoRetryableJob _ _); simpl; lia|].
  destruct (String.eqb (jobStatus j) "dlq"); simpl; lia.
Qed.

(** *** The trend and the window count the same jobs *)

Fixpoint total (c : JobMetricsTrendBucket → Z) (bs : list JobMetricsTrendBucket) : Z :=
  match bs with [] => 0 | b :: bs' => c b + total c bs' end.

Lemma total_alter c (f : JobMetricsTrendBucket → JobMetricsTrendBucket) d bs i :
  (i < length bs)%nat → (∀ b, c (f b) = c b + d) → total c (alter f i bs) = total c bs + d.
Proof.
  intros Hi Hf. revert i Hi; induction bs as [|b bs IH]; intros [|i] Hi; simpl in Hi; [lia|lia| |].
  - simpl. rewrite Hf. lia.
  - simpl. specialize (IH i ltac:(lia)). change (list_alter f i bs) with (alter f i bs). lia.
Qed.

Lemma trend_index_range t since now n w i :
  0 < n → resolveMetricsTrendBucketIndex t since now n w = Some i → 0 <= i < n.
Proof.
  intros Hn. unfold resolveMetricsTrendBucketIndex. destruct (_ || _); [done|].
  destruct (Z.ltb_spec (Z.quot (wrap64 (time_sub t since * n)) w) 0); [done|]. intros [= <-].
  destruct (Z.leb_spec n (Z.quot (wrap64 (time_sub t since * n)) w)); lia.
Qed.

(** An instant has a bucket exactly when it is inside the window, if the products fit. *)
Lemma trend_index_inside t now n w :
  0 < n → second <= w → w * n <= max_int64 →
  is_Some (resolveMetricsTrendBucketIndex t (now - w) now n w) ↔ inside (now - w) now t = true.
Proof.
  intros Hn Hw Hm. unfold resolveMetricsTrendBucketIndex, inside, Before, After, second in *.
  rewrite (proj2 (Z.leb_gt n 0)), (proj2 (Z.leb_gt w 0)), !orb_false_r by lia.
  destruct (Z.ltb_spec t (now - w)), (Z.ltb_spec now t); simpl; try (split; [by intros [? ?]|done]).
  unfold time_sub. unfold max_int64 in *. rewrite wrap64_small by (unfold min_int64, max_int64; nia).
  rewrite (proj2 (Z.ltb_ge _ 0)); [split; [done|eauto]|]. apply Z.quot_pos; unfold min_int64; nia.
Qed.

(** A counter the status of a job moves, and the counter of creations. *)
Lemma trend_counts (c : JobMetricsTrendBucket → Z) (q r : IssueJob → bool) now n w l bs :
  (∀ j b, c (count_bucket j b) = c b + (if q j then 1 else 0)) →
  (∀ j b, c (b <| tbCreated ::= one_if true |>) = c b + (if r j then 1 else 0)) →
  0 < n → second <= w → w * n <= max_int64 → length bs = Z.to_nat n →
  total c (fold_left (count_trend (now - w) now n w) l bs)
  = total c bs + Z.of_nat (length (filterb (fun j => q j && inside (now - w) now (jobUpdatedAt j)) l))
    + Z.of_nat (length (filterb (fun j => r j && inside (now - w) now (jobCreatedAt j)) l)).
Proof.
  intros Hq Hr Hn Hw Hm. revert bs; induction l as [|j l IH]; intros bs Hl; [simpl; lia|]. cbn [fold_left filterb].
  assert (∀ t (f : JobMetricsTrendBucket → JobMetricsTrendBucket) (b : bool) xs, length xs = Z.to_nat n →
    (∀ x, c (f x) = c x + (if b then 1 else 0)) →
    let ys := match resolveMetricsTrendBucketIndex t (now - w) now n w with
              | Some i => alter f (Z.to_nat i) xs | None => xs end in
    length ys = Z.to_nat n ∧ total c ys = total c xs + (if b && inside (now - w) now t then 1 else 0)) as Hstep.
  { intros t f b xs Hx Hf. pose proof (trend_index_inside t now n w Hn Hw Hm) as Hi. cbv zeta.
    destruct (resolveMetricsTrendBucketIndex t (now - w) now n w) as [i|] eqn:E.
    - rewrite (proj1 Hi) by done. rewrite andb_true_r. rewrite length_alter. split; [done|].
      pose proof (trend_index_range _ _ _ _ _ _ Hn E). apply total_alter; [lia|done].
    - destruct (inside _ _ t); [by destruct (proj2 Hi eq_refl)|]. rewrite andb_false_r. split; [done|lia]. }
  destruct (Hstep (jobUpdatedAt j) (count_bucket j) (q j) bs Hl (Hq j)) as [L1 T1].
  destruct (Hstep (jobCreatedAt j) (fun b => b <| tbCreated ::= one_if true |>) (r j) _ L1 (Hr j)) as [L2 T2].
  unfold count_trend at 2. rewrite IH by exact L2. rewrite T2, T1.
  destruct (q j && inside (now - w) now (jobUpdatedAt j)), (r j && inside (now - w) now (jobCreatedAt j)); simpl; lia.
Qed.

Lemma window_loop l w :
  let r := fold_left count_window l w in
  jmwCreated r = jmwCreated w
  ∧ jmwUpdated r = jmwUpdated w + Z.of_nat (length l)
  ∧ jmwPending r = jmwPending w + Z.of_nat (length (filterb (is_status "pending") l))
  ∧ jmwProcessing r = jmwProcessing w + Z.of_nat (length (filterb (is_status "processing") l))
  ∧ jmwSuccess r = jmwSuccess w + Z.of_nat (length (filterb (is_status "success") l))
  ∧ jmwFailed r = jmwFailed w + Z.of_nat (length (filterb (is_status "failed") l))
  ∧ jmwDLQ r = jmwDLQ w + Z.of_nat (length (filterb (is_status "dlq") l)).
Proof.
  revert w; induction l as [|j l IH]; intros w; cbv zeta in *; [simpl; lia|]. cbn [fold_left filterb length].
  specialize (IH (count_window w j)). revert IH. generalize (fold_left count_window l (count_window w j)). intros r.
  simpl. unfold one_if. destruct (is_status "pending" j), (is_status "processing" j), (is_status "success" j),
    (is_status "failed" j), (is_status "dlq" j); simpl; lia.
Qed.

Lemma filterb_and {A} (p q : A → bool) l : filterb p (filterb q l) = filterb (fun x => p x && q x) l.
Proof.
  induction l as [|x l IH]; [done|]. simpl. destruct (q x); simpl; [|by rewrite andb_false_r].
  rewrite andb_true_r, IH. done.
Qed.

Lemma filterb_const {A} (l : list A) (q : A → bool) : length (filterb (fun x => false && q x) l) = 0%nat.
Proof. by induction l. Qed.

Lemma bucket_count_pos window n : second <= window → 0 < bucket_count window n <= 120.
Proof.
  intros Hw. unfold bucket_count. assert (1 <= whole_seconds window).
  { unfold whole_seconds. apply Z.quot_le_lower_bound; unfold second in *; lia. }
  destruct (Z.leb_spec n 0); repeat case_match; boolp; lia.
Qed.

Lemma window_at_least w : second <= window_or_default w.
Proof. unfold window_or_default. destruct (Z.ltb_spec w second); [unfold minute, second; lia|done]. Qed.

(** One counter of [trend_counts], moved by the jobs of [q] and [r]. *)
#[local] Ltac counter c q r :=
  match goal with
  | Ht : ∀ c q r, _, Hz : ∀ c, _ → total c _ = 0 |- _ =>
      rewrite (Ht c q r), Hz, filterb_const by (intros; simpl; unfold one_if; repeat case_match; lia);
      cbn [andb]; lia
  end.

(** The trend splits the window without loss: for every counter, the buckets of
    [GetJobMetricsTrend] add up to what [GetJobMetrics] reports for the same window,
    at any number of buckets, and both raise the same alerts, as long as 120 windows
    fit an [int64] of nanoseconds (a window of up to 889 days). *)
Theorem trend_matches_window `{!MapRange} now tenantID window n maxRetry threshold s :
  window_or_default window * 120 <= max_int64 →
  let w := jmWindow (GetJobMetrics now tenantID window maxRetry threshold s) in
  let t := GetJobMetricsTrend now tenantID window n maxRetry threshold s in
  total tbCreated (jtBuckets t) = jmwCreated w ∧ total tbUpdated (jtBuckets t) = jmwUpdated w
  ∧ total tbPending (jtBuckets t) = jmwPending w ∧ total tbProcessing (jtBuckets t) = jmwProcessing w
  ∧ total tbSuccess (jtBuckets t) = jmwSuccess w ∧ total tbFailed (jtBuckets t) = jmwFailed w
  ∧ total tbDLQ (jtBuckets t) = jmwDLQ w
  ∧ jtAlerts t = jmAlerts (GetJobMetrics now tenantID window maxRetry threshold s).
Proof.
  intros Hm. cbv zeta. unfold GetJobMetrics, GetJobMetricsTrend. cbn [jmWindow jtBuckets jtAlerts jmAlerts].
  set (win := window_or_default window) in *. set (own := jobs_of _ (jobs s)). set (k := bucket_count win n).
  pose proof (window_at_least window) as Hw. fold win in Hw.
  destruct (bucket_count_pos win n Hw) as [Hk1 Hk2]. fold k in Hk1, Hk2. assert (0 <= win) by (unfold second in Hw; lia).
  assert (win * k <= max_int64) as Hk by nia.
  set (bs := (fun i => empty_bucket now (now - win) win k (Z.of_nat i)) <$> seq 0 (Z.to_nat k)).
  assert (length bs = Z.to_nat k) as Hl by (unfold bs; by rewrite length_fmap, length_seq).
  assert (∀ c, (∀ i, c (empty_bucket now (now - win) win k i) = 0) → total c bs = 0) as Hz.
  { intros c Hc. unfold bs. clear -Hc. generalize (Z.to_nat k), 0%nat. intros m.
    induction m as [|m IH]; intros a; [done|]. cbn [seq fmap list_fmap total]. rewrite Hc. exact (IH (S a)). }
  match goal with |- context [fold_left count_window ?l ?w0] => destruct (window_loop l w0) as (-> & -> & -> & -> & -> & -> & ->) end.
  rewrite !filterb_and. cbn [jmwCreated jmwUpdated jmwPending jmwProcessing jmwSuccess jmwFailed jmwDLQ].
  pose proof (λ c q r Hq Hr, trend_counts c q r now k win own bs Hq Hr Hk1 Hw Hk Hl) as Ht.
  split_and!; [..|done].
  - counter tbCreated (fun _ : IssueJob => false) (fun _ : IssueJob => true).
  - counter tbUpdated (fun _ : IssueJob => true) (fun _ : IssueJob => false).
  - counter tbPending (is_status "pending") (fun _ : IssueJob => false).
  - counter tbProcessing (is_status "processing") (fun _ : IssueJob => false).
  - counter tbSuccess (is_status "success") (fun _ : IssueJob => false).
  - counter tbFailed (is_status "failed") (fun _ : IssueJob => false).
  - counter tbDLQ (is_status "dlq") (fun _ : IssueJob => false).
Qed.

#[local] Existing Instance sorted_range.
#[local] Abbreviation ex_service js :=
  (mkService None [] [] [] [] [] [] js [] [] [] [] [] 0 "mock" "" ∅ None "mock" ∅ None "" "" "" None None None []
     (mkNetwork [] [] [] [] [] [] [])).
#[local] Abbreviation ex_job id status at_ :=
  (mkIssueJob id "t" "google" "wbt_1" "wpt_1" "user" "u" "" "" status 0 "issue_failed" "" at_ at_).

(** Two dead letters, one at each end of the window. *)
Lemma trend_matches_window_witness :
  let s := ex_service [ex_job "a" "dlq" (85 * minute); ex_job "b" "dlq" (100 * minute); ex_job "c" "dlq" 0] in
  total tbDLQ (jtBuckets (GetJobMetricsTrend (100 * minute) "t" 0 4 0 0 s)) = 2.
Proof.
  cbv zeta.
  destruct (trend_matches_window (100 * minute) "t" 0 4 0 0
    (ex_service [ex_job "a" "dlq" (85 * minute); ex_job "b" "dlq" (100 * minute); ex_job "c" "dlq" 0]))
    as (_ & _ & _ & _ & _ & _ & -> & _); [vm_compute; congruence|]. vm_compute. reflexivity.
Defined.
