(* ===== verification/WalletAlerts.v ===== *)
(** * Alerts and deliveries of the wallet service (modules/wallet/service_jobs.go,
    alertdispatch/planner.go, alert_delivery.go, delivery.go)

    Subscriptions to alerts, the plan of a notification, its dispatch over mail,
    WhatsApp and Lark, retries with an idempotency key, cooldowns; and the
    delivery of a pass to its holder. *)

From S2P Require Import Prelude GoStrings GoTime Bytes Encoding GoText WalletData WalletState Wallet WalletJobs.
#[local] Open Scope string_scope.
#[local] Open Scope list_scope.
#[local] Open Scope Z_scope.

(** ** Providers *)

Definition SetJobAlertMockTransientFailCount (count : Z) : m unit :=
  modify (fun s => s <| jobAlertMockTransientFailCount := Z.min (Z.max count 0) 100 |>).

(** [newResendSender], [newCloudflareSender] and [newMetaWhatsAppSender] refuse
    missing credentials; the default Cloudflare endpoint needs an account id. *)
Definition newResendSender (apiKey from : string) : result wallet_err EmailSender :=
  if is_empty (TrimSpace apiKey) || is_empty (TrimSpace from)
  then Err (ErrText "resend provider requires api key/from") else Ok ResendSender.
Definition cloudflare_default : string :=
  "https://api.cloudflare.com/client/v4/accounts/{account_id}/email/sending/send".
Definition newCloudflareSender (endpoint accountID apiToken from : string) : result wallet_err EmailSender :=
  let resolved := if is_empty (TrimSpace endpoint) then cloudflare_default else TrimSpace endpoint in
  if Contains resolved "{account_id}" && is_empty (TrimSpace accountID)
  then Err (ErrText "cloudflare provider requires account id")
  else if is_empty (TrimSpace apiToken) || is_empty (TrimSpace from)
  then Err (ErrText "cloudflare provider requires api token/from") else Ok CloudflareSender.
Definition newMetaWhatsAppSender (apiKey phoneNumberID : string) : result wallet_err WhatsAppSender :=
  if is_empty (TrimSpace apiKey) || is_empty (TrimSpace phoneNumberID)
  then Err (ErrText "meta whatsapp provider requires api key/phone number id") else Ok MetaWhatsApp.

Section options.
Context {MR : MapRange}.

Definition SetJobAlertEmailDeliveryOptions (o : JobAlertEmailDeliveryOptions) : m unit :=
  let provider := if is_empty (lowered (edoProvider o)) then "mock" else lowered (edoProvider o) in
  let from := default_to "no-reply@mistypass.local" (edoEmailFrom o) in
  let receivers := normalizeJobAlertReceiverMap (edoReceiverMap o) in
  let receivers := if decide (receivers = ∅) then {["security" := ["security@mistypass.local"]]} else receivers in
  let wProvider := if is_empty (lowered (edoWhatsAppProvider o)) then "mock" else lowered (edoWhatsAppProvider o) in
  let wReceivers := normalizeJobAlertReceiverMap (edoWhatsAppReceiverMap o) in
  let wReceivers := if decide (wReceivers = ∅) then {["security" := ["+10000000000"]]} else wReceivers in
  '(provider, sender) ←
    (if String.eqb provider "mock" then mret (provider, None)
     else if one_of ["resend";"spaceemail"] provider then
       x ← lift (newResendSender (edoResendAPIKey o) from); mret ("resend", Some x)
     else if String.eqb provider "cloudflare" then
       x ← lift (newCloudflareSender (edoCloudflareEndpoint o) (edoCloudflareAccountID o) (edoCloudflareAPIToken o) from);
       mret (provider, Some x)
     else throw ErrInvalidJobAlertEmailProvider);
  wSender ←
    (if String.eqb wProvider "mock" then mret WhatsAppMock
     else if String.eqb wProvider "meta"
     then lift (newMetaWhatsAppSender (edoWhatsAppAPIKey o) (edoWhatsAppPhoneNumberID o))
     else throw ErrInvalidJobAlertWhatsAppProvider);
  modify (fun s => s <| jobAlertEmailProvider := provider |> <| jobAlertEmailFrom := from |>
    <| jobAlertEmailReceiverMap := receivers |> <| jobAlertEmailSender := sender |>
    <| jobAlertWhatsAppProvider := wProvider |> <| jobAlertWhatsAppReceiverMap := wReceivers |>
    <| jobAlertWhatsAppSender := Some wSender |>
    <| jobAlertWhatsAppTemplateName := TrimSpace (edoWhatsAppTemplateName o) |>
    <| jobAlertWhatsAppTemplateLang := TrimSpace (edoWhatsAppTemplateLang o) |>
    <| jobAlertLarkWebhookURL := TrimSpace (edoLarkAlertWebhookURL o) |>).
End options.

(** ** Planning (alertdispatch/planner.go) *)

Record Alert := mkAlert { plType : string; plErrorCode : string; plCount : Z; plThreshold : Z }.
Record Subscription := mkSubscription {
  plTenantID : string; plEnabled : bool; plChannels : list string; plReceiverGroups : list string
}.
Record PlannedNotification := mkPlanned {
  pnTenantID : string; pnType : string; pnErrorCode : string; pnCount : Z; pnThreshold : Z;
  pnChannels : list string; pnReceiverGroups : list string; pnIdempotencyKey : string; pnStatus : string;
  pnReason : string
}.

Definition NormalizeAlertType (v : string) : string := default_to "dlq_error_code_threshold" v.
Definition NormalizeErrorCode (v : string) : string := default_to "unknown" v.
Definition groups_or_security (groups : list string) : list string :=
  match normalizeReceiverGroups groups with [] => ["security"] | g => g end.

Section plan.
Context {DG : Digest}.

Definition BuildNotificationIdempotencyKey (tenantID alertType errorCode : string) (threshold : Z) : string :=
  hex_encode (take 12 (sha256 (of_string
    (normalizeTenantID tenantID +:+ "|" +:+ NormalizeAlertType alertType +:+ "|"
     +:+ NormalizeErrorCode errorCode +:+ "|" +:+ Itoa threshold)))).

Definition Plan (sub : Subscription) (a : Alert) (inCooldown : bool) : PlannedNotification :=
  let tenantID := normalizeTenantID (plTenantID sub) in
  let alertType := NormalizeAlertType (plType a) in
  let errorCode := NormalizeErrorCode (plErrorCode a) in
  let channels := normalizeDispatchChannels (plChannels sub) in
  let planned := mkPlanned tenantID alertType errorCode (plCount a) (plThreshold a) channels
                   (groups_or_security (plReceiverGroups sub))
                   (BuildNotificationIdempotencyKey tenantID alertType errorCode (plThreshold a)) in
  if negb (plEnabled sub) then planned "skipped" "subscription_disabled"
  else if bool_decide (channels = []) then planned "skipped" "channel_disabled"
  else if inCooldown then planned "skipped" "cooldown"
  else planned "ready" "".
End plan.

(** ** Cooldowns *)

Definition cooldown_of (tenantID errorCode : string) (c : JobAlertDispatchCooldown) : bool :=
  String.eqb (cdTenantID c) tenantID && String.eqb (cdErrorCode c) errorCode.
Definition isJobAlertInCooldownLocked (tenantID errorCode : string) (cooldown now : Z) (s : Service) : bool :=
  if cooldown <=? 0 then false
  else match findi (cooldown_of tenantID errorCode) (jobAlertCooldowns s) with
       | Some (_, c) => time_sub now (cdLastSentAt c) <? cooldown
       | None => false
       end.
Definition upsertJobAlertCooldownLocked (tenantID errorCode : string) (now : Z) : m unit :=
  modify (fun s =>
    match findi (cooldown_of tenantID errorCode) (jobAlertCooldowns s) with
    | Some (i, c) => s <| jobAlertCooldowns ::= <[i := c <| cdLastSentAt := now |>]> |>
    | None => s <| jobAlertCooldowns ::=
                  (fun l => take 2000 (mkJobAlertDispatchCooldown tenantID errorCode now :: l)) |>
    end).

(** ** Receivers and messages *)

(** The receivers of the groups: those the map gives for a group, else the group
    itself when it is an address; repetitions up to case are dropped. *)
Definition add_receiver (acc : list string * list string) (v : string) : list string * list string :=
  let '(receivers, seen) := acc in
  let next := TrimSpace v in
  if is_empty next || existsb (String.eqb (ToLower next)) seen then acc
  else (receivers ++ [next], ToLower next :: seen).
Definition resolve_receivers (known : gmap string (list string)) (is_address : string → bool) (groups : list string) :
    list string :=
  fst (fold_left (fun acc g =>
    match known !! ToLower g with
    | Some mapped => fold_left add_receiver mapped acc
    | None => if is_address g then add_receiver acc g else acc
    end) (normalizeReceiverGroups groups) ([], [])).
Definition resolveAlertEmailReceiversLocked (groups : list string) (s : Service) : list string :=
  resolve_receivers (jobAlertEmailReceiverMap s) looksLikeEmail groups.
Definition resolveAlertWhatsAppReceiversLocked (groups : list string) (s : Service) : list string :=
  resolve_receivers (jobAlertWhatsAppReceiverMap s) looksLikePhoneNumber groups.

Definition resolveAlertChannels (c : JobAlertSubscriptionChannels) : list string :=
  (if schEmail c then ["email"] else []) ++ (if schWhatsApp c then ["whatsapp"] else []).

Definition buildJobAlertEmailMessage (r : JobAlertNotification) : string * string :=
  ("[MistyPass][" +:+ TrimSpace (janTenantID r) +:+ "] Wallet 告警：" +:+ TrimSpace (janErrorCode r),
   "tenant=" +:+ TrimSpace (janTenantID r) +:+ newline +:+ "type=" +:+ TrimSpace (janType r) +:+ newline
   +:+ "error_code=" +:+ TrimSpace (janErrorCode r) +:+ newline +:+ "count=" +:+ Itoa (janCount r) +:+ newline
   +:+ "threshold=" +:+ Itoa (janThreshold r) +:+ newline +:+ "triggered_at=" +:+ format_rfc3339 (janTriggeredAt r)).
Definition buildJobAlertWhatsAppMessage (r : JobAlertNotification) : string :=
  "[MistyPass][" +:+ TrimSpace (janTenantID r) +:+ "] Wallet告警 error_code=" +:+ TrimSpace (janErrorCode r)
  +:+ " count=" +:+ Itoa (janCount r) +:+ " threshold=" +:+ Itoa (janThreshold r) +:+ " at="
  +:+ format_rfc3339 (janTriggeredAt r).

(** ** Results per channel *)

Definition or_mock (provider : string) : string := if is_empty provider then "mock" else provider.
Definition as_resend (provider : string) : string := if String.eqb provider "spaceemail" then "resend" else provider.

Definition static_result (channel status reason : string) : JobAlertChannelResult :=
  mkJobAlertChannelResult channel status reason "" "" "" "" false [].
Definition no_receivers (channel provider : string) : JobAlertChannelResult :=
  mkJobAlertChannelResult channel "failed" (channel +:+ "_receivers_not_configured") provider
    (channel +:+ " receivers not configured") "" "" false [].
Definition not_configured (channel provider text : string) (receivers : list string) : JobAlertChannelResult :=
  mkJobAlertChannelResult channel "failed" "provider_not_configured" provider text "" "" false receivers.
Definition send_failed (channel provider : string) (e : send_error) (receivers : list string) : JobAlertChannelResult :=
  let retryable := isJobAlertProviderRetryable e in
  mkJobAlertChannelResult channel "failed" (if retryable then "provider_transient_error" else "provider_error")
    provider (TrimSpace (send_error_text e)) "" "" retryable receivers.
Definition sent (channel provider deliveryID deliveryStatus : string) (receivers : list string) : JobAlertChannelResult :=
  mkJobAlertChannelResult channel "sent" "" provider "" (TrimSpace deliveryID) (TrimSpace deliveryStatus) false receivers.

(** A mail through the configured sender. *)
Definition send_mail (provider : string) (input : AlertEmailSendInput) : m JobAlertChannelResult :=
  sender ← gets jobAlertEmailSender;
  match sender with
  | None => mret (not_configured "email" provider (provider +:+ " sender is not configured") (esTo input))
  | Some _ =>
      r ← email_Send input;
      mret (match r with
            | Err e => send_failed "email" provider e (esTo input)
            | Ok a => sent "email" provider (esrProviderDeliveryID a) (esrProviderDeliveryStatus a) (esTo input)
            end)
  end.
(** A WhatsApp message through the configured sender. *)
Definition send_whatsapp (provider : string) (input : AlertWhatsAppSendInput) : m JobAlertChannelResult :=
  sender ← gets jobAlertWhatsAppSender;
  match sender with
  | None => mret (not_configured "whatsapp" provider (provider +:+ " whatsapp sender is not configured") (wsTo input))
  | Some w =>
      r ← whatsapp_Send w input;
      mret (match r with
            | Err e => send_failed "whatsapp" provider e (wsTo input)
            | Ok a => sent "whatsapp" provider (wsrProviderDeliveryID a) (wsrProviderDeliveryStatus a) (wsTo input)
            end)
  end.
Definition unsupported (provider : string) (receivers : list string) : JobAlertChannelResult :=
  mkJobAlertChannelResult "whatsapp" "failed" "provider_not_supported" provider "" "" "" false receivers.

Definition hasSentJobAlertByIdempotencyLocked (tenantID key : string) (s : Service) : bool :=
  negb (is_empty key)
  && existsb (fun n => String.eqb (janTenantID n) tenantID && String.eqb (janIdempotencyKey n) key
                       && String.eqb (janStatus n) "sent") (jobAlertNotifications s).

Definition dispatchJobAlertEmailChannelLocked (r : JobAlertNotification) (attempt : Z) : m JobAlertChannelResult :=
  provider ← gets (fun s => or_mock (jobAlertEmailProvider s));
  recipients ← gets (resolveAlertEmailReceiversLocked (janReceiverGroups r));
  if bool_decide (recipients = []) then mret (no_receivers "email" provider)
  else
    let provider := as_resend provider in
    if one_of ["resend";"cloudflare"] provider then
      send_mail provider (mkAlertEmailSendInput (janTenantID r) recipients (janIdempotencyKey r)
        (buildJobAlertEmailMessage r).1 (buildJobAlertEmailMessage r).2)
    else
      failing ← gets (fun s => (0 <? jobAlertMockTransientFailCount s)
        && negb (hasSentJobAlertByIdempotencyLocked (janTenantID r) (janIdempotencyKey r) s)
        && (attempt <=? jobAlertMockTransientFailCount s));
      mret (if failing : bool
            then mkJobAlertChannelResult "email" "failed" "provider_transient_error" "mock" "provider_unavailable"
                   "" "" true recipients
            else sent "email" "mock" "" "" recipients).

Definition dispatchJobAlertWhatsAppChannelLocked (r : JobAlertNotification) : m JobAlertChannelResult :=
  provider ← gets (fun s => or_mock (jobAlertWhatsAppProvider s));
  receivers ← gets (resolveAlertWhatsAppReceiversLocked (janReceiverGroups r));
  if bool_decide (receivers = []) then mret (no_receivers "whatsapp" provider)
  else if one_of ["mock";"meta"] provider then
    send_whatsapp provider (mkAlertWhatsAppSendInput (janTenantID r) receivers (janIdempotencyKey r)
      (buildJobAlertWhatsAppMessage r) "" [] "")
  else mret (unsupported provider receivers).

Definition is_sent (c : JobAlertChannelResult) : bool := String.eqb (crStatus c) "sent".
Definition is_failed (c : JobAlertChannelResult) : bool := String.eqb (crStatus c) "failed".
Definition summarizeProvider (l : list JobAlertChannelResult) : string :=
  match remove_dups (filterb (fun p => negb (is_empty p)) ((fun c => TrimSpace (crProvider c)) <$> filterb is_sent l)) with
  | [] => ""
  | [p] => p
  | _ => "multi"
  end.

(** status, reason, provider, provider error, retryable *)
Definition summary : Type := string * string * string * string * bool.
Definition summarizeJobAlertChannelResults (l : list JobAlertChannelResult) : summary :=
  let retryable := existsb (fun c => is_failed c && crRetryable c) l in
  let firstFailed := snd <$> findi is_failed l in
  let firstSkipped := snd <$> findi (fun c => String.eqb (crStatus c) "skipped" && negb (is_empty (crChannel c))) l in
  if existsb is_sent l then
    match firstFailed with
    | Some f => ("sent", "partial_channel_failure", summarizeProvider l, crProviderError f, retryable)
    | None => ("sent", "", summarizeProvider l, "", false)
    end
  else match firstFailed, firstSkipped with
       | Some f, _ => ("failed", crReason f, crProvider f, crProviderError f, retryable)
       | None, Some k => ("skipped", crReason k, crProvider k, "", false)
       | None, None => ("skipped", "channel_disabled", "", "", false)
       end.

Fixpoint mapM_op {A B} (f : A → m B) (l : list A) : m (list B) :=
  match l with
  | [] => mret []
  | x :: l' => y ← f x; ys ← mapM_op f l'; mret (y :: ys)
  end.

Definition dispatchJobAlertWithProviderLocked (r : JobAlertNotification) (attempt : Z) :
    m (summary * list JobAlertChannelResult) :=
  let attempt := Z.max attempt 1 in
  results ← mapM_op (fun ch =>
    if String.eqb ch "email" then dispatchJobAlertEmailChannelLocked r attempt
    else if String.eqb ch "whatsapp" then dispatchJobAlertWhatsAppChannelLocked r
    else mret (static_result ch "skipped" "channel_disabled")) (normalizeDispatchChannels (janChannels r));
  mret (summarizeJobAlertChannelResults results, results).
Definition buildStaticJobAlertChannelResults (channels : list string) (status reason : string) :
    list JobAlertChannelResult :=
  (fun ch => static_result ch status reason) <$> normalizeDispatchChannels channels.

(** ** Subscriptions *)

Definition resolveJobAlertSubscriptionUpsertOptions (x : JobAlertSubscriptionUpsertOptions) :
    result wallet_err JobAlertSubscriptionUpsertOptions :=
  let groups := normalizeReceiverGroups (suoReceiverGroups x) in
  let week := 7 * 24 * hour in
  if (suoDLQAlertThreshold x <? 1) || (100000 <? suoDLQAlertThreshold x)
     || (suoWindow x <? second) || (week <? suoWindow x) || (suoCooldown x <? 0) || (week <? suoCooldown x)
     || (20 <? Z.of_nat (length groups))
     || (suoEnabled x && negb (suoEmailEnabled x) && negb (suoWhatsAppEnabled x))
  then Err ErrInvalidJobAlertSubscriptionOptions
  else Ok (mkJobAlertSubscriptionUpsertOptions (normalizeTenantID (suoTenantID x)) (suoEnabled x)
             (suoDLQAlertThreshold x) (suoWindow x) (suoCooldown x) (suoEmailEnabled x) (suoWhatsAppEnabled x)
             (groups_or_security (suoReceiverGroups x)) (normalizeActor (suoActor x))).

Definition GetJobAlertSubscription (tenantID : string) (s : Service) : option JobAlertSubscription :=
  match findi (fun x => String.eqb (subTenantID x) (normalizeTenantID tenantID)) (jobAlertSubscriptions s) with
  | Some (_, x) => Some (cloneJobAlertSubscription x)
  | None => None
  end.

Definition ListJobAlertNotifications (tenantID : string) (limit : Z) (s : Service) : list JobAlertNotification :=
  take (Z.to_nat (limited 50 500 limit))
    (cloneJobAlertNotification <$> of_tenant janTenantID tenantID (jobAlertNotifications s)).

Section alerts.
Context {MR : MapRange} {DG : Digest}.

Definition UpsertJobAlertSubscription (now : Z) (input : JobAlertSubscriptionUpsertOptions) : m JobAlertSubscription :=
  o ← lift (resolveJobAlertSubscriptionUpsertOptions input);
  let record := cloneJobAlertSubscription
    (mkJobAlertSubscription (suoTenantID o) (suoEnabled o) (suoDLQAlertThreshold o) (whole_seconds (suoWindow o))
       (whole_seconds (suoCooldown o)) (mkJobAlertSubscriptionChannels (suoEmailEnabled o) (suoWhatsAppEnabled o))
       (normalizeReceiverGroups (suoReceiverGroups o)) now) in
  modify (fun s =>
    match findi (fun x => String.eqb (subTenantID x) (suoTenantID o)) (jobAlertSubscriptions s) with
    | Some (i, _) => s <| jobAlertSubscriptions ::= <[i := record]> |>
    | None => s <| jobAlertSubscriptions ::= cons record |>
    end);;
  appendAuditLocked now (suoTenantID o) "wallet.job.alert_subscription.upsert" (normalizeActor (suoActor o))
    (suoTenantID o) "success";;
  persistLocked;; mret record.

(** ** Dispatch *)

(** One more than the highest attempt on record. *)
Definition nextJobAlertAttemptLocked (tenantID key : string) (s : Service) : Z :=
  fold_left (fun n x =>
    if String.eqb (janTenantID x) tenantID && String.eqb (janIdempotencyKey x) key && (n <=? janAttempt x)
    then janAttempt x + 1 else n) (jobAlertNotifications s) 1.

(** A notification with the outcome of its dispatch. *)
Definition with_outcome (r : JobAlertNotification) (x : summary) (results : list JobAlertChannelResult) :
    JobAlertNotification :=
  let '(status, reason, provider, providerError, retryable) := x in
  r <| janStatus := status |> <| janReason := reason |> <| janProvider := provider |>
    <| janProviderError := providerError |> <| janRetryable := retryable |> <| janChannelResults := results |>.
Definition with_reason (status reason : string) : string :=
  if is_empty reason then status else status +:+ ":" +:+ reason.

Definition dispatch_one (now : Z) (sub : JobAlertSubscription) (cooldown : Z) (actor : string) (a : JobMetricsAlert) :
    m JobAlertNotification :=
  let tenantID := normalizeTenantID (subTenantID sub) in
  let errorCode := NormalizeErrorCode (jmaErrorCode a) in
  inCooldown ← gets (isJobAlertInCooldownLocked tenantID errorCode cooldown now);
  let p := Plan (mkSubscription tenantID (subEnabled sub) (resolveAlertChannels (subChannels sub))
                   (groups_or_security (subReceiverGroups sub)))
             (mkAlert (jmaType a) (jmaErrorCode a) (jmaCount a) (jmaThreshold a)) inCooldown in
  provider ← gets jobAlertEmailProvider;
  let r := mkJobAlertNotification "" (pnTenantID p) (pnType p) (pnErrorCode p) (pnCount p) (pnThreshold p)
             (pnChannels p) (pnReceiverGroups p) (pnStatus p) (pnReason p) (pnIdempotencyKey p) 0 false provider ""
             [] "" now in
  r ← (if String.eqb (janStatus r) "ready" then
         attempt ← gets (nextJobAlertAttemptLocked tenantID (pnIdempotencyKey p));
         let r := r <| janAttempt := attempt |> in
         '(x, results) ← dispatchJobAlertWithProviderLocked r attempt;
         mret (with_outcome r x results)
       else mret (r <| janChannelResults :=
                    buildStaticJobAlertChannelResults (janChannels r) (janStatus r) (janReason r) |>));
  id ← walletID_or "wan_" now;
  let r := r <| janID := id |> in
  let audit (result : string) := appendAuditLocked now tenantID "wallet.job.alert.dispatch" actor errorCode result in
  (if String.eqb (janStatus r) "sent" then upsertJobAlertCooldownLocked tenantID errorCode now;; audit "sent"
   else if String.eqb (janStatus r) "failed" then audit (with_reason "failed" (janReason r))
   else audit (with_reason "skipped" (janReason r)));;
  mret (cloneJobAlertNotification r).

Definition add_notifications (l : list JobAlertNotification) : m unit :=
  modify (fun s => s <| jobAlertNotifications ::= (fun old => take 5000 ((cloneJobAlertNotification <$> l) ++ old)) |>).
Definition count_status (status : string) (l : list JobAlertNotification) : Z :=
  Z.of_nat (length (filterb (fun n => String.eqb (janStatus n) status) l)).

Definition DispatchJobMetricsAlerts (now : Z) (sub : JobAlertSubscription) (alerts : list JobMetricsAlert)
    (actor : string) : m JobAlertDispatchResult :=
  let tenantID := normalizeTenantID (subTenantID sub) in
  let cooldown := Z.max 0 (wrap64 (subCooldownSeconds sub * second)) in
  let n := Z.of_nat (length alerts) in
  match alerts with
  | [] => mret (mkJobAlertDispatchResult tenantID n 0 0 0 [] now)
  | _ =>
      items ← mapM_op (dispatch_one now sub cooldown (normalizeActor actor)) alerts;
      add_notifications items;;
      persistLocked;;
      mret (mkJobAlertDispatchResult tenantID n (count_status "sent" items)
              (n - count_status "sent" items - count_status "failed" items) (count_status "failed" items) items now)
  end.

Definition RetryJobAlertNotification (now : Z) (tenantID notificationID actor : string) : m JobAlertNotification :=
  let nextTenantID := normalizeTenantID tenantID in
  let id := TrimSpace notificationID in
  let nextActor := normalizeActor actor in
  fail_if (is_empty id) ErrJobAlertNotificationNotFound;;
  found ← gets (fun s =>
    findi (fun n => String.eqb (janTenantID n) nextTenantID && String.eqb (janID n) id) (jobAlertNotifications s));
  match found with
  | None => throw ErrJobAlertNotificationNotFound
  | Some (_, source) =>
      let source := cloneJobAlertNotification source in
      fail_if (negb (String.eqb (janStatus source) "failed") || negb (janRetryable source)) ErrJobAlertRetryNotAllowed;;
      let key := if is_empty (TrimSpace (janIdempotencyKey source))
                 then BuildNotificationIdempotencyKey nextTenantID (TrimSpace (janType source))
                        (TrimSpace (janErrorCode source)) (janThreshold source)
                 else TrimSpace (janIdempotencyKey source) in
      newID ← walletID_or "wan_" now;
      provider ← gets jobAlertEmailProvider;
      let r := source <| janID := newID |> <| janIdempotencyKey := key |> <| janSourceNotificationID := janID source |>
                 <| janTriggeredAt := now |> <| janProvider := provider |> <| janProviderError := "" |>
                 <| janReason := "" |> <| janRetryable := false |> in
      let audit (result : string) :=
        appendAuditLocked now nextTenantID "wallet.job.alert.retry" nextActor (janID source) result in
      already ← gets (hasSentJobAlertByIdempotencyLocked nextTenantID key);
      r ← (if already : bool then
             let r := r <| janStatus := "skipped" |> <| janReason := "idempotent_already_sent" |> in
             audit "skipped:idempotent_already_sent";;
             mret (r <| janChannelResults :=
                     buildStaticJobAlertChannelResults (janChannels r) (janStatus r) (janReason r) |>)
           else
             attempt ← gets (nextJobAlertAttemptLocked nextTenantID key);
             let r := r <| janAttempt := attempt |> in
             '(x, results) ← dispatchJobAlertWithProviderLocked r attempt;
             let r := with_outcome r x results in
             (if String.eqb (janStatus r) "sent" then
                upsertJobAlertCooldownLocked nextTenantID (janErrorCode r) now;; audit "sent"
              else audit (with_reason "failed" (janReason r)));;
             mret (if String.eqb (janStatus r) "sent" && is_empty (janReason r)
                   then r <| janProviderError := "" |> else r));
      add_notifications [r];;
      persistLocked;; mret (cloneJobAlertNotification r)
  end.

(** ** Alerts of other modules (alert_delivery.go) *)

Definition dispatchAlertEmailMessageLocked (tenantID : string) (groups : list string) (key subject text : string) :
    m JobAlertChannelResult :=
  provider ← gets (fun s => or_mock (jobAlertEmailProvider s));
  recipients ← gets (resolveAlertEmailReceiversLocked groups);
  if bool_decide (recipients = []) then mret (no_receivers "email" provider)
  else if one_of ["resend";"cloudflare"] (as_resend provider) then
    send_mail (as_resend provider)
      (mkAlertEmailSendInput tenantID recipients (TrimSpace key) (TrimSpace subject) (TrimSpace text))
  else mret (sent "email" "mock" "" "" recipients).

Definition dispatchAlertWhatsAppMessageLocked (tenantID : string) (groups : list string) (key text : string) :
    m JobAlertChannelResult :=
  provider ← gets (fun s => or_mock (jobAlertWhatsAppProvider s));
  receivers ← gets (resolveAlertWhatsAppReceiversLocked groups);
  if bool_decide (receivers = []) then mret (no_receivers "whatsapp" provider)
  else if one_of ["mock";"meta"] provider then
    template ← gets jobAlertWhatsAppTemplateName;
    lang ← gets jobAlertWhatsAppTemplateLang;
    send_whatsapp provider (mkAlertWhatsAppSendInput tenantID receivers (TrimSpace key) (TrimSpace text) template []
      (if is_empty template then "" else lang))
  else mret (unsupported provider receivers).

Definition dispatchAlertLarkMessageLocked (webhookURL text : string) : m JobAlertChannelResult :=
  configured ← gets jobAlertLarkWebhookURL;
  let url := if is_empty webhookURL then configured else webhookURL in
  if is_empty url then mret (static_result "lark" "skipped" "lark_webhook_not_configured")
  else if is_empty (TrimSpace text) then mret (static_result "lark" "skipped" "empty_text")
  else
    r ← lark_SendText url text;
    mret (match r with
          | Some e => mkJobAlertChannelResult "lark" "failed" "provider_error" "lark_bot" e "" "" true []
          | None => mkJobAlertChannelResult "lark" "sent" "" "lark_bot" "" "" "" false []
          end).

Definition DispatchAlert (i : AlertDeliveryInput) : m AlertDeliveryResult :=
  results ← mapM_op (fun ch =>
    if String.eqb ch "email" then
      dispatchAlertEmailMessageLocked (TrimSpace (adiTenantID i)) (adiReceiverGroups i) (adiIdempotencyKey i)
        (adiEmailSubject i) (adiEmailText i)
    else if String.eqb ch "whatsapp" then
      dispatchAlertWhatsAppMessageLocked (TrimSpace (adiTenantID i)) (adiReceiverGroups i) (adiIdempotencyKey i)
        (adiWhatsAppText i)
    else if String.eqb ch "lark" then dispatchAlertLarkMessageLocked (adiLarkWebhookURL i) (adiLarkAlertText i)
    else mret (static_result ch "skipped" "channel_disabled")) (normalizeDispatchChannels (adiChannels i));
  let '(status, reason, provider, providerError, retryable) := summarizeJobAlertChannelResults results in
  mret (mkAlertDeliveryResult status reason provider providerError retryable results).
End alerts.

(** ** A cooldown keeps the senders quiet *)

(** What leaves the network and the cooldowns alone. *)
Definition same_alarms (s0 s : Service) : Prop :=
  network s = network s0 ∧ jobAlertCooldowns s = jobAlertCooldowns s0.
Definition Silent {A} (f : m A) : Prop := ∀ s0, preserves (same_alarms s0) f.

Lemma silent_rand n : Silent (rand_read n).
Proof. intros s0 s [??]. unfold exec, rand_read. destruct (entropy s) as [|c cs]; split; done. Qed.
Lemma silent_walletID_or p now : Silent (walletID_or p now).
Proof.
  intros s0. apply pres_bind; [|intros id; apply pres_ret]. apply pres_try_op, pres_bind; [|intros; apply pres_ret].
  apply silent_rand.
Qed.
Lemma silent_audit now t a b c d : Silent (appendAuditLocked now t a b c d).
Proof. intros s0. apply pres_bind; [apply silent_walletID_or|]. intros id. apply pres_modify. by intros s [??]. Qed.
Lemma silent_persist `{!MapRange} : Silent persistLocked.
Proof.
  intros s0 s [??]. unfold exec, persistLocked. rewrite bind_gets. unfold save.
  destruct (stateStore s) as [[[|[e|] rs] o]|]; split; done.
Qed.
Lemma silent_run {A} (f : m A) s s' r : Silent f → f s = (s', r) → same_alarms s s'.
Proof. intros Hf Hr. specialize (Hf s s ltac:(done)). unfold exec in Hf. by rewrite Hr in Hf. Qed.

(** When an error code was last sent for. *)
Definition last_sent (tenantID errorCode : string) (s : Service) : option Z :=
  (fun x => cdLastSentAt x.2) <$> findi (cooldown_of tenantID errorCode) (jobAlertCooldowns s).

Lemma findi_insert_same {A} (p : A → bool) l i x y :
  findi p l = Some (i, x) → p y = true → findi p (<[i := y]> l) = Some (i, y).
Proof.
  revert i; induction l as [|a l IH]; intros i; simpl; [done|]. destruct (p a) eqn:Ha.
  - intros [= <- <-] Hy. simpl. by rewrite Hy.
  - destruct (findi p l) as [[j z]|] eqn:Hf; [|done]. intros [= <- <-] Hy. simpl. by rewrite Ha, (IH j eq_refl Hy).
Qed.
Lemma findi_insert_other {A} (p q : A → bool) l i x y :
  findi q l = Some (i, x) → p x = false → p y = false → findi p (<[i := y]> l) = findi p l.
Proof.
  revert i; induction l as [|a l IH]; intros i; simpl; [done|]. destruct (q a) eqn:Ha.
  - intros [= <- <-] Hx Hy. simpl. by rewrite Hx, Hy.
  - destruct (findi q l) as [[j z]|] eqn:Hf; [|done]. intros [= <- <-] Hx Hy. simpl. by rewrite (IH j eq_refl Hx Hy).
Qed.

Lemma cooldown_other t e e' c : cooldown_of t e c = true → e' ≠ e → cooldown_of t e' c = false.
Proof.
  unfold cooldown_of. intros H Hne. boolp. rewrite H, String.eqb_refl. subst. simpl. apply String.eqb_neq. congruence.
Qed.

(** After an entry was made, it holds the time; others keep theirs while the list is short. *)
Lemma upsert_last t e now s :
  let s' := exec (upsertJobAlertCooldownLocked t e now) s in
  last_sent t e s' = Some now
  ∧ (length (jobAlertCooldowns s') <= S (length (jobAlertCooldowns s)))%nat
  ∧ ((length (jobAlertCooldowns s) < 2000)%nat → ∀ e', e' ≠ e → last_sent t e' s' = last_sent t e' s).
Proof.
  cbv zeta. unfold upsertJobAlertCooldownLocked. rewrite exec_modify_last. unfold last_sent.
  destruct (findi (cooldown_of t e) (jobAlertCooldowns s)) as [[i c]|] eqn:Hf.
  - pose proof (findi_true _ _ _ _ Hf) as Hc. set (c' := c <| cdLastSentAt := now |>).
    assert (cooldown_of t e c' = true) as Hc' by exact Hc. simpl. split_and!.
    + by rewrite (findi_insert_same _ _ _ _ _ Hf Hc').
    + rewrite length_insert. lia.
    + intros _ e' Hne. by rewrite (findi_insert_other (cooldown_of t e') _ _ _ _ _ Hf (cooldown_other _ _ _ _ Hc Hne)
        (cooldown_other _ _ _ _ Hc' Hne)).
  - simpl. assert (cooldown_of t e (mkJobAlertDispatchCooldown t e now) = true) as Hc
      by (unfold cooldown_of; simpl; by rewrite !String.eqb_refl). split_and!.
    + by rewrite Hc.
    + rewrite length_take. lia.
    + intros Hl e' Hne. rewrite (cooldown_other _ _ _ _ Hc Hne), take_ge by lia.
      destruct (findi (cooldown_of t e') (jobAlertCooldowns s)) as [[]|]; reflexivity.
Qed.

Section cooldowns.
Context {MR : MapRange} {DG : Digest}.

#[export] Instance quiet_send_mail p i : Quiet (send_mail p i).
Proof. apply quiet_bind; [apply _|]. intros [x|]; apply _. Qed.
#[export] Instance quiet_send_whatsapp p i : Quiet (send_whatsapp p i).
Proof. apply quiet_bind; [apply _|]. intros [x|]; apply _. Qed.
#[export] Instance quiet_mapM {A B} (f : A → m B) l `{!∀ a, Quiet (f a)} : Quiet (mapM_op f l).
Proof. induction l as [|x l IH]; apply _. Qed.
#[export] Instance quiet_ja_email r n : Quiet (dispatchJobAlertEmailChannelLocked r n).
Proof. unfold dispatchJobAlertEmailChannelLocked. apply _. Qed.
#[export] Instance quiet_ja_whatsapp r : Quiet (dispatchJobAlertWhatsAppChannelLocked r).
Proof. unfold dispatchJobAlertWhatsAppChannelLocked. apply _. Qed.
#[export] Instance quiet_dispatch r n : Quiet (dispatchJobAlertWithProviderLocked r n).
Proof. unfold dispatchJobAlertWithProviderLocked. apply _. Qed.

(** One alert: a notification of the tenant's code; the entry of the code is made
    exactly when something was sent; in the cooldown nothing is. *)
Lemma dispatch_one_run now sub cooldown actor a s s' n :
  let t := normalizeTenantID (subTenantID sub) in
  let e := NormalizeErrorCode (jmaErrorCode a) in
  dispatch_one now sub cooldown actor a s = (s', Ok n) →
  janErrorCode n = e
  ∧ (length (jobAlertCooldowns s') <= S (length (jobAlertCooldowns s)))%nat
  ∧ (janStatus n = "sent" → last_sent t e s' = Some now)
  ∧ ((length (jobAlertCooldowns s) < 2000)%nat → ∀ e', last_sent t e' s = Some now → last_sent t e' s' = Some now)
  ∧ (isJobAlertInCooldownLocked t e cooldown now s = true → janStatus n = "skipped" ∧ same_alarms s s').
Proof.
  cbv zeta. unfold dispatch_one. rewrite bind_gets. set (t := normalizeTenantID (subTenantID sub)).
  set (e := NormalizeErrorCode (jmaErrorCode a)). set (p := Plan _ _ _). rewrite bind_gets.
  assert (pnErrorCode p = e) as Hpe by (unfold p, Plan; by repeat case_match).
  assert (isJobAlertInCooldownLocked t e cooldown now s = true → String.eqb (pnStatus p) "ready" = false ∧ pnStatus p = "skipped") as Hp.
  { intros Hc. unfold p, Plan. rewrite Hc. destruct (negb _); [done|]. by destruct (bool_decide _). }
  generalize dependent p. intros p Hpe Hp Hr. apply bind_ok in Hr as (s1 & r & H1 & Hr).
  apply bind_ok in Hr as (s2 & id & H2 & Hr). apply bind_ok in Hr as (s3 & u & H3 & Hr). injection Hr as <- <-.
  assert (quiet s s1 ∧ janErrorCode r = e ∧ (String.eqb (pnStatus p) "ready" = false → s1 = s ∧ janStatus r = pnStatus p))
    as (Hq1 & Hre & Hrs).
  { cbn [janStatus] in H1. destruct (String.eqb (pnStatus p) "ready").
    - rewrite bind_gets in H1. apply bind_ok in H1 as (s4 & [x results] & H4 & H1). injection H1 as <- <-.
      split_and!; [exact (quiet_run _ _ _ _ H4)| |done]. destruct x as [[[[??]?]?]?]. exact Hpe.
    - injection H1 as <- <-. split_and!; [apply quiet_refl|exact Hpe|done]. }
  pose proof (quiet_run _ _ _ _ H2) as Hq2. pose proof (silent_run _ _ _ _ (silent_walletID_or _ _) H2) as Hs2.
  assert (jobAlertCooldowns s2 = jobAlertCooldowns s) as Hcd
    by (rewrite (quiet_cooldowns _ _ Hq2); apply (quiet_cooldowns _ _ Hq1)).
  cbn [janStatus janReason] in H3. split; [exact Hre|]. cbn [cloneJobAlertNotification janStatus].
  change (janStatus (cloneJobAlertNotification (r <| janID := id |>))) with (janStatus r).
  change (janStatus (r <| janID := id |>)) with (janStatus r) in H3.
  destruct (String.eqb_spec (janStatus r) "sent") as [Hsent|Hsent].
  - apply bind_ok in H3 as (s4 & v & H4 & H5). pose proof (upsert_last t e now s2) as (U1 & U2 & U3).
    unfold exec in U1, U2, U3. rewrite H4 in U1, U2, U3. cbn [fst] in U1, U2, U3.
    pose proof (silent_run _ _ _ _ (silent_audit _ _ _ _ _ _) H5) as [_ Hc3].
    unfold last_sent in *. rewrite Hc3, Hcd in *. split_and!; [done|done| |].
    + intros Hl e' He'. destruct (decide (e' = e)) as [->|Hne]; [done|]. by rewrite U3.
    + intros Hin. destruct (Hp Hin) as [Hnr Hsk]. destruct (Hrs Hnr) as [_ Hst]. rewrite Hsk, Hsent in Hst. discriminate Hst.
  - assert (same_alarms s2 s3) as Hs3.
    { destruct (String.eqb (janStatus r) "failed"); exact (silent_run _ _ _ _ (silent_audit _ _ _ _ _ _) H3). }
    unfold last_sent. destruct Hs3 as [Hn3 Hc3]. rewrite Hc3, Hcd. split_and!; [lia|done|done|].
    intros Hin. destruct (Hp Hin) as [Hnr Hsk]. destruct (Hrs Hnr) as [-> Hst]. split; [change (janStatus r = "skipped"); congruence|].
    split; [rewrite Hn3; apply Hs2|by rewrite Hc3].
Qed.

Lemma mapM_ok {A B} (f : A → m B) x l s s' ys :
  mapM_op f (x :: l) s = (s', Ok ys) →
  ∃ s1 y ys', f x s = (s1, Ok y) ∧ mapM_op f l s1 = (s', Ok ys') ∧ ys = y :: ys'.
Proof.
  cbn [mapM_op]. intros Hr. apply bind_ok in Hr as (s1 & y & H1 & Hr). apply bind_ok in Hr as (s2 & ys' & H2 & Hr).
  injection Hr as <- <-. eauto 10.
Qed.

(** After a dispatch every code something was sent for has its entry. *)
Lemma dispatch_all_sent now sub cooldown actor alerts s s' ns :
  (length (jobAlertCooldowns s) + length alerts <= 2000)%nat →
  mapM_op (dispatch_one now sub cooldown actor) alerts s = (s', Ok ns) →
  (∀ n, n ∈ ns → janStatus n = "sent" → last_sent (normalizeTenantID (subTenantID sub)) (janErrorCode n) s' = Some now)
  ∧ ∀ e, last_sent (normalizeTenantID (subTenantID sub)) e s = Some now →
         last_sent (normalizeTenantID (subTenantID sub)) e s' = Some now.
Proof.
  revert s ns; induction alerts as [|a alerts IH]; intros s ns Hl.
  { intros [= <- <-]. split; [set_solver|done]. }
  intros (s1 & n & ns' & H1 & H2 & ->)%mapM_ok.
  destruct (dispatch_one_run _ _ _ _ _ _ _ _ H1) as (D1 & D2 & D3 & D4 & _). simpl in Hl.
  destruct (IH s1 ns' ltac:(lia) H2) as [I1 I2]. split.
  - intros k [->|Hk]%elem_of_cons Hs; [|by apply I1]. apply I2. rewrite D1. by apply D3.
  - intros e He. apply I2, D4; [lia|done].
Qed.

(** While every code is in its cooldown a dispatch sends nothing. *)
Lemma dispatch_all_silent now sub cooldown actor alerts s s' ns :
  (∀ a, a ∈ alerts → isJobAlertInCooldownLocked (normalizeTenantID (subTenantID sub))
                       (NormalizeErrorCode (jmaErrorCode a)) cooldown now s = true) →
  mapM_op (dispatch_one now sub cooldown actor) alerts s = (s', Ok ns) →
  same_alarms s s' ∧ ∀ n, n ∈ ns → janStatus n = "skipped".
Proof.
  revert s ns; induction alerts as [|a alerts IH]; intros s ns Hc.
  { intros [= <- <-]. split; [done|set_solver]. }
  intros (s1 & n & ns' & H1 & H2 & ->)%mapM_ok.
  destruct (dispatch_one_run _ _ _ _ _ _ _ _ H1) as (_ & _ & _ & _ & D5).
  destruct (D5 (Hc a ltac:(left))) as [Hn Hs]. destruct (IH s1 ns') as [[I1 I2] I3].
  - intros b Hb. rewrite <- (Hc b ltac:(by right)). unfold isJobAlertInCooldownLocked. by rewrite (proj2 Hs).
  - done.
  - split; [split; [by rewrite I1, (proj1 Hs)|by rewrite I2, (proj2 Hs)]|]. intros k [->|Hk]%elem_of_cons; auto.
Qed.

Lemma add_notifications_silent l : Silent (add_notifications l).
Proof. intros s0. apply pres_modify. by intros s [??]. Qed.

(** Nobody is told twice within the cooldown: after a dispatch that sent
    something for an error code, a dispatch for the same tenant and only such codes,
    before the cooldown is over, makes no request to any mail or WhatsApp provider
    and reports nothing as sent (as long as the table of cooldowns, cut at 2000
    entries, does not overflow). *)
Theorem cooldown_silences now now' sub sub' alerts alerts' actor actor' s s1 s2 r1 r2 :
  (length (jobAlertCooldowns s) + length alerts <= 2000)%nat →
  normalizeTenantID (subTenantID sub') = normalizeTenantID (subTenantID sub) →
  0 <= subCooldownSeconds sub' * second <= max_int64 →
  now <= now' < now + subCooldownSeconds sub' * second →
  DispatchJobMetricsAlerts now sub alerts actor s = (s1, Ok r1) →
  (∀ a, a ∈ alerts' → ∃ n, n ∈ jadItems r1 ∧ janStatus n = "sent" ∧ janErrorCode n = NormalizeErrorCode (jmaErrorCode a)) →
  DispatchJobMetricsAlerts now' sub' alerts' actor' s1 = (s2, Ok r2) →
  network s2 = network s1 ∧ jadDispatched r2 = 0.
Proof.
  intros Hl Ht Hcd Hnow H1 Hall H2. destruct alerts' as [|a' l'].
  { simpl in H2. injection H2 as <- <-. done. }
  destruct alerts as [|a l].
  { simpl in H1. injection H1 as <- <-. destruct (Hall a' ltac:(left)) as (n & Hn & _). by apply elem_of_nil in Hn. }
  unfold DispatchJobMetricsAlerts in H1, H2.
  apply bind_ok in H1 as (t1 & items & M1 & H1). apply bind_ok in H1 as (t2 & u & A1 & H1).
  apply bind_ok in H1 as (t3 & u' & P1 & H1). injection H1 as <- <-.
  apply bind_ok in H2 as (v1 & items' & M2 & H2). apply bind_ok in H2 as (v2 & w & A2 & H2).
  apply bind_ok in H2 as (v3 & w' & P2 & H2). injection H2 as <- <-. cbn [jadItems] in Hall.
  destruct (dispatch_all_sent _ _ _ _ _ _ _ _ Hl M1) as [Hsent _].
  pose proof (silent_run _ _ _ _ (add_notifications_silent _) A1) as [_ C1].
  pose proof (silent_run _ _ _ _ silent_persist P1) as [_ C2].
  assert (0 <= subCooldownSeconds sub' * second) as Hpos by lia.
  rewrite (Z.max_r 0 (wrap64 (subCooldownSeconds sub' * second))) in M2
    by (rewrite wrap64_small; unfold min_int64, max_int64 in *; lia).
  rewrite wrap64_small in M2 by (unfold min_int64, max_int64 in *; lia).
  apply dispatch_all_silent in M2 as [Hs Hsk].
  2: { intros b Hb. destruct (Hall b Hb) as (n & Hn & Hst & He). specialize (Hsent n Hn Hst). rewrite He in Hsent.
    unfold isJobAlertInCooldownLocked. rewrite (proj2 (Z.leb_gt _ 0)) by lia. rewrite Ht, C2, C1.
    unfold last_sent in Hsent. destruct (findi _ (jobAlertCooldowns t1)) as [[i c]|]; [|done].
    injection Hsent as Hc. cbn [snd] in Hc. rewrite Hc. apply Z.ltb_lt. unfold time_sub, max_int64, min_int64 in *. lia. }
  pose proof (silent_run _ _ _ _ (add_notifications_silent _) A2) as [N1 _].
  pose proof (silent_run _ _ _ _ silent_persist P2) as [N2 _]. split; [by rewrite N2, N1, (proj1 Hs)|].
    cbn [jadDispatched]. unfold count_status.
    assert (filterb (fun n => String.eqb (janStatus n) "sent") items' = []) as ->; [|done].
    clear -Hsk. induction items' as [|x xs IH]; [done|]. simpl. rewrite (Hsk x) by left. simpl. apply IH.
    intros n Hn. apply Hsk. by right.
Qed.
End cooldowns.

#[local] Instance toy_digest : Digest := {| sha256 := λ b, b |}.
#[local] Existing Instance sorted_range.
#[local] Abbreviation ex_service :=
  (mkService None [] [] [] [] [] [] [] [] [] [] [] [] 0 "resend" "" {["security" := ["ops@x.io"]]} (Some ResendSender)
     "mock" ∅ None "" "" "" None None None []
     (mkNetwork [Ok (mkAlertEmailSendResult "d1" ""); Ok (mkAlertEmailSendResult "d2" "")] [] [] [] [] [] [])).
#[local] Abbreviation ex_sub :=
  (mkJobAlertSubscription "t" true 5 900 60 (mkJobAlertSubscriptionChannels true false) [] 0).
#[local] Abbreviation ex_alert := (mkJobMetricsAlert "" "issue_failed" 7 5).

(** One mail for the first dispatch, none for the second 59 seconds later. *)
Lemma cooldown_silences_witness :
  let s1 := exec (DispatchJobMetricsAlerts 0 ex_sub [ex_alert] "") ex_service in
  length (mailsSent (network s1)) = 1%nat
  ∧ network (exec (DispatchJobMetricsAlerts (59 * second) ex_sub [ex_alert] "") s1) = network s1.
Proof.
  cbv zeta. split; [vm_compute; reflexivity|].
  destruct (DispatchJobMetricsAlerts 0 ex_sub [ex_alert] "" ex_service) as [s1 [r1|e]] eqn:H1; [|vm_compute in H1; discriminate H1].
  unfold exec. rewrite H1. cbn [fst].
  destruct (DispatchJobMetricsAlerts (59 * second) ex_sub [ex_alert] "" s1) as [s2 [r2|e]] eqn:H2.
  - refine (proj1 (cooldown_silences 0 (59 * second) ex_sub ex_sub [ex_alert] [ex_alert] "" "" ex_service s1 s2 r1 r2
      _ _ _ _ H1 _ H2)); [simpl; lia|reflexivity|vm_compute; split; congruence|vm_compute; split; congruence|].
    intros a Ha. apply list_elem_of_singleton in Ha as ->. vm_compute in H1. injection H1 as _ <-.
    eexists. split; [left|]. split; reflexivity.
  - vm_compute in H1. injection H1 as <- _. vm_compute in H2. discriminate H2.
Defined.
