(* ===== verification/WalletDelivery.v ===== *)
(** * Confirmations, and passes sent to their holders (modules/wallet/alert_delivery.go,
    delivery.go)

    [ConfirmAlertDelivery] asks the mail provider what became of each mail.  A
    pass delivery sends the save link over the requested channels to the
    recipients of the request; a retry repeats the failed channels. *)

From S2P Require Import Prelude GoStrings GoTime Bytes Encoding GoText WalletData WalletState Wallet WalletJobs WalletAlerts.
#[local] Open Scope string_scope.
#[local] Open Scope list_scope.
#[local] Open Scope Z_scope.

(** ** Confirmation *)

Definition isPositiveAlertProviderDeliveryStatus (status : string) : bool :=
  one_of ["delivered";"sent";"success";"succeeded";"opened";"clicked"] (lowered status).
Definition isNegativeAlertProviderDeliveryStatus (status : string) : bool :=
  one_of ["bounced";"failed";"rejected";"cancelled";"canceled";"complained";"complaint";"undelivered";
          "delivery_failed";"blocked"] (lowered status).
Definition alertProviderDeliveryStatusError (status : string) : string :=
  if is_empty (lowered status) then "provider delivery confirmation failed"
  else "provider delivery status " +:+ lowered status.

(** The counters of the loop. *)
Record confirmation := mkConfirmation {
  cfSent : Z; cfConfirmable : Z; cfConfirmed : Z; cfRetryable : bool; cfProvider : string; cfProviderError : string
}.
#[export] Instance eta_confirmation : Eta confirmation := λ x,
  mkConfirmation (cfSent x) (cfConfirmable x) (cfConfirmed x) (cfRetryable x) (cfProvider x) (cfProviderError x).
Definition first_of (new old : string) : string := if is_empty old then new else old.

Definition confirm_one (c : confirmation) (r : JobAlertChannelResult) : m (confirmation * JobAlertChannelResult) :=
  if negb (is_sent r) then mret (c, r)
  else
    let c := c <| cfSent ::= Z.add 1 |> <| cfProvider ::= first_of (TrimSpace (crProvider r)) |> in
    sender ← gets jobAlertEmailSender;
    let deliveryID := TrimSpace (crProviderDeliveryID r) in
    if negb (String.eqb (lowered (crChannel r)) "email") || negb (bool_decide (is_Some sender)) || is_empty deliveryID
    then mret (c, r)
    else
      let c := c <| cfConfirmable ::= Z.add 1 |> in
      answer ← email_Confirm (mkAlertEmailConfirmInput deliveryID);
      mret (match answer with
      | Err e =>
          (c <| cfRetryable := isJobAlertProviderRetryable e |>
             <| cfProviderError ::= first_of (TrimSpace (send_error_text e)) |>, r)
      | Ok a =>
          let r := r <| crProviderDeliveryID := TrimSpace (ecrProviderDeliveryID a) |>
                     <| crProviderDeliveryStatus := TrimSpace (ecrProviderDeliveryStatus a) |> in
          let status := crProviderDeliveryStatus r in
          if ecrConfirmed a || isPositiveAlertProviderDeliveryStatus status
          then (c <| cfConfirmed ::= Z.add 1 |>, r)
          else if isNegativeAlertProviderDeliveryStatus status
          then (c <| cfProviderError ::= first_of (alertProviderDeliveryStatusError status) |>,
                r <| crStatus := "failed" |> <| crReason := "provider_delivery_failed" |> <| crRetryable := false |>)
          else (c, r)
      end).
Fixpoint confirm_all (c : confirmation) (l : list JobAlertChannelResult) :
    m (confirmation * list JobAlertChannelResult) :=
  match l with
  | [] => mret (c, [])
  | r :: l' => '(c, r) ← confirm_one c r; '(c, rs) ← confirm_all c l'; mret (c, r :: rs)
  end.

Definition ConfirmAlertDelivery (i : AlertDeliveryConfirmationInput) : m AlertDeliveryConfirmationResult :=
  '(c, results) ← confirm_all (mkConfirmation 0 0 0 false "" "") (aciChannelResults i);
  let confirmed := (0 <? cfSent c) && (cfConfirmable c =? cfSent c) && (cfConfirmed c =? cfSent c) in
  mret (mkAlertDeliveryConfirmationResult confirmed (negb confirmed && cfRetryable c) (cfProvider c)
          (if confirmed then "" else cfProviderError c) results).

(** ** Pass deliveries *)

Definition normalizePassDeliveryChannels (channels : list string) : result wallet_err (list string) :=
  match normalizeDispatchChannels channels with
  | [] => Err ErrPassDeliveryChannelRequired
  | l => if forallb (one_of ["email";"whatsapp"]) l then Ok l else Err ErrInvalidPassDeliveryChannel
  end.

Definition ListPassDeliveryNotifications (tenantID passID : string) (s : Service) : list PassDeliveryNotification :=
  filterb (fun n => is_empty (TrimSpace passID) || String.eqb (pdnPassID n) (TrimSpace passID))
    (of_tenant pdnTenantID tenantID (passDeliveryNotifications s)).

Definition line (label value : string) : list string := if is_empty (TrimSpace value) then [] else [label +:+ value].
Definition buildPassDeliveryEmailMessage (p : PassInstance) (t : PassTemplate) : string * string :=
  ("MistyPass 已为 " +:+ psTargetID p +:+ " 准备就绪",
   Join (["对象：" +:+ psTargetID p +:+ " (" +:+ psTargetType p +:+ ")"; "模板：" +:+ tplName t; "状态：" +:+ psStatus p]
         ++ line "保存链接：" (psSaveLink p) ++ line "失效时间：" (psExpiresAt p)
         ++ ["请通过 MistyPass 保存链接完成领取。"]) newline).
Definition buildPassDeliveryWhatsAppMessage (p : PassInstance) (t : PassTemplate) : string :=
  Join (["MistyPass 已为 " +:+ psTargetID p +:+ " 准备就绪。"; "模板：" +:+ tplName t]
        ++ line "保存链接：" (psSaveLink p) ++ line "失效时间：" (psExpiresAt p)) newline.

(** The fields of a channel result a pass delivery keeps. *)
Definition pass_result (r : JobAlertChannelResult) : PassDeliveryChannelResult :=
  mkPassDeliveryChannelResult (crChannel r) (crStatus r) (crReason r) (crProvider r) (crProviderError r)
    (crRetryable r) (crReceivers r).

Definition dispatchPassDeliveryEmailChannelLocked (p : PassInstance) (t : PassTemplate) (recipients : list string) :
    m PassDeliveryChannelResult :=
  provider ← gets (fun s => or_mock (jobAlertEmailProvider s));
  let to := dedupStrings recipients in
  if bool_decide (to = []) then mret (pass_result (no_receivers "email" provider))
  else if one_of ["resend";"cloudflare"] (as_resend provider) then
    r ← send_mail (as_resend provider)
          (mkAlertEmailSendInput (psTenantID p) to "" (buildPassDeliveryEmailMessage p t).1
             (buildPassDeliveryEmailMessage p t).2);
    mret (pass_result r)
  else mret (pass_result (sent "email" (as_resend provider) "" "" to)).

Definition dispatchPassDeliveryWhatsAppChannelLocked (p : PassInstance) (t : PassTemplate) (receivers : list string) :
    m PassDeliveryChannelResult :=
  provider ← gets (fun s => or_mock (jobAlertWhatsAppProvider s));
  let to := dedupStrings receivers in
  if bool_decide (to = []) then mret (pass_result (no_receivers "whatsapp" provider))
  else
    r ← send_whatsapp provider
          (mkAlertWhatsAppSendInput (psTenantID p) to "" (buildPassDeliveryWhatsAppMessage p t) "" [] "");
    mret (pass_result r).

Definition summarizePassDeliveryChannelResults (l : list PassDeliveryChannelResult) : summary :=
  let has (status : string) (r : PassDeliveryChannelResult) := String.eqb (pcrStatus r) status in
  let retryable := existsb (fun r => has "failed" r && pcrRetryable r) l in
  let firstFailed := snd <$> findi (has "failed") l in
  let firstSkipped := snd <$> findi (fun r => has "skipped" r && negb (is_empty (pcrChannel r))) l in
  let provider := match findi (fun r => negb (is_empty (TrimSpace (pcrProvider r)))) l with
                  | Some (_, r) => pcrProvider r | None => "" end in
  if bool_decide (l = []) then ("failed", "channel_disabled", "", "", false)
  else if existsb (has "sent") l then
    match firstFailed with
    | Some f => ("sent", "partial_channel_failure", provider, pcrProviderError f, retryable)
    | None => ("sent", "", provider, "", false)
    end
  else match firstFailed, firstSkipped with
       | Some f, _ => ("failed", pcrReason f, pcrProvider f, pcrProviderError f, retryable)
       | None, Some k => ("skipped", pcrReason k, pcrProvider k, pcrProviderError k, false)
       | None, None => ("failed", "delivery_not_attempted", "", "", false)
       end.

Definition dispatchPassDeliveryLocked (p : PassInstance) (t : PassTemplate)
    (channels emailRecipients whatsAppRecipients : list string) : m (summary * list PassDeliveryChannelResult) :=
  results ← mapM_op (fun ch =>
    if String.eqb ch "email" then dispatchPassDeliveryEmailChannelLocked p t emailRecipients
    else if String.eqb ch "whatsapp" then dispatchPassDeliveryWhatsAppChannelLocked p t whatsAppRecipients
    else mret (mkPassDeliveryChannelResult ch "failed" "channel_not_supported" "" "" false [])) channels;
  mret (summarizePassDeliveryChannelResults results, results).

Definition nextPassDeliveryAttemptLocked (tenantID passID : string) (s : Service) : Z :=
  fold_left (fun n x =>
    if String.eqb (pdnTenantID x) tenantID && String.eqb (pdnPassID x) passID && (n <=? pdnAttempt x)
    then pdnAttempt x + 1 else n) (passDeliveryNotifications s) 1.

Section deliveries.
Context {MR : MapRange}.

(** The pass of a delivery and its template, both of the tenant. *)
Definition deliverable (tenantID passID : string) : m (PassInstance * PassTemplate) :=
  '(_, p) ← look_pass tenantID passID;
  t ← gets (fun s => findTemplateByID (templates s) (psTemplateID p));
  match t with
  | None => throw ErrTemplateNotFound
  | Some t => fail_if (negb (String.eqb (tplTenantID t) tenantID)) ErrTemplateNotFound;; mret (p, t)
  end.

(** The record of a delivery, sent, stored and audited. *)
Definition record_delivery (now : Z) (tenantID action actor auditTarget : string) (p : PassInstance) (t : PassTemplate)
    (record : PassDeliveryNotification) (emailRecipients whatsAppRecipients : list string) : m PassDeliveryNotification :=
  '(x, results) ← dispatchPassDeliveryLocked p t (pdnChannels record) emailRecipients whatsAppRecipients;
  let '(status, reason, provider, providerError, retryable) := x in
  let record := record <| pdnStatus := status |> <| pdnReason := reason |> <| pdnProvider := provider |>
                  <| pdnProviderError := providerError |> <| pdnRetryable := retryable |>
                  <| pdnChannelResults := results |> in
  modify (fun s => s <| passDeliveryNotifications ::= (fun l => take 5000 (record :: l)) |>);;
  appendAuditLocked now tenantID action actor auditTarget (with_reason status reason);;
  persistLocked;; mret record.

Definition DispatchPassDelivery (now : Z) (tenantID passID : string)
    (channels emailRecipients whatsAppRecipients : list string) (actor : string) : m PassDeliveryNotification :=
  fail_if (is_empty (TrimSpace passID)) ErrPassIDRequired;;
  nextChannels ← lift (normalizePassDeliveryChannels channels);
  let nextTenantID := normalizeTenantID tenantID in
  '(p, t) ← deliverable nextTenantID (TrimSpace passID);
  id ← walletID "wdn_";
  attempt ← gets (nextPassDeliveryAttemptLocked nextTenantID (psID p));
  record_delivery now nextTenantID "wallet.pass.delivery.dispatch" (normalizeActor actor) (psID p) p t
    (mkPassDeliveryNotification id nextTenantID (psID p) (psTemplateID p) (psTargetType p) (psTargetID p) nextChannels
       "" "" attempt false "" "" [] "" now) emailRecipients whatsAppRecipients.

Definition retry_of (channel : string) (l : list PassDeliveryChannelResult) : list string :=
  concat (pcrReceivers <$> filterb (fun r => String.eqb (pcrChannel r) channel) l).

Definition RetryPassDeliveryNotification (now : Z) (tenantID notificationID actor : string) : m PassDeliveryNotification :=
  let nextTenantID := normalizeTenantID tenantID in
  let id := TrimSpace notificationID in
  fail_if (is_empty id) ErrPassDeliveryNotificationNotFound;;
  found ← gets (fun s =>
    findi (fun n => String.eqb (pdnTenantID n) nextTenantID && String.eqb (pdnID n) id) (passDeliveryNotifications s));
  match found with
  | None => throw ErrPassDeliveryNotificationNotFound
  | Some (_, source) =>
      let again := filterb (fun r => String.eqb (pcrStatus r) "failed" && pcrRetryable r) (pdnChannelResults source) in
      fail_if (bool_decide (again = [])) ErrPassDeliveryRetryNotAllowed;;
      '(p, t) ← deliverable nextTenantID (pdnPassID source);
      newID ← walletID "wdn_";
      attempt ← gets (nextPassDeliveryAttemptLocked nextTenantID (pdnPassID source));
      record_delivery now nextTenantID "wallet.pass.delivery.retry" (normalizeActor actor) (pdnID source) p t
        (mkPassDeliveryNotification newID nextTenantID (pdnPassID source) (pdnTemplateID source)
           (pdnTargetType source) (pdnTargetID source) (pcrChannel <$> again) "" "" attempt false "" "" []
           (pdnID source) now) (retry_of "email" again) (retry_of "whatsapp" again)
  end.
End deliveries.
