(* ===== verification/WalletCalls.v ===== *)
(** * The wallet service as a whole (modules/wallet)

    What [NewService] sets up, the calls that change the service, and what holds
    after any sequence of them: every status is one of its kind, a free card is
    held by nobody, and a revoked pass stays revoked. *)

From S2P Require Import Prelude GoStrings GoTime Bytes Encoding GoText WalletData WalletState Wallet WalletCards WalletJobs WalletPool WalletAlerts WalletDelivery.
#[local] Open Scope string_scope.
#[local] Open Scope list_scope.
#[local] Open Scope Z_scope.

(** ** The state at the start *)

Definition demo : string := "tenant_demo_jakarta".
Definition seed_style (color : string) : gmap string string := {["brand" := "MistyPass"; "themeColor" := color]}.

Definition NewService (now : Z) : Service :=
  let h (n : Z) := now - n * hour in
  let mn (n : Z) := now - n * minute in
  mkService
    (Some (mkGoogleConfig "wcfg_google_demo" demo "google" "issuer_demo_jakarta"
      "wallet-issuer@mistypass.iam.gserviceaccount.com"
      "kms://projects/mistypass/locations/global/keyRings/wallet/cryptoKeys/issuer" "active" now now))
    [mkPassTemplate "wpt_employee_demo" demo "google" "employee" "mistypass.employee.class"
       "员工门禁卡（Google Wallet）" (seed_style "#0F766E") "active" now now;
     mkPassTemplate "wpt_visitor_demo" demo "google" "visitor" "mistypass.visitor.class"
       "访客通行证（Google Wallet）" (seed_style "#0369A1") "active" now now;
     mkPassTemplate "wpt_nfc_card_demo" demo "physical" "nfc_card" "mistypass.nfc.card"
       "NFC 门禁卡" {["brand" := "MistyPass"; "cardType" := "desfire_ev3"]} "active" now now]
    [mkPassInstance "wps_demo_1001" demo "google" "google_wallet" "wpt_employee_demo" "user" "usr_1001"
       "mistypass.employee.class.wps_demo_1001" "" "" "" "" "active"
       "https://pay.google.com/gp/v/save/wps_demo_1001" "" (h 4) (Some (h 2)) None "system" "system" (h 4) (h 2)]
    [mkPassDeliveryNotification "wdn_demo_1001" demo "wps_demo_1001" "wpt_employee_demo" "user" "usr_1001"
       ["email"; "whatsapp"] "sent" "" 1 false "mock" ""
       [mkPassDeliveryChannelResult "email" "sent" "" "mock" "" false ["alice@mistypass.local"];
        mkPassDeliveryChannelResult "whatsapp" "sent" "" "mock" "" false ["+628111111111"]] "" (mn 70)]
    [mkPhysicalCardTask "wpc_demo_1001" demo "wps_demo_1001" "wpt_employee_demo" "user" "usr_1001" "issue" "ready"
       "CARD-1001" "wpci_demo_1001" "wpcv_nusacard_demo" "NusaCard Fulfillment"
       "等待前台交付实体卡并完成绑定" "active" None "system" "system" (mn 90) (mn 20)]
    [mkPhysicalCardVendor "wpcv_nusacard_demo" demo "NusaCard Fulfillment" "nusacard" "active" (h 24) (h 24);
     mkPhysicalCardVendor "wpcv_internal_demo" demo "Internal Badge Desk" "internal" "active" (h 24) (h 24)]
    [mkPhysicalCardInventoryItem "wpci_demo_1001" demo "CARD-1001" "UID-1001" "wpcv_nusacard_demo"
       "NusaCard Fulfillment" "" "" "reserved" "wps_demo_1001" "wpc_demo_1001" None (h 24) (mn 20);
     mkPhysicalCardInventoryItem "wpci_demo_1002" demo "CARD-1002" "UID-1002" "wpcv_nusacard_demo"
       "NusaCard Fulfillment" "" "" "available" "" "" None (h 24) (h 24)]
    [mkIssueJob "wjb_demo_2201" demo "google" "wbt_demo_0001" "wpt_employee_demo" "user" "usr_1001" ""
       "wps_demo_1001" "success" 0 "" "" (h 4) (h 4)]
    [mkAuditLog "wal_demo_0001" demo "wallet.pass.issue" "system" "wps_demo_1001" "success" (h 4)]
    [] [] [] [] 0 "mock" "no-reply@mistypass.local" {["security" := ["security@mistypass.local"]]} None
    "mock" {["security" := ["+10000000000"]]} (Some WhatsAppMock) "" "" "" None
    (Some (NewApplePassProvider (mkApplePassConfig "" "" "" "")))
    (Some (NewGoogleWalletProvider (mkGoogleWalletConfig "" "" ""))) [] (mkNetwork [] [] [] [] [] [] []).

Section calls.
Context {MR : MapRange} {DG : Digest}.

(** [NewServiceWithStateStore(store)] *)
Definition NewServiceWithStateStore (now : Z) (store : StateStore) : result wallet_err Service :=
  let '(s, r) := restoreFromStateStore ((NewService now) <| stateStore := Some store |>) in
  match r with Ok _ => Ok s | Err e => Err e end.

(** ** The calls *)

Inductive call :=
| CSetTransientFailCount (count : Z)
| CSetDelivery (o : JobAlertEmailDeliveryOptions)
| CUpsertGoogleConfig (tenantID issuerID email keyRef status actor : string)
| CCreateTemplate (tenantID passType classID name : string) (style : gmap string string) (status actor : string)
| CUpdateTemplateStatus (tenantID templateID status actor : string)
| CIssuePass (tenantID templateID targetType targetID expiresAt actor : string)
| CCreateUnassignedCard (tenantID templateID token uid cardNumber cardType expiresAt actor : string)
| CEnrollApplePass (tenantID userID deviceID serial expiresAt actor : string)
| CRegisterNFCCard (tenantID uid cardType targetID label expiresAt actor : string)
| CUpdatePassStatus (tenantID passID status actor : string)
| CAssignPass (tenantID passID targetType targetID actor : string)
| CDeassignPass (tenantID passID actor : string)
| CCreateCard (tenantID cardNumber uid vendorID status actor : string)
| CUpdateCard (tenantID inventoryID status reason actor : string)
| CBatchUpdateCards (tenantID : string) (ids : list string) (status reason actor : string)
| CImportCards (tenantID : string) (records : list PhysicalCardInventoryImportItem) (actor : string)
| CScanCard (tenantID uid cardNumber readerID vendorID actor : string)
| CCreateTask (tenantID passID taskType cardNumber inventoryID vendorID note actor : string)
| CUpdateTask (tenantID taskID status cardNumber note actor : string)
| CIssueBatch (issue_now : bool) (action tenantID templateID targetType : string) (targets : list string)
    (expiresAt actor : string)
| CRetryJob (tenantID job targetID actor : string)
| CRequeueJob (tenantID job targetID actor : string)
| CRequeueJobs (o : JobDLQRequeueOptions)
| CCleanupJobs (o : JobDLQCleanupOptions)
| CProcessJobs (schedule : nat → nat * Z) (o : JobProcessOptions)
| CUpsertSubscription (o : JobAlertSubscriptionUpsertOptions)
| CDispatchAlerts (sub : JobAlertSubscription) (alerts : list JobMetricsAlert) (actor : string)
| CRetryAlert (tenantID notificationID actor : string)
| CDispatchAlert (i : AlertDeliveryInput)
| CConfirmAlert (i : AlertDeliveryConfirmationInput)
| CDispatchPass (tenantID passID : string) (channels emails phones : list string) (actor : string)
| CRetryPass (tenantID notificationID actor : string).

Definition run (now : Z) (c : call) : Service → Service :=
  match c with
  | CSetTransientFailCount n => exec (SetJobAlertMockTransientFailCount n)
  | CSetDelivery o => exec (SetJobAlertEmailDeliveryOptions o)
  | CUpsertGoogleConfig a b c d e f => exec (UpsertGoogleConfig now a b c d e f)
  | CCreateTemplate a b c d e f g => exec (CreateTemplate now a b c d e f g)
  | CUpdateTemplateStatus a b c d => exec (UpdateTemplateStatus now a b c d)
  | CIssuePass a b c d e f => exec (IssuePass now a b c d e f)
  | CCreateUnassignedCard a b c d e f g h => exec (CreateUnassignedCard now a b c d e f g h)
  | CEnrollApplePass a b c d e f => exec (EnrollApplePass now a b c d e f)
  | CRegisterNFCCard a b c d e f g => exec (RegisterNFCCard now a b c d e f g)
  | CUpdatePassStatus a b c d => exec (updatePassStatus now a b c d)
  | CAssignPass a b c d e => exec (AssignPass now a b c d e)
  | CDeassignPass a b c => exec (DeassignPass now a b c)
  | CCreateCard a b c d e f => exec (CreatePhysicalCardInventoryItem now a b c d e f)
  | CUpdateCard a b c d e => exec (UpdatePhysicalCardInventoryStatus now a b c d e)
  | CBatchUpdateCards a b c d e => exec (BatchUpdatePhysicalCardInventoryStatus now a b c d e)
  | CImportCards a b c => exec (ImportPhysicalCardInventory now a b c)
  | CScanCard a b c d e f => exec (ScanPhysicalCardInventory now a b c d e f)
  | CCreateTask a b c d e f g h => exec (CreatePhysicalCardTask now a b c d e f g h)
  | CUpdateTask a b c d e f => exec (UpdatePhysicalCardTaskStatus now a b c d e f)
  | CIssueBatch a b c d e f g h => exec (issue_batch now a b c d e f g h)
  | CRetryJob a b c d => exec (RetryJob now a b c d)
  | CRequeueJob a b c d => exec (RequeueDLQJob now a b c d)
  | CRequeueJobs o => exec (RequeueDLQJobs now o)
  | CCleanupJobs o => exec (CleanupDLQJobs now o)
  | CProcessJobs a o => exec (ProcessIssueJobs now a o)
  | CUpsertSubscription o => exec (UpsertJobAlertSubscription now o)
  | CDispatchAlerts a b c => exec (DispatchJobMetricsAlerts now a b c)
  | CRetryAlert a b c => exec (RetryJobAlertNotification now a b c)
  | CDispatchAlert i => exec (DispatchAlert i)
  | CConfirmAlert i => exec (ConfirmAlertDelivery i)
  | CDispatchPass a b c d e f => exec (DispatchPassDelivery now a b c d e f)
  | CRetryPass a b c => exec (RetryPassDeliveryNotification now a b c)
  end.
Definition run_all (l : list (Z * call)) (s : Service) : Service := fold_left (fun s '(now, c) => run now c s) l s.
End calls.

(** ** What one call can do to passes, jobs and cards *)

Definition pass_statuses : list string := ["issued";"active";"suspended";"revoked"].
Definition job_statuses : list string := ["pending";"processing";"success";"failed";"dlq"].

(** A stored pass that changes: a revoked one stays revoked, with its holder. *)
Definition pass_step (p p' : PassInstance) : Prop :=
  psID p' = psID p ∧ psTenantID p' = psTenantID p
  ∧ (psStatus p ∈ pass_statuses → psStatus p' ∈ pass_statuses)
  ∧ (psStatus p = "revoked" →
     psStatus p' = "revoked" ∧ psTargetType p' = psTargetType p ∧ psTargetID p' = psTargetID p).

(** A card whose status is one of the six; a free one holds neither pass nor task. *)
Definition card_ok (c : PhysicalCardInventoryItem) : Prop :=
  ciStatus c ∈ inventory_statuses
  ∧ (ciStatus c ∈ ["available";"frozen";"scrapped"] → ciAssignedPassID c = "" ∧ ciActiveTaskID c = "").

(** What a predicate needs to hold after every call. *)
Record closed (P : Service → Prop) : Prop := {
  closed_other s s' : passes s' = passes s → jobs s' = jobs s →
    physicalCardInventory s' = physicalCardInventory s → P s → P s';
  closed_add_pass s p : psStatus p ∈ ["issued";"active"] → P s → P (s <| passes ::= cons p |>);
  closed_put_pass s i p p' : passes s !! i = Some p → pass_step p p' → P s → P (s <| passes ::= <[i := p']> |>);
  closed_jobs s l : (∀ j, j ∈ l → j ∈ jobs s ∨ jobStatus j ∈ job_statuses) → P s → P (s <| jobs := l |>);
  closed_add_card s c : card_ok c → P s → P (s <| physicalCardInventory ::= cons c |>);
  closed_put_card s i c' : (∀ c, physicalCardInventory s !! i = Some c → card_ok c → card_ok c') →
    P s → P (s <| physicalCardInventory ::= <[i := c']> |>)
}.

Lemma closed_quiet P : closed P → quiet_closed P.
Proof.
  intros HP s s' Hq. apply (closed_other P HP); [exact (quiet_passes _ _ Hq)|exact (quiet_jobs _ _ Hq)|].
  exact (quiet_inventory _ _ Hq).
Qed.

(** *** The statuses the code writes *)

Lemma one_of_elem l v : one_of l v = true → v ∈ l.
Proof. unfold one_of. intros (x & Hin & ->%String.eqb_eq)%existsb_exists. by apply list_elem_of_In. Qed.

Lemma transit_status c n : canTransitPassStatus c n = true → n = c ∨ n ∈ pass_statuses.
Proof.
  unfold canTransitPassStatus, pass_statuses. destruct (String.eqb_spec c n) as [->|]; [by left|]. simpl.
  destruct (String.eqb_spec n "suspended") as [->|]; [set_solver|].
  destruct (String.eqb_spec n "active") as [->|]; [set_solver|].
  destruct (String.eqb_spec n "revoked") as [->|]; [set_solver|done].
Qed.
Lemma transit_revoked n : canTransitPassStatus "revoked" n = true → n = "revoked".
Proof.
  unfold canTransitPassStatus. destruct (String.eqb_spec "revoked" n) as [->|]; [done|]. simpl.
  repeat case_match; done.
Qed.

Lemma inventory_status_ok raw next : normalizePhysicalCardInventoryStatus raw = Ok next → next ∈ inventory_statuses.
Proof.
  unfold normalizePhysicalCardInventoryStatus. cbv zeta. destruct (one_of _ _) eqn:E; [|done]. intros [= <-].
  by apply one_of_elem.
Qed.
Lemma card_transit_ok c next now c' :
  next ∈ inventory_statuses → applyPhysicalCardInventoryStatusTransition c next now = Ok c' → card_ok c → card_ok c'.
Proof.
  unfold applyPhysicalCardInventoryStatusTransition. intros Hn. destruct (String.eqb _ next); [by intros [= <-]|].
  destruct (negb _); [done|]. cbv zeta.
  destruct (one_of ["available";"frozen";"scrapped"] next) eqn:E; intros [= <-] _; split; simpl; try done.
  intros Hf. exfalso. assert (one_of ["available";"frozen";"scrapped"] next = true); [|congruence].
  apply existsb_exists. exists next. split; [by apply list_elem_of_In|by apply String.eqb_refl].
Qed.
Lemma card_moves_ok now n t c : card_ok c → card_ok (task_moves_card now n t c).
Proof.
  intros [H1 H2]. unfold task_moves_card. repeat case_match; split; simpl; try done; unfold inventory_statuses;
    set_solver.
Qed.
Lemma new_card_ok c : ciStatus c ∈ inventory_statuses → ciAssignedPassID c = "" → ciActiveTaskID c = "" → card_ok c.
Proof. done. Qed.
Lemma failure_status j code r n : resolveJobFailureStatus j code r n ∈ job_statuses.
Proof. unfold resolveJobFailureStatus, job_statuses. repeat case_match; set_solver. Qed.

(** *** Every call keeps a closed predicate *)

#[export] Instance quiet_named_vendor t v : Quiet (named_vendor t v).
Proof. apply quiet_if; [apply _|]. apply quiet_bind; [apply _|]. intros [x|]; apply _. Qed.
#[export] Instance quiet_mail_alert t g k a b : Quiet (dispatchAlertEmailMessageLocked t g k a b).
Proof. unfold dispatchAlertEmailMessageLocked. apply _. Qed.
#[export] Instance quiet_whatsapp_alert t g k a : Quiet (dispatchAlertWhatsAppMessageLocked t g k a).
Proof. unfold dispatchAlertWhatsAppMessageLocked. apply _. Qed.
#[export] Instance quiet_lark_alert u a : Quiet (dispatchAlertLarkMessageLocked u a).
Proof. unfold dispatchAlertLarkMessageLocked. apply _. Qed.
#[export] Instance quiet_confirm_one c r : Quiet (confirm_one c r).
Proof. unfold confirm_one. apply _. Qed.
#[export] Instance quiet_confirm_all c l : Quiet (confirm_all c l).
Proof. revert c; induction l as [|r l IH]; intros c; simpl; [apply _|]. apply quiet_bind; [apply _|]. intros [c' r'].
  apply quiet_bind; [apply _|]. intros [??]; apply _. Qed.
#[export] Instance quiet_pass_mail p t l : Quiet (dispatchPassDeliveryEmailChannelLocked p t l).
Proof. unfold dispatchPassDeliveryEmailChannelLocked. apply _. Qed.
#[export] Instance quiet_pass_whatsapp p t l : Quiet (dispatchPassDeliveryWhatsAppChannelLocked p t l).
Proof. unfold dispatchPassDeliveryWhatsAppChannelLocked. apply _. Qed.
#[export] Instance quiet_pass_dispatch p t c e w : Quiet (dispatchPassDeliveryLocked p t c e w).
Proof. unfold dispatchPassDeliveryLocked. apply _. Qed.
#[export] Instance quiet_deliverable t i : Quiet (deliverable t i).
Proof. apply quiet_bind; [apply _|]. intros [j p]. apply quiet_bind; [apply _|]. intros [x|]; apply _. Qed.

Section closed.
Context {MR : MapRange} {DG : Digest} (P : Service → Prop) (HP : closed P).

Lemma kept_quiet {A} (f : m A) `{!Quiet f} : preserves P f.
Proof. apply quiet_preserves; [apply _|by apply closed_quiet]. Qed.

(** A change of the other tables. *)
Lemma kept_other (g : Service → Service) :
  (∀ s, passes (g s) = passes s ∧ jobs (g s) = jobs s ∧ physicalCardInventory (g s) = physicalCardInventory s) →
  preserves P (modify g : m unit).
Proof. intros Hg. apply pres_modify. intros s Hs. destruct (Hg s) as (?&?&?). by eapply (closed_other P HP). Qed.

Lemma kept_put_job i j : jobStatus j ∈ job_statuses → preserves P (put_job i j).
Proof.
  intros Hj. apply pres_modify. intros s Hs. apply (closed_jobs P HP s (<[i:=j]> (jobs s))); [|done].
  intros j' Hin. apply list_elem_of_lookup in Hin as (k & [(-> & <- & _)|[_ Hl]]%list_lookup_insert_Some); [by right|].
  left. by eapply list_elem_of_lookup_2.
Qed.
Lemma kept_add_job j : jobStatus j ∈ job_statuses → preserves P (add_job j).
Proof. intros Hj. apply pres_modify. intros s Hs. apply (closed_jobs P HP s (j :: jobs s)); [set_solver|done]. Qed.
Lemma kept_add_pass p : psStatus p ∈ ["issued";"active"] → preserves P (modify (fun s => s <| passes ::= cons p |>) : m unit).
Proof. intros Hp. apply pres_modify. intros s Hs. by apply (closed_add_pass P HP). Qed.
Lemma kept_add_card c : card_ok c → preserves P (add_card c).
Proof. intros Hc. apply pres_modify. intros s Hs. by apply (closed_add_card P HP). Qed.
Lemma kept_put_card i c : card_ok c → preserves P (put_card i c).
Proof. intros Hc. apply pres_modify. intros s Hs. by apply (closed_put_card P HP). Qed.
End closed.

(** The proof that a call keeps a closed predicate: its structure; the steps that
    write a table are the caller's. *)
Ltac kept HP :=
  repeat first
  [ assumption
  | match goal with
    | |- preserves _ (mbind _ (lift _)) => apply pres_lift_bind; intros ? ?
    | |- preserves _ (mbind _ (fail_if _ _)) => apply pres_check; intros ?
    end
  | apply (kept_quiet _ HP); apply _
  | apply (kept_other _ HP); intros ?; by repeat case_match
  | match goal with
    | |- preserves _ (mbind _ ?f) =>
        lazymatch f with
        | createPassRecord _ _ _ _ _ _ _ _ _ => fail
        | catch _ => fail
        | _ => apply pres_bind; [|intros ?]
        end
    | |- preserves _ (match ?x with _ => _ end) => destruct x eqn:?
    | |- preserves _ (let x := _ in _) => cbv zeta
    end ].

Section calls_keep.
Context {MR : MapRange} {DG : Digest} (P : Service → Prop) (HP : closed P).

Lemma kept_delivery_options o : preserves P (SetJobAlertEmailDeliveryOptions o).
Proof. unfold SetJobAlertEmailDeliveryOptions. kept HP. Qed.
Lemma kept_google now a b c d e f : preserves P (UpsertGoogleConfig now a b c d e f).
Proof. unfold UpsertGoogleConfig. kept HP. Qed.
Lemma kept_template now a b c d e f g : preserves P (CreateTemplate now a b c d e f g).
Proof. unfold CreateTemplate. kept HP. Qed.
Lemma kept_template_status now a b c d : preserves P (UpdateTemplateStatus now a b c d).
Proof. unfold UpdateTemplateStatus. kept HP. Qed.
Lemma kept_subscription now o : preserves P (UpsertJobAlertSubscription now o).
Proof. unfold UpsertJobAlertSubscription. kept HP. Qed.
Lemma kept_dispatch_one now sub cd actor a : preserves P (dispatch_one now sub cd actor a).
Proof. unfold dispatch_one, upsertJobAlertCooldownLocked. kept HP. Qed.
Lemma kept_mapM {A B} (f : A → m B) l : (∀ a, preserves P (f a)) → preserves P (mapM_op f l).
Proof. intros Hf. induction l as [|x l IH]; simpl; kept HP. apply Hf. Qed.
Lemma kept_dispatch_alerts now sub l actor : preserves P (DispatchJobMetricsAlerts now sub l actor).
Proof. unfold DispatchJobMetricsAlerts, add_notifications. kept HP. apply kept_mapM. intros a. apply kept_dispatch_one. Qed.
Lemma kept_retry_alert now a b c : preserves P (RetryJobAlertNotification now a b c).
Proof. unfold RetryJobAlertNotification, add_notifications, upsertJobAlertCooldownLocked. kept HP. Qed.
Lemma kept_dispatch_alert i : preserves P (DispatchAlert i).
Proof. unfold DispatchAlert. kept HP. Qed.
Lemma kept_confirm i : preserves P (ConfirmAlertDelivery i).
Proof. unfold ConfirmAlertDelivery. kept HP. Qed.
Lemma kept_record_delivery now a b c d p t r e w : preserves P (record_delivery now a b c d p t r e w).
Proof. unfold record_delivery. kept HP. Qed.
Lemma kept_dispatch_pass now a b c d e f : preserves P (DispatchPassDelivery now a b c d e f).
Proof. unfold DispatchPassDelivery. kept HP. apply kept_record_delivery. Qed.
Lemma kept_retry_pass now a b c : preserves P (RetryPassDeliveryNotification now a b c).
Proof. unfold RetryPassDeliveryNotification. kept HP. apply kept_record_delivery. Qed.
End calls_keep.

(** Passes. *)
Section passes_keep.
Context {MR : MapRange} {DG : Digest} (P : Service → Prop) (HP : closed P).

Lemma kept_add now t a actor p : psStatus p ∈ ["issued";"active"] → preserves P (add_pass now t a actor p).
Proof. intros Hp. unfold add_pass. kept HP. by apply (kept_add_pass _ HP). Qed.

(** A made pass may be added. *)
Lemma kept_create {B} now t tpl tt ti hn he ex ac (f : PassInstance → m B) :
  (∀ p, psStatus p = "issued" → preserves P (f p)) → preserves P (createPassRecord now t tpl tt ti hn he ex ac ≫= f).
Proof.
  intros Hf. apply (pres_bind_post P (λ p, psStatus p = "issued")); [kept HP| |done]. intros s p _ Hr.
  unfold answer in Hr. destruct (createPassRecord _ _ _ _ _ _ _ _ _ s) as [s' r] eqn:E. simpl in Hr. subst r.
  by apply create_ok in E as (_&_&_&?&_).
Qed.
Lemma kept_catch_create {B} now t tpl tt ti hn he ex ac (f : result wallet_err PassInstance → m B) :
  (∀ e, preserves P (f (Err e))) → (∀ p, psStatus p = "issued" → preserves P (f (Ok p))) →
  preserves P (catch (createPassRecord now t tpl tt ti hn he ex ac) ≫= f).
Proof.
  intros He Hf. apply (pres_bind_post P (λ r, match r with Ok p => psStatus p = "issued" | Err _ => True end)).
  - intros s Hs. unfold exec, catch. destruct (createPassRecord _ _ _ _ _ _ _ _ _ s) as [s' r] eqn:E.
    exact (closed_quiet _ HP _ _ (quiet_run _ _ _ _ E) Hs).
  - intros s r _ Hr. unfold answer, catch in Hr. destruct (createPassRecord _ _ _ _ _ _ _ _ _ s) as [s' r'] eqn:E.
    simpl in Hr. injection Hr as <-. destruct r' as [p|e]; [|done]. by apply create_ok in E as (_&_&_&?&_).
  - intros [p|e]; [apply Hf|intros _; apply He].
Qed.

Lemma kept_issue now a b c d e f : preserves P (IssuePass now a b c d e f).
Proof.
  unfold IssuePass. kept HP. apply kept_create. intros p Hp. apply kept_add. rewrite Hp. set_solver.
Qed.
Lemma kept_unassigned now a b c d e f g h : preserves P (CreateUnassignedCard now a b c d e f g h).
Proof. unfold CreateUnassignedCard. kept HP. apply kept_add. set_solver. Qed.
Lemma kept_enroll now a b c d e f : preserves P (EnrollApplePass now a b c d e f).
Proof. unfold EnrollApplePass. kept HP. apply kept_add. set_solver. Qed.
Lemma kept_nfc now a b c d e f g : preserves P (RegisterNFCCard now a b c d e f g).
Proof. unfold RegisterNFCCard. kept HP. apply kept_add. set_solver. Qed.

(** A pass that is looked up and changed at once. *)
Lemma kept_put_pass {B} i p p' s (f : unit → m B) :
  passes s !! i = Some p → pass_step p p' → (∀ u, preserves P (f u)) → P s → P (exec (put_pass i p' ≫= f) s).
Proof.
  intros Hl Hs Hf HPs. unfold put_pass. rewrite exec_modify. apply Hf. exact (closed_put_pass P HP s i p p' Hl Hs HPs).
Qed.
Lemma kept_change now t a actor i p p' s :
  passes s !! i = Some p → pass_step p p' → P s → P (exec (change_pass now t a actor i p') s).
Proof. intros Hl Hs. eapply kept_put_pass; eauto. intros _. kept HP. Qed.

Lemma kept_status now a b c d : preserves P (updatePassStatus now a b c d).
Proof.
  unfold updatePassStatus. apply pres_check. intros _. cbv zeta. apply pres_look. intros s i p Hp _ _ Hs.
  rewrite exec_fail_if. destruct (canTransitPassStatus _ _) eqn:E; [|done]. simpl. eapply kept_change; [exact Hp| |done].
  split_and!; try done; simpl; [destruct (transit_status _ _ E) as [->|]; done|]. intros Hr. rewrite Hr in E.
  by apply transit_revoked in E.
Qed.
Lemma kept_assign now a b c d e : preserves P (AssignPass now a b c d e).
Proof.
  unfold AssignPass. apply pres_check. intros _. apply pres_lift_bind. intros tt _. apply pres_check. intros _.
  apply pres_look. intros s i p Hp _ _ Hs. rewrite exec_fail_if. destruct (String.eqb_spec (psStatus p) "revoked"); [done|].
  eapply kept_change; [exact Hp| |done]. split_and!; try done. simpl. unfold pass_statuses. set_solver.
Qed.
Lemma kept_deassign now a b c : preserves P (DeassignPass now a b c).
Proof.
  unfold DeassignPass. apply pres_check. intros _. apply pres_look. intros s i p Hp _ _ Hs. rewrite exec_fail_if.
  destruct (String.eqb_spec (psStatus p) "revoked"); [done|]. eapply kept_change; [exact Hp| |done].
  split_and!; try done. simpl. unfold pass_statuses. set_solver.
Qed.
End passes_keep.

(** Cards and their tasks. *)
Section cards_keep.
Context {MR : MapRange} {DG : Digest} (P : Service → Prop) (HP : closed P).

(** A card that is looked up and changed at once. *)
Lemma kept_card_at {B} i c c' s (f : unit → m B) :
  physicalCardInventory s !! i = Some c → (card_ok c → card_ok c') → (∀ u, preserves P (f u)) → P s →
  P (exec (put_card i c' ≫= f) s).
Proof.
  intros Hl Hc Hf HPs. unfold put_card. rewrite exec_modify. apply Hf, (closed_put_card P HP); [|done].
  intros c0 Hl0. rewrite Hl in Hl0. by injection Hl0 as <-.
Qed.

Lemma kept_create_card now a b c d e f : preserves P (CreatePhysicalCardInventoryItem now a b c d e f).
Proof.
  unfold CreatePhysicalCardInventoryItem. kept HP. apply (kept_add_card _ HP), new_card_ok; [|done|done].
  simpl. by eapply inventory_status_ok.
Qed.
Lemma kept_update_card now a b c d e : preserves P (UpdatePhysicalCardInventoryStatus now a b c d e).
Proof.
  unfold UpdatePhysicalCardInventoryStatus. cbv zeta. apply pres_check. intros _. apply pres_lift_bind. intros n Hn.
  apply pres_gets_bind. intros s Hs. destruct (findPhysicalCardInventoryIndexLocked _ _ _ _) as [[i x]|] eqn:Hf; [|done].
  rewrite exec_lift. destruct (applyPhysicalCardInventoryStatusTransition _ _ _) as [x'|] eqn:Ha; [|done].
  eapply kept_card_at; [by eapply findi_lookup| |intros; kept HP|done].
  eapply card_transit_ok; [by eapply inventory_status_ok|done].
Qed.
Lemma kept_batch_apply n now l : n ∈ inventory_statuses → preserves P (batch_apply n now l).
Proof.
  intros Hn. induction l as [|i l IH]; simpl; [kept HP|]. apply pres_gets_bind. intros s Hs.
  destruct (physicalCardInventory s !! i) as [x|] eqn:Hl; [|done]. rewrite exec_lift.
  destruct (applyPhysicalCardInventoryStatusTransition _ _ _) as [x'|] eqn:Ha; [|done].
  eapply kept_card_at; [exact Hl|by eapply card_transit_ok|by intros _|done].
Qed.
Lemma kept_batch_cards now a b c d e : preserves P (BatchUpdatePhysicalCardInventoryStatus now a b c d e).
Proof.
  unfold BatchUpdatePhysicalCardInventoryStatus. kept HP. apply kept_batch_apply. by eapply inventory_status_ok.
Qed.

(** An imported record overwrites an available card only, which holds nothing. *)
Lemma kept_import_one now t r : preserves P (import_one now t r).
Proof.
  unfold import_one. cbv zeta. apply pres_check. intros _. apply pres_lift_bind. intros n Hn.
  apply pres_bind; [kept HP|]. intros [v vn]. apply pres_gets_bind. intros s Hs.
  destruct (findPhysicalCardInventoryIndexLocked _ _ _ _) as [[i x]|] eqn:Hf.
  - destruct (String.eqb_spec (ciStatus x) "available") as [E|E]; simpl negb; cbv iota; [|done].
    eapply kept_card_at; [by eapply findi_lookup| |intros; kept HP|done]. intros [H1 H2].
    destruct H2 as [H2 H3]; [rewrite E; set_solver|]. by apply new_card_ok; [eapply inventory_status_ok| |].
  - revert s Hf Hs. match goal with |- ∀ s, _ → _ → P (exec ?f s) => enough (preserves P f) as Hk by (intros s _; apply Hk) end.
    kept HP. apply (kept_add_card _ HP), new_card_ok; [|done|done]. by eapply inventory_status_ok.
Qed.
Lemma kept_import_all now t l : preserves P (import_all now t l).
Proof. induction l as [|r l IH]; simpl; kept HP. apply kept_import_one. Qed.
Lemma kept_import now a b c : preserves P (ImportPhysicalCardInventory now a b c).
Proof. unfold ImportPhysicalCardInventory. kept HP. apply kept_import_all. Qed.
Lemma kept_scan now a b c d e f : preserves P (ScanPhysicalCardInventory now a b c d e f).
Proof.
  unfold ScanPhysicalCardInventory. cbv zeta. apply pres_check. intros _. apply pres_bind; [kept HP|]. intros id.
  apply pres_bind; [kept HP|]. intros [v vn]. apply pres_gets_bind. intros s Hs.
  destruct (findPhysicalCardInventoryIndexByUIDLocked _ _ _) as [[i x]|] eqn:Hf;
    [|destruct (findPhysicalCardInventoryIndexLocked _ _ _ _) as [[i x]|] eqn:Hf2].
  - assert (physicalCardInventory s !! i = Some x) as Hl.
    { unfold findPhysicalCardInventoryIndexByUIDLocked in Hf. destruct (is_empty _) in Hf; [done|].
      by eapply findi_lookup. }
    eapply kept_card_at; [exact Hl|intros H; exact H|intros; kept HP|done].
  - eapply kept_card_at; [by eapply findi_lookup|intros H; exact H|intros; kept HP|done].
  - assert (∀ (f : m PhysicalCardInventoryItem), preserves P f → P (exec f s)) as Hk by (intros g Hg; by apply Hg).
    apply Hk. kept HP. apply (kept_add_card _ HP), new_card_ok; [|done|done]. simpl. unfold inventory_statuses. set_solver.
Qed.
Lemma kept_create_task now a b c d e f g h : preserves P (CreatePhysicalCardTask now a b c d e f g h).
Proof.
  unfold CreatePhysicalCardTask. kept HP. apply (kept_put_card _ HP). split; simpl; [unfold inventory_statuses; set_solver|].
  set_solver.
Qed.
Lemma kept_task_moves_pass {B} now t n ty actor i p s (f : PassInstance → m B) :
  passes s !! i = Some p → (∀ q, preserves P (f q)) → P s → P (exec (task_moves_pass now t n ty actor i p ≫= f) s).
Proof.
  intros Hl Hf Hs. enough (P (exec (task_moves_pass now t n ty actor i p) s)) as Hk.
  { unfold exec in *. rewrite bind_op_eq. destruct (task_moves_pass now t n ty actor i p s) as [s' [q|e]]; [by apply Hf|done]. }
  unfold task_moves_pass. cbv zeta. destruct (String.eqb n "reported_lost" && canTransitPassStatus (psStatus p) "suspended") eqn:E1;
    [|destruct (String.eqb n "issued" && String.eqb ty "reissue" && canTransitPassStatus (psStatus p) "active") eqn:E2; [|done]].
  - boolp. eapply kept_put_pass; [exact HP|exact Hl| |intros; kept HP|done]. split_and!; try done; simpl.
    + intros _. unfold pass_statuses. set_solver.
    + intros Hr. rewrite Hr in *. done.
  - boolp. eapply kept_put_pass; [exact HP|exact Hl| |intros; kept HP|done]. split_and!; try done; simpl.
    + intros _. unfold pass_statuses. set_solver.
    + intros Hr. rewrite Hr in *. done.
Qed.
Lemma kept_update_task now a b c d e f : preserves P (UpdatePhysicalCardTaskStatus now a b c d e f).
Proof.
  unfold UpdatePhysicalCardTaskStatus. cbv zeta. apply pres_check. intros _. apply pres_bind; [kept HP|]. intros [i t].
  apply pres_lift_bind. intros n Hn. apply pres_check. intros _. apply pres_look. intros s pi p Hp _ _ Hs.
  apply kept_task_moves_pass; [exact Hp| |exact Hs]. intros q. apply pres_bind; [kept HP|]. intros _.
  apply pres_gets_bind. clear s Hp Hs. intros s Hs.
  destruct (findPhysicalCardInventoryIndexLocked _ _ _ _) as [[j x]|] eqn:Hf; [|by apply (pres_bind P); [kept HP|intros; kept HP|]].
  eapply kept_card_at; [by eapply findi_lookup|apply card_moves_ok|intros; kept HP|done].
Qed.
End cards_keep.

(** Jobs and the workers. *)
Section jobs_keep.
Context {MR : MapRange} {DG : Digest} (P : Service → Prop) (HP : closed P).

Ltac status := unfold job_statuses; set_solver.

Lemma kept_settle_job now t a actor r i j : jobStatus j ∈ job_statuses → preserves P (settle_job now t a actor r i j).
Proof. intros Hj. unfold settle_job. kept HP. by apply (kept_put_job _ HP). Qed.
Lemma kept_batch_jobs now b t bid tid tt tpl ex ac l : preserves P (batch_jobs now b t bid tid tt tpl ex ac l).
Proof.
  induction l as [|raw l IH]; simpl; [kept HP|]. apply pres_bind; [kept HP|]. intros id.
  apply (pres_bind_post P (λ j, jobStatus j ∈ job_statuses)); [| |intros j Hj; kept HP; by apply (kept_add_job _ HP)].
  - kept HP. apply kept_catch_create; [exact HP|intros; kept HP|]. intros p Hp. kept HP. apply (kept_add_pass _ HP).
    rewrite Hp. set_solver.
  - intros s j _. unfold answer. destruct (is_empty _ || negb b).
    + intros [= <-]. unfold new_job. destruct (is_empty _); simpl; status.
    + unfold catch. rewrite bind_op_eq. destruct (createPassRecord _ _ _ _ _ _ _ _ _ s) as [s' [p|e]];
        intros [= <-]; simpl; status.
Qed.
Lemma kept_issue_batch now b a t tid tt l ex ac : preserves P (issue_batch now b a t tid tt l ex ac).
Proof. unfold issue_batch. kept HP. apply kept_batch_jobs. Qed.

Lemma kept_retry_job now a b c d : preserves P (RetryJob now a b c d).
Proof.
  unfold RetryJob. kept HP; [apply kept_settle_job; status|].
  apply kept_catch_create; [exact HP|intros; apply kept_settle_job; status|]. intros p Hp.
  apply pres_bind; [apply (kept_add_pass _ HP); rewrite Hp; set_solver|]. intros _. apply kept_settle_job. status.
Qed.
Lemma kept_requeue_job now a b c d : preserves P (RequeueDLQJob now a b c d).
Proof. unfold RequeueDLQJob. kept HP. apply kept_settle_job. status. Qed.
Lemma kept_requeue_loop now o l r : preserves P (requeue_loop now o l r).
Proof. revert r. induction l as [|i l IH]; intros r; simpl; kept HP;
    solve [apply IH|apply (kept_put_job _ HP); status]. Qed.
Lemma kept_requeue_jobs now o : preserves P (RequeueDLQJobs now o).
Proof. unfold RequeueDLQJobs. kept HP. apply kept_requeue_loop. Qed.

Lemma cleanup_kept t e cutoff room l kept gone :
  cleanup_from t e cutoff room l = (kept, gone) → kept ⊆ l.
Proof.
  revert room kept gone; induction l as [|j l IH]; intros room kept gone; simpl; [by intros [= <- <-]|].
  destruct room as [|room]; [by intros [= <- <-]|]. destruct (_ && _);
    destruct (cleanup_from _ _ _ _ l) as [k g] eqn:E; intros [= <- <-]; apply IH in E; set_solver.
Qed.
#[local] Instance quiet_audit_all now a b l : Quiet (audit_all now a b l).
Proof. induction l as [|j l IH]; simpl; apply _. Qed.
Lemma kept_cleanup_jobs now o : preserves P (CleanupDLQJobs now o).
Proof.
  unfold CleanupDLQJobs. apply pres_lift_bind. intros o' _. apply pres_gets_bind. intros s Hs.
  destruct (cleanup_from _ _ _ _ (jobs s)) as [l g] eqn:E. unfold exec. rewrite bind_op_eq.
  destruct (audit_all now _ _ g s) as [s1 [[]|e]] eqn:Ha.
  - pose proof (quiet_run _ _ _ _ Ha) as Hq. pose proof (closed_quiet _ HP _ _ Hq Hs) as Hs1.
    assert (P (s1 <| jobs := l |>)) as Hs2.
    { apply (closed_jobs P HP); [|done]. intros j Hj. left. rewrite (quiet_jobs _ _ Hq). by eapply cleanup_kept. }
    match goal with |- P (mbind (λ _, ?f) _ s1).1 =>
      enough (preserves P f) as Hk by exact (Hk _ Hs2) end.
    unfold appendDLQCleanupArchiveLocked. kept HP.
  - exact (closed_quiet _ HP _ _ (quiet_run _ _ _ _ Ha) Hs).
Qed.

Lemma claim_status now t mx room l l' ids : claim_from now t mx room l = (l', ids) →
  ∀ j, j ∈ l' → j ∈ l ∨ jobStatus j ∈ job_statuses.
Proof.
  revert room l' ids; induction l as [|x l IH]; intros room l' ids; simpl; [intros [= <- <-]; set_solver|].
  destruct room as [|room]; [intros [= <- <-]; by left|]. destruct (processable _ _ _);
    destruct (claim_from _ _ _ _ l) as [r i] eqn:E; intros [= <- <-] j [->|Hj]%elem_of_cons.
  - right. simpl. status.
  - destruct (IH _ _ _ E j Hj); [left; set_solver|by right].
  - left. set_solver.
  - destruct (IH _ _ _ E j Hj); [left; set_solver|by right].
Qed.
Lemma kept_claim now t limit mx : preserves P (claimProcessableJobsLocked now t limit mx).
Proof.
  intros s Hs. unfold exec, claimProcessableJobsLocked. destruct (claim_from _ _ _ _ _) as [l ids] eqn:E.
  apply (closed_jobs P HP); [by eapply claim_status|done].
Qed.

Lemma kept_failure now id code text actor r mx : preserves P (setJobFailure now id code text actor r mx).
Proof. unfold setJobFailure. kept HP. apply (kept_put_job _ HP). apply failure_status. Qed.
Lemma kept_success now id r actor : psStatus r = "issued" → preserves P (setJobSuccess now id r actor).
Proof.
  intros Hr. unfold setJobSuccess. kept HP; [apply (kept_add_pass _ HP); rewrite Hr; set_solver|].
  apply (kept_put_job _ HP). status.
Qed.

(** A worker about to settle holds a newly issued pass. *)
Definition fresh (w : worker) : Prop := match w with Settling _ _ r => psStatus r = "issued" | _ => True end.
Lemma worker_step_keeps now o w ch s w' ch' s' out :
  worker_step now o w ch s = (w', ch', s', out) → fresh w → P s → P s' ∧ fresh w'.
Proof.
  destruct w as [|id|id j|id j t|id re r|id re code text ry|]; simpl.
  - destruct ch; by intros [= <- <- <- <-].
  - repeat case_match; by intros [= <- <- <- <-].
  - repeat case_match; by intros [= <- <- <- <-].
  - destruct (createPassRecord _ _ _ _ _ _ _ _ _ s) as [s1 [r|e]] eqn:E; intros [= <- <- <- <-] _ Hs;
      (split; [exact (closed_quiet _ HP _ _ (quiet_run _ _ _ _ E) Hs)|]); [|done].
    by apply create_ok in E as (_&_&_&?&_).
  - destruct (setJobSuccess _ _ _ _ s) as [s1 x] eqn:E. intros [= <- <- <- <-] Hf Hs. split; [|done].
    pose proof (kept_success now id r (jpoActor o) Hf s Hs) as Hk. unfold exec in Hk. by rewrite E in Hk.
  - destruct (setJobFailure _ _ _ _ _ _ _ s) as [s1 x] eqn:E. intros [= <- <- <- <-] _ Hs. split; [|done].
    pose proof (kept_failure now id code text (jpoActor o) ry (jpoMaxRetry o) s Hs) as Hk. unfold exec in Hk.
    by rewrite E in Hk.
  - by intros [= <- <- <- <-].
Qed.
Lemma kept_run_pool fuel schedule o p :
  P (svc p) → Forall fresh (workers p) → P (svc (run_pool fuel schedule o p)).
Proof.
  revert p; induction fuel as [|n IH]; intros p Hp Hw; simpl; [done|]. destruct (finished p); [done|].
  destruct (schedule n) as [choice now]. unfold step_pool. destruct (workers p !! _) as [w|] eqn:Hl; [|by apply IH].
  destruct (worker_step _ _ _ _ _) as [[[w' ch'] s'] out] eqn:E.
  destruct (worker_step_keeps _ _ _ _ _ _ _ _ _ E (Forall_lookup_1 _ _ _ _ Hw Hl) Hp).
  apply IH; [done|]. by apply Forall_insert.
Qed.
Lemma kept_process now schedule o : preserves P (ProcessIssueJobs now schedule o).
Proof.
  unfold ProcessIssueJobs. kept HP; [apply kept_claim|]. intros s Hs. unfold exec. cbv zeta. simpl.
  apply kept_run_pool; [done|]. apply Forall_replicate. done.
Qed.
End jobs_keep.

(** Every call keeps every closed predicate. *)
Section all_calls.
Context {MR : MapRange} {DG : Digest}.

Lemma run_keeps P now c s : closed P → P s → P (run now c s).
Proof.
  intros HP. revert s. destruct c; unfold run;
    match goal with |- ∀ s, P s → P (exec ?f s) => change (preserves P f) end;
    eauto using kept_delivery_options, kept_google, kept_template, kept_template_status, kept_issue, kept_unassigned,
      kept_enroll, kept_nfc, kept_status, kept_assign, kept_deassign, kept_create_card, kept_update_card,
      kept_batch_cards, kept_import, kept_scan, kept_create_task, kept_update_task, kept_issue_batch, kept_retry_job,
      kept_requeue_job, kept_requeue_jobs, kept_cleanup_jobs, kept_process, kept_subscription, kept_dispatch_alerts,
      kept_retry_alert, kept_dispatch_alert, kept_confirm, kept_dispatch_pass, kept_retry_pass with nocore.
  apply (kept_other P HP); intros s; done.
Qed.
Lemma run_all_keeps P l s : closed P → P s → P (run_all l s).
Proof. intros HP. revert s; induction l as [|[now c] l IH]; intros s Hs; [done|]. by apply IH, run_keeps. Qed.
End all_calls.

(** ** What holds after any calls *)

(** Every pass and job has a status of its kind, every card is as it should be. *)
Definition rows_typed (ps : list PassInstance) (js : list IssueJob) (cs : list PhysicalCardInventoryItem) : Prop :=
  Forall (λ p, psStatus p ∈ pass_statuses) ps ∧ Forall (λ j, jobStatus j ∈ job_statuses) js ∧ Forall card_ok cs.
Definition typed (s : Service) : Prop := rows_typed (passes s) (jobs s) (physicalCardInventory s).

Lemma typed_closed : closed typed.
Proof.
  unfold typed, rows_typed. split.
  - intros s s' -> -> ->. done.
  - intros s p Hp (H1&H2&H3). split_and!; simpl; [|done|done]. constructor; [|done]. unfold pass_statuses. set_solver.
  - intros s i p p' Hl (_&_&Hs&_) (H1&H2&H3). split_and!; simpl; [|done|done].
    apply Forall_insert; [done|]. exact (Hs (Forall_lookup_1 _ _ _ _ H1 Hl)).
  - intros s l Hj (H1&H2&H3). split_and!; simpl; [done| |done]. rewrite Forall_forall in *. intros j Hin.
    destruct (Hj j Hin) as [Ho|]; [exact (H2 j Ho)|done].
  - intros s x Hx (H1&H2&H3). split_and!; simpl; [done|done|]. by constructor.
  - intros s i x' Hx (H1&H2&H3). split_and!; simpl; [done|done|].
    destruct (decide (i < length (physicalCardInventory s))%nat) as [Hlt|Hge];
      [|by rewrite list_insert_ge by lia].
    apply lookup_lt_is_Some in Hlt as [x Hl]. apply Forall_insert; [done|].
    exact (Hx x Hl (Forall_lookup_1 _ _ _ _ H3 Hl)).
Qed.

(** [p'] is the pass [p] some calls later. *)
Definition pass_later (p p' : PassInstance) : Prop :=
  psID p' = psID p ∧ psTenantID p' = psTenantID p
  ∧ (psStatus p = "revoked" →
     psStatus p' = "revoked" ∧ psTargetType p' = psTargetType p ∧ psTargetID p' = psTargetID p).
#[export] Instance pass_later_preorder : PreOrder pass_later.
Proof.
  split; [by intros p|]. intros p1 p2 p3 (A1&A2&A3) (B1&B2&B3). split_and!; [congruence|congruence|].
  intros Hr. destruct (A3 Hr) as (?&?&?). destruct B3 as (?&?&?); [done|]. split_and!; congruence.
Qed.
Definition passes_since (old : list PassInstance) (s : Service) : Prop :=
  ∃ added kept, passes s = added ++ kept ∧ Forall2 pass_later old kept.

Lemma passes_since_closed old : closed (passes_since old).
Proof.
  split.
  - intros s s' Hp _ _. unfold passes_since. by rewrite Hp.
  - intros s p _ (a & k & Hp & Hk). exists (p :: a), k. simpl. by rewrite Hp.
  - intros s i p p' Hl (E1&E2&_&E3) (a & k & Hp & Hk). rewrite Hp in Hl. unfold passes_since. simpl. rewrite Hp.
    destruct (decide (i < length a)%nat) as [Hlt|Hge].
    + exists (<[i:=p']> a), k. by rewrite insert_app_l.
    + assert (i = length a + (i - length a))%nat as Hi by lia. rewrite Hi in *. rewrite lookup_app_r in Hl by lia.
      rewrite insert_app_r. exists a, (<[(i - length a)%nat:=p']> k). split; [done|].
      replace (length a + (i - length a) - length a)%nat with (i - length a)%nat in Hl by lia.
      destruct (Forall2_lookup_r _ _ _ _ _ Hk Hl) as (q & Hq & Hqp). rewrite <- (list_insert_id old _ _ Hq).
      apply Forall2_insert; [done|]. etrans; [exact Hqp|]. done.
  - intros s l _. done.
  - intros s x _. done.
  - intros s i x _. done.
Qed.

Section theorems.
Context {MR : MapRange} {DG : Digest}.

(** C30: After any calls from the start or from a stored snapshot that is well-typed:
    each pass is issued, active, suspended or revoked; each job pending,
    processing, success, failed or dlq; each card has one of the six inventory
    statuses, and an available, frozen or scrapped card is assigned to no pass and
    no task. *)
Theorem wallet_typed now store l s :
  (∀ sn, stored store = Some sn → rows_typed (snPasses sn) (snJobs sn) (snPhysicalCardInventory sn)) →
  NewServiceWithStateStore now store = Ok s → typed (run_all l s).
Proof.
  intros Hs Hn. apply run_all_keeps; [exact typed_closed|].
  assert (s = exec restoreFromStateStore ((NewService now) <| stateStore := Some store |>)) as ->.
  { unfold NewServiceWithStateStore, exec in *. by destruct (restoreFromStateStore _) as [s' [[]|e]]; simplify_eq. }
  unfold restoreFromStateStore. rewrite exec_gets. simpl stateStore. cbv iota. destruct (stored store) as [sn|] eqn:E.
  - exact (Hs sn eq_refl).
  - apply (closed_quiet _ typed_closed ((NewService now) <| stateStore := Some store |>)); [apply quiet_exec|].
    unfold typed, rows_typed, card_ok. simpl.
    repeat constructor; simpl; unfold pass_statuses, job_statuses, inventory_statuses; set_solver.
Qed.

(** C29: Whatever calls follow: no pass is removed or reordered, new ones are put in
    front, ids and tenants never change, and a revoked pass stays revoked and keeps
    its holder. *)
Theorem pass_revocation_final l s :
  ∃ added kept, passes (run_all l s) = added ++ kept ∧ Forall2 pass_later (passes s) kept.
Proof.
  apply (run_all_keeps (passes_since (passes s)) l s); [apply passes_since_closed|]. exists [], (passes s).
  split; [done|]. by apply Forall_Forall2_diag, Forall_forall.
Qed.
End theorems.

#[local] Instance toy_digest : Digest := {| sha256 := λ b, b |}.
#[local] Existing Instance sorted_range.

Lemma wallet_typed_witness :
  ∃ s, NewServiceWithStateStore 0 (mkStore [] None) = Ok s
  ∧ typed (run_all [(5, CUpdatePassStatus demo "wps_demo_1001" "suspended" "ops");
                    (6, CUpdateTask demo "wpc_demo_1001" "cancelled" "" "" "ops")] s).
Proof.
  eexists. split; [reflexivity|]. eapply (wallet_typed 0 (mkStore [] None)); [|reflexivity].
  intros sn H. discriminate H.
Defined.
