(* ===== verification/CertRevocation.v ===== *)
(** * Revoked gateway certificates (modules/gateway/cert_revocation.go)

    The list of certificate serial numbers no gateway may connect with, kept next
    to the fleet of [Gateway] in one service and saved with it.  Serials are
    compared after normalisation: the hexadecimal digits in lower case without
    leading zeros. *)

From S2P Require Import Prelude GoStrings GoTime GoText Gateway.
#[local] Open Scope string_scope.
#[local] Open Scope list_scope.
#[local] Open Scope Z_scope.

Record GatewayCertificateRevocation := mkRevocation {
  rvID : string; rvTenantID : string; rvGatewayID : string; rvSerialNumber : string; rvReason : string;
  rvRevokedBy : string; rvRevokedAt : option Z; rvSource : string
}.
#[export] Instance eta_revocation : Eta GatewayCertificateRevocation := λ x,
  mkRevocation (rvID x) (rvTenantID x) (rvGatewayID x) (rvSerialNumber x) (rvReason x) (rvRevokedBy x)
    (rvRevokedAt x) (rvSource x).

(** The gateway service with its list of revocations. *)
Record CertService := mkCertService {
  fleet : Gateway.Service;
  certificateRevocations : list GatewayCertificateRevocation;
  savedCert : option (Gateway.Snap * list GatewayCertificateRevocation)
}.
#[export] Instance eta_cert : Eta CertService := λ s,
  mkCertService (fleet s) (certificateRevocations s) (savedCert s).
#[export, program] Instance cert_persistent : Persistent CertService (Gateway.Snap * list GatewayCertificateRevocation) := {|
  snapshot := λ s, (snapshot (fleet s), certificateRevocations s); saved := savedCert;
  set_saved := λ d s, s <| savedCert := d |>
|}.
Solve All Obligations with done.

Inductive cert_err :=
| ErrCertGatewayNotFound | ErrGatewayCertificateSerialRequired | ErrGatewayCertificateSerialInvalid
| ErrGatewayCertificateSerialConflict | ErrGatewayCertificateSerialNotFound | ErrCertRandom | ErrCertSave.
#[export] Instance cert_service_err : ServiceErr cert_err := {| ErrRand := ErrCertRandom; ErrStore := ErrCertSave |}.

(** ** Serial numbers *)

Definition isCertificateSerialHex (c : ascii) : bool :=
  ((48 <=? code c) && (code c <=? 57)) || ((97 <=? code c) && (code c <=? 102)).
Fixpoint hex_only (s : string) : string :=
  match s with
  | EmptyString => ""
  | String c s' => if isCertificateSerialHex c then String c (hex_only s') else hex_only s'
  end.
Definition trim_zeros (s : string) : string :=
  let normalized := TrimLeftByte "0" s in if is_empty normalized then "0" else normalized.

Definition NormalizeCertificateSerial (raw : string) : string :=
  let digits := hex_only (ToLower (TrimSpace raw)) in
  if is_empty digits then "" else trim_zeros digits.

(** Between the digits only colons, hyphens, blanks and tabs. *)
Definition serial_separator (c : ascii) : bool :=
  (code c =? 58) || (code c =? 45) || (code c =? 32) || (code c =? 9).
Definition normalizeCertificateSerialInput (raw : string) : result cert_err string :=
  let value := ToLower (TrimSpace raw) in
  if is_empty value then Err ErrGatewayCertificateSerialRequired
  else if negb (all_chars (λ c, isCertificateSerialHex c || serial_separator c) value)
  then Err ErrGatewayCertificateSerialInvalid
  else if is_empty (hex_only value) then Err ErrGatewayCertificateSerialRequired
  else
    let normalized := trim_zeros (hex_only value) in
    if 128 <? len normalized then Err ErrGatewayCertificateSerialInvalid else Ok normalized.

Definition certificateRevocationID (serial : string) : string := "gw_cert_rev_" +:+ serial.
Definition cloneGatewayCertificateRevocation (r : GatewayCertificateRevocation) : GatewayCertificateRevocation :=
  if is_empty (rvSource r) then r <| rvSource := "runtime" |> else r.

(** ** The list *)

Definition ListCertificateRevocations (tenantID : string) (s : CertService) : list GatewayCertificateRevocation :=
  let filterTenantID := TrimSpace tenantID in
  cloneGatewayCertificateRevocation <$>
    filterb (λ r, is_empty filterTenantID || String.eqb (rvTenantID r) filterTenantID) (certificateRevocations s).

Definition has_serial (serial : string) (r : GatewayCertificateRevocation) : bool := String.eqb (rvSerialNumber r) serial.

Definition IsCertificateSerialRevoked (serialNumber : string) (s : CertService) : bool :=
  let serial := NormalizeCertificateSerial serialNumber in
  negb (is_empty serial) && existsb (has_serial serial) (certificateRevocations s).

(** The tenant of a request: that of the gateway, if one is named. *)
Definition revocation_tenant (tenantID gatewayID : string) : op CertService cert_err string :=
  if is_empty gatewayID then mret tenantID
  else
    found ← gets (λ s, findi (λ g, String.eqb (gwID g) gatewayID) (gateways (fleet s)));
    match found with
    | None => throw ErrCertGatewayNotFound
    | Some (_, g) =>
        fail_if (negb (is_empty tenantID) && negb (String.eqb (gwTenantID g) tenantID)) ErrCertGatewayNotFound;;
        mret (if is_empty tenantID then gwTenantID g else tenantID)
    end.

Definition RevokeCertificateSerial (env : Env) (tenantID gatewayID serialNumber reason revokedBy : string) :
    op CertService cert_err GatewayCertificateRevocation :=
  serial ← lift (normalizeCertificateSerialInput serialNumber);
  let nextGatewayID := TrimSpace gatewayID in
  nextTenantID ← revocation_tenant (TrimSpace tenantID) nextGatewayID;
  let record := mkRevocation (certificateRevocationID serial) nextTenantID nextGatewayID serial (TrimSpace reason)
                  (TrimSpace revokedBy) (Some (now env)) "runtime" in
  found ← gets (λ s, findi (has_serial serial) (certificateRevocations s));
  match found with
  | Some (i, r) =>
      fail_if (negb (is_empty nextTenantID) && negb (is_empty (rvTenantID r))
               && negb (String.eqb (rvTenantID r) nextTenantID)) ErrGatewayCertificateSerialConflict;;
      let r' := r <| rvTenantID ::= (λ t, if is_empty t then nextTenantID else t) |>
                  <| rvGatewayID ::= (λ g, if is_empty nextGatewayID then g else nextGatewayID) |>
                  <| rvReason := rvReason record |> <| rvRevokedBy := rvRevokedBy record |>
                  <| rvRevokedAt := rvRevokedAt record |> <| rvSource := "runtime" |> in
      modify (λ s, s <| certificateRevocations ::= <[i := r']> |>);;
      persistLocked env;; mret (cloneGatewayCertificateRevocation r')
  | None =>
      modify (λ s, s <| certificateRevocations ::= cons record |>);;
      persistLocked env;; mret (cloneGatewayCertificateRevocation record)
  end.

Definition RestoreCertificateSerial (env : Env) (tenantID serialNumber : string) :
    op CertService cert_err GatewayCertificateRevocation :=
  serial ← lift (normalizeCertificateSerialInput serialNumber);
  let filterTenantID := TrimSpace tenantID in
  found ← gets (λ s, findi (has_serial serial) (certificateRevocations s));
  match found with
  | None => throw ErrGatewayCertificateSerialNotFound
  | Some (i, r) =>
      fail_if (negb (is_empty filterTenantID) && negb (is_empty (rvTenantID r))
               && negb (String.eqb (rvTenantID r) filterTenantID)) ErrGatewayCertificateSerialNotFound;;
      modify (λ s, s <| certificateRevocations ::= delete i |>);;
      persistLocked env;; mret (cloneGatewayCertificateRevocation r)
  end.

(** ** One serial number, however it is written *)

Lemma hex_only_hex s : all_chars isCertificateSerialHex (hex_only s) = true.
Proof. induction s as [|c s IH]; [done|]. simpl. destruct (isCertificateSerialHex c) eqn:H; simpl; by rewrite ?H. Qed.
Lemma hex_only_fix s : all_chars isCertificateSerialHex s = true → hex_only s = s.
Proof. induction s as [|c s IH]; [done|]. simpl. intros [-> ?]%andb_true_iff. by rewrite IH. Qed.
Lemma hex_lower c : isCertificateSerialHex c = true → lower_ascii c = c.
Proof. unfold isCertificateSerialHex, lower_ascii. intros H. destruct ((65 <=? code c) && _) eqn:E; [lia|done]. Qed.
Lemma hex_plain s : all_chars isCertificateSerialHex s = true → ToLower (TrimSpace s) = s.
Proof.
  intros H. rewrite TrimSpace_fix.
  - induction s as [|c s IH]; [done|]. rewrite ToLower_cons. simpl in H. apply andb_true_iff in H as [Hc Hs].
    rewrite (IH Hs). f_equal. by apply hex_lower.
  - apply visible_trimmed. revert H. apply all_chars_weaken. intros c Hc.
    unfold isCertificateSerialHex, GoStrings.visible in *. lia.
Qed.
Lemma trim_zeros_hex s : all_chars isCertificateSerialHex s = true → all_chars isCertificateSerialHex (trim_zeros s) = true.
Proof.
  intros H. unfold trim_zeros. destruct (is_empty _); [done|]. induction s as [|c s IH]; [done|]. simpl in *.
  apply andb_true_iff in H as [Hc Hs]. destruct (Ascii.eqb _ _); [by apply IH|]. simpl. by rewrite Hc.
Qed.
Lemma left_zeros s : TrimLeftByte "0" (TrimLeftByte "0" s) = TrimLeftByte "0" s.
Proof. induction s as [|c s IH]; [done|]. simpl. destruct (Ascii.eqb _ _) eqn:E; [done|]. simpl. by rewrite E. Qed.
Lemma trim_zeros_idem s : trim_zeros (trim_zeros s) = trim_zeros s.
Proof. unfold trim_zeros. destruct (is_empty (TrimLeftByte "0" s)) eqn:E; [done|]. by rewrite left_zeros, E. Qed.
Lemma trim_zeros_nonempty s : is_empty (trim_zeros s) = false.
Proof. unfold trim_zeros. by destruct (is_empty (TrimLeftByte "0" s)) eqn:E. Qed.

Lemma normalize_idem raw : NormalizeCertificateSerial (NormalizeCertificateSerial raw) = NormalizeCertificateSerial raw.
Proof.
  unfold NormalizeCertificateSerial at 2 3. pose proof (hex_only_hex (ToLower (TrimSpace raw))) as H.
  destruct (is_empty (hex_only _)) eqn:E; [done|]. apply trim_zeros_hex in H.
  unfold NormalizeCertificateSerial. rewrite hex_plain, hex_only_fix, trim_zeros_nonempty by done. apply trim_zeros_idem.
Qed.
(** What the calls accept is what the check of a certificate makes of it. *)
Lemma input_normal raw n : normalizeCertificateSerialInput raw = Ok n → NormalizeCertificateSerial raw = n ∧ n ≠ "".
Proof.
  unfold normalizeCertificateSerialInput, NormalizeCertificateSerial. destruct (is_empty _); [done|].
  destruct (negb _); [done|]. destruct (is_empty (hex_only _)); [done|]. destruct (_ <? _); [done|].
  intros [= <-]. split; [done|]. apply is_empty_false, trim_zeros_nonempty.
Qed.

(** ** Revoked until restored *)

Inductive call :=
| CRevoke (tenantID gatewayID serialNumber reason revokedBy : string)
| CRestore (tenantID serialNumber : string)
| CFleet (f : Gateway.Service → Gateway.Service).
Definition run_call (env : Env) (c : call) : CertService → CertService :=
  match c with
  | CRevoke t g n reason by_ => exec (RevokeCertificateSerial env t g n reason by_)
  | CRestore t n => exec (RestoreCertificateSerial env t n)
  | CFleet f => λ s, s <| fleet ::= f |>
  end.
Definition run (cs : list (Env * call)) (s : CertService) : CertService :=
  fold_left (λ s '(env, c), run_call env c s) cs s.

(** A restore of this serial number by its tenant, or by the platform. *)
Definition lifts (tenant serial : string) (c : call) : bool :=
  match c with
  | CRestore t n => String.eqb (NormalizeCertificateSerial n) serial && (is_empty (TrimSpace t) || String.eqb (TrimSpace t) tenant)
  | _ => false
  end.

(** The entry of the serial number is the tenant's. *)
Definition revoked_by (tenant serial : string) (s : CertService) : Prop :=
  ∃ i r, findi (has_serial serial) (certificateRevocations s) = Some (i, r) ∧ rvTenantID r = tenant.

Lemma persist_revocations env s :
  certificateRevocations (exec (persistLocked (E:=cert_err) env) s) = certificateRevocations s.
Proof. pose proof (persist_snapshot (E:=cert_err) env s) as H. by injection H. Qed.

(** The entry of a serial number when another one is changed or taken away. *)
Lemma entry_replaced n tenant s i r r' :
  certificateRevocations s !! i = Some r → rvSerialNumber r' = rvSerialNumber r →
  (rvTenantID r = tenant → rvTenantID r' = tenant) → revoked_by tenant n s →
  revoked_by tenant n (s <| certificateRevocations ::= <[i := r']> |>).
Proof.
  intros Hi Hs Ht (j & x & Hf & Hx).
  pose proof (findi_insert (has_serial n) _ i j r r' x Hi ltac:(unfold has_serial; by rewrite Hs) Hf) as Hn.
  exists j. eexists. split; [exact Hn|]. destruct (Nat.eqb_spec i j) as [->|]; [|done]. apply Ht.
  apply findi_lookup in Hf. congruence.
Qed.
Lemma entry_deleted n tenant s i r :
  certificateRevocations s !! i = Some r → rvSerialNumber r ≠ n → revoked_by tenant n s →
  revoked_by tenant n (s <| certificateRevocations ::= delete i |>).
Proof.
  intros Hi Hr (j & x & Hf & Hx). unfold revoked_by. simpl.
  assert (∃ k, findi (has_serial n) (delete i (certificateRevocations s)) = Some (k, x)) as [k Hk]; [|eauto].
  clear Hx. revert i j Hi Hf. induction (certificateRevocations s) as [|a l IH]; intros i j Hi Hf; [done|].
  destruct i as [|i]; simpl in *.
  - simplify_eq. unfold has_serial in Hf at 1. destruct (String.eqb_spec (rvSerialNumber r) n); [done|].
    destruct (findi _ l) as [[k z]|]; simplify_eq. eauto.
  - destruct (has_serial n a); [eauto|]. destruct (findi (has_serial n) l) as [[k z]|] eqn:Hl; [|done]. simplify_eq.
    destruct (IH i k Hi eq_refl) as [k' ->]. eauto.
Qed.

Lemma saved_keeps tenant n env (x : GatewayCertificateRevocation) :
  preserves (revoked_by tenant n) (persistLocked (E:=cert_err) env;; mret x).
Proof.
  apply pres_bind; [|intros _; apply pres_ret]. intros s. unfold revoked_by. by rewrite persist_revocations.
Qed.

Lemma revoke_keeps tenant n env t g raw reason by_ :
  tenant ≠ "" → preserves (revoked_by tenant n) (RevokeCertificateSerial env t g raw reason by_).
Proof.
  intros Ht. apply pres_lift_bind. intros sn _. cbv zeta. apply pres_bind; [unfold revocation_tenant; pres_all|intros tn].
  apply pres_gets_bind. intros s Hs. destruct (findi _ _) as [[i r]|] eqn:Hf.
  - rewrite exec_fail_if. destruct (_ && _) eqn:Hc; [done|]. rewrite exec_modify. apply saved_keeps.
    eapply entry_replaced; [by eapply findi_lookup|done| |done]. simpl. intros ->.
    destruct (is_empty tenant) eqn:E; [by apply is_empty_true in E|done].
  - rewrite exec_modify. apply saved_keeps. destruct Hs as (i & r & Hr & Htn). exists (S i), r. split; [|done]. simpl.
    unfold has_serial at 1. simpl. destruct (String.eqb_spec sn n) as [->|]; [by rewrite Hf in Hr|by rewrite Hr].
Qed.
Lemma restore_keeps tenant n env t raw :
  tenant ≠ "" → lifts tenant n (CRestore t raw) = false → preserves (revoked_by tenant n) (RestoreCertificateSerial env t raw).
Proof.
  intros Ht Hl. apply pres_lift_bind. intros sn [Hn _]%input_normal. cbv zeta. apply pres_gets_bind. intros s Hs.
  destruct (findi _ _) as [[i r]|] eqn:Hf; [|done]. rewrite exec_fail_if. destruct (_ && _) eqn:Hc; [done|].
  rewrite exec_modify. apply saved_keeps. eapply entry_deleted; [by eapply findi_lookup| |done].
  pose proof (findi_true _ _ _ _ Hf) as Hr. unfold has_serial in Hr. boolp. intros E. simpl in Hl.
  assert (sn = n) as -> by congruence. rewrite Hn, String.eqb_refl in Hl. simpl in Hl. boolp.
  destruct Hs as (j & x & Hj & Hx). rewrite Hf in Hj. simplify_eq.
  assert (is_empty (rvTenantID x) = false) as He by by apply is_empty_false.
  destruct (String.eqb_spec (rvTenantID x) (TrimSpace t)) as [?|]; [congruence|].
  rewrite He in Hc. by destruct (is_empty (TrimSpace t)).
Qed.

Lemma run_keeps_revoked tenant n cs s :
  tenant ≠ "" → Forall (λ '(_, c), lifts tenant n c = false) cs → revoked_by tenant n s → revoked_by tenant n (run cs s).
Proof.
  intros Ht Hf. revert s. induction Hf as [|[env c] cs Hc _ IH]; intros s Hs; [done|]. simpl. apply IH.
  destruct c as [t g raw reason by_|t raw|f]; [by apply revoke_keeps|by apply restore_keeps|done].
Qed.

(** A call of a tenant that revoked the serial number. *)
Lemma tenant_asked t g s s' tn : t ≠ "" → revocation_tenant t g s = (s', Ok tn) → s' = s ∧ tn = t.
Proof.
  intros Ht%is_empty_false. unfold revocation_tenant. destruct (is_empty g); [by intros [= <- <-]|]. rewrite bind_gets.
  destruct (findi _ _) as [[i x]|]; [|done]. rewrite fail_if_bind, Ht. destruct (_ && _); [done|]. by intros [= <- <-].
Qed.
Lemma revoke_makes env t g raw reason by_ s s' r :
  RevokeCertificateSerial env t g raw reason by_ s = (s', Ok r) → TrimSpace t ≠ "" →
  revoked_by (TrimSpace t) (NormalizeCertificateSerial raw) s'.
Proof.
  unfold RevokeCertificateSerial. intros H Ht. rewrite bind_lift in H.
  destruct (normalizeCertificateSerialInput raw) as [sn|] eqn:Hn; [|done]. apply input_normal in Hn as [-> _].
  apply bind_ok in H as (s1 & tn & [-> ->]%tenant_asked & H); [|done]. rewrite bind_gets in H.
  assert (∀ x s2, (persistLocked env;; mret x) s2 = (s', Ok r) → revoked_by (TrimSpace t) sn s2 → revoked_by (TrimSpace t) sn s')
    as Hsave by (intros x s2 E Hs2; apply (saved_keeps _ _ env x) in Hs2; unfold exec in Hs2; by rewrite E in Hs2).
  destruct (findi _ _) as [[i x]|] eqn:Hf.
  - rewrite fail_if_bind in H. destruct (_ && _) eqn:Hc; [done|]. rewrite bind_modify in H. apply Hsave in H; [done|].
    unfold revoked_by. simpl. erewrite findi_insert; [|by eapply findi_lookup|done|exact Hf].
    rewrite Nat.eqb_refl. do 2 eexists. split; [done|].
    simpl. apply is_empty_false in Ht. rewrite Ht in Hc. destruct (is_empty (rvTenantID x)); simpl in Hc; [done|]. by boolp.
  - rewrite bind_modify in H. apply Hsave in H; [done|]. eexists 0%nat, _. simpl. unfold has_serial at 1. simpl.
    by rewrite String.eqb_refl.
Qed.

Lemma revoked_check tenant n raw s :
  revoked_by tenant n s → n ≠ "" → NormalizeCertificateSerial raw = n → IsCertificateSerialRevoked raw s = true.
Proof.
  intros (i & r & Hf & _) Hn Hraw. unfold IsCertificateSerialRevoked. rewrite Hraw.
  apply is_empty_false in Hn. rewrite Hn. simpl. apply existsb_exists. exists r.
  split; [apply list_elem_of_In; by eapply findi_elem|by eapply findi_true].
Qed.
