(* ===== verification/Server.v ===== *)
(** * The HTTP server's state (internal/http/router.go)

    The services the handlers call, the tables the server keeps itself, and what
    it has sent out: the commands published on the message bus, the audit entries
    announced there and the camera snapshots asked for.  A handler answers a
    response or an error with its status code. *)

From S2P Require Import Prelude GoStrings GoTime Bytes AuditLog Wire Gateway CertRevocation Space Credential Event AccessData AccessState WalletData WalletState Wallet.
#[local] Open Scope string_scope.
#[local] Open Scope list_scope.
#[local] Open Scope Z_scope.

(** ** Requests *)

(** What is read of an [x509.Certificate]; [Equal] compares [certRaw]. *)
Record Certificate := mkCertificate {
  certRaw : bytes; certSerial : option string (* SerialNumber.Text(16) *); certCommonName : string;
  certOrganization : list string
}.
Record TLSState := mkTLS { PeerCertificates : list Certificate; VerifiedChains : list (list Certificate) }.
(** [Header.Get], [URL.Query().Get], the TLS state and the mark of the mTLS listener. *)
Record Request := mkRequest {
  header : string → string; query : string → string; rqTLS : option TLSState; rqMTLSRequired : bool
}.

Inductive http_err := HTTP (status : Z) (message : string).

(** ** The server *)

Record credentialSighting := mkSighting { csLockID : string; csSeenAt : Z; csCount : Z }.
#[export] Instance eta_sighting : Eta credentialSighting := λ x, mkSighting (csLockID x) (csSeenAt x) (csCount x).

(** The token table of the database: a hash per gateway; [tokenOutages] says of
    each query whether it fails. *)
Record TokenStore := mkTokens { tokenHashes : gmap string string; tokenOutages : list bool }.

Record GatewayCommand := mkCommand {
  cmdRequestID : string; cmdGatewayID : string; cmdCommand : string; cmdLockID : string; cmdTenantID : string;
  cmdIssuedBy : string; cmdIssuedAt : string
}.

Record server := mkServer {
  GatewayMTLSRevokedSerials : list string; GatewayRequireRequestNonce : bool;
  gatewaySvc : CertService; accessSvc : AccessState.Service; walletSvc : WalletState.Service;
  spaceSvc : Space.Service; credentialSvc : option Credential.Service; eventSvc : Event.Service;
  gatewayTokenStore : option TokenStore; gatewayDeviceTokens : gmap string string;
  gatewayNonceStore : option (list (option bool)); gatewayNonces : gmap string Z;
  credLastSeen : gmap string credentialSighting;
  busEnabled : bool; published : list (string * GatewayCommand); snapshots : list (string * string * string);
  auditSvc : AuditLog.Service; announced : list (string * AuditLog.Log)
}.
#[export] Instance eta_server : Eta server := λ s,
  mkServer (GatewayMTLSRevokedSerials s) (GatewayRequireRequestNonce s) (gatewaySvc s) (accessSvc s) (walletSvc s)
    (spaceSvc s) (credentialSvc s) (eventSvc s) (gatewayTokenStore s) (gatewayDeviceTokens s) (gatewayNonceStore s)
    (gatewayNonces s) (credLastSeen s) (busEnabled s) (published s) (snapshots s) (auditSvc s) (announced s).

Abbreviation handler := (op server http_err).

(** A read of a service. *)
Definition ask {S E A} (svc : server → S) (f : op S E A) : handler (option A) :=
  gets (λ s, match answer f (svc s) with Ok a => Some a | Err _ => None end).
