(* ===== verification/GatewayAuth.v ===== *)
(** * Authentication of gateway requests (internal/http/router_middleware.go,
    gateway_device_request.go, gateway_mtls_handler.go)

    A gateway proves itself with a client certificate or, unless the listener
    demands a certificate, with its device token; then the nonce and timestamp of
    the request are checked against replay. *)

From S2P Require Import Prelude GoStrings GoTime Bytes Wire Gateway CertRevocation AccessData AccessState WalletData WalletState Wallet Server.
#[local] Open Scope string_scope.
#[local] Open Scope list_scope.
#[local] Open Scope Z_scope.

(** ** Certificates and tokens *)

Definition bearerToken (authHeader : string) : option string :=
  let header := TrimSpace authHeader in
  if negb (HasPrefix header "Bearer ") then None
  else let token := TrimSpace (TrimPrefix header "Bearer ") in if is_empty token then None else Some token.

Definition gatewayCertificateStatusRevoked (status : string) : bool :=
  existsb (String.eqb (ToLower (TrimSpace status))) ["disabled"; "revoked"].

Definition gatewayIdentityStatusRevoked (gatewayID : string) (s : server) : bool :=
  match FindGatewayByID "" (TrimSpace gatewayID) (fleet (gatewaySvc s)) with
  | Some g => gatewayCertificateStatusRevoked (gwStatus g)
  | None => false
  end.

Definition bytes_eqb (a b : bytes) : bool := bool_decide (a = b).
(** The leaf, when a verified chain starts with it. *)
Definition verifiedGatewayClientCertificate (r : Request) : option Certificate :=
  match rqTLS r with
  | None => None
  | Some t =>
      match PeerCertificates t with
      | [] => None
      | leaf :: _ =>
          if existsb (λ chain, match chain with c :: _ => bytes_eqb (certRaw c) (certRaw leaf) | [] => false end)
               (VerifiedChains t)
          then Some leaf else None
      end
  end.

Definition gatewayClientSerialRevoked (serialNumber : string) (s : server) : bool :=
  let serial := NormalizeCertificateSerial serialNumber in
  negb (is_empty serial)
  && (existsb (λ x, String.eqb (NormalizeCertificateSerial x) serial) (GatewayMTLSRevokedSerials s)
      || IsCertificateSerialRevoked serial (gatewaySvc s)).
Definition gatewayClientCertificateRevoked (c : Certificate) (s : server) : bool :=
  match certSerial c with Some n => gatewayClientSerialRevoked n s | None => false end.

Definition authorizeGatewayClientCertificate (r : Request) (gatewayID : string) (s : server) : bool :=
  match verifiedGatewayClientCertificate r with
  | None => false
  | Some cert =>
      if gatewayClientCertificateRevoked cert s then false
      else
        let nextGatewayID := TrimSpace gatewayID in
        if is_empty nextGatewayID || negb (String.eqb (TrimSpace (certCommonName cert)) nextGatewayID) then false
        else match FindGatewayByID "" nextGatewayID (fleet (gatewaySvc s)) with
        | None => false
        | Some g =>
            if gatewayCertificateStatusRevoked (gwStatus g) then false
            else match certOrganization cert with
                 | [] => false
                 | o :: _ => String.eqb (TrimSpace o) (TrimSpace (gwTenantID g))
                 end
        end
  end.

Section tokens.
Context {DG : Digest}.

Definition gatewayDeviceTokenHash (deviceToken : string) : string := hex_encode (sha256 (of_string (TrimSpace deviceToken))).

(** [UpsertGatewayDeviceToken] and [VerifyGatewayDeviceToken] of the Postgres store:
    whether there is a token for the gateway, and whether it is this one. *)
Definition UpsertGatewayDeviceToken (gatewayID deviceToken : string) (t : TokenStore) : TokenStore :=
  let g := TrimSpace gatewayID in
  if is_empty g || is_empty (TrimSpace deviceToken) then t
  else match tokenOutages t with
       | true :: o => mkTokens (tokenHashes t) o
       | o => mkTokens (<[g := gatewayDeviceTokenHash (TrimSpace deviceToken)]> (tokenHashes t)) (tail o)
       end.
Definition VerifyGatewayDeviceToken (gatewayID providedToken : string) (t : TokenStore) :
    TokenStore * option (bool * bool) :=
  let g := TrimSpace gatewayID in
  if is_empty g || is_empty (TrimSpace providedToken) then (t, Some (false, false))
  else match tokenOutages t with
       | true :: o => (mkTokens (tokenHashes t) o, None)
       | o =>
           (mkTokens (tokenHashes t) (tail o),
            match tokenHashes t !! g with
            | None => Some (false, false)
            | Some stored =>
                Some (true, String.eqb (TrimSpace stored) (gatewayDeviceTokenHash (TrimSpace providedToken)))
            end)
       end.

(** The save of the tokens kept in memory is logged when it fails. *)
Definition setGatewayDeviceToken (gatewayID deviceToken : string) : handler unit :=
  let g := TrimSpace gatewayID in
  let token := TrimSpace deviceToken in
  if is_empty g || is_empty token then mret tt
  else modify (λ s, match gatewayTokenStore s with
                    | Some t => s <| gatewayTokenStore := Some (UpsertGatewayDeviceToken g token t) |>
                    | None => s <| gatewayDeviceTokens ::= <[g := token]> |>
                    end).

(** The token of a request: its own header, else the bearer token. *)
Definition provided_token (r : Request) : string :=
  let provided := TrimSpace (header r "X-Device-Token") in
  if is_empty provided then default "" (bearerToken (header r "Authorization")) else provided.

Definition authorizeGatewayDeviceToken (r : Request) (gatewayID : string) : handler unit :=
  revoked ← gets (gatewayIdentityStatusRevoked gatewayID);
  fail_if revoked (HTTP 401 "gateway revoked");;
  certified ← gets (authorizeGatewayClientCertificate r gatewayID);
  if certified : bool then mret tt
  else
    fail_if (rqMTLSRequired r) (HTTP 401 "valid gateway client certificate required");;
    let provided := provided_token r in
    fail_if (is_empty provided) (HTTP 401 "missing device token");;
    tokens ← gets gatewayTokenStore;
    match tokens with
    | Some t =>
        let '(t', checked) := VerifyGatewayDeviceToken (TrimSpace gatewayID) provided t in
        modify (λ s, s <| gatewayTokenStore := Some t' |>);;
        match checked with
        | None => throw (HTTP 500 "device token verification failed")
        | Some (exists', matched) =>
            if exists' && matched then mret tt
            else throw (HTTP 401 (if exists' : bool then "invalid device token" else "device not registered"))
        end
    | None =>
        expected ← gets (λ s, default "" (gatewayDeviceTokens s !! TrimSpace gatewayID));
        fail_if (is_empty (TrimSpace expected)) (HTTP 401 "device not registered");;
        fail_if (negb (String.eqb provided expected)) (HTTP 401 "invalid device token")
    end.
End tokens.

(** ** Nonces *)

Definition nonceWindow : Z := 5 * minute.

(** The nonces in memory: expired ones are dropped first. *)
Definition mark_nonce (now : Z) (nonceKey : string) (l : gmap string Z) : option (gmap string Z) :=
  let live := filter (λ '(_, exp), After now exp = false) l in
  match live !! nonceKey with
  | Some _ => None
  | None => Some (<[nonceKey := now + nonceWindow]> live)
  end.

Definition validateGatewayRequestNonce (now : Z) (r : Request) (gatewayID : string) : handler unit :=
  let nonce := TrimSpace (header r "X-Request-Nonce") in
  let tsRaw := TrimSpace (header r "X-Request-Timestamp") in
  if is_empty nonce && is_empty tsRaw then
    required ← gets GatewayRequireRequestNonce;
    fail_if required (HTTP 401 "gateway request nonce required")
  else
    fail_if (is_empty nonce || is_empty tsRaw)
      (HTTP 400 "X-Request-Nonce and X-Request-Timestamp must both be present");;
    match parse_rfc3339 tsRaw with
    | None => throw (HTTP 400 "invalid X-Request-Timestamp format")
    | Some ts =>
        fail_if ((nonceWindow <? time_sub now ts) || (nonceWindow <? time_sub ts now))
          (HTTP 401 "request timestamp outside acceptable window");;
        store ← gets gatewayNonceStore;
        match store with
        | Some replies =>
            modify (λ s, s <| gatewayNonceStore := Some (tail replies) |>);;
            match replies with
            | Some true :: _ => mret tt
            | Some false :: _ => throw (HTTP 409 "duplicate request nonce")
            | _ => throw (HTTP 503 "gateway request nonce store unavailable")
            end
        | None =>
            marked ← gets (λ s, mark_nonce now (TrimSpace gatewayID +:+ ":" +:+ nonce) (gatewayNonces s));
            match marked with
            | Some l => modify (λ s, s <| gatewayNonces := l |>)
            | None =>
                modify (λ s, s <| gatewayNonces ::= filter (λ '(_, exp), After now exp = false) |>);;
                throw (HTTP 409 "duplicate request nonce")
            end
        end
    end.

(** ** The checks of a request *)

Definition findGatewayByTenant (tenantID gatewayID : string) (s : server) : option Gateway :=
  let nextGatewayID := TrimSpace gatewayID in
  if is_empty nextGatewayID then None
  else snd <$> findi (λ g, String.eqb (gwID g) nextGatewayID) (Gateway.List (TrimSpace tenantID) (fleet (gatewaySvc s))).

Section requests.
Context {DG : Digest}.

Definition authorizeGatewayHTTPDeviceRequest (now : Z) (r : Request) (gatewayID : string) : handler unit :=
  authorizeGatewayDeviceToken r gatewayID;; validateGatewayRequestNonce now r gatewayID.

Definition gatewayRecordFromDeviceRequest (now : Z) (r : Request) : handler Gateway :=
  let or_header (q hd : string) := if is_empty (TrimSpace (query r q)) then TrimSpace (header r hd)
                                   else TrimSpace (query r q) in
  let gatewayID := or_header "gateway_id" "X-Gateway-ID" in
  let tenantID := or_header "tenant_id" "X-Tenant-ID" in
  fail_if (is_empty gatewayID || is_empty tenantID) (HTTP 400 "gateway_id and tenant_id are required");;
  found ← gets (findGatewayByTenant tenantID gatewayID);
  match found with
  | None => throw (HTTP 404 "gateway not found")
  | Some g => authorizeGatewayHTTPDeviceRequest now r (gwID g);; mret g
  end.
End requests.

(** ** A nonce is good once *)

(** [nonceKey] is taken up to [exp]. *)
Definition taken (nonceKey : string) (exp : Z) (s : server) : Prop :=
  gatewayNonceStore s = None ∧ gatewayNonces s !! nonceKey = Some exp.
Definition same_nonces (s0 s : server) : Prop :=
  gatewayNonceStore s = gatewayNonceStore s0 ∧ gatewayNonces s = gatewayNonces s0.

Lemma mark_keeps now key k exp l l' :
  l !! k = Some exp → now <= exp → mark_nonce now key l = Some l' → l' !! k = Some exp.
Proof.
  unfold mark_nonce. intros Hl Hn. set (live := filter _ l).
  assert (live !! k = Some exp) as Hk.
  { apply map_lookup_filter_Some. split; [done|]. unfold After. lia. }
  destruct (live !! key) eqn:Hx; [done|]. intros [= <-]. rewrite lookup_insert_ne; [done|]. intros ->. congruence.
Qed.
Lemma mark_taken now k exp l : l !! k = Some exp → now <= exp → mark_nonce now k l = None.
Proof.
  unfold mark_nonce. intros Hl Hn. rewrite (proj2 (map_lookup_filter_Some _ l k exp)); [done|]. split; [done|].
  unfold After. lia.
Qed.
Lemma mark_new now k l l' : mark_nonce now k l = Some l' → l' !! k = Some (now + nonceWindow).
Proof. unfold mark_nonce. destruct (_ !! k); [done|]. intros [= <-]. by rewrite lookup_insert_eq. Qed.

(** The nonce and the timestamp of a request. *)
Definition nonce_of (r : Request) : string := TrimSpace (header r "X-Request-Nonce").
Definition stamp_of (r : Request) : option Z := parse_rfc3339 (TrimSpace (header r "X-Request-Timestamp")).
Definition nonce_key (gatewayID nonce : string) : string := TrimSpace gatewayID +:+ ":" +:+ nonce.

(** What an accepted request with a nonce shows. *)
Lemma validate_ok now r g s s' :
  gatewayNonceStore s = None → is_empty (nonce_of r) = false → validateGatewayRequestNonce now r g s = (s', Ok tt) →
  ∃ ts l, stamp_of r = Some ts ∧ now - ts <= nonceWindow ∧ ts - now <= nonceWindow
  ∧ mark_nonce now (nonce_key g (nonce_of r)) (gatewayNonces s) = Some l ∧ s' = s <| gatewayNonces := l |>.
Proof.
  intros Hs Hne. unfold validateGatewayRequestNonce, stamp_of, nonce_key. fold (nonce_of r). rewrite Hne.
  rewrite andb_false_l, orb_false_l, fail_if_bind.
  destruct (is_empty (TrimSpace (header r "X-Request-Timestamp"))); [done|].
  destruct (parse_rfc3339 _) as [ts|]; [|done]. rewrite fail_if_bind.
  destruct (_ || _) eqn:Hw; [done|]. boolp. rewrite bind_gets, Hs. rewrite bind_gets.
  destruct (mark_nonce _ _ _) as [l|] eqn:Hm; [|done]. intros [= <-]. exists ts, l.
  assert (∀ a b, time_sub a b <= nonceWindow → a - b <= nonceWindow) as Hsub.
  { intros a b. unfold time_sub. assert (nonceWindow < max_int64) by (vm_compute; done). lia. }
  split_and!; auto.
Qed.

(** A request whose nonce is taken, or whose timestamp is out of the window, is refused. *)
Lemma validate_refused now r g s exp ts s' :
  taken (nonce_key g (nonce_of r)) exp s → is_empty (nonce_of r) = false → stamp_of r = Some ts →
  ts + nonceWindow <= exp → validateGatewayRequestNonce now r g s ≠ (s', Ok tt).
Proof.
  intros [Hs Hk] Hne Hts Hexp Hv. destruct (validate_ok _ _ _ _ _ Hs Hne Hv) as (ts' & l & E & H1 & _ & Hm & _).
  assert (ts' = ts) as -> by congruence.
  by rewrite (mark_taken now _ _ _ Hk) in Hm by lia.
Qed.

(** Requests keep a nonce taken up to its expiry. *)
Lemma validate_keeps now r g k exp : now <= exp → preserves (taken k exp) (validateGatewayRequestNonce now r g).
Proof.
  intros Hn s [Hs Hk]. unfold validateGatewayRequestNonce. destruct (_ && _).
  { rewrite exec_gets. unfold exec, fail_if. by destruct (GatewayRequireRequestNonce s). }
  rewrite exec_fail_if. destruct (_ || _); [done|]. destruct (parse_rfc3339 _) as [ts|]; [|done].
  rewrite exec_fail_if. destruct (_ || _); [done|]. rewrite exec_gets, Hs, exec_gets.
  destruct (mark_nonce _ _ _) as [l|] eqn:Hm; [split; [done|by eapply mark_keeps]|].
  rewrite exec_modify. split; [done|]. simpl. apply map_lookup_filter_Some. split; [done|]. unfold After. lia.
Qed.
