(* ===== verification/Verify.v ===== *)
(** * Credential checks in the cloud (internal/http/routes_gateway_verify.go)

    A gateway that has no cached rule asks the cloud: the credential is resolved
    to a user through the wallet (cards and passes), the mobile credentials or a
    guest's token, the user's doors come from groups and role assignments, and the
    decision is recorded as an event; an admission publishes an unlock command.
    This is where the models of the services meet. *)

From S2P Require Import Prelude GoStrings GoTime Bytes AuditLog Encoding Wire Gateway CertRevocation Space Credential Event AccessData AccessState Schedule AccessUsers AccessGroups AccessGrants WalletData WalletState Wallet WalletCards Server GatewayAuth.
#[local] Open Scope string_scope.
#[local] Open Scope list_scope.
#[local] Open Scope Z_scope.

Record verifyCredentialRequest := mkVerifyRequest {
  vqGatewayID : string; vqReaderID : string; vqLockID : string; vqTenantID : string; vqCredentialType : string;
  vqCredentialData : string; vqUserID : string; vqTransportTag : string; vqSignature : string
}.
#[export] Instance eta_verify_request : Eta verifyCredentialRequest := λ x,
  mkVerifyRequest (vqGatewayID x) (vqReaderID x) (vqLockID x) (vqTenantID x) (vqCredentialType x)
    (vqCredentialData x) (vqUserID x) (vqTransportTag x) (vqSignature x).

Record verifyCredentialResponse := mkVerifyResponse {
  vrDecision : string; vrReason : string; vrUserID : string; vrUserName : string; vrUserEmail : string;
  vrGroupName : string; vrLockID : string; vrGatewayID : string; vrCredentialType : string; vrEvaluatedAt : string
}.

(** ** From a credential to a user *)

(** An expiry that is blank or not RFC 3339 does not expire. *)
Definition isPassExpired (expiresAt : string) (now : Z) : bool :=
  let ea := TrimSpace expiresAt in
  if is_empty ea then false else match parse_rfc3339 ea with Some t => After now t | None => false end.
Definition isGroupLinkExpired (validUntil : string) (now : Z) : bool := isPassExpired validUntil now.

(** A pass that admits its holder. *)
Definition usable_pass (now : Z) (p : PassInstance) : bool :=
  String.eqb (psTargetType p) "user" && String.eqb (psStatus p) "active" && negb (isPassExpired (psExpiresAt p) now).

(** The loop over the cards: the first whose pass admits. *)
Definition card_holder (now : Z) (tenantID : string) (fits : PhysicalCardInventoryItem → bool) (s : WalletState.Service) :
    option string :=
  head (omap (λ item,
    if fits item && negb (is_empty (ciAssignedPassID item)) then
      match answer (Wallet.GetPass tenantID (ciAssignedPassID item)) s with
      | Ok p => if usable_pass now p then Some (psTargetID p) else None
      | Err _ => None
      end
    else None) (ListPhysicalCardInventory tenantID "" s)).
Definition pass_holder (now : Z) (tenantID : string) (fits : PassInstance → bool) (s : WalletState.Service) : option string :=
  match findi (λ p, fits p && usable_pass now p) (ListPasses tenantID s) with
  | Some (_, p) => Some (psTargetID p)
  | None => None
  end.

Definition resolveCredentialToUser (now : Z) (tenantID credType credData : string) (s : server) : option string :=
  if String.eqb credType "nfc_uid" then
    match card_holder now tenantID (λ c, EqualFold (ciUID c) credData) (walletSvc s) with
    | Some u => Some u
    | None => pass_holder now tenantID (λ p, EqualFold (psUID p) credData) (walletSvc s)
    end
  else if String.eqb credType "card_number" then
    card_holder now tenantID (λ c, EqualFold (ciCardNumber c) credData) (walletSvc s)
  else if String.eqb credType "ble_token" then
    pass_holder now tenantID (λ p, String.eqb (psToken p) credData) (walletSvc s)
  else if String.eqb credType "qr_code" then
    match findi (λ l, String.eqb (glSecret l) credData || String.eqb (glQuickResponseCodeToken l) credData)
            (ListGroupLinks tenantID (accessSvc s)) with
    | None => None
    | Some (_, l) =>
        if negb (glLinkEnabled l) || isGroupLinkExpired (glValidUntil l) now then None
        else Some ("qr_visitor:" +:+ glGroupID l)
    end
  else None.

Section verify.
Context {CR : Crypto} {DG : Digest}.

(** The signed challenge is the nonce of the request. *)
Definition resolveBLESignatureToUser (now : Z) (r : Request) (tenantID : string) (req : verifyCredentialRequest)
    (s : server) : option string :=
  match credentialSvc s with
  | None => None
  | Some svc =>
      let userID := TrimSpace (vqUserID req) in
      let transportTag := if is_empty (TrimSpace (vqTransportTag req)) then "BLE" else TrimSpace (vqTransportTag req) in
      let nonce := TrimSpace (header r "X-Request-Nonce") in
      let signatureB64 := TrimSpace (vqSignature req) in
      if is_empty userID || is_empty nonce || is_empty signatureB64 then None
      else match base64_decode (of_string signatureB64) with
      | None => None
      | Some signature =>
          match Credential.VerifyBLESignatureV2 tenantID userID (of_string nonce) transportTag signature now svc with
          | Ok _ => Some userID
          | Err _ => None
          end
      end
  end.

(** ** From a user to a door *)

Definition guestCanAccessDoor (tenantID : string) (guest : Guest) (lockID : string) (s : server) : bool :=
  match gstDoorIDs guest with
  | _ :: _ => existsb (λ d, EqualFold (TrimSpace d) lockID) (gstDoorIDs guest)
  | [] =>
      let building := TrimSpace (gstBuildingID guest) in
      if is_empty building then true
      else match answer (GetDoor tenantID lockID) (spaceSvc s) with
           | Ok door => EqualFold (TrimSpace (drBuildingID door)) building
           | Err _ => false
           end
  end.

(** The name of the first door group that is one of the user's groups and has the lock. *)
Definition checkUserLockAccess (tenantID : string) (userGroupIDs : list string) (lockID : string) (s : server) :
    option string :=
  match findi (λ dg, existsb (String.eqb (dgID dg)) userGroupIDs && existsb (λ d, String.eqb d lockID) (Space.DoorIDs dg))
          (ListDoorGroups tenantID (spaceSvc s)) with
  | Some (_, dg) => Some (dgName dg)
  | None => None
  end.

Definition assigned_to (userID : string) (ra : RoleAssignment) : bool :=
  String.eqb (raAssigneeType ra) "User" && String.eqb (raAssigneeID ra) userID.
Definition checkRoleAssignmentAccess (tenantID userID placeID : string) (s : server) : bool :=
  existsb (λ ra, assigned_to userID ra
    && (String.eqb (raAppliesToType ra) "Organization"
        || (String.eqb (raAppliesToType ra) "Place" && String.eqb (raAppliesToID ra) placeID)))
    (ListRoleAssignments tenantID (accessSvc s)).

(** Whether an assignment is looked at, and why it forbids now, if it does. *)
Definition scheduled (userID placeID : string) (ra : RoleAssignment) : bool :=
  assigned_to userID ra && (is_empty placeID || String.eqb (raAppliesToID ra) placeID)
  && (negb (is_empty (raValidFrom ra)) || negb (is_empty (raValidUntil ra))
      || Nat.ltb 0 (length (raTimeWindows ra)) || Nat.ltb 0 (length (raExceptionDates ra))).
Definition assignment_holidays (tenantID : string) (ra : RoleAssignment) (s : server) : list HolidayEntry :=
  if is_empty (raHolidayCalendarID ra) then []
  else match answer (GetHolidayCalendar tenantID (raHolidayCalendarID ra)) (accessSvc s) with
       | Ok cal => Entries cal
       | Err _ => []
       end.
Definition evaluateAccessSchedule (tenantID userID placeID : string) (now : Z) (s : server) : string :=
  let verdict (ra : RoleAssignment) :=
    EvaluateSchedule (mkClock now 0) (raValidFrom ra) (raValidUntil ra) (raTimeWindows ra) (raExceptionDates ra)
      (assignment_holidays tenantID ra s) in
  match findi (λ ra, scheduled userID placeID ra && negb (verdict ra).1) (ListRoleAssignments tenantID (accessSvc s)) with
  | Some (_, ra) => (verdict ra).2
  | None => ""
  end.

(** ** Taps that cannot be *)

(** The sightings after a tap at [now], and the reason against it, if there is one. *)
Definition sight (now : Z) (key lockID : string) (seen : gmap string credentialSighting) :
    gmap string credentialSighting * string :=
  let fresh_sighting :=
    let seen := <[key := mkSighting lockID now 1]> seen in
    (if Nat.ltb 500 (size seen)
     then filter (λ '(_, v), Before (csSeenAt v) (now - 2 * minute) = false) seen else seen, "") in
  match seen !! key with
  | None => fresh_sighting
  | Some prev =>
      let elapsed := time_sub now (csSeenAt prev) in
      let same := String.eqb (csLockID prev) lockID in
      if negb same && (elapsed <? 30 * second) then (seen, "anomaly_impossible_travel")
      else if same && (elapsed <? 60 * second) then
        let prev := prev <| csCount ::= Z.add 1 |> in
        if 5 <? csCount prev
        then (<[key := prev]> seen, "anomaly_rate_limit")
        else (<[key := prev <| csSeenAt := now |>]> seen, "")
      else fresh_sighting
  end.
Definition checkCredentialAnomaly (now : Z) (tenantID credData lockID : string) : handler string := λ s,
  let '(seen, reason) := sight now (tenantID +:+ ":" +:+ credData) lockID (credLastSeen s) in
  (s <| credLastSeen := seen |>, Ok reason).

(** ** What a decision leaves behind *)

Definition recordVerifyEvent (env : Env) (tenantID gatewayID lockID : string) (resp : verifyCredentialResponse) :
    handler string := λ s,
  if is_empty tenantID then (s, Ok "")
  else
    let eventType := if String.eqb (vrDecision resp) "allow" then "access_granted" else "access_denied" in
    let gwID := if is_empty gatewayID then "api_verify" else gatewayID in
    let '(ev, r) := IngestAccessEvent
      (mkAccessEvent "" "" tenantID "" "" eventType (vrUserEmail resp) lockID gwID (vrReason resp) (now env)) env
      (eventSvc s) in
    (s <| eventSvc := ev |>, Ok (match r with Ok (e, _) => aeID e | Err _ => "" end)).

(** The camera is asked in the background; a failed publication is logged. *)
Definition onAccessGranted (now : Z) (tenantID gatewayID lockID eventID subjectID issuedBy : string) : handler unit :=
  modify (λ s, if negb (is_empty eventID) && negb (is_empty lockID)
               then s <| Server.snapshots ::= cons (tenantID, lockID, eventID) |> else s);;
  modify (λ s,
    if negb (is_empty gatewayID) && busEnabled s then
      s <| published ::= cons ("gateway." +:+ gatewayID +:+ ".command",
             mkCommand ("verify:" +:+ lockID +:+ ":" +:+ subjectID +:+ ":" +:+ Itoa now) gatewayID "unlock" lockID
               tenantID issuedBy (format_rfc3339 now)) |>
    else s).

(** ** The decision *)

Definition evaluateVerifyCredential (env : Env) (r : Request) (req : verifyCredentialRequest) :
    handler verifyCredentialResponse :=
  let credType := TrimSpace (vqCredentialType req) in
  let credData := TrimSpace (vqCredentialData req) in
  let lockID := TrimSpace (vqLockID req) in
  let tenantID := TrimSpace (vqTenantID req) in
  let gatewayID := TrimSpace (vqGatewayID req) in
  let now := now env in
  let answered (decision reason userID name email group : string) :=
    mkVerifyResponse decision reason userID name email group lockID gatewayID credType (format_rfc3339 now) in
  let recorded (resp : verifyCredentialResponse) :=
    recordVerifyEvent env tenantID gatewayID lockID resp;; mret resp in
  if is_empty credData && negb (String.eqb credType "ble_signature")
  then mret (answered "deny" "empty_credential" "" "" "" "")
  else if is_empty lockID then
    mret (mkVerifyResponse "deny" "missing_lock_id" "" "" "" "" "" "" credType (format_rfc3339 now))
  else
    guest ← gets (λ s, if String.eqb credType "qr_code"
                       then GetGuestByAccessToken now tenantID credData (accessSvc s) else None);
    match guest with
    | Some guest =>
        admitted ← gets (guestCanAccessDoor tenantID guest lockID);
        let resp := answered (if admitted : bool then "allow" else "deny")
                      (if admitted then "access_granted" else "door_not_in_guest_access")
                      ("guest:" +:+ gstID guest) (gstName guest) "" "" in
        eventID ← recordVerifyEvent env tenantID gatewayID lockID resp;
        (if admitted then onAccessGranted now tenantID gatewayID lockID eventID (gstID guest) (gstName guest)
         else mret tt);;
        mret resp
    | None =>
        holder ← gets (λ s, if String.eqb credType "ble_signature"
                            then resolveBLESignatureToUser now r tenantID req s
                            else resolveCredentialToUser now tenantID credType credData s);
        match holder with
        | None => recorded (answered "deny" "credential_not_found" "" "" "" "")
        | Some userID =>
            user ← ask accessSvc (GetUser tenantID userID);
            match user with
            | None => recorded (answered "deny" "user_not_found" userID "" "" "")
            | Some user =>
                if negb (String.eqb (usrStatus user) "active")
                then recorded (answered "deny" "user_suspended" userID "" "" "")
                else
                  let about (decision reason group : string) :=
                    answered decision reason (usrID user) (usrName user) (usrEmail user) group in
                  anomaly ← (if String.eqb credType "nfc_uid"
                             then checkCredentialAnomaly now tenantID credData lockID else mret "");
                  if negb (is_empty anomaly) then recorded (about "deny" anomaly "")
                  else
                    group ← gets (checkUserLockAccess tenantID (usrGroupIDs user) lockID);
                    door ← ask spaceSvc (GetDoor tenantID lockID);
                    let place := match door with Some d => drBuildingID d | None => "" end in
                    by_role ← gets (λ s, bool_decide (is_Some door) && checkRoleAssignmentAccess tenantID userID place s);
                    let '(allowed, groupName, accessPlaceID) :=
                      match group with
                      | Some name => (true, name, "")
                      | None => (by_role, if by_role : bool then "role_assignment" else "", place)
                      end in
                    if negb allowed then recorded (about "deny" "no_access" "")
                    else
                      reason ← gets (λ s, if String.eqb groupName "role_assignment"
                                          then evaluateAccessSchedule tenantID userID accessPlaceID now s else "");
                      if negb (is_empty reason) then recorded (about "deny" reason groupName)
                      else
                        let resp := about "allow" "access_granted" groupName in
                        eventID ← recordVerifyEvent env tenantID gatewayID lockID resp;
                        onAccessGranted now tenantID gatewayID lockID eventID userID (usrEmail user);;
                        mret resp
            end
        end
    end.

Definition verifyCredential := evaluateVerifyCredential.

(** The gateway's identity gives tenant and gateway; a nonce is required. *)
Definition verifyCredentialGateway (env : Env) (r : Request) (req : verifyCredentialRequest) :
    handler verifyCredentialResponse :=
  let gatewayID := TrimSpace (vqGatewayID req) in
  let tenantID := TrimSpace (vqTenantID req) in
  fail_if (is_empty gatewayID || is_empty tenantID) (HTTP 401 "gateway authentication required");;
  found ← gets (findGatewayByTenant tenantID gatewayID);
  match found with
  | None => throw (HTTP 401 "gateway authentication required")
  | Some g =>
      authorizeGatewayHTTPDeviceRequest (now env) r (Gateway.gwID g);;
      fail_if (is_empty (TrimSpace (header r "X-Request-Nonce"))) (HTTP 401 "request nonce required");;
      evaluateVerifyCredential env r (req <| vqGatewayID := Gateway.gwID g |> <| vqTenantID := gwTenantID g |>)
  end.
End verify.

(** ** An example

    One door "d1" of building "b1" at the gateway "gw1", and Ana, who has a card
    with the UID "04AB" and a role of the whole organization that ended in 2020. *)

#[export] Instance plain_digest : Digest := {| sha256 := λ b, b |}.
Definition demo_pass : PassInstance :=
  mkPassInstance "P-1" "t" "physical" "nfc_card" "" "user" "usr_1" "" "" "04AB" "" "" "active" "" "" 0 None None "" "" 0 0.
Definition demo_role : RoleAssignment :=
  mkRoleAssignment "ra_1" "t" "org_admin" "Organization" "t" "User" "usr_1" "" "" "2020-01-01T00:00:00Z" [] [] "" "" "" 0 0.
Definition demo_server : server :=
  mkServer [] true
    (mkCertService
       (Gateway.mkService [mkGateway "gw1" "t" "MP-GW-0001" "b1" 4 [] "online" 0 ["d1"]] [] [] [] [] [] None) [] None)
    (AccessState.mkService [mkAccessUser "usr_1" "t" "b1" "Ana" "ana@x.io" "employee" "active" [] "" "" 0] [] [] [] [] []
       [] [] [] [] [] [] [] [demo_role] [] [] [] [] [] [] [] [] ∅ None [])
    (WalletState.mkService None [] [demo_pass] [] [] [] [] [] [] [] [] [] [] 0 "" "" ∅ None "" ∅ None "" "" "" None None
       None [] (mkNetwork [] [] [] [] [] [] []))
    (Space.mkService (Space.mkTables [] [] [] [mkDoor "d1" "t" "b1" "" "" "Front" "gw1" "office" "online" 0;
       mkDoor "d2" "t" "b1" "" "" "Back" "gw1" "office" "online" 0] []) None)
    None (Event.mkService [] [] None ∅ 0%N) None {["gw1" := "secret"]} None ∅ ∅ true [] []
    (AuditLog.mkService [] "" None) [].
Definition demo_time : Z := 1775912400 * second.
Definition demo_env (t : Z) : Env := mkEnv (demo_time + t) (Some "0a") NoStore.
(** A request of the gateway with this nonce and timestamp. *)
Definition demo_request (nonce stamp : string) : Request :=
  mkRequest (λ h, if String.eqb h "X-Device-Token" then "secret" else if String.eqb h "X-Request-Nonce" then nonce
                  else if String.eqb h "X-Request-Timestamp" then stamp else "") (λ _, "") None false.
Definition demo_tap (door : string) : verifyCredentialRequest :=
  mkVerifyRequest "gw1" "" door "t" "nfc_uid" "04ab" "" "" "".
