(* ===== verification/Admission.v ===== *)
(** * Who a verified credential admits

    What an "allow" of [Verify] stands for, said without its loops and in terms of
    the tables of the services: a guest of the visit, or an active user whose
    credential, pass, card or key is good now and who may open this door. *)

From S2P Require Import Prelude GoStrings GoTime Bytes Encoding Wire Gateway CertRevocation Space Credential Event AccessData AccessState Schedule AccessUsers AccessGroups AccessGrants WalletData WalletState Wallet WalletCards Server GatewayAuth Verify.
#[local] Open Scope string_scope.
#[local] Open Scope list_scope.
#[local] Open Scope Z_scope.

(** ** Who is admitted *)

Section admission.
Context {CR : Crypto} (env : Env) (r : Request) (req : verifyCredentialRequest) (s : server).
Let tenant := TrimSpace (vqTenantID req).
Let type := TrimSpace (vqCredentialType req).
Let data := TrimSpace (vqCredentialData req).
Let lock := TrimSpace (vqLockID req).
Let gateway := TrimSpace (vqGatewayID req).

(** The user a credential stands for. *)
Inductive holder (u : string) : Prop :=
| holds_card c p :
    type = "nfc_uid" ∧ EqualFold (ciUID c) data = true ∨ type = "card_number" ∧ EqualFold (ciCardNumber c) data = true →
    c ∈ ListPhysicalCardInventory tenant "" (walletSvc s) →
    answer (Wallet.GetPass tenant (ciAssignedPassID c)) (walletSvc s) = Ok p →
    usable_pass (now env) p = true → psTargetID p = u → holder u
| holds_pass p :
    type = "nfc_uid" ∧ EqualFold (psUID p) data = true ∨ type = "ble_token" ∧ psToken p = data →
    p ∈ ListPasses tenant (walletSvc s) → usable_pass (now env) p = true → psTargetID p = u → holder u
| holds_key svc (c : MobileCredential) k sig :
    type = "ble_signature" → credentialSvc s = Some svc → c ∈ Credential.credentials svc →
    Credential.TenantID c = tenant → CredUserID c = u → Credential.Status c = "active" → now env < CredExpiresAt c →
    ParseECPublicKey (PublicKeyPEM c) = Some k → base64_decode (of_string (TrimSpace (vqSignature req))) = Some sig →
    verify_hash k (Sum256 (message2 (of_string (TrimSpace (header r "X-Request-Nonce"))) u
      (if is_empty (TrimSpace (vqTransportTag req)) then "BLE" else TrimSpace (vqTransportTag req)))) sig = true →
    holder u
| holds_link l :
    type = "qr_code" → l ∈ ListGroupLinks tenant (accessSvc s) → glSecret l = data ∨ glQuickResponseCodeToken l = data →
    glLinkEnabled l = true → isGroupLinkExpired (glValidUntil l) (now env) = false →
    u = "qr_visitor:" +:+ glGroupID l → holder u.

(** The doors of a user. *)
Inductive opens (u : string) (user : AccessUser) : Prop :=
| by_group dg :
    dg ∈ ListDoorGroups tenant (spaceSvc s) → dgID dg ∈ usrGroupIDs user → lock ∈ Space.DoorIDs dg → opens u user
| by_assignment door ra :
    answer (GetDoor tenant lock) (spaceSvc s) = Ok door → ra ∈ ListRoleAssignments tenant (accessSvc s) →
    raAssigneeType ra = "User" → raAssigneeID ra = u →
    raAppliesToType ra = "Organization" ∨ raAppliesToType ra = "Place" ∧ raAppliesToID ra = drBuildingID door →
    (∀ ra', ra' ∈ ListRoleAssignments tenant (accessSvc s) → scheduled u (drBuildingID door) ra' = true →
       (EvaluateSchedule (mkClock (now env) 0) (raValidFrom ra') (raValidUntil ra') (raTimeWindows ra')
          (raExceptionDates ra') (assignment_holidays tenant ra' s)).1 = true) →
    opens u user.

(** A guest with the token, on a day and at a door of the visit. *)
Definition welcome (g : Guest) : Prop :=
  type = "qr_code" ∧ g ∈ guests (accessSvc s) ∧ gstAccessToken g = TrimSpace data ∧ visible tenant g = true
  ∧ gstStatus g ≠ "cancelled" ∧ gstStatus g ≠ "checked_out"
  ∧ (∀ exp, parse_rfc3339 (gstAccessTokenExpiresAt g) = Some exp → gstAccessTokenExpiresAt g ≠ "" → now env <= exp)
  ∧ (gstDoorIDs g ≠ [] → ∃ d, d ∈ gstDoorIDs g ∧ EqualFold (TrimSpace d) lock = true)
  ∧ (gstDoorIDs g = [] → TrimSpace (gstBuildingID g) ≠ "" →
       ∃ door, answer (GetDoor tenant lock) (spaceSvc s) = Ok door
               ∧ EqualFold (TrimSpace (drBuildingID door)) (TrimSpace (gstBuildingID g)) = true).

Definition admitted : Prop :=
  (∃ g, welcome g)
  ∨ ∃ u user, holder u ∧ answer (GetUser tenant u) (accessSvc s) = Ok user ∧ usrStatus user = "active" ∧ opens u user.

(** The one command an admission may publish. *)
Definition unlocks (c : string * GatewayCommand) : Prop :=
  c.1 = "gateway." +:+ gateway +:+ ".command" ∧ cmdGatewayID c.2 = gateway ∧ cmdCommand c.2 = "unlock"
  ∧ cmdLockID c.2 = lock ∧ cmdTenantID c.2 = tenant ∧ cmdIssuedAt c.2 = format_rfc3339 (now env).

(** The answer and what has been published. *)
Definition decided (resp : verifyCredentialResponse) (s' : server) : Prop :=
  vrDecision resp = "allow" ∧ vrLockID resp = lock ∧ vrGatewayID resp = gateway ∧ admitted
  ∧ (if negb (is_empty gateway) && busEnabled s then ∃ c, unlocks c ∧ published s' = c :: published s
     else published s' = published s)
  ∨ vrDecision resp = "deny" ∧ published s' = published s.

(** The sightings of a request that is allowed or not. *)
Definition sighted (allow : bool) (seen : gmap string credentialSighting) : Prop :=
  if String.eqb type "nfc_uid"
  then allow = false ∧ seen = credLastSeen s
       ∨ ∃ reason, sight (now env) (tenant +:+ ":" +:+ data) lock (credLastSeen s) = (seen, reason)
                   ∧ (allow = true → reason = "")
  else seen = credLastSeen s.

(** All that a request does to the server, but for its event. *)
Definition outcome (x : server * result http_err verifyCredentialResponse) : Prop :=
  ∃ resp, x.2 = Ok resp ∧ decided resp x.1 ∧ same_nonces s x.1
  ∧ sighted (String.eqb (vrDecision resp) "allow") (credLastSeen x.1).
End admission.

Section lemmas.
Context {CR : Crypto}.

Lemma guest_welcome env req s g :
  TrimSpace (vqCredentialType req) = "qr_code" →
  GetGuestByAccessToken (now env) (TrimSpace (vqTenantID req)) (TrimSpace (vqCredentialData req)) (accessSvc s) = Some g →
  guestCanAccessDoor (TrimSpace (vqTenantID req)) g (TrimSpace (vqLockID req)) s = true → welcome env req s g.
Proof.
  intros Ht Hg Ha. revert Hg. unfold GetGuestByAccessToken. destruct (is_empty _); [done|].
  destruct (findi _ _) as [[i x]|] eqn:Hf; [|done]. pose proof (findi_elem _ _ _ _ Hf) as Hin.
  apply findi_true in Hf. boolp. destruct (AccessGrants.one_of ["cancelled"; "checked_out"] (gstStatus x)) eqn:Ho; [done|].
  destruct (negb _ && _) eqn:He; [done|]. intros [= ->]. unfold welcome.
  split_and!; try done.
  1,2: intros E; by rewrite E in Ho.
  - intros exp Hp Hne. rewrite Hp in He. unfold After in He. apply andb_false_iff in He as [He|He]; boolp; [|lia].
    by apply is_empty_true in He.
  - intros Hne. revert Ha. unfold guestCanAccessDoor. destruct (gstDoorIDs g) as [|d l]; [done|].
    intros (d' & ? & ?)%existsb_exists. exists d'. split; [by apply list_elem_of_In|done].
  - intros Hn Hb. revert Ha. unfold guestCanAccessDoor. rewrite Hn. destruct (is_empty (TrimSpace (gstBuildingID g))) eqn:E;
      [by apply is_empty_true in E|].
    destruct (answer _ _) as [door|]; [|done]. eauto.
Qed.

Lemma card_holder_spec now tenant fits w u :
  card_holder now tenant fits w = Some u →
  ∃ c p, fits c = true ∧ c ∈ ListPhysicalCardInventory tenant "" w ∧ answer (Wallet.GetPass tenant (ciAssignedPassID c)) w = Ok p
         ∧ usable_pass now p = true ∧ psTargetID p = u.
Proof.
  unfold card_holder. intros H%head_Some_elem_of%list_elem_of_omap. destruct H as (c & Hc & H).
  destruct (_ && _) eqn:Hf; [|done]. boolp. destruct (answer _ _) as [p|] eqn:Hp; [|done].
  destruct (usable_pass now p) eqn:Hu; [|done]. injection H as <-. by exists c, p.
Qed.
Lemma pass_holder_spec now tenant fits w u :
  pass_holder now tenant fits w = Some u →
  ∃ p, fits p = true ∧ p ∈ ListPasses tenant w ∧ usable_pass now p = true ∧ psTargetID p = u.
Proof.
  unfold pass_holder. destruct (findi _ _) as [[i p]|] eqn:Hf; [|done]. intros [= <-].
  pose proof (findi_true _ _ _ _ Hf) as Hp. simpl in Hp. boolp. exists p. split_and!; try done. by eapply findi_elem.
Qed.

Lemma resolved_holds env r req s u :
  resolveCredentialToUser (now env) (TrimSpace (vqTenantID req)) (TrimSpace (vqCredentialType req))
    (TrimSpace (vqCredentialData req)) s = Some u → holder env r req s u.
Proof.
  unfold resolveCredentialToUser. destruct (String.eqb _ "nfc_uid") eqn:Ht; boolp.
  { destruct (card_holder _ _ _ _) as [x|] eqn:Hc.
    - intros [= ->]. apply card_holder_spec in Hc as (c & p & ? & ? & ? & ? & ?). eapply holds_card; eauto.
    - intros (p & ? & ? & ? & ?)%pass_holder_spec. eapply holds_pass; eauto. }
  destruct (String.eqb _ "card_number") eqn:Hn; boolp.
  { intros (c & p & ? & ? & ? & ? & ?)%card_holder_spec. eapply holds_card; eauto. }
  destruct (String.eqb _ "ble_token") eqn:Hb; boolp.
  { intros (p & Hp & ? & ? & ?)%pass_holder_spec. boolp. eapply holds_pass; eauto. }
  destruct (String.eqb _ "qr_code") eqn:Hq; [|done]. boolp.
  destruct (findi _ _) as [[i l]|] eqn:Hf; [|done]. destruct (_ || _) eqn:Hl; [done|]. boolp. intros [= <-].
  pose proof (findi_true _ _ _ _ Hf) as Hm. simpl in Hm. apply orb_true_iff in Hm.
  eapply (holds_link _ _ _ _ _ l); try done; [by eapply findi_elem|destruct Hm; boolp; auto].
Qed.

Lemma signed_holds env r req s u :
  TrimSpace (vqCredentialType req) = "ble_signature" →
  resolveBLESignatureToUser (now env) r (TrimSpace (vqTenantID req)) req s = Some u → holder env r req s u.
Proof.
  intros Ht. unfold resolveBLESignatureToUser. destruct (credentialSvc s) as [svc|] eqn:Hs; [|done].
  destruct (_ || _); [done|]. destruct (base64_decode _) as [sig|] eqn:Hd; [|done].
  unfold Credential.VerifyBLESignatureV2. destruct (active_credential _ _ _ _) as [[i x]|] eqn:Ha; [|done].
  destruct (ParseECPublicKey (PublicKeyPEM x)) as [k|] eqn:Hk; [|done].
  destruct (verify_hash _ _ _) eqn:Hv; [|done]. intros [= <-].
  destruct (active_credential_usable _ _ _ _ _ _ Ha) as (? & ? & ? & ? & ?). eapply holds_key; eauto.
Qed.

Lemma group_opens req s u user name :
  checkUserLockAccess (TrimSpace (vqTenantID req)) (usrGroupIDs user) (TrimSpace (vqLockID req)) s = Some name →
  ∀ env, opens env req s u user.
Proof.
  unfold checkUserLockAccess. destruct (findi _ _) as [[i dg]|] eqn:Hf; [|done]. intros _ env.
  pose proof (findi_true _ _ _ _ Hf) as Hm. simpl in Hm. boolp.
  repeat match goal with H : existsb _ _ = true |- _ =>
    apply existsb_exists in H as (? & ?%list_elem_of_In & ?%String.eqb_eq) end.
  subst. eapply by_group; [by eapply findi_elem| |]; by simplify_eq.
Qed.

(** A window that is shut says why. *)
Lemma inactive_reason c from until w ex hol :
  (EvaluateSchedule c from until w ex hol).1 = false → (EvaluateSchedule c from until w ex hol).2 ≠ "".
Proof. unfold EvaluateSchedule. repeat (case_match; simpl; [try done..|try done]); done. Qed.

Lemma assignment_opens env req s u user door :
  answer (GetDoor (TrimSpace (vqTenantID req)) (TrimSpace (vqLockID req))) (spaceSvc s) = Ok door →
  checkRoleAssignmentAccess (TrimSpace (vqTenantID req)) u (drBuildingID door) s = true →
  evaluateAccessSchedule (TrimSpace (vqTenantID req)) u (drBuildingID door) (now env) s = "" →
  opens env req s u user.
Proof.
  intros Hd Hr Hs. apply existsb_exists in Hr as (ra & Hin%list_elem_of_In & Hra). unfold assigned_to in Hra. boolp.
  eapply (by_assignment _ _ _ _ _ door ra); try done.
  - match goal with H : _ || _ = true |- _ => apply orb_true_iff in H as [?|?]; boolp; auto end.
  - intros ra' Hin' Hsch. revert Hs. unfold evaluateAccessSchedule.
    destruct (findi _ _) as [[i x]|] eqn:Hf.
    + apply findi_true in Hf. boolp. intros Hx. exfalso.
      match goal with H : (EvaluateSchedule _ _ _ _ _ _).1 = false |- _ => by apply inactive_reason in H end.
    + intros _. rewrite findi_None in Hf. specialize (Hf ra' Hin'). simpl in Hf. rewrite Hsch in Hf.
      by destruct (EvaluateSchedule _ _ _ _ _ _).1.
Qed.

(** ** The steps of the handler *)

Lemma recorded_eq env tenant gw lock resp s :
  ∃ ev id, recordVerifyEvent env tenant gw lock resp s = (s <| eventSvc := ev |>, Ok id).
Proof.
  unfold recordVerifyEvent. destruct (is_empty tenant); [exists (eventSvc s), ""; by destruct s|].
  destruct (IngestAccessEvent _ _ _) as [ev x]. eauto.
Qed.
(** A denial is recorded; nothing is published. *)
Lemma denied env r req s s1 seen tenant gw lock resp (k : string → handler verifyCredentialResponse) :
  s1 = s <| credLastSeen := seen |> → sighted env req s false seen → vrDecision resp = "deny" → (∀ id s2, k id s2 = (s2, Ok resp)) →
  outcome env r req s ((recordVerifyEvent env tenant gw lock resp ≫= k) s1).
Proof.
  intros -> Hp Hd Hk. rewrite bind_op_eq.
  destruct (recorded_eq env tenant gw lock resp (s <| credLastSeen := seen |>)) as (ev & id & ->). rewrite Hk.
  exists resp. split_and!; try done; [by right|]. by rewrite Hd.
Qed.
Lemma denied_early env r req s resp : vrDecision resp = "deny" → outcome env r req s (s, Ok resp).
Proof.
  intros Hd. exists resp. split_and!; try done; [by right|]. rewrite Hd. unfold sighted. case_match; [by left|done].
Qed.

(** An admission is recorded and may unlock the door. *)
Lemma allowed env r req s s1 seen resp subject actor :
  s1 = s <| credLastSeen := seen |> → sighted env req s true seen → vrDecision resp = "allow" →
  vrLockID resp = TrimSpace (vqLockID req) → vrGatewayID resp = TrimSpace (vqGatewayID req) → admitted env r req s →
  outcome env r req s
    ((eventID ← recordVerifyEvent env (TrimSpace (vqTenantID req)) (TrimSpace (vqGatewayID req)) (TrimSpace (vqLockID req)) resp;
      onAccessGranted (now env) (TrimSpace (vqTenantID req)) (TrimSpace (vqGatewayID req)) (TrimSpace (vqLockID req))
        eventID subject actor;; mret resp) s1).
Proof.
  intros -> Hp Hd Hl Hg Ha. rewrite bind_op_eq.
  destruct (recorded_eq env (TrimSpace (vqTenantID req)) (TrimSpace (vqGatewayID req)) (TrimSpace (vqLockID req)) resp
    (s <| credLastSeen := seen |>)) as (ev & id & ->).
  rewrite bind_op_eq. unfold onAccessGranted. rewrite bind_modify. exists resp. rewrite Hd.
  cbn. destruct (negb (is_empty id) && _); cbn; (destruct (negb (is_empty _) && busEnabled s) eqn:Hb; cbn);
    (split_and!; try done); left; rewrite Hb; (split_and!; try done);
    eexists; (split; [|done]); by split_and!.
Qed.

(** The step before the doors. *)
Lemma tapped env req s :
  ∃ seen reason,
    (if String.eqb (TrimSpace (vqCredentialType req)) "nfc_uid"
     then checkCredentialAnomaly (now env) (TrimSpace (vqTenantID req)) (TrimSpace (vqCredentialData req))
            (TrimSpace (vqLockID req)) else mret "") s = (s <| credLastSeen := seen |>, Ok reason)
    ∧ sighted env req s false seen ∧ (reason = "" → sighted env req s true seen).
Proof.
  unfold sighted, checkCredentialAnomaly. destruct (String.eqb _ "nfc_uid");
    [|exists (credLastSeen s), ""; by destruct s].
  destruct (sight _ _ _ _) as [seen reason]. exists seen, reason. split_and!; [done|right; by exists reason|eauto].
Qed.

(** The walk through the handler. *)
Lemma evaluate_outcome env r req s : outcome env r req s (evaluateVerifyCredential env r req s).
Proof.
  assert (s = s <| credLastSeen := credLastSeen s |>) as Hsame by by destruct s.
  unfold evaluateVerifyCredential. cbv zeta. destruct (_ && _); [by apply denied_early|].
  destruct (is_empty (TrimSpace (vqLockID req))); [by apply denied_early|].
  assert (sighted env req s false (credLastSeen s)) as Hlook by (unfold sighted; case_match; [by left|done]).
  rewrite bind_gets. destruct (if String.eqb _ "qr_code" then _ else _) as [g|] eqn:Hg.
  { destruct (String.eqb _ _) eqn:Ht; [|done]. boolp. rewrite bind_gets. destruct (guestCanAccessDoor _ _ _ _) eqn:Ha.
    - apply (allowed _ _ _ _ _ _ _ _ _ Hsame); try done; [unfold sighted; by rewrite Ht|]. left. exists g. by apply guest_welcome.
    - by apply (denied _ _ _ _ _ _ _ _ _ _ _ Hsame). }
  rewrite bind_gets. destruct (if String.eqb _ "ble_signature" then _ else _) as [u|] eqn:Hu;
    [|by apply (denied _ _ _ _ _ _ _ _ _ _ _ Hsame)].
  assert (holder env r req s u) as Hholder.
  { destruct (String.eqb _ "ble_signature") eqn:Ht; boolp; [by apply signed_holds|by apply resolved_holds]. }
  unfold ask. rewrite bind_gets. destruct (answer (GetUser _ _) _) as [user|] eqn:Huser;
    [|by apply (denied _ _ _ _ _ _ _ _ _ _ _ Hsame)].
  destruct (negb (String.eqb (usrStatus user) "active")) eqn:Hactive; [by apply (denied _ _ _ _ _ _ _ _ _ _ _ Hsame)|]. boolp.
  rewrite bind_op_eq.
  destruct (tapped env req s) as (seen & reason & -> & Hd & Ha).
  destruct (negb (is_empty reason)) eqn:Hr; [by eapply denied|]. apply negb_false_iff, is_empty_true in Hr.
  rewrite !bind_gets. destruct (checkUserLockAccess _ _ _ _) as [name|] eqn:Hgroup; cbn [negb].
  - rewrite bind_gets. destruct (negb _); [by eapply denied|]. eapply allowed; eauto. right. exists u, user.
    split_and!; try done. by eapply group_opens.
  - destruct (answer (GetDoor _ _) _) as [door|] eqn:Hdoor; [|by eapply denied].
    destruct (bool_decide _ && _) eqn:Hrole; [|by eapply denied]. boolp. cbn [negb].
    rewrite bind_gets. destruct (negb _) eqn:Hs; [by eapply denied|]. apply negb_false_iff, is_empty_true in Hs.
    eapply allowed; eauto. right. exists u, user. split_and!; try done. by eapply assignment_opens.
Qed.
End lemmas.

(** ** Properties *)

(** C2: A verified credential opens a door for its holder only.  The endpoint always
    answers.  It allows only a guest of the visit (the token of a visit that is
    neither cancelled nor over nor expired, at a door or in the building of the
    visit), or an active user of the tenant who holds the credential (a card or a
    pass that is active and unexpired, or a registered key that signed the nonce
    of this request) and who may open the door (a door group that is one of the
    user's groups, or a role at the organization or at the place of the door, none
    of whose timed assignments there is shut).  On the bus it publishes the unlock
    command of that door to that gateway, and when it denies, nothing. *)
Theorem allow_sound {CR : Crypto} env r req s :
  ∃ resp, answer (evaluateVerifyCredential env r req) s = Ok resp
          ∧ decided env r req s resp (exec (evaluateVerifyCredential env r req) s).
Proof. destruct (evaluate_outcome env r req s) as (resp & ? & ? & _). by exists resp. Qed.

(** A role of the whole organization never ends.  Such a role is given for a
    period, as every other one, and it opens every door; but only the assignments
    that name the place of the door are looked at for their period, so that the
    one of the organization admits before it starts and after it has ended. *)
Theorem organization_role_never_ends tenant u place s :
  place ≠ "" →
  (∃ ra, ra ∈ ListRoleAssignments tenant (accessSvc s) ∧ assigned_to u ra = true ∧ raAppliesToType ra = "Organization") →
  (∀ ra, ra ∈ ListRoleAssignments tenant (accessSvc s) → assigned_to u ra = true → raAppliesToID ra ≠ place) →
  checkRoleAssignmentAccess tenant u place s = true ∧ ∀ t, evaluateAccessSchedule tenant u place t s = "".
Proof.
  intros Hp (ra & Hin & Hu & Ho) Hother. split.
  - apply existsb_exists. exists ra. rewrite Hu, Ho. split; [by apply list_elem_of_In|done].
  - intros t. unfold evaluateAccessSchedule. destruct (findi _ _) as [[i x]|] eqn:Hf; [|done].
    pose proof (findi_elem _ _ _ _ Hf) as Hx. apply findi_true in Hf. unfold scheduled in Hf. boolp.
    exfalso. destruct (is_empty place) eqn:E; [by apply is_empty_true in E|]. simpl in *. boolp.
    by eapply Hother.
Qed.

(** Ana's role ended in 2020; her card opens the door in 2026. *)
Lemma organization_role_never_ends_witness :
  (checkRoleAssignmentAccess "t" "usr_1" "b1" demo_server = true
   ∧ ∀ t, evaluateAccessSchedule "t" "usr_1" "b1" t demo_server = "")
  ∧ match answer (@evaluateVerifyCredential toy_crypto (demo_env 0) (demo_request "" "") (demo_tap "d1")) demo_server with
    | Ok resp => vrDecision resp = "allow"
    | Err _ => False
    end.
Proof.
  split; [|vm_compute; reflexivity]. apply organization_role_never_ends; [discriminate| |].
  - exists demo_role. split_and!; [vm_compute; left|vm_compute; reflexivity|reflexivity].
  - intros ra H _. vm_compute in H. assert (ra = demo_role) as -> by set_solver. discriminate.
Defined.
