(* ===== verification/GatewayRuns.v ===== *)
(** * Requests one after the other

    What the endpoints of [Verify] and [GatewayAuth] promise over a run of
    requests, with anything else the server does in between. *)

From S2P Require Import Prelude GoStrings GoTime Bytes Encoding Wire Gateway CertRevocation Space Credential Event AccessData AccessState WalletData WalletState Wallet Server GatewayAuth Verify Admission.
#[local] Open Scope string_scope.
#[local] Open Scope list_scope.
#[local] Open Scope Z_scope.

Section runs.
Context {CR : Crypto} {DG : Digest}.

(** A request to one of the two verify endpoints or to another gateway endpoint, or
    whatever the rest of the server does, which has no access to the sightings, and to
    the nonces only through gateway requests. *)
Inductive call :=
| CVerify (r : Request) (req : verifyCredentialRequest)
| CVerifyGateway (r : Request) (req : verifyCredentialRequest)
| CDevice (r : Request)
| CElsewhere (f : server → server).

Definition answered {A} (x : server * result http_err A) (f : A → option verifyCredentialResponse) :
    server * option verifyCredentialResponse :=
  (x.1, match x.2 with Ok a => f a | Err _ => None end).
Definition run_call (env : Env) (c : call) (s : server) : server * option verifyCredentialResponse :=
  match c with
  | CVerify r req => answered (verifyCredential env r req s) Some
  | CVerifyGateway r req => answered (verifyCredentialGateway env r req s) Some
  | CDevice r => answered (gatewayRecordFromDeviceRequest (now env) r s) (λ _, None)
  | CElsewhere f =>
      ((f s) <| credLastSeen := credLastSeen s |> <| gatewayNonces := gatewayNonces s |>
           <| gatewayNonceStore := gatewayNonceStore s |>, None)
  end.
Fixpoint run (cs : list (Env * call)) (s : server) : server * list (option verifyCredentialResponse) :=
  match cs with
  | [] => (s, [])
  | (env, c) :: cs' =>
      let '(s1, a) := run_call env c s in
      let '(s2, l) := run cs' s1 in (s2, a :: l)
  end.

(** ** What a request changes *)

Lemma token_keeps_nonces r g s0 : preserves (same_nonces s0) (authorizeGatewayDeviceToken r g).
Proof.
  unfold authorizeGatewayDeviceToken. pres_all; try (apply pres_modify; intros s1 [? ?]; by split).
Qed.
Lemma token_keeps_sightings r g seen : preserves (λ s, credLastSeen s = seen) (authorizeGatewayDeviceToken r g).
Proof. unfold authorizeGatewayDeviceToken. pres_all; by apply pres_modify. Qed.
Lemma validate_keeps_sightings now r g seen :
  preserves (λ s, credLastSeen s = seen) (validateGatewayRequestNonce now r g).
Proof. unfold validateGatewayRequestNonce. pres_all; by apply pres_modify. Qed.

Lemma find_gateway t g s x :
  findGatewayByTenant t g s = Some x → gwID x = TrimSpace g ∧ (TrimSpace t ≠ "" → gwTenantID x = TrimSpace t).
Proof.
  unfold findGatewayByTenant. destruct (is_empty _); [done|].
  destruct (findi _ _) as [[i y]|] eqn:Hf; [|done]. intros [= <-].
  pose proof (findi_elem _ _ _ _ Hf) as [Hv _]%elem_of_filterb. apply findi_true in Hf. boolp. split; [done|].
  intros Hne. unfold Gateway.visible in Hv. rewrite TrimSpace_idem in Hv. apply orb_true_iff in Hv as [Hv|Hv]; boolp; [|done].
  by apply is_empty_true in Hv.
Qed.

(** The gateway endpoint once the gateway is found and its nonce checked. *)
Definition of_gateway (g : Gateway) (req : verifyCredentialRequest) : verifyCredentialRequest :=
  req <| vqGatewayID := gwID g |> <| vqTenantID := gwTenantID g |>.
Lemma gateway_accepted env r req s s' resp :
  verifyCredentialGateway env r req s = (s', Ok resp) →
  ∃ g s1 s2, gwID g = TrimSpace (vqGatewayID req) ∧ gwTenantID g = TrimSpace (vqTenantID req)
  ∧ s1 = exec (authorizeGatewayDeviceToken r (gwID g)) s ∧ validateGatewayRequestNonce (now env) r (gwID g) s1 = (s2, Ok tt)
  ∧ is_empty (nonce_of r) = false ∧ evaluateVerifyCredential env r (of_gateway g req) s2 = (s', Ok resp).
Proof.
  unfold verifyCredentialGateway. rewrite fail_if_bind. destruct (_ || _) eqn:Hne; [done|]. boolp. rewrite bind_gets.
  destruct (findGatewayByTenant _ _ _) as [g|] eqn:Hg; [|done]. apply find_gateway in Hg as [H1 H2].
  rewrite !TrimSpace_idem in *. intros (s2 & [] & Ha & Hr)%bind_ok. rewrite fail_if_bind in Hr.
  destruct (is_empty (TrimSpace (header _ _))) eqn:Hnonce; [done|].
  apply bind_ok in Ha as (s1 & [] & Ht & Hv). exists g, s1, s2. unfold exec. rewrite Ht. split_and!; try done.
  apply H2. by apply is_empty_false.
Qed.
Lemma request_keeps_sightings now r g seen :
  preserves (λ s, credLastSeen s = seen) (authorizeGatewayHTTPDeviceRequest now r g).
Proof. apply pres_bind; [apply token_keeps_sightings|intros _; apply validate_keeps_sightings]. Qed.
Lemma device_keeps_sightings now r seen :
  preserves (λ s, credLastSeen s = seen) (gatewayRecordFromDeviceRequest now r).
Proof. unfold gatewayRecordFromDeviceRequest. pres_all. apply request_keeps_sightings. Qed.
Lemma gateway_refused env r req s s' e :
  verifyCredentialGateway env r req s = (s', Err e) → credLastSeen s' = credLastSeen s.
Proof.
  unfold verifyCredentialGateway. rewrite fail_if_bind. destruct (_ || _); [by intros [= <-]|]. rewrite bind_gets.
  destruct (findGatewayByTenant _ _ _) as [g|]; [|by intros [= <-]]. rewrite bind_op_eq.
  pose proof (request_keeps_sightings (now env) r (gwID g) _ s eq_refl) as Hk. unfold exec in Hk.
  destruct (authorizeGatewayHTTPDeviceRequest _ _ _ s) as [s1 [[]|e1]]; simpl in Hk; [|by intros [= <-]].
  rewrite fail_if_bind. destruct (is_empty _); [by intros [= <-]|].
  destruct (evaluate_outcome env r (of_gateway g req) s1) as (resp & Hr & _). unfold of_gateway in Hr. intros He.
  by rewrite He in Hr.
Qed.

(** ** The sightings of a run *)

(** The card and the door of a tap. *)
Definition tap (c : call) : option (string * string) :=
  match c with
  | CVerify _ req | CVerifyGateway _ req =>
      if String.eqb (TrimSpace (vqCredentialType req)) "nfc_uid"
      then Some (TrimSpace (vqTenantID req) +:+ ":" +:+ TrimSpace (vqCredentialData req), TrimSpace (vqLockID req))
      else None
  | _ => None
  end.
(** What a call does to the sightings. *)
Definition tapped_by (env : Env) (c : call) (s s' : server) (a : option verifyCredentialResponse) : Prop :=
  (credLastSeen s' = credLastSeen s ∧ (is_Some (tap c) → ∀ resp, a = Some resp → vrDecision resp ≠ "allow"))
  ∨ ∃ key lock reason, tap c = Some (key, lock) ∧ sight (now env) key lock (credLastSeen s) = (credLastSeen s', reason)
      ∧ ∀ resp, a = Some resp → vrDecision resp = "allow" → reason = "".

Lemma evaluate_taps env r req s s' resp :
  evaluateVerifyCredential env r req s = (s', Ok resp) → tapped_by env (CVerify r req) s s' (Some resp).
Proof.
  intros He. destruct (evaluate_outcome env r req s) as (resp' & Hr & _ & _ & Hs). rewrite He in Hr, Hs. simpl in *.
  simplify_eq. unfold tapped_by, sighted in *. simpl. destruct (String.eqb _ "nfc_uid").
  - destruct Hs as [[Hd Hs]|(reason & Hs & Hd)].
    + left. split; [done|]. intros _ x [= <-] E. by rewrite E in Hd.
    + right. exists (TrimSpace (vqTenantID req) +:+ ":" +:+ TrimSpace (vqCredentialData req)), (TrimSpace (vqLockID req)), reason.
      split_and!; try done. intros x [= <-] E. apply Hd. by rewrite E.
  - left. split; [done|]. by intros [? ?].
Qed.
Lemma call_taps env c s : tapped_by env c s (run_call env c s).1 (run_call env c s).2.
Proof.
  destruct c as [r req|r req|r|f]; simpl.
  - destruct (verifyCredential env r req s) as [s' [resp|e]] eqn:He; [by apply evaluate_taps|].
    destruct (evaluate_outcome env r req s) as (? & Hr & _). unfold verifyCredential in He. by rewrite He in Hr.
  - destruct (verifyCredentialGateway env r req s) as [s' [resp|e]] eqn:He;
      [|left; split; [by eapply gateway_refused|done]].
    apply gateway_accepted in He as (g & s1 & s2 & Hg & Ht & -> & Hv & _ & He%evaluate_taps).
    assert (credLastSeen s2 = credLastSeen s) as Hs.
    { pose proof (validate_keeps_sightings (now env) r (gwID g) _ _ (token_keeps_sightings r (gwID g) _ s eq_refl)) as H.
      unfold exec in H at 1. by rewrite Hv in H. }
    revert He. unfold tapped_by, tap. rewrite Hs. unfold of_gateway. simpl. by rewrite Ht, TrimSpace_idem.
  - left. split; [|by intros [? ?]]. simpl.
    exact (device_keeps_sightings (now env) r _ s eq_refl).
  - left. split; [done|]. by intros [? ?].
Qed.

(** ** Taps of one card at two doors *)

(** After an accepted tap at [t] and [door], of which something is still known. *)
Definition near (t : Z) (door : string) (last : Z) (key : string) (seen : gmap string credentialSighting) : Prop :=
  match seen !! key with
  | None => t + 2 * minute <= last
  | Some v => t <= csSeenAt v ∧ csSeenAt v <= last ∧ (csLockID v = door ∨ t + 30 * second <= csSeenAt v)
  end.

Lemma near_later t door last last' key seen : near t door last key seen → last <= last' → near t door last' key seen.
Proof. unfold near. case_match; intuition lia. Qed.

Lemma sub_small a b c : c < max_int64 → min_int64 < c → time_sub a b < c ↔ a - b < c.
Proof. unfold time_sub. lia. Qed.
Lemma sub_seconds a b n : 0 <= n <= 60 → time_sub a b < n * second ↔ a - b < n * second.
Proof. intros Hn. apply sub_small; unfold max_int64, min_int64, second in *; lia. Qed.

(** The next accepted tap. *)
Lemma near_accepted t door last key seen now door' seen' :
  near t door last key seen → last <= now → sight now key door' seen = (seen', "") → door' = door ∨ t + 30 * second <= now.
Proof.
  unfold near, sight. destruct (seen !! key) as [v|]; [|intros; right; unfold minute, second in *; lia].
  intros (H1 & H2 & H3) Hn. destruct (negb _ && _) eqn:Ht; [done|]. intros _.
  destruct H3 as [<-|H3]; [|right; lia]. destruct (String.eqb (csLockID v) door') eqn:Hd; boolp; [by left|right].
  simpl in Ht. apply Z.ltb_ge in Ht. pose proof (sub_seconds now (csSeenAt v) 30). lia.
Qed.
(** Old sightings are dropped when nothing follows from them any more. *)
Lemma near_swept t door now key m :
  near t door now key m →
  near t door now key (if Nat.ltb 500 (size m)
                       then filter (λ '(_, v), Before (csSeenAt v) (now - 2 * minute) = false) m else m).
Proof.
  destruct (Nat.ltb 500 (size m)); [|done]. unfold near. intros H.
  destruct (filter _ m !! key) as [v|] eqn:Hf; [by apply map_lookup_filter_Some in Hf as [Hf _]; rewrite Hf in H|].
  destruct (m !! key) as [v|] eqn:Hm; [|done]. apply map_lookup_filter_None in Hf as [Hf|Hf]; [congruence|].
  specialize (Hf v Hm). simpl in Hf. unfold Before in Hf. destruct (Z.ltb_spec (csSeenAt v) (now - 2 * minute)); [lia|done].
Qed.
Lemma near_insert t door now key m v :
  t <= csSeenAt v → csSeenAt v <= now → csLockID v = door ∨ t + 30 * second <= csSeenAt v →
  near t door now key (<[key := v]> m).
Proof. intros. unfold near. by rewrite lookup_insert_eq. Qed.
Lemma near_insert_ne t door now key key' m v : key ≠ key' → near t door now key m → near t door now key (<[key' := v]> m).
Proof. intros. unfold near. by rewrite lookup_insert_ne by done. Qed.

Lemma near_starts now key door seen seen' : sight now key door seen = (seen', "") → near now door now key seen'.
Proof.
  unfold sight. destruct (seen !! key) as [v|].
  - destruct (negb _ && _); [done|]. destruct (_ && _) eqn:Hs.
    + boolp. destruct (5 <? _); [done|]. intros [= <-]. apply near_insert; simpl; auto with lia.
    + intros [= <-]. apply near_swept, near_insert; simpl; auto with lia.
  - intros [= <-]. apply near_swept, near_insert; simpl; auto with lia.
Qed.
Lemma near_kept t door last key seen now key' door' :
  near t door last key seen → last <= now → near t door now key (sight now key' door' seen).1.
Proof.
  intros Hn Hl. pose proof (near_later _ _ _ _ _ _ Hn Hl) as Hn'. unfold sight.
  destruct (decide (key' = key)) as [->|Hne].
  2:{ destruct (seen !! key') as [v|]; [destruct (negb _ && _); [done|]; destruct (_ && _); [destruct (5 <? _)|]|]; simpl;
      try apply near_swept; by apply near_insert_ne. }
  assert ((sight now key door' seen).2 = "" → door' = door ∨ t + 30 * second <= now) as Ha.
  { intros E. eapply near_accepted; [exact Hn|exact Hl|]. rewrite <- E. by rewrite <- surjective_pairing. }
  assert (t <= now) as Ht by (unfold near in Hn; destruct (seen !! key); unfold minute, second in *; lia).
  revert Ha. unfold sight. unfold near in Hn. destruct (seen !! key) as [v|]; simpl.
  - destruct (negb _ && _); simpl; [done|]. destruct (_ && _) eqn:Hs; simpl.
    + boolp. destruct (5 <? _); simpl; intros Ha; apply near_insert; simpl; try lia; try tauto. subst.
      destruct Hn as (? & ? & [?|?]); auto with lia.
    + intros Ha. apply near_swept, near_insert; simpl; try lia. destruct (Ha eq_refl); auto.
  - intros Ha. apply near_swept, near_insert; simpl; try lia. destruct (Ha eq_refl); auto.
Qed.

(** The clock does not go back. *)
Fixpoint clocked (t : Z) (cs : list (Env * call)) : Prop :=
  match cs with
  | [] => True
  | (env, _) :: cs' => t <= now env ∧ clocked (now env) cs'
  end.

Lemma run_cons env c cs s :
  run ((env, c) :: cs) s = ((run cs (run_call env c s).1).1, (run_call env c s).2 :: (run cs (run_call env c s).1).2).
Proof. cbn [run]. destruct (run_call env c s) as [s1 a]. cbn [fst snd]. by destruct (run cs s1). Qed.

(** A tap that is allowed was not found to be an anomaly. *)
Lemma allowed_taps env c s key door resp :
  tap c = Some (key, door) → (run_call env c s).2 = Some resp → vrDecision resp = "allow" →
  sight (now env) key door (credLastSeen s) = (credLastSeen (run_call env c s).1, "").
Proof.
  intros Ht Ha Hd. destruct (call_taps env c s) as [[_ Hs]|(k & l & reason & Hk & Hs & Hr)].
  - rewrite Ht in Hs. by apply Hs in Ha.
  - rewrite Ht in Hk. simplify_eq. by rewrite <- (Hr _ Ha Hd).
Qed.
Lemma call_near t door last key env c s :
  near t door last key (credLastSeen s) → last <= now env → near t door (now env) key (credLastSeen (run_call env c s).1).
Proof.
  intros Hn Hl. destruct (call_taps env c s) as [[-> _]|(k & l & reason & _ & Hs & _)]; [by eapply near_later|].
  pose proof (near_kept _ _ _ _ _ _ k l Hn Hl) as H. by rewrite Hs in H.
Qed.
Lemma run_near t door key cs j env c door' resp s last :
  near t door last key (credLastSeen s) → clocked last cs → cs !! j = Some (env, c) → tap c = Some (key, door') →
  (run cs s).2 !! j = Some (Some resp) → vrDecision resp = "allow" → door' = door ∨ t + 30 * second <= now env.
Proof.
  revert j s last. induction cs as [|[e k] cs IH]; intros j s last Hn Hc Hj Ht Hr Ha; [done|].
  rewrite run_cons in Hr. destruct Hc as [Hl Hc]. destruct j as [|j]; simpl in *.
  - simplify_eq. eapply near_accepted; [done..|]. by eapply allowed_taps.
  - eapply (IH j); [by eapply call_near|done..].
Qed.

(** C16: No NFC card is in two places at once.  In any run of requests to the verify
    endpoints, through any gateways and with anything else in between, and whatever
    was known at the start: two taps of one NFC identifier in one spelling (the code keys its
    table by the letters as sent, and looks at no other credential type) that are both
    allowed, at different doors, are at least thirty seconds apart, also when the table of
    sightings is swept in between. *)
Theorem travel_checked t0 cs s i j ei ci ej cj ri rj key di dj :
  clocked t0 cs → (i < j)%nat → cs !! i = Some (ei, ci) → cs !! j = Some (ej, cj) →
  tap ci = Some (key, di) → tap cj = Some (key, dj) →
  (run cs s).2 !! i = Some (Some ri) → (run cs s).2 !! j = Some (Some rj) →
  vrDecision ri = "allow" → vrDecision rj = "allow" → di ≠ dj → now ei + 30 * second <= now ej.
Proof.
  intros Hc Hij Hi Hj Hti Htj Hri Hrj Hai Haj Hne. revert t0 s i j Hc Hij Hi Hj Hri Hrj.
  induction cs as [|[e k] cs IH]; intros t0 s i j Hc Hij Hi Hj Hri Hrj; [done|].
  destruct Hc as [Hl Hc]. rewrite run_cons in Hri, Hrj.
  destruct j as [|j]; [lia|]. destruct i as [|i]; simpl in *.
  - simplify_eq. assert (near (now ei) di (now ei) key (credLastSeen (run_call ei ci s).1)) as Hn
      by (eapply near_starts, allowed_taps; done).
    destruct (run_near _ _ _ _ _ _ _ _ _ _ _ Hn Hc Hj Htj Hrj Haj); [congruence|done].
  - eapply (IH _ _ i j); eauto with lia.
Qed.

(** ** A request is accepted once *)

(** Up to [exp] the nonce is taken. *)
Definition held (key : string) (exp last : Z) (s : server) : Prop :=
  gatewayNonceStore s = None ∧ (last <= exp → gatewayNonces s !! key = Some exp).
Lemma held_same key exp last s0 s : same_nonces s0 s → held key exp last s0 → held key exp last s.
Proof. unfold held, same_nonces. by intros [-> ->]. Qed.
Lemma keeps_held {A} key exp last (m : handler A) :
  (∀ s, same_nonces s (exec m s)) → preserves (held key exp last) m.
Proof. intros Hm s. by apply held_same. Qed.

Lemma validate_keeps_store now r g : preserves (λ s, gatewayNonceStore s = None) (validateGatewayRequestNonce now r g).
Proof.
  intros s Hs. unfold validateGatewayRequestNonce. destruct (_ && _); [by rewrite exec_gets; destruct (GatewayRequireRequestNonce s)|].
  rewrite exec_fail_if. destruct (_ || _); [done|]. destruct (parse_rfc3339 _) as [ts|]; [|done].
  rewrite exec_fail_if. destruct (_ || _); [done|]. rewrite exec_gets, Hs, exec_gets. by destruct (mark_nonce _ _ _).
Qed.
Lemma validate_held key exp now r g : preserves (held key exp now) (validateGatewayRequestNonce now r g).
Proof.
  intros s [Hs Hk]. destruct (Z.le_gt_cases now exp) as [Hn|Hn].
  - destruct (validate_keeps now r g key exp Hn s) as [? ?]; [split; auto|by split].
  - split; [by apply validate_keeps_store|lia].
Qed.
Lemma token_held key exp last r g : preserves (held key exp last) (authorizeGatewayDeviceToken r g).
Proof. apply keeps_held. intros s. by apply (token_keeps_nonces r g s). Qed.
Lemma request_held key exp now r g : preserves (held key exp now) (authorizeGatewayHTTPDeviceRequest now r g).
Proof. apply pres_bind; [apply token_held|intros _; apply validate_held]. Qed.
Lemma evaluate_held key exp last env r req : preserves (held key exp last) (evaluateVerifyCredential env r req).
Proof. apply keeps_held. intros s. by destruct (evaluate_outcome env r req s) as (? & _ & _ & ? & _). Qed.

Lemma run_call_exec env c s :
  (run_call env c s).1 = match c with
                         | CVerify r req => exec (verifyCredential env r req) s
                         | CVerifyGateway r req => exec (verifyCredentialGateway env r req) s
                         | CDevice r => exec (gatewayRecordFromDeviceRequest (now env) r) s
                         | CElsewhere f => (run_call env (CElsewhere f) s).1
                         end.
Proof. by destruct c. Qed.
Lemma call_held key exp last env c s :
  held key exp last s → last <= now env → held key exp (now env) (run_call env c s).1.
Proof.
  intros [Hs Hk] Hl. assert (held key exp (now env) s) as Hh by (split; [done|intros; apply Hk; lia]).
  rewrite run_call_exec. destruct c as [r req|r req|r|f]; [by apply evaluate_held|revert s Hs Hk Hh..|done].
  - intros s _ _. revert s. change (preserves (held key exp (now env)) (verifyCredentialGateway env r req)).
    unfold verifyCredentialGateway. pres_all; [apply request_held|apply evaluate_held].
  - intros s _ _. revert s. change (preserves (held key exp (now env)) (gatewayRecordFromDeviceRequest (now env) r)).
    unfold gatewayRecordFromDeviceRequest. pres_all. apply request_held.
Qed.
Fixpoint last_time (t : Z) (cs : list (Env * call)) : Z :=
  match cs with [] => t | (env, _) :: cs' => last_time (now env) cs' end.
Lemma run_held key exp cs last s :
  held key exp last s → clocked last cs → held key exp (last_time last cs) (run cs s).1.
Proof.
  revert last s. induction cs as [|[env c] cs IH]; intros last s Hh Hc; [done|]. rewrite run_cons.
  destruct Hc as [Hl Hc]. simpl. apply IH; [by eapply call_held|done].
Qed.

(** C17: A verify request of a gateway is accepted once while the nonces are kept in memory
    (without a shared nonce store): when
    a request stamped no later than now has been accepted, then after any further
    requests and anything else the server does, however long, no request of that
    gateway with this nonce and this timestamp is accepted; it may carry any tenant,
    credential and token. *)
Theorem gateway_request_once env r req s s1 resp cs env' r' req' ts :
  gatewayNonceStore s = None → run_call env (CVerifyGateway r req) s = (s1, Some resp) →
  stamp_of r = Some ts → ts <= now env → clocked (now env) cs → last_time (now env) cs <= now env' →
  nonce_of r' = nonce_of r → stamp_of r' = Some ts → TrimSpace (vqGatewayID req') = TrimSpace (vqGatewayID req) →
  (run_call env' (CVerifyGateway r' req') (run cs s1).1).2 = None.
Proof.
  intros Hs Hc Hts Hle Hcl Hlast Hn' Hts' Hg'. cbn [run_call] in Hc.
  destruct (verifyCredentialGateway env r req s) as [s' [a|e]] eqn:Ha; [|done]. injection Hc as -> ->.
  apply gateway_accepted in Ha as (g & s2 & s3 & Hg & _ & -> & Hv & Hne & He).
  assert (gatewayNonceStore (exec (authorizeGatewayDeviceToken r (gwID g)) s) = None) as Hs2.
  { by rewrite (proj1 (token_keeps_nonces r (gwID g) s s ltac:(done))). }
  destruct (validate_ok _ _ _ _ _ Hs2 Hne Hv) as (ts0 & l & Ets & _ & _ & Hm & ->).
  set (key := nonce_key (gwID g) (nonce_of r)) in *.
  assert (held key (now env + nonceWindow) (now env) s1) as Hh.
  { replace s1 with (s1, Ok (E:=http_err) resp).1 by done. rewrite <- He. apply evaluate_held. split; [done|].
    intros _. by eapply mark_new. }
  apply (run_held _ _ cs) in Hh; [|done]. cbn [run_call answered].
  destruct (verifyCredentialGateway env' r' req' (run cs s1).1) as [s5 [a|e]] eqn:Ha'; [exfalso|done].
  apply gateway_accepted in Ha' as (g' & s6 & s7 & Hg2 & _ & -> & Hv' & Hne' & _).
  apply (token_held _ _ _ r' (gwID g')) in Hh as [Hs3 Hk3].
  destruct (validate_ok _ _ _ _ _ Hs3 Hne' Hv') as (ts1 & l' & Ets' & Hold & _ & Hm' & _). simplify_eq.
  assert (nonce_key (gwID g') (nonce_of r') = key) as Hkey by (subst key; by rewrite Hn', Hg2, Hg', <- Hg).
  rewrite Hkey in Hm'.
  rewrite (mark_taken _ _ _ _ (Hk3 ltac:(lia))) in Hm'; [done|]. lia.
Qed.

(** A nonce comes back.  Five minutes after a request has been accepted its nonce is
    forgotten: a request of the gateway with the same nonce and a timestamp of its own
    time is accepted again; and so is the very same request when its timestamp was
    ahead of the clock.  A signature of a phone over the nonce is then good again, as
    the timestamp is not signed. *)
Theorem nonce_returns now1 now2 r r' g s s1 ts :
  gatewayNonceStore s = None → is_empty (nonce_of r) = false → validateGatewayRequestNonce now1 r g s = (s1, Ok tt) →
  now1 + nonceWindow < now2 → nonce_of r' = nonce_of r → stamp_of r' = Some ts → Z.abs (now2 - ts) <= nonceWindow →
  answer (validateGatewayRequestNonce now2 r' g) s1 = Ok tt.
Proof.
  intros Hs Hne Hv Hlate Hn Hts Habs. destruct (validate_ok _ _ _ _ _ Hs Hne Hv) as (ts0 & l & _ & _ & _ & Hm & ->).
  assert (is_empty (TrimSpace (header r' "X-Request-Timestamp")) = false) as Hne2.
  { unfold stamp_of in Hts. destruct (is_empty (TrimSpace (header r' "X-Request-Timestamp"))) eqn:E; [|done]. apply is_empty_true in E. rewrite E in Hts. by vm_compute in Hts. }
  unfold answer, validateGatewayRequestNonce. fold (nonce_of r'). rewrite Hn, Hne, Hne2. unfold stamp_of in Hts.
  cbn [andb orb]. rewrite fail_if_bind, Hts, fail_if_bind.
  destruct (_ || _) eqn:Hw.
  { exfalso. unfold time_sub, min_int64, max_int64, nonceWindow, minute, second in *. apply orb_true_iff in Hw as [Hw|Hw]; boolp; lia. }
  rewrite bind_gets. cbn [gatewayNonceStore set]. rewrite Hs, bind_gets.
  destruct (mark_nonce now2 _ _) eqn:Hm2; [done|]. exfalso. revert Hm2. unfold mark_nonce.
  destruct (filter _ _ !! _) eqn:Hf; [|done]. intros _. apply map_lookup_filter_Some in Hf as [Hf Hlive].
  simpl in Hf. fold (nonce_key g (nonce_of r)) in Hf. rewrite (mark_new _ _ _ _ Hm) in Hf. simplify_eq.
  unfold After in Hlive. lia.
Qed.
End runs.

(** ** A revoked certificate *)

(** A device token that is good for a gateway, presented where a certificate is not required. *)
Definition token_admits {DG : Digest} (r : Request) (gatewayID : string) (srv : server) : Prop :=
  rqMTLSRequired r = false ∧ provided_token r ≠ ""
  ∧ match gatewayTokenStore srv with
    | Some t => (VerifyGatewayDeviceToken (TrimSpace gatewayID) (provided_token r) t).2 = Some (true, true)
    | None => gatewayDeviceTokens srv !! TrimSpace gatewayID = Some (provided_token r)
    end.
Lemma authorized_by_token {DG : Digest} r gatewayID srv :
  authorizeGatewayClientCertificate r gatewayID srv = false →
  answer (authorizeGatewayDeviceToken r gatewayID) srv = Ok tt → token_admits r gatewayID srv.
Proof.
  intros Hc. unfold answer, authorizeGatewayDeviceToken, token_admits. rewrite bind_gets, fail_if_bind. destruct (gatewayIdentityStatusRevoked _ _); [done|].
  rewrite bind_gets, Hc, fail_if_bind. destruct (rqMTLSRequired r); [done|]. cbv zeta. rewrite fail_if_bind.
  destruct (is_empty (provided_token r)) eqn:Hp; [done|]. apply is_empty_false in Hp. rewrite bind_gets.
  destruct (gatewayTokenStore srv) as [t|].
  - destruct (VerifyGatewayDeviceToken _ _ t) as [t' [[[] []]|]]; done.
  - rewrite bind_gets, fail_if_bind. destruct (is_empty _); [done|]. unfold fail_if. destruct (String.eqb_spec (provided_token r) (default "" (gatewayDeviceTokens srv !! TrimSpace gatewayID))) as [E|]; [|done].
    intros _. split_and!; [done..|]. destruct (_ !! _) as [x|]; simpl in E; congruence.
Qed.

(** C24: A revoked certificate does not connect.  Once a tenant has revoked a serial
    number, in whatever spelling (case, colons, leading zeros), no gateway is
    authorized by a certificate with that number, whatever is revoked or restored
    afterwards by whom and whatever happens to the fleet, up to a restore of this
    number by that tenant or by the platform.  A request with such a certificate is let in
    only where certificates are not required and it has a device token that is good for
    the gateway. *)
Theorem revoked_until_restored {DG : Digest} env t g raw reason by_ s s' rec cs srv r leaf sn gatewayID :
  RevokeCertificateSerial env t g raw reason by_ s = (s', Ok rec) → TrimSpace t ≠ "" →
  Forall (λ '(_, c), lifts (TrimSpace t) (NormalizeCertificateSerial raw) c = false) cs →
  gatewaySvc srv = CertRevocation.run cs s' →
  verifiedGatewayClientCertificate r = Some leaf → certSerial leaf = Some sn →
  NormalizeCertificateSerial sn = NormalizeCertificateSerial raw →
  authorizeGatewayClientCertificate r gatewayID srv = false
  ∧ (answer (authorizeGatewayDeviceToken r gatewayID) srv = Ok tt → token_admits r gatewayID srv).
Proof.
  intros Hr Ht Hcs Hsrv Hleaf Hsn Hn. assert (NormalizeCertificateSerial raw ≠ "") as Hne.
  { unfold RevokeCertificateSerial in Hr. rewrite bind_lift in Hr. destruct (normalizeCertificateSerialInput raw) eqn:E; [|done].
    by apply input_normal in E as [-> ?]. }
  apply revoke_makes in Hr; [|done]. apply (run_keeps_revoked _ _ cs) in Hr; [|done..]. rewrite <- Hsrv in Hr.
  assert (authorizeGatewayClientCertificate r gatewayID srv = false) as Hc; [|split; [done|by apply authorized_by_token]].
  unfold authorizeGatewayClientCertificate, gatewayClientCertificateRevoked, gatewayClientSerialRevoked.
  rewrite Hleaf, Hsn, (revoked_check _ _ _ _ Hr Hne) by (by rewrite normalize_idem).
  rewrite Hn. apply is_empty_false in Hne. rewrite Hne, orb_true_r. done.
Qed.

(** ** Examples *)

#[local] Abbreviation ex_run := (@run toy_crypto plain_digest).
#[local] Abbreviation ex_call := (@run_call toy_crypto plain_digest).
#[local] Abbreviation ex_taps :=
  [(demo_env 0, CVerify (demo_request "" "") (demo_tap "d1"));
   (demo_env (20 * second), CVerify (demo_request "" "") (demo_tap "d2"));
   (demo_env (31 * second), CVerify (demo_request "" "") (demo_tap "d2"))].
Definition decisions (l : list (option verifyCredentialResponse)) : list (option string) := fmap (M:=option) vrDecision <$> l.

(** Ana's card is refused at the back door after twenty seconds. *)
Lemma travel_checked_witness :
  decisions (ex_run ex_taps demo_server).2 = [Some "allow"; Some "deny"; Some "allow"]
  ∧ now (demo_env 0) + 30 * second <= now (demo_env (31 * second)).
Proof.
  split; [vm_compute; reflexivity|].
  eapply (@travel_checked toy_crypto plain_digest 0 ex_taps demo_server 0 2 _ _ _ _ _ _ "t:04ab" "d1" "d2");
    [vm_compute; repeat (split; [discriminate|]); exact I|lia|reflexivity|reflexivity|vm_compute; reflexivity|vm_compute; reflexivity
    |vm_compute; reflexivity|vm_compute; reflexivity|reflexivity|reflexivity|discriminate].
Defined.

#[local] Abbreviation ex_stamp := (format_rfc3339 demo_time).
Lemma gateway_request_once_witness :
  let s1 := (ex_call (demo_env 0) (CVerifyGateway (demo_request "n" ex_stamp) (demo_tap "d1")) demo_server).1 in
  let cs := [(demo_env (4 * minute), CElsewhere (λ s, s <| gatewayNonces := ∅ |>));
             (demo_env (5 * minute), CVerifyGateway (demo_request "n2" ex_stamp) (demo_tap "d2"))] in
  decisions (ex_run cs s1).2 = [None; Some "allow"]
  ∧ (ex_call (demo_env (5 * minute)) (CVerifyGateway (demo_request "n" ex_stamp) (demo_tap "d1")) (ex_run cs s1).1).2 = None.
Proof.
  cbv zeta. split; [vm_compute; reflexivity|].
  eapply (@gateway_request_once toy_crypto plain_digest (demo_env 0) (demo_request "n" ex_stamp) (demo_tap "d1") demo_server
            _ _ _ (demo_env (5 * minute)) _ (demo_tap "d1") demo_time);
    [reflexivity|vm_compute; reflexivity|vm_compute; reflexivity|vm_compute; discriminate
    |vm_compute; repeat (split; [discriminate|]); exact I|vm_compute; discriminate|reflexivity|vm_compute; reflexivity|reflexivity].
Defined.

(** A request stamped four minutes ahead opens the door now, and six minutes later
    without a change. *)
Lemma nonce_returns_witness :
  let r := demo_request "n" (format_rfc3339 (demo_time + 4 * minute)) in
  let c := CVerifyGateway r (demo_tap "d1") in
  decisions (ex_run [(demo_env 0, c); (demo_env (3 * minute), c); (demo_env (6 * minute), c)] demo_server).2
    = [Some "allow"; None; Some "allow"]
  ∧ answer (validateGatewayRequestNonce (demo_time + 6 * minute) r "gw1")
      (exec (validateGatewayRequestNonce demo_time r "gw1") demo_server) = Ok tt.
Proof.
  cbv zeta. split; [vm_compute; reflexivity|].
  eapply (nonce_returns demo_time (demo_time + 6 * minute) (demo_request "n" (format_rfc3339 (demo_time + 4 * minute)))
            _ "gw1" demo_server _ (demo_time + 4 * minute));
    [reflexivity|reflexivity|vm_compute; reflexivity|vm_compute; reflexivity|reflexivity|vm_compute; reflexivity
    |vm_compute; discriminate].
Defined.

(** Tenant "t" revokes 00:AB:CD; another tenant cannot restore it. *)
#[local] Abbreviation ex_leaf := (mkCertificate (of_string "der") (Some "abcd") "gw1" ["t"]).
Lemma revoked_until_restored_witness :
  let revoked := exec (RevokeCertificateSerial (mkEnv 5 None NoStore) "t" "" "00:AB:CD" "lost" "ops") (gatewaySvc demo_server) in
  let r := mkRequest (λ _, "") (λ _, "") (Some (mkTLS [ex_leaf] [[ex_leaf]])) true in
  let after := demo_server <| gatewaySvc := CertRevocation.run [(mkEnv 6 None NoStore, CRestore "u" "abcd")] revoked |> in
  authorizeGatewayClientCertificate r "gw1" demo_server = true
  ∧ answer (@authorizeGatewayDeviceToken plain_digest r "gw1") after = Err (HTTP 401 "valid gateway client certificate required")
  ∧ authorizeGatewayClientCertificate r "gw1" after = false
  ∧ (answer (@authorizeGatewayDeviceToken plain_digest r "gw1") after = Ok tt → @token_admits plain_digest r "gw1" after).
Proof.
  cbv zeta. split; [vm_compute; reflexivity|]. split; [vm_compute; reflexivity|].
  eapply (@revoked_until_restored plain_digest (mkEnv 5 None NoStore) "t" "" "00:AB:CD" "lost" "ops" (gatewaySvc demo_server) _ _
            [(mkEnv 6 None NoStore, CRestore "u" "abcd")] _ _ ex_leaf "abcd");
    [vm_compute; reflexivity|vm_compute; discriminate|vm_compute; repeat constructor|vm_compute; reflexivity|reflexivity|reflexivity
    |vm_compute; reflexivity].
Defined.
