(* ===== verification/RateLimit.v ===== *)
(** * Rate limits of the API (internal/http/router_middleware.go)

    Fixed windows per client: the first attempt opens a window, a window takes so
    many attempts, and the attempts after them are told how long to wait.  The
    windows are kept in Redis, or in memory when there is none or it fails.  The
    four limiters (login, API, enterprise forms, enterprise webhooks) are one code
    with their own constants and tables. *)

From S2P Require Import Prelude GoStrings GoTime.
#[local] Open Scope string_scope.
#[local] Open Scope list_scope.
#[local] Open Scope Z_scope.

Record loginRateLimitBucket := mkBucket { WindowStart : Z; Attempts : Z }.
#[export] Instance eta_bucket : Eta loginRateLimitBucket := λ b, mkBucket (WindowStart b) (Attempts b).

(** The constants of a limiter. *)
Record Limits := mkLimits { MaxAttempts : Z; Window : Z; BucketTTL : Z; BucketMaxKeys : nat }.
Definition loginLimits : Limits := mkLimits 10 minute (5 * minute) (N.to_nat 10000).
Definition apiLimits : Limits := mkLimits 600 minute (10 * minute) (N.to_nat 20000).
Definition enterprisePublicLimits : Limits := mkLimits 60 minute (10 * minute) (N.to_nat 10000).
Definition enterpriseWebhookLimits : Limits := mkLimits 240 minute (10 * minute) (N.to_nat 10000).

(** The replies of the Redis limiter: whether the attempt is allowed and how long to
    wait, or an error. *)
Record Limiter := mkLimiter {
  rateLimitStore : option (list (option (bool * Z))); rateLimitBuckets : gmap string loginRateLimitBucket
}.
#[export] Instance eta_limiter : Eta Limiter := λ s, mkLimiter (rateLimitStore s) (rateLimitBuckets s).

Section limiter.
Context `{!MapRange} (l : Limits).

(** The loop that deletes bucket after bucket until half of the keys are left. *)
Fixpoint drop_keys (keys : list string) (m : gmap string loginRateLimitBucket) : gmap string loginRateLimitBucket :=
  match keys with
  | [] => m
  | k :: keys' =>
      let m' := delete k m in
      if Nat.leb (size m') (Nat.div2 (BucketMaxKeys l)) then m' else drop_keys keys' m'
  end.
Definition compactRateBuckets (now : Z) (m : gmap string loginRateLimitBucket) : gmap string loginRateLimitBucket :=
  let live := filter (λ '(_, b), (BucketTTL l <? time_sub now (WindowStart b)) = false) m in
  if Nat.leb (size live) (BucketMaxKeys l) then live else drop_keys (fst <$> range live) live.

(** In memory: the new windows, and whether the attempt is allowed or how long to wait. *)
Definition attempt (key : string) (now : Z) (m : gmap string loginRateLimitBucket) :
    gmap string loginRateLimitBucket * (bool * Z) :=
  let m := compactRateBuckets now m in
  let opened := (<[key := mkBucket now 1]> m, (true, 0)) in
  match m !! key with
  | None => opened
  | Some bucket =>
      if Window l <=? time_sub now (WindowStart bucket) then opened
      else if MaxAttempts l <=? Attempts bucket
      then (m, (false, Z.max second (Window l - time_sub now (WindowStart bucket))))
      else (<[key := bucket <| Attempts ::= Z.add 1 |>]> m, (true, 0))
  end.

(** [allowLoginAttempt], [allowGlobalAPIAttempt] and the two of the enterprise. *)
Definition allowAttempt (key : string) (now : Z) (s : Limiter) : Limiter * (bool * Z) :=
  let in_memory (s : Limiter) :=
    let '(m, r) := attempt key now (rateLimitBuckets s) in (s <| rateLimitBuckets := m |>, r) in
  match rateLimitStore s with
  | None => in_memory s
  | Some replies =>
      let s := s <| rateLimitStore := Some (tail replies) |> in
      match replies with
      | Some r :: _ => (s, r)
      | _ => in_memory s
      end
  end.

(** ** A run of attempts *)

Fixpoint run (attempts : list (string * Z)) (m : gmap string loginRateLimitBucket) :
    gmap string loginRateLimitBucket * list (bool * Z) :=
  match attempts with
  | [] => (m, [])
  | (key, now) :: attempts' =>
      let '(m, r) := attempt key now m in
      let '(m, rs) := run attempts' m in (m, r :: rs)
  end.
Lemma attempts_cons key now atts m :
  run ((key, now) :: atts) m
  = ((run atts (attempt key now m).1).1, (attempt key now m).2 :: (run atts (attempt key now m).1).2).
Proof. cbn [run]. destruct (attempt key now m) as [m' r]. cbn [fst snd]. by destruct (run atts m'). Qed.

(** The same through the store of Redis. *)
Fixpoint serve (attempts : list (string * Z)) (s : Limiter) : Limiter :=
  match attempts with [] => s | (key, now) :: attempts' => serve attempts' (allowAttempt key now s).1 end.
(** How many attempts of a client are let through, and how many of them by Redis. *)
Definition by_store (s : Limiter) : bool := match rateLimitStore s with Some (Some _ :: _) => true | _ => false end.
Fixpoint let_through (key : string) (attempts : list (string * Z)) (s : Limiter) : Z :=
  match attempts with
  | [] => 0
  | (k, now) :: attempts' =>
      let '(s', (ok, _)) := allowAttempt k now s in (if String.eqb k key && ok then 1 else 0) + let_through key attempts' s'
  end.
Fixpoint by_redis (key : string) (attempts : list (string * Z)) (s : Limiter) : Z :=
  match attempts with
  | [] => 0
  | (k, now) :: attempts' =>
      let '(s', (ok, _)) := allowAttempt k now s in
      (if by_store s && (String.eqb k key && ok) then 1 else 0) + by_redis key attempts' s'
  end.
(** The table has room, so that no window is thrown away before its time. *)
Fixpoint uncrowded (attempts : list (string * Z)) (s : Limiter) : Prop :=
  match attempts with
  | [] => True
  | (key, now) :: attempts' => (size (rateLimitBuckets s) ≤ BucketMaxKeys l)%nat ∧ uncrowded attempts' (allowAttempt key now s).1
  end.

Lemma compact_uncrowded now m :
  (size m ≤ BucketMaxKeys l)%nat →
  compactRateBuckets now m = filter (λ '(_, b), (BucketTTL l <? time_sub now (WindowStart b)) = false) m.
Proof.
  intros Hm. unfold compactRateBuckets. set (live := filter _ m).
  assert (size live ≤ size m)%nat by (rewrite <-!size_dom; apply subseteq_size, dom_filter_subseteq).
  destruct (Nat.leb_spec (size live) (BucketMaxKeys l)); [done|lia].
Qed.

(** What a client may still do before [a + Window l]. *)
Definition room (a : Z) (b : option loginRateLimitBucket) : Z :=
  match b with
  | None => MaxAttempts l
  | Some b => Z.max 0 (MaxAttempts l - Attempts b) + if a <=? WindowStart b then 0 else MaxAttempts l
  end.

(** Constants that make a limiter. *)
Definition sane : Prop := 0 < MaxAttempts l ∧ 0 <= Window l ∧ Window l <= BucketTTL l ∧ BucketTTL l < max_int64.

Lemma sub_ge a b c : 0 <= c < max_int64 → (c <=? time_sub a b) = (c <=? a - b).
Proof. intros Hc. unfold time_sub, min_int64, max_int64 in *. destruct (Z.leb_spec c (a - b)); lia. Qed.

(** The bucket an attempt of this client or of another finds and leaves. *)
Lemma room_filter a key now (m : gmap string loginRateLimitBucket) :
  sane → a <= now < a + Window l →
  room a (filter (λ '(_, b), (BucketTTL l <? time_sub now (WindowStart b)) = false) m !! key) <= room a (m !! key).
Proof.
  intros Hl Hn. destruct (filter _ m !! key) as [b|] eqn:Hf; [by apply map_lookup_filter_Some in Hf as [-> _]|].
  destruct (m !! key) as [b|] eqn:Hm; [|done]. apply map_lookup_filter_None in Hf as [Hf|Hf]; [congruence|].
  specialize (Hf b Hm). simpl in Hf. unfold room. destruct (Z.leb_spec a (WindowStart b)); [|lia].
  exfalso. apply Hf. apply Z.ltb_ge. unfold sane, time_sub, max_int64, min_int64 in *. lia.
Qed.
Lemma room_spent a key k now m :
  sane → (size m ≤ BucketMaxKeys l)%nat → a <= now < a + Window l →
  room a ((attempt k now m).1 !! key) + (if String.eqb k key && (attempt k now m).2.1 then 1 else 0) <= room a (m !! key).
Proof.
  intros Hl Hs Hn. pose proof (room_filter a key now m Hl Hn) as Hr. rewrite <- compact_uncrowded in Hr by done. unfold attempt.
  set (live := compactRateBuckets now m) in *. clearbody live. destruct (String.eqb_spec k key) as [->|Hne].
  - destruct (live !! key) as [b|] eqn:Hb; cbn [fst snd andb].
    + rewrite sub_ge by (unfold sane in Hl; lia). simpl in Hr. destruct (Z.leb_spec (Window l) (now - WindowStart b)).
      * simpl. rewrite lookup_insert_eq. simpl. destruct (Z.leb_spec a now); [|lia].
        destruct (Z.leb_spec a (WindowStart b)); unfold sane in *; lia.
      * destruct (Z.leb_spec (MaxAttempts l) (Attempts b)); simpl; rewrite ?Hb, ?lookup_insert_eq; simpl; [lia|].
        destruct (a <=? WindowStart b); lia.
    + rewrite lookup_insert_eq. simpl in *. destruct (Z.leb_spec a now); unfold sane in *; lia.
  - simpl. assert (∀ b, <[k := b]> live !! key = live !! key) as Hi by (intros; by rewrite lookup_insert_ne).
    destruct (live !! k) as [b|]; [|simpl; rewrite Hi; lia].
    destruct (_ <=? _); [simpl; rewrite Hi; lia|]. destruct (_ <=? _); simpl; rewrite ?Hi; lia.
Qed.

Lemma allow_cases key now s :
  (by_store s = true ∧ rateLimitBuckets (allowAttempt key now s).1 = rateLimitBuckets s)
  ∨ (by_store s = false ∧ rateLimitBuckets (allowAttempt key now s).1 = (attempt key now (rateLimitBuckets s)).1
     ∧ (allowAttempt key now s).2 = (attempt key now (rateLimitBuckets s)).2).
Proof.
  destruct s as [[[|[r|] replies]|] m]; [right|left|right|right]; (split; [done|]); unfold allowAttempt; simpl; try done;
    by destruct (attempt key now m).
Qed.
Lemma room_run a key atts s :
  sane → Forall (λ x, a <= x.2 < a + Window l) atts → uncrowded atts s →
  let_through key atts s <= room a (rateLimitBuckets s !! key) + by_redis key atts s.
Proof.
  intros Hl Hf. revert s. induction Hf as [|[k now] atts Hn _ IH]; intros s Hu.
  - simpl. unfold room, sane in *. destruct (_ !! key); [case_match|]; lia.
  - cbn [uncrowded let_through by_redis snd] in *. destruct Hu as [Hs Hu]. specialize (IH _ Hu).
    pose proof (room_spent a key k now (rateLimitBuckets s) Hl Hs Hn) as Hr.
    destruct (allow_cases k now s) as [[-> Hb]|(-> & Hb & Ha)]; destruct (allowAttempt k now s) as [s' [ok d]]; simpl in *; rewrite Hb in IH.
    + lia.
    + rewrite <-Ha in Hr. simpl in Hr. lia.
Qed.

(** Attempts are counted from one. *)
Definition counted (m : gmap string loginRateLimitBucket) : Prop := ∀ k b, m !! k = Some b → 1 <= Attempts b.
Lemma drop_keys_some keys m k b : drop_keys keys m !! k = Some b → m !! k = Some b.
Proof.
  revert m. induction keys as [|k' keys IH]; intros m; simpl; [done|]. intros Hk.
  assert (delete k' m !! k = Some b) as Hd by (destruct (Nat.leb _ _); [done|by apply IH]).
  by apply lookup_delete_Some in Hd as [_ ?].
Qed.
Lemma compact_some now m k b : compactRateBuckets now m !! k = Some b → m !! k = Some b.
Proof.
  unfold compactRateBuckets. intros Hk. assert (filter (λ '(_, b), (BucketTTL l <? time_sub now (WindowStart b)) = false) m !! k
    = Some b) as Hf by (destruct (Nat.leb _ _); [done|by eapply drop_keys_some]).
  by apply map_lookup_filter_Some in Hf as [? _].
Qed.
Lemma attempt_counted key now m : counted m → counted (attempt key now m).1.
Proof.
  intros Hm. assert (counted (compactRateBuckets now m)) as Hc by (intros k b Hk; eapply Hm, compact_some, Hk).
  assert (∀ b, 1 <= Attempts b → counted (<[key := b]> (compactRateBuckets now m))) as Hi.
  { intros b Hb k b' [[_ <-]|[_ Hk]]%lookup_insert_Some; [done|by apply (Hc _ _ Hk)]. }
  unfold attempt. destruct (compactRateBuckets now m !! key) as [b|] eqn:Hb; [|by apply Hi]. apply Hc in Hb.
  destruct (_ <=? _); [by apply Hi|]. destruct (_ <=? _); [done|]. apply Hi. simpl. lia.
Qed.
Lemma serve_counted atts s : counted (rateLimitBuckets s) → counted (rateLimitBuckets (serve atts s)).
Proof.
  revert s. induction atts as [|[k now] atts IH]; intros s Hs; [done|]. apply IH.
  destruct (allow_cases k now s) as [[_ ->]|(_ & -> & _)]; [done|by apply attempt_counted].
Qed.
Lemma serve_no_store atts s : rateLimitStore s = None → rateLimitStore (serve atts s) = None.
Proof.
  revert s. induction atts as [|[k now] atts IH]; intros s Hs; [done|]. apply IH. unfold allowAttempt. rewrite Hs.
  by destruct (attempt k now (rateLimitBuckets s)).
Qed.
Lemma no_store_no_redis key atts s : rateLimitStore s = None → by_redis key atts s = 0.
Proof.
  revert s. induction atts as [|[k now] atts IH]; intros s Hs; [done|]. cbn [by_redis].
  pose proof (serve_no_store [(k, now)] s Hs) as Hs'. simpl in Hs'. destruct (allowAttempt k now s) as [s' [ok d]]. simpl in Hs'.
  unfold by_store. rewrite Hs. simpl. by rewrite IH.
Qed.

(** C38: A server never lets a client through more than twice its attempts on its own.  In
    any stretch of time as long as a window, wherever it starts and whatever went before
    (and even if the clock goes back), the server lets a client through at most twice the
    maximum, not counting the attempts Redis decided; without Redis these are all.  During
    the stretch the table must not be over its size, as else windows are thrown away. *)
Theorem rate_bounded key a before during s :
  sane → rateLimitBuckets s = ∅ →
  Forall (λ x, a <= x.2 < a + Window l) during → uncrowded during (serve before s) →
  let_through key during (serve before s) <= 2 * MaxAttempts l + by_redis key during (serve before s)
  ∧ (rateLimitStore s = None → by_redis key during (serve before s) = 0).
Proof.
  intros Hl Hm Hd Hu. split; [|by intros; apply no_store_no_redis, serve_no_store].
  assert (counted (rateLimitBuckets s)) as Hc by (rewrite Hm; by intros k b).
  apply (serve_counted before) in Hc. etrans; [by apply (room_run a)|].
  unfold room. destruct (_ !! key) as [b|] eqn:Hk; [apply Hc in Hk|]; unfold sane in Hl; [case_match|]; lia.
Qed.

(** The bucket of a client after the attempts of others. *)
Lemma others_leave key atts m :
  Forall (λ x, x.1 ≠ key) atts → (run atts m).1 !! key = None ∨ (run atts m).1 !! key = m !! key.
Proof.
  intros Hf. revert m. induction Hf as [|[k now] atts Hk _ IH]; intros m; [by right|]. rewrite attempts_cons.
  assert ((attempt k now m).1 !! key = None ∨ (attempt k now m).1 !! key = m !! key) as Ha.
  { assert (compactRateBuckets now m !! key = None ∨ compactRateBuckets now m !! key = m !! key) as Hc.
    { destruct (compactRateBuckets now m !! key) as [b|] eqn:E; [|by left]. right. by apply compact_some in E. }
    assert (∀ b, <[k := b]> (compactRateBuckets now m) !! key = compactRateBuckets now m !! key) as Hi
      by (intros; by rewrite lookup_insert_ne).
    unfold attempt. destruct (compactRateBuckets now m !! k); [|simpl; by rewrite Hi].
    destruct (_ <=? _); [simpl; by rewrite Hi|]. destruct (_ <=? _); simpl; by rewrite ?Hi. }
  cbn [fst]. destruct (IH (attempt k now m).1) as [-> | ->]; [by left|done].
Qed.

(** The wait a client is told is enough.  When an attempt is refused with a wait, the
    client's next attempt that comes no earlier is allowed, whatever other clients did
    in between; and the wait is at most a window, or a second. *)
Theorem retry_after_enough key now now' m d others :
  sane → (∀ b, m !! key = Some b → WindowStart b <= now) → (attempt key now m).2 = (false, d) →
  Forall (λ x, x.1 ≠ key) others → now + d <= now' →
  (attempt key now' (run others (attempt key now m).1).1).2 = (true, 0) ∧ d <= Z.max second (Window l).
Proof.
  intros Hl Hs Hr Ho Hn. pose proof (others_leave key others (attempt key now m).1 Ho) as Hk. revert Hr Hk.
  set (m' := (run others _).1). clearbody m'. unfold attempt at 1 2. destruct (compactRateBuckets now m !! key) as [b|] eqn:Hb; [|done].
  apply compact_some in Hb as Hm. specialize (Hs b Hm). rewrite sub_ge by (unfold sane in Hl; lia).
  destruct (Z.leb_spec (Window l) (now - WindowStart b)) as [|Hw]; [done|].
  destruct (_ <=? Attempts b); [|done]. cbn [fst snd]. intros [= <-] Hk.
  assert (time_sub now (WindowStart b) = now - WindowStart b) as Hsub
    by (unfold sane, time_sub, max_int64, min_int64 in *; lia).
  rewrite Hsub in Hn |- *. split; [|lia]. unfold attempt.
  destruct (compactRateBuckets now' m' !! key) as [b'|] eqn:Hb'; [|done]. apply compact_some in Hb'.
  assert (b' = b) as -> by (destruct Hk as [Hk|Hk]; congruence). rewrite sub_ge by (unfold sane in Hl; lia).
  destruct (Z.leb_spec (Window l) (now' - WindowStart b)); [done|lia].
Qed.
End limiter.

(** ** Examples *)

#[local] Existing Instance sorted_range.
#[local] Abbreviation ex_attempts n t := (repeat ("10.0.0.1", t) n).

(** Ten logins at the end of a minute and ten at the start of the next; Redis answers one
    of them, fails, and answers no more. *)
Lemma rate_bounded_witness :
  let during := ex_attempts 12 (59 * second) ++ ex_attempts 12 (61 * second) in
  let s := serve loginLimits [("10.0.0.1", 0)] (mkLimiter (Some [None; Some (true, 0); None]) ∅) in
  sane loginLimits
  ∧ let_through loginLimits "10.0.0.1" during s = 20 ∧ by_redis loginLimits "10.0.0.1" during s = 1
  ∧ let_through loginLimits "10.0.0.1" during s <= 20 + by_redis loginLimits "10.0.0.1" during s.
Proof.
  cbv zeta. split; [repeat split; vm_compute; congruence|]. split; [vm_compute; reflexivity|]. split; [vm_compute; reflexivity|].
  apply (rate_bounded loginLimits "10.0.0.1" (59 * second));
    [repeat split; vm_compute; congruence|done|apply (bool_decide_unpack _); vm_compute; exact I|].
  repeat (split; [apply Nat.leb_le; vm_compute; reflexivity|]). exact I.
Defined.

(** The eleventh login of a client within a minute waits for the rest of it. *)
Lemma retry_after_enough_witness :
  let m := (run loginLimits (ex_attempts 10 (2 * second)) ∅).1 in
  let refused := attempt loginLimits "10.0.0.1" (20 * second) m in
  refused.2 = (false, 42 * second)
  ∧ (attempt loginLimits "10.0.0.1" (62 * second) (run loginLimits [("10.0.0.2", 30 * second)] refused.1).1).2 = (true, 0).
Proof.
  cbv zeta. split; [vm_compute; reflexivity|].
  apply (retry_after_enough loginLimits "10.0.0.1" (20 * second) (62 * second) _ (42 * second));
    [repeat split; vm_compute; congruence| |vm_compute; reflexivity|repeat constructor; discriminate|vm_compute; discriminate].
  intros b Hb. vm_compute in Hb. injection Hb as <-. vm_compute. discriminate.
Defined.
