(* ===== verification/TenantScope.v ===== *)
(** * Who may see what in the administration (internal/http/router_middleware.go)

    A signed-in user works within the tenant of the account, whatever the request
    asks for, unless the user is a super admin; a building admin works within the
    buildings of the account and of the place-admin roles given to the user or the
    user's teams.  Every change leaves an audit entry. *)

From S2P Require Import Prelude GoStrings GoTime Bytes AuditLog AuthStore Wire Gateway CertRevocation Space Credential Event Alarm AccessData AccessState AccessUsers AccessGroups AccessGrants WalletData WalletState Wallet Server.
#[local] Open Scope string_scope.
#[local] Open Scope list_scope.
#[local] Open Scope Z_scope.

(** The user a bearer token stands for ([authenticatedUser]), if the request has one. *)
Abbreviation caller := (option AuthStore.User).

Definition role_of (user : AuthStore.User) : string := ToLower (TrimSpace (uRole user)).
Definition firstNonEmptyString (items : list string) : string :=
  match findi (λ x, negb (is_empty (TrimSpace x))) items with Some (_, x) => TrimSpace x | None => "" end.

Definition requireRoles (roles : list string) (who : caller) : handler AuthStore.User :=
  match who with
  | None => throw (HTTP 401 "invalid access token")
  | Some user =>
      fail_if (negb (existsb (λ r, let role := ToLower (TrimSpace r) in
                                   negb (is_empty role) && String.eqb role (role_of user)) roles))
        (HTTP 403 "forbidden");;
      mret user
  end.

Definition resolveTenantID (who : caller) (requestedTenantID : string) : handler string :=
  match who with
  | None => throw (HTTP 401 "invalid access token")
  | Some user =>
      let requested := TrimSpace requestedTenantID in
      if String.eqb (role_of user) "super_admin" then mret requested
      else
        let tokenTenantID := TrimSpace (uTenantID user) in
        fail_if (is_empty tokenTenantID) (HTTP 403 "forbidden");;
        fail_if (negb (is_empty requested) && negb (String.eqb requested tokenTenantID))
          (HTTP 403 "tenant scope forbidden");;
        mret tokenTenantID
  end.

(** ** Building scopes *)

Definition normalizeBuildingScope (buildingIDs : list string) : gset string :=
  list_to_set (filterb (λ b, negb (is_empty b)) (TrimSpace <$> buildingIDs)).

(** Whether a row that names a person by id and by e-mail means the user. *)
Definition same_person (user : AuthStore.User) (id email : string) : bool :=
  let userID := TrimSpace (uID user) in
  let userEmail := ToLower (TrimSpace (uEmail user)) in
  (negb (is_empty userID) && String.eqb (TrimSpace id) userID)
  || (negb (is_empty userEmail) && EqualFold (TrimSpace email) userEmail).

Definition teams_of (user : AuthStore.User) (tenantID : string) (s : server) : list string :=
  filterb (λ t, negb (is_empty t))
    ((λ m, TrimSpace (mbTeamID m)) <$>
       filterb (λ m, EqualFold (TrimSpace (mbMemberType m)) "User" && same_person user (mbMemberID m) (mbMemberEmail m))
         (ListTeamMemberships tenantID (accessSvc s))).
Definition gives_place (user : AuthStore.User) (teams : list string) (ra : RoleAssignment) : bool :=
  String.eqb (TrimSpace (raRoleID ra)) "role_place_admin" && EqualFold (TrimSpace (raAppliesToType ra)) "Place"
  && negb (is_empty (TrimSpace (raAppliesToID ra)))
  && (let assignee := ToLower (TrimSpace (raAssigneeType ra)) in
      if String.eqb assignee "user" then same_person user (raAssigneeID ra) (raAssigneeEmail ra)
      else if String.eqb assignee "team" then existsb (String.eqb (TrimSpace (raAssigneeID ra))) teams
      else false).
Definition buildingScopeFromRoleAssignments (user : AuthStore.User) (s : server) : gset string :=
  let tenantID := TrimSpace (uTenantID user) in
  if is_empty tenantID then ∅
  else list_to_set ((λ ra, TrimSpace (raAppliesToID ra)) <$>
         filterb (gives_place user (teams_of user tenantID s)) (ListRoleAssignments tenantID (accessSvc s))).

(** [None] is no restriction. *)
Definition buildingScopeForRequest (who : caller) : handler (option (gset string)) :=
  match who with
  | None => throw (HTTP 401 "invalid access token")
  | Some user =>
      if negb (String.eqb (role_of user) "building_admin") then mret None
      else
        scope ← gets (λ s, normalizeBuildingScope (uBuildingIDs user) ∪ buildingScopeFromRoleAssignments user s);
        fail_if (bool_decide (scope = ∅)) (HTTP 403 "building scope forbidden");;
        mret (Some scope)
  end.

Definition in_scope (scope : option (gset string)) (buildingID : string) : bool :=
  match scope with None => true | Some b => bool_decide (buildingID ∈ b) end.
Definition requireBuildingScope (scope : option (gset string)) (buildingID : string) : handler unit :=
  match scope with
  | None => mret tt
  | Some b =>
      let nextBuildingID := TrimSpace buildingID in
      fail_if (is_empty nextBuildingID || negb (bool_decide (nextBuildingID ∈ b))) (HTTP 403 "building scope forbidden")
  end.

(** The listings of a scope: a row per building it is in. *)
Definition filter_by {A} (building : A → string) (items : list A) (scope : gset string) : list A :=
  filterb (λ x, bool_decide (building x ∈ scope)) items.
Definition filterBuildingsByScope := filter_by bdID.
Definition filterFloorsByScope := filter_by flBuildingID.
Definition filterAreasByScope := filter_by arBuildingID.
Definition filterDoorsByScope := filter_by drBuildingID.
Definition filterGatewaysByScope := filter_by Gateway.BuildingID.
Definition filterPoliciesByScope := filter_by polBuildingID.
Definition filterTemporaryAccessByScope := filter_by taBuildingID.
Definition filterUsersByScope := filter_by usrBuildingID.
Definition filterUserGroupsByScope := filter_by grpBuildingID.
Definition filterVisitorPassesByScope := filter_by vpBuildingID.
Definition filterAccessEventsByScope := filter_by aeBuildingID.
Definition filterDeviceEventsByScope := filter_by deBuildingID.
Definition filterAlarmsByScope := filter_by alBuildingID.

Definition filterTopologyByBuildingScope (input : TenantTopology) (scope : gset string) : TenantTopology :=
  mkTopology (topTenantID input) (filterBuildingsByScope (topBuildings input) scope)
    (filterFloorsByScope (topFloors input) scope) (filterAreasByScope (topAreas input) scope)
    (filterDoorsByScope (topDoors input) scope).
Definition allowedDoorIDsByBuildingScope (doors : list Door) (scope : gset string) : gset string :=
  list_to_set (drID <$> filterDoorsByScope doors scope).
(** The doors of a group that are allowed; a group with none is left out. *)
Definition filterDoorGroupsByScope (items : list DoorGroup) (allowedDoorIDs : gset string) : list DoorGroup :=
  filterb (λ g, Nat.ltb 0 (length (Space.DoorIDs g)))
    ((λ g, g <| Space.DoorIDs ::= filterb (λ d, bool_decide (d ∈ allowedDoorIDs)) |>) <$> items).

Definition scoped {A} (filtered : A → gset string → A) (scope : option (gset string)) (items : A) : A :=
  match scope with Some b => filtered items b | None => items end.

(** ** The audit trail *)

Section audit.
Context {MC : Mac}.

(** A failure is ignored; an entry that is kept is announced on the bus. *)
Definition appendAuditLog (env : Env) (who : caller) (tenantID action target source : string) : handler unit := λ s,
  let nextTenantID := TrimSpace tenantID in
  if is_empty nextTenantID then (s, Ok tt)
  else
    let field (get : AuthStore.User → string) :=
      match who with Some u => if is_empty (TrimSpace (get u)) then "system" else TrimSpace (get u) | None => "system" end in
    let '(a, r) := AuditLog.Append nextTenantID (field uEmail) (field uRole) (TrimSpace action) (TrimSpace target)
                     (TrimSpace source) env (auditSvc s) in
    let s := s <| auditSvc := a |> in
    (match r with
     | Ok record => if busEnabled s then s <| announced ::= cons ("audit.log.appended", record) |> else s
     | Err _ => s
     end, Ok tt).
End audit.
