(* ===== verification/SpaceRoutes.v ===== *)
(** * The building endpoints (internal/http/routes_tenant_space.go)

    Buildings, floors, areas, doors and door groups behind the checks of
    [TenantScope]: each request passes its roles, is put into a tenant and into the
    caller's buildings, and then calls the service of [Space]. *)

From S2P Require Import Prelude GoStrings GoTime Bytes AuditLog AuthStore Wire Gateway CertRevocation Credential Event AccessData AccessState WalletData WalletState Wallet Server TenantScope Space.
#[local] Open Scope string_scope.
#[local] Open Scope list_scope.
#[local] Open Scope Z_scope.

(** ** Errors *)

(** [err.Error()]; the texts of the random source and of the store are not the program's. *)
Definition space_text (e : space_err) : string :=
  match e with
  | ErrTenantIDRequired => "tenant_id is required" | ErrBuildingIDRequired => "building_id is required"
  | ErrBuildingNameRequired => "building name is required" | ErrBuildingNotFound => "building not found"
  | ErrFloorIDRequired => "floor_id is required" | ErrFloorNameRequired => "floor name is required"
  | ErrFloorNotFound => "floor not found" | ErrAreaIDRequired => "area_id is required"
  | ErrAreaNameRequired => "area name is required" | ErrAreaNotFound => "area not found"
  | ErrDoorNameRequired => "door name is required" | ErrDoorGroupNameRequired => "door group name is required"
  | ErrDoorGroupNotFound => "door group not found" | ErrDoorNotFound => "door not found"
  | ErrFloorBuildingMismatch => "floor does not belong to the building"
  | ErrAreaFloorMismatch => "area does not belong to the floor"
  | ErrTenantOwnershipMismatch => "tenant ownership mismatch in topology"
  | ErrInvalidDoorKind => "invalid door kind" | ErrInvalidDoorStatus => "invalid door status"
  | Space.ErrRandom | Space.ErrSave => ""
  end.
Definition handleSpaceMutationError (e : space_err) : http_err :=
  HTTP (match e with
        | ErrTenantIDRequired | ErrBuildingIDRequired | ErrBuildingNameRequired | ErrFloorNameRequired | ErrFloorIDRequired
        | ErrAreaIDRequired | ErrAreaNameRequired | ErrDoorNameRequired | ErrFloorBuildingMismatch | ErrAreaFloorMismatch
        | ErrInvalidDoorKind | ErrInvalidDoorStatus => 400
        | ErrTenantOwnershipMismatch => 409
        | ErrBuildingNotFound | ErrFloorNotFound | ErrAreaNotFound | ErrDoorNotFound => 404
        | _ => 500
        end) (space_text e).
(** The mappings written out in the handlers. *)
Definition topology_error (e : space_err) : http_err :=
  HTTP (match e with ErrTenantIDRequired => 400 | _ => 500 end) (space_text e).
Definition building_error (e : space_err) : http_err :=
  HTTP (match e with ErrTenantIDRequired | ErrBuildingNameRequired => 400 | _ => 500 end) (space_text e).
Definition floor_error (e : space_err) : http_err :=
  HTTP (match e with
        | ErrTenantIDRequired | ErrBuildingIDRequired | ErrFloorNameRequired => 400
        | ErrTenantOwnershipMismatch => 409 | ErrBuildingNotFound => 404 | _ => 500
        end) (space_text e).
Definition area_error (e : space_err) : http_err :=
  HTTP (match e with
        | ErrTenantIDRequired | ErrBuildingIDRequired | ErrFloorIDRequired | ErrAreaNameRequired | ErrFloorBuildingMismatch => 400
        | ErrTenantOwnershipMismatch => 409 | ErrBuildingNotFound | ErrFloorNotFound => 404 | _ => 500
        end) (space_text e).
Definition door_error (e : space_err) : http_err :=
  HTTP (match e with
        | ErrTenantIDRequired | ErrBuildingIDRequired | ErrFloorIDRequired | ErrAreaIDRequired | ErrDoorNameRequired
        | ErrFloorBuildingMismatch | ErrAreaFloorMismatch | ErrInvalidDoorKind | ErrInvalidDoorStatus => 400
        | ErrTenantOwnershipMismatch => 409 | ErrBuildingNotFound | ErrFloorNotFound | ErrAreaNotFound => 404 | _ => 500
        end) (space_text e).
Definition group_error (e : space_err) : http_err :=
  HTTP (match e with
        | ErrTenantIDRequired | ErrDoorGroupNameRequired => 400 | ErrTenantOwnershipMismatch => 409
        | ErrDoorNotFound => 404 | _ => 500
        end) (space_text e).

(** A call of the service whose error is answered. *)
Definition space_call {A} (onerr : space_err → http_err) (f : op Space.Service space_err A) : handler A := λ s,
  let '(sp, r) := f (spaceSvc s) in
  (s <| spaceSvc := sp |>, match r with Ok a => Ok a | Err e => Err (onerr e) end).

(** ** Audit targets *)

Definition buildingAuditTarget (b : Building) : string :=
  "building_id=" +:+ bdID b +:+ ",name=" +:+ bdName b +:+ ",region=" +:+ Region b +:+ ",status=" +:+ bdStatus b.
Definition floor_target (f : Floor) : string :=
  "floor_id=" +:+ flID f +:+ ",building_id=" +:+ flBuildingID f +:+ ",name=" +:+ flName f.
Definition area_target (a : Area) : string :=
  "area_id=" +:+ arID a +:+ ",building_id=" +:+ arBuildingID a +:+ ",floor_id=" +:+ arFloorID a +:+ ",name=" +:+ arName a.
Definition doorAuditTarget (d : Door) : string :=
  "door_id=" +:+ drID d +:+ ",building_id=" +:+ drBuildingID d +:+ ",floor_id=" +:+ drFloorID d +:+ ",area_id="
  +:+ drAreaID d +:+ ",name=" +:+ drName d +:+ ",gateway_id=" +:+ drGatewayID d +:+ ",kind=" +:+ Kind d
  +:+ ",status=" +:+ drStatus d.
Definition doorGroupAuditTarget (g : DoorGroup) : string :=
  "door_group_id=" +:+ dgID g +:+ ",name=" +:+ dgName g +:+ ",door_ids=" +:+ String.concat "|" (Space.DoorIDs g).

(** ** Requests *)

Inductive request :=
| GetTopologyRq (tenantID : string)
| ListBuildingsRq (tenantID : string)
| CreateBuildingRq (queryTenantID tenantID name address region : string)
| ListFloorsRq (tenantID placeID : string)
| CreateFloorRq (tenantID buildingID placeID name : string)
| GetFloorRq (tenantID floorID : string)
| UpdateFloorRq (queryTenantID tenantID floorID buildingID placeID name : string)
| DeleteFloorRq (tenantID floorID : string)
| ListAreasRq (tenantID placeID : string)
| CreateAreaRq (tenantID buildingID floorID name : string)
| GetAreaRq (tenantID areaID : string)
| UpdateAreaRq (queryTenantID tenantID areaID buildingID placeID floorID name : string)
| ListDoorsRq (tenantID : string)
| CreateDoorRq (input : DoorInput) (mode state : string)
| ListDoorGroupsRq (tenantID : string)
| CreateDoorGroupRq (tenantID name : string) (doorIDs : list string).
Inductive reply :=
| RTopology (t : TenantTopology) | RBuildings (l : list Building) | RBuilding (b : Building)
| RFloors (l : list Floor) | RFloor (f : Floor) | RAreas (l : list Area) | RArea (a : Area)
| RDoors (l : list Door) | RDoor (d : Door) | RDoorGroups (l : list DoorGroup) | RDoorGroup (g : DoorGroup) | RNoContent.

(** The roles each route asks for. *)
Definition roles_of (r : request) : list string :=
  match r with
  | CreateBuildingRq _ _ _ _ _ => ["super_admin"; "tenant_admin"]
  | CreateFloorRq _ _ _ _ | UpdateFloorRq _ _ _ _ _ _ | DeleteFloorRq _ _ | CreateAreaRq _ _ _ _
  | UpdateAreaRq _ _ _ _ _ _ _ | CreateDoorRq _ _ _ | CreateDoorGroupRq _ _ _ =>
      ["super_admin"; "tenant_admin"; "building_admin"]
  | _ => ["super_admin"; "tenant_admin"; "operator"; "building_admin"]
  end.

(** ** The handlers *)

Section handlers.
Context {MC : Mac} (env : Env) (who : caller).

(** Tenant and buildings of a request. *)
Definition place_request (tenantID : string) : handler (string * option (gset string)) :=
  t ← resolveTenantID who tenantID; scope ← buildingScopeForRequest who; mret (t, scope).
(** A listing narrowed to one building when the query names one. *)
Definition at_place {A} (building : A → string) (placeID : string) (items : list A) : list A :=
  if is_empty (TrimSpace placeID) then items else filter_by building items {[TrimSpace placeID]}.

Definition getTenantTopology (tenantID : string) : handler TenantTopology :=
  '(t, scope) ← place_request tenantID;
  topology ← space_call topology_error (TopologyByTenant t);
  mret (scoped filterTopologyByBuildingScope scope topology).

Definition listBuildings (tenantID : string) : handler (list Building) :=
  '(t, scope) ← place_request tenantID;
  items ← gets (λ s, ListBuildings t (spaceSvc s));
  mret (scoped filterBuildingsByScope scope items).
Definition createBuilding (queryTenantID tenantID name address region : string) : handler Building :=
  t ← resolveTenantID who (if is_empty (TrimSpace tenantID) then queryTenantID else tenantID);
  created ← space_call building_error (CreateBuilding env t name address region);
  appendAuditLog env who t "legacy_building_created" (buildingAuditTarget created) "space";;
  mret created.

Definition listFloors (tenantID placeID : string) : handler (list Floor) :=
  '(t, scope) ← place_request tenantID;
  items ← gets (λ s, ListFloors t (spaceSvc s));
  mret (at_place flBuildingID placeID (scoped filterFloorsByScope scope items)).
Definition createFloor (tenantID buildingID placeID name : string) : handler Floor :=
  '(t, scope) ← place_request tenantID;
  let buildingID := if is_empty (TrimSpace buildingID) then placeID else buildingID in
  requireBuildingScope scope buildingID;;
  created ← space_call floor_error (CreateFloor env t buildingID name);
  appendAuditLog env who t "legacy_floor_created" (floor_target created) "space";;
  mret created.
Definition getFloor (tenantID floorID : string) : handler Floor :=
  '(t, scope) ← place_request tenantID;
  record ← space_call handleSpaceMutationError (GetFloor t floorID);
  requireBuildingScope scope (flBuildingID record);;
  mret record.
Definition updateFloor (queryTenantID tenantID floorID buildingID placeID name : string) : handler Floor :=
  '(t, scope) ← place_request (firstNonEmptyString [tenantID; queryTenantID]);
  current ← space_call handleSpaceMutationError (GetFloor t floorID);
  requireBuildingScope scope (flBuildingID current);;
  let buildingID := firstNonEmptyString [placeID; buildingID; flBuildingID current] in
  requireBuildingScope scope buildingID;;
  updated ← space_call handleSpaceMutationError
              (UpdateFloor env t floorID buildingID (firstNonEmptyString [name; flName current]));
  appendAuditLog env who t "legacy_floor_updated" (floor_target updated) "space";;
  mret updated.
Definition deleteFloor (tenantID floorID : string) : handler unit :=
  '(t, scope) ← place_request tenantID;
  current ← space_call handleSpaceMutationError (GetFloor t floorID);
  requireBuildingScope scope (flBuildingID current);;
  space_call handleSpaceMutationError (DeleteFloor env t floorID);;
  appendAuditLog env who t "legacy_floor_deleted" (floor_target current) "space".

Definition listAreas (tenantID placeID : string) : handler (list Area) :=
  '(t, scope) ← place_request tenantID;
  items ← gets (λ s, ListAreas t (spaceSvc s));
  mret (at_place arBuildingID placeID (scoped filterAreasByScope scope items)).
Definition createArea (tenantID buildingID floorID name : string) : handler Area :=
  '(t, scope) ← place_request tenantID;
  requireBuildingScope scope buildingID;;
  created ← space_call area_error (CreateArea env t buildingID floorID name);
  appendAuditLog env who t "legacy_area_created" (area_target created) "space";;
  mret created.
Definition getArea (tenantID areaID : string) : handler Area :=
  '(t, scope) ← place_request tenantID;
  record ← space_call handleSpaceMutationError (GetArea t areaID);
  requireBuildingScope scope (arBuildingID record);;
  mret record.
Definition updateArea (queryTenantID tenantID areaID buildingID placeID floorID name : string) : handler Area :=
  '(t, scope) ← place_request (firstNonEmptyString [tenantID; queryTenantID]);
  current ← space_call handleSpaceMutationError (GetArea t areaID);
  requireBuildingScope scope (arBuildingID current);;
  let buildingID := firstNonEmptyString [placeID; buildingID; arBuildingID current] in
  requireBuildingScope scope buildingID;;
  updated ← space_call handleSpaceMutationError
              (UpdateArea env t areaID buildingID (firstNonEmptyString [floorID; arFloorID current])
                 (firstNonEmptyString [name; arName current]));
  appendAuditLog env who t "legacy_area_updated" (area_target updated) "space";;
  mret updated.

Definition listDoors (tenantID : string) : handler (list Door) :=
  '(t, scope) ← place_request tenantID;
  items ← gets (λ s, ListDoors t (spaceSvc s));
  mret (scoped filterDoorsByScope scope items).
(** [mode] and [state] stand in for an empty kind and status. *)
Definition createDoor (input : DoorInput) (mode state : string) : handler Door :=
  '(t, scope) ← place_request (diTenantID input);
  requireBuildingScope scope (diBuildingID input);;
  created ← space_call door_error (CreateDoor env
    (mkDoorInput t (diBuildingID input) (diFloorID input) (diAreaID input) (diName input) (diGatewayID input)
       (if is_empty (diKind input) then mode else diKind input)
       (if is_empty (diStatus input) then state else diStatus input)));
  appendAuditLog env who t "legacy_door_created" (doorAuditTarget created) "space";;
  mret created.

Definition listDoorGroups (tenantID : string) : handler (list DoorGroup) :=
  '(t, scope) ← place_request tenantID;
  items ← gets (λ s, ListDoorGroups t (spaceSvc s));
  doors ← gets (λ s, ListDoors t (spaceSvc s));
  mret (scoped (λ items b, filterDoorGroupsByScope items (allowedDoorIDsByBuildingScope doors b)) scope items).
Definition createDoorGroup (tenantID name : string) (doorIDs : list string) : handler DoorGroup :=
  '(t, scope) ← place_request tenantID;
  doors ← gets (λ s, ListDoors t (spaceSvc s));
  fail_if (match scope with
           | None => false
           | Some b => existsb (λ d, negb (is_empty (TrimSpace d))
                                     && negb (bool_decide (TrimSpace d ∈ allowedDoorIDsByBuildingScope doors b))) doorIDs
           end) (HTTP 403 "building scope forbidden");;
  created ← space_call group_error (CreateDoorGroup env t name doorIDs);
  appendAuditLog env who t "legacy_door_group_created" (doorGroupAuditTarget created) "space";;
  mret created.

(** A request behind the check of its roles. *)
Definition replied {A} (f : A → reply) (m : handler A) : handler reply := x ← m; mret (f x).
Definition handle (r : request) : handler reply :=
  requireRoles (roles_of r) who;;
  match r with
  | GetTopologyRq t => replied RTopology (getTenantTopology t)
  | ListBuildingsRq t => replied RBuildings (listBuildings t)
  | CreateBuildingRq q t name address region => replied RBuilding (createBuilding q t name address region)
  | ListFloorsRq t p => replied RFloors (listFloors t p)
  | CreateFloorRq t b p name => replied RFloor (createFloor t b p name)
  | GetFloorRq t id => replied RFloor (getFloor t id)
  | UpdateFloorRq q t id b p name => replied RFloor (updateFloor q t id b p name)
  | DeleteFloorRq t id => replied (λ _, RNoContent) (deleteFloor t id)
  | ListAreasRq t p => replied RAreas (listAreas t p)
  | CreateAreaRq t b f name => replied RArea (createArea t b f name)
  | GetAreaRq t id => replied RArea (getArea t id)
  | UpdateAreaRq q t id b p f name => replied RArea (updateArea q t id b p f name)
  | ListDoorsRq t => replied RDoors (listDoors t)
  | CreateDoorRq i mode state => replied RDoor (createDoor i mode state)
  | ListDoorGroupsRq t => replied RDoorGroups (listDoorGroups t)
  | CreateDoorGroupRq t name ids => replied RDoorGroup (createDoorGroup t name ids)
  end.
End handlers.
