(* ===== verification/SpaceTenancy.v ===== *)
(** * Tenants and buildings are kept apart

    What the endpoints of [SpaceRoutes] leave alone and show: the rows of other
    tenants, and for a building admin the rows of other buildings. *)

From S2P Require Import Prelude GoStrings GoTime Bytes AuditLog AuthStore Wire Gateway CertRevocation Credential Event AccessData AccessState WalletData WalletState Wallet Server Verify TenantScope Space SpaceRoutes.
#[local] Open Scope string_scope.
#[local] Open Scope list_scope.
#[local] Open Scope Z_scope.

(** ** Lists of which only other rows change *)

Section lists.
Context {A : Type} (p : A → bool).

Lemma filterb_put l i x y : l !! i = Some x → p x = false → p y = false → filterb p (<[i := y]> l) = filterb p l.
Proof.
  revert i. induction l as [|a l IH]; intros [|i] Hi Hx Hy; simpl in *; simplify_eq; [by rewrite Hx, Hy|].
  change (<[S i := y]> (a :: l)) with (a :: <[i := y]> l). simpl. by rewrite (IH i).
Qed.
Lemma filterb_delete l i x : l !! i = Some x → p x = false → filterb p (delete i l) = filterb p l.
Proof.
  revert i. induction l as [|a l IH]; intros [|i] Hi Hx; simpl in *; simplify_eq; [by rewrite Hx|].
  by rewrite (IH i).
Qed.
Lemma filterb_map (g : A → A) l : (∀ x, x ∈ l → g x = x ∨ p x = false ∧ p (g x) = false) → filterb p (g <$> l) = filterb p l.
Proof.
  induction l as [|a l IH]; intros H; [done|]. csimpl.
  rewrite IH by (intros x Hx; apply H; by right).
  destruct (H a) as [->|[-> ->]]; [left|done|done].
Qed.
Lemma filterb_drop (q : A → bool) l : (∀ x, x ∈ l → q x = true ∨ p x = false) → filterb p (filterb q l) = filterb p l.
Proof.
  induction l as [|a l IH]; intros H; [done|]. simpl.
  rewrite <- IH by (intros x Hx; apply H; by right).
  destruct (H a) as [Hq|Hp]; [left|by rewrite Hq|]. by destruct (q a); simpl; rewrite ?Hp.
Qed.
End lists.

(** ** What a call of the service spares *)

(** The rows that are not inside: a row is in a tenant and a building. *)
Section spared.
Context (inside : string → string → bool).

Record Spared (t t' : Tables) : Prop := {
  spared_floors : let out f := negb (inside (flTenantID f) (flBuildingID f)) in filterb out (floors t') = filterb out (floors t);
  spared_areas : let out a := negb (inside (arTenantID a) (arBuildingID a)) in filterb out (areas t') = filterb out (areas t);
  spared_doors : let out d := negb (inside (drTenantID d) (drBuildingID d)) in filterb out (doors t') = filterb out (doors t)
}.
Lemma spared_refl t : Spared t t.
Proof. by split. Qed.
Lemma spared_trans t1 t2 t3 : Spared t1 t2 → Spared t2 t3 → Spared t1 t3.
Proof. intros [] []. split; simpl in *; congruence. Qed.

Context (t : Tables) (Ht : Topology t).

(** By the topology, what hangs on a floor or an area is in its tenant and building. *)
Lemma area_of_floor a f : a ∈ areas t → f ∈ floors t → arFloorID a = flID f →
  arTenantID a = flTenantID f ∧ arBuildingID a = flBuildingID f.
Proof.
  intros Ha Hf He. destruct (top_area t Ht a Ha) as (f' & Hf' & Hid & Htn & Hb).
  assert (f' = f) as -> by (eapply (ids_inj flID); [apply top_floor_ids, Ht|done|done|congruence]). done.
Qed.
Lemma door_of_area d a : d ∈ doors t → a ∈ areas t → drAreaID d = arID a →
  drTenantID d = arTenantID a ∧ drBuildingID d = arBuildingID a ∧ drFloorID d = arFloorID a.
Proof.
  intros Hd Ha He. destruct (top_door t Ht d Hd) as (a' & Ha' & Hid & Htn & Hb & Hf).
  assert (a' = a) as -> by (eapply (ids_inj arID); [apply top_area_ids, Ht|done|done|congruence]). done.
Qed.
Lemma door_of_floor d f : d ∈ doors t → f ∈ floors t → drFloorID d = flID f →
  drTenantID d = flTenantID f ∧ drBuildingID d = flBuildingID f.
Proof.
  intros Hd Hf He. destruct (top_door t Ht d Hd) as (a & Ha & _ & Htn & Hb & Hfl).
  destruct (area_of_floor a f Ha Hf) as [? ?]; [congruence|]. split; congruence.
Qed.

Lemma spares_floor r : inside (flTenantID r) (flBuildingID r) = true → Spared t (t <| floors ::= cons r |>).
Proof. intros Hr. split; simpl; rewrite ?Hr; done. Qed.
Lemma spares_area r : inside (arTenantID r) (arBuildingID r) = true → Spared t (t <| areas ::= cons r |>).
Proof. intros Hr. split; simpl; rewrite ?Hr; done. Qed.
Lemma spares_door r : inside (drTenantID r) (drBuildingID r) = true → Spared t (t <| doors ::= cons r |>).
Proof. intros Hr. split; simpl; rewrite ?Hr; done. Qed.

Lemma spares_move_floor i f f' :
  floors t !! i = Some f → flTenantID f' = flTenantID f →
  inside (flTenantID f) (flBuildingID f) = true → inside (flTenantID f) (flBuildingID f') = true →
  Spared t (move_floor i f f' t).
Proof.
  intros Hi Htn Hin Hin'. assert (f ∈ floors t) as Hf by by eapply list_elem_of_lookup_2.
  assert (filterb (λ f, negb (inside (flTenantID f) (flBuildingID f))) (<[i := f']> (floors t))
          = filterb (λ f, negb (inside (flTenantID f) (flBuildingID f))) (floors t)) as Hfl
    by (eapply filterb_put; [done|by rewrite Hin|by rewrite Htn, Hin']).
  unfold move_floor. destruct (String.eqb _ _); split; simpl; try done.
  - apply filterb_map. intros a Ha. destruct (String.eqb_spec (arFloorID a) (flID f)) as [E|]; [right|by left].
    destruct (area_of_floor a f Ha Hf E) as [-> ->]. simpl. by rewrite Hin, Hin'.
  - apply filterb_map. intros d Hd. destruct (String.eqb_spec (drFloorID d) (flID f)) as [E|]; [right|by left].
    destruct (door_of_floor d f Hd Hf E) as [-> ->]. simpl. by rewrite Hin, Hin'.
Qed.
Lemma spares_drop_floor i f :
  floors t !! i = Some f → inside (flTenantID f) (flBuildingID f) = true → Spared t (drop_floor i (flID f) t).
Proof.
  intros Hi Hin. assert (f ∈ floors t) as Hf by by eapply list_elem_of_lookup_2. unfold drop_floor. split; simpl.
  - eapply filterb_delete; [done|by rewrite Hin].
  - apply filterb_drop. intros a Ha. destruct (String.eqb_spec (arFloorID a) (flID f)) as [E|]; [right|by left].
    destruct (area_of_floor a f Ha Hf E) as [-> ->]. by rewrite Hin.
  - apply filterb_drop. intros d Hd. destruct (String.eqb_spec (drFloorID d) (flID f)) as [E|]; [right|by left].
    destruct (door_of_floor d f Hd Hf E) as [-> ->]. by rewrite Hin.
Qed.
Lemma spares_move_area i a a' :
  areas t !! i = Some a → arTenantID a' = arTenantID a →
  inside (arTenantID a) (arBuildingID a) = true → inside (arTenantID a) (arBuildingID a') = true →
  Spared t (move_area i a a' t).
Proof.
  intros Hi Htn Hin Hin'. assert (a ∈ areas t) as Ha by by eapply list_elem_of_lookup_2.
  assert (filterb (λ a, negb (inside (arTenantID a) (arBuildingID a))) (<[i := a']> (areas t))
          = filterb (λ a, negb (inside (arTenantID a) (arBuildingID a))) (areas t)) as Har
    by (eapply filterb_put; [done|by rewrite Hin|by rewrite Htn, Hin']).
  unfold move_area. destruct (_ && _); split; simpl; try done.
  apply filterb_map. intros d Hd. destruct (String.eqb_spec (drAreaID d) (arID a)) as [E|]; [right|by left].
  destruct (door_of_area d a Hd Ha E) as (-> & -> & _). simpl. by rewrite Hin, Hin'.
Qed.
End spared.

(** ** What a request does *)

(** The effect of a request in a tenant, by a caller with a scope, on the tables. *)
Section effect.
Context (tn : string) (scope : option (gset string)) (t : Tables).
Let inside (b : string) : Prop := in_scope scope (TrimSpace b) = true.

Inductive effect : Tables → Prop :=
| no_effect : effect t
| adds_building r : bdTenantID r = tn → scope = None → effect (t <| buildings ::= cons r |>)
| adds_floor r : flTenantID r = tn → inside (flBuildingID r) → effect (t <| floors ::= cons r |>)
| moves_floor i f f' :
    floors t !! i = Some f → flTenantID f = tn → flTenantID f' = tn → inside (flBuildingID f) → inside (flBuildingID f') →
    effect (move_floor i f f' t)
| drops_floor i f :
    floors t !! i = Some f → flTenantID f = tn → inside (flBuildingID f) → effect (drop_floor i (flID f) t)
| adds_area r : arTenantID r = tn → inside (arBuildingID r) → effect (t <| areas ::= cons r |>)
| moves_area i a a' :
    areas t !! i = Some a → arTenantID a = tn → arTenantID a' = tn → inside (arBuildingID a) → inside (arBuildingID a') →
    effect (move_area i a a' t)
| adds_door r : drTenantID r = tn → inside (drBuildingID r) → effect (t <| doors ::= cons r |>)
| adds_group r :
    dgTenantID r = tn → Forall (λ id, scope = None ∨ ∃ d, d ∈ doors t ∧ drID d = id ∧ inside (drBuildingID d)) (DoorIDs r) →
    effect (t <| doorGroups ::= cons r |>).
End effect.

#[local] Hint Rewrite @exec_need @exec_own @exec_change @exec_check_building @exec_check_floor @exec_check_area
  @exec_bind_bind @exec_ret_bind : exec_rw.

Lemma saved_tables {A} env (x : A) s :
  tables (exec (Prelude.persistLocked (E:=space_err) env;; mret x) s) = tables s.
Proof. unfold exec. rewrite bind_op_eq. unfold Prelude.persistLocked. by destruct (store env). Qed.
Lemma saved_tables' env s : tables (exec (Prelude.persistLocked (E:=space_err) env) s) = tables s.
Proof. unfold exec, Prelude.persistLocked. by destruct (store env). Qed.

Lemma exec_bind_eq {S E A B} (m : op S E A) (f : A → op S E B) s :
  exec (m ≫= f) s = match m s with (s1, Ok a) => exec (f a) s1 | (s1, Err _) => s1 end.
Proof. unfold exec. rewrite bind_op_eq. by destruct (m s) as [s1 [a|e]]. Qed.

(** Run a call of the service down to the tables it leaves. *)
Ltac effect_run :=
  cbv zeta;
  repeat first
    [ apply no_effect
    | progress exec_run
    | rewrite saved_tables
    | rewrite saved_tables'
    | match goal with
      | |- effect _ _ _ (tables (match ?x with _ => _ end)) => destruct x eqn:?
      | |- effect _ _ _ (tables (exec (match ?x with _ => _ end) _)) => destruct x eqn:?
      end ].

Section calls.
Context (env : Env) (scope : option (gset string)) (s : Space.Service).
Abbreviation leaves tenant m := (effect (TrimSpace tenant) scope (tables s) (tables (exec m s))).

Lemma create_building_effect tn name address region : scope = None → leaves tn (CreateBuilding env tn name address region).
Proof. intros Hs. unfold CreateBuilding. effect_run. by apply adds_building. Qed.
Lemma create_floor_effect tn b name : in_scope scope (TrimSpace b) = true → leaves tn (CreateFloor env tn b name).
Proof.
  intros Hb. unfold CreateFloor, CreateFloor_check, CreateFloor_insert. effect_run.
  apply adds_floor; [done|]. simpl. by rewrite TrimSpace_idem.
Qed.
Lemma update_floor_effect tn id b name :
  (∀ i f, findFloorLocked (TrimSpace id) (tables s) = Some (i, f) → flTenantID f = TrimSpace tn →
     in_scope scope (TrimSpace (flBuildingID f)) = true) →
  in_scope scope (TrimSpace b) = true → leaves tn (UpdateFloor env tn id b name).
Proof.
  intros Hf Hb. unfold UpdateFloor. effect_run. simpl in *. boolp.
  match goal with H : findFloorLocked _ _ = Some (?i, ?f) |- _ => pose proof (Hf _ _ eq_refl); apply findi_lookup in H end.
  apply moves_floor; simpl; auto. by rewrite TrimSpace_idem.
Qed.
Lemma delete_floor_effect tn id :
  (∀ i f, findFloorLocked (TrimSpace id) (tables s) = Some (i, f) → flTenantID f = TrimSpace tn →
     in_scope scope (TrimSpace (flBuildingID f)) = true) →
  leaves tn (DeleteFloor env tn id).
Proof.
  intros Hf. unfold DeleteFloor. effect_run. simpl in *. boolp.
  match goal with H : findFloorLocked _ _ = Some (?i, ?f) |- _ => pose proof (Hf _ _ eq_refl); apply own_floor in H as [Hi <-] end.
  apply drops_floor; auto.
Qed.
Lemma create_area_effect tn b f name : in_scope scope (TrimSpace b) = true → leaves tn (CreateArea env tn b f name).
Proof.
  intros Hb. unfold CreateArea, CreateArea_check, CreateArea_insert. effect_run.
  apply adds_area; [done|]. simpl. by rewrite TrimSpace_idem.
Qed.
Lemma update_area_effect tn id b f name :
  (∀ i a, findAreaLocked (TrimSpace id) (tables s) = Some (i, a) → arTenantID a = TrimSpace tn →
     in_scope scope (TrimSpace (arBuildingID a)) = true) →
  in_scope scope (TrimSpace b) = true → leaves tn (UpdateArea env tn id b f name).
Proof.
  intros Ha Hb. unfold UpdateArea. effect_run. simpl in *. boolp.
  match goal with H : findAreaLocked _ _ = Some (?i, ?a) |- _ => pose proof (Ha _ _ eq_refl); apply findi_lookup in H end.
  apply moves_area; simpl; auto. by rewrite TrimSpace_idem.
Qed.
Lemma create_door_effect i : in_scope scope (TrimSpace (diBuildingID i)) = true → leaves (diTenantID i) (CreateDoor env i).
Proof.
  intros Hb. unfold CreateDoor, CreateDoor_check, CreateDoor_insert, door_fields. effect_run.
  apply adds_door; [done|]. simpl. by rewrite TrimSpace_idem.
Qed.
Lemma check_doors_given tn seen ids l s0 s' :
  check_doors tn seen ids s0 = (s', Ok l) → ∀ id, id ∈ l → id ≠ "" ∧ id ∈ (TrimSpace <$> ids).
Proof.
  revert seen l s'. induction ids as [|raw ids IH]; intros seen l s'; simpl; [intros [= <- <-] id []%not_elem_of_nil|].
  destruct (is_empty (TrimSpace raw)) eqn:Hne; simpl; [intros H id Hid; destruct (IH _ _ _ H id Hid); split; [done|by right]|].
  destruct (existsb _ seen); [intros H id Hid; destruct (IH _ _ _ H id Hid); split; [done|by right]|].
  rewrite bind_op_eq. simpl. destruct (findDoorLocked _ _) as [[i d]|]; [|done]. rewrite fail_if_bind. destruct (negb _); [done|].
  intros (s1 & rest & H1 & [= <- <-])%bind_ok id [->|Hid]%elem_of_cons.
  - apply is_empty_false in Hne. split; [done|by left].
  - destruct (IH _ _ _ H1 id Hid); split; [done|by right].
Qed.
Lemma create_group_effect tn name ids :
  (∀ id, id ∈ ids → TrimSpace id ≠ "" →
     scope = None ∨ ∃ d, d ∈ doors (tables s) ∧ drID d = TrimSpace id ∧ in_scope scope (TrimSpace (drBuildingID d)) = true) →
  leaves tn (CreateDoorGroup env tn name ids).
Proof.
  intros Hids. unfold CreateDoorGroup, CreateDoorGroup_check, CreateDoorGroup_insert. effect_run.
  rewrite exec_bind_eq. destruct (check_doors_at (TrimSpace tn) [] ids s) as (r & Hr & _). rewrite Hr.
  destruct r as [l|e]; effect_run. apply adds_group; [done|]. apply Forall_forall. simpl. intros id Hid.
  destruct (check_doors_given _ _ _ _ _ _ Hr id Hid) as [Hne (raw & -> & Hraw)%list_elem_of_fmap]. by apply Hids.
Qed.
End calls.

(** ** What a handler runs *)

(** The tenant and the buildings of a user. *)
Definition tenant_for (u : AuthStore.User) (requested tn : string) : Prop :=
  if String.eqb (role_of u) "super_admin" then tn = TrimSpace requested
  else tn = TrimSpace (uTenantID u) ∧ tn ≠ "" ∧ (TrimSpace requested = "" ∨ TrimSpace requested = tn).
Definition scope_for (u : AuthStore.User) (s : server) : option (gset string) :=
  if String.eqb (role_of u) "building_admin"
  then Some (normalizeBuildingScope (uBuildingIDs u) ∪ buildingScopeFromRoleAssignments u s) else None.

Lemma resolve_cases u requested s :
  (∃ e, resolveTenantID (Some u) requested s = (s, Err e))
  ∨ ∃ tn, resolveTenantID (Some u) requested s = (s, Ok tn) ∧ tenant_for u requested tn.
Proof.
  unfold resolveTenantID, tenant_for. destruct (String.eqb (role_of u) _); [by right; eexists|].
  rewrite fail_if_bind. destruct (is_empty _) eqn:Ht; [by left; eexists|]. rewrite fail_if_bind.
  destruct (_ && _) eqn:Hr; [by left; eexists|]. right. eexists. split; [done|]. split_and!; [done|by apply is_empty_false|].
  apply andb_false_iff in Hr as [Hr|Hr]; boolp; [left; by apply is_empty_true|by right].
Qed.
Lemma place_cases u requested s :
  (∃ e, place_request (Some u) requested s = (s, Err e))
  ∨ ∃ tn, place_request (Some u) requested s = (s, Ok (tn, scope_for u s)) ∧ tenant_for u requested tn
          ∧ scope_for u s ≠ Some ∅.
Proof.
  unfold place_request. rewrite bind_op_eq. destruct (resolve_cases u requested s) as [[e ->]|(tn & -> & Ht)]; [by left; eexists|].
  rewrite bind_op_eq. unfold buildingScopeForRequest, scope_for. destruct (String.eqb (role_of u) _); simpl; [|by right; eexists].
  rewrite bind_gets, fail_if_bind. destruct (bool_decide _) eqn:Hb; [by left; eexists|]. right. eexists. split; [done|].
  split; [done|]. intros [= E]. apply bool_decide_eq_false in Hb. done.
Qed.

Lemma require_cases scope b s :
  (∃ e, requireBuildingScope scope b s = (s, Err e))
  ∨ requireBuildingScope scope b s = (s, Ok tt) ∧ in_scope scope (TrimSpace b) = true.
Proof.
  unfold requireBuildingScope. destruct scope as [sc|]; [|by right]. unfold fail_if.
  destruct (is_empty _); [by left; eexists|]. simpl. destruct (bool_decide _) eqn:Hb; [by right|by left; eexists].
Qed.

(** The service a request ends with. *)
Abbreviation space_after m s := (spaceSvc (exec m s)).

Lemma space_call_after {A B} onerr (f : op Space.Service space_err A) (k : A → handler B) s :
  (∀ a s1, space_after (k a) s1 = spaceSvc s1) → space_after (space_call onerr f ≫= k) s = exec f (spaceSvc s).
Proof.
  intros Hk. rewrite exec_bind_eq. unfold space_call, exec at 2. destruct (f (spaceSvc s)) as [sp [a|e]]; [by rewrite Hk|done].
Qed.
Lemma audit_after {MC : Mac} {A} env who t action target source (x : A) s :
  space_after (appendAuditLog env who t action target source;; mret x) s = spaceSvc s.
Proof.
  rewrite exec_bind_eq. unfold appendAuditLog. destruct (is_empty _); [done|].
  destruct (AuditLog.Append _ _ _ _ _ _ _ _) as [a [r|e]]; [|done].
  simpl. by destruct (busEnabled s).
Qed.
Lemma audit_after' {MC : Mac} env who t action target source s :
  space_after (appendAuditLog env who t action target source) s = spaceSvc s.
Proof.
  unfold exec, appendAuditLog. destruct (is_empty _); [done|].
  destruct (AuditLog.Append _ _ _ _ _ _ _ _) as [a [r|e]]; [|done].
  simpl. by destruct (busEnabled s).
Qed.

(** A look-up leaves the state and answers the row it found. *)
Lemma look_cases {A} (f : op Space.Service space_err A) (P : A → Prop) s :
  (∀ sp, exec f sp = sp) → (∀ a, answer f (spaceSvc s) = Ok a → P a) →
  (∃ e, space_call handleSpaceMutationError f s = (s, Err e))
  ∨ ∃ a, space_call handleSpaceMutationError f s = (s, Ok a) ∧ P a.
Proof.
  intros He Ha. assert (s <| spaceSvc := spaceSvc s |> = s) as Hs by by destruct s.
  specialize (He (spaceSvc s)). unfold space_call, exec, answer in *. destruct (f (spaceSvc s)) as [sp [a|e]]; simpl in *;
    rewrite He, Hs; [right|left]; eauto.
Qed.
Lemma get_floor_reads tn id sp : exec (GetFloor tn id) sp = sp.
Proof. unfold GetFloor. repeat (progress exec_run || case_match); done. Qed.
Lemma get_area_reads tn id sp : exec (GetArea tn id) sp = sp.
Proof. unfold GetArea. repeat (progress exec_run || case_match); done. Qed.
Lemma answer_need {B} v e (f : string → Space.m B) sp :
  answer (need v e ≫= f) sp = if is_empty (TrimSpace v) then Err e else answer (f (TrimSpace v)) sp.
Proof. unfold answer, need. rewrite !bind_op_eq. unfold fail_if. simpl. by destruct (is_empty _). Qed.
Lemma answer_own {A} (found : option (nat * A)) tenant tn e sp r :
  answer ('(_, x) ← own found tenant tn e; mret x) sp = Ok r → ∃ i, found = Some (i, r) ∧ tenant r = tn.
Proof.
  destruct found as [[i x]|]; [|done]. unfold answer, own. rewrite !bind_op_eq. unfold fail_if. simpl.
  destruct (String.eqb_spec (tenant x) tn); [|done]. intros [= <-]. eauto.
Qed.
Lemma get_floor_row tn id sp f :
  answer (GetFloor tn id) sp = Ok f → ∃ i, findFloorLocked (TrimSpace id) (tables sp) = Some (i, f) ∧ flTenantID f = TrimSpace tn.
Proof.
  unfold GetFloor. rewrite answer_need. destruct (is_empty _); [done|]. rewrite answer_need. destruct (is_empty _); [done|].
  apply (answer_own _ flTenantID).
Qed.
Lemma get_area_row tn id sp a :
  answer (GetArea tn id) sp = Ok a → ∃ i, findAreaLocked (TrimSpace id) (tables sp) = Some (i, a) ∧ arTenantID a = TrimSpace tn.
Proof.
  unfold GetArea. rewrite answer_need. destruct (is_empty _); [done|]. rewrite answer_need. destruct (is_empty _); [done|].
  apply (answer_own _ arTenantID).
Qed.

(** ** The effect of a request *)

Lemma scope_trimmed u s sc x : scope_for u s = Some sc → x ∈ sc → TrimSpace x = x.
Proof.
  unfold scope_for. destruct (String.eqb _ _); [|done]. intros [= <-].
  rewrite elem_of_union. unfold normalizeBuildingScope, buildingScopeFromRoleAssignments. rewrite elem_of_list_to_set.
  intros [[_ (y & -> & _)%list_elem_of_fmap]%elem_of_filterb|Hx]; [apply TrimSpace_idem|].
  destruct (is_empty _); [by apply elem_of_empty in Hx|].
  apply elem_of_list_to_set, list_elem_of_fmap in Hx as (y & -> & _). apply TrimSpace_idem.
Qed.
(** An allowed door is in a building of the scope. *)
Lemma allowed_door tn sp sc id :
  (∀ x, x ∈ sc → TrimSpace x = x) → id ∈ allowedDoorIDsByBuildingScope (ListDoors tn sp) sc →
  ∃ d, d ∈ doors (tables sp) ∧ drID d = id ∧ TrimSpace (drBuildingID d) ∈ sc.
Proof.
  intros Hsc. unfold allowedDoorIDsByBuildingScope. rewrite elem_of_list_to_set.
  intros (d & -> & [Hb%bool_decide_eq_true Hd]%elem_of_filterb)%list_elem_of_fmap.
  exists d. split_and!; [|done|by rewrite Hsc]. unfold ListDoors, shown in Hd. by apply elem_of_filterb in Hd as [_ ?].
Qed.

Section effects.
Context {MC : Mac} (env : Env) (u : AuthStore.User) (s : server).
(** The random source draws no identifier that is in use. *)
Definition fresh_ids (t : Tables) : Prop :=
  unused env "building_" (bdID <$> buildings t) ∧ unused env "floor_" (flID <$> floors t)
  ∧ unused env "area_" (arID <$> areas t) ∧ unused env "door_" (drID <$> doors t).
Definition effect_for (requested : string) (s' : server) : Prop :=
  spaceSvc s' = spaceSvc s ∨
  (∃ tn, tenant_for u requested tn ∧ effect tn (scope_for u s) (tables (spaceSvc s)) (tables (spaceSvc s')))
  ∧ (fresh_ids (tables (spaceSvc s)) → call (spaceSvc s) (spaceSvc s')).

Lemma no_effect_for requested s' : spaceSvc s' = spaceSvc s → effect_for requested s'.
Proof. by left. Qed.

Lemma tenant_trimmed requested tn : tenant_for u requested tn → TrimSpace tn = tn.
Proof. unfold tenant_for. destruct (String.eqb _ _); [intros ->|intros [-> _]]; apply TrimSpace_idem. Qed.

(** A handler that enters a place first. *)
Lemma placed_effect {B} requested (k : string * option (gset string) → handler B) :
  (∀ tn, tenant_for u requested tn → TrimSpace tn = tn → effect_for requested (exec (k (tn, scope_for u s)) s)) →
  effect_for requested (exec (place_request (Some u) requested ≫= k) s).
Proof.
  intros Hk. rewrite exec_bind_eq. destruct (place_cases u requested s) as [[e ->]|(tn & -> & Ht & _)]; [by apply no_effect_for|].
  apply Hk; [done|by eapply tenant_trimmed].
Qed.
Lemma required_effect {B} requested scope b (k : unit → handler B) :
  (in_scope scope (TrimSpace b) = true → effect_for requested (exec (k tt) s)) →
  effect_for requested (exec (requireBuildingScope scope b ≫= k) s).
Proof.
  intros Hk. rewrite exec_bind_eq. destruct (require_cases scope b s) as [[e ->]|[-> Hb]]; [by apply no_effect_for|by apply Hk].
Qed.
Lemma looked_effect {A B} requested (f : op Space.Service space_err A) (P : A → Prop) (k : A → handler B) :
  (∀ sp, exec f sp = sp) → (∀ a, answer f (spaceSvc s) = Ok a → P a) → (∀ a, P a → effect_for requested (exec (k a) s)) →
  effect_for requested (exec (space_call handleSpaceMutationError f ≫= k) s).
Proof.
  intros He Ha Hk. rewrite exec_bind_eq. destruct (look_cases f P s He Ha) as [[e ->]|(a & -> & Hp)]; [by apply no_effect_for|].
  by apply Hk.
Qed.
Lemma called_effect {A B} requested tn onerr (f : op Space.Service space_err A) (k : A → handler B) :
  tenant_for u requested tn → (∀ a s1, space_after (k a) s1 = spaceSvc s1) →
  (fresh_ids (tables (spaceSvc s)) → call (spaceSvc s) (exec f (spaceSvc s))) →
  effect tn (scope_for u s) (tables (spaceSvc s)) (tables (exec f (spaceSvc s))) →
  effect_for requested (exec (space_call onerr f ≫= k) s).
Proof. intros Ht Hk Hc He. right. rewrite space_call_after by done. eauto. Qed.
End effects.

Section requests.
Context {MC : Mac} (env : Env) (u : AuthStore.User) (s : server).
#[local] Hint Extern 1 (spaceSvc (exec (appendAuditLog _ _ _ _ _ _;; mret _) _) = _) => apply audit_after : core.

Lemma effect_at tn scope t t' : TrimSpace tn = tn → effect (TrimSpace tn) scope t t' → effect tn scope t t'.
Proof. by intros ->. Qed.

Lemma create_floor_request t b p name : effect_for env u s t (exec (createFloor env (Some u) t b p name) s).
Proof.
  unfold createFloor. apply placed_effect. intros tn Ht Htrim. cbv zeta. apply required_effect. intros Hb.
  eapply called_effect; [done|intros; apply audit_after|by intros (?&?&?&?); constructor|]. apply effect_at; [done|]. by apply create_floor_effect.
Qed.
Lemma update_floor_request q t id b p name :
  effect_for env u s (firstNonEmptyString [t; q]) (exec (updateFloor env (Some u) q t id b p name) s).
Proof.
  unfold updateFloor. apply placed_effect. intros tn Ht Htrim.
  eapply (looked_effect _ _ _ _ _ (λ f, ∃ i, findFloorLocked (TrimSpace id) (tables (spaceSvc s)) = Some (i, f)));
    [apply get_floor_reads|intros f (i & Hf & _)%get_floor_row; by exists i|]. intros f [i Hf].
  apply required_effect. intros Hin. cbv zeta. apply required_effect. intros Hb.
  eapply called_effect; [done|intros; apply audit_after|by intros (?&?&?&?); constructor|]. apply effect_at; [done|]. apply update_floor_effect; [|done].
  intros j x. rewrite Hf. by intros [= <- <-].
Qed.
Lemma delete_floor_request t id : effect_for env u s t (exec (deleteFloor env (Some u) t id) s).
Proof.
  unfold deleteFloor. apply placed_effect. intros tn Ht Htrim.
  eapply (looked_effect _ _ _ _ _ (λ f, ∃ i, findFloorLocked (TrimSpace id) (tables (spaceSvc s)) = Some (i, f)));
    [apply get_floor_reads|intros f (i & Hf & _)%get_floor_row; by exists i|]. intros f [i Hf].
  apply required_effect. intros Hin. eapply called_effect; [done|intros; apply audit_after'|by intros (?&?&?&?); constructor|].
  apply effect_at; [done|]. apply delete_floor_effect. intros j x. rewrite Hf. by intros [= <- <-].
Qed.
Lemma create_area_request t b f name : effect_for env u s t (exec (createArea env (Some u) t b f name) s).
Proof.
  unfold createArea. apply placed_effect. intros tn Ht Htrim. apply required_effect. intros Hb.
  eapply called_effect; [done|intros; apply audit_after|by intros (?&?&?&?); constructor|]. apply effect_at; [done|]. by apply create_area_effect.
Qed.
Lemma update_area_request q t id b p f name :
  effect_for env u s (firstNonEmptyString [t; q]) (exec (updateArea env (Some u) q t id b p f name) s).
Proof.
  unfold updateArea. apply placed_effect. intros tn Ht Htrim.
  eapply (looked_effect _ _ _ _ _ (λ a, ∃ i, findAreaLocked (TrimSpace id) (tables (spaceSvc s)) = Some (i, a)));
    [apply get_area_reads|intros a (i & Ha & _)%get_area_row; by exists i|]. intros a [i Ha].
  apply required_effect. intros Hin. cbv zeta. apply required_effect. intros Hb.
  eapply called_effect; [done|intros; apply audit_after|by intros (?&?&?&?); constructor|]. apply effect_at; [done|]. apply update_area_effect; [|done].
  intros j x. rewrite Ha. by intros [= <- <-].
Qed.
Lemma create_door_request i mode state : effect_for env u s (diTenantID i) (exec (createDoor env (Some u) i mode state) s).
Proof.
  unfold createDoor. apply placed_effect. intros tn Ht Htrim. apply required_effect. intros Hb.
  eapply called_effect; [done|intros; apply audit_after|by intros (?&?&?&?); constructor|]. apply effect_at; [done|].
  match goal with |- effect _ _ _ (tables (exec (CreateDoor _ ?i) _)) => exact (create_door_effect env _ _ i Hb) end.
Qed.
Lemma create_group_request t name ids : effect_for env u s t (exec (createDoorGroup env (Some u) t name ids) s).
Proof.
  unfold createDoorGroup. apply placed_effect. intros tn Ht Htrim. rewrite exec_gets, exec_fail_if.
  destruct (match scope_for u s with Some _ => _ | None => _ end) eqn:Hno; [by apply no_effect_for|].
  eapply called_effect; [done|intros; apply audit_after|by intros (?&?&?&?); constructor|]. apply effect_at; [done|]. apply create_group_effect.
  intros id Hid Hne. destruct (scope_for u s) as [sc|] eqn:Hsc; [right|by left].
  rewrite <-not_true_iff_false, existsb_exists in Hno. apply is_empty_false in Hne.
  destruct (bool_decide (TrimSpace id ∈ allowedDoorIDsByBuildingScope (ListDoors tn (spaceSvc s)) sc)) eqn:Hin.
  - apply bool_decide_eq_true, allowed_door in Hin as (d & Hd & Hi & Hb); [|by intros x; eapply scope_trimmed].
    exists d. split_and!; [done..|by apply bool_decide_eq_true].
  - exfalso. apply Hno. exists id. rewrite Hne, Hin. split; [by apply list_elem_of_In|done].
Qed.
Lemma create_building_request q t name address region :
  role_of u ≠ "building_admin" →
  effect_for env u s (if is_empty (TrimSpace t) then q else t) (exec (createBuilding env (Some u) q t name address region) s).
Proof.
  intros Hr. unfold createBuilding. rewrite exec_bind_eq.
  destruct (resolve_cases u (if is_empty (TrimSpace t) then q else t) s) as [[e ->]|(tn & -> & Ht)]; [by apply no_effect_for|].
  eapply called_effect; [done|intros; apply audit_after|by intros (?&?&?&?); constructor|]. apply effect_at; [by eapply tenant_trimmed|].
  apply create_building_effect. unfold scope_for. by destruct (String.eqb_spec (role_of u) "building_admin").
Qed.

(** The tenant a request names. *)
Definition requested (r : request) : string :=
  match r with
  | GetTopologyRq t | ListBuildingsRq t | ListFloorsRq t _ | CreateFloorRq t _ _ _ | GetFloorRq t _ | DeleteFloorRq t _
  | ListAreasRq t _ | CreateAreaRq t _ _ _ | GetAreaRq t _ | ListDoorsRq t | ListDoorGroupsRq t | CreateDoorGroupRq t _ _ => t
  | CreateBuildingRq q t _ _ _ => if is_empty (TrimSpace t) then q else t
  | UpdateFloorRq q t _ _ _ _ | UpdateAreaRq q t _ _ _ _ _ => firstNonEmptyString [t; q]
  | CreateDoorRq i _ _ => diTenantID i
  end.

Lemma reads_keep {A} (m : handler A) : preserves (λ s', spaceSvc s' = spaceSvc s) m → ∀ r, effect_for env u s r (exec m s).
Proof. intros Hm r. apply no_effect_for, Hm. done. Qed.
Lemma pres_space_look {A} onerr (f : op Space.Service space_err A) sp :
  (∀ x, exec f x = x) → preserves (λ s', spaceSvc s' = sp) (space_call onerr f).
Proof.
  intros Hf s' <-. specialize (Hf (spaceSvc s')). unfold exec, space_call in *. destruct (f (spaceSvc s')) as [x r]. done.
Qed.
Lemma pres_place who t sp : preserves (λ s', spaceSvc s' = sp) (place_request who t).
Proof. unfold place_request, resolveTenantID, buildingScopeForRequest. pres_all. Qed.
Lemma pres_require scope b sp : preserves (λ s', spaceSvc s' = sp) (requireBuildingScope scope b).
Proof. unfold requireBuildingScope. pres_all. Qed.
Lemma topology_reads t sp : exec (TopologyByTenant t) sp = sp.
Proof. unfold TopologyByTenant. by repeat (progress exec_run || case_match). Qed.

Lemma request_effect r : effect_for env u s (requested r) (exec (handle env (Some u) r) s).
Proof.
  unfold handle, requireRoles. rewrite exec_bind_eq, fail_if_bind. destruct (negb _) eqn:Hroles; [by apply no_effect_for|].
  assert (∀ A (f : A → reply) m, exec (replied f m) s = exec m s) as Hrep.
  { intros A f m. unfold replied. rewrite exec_bind_eq. unfold exec. by destruct (m s) as [s1 [a|e]]. }
  assert (Hro := pres_place); assert (Hre := pres_require); assert (Hlk := @pres_space_look).
  destruct r; cbn [mret op_ret]; rewrite Hrep; cbn [requested];
    first
      [ solve [eauto using create_floor_request, update_floor_request, delete_floor_request, create_area_request,
                 update_area_request, create_door_request, create_group_request]
      | apply create_building_request
      | apply reads_keep;
        unfold getTenantTopology, listBuildings, listFloors, getFloor, listAreas, getArea, listDoors, listDoorGroups;
        pres_all; eauto using get_floor_reads, get_area_reads, topology_reads ].
  intros E. apply negb_false_iff, existsb_exists in Hroles as (x & Hx & Hrole). cbn in Hx. rewrite E in Hrole.
  by repeat destruct Hx as [<-|Hx].
Qed.
End requests.

(** ** What others keep *)

Lemma filterb_ext {A} (p q : A → bool) l : (∀ x, p x = q x) → filterb p l = filterb q l.
Proof. intros H. induction l as [|a l IH]; [done|]. simpl. by rewrite H, IH. Qed.

(** The rows of a tenant. *)
Definition rows_of (tenant : string) (t : Tables) : Tables :=
  let mine {A} (f : A → string) := filterb (λ x : A, String.eqb (f x) tenant) in
  mkTables (mine bdTenantID (buildings t)) (mine flTenantID (floors t)) (mine arTenantID (areas t))
    (mine drTenantID (doors t)) (mine dgTenantID (doorGroups t)).

Lemma rows_spared T t t' :
  Spared (λ tn _, negb (String.eqb tn T)) t t' →
  filterb (λ b, String.eqb (bdTenantID b) T) (buildings t') = filterb (λ b, String.eqb (bdTenantID b) T) (buildings t) →
  filterb (λ g, String.eqb (dgTenantID g) T) (doorGroups t') = filterb (λ g, String.eqb (dgTenantID g) T) (doorGroups t) →
  rows_of T t' = rows_of T t.
Proof.
  intros [H1 H2 H3] Hb Hg. unfold rows_of. cbv beta zeta in *. rewrite Hb, Hg. f_equal.
  - rewrite !(filterb_ext (λ x, String.eqb (flTenantID x) T) (λ f, negb (negb (String.eqb (flTenantID f) T)))); [done|..];
      intros; by rewrite negb_involutive.
  - rewrite !(filterb_ext (λ x, String.eqb (arTenantID x) T) (λ f, negb (negb (String.eqb (arTenantID f) T)))); [done|..];
      intros; by rewrite negb_involutive.
  - rewrite !(filterb_ext (λ x, String.eqb (drTenantID x) T) (λ f, negb (negb (String.eqb (drTenantID f) T)))); [done|..];
      intros; by rewrite negb_involutive.
Qed.

(** Taking the doors of a floor out of the groups leaves those of other tenants as they are. *)
Lemma groups_of_others t (Ht : Topology t) p T :
  (∀ d, d ∈ doors t → p d = true → drTenantID d ≠ T) →
  filterb (λ g, String.eqb (dgTenantID g) T) (removeDoorIDsFromGroups (door_gone p t) (doorGroups t))
  = filterb (λ g, String.eqb (dgTenantID g) T) (doorGroups t).
Proof.
  intros Hp. apply filterb_map. intros g Hg. destruct (String.eqb_spec (dgTenantID g) T) as [E|]; [left|right; split; [done|simpl; by apply String.eqb_neq]].
  destruct g as [id tn name ids at_]. simpl in *. f_equal. apply filterb_all. intros x Hx. apply negb_true_iff.
  destruct (door_gone p t x) eqn:Hgone; [|done]. exfalso. apply existsb_exists in Hgone as (d & Hd%list_elem_of_In & Hpd). boolp.
  destruct (top_group t Ht _ x Hg Hx) as (d' & Hd' & Hid & Htn). simpl in Htn.
  assert (d' = d) as -> by (eapply (ids_inj drID); [apply top_door_ids, Ht|done|done|congruence]).
  apply (Hp d Hd); [done|congruence].
Qed.

Lemma effect_rows tn scope t t' T : Topology t → effect tn scope t t' → tn ≠ T → rows_of T t' = rows_of T t.
Proof.
  intros Ht He Hne. assert (negb (String.eqb tn T) = true) as Hin by (by apply negb_true_iff, String.eqb_neq).
  destruct He as [|r Hr _|r Hr _|i f f' Hi Hf Hf' _ _|i f Hi Hf _|r Hr _|i a a' Hi Ha Ha' _ _|r Hr _|r Hr _].
  - done.
  - apply rows_spared; [by split| |done]. simpl. rewrite Hr. by apply negb_true_iff in Hin as ->.
  - apply rows_spared; [apply spares_floor; by rewrite Hr|done..].
  - apply rows_spared; [apply spares_move_floor; rewrite ?Hf, ?Hf'; done| |];
      unfold move_floor; by destruct (String.eqb (flBuildingID f) _).
  - apply rows_spared; [apply spares_drop_floor; rewrite ?Hf; done|done|]. simpl. apply groups_of_others; [done|].
    intros d Hd Hfl%String.eqb_eq. destruct (door_of_floor t Ht d f Hd (list_elem_of_lookup_2 _ _ _ Hi) Hfl) as [-> _]. congruence.
  - apply rows_spared; [apply spares_area; by rewrite Hr|done..].
  - apply rows_spared; [apply spares_move_area; rewrite ?Ha, ?Ha'; done| |]; unfold move_area; by destruct (_ && _).
  - apply rows_spared; [apply spares_door; by rewrite Hr|done..].
  - apply rows_spared; [by split|done|]. simpl. rewrite Hr. by apply negb_true_iff in Hin as ->.
Qed.

(** The door of an id is in the buildings of a scope. *)
Definition in_buildings (sc : gset string) (t : Tables) (id : string) : bool :=
  existsb (λ d, String.eqb (drID d) id && bool_decide (TrimSpace (drBuildingID d) ∈ sc)) (doors t).
Lemma in_buildings_door sc t id :
  in_buildings sc t id = true ↔ ∃ d, d ∈ doors t ∧ drID d = id ∧ TrimSpace (drBuildingID d) ∈ sc.
Proof.
  unfold in_buildings. rewrite existsb_exists. split.
  - intros (d & Hd%list_elem_of_In & [Hi%String.eqb_eq Hb%bool_decide_eq_true]%andb_prop). by exists d.
  - intros (d & Hd & <- & Hb). exists d. split; [by apply list_elem_of_In|]. by rewrite String.eqb_refl, bool_decide_eq_true_2.
Qed.
(** The groups without their doors in the scope. *)
Definition groups_outside (sc : gset string) (t : Tables) (l : list DoorGroup) : list DoorGroup :=
  (λ g, g <| DoorIDs ::= filterb (λ id, negb (in_buildings sc t id)) |>) <$> l.
(** The rows outside a scope. *)
Definition outside_of (sc : gset string) (t : Tables) : list Building * list Floor * list Area * list Door :=
  let out {A} (f : A → string) := filterb (λ x : A, negb (bool_decide (TrimSpace (f x) ∈ sc))) in
  (buildings t, out flBuildingID (floors t), out arBuildingID (areas t), out drBuildingID (doors t)).

Lemma outside_spared sc t t' :
  buildings t' = buildings t → Spared (λ _ b, bool_decide (TrimSpace b ∈ sc)) t t' → outside_of sc t' = outside_of sc t.
Proof. intros Hb [H1 H2 H3]. unfold outside_of. cbv beta zeta in *. by rewrite Hb, H1, H2, H3. Qed.

Lemma effect_outside tn sc t t' : Topology t → effect tn (Some sc) t t' → outside_of sc t' = outside_of sc t.
Proof.
  intros Ht He.
  destruct He as [|r Hr Hs|r Hr Hb|i f f' Hi Hf Hf' Hb Hb'|i f Hi Hf Hb|r Hr Hb|i a a' Hi Ha Ha' Hb Hb'|r Hr Hb|r Hr Hg].
  - done.
  - done.
  - apply outside_spared; [done|by apply spares_floor].
  - apply outside_spared; [|apply spares_move_floor; try done; congruence].
    unfold move_floor. by destruct (String.eqb (flBuildingID f) _).
  - apply outside_spared; [done|by apply spares_drop_floor].
  - apply outside_spared; [done|by apply spares_area].
  - apply outside_spared; [|apply spares_move_area; try done; congruence]. unfold move_area. by destruct (_ && _).
  - apply outside_spared; [done|by apply spares_door].
  - done.
Qed.

Lemma filterb_same {A} (p : A → bool) q l :
  (∀ x, x ∈ l → q x = false → p x = false) → filterb p (filterb q l) = filterb p l.
Proof.
  induction l as [|x l IH]; intros H; [done|]. simpl. pose proof (IH (λ y Hy, H y (list_elem_of_further _ _ _ Hy))) as Hl.
  destruct (q x) eqn:Hq; simpl; [by rewrite Hl|]. rewrite (H x) by (done || by left). done.
Qed.
(** A request can put a group of doors in the scope in front, and take such doors out of groups. *)
Lemma effect_groups tn sc t t' :
  Topology t → effect tn (Some sc) t t' →
  ∃ new, groups_outside sc t (doorGroups t') = new ++ groups_outside sc t (doorGroups t) ∧ Forall (λ g, DoorIDs g = []) new.
Proof.
  intros Ht He.
  destruct He as [|r Hr Hs|r Hr Hb|i f f' Hi Hf Hf' Hb Hb'|i f Hi Hf Hb|r Hr Hb|i a a' Hi Ha Ha' Hb Hb'|r Hr Hb|r Hr Hg];
    try (exists []; split; [|done]; done || unfold move_floor, move_area; by repeat case_match).
  - exists []. split; [|done]. unfold groups_outside. simpl. unfold removeDoorIDsFromGroups. rewrite <-list_fmap_compose.
    apply list_fmap_ext. intros k g Hg. destruct g as [id tg name ids at_]. unfold compose. cbn. f_equal. apply filterb_same.
    intros x _ Hx%negb_false_iff. apply negb_false_iff, in_buildings_door. apply existsb_exists in Hx as (d & Hd%list_elem_of_In & Hdd).
    boolp. exists d. split_and!; [done..|]. destruct (door_of_floor t Ht d f) as [_ ->]; [done|by eapply list_elem_of_lookup_2|done|].
    by apply bool_decide_eq_true in Hb.
  - exists [r <| DoorIDs := [] |>]. split; [|by constructor]. unfold groups_outside. cbn. f_equal.
    destruct r as [id tg name ids at_]. cbn. f_equal. simpl in Hg. clear Hr. induction Hg as [|x ids [|Hx] _ IH]; [done..|].
    simpl. assert (in_buildings sc t x = true) as ->; [|done]. apply in_buildings_door. destruct Hx as (d & Hd & Hi & Hb).
    exists d. split_and!; [done..|]. by apply bool_decide_eq_true in Hb.
Qed.

(** ** What an answer shows *)

(** The answers an operation can give. *)
Definition yields {S E A} (m : op S E A) (Q : A → Prop) : Prop := ∀ s s' a, m s = (s', Ok a) → Q a.

Lemma yields_bind {S E A B} (m : op S E A) (f : A → op S E B) P Q :
  yields m P → (∀ a, P a → yields (f a) Q) → yields (m ≫= f) Q.
Proof. intros Hm Hf s s' b (s1 & a & H1 & H2)%bind_ok. eapply Hf; [by eapply Hm|done]. Qed.
Lemma yields_any {S E A B} (m : op S E A) (f : A → op S E B) Q : (∀ a, yields (f a) Q) → yields (m ≫= f) Q.
Proof. intros Hf. apply (yields_bind m f (λ _, True)); [by intros ?|auto]. Qed.
Lemma yields_ret {S E A} (a : A) (Q : A → Prop) : Q a → yields (S:=S) (E:=E) (mret a) Q.
Proof. by intros Ha s s' x [= _ <-]. Qed.
Lemma yields_throw {S E A} (e : E) (Q : A → Prop) : yields (S:=S) (throw e) Q.
Proof. by intros s s' a. Qed.
Lemma yields_impl {S E A} (m : op S E A) (P Q : A → Prop) : yields m P → (∀ a, P a → Q a) → yields m Q.
Proof. intros Hm Hi s s' a H. by apply Hi, (Hm s s'). Qed.
Lemma yields_call {A} onerr (f : op Space.Service space_err A) Q : yields f Q → yields (space_call onerr f) Q.
Proof.
  intros Hf s s' a. unfold space_call. destruct (f (spaceSvc s)) as [sp [x|e]] eqn:He; [|done].
  intros [= _ <-]. by eapply Hf.
Qed.
Lemma yields_need v e : yields (need v e) (λ x, x = TrimSpace v).
Proof. intros s s' a. unfold need. rewrite fail_if_bind. destruct (is_empty _); [done|]. by intros [= _ <-]. Qed.
Lemma yields_own {A} (found : option (nat * A)) tenant tn e : yields (own found tenant tn e) (λ r, tenant r.2 = tn).
Proof.
  intros s s' a. unfold own. destruct found as [r|]; [|done]. rewrite fail_if_bind.
  destruct (String.eqb_spec (tenant r.2) tn); [|done]. by intros [= _ <-].
Qed.
Lemma yields_gets {S E A B} (g : S → A) (f : A → op S E B) (Q : B → Prop) :
  (∀ s, yields (f (g s)) Q) → yields (gets g ≫= f) Q.
Proof. intros Hf s s' a. rewrite bind_gets. apply Hf. Qed.

Ltac yields_run :=
  repeat first
    [ match goal with
      | |- yields (mret _) _ => apply yields_ret; simpl
      | |- yields (throw _) _ => apply yields_throw
      | |- yields (need _ _ ≫= _) _ => eapply yields_bind; [apply yields_need|intros ? ->]
      | |- yields (own _ _ _ _ ≫= _) _ => eapply yields_bind; [apply yields_own|intros [??] ?]
      | |- yields ((_ ≫= _) ≫= _) _ => eapply yields_bind
      | |- yields (_ ≫= _) _ => apply yields_any; intros ?
      | |- yields (match ?x with _ => _ end) _ => destruct x
      | |- yields (let _ := _ in _) _ => cbv zeta
      end ].

Section answers.
Context (env : Env) (tn : string).

Lemma yields_create_building name address region :
  yields (CreateBuilding env tn name address region) (λ b, bdTenantID b = TrimSpace tn).
Proof. unfold CreateBuilding. by yields_run. Qed.
Lemma yields_create_floor b name : yields (CreateFloor env tn b name) (λ f, flTenantID f = TrimSpace tn).
Proof.
  unfold CreateFloor, CreateFloor_insert. apply (yields_bind _ _ (λ f, flTenantID f = TrimSpace tn)).
  - unfold CreateFloor_check. by yields_run.
  - intros f Hf. by yields_run.
Qed.
Lemma yields_get_floor id : yields (GetFloor tn id) (λ f, flTenantID f = TrimSpace tn).
Proof. unfold GetFloor. by yields_run. Qed.
Lemma yields_update_floor id b name : yields (UpdateFloor env tn id b name) (λ f, flTenantID f = TrimSpace tn).
Proof. unfold UpdateFloor. by yields_run. Qed.
Lemma yields_create_area b f name : yields (CreateArea env tn b f name) (λ a, arTenantID a = TrimSpace tn).
Proof.
  unfold CreateArea, CreateArea_insert. apply (yields_bind _ _ (λ a, arTenantID a = TrimSpace tn)).
  - unfold CreateArea_check. by yields_run.
  - intros a Ha. by yields_run.
Qed.
Lemma yields_get_area id : yields (GetArea tn id) (λ a, arTenantID a = TrimSpace tn).
Proof. unfold GetArea. by yields_run. Qed.
Lemma yields_update_area id b f name : yields (UpdateArea env tn id b f name) (λ a, arTenantID a = TrimSpace tn).
Proof. unfold UpdateArea. by yields_run. Qed.
Lemma yields_create_door i : diTenantID i = tn → yields (CreateDoor env i) (λ d, drTenantID d = TrimSpace tn).
Proof.
  intros <-. unfold CreateDoor, CreateDoor_insert. apply (yields_bind _ _ (λ d, drTenantID d = TrimSpace (diTenantID i))).
  - unfold CreateDoor_check. by yields_run.
  - intros d Hd. by yields_run.
Qed.
Lemma yields_create_group name ids : yields (CreateDoorGroup env tn name ids) (λ g, dgTenantID g = TrimSpace tn).
Proof.
  unfold CreateDoorGroup, CreateDoorGroup_insert. apply (yields_bind _ _ (λ g, dgTenantID g = TrimSpace tn)).
  - unfold CreateDoorGroup_check. by yields_run.
  - intros g Hg. by yields_run.
Qed.
Lemma yields_topology : yields (TopologyByTenant tn) (λ t, topTenantID t = TrimSpace tn
  ∧ Forall (λ b, bdTenantID b = TrimSpace tn) (topBuildings t) ∧ Forall (λ f, flTenantID f = TrimSpace tn) (topFloors t)
  ∧ Forall (λ a, arTenantID a = TrimSpace tn) (topAreas t) ∧ Forall (λ d, drTenantID d = TrimSpace tn) (topDoors t)).
Proof.
  unfold TopologyByTenant. yields_run. split_and!; [done|..]; apply Forall_forall.
  - intros x (b & -> & [[Hb _]%andb_prop _]%elem_of_filterb)%list_elem_of_fmap. by apply String.eqb_eq in Hb.
  - by intros x [?%String.eqb_eq _]%elem_of_filterb.
  - by intros x [?%String.eqb_eq _]%elem_of_filterb.
  - by intros x [?%String.eqb_eq _]%elem_of_filterb.
Qed.
Lemma shown_tenant {A} (tenant : A → string) l : TrimSpace tn ≠ "" → Forall (λ x, tenant x = TrimSpace tn) (shown tenant tn l).
Proof.
  intros Hne%is_empty_false. apply Forall_forall. intros x [Hx _]%elem_of_filterb. rewrite Hne in Hx.
  by apply String.eqb_eq in Hx.
Qed.
End answers.

(** ** What the handlers answer *)

(** Every row of an answer is of the tenant. *)
Definition of_tenant (T : string) (a : reply) : Prop :=
  match a with
  | RTopology t =>
      topTenantID t = T ∧ Forall (λ b, bdTenantID b = T) (topBuildings t) ∧ Forall (λ f, flTenantID f = T) (topFloors t)
      ∧ Forall (λ a, arTenantID a = T) (topAreas t) ∧ Forall (λ d, drTenantID d = T) (topDoors t)
  | RBuildings l => Forall (λ b, bdTenantID b = T) l | RBuilding b => bdTenantID b = T
  | RFloors l => Forall (λ f, flTenantID f = T) l | RFloor f => flTenantID f = T
  | RAreas l => Forall (λ a, arTenantID a = T) l | RArea a => arTenantID a = T
  | RDoors l => Forall (λ d, drTenantID d = T) l | RDoor d => drTenantID d = T
  | RDoorGroups l => Forall (λ g, dgTenantID g = T) l | RDoorGroup g => dgTenantID g = T
  | RNoContent => True
  end.

Lemma Forall_filterb {A} (P : A → Prop) p l : Forall P l → Forall P (filterb p l).
Proof. rewrite !Forall_forall. intros H x [_ Hx]%elem_of_filterb. by apply H. Qed.
Lemma Forall_scoped {A} (P : A → Prop) (building : A → string) scope l :
  Forall P l → Forall P (scoped (filter_by building) scope l).
Proof. destruct scope; [apply Forall_filterb|done]. Qed.
Lemma Forall_at_place {A} (P : A → Prop) (building : A → string) place l :
  Forall P l → Forall P (at_place building place l).
Proof. unfold at_place. destruct (is_empty _); [done|apply Forall_filterb]. Qed.
Lemma buildings_shown tn sp : TrimSpace tn ≠ "" → Forall (λ b, bdTenantID b = TrimSpace tn) (ListBuildings tn sp).
Proof. intros Hne. unfold ListBuildings. apply Forall_fmap, Forall_filterb, (shown_tenant tn bdTenantID _ Hne). Qed.
Lemma groups_shown T allowed l :
  Forall (λ g, dgTenantID g = T) l → Forall (λ g, dgTenantID g = T) (filterDoorGroupsByScope l allowed).
Proof. intros H. apply Forall_filterb, Forall_fmap. by eapply Forall_impl. Qed.
#[local] Hint Resolve Forall_scoped Forall_at_place : core.

Section replies.
Context {MC : Mac} (env : Env) (u : AuthStore.User) (Hu : role_of u ≠ "super_admin").
Context (T : string) (HT : T = TrimSpace (uTenantID u)).

Lemma yields_resolve t : yields (resolveTenantID (Some u) t) (λ tn, tn = T ∧ T ≠ "").
Proof.
  intros s s' tn. destruct (resolve_cases u t s) as [[e ->]|(x & -> & Hx)]; [done|]. intros [= <- <-].
  unfold tenant_for in Hx. destruct (String.eqb_spec (role_of u) "super_admin"); [done|].
  destruct Hx as (Hx & Hne & _). by rewrite HT, <- Hx.
Qed.
Lemma yields_place {B} t (k : string * option (gset string) → handler B) Q :
  (∀ scope, T ≠ "" → yields (k (T, scope)) Q) → yields (place_request (Some u) t ≫= k) Q.
Proof.
  intros Hk. apply (yields_bind _ _ (λ r, r.1 = T ∧ T ≠ "")); [|by intros [x scope] [Hx ?]; simpl in Hx; subst x; apply Hk].
  unfold place_request. apply (yields_bind _ _ _ _ (yields_resolve t)). intros tn Htn. by yields_run.
Qed.
Lemma yields_called {A B} onerr (f : op Space.Service space_err A) (k : A → handler B) P Q :
  yields f P → (∀ a, P a → yields (k a) Q) → yields (space_call onerr f ≫= k) Q.
Proof. intros Hf. by apply yields_bind, yields_call. Qed.
Lemma yields_replied {A} (f : A → reply) (m : handler A) (P : reply → Prop) :
  yields m (λ a, P (f a)) → yields (replied f m) P.
Proof. intros Hm. apply (yields_bind _ _ _ _ Hm). intros a Ha. by apply yields_ret. Qed.

Lemma own_tenant : TrimSpace T = T.
Proof. rewrite HT. apply TrimSpace_idem. Qed.

Lemma listed {A} (tenant : A → string) l : T ≠ "" → Forall (λ x, tenant x = T) (shown tenant T l).
Proof. intros Hne. generalize (shown_tenant T tenant l). rewrite own_tenant. auto. Qed.
Lemma listed_buildings sp : T ≠ "" → Forall (λ b, bdTenantID b = T) (ListBuildings T sp).
Proof. intros Hne. generalize (buildings_shown T sp). rewrite own_tenant. auto. Qed.
Lemma yields_audited {A} who t action target source (x : A) (Q : A → Prop) :
  Q x → yields (appendAuditLog env who t action target source;; mret x) Q.
Proof. intros Hx. apply yields_any. intros _. by apply yields_ret. Qed.
Lemma yields_own_tenant {A} (m : op Space.Service space_err A) (tenant : A → string) :
  yields m (λ a, tenant a = TrimSpace T) → yields m (λ a, tenant a = T).
Proof. by rewrite own_tenant. Qed.

(** Everything a user who is no super admin is shown is of the user's tenant. *)
Lemma replies_of_tenant r : yields (handle env (Some u) r) (of_tenant T).
Proof.
  unfold handle, requireRoles. apply yields_any. intros _.
  destruct r; apply yields_replied; simpl;
    unfold getTenantTopology, listBuildings, createBuilding, listFloors, createFloor, getFloor, updateFloor, deleteFloor,
      listAreas, createArea, getArea, updateArea, listDoors, createDoor, listDoorGroups, createDoorGroup;
    try (apply yields_place; intros scope Hne).
  - eapply yields_called; [apply yields_topology|]. rewrite own_tenant. intros t (Ht & ? & ? & ? & ?). apply yields_ret.
    destruct scope; simpl; [|done]. split_and!; [done|by apply Forall_filterb..].
  - apply yields_gets. intros s. by apply yields_ret, Forall_scoped, listed_buildings.
  - eapply yields_bind; [apply yields_resolve|]. intros ? [-> _]. eapply yields_called; [apply yields_own_tenant, yields_create_building|].
    intros b Hb. by apply yields_audited.
  - apply yields_gets. intros s. by apply yields_ret, Forall_at_place, Forall_scoped, listed.
  - apply yields_any. intros _. eapply yields_called; [apply yields_own_tenant, yields_create_floor|].
    intros f Hf. by apply yields_audited.
  - eapply yields_called; [apply yields_own_tenant, yields_get_floor|]. intros f Hf. apply yields_any. intros _. by apply yields_ret.
  - do 3 (apply yields_any; intros ?). eapply yields_called; [apply yields_own_tenant, yields_update_floor|].
    intros f Hf. by apply yields_audited.
  - by intros ? ? ?.
  - apply yields_gets. intros s. by apply yields_ret, Forall_at_place, Forall_scoped, listed.
  - apply yields_any. intros _. eapply yields_called; [apply yields_own_tenant, yields_create_area|].
    intros x Hx. by apply yields_audited.
  - eapply yields_called; [apply yields_own_tenant, yields_get_area|]. intros x Hx. apply yields_any. intros _. by apply yields_ret.
  - do 3 (apply yields_any; intros ?). eapply yields_called; [apply yields_own_tenant, yields_update_area|].
    intros x Hx. by apply yields_audited.
  - apply yields_gets. intros s. by apply yields_ret, Forall_scoped, listed.
  - apply yields_any. intros _. eapply yields_called; [by apply yields_own_tenant, yields_create_door|].
    intros d Hd. by apply yields_audited.
  - do 2 (apply yields_gets; intros ?). apply yields_ret. destruct scope; simpl; [apply groups_shown|]; by apply listed.
  - apply yields_gets. intros s. apply yields_any. intros _.
    eapply yields_called; [apply yields_own_tenant, yields_create_group|]. intros g Hg. by apply yields_audited.
Qed.
End replies.

(** The rows of an answer are of the buildings of a scope: so are the doors of a group, and
    a group that is listed has such a door. *)
Definition of_buildings (sc : gset string) (t : Tables) (a : reply) : Prop :=
  let inside {A} (building : A → string) (x : A) := TrimSpace (building x) ∈ sc in
  match a with
  | RTopology tp =>
      Forall (inside bdID) (topBuildings tp) ∧ Forall (inside flBuildingID) (topFloors tp)
      ∧ Forall (inside arBuildingID) (topAreas tp) ∧ Forall (inside drBuildingID) (topDoors tp)
  | RBuildings l => Forall (inside bdID) l
  | RFloors l => Forall (inside flBuildingID) l | RFloor f => inside flBuildingID f
  | RAreas l => Forall (inside arBuildingID) l | RArea a => inside arBuildingID a
  | RDoors l => Forall (inside drBuildingID) l | RDoor d => inside drBuildingID d
  | RBuilding _ => False
  | RDoorGroups l => Forall (λ g, DoorIDs g ≠ [] ∧ Forall (λ id, in_buildings sc t id = true) (DoorIDs g)) l
  | RDoorGroup g => Forall (λ id, in_buildings sc t id = true) (DoorIDs g)
  | RNoContent => True
  end.


(** What is made in a building is in it. *)
Lemma built_floor env tn b name : yields (CreateFloor env tn b name) (λ f, flBuildingID f = TrimSpace b).
Proof.
  unfold CreateFloor, CreateFloor_insert. apply (yields_bind _ _ (λ f, flBuildingID f = TrimSpace b)).
  - unfold CreateFloor_check. by yields_run.
  - intros f Hf. by yields_run.
Qed.
Lemma rebuilt_floor env tn id b name : yields (UpdateFloor env tn id b name) (λ f, flBuildingID f = TrimSpace b).
Proof. unfold UpdateFloor. by yields_run. Qed.
Lemma built_area env tn b f name : yields (CreateArea env tn b f name) (λ a, arBuildingID a = TrimSpace b).
Proof.
  unfold CreateArea, CreateArea_insert. apply (yields_bind _ _ (λ a, arBuildingID a = TrimSpace b)).
  - unfold CreateArea_check. by yields_run.
  - intros a Ha. by yields_run.
Qed.
Lemma rebuilt_area env tn id b f name : yields (UpdateArea env tn id b f name) (λ a, arBuildingID a = TrimSpace b).
Proof. unfold UpdateArea. by yields_run. Qed.
Lemma built_door env i b : diBuildingID i = b → yields (CreateDoor env i) (λ d, drBuildingID d = TrimSpace b).
Proof.
  intros <-. unfold CreateDoor, CreateDoor_insert. apply (yields_bind _ _ (λ d, drBuildingID d = TrimSpace (diBuildingID i))).
  - unfold CreateDoor_check. apply yields_any. intros tn. apply (yields_bind _ _ (λ n, diBuildingID n = TrimSpace (diBuildingID i))).
    + unfold door_fields. by yields_run.
    + intros n Hn. by yields_run.
  - intros d Hd. by yields_run.
Qed.

Section inside.
Context {MC : Mac} (env : Env) (u : AuthStore.User) (sc : gset string).
Context (Hsc : ∀ x, x ∈ sc → TrimSpace x = x).

(** The answers in a state in which the scope is the user's. *)
Definition shows {A} (m : handler A) (Q : A → Prop) : Prop :=
  ∀ s s' a, scope_for u s = Some sc → m s = (s', Ok a) → Q a.

Lemma shows_yields {A} (m : handler A) Q : yields m Q → shows m Q.
Proof. intros Hm s s' a _. apply Hm. Qed.
Lemma shows_place {B} t (k : string * option (gset string) → handler B) Q :
  (∀ tn, yields (k (tn, Some sc)) Q) → shows (place_request (Some u) t ≫= k) Q.
Proof.
  intros Hk s s' a Hs. rewrite bind_op_eq. destruct (place_cases u t s) as [[e ->]|(tn & -> & _)]; [done|].
  rewrite Hs. apply Hk.
Qed.
Lemma shows_replied {A} (f : A → reply) (m : handler A) (P : reply → Prop) :
  shows m (λ a, P (f a)) → shows (replied f m) P.
Proof.
  intros Hm s s' a Hs. unfold replied. rewrite bind_op_eq. destruct (m s) as [s1 [x|e]] eqn:Hx; [|done].
  intros [= _ <-]. by eapply Hm.
Qed.
Lemma shows_required {B} b (k : unit → handler B) Q :
  (TrimSpace b ∈ sc → yields (k tt) Q) → yields (requireBuildingScope (Some sc) b ≫= k) Q.
Proof.
  intros Hk s s' a. rewrite bind_op_eq. destruct (require_cases (Some sc) b s) as [[e ->]|[-> Hb]]; [done|].
  apply Hk. by apply bool_decide_eq_true in Hb.
Qed.
Lemma filtered_inside {A} (building : A → string) l : Forall (λ x, TrimSpace (building x) ∈ sc) (filter_by building l sc).
Proof. apply Forall_forall. intros x [Hx%bool_decide_eq_true _]%elem_of_filterb. by rewrite Hsc. Qed.
Lemma placed_inside {A} (building : A → string) p l :
  Forall (λ x, TrimSpace (building x) ∈ sc) (at_place building p (filter_by building l sc)).
Proof. apply Forall_at_place, filtered_inside. Qed.

Lemma filtered_groups tn sp l :
  Forall (λ g, DoorIDs g ≠ [] ∧ Forall (λ id, in_buildings sc (tables sp) id = true) (DoorIDs g))
    (filterDoorGroupsByScope l (allowedDoorIDsByBuildingScope (ListDoors tn sp) sc)).
Proof.
  apply Forall_forall. unfold filterDoorGroupsByScope. intros g [Hn (g0 & -> & _)%list_elem_of_fmap]%elem_of_filterb. split.
  - intros E. by rewrite E in Hn.
  - simpl. apply Forall_forall. intros id [Hid%bool_decide_eq_true _]%elem_of_filterb.
    by apply in_buildings_door, (allowed_door tn).
Qed.
Lemma groups_inside tn s s' l :
  scope_for u s = Some sc → listDoorGroups (Some u) tn s = (s', Ok l) → of_buildings sc (tables (spaceSvc s)) (RDoorGroups l).
Proof.
  intros Hs. unfold listDoorGroups. rewrite bind_op_eq. destruct (place_cases u tn s) as [[e ->]|(x & -> & _)]; [done|].
  rewrite Hs. rewrite !bind_gets. intros [= _ <-]. apply filtered_groups.
Qed.
Lemma group_inside tn name ids s s' g :
  scope_for u s = Some sc → createDoorGroup env (Some u) tn name ids s = (s', Ok g) → of_buildings sc (tables (spaceSvc s)) (RDoorGroup g).
Proof.
  intros Hs. unfold createDoorGroup. rewrite bind_op_eq. destruct (place_cases u tn s) as [[e ->]|(x & -> & _)]; [done|].
  rewrite Hs. rewrite bind_gets, fail_if_bind. destruct (existsb _ ids) eqn:Hno; [done|]. revert s' g.
  apply (yields_called _ _ _ (λ g, Forall (λ id, id ≠ "" ∧ id ∈ (TrimSpace <$> ids)) (DoorIDs g))).
  - unfold CreateDoorGroup, CreateDoorGroup_insert. apply yields_bind with (P := λ g, Forall (λ id, id ≠ "" ∧ id ∈ (TrimSpace <$> ids)) (DoorIDs g)).
    + unfold CreateDoorGroup_check. do 2 (apply yields_any; intros ?).
      eapply yields_bind; [intros s0 s1 l Hl; exact (proj2 (Forall_forall _ _) (check_doors_given _ _ _ _ _ _ Hl))|].
      intros l Hl. by yields_run.
    + intros g Hg. by yields_run.
  - intros g Hg. apply yields_audited. simpl. eapply Forall_impl; [exact Hg|]. simpl. intros id [Hne (raw & -> & Hraw)%list_elem_of_fmap].
    apply in_buildings_door, (allowed_door x); [done|]. apply is_empty_false in Hne.
    destruct (decide (TrimSpace raw ∈ allowedDoorIDsByBuildingScope (ListDoors x (spaceSvc s)) sc)) as [|Hb]; [done|].
    exfalso. pose proof (bool_decide_eq_false_2 _ Hb) as Hb'. rewrite <-not_true_iff_false, existsb_exists in Hno. apply Hno.
    exists raw. split; [by apply list_elem_of_In|]. by rewrite Hne, Hb'.
Qed.
(** Whatever a building admin is shown is in the buildings of the admin. *)
Lemma replies_in_buildings r : role_of u = "building_admin" → ∀ s s' a,
  scope_for u s = Some sc → handle env (Some u) r s = (s', Ok a) → of_buildings sc (tables (spaceSvc s)) a.
Proof.
  intros Hu s s' a Hs. unfold handle, requireRoles. rewrite bind_op_eq, fail_if_bind. destruct (negb _) eqn:Hroles; [done|].
  cbn [mret op_ret]. revert s s' a Hs Hroles.
  assert (∀ (m : handler reply), (∀ t, shows m (of_buildings sc t)) → ∀ s s' a, scope_for u s = Some sc →
            negb (existsb (λ r0, let role := ToLower (TrimSpace r0) in negb (is_empty role) && String.eqb role (role_of u)) (roles_of r)) = false →
            m s = (s', Ok a) → of_buildings sc (tables (spaceSvc s)) a) as Hm by (intros m Hm s s' a Hs _; by apply Hm).
  destruct r; try (intros ? ? ? _ Hr; rewrite Hu in Hr; vm_compute in Hr; discriminate Hr); 
    lazymatch goal with
    | |- context [listDoorGroups] =>
        intros s s' a Hs _ H; apply bind_ok in H as (s1 & l & Hl & H); injection H as _ <-; by eapply groups_inside
    | |- context [createDoorGroup] =>
        intros s s' a Hs _ H; apply bind_ok in H as (s1 & g & Hg & H); injection H as _ <-; by eapply group_inside
    | _ => apply Hm; intros ?; apply shows_replied; simpl
    end;
    unfold getTenantTopology, listBuildings, listFloors, createFloor, getFloor, updateFloor, deleteFloor,
      listAreas, createArea, getArea, updateArea, listDoors, createDoor;
    try (apply shows_place; intros tn).
  - apply yields_any. intros ?. apply yields_ret. split_and!; apply filtered_inside.
  - apply yields_any. intros ?. apply yields_ret. apply filtered_inside.
  - apply yields_any. intros ?. apply yields_ret, placed_inside.
  - apply shows_required. intros Hb. eapply yields_called; [apply built_floor|]. intros f Hf. apply yields_audited. by rewrite Hf, TrimSpace_idem.
  - apply yields_any. intros ?. apply shows_required. intros Hb. by apply yields_ret.
  - apply yields_any. intros ?. apply shows_required. intros _. apply shows_required. intros Hb.
    eapply yields_called; [apply rebuilt_floor|]. intros x Hx. apply yields_audited. by rewrite Hx, TrimSpace_idem.
  - by intros ? ? ?.
  - apply yields_any. intros ?. apply yields_ret, placed_inside.
  - apply shows_required. intros Hb. eapply yields_called; [apply built_area|]. intros x Hx. apply yields_audited. by rewrite Hx, TrimSpace_idem.
  - apply yields_any. intros ?. apply shows_required. intros Hb. by apply yields_ret.
  - apply yields_any. intros ?. apply shows_required. intros _. apply shows_required. intros Hb.
    eapply yields_called; [apply rebuilt_area|]. intros y Hy. apply yields_audited. by rewrite Hy, TrimSpace_idem.
  - apply yields_any. intros ?. apply yields_ret, filtered_inside.
  - apply shows_required. intros Hb. eapply yields_called; [by apply built_door|]. intros x Hx. apply yields_audited. by rewrite Hx, TrimSpace_idem.
Qed.
End inside.

(** ** The properties *)

Lemma effect_for_topo {MC : Mac} env u s requested s' :
  effect_for env u s requested s' → topo (spaceSvc s) → fresh_ids env (tables (spaceSvc s)) → topo (spaceSvc s').
Proof. intros [->|[_ Hc]] Ht Hf; [done|]. by eapply call_topo; [apply Hc|]. Qed.
Lemma effect_for_rows {MC : Mac} env u s requested s' T :
  effect_for env u s requested s' → topo (spaceSvc s) → role_of u ≠ "super_admin" → TrimSpace (uTenantID u) ≠ T →
  rows_of T (tables (spaceSvc s')) = rows_of T (tables (spaceSvc s)).
Proof.
  intros [->|[(tn & Htn & He) _]] Ht Hu HT; [done|]. eapply effect_rows; [done|done|].
  unfold tenant_for in Htn. destruct (String.eqb_spec (role_of u) "super_admin"); [done|]. by destruct Htn as [-> _].
Qed.

Section service.
Context {MC : Mac}.

(** Requests, each with the world it runs in and its caller, one after the other. *)
Fixpoint serve (l : list (Env * AuthStore.User * request)) (s : server) : server :=
  match l with [] => s | (env, u, r) :: l => serve l (exec (handle env (Some u) r) s) end.
Fixpoint all_fresh (l : list (Env * AuthStore.User * request)) (s : server) : Prop :=
  match l with
  | [] => True
  | (env, u, r) :: l => fresh_ids env (tables (spaceSvc s)) ∧ all_fresh l (exec (handle env (Some u) r) s)
  end.

(** C3: Whatever the users of other tenants ask for, in any order and with any ids of the
    random source that are not in use, the rows of a tenant stay as they are, unless a
    super admin is among them. *)
Theorem tenant_isolation T l s :
  topo (spaceSvc s) → all_fresh l s →
  Forall (λ x, role_of x.1.2 ≠ "super_admin" ∧ TrimSpace (uTenantID x.1.2) ≠ T) l →
  rows_of T (tables (spaceSvc (serve l s))) = rows_of T (tables (spaceSvc s)).
Proof.
  revert s. induction l as [|[[env u] r] l IH]; intros s Ht Hf Hl; [done|]. simpl in *. destruct Hf as [Hf Hfs].
  apply Forall_cons in Hl as [[Hu HT] Hl]. assert (He := request_effect env u s r).
  rewrite IH; [by eapply effect_for_rows|by eapply effect_for_topo|done..].
Qed.

(** C15: No row of another tenant is in an answer to a user who is no super admin. *)
Theorem tenant_reads env u r s a :
  role_of u ≠ "super_admin" → answer (handle env (Some u) r) s = Ok a → of_tenant (TrimSpace (uTenantID u)) a.
Proof.
  intros Hu. unfold answer. destruct (handle env (Some u) r s) as [s1 x] eqn:Hx. simpl. intros ->. by eapply replies_of_tenant.
Qed.

(** C14: A building admin leaves buildings and all that is in other buildings than the
    admin's as it is: door groups too, but for doors of the admin's buildings taken out of
    them and new groups of such doors.  The admin is shown nothing of other buildings:
    the doors of a listed or created group are all in the admin's. *)
Theorem building_scope env u r s sc :
  role_of u = "building_admin" → scope_for u s = Some sc → topo (spaceSvc s) →
  let before := tables (spaceSvc s) in let after := tables (spaceSvc (exec (handle env (Some u) r) s)) in
  outside_of sc after = outside_of sc before
  ∧ (∃ new, groups_outside sc before (doorGroups after) = new ++ groups_outside sc before (doorGroups before)
            ∧ Forall (λ g, DoorIDs g = []) new)
  ∧ ∀ a, answer (handle env (Some u) r) s = Ok a → of_buildings sc before a.
Proof.
  intros Hu Hs Ht before after. subst before after.
  assert (∀ a, answer (handle env (Some u) r) s = Ok a → of_buildings sc (tables (spaceSvc s)) a) as Ha.
  { intros a. unfold answer. destruct (handle env (Some u) r s) as [s1 x] eqn:Hx. simpl. intros ->.
    eapply (replies_in_buildings env u sc); [by intros; eapply scope_trimmed|done..]. }
  destruct (request_effect env u s r) as [->|[(tn & _ & He) _]]; [split; [done|]; split; [by exists []|done]|].
  rewrite Hs in He. split; [by eapply effect_outside|]. split; [by eapply effect_groups|done].
Qed.
End service.

(** ** Examples *)

(** Two tenants, one with two buildings; and their users. *)
#[local] Existing Instance toy_mac.
#[local] Abbreviation ex_building := (λ id tn, mkBuilding id tn id "" "" "active" None 1%Z).
#[local] Abbreviation ex_door := (λ n, mkDoor ("d" +:+ n) "acme" ("b" +:+ n) ("f" +:+ n) ("a" +:+ n) "Door" "" "entry" "active" 1%Z).
#[local] Abbreviation ex_group := (λ ids, mkDoorGroup "dg_1" "acme" "All" ids 1%Z).
#[local] Abbreviation ex_tables :=
  (mkTables [ex_building "b1" "acme"; ex_building "b2" "acme"; ex_building "b9" "other"]
     [mkFloor "f1" "acme" "b1" "Ground" 1%Z; mkFloor "f2" "acme" "b2" "Ground" 1%Z; mkFloor "f9" "other" "b9" "Ground" 1%Z]
     [mkArea "a1" "acme" "b1" "f1" "Hall" 1%Z; mkArea "a2" "acme" "b2" "f2" "Lobby" 1%Z] [ex_door "1"; ex_door "2"] [ex_group ["d1"; "d2"]]).
#[local] Abbreviation ex_server := (demo_server <| spaceSvc := Space.mkService ex_tables None |>).
#[local] Abbreviation ex_user := (λ role tn bs, mkUser "usr_1" "Ana" "ana@x.io" role tn bs "" true).
#[local] Abbreviation ex_env := (mkEnv demo_time (Some "0a0b") StoreSaved).

Lemma two_tenants_topo : topo (Space.mkService ex_tables None).
Proof.
  split.
  1-4: repeat constructor; set_solver.
  - intros f Hf%list_elem_of_In. destruct Hf as [<-|[<-|[<-|[]]]];
      [exists (ex_building "b1" "acme")|exists (ex_building "b2" "acme")|exists (ex_building "b9" "other")]; (split; [set_solver|done]).
  - intros a Ha%list_elem_of_In. destruct Ha as [<-|[<-|[]]];
      [exists (mkFloor "f1" "acme" "b1" "Ground" 1%Z)|exists (mkFloor "f2" "acme" "b2" "Ground" 1%Z)]; (split; [set_solver|done]).
  - intros d Hd%list_elem_of_In. destruct Hd as [<-|[<-|[]]];
      [exists (mkArea "a1" "acme" "b1" "f1" "Hall" 1%Z)|exists (mkArea "a2" "acme" "b2" "f2" "Lobby" 1%Z)]; (split; [set_solver|done]).
  - intros g id ->%list_elem_of_singleton Hid%list_elem_of_In. destruct Hid as [<-|[<-|[]]]; [exists (ex_door "1")|exists (ex_door "2")];
      (split; [set_solver|done]).
Qed.

(** The admin of "acme" cannot name the other tenant, and deletes a floor of the own one. *)
Lemma tenant_isolation_witness :
  let ana := ex_user "tenant_admin" "acme" [] in
  let requests := [(ex_env, ana, DeleteFloorRq "other" "f9"); (ex_env, ana, DeleteFloorRq "" "f9"); (ex_env, ana, DeleteFloorRq "" "f2")] in
  let s := serve requests ex_server in
  rows_of "other" (tables (spaceSvc s)) = rows_of "other" ex_tables
  ∧ flID <$> floors (tables (spaceSvc s)) = ["f1"; "f9"] ∧ arID <$> areas (tables (spaceSvc s)) = ["a1"]
  ∧ doorGroups (tables (spaceSvc s)) = [ex_group ["d1"]]
  ∧ answer (handle ex_env (Some ana) (DeleteFloorRq "other" "f9")) ex_server = Err (HTTP 403 "tenant scope forbidden")
  ∧ answer (handle ex_env (Some ana) (DeleteFloorRq "" "f9")) ex_server = Err (HTTP 404 "floor not found").
Proof.
  cbv zeta. split.
  - apply (tenant_isolation "other"); [apply two_tenants_topo| |repeat constructor; vm_compute; discriminate].
    repeat split; intros h [= <-]; apply (bool_decide_unpack _); vm_compute; exact I.
  - split_and!; vm_compute; reflexivity.
Defined.

(** An operator lists the floors of the own tenant. *)
Lemma tenant_reads_witness :
  let floors := [mkFloor "f1" "acme" "b1" "Ground" 1%Z; mkFloor "f2" "acme" "b2" "Ground" 1%Z] in
  answer (handle ex_env (Some (ex_user "operator" " acme" [])) (ListFloorsRq "" "")) ex_server = Ok (RFloors floors)
  ∧ of_tenant "acme" (RFloors floors).
Proof.
  cbv zeta. split; [vm_compute; reflexivity|].
  apply (tenant_reads ex_env (ex_user "operator" " acme" []) (ListFloorsRq "" "") ex_server); [vm_compute; discriminate|vm_compute; reflexivity].
Defined.

(** The admin of "b1" may not move its floor to "b2", nor touch a floor there, and sees one
    floor; and of the group of both doors the one of "b1". *)
Lemma building_scope_witness :
  let bob := ex_user "building_admin" "acme" [" b1 "] in
  let ask r := answer (handle ex_env (Some bob) r) ex_server in
  let after := tables (spaceSvc (exec (handle ex_env (Some bob) (DeleteFloorRq "" "f1")) ex_server)) in
  (outside_of {["b1"]} after = outside_of {["b1"]} ex_tables
   ∧ ∃ new, groups_outside {["b1"]} ex_tables (doorGroups after) = new ++ groups_outside {["b1"]} ex_tables [ex_group ["d1"; "d2"]])
  ∧ flID <$> floors after = ["f2"; "f9"] ∧ doorGroups after = [ex_group ["d2"]]
  ∧ ask (UpdateFloorRq "" "" "f1" "b2" "" "Moved") = Err (HTTP 403 "building scope forbidden")
  ∧ ask (DeleteFloorRq "" "f2") = Err (HTTP 403 "building scope forbidden")
  ∧ ask (ListFloorsRq "" "") = Ok (RFloors [mkFloor "f1" "acme" "b1" "Ground" 1%Z])
  ∧ ask (ListDoorGroupsRq "") = Ok (RDoorGroups [ex_group ["d1"]])
  ∧ ask (CreateDoorGroupRq "" "Mine" ["d1"; " d2"]) = Err (HTTP 403 "building scope forbidden")
  ∧ is_ok (ask (CreateDoorGroupRq "" "Mine" [" d1"; " "])) = true.
Proof.
  cbv zeta. split; [|split_and!; vm_compute; reflexivity].
  destruct (building_scope ex_env (ex_user "building_admin" "acme" [" b1 "]) (DeleteFloorRq "" "f1") ex_server {["b1"]})
    as (H1 & (new & H2 & _) & _); [vm_compute; reflexivity|vm_compute; reflexivity|apply two_tenants_topo|].
  split; [exact H1|by exists new].
Defined.
