(* ===== verification/Cas.v ===== *)
(** * State shared by compare-and-swap (mutateStateLocked of modules/hris and modules/enterprise)

    Several replicas of the API keep one JSON document each in the state store.  A
    change reads the document, runs on a copy of it and is written back if the
    document is still the one that was read; otherwise it starts over, five times at
    most.  Here one such change is a thread of steps, one per access to the store, so
    that the steps of several replicas interleave; every schedule is shown to be a
    sequence of atomic changes of the document.

    The changes of a service are an abstract type [Op]; what its closure assigns
    outside the state ([captured] variables of the Go closure) is threaded through
    the attempts, because the closure of a later attempt sees what an earlier one
    left. *)

From S2P Require Import Prelude GoStrings.
#[local] Open Scope Z_scope.

(** [sort.Slice] with an order on rows. *)
Fixpoint insert_by {A} (before : A → A → bool) (x : A) (l : list A) : list A :=
  match l with
  | [] => [x]
  | y :: l' => if before y x then y :: insert_by before x l' else x :: l
  end.
Definition sort_by {A} (before : A → A → bool) (l : list A) : list A := foldr (insert_by before) [] l.

Lemma elem_of_insert_by {A} before (x y : A) l : y ∈ insert_by before x l ↔ y = x ∨ y ∈ l.
Proof.
  induction l as [|z l IH]; simpl; [set_solver|]. destruct (before z x); rewrite ?elem_of_cons, ?IH; tauto.
Qed.
Lemma elem_of_sort_by {A} before (y : A) l : y ∈ sort_by before l ↔ y ∈ l.
Proof.
  induction l as [|x l IH]; [done|]. change (sort_by before (x :: l)) with (insert_by before x (sort_by before l)).
  by rewrite elem_of_insert_by, IH, elem_of_cons.
Qed.

(** The stores a service can have, and what an access answers: a write that fails may
    still have been made. *)
Inductive StoreKind := NoStateStore | PlainStore | SwapStore.
Inductive Reply := Answers | Fails (made : bool).
Inductive cas_err (E : Type) := OpErr (e : E) | StoreErr | Conflict.
Arguments OpErr {E} e.
Arguments StoreErr {E}.
Arguments Conflict {E}.

Definition maxRetries : nat := 5.
#[global] Arguments maxRetries : simpl never.

(** What a service brings: its document [D], the closures of its operations, and the
    normalisations around them.  [expect] is applied to what was loaded before it is
    compared, [view] when it becomes the state in memory ([refreshed] in a store
    without compare-and-swap), [fin] after a change and [saved] when it is written.
    When there is no document, an attempt starts from [rebase] of the state the change
    began with, in a store without compare-and-swap from [missing] of it. *)
Class Document (D C E Op : Type) := {
  mutator : Op → C → D → C * D * result E bool;
  expect : D → D; view : D → D; refreshed : D → D; fin : D → D; saved : D → D; rebase : D → D; missing : D → D;
  #[global] document_eq :: EqDecision D
}.

Section cas.
Context `{!Document D C E Op}.

(** Where a change stands: [Swapping] remembers the document it read. *)
Inductive pc :=
| Loading (n : nat) (c : C)
| Swapping (n : nat) (c : C) (found : option D)
| Saving (c : C)
| Settling
| Done (r : result (cas_err E) C).
Record Replica := mkReplica { local : D; base : D; doing : option Op; at_ : pc }.

Definition restored (t : Replica) (found : option D) : D :=
  match found with Some x => view x | None => rebase (base t) end.

(** The lock is taken; without a store the change is made at once. *)
Definition start (kind : StoreKind) (o : Op) (c : C) (d : D) : Replica :=
  match kind with
  | NoStateStore =>
      let '(c', d', r) := mutator o c d in
      match r with
      | Ok changed => mkReplica (if changed : bool then fin d' else d') d (Some o) (Done (Ok c'))
      | Err e => mkReplica d' d (Some o) (Done (Err (OpErr e)))
      end
  | _ => mkReplica d d (Some o) (Loading 0 c)
  end.

(** One access to the store. *)
Definition step (kind : StoreKind) (reply : Reply) (cell : option D) (t : Replica) : option D * Replica :=
  let finished d r := mkReplica d (base t) (doing t) (Done r) in
  let goes d p := mkReplica d (base t) (doing t) p in
  match at_ t, doing t with
  | Loading n c, Some o =>
      match reply, kind with
      | Fails _, _ => (cell, finished (local t) (Err StoreErr))
      | Answers, SwapStore =>
          let found := expect <$> cell in
          let d0 := restored t found in
          let '(c', d', r) := mutator o c d0 in
          match r with
          | Err e => (cell, finished d0 (Err (OpErr e)))
          | Ok false => (cell, finished d0 (Ok c'))
          | Ok true => (cell, goes (fin d') (Swapping n c' found))
          end
      | Answers, _ =>
          let d0 := match cell with Some x => refreshed x | None => missing (local t) end in
          let '(c', d', r) := mutator o c d0 in
          match r with
          | Err e => (cell, finished d' (Err (OpErr e)))
          | Ok false => (cell, finished d' (Ok c'))
          | Ok true => (cell, goes (fin d') (Saving c'))
          end
      end
  | Swapping n c found, _ =>
      let same := bool_decide (cell = found) in
      match reply with
      | Fails made => (if made && same then Some (saved (local t)) else cell, finished (restored t found) (Err StoreErr))
      | Answers =>
          if same then (Some (saved (local t)), finished (local t) (Ok c))
          else if Nat.ltb (S n) maxRetries then (cell, goes (local t) (Loading (S n) c))
          else (cell, goes (local t) Settling)
      end
  | Saving c, _ =>
      match reply with
      | Fails made => (if made then Some (saved (local t)) else cell, finished (local t) (Err StoreErr))
      | Answers => (Some (saved (local t)), finished (local t) (Ok c))
      end
  | Settling, _ =>
      (cell, finished (match reply with Answers => restored t (expect <$> cell) | Fails _ => rebase (base t) end) (Err Conflict))
  | _, _ => (cell, t)
  end.

Definition is_done (t : Replica) : bool := match at_ t with Done _ => true | _ => false end.

(** ** A change ends *)

(** The accesses left, at most. *)
Definition accesses_left (t : Replica) : nat :=
  match at_ t with
  | Loading n _ => 2 * (maxRetries - n) + 1
  | Swapping n _ _ => 2 * (maxRetries - n)
  | Saving _ | Settling => 1
  | Done _ => 0
  end.
Definition sane (t : Replica) : Prop :=
  match at_ t with
  | Loading n _ => is_Some (doing t) ∧ (n < maxRetries)%nat
  | Swapping n _ _ => is_Some (doing t) ∧ (n < maxRetries)%nat
  | _ => True
  end.

Lemma start_sane kind o c d : sane (start kind o c d).
Proof.
  unfold start, sane. destruct kind; simpl; try (split; [done|unfold maxRetries; lia]).
  by destruct (mutator o c d) as [[c' d'] [[]|]].
Qed.
Lemma step_sane kind reply cell t : sane t → sane (step kind reply cell t).2.
Proof.
  unfold sane, step. destruct (at_ t) as [n c|n c found|c| |r] eqn:Ht; rewrite ?Ht; try done.
  - intros [[o ->] Hn]. destruct reply; [|done]. destruct kind;
      destruct (mutator o c _) as [[c' d'] [[]|]]; simpl; try done; by split.
  - intros [[o ->] Hn]. destruct reply; [|done]. destruct (bool_decide _); [done|].
    destruct (Nat.ltb_spec (S n) maxRetries); simpl; [|done]. split; [done|lia].
  - by destruct reply.
  - intros _. simpl. by rewrite Ht.
Qed.
Lemma step_shorter kind reply cell t :
  sane t → is_done t = false → (accesses_left (step kind reply cell t).2 < accesses_left t)%nat.
Proof.
  unfold sane, is_done, accesses_left, step. destruct (at_ t) as [n c|n c found|c| |r] eqn:Ht; try done.
  - intros [[o ->] Hn] _. destruct reply; simpl; [|lia]. destruct kind;
      destruct (mutator o c _) as [[c' d'] [[]|]]; simpl; lia.
  - intros [[o ->] Hn] _. destruct reply; simpl; [|lia]. destruct (bool_decide _); simpl; [lia|].
    unfold maxRetries in *. destruct (Nat.ltb_spec (S n) 5); simpl; lia.
  - intros _ _. by destruct reply; simpl; lia.
  - intros _ _. simpl. lia.
Qed.

(** The accesses of a change, each to the document the store has then. *)
Definition drive (kind : StoreKind) (t : Replica) (accesses : list (option D * Reply)) : Replica :=
  foldl (λ t '(x, reply), (step kind reply x t).2) t accesses.

(** C23: A change ends: after eleven accesses to the store it has answered, whatever the
    other replicas write and whichever accesses fail. *)
Theorem change_ends kind o c d accesses :
  (2 * maxRetries + 1 <= length accesses)%nat → is_done (drive kind (start kind o c d) accesses) = true.
Proof.
  intros Hl. assert (accesses_left (start kind o c d) <= length accesses)%nat as Ha.
  { unfold start, accesses_left. destruct kind; [destruct (mutator o c d) as [[c' d'] [[]|]]| |]; simpl in *; unfold maxRetries in *; lia. }
  pose proof (start_sane kind o c d) as Hs. clear Hl. revert Hs Ha. generalize (start kind o c d). unfold drive.
  induction accesses as [|[x reply] xs IH]; intros t Hs Ha; simpl in *.
  - unfold sane, accesses_left, is_done in *. destruct (at_ t); simpl in *; try done; unfold maxRetries in *; lia.
  - apply IH; [by apply step_sane|]. destruct (is_done t) eqn:Hd.
    + unfold is_done, accesses_left, step in *. destruct (at_ t) eqn:Ht; try done. simpl. rewrite Ht. lia.
    + pose proof (step_shorter kind reply x t Hs Hd). lia.
Qed.

(** ** Replicas side by side *)

(** A replica begins a change when it has none under way (its mutex), and takes the
    steps of the one it has. *)
Inductive Move := Begins (i : nat) (o : Op) (c : C) | Steps (i : nat) (reply : Reply).
Record System := mkSystem { cell : option D; replicas : list Replica }.

(** A change that ended: what it answered, and the document before and after its last access. *)
Record Event := mkEvent {
  evOp : Op; evResult : result (cas_err E) C; evBefore : option D; evAfter : option D
}.

Definition turn (m : Move) (s : System) : System * list Event :=
  match m with
  | Begins i o c =>
      match replicas s !! i with
      | Some t => if is_done t then (mkSystem (cell s) (<[i := start SwapStore o c (local t)]> (replicas s)), []) else (s, [])
      | None => (s, [])
      end
  | Steps i reply =>
      match replicas s !! i with
      | Some t =>
          if is_done t then (s, [])
          else
            let '(cell', t') := step SwapStore reply (cell s) t in
            (mkSystem cell' (<[i := t']> (replicas s)),
             match at_ t', doing t with Done r, Some o => [mkEvent o r (cell s) cell'] | _, _ => [] end)
      | None => (s, [])
      end
  end.
Fixpoint runs (ms : list Move) (s : System) : System * list Event :=
  match ms with
  | [] => (s, [])
  | m :: ms => let '(s1, e) := turn m s in let '(s2, es) := runs ms s1 in (s2, e ++ es)
  end.
Definition idle (d : D) : Replica := mkReplica d d None (Done (Err Conflict)).

(** ** Every schedule is a sequence of atomic changes *)

(** The state in memory a change starts from when the document is [x]. *)
Definition seen (b : D) (x : option D) : D := match expect <$> x with Some v => view v | None => b end.
Definition changes (o : Op) (c' : C) (x y : option D) : Prop :=
  ∃ b c d', mutator o c (seen b x) = (c', d', Ok true) ∧ y = Some (saved (fin d')).
Definition leaves (o : Op) (r : result E C) (x : option D) : Prop :=
  ∃ b c c' d', mutator o c (seen b x) = (c', d', match r with Ok _ => Ok false | Err e => Err e end)
               ∧ (∀ a, r = Ok a → a = c').

Definition explained (e : Event) : Prop :=
  match evResult e with
  | Ok c' => changes (evOp e) c' (evBefore e) (evAfter e) ∨ leaves (evOp e) (Ok c') (evBefore e) ∧ evAfter e = evBefore e
  | Err (OpErr x) => leaves (evOp e) (Err x) (evBefore e) ∧ evAfter e = evBefore e
  | Err StoreErr => evAfter e = evBefore e ∨ ∃ c', changes (evOp e) c' (evBefore e) (evAfter e)
  | Err Conflict => evAfter e = evBefore e
  end.
Fixpoint linked (x : option D) (es : list Event) (y : option D) : Prop :=
  match es with
  | [] => x = y
  | e :: es => evBefore e = x ∧ explained e ∧ linked (evAfter e) es y
  end.

Context (expect_idem : ∀ d, expect (expect d) = expect d).

(** What a replica is about to write comes from the document it read. *)
Definition prepared (t : Replica) : Prop :=
  match at_ t with
  | Swapping _ c found =>
      ∃ o b c0 d' v0, doing t = Some o ∧ found = expect <$> v0
        ∧ mutator o c0 (match found with Some v => view v | None => b end) = (c, d', Ok true) ∧ local t = fin d'
  | Saving _ => False
  | _ => True
  end.

Lemma step_explained reply x t o :
  prepared t → doing t = Some o → is_done t = false →
  let '(y, t') := step SwapStore reply x t in
  prepared t' ∧ doing t' = Some o
  ∧ match at_ t' with Done r => explained (mkEvent o r x y) | _ => y = x end.
Proof.
  unfold prepared, step, is_done, explained. intros Hp Ho Hd. destruct (at_ t) as [n c|n c found|c| |r] eqn:Ht; try done.
  - rewrite Ho. destruct reply; simpl; [|by auto].
    destruct (mutator o c _) as [[c' d'] [[]|e]] eqn:Hm; simpl.
    + split; [by exists o, (rebase (base t)), c, d', x|done].
    + split; [done|split; [done|]]. right. split; [|done]. exists (rebase (base t)), c, c', d'. split; [done|by intros a [= ->]].
    + split; [done|split; [done|]]. split; [|done]. by exists (rebase (base t)), c, c', d'.
  - destruct Hp as (o' & b & c0 & d' & v0 & Ho' & Hf & Hm & Hl). rewrite Ho in Ho'. injection Ho' as <-.
    assert (x = found → changes o c x (Some (saved (local t)))) as Hc.
    { intros ->. exists b, c0, d'. unfold seen. rewrite <- Hm, Hl. split; [|done]. f_equal. rewrite Hf.
      destruct v0; simpl; [by rewrite expect_idem|done]. }
    destruct reply as [|made]; simpl.
    + case_bool_decide; simpl; [by auto|]. by destruct (Nat.ltb _ _).
    + split; [done|split; [done|]]. case_bool_decide; destruct made; simpl; eauto.
Qed.

Definition ready (s : System) : Prop :=
  Forall (λ t, prepared t ∧ (is_done t = false → is_Some (doing t))) (replicas s).

Lemma linked_app x es y fs z : linked x es y → linked y fs z → linked x (es ++ fs) z.
Proof. revert x. induction es as [|e es IH]; intros x; simpl; [by intros ->|]. intros (-> & He & Hl) Hf. eauto. Qed.
Lemma turn_linked m s : ready s → ready (turn m s).1 ∧ linked (cell s) (turn m s).2 (cell (turn m s).1).
Proof.
  unfold ready. intros Hr. destruct m as [i o c|i reply]; simpl.
  - destruct (replicas s !! i) as [t|]; [|done]. destruct (is_done t); [|done]. simpl. split; [|done].
    apply Forall_insert; [done|]. by split.
  - destruct (replicas s !! i) as [t|] eqn:Hi; [|done]. destruct (is_done t) eqn:Hd; [done|].
    destruct (Forall_lookup_1 _ _ _ _ Hr Hi) as [Hp [o Ho]%(λ H, H Hd)].
    pose proof (step_explained reply (cell s) t o Hp Ho Hd) as He.
    destruct (step SwapStore reply (cell s) t) as [y t']. destruct He as (Hp' & Ho' & He). simpl. split.
    + apply Forall_insert; [done|]. split; [done|]. intros _. by eexists.
    + rewrite Ho. destruct (at_ t'); simpl; by auto.
Qed.

(** Whatever the schedule of the replicas and the failures of the store, the document
    goes through a sequence of atomic changes: every change that is answered happened
    as a whole at the last access of its replica, one answered with a conflict or an
    error of its own did not happen, and one answered with an error of the store
    happened as a whole or not at all. *)
Lemma replicas_atomic ms s :
  ready s → let '(s', es) := runs ms s in ready s' ∧ linked (cell s) es (cell s').
Proof.
  revert s. induction ms as [|m ms IH]; intros s Hr; [done|]. simpl.
  destruct (turn_linked m s Hr) as [Hr1 Hl]. destruct (turn m s) as [s1 e]. specialize (IH s1 Hr1).
  destruct (runs ms s1) as [s2 es]. destruct IH as [Hr2 Hl2]. split; [done|by eapply linked_app].
Qed.
Lemma idle_ready x ds : ready (mkSystem x (idle <$> ds)).
Proof. apply Forall_fmap, Forall_forall. by intros d _. Qed.

Lemma linked_explained x es y i e : linked x es y → es !! i = Some e → explained e.
Proof.
  revert x i. induction es as [|a es IH]; intros x [|i]; simpl; try done; intros (_ & Ha & Hl) Hi; simplify_eq; [done|].
  by eapply IH.
Qed.
(** What holds after one change and is kept by those in between holds before a later one. *)
Lemma linked_prefix (P : option D → Prop) (ok : Event → Prop) x es y j ej :
  (∀ e, explained e → ok e → P (evBefore e) → P (evAfter e)) →
  linked x es y → P x → (∀ k e, (k < j)%nat → es !! k = Some e → ok e) → es !! j = Some ej → P (evBefore ej).
Proof.
  intros Hk. revert x j. induction es as [|a es IH]; intros x [|j]; simpl; try done; intros (<- & Ha & Hl) Hx Ho Hj; simplify_eq; [done|].
  eapply (IH _ j); [done| |by intros k e Hke He; apply (Ho (S k)); [lia|]|done]. apply Hk; [done|by apply (Ho 0%nat a); [lia|]|done].
Qed.
Lemma linked_between (P : option D → Prop) (ok : Event → Prop) x es y i j ei ej :
  (∀ e, explained e → ok e → P (evBefore e) → P (evAfter e)) →
  linked x es y → (i < j)%nat → es !! i = Some ei → P (evAfter ei) →
  (∀ k e, (i < k < j)%nat → es !! k = Some e → ok e) → es !! j = Some ej → P (evBefore ej).
Proof.
  intros Hk. revert x i j. induction es as [|a es IH]; intros x [|i] [|j]; simpl; try done; try lia; intros (_ & Ha & Hl) Hij Hi Hp Ho Hj.
  - simplify_eq. eapply (linked_prefix P ok _ es y j); [done|done|done| |done]. intros k e Hke He. apply (Ho (S k)); [lia|done].
  - eapply (IH _ i j); [done|lia|done|done| |done]. intros k e Hke He. apply (Ho (S k)); [lia|done].
Qed.

(** The changes that end were begun. *)
Lemma step_doing kind reply x t : doing (step kind reply x t).2 = doing t.
Proof.
  unfold step. destruct (at_ t) as [n c|n c found|c| |r], (doing t) as [o|] eqn:Ho; simpl; rewrite ?Ho; try done.
  - destruct reply; simpl; [|done]. destruct kind; destruct (mutator o c _) as [[c' d'] [[]|]]; simpl; by rewrite ?Ho.
  - destruct reply; simpl; [|done]. destruct (bool_decide _); simpl; [done|]. by destruct (Nat.ltb _ _).
  - destruct reply; simpl; [|done]. destruct (bool_decide _); simpl; [done|]. by destruct (Nat.ltb _ _).
  - by destruct reply.
  - by destruct reply.
Qed.
Lemma runs_ops (P : Op → Prop) ms s :
  Forall (λ m, match m with Begins _ o _ => P o | Steps _ _ => True end) ms →
  Forall (λ t, ∀ o, doing t = Some o → P o) (replicas s) → Forall (λ e, P (evOp e)) (runs ms s).2.
Proof.
  revert s. induction ms as [|m ms IH]; intros s Hm Hs; [done|]. apply Forall_cons in Hm as [Hm Hms]. simpl.
  assert (Forall (λ t, ∀ o, doing t = Some o → P o) (replicas (turn m s).1) ∧ Forall (λ e, P (evOp e)) (turn m s).2) as [H1 H2].
  { destruct m as [i o c|i reply]; simpl.
    - destruct (replicas s !! i) as [t|]; [|done]. destruct (is_done t); [|done]. simpl. split; [|done].
      apply Forall_insert; [done|]. by intros ? [= <-].
    - destruct (replicas s !! i) as [t|] eqn:Hi; [|done]. destruct (is_done t); [done|].
      pose proof (Forall_lookup_1 _ _ _ _ Hs Hi) as Ht. simpl in Ht.
      pose proof (step_doing SwapStore reply (cell s) t) as Hd.
      destruct (step SwapStore reply (cell s) t) as [y t']. simpl in *. split.
      + apply Forall_insert; [done|]. by rewrite Hd.
      + destruct (at_ t'), (doing t); try done. apply Forall_singleton. by apply Ht. }
  destruct (turn m s) as [s1 e]. specialize (IH s1 Hms H1). destruct (runs ms s1) as [s2 es]. by apply Forall_app_2.
Qed.
End cas.
