(* ===== verification/Dlq.v ===== *)
(** * Dead letters of the HRIS webhooks (modules/hris/dlq.go)

    Webhook events that could not be processed wait here to be replayed.  A replica
    that replays one claims it first; a claim is in force for a timeout, a failed
    replay waits for an exponential backoff.  The table is one document of the state
    store, changed through [Cas]. *)

From S2P Require Import Prelude GoStrings GoTime Backoff Cas.
#[local] Open Scope string_scope.
#[local] Open Scope list_scope.
#[local] Open Scope Z_scope.

Inductive dlq_err :=
| ErrDLQTenantIDRequired | ErrDLQFailureStageRequired | ErrDLQErrorRequired | ErrDLQEntryNotFound | ErrRandom.

Record DeadLetterEntry := mkEntry {
  dlID : string; dlTenantID : string; dlConnectorID : string; dlVendor : string; dlReceiptID : string;
  dlRequestID : string; dlEventType : string; dlFailureStage : string; dlError : string; dlRawPayloadRef : string;
  dlStatus : string; dlReplayCount : Z; dlLastReplayAt : option Z; dlResolvedAt : option Z; dlCreatedAt : Z; dlUpdatedAt : Z
}.
#[export] Instance eta_entry : Eta DeadLetterEntry := λ e,
  mkEntry (dlID e) (dlTenantID e) (dlConnectorID e) (dlVendor e) (dlReceiptID e) (dlRequestID e) (dlEventType e)
    (dlFailureStage e) (dlError e) (dlRawPayloadRef e) (dlStatus e) (dlReplayCount e) (dlLastReplayAt e)
    (dlResolvedAt e) (dlCreatedAt e) (dlUpdatedAt e).
#[export] Instance entry_eq : EqDecision DeadLetterEntry.
Proof. solve_decision. Defined.

Record DeadLetterFailureInput := mkFailure {
  fiTenantID : string; fiConnectorID : string; fiVendor : string; fiReceiptID : string; fiRequestID : string;
  fiEventType : string; fiFailureStage : string; fiError : string; fiRawPayloadRef : string
}.

Record deadLetterDueIndexEntry := mkDue { dueEntryID : string; DueAt : Z }.
#[export] Instance due_eq : EqDecision deadLetterDueIndexEntry.
Proof. solve_decision. Defined.

(** [deadLetterSnapshot]: what a replica has in memory and what the store keeps. *)
Record DLQ := mkDLQ { entries : list DeadLetterEntry; dueEntryIDs : list deadLetterDueIndexEntry }.
#[export] Instance eta_dlq : Eta DLQ := λ d, mkDLQ (entries d) (dueEntryIDs d).
#[export] Instance dlq_eq : EqDecision DLQ.
Proof. solve_decision. Defined.

(** ** Claims *)

Record ClaimParams := mkParams {
  maxAttempts : Z; retryCooldown : Z; retryMaxBackoff : Z; processingTimeout : Z; claimNow : Z
}.
Definition normalizeDLQReplayClaimParams (clock : Z) (p : ClaimParams) : ClaimParams :=
  let '(cooldown, backoff) := Normalize (retryCooldown p) (retryMaxBackoff p) in
  mkParams (if maxAttempts p <? 0 then 0 else maxAttempts p) cooldown backoff
    (if processingTimeout p <=? 0 then 5 * minute else processingTimeout p)
    (if IsZero (claimNow p) then clock else claimNow p).

(** The reason not to replay an entry; empty when it can be claimed. *)
Definition dlqReplayClaimReason (item : DeadLetterEntry) (p : ClaimParams) : string :=
  let status := TrimSpace (dlStatus item) in
  if String.eqb status "dlq" then
    if (0 <? maxAttempts p) && (maxAttempts p <=? dlReplayCount item) then "attempt_limit"
    else
      let retryDelay := Exponential (dlReplayCount item) (retryCooldown p) (retryMaxBackoff p) in
      match dlLastReplayAt item with
      | Some t => if (0 <? retryDelay) && After (t + retryDelay) (claimNow p) then "cooldown" else ""
      | None => ""
      end
  else if String.eqb status "replaying" then
    match dlLastReplayAt item with
    | Some t => if After (t + processingTimeout p) (claimNow p) then "in_flight" else ""
    | None => ""
    end
  else "not_replayable".

Definition has_id (id : string) (e : DeadLetterEntry) : bool := String.eqb (TrimSpace (dlID e)) id.
Definition findDLQEntryByIDLocked (items : list DeadLetterEntry) (entryID : string) : option DeadLetterEntry :=
  if is_empty (TrimSpace entryID) then None else snd <$> findi (has_id (TrimSpace entryID)) items.

(** ** The index of due entries *)

Definition isDLQDueIndexCandidate (status : string) : bool :=
  let status := TrimSpace status in String.eqb status "dlq" || String.eqb status "replaying".
Definition dlqReplayDueIndexHeuristic (item : DeadLetterEntry) : Z :=
  match dlLastReplayAt item with Some t => if IsZero t then dlCreatedAt item else t | None => dlCreatedAt item end.
Definition dlqReplayProcessingDueAt (clock now processingTimeout : Z) : Z :=
  let now := if IsZero now then clock else now in
  if processingTimeout <=? 0 then now else now + processingTimeout.
Definition dlqReplayFailureDueAt (clock : Z) (item : DeadLetterEntry) (cooldown backoff now : Z) : Z :=
  let late := if IsZero now then clock else now in
  let base := match dlLastReplayAt item with Some t => if IsZero t then late else t | None => late end in
  base + Exponential (dlReplayCount item) cooldown backoff.

Definition due_before (a b : deadLetterDueIndexEntry) : bool :=
  if DueAt a =? DueAt b then String.ltb (dueEntryID a) (dueEntryID b) else Before (DueAt a) (DueAt b).
Definition sortDLQDueIndexEntries : list deadLetterDueIndexEntry → list deadLetterDueIndexEntry := sort_by due_before.

Definition due_of (id : string) (x : deadLetterDueIndexEntry) : bool := String.eqb (TrimSpace (dueEntryID x)) id.
Definition upsertDLQDueIndexLocked (clock : Z) (entryID : string) (dueAt : Z) (d : DLQ) : DLQ :=
  let nextEntryID := TrimSpace entryID in
  if is_empty nextEntryID then d
  else
    let nextDueAt := if IsZero dueAt then clock else dueAt in
    match findi (due_of nextEntryID) (dueEntryIDs d) with
    | Some (i, x) => d <| dueEntryIDs := sortDLQDueIndexEntries (<[i := mkDue (dueEntryID x) nextDueAt]> (dueEntryIDs d)) |>
    | None => d <| dueEntryIDs := sortDLQDueIndexEntries (dueEntryIDs d ++ [mkDue nextEntryID nextDueAt]) |>
    end.
Definition removeDLQDueIndexLocked (entryID : string) (d : DLQ) : DLQ :=
  if is_empty (TrimSpace entryID) then d
  else d <| dueEntryIDs ::= filterb (λ x, negb (due_of (TrimSpace entryID) x)) |>.

Definition known_due (l : list deadLetterDueIndexEntry) : gmap string Z :=
  foldl (λ m x, if is_empty (TrimSpace (dueEntryID x)) || IsZero (DueAt x) then m
                else <[TrimSpace (dueEntryID x) := DueAt x]> m) ∅ l.
(** The rows of the index an entry has. *)
Definition due_row (due : DeadLetterEntry → Z) (item : DeadLetterEntry) : option deadLetterDueIndexEntry :=
  if isDLQDueIndexCandidate (dlStatus item) && negb (is_empty (TrimSpace (dlID item)))
  then Some (mkDue (TrimSpace (dlID item)) (due item)) else None.
Definition normalizeDLQDueIndexLocked (d : DLQ) : DLQ :=
  let existing := known_due (dueEntryIDs d) in
  d <| dueEntryIDs := sortDLQDueIndexEntries
         (omap (due_row (λ e, default (dlqReplayDueIndexHeuristic e) (existing !! TrimSpace (dlID e)))) (entries d)) |>.
Definition buildDLQDueIndexEntries (items : list DeadLetterEntry) : list deadLetterDueIndexEntry :=
  sortDLQDueIndexEntries (omap (due_row dlqReplayDueIndexHeuristic) items).

Definition cloneDLQDueIndexEntries (items : list deadLetterDueIndexEntry) : list deadLetterDueIndexEntry :=
  filterb (λ x, negb (is_empty (dueEntryID x))) ((λ x, mkDue (TrimSpace (dueEntryID x)) (DueAt x)) <$> items).
Definition cloned (d : DLQ) : DLQ := d <| dueEntryIDs ::= cloneDLQDueIndexEntries |>.

(** ** Listings *)

Definition newer (a b : DeadLetterEntry) : bool :=
  if dlUpdatedAt a =? dlUpdatedAt b then String.ltb (dlID b) (dlID a) else After (dlUpdatedAt a) (dlUpdatedAt b).
Definition of_scope (tenantID connectorID : string) (e : DeadLetterEntry) : bool :=
  (is_empty (TrimSpace tenantID) || String.eqb (TrimSpace (dlTenantID e)) (TrimSpace tenantID))
  && (is_empty (TrimSpace connectorID) || String.eqb (TrimSpace (dlConnectorID e)) (TrimSpace connectorID)).
Definition cut {A} (limit : Z) (l : list A) : list A :=
  if (0 <? limit) && (limit <? Z.of_nat (length l)) then take (Z.to_nat limit) l else l.

Definition ListEntries (tenantID connectorID : string) (limit : Z) (d : DLQ) : list DeadLetterEntry :=
  cut limit (sort_by newer (filterb (of_scope tenantID connectorID) (entries d))).
Definition claimable (tenantID connectorID : string) (p : ClaimParams) (e : DeadLetterEntry) : bool :=
  of_scope tenantID connectorID e && is_empty (dlqReplayClaimReason e p).
Definition listClaimableDLQEntriesForReplayWithBackoffLocked (tenantID connectorID : string) (p : ClaimParams) (limit : Z)
    (items : list DeadLetterEntry) : list DeadLetterEntry :=
  cut limit (sort_by newer (filterb (claimable tenantID connectorID p) items)).
Definition ListClaimableEntriesForReplayWithBackoff (clock : Z) (tenantID connectorID : string) (p : ClaimParams)
    (limit : Z) (d : DLQ) : list DeadLetterEntry :=
  listClaimableDLQEntriesForReplayWithBackoffLocked tenantID connectorID (normalizeDLQReplayClaimParams clock p) limit
    (entries d).

(** The loops of [ListDueEntriesForReplayWithBackoff]: rows of the index up to the
    first that is not due, then what the index does not have; each id once.  A negative
    limit is the capacity the list is made with, and panics: [None]. *)
Definition full (limit : Z) (items : list DeadLetterEntry) : bool :=
  (0 <? limit) && (limit <=? Z.of_nat (length items)).
Fixpoint due_loop (tenantID connectorID : string) (p : ClaimParams) (limit : Z) (all : list DeadLetterEntry)
    (rows : list deadLetterDueIndexEntry) (items : list DeadLetterEntry) : list DeadLetterEntry * bool :=
  match rows with
  | [] => (items, false)
  | row :: rows =>
      if negb (IsZero (DueAt row)) && After (DueAt row) (claimNow p) then (items, false)
      else
        match findDLQEntryByIDLocked all (dueEntryID row) with
        | Some item =>
            if claimable tenantID connectorID p item && negb (existsb (λ x, String.eqb (dlID x) (dlID item)) items) then
              let items := items ++ [item] in
              if full limit items then (items, true) else due_loop tenantID connectorID p limit all rows items
            else due_loop tenantID connectorID p limit all rows items
        | None => due_loop tenantID connectorID p limit all rows items
        end
  end.
Fixpoint fill_loop (limit : Z) (more items : list DeadLetterEntry) : list DeadLetterEntry :=
  match more with
  | [] => items
  | x :: more =>
      if existsb (λ y, String.eqb (dlID y) (dlID x)) items then fill_loop limit more items
      else let items := items ++ [x] in if full limit items then items else fill_loop limit more items
  end.
Definition ListDueEntriesForReplayWithBackoff (clock : Z) (tenantID connectorID : string) (p : ClaimParams) (limit : Z)
    (d : DLQ) : option (list DeadLetterEntry) :=
  let p := normalizeDLQReplayClaimParams clock p in
  if limit <? 0 then None
  else
    let '(items, enough) := due_loop tenantID connectorID p limit (entries d) (dueEntryIDs d) [] in
    Some (if enough then items
          else fill_loop limit (listClaimableDLQEntriesForReplayWithBackoffLocked tenantID connectorID p 0 (entries d)) items).

Definition GetEntry (entryID : string) (d : DLQ) : result dlq_err DeadLetterEntry :=
  if is_empty (TrimSpace entryID) then Err ErrDLQEntryNotFound
  else match findi (has_id (TrimSpace entryID)) (entries d) with
       | Some (_, e) => Ok e
       | None => Err ErrDLQEntryNotFound
       end.

(** ** Changes *)

(** What the closures assign outside the table, and the clock they read: a closure
    that runs again reads a later time. *)
Record captured := mkCaptured { capEntry : DeadLetterEntry; capReason : string; capClock : nat → Z }.
Definition later (ticks : nat → Z) : nat → Z := λ n, ticks (S n).
Definition no_entry : DeadLetterEntry := mkEntry "" "" "" "" "" "" "" "" "" "" "" 0 None None time_zero time_zero.

Inductive change :=
| Appends (new : DeadLetterEntry)
| Claims (clock : Z) (entryID : string) (p : ClaimParams)
| FailsReplay (entryID failure : string) (cooldown backoff : Z)
| Resolves (entryID : string)
| PutsBack (snapshot : DeadLetterEntry).

(** The closures of the operations: [Ok true] is a change, [Ok false] none. *)
Definition put (i : nat) (e : DeadLetterEntry) (d : DLQ) : DLQ := d <| entries ::= <[i := e]> |>.
Definition append_closure (new : DeadLetterEntry) (c : captured) (d : DLQ) : captured * DLQ * result dlq_err bool :=
  let same e := String.eqb (TrimSpace (dlReceiptID e)) (dlReceiptID new)
                && String.eqb (TrimSpace (dlFailureStage e)) (dlFailureStage new)
                && String.eqb (TrimSpace (dlStatus e)) "dlq" in
  match (if is_empty (dlReceiptID new) then None else findi same (entries d)) with
  | Some (i, e) =>
      let e := e <| dlConnectorID := dlConnectorID new |> <| dlVendor := dlVendor new |>
                 <| dlRequestID := dlRequestID new |> <| dlEventType := dlEventType new |>
                 <| dlError := dlError new |> <| dlRawPayloadRef := dlRawPayloadRef new |>
                 <| dlUpdatedAt := dlUpdatedAt new |> in
      (mkCaptured e (capReason c) (capClock c), put i e d, Ok true)
  | None =>
      (c, upsertDLQDueIndexLocked (dlUpdatedAt new) (dlID (capEntry c)) (dlCreatedAt (capEntry c))
            (d <| entries ::= cons (capEntry c) |>), Ok true)
  end.
Definition claim_closure (clock : Z) (entryID : string) (p : ClaimParams) (c : captured) (d : DLQ) : captured * DLQ * result dlq_err bool :=
  match findi (has_id entryID) (entries d) with
  | Some (i, e) =>
      let reason := dlqReplayClaimReason e p in
      if negb (is_empty reason) then (mkCaptured e reason (capClock c), d, Ok false)
      else
        let e := e <| dlReplayCount ::= Z.add 1 |> <| dlStatus := "replaying" |> <| dlResolvedAt := None |>
                   <| dlUpdatedAt := claimNow p |> <| dlLastReplayAt := Some (claimNow p) |> in
        (mkCaptured e "" (capClock c),
         upsertDLQDueIndexLocked clock (dlID e) (dlqReplayProcessingDueAt clock (claimNow p) (processingTimeout p)) (put i e d),
         Ok true)
  | None => (c, d, Err ErrDLQEntryNotFound)
  end.
Definition fail_closure (entryID failure : string) (cooldown backoff : Z) (c : captured) (d : DLQ) : captured * DLQ * result dlq_err bool :=
  let now := capClock c 0%nat in
  match findi (has_id entryID) (entries d) with
  | Some (i, e) =>
      let e := if negb (String.eqb (TrimSpace (dlStatus e)) "replaying") || bool_decide (dlLastReplayAt e = None)
               then e <| dlReplayCount ::= Z.add 1 |> <| dlLastReplayAt := Some now |> else e in
      let e := e <| dlUpdatedAt := now |> <| dlResolvedAt := None |> <| dlStatus := "dlq" |> <| dlError := TrimSpace failure |> in
      (mkCaptured e (capReason c) (later (capClock c)),
       upsertDLQDueIndexLocked now (dlID e) (dlqReplayFailureDueAt now e cooldown backoff now) (put i e d), Ok true)
  | None => (c, d, Err ErrDLQEntryNotFound)
  end.
Definition resolve_closure (entryID : string) (c : captured) (d : DLQ) : captured * DLQ * result dlq_err bool :=
  let now := capClock c 0%nat in
  match findi (has_id entryID) (entries d) with
  | Some (i, e) =>
      let e := if negb (String.eqb (TrimSpace (dlStatus e)) "replaying") || bool_decide (dlLastReplayAt e = None)
               then e <| dlReplayCount ::= Z.add 1 |> <| dlLastReplayAt := Some now |> else e in
      let e := e <| dlResolvedAt := Some now |> <| dlUpdatedAt := now |> <| dlStatus := "resolved" |> in
      (mkCaptured e (capReason c) (later (capClock c)), removeDLQDueIndexLocked (dlID e) (put i e d), Ok true)
  | None => (c, d, Err ErrDLQEntryNotFound)
  end.
Definition restore_closure (snapshot : DeadLetterEntry) (c : captured) (d : DLQ) : captured * DLQ * result dlq_err bool :=
  match findi (has_id (TrimSpace (dlID snapshot))) (entries d) with
  | Some (i, _) => (mkCaptured snapshot (capReason c) (capClock c), put i snapshot d, Ok true)
  | None => (c, d, Err ErrDLQEntryNotFound)
  end.
Definition closure (o : change) : captured → DLQ → captured * DLQ * result dlq_err bool :=
  match o with
  | Appends new => append_closure new
  | Claims clock entryID p => claim_closure clock entryID p
  | FailsReplay entryID failure cooldown backoff => fail_closure entryID failure cooldown backoff
  | Resolves entryID => resolve_closure entryID
  | PutsBack snapshot => restore_closure snapshot
  end.

#[export] Instance dlq_document : Document DLQ captured dlq_err change := {|
  mutator := closure; expect := id; view := cloned; refreshed := λ d, normalizeDLQDueIndexLocked (cloned d);
  fin := normalizeDLQDueIndexLocked; saved := cloned; rebase := cloned; missing := id
|}.

(** ** The operations

    What each checks before it takes the lock, the change it then makes, and what it
    answers from what the closure assigned. *)

Abbreviation begins := (result dlq_err (change * captured)).

Definition AppendFailure (env : Env) (input : DeadLetterFailureInput) : begins :=
  if is_empty (TrimSpace (fiTenantID input)) then Err ErrDLQTenantIDRequired
  else if is_empty (TrimSpace (fiFailureStage input)) then Err ErrDLQFailureStageRequired
  else if is_empty (TrimSpace (fiError input)) then Err ErrDLQErrorRequired
  else match fresh env with
  | None => Err ErrRandom
  | Some h =>
      let entry := mkEntry ("hdlq_" +:+ h) (TrimSpace (fiTenantID input)) (TrimSpace (fiConnectorID input))
        (TrimSpace (fiVendor input)) (TrimSpace (fiReceiptID input)) (TrimSpace (fiRequestID input))
        (TrimSpace (fiEventType input)) (TrimSpace (fiFailureStage input)) (TrimSpace (fiError input))
        (TrimSpace (fiRawPayloadRef input)) "dlq" 0 None None (now env) (now env) in
      Ok (Appends entry, mkCaptured entry "" (λ _, now env))
  end.
Definition ClaimEntryForReplayWithBackoff (clock : Z) (entryID : string) (p : ClaimParams) : begins :=
  if is_empty (TrimSpace entryID) then Err ErrDLQEntryNotFound
  else Ok (Claims clock (TrimSpace entryID) (normalizeDLQReplayClaimParams clock p), mkCaptured no_entry "" (λ _, clock)).
Definition ClaimEntryForReplay (clock : Z) (entryID : string) (attempts cooldown timeout at_ : Z) : begins :=
  ClaimEntryForReplayWithBackoff clock entryID (mkParams attempts cooldown cooldown timeout at_).
Definition MarkReplayFailedWithBackoff (ticks : nat → Z) (entryID : string) (failure : option string) (cooldown backoff : Z) : begins :=
  if is_empty (TrimSpace entryID) then Err ErrDLQEntryNotFound
  else match failure with
       | None => Err ErrDLQErrorRequired
       | Some f => Ok (FailsReplay (TrimSpace entryID) f cooldown backoff, mkCaptured no_entry "" ticks)
       end.
Definition MarkReplayFailed (ticks : nat → Z) (entryID : string) (failure : option string) : begins :=
  MarkReplayFailedWithBackoff ticks entryID failure 0 0.
Definition MarkResolved (ticks : nat → Z) (entryID : string) : begins :=
  if is_empty (TrimSpace entryID) then Err ErrDLQEntryNotFound
  else Ok (Resolves (TrimSpace entryID), mkCaptured no_entry "" ticks).
Definition RestoreEntry (snapshot : DeadLetterEntry) : begins :=
  if is_empty (TrimSpace (dlID snapshot)) then Err ErrDLQEntryNotFound
  else Ok (PutsBack snapshot, mkCaptured no_entry "" (λ _, time_zero)).

(** The answer of a claim: the entry, and the reason it was not claimed. *)
Definition claim_answer (c : captured) : result dlq_err (DeadLetterEntry * string) :=
  if negb (is_empty (capReason c)) then Ok (capEntry c, capReason c)
  else if is_empty (dlID (capEntry c)) then Err ErrDLQEntryNotFound else Ok (capEntry c, "").

(** A read of the store: at start-up, and by [RefreshState]. *)
Definition restoreFromStateStore (loaded : option (option DLQ)) (d : DLQ) : DLQ :=
  match loaded with Some (Some x) => normalizeDLQDueIndexLocked (cloned x) | _ => d end.
Definition RefreshState := restoreFromStateStore.

(** ** Claims exclude each other *)

Abbreviation event := (Event (D:=DLQ) (C:=captured) (E:=dlq_err) (Op:=change)).

(** The claims that were won, and the changes that give a claim back. *)
Definition wins (id : string) (p : ClaimParams) (e : event) : Prop :=
  ∃ clock c, evOp e = Claims clock id p ∧ evResult e = Ok c ∧ capReason c = "".
Definition won_at (id : string) (e : event) : option Z :=
  match evOp e, evResult e with
  | Claims _ i p, Ok c => if String.eqb i id && is_empty (capReason c) then Some (claimNow p) else None
  | _, _ => None
  end.
Lemma won_at_wins id e t : won_at id e = Some t ↔ ∃ p, wins id p e ∧ claimNow p = t.
Proof.
  unfold won_at, wins. split.
  - destruct (evOp e) as [|clock i p| | |] eqn:Ho, (evResult e) as [c|] eqn:Hr; try done.
    destruct (String.eqb_spec i id) as [->|]; [|done]. destruct (is_empty (capReason c)) eqn:Hc; [|done].
    intros [= <-]. exists p. split; [|done]. exists clock, c. by rewrite <- is_empty_true.
  - intros (p & (clock & c & -> & -> & ->) & <-). by rewrite String.eqb_refl.
Qed.
Definition gives_back (id : string) (e : event) : bool :=
  match evOp e with
  | FailsReplay i _ _ _ | Resolves i => String.eqb i id
  | PutsBack x => String.eqb (TrimSpace (dlID x)) id
  | _ => false
  end.
(** An entry of that id is put in front of the table. *)
Definition doubles (id : string) (e : event) : bool :=
  match evOp e, evBefore e, evAfter e with
  | Appends _, x, Some y =>
      Nat.ltb (length (from_option entries [] x)) (length (entries y)) && existsb (has_id id) (take 1 (entries y))
  | _, _, _ => false
  end.

(** The entry is being replayed since [t] at the earliest. *)
Definition held (id : string) (t : Z) (d : DLQ) : Prop :=
  ∃ i e t', findi (has_id id) (entries d) = Some (i, e) ∧ dlStatus e = "replaying" ∧ dlLastReplayAt e = Some t' ∧ t <= t'.

Lemma entries_upsert clock id at_ d : entries (upsertDLQDueIndexLocked clock id at_ d) = entries d.
Proof. unfold upsertDLQDueIndexLocked. destruct (is_empty _); [done|]. by destruct (findi _ _) as [[]|]. Qed.
Lemma entries_remove id d : entries (removeDLQDueIndexLocked id d) = entries d.
Proof. unfold removeDLQDueIndexLocked. by destruct (is_empty _). Qed.
Lemma entries_fin d : entries (saved (fin d)) = entries d.
Proof. done. Qed.

Lemma held_put id t d d' i x y :
  findi (has_id id) (entries d) = Some (i, x) → entries d' = <[i := y]> (entries d) → dlID y = dlID x →
  dlStatus y = "replaying" → (∃ t', dlLastReplayAt y = Some t' ∧ t <= t') → held id t d'.
Proof.
  intros Hf He Hid Hs (t' & Ht & Hle). exists i, y, t'. split; [|done]. rewrite He.
  erewrite findi_insert; [by rewrite Nat.eqb_refl|by eapply findi_lookup|by unfold has_id; rewrite Hid|done].
Qed.
(** A change of another row leaves the claim. *)
Lemma held_other id t d d' i x y :
  held id t d → entries d !! i = Some x → entries d' = <[i := y]> (entries d) → has_id id y = has_id id x →
  (has_id id x = true → dlStatus x ≠ "replaying") → held id t d'.
Proof.
  intros (k & e & t' & Hf & Hs & Ht & Hle) Hi He Hid Hx. exists k, e, t'. split; [|done]. rewrite He.
  erewrite findi_insert; [|done..]. destruct (Nat.eqb_spec i k) as [->|]; [|done].
  apply findi_lookup in Hf as Hk. rewrite Hk in Hi. injection Hi as ->. exfalso. apply Hx; [by eapply findi_true|done].
Qed.

Definition held_in (id : string) (t : Z) (x : option DLQ) : Prop := ∃ d, x = Some d ∧ held id t d.
Lemma held_entries id t d d' : entries d' = entries d → held id t d → held id t d'.
Proof. unfold held. by intros ->. Qed.

Lemma claim_made clock id p c d c' d' :
  closure (Claims clock id p) c d = (c', d', Ok true) →
  ∃ i e e', findi (has_id id) (entries d) = Some (i, e) ∧ dlqReplayClaimReason e p = ""
    ∧ entries d' = <[i := e']> (entries d) ∧ dlID e' = dlID e ∧ dlStatus e' = "replaying"
    ∧ dlLastReplayAt e' = Some (claimNow p) ∧ capReason c' = "".
Proof.
  simpl. unfold claim_closure. destruct (findi _ _) as [[i e]|]; [|done]. destruct (is_empty (dlqReplayClaimReason e p)) eqn:Hr; [|done].
  intros [= <- <-]. do 3 eexists. split_and!; [done|by apply is_empty_true|by rewrite entries_upsert|done..].
Qed.
Lemma claim_refused clock id p c d c' d' :
  closure (Claims clock id p) c d = (c', d', Ok false) → capReason c' ≠ "".
Proof.
  simpl. unfold claim_closure. destruct (findi _ _) as [[i e]|]; [|done]. destruct (is_empty (dlqReplayClaimReason e p)) eqn:Hr; [done|].
  intros [= <- _]. by apply is_empty_false.
Qed.
(** A claim that is in force cannot be won again before its timeout. *)
Lemma held_refuses id t d i e p :
  held id t d → findi (has_id id) (entries d) = Some (i, e) → dlqReplayClaimReason e p = "" →
  t + processingTimeout p <= claimNow p.
Proof.
  intros (i' & e' & t' & Hf & Hs & Ht & Hle) Hf'. rewrite Hf in Hf'. injection Hf' as -> ->.
  unfold dlqReplayClaimReason. rewrite Hs, Ht. simpl. unfold After. case_match eqn:Hlt; [done|]. intros _. lia.
Qed.

(** What a change that is no claim of the entry does to the claim. *)
Lemma closure_keeps id t o c d c' d' :
  closure o c d = (c', d', Ok true) → held id t d →
  match o with
  | Appends _ => (length (entries d) < length (entries d'))%nat → existsb (has_id id) (take 1 (entries d')) = false
  | Claims _ _ p => 0 < processingTimeout p
  | FailsReplay i _ _ _ | Resolves i => i ≠ id
  | PutsBack x => TrimSpace (dlID x) ≠ id
  end → held id t d'.
Proof.
  destruct o as [new|clock i p|i f cd bo|i|snap]; intros Hc Hh Ho.
  - simpl in Hc. unfold append_closure in Hc. destruct (if is_empty _ then None else findi _ _) as [[k e]|] eqn:Hf.
    + destruct (is_empty (dlReceiptID new)); [done|]. injection Hc as <- <-. apply findi_lookup in Hf as Hk. apply findi_true in Hf.
      eapply held_other; [done|done|done|done|]. intros _ Hs. rewrite Hs in Hf. by rewrite andb_false_r in Hf.
    + injection Hc as <- <-. rewrite entries_upsert in Ho. simpl in Ho. specialize (Ho ltac:(lia)). rewrite orb_false_r in Ho.
      destruct Hh as (k & e & t' & Hk & ?). exists (S k), e, t'. rewrite entries_upsert. simpl. by rewrite Ho, Hk.
  - apply claim_made in Hc as (k & e & e' & Hf & Hr & He & Hid & Hs & Ht & _).
    destruct (decide (i = id)) as [->|Hne].
    + eapply held_put; [done|done|done|done|]. eexists. split; [done|]. pose proof (held_refuses _ _ _ _ _ _ Hh Hf Hr). lia.
    + eapply held_other; [done|by eapply findi_lookup|done|by unfold has_id; rewrite Hid|].
      apply findi_true in Hf. unfold has_id in *. intros Hx. boolp. congruence.
  - simpl in Hc. unfold fail_closure in Hc. destruct (findi _ _) as [[k e]|] eqn:Hf; [|done]. injection Hc as <- <-.
    eapply held_other; [done|by eapply findi_lookup|by rewrite entries_upsert| |].
    + unfold has_id. by destruct (_ || _).
    + apply findi_true in Hf. unfold has_id in *. intros Hx. boolp. congruence.
  - simpl in Hc. unfold resolve_closure in Hc. destruct (findi _ _) as [[k e]|] eqn:Hf; [|done]. injection Hc as <- <-.
    eapply held_other; [done|by eapply findi_lookup|by rewrite entries_remove| |].
    + unfold has_id. by destruct (_ || _).
    + apply findi_true in Hf. unfold has_id in *. intros Hx. boolp. congruence.
  - simpl in Hc. unfold restore_closure in Hc. destruct (findi _ _) as [[k e]|] eqn:Hf; [|done]. injection Hc as <- <-.
    eapply held_other; [done|by eapply findi_lookup|done| |].
    + apply findi_true in Hf. unfold has_id in *. boolp. by rewrite Hf.
    + apply findi_true in Hf. unfold has_id in *. intros Hx. boolp. congruence.
Qed.

Definition seen_entries (b : DLQ) (d : DLQ) : entries (seen b (Some d)) = entries d := eq_refl.
Lemma change_keeps id t o c' x y :
  changes o c' x y → held_in id t x →
  gives_back id (mkEvent o (Ok c') x y) = false → doubles id (mkEvent o (Ok c') x y) = false →
  (∀ clock i p, o = Claims clock i p → 0 < processingTimeout p) → held_in id t y.
Proof.
  intros (b & c & d' & Hm & ->) (d & -> & Hh) Hg Hd Hp. eexists. split; [done|].
  apply (held_entries id t d'); [done|]. eapply (closure_keeps id t o c (seen b (Some d)) c' d'); [done|by eapply held_entries; [|done]|].
  unfold gives_back, doubles in *. simpl in *. destruct o; boolp; try done; [|by eapply Hp].
  intros Hl. cbn [seen_entries fmap option_fmap] in Hl. apply Nat.ltb_lt in Hl. rewrite Hl in Hd. done.
Qed.

(** The claims that are begun are those of the operations: their timeout is positive. *)
Definition sound (o : change) : Prop := ∀ clock i p, o = Claims clock i p → 0 < processingTimeout p.
Lemma claims_sound clock id p o c : ClaimEntryForReplayWithBackoff clock id p = Ok (o, c) → sound o.
Proof.
  unfold ClaimEntryForReplayWithBackoff. destruct (is_empty _); [done|]. intros [= <- _] ? ? ? [= _ _ <-].
  unfold normalizeDLQReplayClaimParams. destruct (Normalize _ _). simpl.
  destruct (Z.leb_spec (processingTimeout p) 0); [|done]. unfold minute, second. lia.
Qed.

Lemma event_keeps id t e :
  explained e → gives_back id e = false ∧ doubles id e = false ∧ sound (evOp e) → held_in id t (evBefore e) → held_in id t (evAfter e).
Proof.
  destruct e as [o r x y]. unfold explained. simpl. intros He (Hg & Hd & Hs) Hh.
  assert (∀ c', changes o c' x y → held_in id t y) as Hc by (intros c' Hc; by eapply change_keeps).
  destruct r as [c'|[]]; [destruct He as [He|[_ ->]]|destruct He as [_ ->]|destruct He as [->|[c' He]]|rewrite He]; eauto.
Qed.

(** The claim an event won: it held the entry afterwards, and any claim before it was over. *)
Lemma wins_holds id p e :
  explained e → wins id p e → held_in id (claimNow p) (evAfter e)
  ∧ ∀ t, held_in id t (evBefore e) → t + processingTimeout p <= claimNow p.
Proof.
  destruct e as [o r x y]. unfold explained. simpl. intros He (clock & c & Ho & Hr & Hc). simpl in *. subst o r.
  destruct He as [(b & c0 & d' & Hm & ->)|[(b & c0 & c' & d' & Hm & Hcc) _]].
  - apply claim_made in Hm as (i & a & a' & Hf & Hreason & Hent & Hid & Hst & Ht & _). split.
    + eexists. split; [done|]. apply (held_entries id _ d'); [done|].
      eapply held_put; [done|done|done|done|]. eexists. by split.
    + intros t (d & -> & Hh). by eapply (held_refuses id t (seen b (Some d))); [eapply held_entries; [|done]| |].
  - exfalso. specialize (Hcc c eq_refl) as ->. by apply claim_refused in Hm.
Qed.

(** C18: Replicas do not replay an entry at once.  In every interleaving of the accesses of
    any number of replicas, with any failures of the store: when a claim of an entry
    has been won and another one is won later, then either the entry was given back
    in between (its replay was marked as failed or as resolved, or a snapshot of it
    was put back), or another entry of that id was put in front of it, or the second
    claim came no earlier than its timeout after the first. *)
Theorem claim_exclusive ms x ds i j ei ej id pi pj :
  let es := (runs ms (mkSystem x (idle <$> ds))).2 in
  Forall (λ m, match m with Begins _ o _ => sound o | Steps _ _ => True end) ms →
  (i < j)%nat → es !! i = Some ei → es !! j = Some ej → wins id pi ei → wins id pj ej →
  (∀ k e, (i < k < j)%nat → es !! k = Some e → gives_back id e = false ∧ doubles id e = false) →
  claimNow pi + processingTimeout pj <= claimNow pj.
Proof.
  intros es Hms Hij Hi Hj Hwi Hwj Hbetween.
  pose proof (replicas_atomic (λ d, eq_refl) ms _ (idle_ready x ds)) as Hrun.
  assert (Forall (λ e, sound (evOp e)) es) as Hs.
  { apply runs_ops; [done|]. apply Forall_fmap, Forall_forall. by intros d _ o. }
  subst es. destruct (runs ms (mkSystem x (idle <$> ds))) as [s' es]. destruct Hrun as [_ Hl]. simpl in *.
  apply (wins_holds id pj ej); [by eapply linked_explained|done|].
  eapply (linked_between (held_in id (claimNow pi)) (λ e, gives_back id e = false ∧ doubles id e = false ∧ sound (evOp e)));
    [intros; by eapply event_keeps|done|done|done| | |done].
  - apply wins_holds; [by eapply linked_explained|done].
  - intros k e Hk He. destruct (Hbetween k e Hk He). split_and!; [done|done|]. by apply (Forall_lookup_1 _ _ _ _ Hs He).
Qed.

(** ** What is due *)

Section listing.
Context (tenant connector : string) (p : ClaimParams) (all : list DeadLetterEntry).
Context (Hids : NoDup ((λ e, TrimSpace (dlID e)) <$> all)).

Definition listed (l : list DeadLetterEntry) : Prop :=
  NoDup (dlID <$> l) ∧ ∀ e, e ∈ l → e ∈ all ∧ claimable tenant connector p e = true.

Lemma same_id e e' : e ∈ all → e' ∈ all → dlID e = dlID e' → e = e'.
Proof.
  intros [i Hi]%list_elem_of_lookup [j Hj]%list_elem_of_lookup He. assert (i = j) as ->; [|congruence].
  eapply NoDup_lookup; [exact Hids|by rewrite list_lookup_fmap, Hi|rewrite list_lookup_fmap, Hj; simpl; by rewrite He].
Qed.
Lemma id_listed l x : existsb (λ y, String.eqb (dlID y) (dlID x)) l = false → dlID x ∉ dlID <$> l.
Proof.
  intros H (y & Hy & Hin)%list_elem_of_fmap. apply not_true_iff_false in H. apply H, existsb_exists.
  exists y. split; [by apply list_elem_of_In|by rewrite Hy, String.eqb_refl].
Qed.
Lemma listed_app l x :
  listed l → x ∈ all → claimable tenant connector p x = true →
  existsb (λ y, String.eqb (dlID y) (dlID x)) l = false → listed (l ++ [x]).
Proof.
  intros [Hn Hl] Hx Hc He%id_listed. split.
  - rewrite fmap_app. apply NoDup_app. split_and!; [done| |apply NoDup_singleton]. by intros y Hy Hyx%list_elem_of_singleton; subst y.
  - intros e [He'|He']%elem_of_app; [by apply Hl|]. by apply list_elem_of_singleton in He' as ->.
Qed.
Lemma due_loop_listed rows l : listed l → listed (due_loop tenant connector p 0 all rows l).1 ∧ (due_loop tenant connector p 0 all rows l).2 = false.
Proof.
  revert l. induction rows as [|row rows IH]; intros l Hl; [done|]. simpl. destruct (_ && _); [done|].
  destruct (findDLQEntryByIDLocked all (dueEntryID row)) as [x|] eqn:Hf; [|by apply IH].
  destruct (claimable tenant connector p x) eqn:Hc; [|by apply IH]. simpl.
  destruct (existsb _ l) eqn:He; [by apply IH|]. simpl. apply IH, listed_app; [done| |done|done].
  unfold findDLQEntryByIDLocked in Hf. destruct (is_empty _); [done|].
  destruct (findi _ _) as [[i y]|] eqn:Hi; [|done]. injection Hf as ->. by eapply findi_elem.
Qed.
Lemma fill_loop_listed more l :
  (∀ e, e ∈ more → e ∈ all ∧ claimable tenant connector p e = true) → listed l →
  listed (fill_loop 0 more l) ∧ ∀ e, e ∈ more ∨ e ∈ l → e ∈ fill_loop 0 more l.
Proof.
  revert l. induction more as [|x more IH]; intros l Hm Hl; simpl.
  - split; [done|]. intros e [He|He]; [by apply not_elem_of_nil in He|done].
  - destruct (Hm x) as [Hx Hc]; [left|]. assert (∀ e, e ∈ more → e ∈ all ∧ claimable tenant connector p e = true) as Hm' by (intros; apply Hm; by right).
    destruct (existsb _ l) eqn:He.
    + destruct (IH l Hm' Hl) as [H1 H2]. split; [done|]. intros e [Hin|Hin]; [apply elem_of_cons in Hin as [->|Hin]|]; apply H2; [right|by left|by right].
      apply existsb_exists in He as (y & Hy%list_elem_of_In & Hid%String.eqb_eq). assert (y = x) as <- by (apply same_id; [by apply Hl|done|done]). done.
    + destruct (IH (l ++ [x]) Hm') as [H1 H2]; [by apply listed_app|]. split; [done|].
      intros e [Hin|Hin]; [apply elem_of_cons in Hin as [->|Hin]|]; apply H2; [right|by left|right]; apply elem_of_app; [right; left|by left].
Qed.
End listing.

(** The worker is shown every entry it can claim, each once, whatever is in the index
    of due entries: rows of the index that are wrong or missing cost order only. *)
Theorem due_list_complete clock tenant connector p d :
  NoDup ((λ e, TrimSpace (dlID e)) <$> entries d) →
  ∃ l, ListDueEntriesForReplayWithBackoff clock tenant connector p 0 d = Some l
  ∧ NoDup (dlID <$> l)
  ∧ ∀ e, e ∈ l ↔ e ∈ entries d ∧ claimable tenant connector (normalizeDLQReplayClaimParams clock p) e = true.
Proof.
  intros Hids. unfold ListDueEntriesForReplayWithBackoff. set (q := normalizeDLQReplayClaimParams clock p). cbv zeta. simpl.
  destruct (due_loop_listed tenant connector q (entries d) (dueEntryIDs d) []) as [Hl He]; [by split; [constructor|set_solver]|].
  destruct (due_loop _ _ _ _ _ _ _) as [items enough]. simpl in *. subst enough.
  unfold listClaimableDLQEntriesForReplayWithBackoffLocked, cut. simpl. eexists. split; [done|].
  destruct (fill_loop_listed tenant connector q (entries d) Hids
              (sort_by newer (filterb (claimable tenant connector q) (entries d))) items) as [[Hn Hall] Hin]; [|done|].
  - intros e Hin%elem_of_sort_by. by apply elem_of_filterb in Hin as [].
  - split; [done|]. intros e. split; [by apply Hall|]. intros [? ?]. apply Hin. left. by apply elem_of_sort_by, elem_of_filterb.
Qed.

(** ** Examples *)

#[local] Abbreviation t0 := (1775912400 * second).
#[local] Abbreviation ex_entry := (mkEntry "hdlq_1" "t" "c1" "talenta" "r1" "" "" "normalize" "bad date" "" "dlq" 0 None None t0 t0).
#[local] Abbreviation ex_table := (mkDLQ [ex_entry] [mkDue "hdlq_1" t0]).
#[local] Abbreviation ex_params := (λ t, mkParams 5 minute hour 0 t).
Definition begun (i : nat) (r : begins) : list Move :=
  match r with Ok (o, c) => [Begins i o c] | Err _ => [] end.
Lemma begun_sound i r :
  (∀ o c, r = Ok (o, c) → sound o) → Forall (λ m, match m with Begins _ o _ => sound o | Steps _ _ => True end) (begun i r).
Proof. intros H. destruct r as [[o c]|]; [|done]. apply Forall_singleton. by eapply H. Qed.
#[local] Abbreviation claims_at := (λ i t, begun i (ClaimEntryForReplayWithBackoff t " hdlq_1" (ex_params t))).
#[local] Abbreviation answers := (λ i : nat, Steps i Answers).
#[local] Abbreviation ex_system := (mkSystem (Some ex_table) (idle <$> [ex_table; ex_table; ex_table])).

(** The second replica reads while the first writes: its write is refused, its next
    attempt finds the entry in flight; five minutes later it wins. *)
#[local] Abbreviation two_claims :=
  (claims_at 0%nat t0 ++ claims_at 1%nat t0 ++ [answers 0%nat; answers 1%nat; answers 0%nat; answers 1%nat; answers 1%nat]
   ++ claims_at 1%nat (t0 + 5 * minute) ++ [answers 1%nat; answers 1%nat]).
Lemma claim_exclusive_witness :
  let p t := normalizeDLQReplayClaimParams t (ex_params t) in
  let es := (runs two_claims ex_system).2 in
  (λ e, match evResult e with Ok c => Some (capReason c) | Err _ => None end) <$> es = [Some ""; Some "in_flight"; Some ""]
  ∧ claimNow (p t0) + processingTimeout (p (t0 + 5 * minute)) <= claimNow (p (t0 + 5 * minute)).
Proof.
  cbv zeta. split; [vm_compute; reflexivity|].
  apply (claim_exclusive two_claims (Some ex_table) [ex_table; ex_table; ex_table] 0 2
           (default (mkEvent (Resolves "") (Err Conflict) None None) ((runs two_claims ex_system).2 !! 0%nat))
           (default (mkEvent (Resolves "") (Err Conflict) None None) ((runs two_claims ex_system).2 !! 2%nat)) "hdlq_1").
  - rewrite !Forall_app. split_and!; try (apply begun_sound; intros o c; apply claims_sound); repeat constructor.
  - lia.
  - vm_compute; reflexivity.
  - vm_compute; reflexivity.
  - do 2 eexists. split_and!; vm_compute; reflexivity.
  - do 2 eexists. split_and!; vm_compute; reflexivity.
  - intros k e Hk. replace k with 1%nat by lia. intros He. vm_compute in He. injection He as <-. split; vm_compute; reflexivity.
Defined.

(** The closure of [AppendFailure] assigns the entry it answers also in an attempt
    whose write is refused.  The first attempt finds the entry of the receipt; before
    it writes, another replica claims that entry; the second attempt finds no waiting
    entry of the receipt and puts the assigned one, the old entry with its old id, in
    front of the table.  The id is then found as waiting, and a third replica claims
    it at the instant at which the second one did. *)
Theorem append_doubles_entry :
  let new := mkFailure "t" "c1" "talenta" "r1" "" "" "normalize" "bad date again" "" in
  let '(s, es) := runs
    (begun 0 (AppendFailure (mkEnv t0 (Some "2") StoreSaved) new) ++ [answers 0%nat]
     ++ claims_at 1%nat t0 ++ [answers 1%nat; answers 1%nat; answers 0%nat; answers 0%nat; answers 0%nat]
     ++ claims_at 2%nat t0 ++ [answers 2%nat; answers 2%nat]) ex_system in
  option_map (λ d, (λ e, (dlID e, dlStatus e)) <$> entries d) (cell s)
    = Some [("hdlq_1", "replaying"); ("hdlq_1", "replaying")]
  ∧ (λ e, (won_at "hdlq_1" e, doubles "hdlq_1" e)) <$> es = [(Some t0, false); (None, true); (Some t0, false)].
Proof. vm_compute. split; reflexivity. Qed.

(** A replay that has timed out and ends late undoes what came after it: its failure
    puts an entry back that another replica has resolved in the meantime. *)
Theorem late_failure_reopens :
  let late := λ n, t0 + 6 * minute + Z.of_nat n in
  let '(s, _) := runs
    (claims_at 0%nat t0 ++ [answers 0%nat; answers 0%nat]
     ++ claims_at 1%nat (t0 + 5 * minute) ++ [answers 1%nat; answers 1%nat]
     ++ begun 1 (MarkResolved late "hdlq_1") ++ [answers 1%nat; answers 1%nat]
     ++ begun 0 (MarkReplayFailedWithBackoff late "hdlq_1" (Some "timeout") minute hour) ++ [answers 0%nat; answers 0%nat]) ex_system in
  option_map (λ d, (λ e, (dlStatus e, dlReplayCount e, dlResolvedAt e)) <$> entries d) (cell s) = Some [("dlq", 3, None)].
Proof. vm_compute. reflexivity. Qed.

(** An index without the entry that waits, and with one that does not exist. *)
Lemma due_list_complete_witness :
  let d := mkDLQ [ex_entry] [mkDue "hdlq_9" t0] in
  option_map (map dlID) (ListDueEntriesForReplayWithBackoff t0 "t" "" (ex_params t0) 0 d) = Some ["hdlq_1"]
  ∧ ∃ l, ListDueEntriesForReplayWithBackoff t0 "t" "" (ex_params t0) 0 d = Some l ∧ ex_entry ∈ l.
Proof.
  cbv zeta. split; [vm_compute; reflexivity|].
  destruct (due_list_complete t0 "t" "" (ex_params t0) (mkDLQ [ex_entry] [mkDue "hdlq_9" t0])) as (l & Hl & _ & H);
    [apply NoDup_singleton|]. exists l. split; [done|]. apply H. split; [left|vm_compute; reflexivity].
Defined.

(** Two replicas in a quarrel: every access finds a document of its own. *)
Lemma change_ends_witness :
  let quarrel := (λ n, (Some (mkDLQ [ex_entry] [mkDue "hdlq_1" (Z.of_nat n)]), Answers)) <$> seq 0 11 in
  (2 * maxRetries + 1 <= length quarrel)%nat
  ∧ is_done (drive SwapStore (start SwapStore (Resolves "hdlq_1") (mkCaptured no_entry "" (λ _, t0)) ex_table) quarrel) = true.
Proof. cbv zeta. split; [vm_compute; lia|]. apply change_ends. vm_compute; lia. Defined.
