(* ===== verification/PullState.v ===== *)
(** * Pulls from HRIS vendors (modules/hris/pull_worker.go, NormalizeVendor of normalizer.go)

    One row per connector says whether a pull runs, when it started and how the last
    ones ended.  A worker claims the connector before it pulls; the table is one
    document of the state store, changed through [Cas].  The calls to the vendors
    are not part of it. *)

From S2P Require Import Prelude GoStrings GoTime Backoff Cas.
#[local] Open Scope string_scope.
#[local] Open Scope list_scope.
#[local] Open Scope Z_scope.

Inductive pull_err := ErrTenantIDRequired | ErrPullConnectorIDRequired | ErrPullStateNotFound | ErrPullFailureRequired.

Record ConnectorPullState := mkPull {
  psTenantID : string; psConnectorID : string; psVendor : string; psStatus : string; psLastRequestID : string;
  psLastMode : string; psLastStartedAt : option Z; psLastSuccessAt : option Z; psLastFullSuccessAt : option Z;
  psLastFailureAt : option Z; psLastError : string; psConsecutiveFailures : Z; psCreatedAt : Z; psUpdatedAt : Z
}.
#[export] Instance eta_pull : Eta ConnectorPullState := λ s,
  mkPull (psTenantID s) (psConnectorID s) (psVendor s) (psStatus s) (psLastRequestID s) (psLastMode s)
    (psLastStartedAt s) (psLastSuccessAt s) (psLastFullSuccessAt s) (psLastFailureAt s) (psLastError s)
    (psConsecutiveFailures s) (psCreatedAt s) (psUpdatedAt s).
#[export] Instance pull_eq : EqDecision ConnectorPullState.
Proof. solve_decision. Defined.

(** [pullStateSnapshot], and what a replica has in memory. *)
Record Pulls := mkPulls { states : list ConnectorPullState }.
#[export] Instance eta_pulls : Eta Pulls := λ s, mkPulls (states s).
#[export] Instance pulls_eq : EqDecision Pulls.
Proof. solve_decision. Defined.

Definition NormalizeVendor (vendor : string) : string := ToLower (TrimSpace vendor).
Definition NormalizePullMode (mode : string) : string :=
  if String.eqb (ToLower (TrimSpace mode)) "incremental" then "incremental" else "full".
Definition normalizePullStateSnapshot (s : Pulls) : Pulls :=
  s <| states ::= filterb (λ x, negb (is_empty (TrimSpace (psTenantID x)) || is_empty (TrimSpace (psConnectorID x)))) |>.

(** ** Reads *)

Definition fresher (a b : ConnectorPullState) : bool :=
  if psUpdatedAt a =? psUpdatedAt b then String.ltb (psConnectorID b) (psConnectorID a) else After (psUpdatedAt a) (psUpdatedAt b).
Definition ListStates (tenantID : string) (s : Pulls) : list ConnectorPullState :=
  sort_by fresher (filterb (λ x, is_empty (TrimSpace tenantID) || String.eqb (TrimSpace (psTenantID x)) (TrimSpace tenantID)) (states s)).
Definition of_connector (id : string) (x : ConnectorPullState) : bool := String.eqb (TrimSpace (psConnectorID x)) id.
Definition GetState (connectorID : string) (s : Pulls) : result pull_err ConnectorPullState :=
  if is_empty (TrimSpace connectorID) then Err ErrPullConnectorIDRequired
  else match findi (of_connector (TrimSpace connectorID)) (states s) with
       | Some (_, x) => Ok x
       | None => Err ErrPullStateNotFound
       end.

(** ** Changes *)

Record captured := mkCaptured { capState : ConnectorPullState; capReason : string }.
Definition no_state : ConnectorPullState := mkPull "" "" "" "" "" "" None None None None "" 0 time_zero time_zero.

Record PullParams := mkParams {
  maxAttempts : Z; retryCooldown : Z; retryMaxBackoff : Z; processingTimeout : Z; pullNow : Z
}.
(** The functions the marks pass to [upsertState]. *)
Inductive mark :=
| Started (mode : string) (at_ : Z)
| Succeeded (mode requestID : string) (at_ : Z)
| Failed (failure : string) (at_ : Z).
Definition marked (m : mark) (now : Z) (x : ConnectorPullState) : ConnectorPullState :=
  let or_now t := if IsZero t then now else t in
  match m with
  | Started mode t =>
      x <| psStatus := "running" |> <| psLastMode := NormalizePullMode mode |> <| psLastStartedAt := Some t |> <| psUpdatedAt := now |>
  | Succeeded mode requestID t =>
      let completedAt := or_now t in
      let x := x <| psStatus := "succeeded" |> <| psLastRequestID := TrimSpace requestID |>
                 <| psLastMode := NormalizePullMode mode |> <| psLastSuccessAt := Some completedAt |> in
      let x := if String.eqb (NormalizePullMode mode) "full" then x <| psLastFullSuccessAt := Some completedAt |> else x in
      x <| psLastFailureAt := None |> <| psLastError := "" |> <| psConsecutiveFailures := 0 |> <| psUpdatedAt := completedAt |>
  | Failed failure t =>
      let completedAt := or_now t in
      x <| psStatus := "failed" |> <| psLastFailureAt := Some completedAt |> <| psLastError := TrimSpace failure |>
        <| psConsecutiveFailures ::= Z.add 1 |> <| psUpdatedAt := completedAt |>
  end.

Inductive change :=
| Claims (tenantID connectorID vendor mode : string) (p : PullParams)
| Upserts (tenantID connectorID vendor : string) (now : Z) (m : mark).

(** The reason not to start a pull. *)
Definition pull_refused (p : PullParams) (x : ConnectorPullState) : string :=
  let status := TrimSpace (psStatus x) in
  if is_empty status || String.eqb status "idle" || String.eqb status "succeeded" then ""
  else if String.eqb status "failed" then
    if (0 <? maxAttempts p) && (maxAttempts p <=? psConsecutiveFailures x) then "attempt_limit"
    else
      let retryDelay := Exponential (psConsecutiveFailures x) (retryCooldown p) (retryMaxBackoff p) in
      match psLastFailureAt x with
      | Some t => if (0 <? retryDelay) && After (t + retryDelay) (pullNow p) then "cooldown" else ""
      | None => ""
      end
  else if String.eqb status "running" then
    match psLastStartedAt x with
    | Some t => if After (t + processingTimeout p) (pullNow p) then "in_flight" else ""
    | None => ""
    end
  else "not_queueable".

(** The closures of the operations: [Ok true] is a change, [Ok false] none. *)
Definition claim_closure (tenantID connectorID vendor mode : string) (p : PullParams) (c : captured) (s : Pulls)
    : captured * Pulls * result pull_err bool :=
  match findi (of_connector connectorID) (states s) with
  | Some (i, x) =>
      let currentTenantID := TrimSpace (psTenantID x) in
      if negb (is_empty currentTenantID) && negb (String.eqb currentTenantID tenantID) then (c, s, Err ErrPullStateNotFound)
      else
        let reason := pull_refused p x in
        if negb (is_empty reason) then (mkCaptured x reason, s, Ok false)
        else
          let x := if is_empty vendor then x else x <| psVendor := vendor |> in
          let x := x <| psTenantID := tenantID |> <| psStatus := "running" |> <| psLastMode := mode |>
                     <| psLastStartedAt := Some (pullNow p) |> <| psUpdatedAt := pullNow p |> in
          (mkCaptured x "", s <| states ::= <[i := x]> |>, Ok true)
  | None =>
      let x := mkPull tenantID connectorID vendor "running" "" mode (Some (pullNow p)) None None None "" 0 (pullNow p) (pullNow p) in
      (mkCaptured x "", s <| states ::= cons x |>, Ok true)
  end.
Definition upsert_closure (tenantID connectorID vendor : string) (now : Z) (m : mark) (c : captured) (s : Pulls)
    : captured * Pulls * result pull_err bool :=
  match findi (of_connector connectorID) (states s) with
  | Some (i, x) =>
      let x := if is_empty vendor then x else x <| psVendor := vendor |> in
      let x := marked m now (x <| psTenantID := tenantID |>) in
      (mkCaptured x (capReason c), s <| states ::= <[i := x]> |>, Ok true)
  | None =>
      let x := marked m now (mkPull tenantID connectorID vendor "idle" "" "" None None None None "" 0 now now) in
      (mkCaptured x (capReason c), s <| states ::= cons x |>, Ok true)
  end.
Definition closure (o : change) : captured → Pulls → captured * Pulls * result pull_err bool :=
  match o with
  | Claims tenantID connectorID vendor mode p => claim_closure tenantID connectorID vendor mode p
  | Upserts tenantID connectorID vendor now m => upsert_closure tenantID connectorID vendor now m
  end.

#[export] Instance pull_document : Document Pulls captured pull_err change := {|
  mutator := closure; expect := normalizePullStateSnapshot; view := id; refreshed := normalizePullStateSnapshot;
  fin := id; saved := id; rebase := id; missing := id
|}.

(** ** The operations *)

Abbreviation begins := (result pull_err (change * captured)).

Definition ClaimStateForPullWithBackoff (clock : Z) (tenantID connectorID vendor mode : string) (p : PullParams) : begins :=
  if is_empty (TrimSpace tenantID) then Err ErrTenantIDRequired
  else if is_empty (TrimSpace connectorID) then Err ErrPullConnectorIDRequired
  else
    let '(cooldown, backoff) := Normalize (retryCooldown p) (retryMaxBackoff p) in
    let p := mkParams (if maxAttempts p <=? 0 then 1 else maxAttempts p) cooldown backoff
               (if processingTimeout p <=? 0 then 30 * minute else processingTimeout p)
               (if IsZero (pullNow p) then clock else pullNow p) in
    Ok (Claims (TrimSpace tenantID) (TrimSpace connectorID) (NormalizeVendor vendor) (NormalizePullMode mode) p,
        mkCaptured no_state "").
Definition ClaimStateForPull (clock : Z) (tenantID connectorID vendor mode : string) (attempts cooldown timeout at_ : Z) : begins :=
  ClaimStateForPullWithBackoff clock tenantID connectorID vendor mode (mkParams attempts cooldown cooldown timeout at_).
Definition upsertState (clock : Z) (tenantID connectorID vendor : string) (m : mark) : begins :=
  if is_empty (TrimSpace tenantID) then Err ErrTenantIDRequired
  else if is_empty (TrimSpace connectorID) then Err ErrPullConnectorIDRequired
  else Ok (Upserts (TrimSpace tenantID) (TrimSpace connectorID) (NormalizeVendor vendor) clock m, mkCaptured no_state "").
Definition MarkStarted (clock : Z) (tenantID connectorID vendor mode : string) (startedAt : Z) : begins :=
  upsertState clock tenantID connectorID vendor (Started mode startedAt).
Definition MarkSucceeded (clock : Z) (tenantID connectorID vendor mode requestID : string) (succeededAt : Z) : begins :=
  upsertState clock tenantID connectorID vendor (Succeeded mode requestID succeededAt).
Definition MarkFailed (clock : Z) (tenantID connectorID vendor : string) (failedAt : Z) (failure : option string) : begins :=
  match failure with
  | None => Err ErrPullFailureRequired
  | Some f => upsertState clock tenantID connectorID vendor (Failed f failedAt)
  end.

(** A read of the store: at start-up, and by [RefreshState]. *)
Definition restoreFromStateStore (loaded : option (option Pulls)) (s : Pulls) : Pulls :=
  match loaded with Some (Some x) => normalizePullStateSnapshot x | _ => s end.
Definition RefreshState := restoreFromStateStore.

(** ** Pulls exclude each other *)

Abbreviation event := (Event (D:=Pulls) (C:=captured) (E:=pull_err) (Op:=change)).

Definition wins (id : string) (p : PullParams) (e : event) : Prop :=
  ∃ tn v mode c, evOp e = Claims tn id v mode p ∧ evResult e = Ok c ∧ capReason c = "".
Definition marks (id : string) (e : event) : bool :=
  match evOp e with Upserts _ i _ _ _ => String.eqb (TrimSpace i) id | Claims _ _ _ _ _ => false end.

(** What the operations make of their arguments. *)
Definition sound (o : change) : Prop :=
  match o with
  | Claims tn id _ _ p => TrimSpace id = id ∧ id ≠ "" ∧ TrimSpace tn ≠ "" ∧ 0 < processingTimeout p
  | Upserts _ _ _ _ _ => True
  end.
Lemma pull_claims_sound clock tn id v mode p o c : ClaimStateForPullWithBackoff clock tn id v mode p = Ok (o, c) → sound o.
Proof.
  unfold ClaimStateForPullWithBackoff. destruct (is_empty (TrimSpace tn)) eqn:Ht; [done|].
  destruct (is_empty (TrimSpace id)) eqn:Hi; [done|]. destruct (Normalize _ _). intros [= <- _]. simpl. rewrite !TrimSpace_idem.
  split_and!; [done|by apply is_empty_false..|]. destruct (Z.leb_spec (processingTimeout p) 0); [|done].
  unfold minute, second. lia.
Qed.

(** A pull of the connector runs, since [t] at the earliest. *)
Definition running (id : string) (t : Z) (s : Pulls) : Prop :=
  ∃ i x t', findi (of_connector id) (states s) = Some (i, x) ∧ psStatus x = "running" ∧ psLastStartedAt x = Some t'
            ∧ t <= t' ∧ TrimSpace (psTenantID x) ≠ "" ∧ id ≠ "".
Definition running_in (id : string) (t : Z) (x : option Pulls) : Prop := ∃ s, x = Some s ∧ running id t s.

Lemma findi_kept {A} (p q : A → bool) l i x :
  findi p l = Some (i, x) → q x = true → ∃ j, findi p (filterb q l) = Some (j, x).
Proof.
  revert i. induction l as [|a l IH]; intros i Hf Hq; [done|]. simpl in *. destruct (p a) eqn:Ha.
  - injection Hf as _ ->. rewrite Hq. simpl. rewrite Ha. eauto.
  - destruct (findi p l) as [[k y]|] eqn:Hl; [|done]. injection Hf as _ ->. destruct (IH k eq_refl Hq) as [j Hj].
    destruct (q a); simpl; rewrite ?Ha, Hj; eauto.
Qed.
Lemma running_normal id t s : running id t s → running id t (normalizePullStateSnapshot s).
Proof.
  intros (i & x & t' & Hf & Hs & Ht & Hle & Htn & Hid).
  destruct (findi_kept _ (λ x, negb (is_empty (TrimSpace (psTenantID x)) || is_empty (TrimSpace (psConnectorID x)))) _ _ _ Hf) as [j Hj].
  - apply findi_true in Hf. unfold of_connector in Hf. boolp. rewrite Hf. apply is_empty_false in Htn, Hid. by rewrite Htn, Hid.
  - by exists j, x, t'.
Qed.
Lemma running_refuses id t s i x p :
  running id t s → findi (of_connector id) (states s) = Some (i, x) → pull_refused p x = "" → t + processingTimeout p <= pullNow p.
Proof.
  intros (i' & x' & t' & Hf & Hs & Ht & Hle & _) Hf'. rewrite Hf in Hf'. injection Hf' as -> ->.
  unfold pull_refused. rewrite Hs, Ht. simpl. unfold After. case_match eqn:Hlt; [done|]. intros _. lia.
Qed.
Lemma running_put id t s s' i x y :
  findi (of_connector id) (states s) = Some (i, x) → states s' = <[i := y]> (states s) → psConnectorID y = psConnectorID x →
  psStatus y = "running" → (∃ t', psLastStartedAt y = Some t' ∧ t <= t') → TrimSpace (psTenantID y) ≠ "" → id ≠ "" → running id t s'.
Proof.
  intros Hf He Hid Hs (t' & Ht & Hle) Htn Hne. exists i, y, t'. split; [|done]. rewrite He.
  erewrite findi_insert; [by rewrite Nat.eqb_refl|by eapply findi_lookup|by unfold of_connector; rewrite Hid|done].
Qed.
Lemma running_other id t s s' i x y :
  running id t s → states s !! i = Some x → states s' = <[i := y]> (states s) → psConnectorID y = psConnectorID x →
  of_connector id x = false → running id t s'.
Proof.
  intros (k & e & t' & Hf & Hrest) Hi He Hid Hx. exists k, e, t'. split; [|done]. rewrite He.
  erewrite findi_insert; [|done|by unfold of_connector; rewrite Hid|done]. destruct (Nat.eqb_spec i k) as [->|]; [|done].
  apply findi_lookup in Hf as Hk. rewrite Hk in Hi. injection Hi as ->. apply findi_true in Hf. congruence.
Qed.
Lemma running_cons id t s s' x :
  running id t s → states s' = x :: states s → of_connector id x = false → running id t s'.
Proof. intros (k & e & t' & Hf & Hrest) He Hx. exists (S k), e, t'. rewrite He. simpl. by rewrite Hx, Hf. Qed.

Lemma marked_connector m now x : psConnectorID (marked m now x) = psConnectorID x.
Proof. destruct m; simpl; [done| |done]. by destruct (String.eqb _ _). Qed.

(** A claim that is made: the pull runs from then on, and the one before was over. *)
Lemma pull_claim_made tn id v mode p c s c' s' :
  closure (Claims tn id v mode p) c s = (c', s', Ok true) → sound (Claims tn id v mode p) →
  running id (pullNow p) s' ∧ ∀ t, running id t s → t + processingTimeout p <= pullNow p.
Proof.
  simpl. unfold claim_closure. intros Hc (Htrim & Hid & Htn & Hp). destruct (findi _ _) as [[i x]|] eqn:Hf.
  - destruct (_ && _); [done|]. destruct (is_empty (pull_refused p x)) eqn:Hr; [|done]. apply is_empty_true in Hr.
    injection Hc as _ <-. split; [|by intros t Ht; eapply running_refuses].
    eapply running_put; [exact Hf|done|by destruct (is_empty v)|done|by eexists|done|done].
  - injection Hc as _ <-. split.
    + exists 0%nat. do 2 eexists. simpl. unfold of_connector at 1. simpl. rewrite Htrim, String.eqb_refl. by split_and!.
    + intros t (k & e & t' & Hk & _). congruence.
Qed.
Lemma pull_claim_refused tn id v mode p c s c' s' : closure (Claims tn id v mode p) c s = (c', s', Ok false) → capReason c' ≠ "".
Proof.
  simpl. unfold claim_closure. destruct (findi _ _) as [[i x]|]; [|done]. destruct (_ && _); [done|].
  destruct (is_empty (pull_refused p x)) eqn:Hr; [done|]. intros [= <- _]. by apply is_empty_false.
Qed.
Lemma pull_closure_keeps id t o c s c' s' :
  closure o c s = (c', s', Ok true) → sound o → running id t s →
  match o with Upserts _ i _ _ _ => TrimSpace i ≠ id | _ => True end → running id t s'.
Proof.
  intros Hc Ho Hr Hm. destruct o as [tn i v mode p|tn i v now_ m].
  - destruct (decide (i = id)) as [->|Hne].
    + destruct (pull_claim_made _ _ _ _ _ _ _ _ _ Hc Ho) as [(k & e & t' & ?) Hle]. specialize (Hle t Hr).
      exists k, e, t'. simpl in Ho. naive_solver lia.
    + simpl in Hc, Ho. unfold claim_closure in Hc. destruct Ho as (Htrim & _). destruct (findi _ _) as [[k x]|] eqn:Hf.
      * destruct (_ && _); [done|]. destruct (is_empty _); [|done]. injection Hc as _ <-.
        eapply running_other; [done|by eapply findi_lookup|done|by destruct (is_empty v)|].
        apply findi_true in Hf. unfold of_connector in *. boolp. apply String.eqb_neq. congruence.
      * injection Hc as _ <-. eapply running_cons; [done|done|]. unfold of_connector. simpl. rewrite Htrim. by apply String.eqb_neq.
  - simpl in Hc. unfold upsert_closure in Hc. destruct (findi _ _) as [[k x]|] eqn:Hf; injection Hc as _ <-.
    + apply findi_true in Hf as Hx. unfold of_connector in Hx. boolp.
      eapply running_other; [done|by eapply findi_lookup|done|by rewrite marked_connector; destruct (is_empty v)|].
      unfold of_connector. apply String.eqb_neq. rewrite Hx. intros ->. apply Hm. by rewrite <- Hx, TrimSpace_idem, Hx.
    + eapply running_cons; [done|done|]. unfold of_connector. rewrite marked_connector. by apply String.eqb_neq.
Qed.

Lemma pull_change_keeps id t o c' x y :
  changes o c' x y → sound o → running_in id t x → match o with Upserts _ i _ _ _ => TrimSpace i ≠ id | _ => True end → running_in id t y.
Proof.
  intros (b & c & s' & Hm & ->) Ho (s & -> & Hr) Hu. eexists. split; [done|].
  eapply pull_closure_keeps; [done|done|by apply running_normal|done].
Qed.
Lemma pull_event_keeps id t e : explained e → marks id e = false ∧ sound (evOp e) → running_in id t (evBefore e) → running_in id t (evAfter e).
Proof.
  destruct e as [o r x y]. unfold explained. simpl. intros He (Hg & Hs) Hh.
  assert (∀ c', changes o c' x y → running_in id t y) as Hc.
  { intros c' Hc. eapply pull_change_keeps; [done|done|done|]. unfold marks in Hg. simpl in Hg. destruct o; [done|]. by apply String.eqb_neq. }
  destruct r as [c'|[]]; [destruct He as [He|[_ ->]]|destruct He as [_ ->]|destruct He as [->|[c' He]]|rewrite He]; eauto.
Qed.
Lemma wins_runs id p e :
  explained e → sound (evOp e) → wins id p e → running_in id (pullNow p) (evAfter e)
  ∧ ∀ t, running_in id t (evBefore e) → t + processingTimeout p <= pullNow p.
Proof.
  destruct e as [o r x y]. unfold explained. simpl. intros He Ho (tn & v & mode & c & Hop & Hres & Hc). simpl in *. subst o r.
  destruct He as [(b & c0 & s' & Hm & ->)|[(b & c0 & c' & s' & Hm & Hcc) _]].
  - destruct (pull_claim_made _ _ _ _ _ _ _ _ _ Hm Ho) as [Hr Hle]. split; [by eexists|].
    intros t (s & -> & Hs). by apply Hle, running_normal.
  - exfalso. specialize (Hcc c eq_refl) as ->. by apply pull_claim_refused in Hm.
Qed.

(** A connector is pulled by one worker at a time.  In every interleaving of the
    accesses of any number of replicas, with any failures of the store: when a pull of
    a connector has been claimed and another claim is won later, then either a replica
    marked the pull in between (started, succeeded or failed), or the second claim
    came no earlier than its timeout after the first. *)
Theorem pull_exclusive ms x ds i j ei ej id pi pj :
  let es := (runs ms (mkSystem x (idle <$> ds))).2 in
  Forall (λ m, match m with Begins _ o _ => sound o | Steps _ _ => True end) ms →
  (i < j)%nat → es !! i = Some ei → es !! j = Some ej → wins id pi ei → wins id pj ej →
  (∀ k e, (i < k < j)%nat → es !! k = Some e → marks id e = false) →
  pullNow pi + processingTimeout pj <= pullNow pj.
Proof.
  intros es Hms Hij Hi Hj Hwi Hwj Hbetween.
  assert (∀ s, expect (expect s) = expect s) as Hidem.
  { intros [l]. unfold expect. simpl. unfold normalizePullStateSnapshot. simpl. by rewrite filterb_idem. }
  pose proof (replicas_atomic Hidem ms _ (idle_ready x ds)) as Hrun.
  assert (Forall (λ e, sound (evOp e)) es) as Hs.
  { apply runs_ops; [done|]. apply Forall_fmap, Forall_forall. by intros d _ o. }
  subst es. destruct (runs ms (mkSystem x (idle <$> ds))) as [s' es]. destruct Hrun as [_ Hl]. simpl in *.
  apply (wins_runs id pj ej); [by eapply linked_explained|by apply (Forall_lookup_1 _ _ _ _ Hs Hj)|done|].
  eapply (linked_between (running_in id (pullNow pi)) (λ e, marks id e = false ∧ sound (evOp e)));
    [intros; by eapply pull_event_keeps|done|done|done| | |done].
  - apply wins_runs; [by eapply linked_explained|by apply (Forall_lookup_1 _ _ _ _ Hs Hi)|done].
  - intros k e Hk He. split; [by eapply Hbetween|]. by apply (Forall_lookup_1 _ _ _ _ Hs He).
Qed.

(** ** Examples *)

#[local] Abbreviation t0 := (1775912400 * second).
#[local] Abbreviation ex_params := (λ t, mkParams 3 minute hour 0 t).
Definition begun (i : nat) (r : begins) : list Move :=
  match r with Ok (o, c) => [Begins i o c] | Err _ => [] end.
Lemma pull_begun_sound i r :
  (∀ o c, r = Ok (o, c) → sound o) → Forall (λ m, match m with Begins _ o _ => sound o | Steps _ _ => True end) (begun i r).
Proof. intros H. destruct r as [[o c]|]; [|done]. apply Forall_singleton. by eapply H. Qed.
#[local] Abbreviation claims_at := (λ i t, begun i (ClaimStateForPullWithBackoff t "t" " c1 " "Talenta" "" (ex_params t))).
#[local] Abbreviation answers := (λ i : nat, Steps i Answers).
#[local] Abbreviation ex_system := (mkSystem None (idle <$> [mkPulls []; mkPulls []])).
#[local] Abbreviation two_pulls :=
  (claims_at 0%nat t0 ++ claims_at 1%nat t0 ++ [answers 0%nat; answers 1%nat; answers 1%nat; answers 0%nat; answers 0%nat]
   ++ claims_at 0%nat (t0 + 30 * minute) ++ [answers 0%nat; answers 0%nat]).
#[local] Abbreviation no_event := (mkEvent (Upserts "" "" "" 0 (Failed "" 0)) (Err Conflict) None None).

(** Both replicas find no row; the first that writes wins, the other sees its pull in
    flight and claims it half an hour later. *)
Lemma pull_exclusive_witness :
  let es := (runs two_pulls ex_system).2 in
  (λ e, match evResult e with Ok c => Some (capReason c) | Err _ => None end) <$> es = [Some ""; Some "in_flight"; Some ""]
  ∧ t0 + 30 * minute <= t0 + 30 * minute.
Proof.
  cbv zeta. split; [vm_compute; reflexivity|].
  apply (pull_exclusive two_pulls None [mkPulls []; mkPulls []] 0 2
           (default no_event ((runs two_pulls ex_system).2 !! 0%nat)) (default no_event ((runs two_pulls ex_system).2 !! 2%nat)) "c1"
           (mkParams 3 minute hour (30 * minute) t0) (mkParams 3 minute hour (30 * minute) (t0 + 30 * minute))).
  - rewrite !Forall_app. split_and!; try (apply pull_begun_sound; intros o c; apply pull_claims_sound); repeat constructor.
  - lia.
  - vm_compute; reflexivity.
  - vm_compute; reflexivity.
  - do 4 eexists. split_and!; vm_compute; reflexivity.
  - do 4 eexists. split_and!; vm_compute; reflexivity.
  - intros k e Hk. replace k with 1%nat by lia. intros He. vm_compute in He. injection He as <-. vm_compute; reflexivity.
Defined.

(** A mark does not look at the tenant: that of another tenant takes the row over,
    and the owner can no longer claim its connector. *)
Theorem mark_takes_over :
  let '(s, es) := runs
    (claims_at 0%nat t0 ++ [answers 0%nat; answers 0%nat]
     ++ begun 1 (MarkFailed t0 "other" "c1" "" t0 (Some "x")) ++ [answers 1%nat; answers 1%nat]
     ++ claims_at 0%nat (t0 + hour) ++ [answers 0%nat]) ex_system in
  option_map (λ d, psTenantID <$> states d) (cell s) = Some ["other"]
  ∧ evResult <$> drop 2 es = [Err (OpErr ErrPullStateNotFound)].
Proof. vm_compute. split; reflexivity. Qed.
