(* ===== verification/AuditTrail.v ===== *)
(** * Offline entries and webhooks of the audit log (modules/audit offline.go, webhook.go)

    Gateways hand in what they decided while they were offline; entries that are
    known are skipped.  A tenant can have its entries sent to an endpoint of its own;
    a delivery is tried three times at most and recorded. *)

From S2P Require Import Prelude GoStrings GoTime AuditLog.
#[local] Open Scope string_scope.
#[local] Open Scope list_scope.
#[local] Open Scope Z_scope.

(** ** Offline entries *)

Record OfflineAuditEntry := mkOffline {
  oeEventID : string; oeUserID : string; oeLockID : string; oeMethod : string; oeResult : string; oeReason : string;
  oeGatewayID : Z; oeTimestamp : Z; oeIsOffline : bool
}.

Definition validateOfflineEntry (e : OfflineAuditEntry) : option string :=
  if is_empty (oeEventID e) then Some "event_id is required"
  else if is_empty (oeUserID e) then Some "user_id is required"
  else if is_empty (oeLockID e) then Some "lock_id is required"
  else if oeTimestamp e <=? 0 then Some "timestamp must be positive"
  else if negb (String.eqb (ToLower (oeMethod e)) "ble") && negb (String.eqb (ToLower (oeMethod e)) "nfc_hce")
  then Some "method must be 'ble' or 'nfc_hce'"
  else if negb (String.eqb (ToLower (oeResult e)) "granted") && negb (String.eqb (ToLower (oeResult e)) "denied")
  then Some "result must be 'granted' or 'denied'"
  else None.

(** [strings.Fields], with the white space runes of two and three bytes. *)
Fixpoint fields_from (s cur : string) : list string :=
  let close rest := if is_empty cur then rest else rev_string cur :: rest in
  match s with
  | EmptyString => close []
  | String a t =>
      if space1 a then close (fields_from t "")
      else
        match t with
        | String b u =>
            if space2 a b then close (fields_from u "")
            else
              match u with
              | String c v => if space3 a b c then close (fields_from v "") else fields_from t (String a cur)
              | EmptyString => fields_from t (String a cur)
              end
        | EmptyString => fields_from t (String a cur)
        end
  end.
Definition strings_Fields (s : string) : list string := fields_from s "".

Definition auditTargetHasField (target key value : string) : bool :=
  let expected := TrimSpace key +:+ "=" +:+ TrimSpace value in
  if String.eqb expected "=" then false else existsb (String.eqb expected) (strings_Fields target).
Definition hasEventID (eventID : string) (s : Service) : bool :=
  existsb (λ l, String.eqb (ID l) eventID || auditTargetHasField (Target l) "event_id" eventID) (logs s).

Definition offline_target (gatewayID : string) (e : OfflineAuditEntry) : string :=
  let target := if is_empty (oeEventID e) then oeLockID e else TrimSpace (oeLockID e +:+ " event_id=" +:+ oeEventID e) in
  if is_empty gatewayID then target else TrimSpace (target +:+ " gateway_id=" +:+ gatewayID).
Definition offline_source (e : OfflineAuditEntry) : string :=
  if is_empty (oeMethod e) then "gateway_offline" else "gateway_offline_" +:+ oeMethod e.

Record OfflineBatchContext := mkBatch { btTenantID : string; btGatewayID : string }.

Section offline.
Context `{!Mac}.

(** An entry whose check passed. *)
Definition offline_append (b : OfflineBatchContext) (e : OfflineAuditEntry) (env : Env) : op Service audit_err Log :=
  AppendWithTimestamp (TrimSpace (btTenantID b)) (oeUserID e) "system" ("offline_access_" +:+ oeResult e)
    (offline_target (TrimSpace (btGatewayID b)) e) (offline_source e) (oeTimestamp e * second) env.
Definition skipped (e : OfflineAuditEntry) (s : Service) : bool :=
  match validateOfflineEntry e with Some _ => true | None => hasEventID (oeEventID e) s end.
(** One round of the loop, and whether the entry is accepted. *)
Definition ingest_one (b : OfflineBatchContext) (e : OfflineAuditEntry) (env : Env) (s : Service) : Service * bool :=
  if skipped e s then (s, false) else let '(s', r) := offline_append b e env s in (s', is_ok r).
(** The entries, each with the world its round runs in and whether the request has
    been cancelled by then; the number accepted, and whether the end was reached. *)
Fixpoint IngestOfflineBatchForGateway (b : OfflineBatchContext) (entries : list (OfflineAuditEntry * Env * bool)) (accepted : Z)
    (s : Service) : Service * (Z * bool) :=
  match entries with
  | [] => (s, (accepted, true))
  | (e, env, cancelled) :: entries =>
      if cancelled : bool then (s, (accepted, false))
      else
        let '(s, ok) := ingest_one b e env s in
        IngestOfflineBatchForGateway b entries (if ok : bool then accepted + 1 else accepted) s
  end.
Definition IngestOfflineBatch (entries : list (OfflineAuditEntry * Env * bool)) : Service → Service * (Z * bool) :=
  IngestOfflineBatchForGateway (mkBatch "" "") entries 0.

(** *** An accepted entry is found again *)

Lemma visible_not_space1 a : visible a = true → space1 a = false.
Proof. unfold visible, space1. lia. Qed.
Lemma visible_not_space2 a b : visible a = true → space2 a b = false.
Proof. unfold visible, space2. lia. Qed.
Lemma visible_not_space3 a b c : visible a = true → space3 a b c = false.
Proof. unfold visible, space3. lia. Qed.

Lemma fields_visible w cur s :
  all_chars visible w = true → fields_from (w +:+ s) cur = fields_from s (rev_string w +:+ cur).
Proof.
  revert cur. induction w as [|a w IH]; intros cur Hv; [done|]. simpl in Hv. apply andb_true_iff in Hv as [Ha Hw].
  rewrite append_cons. cbn [fields_from]. rewrite visible_not_space1 by done.
  assert (fields_from (w +:+ s) (String a cur) = fields_from s (rev_string (String a w) +:+ cur)) as E.
  { rewrite IH by done. rewrite rev_string_cons, <- sapp_assoc. done. }
  destruct (w +:+ s) as [|b u]; [done|]. rewrite visible_not_space2 by done. destruct u as [|c v]; [done|].
  by rewrite visible_not_space3.
Qed.
Lemma fields_word w s :
  all_chars visible w = true → w ≠ "" → strings_Fields (w +:+ " " +:+ s) = w :: strings_Fields s.
Proof.
  intros Hw Hne. unfold strings_Fields. rewrite fields_visible by done. simpl.
  rewrite sapp_nil_r. destruct (is_empty (rev_string w)) eqn:E.
  - apply is_empty_true in E. rewrite <- (rev_string_involutive w), E in Hne. done.
  - by rewrite rev_string_involutive.
Qed.
Lemma fields_last w : all_chars visible w = true → w ≠ "" → strings_Fields w = [w].
Proof.
  intros Hw Hne. unfold strings_Fields. rewrite <- (sapp_nil_r w) at 1. rewrite fields_visible by done. simpl. rewrite sapp_nil_r.
  destruct (is_empty (rev_string w)) eqn:E; [|by rewrite rev_string_involutive].
  apply is_empty_true in E. rewrite <- (rev_string_involutive w), E in Hne. done.
Qed.

(** Between visible ends nothing is trimmed. *)
Lemma visible_ends a s b :
  all_chars visible a = true → a ≠ "" → all_chars visible b = true → b ≠ "" → TrimSpace (a +:+ s +:+ b) = a +:+ s +:+ b.
Proof.
  assert (∀ w2 w3 x t, (∀ a b, visible a = true → w2 a b = false) → (∀ a b c, visible a = true → w3 a b c = false) →
            all_chars visible x = true → x ≠ "" → leads space1 w2 w3 (x +:+ t) = false) as Hl.
  { intros w2 w3 [|c x] t H2 H3 Hx Hne; [done|]. simpl in Hx. apply andb_true_iff in Hx as [Hc _]. rewrite append_cons. simpl.
    rewrite visible_not_space1 by done. destruct (x +:+ t) as [|d [|e u]]; [done|by rewrite H2|by rewrite H2, H3]. }
  intros Ha Hna Hb Hnb. apply TrimSpace_fix. split.
  - apply Hl; [apply visible_not_space2|apply visible_not_space3|done|done].
  - rewrite rev_string_app, rev_string_app, <- sapp_assoc. apply Hl.
    + intros x y. unfold visible, space2. lia.
    + intros x y z. unfold visible, space3. lia.
    + by rewrite all_chars_rev.
    + intros E. apply Hnb. by rewrite <- (rev_string_involutive b), E.
Qed.

(** Identifiers as the system makes them. *)
Definition printable (s : string) : bool := negb (is_empty s) && all_chars visible s.
Lemma printable_spec s : printable s = true ↔ s ≠ "" ∧ all_chars visible s = true.
Proof. unfold printable. rewrite andb_true_iff, negb_true_iff. by rewrite is_empty_false. Qed.
Lemma printable_trim s : printable s = true → TrimSpace s = s.
Proof. intros [_ Hs]%printable_spec. by apply TrimSpace_fix, visible_trimmed. Qed.

Lemma target_has_event g e :
  printable (oeEventID e) = true → printable (oeLockID e) = true → (g = "" ∨ printable g = true) →
  auditTargetHasField (TrimSpace (offline_target g e)) "event_id" (oeEventID e) = true.
Proof.
  intros He Hl Hg. unfold auditTargetHasField, offline_target. rewrite (printable_trim _ He).
  change (TrimSpace "event_id") with "event_id". apply printable_spec in He as [Hne He], Hl as [Hnl Hl].
  set (w := "event_id" +:+ "=" +:+ oeEventID e) in *.
  assert (all_chars visible w = true) as Hw by by (subst w; rewrite !all_chars_app, He).
  assert (w ≠ "") as Hnw by by subst w. assert (w ≠ "=") as Hnq by by subst w.
  assert (oeLockID e +:+ " event_id=" +:+ oeEventID e = oeLockID e +:+ " " +:+ w) as -> by done.
  apply is_empty_false in Hne as ->. rewrite (visible_ends _ " " w) by done. apply String.eqb_neq in Hnq as ->.
  destruct (is_empty g) eqn:Eg.
  - rewrite visible_ends by done. rewrite fields_word, fields_last by done. simpl. by rewrite String.eqb_refl, orb_true_r.
  - destruct Hg as [->|[Hng Hg]%printable_spec]; [done|]. set (v := "gateway_id=" +:+ g).
    assert (all_chars visible v = true) as Hv by by (subst v; rewrite !all_chars_app, Hg).
    assert (v ≠ "") as Hnv by by subst v.
    assert ((oeLockID e +:+ " " +:+ w) +:+ " gateway_id=" +:+ g = oeLockID e +:+ (" " +:+ w +:+ " ") +:+ v) as ->
      by (subst v; by rewrite <- !sapp_assoc).
    rewrite !visible_ends by done. rewrite <- !sapp_assoc, fields_word, fields_word by done. simpl.
    by rewrite String.eqb_refl, orb_true_r.
Qed.

(** *** The log grows *)

Lemma append_logs tn ac ro an tg src at_ env s :
  (exec (AppendWithTimestamp tn ac ro an tg src at_ env) s = s ∧ is_ok (answer (AppendWithTimestamp tn ac ro an tg src at_ env) s) = false)
  ∨ ∃ l, logs (exec (AppendWithTimestamp tn ac ro an tg src at_ env) s) = l :: logs s ∧ Target l = TrimSpace tg ∧ TenantID l = TrimSpace tn.
Proof.
  unfold exec, answer, AppendWithTimestamp. rewrite bind_lift. destruct (fresh_id "aud_" env) as [id|]; [|by left]. right.
  rewrite bind_gets, bind_modify, bind_op_eq. unfold persistLocked. destruct (store env); simpl; eexists; (split; [done|]);
    by destruct (is_empty (hmacKey s)).
Qed.
Lemma ingest_logs b e env s : logs s `suffix_of` logs (ingest_one b e env s).1.
Proof.
  unfold ingest_one. destruct (skipped e s); [done|].
  pose proof (append_logs (TrimSpace (btTenantID b)) (oeUserID e) "system" ("offline_access_" +:+ oeResult e)
    (offline_target (TrimSpace (btGatewayID b)) e) (offline_source e) (oeTimestamp e * second) env s) as Ha.
  unfold offline_append, exec in *. destruct (AppendWithTimestamp _ _ _ _ _ _ _ _ s) as [s' r]. simpl in *.
  destruct Ha as [[-> _]|(l & -> & _)]; [done|]. by apply suffix_cons_r.
Qed.

(** Calls of the service, in any order. *)
Inductive trail_call :=
| CallAppend (tenantID actor role action target source : string) (env : Env)
| CallBatch (b : OfflineBatchContext) (entries : list (OfflineAuditEntry * Env * bool))
| CallKey (key : string).
Definition trail_run (ks : list trail_call) (s : Service) : Service :=
  foldl (λ s k, match k with
    | CallAppend tn ac ro an tg src env => exec (Append tn ac ro an tg src env) s
    | CallBatch b entries => (IngestOfflineBatchForGateway b entries 0 s).1
    | CallKey key => exec (SetHMACKey key) s
    end) s ks.
Lemma batch_logs b entries n s : logs s `suffix_of` logs (IngestOfflineBatchForGateway b entries n s).1.
Proof.
  revert n s. induction entries as [|[[e env] cancelled] es IH]; intros n s; simpl; [done|]. destruct cancelled; [done|].
  pose proof (ingest_logs b e env s) as Hi. destruct (ingest_one b e env s) as [s1 ok]. simpl in *. by etrans; [|apply IH].
Qed.
Lemma run_logs ks s : logs s `suffix_of` logs (trail_run ks s).
Proof.
  revert s. induction ks as [|k ks IH]; intros s; [done|]. simpl. etrans; [|apply IH].
  destruct k as [tn ac ro an tg src env|b entries|key]; [|apply batch_logs|done].
  unfold Append. destruct (append_logs tn ac ro an tg src (now env) env s) as [[-> _]|(l & -> & _)]; [done|by apply suffix_cons_r].
Qed.
Lemma has_event_grows id s s' : logs s `suffix_of` logs s' → hasEventID id s = true → hasEventID id s' = true.
Proof. unfold hasEventID. intros [k ->]. rewrite existsb_app. intros ->. apply orb_true_r. Qed.

Lemma accepted_known b e env s s1 :
  ingest_one b e env s = (s1, true) → printable (oeEventID e) = true → printable (oeLockID e) = true →
  (TrimSpace (btGatewayID b) = "" ∨ printable (TrimSpace (btGatewayID b)) = true) → hasEventID (oeEventID e) s1 = true.
Proof.
  unfold ingest_one. destruct (skipped e s); [done|]. unfold offline_append.
  pose proof (append_logs (TrimSpace (btTenantID b)) (oeUserID e) "system" ("offline_access_" +:+ oeResult e)
    (offline_target (TrimSpace (btGatewayID b)) e) (offline_source e) (oeTimestamp e * second) env s) as Ha.
  unfold exec, answer in Ha. destruct (AppendWithTimestamp _ _ _ _ _ _ _ _ s) as [s' r]. simpl in *.
  intros [= <- Hr] He Hl Hg. destruct Ha as [[_ Hf]|(l & Hlogs & Ht & _)]; [congruence|].
  unfold hasEventID. rewrite Hlogs. simpl. rewrite Ht, target_has_event by done. by rewrite orb_true_r.
Qed.

(** C22: An offline decision is taken in once, when its event and lock ids and the id of its
    gateway have no blanks in them (the target of a log entry is read back by splitting it at
    blanks, so an event id with one is never found again).  After an entry of a gateway has
    been accepted, and after any further calls, an entry with its event id is skipped,
    whichever gateway and tenant hands it in and whatever else it says. *)
Theorem offline_once b e env s s1 ks b' e' env' :
  ingest_one b e env s = (s1, true) → printable (oeEventID e) = true → printable (oeLockID e) = true →
  (TrimSpace (btGatewayID b) = "" ∨ printable (TrimSpace (btGatewayID b)) = true) → oeEventID e' = oeEventID e →
  ingest_one b' e' env' (trail_run ks s1) = (trail_run ks s1, false).
Proof.
  intros Hi He Hl Hg Heq. pose proof (accepted_known _ _ _ _ _ Hi He Hl Hg) as Hk. unfold ingest_one, skipped.
  rewrite Heq, (has_event_grows _ s1 _ (run_logs ks s1) Hk). by destruct (validateOfflineEntry e').
Qed.

(** The check and the entry are two sections of the lock: when two requests hand in
    the same entry at once, both can pass the check, and the log has it twice. *)
Theorem offline_race b e env1 env2 s :
  skipped e s = false → fresh env1 ≠ None → fresh env2 ≠ None →
  ∃ l1 l2, logs (exec (offline_append b e env2) (exec (offline_append b e env1) s)) = l2 :: l1 :: logs s
    ∧ Target l1 = Target l2 ∧ TenantID l1 = TenantID l2.
Proof.
  intros _ H1 H2. unfold offline_append.
  assert (∀ tn ac ro an tg src at_ env s, fresh env ≠ None → ∃ l,
    logs (exec (AppendWithTimestamp tn ac ro an tg src at_ env) s) = l :: logs s ∧ Target l = TrimSpace tg ∧ TenantID l = TrimSpace tn) as Ha.
  { intros tn ac ro an tg src at_ env s0 Hf. unfold exec, AppendWithTimestamp. rewrite bind_lift. unfold fresh_id.
    destruct (fresh env); [|done]. rewrite bind_gets, bind_modify, bind_op_eq. unfold persistLocked.
    destruct (store env); simpl; eexists; (split; [done|]); by destruct (is_empty (hmacKey s0)). }
  destruct (Ha (TrimSpace (btTenantID b)) (oeUserID e) "system" ("offline_access_" +:+ oeResult e)
    (offline_target (TrimSpace (btGatewayID b)) e) (offline_source e) (oeTimestamp e * second) env1 s H1) as (l1 & E1 & T1 & N1).
  destruct (Ha (TrimSpace (btTenantID b)) (oeUserID e) "system" ("offline_access_" +:+ oeResult e)
    (offline_target (TrimSpace (btGatewayID b)) e) (offline_source e) (oeTimestamp e * second) env2
    (exec (offline_append b e env1) s) H2) as (l2 & E2 & T2 & N2).
  exists l1, l2. unfold offline_append in *. by rewrite E2, E1, T1, T2, N1, N2.
Qed.
End offline.

(** ** Webhooks *)

Inductive webhook_err :=
| ErrWebhookTenantIDRequired | ErrWebhookEndpointRequired | ErrInvalidWebhookEndpoint | ErrWebhookConfigNotFound
| ErrWebhookDisabled | ErrWebhookActionFiltered | ErrAuditLogNotFound | ErrDispatch (text : string)
| ErrHookRandom | ErrHookSave.
#[export] Instance webhook_service_err : ServiceErr webhook_err := {| ErrRand := ErrHookRandom; ErrStore := ErrHookSave |}.

Record WebhookConfig := mkConfig {
  whTenantID : string; whEnabled : bool; whEndpoint : string; whActions : list string; whSigningSecret : string;
  whUpdatedBy : string; whUpdatedAt : Z
}.
Record WebhookDelivery := mkDelivery {
  wdTenantID : string; wdID : string; wdAuditLogID : string; wdAction : string; wdEndpoint : string; wdStatus : string;
  wdAttemptCount : Z; wdHTTPStatus : Z; wdError : string; wdResponseBody : string; wdDispatchedAt : Z
}.
#[export] Instance eta_delivery : Eta WebhookDelivery := λ d,
  mkDelivery (wdTenantID d) (wdID d) (wdAuditLogID d) (wdAction d) (wdEndpoint d) (wdStatus d) (wdAttemptCount d)
    (wdHTTPStatus d) (wdError d) (wdResponseBody d) (wdDispatchedAt d).

(** The service with the two tables of this file, and what the store keeps of it. *)
Record Trail := mkTrail {
  trail : Service; webhookConfigs : gmap string WebhookConfig; webhookDeliveries : list WebhookDelivery;
  savedTrail : option (list Log * gmap string WebhookConfig * list WebhookDelivery)
}.
#[export] Instance eta_trail : Eta Trail := λ t,
  mkTrail (trail t) (webhookConfigs t) (webhookDeliveries t) (savedTrail t).
#[export, program] Instance trail_persistent : Persistent Trail (list Log * gmap string WebhookConfig * list WebhookDelivery) := {|
  snapshot := λ t, (logs (trail t), webhookConfigs t, webhookDeliveries t); saved := savedTrail;
  set_saved := λ d t, t <| savedTrail := d |>
|}.
Solve All Obligations with done.
(** [restoreFromStateStore]: what was found, if the store could be read; an empty
    store is filled with what the service starts with. *)
Definition restoreFromStateStore (env : Env) (found : option (option (list Log * gmap string WebhookConfig * list WebhookDelivery))) :
    op Trail webhook_err unit :=
  match found with
  | None => throw ErrHookSave
  | Some None => persistLocked env
  | Some (Some (l, c, d)) =>
      modify (λ t, t <| trail ::= (λ s, s <| logs := l |>) |> <| webhookConfigs := c |> <| webhookDeliveries := d |>)
  end.

Definition normalizeWebhookActions (actions : list string) : list string :=
  foldl (λ out raw,
    let action := ToLower (TrimSpace raw) in
    if is_empty action || existsb (String.eqb action) out then out else out ++ [action]) [] actions.
Definition webhookActionAllowed (actions : list string) (action : string) : bool :=
  match actions with [] => true | _ => existsb (λ a, String.eqb a (ToLower (TrimSpace action))) actions end.
Definition isHTTPWebhookEndpoint (input : string) : bool :=
  let next := ToLower (TrimSpace input) in HasPrefix next "https://" || HasPrefix next "http://".

Abbreviation m := (op Trail webhook_err).
Definition GetWebhookConfig (tenantID : string) (t : Trail) : result webhook_err WebhookConfig :=
  if is_empty (TrimSpace tenantID) then Err ErrWebhookTenantIDRequired
  else match webhookConfigs t !! TrimSpace tenantID with Some c => Ok c | None => Err ErrWebhookConfigNotFound end.
Definition UpsertWebhookConfig (env : Env) (tenantID : string) (enabled : bool) (endpoint : string) (actions : list string)
    (signingSecret updatedBy : string) : m WebhookConfig :=
  let nextTenantID := TrimSpace tenantID in
  fail_if (is_empty nextTenantID) ErrWebhookTenantIDRequired;;
  current ← gets (λ t, webhookConfigs t !! nextTenantID);
  let kept (get : WebhookConfig → string) := from_option (λ c, TrimSpace (get c)) "" current in
  let nextEndpoint := if is_empty (TrimSpace endpoint) then kept whEndpoint else TrimSpace endpoint in
  let nextSecret := if is_empty (TrimSpace signingSecret) then kept whSigningSecret else TrimSpace signingSecret in
  fail_if (enabled && is_empty nextEndpoint) ErrWebhookEndpointRequired;;
  fail_if (enabled && negb (isHTTPWebhookEndpoint nextEndpoint)) ErrInvalidWebhookEndpoint;;
  let record := mkConfig nextTenantID enabled nextEndpoint (normalizeWebhookActions actions) nextSecret
                  (or_default updatedBy "system") (now env) in
  modify (λ t, t <| webhookConfigs ::= <[nextTenantID := record]> |>);;
  persistLocked env;; mret record.
Definition ListWebhookDeliveries (tenantID : string) (limit : Z) (t : Trail) : list WebhookDelivery :=
  let items := filterb (λ d, is_empty (TrimSpace tenantID) || String.eqb (TrimSpace (wdTenantID d)) (TrimSpace tenantID))
                 (webhookDeliveries t) in
  if (0 <? limit) && (limit <? Z.of_nat (length items)) then take (Z.to_nat limit) items else items.
Definition FindLogByID (tenantID logID : string) (t : Trail) : result webhook_err Log :=
  if is_empty (TrimSpace tenantID) then Err ErrWebhookTenantIDRequired
  else if is_empty (TrimSpace logID) then Err ErrAuditLogNotFound
  else match findi (λ l, String.eqb (TrimSpace (TenantID l)) (TrimSpace tenantID) && String.eqb (TrimSpace (ID l)) (TrimSpace logID))
               (logs (trail t)) with
       | Some (_, l) => Ok l
       | None => Err ErrAuditLogNotFound
       end.

(** *** Dispatch *)

Definition webhookDispatchMaxAttempts : Z := 3.
Definition webhookDeliveryMaxRecords : nat := N.to_nat 1000.
Definition shouldRetryWebhookDispatch (attempt statusCode : Z) : bool :=
  if webhookDispatchMaxAttempts <=? attempt then false
  else (statusCode =? 0) || (statusCode =? 408) || (statusCode =? 429) || (500 <=? statusCode).

Record Request := mkRequest { rqURL : string; rqHeaders : list (string * string); rqBody : string }.
(** What the endpoint does with a request, and whether the pause before the next one
    ends before the context does. *)
Inductive Hook := NotSent (error : string) | Unreadable (status : Z) (error : string) | Responds (status : Z) (body : string).
Definition hook_status (h : Hook) : Z := match h with NotSent _ => 0 | Unreadable s _ | Responds s _ => s end.
Definition delivered (h : Hook) : bool := match h with Responds s _ => (200 <=? s) && (s <? 300) | _ => false end.

(** The delivery after an attempt that did not succeed, and the error it leaves. *)
Definition after_failure (h : Hook) (dec : Z → string) (d : WebhookDelivery) : WebhookDelivery * string :=
  match h with
  | NotSent e => (d <| wdError := TrimSpace e |> <| wdHTTPStatus := 0 |> <| wdResponseBody := "" |>, "webhook request failed: " +:+ e)
  | Unreadable s e =>
      (d <| wdError := TrimSpace e |> <| wdHTTPStatus := s |> <| wdResponseBody := "" |>, "failed reading webhook response: " +:+ e)
  | Responds s body =>
      (d <| wdHTTPStatus := s |> <| wdResponseBody := TrimSpace body |> <| wdError := "webhook status " +:+ dec s |>,
       "webhook returned status " +:+ dec s)
  end.
(** The attempts from number [attempt], [n] of them; the context may end in a pause. *)
Fixpoint attempts_from (dec : Z → string) (n : nat) (attempt : Z) (hooks : nat → Hook) (pauses : nat → bool)
    (d : WebhookDelivery) (lastErr : string) : WebhookDelivery * option string :=
  match n with
  | O => (d, Some lastErr)
  | S n =>
      let h := hooks (Z.to_nat attempt) in
      let d := d <| wdAttemptCount := attempt |> in
      if delivered h then
        let body := match h with Responds _ body => TrimSpace body | _ => "" end in
        (d <| wdHTTPStatus := hook_status h |> <| wdResponseBody := body |> <| wdStatus := "success" |> <| wdError := "" |>, None)
      else
        let '(d, err) := after_failure h dec d in
        if shouldRetryWebhookDispatch attempt (hook_status h) && pauses (Z.to_nat attempt)
        then attempts_from dec n (attempt + 1) hooks pauses d err
        else (d, Some err)
  end.

Definition recordWebhookDelivery (env : Env) (d : WebhookDelivery) : m unit :=
  modify (λ t, t <| webhookDeliveries := take webhookDeliveryMaxRecords (d :: webhookDeliveries t) |>);;
  ignore_err (persistLocked (E:=webhook_err) env).

Section dispatch.
Context `{!Mac}.
Definition webhookPayloadSignature (secret timestamp payload : string) : string :=
  "sha256=" +:+ mac (TrimSpace secret) (TrimSpace timestamp +:+ "." +:+ payload).

(** The headers of every attempt. *)
Definition hook_headers (dec : Z → string) (config : WebhookConfig) (l : Log) (at_ : Z) (body : string) : list (string * string) :=
  [("Content-Type", "application/json"); ("X-MistyPass-Event-ID", TrimSpace (ID l));
   ("X-MistyPass-Event-Action", TrimSpace (Action l))]
  ++ if is_empty (TrimSpace (whSigningSecret config)) then []
     else let timestamp := dec (at_ / second) in
          [("X-MistyPass-Signature-Timestamp", timestamp);
           ("X-MistyPass-Signature", webhookPayloadSignature (TrimSpace (whSigningSecret config)) timestamp body)].
Definition hook_request (dec : Z → string) (encode : string → Log → Z → string) (config : WebhookConfig) (tenantID : string)
    (l : Log) (at_ : Z) : Request :=
  let body := encode tenantID l at_ in mkRequest (whEndpoint config) (hook_headers dec config l at_ body) body.
(** [valid_url] says whether [http.NewRequest] takes the endpoint, [encode] is the JSON
    of tenant, log entry and time, and [endpoint] answers the request of an attempt. *)
Definition DispatchWebhookForLog (dec : Z → string) (encode : string → Log → Z → string) (valid_url : string → bool) (env : Env)
    (tenantID : string) (l : Log) (endpoint : nat → Request → Hook) (pauses : nat → bool) : m (WebhookDelivery * option string) :=
  let nextTenantID := TrimSpace tenantID in
  fail_if (is_empty nextTenantID) ErrWebhookTenantIDRequired;;
  found ← gets (λ t, webhookConfigs t !! nextTenantID);
  match found with
  | None => throw ErrWebhookConfigNotFound
  | Some config =>
      fail_if (negb (whEnabled config)) ErrWebhookDisabled;;
      fail_if (negb (webhookActionAllowed (whActions config) (Action l))) ErrWebhookActionFiltered;;
      id ← lift (fresh_id "awd_" env);
      fail_if (negb (valid_url (whEndpoint config))) (ErrDispatch "invalid request");;
      let delivery := mkDelivery nextTenantID id (TrimSpace (ID l)) (TrimSpace (Action l)) (TrimSpace (whEndpoint config))
                        "failed" 0 0 "" "" (now env) in
      let hooks i := endpoint i (hook_request dec encode config nextTenantID l (now env)) in
      let '(d, err) := attempts_from dec (Z.to_nat webhookDispatchMaxAttempts) 1 hooks pauses delivery "webhook dispatch failed" in
      recordWebhookDelivery env d;;
      mret (d, err)
  end.

(** How a run of attempts ended: with which, and why not with an earlier one. *)
Definition ended (hooks : nat → Hook) (pauses : nat → bool) (first last : nat) : Prop :=
  (first <= last <= 3)%nat
  ∧ (∀ i, (first <= i < last)%nat → delivered (hooks i) = false ∧ shouldRetryWebhookDispatch (Z.of_nat i) (hook_status (hooks i)) = true ∧ pauses i = true)
  ∧ (delivered (hooks last) = false → shouldRetryWebhookDispatch (Z.of_nat last) (hook_status (hooks last)) && pauses last = false).

Lemma attempts_end dec n first hooks pauses d0 e0 d err :
  (n = 4 - first)%nat → (1 <= first <= 3)%nat → wdStatus d0 = "failed" →
  attempts_from dec n (Z.of_nat first) hooks pauses d0 e0 = (d, err) →
  ∃ last, ended hooks pauses first last ∧ wdAttemptCount d = Z.of_nat last ∧ wdHTTPStatus d = hook_status (hooks last)
    ∧ wdStatus d = (if delivered (hooks last) then "success" else "failed") ∧ (err = None ↔ delivered (hooks last) = true).
Proof.
  revert first d0 e0. induction n as [|n IH]; intros first d0 e0 Hn Hf Hs; [lia|]. simpl. rewrite Nat2Z.id.
  destruct (delivered (hooks first)) eqn:Hd.
  - intros [= <- <-]. exists first. rewrite Hd. split; [unfold ended; rewrite Hd; split_and!; [lia..|done]|done].
  - destruct (after_failure (hooks first) dec _) as [d1 e1] eqn:Ha.
    assert (wdStatus d1 = "failed" ∧ wdAttemptCount d1 = Z.of_nat first ∧ wdHTTPStatus d1 = hook_status (hooks first)) as (H1 & H2 & H3)
      by (unfold after_failure in Ha; destruct (hooks first); injection Ha as <- <-; done).
    destruct (_ && _) eqn:Hr.
    + assert (first < 3)%nat as Hlt.
      { unfold shouldRetryWebhookDispatch, webhookDispatchMaxAttempts in Hr. destruct (Z.leb_spec 3 (Z.of_nat first)); [done|lia]. }
      replace (Z.of_nat first + 1) with (Z.of_nat (S first)) by lia. intros Hrec.
      destruct (IH (S first) d1 e1 ltac:(lia) ltac:(lia) H1 Hrec) as (last & (Hb & Hbefore & Hlast) & Hrest).
      exists last. split; [|done]. unfold ended. split_and!; [lia..| |done]. apply andb_true_iff in Hr as [Hr1 Hr2].
      intros i Hi. destruct (decide (i = first)) as [->|]; [done|]. apply Hbefore. lia.
    + intros [= <- <-]. exists first. rewrite Hd. split; [unfold ended; rewrite Hd; split_and!; [lia..|done]|done].
Qed.

Lemma attempts_tenant dec n a hooks pauses d0 e0 :
  wdTenantID (attempts_from dec n a hooks pauses d0 e0).1 = wdTenantID d0.
Proof.
  revert a d0 e0. induction n as [|n IH]; intros a d0 e0; simpl; [done|]. destruct (delivered _); [done|].
  destruct (after_failure _ _ _) as [d2 e2] eqn:Hf.
  assert (wdTenantID d2 = wdTenantID d0) by (unfold after_failure in Hf; destruct (hooks _); injection Hf as <- <-; done).
  destruct (_ && _); [by rewrite IH|done].
Qed.

(** What a dispatch does.  Only an enabled configuration of the entry's tenant that
    takes the action sends anything, and every attempt sends the same request, signed
    when there is a secret.  It ends after at most three attempts; it goes on only
    after a transport error, a 408, a 429 or a 5xx; it is a success exactly when the
    last attempt was answered with a 2xx; and it is recorded at the head of the table,
    which keeps a thousand. *)
Theorem dispatch_outcome dec encode valid_url env tenant l endpoint pauses t t' d err :
  DispatchWebhookForLog dec encode valid_url env tenant l endpoint pauses t = (t', Ok (d, err)) →
  ∃ config, webhookConfigs t !! TrimSpace tenant = Some config ∧ whEnabled config = true
    ∧ webhookActionAllowed (whActions config) (Action l) = true
    ∧ let hooks i := endpoint i (hook_request dec encode config (TrimSpace tenant) l (now env)) in
      (∃ last, ended hooks pauses 1 last ∧ wdAttemptCount d = Z.of_nat last ∧ wdHTTPStatus d = hook_status (hooks last)
         ∧ wdStatus d = (if delivered (hooks last) then "success" else "failed") ∧ (err = None ↔ delivered (hooks last) = true))
      ∧ webhookDeliveries t' = take webhookDeliveryMaxRecords (d :: webhookDeliveries t) ∧ wdTenantID d = TrimSpace tenant.
Proof.
  unfold DispatchWebhookForLog. rewrite fail_if_bind. destruct (is_empty _); [done|]. rewrite bind_gets.
  destruct (webhookConfigs t !! TrimSpace tenant) as [c|]; [|done]. rewrite fail_if_bind. destruct (whEnabled c) eqn:Hen; [|done].
  rewrite fail_if_bind. destruct (webhookActionAllowed _ _) eqn:Hal; [|done]. rewrite bind_lift.
  destruct (fresh_id _ env) as [id|]; [|done]. rewrite fail_if_bind. destruct (negb (valid_url _)); [done|].
  pose proof (attempts_tenant dec (Z.to_nat webhookDispatchMaxAttempts) 1
    (λ i, endpoint i (hook_request dec encode c (TrimSpace tenant) l (now env))) pauses
    (mkDelivery (TrimSpace tenant) id (TrimSpace (ID l)) (TrimSpace (Action l)) (TrimSpace (whEndpoint c)) "failed" 0 0 "" "" (now env))
    "webhook dispatch failed") as Htn.
  destruct (attempts_from _ _ _ _ _ _ _) as [d1 e1] eqn:Ha. simpl in Htn. intros Hd. exists c. split; [done|split; [done|split; [done|]]]. cbv zeta.
  unfold recordWebhookDelivery in Hd. rewrite !bind_op_eq in Hd. unfold ignore_err, persistLocked in Hd.
  apply (attempts_end dec 3 1 _ _ _ _ _ _ eq_refl ltac:(lia)) in Ha; [|done].
  destruct (store env); simpl in Hd; injection Hd as <- <- <-; done.
Qed.
(** An attempt is signed exactly when the configuration has a secret. *)
Lemma signed_when_secret dec config l at_ body :
  "X-MistyPass-Signature" ∈ (hook_headers dec config l at_ body).*1 ↔ TrimSpace (whSigningSecret config) ≠ "".
Proof.
  unfold hook_headers. destruct (is_empty _) eqn:E; simpl.
  - apply is_empty_true in E. rewrite E. split; [|done]. rewrite !elem_of_cons. set_solver.
  - apply is_empty_false in E. split; [done|]. intros _. set_solver.
Qed.
End dispatch.

(** ** Examples *)

#[local] Abbreviation ex_entry := (mkOffline "evt-1" "u1" "lock-7" "BLE" "granted" "" 4 1775912400 true).
#[local] Abbreviation from_gateway := (mkBatch " t1 " "gw-1").

(** The entry comes again, from another gateway and with another result. *)
Lemma offline_once_witness :
  let s1 := (@ingest_one toy_mac from_gateway ex_entry (env_at 1 "01") empty_log).1 in
  let later := [CallAppend "t1" "a" "" "login" "x" "" (env_at 2 "02")] in
  snd (@ingest_one toy_mac from_gateway ex_entry (env_at 1 "01") empty_log) = true
  ∧ @ingest_one toy_mac (mkBatch "t2" "gw-2") (mkOffline "evt-1" "u2" "lock-8" "nfc_hce" "denied" "" 5 1775912500 true)
      (env_at 3 "03") (@trail_run toy_mac later s1) = (@trail_run toy_mac later s1, false).
Proof.
  cbv zeta. split; [vm_compute; reflexivity|].
  apply (@offline_once toy_mac from_gateway ex_entry (env_at 1 "01") empty_log); try (vm_compute; reflexivity).
  right. vm_compute. reflexivity.
Defined.

(** An event id with a blank at its end is not found again. *)
Example offline_blank_reingests :
  let e := mkOffline "evt 1" "u1" "lock-7" "ble" "granted" "" 4 1775912400 true in
  let s := @IngestOfflineBatchForGateway toy_mac from_gateway [(e, env_at 1 "01", false); (e, env_at 2 "02", false)] 0 empty_log in
  snd s = (2, true) ∧ Target <$> logs s.1 = ["lock-7 event_id=evt 1 gateway_id=gw-1"; "lock-7 event_id=evt 1 gateway_id=gw-1"].
Proof. vm_compute. split; reflexivity. Qed.

(** Nothing was known of the entry, and both requests pass the check. *)
Lemma offline_race_witness :
  skipped ex_entry empty_log = false
  ∧ ∃ l1 l2, logs (exec (@offline_append toy_mac from_gateway ex_entry (env_at 2 "02"))
                     (exec (@offline_append toy_mac from_gateway ex_entry (env_at 1 "01")) empty_log)) = l2 :: l1 :: logs empty_log
      ∧ Target l1 = Target l2 ∧ TenantID l1 = TenantID l2.
Proof.
  split; [vm_compute; reflexivity|].
  apply (@offline_race toy_mac from_gateway ex_entry (env_at 1 "01") (env_at 2 "02") empty_log); [vm_compute; reflexivity|done|done].
Defined.

(** The endpoint answers 503, then 204. *)
Lemma dispatch_outcome_witness :
  let endpoint := λ (i : nat) (_ : Request), if Nat.eqb i 1 then Responds 503 "busy" else Responds 204 "" in
  let config := mkConfig "t1" true "https://hooks.example" ["login"] "k" "system" 0 in
  let l := mkLog "t1" "aud_01" "a" "system" "login" "x" "api" 1 "" "" in
  let t := mkTrail empty_log {["t1" := config]} [] None in
  let r := @DispatchWebhookForLog toy_mac (λ _, "n") (λ _ _ _, "{}") (λ _, true) (env_at 5 "05") " t1" l endpoint (λ _, true) t in
  match r.2 with
  | Ok (d, err) => (wdAttemptCount d, wdHTTPStatus d, wdStatus d, err) = (2, 204, "success", None)
      ∧ ∃ c, webhookConfigs t !! TrimSpace " t1" = Some c ∧ whEnabled c = true
  | Err _ => False
  end.
Proof.
  cbv zeta. match goal with |- match (snd ?r) with _ => _ end => destruct r as [t' [[d err]|e]] eqn:Hr end;
    [|vm_compute in Hr; discriminate].
  split; [vm_compute in Hr; injection Hr; intros <- <- _; reflexivity|].
  apply (@dispatch_outcome toy_mac) in Hr as (c & ? & ? & _). by exists c.
Defined.
