(* ===== verification/Url.v ===== *)
(** * Reading a URL (net/url, as modules/hris/vault.go uses it)

    [url.Parse] with scheme, host and path.  A host in brackets goes through the parser
    of IP addresses, which is the class [IPLiteral]; every other case is written out. *)

From S2P Require Import Prelude GoStrings GoTime Bytes Encoding GoText.
#[local] Open Scope string_scope.
#[local] Open Scope list_scope.
#[local] Open Scope Z_scope.

(** [parseHost] of a host with an opening bracket. *)
Class IPLiteral := { bracketed : string → option string }.

Definition is_letter (c : ascii) : bool :=
  ((97 <=? code c) && (code c <=? 122)) || ((65 <=? code c) && (code c <=? 90)).
Definition one_of_bytes (l : string) (c : ascii) : bool := negb (all_chars (λ x, negb (Ascii.eqb x c)) l).
Definition has_byte (c : ascii) (s : string) : bool := negb (all_chars (λ x, negb (Ascii.eqb x c)) s).

(** [stringContainsCTLByte] *)
Definition control (c : ascii) : bool := (code c <? 32) || (code c =? 127).

(** [getScheme]: an error, no scheme, or the scheme and what follows it. *)
Inductive scheme_of := NoScheme | BadScheme | Scheme (scheme rest : string).
Fixpoint getScheme (s acc : string) : scheme_of :=
  match s with
  | EmptyString => NoScheme
  | String c t =>
      if is_letter c then getScheme t (String c acc)
      else if is_digit c || one_of_bytes "+-." c then
        if is_empty acc then NoScheme else getScheme t (String c acc)
      else if Ascii.eqb c ":" then if is_empty acc then BadScheme else Scheme (rev_string acc) t
      else NoScheme
  end.

Definition unhex (c : ascii) : option Z :=
  if is_digit c then Some (code c - 48)
  else if (97 <=? code c) && (code c <=? 102) then Some (code c - 87)
  else if (65 <=? code c) && (code c <=? 70) then Some (code c - 55) else None.
(** The bytes below 128 that [shouldEscape] lets stand in a host. *)
Definition host_byte (c : ascii) : bool :=
  is_letter c || is_digit c || one_of_bytes "!$&'()*+,;=:[]<>-_.~" c || (code c =? 34).
(** [unescape], in a host and elsewhere. *)
Fixpoint unescape (host : bool) (s : string) : option string :=
  match s with
  | EmptyString => Some ""
  | String c t =>
      if Ascii.eqb c "%" then
        match t with
        | String x (String y u) =>
            match unhex x, unhex y with
            | Some a, Some b =>
                if host && (a <? 8) && negb (Ascii.eqb x "2" && Ascii.eqb y "5") then None
                else String (chr (16 * a + b)) <$> unescape host u
            | _, _ => None
            end
        | _ => None
        end
      else if host && (code c <? 128) && negb (host_byte c) then None
      else String c <$> unescape host t
  end.

(** The part from the last [c] on, and the part before it. *)
Definition last_cut (c : ascii) (s : string) : option (string * string) :=
  match SplitN2 (rev_string s) c with Some (a, b) => Some (rev_string b, rev_string a) | None => None end.

Section parse.
Context {ip : IPLiteral}.

(** [validOptionalPort] is about the text after the colon. *)
Definition parseHost (host : string) : option string :=
  if has_byte "[" host then bracketed host
  else match last_cut ":" host with
       | Some (_, port) => if all_chars is_digit port then unescape true host else None
       | None => unescape true host
       end.
Definition validUserinfo (s : string) : bool :=
  all_chars (λ c, is_letter c || is_digit c || one_of_bytes "-._:~!$&'()*+,;=%@" c) s.
(** [parseAuthority]; of the user only whether it can be read matters. *)
Definition parseAuthority (authority : string) : option string :=
  match last_cut "@" authority with
  | None => parseHost authority
  | Some (userinfo, rest) =>
      match parseHost rest with
      | None => None
      | Some host =>
          if negb (validUserinfo userinfo) then None
          else
            let readable :=
              match SplitN2 userinfo ":" with
              | None => bool_decide (is_Some (unescape false userinfo))
              | Some (username, password) =>
                  bool_decide (is_Some (unescape false username)) && bool_decide (is_Some (unescape false password))
              end in
            if readable then Some host else None
      end
  end.

Record URL := mkURL { urlScheme : string; urlHost : string; urlPath : string }.

(** [s] up to the first [c], and what follows it. *)
Definition cut_at (c : ascii) (s : string) : string * string := default (s, "") (SplitN2 s c).

(** [parse(rawURL, false)] *)
Definition parse_url (rawURL : string) : option URL :=
  if negb (all_chars (λ c, negb (control c)) rawURL) then None
  else if String.eqb rawURL "*" then Some (mkURL "" "" "*")
  else
    match (match getScheme rawURL "" with
           | BadScheme => None
           | NoScheme => Some ("", rawURL)
           | Scheme scheme rest => Some (ToLower scheme, rest)
           end) with
    | None => None
    | Some (scheme, rest) =>
        let rest := (cut_at "?" rest).1 in
        if negb (HasPrefix rest "/") && negb (is_empty scheme) then Some (mkURL scheme "" "")
        else if negb (HasPrefix rest "/") && has_byte ":" (cut_at "/" rest).1 then None
        else
          let with_host := (negb (is_empty scheme) || negb (HasPrefix rest "///")) && HasPrefix rest "//" in
          let after := TrimPrefix rest "//" in
          let authority := (cut_at "/" after).1 in
          let path := if with_host then drop_string (String.length authority) after else rest in
          match (if with_host then parseAuthority authority else Some "") with
          | None => None
          | Some host => mkURL scheme host <$> unescape false path
          end
    end.
(** [url.Parse] *)
Definition Parse (rawURL : string) : option URL :=
  let '(u, frag) := cut_at "#" rawURL in
  match parse_url u with
  | Some url => if bool_decide (is_Some (unescape false frag)) then Some url else None
  | None => None
  end.

(** ** A URL of plain parts *)

(** Letters, digits, and the three marks. *)
Definition plain (c : ascii) : bool := is_letter c || is_digit c || one_of_bytes "-_." c.

Definition plain_or_slash (c : ascii) : bool := plain c || Ascii.eqb c "/".

Lemma plain_facts c :
  plain c = true →
  visible c = true ∧ control c = false ∧ host_byte c = true
  ∧ Forall (λ x, Ascii.eqb c x = false) ["#"; "?"; "/"; "@"; "["; ":"; "%"]%char.
Proof.
  assert (implb (plain c) (visible c && negb (control c) && host_byte c
            && forallb (λ x, negb (Ascii.eqb c x)) ["#"; "?"; "/"; "@"; "["; ":"; "%"]%char) = true) as Hc
    by (destruct c as [[] [] [] [] [] [] [] []]; vm_compute; reflexivity).
  intros Hp. rewrite Hp in Hc. simpl in Hc. rewrite !andb_true_iff, !negb_true_iff in Hc.
  destruct Hc as [[[? ?] ?] ?]. split_and!; [done..|]. repeat constructor; tauto.
Qed.
Lemma plain_not c x : plain c = true → x ∈ ["#"; "?"; "/"; "@"; "["; ":"; "%"]%char → Ascii.eqb c x = false.
Proof. intros (_ & _ & _ & H)%plain_facts Hx. by eapply Forall_forall in H. Qed.

Lemma slash_facts c :
  plain_or_slash c = true →
  visible c = true ∧ control c = false ∧ Forall (λ x, Ascii.eqb c x = false) ["#"; "?"; "%"]%char.
Proof.
  unfold plain_or_slash. intros [H|H%Ascii.eqb_eq]%orb_true_iff; [|subst; split_and!; [done..|repeat constructor]].
  apply plain_facts in H as (? & ? & _ & H). split_and!; [done..|]. rewrite !Forall_cons in *. tauto.
Qed.

Lemma unescape_plain host s : all_chars plain s = true → unescape host s = Some s.
Proof.
  induction s as [|c s IH]; [done|]. simpl. intros [Hc Hs]%andb_true_iff.
  rewrite (plain_not c "%") by (done || set_solver). apply plain_facts in Hc as (_ & _ & -> & _). simpl.
  rewrite andb_false_r, IH by done. done.
Qed.
Lemma unescape_path s : all_chars plain_or_slash s = true → unescape false s = Some s.
Proof.
  induction s as [|c s IH]; [done|]. simpl. intros [Hc Hs]%andb_true_iff.
  apply slash_facts in Hc as (_ & _ & Hc). rewrite !Forall_cons in Hc. destruct Hc as (_ & _ & -> & _). by rewrite IH.
Qed.
Lemma cut_at_app c a b : all_chars (λ x, negb (Ascii.eqb x c)) a = true → cut_at c (a +:+ String c b) = (a, b).
Proof. intros H. unfold cut_at. by rewrite SplitN2_app. Qed.
Lemma cut_at_none c a : all_chars (λ x, negb (Ascii.eqb x c)) a = true → cut_at c a = (a, "").
Proof. intros H. unfold cut_at. by rewrite SplitN2_none. Qed.
Lemma last_cut_none c a : all_chars (λ x, negb (Ascii.eqb x c)) a = true → last_cut c a = None.
Proof. intros H. unfold last_cut. by rewrite SplitN2_none by (by rewrite all_chars_rev). Qed.
Lemma plain_without c a :
  c ∈ ["#"; "?"; "/"; "@"; "["; ":"; "%"]%char → all_chars plain a = true → all_chars (λ x, negb (Ascii.eqb x c)) a = true.
Proof. intros Hc. apply all_chars_weaken. intros x Hx. by rewrite (plain_not x c). Qed.
Lemma path_without c a :
  c ∈ ["#"; "?"; "%"]%char → all_chars plain_or_slash a = true → all_chars (λ x, negb (Ascii.eqb x c)) a = true.
Proof. intros Hc. apply all_chars_weaken. intros x (_ & _ & H)%slash_facts. eapply Forall_forall in H; [|done]. by rewrite H. Qed.

Lemma parseAuthority_plain t : all_chars plain t = true → parseAuthority t = Some t.
Proof.
  intros Ht. unfold parseAuthority, parseHost, has_byte.
  rewrite !last_cut_none, (plain_without "[") by (by (apply plain_without; [set_solver|]) || set_solver). simpl.
  by apply unescape_plain.
Qed.

Lemma Parse_plain t n :
  all_chars plain t = true → all_chars plain_or_slash n = true →
  Parse ("vault://" +:+ t +:+ String "/" n) = Some (mkURL "vault" t (String "/" n)).
Proof.
  intros Ht Hn. assert (all_chars plain_or_slash (t +:+ String "/" n) = true) as Htn.
  { rewrite all_chars_app. simpl. rewrite Hn. rewrite (all_chars_weaken plain plain_or_slash); [done| |done].
    intros c Hc. unfold plain_or_slash. by rewrite Hc. }
  set (r := t +:+ String "/" n) in *. unfold Parse.
  rewrite cut_at_none by (rewrite all_chars_app; apply andb_true_iff; split; [reflexivity|by apply path_without; [set_solver|]]).
  simpl bool_decide. unfold parse_url.
  assert (all_chars (λ c, negb (control c)) ("vault://" +:+ r) = true) as ->.
  { rewrite all_chars_app. apply andb_true_iff. split; [reflexivity|]. eapply all_chars_weaken; [|exact Htn].
    intros c (_ & -> & _)%slash_facts. done. }
  simpl negb. cbn match. change (getScheme ("vault://" +:+ r) "") with (Scheme "vault" ("//" +:+ r)).
  change (String.eqb ("vault://" +:+ r) "*") with false. cbn match.
  change (ToLower "vault") with "vault".
  rewrite (cut_at_none "?") by (rewrite all_chars_app; apply andb_true_iff; split; [reflexivity|by apply path_without; [set_solver|]]).
  cbn [fst]. change (HasPrefix ("//" +:+ r) "/") with true. change (is_empty "vault") with false.
  rewrite HasPrefix_app, TrimPrefix_app. cbn [negb andb orb]. unfold r. rewrite cut_at_app by (apply plain_without; [set_solver|done]).
  cbn [fst]. rewrite parseAuthority_plain by done. unfold drop_string.
  rewrite string_length_app, Nat.add_comm, Nat.add_sub, substring_drop.
  rewrite unescape_path by (simpl; by rewrite Hn). done.
Qed.
End parse.

Definition no_literals : IPLiteral := {| bracketed := λ _, None |}.
Example Parse_ex :
  let p := @Parse no_literals in
  p "VAULT://acme/hris/x?y=1#z" = Some (mkURL "vault" "acme" "/hris/x")
  ∧ p "http://u:p@h:8080/a%2Fb" = Some (mkURL "http" "h:8080" "/a/b")
  ∧ p "vault:acme/x" = Some (mkURL "vault" "" "") ∧ p "//h/x" = Some (mkURL "" "h" "/x") ∧ p "/a:b" = Some (mkURL "" "" "/a:b")
  ∧ p "vault://a%2Fb/c" = None ∧ p "vault://a b/c" = None ∧ p "1:a" = None ∧ p ":a" = None ∧ p "http://h:8a/" = None.
Proof. vm_compute. by split_and!. Qed.
