(* ===== verification/ConnectorVault.v ===== *)
(** * Secrets of the connectors (modules/hris/vault.go)

    A table of encrypted secrets, each with a reference [vault://tenant/name] that the
    connectors store instead of the secret.  A reference is read back with [Url.Parse].
    The cipher is the class [AEAD] of [Vault]. *)

From S2P Require Import Cas PullState Prelude GoStrings GoTime Bytes Encoding GoText Vault Url.
#[local] Open Scope string_scope.
#[local] Open Scope list_scope.
#[local] Open Scope Z_scope.

Inductive secret_err :=
| ErrTenantIDRequired | ErrSecretNameRequired | ErrSecretValueRequired | ErrSecretNotFound
| ErrInvalidSecretName | ErrInvalidSecretKind | ErrInvalidSecretRef
| ErrCipher | ErrRandom | ErrSave | NoncePanic.
#[export] Instance secret_service_err : ServiceErr secret_err := {| ErrRand := ErrRandom; ErrStore := ErrSave |}.

Record SecretMetadata := mkSecret {
  Ref : string; smTenantID : string; smName : string; smKind : string; smUpdatedBy : string; smCreatedAt : Z; smUpdatedAt : Z
}.
#[export] Instance eta_secret : Eta SecretMetadata := λ m,
  mkSecret (Ref m) (smTenantID m) (smName m) (smKind m) (smUpdatedBy m) (smCreatedAt m) (smUpdatedAt m).
Record secretRecord := mkRecord { Metadata : SecretMetadata; EncryptedValue : string; EncryptionNonce : string }.

Record VaultService := mkVaultService { secrets : list secretRecord; vaultSvcKey : bytes; savedSecrets : option (list secretRecord) }.
#[export] Instance eta_vault_service : Eta VaultService := λ s, mkVaultService (secrets s) (vaultSvcKey s) (savedSecrets s).
#[export, program] Instance secrets_persistent : Persistent VaultService (list secretRecord) := {|
  snapshot := secrets; saved := savedSecrets; set_saved := λ d s, s <| savedSecrets := d |>
|}.
Solve All Obligations with done.

(** ** Names and references *)

Definition isAllowedSecretPath (value : string) (allowSlash : bool) : bool :=
  all_chars (λ c, is_letter c || is_digit c || one_of_bytes "-_." c || (Ascii.eqb c "/" && allowSlash)) value.
Definition normalizeSecretKind (kind : string) : result secret_err string :=
  let next := ToLower (TrimSpace kind) in
  if is_empty next then Ok "generic"
  else if negb (isAllowedSecretPath next false) then Err ErrInvalidSecretKind else Ok next.
Definition normalizeSecretName (name : string) : result secret_err string :=
  let next := TrimRightByte "/" (TrimLeftByte "/" (TrimSpace name)) in
  if is_empty next then Err ErrSecretNameRequired
  else if negb (isAllowedSecretPath next true) then Err ErrInvalidSecretName else Ok next.
Definition secretRef (tenantID name : string) : string := "vault://" +:+ TrimSpace tenantID +:+ "/" +:+ TrimSpace name.
Definition ConnectorSecretName (vendor purpose : string) : string :=
  let nextVendor := NormalizeVendor vendor in
  let nextPurpose := ToLower (TrimSpace purpose) in
  if is_empty nextVendor || is_empty nextPurpose then "" else "hris" +:+ "/" +:+ nextVendor +:+ "/" +:+ nextPurpose.

Section service.
Context {ip : IPLiteral} {cipher : AEAD}.

(** The reference, the tenant and the name. *)
Definition parseSecretRef (ref : string) : result secret_err (string * string * string) :=
  match Parse (TrimSpace ref) with
  | None => Err ErrInvalidSecretRef
  | Some parsed =>
      if negb (String.eqb (ToLower (TrimSpace (urlScheme parsed))) "vault") then Err ErrInvalidSecretRef
      else
        let nextTenantID := TrimSpace (urlHost parsed) in
        if is_empty nextTenantID then Err ErrInvalidSecretRef
        else match normalizeSecretName (TrimPrefix (urlPath parsed) "/") with
             | Err _ => Err ErrInvalidSecretRef
             | Ok nextName => Ok (secretRef nextTenantID nextName, nextTenantID, nextName)
             end
  end.

(** ** The cipher *)

Definition deriveVaultKey (input : string) : bytes :=
  let seed := if is_empty (TrimSpace input) then "mistypass-dev-hris-vault" else TrimSpace input in
  take 32 (sha256 (of_string seed) ++ repeat (chr 0) 32).
(** [rand] is what the random source gives for the nonce. *)
Definition encrypt (rand : option bytes) (plaintext : string) (s : VaultService) : result secret_err (string * string) :=
  if negb (aes_key_ok (vaultSvcKey s)) then Err ErrCipher
  else match rand with
       | None => Err ErrRandom
       | Some rawNonce =>
           Ok (to_string (base64_encode rawNonce), to_string (base64_encode (gcm_seal (vaultSvcKey s) rawNonce (of_string plaintext))))
       end.
Definition decrypt (nonce ciphertext : string) (s : VaultService) : result secret_err string :=
  if negb (aes_key_ok (vaultSvcKey s)) then Err ErrCipher
  else
    match base64_decode (of_string (TrimSpace nonce)), base64_decode (of_string (TrimSpace ciphertext)) with
    | Some rawNonce, Some rawCiphertext =>
        if negb (length rawNonce =? 12)%nat then Err NoncePanic
        else match gcm_open (vaultSvcKey s) rawNonce rawCiphertext with
             | Some plaintext => Ok (to_string plaintext)
             | None => Err ErrCipher
             end
    | _, _ => Err ErrCipher
    end.

(** ** Operations *)

Definition NewVaultService (masterKey : string) : VaultService := mkVaultService [] (deriveVaultKey masterKey) None.
(** [found]: what the store answers, if it can be read. *)
Definition restoreFromStateStore (env : Env) (found : option (option (list secretRecord))) : op VaultService secret_err unit :=
  match found with
  | None => throw ErrSave
  | Some None => persistLocked env
  | Some (Some l) => modify (λ s, s <| secrets := l |>)
  end.

Definition newer_secret (a b : SecretMetadata) : bool :=
  if smUpdatedAt a =? smUpdatedAt b then String.ltb (Ref b) (Ref a) else After (smUpdatedAt a) (smUpdatedAt b).
Definition ListSecrets (tenantID : string) (s : VaultService) : list SecretMetadata :=
  sort_by newer_secret
    (filterb (λ m, is_empty (TrimSpace tenantID) || String.eqb (TrimSpace (smTenantID m)) (TrimSpace tenantID)) (Metadata <$> secrets s)).

Definition has_ref (ref : string) (r : secretRecord) : bool := String.eqb (Ref (Metadata r)) ref.
Definition UpsertSecret (env : Env) (rand : option bytes) (tenantID name kind value updatedBy : string) :
    op VaultService secret_err SecretMetadata :=
  let nextTenantID := TrimSpace tenantID in
  fail_if (is_empty nextTenantID) ErrTenantIDRequired;;
  nextName ← lift (normalizeSecretName name);
  nextKind ← lift (normalizeSecretKind kind);
  let nextValue := TrimSpace value in
  fail_if (is_empty nextValue) ErrSecretValueRequired;;
  let nextUpdatedBy := if is_empty (TrimSpace updatedBy) then "system" else TrimSpace updatedBy in
  sealed ← gets (encrypt rand nextValue);
  '(nonce, ciphertext) ← lift sealed;
  let ref := secretRef nextTenantID nextName in
  found ← gets (λ s, findi (has_ref ref) (secrets s));
  match found with
  | Some (i, r) =>
      let md := (Metadata r) <| smKind := nextKind |> <| smUpdatedBy := nextUpdatedBy |> <| smUpdatedAt := now env |> in
      modify (λ s, s <| secrets ::= <[i := mkRecord md ciphertext nonce]> |>);;
      persistLocked env;; mret md
  | None =>
      let md := mkSecret ref nextTenantID nextName nextKind nextUpdatedBy (now env) (now env) in
      modify (λ s, s <| secrets ::= cons (mkRecord md ciphertext nonce) |>);;
      persistLocked env;; mret md
  end.
Definition GetSecretMetadataByRef (tenantID ref : string) (s : VaultService) : result secret_err SecretMetadata :=
  match parseSecretRef ref with
  | Err e => Err e
  | Ok (parsedRef, parsedTenantID, _) =>
      let nextTenantID := if is_empty (TrimSpace tenantID) then parsedTenantID else TrimSpace tenantID in
      if negb (String.eqb parsedTenantID nextTenantID) then Err ErrSecretNotFound
      else match findi (has_ref parsedRef) (secrets s) with
           | Some (_, r) => Ok (Metadata r)
           | None => Err ErrSecretNotFound
           end
  end.
(** The metadata and the value. *)
Definition ResolveSecretRef (ref : string) (s : VaultService) : result secret_err (SecretMetadata * string) :=
  match parseSecretRef ref with
  | Err e => Err e
  | Ok (parsedRef, _, _) =>
      match findi (has_ref parsedRef) (secrets s) with
      | Some (_, r) =>
          match decrypt (EncryptionNonce r) (EncryptedValue r) s with
          | Ok value => Ok (Metadata r, value)
          | Err e => Err e
          end
      | None => Err ErrSecretNotFound
      end
  end.

(** ** References *)

Definition starts (c : ascii) (s : string) : bool := match s with String a _ => Ascii.eqb a c | EmptyString => false end.
Lemma starts_prefix c a b : starts c (a +:+ b) = false → starts c a = false.
Proof. by destruct a. Qed.
Lemma TrimLeftByte_starts c s : starts c (TrimLeftByte c s) = false ∧ ∃ p, s = p +:+ TrimLeftByte c s.
Proof.
  induction s as [|a s [IH [p Hp]]]; [by split; [|exists ""]|]. simpl. destruct (Ascii.eqb a c) eqn:E.
  - split; [done|]. exists (String a p). rewrite append_cons. by f_equal.
  - split; [done|by exists ""].
Qed.
Lemma TrimLeftByte_fix c s : starts c s = false → TrimLeftByte c s = s.
Proof. destruct s as [|a s]; [done|]. simpl. by intros ->. Qed.
Lemma TrimRightByte_starts c s : starts c (rev_string (TrimRightByte c s)) = false ∧ ∃ p, s = TrimRightByte c s +:+ p.
Proof.
  unfold TrimRightByte. destruct (TrimLeftByte_starts c (rev_string s)) as [H [p Hp]]. rewrite rev_string_involutive.
  split; [done|]. exists (rev_string p). by rewrite <- rev_string_app, <- Hp, rev_string_involutive.
Qed.
Lemma TrimRightByte_fix c s : starts c (rev_string s) = false → TrimRightByte c s = s.
Proof. intros H. unfold TrimRightByte. by rewrite TrimLeftByte_fix, rev_string_involutive. Qed.

Lemma allowed_plain b s : isAllowedSecretPath s b = all_chars (λ c, plain c || (Ascii.eqb c "/" && b)) s.
Proof. done. Qed.
Lemma allowed_visible s : isAllowedSecretPath s true = true → all_chars plain_or_slash s = true ∧ all_chars visible s = true.
Proof.
  intros H. assert (all_chars plain_or_slash s = true) as Hs.
  { eapply all_chars_weaken; [|exact H]. intros c. simpl. unfold plain_or_slash, plain. by rewrite andb_true_r. }
  split; [done|]. eapply all_chars_weaken; [|exact Hs]. by intros c (? & _)%slash_facts.
Qed.
Lemma plain_visible s : all_chars plain s = true → all_chars visible s = true.
Proof. apply all_chars_weaken. by intros c (? & _)%plain_facts. Qed.

(** A name that was normalised. *)
Lemma normal_name x n :
  normalizeSecretName x = Ok n →
  n ≠ "" ∧ isAllowedSecretPath n true = true ∧ TrimSpace n = n ∧ normalizeSecretName n = Ok n.
Proof.
  unfold normalizeSecretName. set (m := TrimLeftByte "/" (TrimSpace x)).
  destruct (is_empty (TrimRightByte "/" m)) eqn:He; [done|]. destruct (isAllowedSecretPath _ true) eqn:Ha; [|done].
  intros [= <-]. set (n := TrimRightByte "/" m) in *. apply is_empty_false in He as Hne.
  assert (TrimSpace n = n) as Ht by (by apply TrimSpace_fix, visible_trimmed, allowed_visible).
  destruct (TrimLeftByte_starts "/" (TrimSpace x)) as [Hl _]. destruct (TrimRightByte_starts "/" m) as [Hr [p Hp]].
  assert (TrimLeftByte "/" n = n) as E.
  { apply TrimLeftByte_fix. fold m in Hl. rewrite Hp in Hl. by apply starts_prefix in Hl. }
  split_and!; [done..|]. simpl. rewrite Ht, E, (TrimRightByte_fix "/" n Hr), He. simpl. by rewrite Ha.
Qed.

(** A reference that was made is read back. *)
Lemma parse_own t x n :
  all_chars plain t = true → t ≠ "" → normalizeSecretName x = Ok n → parseSecretRef (secretRef t n) = Ok (secretRef t n, t, n).
Proof.
  intros Ht Hne Hn. destruct (normal_name x n Hn) as (_ & Ha & Hs & Hnn). apply allowed_visible in Ha as [Hp Hv].
  pose proof (plain_visible t Ht) as Hvt. assert (TrimSpace t = t) as Htt by (by apply TrimSpace_fix, visible_trimmed).
  unfold parseSecretRef. assert (secretRef t n = "vault://" +:+ t +:+ String "/" n) as E by (unfold secretRef; by rewrite Htt, Hs).
  rewrite TrimSpace_fix, E, Parse_plain; [|done|done|].
  - simpl. apply is_empty_false in Hne. rewrite Htt, Hne.
    change (match n with EmptyString => n | String _ _ => n end) with (TrimPrefix (String "/" n) "/").
    assert (TrimPrefix (String "/" n) "/" = n) as -> by exact (TrimPrefix_app "/" n). rewrite Hnn, <- E. done.
  - rewrite E. apply visible_trimmed. rewrite !all_chars_app, Hvt. simpl. by rewrite Hv.
Qed.

(** ** What an upsert does *)

Definition first_of (ref : string) (l : list secretRecord) : option secretRecord := snd <$> findi (has_ref ref) l.

Lemma first_cons ref r l : Ref (Metadata r) ≠ ref → first_of ref (r :: l) = first_of ref l.
Proof.
  intros Hr. unfold first_of. simpl. unfold has_ref at 1. apply String.eqb_neq in Hr as ->. by destruct (findi _ l) as [[i x]|].
Qed.
Lemma first_insert ref l i r0 r :
  l !! i = Some r0 → Ref (Metadata r0) = Ref (Metadata r) → Ref (Metadata r) ≠ ref → first_of ref (<[i := r]> l) = first_of ref l.
Proof.
  intros Hi Hr Hne. unfold first_of. destruct (findi (has_ref ref) l) as [[j x]|] eqn:Hf.
  - rewrite (findi_insert _ l i j r0 r x Hi) by (done || (unfold has_ref; by rewrite Hr)). simpl.
    destruct (Nat.eqb_spec i j) as [->|]; [|done]. apply findi_lookup in Hf as Hl. apply findi_true in Hf.
    rewrite Hi in Hl. injection Hl as ->. unfold has_ref in Hf. boolp. congruence.
  - simpl. rewrite (proj2 (findi_None _ _)); [done|]. intros x Hx%list_elem_of_lookup. destruct Hx as [k Hk].
    rewrite findi_None in Hf. destruct (decide (k = i)) as [->|].
    + rewrite list_lookup_insert_eq in Hk by (by eapply lookup_lt_Some). injection Hk as <-. unfold has_ref. by apply String.eqb_neq.
    + rewrite list_lookup_insert_ne in Hk by done. apply Hf. by eapply list_elem_of_lookup_2.
Qed.

(** The table after an upsert of [r]: in its place, or in front. *)
Inductive stored (r : secretRecord) (l : list secretRecord) : list secretRecord → Prop :=
| stored_new : findi (has_ref (Ref (Metadata r))) l = None → stored r l (r :: l)
| stored_at i r0 : findi (has_ref (Ref (Metadata r))) l = Some (i, r0) → smTenantID (Metadata r0) = smTenantID (Metadata r)
    → smName (Metadata r0) = smName (Metadata r) → stored r l (<[i := r]> l).

Lemma stored_first r l l' : stored r l l' → first_of (Ref (Metadata r)) l' = Some r.
Proof.
  unfold first_of. intros [_|i r0 Hf _ _].
  - simpl. unfold has_ref at 1. by rewrite String.eqb_refl.
  - assert (Ref (Metadata r0) = Ref (Metadata r)) as Hr by (apply findi_true in Hf; unfold has_ref in Hf; by boolp).
    rewrite (findi_insert _ l i i r0 r r0) by (done || (by eapply findi_lookup) || (unfold has_ref; by rewrite Hr)).
    simpl. by rewrite Nat.eqb_refl.
Qed.
Lemma stored_other r l l' ref : stored r l l' → Ref (Metadata r) ≠ ref → first_of ref l' = first_of ref l.
Proof.
  intros [_|i r0 Hf _ _] Hne; [by apply first_cons|]. eapply first_insert; [by eapply findi_lookup| |done].
  apply findi_true in Hf. unfold has_ref in Hf. by boolp.
Qed.

(** An upsert leaves the service as it was, or stores one record; what the store then
    has is the table, or what it had. *)
Lemma upsert_does env rand tn name kind value by_ s :
  let m := UpsertSecret env rand tn name kind value by_ in
  (exec m s = s ∧ is_ok (answer m s) = false)
  ∨ ∃ n nonce ct r, normalizeSecretName name = Ok n ∧ encrypt rand (TrimSpace value) s = Ok (nonce, ct)
      ∧ EncryptedValue r = ct ∧ EncryptionNonce r = nonce ∧ Ref (Metadata r) = secretRef (TrimSpace tn) n ∧ TrimSpace tn ≠ ""
      ∧ (findi (has_ref (Ref (Metadata r))) (secrets s) = None → smTenantID (Metadata r) = TrimSpace tn ∧ smName (Metadata r) = n)
      ∧ stored r (secrets s) (secrets (exec m s)) ∧ vaultSvcKey (exec m s) = vaultSvcKey s
      ∧ savedSecrets (exec m s) = match store env with StoreSaved => Some (secrets (exec m s)) | _ => savedSecrets s end
      ∧ answer m s = match store env with StoreFailed => Err ErrSave | _ => Ok (Metadata r) end.
Proof.
  cbv zeta. unfold exec, answer, UpsertSecret. rewrite fail_if_bind. destruct (is_empty (TrimSpace tn)) eqn:Ht; [by left|].
  apply is_empty_false in Ht. rewrite bind_lift. destruct (normalizeSecretName name) as [n|]; [|by left].
  rewrite bind_lift. destruct (normalizeSecretKind kind) as [k|]; [|by left]. rewrite fail_if_bind.
  destruct (is_empty (TrimSpace value)); [by left|]. rewrite bind_gets, bind_lift.
  destruct (encrypt rand (TrimSpace value) s) as [[nonce ct]|]; [|by left]. rewrite bind_gets. right.
  destruct (findi _ (secrets s)) as [[i r0]|] eqn:Hf; rewrite bind_modify, bind_op_eq; unfold persistLocked; exists n, nonce, ct.
  - assert (Ref (Metadata r0) = secretRef (TrimSpace tn) n) as Hr by (apply findi_true in Hf; unfold has_ref in Hf; by boolp).
    exists (mkRecord ((Metadata r0) <| smKind := k |> <| smUpdatedBy := if is_empty (TrimSpace by_) then "system" else TrimSpace by_ |>
              <| smUpdatedAt := now env |>) ct nonce). rewrite <- Hr in Hf |- *.
    destruct (store env); simpl; split_and!; try reflexivity; try done; try (by rewrite Hf); by eapply stored_at.
  - exists (mkRecord (mkSecret (secretRef (TrimSpace tn) n) (TrimSpace tn) n k (if is_empty (TrimSpace by_) then "system" else TrimSpace by_)
              (now env) (now env)) ct nonce). destruct (store env); simpl; split_and!; try reflexivity; try done; by apply stored_new.
Qed.

(** ** A stored secret is read back *)

Inductive secret_call :=
| CallUpsert (env : Env) (rand : option bytes) (tenantID name kind value updatedBy : string)
| CallRestart (env : Env).
(** A restart with the same master key, from what the store has. *)
Definition vault_restart (env : Env) (s : VaultService) : VaultService :=
  let '(s', r) := restoreFromStateStore env (Some (savedSecrets s)) (mkVaultService [] (vaultSvcKey s) (savedSecrets s)) in
  if is_ok r then s' else s.
Definition vault_step (s : VaultService) (k : secret_call) : VaultService :=
  match k with
  | CallUpsert env rand tn name kind value by_ => exec (UpsertSecret env rand tn name kind value by_) s
  | CallRestart env => vault_restart env s
  end.
Definition vault_run (ks : list secret_call) (s : VaultService) : VaultService := foldl vault_step s ks.
(** The calls that do not store under [ref]. *)
Definition spares (ref : string) (k : secret_call) : Prop :=
  match k with
  | CallUpsert _ _ tn name _ _ _ => ∀ n, normalizeSecretName name = Ok n → secretRef (TrimSpace tn) n ≠ ref
  | CallRestart _ => True
  end.

Definition kept (r : secretRecord) (key : bytes) (s : VaultService) : Prop :=
  vaultSvcKey s = key ∧ first_of (Ref (Metadata r)) (secrets s) = Some r
  ∧ ∃ l, savedSecrets s = Some l ∧ first_of (Ref (Metadata r)) l = Some r.
Lemma step_kept r key k s : kept r key s → spares (Ref (Metadata r)) k → kept r key (vault_step s k).
Proof.
  intros (Hk & Hf & l & Hl & Hlf) Hs. destruct k as [env rand tn name kind value by_|env]; simpl.
  - destruct (upsert_does env rand tn name kind value by_ s) as [[-> _]|(n & nonce & ct & r' & Hn & _ & _ & _ & Href & _ & _ & Hst & Hkey & Hsv & _)];
      [by split_and!; eauto|].
    assert (Ref (Metadata r') ≠ Ref (Metadata r)) as Hne by (rewrite Href; by apply Hs).
    assert (first_of (Ref (Metadata r)) (secrets (exec (UpsertSecret env rand tn name kind value by_) s)) = Some r) as Hf'
      by (rewrite (stored_other _ _ _ _ Hst); done).
    split_and!; [congruence|done|]. rewrite Hsv. destruct (store env); eauto.
  - unfold vault_restart. rewrite Hl. simpl. split_and!; [done..|]. by exists l.
Qed.
Lemma run_kept r key ks s : kept r key s → Forall (spares (Ref (Metadata r))) ks → kept r key (vault_run ks s).
Proof.
  revert s. induction ks as [|k ks IH]; intros s Hk Hs; [done|]. apply Forall_cons in Hs as [H1 H2]. simpl.
  apply IH; [by apply step_kept|done].
Qed.

(** ** A tenant sees its own secrets *)

Lemma secretRef_tenant t n t' n' :
  TrimSpace t = t → TrimSpace t' = t' → has_byte "/" t = false → has_byte "/" t' = false → secretRef t n = secretRef t' n' → t = t'.
Proof.
  unfold secretRef, has_byte. intros -> -> Ht%negb_false_iff Ht'%negb_false_iff He.
  apply (f_equal (λ x, TrimPrefix x "vault://")) in He. rewrite !TrimPrefix_app in He.
  apply (f_equal (λ x, SplitN2 x "/")) in He.
  change ("/" +:+ TrimSpace n) with (String "/" (TrimSpace n)) in He.
  change ("/" +:+ TrimSpace n') with (String "/" (TrimSpace n')) in He.
  rewrite !SplitN2_app in He by done. by injection He.
Qed.
Definition own_ref (r : secretRecord) : Prop :=
  Ref (Metadata r) = secretRef (smTenantID (Metadata r)) (smName (Metadata r))
  ∧ TrimSpace (smTenantID (Metadata r)) = smTenantID (Metadata r) ∧ has_byte "/" (smTenantID (Metadata r)) = false.
(** The calls whose tenant has no slash. *)
Definition unslashed (k : secret_call) : Prop :=
  match k with CallUpsert _ _ tn _ _ _ _ => has_byte "/" (TrimSpace tn) = false | CallRestart _ => True end.
Definition all_own (s : VaultService) : Prop :=
  Forall own_ref (secrets s) ∧ Forall own_ref (default [] (savedSecrets s)).

Lemma stored_own r l l' :
  stored r l l' → Forall own_ref l → (findi (has_ref (Ref (Metadata r))) l = None → own_ref r) → Forall own_ref l'.
Proof.
  intros [Hn|i r0 Hf Ht Hname] Hl Hr; [constructor; auto|]. apply Forall_insert; [done|].
  destruct (Forall_lookup_1 _ _ _ _ Hl (findi_lookup _ _ _ _ Hf)) as (H1 & H2 & H3). apply findi_true in Hf. unfold has_ref in Hf. boolp.
  unfold own_ref. rewrite <- Ht, <- Hname. split_and!; [congruence|done|done].
Qed.
Lemma step_own k s : all_own s → unslashed k → all_own (vault_step s k).
Proof.
  intros [Hm Hs] Hk. destruct k as [env rand tn name kind value by_|env]; simpl.
  - destruct (upsert_does env rand tn name kind value by_ s) as [[-> _]|(n & nonce & ct & r & _ & _ & _ & _ & Href & _ & Hnew & Hst & _ & Hsv & _)]; [done|].
    assert (Forall own_ref (secrets (exec (UpsertSecret env rand tn name kind value by_) s))) as Hm'.
    { eapply stored_own; [done|done|]. intros [H1 H2]%Hnew. unfold own_ref. rewrite Href, H1, H2. by rewrite TrimSpace_idem. }
    split; [done|]. rewrite Hsv. by destruct (store env).
  - unfold vault_restart. destruct (savedSecrets s) as [l|] eqn:Hl; simpl in *; [by split|].
    unfold persistLocked. destruct (store env); simpl; unfold all_own; simpl; rewrite ?Hl; by split.
Qed.
Lemma run_own ks s : all_own s → Forall unslashed ks → all_own (vault_run ks s).
Proof.
  revert s. induction ks as [|k ks IH]; intros s Hs Hk; [done|]. apply Forall_cons in Hk as [H1 H2]. simpl.
  apply IH; [by apply step_own|done].
Qed.

(** As long as no tenant has a slash in its id, the metadata a tenant is given for a
    reference is that of a secret of its own. *)
Theorem metadata_of_tenant masterKey ks tn ref md :
  Forall unslashed ks → TrimSpace tn ≠ "" → has_byte "/" (TrimSpace tn) = false →
  GetSecretMetadataByRef tn ref (vault_run ks (NewVaultService masterKey)) = Ok md → smTenantID md = TrimSpace tn.
Proof.
  intros Hks Hne Hs. unfold GetSecretMetadataByRef, parseSecretRef. destruct (Parse (TrimSpace ref)) as [u|]; [|done].
  destruct (negb _); [done|]. destruct (is_empty (TrimSpace (urlHost u))); [done|].
  destruct (normalizeSecretName _) as [n|]; [|done]. apply is_empty_false in Hne as ->.
  destruct (String.eqb_spec (TrimSpace (urlHost u)) (TrimSpace tn)) as [->|]; [|done]. simpl.
  destruct (findi _ _) as [[i r]|] eqn:Hf; [|done]. intros [= <-].
  assert (all_own (NewVaultService masterKey)) as H0 by (split; constructor).
  destruct (run_own ks _ H0 Hks) as [Hall _].
  destruct (Forall_lookup_1 _ _ _ _ Hall (findi_lookup _ _ _ _ Hf)) as (H1 & H2 & H3). apply findi_true in Hf. unfold has_ref in Hf. boolp.
  eapply secretRef_tenant; [done|apply TrimSpace_idem|done|done|rewrite <- H1; exact Hf].
Qed.

Context {gcm : GcmLaws}.
Lemma decrypt_encrypt s s' rand value nonce ct :
  vaultSvcKey s' = vaultSvcKey s → length rand = 12%nat → encrypt (Some rand) value s = Ok (nonce, ct) → decrypt nonce ct s' = Ok value.
Proof.
  unfold encrypt, decrypt. intros -> Hr. destruct (aes_key_ok _); [|done]. intros [= <- <-]. simpl.
  rewrite !TrimSpace_fix by (apply visible_trimmed, (all_chars_weaken b64_text), base64_text;
    intros x; unfold b64_text; by intros [? ?]%andb_true_iff).
  rewrite !of_to_string, !base64_roundtrip, Hr. simpl. by rewrite gcm_open_seal, to_of_string.
Qed.

(** C37: A secret that was stored and saved for a tenant whose id needs no escaping in a URL is
    what its reference gives from then on: through any upserts of other references, whatever
    their outcome, and any restarts with the same master key.  For other tenant ids see
    [secret_unreachable]. *)
Theorem secret_kept env rand tn name kind value by_ s s1 md ks :
  UpsertSecret env (Some rand) tn name kind value by_ s = (s1, Ok md) → store env = StoreSaved → length rand = 12%nat →
  all_chars plain (TrimSpace tn) = true → Forall (spares (Ref md)) ks →
  ResolveSecretRef (Ref md) (vault_run ks s1) = Ok (md, TrimSpace value).
Proof.
  intros Hu Hst Hr Ht Hks.
  destruct (upsert_does env (Some rand) tn name kind value by_ s) as [[_ Ho]|(n & nonce & ct & r & Hn & He & Hct & Hnc & Href & Hne & _ & Hsd & Hkey & Hsv & Ha)];
    unfold exec, answer in *; rewrite Hu in *; simpl in *; [done|]. rewrite Hst in *. injection Ha as ->.
  assert (kept r (vaultSvcKey s) s1) as Hk.
  { pose proof (stored_first _ _ _ Hsd). split_and!; [done|done|]. by exists (secrets s1). }
  destruct (run_kept r _ ks s1 Hk Hks) as (Hk2 & Hf & _). unfold ResolveSecretRef. rewrite Href, (parse_own _ name) by done.
  rewrite <- Href. unfold first_of in Hf. destruct (findi _ _) as [[i r']|]; [|done]. injection Hf as ->.
  rewrite Hct, Hnc. by rewrite (decrypt_encrypt s _ rand (TrimSpace value)).
Qed.
End service.

(** ** Examples *)

#[local] Abbreviation ex_rand := (Some (repeat "n"%char 12)).
#[local] Abbreviation at_time := (λ t, mkEnv t None StoreSaved).
#[local] Abbreviation ex_upsert := (λ t tn name value, @UpsertSecret toy_aead (at_time t) ex_rand tn name "" value "").
#[local] Abbreviation ex_vault := (@NewVaultService toy_aead "master").

Lemma secret_kept_witness :
  let '(s1, r) := ex_upsert 1 " acme " "/hris/talenta/client_secret/" " s3cret " ex_vault in
  let later := [CallUpsert (mkEnv 2 None StoreFailed) ex_rand "acme" "other" "" "x" ""; CallRestart (at_time 3)] in
  match r with
  | Ok md => Ref md = "vault://acme/hris/talenta/client_secret"
      ∧ @ResolveSecretRef no_literals toy_aead (Ref md) (@vault_run toy_aead later s1) = Ok (md, TrimSpace " s3cret ")
  | Err _ => False
  end.
Proof.
  destruct (ex_upsert 1 " acme " "/hris/talenta/client_secret/" " s3cret " ex_vault) as [s1 [md|e]] eqn:Hu; [|vm_compute in Hu; discriminate].
  assert (Ref md = "vault://acme/hris/talenta/client_secret") as Href by (vm_compute in Hu; injection Hu; intros <- _; reflexivity).
  split; [done|]. eapply (@secret_kept no_literals toy_aead toy_gcm_laws); [exact Hu|done|done|vm_compute; reflexivity|].
  rewrite Href. repeat constructor. intros n. vm_compute. intros [= <-]. discriminate.
Defined.

(** The service takes a secret for a tenant with a blank in its id, and answers with a
    reference that it refuses. *)
Example secret_unreachable :
  let '(s1, r) := ex_upsert 1 "PT Maju" "hris/talenta/client_secret" "s3cret" ex_vault in
  match r with
  | Ok md => Ref md = "vault://PT Maju/hris/talenta/client_secret"
      ∧ @ResolveSecretRef no_literals toy_aead (Ref md) s1 = Err ErrInvalidSecretRef
  | Err _ => False
  end.
Proof. vm_compute. split; reflexivity. Qed.

Lemma metadata_of_tenant_witness :
  let ks := [CallUpsert (at_time 1) ex_rand "acme" "a/b" "" "x" ""; CallUpsert (at_time 2) ex_rand "other" "a/b" "" "y" ""] in
  match @GetSecretMetadataByRef no_literals "acme" "vault://acme/a/b" (@vault_run toy_aead ks ex_vault) with
  | Ok md => smTenantID md = TrimSpace "acme"
  | Err _ => False
  end.
Proof.
  cbv zeta. destruct (GetSecretMetadataByRef _ _ _) as [md|e] eqn:Hg; [|vm_compute in Hg; discriminate].
  eapply (@metadata_of_tenant no_literals toy_aead "master" _ "acme" "vault://acme/a/b" md); [|done|reflexivity|exact Hg].
  repeat constructor.
Defined.

(** A tenant with a slash shares references with another one: its upsert replaces the
    secret of the other, which then reads a value that is not its own. *)
Theorem references_collide :
  let s1 := exec (ex_upsert 1 "acme" "eu/key" "ours") ex_vault in
  let s2 := exec (ex_upsert 2 "acme/eu" "key" "theirs") s1 in
  length (secrets s2) = 1%nat
  ∧ (match @ResolveSecretRef no_literals toy_aead "vault://acme/eu/key" s2 with Ok (md, v) => Some (smTenantID md, v) | Err _ => None end)
    = Some ("acme", "theirs").
Proof. vm_compute. split; reflexivity. Qed.
