(* ===== verification/Tenants.v ===== *)
(** * Tenants (modules/tenant, and their endpoints in routes_tenant_space.go)

    The module is built in layers, and so is this file: [domain] the records and their
    checks, [infrastructure] the repository over the state store, [application] the
    service, [delivery] the facade, [service.go] the demo tenants.  The application is
    stated against the interface [Repository] with the laws [RepositoryLaws], which the
    state repository satisfies.  The endpoints are for super admins. *)

From S2P Require Import Prelude GoStrings GoTime Bytes AuditLog AuthStore Wire Gateway CertRevocation Credential Event AccessData AccessState WalletData WalletState Wallet Server TenantScope.
#[local] Open Scope string_scope.
#[local] Open Scope list_scope.
#[local] Open Scope Z_scope.

(** ** domain *)

Inductive tenant_err := ErrTenantNameRequired | ErrTenantNotFound | ErrInvalidTenantStatus | ErrInvalidTenantType | ErrRandom | ErrRepository.

Record Tenant := mkTenant { tnID : string; tnName : string; tnType : string; HQRegion : string; tnStatus : string; tnCreatedAt : Z }.
#[export] Instance eta_tenant : Eta Tenant := λ t, mkTenant (tnID t) (tnName t) (tnType t) (HQRegion t) (tnStatus t) (tnCreatedAt t).

Definition DefaultIDGenerator (fresh : option string) : result tenant_err string :=
  match fresh with Some h => Ok ("tenant_" +:+ h) | None => Err ErrRandom end.
Definition NormalizeStatus (status : string) : result tenant_err string :=
  let s := ToLower (TrimSpace status) in
  if String.eqb s "active" then Ok "active" else if String.eqb s "suspended" then Ok "suspended"
  else if String.eqb s "inactive" then Ok "inactive" else Err ErrInvalidTenantStatus.
Definition NormalizeType (tenantType : string) : result tenant_err string :=
  let t := ToLower (TrimSpace tenantType) in
  if is_empty t || String.eqb t "company" then Ok "company" else if String.eqb t "studio" then Ok "studio"
  else if String.eqb t "government" then Ok "government" else if String.eqb t "factory" then Ok "factory"
  else if String.eqb t "public_facility" then Ok "public_facility" else Err ErrInvalidTenantType.

(** ** The interface of the repository *)

(** What the store does with the accesses of a call: a save that fails may have been made
    (the store of Postgres commits before the last error it can meet). *)
Record Replies := mkReplies { load_ok : bool; save_ok : bool; save_made : bool }.
Class Repository (R : Type) := {
  LoadTenants : Replies → list Tenant → R → R * result tenant_err (list Tenant);
  SaveTenants : Replies → list Tenant → R → R * result tenant_err unit
}.
(** [found]: what the next load gives, when it can be read and there is something. *)
Class RepositoryLaws (R : Type) `{!Repository R} := {
  found : R → option (list Tenant);
  load_gives (w : Replies) (defaults l : list Tenant) (r r' : R) :
    LoadTenants w defaults r = (r', Ok l) → l = default defaults (found r) ∧ (found r ≠ None → found r' = found r);
  save_keeps (w : Replies) (l : list Tenant) (r : R) :
    match SaveTenants w l r with
    | (r', Ok _) => found r' = Some l ∨ found r = None ∧ found r' = None
    | (r', Err _) => found r' = Some l ∨ found r' = found r
    end
}.

(** ** infrastructure *)

(** [None]: a repository without a store. *)
Record StateRepository := mkStateRepository { repoStore : option (option (list Tenant)) }.
#[export] Instance state_repository : Repository StateRepository := {|
  LoadTenants := λ w defaults r,
    match repoStore r with
    | None => (r, Ok defaults)
    | Some content =>
        if negb (load_ok w) then (r, Err ErrRepository)
        else match content with
             | Some l => (r, Ok l)
             | None =>
                 (if save_ok w || save_made w then mkStateRepository (Some (Some defaults)) else r,
                  if save_ok w then Ok defaults else Err ErrRepository)
             end
    end;
  SaveTenants := λ w items r,
    match repoStore r with
    | None => (r, Ok tt)
    | Some _ =>
        (if save_ok w || save_made w then mkStateRepository (Some (Some items)) else r,
         if save_ok w then Ok tt else Err ErrRepository)
    end
|}.
#[export, program] Instance state_repository_laws : RepositoryLaws StateRepository := {| found := λ r, default None (repoStore r) |}.
Next Obligation.
  intros w defaults l [[[c|]|]] r'; simpl; destruct (load_ok w); simpl; try (by intros [= <- <-]); try done.
  destruct (save_ok w); by intros [= <- <-].
Qed.
Next Obligation. intros w l [[c|]]; simpl; [|by right]. destruct (save_ok w), (save_made w); simpl; auto. Qed.

(** ** application *)

Section application.
Context {R : Type} `{!Repository R}.

Record TenantService := mkTenantService { repo : option R; tenants : list Tenant }.
#[export] Instance eta_tenant_service : Eta TenantService := λ s, mkTenantService (repo s) (tenants s).
(** The world of a call. *)
Record TenantEnv := mkTenantEnv { tnNow : Z; tnFresh : option string; tnReplies : Replies }.

Definition NewService (w : Replies) (repo : option R) (defaults : list Tenant) : option R * result tenant_err TenantService :=
  match repo with
  | None => (None, Ok (mkTenantService None defaults))
  | Some r =>
      match LoadTenants w defaults r with
      | (r', Ok loaded) => (Some r', Ok (mkTenantService (Some r') loaded))
      | (r', Err e) => (Some r', Err e)
      end
  end.
Definition List (s : TenantService) : list Tenant := tenants s.
Definition persistTenants (w : Replies) : op TenantService tenant_err unit := λ s,
  match repo s with
  | None => (s, Ok tt)
  | Some r => let '(r', a) := SaveTenants w (tenants s) r in (s <| repo := Some r' |>, a)
  end.
Definition Create (w : TenantEnv) (name tenantType hqRegion : string) : op TenantService tenant_err Tenant :=
  let trimmedName := TrimSpace name in
  fail_if (is_empty trimmedName) ErrTenantNameRequired;;
  nextType ← lift (NormalizeType tenantType);
  id ← lift (DefaultIDGenerator (tnFresh w));
  let record := mkTenant id trimmedName nextType (TrimSpace hqRegion) "active" (tnNow w) in
  modify (λ s, s <| tenants ::= λ l, l ++ [record] |>);;
  persistTenants (tnReplies w);; mret record.
Definition UpdateStatus (w : TenantEnv) (tenantID status : string) : op TenantService tenant_err Tenant :=
  let nextTenantID := TrimSpace tenantID in
  fail_if (is_empty nextTenantID) ErrTenantNotFound;;
  nextStatus ← lift (NormalizeStatus status);
  found ← gets (λ s, findi (λ t, String.eqb (tnID t) nextTenantID) (tenants s));
  match found with
  | Some (i, t) =>
      let t := t <| tnStatus := nextStatus |> in
      modify (λ s, s <| tenants ::= <[i := t]> |>);;
      persistTenants (tnReplies w);; mret t
  | None => throw ErrTenantNotFound
  end.

(** ** delivery *)

(** [None] is the nil facade, or one without a service. *)
Definition Facade := option TenantService.
Definition facade_List (f : Facade) : list Tenant := match f with Some s => List s | None => [] end.
Definition through {A} (call : op TenantService tenant_err A) : op Facade tenant_err A := λ f,
  match f with
  | None => (None, Err ErrTenantNotFound)
  | Some s => let '(s', r) := call s in (Some s', r)
  end.
Definition facade_Create (w : TenantEnv) (name tenantType hqRegion : string) : op Facade tenant_err Tenant :=
  through (Create w name tenantType hqRegion).
Definition facade_UpdateStatus (w : TenantEnv) (tenantID status : string) : op Facade tenant_err Tenant :=
  through (UpdateStatus w tenantID status).
End application.
Arguments TenantService R : clear implicits.
Arguments Facade R : clear implicits.

(** ** service.go *)

Definition defaultTenants (now : Z) : list Tenant :=
  [mkTenant "tenant_demo_jakarta" "MistyPass Jakarta Demo" "company" "ID-JK" "active" now;
   mkTenant "tenant_demo_factory" "Nusantara Manufacturing" "factory" "ID-BT" "active" now].
Definition NewServiceWithStateStore (w : Replies) (now : Z) (store : option (list Tenant)) :
    option StateRepository * result tenant_err (TenantService StateRepository) :=
  NewService w (Some (mkStateRepository (Some store))) (defaultTenants now).

(** ** The endpoints *)

(** The server with its tenants. *)
Record site := mkSite { web : server; tenantSvc : Facade StateRepository }.
#[export] Instance eta_site : Eta site := λ s, mkSite (web s) (tenantSvc s).
Definition on_web {A} (h : handler A) : op site http_err A := λ s, let '(w, r) := h (web s) in (s <| web := w |>, r).
Definition tenant_text (e : tenant_err) : string :=
  match e with
  | ErrTenantNameRequired => "tenant name is required" | ErrTenantNotFound => "tenant not found"
  | ErrInvalidTenantStatus => "invalid tenant status" | ErrInvalidTenantType => "invalid tenant type"
  | ErrRandom | ErrRepository => ""
  end.
Definition tenant_call {A} (status : tenant_err → Z) (f : op (Facade StateRepository) tenant_err A) : op site http_err A := λ s,
  let '(t, r) := f (tenantSvc s) in
  (s <| tenantSvc := t |>, match r with Ok a => Ok a | Err e => Err (HTTP (status e) (tenant_text e)) end).
Definition tenant_target (t : Tenant) (with_type : bool) : string :=
  "tenant_id=" +:+ tnID t +:+ ",name=" +:+ tnName t +:+ (if with_type then ",type=" +:+ tnType t else "")
  +:+ ",status=" +:+ tnStatus t.

Section routes.
Context {MC : Mac} (env : Env) (w : TenantEnv) (who : caller).
Definition listTenants : op site http_err (list Tenant) := gets (λ s, facade_List (tenantSvc s)).
Definition createTenant (name tenantType hqRegion : string) : op site http_err Tenant :=
  created ← tenant_call (λ e, match e with ErrTenantNameRequired | ErrInvalidTenantType => 400 | _ => 500 end)
              (facade_Create w name tenantType hqRegion);
  on_web (appendAuditLog env who (tnID created) "legacy_tenant_created" (tenant_target created true) "tenant");;
  mret created.
Definition updateTenantStatus (tenantID status : string) : op site http_err Tenant :=
  updated ← tenant_call (λ e, match e with ErrTenantNotFound => 404 | ErrInvalidTenantStatus => 400 | _ => 500 end)
              (facade_UpdateStatus w tenantID status);
  on_web (appendAuditLog env who tenantID "legacy_tenant_status_updated" (tenant_target updated false) "tenant");;
  mret updated.

Inductive tenant_request :=
| ListTenantsRq | CreateTenantRq (name tenantType hqRegion : string) | UpdateTenantStatusRq (tenantID status : string).
Definition tenant_route (r : tenant_request) : op site http_err (list Tenant) :=
  on_web (requireRoles ["super_admin"] who);;
  match r with
  | ListTenantsRq => listTenants
  | CreateTenantRq name tenantType hqRegion => t ← createTenant name tenantType hqRegion; mret [t]
  | UpdateTenantStatusRq tenantID status => t ← updateTenantStatus tenantID status; mret [t]
  end.
End routes.

(** ** Statuses and types *)

Definition tenant_typed (t : Tenant) : Prop :=
  tnName t ≠ "" ∧ tnType t ∈ ["company"; "studio"; "government"; "factory"; "public_facility"]
  ∧ tnStatus t ∈ ["active"; "suspended"; "inactive"].
Lemma NormalizeStatus_spec s s' : NormalizeStatus s = Ok s' → s' ∈ ["active"; "suspended"; "inactive"].
Proof. unfold NormalizeStatus. repeat case_match; intros [= <-]; set_solver. Qed.
Lemma NormalizeType_spec s s' : NormalizeType s = Ok s' → s' ∈ ["company"; "studio"; "government"; "factory"; "public_facility"].
Proof. unfold NormalizeType. repeat case_match; intros [= <-]; set_solver. Qed.

Section facts.
Context {R : Type} `{!Repository R}.

Inductive tenant_op :=
| OpCreate (w : TenantEnv) (name tenantType hqRegion : string) | OpUpdate (w : TenantEnv) (tenantID status : string).
Definition tenant_do (k : tenant_op) : op (TenantService R) tenant_err Tenant :=
  match k with
  | OpCreate w name tenantType hqRegion => Create w name tenantType hqRegion
  | OpUpdate w tenantID status => UpdateStatus w tenantID status
  end.

(** A call is refused and changes nothing, or it changes the table and saves it. *)
Lemma tenant_does k s :
  (exec (tenant_do k) s = s ∧ is_ok (answer (tenant_do k) s) = false)
  ∨ ∃ t l w, (l = tenants s ++ [t] ∧ tnStatus t = "active" ∧ tnName t ≠ "" ∧ (∃ x, NormalizeType x = Ok (tnType t))
              ∨ ∃ i t0 x st, findi x (tenants s) = Some (i, t0) ∧ NormalizeStatus st = Ok (tnStatus t)
                  ∧ t = t0 <| tnStatus := tnStatus t |> ∧ l = <[i := t]> (tenants s))
      ∧ tenant_do k s = (let '(s', r) := persistTenants w (s <| tenants := l |>) in (s', match r with Ok _ => Ok t | Err e => Err e end)).
Proof.
  unfold exec, answer. destruct k as [w name ty reg|w id st]; simpl; unfold Create, UpdateStatus; rewrite fail_if_bind.
  - destruct (is_empty (TrimSpace name)) eqn:Hn; [by left|]. apply is_empty_false in Hn. rewrite bind_lift.
    destruct (NormalizeType ty) as [ty'|] eqn:Ht; [|by left]. rewrite bind_lift. destruct (DefaultIDGenerator _) as [id|]; [|by left].
    right. rewrite bind_modify, bind_op_eq. set (t := mkTenant id (TrimSpace name) ty' (TrimSpace reg) "active" (tnNow w)).
    exists t, (tenants s ++ [t]), (tnReplies w). split; [left; split_and!; [reflexivity|done|exact Hn|by exists ty]|].
    destruct (persistTenants _ _) as [s' [[]|]]; done.
  - destruct (is_empty (TrimSpace id)); [by left|]. rewrite bind_lift. destruct (NormalizeStatus st) as [st'|] eqn:Hs; [|by left].
    rewrite bind_gets. destruct (findi _ (tenants s)) as [[i t0]|] eqn:Hf; [|by left]. right. rewrite bind_modify, bind_op_eq.
    exists (t0 <| tnStatus := st' |>), (<[i := t0 <| tnStatus := st' |>]> (tenants s)), (tnReplies w).
    split; [right; exists i, t0, (λ t, String.eqb (tnID t) (TrimSpace id)), st; split_and!; [exact Hf|exact Hs|reflexivity|reflexivity]|]. destruct (persistTenants _ _) as [s' [[]|]]; done.
Qed.
Lemma persist_tenants w s : tenants (persistTenants w s).1 = tenants s.
Proof. unfold persistTenants. destruct (repo s); [|done]. by destruct (SaveTenants _ _ _). Qed.

Definition tenant_run (ks : list tenant_op) (s : TenantService R) : TenantService R := foldl (λ s k, exec (tenant_do k) s) s ks.

(** Whatever calls are made and whatever the repository answers, names stay, and types
    and statuses are of their kinds. *)
Theorem tenants_typed ks s : Forall tenant_typed (tenants s) → Forall tenant_typed (tenants (tenant_run ks s)).
Proof.
  revert s. induction ks as [|k ks IH]; intros s Hs; [done|]. simpl. apply IH.
  destruct (tenant_does k s) as [[-> _]|(t & l & w & Hl & Hd)]; [done|]. unfold exec. rewrite Hd.
  pose proof (persist_tenants w (s <| tenants := l |>)) as Hp. destruct (persistTenants w _) as [s' r]. simpl in *. rewrite Hp.
  destruct Hl as [(-> & Hst & Hn & x & Hx)|(i & t0 & x & st & Hf & Hst & Ht & ->)].
  - apply Forall_app_2; [done|]. apply Forall_singleton. split_and!; [done|by eapply NormalizeType_spec|rewrite Hst; set_solver].
  - apply Forall_insert; [done|]. destruct (Forall_lookup_1 _ _ _ _ Hs (findi_lookup _ _ _ _ Hf)) as (H1 & H2 & _).
    apply NormalizeStatus_spec in Hst. rewrite Ht. by split_and!.
Qed.

Context `{!RepositoryLaws R}.

(** Which calls were acknowledged. *)
Fixpoint acknowledged (ks : list tenant_op) (s : TenantService R) : list bool :=
  match ks with [] => [] | k :: ks => is_ok (answer (tenant_do k) s) :: acknowledged ks (exec (tenant_do k) s) end.
(** All of a tenant but its status. *)
Definition identity_of (t : Tenant) : Tenant := t <| tnStatus := "" |>.

Lemma tenants_grow k s : (identity_of <$> tenants s) `prefix_of` (identity_of <$> tenants (exec (tenant_do k) s)).
Proof.
  destruct (tenant_does k s) as [[-> _]|(t & l & w & Hl & Hd)]; [done|]. unfold exec. rewrite Hd.
  pose proof (persist_tenants w (s <| tenants := l |>)) as Hp. destruct (persistTenants w _) as [s' r]. simpl in *. rewrite Hp.
  destruct Hl as [(-> & _)|(i & t0 & x & st & Hf & _ & Ht & ->)]; [rewrite fmap_app; by eexists|].
  rewrite list_fmap_insert, (list_insert_id (identity_of <$> tenants s)); [done|].
  rewrite list_lookup_fmap, (findi_lookup _ _ _ _ Hf). simpl. by rewrite Ht.
Qed.
Lemma tenants_stay ks s : (identity_of <$> tenants s) `prefix_of` (identity_of <$> tenants (tenant_run ks s)).
Proof. revert s. induction ks as [|k ks IH]; intros s; [done|]. etrans; [apply tenants_grow|apply IH]. Qed.
Lemma acknowledged_row k s t : answer (tenant_do k) s = Ok t → t ∈ tenants (exec (tenant_do k) s).
Proof.
  unfold answer, exec. destruct (tenant_does k s) as [[_ Ha]|(t' & l & w & Hl & Hd)]; [unfold answer in Ha; by destruct (tenant_do k s) as [? []]|].
  rewrite Hd. pose proof (persist_tenants w (s <| tenants := l |>)) as Hp. destruct (persistTenants w _) as [s' [[]|e]]; [|done].
  simpl in *. rewrite Hp. intros [= <-]. destruct Hl as [(-> & _)|(i & t0 & x & st & Hf & _ & _ & ->)]; [set_solver|].
  apply list_elem_of_lookup_2 with i. apply list_lookup_insert_eq. by eapply lookup_lt_Some, findi_lookup.
Qed.

(** What the repository has is the table in memory after some call, no acknowledged call coming later. *)
Lemma stored_at ks s r0 r :
  repo s = Some r0 → found r0 = Some (tenants s) → repo (tenant_run ks s) = Some r →
  ∃ n, (n ≤ length ks)%nat ∧ found r = Some (tenants (tenant_run (take n ks) s))
    ∧ ∀ i, (n <= i)%nat → acknowledged ks s !! i ≠ Some true.
Proof.
  intros Hr0 Hf0. revert r. induction ks as [|k ks IH] using rev_ind; intros r Hr; [exists 0%nat; simpl in *; split_and!; [done|congruence|by intros i]|].
  assert (tenant_run (ks ++ [k]) s = exec (tenant_do k) (tenant_run ks s)) as Hrun by (unfold tenant_run; by rewrite foldl_app).
  assert (∀ l s0, acknowledged (l ++ [k]) s0 = acknowledged l s0 ++ [is_ok (answer (tenant_do k) (tenant_run l s0))]) as Hack.
  { intros l. induction l as [|x l IHl]; intros s0; simpl; [done|]. by rewrite IHl. }
  assert (∀ l s0, length (acknowledged l s0) = length l) as Hlen by (intros l; induction l as [|x l IHl]; intros s0; simpl; [done|by rewrite IHl]).
  rewrite Hrun in Hr. rewrite length_app. simpl.
  assert (∀ r1, repo (tenant_run ks s) = Some r1 → found r = found r1 → is_ok (answer (tenant_do k) (tenant_run ks s)) = false →
    ∃ n, (n ≤ length ks + 1)%nat ∧ found r = Some (tenants (tenant_run (take n (ks ++ [k])) s))
      ∧ ∀ i, (n <= i)%nat → acknowledged (ks ++ [k]) s !! i ≠ Some true) as Hold.
  { intros r1 Hr1 Hf Ha. destruct (IH r1 Hr1) as (n & Hn & Hfn & Hno). exists n. split; [lia|]. rewrite take_app_le by done.
    split; [congruence|]. intros i Hi. rewrite Hack, Ha. intros Hlook. apply lookup_app_Some in Hlook as [Hlook|[_ Hlook]]; [by eapply Hno|].
    destruct (i - _)%nat as [|m]; simpl in Hlook; [done|]. by destruct m. }
  assert (found r = Some (tenants (exec (tenant_do k) (tenant_run ks s))) →
    ∃ n, (n ≤ length ks + 1)%nat ∧ found r = Some (tenants (tenant_run (take n (ks ++ [k])) s))
      ∧ ∀ i, (n <= i)%nat → acknowledged (ks ++ [k]) s !! i ≠ Some true) as Hnew.
  { intros Hf. exists (length ks + 1)%nat. rewrite take_ge by (rewrite length_app; simpl; lia). rewrite Hrun. split_and!; [lia|done|].
    intros i Hi Hlook. apply lookup_lt_Some in Hlook. rewrite Hlen, length_app in Hlook. simpl in Hlook. lia. }
  destruct (tenant_does k (tenant_run ks s)) as [[He Ha]|(t & l & w & _ & Hd)]; [rewrite He in Hr; by apply (Hold r)|].
  unfold exec, answer in *. rewrite Hd in *. unfold persistTenants in *. cbn [repo set tenants] in *.
  destruct (repo (tenant_run ks s)) as [r1|] eqn:Hr1; [|simpl in Hr; congruence].
  pose proof (save_keeps w l r1) as Hk. destruct (SaveTenants w l r1) as [r2 [[]|e]]; simpl in *; injection Hr as ->.
  - destruct Hk as [Hk|[Hk _]]; [by apply Hnew|]. destruct (IH r1 eq_refl) as (n & _ & Hfn & _). congruence.
  - destruct Hk as [Hk|Hk]; [by apply Hnew|by apply (Hold r1)].
Qed.

(** C40: The service over any repository loses nothing it acknowledged.  After any calls,
    whatever the repository answers, a service started again has the table as it was in
    memory at one moment, with no acknowledged call after it; so every tenant an
    acknowledged call answered is there.  (A change that was refused stays in memory and
    can be there too.) *)
Theorem restart_acknowledged ks s r0 r w defaults r' s' :
  repo s = Some r0 → found r0 = Some (tenants s) → repo (tenant_run ks s) = Some r →
  NewService w (Some r) defaults = (r', Ok s') →
  (∃ n, (n ≤ length ks)%nat ∧ tenants s' = tenants (tenant_run (take n ks) s)
     ∧ ∀ i, (n <= i)%nat → acknowledged ks s !! i ≠ Some true)
  ∧ ∀ ks1 k ks2 t, ks = ks1 ++ k :: ks2 → answer (tenant_do k) (tenant_run ks1 s) = Ok t →
      ∃ t', t' ∈ tenants s' ∧ identity_of t' = identity_of t.
Proof.
  intros Hr0 Hf0 Hr Hn. destruct (stored_at ks s r0 r Hr0 Hf0 Hr) as (n & Hle & Hf & Hno).
  simpl in Hn. destruct (LoadTenants w defaults r) as [r1 [l|e]] eqn:Hl; [|done]. injection Hn as _ <-. simpl.
  apply load_gives in Hl as [-> _]. rewrite Hf. simpl. split; [by exists n|].
  intros ks1 k ks2 t -> Ha. destruct (Nat.leb_spec n (length ks1)) as [Hlt|Hlt].
  - exfalso. apply (Hno (length ks1) Hlt). clear -Ha. revert s Ha.
    induction ks1 as [|x ks1 IH]; intros s Ha; simpl in *; [by rewrite Ha|by apply IH].
  - apply acknowledged_row in Ha as Hin. replace n with (length ks1 + S (n - S (length ks1)))%nat by lia.
    rewrite firstn_app_2. simpl. set (ks3 := take _ ks2).
    assert (tenant_run (ks1 ++ k :: ks3) s = tenant_run ks3 (exec (tenant_do k) (tenant_run ks1 s))) as -> by (unfold tenant_run; by rewrite foldl_app).
    assert (identity_of t ∈ identity_of <$> tenants (tenant_run ks3 (exec (tenant_do k) (tenant_run ks1 s)))) as Hid.
    { eapply elem_of_prefix; [|apply tenants_stay]. by apply list_elem_of_fmap_2. }
    apply list_elem_of_fmap in Hid as (t' & Hid & Ht'). by exists t'.
Qed.
End facts.

(** Only a super admin reads or changes tenants. *)
Theorem tenants_for_super_admin {MC : Mac} env w who r s :
  match who with Some u => role_of u ≠ "super_admin" | None => True end →
  ∃ code text, tenant_route env w who r s = (s, Err (HTTP code text)) ∧ (code = 401 ∨ code = 403).
Proof.
  intros Hw. unfold tenant_route. rewrite bind_op_eq. unfold on_web at 1. destruct s as [sv tn]. cbn [web].
  assert (∃ code text, requireRoles ["super_admin"] who sv = (sv, Err (HTTP code text)) ∧ (code = 401 ∨ code = 403)) as (c & t & -> & Hc).
  { destruct who as [u|]; [|by exists 401; eauto]. unfold requireRoles. rewrite fail_if_bind. unfold existsb.
    change (ToLower (TrimSpace "super_admin")) with "super_admin".
    assert (String.eqb "super_admin" (role_of u) = false) as -> by (apply String.eqb_neq; congruence).
    exists 403, "forbidden". split; [reflexivity|by right]. }
  by exists c, t.
Qed.

(** ** Examples *)

#[local] Abbreviation fine := (mkReplies true true false).
#[local] Abbreviation broken := (mkReplies true false false).
#[local] Abbreviation ex_start := (mkTenantService (Some (mkStateRepository (Some (Some (defaultTenants 1))))) (defaultTenants 1)).
#[local] Abbreviation ex_ops :=
  [OpCreate (mkTenantEnv 2 (Some "01") fine) " Acme " "Studio" "ID"; OpUpdate (mkTenantEnv 3 None broken) "tenant_01" "suspended"].

(** The suspension is answered with an error but holds in memory; a restart forgets it ... *)
Lemma restart_acknowledged_witness :
  match @NewService StateRepository _ fine (repo (tenant_run ex_ops ex_start)) [] with
  | (_, Ok s') => tnStatus <$> tenants s' = ["active"; "active"; "active"]
      ∧ tnStatus <$> tenants (tenant_run ex_ops ex_start) = ["active"; "active"; "suspended"]
      ∧ (∃ n, (n ≤ length ex_ops)%nat ∧ tenants s' = tenants (tenant_run (take n ex_ops) ex_start)
           ∧ ∀ i, (n <= i)%nat → acknowledged ex_ops ex_start !! i ≠ Some true)
      ∧ ∀ ks1 k ks2 t, ex_ops = ks1 ++ k :: ks2 → answer (tenant_do k) (tenant_run ks1 ex_start) = Ok t →
          ∃ t', t' ∈ tenants s' ∧ identity_of t' = identity_of t
  | (_, Err _) => False
  end.
Proof.
  destruct (NewService fine (repo (tenant_run ex_ops ex_start)) []) as [r' [s'|e]] eqn:Hn; [|vm_compute in Hn; discriminate].
  split; [vm_compute in Hn; injection Hn; intros <- _; reflexivity|]. split; [vm_compute; reflexivity|].
  destruct (repo (tenant_run ex_ops ex_start)) as [r|] eqn:Hr; [|vm_compute in Hr; discriminate].
  exact (restart_acknowledged ex_ops ex_start (mkStateRepository (Some (Some (defaultTenants 1)))) r fine [] r' s' eq_refl eq_refl Hr Hn).
Defined.
(** ... unless a later acknowledged call has stored the whole table. *)
Example refused_then_saved :
  match @NewService StateRepository _ fine
      (repo (tenant_run (ex_ops ++ [OpCreate (mkTenantEnv 4 (Some "02") fine) "Beta" "Studio" "ID"]) ex_start)) [] with
  | (_, Ok s') => tnStatus <$> tenants s' = ["active"; "active"; "suspended"; "active"]
  | (_, Err _) => False
  end.
Proof. vm_compute. reflexivity. Qed.
Lemma tenants_typed_witness : Forall tenant_typed (tenants (tenant_run ex_ops ex_start)).
Proof. apply tenants_typed. repeat constructor; simpl; try done; try set_solver. Defined.
