(* ===== verification/Normalizer.v ===== *)
(** * Normalised HRIS requests (modules/hris/normalizer.go, the registry of pull_worker.go)

    The adapters of the vendors are functions filed under the vendor's name; what they
    make of an outside document is theirs, and the employees they return are a type of
    their own here.  What is modelled is the choice of the adapter, the cleaning of what
    it returns, and the identifiers that make a webhook idempotent. *)

From S2P Require Import Cas PullState Prelude GoStrings GoTime Bytes GoText.
#[local] Open Scope string_scope.
#[local] Open Scope list_scope.
#[local] Open Scope Z_scope.

Inductive normalizer_err := ErrNormalizerNotFound | ErrPullAdapterNotFound | ErrNormalizedEmployeesRequired | ErrAdapter (text : string).

(** A webhook as it was received (modules/enterprise/service.go). *)
Record HRISWebhookReceipt := mkReceipt {
  rcID : string; rcTenantID : string; rcConnectorID : string; rcVendor : string; rcEventType : string; rcRequestID : string;
  rcContentType : string; rcHeaders : gmap string string; rcRawPayload : string; rcSourceIP : string; rcStatus : string;
  rcAttemptCount : Z; rcLastError : string; rcReceivedAt : Z; rcLastAttemptAt : option Z; rcProcessedAt : option Z
}.

(** ** Registries *)

Section registry.
Context {Adapter : Type}.
(** An adapter and the vendor it answers for. *)
Definition registry := gmap string Adapter.
Definition Register (vendor : string) (a : Adapter) (r : registry) : registry :=
  let vendor := NormalizeVendor vendor in if is_empty vendor then r else <[vendor := a]> r.
Definition Get (vendor : string) (r : registry) : option Adapter := r !! NormalizeVendor vendor.
(** [None] is a nil adapter. *)
Definition NewRegistry (adapters : list (option (string * Adapter))) : registry :=
  foldl (λ r a, match a with Some (vendor, a) => Register vendor a r | None => r end) ∅ adapters.

(** The adapter of a vendor is the last one registered for it, however the name is written. *)
Lemma registered v1 v2 a adapters :
  NormalizeVendor v1 = NormalizeVendor v2 → NormalizeVendor v1 ≠ "" →
  Get v2 (NewRegistry (adapters ++ [Some (v1, a)])) = Some a.
Proof.
  intros He Hn. unfold NewRegistry, Get, Register. rewrite foldl_app. simpl. apply is_empty_false in Hn as ->.
  rewrite He. apply (lookup_insert_eq (M:=gmap string)).
Qed.
End registry.
Arguments registry : clear implicits.

Section requests.
Context {Employee : Type} (sha256 : bytes → bytes).

Record NormalizedSyncRequest := mkSyncRequest {
  srTenantID : string; srSource : string; srActor : string; srRequestID : string; srConnectorID : string;
  srRawPayloadRef : string; srEventType : string; srEmployees : list Employee
}.
Record PullResult := mkPullResult {
  prTenantID : string; prSource : string; prActor : string; prRequestID : string; prMode : string; prConnectorID : string;
  prEmployees : list Employee; prPulledAt : Z
}.
Definition SyncActor : string := "enterprise.sync.worker".

Definition NormalizeWebhook (r : registry (HRISWebhookReceipt → result normalizer_err NormalizedSyncRequest)) (receipt : HRISWebhookReceipt) :
    result normalizer_err NormalizedSyncRequest :=
  match Get (rcVendor receipt) r with Some normalizer => normalizer receipt | None => Err ErrNormalizerNotFound end.
Definition Pull {Input : Type} (r : registry (Input → result normalizer_err PullResult)) (vendor : string) (input : Input) :
    result normalizer_err PullResult :=
  match Get vendor r with Some adapter => adapter input | None => Err ErrPullAdapterNotFound end.
(** [None] is an adapter that is no [IncrementalPullSupporter]. *)
Definition SupportsIncrementalPull {Input : Type} (supports : option (Input → bool)) (input : Input) : bool :=
  match supports with Some f => f input | None => false end.

Definition NormalizeSyncRequest (q : NormalizedSyncRequest) : result normalizer_err NormalizedSyncRequest :=
  match srEmployees q with
  | [] => Err ErrNormalizedEmployeesRequired
  | employees =>
      Ok (mkSyncRequest (TrimSpace (srTenantID q)) (TrimSpace (srSource q))
            (if is_empty (TrimSpace (srActor q)) then SyncActor else TrimSpace (srActor q))
            (TrimSpace (srRequestID q)) (TrimSpace (srConnectorID q)) (TrimSpace (srRawPayloadRef q)) (TrimSpace (srEventType q)) employees)
  end.
Definition NormalizePullResult (clock : Z) (r : PullResult) : PullResult :=
  let or s d := if is_empty (TrimSpace s) then d else TrimSpace s in
  mkPullResult (TrimSpace (prTenantID r)) (or (prSource r) "hris") (or (prActor r) SyncActor) (TrimSpace (prRequestID r))
    (NormalizePullMode (prMode r)) (TrimSpace (prConnectorID r)) (prEmployees r) (if IsZero (prPulledAt r) then clock else prPulledAt r).

Definition SyncSourceForVendor (vendor : string) : string :=
  if is_empty (NormalizeVendor vendor) then "hris" else "hris_" +:+ NormalizeVendor vendor.
Definition RawPayloadRef (receipt : HRISWebhookReceipt) : string :=
  if is_empty (TrimSpace (rcID receipt)) then "" else "hris_webhook_receipt:" +:+ TrimSpace (rcID receipt).

(** [strings.NewReplacer] of six single bytes. *)
Definition normalizeRequestIDPart (input : string) : string :=
  map_string (λ c, if existsb (λ x, code c =? x) [32; 47; 92; 10; 13; 9] then "_"%char else c) (ToLower (TrimSpace input)).
Definition StableRequestID (receipt : HRISWebhookReceipt) (employeeKey effectiveAt : string) : string :=
  if negb (is_empty (TrimSpace (rcRequestID receipt))) then TrimSpace (rcRequestID receipt)
  else
    let parts := [NormalizeVendor (rcVendor receipt); normalizeRequestIDPart (rcTenantID receipt);
                  normalizeRequestIDPart (rcEventType receipt); normalizeRequestIDPart employeeKey; normalizeRequestIDPart effectiveAt] in
    let nonEmpty := filterb (λ p, negb (is_empty p)) parts in
    if (4 <=? length nonEmpty)%nat then Join nonEmpty ":"
    else
      let sum := sha256 (of_string (Join [NormalizeVendor (rcVendor receipt); TrimSpace (rcTenantID receipt);
                   TrimSpace (rcEventType receipt); TrimSpace employeeKey; TrimSpace effectiveAt; TrimSpace (rcRawPayload receipt)] "|")) in
      (if is_empty (NormalizeVendor (rcVendor receipt)) then "hris" else NormalizeVendor (rcVendor receipt)) +:+ ":" +:+ hex_encode (take 12 sum).

(** ** What the identifiers keep apart *)

(** A receipt of which four parts are given has the same identifier whatever its
    payload: a redelivery is recognised. *)
Lemma stable_request_id r r' key at_ :
  rcVendor r = rcVendor r' → rcTenantID r = rcTenantID r' → rcEventType r = rcEventType r' → rcRequestID r = rcRequestID r' →
  (4 <= length (filterb (λ p, negb (is_empty p)) [NormalizeVendor (rcVendor r); normalizeRequestIDPart (rcTenantID r);
                  normalizeRequestIDPart (rcEventType r); normalizeRequestIDPart key; normalizeRequestIDPart at_]))%nat →
  StableRequestID r key at_ = StableRequestID r' key at_.
Proof.
  intros Hv Ht He Hr Hl. unfold StableRequestID. rewrite <- Hv, <- Ht, <- He, <- Hr. destruct (negb _); [done|].
  apply Nat.leb_le in Hl. cbv zeta. by rewrite Hl.
Qed.

(** Normalising what is normalised changes nothing. *)
Lemma NormalizeSyncRequest_idem q q' : NormalizeSyncRequest q = Ok q' → NormalizeSyncRequest q' = Ok q'.
Proof.
  unfold NormalizeSyncRequest. destruct (srEmployees q) as [|e l]; [done|]. intros [= <-]. simpl. rewrite !TrimSpace_idem.
  destruct (is_empty (TrimSpace (srActor q))) eqn:E; [done|]. by rewrite TrimSpace_idem, E.
Qed.
End requests.

(** Parts that are empty are left out before the rest is joined: two different events
    get one identifier, and the second is taken for a redelivery of the first. *)
Theorem request_ids_collide sha256 :
  let r event := mkReceipt "" "acme" "" "talenta" event "" "" ∅ "" "" "" 0 "" 0 None None in
  StableRequestID sha256 (r "resign") "2026-01-01" "" = StableRequestID sha256 (r "") "resign" "2026-01-01".
Proof. reflexivity. Qed.
