(* ===== verification/Directory.v ===== *)
(** * The enterprise directory: data (modules/enterprise/service.go)

    A tenant claims e-mail domains, configures one identity provider and keeps a
    directory of employees, filled by synchronisation ([EmployeeSync]) and at sign-in
    ([Jit]).  [Directory] is the part of the Go [Service] these calls use: the tables of
    the core document, the state tokens of a sign-in under way, the SAML assertions that
    were used, the store and the random source.  The store answers each [Save] with the
    next of [replies] and keeps what it accepted last. *)

From S2P Require Import Cas Prelude GoStrings GoTime Bytes GoText.
#[local] Open Scope string_scope.
#[local] Open Scope list_scope.
#[local] Open Scope Z_scope.

(** ** Data *)

Inductive enterprise_err :=
| ErrTenantIDRequired | ErrDomainRequired | ErrInvalidDomain | ErrDomainAlreadyMapped | ErrDomainMappingNotFound
| ErrInvalidDomainMappingStatus | ErrInvalidHRISConnectorVendor | ErrInvalidHRISConnectorStatus
| ErrInvalidHRISConnectorSyncStrategy | ErrHRISConnectorAlreadyExists | ErrHRISConnectorNotFound
| ErrEmailRequired | ErrDomainNotMapped | ErrIDPConfigNotFound | ErrInvalidIDPProvider | ErrIssuerURLRequired
| ErrClientIDRequired | ErrInvalidIDPStatus | ErrSAMLACSURLRequired | ErrInvalidSAMLACSURL | ErrSAMLX509CertRequired
| ErrEmployeesRequired | ErrInvalidReconcileLimit | ErrSyncRequestIDRequired | ErrSyncRequestNotFound | ErrInvalidSyncSource
| ErrEmployeeEmailDomainMismatch | ErrEmployeeNotFound | ErrEmployeeInactive | ErrEmployeeExternalIDConflict
| ErrJITProvisionApprovalRequired | ErrJITProvisionApprovalNotFound | ErrInvalidJITProvisionApprovalDecision
| ErrInvalidJITProvisionApprovalExternalSyncStatus
| ErrAuthStateTokenRequired | ErrAuthStateTokenNotFound | ErrAuthStateProviderMismatch | ErrRedirectURIRequired
| ErrInvalidRedirectURI | ErrAccessSyncApplierRequired
| ErrAccessSyncRetryFailed (requestID cause : string)
| ErrAccessSyncRolledBack (cause : string) | ErrRollbackFailed (cause : string)
| ErrRandom | ErrSave.

Record DomainMapping := mkDomainMapping {
  dmID : string; dmTenantID : string; dmDomain : string; dmStatus : string; dmCreatedAt : Z; dmUpdatedAt : Z
}.
#[export] Instance eta_DomainMapping : Eta DomainMapping := λ d,
  mkDomainMapping (dmID d) (dmTenantID d) (dmDomain d) (dmStatus d) (dmCreatedAt d) (dmUpdatedAt d).
Record TenantResolution := mkResolution { trEmail : string; trDomain : string; trTenantID : string; trMatched : bool }.

Record HRISConnector := mkConnector {
  hcID : string; hcTenantID : string; hcVendor : string; hcStatus : string; hcSyncStrategy : string;
  hcCredentialRef : string; hcWebhookSecretRef : string; hcLastSyncAt : option Z; hcUpdatedBy : string;
  hcCreatedAt : Z; hcUpdatedAt : Z
}.
#[export] Instance eta_HRISConnector : Eta HRISConnector := λ c,
  mkConnector (hcID c) (hcTenantID c) (hcVendor c) (hcStatus c) (hcSyncStrategy c) (hcCredentialRef c)
    (hcWebhookSecretRef c) (hcLastSyncAt c) (hcUpdatedBy c) (hcCreatedAt c) (hcUpdatedAt c).

Record IDPConfig := mkIDPConfig {
  idpID : string; idpTenantID : string; idpProvider : string; IssuerURL : string; ClientID : string;
  AuthURL : string; TokenURL : string; JWKSURL : string; UserInfoURL : string; SAMLACSURL : string;
  SAMLX509Cert : string; idpScopes : list string; idpStatus : string; SyncMode : string; idpUpdatedBy : string;
  idpCreatedAt : Z; idpUpdatedAt : Z
}.
Record IDPConfigValidationItem := mkValidationItem { viField : string; viStatus : string; viMessage : string }.
Record IDPConfigValidation := mkValidation {
  vdTenantID : string; vdProvider : string; Valid : bool; vdItems : list IDPConfigValidationItem; CheckedAt : Z
}.

Record EmployeeSyncInput := mkSyncInput {
  inExternalID : string; inEmployeeNumber : string; inEmail : string; inFullName : string; inDepartment : string;
  inJobTitle : string; inLocation : string; inPhone : string; inManagerExternalID : string;
  inEmploymentStatus : string; inJoinDate : string; inResignDate : string; inShiftCode : string;
  inScheduleWindow : string; inLeaveStatus : string; inCostCenter : string; inPhotoURL : string; inStatus : string
}.

Record EnterpriseEmployee := mkEmployee {
  emID : string; emTenantID : string; ExternalID : string; EmployeeNumber : string; emEmail : string;
  FullName : string; Department : string; JobTitle : string; emLocation : string; emPhone : string;
  ManagerExternalID : string; EmploymentStatus : string; JoinDate : string; ResignDate : string; ShiftCode : string;
  ScheduleWindow : string; LeaveStatus : string; CostCenter : string; PhotoURL : string; AccessRole : string;
  emBuildingID : string; emGroupIDs : list string; emStatus : string; emSource : string; LastSyncedAt : Z
}.
#[export] Instance eta_EnterpriseEmployee : Eta EnterpriseEmployee := λ e,
  mkEmployee (emID e) (emTenantID e) (ExternalID e) (EmployeeNumber e) (emEmail e) (FullName e) (Department e)
    (JobTitle e) (emLocation e) (emPhone e) (ManagerExternalID e) (EmploymentStatus e) (JoinDate e) (ResignDate e)
    (ShiftCode e) (ScheduleWindow e) (LeaveStatus e) (CostCenter e) (PhotoURL e) (AccessRole e) (emBuildingID e)
    (emGroupIDs e) (emStatus e) (emSource e) (LastSyncedAt e).

Record JITProvisionProfile := mkProfile {
  pfFullName : string; pfDepartment : string; pfJobTitle : string; pfLocation : string; pfPhone : string;
  pfManagerExternalID : string; pfEmploymentStatus : string
}.

Record JITProvisionApproval := mkApproval {
  apID : string; apTenantID : string; apEmail : string; apExternalID : string; apProvider : string;
  apEmploymentStatus : string; apStatus : string; apReason : string; ExternalSyncStatus : string;
  ExternalSyncRef : string; ExternalSyncAttemptCount : Z; ExternalSyncLastError : string;
  ExternalSyncUpdatedAt : option Z; ReviewedBy : string; ReviewedAt : option Z; apCreatedAt : Z; apUpdatedAt : Z
}.
#[export] Instance eta_JITProvisionApproval : Eta JITProvisionApproval := λ a,
  mkApproval (apID a) (apTenantID a) (apEmail a) (apExternalID a) (apProvider a) (apEmploymentStatus a) (apStatus a)
    (apReason a) (ExternalSyncStatus a) (ExternalSyncRef a) (ExternalSyncAttemptCount a) (ExternalSyncLastError a)
    (ExternalSyncUpdatedAt a) (ReviewedBy a) (ReviewedAt a) (apCreatedAt a) (apUpdatedAt a).

Record SyncJob := mkSyncJob {
  sjID : string; sjTenantID : string; sjSource : string; sjStatus : string; Total : Z; Created : Z; Updated : Z;
  Deactivated : Z; Rejected : Z; sjActor : string; StartedAt : Z; EndedAt : Z
}.
Record SyncResult := mkSyncResult { Job : SyncJob; Items : list EnterpriseEmployee }.

Record SyncRequestRecord := mkSyncRecord {
  rrRequestID : string; rrTenantID : string; rrConnectorID : string; rrRawPayloadRef : string; Result : SyncResult;
  AccessApplied : bool; AccessCreated : Z; AccessUpdated : Z; AccessRejected : Z; AccessAttemptCount : Z;
  LastAccessError : string; LastAccessAttemptAt : option Z; rrCreatedAt : Z
}.
#[export] Instance eta_SyncRequestRecord : Eta SyncRequestRecord := λ r,
  mkSyncRecord (rrRequestID r) (rrTenantID r) (rrConnectorID r) (rrRawPayloadRef r) (Result r) (AccessApplied r)
    (AccessCreated r) (AccessUpdated r) (AccessRejected r) (AccessAttemptCount r) (LastAccessError r)
    (LastAccessAttemptAt r) (rrCreatedAt r).

Record AuthStateToken := mkStateToken {
  atToken : string; atTenantID : string; atProvider : string; atEmail : string; RedirectURI : string;
  atNonce : string; atCreatedAt : Z; atExpiresAt : Z
}.

(** The core document. *)
Record stateSnapshot := mkCore {
  domainMappings : list DomainMapping; hrisConnectors : list HRISConnector; idpConfigs : gmap string IDPConfig;
  employees : list EnterpriseEmployee; syncJobs : list SyncJob; syncRequestRecords : gmap string SyncRequestRecord;
  jitProvisionApprovals : list JITProvisionApproval
}.
#[export] Instance eta_core : Eta stateSnapshot := λ c,
  mkCore (domainMappings c) (hrisConnectors c) (idpConfigs c) (employees c) (syncJobs c) (syncRequestRecords c)
    (jitProvisionApprovals c).
Record CoreStore := mkCoreStore { replies : list bool; storedCore : option stateSnapshot }.

Record Directory := mkDirectory {
  core : stateSnapshot; authStateTokens : gmap string AuthStateToken; consumedSAMLAssertions : gmap string Z;
  coreStore : option CoreStore; dirEntropy : list bytes
}.
#[export] Instance eta_Directory : Eta Directory := λ s,
  mkDirectory (core s) (authStateTokens s) (consumedSAMLAssertions s) (coreStore s) (dirEntropy s).

Abbreviation m := (op Directory enterprise_err).
Abbreviation to_core f := (modify (λ s, s <| core ::= f |>)).

(** [rand.Read] of six bytes, after a prefix *)
Definition randomID (prefix : string) : m string := λ s,
  match dirEntropy s with
  | [] => (s, Err ErrRandom)
  | c :: cs => (s <| dirEntropy := cs |>, if (length c =? 6)%nat then Ok (prefix +:+ hex_encode c) else Err ErrRandom)
  end.

Definition persistLocked : m unit := λ s,
  match coreStore s with
  | None => (s, Ok tt)
  | Some st =>
      match replies st with
      | false :: rs => (s <| coreStore := Some (mkCoreStore rs (storedCore st)) |>, Err ErrSave)
      | rs => (s <| coreStore := Some (mkCoreStore (tail rs) (Some (core s))) |>, Ok tt)
      end
  end.

(** ** Normalisation *)

(** [switch strings.ToLower(strings.TrimSpace(v)) { case ...: }] *)
Definition choose {A} (v : string) (cases : list (list string * A)) (otherwise : A) : A :=
  match findi (λ c, existsb (String.eqb (ToLower (TrimSpace v))) c.1) cases with Some (_, c) => c.2 | None => otherwise end.
Definition same_names (names : list string) : list (list string * result enterprise_err string) :=
  (λ n, ([n], Ok n)) <$> names.

Definition normalizeEmail (input : string) : string := ToLower (TrimSpace input).
Definition normalizeDomain (input : string) : result enterprise_err string :=
  let domain := TrimPrefix (ToLower (TrimSpace input)) "@" in
  if is_empty domain then Err ErrDomainRequired
  else if Contains domain "://" || Contains domain "/" || Contains domain " " then Err ErrInvalidDomain
  else if negb (Contains domain ".") then Err ErrInvalidDomain
  else Ok domain.
Definition emailDomain (email : string) : result enterprise_err string :=
  match Split email "@" with [_; domain] => normalizeDomain domain | _ => Err ErrInvalidDomain end.

(** A domain is covered by a mapped domain when it is that domain or below it. *)
Definition domainMatches (actualDomain mappedDomain : string) : bool :=
  let nextActual := ToLower (TrimSpace actualDomain) in
  let nextMapped := ToLower (TrimSpace mappedDomain) in
  if is_empty nextActual || is_empty nextMapped then false
  else String.eqb nextActual nextMapped || HasSuffix nextActual ("." +:+ nextMapped).

Definition hasActiveDomainForTenant (items : list DomainMapping) (tenantID : string) : bool :=
  let nextTenantID := TrimSpace tenantID in
  negb (is_empty nextTenantID)
  && existsb' (λ d, String.eqb (dmTenantID d) nextTenantID && String.eqb (dmStatus d) "active") items.
Definition activeDomainsForTenant (items : list DomainMapping) (tenantID : string) : gset string :=
  let nextTenantID := TrimSpace tenantID in
  if is_empty nextTenantID then ∅
  else list_to_set (dmDomain <$>
         filterb (λ d, String.eqb (dmTenantID d) nextTenantID && String.eqb (dmStatus d) "active") items).
Definition domainMatchesAny (domain : string) (patterns : gset string) : bool :=
  existsb' (domainMatches domain) (elements patterns).

Definition normalizeDomainMappingStatus (input : string) : result enterprise_err string :=
  choose input [(["";"active"], Ok "active"); (["inactive"], Ok "inactive")] (Err ErrInvalidDomainMappingStatus).
Definition normalizeHRISConnectorVendor (input : string) : result enterprise_err string :=
  choose input (same_names ["talenta";"gadjian";"greatday";"linovhr";"sunfish"]) (Err ErrInvalidHRISConnectorVendor).
Definition normalizeHRISConnectorStatus (input : string) : result enterprise_err string :=
  choose input [(["";"active"], Ok "active"); (["inactive"], Ok "inactive")] (Err ErrInvalidHRISConnectorStatus).
Definition normalizeHRISConnectorSyncStrategy (input : string) : result enterprise_err string :=
  choose input [(["";"hybrid"], Ok "hybrid"); (["webhook"], Ok "webhook"); (["pull"], Ok "pull")]
    (Err ErrInvalidHRISConnectorSyncStrategy).
Definition normalizeProvider (input : string) : result enterprise_err string :=
  choose input (same_names ["oidc";"saml"]) (Err ErrInvalidIDPProvider).
Definition normalizeIDPStatus (input : string) : result enterprise_err string :=
  choose input [(["";"active"], Ok "active"); (["inactive"], Ok "inactive")] (Err ErrInvalidIDPStatus).
Definition normalizeSyncMode (input : string) : string :=
  choose input [(["scheduled"], "scheduled"); (["manual"], "manual")] "jit".
Definition normalizeJITProvisionApprovalDecision (input : string) : result enterprise_err string :=
  choose input (same_names ["approved";"rejected"]) (Err ErrInvalidJITProvisionApprovalDecision).
Definition normalizeJITProvisionApprovalExternalSyncStatus (input : string) : result enterprise_err string :=
  choose input (same_names ["synced";"failed"]) (Err ErrInvalidJITProvisionApprovalExternalSyncStatus).

Definition allowedSyncSources : list string :=
  ["csv_import";"hris";"hris_import";"hris_talenta";"hris_gadjian";"hris_greatday";"hris_linovhr";"hris_sunfish";
   "jit_provision";"manual";"manual_sync";"scim";"scim_sync";"seed"].
Definition normalizeSyncSource (input : string) : result enterprise_err string :=
  let next := ToLower (TrimSpace input) in
  if is_empty next then Ok "manual_sync"
  else if existsb (String.eqb next) allowedSyncSources then Ok next else Err ErrInvalidSyncSource.

Definition blocking : list string := ["inactive";"terminated";"disabled";"suspended";"deprovisioned"].
Definition NormalizeEmploymentStatus (input : string) : string :=
  choose input [(["true";"1";"yes";"y"], "active"); (["false";"0";"no";"n"], "inactive")] (ToLower (TrimSpace input)).
Definition EmploymentStatusBlocksSession (status : string) : bool :=
  existsb (String.eqb (NormalizeEmploymentStatus status)) blocking.
Definition normalizeEmployeeStatus (input : string) : string :=
  if EmploymentStatusBlocksSession input then "inactive" else "active".

(** Blanks and repetitions are dropped; [seen] is the set of the loop. *)
Fixpoint scopes_from (seen input : list string) : list string :=
  match input with
  | [] => []
  | x :: input' =>
      let next := ToLower (TrimSpace x) in
      if is_empty next || existsb (String.eqb next) seen then scopes_from seen input'
      else next :: scopes_from (next :: seen) input'
  end.
Definition normalizeScopes (input : list string) : list string := scopes_from [] input.

(** The digits, with a plus in front of them if one comes first. *)
Fixpoint phone_digits (s acc : string) : string :=
  match s with
  | EmptyString => acc
  | String ch s' =>
      phone_digits s' (if is_digit ch then acc +:+ String ch ""
                       else if Ascii.eqb ch "+" && is_empty acc then acc +:+ String ch "" else acc)
  end.
Definition normalizeEmployeePhone (input : string) : string :=
  let next := TrimSpace input in
  if is_empty next then ""
  else
    let normalized := phone_digits next "" in
    if is_empty normalized || String.eqb normalized "+" then next
    else if HasPrefix normalized "00" then "+" +:+ TrimPrefix normalized "00"
    else if HasPrefix normalized "+" then normalized
    else if HasPrefix normalized "62" && (10 <=? len normalized) then "+" +:+ normalized
    else next.

Definition chooseNonEmpty (primary fallback : string) : string :=
  if is_empty (TrimSpace primary) then TrimSpace fallback else TrimSpace primary.
Definition syncRequestRecordKey (tenantID requestID : string) : string :=
  let nextTenantID := TrimSpace tenantID in
  let nextRequestID := TrimSpace requestID in
  if is_empty nextTenantID || is_empty nextRequestID then "" else nextTenantID +:+ ":" +:+ nextRequestID.
Definition looksLikeHTTPSURL (input : string) : bool := HasPrefix (ToLower (TrimSpace input)) "https://".
Definition looksLikeAllowedRedirectURI (input : string) : bool :=
  let next := ToLower (TrimSpace input) in HasPrefix next "https://" || HasPrefix next "http://localhost".
Definition hasDirectorySnapshotPrioritySource (source : string) : bool :=
  let next := ToLower (TrimSpace source) in Contains next "scim" || Contains next "hris".

(** ** The access an employee gets *)

Definition containsAny (input : string) (terms : list string) : bool :=
  existsb (λ t, Contains input (ToLower (TrimSpace t))) terms.
Definition templateGroupIDs (tenantID role : string) : list string :=
  let nextRole := TrimSpace role in
  let suffix := if String.eqb (TrimSpace tenantID) "tenant_demo_factory" then "_fct" else "_jkt" in
  [(if String.eqb nextRole "operator" then "ug_security"
    else if String.eqb nextRole "building_admin" then "ug_building_ops"
    else if String.eqb nextRole "tenant_admin" then "ug_tenant_admin" else "ug_common_office") +:+ suffix].
(** The role, the building and the groups. *)
Definition assignAccessTemplate (tenantID department jobTitle location : string) : string * string * list string :=
  let dept := ToLower (TrimSpace department) in
  let title := ToLower (TrimSpace jobTitle) in
  let loc := ToLower (TrimSpace location) in
  let tags := Join [dept; title] " " in
  let role :=
    if containsAny tags ["security";"satpam";"guard";"hse";"safety"] then "operator"
    else if containsAny tags ["facility";"engineering";"building";"maintenance";"teknisi"] then "building_admin"
    else if containsAny tags ["it";"identity";"admin";"hris";"iam"] then "tenant_admin" else "resident" in
  let buildingID := if String.eqb (TrimSpace tenantID) "tenant_demo_factory" then "building_demo_003" else "building_demo_001" in
  let buildingID := if containsAny loc ["factory";"pabrik";"bandung";"bekasi"] then "building_demo_003" else buildingID in
  let buildingID := if containsAny loc ["jakarta";"jkt";"sudirman"] then "building_demo_001" else buildingID in
  (role, buildingID, templateGroupIDs (TrimSpace tenantID) role).

(** ** The store *)

(** [restoreCoreStateLocked]: the copies of a slice are the slice. *)
Definition restoreCoreStateLocked (snapshot : stateSnapshot) (s : Directory) : Directory := s <| core := snapshot |>.
(** [restoreFromStateStore] as far as the core document goes: it is taken over, or written
    when there is none.  [load_fails] is an error of [Load]. *)
Definition restoreFromStateStore (load_fails : bool) : m unit :=
  st ← gets coreStore;
  match st with
  | None => mret tt
  | Some st =>
      fail_if load_fails ErrSave;;
      match storedCore st with
      | None => persistLocked
      | Some snapshot => modify (restoreCoreStateLocked snapshot)
      end
  end.
(** [refreshCoreStateLocked], which leaves the tables when there is no document. *)
Definition RefreshCoreState (load_fails : bool) : m unit :=
  st ← gets coreStore;
  match st with
  | None => mret tt
  | Some st =>
      fail_if load_fails ErrSave;;
      modify (λ s, match storedCore st with None => s | Some snapshot => restoreCoreStateLocked snapshot s end)
  end.

(** ** Domain mappings *)

Definition ListDomainMappings (tenantID : string) (s : Directory) : list DomainMapping :=
  filterb (λ d, is_empty (TrimSpace tenantID) || String.eqb (dmTenantID d) (TrimSpace tenantID)) (domainMappings (core s)).

Definition CreateDomainMapping (now : Z) (tenantID domain status : string) : m DomainMapping :=
  let nextTenantID := TrimSpace tenantID in
  fail_if (is_empty nextTenantID) ErrTenantIDRequired;;
  nextDomain ← lift (normalizeDomain domain);
  nextStatus ← lift (normalizeDomainMappingStatus status);
  taken ← gets (λ s, existsb' (λ d, String.eqb (dmDomain d) nextDomain) (domainMappings (core s)));
  fail_if taken ErrDomainAlreadyMapped;;
  id ← randomID "dm_";
  let record := mkDomainMapping id nextTenantID nextDomain nextStatus now now in
  to_core (λ c, c <| domainMappings ::= cons record |>);;
  persistLocked;; mret record.

Definition UpdateDomainMappingStatus (now : Z) (tenantID mappingID status : string) : m DomainMapping :=
  let nextMappingID := TrimSpace mappingID in
  fail_if (is_empty nextMappingID) ErrDomainMappingNotFound;;
  nextStatus ← lift (normalizeDomainMappingStatus status);
  let filterTenantID := TrimSpace tenantID in
  found ← gets (λ s, findi (λ d, String.eqb (dmID d) nextMappingID) (domainMappings (core s)));
  match found with
  | None => throw ErrDomainMappingNotFound
  | Some (i, d) =>
      fail_if (negb (is_empty filterTenantID) && negb (String.eqb (dmTenantID d) filterTenantID)) ErrDomainMappingNotFound;;
      let d := d <| dmStatus := nextStatus |> <| dmUpdatedAt := now |> in
      to_core (λ c, c <| domainMappings ::= <[i := d]> |>);;
      persistLocked;; mret d
  end.

(** The longest mapped domain that covers that of the address, and its tenant; the first
    among equally long ones. *)
Definition better (domain : string) (best : string * string) (d : DomainMapping) : string * string :=
  if negb (String.eqb (dmStatus d) "active") || negb (domainMatches domain (dmDomain d))
     || (len (dmDomain d) <=? len best.2) then best
  else (dmTenantID d, dmDomain d).
Definition ResolveTenantByEmail (email : string) (s : Directory) : result enterprise_err TenantResolution :=
  let nextEmail := normalizeEmail email in
  if is_empty nextEmail then Err ErrEmailRequired
  else match emailDomain nextEmail with
       | Err e => Err e
       | Ok domain =>
           let bestTenantID := (foldl (better domain) ("", "") (domainMappings (core s))).1 in
           if is_empty bestTenantID then Err ErrDomainNotMapped
           else Ok (mkResolution nextEmail domain bestTenantID true)
       end.

(** ** Identity providers *)

Definition GetIDPConfig (tenantID : string) (s : Directory) : result enterprise_err IDPConfig :=
  let nextTenantID := TrimSpace tenantID in
  if is_empty nextTenantID then Err ErrTenantIDRequired
  else match idpConfigs (core s) !! nextTenantID with Some config => Ok config | None => Err ErrIDPConfigNotFound end.

Definition UpsertIDPConfig (now : Z)
    (tenantID provider issuerURL clientID authURL tokenURL jwksURL userInfoURL samlACSURL samlX509Cert status
     syncMode actor : string) (scopes : list string) : m IDPConfig :=
  let nextTenantID := TrimSpace tenantID in
  fail_if (is_empty nextTenantID) ErrTenantIDRequired;;
  nextProvider ← lift (normalizeProvider provider);
  fail_if (is_empty (TrimSpace issuerURL)) ErrIssuerURLRequired;;
  fail_if (is_empty (TrimSpace clientID)) ErrClientIDRequired;;
  let nextSAMLACSURL := chooseNonEmpty samlACSURL authURL in
  let nextSAMLX509Cert := TrimSpace samlX509Cert in
  let saml := String.eqb nextProvider "saml" in
  fail_if (saml && is_empty nextSAMLACSURL) ErrSAMLACSURLRequired;;
  fail_if (saml && negb (looksLikeHTTPSURL nextSAMLACSURL)) ErrInvalidSAMLACSURL;;
  fail_if (saml && is_empty nextSAMLX509Cert) ErrSAMLX509CertRequired;;
  nextStatus ← lift (normalizeIDPStatus status);
  current ← gets (λ s, idpConfigs (core s) !! nextTenantID);
  let createdAt := match current with Some c => idpCreatedAt c | None => now end in
  let configID := match current with Some c => idpID c | None => "" end in
  configID ← if is_empty configID then randomID "idp_" else mret configID;
  let record := mkIDPConfig configID nextTenantID nextProvider (TrimSpace issuerURL) (TrimSpace clientID) (TrimSpace authURL)
    (TrimSpace tokenURL) (TrimSpace jwksURL) (TrimSpace userInfoURL) nextSAMLACSURL nextSAMLX509Cert
    (normalizeScopes scopes) nextStatus (normalizeSyncMode syncMode)
    (if is_empty (TrimSpace actor) then "system" else TrimSpace actor) createdAt now in
  to_core (λ c, c <| idpConfigs ::= <[nextTenantID := record]> |>);;
  persistLocked;; mret record.

(** The remarks on a configuration; the certificate check is that of [normalizeSAMLX509Certificate]. *)
Definition remark (bad : bool) (field wrong right : string) : IDPConfigValidationItem :=
  if bad then mkValidationItem field "error" wrong else mkValidationItem field "ok" right.
Definition url_remark (field url : string) : list IDPConfigValidationItem :=
  if is_empty (TrimSpace url) then []
  else [remark (negb (looksLikeHTTPSURL url)) field (field +:+ " must use https://") (field +:+ " format is valid")].
Definition ValidateIDPConfig (cert_error : string → option string) (now : Z)
    (tenantID provider issuerURL clientID authURL tokenURL jwksURL userInfoURL samlACSURL samlX509Cert : string)
    (s : Directory) : IDPConfigValidation :=
  let nextTenantID := TrimSpace tenantID in
  let nextProvider := ToLower (TrimSpace provider) in
  let fallback := is_empty (TrimSpace samlACSURL) && negb (is_empty (TrimSpace authURL)) in
  let nextSAMLACSURL := chooseNonEmpty samlACSURL authURL in
  let items :=
    [remark (is_empty nextTenantID) "tenant_id" "tenant_id is required" "tenant_id looks good";
     remark (negb (is_ok (normalizeProvider nextProvider))) "provider" "invalid idp provider" "provider is supported";
     (if is_empty (TrimSpace issuerURL) then mkValidationItem "issuer_url" "error" "issuer_url is required"
      else remark (negb (looksLikeHTTPSURL issuerURL)) "issuer_url" "issuer_url must use https://" "issuer_url format is valid");
     remark (is_empty (TrimSpace clientID)) "client_id" "client_id is required" "client_id looks good"]
    ++ url_remark "auth_url" authURL ++ url_remark "token_url" tokenURL ++ url_remark "jwks_url" jwksURL
    ++ url_remark "user_info_url" userInfoURL
    ++ (if fallback then [mkValidationItem "saml_acs_url" "warn" "fallback to auth_url for saml_acs_url"] else [])
    ++ (if String.eqb nextProvider "saml"
        then [(if is_empty nextSAMLACSURL
               then mkValidationItem "saml_acs_url" "error" "saml_acs_url is required for saml provider"
               else remark (negb (looksLikeHTTPSURL nextSAMLACSURL)) "saml_acs_url" "saml_acs_url must use https://"
                      "saml_acs_url format is valid");
              (if is_empty (TrimSpace samlX509Cert)
               then mkValidationItem "saml_x509_cert" "error" "saml_x509_cert is required for saml provider"
               else match cert_error (TrimSpace samlX509Cert) with
                    | Some e => mkValidationItem "saml_x509_cert" "error" e
                    | None => mkValidationItem "saml_x509_cert" "ok" "saml_x509_cert is valid"
                    end)]
        else [])
    ++ [(if hasActiveDomainForTenant (domainMappings (core s)) nextTenantID
         then mkValidationItem "domain_mapping" "ok" "active domain mapping exists"
         else mkValidationItem "domain_mapping" "warn" "no active domain mapping for tenant")] in
  mkValidation nextTenantID nextProvider (negb (existsb' (λ i, String.eqb (viStatus i) "error") items)) items now.

(** ** HRIS connectors (modules/enterprise/service_hris.go) *)

Definition newer_connector (a b : HRISConnector) : bool :=
  if hcUpdatedAt a =? hcUpdatedAt b then String.ltb (hcID b) (hcID a) else After (hcUpdatedAt a) (hcUpdatedAt b).
Definition ListHRISConnectors (tenantID : string) (s : Directory) : list HRISConnector :=
  sort_by newer_connector
    (filterb (λ c, is_empty (TrimSpace tenantID) || String.eqb (TrimSpace (hcTenantID c)) (TrimSpace tenantID))
       (hrisConnectors (core s))).

Definition has_connector_id (connectorID : string) (c : HRISConnector) : bool := String.eqb (TrimSpace (hcID c)) connectorID.
(** The first connector of the id, which has to be the tenant's. *)
Definition look_connector (tenantID connectorID : string) : m (nat * HRISConnector) :=
  found ← gets (λ s, findi (has_connector_id connectorID) (hrisConnectors (core s)));
  match found with
  | None => throw ErrHRISConnectorNotFound
  | Some (i, c) =>
      fail_if (negb (String.eqb (TrimSpace (hcTenantID c)) tenantID)) ErrHRISConnectorNotFound;; mret (i, c)
  end.
Definition named_connector (tenantID connectorID : string) : m (string * string) :=
  fail_if (is_empty (TrimSpace tenantID)) ErrTenantIDRequired;;
  fail_if (is_empty (TrimSpace connectorID)) ErrHRISConnectorNotFound;;
  mret (TrimSpace tenantID, TrimSpace connectorID).
Definition put_connector (i : nat) (c : HRISConnector) : m HRISConnector :=
  to_core (λ k, k <| hrisConnectors ::= <[i := c]> |>);; persistLocked;; mret c.

Definition GetHRISConnector (tenantID connectorID : string) : m HRISConnector :=
  '(tenantID, connectorID) ← named_connector tenantID connectorID;
  '(_, c) ← look_connector tenantID connectorID; mret c.
Definition GetHRISConnectorByID (connectorID : string) (s : Directory) : result enterprise_err HRISConnector :=
  if is_empty (TrimSpace connectorID) then Err ErrHRISConnectorNotFound
  else match findi (has_connector_id (TrimSpace connectorID)) (hrisConnectors (core s)) with
       | Some (_, c) => Ok c | None => Err ErrHRISConnectorNotFound end.

Definition actor_or_system (actor : string) : string := if is_empty (TrimSpace actor) then "system" else TrimSpace actor.
Definition CreateHRISConnector (now : Z)
    (tenantID vendor status syncStrategy credentialRef webhookSecretRef updatedBy : string) : m HRISConnector :=
  let nextTenantID := TrimSpace tenantID in
  fail_if (is_empty nextTenantID) ErrTenantIDRequired;;
  nextVendor ← lift (normalizeHRISConnectorVendor vendor);
  nextStatus ← lift (normalizeHRISConnectorStatus status);
  nextSyncStrategy ← lift (normalizeHRISConnectorSyncStrategy syncStrategy);
  taken ← gets (λ s, existsb' (λ c, String.eqb (TrimSpace (hcTenantID c)) nextTenantID
                                    && String.eqb (TrimSpace (hcVendor c)) nextVendor) (hrisConnectors (core s)));
  fail_if taken ErrHRISConnectorAlreadyExists;;
  connectorID ← randomID "hrc_";
  let record := mkConnector connectorID nextTenantID nextVendor nextStatus nextSyncStrategy (TrimSpace credentialRef)
    (TrimSpace webhookSecretRef) None (actor_or_system updatedBy) now now in
  to_core (λ c, c <| hrisConnectors ::= cons record |>);;
  persistLocked;; mret record.

(** A field that is left blank keeps its value. *)
Definition given_or (given : string) (normalize : string → result enterprise_err string) : result enterprise_err string :=
  if is_empty (TrimSpace given) then Ok "" else normalize given.
Definition or_keep (next current : string) : string := if is_empty next then current else next.
Definition UpdateHRISConnector (now : Z)
    (tenantID connectorID status syncStrategy credentialRef webhookSecretRef updatedBy : string) : m HRISConnector :=
  '(tenantID, connectorID) ← named_connector tenantID connectorID;
  nextStatus ← lift (given_or status normalizeHRISConnectorStatus);
  nextSyncStrategy ← lift (given_or syncStrategy normalizeHRISConnectorSyncStrategy);
  '(i, c) ← look_connector tenantID connectorID;
  put_connector i (c <| hcStatus ::= or_keep nextStatus |> <| hcSyncStrategy ::= or_keep nextSyncStrategy |>
                     <| hcCredentialRef ::= or_keep (TrimSpace credentialRef) |>
                     <| hcWebhookSecretRef ::= or_keep (TrimSpace webhookSecretRef) |>
                     <| hcUpdatedBy := actor_or_system updatedBy |> <| hcUpdatedAt := now |>).
Definition MarkHRISConnectorSynced (now : Z) (tenantID connectorID : string) (syncedAt : Z) : m HRISConnector :=
  '(tenantID, connectorID) ← named_connector tenantID connectorID;
  let now := if IsZero syncedAt then now else syncedAt in
  '(i, c) ← look_connector tenantID connectorID;
  put_connector i (c <| hcLastSyncAt := Some now |> <| hcUpdatedAt := now |>).
