(* ===== verification/Jit.v ===== *)
(** * Employees at sign-in (modules/enterprise/service_employees.go, the first half; the
      assertions of saml.go)

    A user the identity provider vouches for is matched with an employee of the tenant,
    or becomes one, perhaps after an approval.  A sign-in is tied to its start by a state
    token that can be used once, and an assertion of a SAML provider counts once. *)

From S2P Require Import Cas Prelude GoStrings GoTime Bytes GoText Directory.
#[local] Open Scope string_scope.
#[local] Open Scope list_scope.
#[local] Open Scope Z_scope.

(** ** Employees *)

Definition of_tenant (tenantID : string) (e : EnterpriseEmployee) : bool := String.eqb (TrimSpace (emTenantID e)) tenantID.

Definition ListEmployees (tenantID : string) (s : Directory) : list EnterpriseEmployee :=
  filterb (λ e, is_empty (TrimSpace tenantID) || String.eqb (emTenantID e) (TrimSpace tenantID)) (employees (core s)).

(** The active employee of that address that was synchronised last, the first among equals. *)
Definition fresher_employee (tenantID email : string) (best : option EnterpriseEmployee) (e : EnterpriseEmployee) :
    option EnterpriseEmployee :=
  if of_tenant tenantID e && String.eqb (normalizeEmail (emEmail e)) email
     && String.eqb (normalizeEmployeeStatus (emStatus e)) "active"
     && match best with Some b => After (LastSyncedAt e) (LastSyncedAt b) | None => true end
  then Some e else best.
Definition GetEmployeeByEmail (tenantID email : string) (s : Directory) : result enterprise_err EnterpriseEmployee :=
  if is_empty (TrimSpace tenantID) then Err ErrTenantIDRequired
  else if is_empty (normalizeEmail email) then Err ErrEmailRequired
  else match foldl (fresher_employee (TrimSpace tenantID) (normalizeEmail email)) None (employees (core s)) with
       | Some e => Ok e
       | None => Err ErrEmployeeNotFound
       end.

(** The employee of the external id, otherwise the first of the address. *)
Definition has_external (tenantID externalID : string) (e : EnterpriseEmployee) : bool :=
  of_tenant tenantID e && negb (is_empty externalID) && String.eqb (TrimSpace (ExternalID e)) externalID.
Definition has_address (tenantID email : string) (e : EnterpriseEmployee) : bool :=
  of_tenant tenantID e && String.eqb (normalizeEmail (emEmail e)) email.
Definition findJITEmployeeMatchIndexLocked (items : list EnterpriseEmployee) (tenantID email externalID : string) :
    option (nat * EnterpriseEmployee) :=
  match findi (has_external (TrimSpace tenantID) (TrimSpace externalID)) items with
  | Some r => Some r
  | None => findi (has_address (TrimSpace tenantID) (normalizeEmail email)) items
  end.

(** The tenant, the address and the domain of a sign-in, whose domain the tenant has claimed. *)
Definition signin_identity (tenantID email : string) : result enterprise_err (string * string * string) :=
  let nextTenantID := TrimSpace tenantID in
  let nextEmail := normalizeEmail email in
  if is_empty nextTenantID then Err ErrTenantIDRequired
  else if is_empty nextEmail then Err ErrEmailRequired
  else domain ← emailDomain nextEmail; Ok (nextTenantID, nextEmail, domain).
Definition claimed (tenantID domain : string) (s : Directory) : bool :=
  domainMatchesAny domain (activeDomainsForTenant (domainMappings (core s)) tenantID).

(** An employee who may sign in, under that external id. *)
Definition may_sign_in (externalID : string) (e : EnterpriseEmployee) : result enterprise_err unit :=
  if negb (String.eqb (normalizeEmployeeStatus (emStatus e)) "active") || EmploymentStatusBlocksSession (EmploymentStatus e)
  then Err ErrEmployeeInactive
  else if negb (is_empty externalID) && negb (is_empty (TrimSpace (ExternalID e)))
          && negb (String.eqb (TrimSpace (ExternalID e)) externalID)
  then Err ErrEmployeeExternalIDConflict
  else Ok tt.

Definition HasActiveJITEmployeeIdentity (tenantID email externalID : string) : m bool :=
  '(nextTenantID, nextEmail, domain) ← lift (signin_identity tenantID email);
  let nextExternalID := TrimSpace externalID in
  ok ← gets (claimed nextTenantID domain);
  fail_if (negb ok) ErrEmployeeEmailDomainMismatch;;
  target ← gets (λ s, findJITEmployeeMatchIndexLocked (employees (core s)) nextTenantID nextEmail nextExternalID);
  match target with
  | None => mret false
  | Some (_, current) => lift (may_sign_in nextExternalID current);; mret true
  end.

(** ** Approvals *)

(** The approvals of the address, in a state, that do not name another external id. *)
Definition approval_for (tenantID email externalID status : string) (a : JITProvisionApproval) : bool :=
  String.eqb (TrimSpace (apTenantID a)) tenantID && String.eqb (normalizeEmail (apEmail a)) email
  && String.eqb (TrimSpace (apStatus a)) status
  && negb (negb (is_empty externalID) && negb (is_empty (TrimSpace (apExternalID a)))
           && negb (String.eqb (TrimSpace (apExternalID a)) externalID)).
Definition put_approval (i : nat) (a : JITProvisionApproval) : m JITProvisionApproval :=
  to_core (λ c, c <| jitProvisionApprovals ::= <[i := a]> |>);; persistLocked;; mret a.

Definition UpsertJITProvisionApprovalRequest (now : Z) (tenantID email externalID provider employmentStatus : string) :
    m JITProvisionApproval :=
  '(nextTenantID, nextEmail, domain) ← lift (signin_identity tenantID email);
  let nextExternalID := TrimSpace externalID in
  let nextProvider := ToLower (TrimSpace provider) in
  let nextEmploymentStatus := NormalizeEmploymentStatus employmentStatus in
  ok ← gets (claimed nextTenantID domain);
  fail_if (negb ok) ErrEmployeeEmailDomainMismatch;;
  found ← gets (λ s, findi (approval_for nextTenantID nextEmail nextExternalID "pending") (jitProvisionApprovals (core s)));
  match found with
  | Some (i, a) =>
      put_approval i (a <| apExternalID ::= chooseNonEmpty nextExternalID |> <| apProvider ::= chooseNonEmpty nextProvider |>
                        <| apEmploymentStatus ::= chooseNonEmpty nextEmploymentStatus |> <| apUpdatedAt := now |>)
  | None =>
      approvalID ← randomID "jap_";
      let record := mkApproval approvalID nextTenantID nextEmail nextExternalID nextProvider nextEmploymentStatus "pending"
        "" "" "" 0 "" None "" None now now in
      to_core (λ c, c <| jitProvisionApprovals ::= cons record |>);;
      persistLocked;; mret record
  end.

Definition HasApprovedJITProvisionApproval (tenantID email externalID : string) : m bool :=
  fail_if (is_empty (TrimSpace tenantID)) ErrTenantIDRequired;;
  fail_if (is_empty (normalizeEmail email)) ErrEmailRequired;;
  gets (λ s, existsb' (approval_for (TrimSpace tenantID) (normalizeEmail email) (TrimSpace externalID) "approved")
               (jitProvisionApprovals (core s))).

Definition newer_approval (a b : JITProvisionApproval) : bool :=
  if apUpdatedAt a =? apUpdatedAt b then String.ltb (apID b) (apID a) else After (apUpdatedAt a) (apUpdatedAt b).
(** [items[:limit]] when the limit is positive. *)
Definition limited {A} (limit : Z) (l : list A) : list A := if 0 <? limit then take (Z.to_nat limit) l else l.
Definition approval_of (tenantID : string) (a : JITProvisionApproval) : bool :=
  is_empty (TrimSpace tenantID) || String.eqb (TrimSpace (apTenantID a)) (TrimSpace tenantID).
Definition ListJITProvisionApprovals (tenantID status : string) (limit : Z) (s : Directory) : list JITProvisionApproval :=
  let filterStatus := ToLower (TrimSpace status) in
  limited limit (sort_by newer_approval
    (filterb (λ a, approval_of tenantID a
                   && (is_empty filterStatus || String.eqb (ToLower (TrimSpace (apStatus a))) filterStatus))
       (jitProvisionApprovals (core s)))).
Definition ListPendingJITProvisionApprovalExternalSync (tenantID : string) (limit : Z) (s : Directory) : list JITProvisionApproval :=
  limited limit (sort_by newer_approval
    (filterb (λ a, approval_of tenantID a
                   && (String.eqb (TrimSpace (apStatus a)) "approved" || String.eqb (TrimSpace (apStatus a)) "rejected")
                   && String.eqb (TrimSpace (ExternalSyncStatus a)) "pending") (jitProvisionApprovals (core s)))).

Definition look_approval (tenantID approvalID : string) : m (nat * JITProvisionApproval) :=
  found ← gets (λ s, findi (λ a, String.eqb (TrimSpace (apID a)) approvalID) (jitProvisionApprovals (core s)));
  match found with
  | None => throw ErrJITProvisionApprovalNotFound
  | Some (i, a) =>
      fail_if (negb (String.eqb (TrimSpace (apTenantID a)) tenantID)) ErrJITProvisionApprovalNotFound;; mret (i, a)
  end.
Definition ReviewJITProvisionApproval (now : Z) (tenantID approvalID decision reviewedBy reason : string) :
    m JITProvisionApproval :=
  fail_if (is_empty (TrimSpace tenantID)) ErrTenantIDRequired;;
  fail_if (is_empty (TrimSpace approvalID)) ErrJITProvisionApprovalNotFound;;
  nextDecision ← lift (normalizeJITProvisionApprovalDecision decision);
  '(i, a) ← look_approval (TrimSpace tenantID) (TrimSpace approvalID);
  put_approval i (a <| apStatus := nextDecision |> <| ReviewedBy := actor_or_system reviewedBy |>
                    <| apReason ::= chooseNonEmpty (TrimSpace reason) |> <| ExternalSyncStatus := "pending" |>
                    <| ExternalSyncLastError := "" |> <| ExternalSyncRef := "" |> <| ExternalSyncUpdatedAt := None |>
                    <| apUpdatedAt := now |> <| ReviewedAt := Some now |>).
Definition UpdateJITProvisionApprovalExternalSync (now : Z) (tenantID approvalID status externalSyncRef lastError : string) :
    m JITProvisionApproval :=
  fail_if (is_empty (TrimSpace tenantID)) ErrTenantIDRequired;;
  fail_if (is_empty (TrimSpace approvalID)) ErrJITProvisionApprovalNotFound;;
  nextStatus ← lift (normalizeJITProvisionApprovalExternalSyncStatus status);
  '(i, a) ← look_approval (TrimSpace tenantID) (TrimSpace approvalID);
  let a := a <| ExternalSyncStatus := nextStatus |> <| ExternalSyncRef := TrimSpace externalSyncRef |>
             <| ExternalSyncUpdatedAt := Some now |> <| apUpdatedAt := now |> in
  put_approval i (if String.eqb nextStatus "synced" then a <| ExternalSyncLastError := "" |>
                  else a <| ExternalSyncAttemptCount ::= Z.add 1 |> <| ExternalSyncLastError := TrimSpace lastError |>).

(** ** Provisioning *)

(** A value of the profile replaces that of the directory unless the directory leads and has one. *)
Definition take_profile (lead : bool) (next current : string) : string :=
  if negb (is_empty next) && (negb lead || is_empty (TrimSpace current)) then next else current.

(** The employee after a sign-in with this profile; the template is assigned again when
    the department, the title or the place changes. *)
Definition refresh_employee (now : Z) (tenantID email externalID fullName department jobTitle location phone manager
    employmentStatus : string) (current : EnterpriseEmployee) : EnterpriseEmployee :=
  let lead := hasDirectorySnapshotPrioritySource (emSource current) in
  let name := if negb (is_empty fullName) then take_profile lead fullName (FullName current)
              else if is_empty (TrimSpace (FullName current)) then email else FullName current in
  let dep := take_profile lead department (Department current) in
  let title := take_profile lead jobTitle (JobTitle current) in
  let loc := take_profile lead location (emLocation current) in
  let profileChanged := negb (String.eqb dep (Department current)) || negb (String.eqb title (JobTitle current))
                        || negb (String.eqb loc (emLocation current)) in
  let status := take_profile lead employmentStatus (EmploymentStatus current) in
  let status := if is_empty (TrimSpace status) then "active" else status in
  let e := current
    <| ExternalID := (if is_empty externalID then ExternalID current else externalID) |> <| emEmail := email |>
    <| FullName := name |> <| Department := dep |> <| JobTitle := title |> <| emLocation := loc |>
    <| emPhone ::= take_profile lead phone |> <| ManagerExternalID ::= take_profile lead manager |>
    <| EmploymentStatus := status |> in
  let e := if is_empty (TrimSpace (AccessRole current)) || profileChanged
           then let '(role, buildingID, groupIDs) := assignAccessTemplate tenantID dep title loc in
                e <| AccessRole := role |> <| emBuildingID := buildingID |> <| emGroupIDs := groupIDs |>
           else e in
  let e := if is_empty (TrimSpace (emSource current)) || String.eqb (TrimSpace (emSource current)) "jit_provision"
           then e <| emSource := "jit_provision" |> else e in
  e <| emStatus := normalizeEmployeeStatus status |> <| LastSyncedAt := now |>.

Definition new_employee (now : Z) (id tenantID email externalID fullName department jobTitle location phone manager
    employmentStatus : string) : EnterpriseEmployee :=
  let '(role, buildingID, groupIDs) := assignAccessTemplate tenantID department jobTitle location in
  mkEmployee id tenantID (if is_empty externalID then "jit_email:" +:+ email else externalID) "" email
    (if is_empty fullName then email else fullName) department jobTitle location phone manager employmentStatus
    "" "" "" "" "" "" "" role buildingID groupIDs (normalizeEmployeeStatus employmentStatus) "jit_provision" now.

(** The employee, and whether it was created. *)
Definition ResolveOrProvisionJITEmployeeWithProfile (now : Z) (tenantID email externalID : string) (profile : JITProvisionProfile) :
    m (EnterpriseEmployee * bool) :=
  let nextTenantID := TrimSpace tenantID in
  fail_if (is_empty nextTenantID) ErrTenantIDRequired;;
  let nextEmail := normalizeEmail email in
  fail_if (is_empty nextEmail) ErrEmailRequired;;
  let nextExternalID := TrimSpace externalID in
  let fullName := TrimSpace (pfFullName profile) in
  let department := TrimSpace (pfDepartment profile) in
  let jobTitle := TrimSpace (pfJobTitle profile) in
  let location := TrimSpace (pfLocation profile) in
  let phone := normalizeEmployeePhone (pfPhone profile) in
  let manager := TrimSpace (pfManagerExternalID profile) in
  let employmentStatus := NormalizeEmploymentStatus (pfEmploymentStatus profile) in
  let employmentStatus := if is_empty employmentStatus then "active" else employmentStatus in
  fail_if (EmploymentStatusBlocksSession employmentStatus) ErrEmployeeInactive;;
  domain ← lift (emailDomain nextEmail);
  ok ← gets (claimed nextTenantID domain);
  fail_if (negb ok) ErrEmployeeEmailDomainMismatch;;
  target ← gets (λ s, findJITEmployeeMatchIndexLocked (employees (core s)) nextTenantID nextEmail nextExternalID);
  match target with
  | Some (i, current) =>
      lift (may_sign_in nextExternalID current);;
      let e := refresh_employee now nextTenantID nextEmail nextExternalID fullName department jobTitle location phone
                 manager employmentStatus current in
      fail_if (negb (String.eqb (normalizeEmployeeStatus (emStatus e)) "active")) ErrEmployeeInactive;;
      to_core (λ c, c <| employees ::= <[i := e]> |>);;
      persistLocked;; mret (e, false)
  | None =>
      employeeID ← randomID "emp_";
      let e := new_employee now employeeID nextTenantID nextEmail nextExternalID fullName department jobTitle location phone
                 manager employmentStatus in
      to_core (λ c, c <| employees ::= cons e |>);;
      persistLocked;; mret (e, true)
  end.
Definition ResolveOrProvisionJITEmployee (now : Z) (tenantID email externalID fullName department jobTitle location : string) :
    m (EnterpriseEmployee * bool) :=
  ResolveOrProvisionJITEmployeeWithProfile now tenantID email externalID
    (mkProfile fullName department jobTitle location "" "" "").

(** ** State tokens *)

Definition defaultAuthStateTokenTTL : Z := 5 * minute.
Definition live_token (now : Z) (t : AuthStateToken) : bool := After (atExpiresAt t) now.
Definition cleanupExpiredAuthStateTokensLocked (now : Z) (s : Directory) : Directory :=
  s <| authStateTokens ::= filter (λ e, live_token now e.2 = true) |>.

Definition StartAuthStateToken (now : Z) (tenantID provider email redirectURI : string) (ttl : Z) : m AuthStateToken :=
  let nextTenantID := TrimSpace tenantID in
  fail_if (is_empty nextTenantID) ErrTenantIDRequired;;
  nextProvider ← lift (normalizeProvider provider);
  let nextRedirectURI := TrimSpace redirectURI in
  fail_if (is_empty nextRedirectURI) ErrRedirectURIRequired;;
  fail_if (negb (looksLikeAllowedRedirectURI nextRedirectURI)) ErrInvalidRedirectURI;;
  let ttl := if ttl <=? 0 then defaultAuthStateTokenTTL else ttl in
  modify (cleanupExpiredAuthStateTokensLocked now);;
  tokenValue ← randomID "st_";
  nonceValue ← randomID "non_";
  let record := mkStateToken tokenValue nextTenantID nextProvider (normalizeEmail email) nextRedirectURI nonceValue now (now + ttl) in
  modify (λ s, s <| authStateTokens ::= <[tokenValue := record]> |>);;
  mret record.

Definition ConsumeAuthStateToken (now : Z) (token expectedProvider : string) : m AuthStateToken :=
  let nextToken := TrimSpace token in
  fail_if (is_empty nextToken) ErrAuthStateTokenRequired;;
  let nextExpectedProvider := ToLower (TrimSpace expectedProvider) in
  lift (if is_empty nextExpectedProvider then Ok "" else normalizeProvider nextExpectedProvider);;
  modify (cleanupExpiredAuthStateTokensLocked now);;
  found ← gets (λ s, authStateTokens s !! nextToken);
  match found with
  | None => throw ErrAuthStateTokenNotFound
  | Some record =>
      modify (λ s, s <| authStateTokens ::= delete nextToken |>);;
      fail_if (negb (is_empty nextExpectedProvider) && negb (String.eqb (atProvider record) nextExpectedProvider))
        ErrAuthStateProviderMismatch;;
      fail_if (negb (live_token now record)) ErrAuthStateTokenNotFound;;
      mret record
  end.

(** ** SAML assertions *)

Definition defaultSAMLAssertionReplayWindow : Z := 10 * minute.
(** Whether the assertion is used for the first time. *)
Definition markSAMLAssertionConsumed (now : Z) (assertionID : string) (expiresAt : Z) (s : Directory) : Directory * bool :=
  let id := TrimSpace assertionID in
  if is_empty id then (s, true)
  else
    let kept := filter (λ e, After e.2 now = true) (consumedSAMLAssertions s) in
    let s := s <| consumedSAMLAssertions := kept |> in
    if match kept !! id with Some exp => After exp now | None => false end then (s, false)
    else
      let expiresAt := if After expiresAt now then expiresAt else now + defaultSAMLAssertionReplayWindow in
      (s <| consumedSAMLAssertions ::= <[id := expiresAt]> |>, true).

(** ** Facts *)

Lemma claimed_by tn domain s :
  claimed tn domain s = true →
  ∃ d, d ∈ domainMappings (core s) ∧ dmTenantID d = TrimSpace tn ∧ dmStatus d = "active" ∧ domainMatches domain (dmDomain d) = true.
Proof.
  unfold claimed, domainMatchesAny, activeDomainsForTenant. intros (x & Hx & Hm)%existsb'_true. destruct (is_empty _); [by rewrite elements_empty, elem_of_nil in Hx|].
  apply elem_of_elements, elem_of_list_to_set, list_elem_of_fmap in Hx as (d & -> & Hd).
  apply elem_of_filterb in Hd as [Hd Hin]. boolp. by exists d.
Qed.

Section refresh.
Context (now : Z) (tn email ext name dep title loc phone manager status : string) (x : EnterpriseEmployee).
Let e := refresh_employee now tn email ext name dep title loc phone manager status x.
Lemma refresh_keeps : emID e = emID x ∧ emTenantID e = emTenantID x ∧ emEmail e = email.
Proof.
  unfold e, refresh_employee. destruct (assignAccessTemplate _ _ _ _) as [[? ?] ?].
  by destruct (is_empty (TrimSpace (AccessRole x)) || _), (is_empty (TrimSpace (emSource x)) || _).
Qed.
End refresh.
Lemma new_employee_is now id tn email ext name dep title loc phone manager status :
  let e := new_employee now id tn email ext name dep title loc phone manager status in
  emID e = id ∧ emTenantID e = tn ∧ emEmail e = email ∧ emStatus e = normalizeEmployeeStatus status.
Proof. unfold new_employee. by destruct (assignAccessTemplate _ _ _ _) as [[? ?] ?]. Qed.

Lemma normal_status v : normalizeEmployeeStatus v = "active" ∨ normalizeEmployeeStatus v = "inactive".
Proof. unfold normalizeEmployeeStatus. destruct (EmploymentStatusBlocksSession v); auto. Qed.

(** The employee of that external id, otherwise of that address, and none of either. *)
Lemma match_None es tn email ext x :
  findJITEmployeeMatchIndexLocked es tn email ext = None → x ∈ es →
  has_external (TrimSpace tn) (TrimSpace ext) x = false ∧ has_address (TrimSpace tn) (normalizeEmail email) x = false.
Proof.
  unfold findJITEmployeeMatchIndexLocked. destruct (findi _ es) as [?|] eqn:H1; [done|]. intros H2 Hx.
  rewrite findi_None in H1, H2. auto.
Qed.
Lemma match_Some es tn email ext i x :
  findJITEmployeeMatchIndexLocked es tn email ext = Some (i, x) →
  es !! i = Some x ∧ TrimSpace (emTenantID x) = TrimSpace tn
  ∧ (has_external (TrimSpace tn) (TrimSpace ext) x = true ∨ has_address (TrimSpace tn) (normalizeEmail email) x = true).
Proof.
  unfold findJITEmployeeMatchIndexLocked, has_external, has_address, of_tenant.
  destruct (findi _ es) as [[k y]|] eqn:H1; [intros [= -> ->]; rename H1 into H2|intros H2]; pose proof (findi_lookup _ _ _ _ H2) as Hl;
    apply findi_true in H2; rewrite H2; boolp; auto.
Qed.
Lemma persist_employees s s' r : persistLocked s = (s', r) → employees (core s') = employees (core s).
Proof. unfold persistLocked. destruct (coreStore s) as [[[|[] rs] st]|]; by intros [= <- _]. Qed.

(** A sign-in that is let in is of an address under a domain its tenant has claimed and
    that is active.  The employee it answers with is active, of the tenant, and has the
    address; it is the row that has the external id or the address, if there is one, and
    otherwise a new row; nothing else changes in the directory. *)
Lemma provision_spec now tenantID email externalID profile s s' e isNew :
  ResolveOrProvisionJITEmployeeWithProfile now tenantID email externalID profile s = (s', Ok (e, isNew)) →
  (∃ domain d, emailDomain (normalizeEmail email) = Ok domain ∧ d ∈ domainMappings (core s) ∧ dmTenantID d = TrimSpace tenantID
     ∧ dmStatus d = "active" ∧ domainMatches domain (dmDomain d) = true)
  ∧ normalizeEmployeeStatus (emStatus e) = "active" ∧ TrimSpace (emTenantID e) = TrimSpace tenantID ∧ emEmail e = normalizeEmail email
  ∧ match findJITEmployeeMatchIndexLocked (employees (core s)) tenantID email externalID with
    | None => isNew = true ∧ employees (core s') = e :: employees (core s)
    | Some (i, x) => isNew = false ∧ employees (core s') = <[i := e]> (employees (core s)) ∧ emID e = emID x
        ∧ may_sign_in (TrimSpace externalID) x = Ok tt
    end.
Proof.
  unfold ResolveOrProvisionJITEmployeeWithProfile. cbv zeta. rewrite !fail_if_bind.
  do 2 (destruct (is_empty _); [done|]). destruct (EmploymentStatusBlocksSession _) eqn:Hb; [done|].
  rewrite bind_lift. destruct (emailDomain _) as [domain|] eqn:Hd; [|done]. rewrite bind_gets, fail_if_bind.
  destruct (claimed _ domain s) eqn:Hcl; [|done]. rewrite bind_gets. simpl negb. cbv iota.
  assert (Hm : findJITEmployeeMatchIndexLocked (employees (core s)) (TrimSpace tenantID) (normalizeEmail email) (TrimSpace externalID)
    = findJITEmployeeMatchIndexLocked (employees (core s)) tenantID email externalID).
  { unfold findJITEmployeeMatchIndexLocked, normalizeEmail. by rewrite !TrimSpace_idem, TrimSpace_lower, ToLower_idem. }
  cbv beta. rewrite Hm. clear Hm. destruct (findJITEmployeeMatchIndexLocked _ _ _ _) as [[i x]|] eqn:Hf; intros Hrun.
  - rewrite bind_lift in Hrun. destruct (may_sign_in _ x) as [[]|] eqn:Hmay; [|done]. rewrite fail_if_bind in Hrun.
    destruct (negb _) eqn:Hact; [done|]. boolp. rewrite bind_modify in Hrun. apply bind_ok in Hrun as (s1 & [] & Hp & [= <- <- <-]).
    apply persist_employees in Hp as ->. apply match_Some in Hf as (_ & Ht & _).
    split; [destruct (claimed_by _ _ _ Hcl) as (d & ? & ? & ? & ?); exists domain, d; by rewrite TrimSpace_idem in *|].
    match goal with |- context [refresh_employee ?a1 ?a2 ?a3 ?a4 ?a5 ?a6 ?a7 ?a8 ?a9 ?a10 ?a11 ?a12] =>
      destruct (refresh_keeps a1 a2 a3 a4 a5 a6 a7 a8 a9 a10 a11 a12) as (Hid & Htn & He) end.
    split_and!; try done. by rewrite Htn.
  - apply bind_ok in Hrun as (s1 & id & Hr & Hrun). rewrite bind_modify in Hrun. apply bind_ok in Hrun as (s2 & [] & Hp & [= <- <- <-]).
    apply persist_employees in Hp as ->. assert (Hc : core s1 = core s) by (revert Hr; unfold randomID; destruct (dirEntropy s); [done|]; by intros [= <-]).
    split; [destruct (claimed_by _ _ _ Hcl) as (d & ? & ? & ? & ?); exists domain, d; by rewrite TrimSpace_idem in *|].
    match goal with |- context [new_employee ?a1 ?a2 ?a3 ?a4 ?a5 ?a6 ?a7 ?a8 ?a9 ?a10 ?a11 ?a12] =>
      destruct (new_employee_is a1 a2 a3 a4 a5 a6 a7 a8 a9 a10 a11 a12) as (Hid & Htn & He & Hst);
      set (e0 := new_employee a1 a2 a3 a4 a5 a6 a7 a8 a9 a10 a11 a12) in * end.
    clearbody e0. simpl. rewrite Hc, Hst, Htn, TrimSpace_idem. split_and!; try done.
    unfold normalizeEmployeeStatus at 2. by rewrite Hb.
Qed.
