(* ===== verification/Webhooks.v ===== *)
(** * HRIS webhooks (modules/enterprise/service_hris.go from line 263, and the second half
      of service_employees.go)

    A webhook is stored as a receipt, which a worker claims, processes and marks.  The
    runs of the worker that are asked for are executions, claimed in the same way.  Both
    tables, an index of the receipts that are due and the ids of the queued executions
    are one document of the state store, changed through [Cas].  Lists are kept newest
    first; [sort.Slice] is [sort_by] of [Cas]. *)

From S2P Require Import Prelude GoStrings GoTime Bytes GoText Backoff Cas PullState Normalizer Directory Jit.
#[local] Open Scope string_scope.
#[local] Open Scope list_scope.
#[local] Open Scope Z_scope.

(** ** Data *)

#[export] Instance eta_receipt : Eta HRISWebhookReceipt := λ r,
  mkReceipt (rcID r) (rcTenantID r) (rcConnectorID r) (rcVendor r) (rcEventType r) (rcRequestID r) (rcContentType r)
    (rcHeaders r) (rcRawPayload r) (rcSourceIP r) (rcStatus r) (rcAttemptCount r) (rcLastError r) (rcReceivedAt r)
    (rcLastAttemptAt r) (rcProcessedAt r).
#[export] Instance receipt_eq : EqDecision HRISWebhookReceipt.
Proof. solve_decision. Defined.

Record HRISWebhookReceiptInput := mkReceiptInput {
  riEventType : string; riRequestID : string; riContentType : string; riHeaders : gmap string string;
  riRawPayload : string; riSourceIP : string
}.

Record HRISWebhookExecution := mkExecution {
  hxID : string; hxTenantID : string; hxKind : string; hxTargetID : string; hxReceiptID : string; hxConnectorID : string;
  hxVendor : string; hxRequestID : string; hxEventType : string; hxFailureStage : string; hxAuditSource : string;
  ExecutionMode : string; DispatchMode : string; hxStatus : string; hxTargetStatus : string; hxRequestedBy : string;
  ReplaySourceExecutionID : string; ReplayRequireWorker : option bool; hxAttemptCount : Z; RequeueCount : Z;
  hxLastError : string; QueuedAt : Z; StartedAt : option Z; FinishedAt : option Z; hxUpdatedAt : Z
}.
#[export] Instance eta_execution : Eta HRISWebhookExecution := λ x,
  mkExecution (hxID x) (hxTenantID x) (hxKind x) (hxTargetID x) (hxReceiptID x) (hxConnectorID x) (hxVendor x)
    (hxRequestID x) (hxEventType x) (hxFailureStage x) (hxAuditSource x) (ExecutionMode x) (DispatchMode x) (hxStatus x)
    (hxTargetStatus x) (hxRequestedBy x) (ReplaySourceExecutionID x) (ReplayRequireWorker x) (hxAttemptCount x)
    (RequeueCount x) (hxLastError x) (QueuedAt x) (StartedAt x) (FinishedAt x) (hxUpdatedAt x).
#[export] Instance execution_eq : EqDecision HRISWebhookExecution.
Proof. solve_decision. Defined.

Record HRISWebhookExecutionInput := mkExecutionInput {
  eiTenantID : string; eiKind : string; eiTargetID : string; eiReceiptID : string; eiConnectorID : string; eiVendor : string;
  eiRequestID : string; eiEventType : string; eiFailureStage : string; eiAuditSource : string; eiExecutionMode : string;
  eiDispatchMode : string; eiTargetStatus : string; eiRequestedBy : string; eiReplaySourceExecutionID : string;
  eiReplayRequireWorker : option bool
}.

Record hrisWebhookReceiptDueIndexEntry := mkDueReceipt { dueReceiptID : string; DueAt : Z }.
#[export] Instance due_receipt_eq : EqDecision hrisWebhookReceiptDueIndexEntry.
Proof. solve_decision. Defined.

(** [hrisWebhookStateSnapshot]: what a replica has in memory and what the store keeps. *)
Record Webhooks := mkWebhooks {
  receipts : list HRISWebhookReceipt; executions : list HRISWebhookExecution;
  dueReceiptIDs : list hrisWebhookReceiptDueIndexEntry; queuedReceiptExecutionIDs : list string;
  queuedDLQReplayExecutionIDs : list string
}.
#[export] Instance eta_Webhooks : Eta Webhooks := λ d,
  mkWebhooks (receipts d) (executions d) (dueReceiptIDs d) (queuedReceiptExecutionIDs d) (queuedDLQReplayExecutionIDs d).
#[export] Instance webhooks_eq : EqDecision Webhooks.
Proof. solve_decision. Defined.

Inductive webhook_err :=
| FromDirectory (e : enterprise_err)
| ErrHRISConnectorInactive | ErrHRISWebhookReceiptNotFound | ErrHRISWebhookExecutionNotFound
| ErrInvalidHRISWebhookExecutionKind | ErrInvalidHRISWebhookExecutionDispatchMode
| HRISWebhookExecutionReplayConflictError (ExistingExecution : HRISWebhookExecution).

Definition maxWebhookReceiptLimit : Z := 200.
Definition maxWebhookExecutionLimit : nat := 500.
#[global] Arguments maxWebhookExecutionLimit : simpl never.

(** ** Receipts *)

(** [items[:limit]], at most [maxWebhookReceiptLimit] of them. *)
Definition capped {A} (limit : Z) (l : list A) : list A :=
  take (Z.to_nat (if (limit <=? 0) || (maxWebhookReceiptLimit <? limit) then maxWebhookReceiptLimit else limit)) l.
Definition newer_receipt (a b : HRISWebhookReceipt) : bool :=
  if rcReceivedAt a =? rcReceivedAt b then String.ltb (rcID b) (rcID a) else After (rcReceivedAt a) (rcReceivedAt b).
(** The order of what waits: by the last attempt, or the arrival. *)
Definition attempt_time (r : HRISWebhookReceipt) : Z := default (rcReceivedAt r) (rcLastAttemptAt r).
Definition waits_longer (a b : HRISWebhookReceipt) : bool :=
  if attempt_time a =? attempt_time b then String.ltb (rcID b) (rcID a) else Before (attempt_time a) (attempt_time b).

Definition receipt_of (tenantID : string) (r : HRISWebhookReceipt) : bool :=
  is_empty (TrimSpace tenantID) || String.eqb (TrimSpace (rcTenantID r)) (TrimSpace tenantID).
Definition receipt_in (statuses : list string) (r : HRISWebhookReceipt) : bool :=
  existsb (String.eqb (TrimSpace (rcStatus r))) statuses.

Definition listHRISWebhookReceipts (tenantID connectorID : string) (items : list HRISWebhookReceipt) : list HRISWebhookReceipt :=
  sort_by newer_receipt
    (filterb (λ r, receipt_of tenantID r
                   && (is_empty (TrimSpace connectorID) || String.eqb (TrimSpace (rcConnectorID r)) (TrimSpace connectorID))) items).
Definition ListHRISWebhookReceipts (tenantID connectorID : string) (limit : Z) (d : Webhooks) : list HRISWebhookReceipt :=
  capped limit (listHRISWebhookReceipts tenantID connectorID (receipts d)).
Definition ListAllHRISWebhookReceipts (tenantID connectorID : string) (d : Webhooks) : list HRISWebhookReceipt :=
  listHRISWebhookReceipts tenantID connectorID (receipts d).
Definition ListPendingHRISWebhookReceipts (tenantID : string) (limit : Z) (d : Webhooks) : list HRISWebhookReceipt :=
  capped limit (sort_by newer_receipt (filterb (λ r, receipt_in ["received"] r && receipt_of tenantID r) (receipts d))).
Definition ListRetryableHRISWebhookReceipts (tenantID : string) (limit : Z) (d : Webhooks) : list HRISWebhookReceipt :=
  capped limit (sort_by waits_longer
    (filterb (λ r, receipt_in ["received"; "failed"] r && receipt_of tenantID r) (receipts d))).
Definition ListQueueableHRISWebhookReceipts (tenantID : string) (limit : Z) (d : Webhooks) : list HRISWebhookReceipt :=
  capped limit (sort_by waits_longer
    (filterb (λ r, receipt_in ["received"; "failed"; "processing"] r && receipt_of tenantID r) (receipts d))).

Definition has_receipt_id (receiptID : string) (r : HRISWebhookReceipt) : bool := String.eqb (TrimSpace (rcID r)) receiptID.
Definition findHRISWebhookReceiptByIDLocked (items : list HRISWebhookReceipt) (receiptID : string) : option HRISWebhookReceipt :=
  if is_empty (TrimSpace receiptID) then None else snd <$> findi (has_receipt_id (TrimSpace receiptID)) items.
(** The first receipt of the id, which has to be the tenant's. *)
Definition look_receipt (tenantID receiptID : string) (d : Webhooks) : result webhook_err (nat * HRISWebhookReceipt) :=
  match findi (has_receipt_id receiptID) (receipts d) with
  | Some (i, r) => if String.eqb (TrimSpace (rcTenantID r)) tenantID then Ok (i, r) else Err ErrHRISWebhookReceiptNotFound
  | None => Err ErrHRISWebhookReceiptNotFound
  end.
(** The tenant and the id an operation names. *)
Definition named (missing : webhook_err) (tenantID id : string) : result webhook_err (string * string) :=
  if is_empty (TrimSpace tenantID) then Err (FromDirectory ErrTenantIDRequired)
  else if is_empty (TrimSpace id) then Err missing
  else Ok (TrimSpace tenantID, TrimSpace id).
Definition GetHRISWebhookReceipt (tenantID receiptID : string) (d : Webhooks) : result webhook_err HRISWebhookReceipt :=
  '(tenantID, receiptID) ← named ErrHRISWebhookReceiptNotFound tenantID receiptID;
  '(_, r) ← look_receipt tenantID receiptID d; Ok r.

(** *** Claims *)

Record ReceiptClaim := mkReceiptClaim {
  rkAttempts : Z; rkCooldown : Z; rkBackoff : Z; rkTimeout : Z; rkNow : Z
}.
Definition normalizeHRISWebhookReceiptClaimParams (clock : Z) (p : ReceiptClaim) : ReceiptClaim :=
  let '(cooldown, backoff) := Normalize (rkCooldown p) (rkBackoff p) in
  mkReceiptClaim (if rkAttempts p <=? 0 then 1 else rkAttempts p) cooldown backoff
    (if rkTimeout p <=? 0 then 5 * minute else rkTimeout p) (if IsZero (rkNow p) then clock else rkNow p).

(** The reason not to process a receipt; empty when it can be claimed. *)
Definition hrisWebhookReceiptClaimReason (item : HRISWebhookReceipt) (p : ReceiptClaim) : string :=
  let status := TrimSpace (rcStatus item) in
  if String.eqb status "received" then ""
  else if String.eqb status "failed" then
    if (0 <? rkAttempts p) && (rkAttempts p <=? rcAttemptCount item) then "attempt_limit"
    else
      let retryDelay := Exponential (rcAttemptCount item) (rkCooldown p) (rkBackoff p) in
      match rcLastAttemptAt item with
      | Some t => if (0 <? retryDelay) && After (t + retryDelay) (rkNow p) then "cooldown" else ""
      | None => ""
      end
  else if String.eqb status "processing" then
    match rcLastAttemptAt item with
    | Some t => if After (t + rkTimeout p) (rkNow p) then "in_flight" else ""
    | None => ""
    end
  else "not_queueable".

Definition claimable_receipt (tenantID : string) (p : ReceiptClaim) (r : HRISWebhookReceipt) : bool :=
  receipt_of tenantID r && is_empty (hrisWebhookReceiptClaimReason r p).
Definition listClaimableHRISWebhookReceiptsWithBackoffLocked (tenantID : string) (p : ReceiptClaim) (limit : Z)
    (allReceipts : list HRISWebhookReceipt) : list HRISWebhookReceipt :=
  capped limit (sort_by waits_longer (filterb (claimable_receipt tenantID p) allReceipts)).
Definition ListClaimableHRISWebhookReceiptsWithBackoff (clock : Z) (tenantID : string) (p : ReceiptClaim) (limit : Z)
    (d : Webhooks) : list HRISWebhookReceipt :=
  listClaimableHRISWebhookReceiptsWithBackoffLocked tenantID (normalizeHRISWebhookReceiptClaimParams clock p) limit (receipts d).

(** The loops of [ListDueHRISWebhookReceiptsWithBackoff]: rows of the index up to the first
    that is not due, then what the index does not have, each id once.  A negative limit is
    the capacity the list is made with, and panics: [None]. *)
Definition enough (limit : Z) (items : list HRISWebhookReceipt) : bool := (0 <? limit) && (limit <=? Z.of_nat (length items)).
Definition seen_receipt (items : list HRISWebhookReceipt) (r : HRISWebhookReceipt) : bool :=
  existsb (λ x, String.eqb (rcID x) (rcID r)) items.
Fixpoint due_receipts (tenantID : string) (p : ReceiptClaim) (limit : Z) (all : list HRISWebhookReceipt)
    (rows : list hrisWebhookReceiptDueIndexEntry) (items : list HRISWebhookReceipt) : list HRISWebhookReceipt * bool :=
  match rows with
  | [] => (items, false)
  | row :: rows =>
      if negb (IsZero (DueAt row)) && After (DueAt row) (rkNow p) then (items, false)
      else
        match findHRISWebhookReceiptByIDLocked all (dueReceiptID row) with
        | Some item =>
            if claimable_receipt tenantID p item && negb (seen_receipt items item) then
              let items := items ++ [item] in
              if enough limit items then (items, true) else due_receipts tenantID p limit all rows items
            else due_receipts tenantID p limit all rows items
        | None => due_receipts tenantID p limit all rows items
        end
  end.
Fixpoint more_receipts (limit : Z) (more items : list HRISWebhookReceipt) : list HRISWebhookReceipt :=
  match more with
  | [] => items
  | x :: more =>
      if seen_receipt items x then more_receipts limit more items
      else let items := items ++ [x] in if enough limit items then items else more_receipts limit more items
  end.
Definition ListDueHRISWebhookReceiptsWithBackoff (clock : Z) (tenantID : string) (p : ReceiptClaim) (limit : Z)
    (d : Webhooks) : option (list HRISWebhookReceipt) :=
  let p := normalizeHRISWebhookReceiptClaimParams clock p in
  if limit <? 0 then None
  else
    let '(items, done) := due_receipts tenantID p limit (receipts d) (dueReceiptIDs d) [] in
    Some (if done then items
          else more_receipts limit (listClaimableHRISWebhookReceiptsWithBackoffLocked tenantID p 0 (receipts d)) items).

(** *** The index of due receipts *)

Definition isQueueableHRISWebhookReceiptStatus (status : string) : bool :=
  existsb (String.eqb (TrimSpace status)) ["received"; "failed"; "processing"].
Definition hrisWebhookReceiptDueIndexHeuristic (item : HRISWebhookReceipt) : Z :=
  match rcLastAttemptAt item with Some t => if IsZero t then rcReceivedAt item else t | None => rcReceivedAt item end.
Definition hrisWebhookReceiptProcessingDueAt (clock now processingTimeout : Z) : Z :=
  let now := if IsZero now then clock else now in
  if processingTimeout <=? 0 then now else now + processingTimeout.
Definition hrisWebhookReceiptFailureDueAt (clock : Z) (item : HRISWebhookReceipt) (cooldown backoff now : Z) : Z :=
  let late := if IsZero now then clock else now in
  let base := match rcLastAttemptAt item with Some t => if IsZero t then late else t | None => late end in
  base + Exponential (rcAttemptCount item) cooldown backoff.

Definition due_before (a b : hrisWebhookReceiptDueIndexEntry) : bool :=
  if DueAt a =? DueAt b then String.ltb (dueReceiptID a) (dueReceiptID b) else Before (DueAt a) (DueAt b).
Definition sortHRISWebhookReceiptDueIndexEntries : list hrisWebhookReceiptDueIndexEntry → list hrisWebhookReceiptDueIndexEntry :=
  sort_by due_before.
Definition due_of (id : string) (x : hrisWebhookReceiptDueIndexEntry) : bool := String.eqb (TrimSpace (dueReceiptID x)) id.
Definition upsertHRISWebhookReceiptDueIndexLocked (clock : Z) (receiptID : string) (dueAt : Z) (d : Webhooks) : Webhooks :=
  let nextReceiptID := TrimSpace receiptID in
  if is_empty nextReceiptID then d
  else
    let nextDueAt := if IsZero dueAt then clock else dueAt in
    match findi (due_of nextReceiptID) (dueReceiptIDs d) with
    | Some (i, x) =>
        d <| dueReceiptIDs := sortHRISWebhookReceiptDueIndexEntries (<[i := mkDueReceipt (dueReceiptID x) nextDueAt]> (dueReceiptIDs d)) |>
    | None => d <| dueReceiptIDs := sortHRISWebhookReceiptDueIndexEntries (dueReceiptIDs d ++ [mkDueReceipt nextReceiptID nextDueAt]) |>
    end.
Definition removeHRISWebhookReceiptDueIndexLocked (receiptID : string) (d : Webhooks) : Webhooks :=
  if is_empty (TrimSpace receiptID) then d
  else d <| dueReceiptIDs ::= filterb (λ x, negb (due_of (TrimSpace receiptID) x)) |>.

Definition known_due (l : list hrisWebhookReceiptDueIndexEntry) : gmap string Z :=
  foldl (λ m x, if is_empty (TrimSpace (dueReceiptID x)) || IsZero (DueAt x) then m
                else <[TrimSpace (dueReceiptID x) := DueAt x]> m) ∅ l.
(** The row of the index a receipt has. *)
Definition due_row (due : HRISWebhookReceipt → Z) (item : HRISWebhookReceipt) : option hrisWebhookReceiptDueIndexEntry :=
  if isQueueableHRISWebhookReceiptStatus (rcStatus item) && negb (is_empty (TrimSpace (rcID item)))
  then Some (mkDueReceipt (TrimSpace (rcID item)) (due item)) else None.
Definition normalizeHRISWebhookReceiptDueIndexLocked (d : Webhooks) : Webhooks :=
  let existing := known_due (dueReceiptIDs d) in
  d <| dueReceiptIDs := sortHRISWebhookReceiptDueIndexEntries
         (omap (due_row (λ r, default (hrisWebhookReceiptDueIndexHeuristic r) (existing !! TrimSpace (rcID r)))) (receipts d)) |>.
Definition buildHRISWebhookReceiptDueIndexEntries (items : list HRISWebhookReceipt) : list hrisWebhookReceiptDueIndexEntry :=
  sortHRISWebhookReceiptDueIndexEntries (omap (due_row hrisWebhookReceiptDueIndexHeuristic) items).
Definition cloneHRISWebhookReceiptDueIndexEntries (items : list hrisWebhookReceiptDueIndexEntry) :
    list hrisWebhookReceiptDueIndexEntry :=
  filterb (λ x, negb (is_empty (dueReceiptID x))) ((λ x, mkDueReceipt (TrimSpace (dueReceiptID x)) (DueAt x)) <$> items).

(** ** Executions *)

Definition normalizeHRISWebhookExecutionKind (kind : string) : string :=
  choose kind [(["receipt_process"], "receipt_process"); (["dlq_replay"], "dlq_replay")] "".
Definition normalizeHRISWebhookExecutionDispatchMode (dispatchMode : string) : string :=
  choose dispatchMode [(["worker_tick"], "worker_tick"); (["worker_task_channel"], "worker_task_channel");
                       (["goroutine_fallback"], "goroutine_fallback")] "".

Definition execution_of (tenantID : string) (x : HRISWebhookExecution) : bool :=
  is_empty (TrimSpace tenantID) || String.eqb (TrimSpace (hxTenantID x)) (TrimSpace tenantID).
Definition listHRISWebhookExecutions (items : list HRISWebhookExecution) (tenantID : string) : list HRISWebhookExecution :=
  filterb (execution_of tenantID) items.
Definition ListHRISWebhookExecutions (tenantID : string) (limit : Z) (d : Webhooks) : list HRISWebhookExecution :=
  limited limit (listHRISWebhookExecutions (executions d) tenantID).
Definition ListAllHRISWebhookExecutions (tenantID : string) (d : Webhooks) : list HRISWebhookExecution :=
  listHRISWebhookExecutions (executions d) tenantID.

Definition has_execution_id (executionID : string) (x : HRISWebhookExecution) : bool := String.eqb (TrimSpace (hxID x)) executionID.
Definition findHRISWebhookExecutionByIDLocked (items : list HRISWebhookExecution) (executionID : string) : option HRISWebhookExecution :=
  if is_empty (TrimSpace executionID) then None else snd <$> findi (has_execution_id (TrimSpace executionID)) items.
Definition look_execution (tenantID executionID : string) (d : Webhooks) : result webhook_err (nat * HRISWebhookExecution) :=
  match findi (has_execution_id executionID) (executions d) with
  | Some (i, x) => if String.eqb (TrimSpace (hxTenantID x)) tenantID then Ok (i, x) else Err ErrHRISWebhookExecutionNotFound
  | None => Err ErrHRISWebhookExecutionNotFound
  end.
Definition GetHRISWebhookExecution (tenantID executionID : string) (d : Webhooks) : result webhook_err HRISWebhookExecution :=
  '(tenantID, executionID) ← named ErrHRISWebhookExecutionNotFound tenantID executionID;
  '(_, x) ← look_execution tenantID executionID d; Ok x.
Definition GetHRISWebhookExecutionByID (executionID : string) (d : Webhooks) : result webhook_err HRISWebhookExecution :=
  match findHRISWebhookExecutionByIDLocked (executions d) executionID with
  | Some x => Ok x | None => Err ErrHRISWebhookExecutionNotFound end.

(** A replay of that execution which is queued or running. *)
Definition replays (tenantID sourceExecutionID : string) (x : HRISWebhookExecution) : bool :=
  String.eqb (TrimSpace (hxTenantID x)) tenantID && String.eqb (TrimSpace (ReplaySourceExecutionID x)) sourceExecutionID
  && existsb (String.eqb (TrimSpace (hxStatus x))) ["queued"; "running"].
Definition findActiveHRISWebhookReplayExecutionLocked (items : list HRISWebhookExecution) (tenantID sourceExecutionID : string) :
    option HRISWebhookExecution :=
  if is_empty (TrimSpace tenantID) || is_empty (TrimSpace sourceExecutionID) then None
  else snd <$> findi (replays (TrimSpace tenantID) (TrimSpace sourceExecutionID)) items.
Definition FindActiveHRISWebhookReplayExecution (tenantID sourceExecutionID : string) (d : Webhooks) : option HRISWebhookExecution :=
  findActiveHRISWebhookReplayExecutionLocked (executions d) tenantID sourceExecutionID.

(** *** What a worker may run *)

Definition isWorkerManagedHRISWebhookExecutionCandidate (item : HRISWebhookExecution) : bool :=
  negb (is_empty (normalizeHRISWebhookExecutionKind (hxKind item))) && String.eqb (TrimSpace (ExecutionMode item)) "queued"
  && String.eqb (TrimSpace (DispatchMode item)) "worker_tick" && negb (is_empty (TrimSpace (hxTargetID item))).
Definition isQueuedHRISWebhookExecutionCandidate (item : HRISWebhookExecution) : bool :=
  isWorkerManagedHRISWebhookExecutionCandidate item && String.eqb (TrimSpace (hxStatus item)) "queued".
(** The timeout and the time of a claim. *)
Definition normalizeHRISWebhookExecutionClaimParams (clock processingTimeout now : Z) : Z * Z :=
  (if processingTimeout <=? 0 then 5 * minute else processingTimeout, if IsZero now then clock else now).
Definition hrisWebhookExecutionClaimReason (item : HRISWebhookExecution) (processingTimeout now : Z) : string :=
  if negb (isWorkerManagedHRISWebhookExecutionCandidate item) then "not_queueable"
  else
    let status := TrimSpace (hxStatus item) in
    if String.eqb status "queued" then if negb (IsZero (QueuedAt item)) && After (QueuedAt item) now then "cooldown" else ""
    else if String.eqb status "running" then
      match StartedAt item with Some t => if After (t + processingTimeout) now then "in_flight" else "" | None => "" end
    else "not_queueable".

Definition hrisWebhookExecutionClaimSortTime (item : HRISWebhookExecution) : Z :=
  if String.eqb (TrimSpace (hxStatus item)) "queued" && negb (IsZero (QueuedAt item)) then QueuedAt item
  else match StartedAt item with Some t => if IsZero t then QueuedAt item else t | None => QueuedAt item end.
(** The order of the queue, and that of the claims. *)
Definition by_time (time : HRISWebhookExecution → Z) (a b : HRISWebhookExecution) : bool :=
  if time a =? time b then String.ltb (hxID a) (hxID b) else Before (time a) (time b).
Definition of_kind (kind : string) (x : HRISWebhookExecution) : bool :=
  String.eqb (normalizeHRISWebhookExecutionKind (hxKind x)) (normalizeHRISWebhookExecutionKind kind).
Definition claimable_execution (kind : string) (processingTimeout now : Z) (x : HRISWebhookExecution) : bool :=
  of_kind kind x && is_empty (hrisWebhookExecutionClaimReason x processingTimeout now).
Definition listClaimableHRISWebhookExecutionsLocked (items : list HRISWebhookExecution) (kind : string)
    (processingTimeout now limit : Z) : list HRISWebhookExecution :=
  if is_empty (normalizeHRISWebhookExecutionKind kind) then []
  else limited limit (sort_by (by_time hrisWebhookExecutionClaimSortTime) (filterb (claimable_execution kind processingTimeout now) items)).
Definition ListClaimableHRISWebhookExecutions (clock : Z) (kind : string) (processingTimeout now limit : Z) (d : Webhooks) :
    list HRISWebhookExecution :=
  let '(processingTimeout, now) := normalizeHRISWebhookExecutionClaimParams clock processingTimeout now in
  listClaimableHRISWebhookExecutionsLocked (executions d) kind processingTimeout now limit.

(** *** The queued ones, from their index *)

Definition buildQueuedHRISWebhookExecutionIDs (items : list HRISWebhookExecution) (kind : string) : list string :=
  filterb (λ id, negb (is_empty (TrimSpace id)))
    (hxID <$> sort_by (by_time QueuedAt) (filterb (λ x, of_kind kind x && isQueuedHRISWebhookExecutionCandidate x) items)).
Definition syncQueuedHRISWebhookExecutionIndicesLocked (d : Webhooks) : Webhooks :=
  d <| queuedReceiptExecutionIDs := buildQueuedHRISWebhookExecutionIDs (executions d) "receipt_process" |>
    <| queuedDLQReplayExecutionIDs := buildQueuedHRISWebhookExecutionIDs (executions d) "dlq_replay" |>.

(** The ids of the index that are still queued. *)
Definition queued_execution (items : list HRISWebhookExecution) (id : string) : option HRISWebhookExecution :=
  match findHRISWebhookExecutionByIDLocked items id with
  | Some x => if isQueuedHRISWebhookExecutionCandidate x then Some x else None
  | None => None
  end.
Definition queued_ids (kind : string) (d : Webhooks) : list string :=
  let kind := normalizeHRISWebhookExecutionKind kind in
  if String.eqb kind "receipt_process" then queuedReceiptExecutionIDs d
  else if String.eqb kind "dlq_replay" then queuedDLQReplayExecutionIDs d else [].
Definition listQueuedHRISWebhookExecutionsLocked (kind : string) (limit : Z) (d : Webhooks) : list HRISWebhookExecution :=
  limited limit (omap (queued_execution (executions d)) (queued_ids kind d)).
Definition ListQueuedHRISWebhookExecutions := listQueuedHRISWebhookExecutionsLocked.

(** Up to the first that is not due. *)
Fixpoint due_prefix (now : Z) (l : list HRISWebhookExecution) : list HRISWebhookExecution :=
  match l with
  | [] => []
  | x :: l => if negb (IsZero (QueuedAt x)) && After (QueuedAt x) now then [] else x :: due_prefix now l
  end.
Definition listDueQueuedHRISWebhookExecutionsFromIndex (indexedQueued : list HRISWebhookExecution) (now limit : Z) :
    list HRISWebhookExecution := limited limit (due_prefix now indexedQueued).
Definition listStaleRunningHRISWebhookExecutionsLocked (items : list HRISWebhookExecution) (kind : string)
    (processingTimeout now limit : Z) : list HRISWebhookExecution :=
  if is_empty (normalizeHRISWebhookExecutionKind kind) then []
  else limited limit (sort_by (by_time hrisWebhookExecutionClaimSortTime)
         (filterb (λ x, claimable_execution kind processingTimeout now x && String.eqb (TrimSpace (hxStatus x)) "running") items)).
(** Two lists in the order of the claims become one. *)
Fixpoint merge_claims (l1 : list HRISWebhookExecution) : list HRISWebhookExecution → list HRISWebhookExecution :=
  match l1 with
  | [] => λ l2, l2
  | x :: l1' =>
      fix inner l2 :=
        match l2 with
        | [] => l1
        | y :: l2' => if by_time hrisWebhookExecutionClaimSortTime x y then x :: merge_claims l1' l2 else y :: inner l2'
        end
  end.
(** The merge stops when there are [limit]. *)
Definition listIndexedClaimableHRISWebhookExecutionsLocked (allItems indexedQueued : list HRISWebhookExecution) (kind : string)
    (processingTimeout now limit : Z) : list HRISWebhookExecution :=
  limited limit (merge_claims (listDueQueuedHRISWebhookExecutionsFromIndex indexedQueued now limit)
                   (listStaleRunningHRISWebhookExecutionsLocked allItems kind processingTimeout now limit)).
Definition ListIndexedClaimableHRISWebhookExecutions (clock : Z) (kind : string) (processingTimeout now limit : Z) (d : Webhooks) :
    list HRISWebhookExecution :=
  let '(processingTimeout, now) := normalizeHRISWebhookExecutionClaimParams clock processingTimeout now in
  listIndexedClaimableHRISWebhookExecutionsLocked (executions d) (listQueuedHRISWebhookExecutionsLocked kind limit d) kind
    processingTimeout now limit.

(** ** Changes *)

(** What the closures assign outside the tables, and the clock they read: a closure that
    runs again reads a later time. *)
Record captured := mkCaptured {
  capReceipt : HRISWebhookReceipt; capExecution : HRISWebhookExecution; capReason : string; capClock : nat → Z
}.
#[export] Instance eta_captured : Eta captured := λ c, mkCaptured (capReceipt c) (capExecution c) (capReason c) (capClock c).
Definition no_receipt : HRISWebhookReceipt := mkReceipt "" "" "" "" "" "" "" ∅ "" "" "" 0 "" time_zero None None.
Definition no_execution : HRISWebhookExecution :=
  mkExecution "" "" "" "" "" "" "" "" "" "" "" "" "" "" "" "" "" None 0 0 "" time_zero None None time_zero.
Definition nothing (ticks : nat → Z) : captured := mkCaptured no_receipt no_execution "" ticks.
Definition received (r : HRISWebhookReceipt) (reason : string) (c : captured) : captured :=
  c <| capReceipt := r |> <| capReason := reason |>.
Definition executed (x : HRISWebhookExecution) (reason : string) (c : captured) : captured :=
  c <| capExecution := x |> <| capReason := reason |>.

(** The closures that are passed to [updateHRISWebhookExecution]. *)
Inductive ExecutionChange :=
| Dispatches (dispatchMode : string)
| Runs (now : Z)
| Requeues (targetStatus message : string) (retryAt : Z)
| Succeeds (targetStatus : string) (now : Z)
| Breaks (targetStatus message : string) (now : Z).
Definition mutate (u : ExecutionChange) (x : HRISWebhookExecution) : HRISWebhookExecution :=
  let started now o := match o with None => Some now | o => o end in
  match u with
  | Dispatches mode => x <| DispatchMode := mode |>
  | Runs now => x <| hxStatus := "running" |> <| StartedAt := Some now |> <| FinishedAt := None |> <| hxLastError := "" |>
                  <| hxAttemptCount ::= Z.add 1 |>
  | Requeues target message retryAt =>
      x <| hxStatus := "queued" |> <| hxTargetStatus := target |> <| hxLastError := message |> <| RequeueCount ::= Z.add 1 |>
        <| QueuedAt := retryAt |> <| StartedAt := None |> <| FinishedAt := None |>
  | Succeeds target now =>
      x <| hxStatus := "succeeded" |> <| hxTargetStatus := target |> <| hxLastError := "" |>
        <| StartedAt ::= started now |> <| FinishedAt := Some now |>
  | Breaks target message now =>
      x <| hxStatus := "failed" |> <| hxTargetStatus := target |> <| hxLastError := message |>
        <| StartedAt ::= started now |> <| FinishedAt := Some now |>
  end.

(** [DueFrom] is the time the receipt is entered in the index for, from the receipt. *)
Inductive DueChange := DueFrom (due : HRISWebhookReceipt → Z) | NotDue.
Inductive change :=
| Receives (connector : result webhook_err HRISConnector)
| ClaimsReceipt (clock : Z) (tenantID receiptID : string) (p : ReceiptClaim)
| MarksReceipt (tenantID receiptID status lastError : string) (processedAt started : option Z) (adjust : DueChange)
| PutsReceipt (snapshot : HRISWebhookReceipt)
| CreatesExecution
| ClaimsExecution (tenantID executionID : string) (processingTimeout now : Z)
| UpdatesExecution (tenantID executionID : string) (u : ExecutionChange).

Abbreviation closed := (captured * Webhooks * result webhook_err bool)%type.
Definition put_receipt (i : nat) (r : HRISWebhookReceipt) (d : Webhooks) : Webhooks := d <| receipts ::= <[i := r]> |>.
Definition put_execution (i : nat) (x : HRISWebhookExecution) (d : Webhooks) : Webhooks := d <| executions ::= <[i := x]> |>.

Definition receive_closure (connector : result webhook_err HRISConnector) (c : captured) (d : Webhooks) : closed :=
  match connector with
  | Err e => (c, d, Err e)
  | Ok k =>
      let r := (capReceipt c) <| rcTenantID := hcTenantID k |> <| rcConnectorID := hcID k |> <| rcVendor := hcVendor k |> in
      (c <| capReceipt := r |>,
       upsertHRISWebhookReceiptDueIndexLocked (capClock c 0%nat) (rcID r) (rcReceivedAt r) (d <| receipts ::= cons r |>), Ok true)
  end.
Definition claim_receipt_closure (clock : Z) (tenantID receiptID : string) (p : ReceiptClaim) (c : captured) (d : Webhooks) : closed :=
  match look_receipt tenantID receiptID d with
  | Err e => (c, d, Err e)
  | Ok (i, r) =>
      let reason := hrisWebhookReceiptClaimReason r p in
      if negb (is_empty reason) then (received r reason c, d, Ok false)
      else
        let r := r <| rcStatus := "processing" |> <| rcLastError := "" |> <| rcProcessedAt := None |>
                   <| rcAttemptCount ::= Z.add 1 |> <| rcLastAttemptAt := Some (rkNow p) |> in
        (received r "" c,
         upsertHRISWebhookReceiptDueIndexLocked clock (rcID r) (hrisWebhookReceiptProcessingDueAt clock (rkNow p) (rkTimeout p))
           (put_receipt i r d), Ok true)
  end.
Definition mark_receipt_closure (tenantID receiptID status lastError : string) (processedAt started : option Z) (adjust : DueChange)
    (c : captured) (d : Webhooks) : closed :=
  match look_receipt tenantID receiptID d with
  | Err e => (c, d, Err e)
  | Ok (i, r) =>
      let r := r <| rcStatus := status |> <| rcLastError := TrimSpace lastError |> <| rcProcessedAt := processedAt |> in
      let r := match started with
               | Some now => r <| rcAttemptCount ::= Z.add 1 |> <| rcLastAttemptAt := Some now |>
               | None => r end in
      let d := put_receipt i r d in
      (received r (capReason c) c,
       match adjust with
       | DueFrom due => upsertHRISWebhookReceiptDueIndexLocked (capClock c 0%nat) (rcID r) (due r) d
       | NotDue => removeHRISWebhookReceiptDueIndexLocked (rcID r) d
       end, Ok true)
  end.
Definition restore_receipt_closure (snapshot : HRISWebhookReceipt) (c : captured) (d : Webhooks) : closed :=
  match look_receipt (TrimSpace (rcTenantID snapshot)) (TrimSpace (rcID snapshot)) d with
  | Err e => (c, d, Err e)
  | Ok (i, _) => (received snapshot (capReason c) c, put_receipt i snapshot d, Ok true)
  end.
Definition create_execution_closure (c : captured) (d : Webhooks) : closed :=
  let record := capExecution c in
  match findActiveHRISWebhookReplayExecutionLocked (executions d) (hxTenantID record) (ReplaySourceExecutionID record) with
  | Some existing => (c, d, Err (HRISWebhookExecutionReplayConflictError existing))
  | None => (c, d <| executions ::= λ l, take maxWebhookExecutionLimit (record :: l) |>, Ok true)
  end.
Definition claim_execution_closure (tenantID executionID : string) (processingTimeout now : Z) (c : captured) (d : Webhooks) : closed :=
  match look_execution tenantID executionID d with
  | Err e => (c, d, Err e)
  | Ok (i, x) =>
      let reason := hrisWebhookExecutionClaimReason x processingTimeout now in
      if negb (is_empty reason) then (executed x reason c, d, Ok false)
      else
        let x := (mutate (Runs now) x) <| hxUpdatedAt := now |> in
        (executed x "" c, put_execution i x d, Ok true)
  end.
Definition update_execution_closure (tenantID executionID : string) (u : ExecutionChange) (c : captured) (d : Webhooks) : closed :=
  match look_execution tenantID executionID d with
  | Err e => (c, d, Err e)
  | Ok (i, x) =>
      let x := (mutate u x) <| hxUpdatedAt := capClock c 0%nat |> in
      ((executed x (capReason c) c) <| capClock := λ n, capClock c (S n) |>, put_execution i x d, Ok true)
  end.
Definition closure (o : change) : captured → Webhooks → closed :=
  match o with
  | Receives connector => receive_closure connector
  | ClaimsReceipt clock tenantID receiptID p => claim_receipt_closure clock tenantID receiptID p
  | MarksReceipt tenantID receiptID status lastError processedAt started adjust =>
      mark_receipt_closure tenantID receiptID status lastError processedAt started adjust
  | PutsReceipt snapshot => restore_receipt_closure snapshot
  | CreatesExecution => create_execution_closure
  | ClaimsExecution tenantID executionID processingTimeout now => claim_execution_closure tenantID executionID processingTimeout now
  | UpdatesExecution tenantID executionID u => update_execution_closure tenantID executionID u
  end.

(** What is in memory after a change or a read, and what is written. *)
Definition indexed (d : Webhooks) : Webhooks :=
  syncQueuedHRISWebhookExecutionIndicesLocked (normalizeHRISWebhookReceiptDueIndexLocked d).
Definition cloned (d : Webhooks) : Webhooks := d <| dueReceiptIDs ::= cloneHRISWebhookReceiptDueIndexEntries |>.
Definition restoreHRISWebhookStateLocked (snapshot : Webhooks) : Webhooks := indexed (cloned snapshot).
Definition no_webhooks : Webhooks := mkWebhooks [] [] [] [] [].

(** [refreshCoreStateLocked] of a store without compare-and-swap also reads the other
    tables of the module; a failure of either read is a failure of the access. *)
#[export] Instance webhooks_document : Document Webhooks captured webhook_err change := {|
  mutator := closure; expect := id; view := restoreHRISWebhookStateLocked; refreshed := restoreHRISWebhookStateLocked;
  fin := indexed; saved := cloned; rebase := λ d, restoreHRISWebhookStateLocked (cloned d);
  missing := λ _, restoreHRISWebhookStateLocked no_webhooks
|}.

(** ** The operations

    What each checks before it takes the lock, the change it then makes, and what it
    answers from what the closure assigned. *)

Abbreviation begins := (result webhook_err (change * captured)).

Definition findHRISConnectorIndexLocked (connectorID : string) (items : list HRISConnector) : option (nat * HRISConnector) :=
  findi (λ k, String.eqb (TrimSpace (hcID k)) (TrimSpace connectorID)) items.
Definition active_connector (connectorID : string) (items : list HRISConnector) : result webhook_err HRISConnector :=
  match findHRISConnectorIndexLocked connectorID items with
  | None => Err (FromDirectory ErrHRISConnectorNotFound)
  | Some (_, k) => if String.eqb (TrimSpace (hcStatus k)) "active" then Ok k else Err ErrHRISConnectorInactive
  end.
(** Header names in small letters, blank ones dropped; the map is walked in any order. *)
Definition clean_headers `{!MapRange} (headers : gmap string string) : gmap string string :=
  foldl (λ m h, let key := ToLower (TrimSpace h.1) in if is_empty key then m else <[key := TrimSpace h.2]> m) ∅ (range headers).

(** The connectors in memory, and as the closure finds them: the same unless the access to
    the store has read them again. *)
Definition ReceiveHRISWebhookReceipt `{!MapRange} (env : Env) (connectors refreshed : list HRISConnector) (connectorID : string)
    (input : HRISWebhookReceiptInput) : begins :=
  let nextConnectorID := TrimSpace connectorID in
  if is_empty nextConnectorID then Err (FromDirectory ErrHRISConnectorNotFound)
  else match active_connector nextConnectorID connectors, fresh env with
       | Err e, _ => Err e
       | Ok _, None => Err (FromDirectory ErrRandom)
       | Ok _, Some h =>
           let record := mkReceipt ("whr_" +:+ h) "" "" "" (TrimSpace (riEventType input)) (TrimSpace (riRequestID input))
             (TrimSpace (riContentType input)) (clean_headers (riHeaders input)) (riRawPayload input) (TrimSpace (riSourceIP input))
             "received" 0 "" (now env) None None in
           Ok (Receives (active_connector nextConnectorID refreshed), (nothing (λ _, now env)) <| capReceipt := record |>)
       end.
Definition ClaimHRISWebhookReceiptForProcessingWithBackoff (clock : Z) (tenantID receiptID : string) (p : ReceiptClaim) : begins :=
  '(tenantID, receiptID) ← named ErrHRISWebhookReceiptNotFound tenantID receiptID;
  Ok (ClaimsReceipt clock tenantID receiptID (normalizeHRISWebhookReceiptClaimParams clock p), nothing (λ _, clock)).
Definition ClaimHRISWebhookReceiptForProcessing (clock : Z) (tenantID receiptID : string) (attempts cooldown timeout now : Z) : begins :=
  ClaimHRISWebhookReceiptForProcessingWithBackoff clock tenantID receiptID (mkReceiptClaim attempts cooldown cooldown timeout now).
(** The receipt, and the reason it was not claimed. *)
Definition claim_receipt_answer (c : captured) : result webhook_err (HRISWebhookReceipt * string) :=
  if negb (is_empty (capReason c)) then Ok (capReceipt c, capReason c)
  else if is_empty (rcID (capReceipt c)) then Err ErrHRISWebhookReceiptNotFound else Ok (capReceipt c, "").

Definition updateHRISWebhookReceiptStatus (clock : Z) (tenantID receiptID status lastError : string) (processedAt started : option Z)
    (adjust : DueChange) : begins :=
  '(tenantID, receiptID) ← named ErrHRISWebhookReceiptNotFound tenantID receiptID;
  let nextStatus := ToLower (TrimSpace status) in
  Ok (MarksReceipt tenantID receiptID (if is_empty nextStatus then "received" else nextStatus) lastError processedAt started adjust,
      nothing (λ _, clock)).
Definition message_of (failure : option string) : string := default "" failure.
Definition MarkHRISWebhookReceiptStarted (now : Z) (tenantID receiptID : string) : begins :=
  updateHRISWebhookReceiptStatus now tenantID receiptID "processing" "" None (Some now) (DueFrom (λ _, now)).
Definition MarkHRISWebhookReceiptProcessed (now : Z) (tenantID receiptID : string) : begins :=
  updateHRISWebhookReceiptStatus now tenantID receiptID "processed" "" (Some now) None NotDue.
Definition MarkHRISWebhookReceiptSkipped (now : Z) (tenantID receiptID reason : string) : begins :=
  updateHRISWebhookReceiptStatus now tenantID receiptID "skipped" reason (Some now) None NotDue.
Definition MarkHRISWebhookReceiptFailedWithBackoff (now : Z) (tenantID receiptID : string) (failure : option string)
    (cooldown backoff : Z) : begins :=
  updateHRISWebhookReceiptStatus now tenantID receiptID "failed" (message_of failure) (Some now) None
    (DueFrom (λ r, hrisWebhookReceiptFailureDueAt now r cooldown backoff now)).
Definition MarkHRISWebhookReceiptFailed (now : Z) (tenantID receiptID : string) (failure : option string) : begins :=
  MarkHRISWebhookReceiptFailedWithBackoff now tenantID receiptID failure 0 0.
Definition MarkHRISWebhookReceiptDLQ (now : Z) (tenantID receiptID : string) (failure : option string) : begins :=
  updateHRISWebhookReceiptStatus now tenantID receiptID "dlq" (message_of failure) (Some now) None NotDue.
Definition RestoreHRISWebhookReceipt (snapshot : HRISWebhookReceipt) : begins :=
  '_ ← named ErrHRISWebhookReceiptNotFound (rcTenantID snapshot) (rcID snapshot);
  Ok (PutsReceipt snapshot, nothing (λ _, time_zero)).

Definition CreateHRISWebhookExecution (env : Env) (input : HRISWebhookExecutionInput) : begins :=
  let nextKind := normalizeHRISWebhookExecutionKind (eiKind input) in
  let nextDispatchMode := normalizeHRISWebhookExecutionDispatchMode (eiDispatchMode input) in
  if is_empty (TrimSpace (eiTenantID input)) then Err (FromDirectory ErrTenantIDRequired)
  else if is_empty nextKind then Err ErrInvalidHRISWebhookExecutionKind
  else if is_empty (TrimSpace (eiTargetID input)) then Err ErrHRISWebhookExecutionNotFound
  else if is_empty nextDispatchMode then Err ErrInvalidHRISWebhookExecutionDispatchMode
  else match fresh env with
  | None => Err (FromDirectory ErrRandom)
  | Some h =>
      let record := mkExecution ("hwe_" +:+ h) (TrimSpace (eiTenantID input)) nextKind (TrimSpace (eiTargetID input))
        (TrimSpace (eiReceiptID input)) (TrimSpace (eiConnectorID input)) (TrimSpace (eiVendor input)) (TrimSpace (eiRequestID input))
        (TrimSpace (eiEventType input)) (TrimSpace (eiFailureStage input)) (TrimSpace (eiAuditSource input))
        (TrimSpace (eiExecutionMode input)) nextDispatchMode "queued" (TrimSpace (eiTargetStatus input))
        (TrimSpace (eiRequestedBy input)) (TrimSpace (eiReplaySourceExecutionID input)) (eiReplayRequireWorker input)
        0 0 "" (now env) None None (now env) in
      Ok (CreatesExecution, (nothing (λ _, now env)) <| capExecution := record |>)
  end.
Definition ClaimHRISWebhookExecution (clock : Z) (tenantID executionID : string) (processingTimeout now : Z) : begins :=
  '(tenantID, executionID) ← named ErrHRISWebhookExecutionNotFound tenantID executionID;
  let '(processingTimeout, now) := normalizeHRISWebhookExecutionClaimParams clock processingTimeout now in
  Ok (ClaimsExecution tenantID executionID processingTimeout now, nothing (λ _, clock)).
Definition claim_execution_answer (c : captured) : result webhook_err (HRISWebhookExecution * string) :=
  if negb (is_empty (capReason c)) then Ok (capExecution c, capReason c)
  else if is_empty (hxID (capExecution c)) then Err ErrHRISWebhookExecutionNotFound else Ok (capExecution c, "").

Definition updateHRISWebhookExecution (ticks : nat → Z) (tenantID executionID : string) (u : ExecutionChange) : begins :=
  '(tenantID, executionID) ← named ErrHRISWebhookExecutionNotFound tenantID executionID;
  Ok (UpdatesExecution tenantID executionID u, nothing ticks).
Definition UpdateHRISWebhookExecutionDispatchMode (ticks : nat → Z) (tenantID executionID dispatchMode : string) : begins :=
  let nextDispatchMode := normalizeHRISWebhookExecutionDispatchMode dispatchMode in
  if is_empty nextDispatchMode then Err ErrInvalidHRISWebhookExecutionDispatchMode
  else updateHRISWebhookExecution ticks tenantID executionID (Dispatches nextDispatchMode).
Definition MarkHRISWebhookExecutionRunning (now : Z) (ticks : nat → Z) (tenantID executionID : string) : begins :=
  updateHRISWebhookExecution ticks tenantID executionID (Runs now).
Definition RequeueHRISWebhookExecution (now : Z) (ticks : nat → Z) (tenantID executionID targetStatus : string) (retryAt : Z)
    (failure : option string) : begins :=
  updateHRISWebhookExecution ticks tenantID executionID
    (Requeues (TrimSpace targetStatus) (message_of failure) (if IsZero retryAt then now else retryAt)).
Definition MarkHRISWebhookExecutionSucceeded (now : Z) (ticks : nat → Z) (tenantID executionID targetStatus : string) : begins :=
  updateHRISWebhookExecution ticks tenantID executionID (Succeeds (TrimSpace targetStatus) now).
Definition MarkHRISWebhookExecutionFailed (now : Z) (ticks : nat → Z) (tenantID executionID targetStatus : string)
    (failure : option string) : begins :=
  updateHRISWebhookExecution ticks tenantID executionID (Breaks (TrimSpace targetStatus) (message_of failure) now).
Definition AcknowledgeHRISWebhookExecution (now : Z) (ticks : nat → Z) (tenantID executionID targetStatus : string)
    (failure : option string) : begins :=
  match failure with
  | Some _ => MarkHRISWebhookExecutionFailed now ticks tenantID executionID targetStatus failure
  | None => MarkHRISWebhookExecutionSucceeded now ticks tenantID executionID targetStatus
  end.

(** The document of an installation older than it, made of the tables of the core document. *)
Definition hrisWebhookStateSnapshotFromLegacyStateSnapshot (rs : list HRISWebhookReceipt) (xs : list HRISWebhookExecution) : Webhooks :=
  mkWebhooks rs xs (buildHRISWebhookReceiptDueIndexEntries rs) (buildQueuedHRISWebhookExecutionIDs xs "receipt_process")
    (buildQueuedHRISWebhookExecutionIDs xs "dlq_replay").
Definition hasHRISWebhookStateSnapshot (d : Webhooks) : bool :=
  negb (Nat.eqb (length (receipts d)) 0) || negb (Nat.eqb (length (executions d)) 0) || negb (Nat.eqb (length (dueReceiptIDs d)) 0)
  || negb (Nat.eqb (length (queuedReceiptExecutionIDs d)) 0) || negb (Nat.eqb (length (queuedDLQReplayExecutionIDs d)) 0).
