(* ===== verification/WebhookClaims.v ===== *)
(** * What the workers of the HRIS webhooks share

    Replicas interleave their accesses to the document of [Webhooks] (runs of [Cas]).
    A receipt and an execution are worked on once at a time, and a webhook that was
    accepted stays in the table and in the index of what is due. *)

From S2P Require Import Prelude GoStrings GoTime Bytes GoText Backoff Cas PullState Normalizer Directory Jit Webhooks.
#[local] Open Scope string_scope.
#[local] Open Scope list_scope.
#[local] Open Scope Z_scope.

Abbreviation event := (Event (D:=Webhooks) (C:=captured) (E:=webhook_err) (Op:=change)).

(** ** Claims exclude each other *)

(** What can be claimed, and what a claim shows of it. *)
Inductive Work := ReceiptWork | ExecutionWork.
Record Standing := mkStanding { wkID : string; wkStatus : string; wkSince : option Z }.
Definition receipt_standing (r : HRISWebhookReceipt) : Standing := mkStanding (rcID r) (rcStatus r) (rcLastAttemptAt r).
Definition execution_standing (x : HRISWebhookExecution) : Standing := mkStanding (hxID x) (hxStatus x) (StartedAt x).
Definition standings (w : Work) (d : Webhooks) : list Standing :=
  match w with ReceiptWork => receipt_standing <$> receipts d | ExecutionWork => execution_standing <$> executions d end.
Definition busy (w : Work) : string := match w with ReceiptWork => "processing" | ExecutionWork => "running" end.
Definition has_work_id (id : string) (s : Standing) : bool := String.eqb (TrimSpace (wkID s)) id.

(** A change claims work of an id at a time, for a timeout. *)
Definition claim_of (w : Work) (o : change) : option (string * Z * Z) :=
  match w, o with
  | ReceiptWork, ClaimsReceipt _ _ id p => Some (id, rkNow p, rkTimeout p)
  | ExecutionWork, ClaimsExecution _ id timeout now => Some (id, now, timeout)
  | _, _ => None
  end.
Definition takes (w : Work) (id : string) (now timeout : Z) (e : event) : Prop :=
  claim_of w (evOp e) = Some (id, now, timeout) ∧ ∃ c, evResult e = Ok c ∧ capReason c = "".
(** It is marked or written otherwise, or another row of the id is put in front of it. *)
Definition marks (w : Work) (o : change) : option string :=
  match w, o with
  | ReceiptWork, MarksReceipt _ id _ _ _ _ _ => Some id
  | ReceiptWork, PutsReceipt snapshot => Some (TrimSpace (rcID snapshot))
  | ExecutionWork, UpdatesExecution _ id _ => Some id
  | _, _ => None
  end.
Definition adds (w : Work) (o : change) : bool :=
  match w, o with ReceiptWork, Receives _ | ExecutionWork, CreatesExecution => true | _, _ => false end.
Definition frees (w : Work) (id : string) (e : event) : bool :=
  match marks w (evOp e) with Some id' => String.eqb id' id | None => false end
  || adds w (evOp e) && match evResult e with Err (OpErr _) | Err Conflict => false | _ => true end
     && match evAfter e with Some y => existsb (has_work_id id) (take 1 (standings w y)) | None => false end.

(** The claims of the operations have a timeout. *)
Definition sound (o : change) : Prop := ∀ w id now timeout, claim_of w o = Some (id, now, timeout) → 0 < timeout.

(** *** What a change does to the rows *)

Lemma indexed_standings w d : standings w (cloned (indexed d)) = standings w d.
Proof. by destruct w. Qed.
Lemma upsert_standings w clock id at_ d : standings w (upsertHRISWebhookReceiptDueIndexLocked clock id at_ d) = standings w d.
Proof. unfold upsertHRISWebhookReceiptDueIndexLocked. destruct (is_empty _); [done|]. by destruct (findi _ _) as [[]|]; destruct w. Qed.
Lemma remove_standings w id d : standings w (removeHRISWebhookReceiptDueIndexLocked id d) = standings w d.
Proof. unfold removeHRISWebhookReceiptDueIndexLocked. by destruct (is_empty _), w. Qed.
Lemma findi_fmap {A B} (f : A → B) (p : B → bool) l i x :
  findi (λ a, p (f a)) l = Some (i, x) → findi p (f <$> l) = Some (i, f x).
Proof.
  revert i. induction l as [|a l IH]; intros i; [done|]. rewrite fmap_cons. cbn [findi]. destruct (p (f a)); [naive_solver|].
  destruct (findi (λ a, p (f a)) l) as [[j y]|] eqn:H; [|done]. intros [= <- <-]. by rewrite (IH j eq_refl).
Qed.
Lemma look_receipt_standing tn id d i r :
  look_receipt tn id d = Ok (i, r) → findi (has_work_id id) (standings ReceiptWork d) = Some (i, receipt_standing r).
Proof.
  unfold look_receipt. destruct (findi _ _) as [[j x]|] eqn:Hf; [|done]. destruct (String.eqb _ _); [|done]. intros [= -> ->].
  by apply (findi_fmap receipt_standing (has_work_id id)).
Qed.
Lemma look_execution_standing tn id d i x :
  look_execution tn id d = Ok (i, x) → findi (has_work_id id) (standings ExecutionWork d) = Some (i, execution_standing x).
Proof.
  unfold look_execution. destruct (findi _ _) as [[j y]|] eqn:Hf; [|done]. destruct (String.eqb _ _); [|done]. intros [= -> ->].
  by apply (findi_fmap execution_standing (has_work_id id)).
Qed.

(** The row of an id is written. *)
Definition rewrites (w : Work) (id : string) (d d' : Webhooks) (P : Standing → Standing → Prop) : Prop :=
  ∃ i x y, findi (has_work_id id) (standings w d) = Some (i, x) ∧ standings w d' = <[i := y]> (standings w d)
           ∧ TrimSpace (wkID y) = id ∧ P x y.

Lemma closure_claims w o id now timeout c d c' d' :
  claim_of w o = Some (id, now, timeout) → closure o c d = (c', d', Ok true) →
  rewrites w id d d' (λ x y, (TrimSpace (wkStatus x) = busy w → ∀ t, wkSince x = Some t → t + timeout <= now)
                             ∧ wkStatus y = busy w ∧ wkSince y = Some now).
Proof.
  destruct w, o; try done; simpl; intros [= <- <- <-].
  - unfold claim_receipt_closure. destruct (look_receipt _ _ _) as [[i r]|] eqn:Hl; [|done].
    apply look_receipt_standing in Hl as Hf. destruct (is_empty _) eqn:Hr; [|done]. intros [= <- <-].
    do 3 eexists. split_and!; [done|rewrite upsert_standings; simpl; by rewrite list_fmap_insert| | |done|done].
    + apply findi_true in Hf. by apply String.eqb_eq in Hf.
    + simpl. intros Hs t Ht. unfold hrisWebhookReceiptClaimReason in Hr. rewrite Hs, Ht in Hr. simpl in Hr.
      unfold After in Hr. destruct (rkNow p <? t + rkTimeout p) eqn:?; [done|lia].
  - unfold claim_execution_closure. destruct (look_execution _ _ _) as [[i x]|] eqn:Hl; [|done].
    apply look_execution_standing in Hl as Hf. destruct (is_empty _) eqn:Hr; [|done]. intros [= <- <-].
    do 3 eexists. split_and!; [done|simpl; by rewrite list_fmap_insert| | |done|done].
    + apply findi_true in Hf. by apply String.eqb_eq in Hf.
    + simpl. intros Hs t Ht. unfold hrisWebhookExecutionClaimReason in Hr. destruct (negb _); [done|]. rewrite Hs, Ht in Hr. simpl in Hr.
      unfold After in Hr. destruct (_ <? t + _) eqn:?; [done|lia].
Qed.
Lemma closure_marks w o id c d c' d' :
  marks w o = Some id → closure o c d = (c', d', Ok true) → rewrites w id d d' (λ _ _, True).
Proof.
  destruct w, o; try done; simpl; intros [= <-].
  - unfold mark_receipt_closure. destruct (look_receipt _ _ _) as [[i r]|] eqn:Hl; [|done].
    apply look_receipt_standing in Hl as Hf. intros [= _ <-].
    do 3 eexists. split_and!; [done| | |done].
    + destruct adjust; rewrite ?upsert_standings, ?remove_standings; simpl; by rewrite list_fmap_insert.
    + apply findi_true, String.eqb_eq in Hf. by destruct started.
  - unfold restore_receipt_closure. destruct (look_receipt _ _ _) as [[i r]|] eqn:Hl; [|done].
    apply look_receipt_standing in Hl as Hf. intros [= _ <-].
    do 3 eexists. split_and!; [done|simpl; by rewrite list_fmap_insert|done|done].
  - unfold update_execution_closure. destruct (look_execution _ _ _) as [[i x]|] eqn:Hl; [|done].
    apply look_execution_standing in Hl as Hf. intros [= _ <-].
    do 3 eexists. split_and!; [done|simpl; by rewrite list_fmap_insert| |done].
    apply findi_true, String.eqb_eq in Hf. by destruct u.
Qed.
Lemma closure_other w o c d c' d' :
  claim_of w o = None → marks w o = None → closure o c d = (c', d', Ok true) →
  if adds w o then ∃ y n, standings w d' = take n (y :: standings w d) else standings w d' = standings w d.
Proof.
  destruct w, o; try done; cbn [adds closure]; intros _ _.
  - unfold receive_closure. destruct connector as [k|]; [|done]. intros [= _ <-].
    eexists _, (S (length (receipts d))). rewrite upsert_standings. simpl. by rewrite take_ge by (by rewrite length_fmap).
  - unfold create_execution_closure. destruct (findActiveHRISWebhookReplayExecutionLocked _ _ _); [done|]. by intros [= _ <-].
  - unfold claim_execution_closure. destruct (look_execution _ _ _) as [[i x]|]; [|done].
    destruct (negb _); [done|]. by intros [= _ <-].
  - unfold update_execution_closure. destruct (look_execution _ _ _) as [[i x]|]; [|done]. by intros [= _ <-].
  - unfold receive_closure. destruct connector as [k|]; [|done]. intros [= _ <-]. by rewrite upsert_standings.
  - unfold claim_receipt_closure. destruct (look_receipt _ _ _) as [[i r]|]; [|done].
    destruct (negb _); [done|]. intros [= _ <-]. by rewrite upsert_standings.
  - unfold mark_receipt_closure. destruct (look_receipt _ _ _) as [[i r]|]; [|done]. intros [= _ <-].
    by destruct adjust; rewrite ?upsert_standings, ?remove_standings.
  - unfold restore_receipt_closure. destruct (look_receipt _ _ _) as [[i r]|]; [|done]. by intros [= _ <-].
  - unfold create_execution_closure. destruct (findActiveHRISWebhookReplayExecutionLocked _ _ _); [done|]. intros [= _ <-].
    eexists _, maxWebhookExecutionLimit. simpl. by rewrite fmap_take.
Qed.

(** *** Work that is under way *)

(** If it is there, it is worked on since [t] at the earliest. *)
Definition held (w : Work) (id : string) (t : Z) (d : Webhooks) : Prop :=
  ∀ i x, findi (has_work_id id) (standings w d) = Some (i, x) → TrimSpace (wkStatus x) = busy w ∧ ∃ t', wkSince x = Some t' ∧ t <= t'.

Lemma findi_take {A} (p : A → bool) n l i x : findi p (take n l) = Some (i, x) → findi p l = Some (i, x).
Proof.
  revert n i. induction l as [|a l IH]; intros [|n] i; simpl; [done..|]. destruct (p a); [done|].
  destruct (findi p (take n l)) as [[j y]|] eqn:H; [|done]. intros ?. simplify_eq. by rewrite (IH _ _ H).
Qed.
(** A row of another id is written. *)
Lemma findi_other {A} (p : A → bool) l i y x0 j x :
  l !! i = Some x0 → p x0 = false → p y = false → findi p (<[i := y]> l) = Some (j, x) → findi p l = Some (j, x).
Proof.
  intros Hi H0 Hy Hf. pose proof (lookup_lt_Some _ _ _ Hi) as Hlt.
  assert (H : findi p (<[i := x0]> (<[i := y]> l)) = Some (j, if Nat.eqb i j then x0 else x)).
  { apply (findi_insert p _ i j y x0 x); [by apply list_lookup_insert_eq|congruence|done]. }
  rewrite list_insert_insert_eq, (list_insert_id l i x0 Hi) in H. rewrite H.
  destruct (Nat.eqb_spec i j) as [->|]; [|done]. apply findi_Some in Hf as (Hl & Hp & _).
  rewrite list_lookup_insert_eq in Hl by done. congruence.
Qed.
Lemma held_rewrites w id id' t d d' P :
  held w id t d → rewrites w id' d d' P →
  (id' = id → ∀ x y, P x y → TrimSpace (wkStatus x) = busy w → (∃ t', wkSince x = Some t' ∧ t <= t') →
     wkStatus y = busy w ∧ ∃ t', wkSince y = Some t' ∧ t <= t') → held w id t d'.
Proof.
  intros Hh (i & x & y & Hf & He & Hid & HP) Hk j z. rewrite He. destruct (decide (id' = id)) as [->|Hne].
  - erewrite findi_insert; [|by eapply findi_lookup| |exact Hf].
    + rewrite Nat.eqb_refl. intros [= <- <-]. destruct (Hh _ _ Hf). destruct (Hk eq_refl x y) as [-> ?]; [done..|]. split; [by destruct w|done].
    + unfold has_work_id. apply findi_true in Hf. by rewrite Hid, String.eqb_refl.
  - intros Hz. apply findi_other with (x0 := x) in Hz; [by eapply Hh|by eapply findi_lookup| |].
    + apply findi_true in Hf. unfold has_work_id in *. apply String.eqb_eq in Hf as ->. by apply String.eqb_neq.
    + unfold has_work_id. rewrite Hid. by apply String.eqb_neq.
Qed.

Definition held_in (w : Work) (id : string) (t : Z) (x : option Webhooks) : Prop := ∃ d, x = Some d ∧ held w id t d.
Lemma work_held_same w id t d d' : standings w d' = standings w d → held w id t d → held w id t d'.
Proof. unfold held. by intros ->. Qed.

Lemma work_closure_keeps w id t o c d c' d' :
  closure o c d = (c', d', Ok true) → held w id t d → sound o → marks w o ≠ Some id →
  (adds w o = true → existsb (has_work_id id) (take 1 (standings w d')) = false) → held w id t d'.
Proof.
  intros Hc Hh Hs Hm Ha. destruct (claim_of w o) as [[[id' now] timeout]|] eqn:Hcl.
  - eapply held_rewrites; [done|by eapply closure_claims|]. simpl. intros -> x y (Hx & -> & ->) Hb (t' & Ht & Hle).
    split; [done|]. eexists. split; [done|]. specialize (Hx Hb t' Ht). specialize (Hs _ _ _ _ Hcl). lia.
  - destruct (marks w o) as [id'|] eqn:Hma.
    + eapply held_rewrites; [done|by eapply closure_marks|]. intros ->. done.
    + pose proof (closure_other _ _ _ _ _ _ Hcl Hma Hc) as Ho. destruct (adds w o); [|by eapply work_held_same].
      destruct Ho as (y & n & He). specialize (Ha eq_refl). intros i x Hf. rewrite He in Ha, Hf.
      destruct n as [|n]; [done|]. simpl in Ha, Hf. rewrite orb_false_r in Ha. rewrite Ha in Hf.
      destruct (findi _ (take n _)) as [[j z]|] eqn:Hz; [|done]. apply findi_take in Hz. simplify_eq. by eapply Hh.
Qed.

Lemma seen_standings w b d : standings w (seen b (Some d)) = standings w d.
Proof. by destruct w. Qed.
Lemma work_change_keeps w id t o c' x y :
  changes o c' x y → held_in w id t x → sound o → frees w id (mkEvent o (Ok c') x y) = false → held_in w id t y.
Proof.
  intros (b & c & d' & Hm & ->) (d & -> & Hh) Hs Hf. unfold frees in Hf. simpl in Hf.
  apply orb_false_iff in Hf as [Hf1 Hf2]. eexists. split; [done|].
  apply (work_held_same w id t d'); [apply indexed_standings|].
  eapply (work_closure_keeps w id t o c (seen b (Some d)) c' d'); [done|by eapply work_held_same; [apply seen_standings|]|done| |].
  - destruct (marks w o); [|done]. intros [= ->]. by rewrite String.eqb_refl in Hf1.
  - intros Ha. rewrite Ha in Hf2. simpl in Hf2. by rewrite indexed_standings in Hf2.
Qed.

Lemma work_event_keeps w id t e :
  explained e → frees w id e = false ∧ sound (evOp e) → held_in w id t (evBefore e) → held_in w id t (evAfter e).
Proof.
  destruct e as [o r x y]. unfold explained. simpl. intros He [Hf Hs] Hh.
  assert (Hc : ∀ c' r', changes o c' x y → frees w id (mkEvent o r' x y) = false →
    match r' with Ok _ | Err StoreErr => True | _ => False end → held_in w id t y).
  { intros c' r' Hc Hf' Hr. eapply work_change_keeps; [done..|]. unfold frees in *. simpl in *. by destruct r' as [|[]]. }
  destruct r as [c'|[]]; [destruct He as [He|[_ ->]]|destruct He as [_ ->]|destruct He as [->|[c' He]]|rewrite He];
    solve [done|by apply (Hc c' (Ok c'))|by apply (Hc c' (Err StoreErr))].
Qed.

(** The claim an event won: the work is held afterwards, and any claim before it was over. *)
Lemma takes_holds w id now timeout e :
  explained e → takes w id now timeout e → held_in w id now (evAfter e)
  ∧ ∀ t, held_in w id t (evBefore e) → t + timeout <= now.
Proof.
  destruct e as [o r x y]. unfold explained, takes. simpl. intros He (Hc & c & -> & Hr).
  destruct He as [(b & c0 & d' & Hm & ->)|[(b & c0 & c' & d' & Hm & Hcc) _]].
  - pose proof (closure_claims _ _ _ _ _ _ _ _ _ Hc Hm) as Hw. split.
    + eexists. split; [done|]. apply (work_held_same w id now d'); [apply indexed_standings|].
      destruct Hw as (i & a & b' & Hf & Hs & Hid & _ & Hb & Ht). intros j z. rewrite Hs.
      erewrite findi_insert; [|by eapply findi_lookup| |exact Hf].
      * rewrite Nat.eqb_refl. intros [= _ <-]. rewrite Hb, Ht. split; [by destruct w|]. eexists. by split.
      * unfold has_work_id. apply findi_true in Hf. by rewrite Hid, String.eqb_refl.
    + intros t (d & -> & Hh). destruct Hw as (i & a & b' & Hf & _ & _ & Hx & _).
      rewrite seen_standings in Hf. destruct (Hh _ _ Hf) as (Hb & t' & Ht & Hle). specialize (Hx Hb t' Ht). lia.
  - exfalso. specialize (Hcc c eq_refl) as ->. clear -Hc Hm Hr. destruct w, o; try done; simpl in Hm.
    + unfold claim_receipt_closure in Hm. destruct (look_receipt _ _ _) as [[i r]|]; [|done].
      destruct (is_empty _) eqn:He; [done|]. injection Hm as <- _. by apply is_empty_false in He.
    + unfold claim_execution_closure in Hm. destruct (look_execution _ _ _) as [[i r]|]; [|done].
      destruct (is_empty _) eqn:He; [done|]. injection Hm as <- _. by apply is_empty_false in He.
Qed.

(** Workers do not take the same receipt, or the same execution, at once.  In every
    interleaving of the accesses of any number of replicas, with any failures of the
    store: when one was claimed and is claimed again later, then either it was marked or
    put back in between, or another row of its id was put in front of it, or the second
    claim came no earlier than its timeout after the first. *)
Theorem work_claimed_once w ms x ds i j ei ej id ti hi tj hj :
  let es := (runs ms (mkSystem x (idle <$> ds))).2 in
  Forall (λ m, match m with Begins _ o _ => sound o | Steps _ _ => True end) ms →
  (i < j)%nat → es !! i = Some ei → es !! j = Some ej → takes w id ti hi ei → takes w id tj hj ej →
  (∀ k e, (i < k < j)%nat → es !! k = Some e → frees w id e = false) →
  ti + hj <= tj.
Proof.
  intros es Hms Hij Hi Hj Hwi Hwj Hbetween.
  pose proof (replicas_atomic (λ d, eq_refl) ms _ (idle_ready x ds)) as Hrun.
  assert (Forall (λ e, sound (evOp e)) es) as Hs.
  { apply runs_ops; [done|]. apply Forall_fmap, Forall_forall. by intros d _ o. }
  subst es. destruct (runs ms (mkSystem x (idle <$> ds))) as [s' es]. destruct Hrun as [_ Hl]. simpl in *.
  apply (takes_holds w id tj hj ej); [by eapply linked_explained|done|].
  eapply (linked_between (held_in w id ti) (λ e, frees w id e = false ∧ sound (evOp e)));
    [intros; by eapply work_event_keeps|done|done|done| | |done].
  - eapply takes_holds; [by eapply linked_explained|done].
  - intros k e Hk He. split; [by eapply Hbetween|]. by apply (Forall_lookup_1 _ _ _ _ Hs He).
Qed.

(** What the operations begin is sound. *)
Lemma claim_receipt_sound clock tn id p o c :
  ClaimHRISWebhookReceiptForProcessingWithBackoff clock tn id p = Ok (o, c) → sound o.
Proof.
  unfold ClaimHRISWebhookReceiptForProcessingWithBackoff, named. destruct (is_empty _); [done|]. destruct (is_empty _); [done|].
  intros [= <- <-] [] ??? [=]. subst. unfold normalizeHRISWebhookReceiptClaimParams. destruct (Normalize _ _). simpl.
  destruct (rkTimeout p <=? 0) eqn:?; [done|lia].
Qed.
Lemma claim_execution_sound clock tn id timeout now o c :
  ClaimHRISWebhookExecution clock tn id timeout now = Ok (o, c) → sound o.
Proof.
  unfold ClaimHRISWebhookExecution, named. destruct (is_empty _); [done|]. destruct (is_empty _); [done|].
  simpl. intros [= <- <-] [] ??? [=]. subst. destruct (timeout <=? 0) eqn:?; [done|lia].
Qed.

(** ** Examples *)

#[local] Abbreviation t0 := (1775912400 * second).
#[local] Abbreviation ex_receipt :=
  (mkReceipt "whr_1" "t" "c1" "talenta" "employee.created" "" "" ∅ "{}" "" "received" 0 "" t0 None None).
#[local] Abbreviation ex_document := (mkWebhooks [ex_receipt] [] [mkDueReceipt "whr_1" t0] [] []).
#[local] Abbreviation ex_claim := (λ t, mkReceiptClaim 3 minute hour 0 t).
Definition webhook_begun (i : nat) (r : begins) : list Move :=
  match r with Ok (o, c) => [Begins i o c] | Err _ => [] end.
Lemma webhook_begun_sound i r :
  (∀ o c, r = Ok (o, c) → sound o) → Forall (λ m, match m with Begins _ o _ => sound o | Steps _ _ => True end) (webhook_begun i r).
Proof. intros H. destruct r as [[o c]|]; [|done]. apply Forall_singleton. by eapply H. Qed.
#[local] Abbreviation claims_at := (λ i t, webhook_begun i (ClaimHRISWebhookReceiptForProcessingWithBackoff t "t" " whr_1" (ex_claim t))).
#[local] Abbreviation answers := (λ i : nat, Steps i Answers).
#[local] Abbreviation ex_webhooks := (mkSystem (Some ex_document) (idle <$> [ex_document; ex_document])).

(** The second replica reads while the first writes; its write is refused, and its next
    attempt finds the receipt in flight.  Five minutes after the first claim it wins. *)
#[local] Abbreviation two_claims :=
  (claims_at 0%nat t0 ++ claims_at 1%nat t0 ++ [answers 0%nat; answers 1%nat; answers 0%nat; answers 1%nat; answers 1%nat]
   ++ claims_at 1%nat (t0 + 5 * minute) ++ [answers 1%nat; answers 1%nat]).
Lemma work_claimed_once_witness :
  let es := (runs two_claims ex_webhooks).2 in
  (λ e, match evResult e with Ok c => Some (capReason c) | Err _ => None end) <$> es = [Some ""; Some "in_flight"; Some ""]
  ∧ t0 + 5 * minute <= t0 + 5 * minute.
Proof.
  cbv zeta. split; [vm_compute; reflexivity|].
  apply (work_claimed_once ReceiptWork two_claims (Some ex_document) [ex_document; ex_document] 0 2
           (default (mkEvent CreatesExecution (Err Conflict) None None) ((runs two_claims ex_webhooks).2 !! 0%nat))
           (default (mkEvent CreatesExecution (Err Conflict) None None) ((runs two_claims ex_webhooks).2 !! 2%nat)) "whr_1" t0 (5 * minute)).
  - rewrite !Forall_app. split_and!; try (apply webhook_begun_sound; intros o c; apply claim_receipt_sound); repeat constructor.
  - lia.
  - vm_compute; reflexivity.
  - vm_compute; reflexivity.
  - split; [vm_compute; reflexivity|]. eexists. split; vm_compute; reflexivity.
  - split; [vm_compute; reflexivity|]. eexists. split; vm_compute; reflexivity.
  - intros k e Hk. replace k with 1%nat by lia. intros He. vm_compute in He. injection He as <-. vm_compute; reflexivity.
Defined.
