(* ===== verification/WebhookQueue.v ===== *)
(** * The index of the queued executions

    A worker asks for what it may run through the ids of the queued executions, which are
    kept in the order of the queue, and the stale running ones, instead of sorting the
    whole table.  This file shows that the answer is the same. *)

From stdpp Require Import sorting.
From S2P Require Import Prelude GoStrings GoTime Bytes GoText Backoff Cas PullState Normalizer Directory Jit Webhooks.
#[local] Open Scope string_scope.
#[local] Open Scope list_scope.
#[local] Open Scope Z_scope.

(** ** Sorted lists *)

Lemma ascii_compare_N a b : Ascii.compare a b = N.compare (Ascii.N_of_ascii a) (Ascii.N_of_ascii b).
Proof. done. Qed.
Lemma string_ltb_trans s1 s2 s3 : String.ltb s1 s2 = true → String.ltb s2 s3 = true → String.ltb s1 s3 = true.
Proof.
  unfold String.ltb. revert s2 s3. induction s1 as [|a s1 IH]; intros [|b s2] [|c s3]; simpl; try done.
  rewrite !ascii_compare_N. specialize (IH s2 s3).
  destruct (N.compare_spec (Ascii.N_of_ascii a) (Ascii.N_of_ascii b)) as [H1|H1|H1],
    (N.compare_spec (Ascii.N_of_ascii b) (Ascii.N_of_ascii c)) as [H2|H2|H2],
    (N.compare_spec (Ascii.N_of_ascii a) (Ascii.N_of_ascii c)) as [H3|H3|H3]; try done; try lia.
Qed.
Lemma string_ltb_irrefl s : String.ltb s s = false.
Proof. unfold String.ltb. induction s as [|a s IH]; [done|]. simpl. by rewrite ascii_compare_N, N.compare_refl. Qed.
Lemma string_ltb_total s1 s2 : s1 ≠ s2 → String.ltb s1 s2 = false → String.ltb s2 s1 = true.
Proof.
  unfold String.ltb. rewrite (String.compare_antisym s2). destruct (String.compare s1 s2) eqn:H; try done.
  by apply String.compare_eq_iff in H.
Qed.

Section order.
Context {A B : Type} (before : A → A → bool) (key : A → B).
#[local] Abbreviation R := (λ x y, before x y = true).
Hypothesis trans : ∀ x y z, before x y = true → before y z = true → before x z = true.
Hypothesis irrefl : ∀ x, before x x = false.
Hypothesis total : ∀ x y, key x ≠ key y → before x y = false → before y x = true.

Lemma insert_by_perm x l : insert_by before x l ≡ₚ x :: l.
Proof. induction l as [|y l IH]; [done|]. simpl. destruct (before y x); [|done]. rewrite IH. apply Permutation_swap. Qed.
Lemma sort_by_perm l : sort_by before l ≡ₚ l.
Proof. induction l as [|x l IH]; [done|]. change (insert_by before x (sort_by before l) ≡ₚ x :: l). by rewrite insert_by_perm, IH. Qed.
Lemma insert_by_sorted x l :
  StronglySorted R l → Forall (λ y, key x ≠ key y) l → StronglySorted R (insert_by before x l).
Proof.
  induction l as [|y l IH]; intros Hl Hx; simpl; [by repeat constructor|].
  apply StronglySorted_cons in Hl as [Hy Hl]. inversion Hx as [|? ? Hxy Hx']. subst.
  destruct (before y x) eqn:Hb; apply StronglySorted_cons.
  - split; [|by apply IH]. rewrite insert_by_perm. by constructor.
  - assert (before x y = true) as Hxb by (by apply total; [congruence|]).
    split; [|by apply StronglySorted_cons]. constructor; [done|].
    eapply Forall_impl; [exact Hy|]. intros z. by apply trans.
Qed.
Lemma sort_by_sorted l : NoDup (key <$> l) → StronglySorted R (sort_by before l).
Proof.
  induction l as [|x l IH]; [constructor|]. rewrite fmap_cons. intros [Hx Hl]%NoDup_cons.
  change (StronglySorted R (insert_by before x (sort_by before l))). apply insert_by_sorted; [by apply IH|].
  rewrite sort_by_perm. apply Forall_forall. intros y Hy Heq. apply Hx. rewrite Heq. by apply list_elem_of_fmap_2.
Qed.
Lemma sorted_same l1 l2 : StronglySorted R l1 → StronglySorted R l2 → l1 ≡ₚ l2 → l1 = l2.
Proof.
  assert (AntiSymm (=) R) as Hanti.
  { intros x y Hx Hy. pose proof (trans _ _ _ Hx Hy) as H. by rewrite irrefl in H. }
  intros. by apply (StronglySorted_unique R).
Qed.
End order.

Lemma sorted_filterb {A} (R : relation A) p l : StronglySorted R l → StronglySorted R (filterb p l).
Proof.
  induction l as [|x l IH]; [done|]. rewrite StronglySorted_cons. intros [Hx Hl]. simpl. destruct (p x); [|by apply IH].
  apply StronglySorted_cons. split; [|by apply IH]. apply Forall_forall. intros y [_ Hy]%elem_of_filterb.
  by eapply Forall_forall in Hx.
Qed.
#[export] Instance filterb_perm {A} (p : A → bool) : Proper ((≡ₚ) ==> (≡ₚ)) (filterb p).
Proof.
  induction 1 as [|x l1 l2 _ IH|x y l|l1 l2 l3 _ IH1 _ IH2]; simpl; [done| | |by rewrite IH1].
  - destruct (p x); by rewrite IH.
  - destruct (p x), (p y); done || apply Permutation_swap.
Qed.
Lemma sorted_mono {A} (R S : relation A) l :
  (∀ x y, x ∈ l → y ∈ l → R x y → S x y) → StronglySorted R l → StronglySorted S l.
Proof.
  induction l as [|x l IH]; [constructor|]. rewrite !StronglySorted_cons. intros H [Hx Hl]. split.
  - apply Forall_forall. intros y Hy. apply H; [by left|by right|]. by eapply Forall_forall in Hx.
  - apply IH; [|done]. intros y z Hy Hz. apply H; by right.
Qed.

(** ** The order of the executions *)

Abbreviation earlier time := (λ x y, by_time time x y = true).
Lemma by_time_spec time x y :
  by_time time x y = true ↔ time x < time y ∨ time x = time y ∧ String.ltb (hxID x) (hxID y) = true.
Proof. unfold by_time, Before. destruct (Z.eqb_spec (time x) (time y)); [naive_solver lia|]. rewrite Z.ltb_lt. naive_solver. Qed.
Lemma by_time_trans time x y z : by_time time x y = true → by_time time y z = true → by_time time x z = true.
Proof.
  rewrite !by_time_spec. intros [|[? H1]] [|[? H2]]; [left; lia..|]. right. split; [congruence|]. by eapply string_ltb_trans.
Qed.
Lemma by_time_irrefl time x : by_time time x x = false.
Proof. unfold by_time. by rewrite Z.eqb_refl, string_ltb_irrefl. Qed.
Lemma by_time_total time x y : hxID x ≠ hxID y → by_time time x y = false → by_time time y x = true.
Proof.
  unfold by_time, Before. rewrite (Z.eqb_sym (time y)). destruct (Z.eqb_spec (time x) (time y)); [by apply string_ltb_total|].
  rewrite Z.ltb_ge, Z.ltb_lt. lia.
Qed.

Lemma merge_claims_nil l : merge_claims l [] = l.
Proof. by destruct l. Qed.
Lemma merge_claims_cons x l1 y l2 :
  merge_claims (x :: l1) (y :: l2) = if by_time hrisWebhookExecutionClaimSortTime x y then x :: merge_claims l1 (y :: l2)
                                     else y :: merge_claims (x :: l1) l2.
Proof. done. Qed.
Lemma merge_claims_perm l1 l2 : merge_claims l1 l2 ≡ₚ l1 ++ l2.
Proof.
  revert l2. induction l1 as [|x l1 IH1]; [done|]. intros l2. induction l2 as [|y l2 IH2].
  { by rewrite merge_claims_nil, app_nil_r. }
  rewrite merge_claims_cons. destruct (by_time _ x y); [by rewrite IH1|]. rewrite IH2. apply Permutation_middle.
Qed.
Lemma merge_claims_sorted l1 l2 :
  NoDup (hxID <$> l1 ++ l2) → StronglySorted (earlier hrisWebhookExecutionClaimSortTime) l1 →
  StronglySorted (earlier hrisWebhookExecutionClaimSortTime) l2 →
  StronglySorted (earlier hrisWebhookExecutionClaimSortTime) (merge_claims l1 l2).
Proof.
  revert l2. induction l1 as [|x l1 IH1]; [done|]. intros l2. induction l2 as [|y l2 IH2]; [by rewrite merge_claims_nil|].
  intros Hnd H1 H2. rewrite merge_claims_cons. pose proof H1 as [Hx Hs1]%StronglySorted_cons. pose proof H2 as [Hy Hs2]%StronglySorted_cons.
  rewrite <-app_comm_cons, fmap_cons in Hnd. apply NoDup_cons in Hnd as [Hnx Hnd].
  destruct (by_time _ x y) eqn:Hb; apply StronglySorted_cons.
  - split; [|by apply IH1]. rewrite merge_claims_perm, Forall_app. split; [done|]. constructor; [done|].
    eapply Forall_impl; [exact Hy|]. intros z. by apply by_time_trans.
  - assert (by_time hrisWebhookExecutionClaimSortTime y x = true) as Hyx.
    { apply by_time_total; [|done]. intros Heq. apply Hnx. rewrite Heq. apply list_elem_of_fmap_2. set_solver. }
    rewrite <-Permutation_middle, fmap_cons in Hnd. apply NoDup_cons in Hnd as [_ Hnd]. split.
    + rewrite merge_claims_perm. simpl. constructor; [done|]. apply Forall_app. split; [|done].
      eapply Forall_impl; [exact Hx|]. intros z. by apply by_time_trans.
    + apply IH2; [|done..]. simpl. apply NoDup_cons. split; [|done]. rewrite fmap_app in *. simpl in *. set_solver.
Qed.
Lemma merge_claims_take n a b l1 l2 : (n ≤ a)%nat → (n ≤ b)%nat →
  take n (merge_claims (take a l1) (take b l2)) = take n (merge_claims l1 l2).
Proof.
  revert n a b l2. induction l1 as [|x l1 IH1]; intros n a b l2 Ha Hb.
  { destruct a; simpl; by rewrite take_take, Nat.min_l. }
  revert n a b Ha Hb. induction l2 as [|y l2 IH2]; intros n a b Ha Hb.
  { rewrite take_nil, !merge_claims_nil. by rewrite take_take, Nat.min_l. }
  destruct n as [|n]; [by rewrite !take_0|]. destruct a as [|a], b as [|b]; [lia..|].
  rewrite !firstn_cons, !merge_claims_cons. destruct (by_time _ x y); rewrite !firstn_cons; f_equal.
  - rewrite <-(firstn_cons b y l2). apply IH1; lia.
  - rewrite <-(firstn_cons a x l1). apply IH2; lia.
Qed.
Lemma merge_limited limit l1 l2 :
  limited limit (merge_claims (limited limit l1) (limited limit l2)) = limited limit (merge_claims l1 l2).
Proof. unfold limited. destruct (0 <? limit); [by apply merge_claims_take|done]. Qed.

(** ** The index *)

Lemma due_prefix_take now n l : due_prefix now (take n l) = take n (due_prefix now l).
Proof. revert n. induction l as [|x l IH]; intros [|n]; [done..|]. simpl. destruct (_ && _); [done|]. by rewrite IH. Qed.
Lemma due_prefix_limited now limit l : due_prefix now (limited limit l) = limited limit (due_prefix now l).
Proof. unfold limited. destruct (0 <? limit); [apply due_prefix_take|done]. Qed.
Lemma limited_twice {A} limit (l : list A) : limited limit (limited limit l) = limited limit l.
Proof. unfold limited. destruct (0 <? limit); [|done]. by rewrite take_take, Nat.min_id. Qed.

Definition due_execution (now : Z) (x : HRISWebhookExecution) : bool := negb (negb (IsZero (QueuedAt x)) && After (QueuedAt x) now).
Lemma filterb_nothing {A} (p : A → bool) l : (∀ x, x ∈ l → p x = false) → filterb p l = [].
Proof. induction l as [|x l IH]; intros H; [done|]. simpl. rewrite (H x) by by left. apply IH. intros y Hy. apply H. by right. Qed.
Lemma due_prefix_sorted now l :
  Forall (λ x, IsZero (QueuedAt x) = false) l → StronglySorted (earlier QueuedAt) l → due_prefix now l = filterb (due_execution now) l.
Proof.
  induction l as [|x l IH]; [done|]. intros [Hx Hl]%Forall_cons [Hlt Hs]%StronglySorted_cons.
  simpl. unfold due_execution at 1. rewrite Hx. simpl. destruct (After (QueuedAt x) now) eqn:Ha; simpl; [|by rewrite IH].
  symmetry. apply filterb_nothing. intros y Hy. eapply Forall_forall in Hlt; [|exact Hy]. eapply Forall_forall in Hl; [|exact Hy].
  apply by_time_spec in Hlt. unfold due_execution. rewrite Hl. unfold After in *. simpl. apply negb_false_iff. simpl. lia.
Qed.

(** The rows of a table have ids of their own, and the queued ones a time. *)
Record table_ok (items : list HRISWebhookExecution) : Prop := {
  table_ids : NoDup ((λ x, TrimSpace (hxID x)) <$> items);
  table_named : Forall (λ x, is_empty (TrimSpace (hxID x)) = false) items;
  table_timed : Forall (λ x, TrimSpace (hxStatus x) = "queued" → IsZero (QueuedAt x) = false) items
}.
Lemma table_ids_plain items : table_ok items → NoDup (hxID <$> items).
Proof. intros [H _ _]. apply (NoDup_fmap_1 TrimSpace). by rewrite <-list_fmap_compose. Qed.
Lemma table_same items x y : table_ok items → x ∈ items → y ∈ items → TrimSpace (hxID x) = TrimSpace (hxID y) → x = y.
Proof.
  intros [H _ _] [i Hi]%list_elem_of_lookup [j Hj]%list_elem_of_lookup Heq.
  assert (i = j) as -> by (eapply (NoDup_lookup _ i j (TrimSpace (hxID x)) H); rewrite list_lookup_fmap; [by rewrite Hi|by rewrite Hj, Heq]).
  congruence.
Qed.
Lemma queued_execution_self items x :
  table_ok items → x ∈ items → isQueuedHRISWebhookExecutionCandidate x = true → queued_execution items (hxID x) = Some x.
Proof.
  intros Hok Hx Hq. unfold queued_execution, findHRISWebhookExecutionByIDLocked.
  destruct Hok as [Hids Hnamed Ht] eqn:Hk. clear Hk. rewrite (proj1 (Forall_forall _ _) Hnamed x Hx).
  destruct (findi _ items) as [[i y]|] eqn:Hf; simpl.
  - assert (y = x) as ->; [|by rewrite Hq]. pose proof (findi_true _ _ _ _ Hf) as He. apply String.eqb_eq in He.
    apply findi_elem in Hf. by eapply table_same.
  - eapply findi_None in Hf; [|exact Hx]. unfold has_execution_id in Hf. by rewrite String.eqb_refl in Hf.
Qed.
Lemma omap_ids items l :
  table_ok items → (∀ x, x ∈ l → x ∈ items ∧ isQueuedHRISWebhookExecutionCandidate x = true) →
  omap (queued_execution items) (filterb (λ id, negb (is_empty (TrimSpace id))) (hxID <$> l)) = l.
Proof.
  intros Hok. induction l as [|x l IH]; intros Hl; [done|]. destruct (Hl x) as [Hx Hq]; [by left|]. rewrite fmap_cons. simpl.
  pose proof (table_named _ Hok) as Hn. eapply Forall_forall in Hn; [|exact Hx]. simpl in Hn. rewrite Hn. simpl.
  rewrite (queued_execution_self items x) by done. f_equal. apply IH. intros y Hy. apply Hl. by right.
Qed.

Definition queued_of (kind : string) (items : list HRISWebhookExecution) : list HRISWebhookExecution :=
  sort_by (by_time QueuedAt) (filterb (λ x, of_kind kind x && isQueuedHRISWebhookExecutionCandidate x) items).
Lemma elem_of_queued_of kind items x :
  x ∈ queued_of kind items ↔ of_kind kind x = true ∧ isQueuedHRISWebhookExecutionCandidate x = true ∧ x ∈ items.
Proof. unfold queued_of. rewrite elem_of_sort_by, elem_of_filterb, andb_true_iff. tauto. Qed.
Lemma kind_normal kind :
  normalizeHRISWebhookExecutionKind kind = "receipt_process" ∨ normalizeHRISWebhookExecutionKind kind = "dlq_replay"
  ∨ normalizeHRISWebhookExecutionKind kind = "".
Proof.
  unfold normalizeHRISWebhookExecutionKind, choose. cbn -[String.eqb ToLower TrimSpace].
  destruct (String.eqb _ _); [by left|]. destruct (String.eqb _ _); [by right; left|by right; right].
Qed.
Lemma of_kind_normal kind kind' :
  normalizeHRISWebhookExecutionKind kind = normalizeHRISWebhookExecutionKind kind' → of_kind kind = of_kind kind'.
Proof. unfold of_kind. by intros ->. Qed.
Lemma listed_from_index kind limit d :
  table_ok (executions d) → normalizeHRISWebhookExecutionKind kind ≠ "" →
  listQueuedHRISWebhookExecutionsLocked kind limit (indexed d) = limited limit (queued_of kind (executions d)).
Proof.
  intros Hok Hk. unfold listQueuedHRISWebhookExecutionsLocked. f_equal.
  change (executions (indexed d)) with (executions d). unfold queued_ids.
  destruct (kind_normal kind) as [Hn|[Hn|Hn]]; [| |done]; rewrite Hn; unfold queued_of; simpl;
    [rewrite (of_kind_normal kind "receipt_process") by by rewrite Hn|rewrite (of_kind_normal kind "dlq_replay") by by rewrite Hn];
    apply omap_ids; try done; by intros x [[_ Hx]%andb_true_iff Hi]%elem_of_sort_by%elem_of_filterb.
Qed.

(** *** What is claimable is queued and due, or running and stale *)

Lemma queued_candidate x :
  isQueuedHRISWebhookExecutionCandidate x = true ↔
  isWorkerManagedHRISWebhookExecutionCandidate x = true ∧ TrimSpace (hxStatus x) = "queued".
Proof. unfold isQueuedHRISWebhookExecutionCandidate. by rewrite andb_true_iff, String.eqb_eq. Qed.
Lemma claimable_queued kind timeout now x :
  TrimSpace (hxStatus x) = "queued" →
  claimable_execution kind timeout now x = of_kind kind x && isQueuedHRISWebhookExecutionCandidate x && due_execution now x.
Proof.
  intros Hs. unfold claimable_execution, hrisWebhookExecutionClaimReason, isQueuedHRISWebhookExecutionCandidate, due_execution.
  rewrite Hs. simpl. destruct (of_kind kind x), (isWorkerManagedHRISWebhookExecutionCandidate x); try done. simpl. by destruct (_ && _).
Qed.
Lemma claimable_status kind timeout now x :
  claimable_execution kind timeout now x = true → TrimSpace (hxStatus x) = "queued" ∨ TrimSpace (hxStatus x) = "running".
Proof.
  unfold claimable_execution, hrisWebhookExecutionClaimReason. intros [_ H]%andb_true_iff. destruct (negb _); [done|].
  destruct (String.eqb_spec (TrimSpace (hxStatus x)) "queued"); [by left|].
  destruct (String.eqb_spec (TrimSpace (hxStatus x)) "running"); [by right|done].
Qed.
Lemma queued_sort_time x :
  TrimSpace (hxStatus x) = "queued" → IsZero (QueuedAt x) = false → hrisWebhookExecutionClaimSortTime x = QueuedAt x.
Proof. intros Hs Hz. unfold hrisWebhookExecutionClaimSortTime. by rewrite Hs, Hz. Qed.

Definition stale_of (kind : string) (timeout now : Z) (items : list HRISWebhookExecution) : list HRISWebhookExecution :=
  sort_by (by_time hrisWebhookExecutionClaimSortTime)
    (filterb (λ x, claimable_execution kind timeout now x && String.eqb (TrimSpace (hxStatus x)) "running") items).
Lemma claimable_split kind timeout now items :
  filterb (due_execution now) (queued_of kind items) ++ stale_of kind timeout now items
  ≡ₚ filterb (claimable_execution kind timeout now) items.
Proof.
  unfold queued_of, stale_of. rewrite !sort_by_perm.
  induction items as [|x items IH]; [done|]. simpl.
  destruct (decide (TrimSpace (hxStatus x) = "queued")) as [Hq|Hq].
  - rewrite (claimable_queued kind timeout now x Hq), Hq. simpl. rewrite andb_false_r.
    destruct (_ && isQueuedHRISWebhookExecutionCandidate x); simpl; [|done]. destruct (due_execution now x); simpl; by rewrite IH.
  - assert (isQueuedHRISWebhookExecutionCandidate x = false) as ->.
    { apply not_true_iff_false. by intros [_ ?]%queued_candidate. }
    rewrite andb_false_r. destruct (claimable_execution kind timeout now x) eqn:Hc; simpl; [|done].
    destruct (claimable_status _ _ _ _ Hc) as [|Hr]; [done|]. rewrite Hr. simpl. by rewrite <-Permutation_middle, IH.
Qed.

Lemma nodup_filterb p items : NoDup (hxID <$> items) → NoDup (hxID <$> filterb p items).
Proof.
  intros H. induction items as [|x items IH]; [done|]. rewrite fmap_cons in H. apply NoDup_cons in H as [Hx H]. simpl.
  destruct (p x); [|by apply IH]. rewrite fmap_cons. apply NoDup_cons. split; [|by apply IH].
  intros (y & He & [_ Hy]%elem_of_filterb)%list_elem_of_fmap. apply Hx. rewrite He. by apply list_elem_of_fmap_2.
Qed.
Lemma queued_sorted kind items : NoDup (hxID <$> items) → StronglySorted (earlier QueuedAt) (queued_of kind items).
Proof. intros H. apply (sort_by_sorted _ hxID (by_time_trans _) (by_time_total _)). by apply nodup_filterb. Qed.
Lemma queue_time kind items x : table_ok items → x ∈ queued_of kind items → hrisWebhookExecutionClaimSortTime x = QueuedAt x.
Proof.
  intros Hok (_ & Hq & Hx)%elem_of_queued_of. apply queued_candidate in Hq as [_ Hq]. apply queued_sort_time; [done|].
  exact (proj1 (Forall_forall _ _) (table_timed _ Hok) x Hx Hq).
Qed.
Lemma due_prefix_queued kind now items :
  table_ok items → due_prefix now (queued_of kind items) = filterb (due_execution now) (queued_of kind items).
Proof.
  intros Hok. apply due_prefix_sorted.
  - apply Forall_forall. intros x (_ & Hq & Hx)%elem_of_queued_of. apply queued_candidate in Hq as [_ Hq].
    exact (proj1 (Forall_forall _ _) (table_timed _ Hok) x Hx Hq).
  - apply queued_sorted, table_ids_plain, Hok.
Qed.
Lemma merged_is_sorted kind timeout now items :
  table_ok items →
  merge_claims (filterb (due_execution now) (queued_of kind items)) (stale_of kind timeout now items)
  = sort_by (by_time hrisWebhookExecutionClaimSortTime) (filterb (claimable_execution kind timeout now) items).
Proof.
  intros Hok. pose proof (table_ids_plain _ Hok) as Hids.
  apply (sorted_same _ (by_time_trans hrisWebhookExecutionClaimSortTime) (by_time_irrefl hrisWebhookExecutionClaimSortTime)).
  - apply merge_claims_sorted.
    + rewrite claimable_split. by apply nodup_filterb.
    + apply sorted_filterb. eapply sorted_mono; [|by apply queued_sorted].
      intros x y Hx Hy. rewrite !by_time_spec, !(queue_time kind items) by done. done.
    + apply (sort_by_sorted _ hxID (by_time_trans _) (by_time_total _)). by apply nodup_filterb.
  - apply (sort_by_sorted _ hxID (by_time_trans _) (by_time_total _)). by apply nodup_filterb.
  - by rewrite merge_claims_perm, claimable_split, sort_by_perm.
Qed.

(** C7: A worker that asks through the index gets what it would get from the whole table.
    For every kind of work, timeout, time and limit, on every document whose executions
    have different ids and whose queued ones have a time, as it is in memory after a
    change or a read: the same executions, in the same order. *)
Theorem index_equivalent clock kind processingTimeout now limit d :
  table_ok (executions d) →
  ListIndexedClaimableHRISWebhookExecutions clock kind processingTimeout now limit (indexed d)
  = ListClaimableHRISWebhookExecutions clock kind processingTimeout now limit (indexed d).
Proof.
  intros Hok. unfold ListIndexedClaimableHRISWebhookExecutions, ListClaimableHRISWebhookExecutions.
  destruct (normalizeHRISWebhookExecutionClaimParams _ _ _) as [timeout at_].
  unfold listIndexedClaimableHRISWebhookExecutionsLocked, listClaimableHRISWebhookExecutionsLocked,
    listStaleRunningHRISWebhookExecutionsLocked, listDueQueuedHRISWebhookExecutionsFromIndex.
  change (executions (indexed d)) with (executions d).
  destruct (is_empty _) eqn:Hk.
  { apply is_empty_true in Hk. unfold listQueuedHRISWebhookExecutionsLocked, queued_ids. rewrite Hk. simpl.
    assert (∀ A, limited limit (@nil A) = []) as Hnil by (intros A; unfold limited; destruct (0 <? limit); [apply take_nil|done]).
    by rewrite !Hnil. }
  apply is_empty_false in Hk. rewrite listed_from_index, due_prefix_limited, limited_twice by done.
  rewrite merge_limited. f_equal. rewrite due_prefix_queued by done. by apply merged_is_sorted.
Qed.

(** ** Examples *)

#[local] Abbreviation ex_execution := (λ id status queued started,
  mkExecution id "t" "receipt_process" "whr_1" "whr_1" "c1" "talenta" "" "" "" "" "queued" "worker_tick" status "" "" "" None 0 0 ""
    queued started None 0).
#[local] Abbreviation ex_queue :=
  (mkWebhooks [] [ex_execution "hwe_4" "queued" (90 * minute) None; ex_execution "hwe_3" "queued" (20 * minute) None;
                  ex_execution "hwe_2" "running" (5 * minute) (Some (15 * minute)); ex_execution "hwe_1" "queued" (10 * minute) None] [] [] []).
(** At one hour: two that are queued and due, and between them one that has run for too long. *)
Lemma index_equivalent_witness :
  hxID <$> ListIndexedClaimableHRISWebhookExecutions 0 " Receipt_process" 0 hour 2 (indexed ex_queue) = ["hwe_1"; "hwe_2"]
  ∧ hxID <$> ListIndexedClaimableHRISWebhookExecutions 0 "receipt_process" 0 hour 0 (indexed ex_queue) = ["hwe_1"; "hwe_2"; "hwe_3"]
  ∧ ListIndexedClaimableHRISWebhookExecutions 0 "receipt_process" 0 hour 2 (indexed ex_queue)
    = ListClaimableHRISWebhookExecutions 0 "receipt_process" 0 hour 2 (indexed ex_queue).
Proof.
  split; [vm_compute; reflexivity|]. split; [vm_compute; reflexivity|].
  apply (index_equivalent 0 "receipt_process" 0 hour 2 ex_queue). split; apply (bool_decide_unpack _); vm_compute; exact I.
Defined.
