(* ===== verification/EmployeeSync.v ===== *)
(** * Synchronising a directory (modules/enterprise/service_employees.go, the second half)

    A batch of employees is merged into the directory and handed to the access service.
    [syncEmployeesLocked] changes the rows that were there as it goes and puts the new
    ones in front at the end.  What the access service does is the argument [applier], a
    function of its own state [W]; the calls that use it run on a pair of states.  A
    request id makes a batch idempotent: its record keeps the result and whether the
    access service has taken it. *)

From S2P Require Import Cas Prelude GoStrings GoTime Bytes GoText Indexes Directory.
#[local] Open Scope string_scope.
#[local] Open Scope list_scope.
#[local] Open Scope Z_scope.

(** ** One batch *)

(** What the loop keeps beside the employees. *)
Record Sync := mkSync {
  existingByExternalID : gmap string nat; existingByEmail : gmap string nat;
  createdRecords : list EnterpriseEmployee; createdByExternalID : gmap string nat; createdByEmail : gmap string nat;
  resultItems : list EnterpriseEmployee; created : Z; updated : Z; deactivated : Z; rejected : Z
}.
#[export] Instance eta_Sync : Eta Sync := λ a,
  mkSync (existingByExternalID a) (existingByEmail a) (createdRecords a) (createdByExternalID a) (createdByEmail a)
    (resultItems a) (created a) (updated a) (deactivated a) (rejected a).

Fixpoint index_employees (tenantID : string) (es : list EnterpriseEmployee) (i : nat) (a : Sync) : Sync :=
  match es with
  | [] => a
  | e :: es' =>
      index_employees tenantID es' (S i)
        (if String.eqb (emTenantID e) tenantID
         then a <| existingByExternalID ::= enter (TrimSpace (ExternalID e)) i |>
                <| existingByEmail ::= <[normalizeEmail (emEmail e) := i]> |>
         else a)
  end.

Definition employment_of (i : EmployeeSyncInput) : string :=
  let s := NormalizeEmploymentStatus (inEmploymentStatus i) in
  let s := if is_empty s then NormalizeEmploymentStatus (inStatus i) else s in
  if is_empty s then "active" else s.

(** The row an input makes of a row, or of nothing: every column but the id and the tenant. *)
Definition written (now : Z) (id tenantID source : string) (i : EmployeeSyncInput) : EnterpriseEmployee :=
  let employmentStatus := employment_of i in
  let '(role, buildingID, groupIDs) := assignAccessTemplate tenantID (inDepartment i) (inJobTitle i) (inLocation i) in
  mkEmployee id tenantID (TrimSpace (inExternalID i)) (TrimSpace (inEmployeeNumber i)) (normalizeEmail (inEmail i))
    (TrimSpace (inFullName i)) (TrimSpace (inDepartment i)) (TrimSpace (inJobTitle i)) (TrimSpace (inLocation i))
    (normalizeEmployeePhone (inPhone i)) (TrimSpace (inManagerExternalID i)) employmentStatus (TrimSpace (inJoinDate i))
    (TrimSpace (inResignDate i)) (TrimSpace (inShiftCode i)) (TrimSpace (inScheduleWindow i)) (TrimSpace (inLeaveStatus i))
    (TrimSpace (inCostCenter i)) (TrimSpace (inPhotoURL i)) role buildingID groupIDs (normalizeEmployeeStatus employmentStatus)
    source now.

(** An external id of its own that is not the input's. *)
Definition other_external (externalID : string) (e : EnterpriseEmployee) : bool :=
  negb (is_empty externalID) && negb (is_empty (TrimSpace (ExternalID e)))
  && negb (String.eqb (TrimSpace (ExternalID e)) externalID).
(** The external id of row [i] becomes [next], perhaps none. *)
Definition forget (previous next : string) (i : nat) (idx : gmap string nat) : gmap string nat :=
  if negb (is_empty previous) && negb (String.eqb previous next) && bool_decide (idx !! previous = Some i)
  then delete previous idx else idx.
Definition reenter (previous next : string) (i : nat) (idx : gmap string nat) : gmap string nat :=
  enter next i (forget previous next i idx).

Definition reject (a : Sync) : m Sync := mret (a <| rejected ::= Z.add 1 |>).

(** One turn of the loop.  The rows the indexes name exist. *)
Definition sync_one (now : Z) (tenantID source : string) (domains : gset string) (a : Sync) (i : EmployeeSyncInput) : m Sync :=
  let externalID := TrimSpace (inExternalID i) in
  let email := normalizeEmail (inEmail i) in
  if is_empty email then reject a
  else match emailDomain email with
  | Err _ => reject a
  | Ok domain =>
      if negb (domainMatchesAny domain domains) then reject a
      else
        let row id := written now id tenantID source i in
        let by_external (idx : gmap string nat) := if is_empty externalID then None else idx !! externalID in
        es ← gets (λ s, employees (core s));
        match target_of (by_external (existingByExternalID a)) (by_external (createdByExternalID a))
                (existingByEmail a !! email) (createdByEmail a !! email) with
        | Clash => reject a
        | CreatedRow j =>
            match createdRecords a !! j with
            | None => mret a
            | Some e =>
                if other_external externalID e then reject a
                else mret (a <| createdRecords := <[j := row (emID e)]> (createdRecords a) |>
                             <| createdByEmail ::= rekey (normalizeEmail (emEmail e)) email j |>
                             <| createdByExternalID ::= reenter (TrimSpace (ExternalID e)) externalID j |>)
            end
        | ExistingRow j =>
            match es !! j with
            | None => mret a
            | Some e =>
                if other_external externalID e then reject a
                else
                  let e' := row (emID e) in
                  to_core (λ c, c <| employees ::= <[j := e']> |>);;
                  mret (a <| existingByEmail ::= rekey (normalizeEmail (emEmail e)) email j |>
                          <| existingByExternalID ::= reenter (TrimSpace (ExternalID e)) externalID j |>
                          <| updated ::= Z.add 1 |>
                          <| deactivated ::= Z.add (if String.eqb (emStatus e') "active" then 0 else 1) |>
                          <| resultItems ::= λ l, l ++ [e'] |>)
            end
        | NewRow =>
            employeeID ← randomID "emp_";
            let j := length (createdRecords a) in
            let e := row employeeID in
            mret (a <| createdByEmail ::= <[email := j]> |> <| createdByExternalID ::= enter externalID j |>
                    <| createdRecords ::= λ l, l ++ [e] |> <| created ::= Z.add 1 |>
                    <| resultItems ::= λ l, l ++ [e] |>)
        end
  end.
Fixpoint sync_each (now : Z) (tenantID source : string) (domains : gset string) (a : Sync) (inputs : list EmployeeSyncInput) : m Sync :=
  match inputs with
  | [] => mret a
  | i :: inputs' => a' ← sync_one now tenantID source domains a i; sync_each now tenantID source domains a' inputs'
  end.

(** An error of the random source leaves the rows as the loop has changed them so far. *)
Definition syncEmployeesLocked (now : Z) (tenantID source actor : string) (inputs : list EmployeeSyncInput) : m SyncResult :=
  jobID ← randomID "syn_";
  domains ← gets (λ s, activeDomainsForTenant (domainMappings (core s)) tenantID);
  start ← gets (λ s, index_employees tenantID (employees (core s)) 0 (mkSync ∅ ∅ [] ∅ ∅ [] 0 0 0 0));
  a ← sync_each now tenantID source domains start inputs;
  to_core (λ c, c <| employees ::= app (createdRecords a) |>);;
  let job := mkSyncJob jobID tenantID source "completed" (Z.of_nat (length inputs)) (created a) (updated a) (deactivated a)
               (rejected a) actor now now in
  to_core (λ c, c <| syncJobs ::= cons job |>);;
  mret (mkSyncResult job (resultItems a)).

(** The tenant, the source, the actor and the request id of a batch. *)
Definition normalizeSyncEmployeesRequest (tenantID source actor requestID : string) (inputs : list EmployeeSyncInput) :
    result enterprise_err (string * string * string * string) :=
  let nextTenantID := TrimSpace tenantID in
  if is_empty nextTenantID then Err ErrTenantIDRequired
  else match inputs with
       | [] => Err ErrEmployeesRequired
       | _ => nextSource ← normalizeSyncSource source;
              Ok (nextTenantID, nextSource, actor_or_system actor, TrimSpace requestID)
       end.

Definition SyncEmployees (now : Z) (tenantID source actor : string) (inputs : list EmployeeSyncInput) : m SyncResult :=
  '(nextTenantID, nextSource, nextActor, _) ← lift (normalizeSyncEmployeesRequest tenantID source actor "" inputs);
  result ← syncEmployeesLocked now nextTenantID nextSource nextActor inputs;
  persistLocked;; mret result.

Definition ListSyncJobs (tenantID : string) (s : Directory) : list SyncJob :=
  filterb (λ j, is_empty (TrimSpace tenantID) || String.eqb (sjTenantID j) (TrimSpace tenantID)) (syncJobs (core s)).

(** ** Batches that reach the access service *)

Definition sync_record (tenantID requestID : string) (s : Directory) : option SyncRequestRecord :=
  syncRequestRecords (core s) !! syncRequestRecordKey tenantID requestID.

Definition newer_record (a b : SyncRequestRecord) : bool :=
  if rrCreatedAt a =? rrCreatedAt b then String.ltb (rrRequestID b) (rrRequestID a) else After (rrCreatedAt a) (rrCreatedAt b).
Definition ListSyncRequestRecords `{!MapRange} (tenantID : string) (limit : Z) (s : Directory) : list SyncRequestRecord :=
  let l := sort_by newer_record
    (filterb (λ r, is_empty (TrimSpace tenantID) || String.eqb (TrimSpace (rrTenantID r)) (TrimSpace tenantID))
       (snd <$> range (syncRequestRecords (core s)))) in
  if 0 <? limit then take (Z.to_nat limit) l else l.
Definition GetSyncRequestRecord (tenantID requestID : string) (s : Directory) : result enterprise_err SyncRequestRecord :=
  if is_empty (TrimSpace tenantID) then Err ErrTenantIDRequired
  else if is_empty (TrimSpace requestID) then Err ErrSyncRequestIDRequired
  else match sync_record tenantID requestID s with Some r => Ok r | None => Err ErrSyncRequestNotFound end.

Definition defaultReconcileLimit : Z := 20.
Definition maxReconcileLimit : Z := 200.
Definition normalizeReconcileLimit (input : Z) : result enterprise_err Z :=
  if input <? 0 then Err ErrInvalidReconcileLimit
  else if input =? 0 then Ok defaultReconcileLimit
  else Ok (Z.min input maxReconcileLimit).

Record PendingSyncReconcileResult := mkPendingResult {
  pnRequestID : string; pnJobID : string; pnAccessApplied : bool; pnAccessCreated : Z; pnAccessUpdated : Z;
  pnAccessRejected : Z; pnAttemptCount : Z; pnLastError : string; pnAttemptedAt : option Z
}.
Record BatchPendingSyncReconcileResult := mkBatchResult {
  Processed : Z; Applied : Z; Failed : Z; SkippedByAttemptLimit : Z; SkippedByCooldown : Z;
  pnItems : list PendingSyncReconcileResult
}.

Section access.
Context {W : Type}.
(** created, updated, rejected, or the text of an error *)
Definition AccessSyncApplier : Type := list EnterpriseEmployee → W → W * result string (Z * Z * Z).
Record Joint := mkJoint { dir : Directory; world : W }.
#[export] Instance eta_Joint : Eta Joint := λ j, mkJoint (dir j) (world j).
Definition on_dir {A} (f : m A) : op Joint enterprise_err A := λ j,
  let '(d, r) := f (dir j) in (j <| dir := d |>, r).
(** [created, updated, rejected, err := applier(items)] *)
Definition apply_access (applier : AccessSyncApplier) (items : list EnterpriseEmployee) :
    op Joint enterprise_err (result string (Z * Z * Z)) := λ j,
  let '(w, r) := applier items (world j) in (j <| world := w |>, Ok r).

Definition Answer : Type := SyncResult * (Z * Z * Z).

Definition put_record (key : string) (r : SyncRequestRecord) : op Joint enterprise_err unit :=
  on_dir (to_core (λ c, c <| syncRequestRecords ::= <[key := r]> |>);; ignore_err persistLocked).

(** A failure is noted in the record, a success closes it; neither save is waited for. *)
Definition applyAccessForSyncRecordLocked (now : Z) (applier : AccessSyncApplier) (recordKey requestID : string)
    (record : SyncRequestRecord) : op Joint enterprise_err Answer :=
  if AccessApplied record then mret (Result record, (AccessCreated record, AccessUpdated record, AccessRejected record))
  else
    let record := record <| AccessAttemptCount ::= Z.add 1 |> <| LastAccessAttemptAt := Some now |> in
    done ← apply_access applier (Items (Result record));
    match done with
    | Err cause =>
        put_record recordKey (record <| LastAccessError := TrimSpace cause |>);;
        throw (ErrAccessSyncRetryFailed requestID cause)
    | Ok (c, u, r) =>
        put_record recordKey (record <| AccessApplied := true |> <| AccessCreated := c |> <| AccessUpdated := u |>
                                     <| AccessRejected := r |> <| LastAccessError := "" |>);;
        mret (Result record, (c, u, r))
    end.

(** [a, err := f()], where the caller goes on with the error. *)
Definition outcome {A} (f : op Joint enterprise_err A) : op Joint enterprise_err (result enterprise_err A) := λ j,
  let '(j', r) := f j in (j', Ok r).
(** The text of an error, as far as it is passed on. *)
Definition error_text (e : enterprise_err) : string :=
  match e with
  | ErrAccessSyncRetryFailed requestID cause => "access sync retry failed for request_id " +:+ requestID +:+ ": " +:+ cause
  | _ => ""
  end.
(** The three tables go back to what they were, also in the store. *)
Definition roll_back (before : stateSnapshot) (cause : string) : op Joint enterprise_err Answer :=
  on_dir (to_core (λ c, c <| employees := employees before |> <| syncJobs := syncJobs before |>
                          <| syncRequestRecords := syncRequestRecords before |>));;
  or_err (on_dir persistLocked) (ErrRollbackFailed cause);;
  throw (ErrAccessSyncRolledBack cause).

Definition SyncEmployeesWithAccessUpsertMetadata (now : Z) (tenantID source actor requestID connectorID rawPayloadRef : string)
    (inputs : list EmployeeSyncInput) (applier : option AccessSyncApplier) : op Joint enterprise_err Answer :=
  '(nextTenantID, nextSource, nextActor, nextRequestID) ← lift (normalizeSyncEmployeesRequest tenantID source actor requestID inputs);
  match applier with
  | None => throw ErrAccessSyncApplierRequired
  | Some applier =>
      let recordKey := syncRequestRecordKey nextTenantID nextRequestID in
      found ← gets (λ j, if is_empty recordKey then None else syncRequestRecords (core (dir j)) !! recordKey);
      match found with
      | Some record => applyAccessForSyncRecordLocked now applier recordKey nextRequestID record
      | None =>
          before ← gets (λ j, core (dir j));
          result ← on_dir (syncEmployeesLocked now nextTenantID nextSource nextActor inputs);
          let record := mkSyncRecord nextRequestID nextTenantID (TrimSpace connectorID) (TrimSpace rawPayloadRef) result
                          false 0 0 0 0 "" None now in
          on_dir (to_core (λ c, if is_empty recordKey then c else c <| syncRequestRecords ::= <[recordKey := record]> |>);;
                  persistLocked);;
          if is_empty recordKey then
            done ← apply_access applier (Items result);
            match done with
            | Ok counts => mret (result, counts)
            | Err cause => roll_back before cause
            end
          else
            done ← outcome (applyAccessForSyncRecordLocked now applier recordKey nextRequestID record);
            match done with
            | Ok a => mret a
            | Err e => roll_back before (error_text e)
            end
      end
  end.
Definition SyncEmployeesWithAccessUpsert (now : Z) (tenantID source actor requestID : string) (inputs : list EmployeeSyncInput)
    (applier : option AccessSyncApplier) : op Joint enterprise_err Answer :=
  SyncEmployeesWithAccessUpsertMetadata now tenantID source actor requestID "" "" inputs applier.

Definition ReconcileSyncRequestAccess (now : Z) (tenantID requestID : string) (applier : option AccessSyncApplier) :
    op Joint enterprise_err Answer :=
  fail_if (is_empty (TrimSpace tenantID)) ErrTenantIDRequired;;
  fail_if (is_empty (TrimSpace requestID)) ErrSyncRequestIDRequired;;
  match applier with
  | None => throw ErrAccessSyncApplierRequired
  | Some applier =>
      found ← gets (λ j, sync_record tenantID requestID (dir j));
      match found with
      | None => throw ErrSyncRequestNotFound
      | Some record => applyAccessForSyncRecordLocked now applier (syncRequestRecordKey tenantID requestID) (TrimSpace requestID) record
      end
  end.

(** *** What waits *)

Inductive Pending := Waits | Settled | OverLimit | Cooling.
Definition pending_state (now : Z) (tenantID : string) (maxAttempts retryCooldown : Z) (r : SyncRequestRecord) : Pending :=
  if negb (String.eqb (TrimSpace (rrTenantID r)) tenantID) || AccessApplied r then Settled
  else if (0 <? maxAttempts) && (maxAttempts <=? AccessAttemptCount r) then OverLimit
  else if (0 <? retryCooldown)
          && match LastAccessAttemptAt r with Some t => After (t + retryCooldown) now | None => false end then Cooling
  else Waits.
Definition is_waits (p : Pending) : bool := match p with Waits => true | _ => false end.
Definition is_over (p : Pending) : bool := match p with OverLimit => true | _ => false end.
Definition is_cooling (p : Pending) : bool := match p with Cooling => true | _ => false end.
Definition older_pending (a b : string * SyncRequestRecord) : bool :=
  if rrCreatedAt a.2 =? rrCreatedAt b.2 then String.ltb (rrRequestID a.2) (rrRequestID b.2)
  else Before (rrCreatedAt a.2) (rrCreatedAt b.2).
Definition pending_item (r : SyncRequestRecord) : PendingSyncReconcileResult :=
  mkPendingResult (rrRequestID r) (sjID (Job (Result r))) (AccessApplied r) (AccessCreated r) (AccessUpdated r)
    (AccessRejected r) (AccessAttemptCount r) (LastAccessError r) (LastAccessAttemptAt r).

(** One record after the other; every one is still there. *)
Fixpoint reconcile_each (now : Z) (applier : AccessSyncApplier) (l : list (string * SyncRequestRecord))
    (b : BatchPendingSyncReconcileResult) : op Joint enterprise_err BatchPendingSyncReconcileResult :=
  match l with
  | [] => mret b
  | (key, record) :: l' =>
      done ← try_op (applyAccessForSyncRecordLocked now applier key (rrRequestID record) record);
      latest ← gets (λ j, default record (syncRequestRecords (core (dir j)) !! key));
      reconcile_each now applier l'
        (mkBatchResult (Processed b + 1) (Applied b + match done with Some _ => 1 | None => 0 end)
           (Failed b + match done with Some _ => 0 | None => 1 end) (SkippedByAttemptLimit b) (SkippedByCooldown b)
           (pnItems b ++ [pending_item latest]))
  end.
Definition ReconcilePendingSyncRequestsWithPolicy `{!MapRange} (now : Z) (tenantID : string) (limit maxAttempts retryCooldown : Z)
    (applier : option AccessSyncApplier) : op Joint enterprise_err BatchPendingSyncReconcileResult :=
  let nextTenantID := TrimSpace tenantID in
  fail_if (is_empty nextTenantID) ErrTenantIDRequired;;
  nextLimit ← lift (normalizeReconcileLimit limit);
  match applier with
  | None => throw ErrAccessSyncApplierRequired
  | Some applier =>
      records ← gets (λ j, range (syncRequestRecords (core (dir j))));
      let state r := pending_state now nextTenantID (Z.max 0 maxAttempts) (Z.max 0 retryCooldown) r.2 in
      let count p := Z.of_nat (length (filterb (λ r, p (state r)) records)) in
      reconcile_each now applier
        (take (Z.to_nat nextLimit) (sort_by older_pending (filterb (λ r, is_waits (state r)) records)))
        (mkBatchResult 0 0 0 (count is_over) (count is_cooling) [])
  end.
Definition ReconcilePendingSyncRequests `{!MapRange} (now : Z) (tenantID : string) (limit : Z) (applier : option AccessSyncApplier) :
    op Joint enterprise_err BatchPendingSyncReconcileResult :=
  ReconcilePendingSyncRequestsWithPolicy now tenantID limit 0 0 applier.
End access.
Arguments AccessSyncApplier W : clear implicits.
Arguments Joint W : clear implicits.

(** ** Facts: the indexes *)

Definition employee_email (tn : string) (e : EnterpriseEmployee) : option string :=
  if String.eqb (emTenantID e) tn then Some (normalizeEmail (emEmail e)) else None.
Definition employee_external (tn : string) (e : EnterpriseEmployee) : option string :=
  if String.eqb (emTenantID e) tn && negb (is_empty (TrimSpace (ExternalID e))) then Some (TrimSpace (ExternalID e)) else None.
Definition identities_unique (tn : string) (es : list EnterpriseEmployee) : Prop :=
  unique (employee_email tn) es ∧ unique (employee_external tn) es.

Lemma employee_tenant tn e k : employee_email tn e = Some k → emTenantID e = tn.
Proof. unfold employee_email. by destruct (String.eqb_spec (emTenantID e) tn). Qed.
Lemma employee_tenant' tn e k : employee_external tn e = Some k → emTenantID e = tn ∧ k ≠ "".
Proof.
  unfold employee_external. destruct (String.eqb_spec (emTenantID e) tn); [|done]. simpl.
  destruct (is_empty _) eqn:He; [done|]. intros [= <-]. by apply is_empty_false in He.
Qed.

Section written.
Context (now : Z) (tn src id : string) (i : EmployeeSyncInput).
Let e := written now id tn src i.
Lemma written_tenant : emTenantID e = tn.
Proof. unfold e, written. by destruct (assignAccessTemplate _ _ _ _) as [[? ?] ?]. Qed.
Lemma written_email : employee_email tn e = Some (normalizeEmail (inEmail i)).
Proof.
  unfold employee_email. rewrite written_tenant, String.eqb_refl. f_equal. unfold e, written.
  destruct (assignAccessTemplate _ _ _ _) as [[? ?] ?]. simpl. unfold normalizeEmail. by rewrite TrimSpace_lower, ToLower_idem.
Qed.
Lemma written_external :
  employee_external tn e = if is_empty (TrimSpace (inExternalID i)) then None else Some (TrimSpace (inExternalID i)).
Proof.
  unfold employee_external. rewrite written_tenant, String.eqb_refl. unfold e, written.
  destruct (assignAccessTemplate _ _ _ _) as [[? ?] ?]. simpl. rewrite TrimSpace_idem. by destruct (is_empty _).
Qed.
End written.

(** The index after row [j] has been written. *)
Lemma rekey_index tn idx l j x y next :
  index_ok (employee_email tn) idx l → l !! j = Some x → emTenantID x = tn → employee_email tn y = Some next →
  (idx !! next = None ∨ idx !! next = Some j) →
  index_ok (employee_email tn) (rekey (normalizeEmail (emEmail x)) next j idx) (<[j := y]> l).
Proof.
  intros Hok Hj Ht Hy Hn. eapply index_ok_put; [done..|]. intros k i. rewrite Hy.
  set (prev := normalizeEmail (emEmail x)).
  assert (Hx : employee_email tn x = Some prev) by (unfold employee_email; by rewrite Ht, String.eqb_refl).
  assert (Hprev : idx !! prev = Some j) by (apply Hok; eauto).
  assert (Honly : idx !! k = Some j → k = prev) by (intros (z & Hz & Hk)%Hok; congruence).
  unfold rekey. rewrite bool_decide_true by done. rewrite andb_true_r.
  destruct (decide (k = next)) as [->|Hk]; [rewrite lookup_insert_eq; naive_solver|].
  rewrite lookup_insert_ne by done. destruct (String.eqb_spec prev next) as [E|E]; simpl; [naive_solver|].
  destruct (decide (k = prev)) as [->|]; [rewrite lookup_delete_eq|rewrite lookup_delete_ne by done]; naive_solver.
Qed.

Lemma forget_lookup prev next j idx k :
  (is_empty prev = false → idx !! prev = Some j) →
  forget prev next j idx !! k = if negb (is_empty prev) && String.eqb k prev && negb (String.eqb prev next) then None else idx !! k.
Proof.
  intros H. unfold forget. destruct (is_empty prev); [done|]. rewrite bool_decide_true by auto. rewrite andb_true_r. simpl.
  destruct (String.eqb_spec prev next); simpl; [by rewrite andb_false_r|]. rewrite andb_true_r.
  destruct (String.eqb_spec k prev) as [->|]; [apply lookup_delete_eq|by rewrite lookup_delete_ne].
Qed.

Lemma reenter_index tn idx l j x y next :
  index_ok (employee_external tn) idx l → l !! j = Some x → emTenantID x = tn →
  employee_external tn y = (if is_empty next then None else Some next) →
  (is_empty next = false → idx !! next = None ∨ idx !! next = Some j) →
  index_ok (employee_external tn) (reenter (TrimSpace (ExternalID x)) next j idx) (<[j := y]> l).
Proof.
  intros Hok Hj Ht Hy Hn. eapply index_ok_put; [done..|]. intros k i. rewrite Hy.
  set (prev := TrimSpace (ExternalID x)).
  assert (Hx : employee_external tn x = if is_empty prev then None else Some prev).
  { unfold employee_external. rewrite Ht, String.eqb_refl. fold prev. by destruct (is_empty prev). }
  assert (Honly : idx !! k = Some j → is_empty prev = false ∧ k = prev).
  { intros (z & Hz & Hk)%Hok. assert (z = x) as -> by congruence. rewrite Hx in Hk. destruct (is_empty prev); naive_solver. }
  assert (Hprev : is_empty prev = false → idx !! prev = Some j).
  { intros He. apply Hok. exists x. by rewrite Hx, He. }
  unfold reenter, enter. destruct (is_empty next) eqn:He.
  - rewrite forget_lookup by done. apply String.eqb_eq in He as ->.
    destruct (is_empty prev) eqn:Hp; simpl; [naive_solver|]. unfold is_empty in Hp. rewrite Hp.
    destruct (String.eqb_spec k prev) as [->|]; simpl; naive_solver.
  - destruct (decide (k = next)) as [->|Hk]; [rewrite lookup_insert_eq; naive_solver|].
    rewrite lookup_insert_ne, forget_lookup by done. destruct (is_empty prev) eqn:Hp; simpl; [naive_solver|].
    destruct (String.eqb_spec k prev) as [->|]; simpl; [|naive_solver].
    destruct (String.eqb_spec prev next); simpl; naive_solver.
Qed.

(** The indexes of a synchronisation, and no key on both sides. *)
Definition Sync_ok (tn : string) (es : list EnterpriseEmployee) (a : Sync) : Prop :=
  (index_ok (employee_email tn) (existingByEmail a) es ∧ index_ok (employee_external tn) (existingByExternalID a) es)
  ∧ (index_ok (employee_email tn) (createdByEmail a) (createdRecords a)
     ∧ index_ok (employee_external tn) (createdByExternalID a) (createdRecords a))
  ∧ (∀ k, existingByEmail a !! k = None ∨ createdByEmail a !! k = None)
  ∧ (∀ k, existingByExternalID a !! k = None ∨ createdByExternalID a !! k = None).

Lemma index_email_row tn idx l k j :
  index_ok (employee_email tn) idx l → idx !! k = Some j → ∃ x, l !! j = Some x ∧ emTenantID x = tn.
Proof. intros Hok (x & Hx & Hk)%Hok. exists x. split; [done|]. by eapply employee_tenant. Qed.
Lemma index_external_row tn idx l k j :
  index_ok (employee_external tn) idx l → idx !! k = Some j → ∃ x, l !! j = Some x ∧ emTenantID x = tn.
Proof. intros Hok (x & Hx & Hk)%Hok. exists x. split; [done|]. by eapply employee_tenant'. Qed.

Lemma forget_other prev next j idx k : idx !! k = None → forget prev next j idx !! k = None.
Proof. unfold forget. destruct (_ && _); [|done]. intros. apply lookup_delete_None. by right. Qed.
Lemma reenter_other prev next j idx k :
  (is_empty next = false → k ≠ next) → idx !! k = None → reenter prev next j idx !! k = None.
Proof. intros Hk H. apply enter_other; [done|by apply forget_other]. Qed.

Section row.
Context (now : Z) (tn src : string) (i : EmployeeSyncInput).
Let email := normalizeEmail (inEmail i).
Let ext := TrimSpace (inExternalID i).
Let row id := written now id tn src i.

(** No key of the input on the side [b] of the indexes. *)
Definition keyless (email ext : string) (byEmail byExternal : gmap string nat) : Prop :=
  byEmail !! email = None ∧ (is_empty ext = false → byExternal !! ext = None).
(** The keys of the input lead to row [j] or nowhere. *)
Definition at_row (j : nat) (email ext : string) (byEmail byExternal : gmap string nat) : Prop :=
  (byEmail !! email = None ∨ byEmail !! email = Some j)
  ∧ (is_empty ext = false → byExternal !! ext = None ∨ byExternal !! ext = Some j).

(** One side of the indexes after a row of it was written, and the sides stay apart. *)
Lemma side_written byE byX l j x id :
  index_ok (employee_email tn) byE l → index_ok (employee_external tn) byX l → l !! j = Some x → emTenantID x = tn →
  at_row j email ext byE byX →
  index_ok (employee_email tn) (rekey (normalizeEmail (emEmail x)) email j byE) (<[j := row id]> l)
  ∧ index_ok (employee_external tn) (reenter (TrimSpace (ExternalID x)) ext j byX) (<[j := row id]> l).
Proof.
  intros He Hx Hj Ht [H1 H2]. split; [apply (rekey_index tn); try done; apply written_email|].
  apply (reenter_index tn); try done. apply written_external.
Qed.
Lemma side_apart byE byX byE' byX' pe px j :
  keyless email ext byE' byX' →
  (∀ k, byE !! k = None ∨ byE' !! k = None) → (∀ k, byX !! k = None ∨ byX' !! k = None) →
  (∀ k, rekey pe email j byE !! k = None ∨ byE' !! k = None) ∧ (∀ k, reenter px ext j byX !! k = None ∨ byX' !! k = None).
Proof.
  intros [K1 K2] H1 H2. split; intros k.
  - destruct (decide (k = email)) as [->|]; [by right|]. destruct (H1 k); [left; by apply rekey_other|by right].
  - destruct (decide (k = ext ∧ is_empty ext = false)) as [[-> ?]|]; [right; by apply K2|].
    destruct (H2 k); [left; apply reenter_other; naive_solver|by right].
Qed.

Lemma existing_ok es a j x id f :
  Sync_ok tn es a → es !! j = Some x → emTenantID x = tn →
  keyless email ext (createdByEmail a) (createdByExternalID a) →
  at_row j email ext (existingByEmail a) (existingByExternalID a) →
  Sync_ok tn (<[j := row id]> es)
    (a <| existingByEmail ::= rekey (normalizeEmail (emEmail x)) email j |>
       <| existingByExternalID ::= reenter (TrimSpace (ExternalID x)) ext j |>
       <| updated ::= Z.add 1 |> <| deactivated ::= f |> <| resultItems ::= λ l, l ++ [row id] |>).
Proof.
  intros ([He Hs] & Hc & Hde & Hds) Hj Ht Hk Ha. pose proof (side_written _ _ _ _ _ id He Hs Hj Ht Ha) as [? ?].
  pose proof (side_apart _ _ _ _ (normalizeEmail (emEmail x)) (TrimSpace (ExternalID x)) j Hk Hde Hds) as [? ?].
  exact (conj (conj H H0) (conj Hc (conj H1 H2))).
Qed.
Lemma created_ok es a j x id :
  Sync_ok tn es a → createdRecords a !! j = Some x → emTenantID x = tn →
  keyless email ext (existingByEmail a) (existingByExternalID a) →
  at_row j email ext (createdByEmail a) (createdByExternalID a) →
  Sync_ok tn es
    (a <| createdRecords := <[j := row id]> (createdRecords a) |>
       <| createdByEmail ::= rekey (normalizeEmail (emEmail x)) email j |>
       <| createdByExternalID ::= reenter (TrimSpace (ExternalID x)) ext j |>).
Proof.
  intros (Hc & [He Hs] & Hde & Hds) Hj Ht Hk Ha. pose proof (side_written _ _ _ _ _ id He Hs Hj Ht Ha) as [? ?].
  pose proof (side_apart _ _ _ _ (normalizeEmail (emEmail x)) (TrimSpace (ExternalID x)) j Hk
    (λ k, proj1 (or_comm _ _) (Hde k)) (λ k, proj1 (or_comm _ _) (Hds k))) as [? ?].
  exact (conj Hc (conj (conj H H0) (conj (λ k, proj1 (or_comm _ _) (H1 k)) (λ k, proj1 (or_comm _ _) (H2 k))))).
Qed.
Lemma fresh_ok es a id :
  Sync_ok tn es a → keyless email ext (existingByEmail a) (existingByExternalID a) →
  keyless email ext (createdByEmail a) (createdByExternalID a) →
  Sync_ok tn es
    (a <| createdByEmail ::= <[email := length (createdRecords a)]> |>
       <| createdByExternalID ::= enter ext (length (createdRecords a)) |>
       <| createdRecords ::= λ l, l ++ [row id] |> <| created ::= Z.add 1 |> <| resultItems ::= λ l, l ++ [row id] |>).
Proof.
  intros (Hc & [He Hs] & Hde & Hds) [K1 K2] [L1 L2]. split; [exact Hc|split; [split|split]]; simpl.
  - pose proof (index_ok_snoc _ _ _ (row id) He) as H. unfold row in H. rewrite written_email in H. refine (H _).
    intros k Hk. injection Hk as Hk. by rewrite <- Hk.
  - pose proof (index_ok_snoc _ _ _ (row id) Hs) as H. unfold row in H. rewrite written_external in H. unfold enter.
    fold ext in H. destruct (is_empty ext); refine (H _); [done|].
    intros k Hk. injection Hk as Hk. rewrite <- Hk. by apply L2.
  - intros k. destruct (decide (k = email)) as [->|]; [by left|]. by rewrite lookup_insert_ne.
  - intros k. destruct (decide (k = ext ∧ is_empty ext = false)) as [[-> ?]|]; [left; by apply K2|].
    destruct (Hds k); [by left|right; apply enter_other; naive_solver].
Qed.
End row.

Lemma randomID_core p s : core (exec (randomID p) s) = core s.
Proof. unfold exec, randomID. by destruct (dirEntropy s). Qed.

(** The turns there are. *)
Section turn.
Context (now : Z) (tn src : string) (i : EmployeeSyncInput) (s : Directory) (a : Sync).
Let email := normalizeEmail (inEmail i).
Let ext := TrimSpace (inExternalID i).
Inductive turn : Directory → Sync → Prop :=
| turn_rejected : turn s (a <| rejected ::= Z.add 1 |>)
| turn_fresh s1 id :
    core s1 = core s → keyless email ext (existingByEmail a) (existingByExternalID a) →
    keyless email ext (createdByEmail a) (createdByExternalID a) →
    turn s1 (a <| createdByEmail ::= <[email := length (createdRecords a)]> |>
               <| createdByExternalID ::= enter ext (length (createdRecords a)) |>
               <| createdRecords ::= λ l, l ++ [written now id tn src i] |> <| created ::= Z.add 1 |>
               <| resultItems ::= λ l, l ++ [written now id tn src i] |>)
| turn_existing j x y f :
    y = written now (emID x) tn src i → employees (core s) !! j = Some x → emTenantID x = tn →
    f = Z.add (if String.eqb (emStatus y) "active" then 0 else 1) →
    keyless email ext (createdByEmail a) (createdByExternalID a) →
    at_row j email ext (existingByEmail a) (existingByExternalID a) →
    turn (s <| core ::= λ c, c <| employees ::= <[j := y]> |> |>)
         (a <| existingByEmail ::= rekey (normalizeEmail (emEmail x)) email j |>
            <| existingByExternalID ::= reenter (TrimSpace (ExternalID x)) ext j |>
            <| updated ::= Z.add 1 |> <| deactivated ::= f |> <| resultItems ::= λ l, l ++ [y] |>)
| turn_created j x :
    createdRecords a !! j = Some x → emTenantID x = tn →
    keyless email ext (existingByEmail a) (existingByExternalID a) →
    at_row j email ext (createdByEmail a) (createdByExternalID a) →
    turn s (a <| createdRecords := <[j := written now (emID x) tn src i]> (createdRecords a) |>
              <| createdByEmail ::= rekey (normalizeEmail (emEmail x)) email j |>
              <| createdByExternalID ::= reenter (TrimSpace (ExternalID x)) ext j |>).
End turn.

Lemma sync_one_turn now tn src ds s a i s' a' :
  sync_one now tn src ds a i s = (s', Ok a') → Sync_ok tn (employees (core s)) a → turn now tn src i s a s' a'.
Proof.
  unfold sync_one, reject. intros Hrun ([He Hs] & [Hce Hcs] & Hde & Hds).
  case_match; [injection Hrun as <- <-; constructor|]. destruct (emailDomain _) as [d|e]; [|injection Hrun as <- <-; constructor].
  case_match; [injection Hrun as <- <-; constructor|]. rewrite bind_gets in Hrun.
  set (email := normalizeEmail (inEmail i)) in *. set (ext := TrimSpace (inExternalID i)) in *.
  pose proof (target_of_spec (if is_empty ext then None else existingByExternalID a !! ext)
    (if is_empty ext then None else createdByExternalID a !! ext) (existingByEmail a !! email)
    (createdByEmail a !! email) ltac:(destruct (is_empty ext); auto) (Hde _)) as Hsp.
  destruct (target_of _ _ _ _) as [|j|j|].
  - destruct Hsp as (H1 & H2 & H3 & H4). rewrite bind_op_eq in Hrun. pose proof (randomID_core "emp_" s) as Hc.
    unfold exec in Hc. destruct (randomID "emp_" s) as [s1 [id|e]]; [|done]. injection Hrun as <- <-.
    apply turn_fresh; try done; split; try done; intros Hk; fold ext in Hk |- *; by rewrite Hk in H1, H2.
  - destruct Hsp as (H1 & H2 & H3 & H4 & H5).
    assert (∃ x, employees (core s) !! j = Some x ∧ emTenantID x = tn) as (x & Hx & Ht).
    { destruct H3 as [H3|H3]; [destruct (is_empty ext); [done|]; by eapply index_external_row|by eapply index_email_row]. }
    rewrite Hx in Hrun. destruct (other_external ext x); injection Hrun as <- <-; [constructor|].
    refine (turn_existing _ _ _ _ _ _ j x _ (Z.add _) eq_refl Hx Ht eq_refl _ _); split; try done; intros Hk; fold ext in Hk |- *; [by rewrite Hk in H1|by rewrite Hk in H4].
  - destruct Hsp as (H1 & H2 & H3 & H4 & H5).
    assert (∃ x, createdRecords a !! j = Some x ∧ emTenantID x = tn) as (x & Hx & Ht).
    { destruct H3 as [H3|H3]; [destruct (is_empty ext); [done|]; by eapply index_external_row|by eapply index_email_row]. }
    rewrite Hx in Hrun. destruct (other_external ext x); injection Hrun as <- <-; [constructor|].
    apply turn_created; try done; split; try done; intros Hk; fold ext in Hk |- *; [by rewrite Hk in H1|by rewrite Hk in H4].
  - injection Hrun as <- <-. constructor.
Qed.

(** A turn keeps the indexes right. *)
Lemma sync_one_ok now tn src ds s a i s' a' :
  sync_one now tn src ds a i s = (s', Ok a') → Sync_ok tn (employees (core s)) a → Sync_ok tn (employees (core s')) a'.
Proof.
  intros Hrun Hok. destruct (sync_one_turn _ _ _ _ _ _ _ _ _ Hrun Hok) as [|s1 id Hc|j x y f ->|]; [done| | |].
  - rewrite Hc. by apply fresh_ok.
  - by apply existing_ok.
  - by apply created_ok.
Qed.

(** *** A failing random source *)

(** What a turn that could not draw an id leaves: the rows as they were. *)
Lemma sync_one_err now tn src ds s a i s' e :
  sync_one now tn src ds a i s = (s', Err e) → core s' = core s.
Proof.
  unfold sync_one, reject. intros H. case_match; [done|]. destruct (emailDomain _); [|done]. case_match; [done|].
  rewrite bind_gets in H. destruct (target_of _ _ _ _); [| | |done].
  - rewrite bind_op_eq in H. pose proof (randomID_core "emp_" s) as Hc. unfold exec in Hc.
    destruct (randomID "emp_" s) as [s1 [id|e1]]; [done|]. by injection H as <- <-.
  - destruct (_ !! _) as [x|]; [|done]. by destruct (other_external _ x).
  - destruct (_ !! _) as [x|]; [|done]. by destruct (other_external _ x).
Qed.

Definition unique_rows (tn : string) (s : Directory) : Prop := identities_unique tn (employees (core s)).
Lemma Sync_ok_unique tn es a : Sync_ok tn es a → identities_unique tn es.
Proof. intros ([He Hs] & _). split; by eapply index_ok_unique. Qed.

Lemma sync_each_ok now tn src ds inputs s a :
  Sync_ok tn (employees (core s)) a →
  match sync_each now tn src ds a inputs s with
  | (s', Ok a') => Sync_ok tn (employees (core s')) a'
  | (s', Err _) => unique_rows tn s'
  end.
Proof.
  revert s a. induction inputs as [|i inputs IH]; simpl; intros s a Hok; [done|]. rewrite bind_op_eq.
  destruct (sync_one now tn src ds a i s) as [s1 [a1|e]] eqn:H1.
  - apply IH. by eapply sync_one_ok.
  - apply sync_one_err in H1. unfold unique_rows. rewrite H1. by eapply Sync_ok_unique.
Qed.

(** The indexes made at the start. *)
Lemma index_employees_ok tn es pre a :
  identities_unique tn (pre ++ es) →
  index_ok (employee_email tn) (existingByEmail a) pre → index_ok (employee_external tn) (existingByExternalID a) pre →
  let a' := index_employees tn es (length pre) a in
  index_ok (employee_email tn) (existingByEmail a') (pre ++ es) ∧ index_ok (employee_external tn) (existingByExternalID a') (pre ++ es)
  ∧ createdRecords a' = createdRecords a ∧ createdByEmail a' = createdByEmail a ∧ createdByExternalID a' = createdByExternalID a.
Proof.
  revert pre a. induction es as [|e es IH]; simpl; intros pre a [Hue Hus] He Hs; [by rewrite app_nil_r|].
  assert (Hfresh : ∀ f idx k, unique f (pre ++ e :: es) → index_ok f idx pre → f e = Some k → idx !! k = None).
  { intros f idx k Hu Hok Hk. destruct (idx !! k) as [j|] eqn:Hj; [|done]. apply Hok in Hj as (x & Hx & Hfx).
    pose proof (lookup_lt_Some _ _ _ Hx). enough (j = length pre) by lia.
    eapply (Hu j _ x e k); [by rewrite lookup_app_l|by rewrite list_lookup_middle|done..]. }
  pose proof (index_ok_snoc _ _ _ e He (λ k, Hfresh _ _ k Hue He)) as He'.
  pose proof (index_ok_snoc _ _ _ e Hs (λ k, Hfresh _ _ k Hus Hs)) as Hs'.
  rewrite cons_middle, app_assoc in Hue, Hus |- *. replace (S (length pre)) with (length (pre ++ [e])) by (rewrite length_app; simpl; lia).
  unfold employee_email at 2 in He'. unfold employee_external at 2 in Hs'.
  destruct (String.eqb (emTenantID e) tn); simpl in *.
  - match goal with |- context [index_employees tn es _ ?a1] => apply (IH (pre ++ [e]) a1); simpl; [by split|done|] end.
    unfold enter. by destruct (is_empty (TrimSpace (ExternalID e))).
  - by apply (IH (pre ++ [e]) a).
Qed.

Lemma persist_core s : core (exec persistLocked s) = core s.
Proof. unfold exec, persistLocked. destruct (coreStore s) as [[[|[] rs] st]|]; done. Qed.

(** *** Other tenants *)

Definition of_others (tn : string) (es : list EnterpriseEmployee) : list EnterpriseEmployee :=
  filterb (λ e, negb (String.eqb (emTenantID e) tn)) es.
Lemma others_put tn es j x y :
  es !! j = Some x → emTenantID x = tn → emTenantID y = tn → of_others tn (<[j := y]> es) = of_others tn es.
Proof.
  unfold of_others. revert j. induction es as [|e es IH]; intros [|j] Hj Hx Hy; simpl in *; simplify_eq/=.
  - by rewrite Hy, String.eqb_refl.
  - by rewrite (IH j).
Qed.
Lemma others_own tn es : Forall (λ e, emTenantID e = tn) es → of_others tn es = [].
Proof. unfold of_others. induction 1 as [|e es He _ IH]; [done|]. simpl. by rewrite He, String.eqb_refl. Qed.
Lemma others_app tn es1 es2 : of_others tn (es1 ++ es2) = of_others tn es1 ++ of_others tn es2.
Proof. apply filterb_app. Qed.

(** The rows under construction are the tenant's, and its old rows are all that changes. *)
Definition own (tn : string) (a : Sync) : Prop := Forall (λ e, emTenantID e = tn) (createdRecords a).
Lemma sync_one_own now tn src ds s a i s' a' :
  sync_one now tn src ds a i s = (s', Ok a') → Sync_ok tn (employees (core s)) a → own tn a →
  own tn a' ∧ of_others tn (employees (core s')) = of_others tn (employees (core s)).
Proof.
  intros Hrun Hok Hown. destruct (sync_one_turn _ _ _ _ _ _ _ _ _ Hrun Hok) as [|s1 id Hc|j x y f ->|]; [done| | |].
  - rewrite Hc. split; [|done]. apply Forall_app. split; [done|]. constructor; [apply written_tenant|constructor].
  - split; [done|]. eapply others_put; [done..|apply written_tenant].
  - split; [|done]. apply Forall_insert; [done|apply written_tenant].
Qed.
Lemma sync_each_own now tn src ds inputs s a :
  Sync_ok tn (employees (core s)) a → own tn a →
  let '(s', r) := sync_each now tn src ds a inputs s in
  of_others tn (employees (core s')) = of_others tn (employees (core s)) ∧ (∀ a', r = Ok a' → own tn a').
Proof.
  revert s a. induction inputs as [|i inputs IH]; simpl; intros s a Hok Hown; [naive_solver|]. rewrite bind_op_eq.
  destruct (sync_one now tn src ds a i s) as [s1 [a1|e]] eqn:H1.
  - destruct (sync_one_own _ _ _ _ _ _ _ _ _ H1 Hok Hown) as [Hown1 H2]. rewrite <- H2. apply IH; [by eapply sync_one_ok|done].
  - apply sync_one_err in H1. rewrite H1. naive_solver.
Qed.

(** *** Counting *)

Definition counted (n : Z) (a : Sync) : Prop :=
  created a = Z.of_nat (length (createdRecords a)) ∧ Z.of_nat (length (resultItems a)) = created a + updated a
  ∧ 0 ≤ deactivated a ≤ updated a ∧ 0 ≤ rejected a ∧ created a + updated a + rejected a ≤ n.
Lemma turn_counted now tn src i s a s' a' n :
  turn now tn src i s a s' a' → counted n a →
  counted (n + 1) a' ∧ length (employees (core s')) = length (employees (core s)).
Proof.
  unfold counted. intros [|s1 id Hc|j x y f -> _ _ ->|j x] (N1 & N2 & N3 & N4 & N5); simpl.
  - split; [|done]. split_and!; try done; lia.
  - rewrite Hc, !length_app. simpl. split; [|done]. split_and!; lia.
  - rewrite length_app, length_insert. simpl. split; [|done]. destruct (String.eqb _ "active"); split_and!; lia.
  - rewrite length_insert. split; [|done]. split_and!; lia.
Qed.
Lemma sync_each_counted now tn src ds inputs s a s' a' n :
  sync_each now tn src ds a inputs s = (s', Ok a') → Sync_ok tn (employees (core s)) a → counted n a →
  counted (n + Z.of_nat (length inputs)) a' ∧ length (employees (core s')) = length (employees (core s)).
Proof.
  revert s a n. induction inputs as [|i inputs IH]; simpl; intros s a n Hrun Hok Hn.
  - injection Hrun as <- <-. by rewrite Z.add_0_r.
  - apply bind_ok in Hrun as (s1 & a1 & H1 & Hrun). pose proof (sync_one_turn _ _ _ _ _ _ _ _ _ H1 Hok) as Ht.
    destruct (turn_counted _ _ _ _ _ _ _ _ _ Ht Hn) as [Hn1 <-].
    destruct (IH _ _ _ Hrun ltac:(by eapply sync_one_ok) Hn1) as [H2 ->]. split; [|done].
    by replace (n + Z.of_nat (S (length inputs))) with (n + 1 + Z.of_nat (length inputs)) by lia.
Qed.

Lemma index_employees_counted tn es : counted 0 (index_employees tn es 0 (mkSync ∅ ∅ [] ∅ ∅ [] 0 0 0 0)).
Proof.
  enough (H : ∀ i a, counted 0 a → counted 0 (index_employees tn es i a)) by (apply H; unfold counted; simpl; lia).
  induction es as [|e es IH]; intros i a Ha; simpl; [done|]. apply IH. by destruct (String.eqb _ _).
Qed.

(** What a batch makes of the directory. *)
Definition job_counts (inputs : list EmployeeSyncInput) (before after : list EnterpriseEmployee) (r : SyncResult) : Prop :=
  Total (Job r) = Z.of_nat (length inputs)
  ∧ Z.of_nat (length after) = Z.of_nat (length before) + Created (Job r)
  ∧ Z.of_nat (length (Items r)) = Created (Job r) + Updated (Job r)
  ∧ 0 ≤ Deactivated (Job r) ≤ Updated (Job r) ∧ 0 ≤ Rejected (Job r)
  ∧ Created (Job r) + Updated (Job r) + Rejected (Job r) ≤ Total (Job r).
Lemma locked_spec now tn src actor inputs s :
  unique_rows tn s →
  let '(s', r) := syncEmployeesLocked now tn src actor inputs s in
  unique_rows tn s' ∧ of_others tn (employees (core s')) = of_others tn (employees (core s))
  ∧ (∀ res, r = Ok res → job_counts inputs (employees (core s)) (employees (core s')) res).
Proof.
  intros Hu. unfold syncEmployeesLocked. rewrite bind_op_eq. pose proof (randomID_core "syn_" s) as Hc.
  unfold exec in Hc. destruct (randomID "syn_" s) as [s0 [jobID|e]]; simpl in Hc; [|unfold unique_rows; by rewrite Hc].
  rewrite !bind_gets, bind_op_eq, Hc.
  set (a0 := index_employees tn (employees (core s)) 0 (mkSync ∅ ∅ [] ∅ ∅ [] 0 0 0 0)).
  pose proof (index_employees_ok tn (employees (core s)) [] (mkSync ∅ ∅ [] ∅ ∅ [] 0 0 0 0) Hu (index_ok_nil _) (index_ok_nil _)) as Hi.
  cbv zeta in Hi. change (index_employees _ _ _ _) with a0 in Hi.
  assert (Hn0 : counted 0 a0) by apply index_employees_counted. clearbody a0. simpl in Hi. destruct Hi as (H1 & H2 & H3 & H4 & H5).
  assert (Hok : Sync_ok tn (employees (core s0)) a0).
  { rewrite Hc. unfold Sync_ok. rewrite H3, H4, H5. split_and!; try done; try apply index_ok_nil; by right. }
  set (ds := activeDomainsForTenant (domainMappings (core s)) tn).
  pose proof (sync_each_ok now tn src ds inputs s0 _ Hok) as H.
  pose proof (sync_each_own now tn src ds inputs s0 _ Hok ltac:(unfold own; rewrite H3; constructor)) as Hown.
  rewrite Hc in Hown.
  pose proof (sync_each_counted now tn src ds inputs s0 a0) as Hn.
  destruct (sync_each _ _ _ _ _ _ s0) as [s1 [a|e]]; destruct Hown as [Ho Ha]; [|done]. rewrite !bind_modify. simpl.
  destruct (Hn _ _ 0 eq_refl Hok Hn0) as [(N1 & N2 & N3 & N4 & N5) Hl].
  destruct H as ([He Hs] & [Hce Hcs] & Hde & Hds). split_and!.
  - split; eapply index_ok_app; try done; intros k; [destruct (Hde k)|destruct (Hds k)]; auto.
  - by rewrite others_app, Ho, (others_own tn) by (by apply Ha).
  - intros res [= <-]. unfold job_counts. simpl. rewrite length_app, Hl, Hc. lia.
Qed.

(** *** What a batch leaves alone *)

(** The core document without the tables a synchronisation writes, and the rest of the state. *)
Definition bare (c : stateSnapshot) : stateSnapshot :=
  c <| employees := [] |> <| syncJobs := [] |> <| syncRequestRecords := ∅ |>.
Definition restored_core (before c : stateSnapshot) : stateSnapshot :=
  c <| employees := employees before |> <| syncJobs := syncJobs before |> <| syncRequestRecords := syncRequestRecords before |>.
Lemma restored_bare before c : bare c = bare before → restored_core before c = before.
Proof. destruct before, c. unfold bare, restored_core. simpl. by intros [= -> -> -> ->]. Qed.

Lemma pres_randomID (P : stateSnapshot → Prop) p : preserves (λ s, P (core s)) (randomID p).
Proof. intros s Hs. unfold exec, randomID. by destruct (dirEntropy s). Qed.
Lemma pres_to_core (P : stateSnapshot → Prop) f : (∀ c, P c → P (f c)) → preserves (E:=enterprise_err) (λ s, P (core s)) (to_core f).
Proof. intros H s Hs. by apply H. Qed.
Lemma keeps_persist (P : stateSnapshot → Prop) : preserves (λ s, P (core s)) persistLocked.
Proof. intros s Hs. by rewrite persist_core. Qed.
#[local] Hint Resolve pres_randomID keeps_persist : opdb.

Section table.
(** A predicate of the core document that does not look at the employees, and at the jobs. *)
Context (P : stateSnapshot → Prop) (Hemp : ∀ c f, P c → P (c <| employees ::= f |>)).
Lemma pres_sync_one now tn src ds a i : preserves (λ s, P (core s)) (sync_one now tn src ds a i).
Proof. unfold sync_one, reject. pres_all; by apply pres_to_core; intros; apply Hemp. Qed.
Lemma pres_sync_each now tn src ds inputs a : preserves (λ s, P (core s)) (sync_each now tn src ds a inputs).
Proof. revert a. induction inputs as [|i inputs IH]; simpl; intros a; pres_all. by apply pres_sync_one. Qed.
Context (Hjob : ∀ c f, P c → P (c <| syncJobs ::= f |>)).
Lemma pres_locked now tn src actor inputs : preserves (λ s, P (core s)) (syncEmployeesLocked now tn src actor inputs).
Proof.
  unfold syncEmployeesLocked. pres_all.
  - by apply pres_sync_each.
  - by apply pres_to_core; intros; apply Hemp.
  - by apply pres_to_core; intros; apply Hjob.
Qed.
End table.

Lemma randomID_err p s s' e : randomID p s = (s', Err e) → e = ErrRandom.
Proof. unfold randomID. destruct (dirEntropy s); [naive_solver|]. destruct (_ =? _)%nat; naive_solver. Qed.
Lemma sync_each_err now tn src ds inputs a s s' e : sync_each now tn src ds a inputs s = (s', Err e) → e = ErrRandom.
Proof.
  revert a s. induction inputs as [|i inputs IH]; simpl; intros a s; [done|]. rewrite bind_op_eq.
  destruct (sync_one now tn src ds a i s) as [s1 [a1|e1]] eqn:H1; [apply IH|]. intros [= <- <-]. revert H1.
  unfold sync_one, reject. case_match; [done|]. destruct (emailDomain _); [|done]. case_match; [done|]. rewrite bind_gets.
  destruct (target_of _ _ _ _); [| | |done].
  - rewrite bind_op_eq. destruct (randomID "emp_" s) as [s2 [id|e2]] eqn:Hr; [done|]. intros [= <- <-]. by eapply randomID_err.
  - destruct (_ !! _) as [x|]; [|done]. by destruct (other_external _ x).
  - destruct (_ !! _) as [x|]; [|done]. by destruct (other_external _ x).
Qed.
Lemma locked_err now tn src actor inputs s s' e : syncEmployeesLocked now tn src actor inputs s = (s', Err e) → e = ErrRandom.
Proof.
  unfold syncEmployeesLocked. rewrite bind_op_eq. destruct (randomID "syn_" s) as [s0 [id|e0]] eqn:H0.
  - rewrite !bind_gets, bind_op_eq. destruct (sync_each _ _ _ _ _ _ s0) as [s1 [a|e1]] eqn:H1; [done|].
    intros [= <- <-]. by eapply sync_each_err.
  - intros [= <- <-]. by eapply randomID_err.
Qed.

(** *** The calls that reach the access service *)

Section joint.
Context {W : Type}.
Implicit Types (j : Joint W) (applier : AccessSyncApplier W).

Lemma pres_on_dir {A} (Q : Directory → Prop) (f : m A) : preserves Q f → preserves (λ j, Q (dir j)) (on_dir f).
Proof. intros H j Hj. specialize (H _ Hj). unfold exec, on_dir in *. by destruct (f (dir j)). Qed.
Lemma pres_apply (Q : Directory → Prop) applier items : preserves (λ j, Q (dir j)) (apply_access applier items).
Proof. intros j Hj. unfold exec, apply_access. by destruct (applier items (world j)). Qed.
Lemma pres_outcome {A} (Q : Joint W → Prop) (f : op (Joint W) enterprise_err A) : preserves Q f → preserves Q (outcome f).
Proof. intros H j Hj. specialize (H _ Hj). unfold exec, outcome in *. by destruct (f j). Qed.
#[local] Hint Resolve pres_on_dir pres_apply pres_outcome : opdb.

(** The records are all that [applyAccessForSyncRecordLocked] touches of the directory. *)
Section records.
Context (P : stateSnapshot → Prop) (key : string).
Context (Hrec : ∀ c r, P c → P (c <| syncRequestRecords ::= <[key := r]> |>)).
Lemma pres_put_record r : preserves (λ j, P (core (dir j))) (put_record key r).
Proof. apply (pres_on_dir (λ s, P (core s))), pres_bind; [by apply pres_to_core; intros; apply Hrec|intros _; apply pres_ignore, keeps_persist]. Qed.
Lemma pres_apply_record now applier rid r :
  preserves (λ j, P (core (dir j))) (applyAccessForSyncRecordLocked now applier key rid r).
Proof.
  unfold applyAccessForSyncRecordLocked. pres_all; try apply pres_put_record. by apply (pres_apply (λ s, P (core s))).
Qed.
End records.

Lemma normalize_sync_ok tenantID source actor requestID inputs r :
  normalizeSyncEmployeesRequest tenantID source actor requestID inputs = Ok r →
  r.1.1.1 = TrimSpace tenantID ∧ r.1.1.1 ≠ "" ∧ r.2 = TrimSpace requestID.
Proof.
  unfold normalizeSyncEmployeesRequest. destruct (is_empty _) eqn:He; [done|]. apply is_empty_false in He.
  destruct inputs; [done|]. destruct (normalizeSyncSource _); [|done]. by intros [= <-].
Qed.

Lemma normalize_sync_err tenantID source actor requestID inputs e :
  normalizeSyncEmployeesRequest tenantID source actor requestID inputs = Err e →
  e = ErrTenantIDRequired ∨ e = ErrEmployeesRequired ∨ e = ErrInvalidSyncSource.
Proof.
  unfold normalizeSyncEmployeesRequest, normalizeSyncSource. case_match; [intros [= <-]; auto|].
  destruct inputs; [intros [= <-]; auto|]. do 2 (case_match; [done|]). intros [= <-]. auto.
Qed.

(** What is kept by a batch, by the record of it and by taking the rows back is kept by the call. *)
Lemma pres_upsert (P : stateSnapshot → Prop) now tenantID source actor requestID connectorID ref inputs applier :
  (∀ src act, preserves (λ s, P (core s)) (syncEmployeesLocked now (TrimSpace tenantID) src act inputs)) →
  (∀ c r, P c → P (c <| syncRequestRecords ::=
    <[syncRequestRecordKey (TrimSpace tenantID) (TrimSpace requestID) := r]> |>)) →
  (∀ before c, P before → P c → P (restored_core before c)) →
  preserves (λ j, P (core (dir j)))
    (SyncEmployeesWithAccessUpsertMetadata now tenantID source actor requestID connectorID ref inputs (Some applier)).
Proof.
  intros Hl Hrec Hback. unfold SyncEmployeesWithAccessUpsertMetadata. apply pres_lift_bind. intros [[[tn src] act] rid] Hn.
  apply normalize_sync_ok in Hn as (Htn & _ & Hrid). simpl in Htn, Hrid. subst tn rid. cbv zeta. apply pres_bind; [apply pres_gets|].
  intros found. destruct found as [r|]; [by apply pres_apply_record|].
  assert (Hroll : ∀ before cause, P before → preserves (λ j, P (core (dir j))) (roll_back before cause)).
  { intros before cause Hb. unfold roll_back. pres_all.
    - apply (pres_on_dir (λ s, P (core s))), pres_to_core. intros c Hc. by apply (Hback before).
    - apply (pres_on_dir (λ s, P (core s))), keeps_persist. }
  apply (pres_bind_post _ P); [apply pres_gets|by intros j before Hb [= <-]|]. intros before Hbefore.
  apply pres_bind; [apply (pres_on_dir (λ s, P (core s))), Hl|intros res]. apply pres_bind.
  - apply (pres_on_dir (λ s, P (core s))), pres_bind; [|intros _; apply keeps_persist]. apply pres_to_core. intros c Hc.
    destruct (is_empty _); [done|by apply Hrec].
  - intros _. destruct (is_empty _).
    + apply pres_bind; [by apply (pres_apply (λ s, P (core s)))|]. intros [counts|cause]; [apply pres_ret|by apply Hroll].
    + apply pres_bind; [by apply pres_outcome, pres_apply_record|]. intros [a|e]; [apply pres_ret|by apply Hroll].
Qed.

(** The directory of a tenant: one row per address and per external id, and the rows of the others. *)
Definition tidy (tn : string) (others : list EnterpriseEmployee) (c : stateSnapshot) : Prop :=
  identities_unique tn (employees c) ∧ of_others tn (employees c) = others.
Lemma locked_tidy now tn src actor inputs others :
  preserves (λ s, tidy tn others (core s)) (syncEmployeesLocked now tn src actor inputs).
Proof.
  intros s [Hu Ho]. pose proof (locked_spec now tn src actor inputs s Hu) as H. unfold exec.
  destruct (syncEmployeesLocked _ _ _ _ _ s) as [s' r]. destruct H as (H1 & H2 & _). by rewrite Ho in H2.
Qed.

(** C19: A batch for a tenant, whatever its rows and however it ends, keeps the addresses of
    the tenant's employees distinct, and their external ids, and does not touch the
    employees of another tenant. *)
Theorem sync_within_tenant now tenantID source actor requestID connectorID ref inputs applier others j :
  tidy (TrimSpace tenantID) others (core (dir j)) →
  tidy (TrimSpace tenantID) others (core (dir (exec
    (SyncEmployeesWithAccessUpsertMetadata now tenantID source actor requestID connectorID ref inputs (Some applier)) j))).
Proof.
  revert j. change (preserves (λ j, tidy (TrimSpace tenantID) others (core (dir j)))
    (SyncEmployeesWithAccessUpsertMetadata now tenantID source actor requestID connectorID ref inputs (Some applier))).
  apply pres_upsert; [intros src act; apply locked_tidy|done|done].
Qed.

(** The store holds the core document, if there is one. *)
Definition core_saved (s : Directory) : Prop := ∀ st, coreStore s = Some st → storedCore st = Some (core s).

Lemma persist_ok s s' : persistLocked s = (s', Ok tt) → core_saved s'.
Proof.
  unfold persistLocked, core_saved. destruct (coreStore s) as [[[|[] rs] d]|] eqn:H; intros [= <-] st; simpl; rewrite ?H; naive_solver.
Qed.
Lemma roll_back_spec before cause j j' r :
  bare (core (dir j)) = bare before → roll_back before cause j = (j', r) →
  core (dir j') = before ∧ world j' = world j
  ∧ (r = Err (ErrAccessSyncRolledBack cause) ∧ core_saved (dir j') ∨ r = Err (ErrRollbackFailed cause)).
Proof.
  intros Hb%restored_bare. unfold roll_back. rewrite bind_op_eq. unfold on_dir at 1. simpl.
  rewrite bind_op_eq. unfold or_err, on_dir. simpl.
  match goal with |- context [persistLocked ?s] => set (s1 := s); pose proof (persist_core s1) as Hc; pose proof (persist_ok s1) as Ho end.
  assert (H1 : core s1 = before) by exact Hb. rewrite H1 in Hc. unfold exec in Hc.
  destruct (persistLocked s1) as [s2 [[]|e]]; simpl in *; intros [= <- <-]; simpl; (split; [done|split; [done|]]); [left; eauto|by right].
Qed.
Lemma put_record_ok key r j : ∃ d, put_record key r j = (j <| dir := d |>, Ok tt).
Proof. by eexists. Qed.
Lemma apply_record_asks now applier key rid r j j' a :
  AccessApplied r = false → applyAccessForSyncRecordLocked now applier key rid r j = (j', a) →
  match a with
  | Ok (res, counts) => applier (Items res) (world j) = (world j', Ok counts)
  | Err _ => ∃ cause, applier (Items (Result r)) (world j) = (world j', Err cause)
  end.
Proof.
  intros Ha. unfold applyAccessForSyncRecordLocked. rewrite Ha, bind_op_eq. unfold apply_access. simpl.
  destruct (applier _ _) as [w [[[c u] x]|cause]] eqn:Hw; cbn beta iota; rewrite bind_op_eq;
    match goal with |- context [put_record key ?r' ?j'] => destruct (put_record_ok key r' j') as [d ->] end;
    intros [= <- <-]; simpl; eauto.
Qed.

Lemma persist_err s s' e : persistLocked s = (s', Err e) → e = ErrSave.
Proof. unfold persistLocked. destruct (coreStore s) as [[[|[] rs] d]|]; intros [=]; done. Qed.

(** What a batch that is carried out comes to: it was handed to the access service, which took
    it; or to the service, which turned it down, and then the document is what it was, in the
    store too unless its save failed; or it never got there. *)
Definition settled_with (applier : AccessSyncApplier W) (j j' : Joint W) (a : result enterprise_err Answer) : Prop :=
  match a with
  | Ok (res, counts) => applier (Items res) (world j) = (world j', Ok counts)
  | Err e =>
      (∃ items cause text, applier items (world j) = (world j', Err cause) ∧ core (dir j') = core (dir j)
         ∧ (e = ErrAccessSyncRolledBack text ∧ core_saved (dir j') ∨ e = ErrRollbackFailed text))
      ∨ world j' = world j ∧ e ∈ [ErrTenantIDRequired; ErrEmployeesRequired; ErrInvalidSyncSource; ErrRandom; ErrSave]
  end.
Lemma rolled_back before cause applier items cause' j j1 j' a :
  core (dir j) = before → bare (core (dir j1)) = bare before → applier items (world j) = (world j1, Err cause') →
  roll_back before cause j1 = (j', a) → settled_with applier j j' a.
Proof.
  intros <- Hb Hw Hr. apply roll_back_spec in Hr as (Hc & Hw' & Hr); [|done]. rewrite <-Hw' in Hw.
  destruct Hr as [[-> Hs]| ->]; left; exists items, cause', cause; auto.
Qed.

Lemma on_dir_bind {A B} (f : m A) (k : A → op (Joint W) enterprise_err B) j :
  (on_dir f ≫= k) j = match f (dir j) with (d, Ok a) => k a (j <| dir := d |>) | (d, Err e) => (j <| dir := d |>, Err e) end.
Proof. rewrite bind_op_eq. unfold on_dir. by destruct (f (dir j)) as [d [a|e]]. Qed.

(** C21: A batch the access service turns down leaves no trace.  A batch without a request id,
    or with one that has no record yet, is answered only with what the access service
    answered; when the service turns it down, the employees, the jobs and the records are
    what they were, and the rest of the document, also in the store unless the save of the
    restored tables failed; and when it fails before, the service was not asked. *)
Theorem sync_rolled_back now tenantID source actor requestID connectorID ref inputs applier j j' a :
  let key := syncRequestRecordKey tenantID requestID in
  key = "" ∨ syncRequestRecords (core (dir j)) !! key = None →
  SyncEmployeesWithAccessUpsertMetadata now tenantID source actor requestID connectorID ref inputs (Some applier) j = (j', a) →
  settled_with applier j j' a.
Proof.
  intros key Hkey. unfold SyncEmployeesWithAccessUpsertMetadata. rewrite bind_lift.
  destruct (normalizeSyncEmployeesRequest _ _ _ _ _) as [[[[tn src] act] rid]|e0] eqn:Hn.
  2: { intros [= <- <-]. right. split; [done|]. apply normalize_sync_err in Hn as [->|[->| ->]]; set_solver. }
  apply normalize_sync_ok in Hn as (Htn & _ & Hrid). simpl in Htn, Hrid.
  assert (syncRequestRecordKey tn rid = key) as -> by (subst key tn rid; unfold syncRequestRecordKey; by rewrite !TrimSpace_idem).
  cbv zeta. rewrite bind_gets.
  assert ((if is_empty key then None else syncRequestRecords (core (dir j)) !! key) = None) as -> by (destruct Hkey as [Hk|Hk]; [by rewrite Hk|by destruct (is_empty key)]).
  rewrite bind_gets, on_dir_bind.
  pose proof (pres_locked (λ c, bare c = bare (core (dir j))) ltac:(done) ltac:(done) now tn src act inputs (dir j) eq_refl) as Hb1. unfold exec in Hb1.
  destruct (syncEmployeesLocked now tn src act inputs (dir j)) as [d1 [res|e1]] eqn:H1; cbn beta iota.
  2: { intros [= <- <-]. right. split; [done|]. apply locked_err in H1 as ->. set_solver. }
  assert (Hw1 : world (j <| dir := d1 |>) = world j) by done. change (bare (core (dir (j <| dir := d1 |>))) = bare (core (dir j))) in Hb1.
  generalize dependent (j <| dir := d1 |>). clear d1 H1. intros j1 Hb1 Hw1.
  rewrite on_dir_bind. match goal with |- context [(to_core ?f;; persistLocked) (dir j1)] => set (save := (to_core f;; persistLocked)) end.
  assert (Hb2 : bare (core (exec save (dir j1))) = bare (core (dir j))).
  { apply (pres_bind (λ s, bare (core s) = bare (core (dir j)))); [|intros _; apply (keeps_persist (λ c, bare c = bare (core (dir j))))|done].
    apply (pres_to_core (λ c, bare c = bare (core (dir j)))). intros c Hc. by destruct (is_empty _). }
  unfold exec in Hb2. destruct (save (dir j1)) as [d2 [[]|e2]] eqn:H2; cbn beta iota.
  2: { intros [= <- <-]. right. split; [done|]. unfold save in H2. rewrite bind_op_eq in H2. apply persist_err in H2 as ->. set_solver. }
  assert (Hw2 : world (j1 <| dir := d2 |>) = world j) by done. change (bare (core (dir (j1 <| dir := d2 |>))) = bare (core (dir j))) in Hb2.
  generalize dependent (j1 <| dir := d2 |>). clear d2 save H2. intros j2 Hb2 Hw2. destruct (is_empty key).
  - rewrite bind_op_eq. unfold apply_access. destruct (applier (Items res) (world j2)) as [w [counts|cause]] eqn:Hw; rewrite Hw2 in Hw; cbn beta iota.
    + by intros [= <- <-].
    + by eapply rolled_back.
  - rewrite bind_op_eq. unfold outcome. destruct (applyAccessForSyncRecordLocked _ _ _ _ _ _) as [j3 a3] eqn:Ha.
    assert (bare (core (dir j3)) = bare (core (dir j))) as Hb3.
    { match type of Ha with ?f j2 = _ => assert (preserves (λ j', bare (core (dir j')) = bare (core (dir j))) f) as Hp
        by (by apply (pres_apply_record (λ c, bare c = bare (core (dir j))))) end.
      specialize (Hp j2 Hb2). unfold exec in Hp. by rewrite Ha in Hp. }
    apply apply_record_asks in Ha as Hasks; [|done]. rewrite Hw2 in Hasks. destruct a3 as [[res' counts]|e3]; cbn beta iota.
    + by intros [= <- <-].
    + destruct Hasks as [cause Hw]. by eapply rolled_back.
Qed.
End joint.

(** The job of a batch tells what the batch did to the directory: the rows it grew by, those
    it changed, and that no input was counted twice. *)
Theorem sync_job_counts now tenantID source actor inputs s s' res :
  identities_unique (TrimSpace tenantID) (employees (core s)) →
  SyncEmployees now tenantID source actor inputs s = (s', Ok res) →
  job_counts inputs (employees (core s)) (employees (core s')) res.
Proof.
  intros Hu. unfold SyncEmployees. rewrite bind_lift.
  destruct (normalizeSyncEmployeesRequest _ _ _ _ _) as [[[[tn src] act] rid]|e] eqn:Hn; [|done].
  apply normalize_sync_ok in Hn as (Htn & _ & _). simpl in Htn. subst tn. intros Hrun.
  pose proof (locked_spec now (TrimSpace tenantID) src act inputs s Hu) as H.
  apply bind_ok in Hrun as (s1 & r1 & H1 & Hrun). rewrite H1 in H. destruct H as (_ & _ & H).
  apply bind_ok in Hrun as (s2 & [] & H2 & [= <- <-]). pose proof (persist_core s1) as Hc. unfold exec in Hc. rewrite H2 in Hc.
  simpl in Hc. rewrite Hc. by apply H.
Qed.

(** ** Examples *)

Definition ex_input (ext email title status : string) : EmployeeSyncInput :=
  mkSyncInput ext "" email "" "" title "" "" "" status "" "" "" "" "" "" "" "".
Definition ex_core : stateSnapshot :=
  mkCore [mkDomainMapping "dm_1" "t1" "acme.example" "active" 0 0; mkDomainMapping "dm_2" "t2" "beta.example" "active" 0 0]
    [] ∅ [written 0 "emp_1" "t1" "hris" (ex_input "x1" "a@acme.example" "" ""); written 0 "emp_2" "t2" "hris" (ex_input "x1" "b@beta.example" "" "")]
    [] ∅ [].
Definition ex_dir : Directory :=
  mkDirectory ex_core ∅ ∅ (Some (mkCoreStore [] None)) ((λ i, repeat (chr i) 6) <$> [1; 2; 3; 4; 5; 6; 7; 8]).
(** An access service that counts its calls, and one that refuses. *)
Definition ex_applier : AccessSyncApplier nat := λ l n, (S n, Ok (Z.of_nat (length l), 0, 0)).
Definition ex_refuses : AccessSyncApplier nat := λ l n, (S n, Err "down").
Definition ex_joint : Joint nat := mkJoint ex_dir 0%nat.
Definition ex_batch : list EmployeeSyncInput :=
  [ex_input "x1" "a2@acme.example" "" ""; ex_input "x2" "c@acme.example" "" ""; ex_input "x3" "c@acme.example" "" "";
   ex_input "x4" "d@other.example" "" ""; ex_input "x2" "c@acme.example" "" "terminated"].

(** The batch changes one employee, creates one, and counts the third and the fourth
    input as rejected; the fifth changes the new employee and is not counted.  The
    access service is handed the row as it was before: the termination does not get there. *)
Example merged_input_lost :
  let '(s, r) := SyncEmployees 5 "t1" "hris" "" ex_batch ex_dir in
  match r with
  | Ok res => (Created (Job res), Updated (Job res), Rejected (Job res), emStatus <$> Items res) = (1, 1, 2, ["active"; "active"])
  | Err _ => False
  end ∧ (λ e, (emEmail e, emStatus e)) <$> employees (core s)
        = [("c@acme.example", "inactive"); ("a2@acme.example", "active"); ("b@beta.example", "active")].
Proof. vm_compute. split; reflexivity. Qed.

(** A job title that contains "it" makes a tenant administrator. *)
Example recruiter_is_admin :
  AccessRole (written 0 "emp_9" "t1" "hris" (ex_input "x9" "r@acme.example" "Recruiter" "")) = "tenant_admin".
Proof. vm_compute. reflexivity. Qed.

(** When the random source fails half way, the rows are left as the loop had changed them,
    and nothing is taken back. *)
Example broken_batch_stays :
  let '(s, r) := SyncEmployees 5 "t1" "hris" "" ex_batch (ex_dir <| dirEntropy := [repeat (chr 1) 6] |>) in
  r = Err ErrRandom ∧ emEmail <$> employees (core s) = ["a2@acme.example"; "b@beta.example"].
Proof. vm_compute. split; reflexivity. Qed.

Lemma ex_tidy : tidy "t1" [written 0 "emp_2" "t2" "hris" (ex_input "x1" "b@beta.example" "" "")] ex_core.
Proof.
  split; [|vm_compute; reflexivity].
  split; intros i j x y k Hi Hj Hx Hy; destruct i as [|[|i]], j as [|[|j]]; simpl in Hi, Hj; try discriminate Hi; try discriminate Hj;
    try reflexivity; injection Hi as <-; injection Hj as <-; vm_compute in Hx; vm_compute in Hy; discriminate.
Qed.

Lemma sync_within_tenant_witness :
  tidy "t1" [written 0 "emp_2" "t2" "hris" (ex_input "x1" "b@beta.example" "" "")] (core (dir (exec
    (SyncEmployeesWithAccessUpsertMetadata 5 " t1" "hris" "" "r1" "" "" ex_batch (Some ex_applier)) ex_joint))).
Proof. apply (sync_within_tenant 5 " t1" "hris" "" "r1" "" "" ex_batch ex_applier _ ex_joint). exact ex_tidy. Defined.

Lemma sync_rolled_back_witness :
  ∃ j' e, SyncEmployeesWithAccessUpsertMetadata 5 "t1" "hris" "" "r1" "" "" ex_batch (Some ex_refuses) ex_joint = (j', Err e)
    ∧ world j' = 1%nat ∧ core (dir j') = core (dir ex_joint) ∧ settled_with ex_refuses ex_joint j' (Err e).
Proof.
  eexists _, _. split; [vm_compute; reflexivity|]. split; [reflexivity|]. split; [vm_compute; reflexivity|].
  apply (sync_rolled_back 5 "t1" "hris" "" "r1" "" "" ex_batch ex_refuses ex_joint); [right|]; vm_compute; reflexivity.
Defined.

Lemma sync_job_counts_witness :
  ∃ s' res, SyncEmployees 5 "t1" "hris" "" ex_batch ex_dir = (s', Ok res)
    ∧ job_counts ex_batch (employees (core ex_dir)) (employees (core s')) res.
Proof.
  eexists _, _. split; [vm_compute; reflexivity|]. apply (sync_job_counts 5 "t1" "hris" "" ex_batch ex_dir).
  - exact (proj1 ex_tidy).
  - vm_compute. reflexivity.
Defined.
