(* ===== verification/DirectoryCalls.v ===== *)
(** * Histories of the enterprise service

    The calls of the service as one type, run one after the other on the directory and
    the access service ([Joint] of [EmployeeSync]); each carries the time it is made at.
    What holds along every history: a batch with a request id is carried out once, a
    state token is good for one sign-in, an assertion counts once while it is kept. *)

From S2P Require Import Cas Prelude GoStrings GoTime Bytes GoText Indexes Directory Jit EmployeeSync.
#[local] Open Scope string_scope.
#[local] Open Scope list_scope.
#[local] Open Scope Z_scope.

Inductive Call :=
| CreateMapping (t : Z) (tenantID domain status : string)
| UpdateMapping (t : Z) (tenantID mappingID status : string)
| PutIDP (t : Z) (tenantID provider issuerURL clientID authURL tokenURL jwksURL userInfoURL samlACSURL samlX509Cert status
    syncMode actor : string) (scopes : list string)
| CreateConnector (t : Z) (tenantID vendor status syncStrategy credentialRef webhookSecretRef updatedBy : string)
| UpdateConnector (t : Z) (tenantID connectorID status syncStrategy credentialRef webhookSecretRef updatedBy : string)
| MarkConnector (t : Z) (tenantID connectorID : string) (syncedAt : Z)
| RequestApproval (t : Z) (tenantID email externalID provider employmentStatus : string)
| ReviewApproval (t : Z) (tenantID approvalID decision reviewedBy reason : string)
| SyncApproval (t : Z) (tenantID approvalID status externalSyncRef lastError : string)
| Provision (t : Z) (tenantID email externalID : string) (profile : JITProvisionProfile)
| StartToken (t : Z) (tenantID provider email redirectURI : string) (ttl : Z)
| ConsumeToken (t : Z) (token expectedProvider : string)
| MarkAssertion (t : Z) (assertionID : string) (expiresAt : Z)
| Sync (t : Z) (tenantID source actor : string) (inputs : list EmployeeSyncInput)
| SyncAccess (t : Z) (tenantID source actor requestID connectorID rawPayloadRef : string) (inputs : list EmployeeSyncInput)
| Reconcile (t : Z) (tenantID requestID : string)
| ReconcileAll (t : Z) (tenantID : string) (limit maxAttempts retryCooldown : Z).

Definition call_time (c : Call) : Z :=
  match c with
  | CreateMapping t _ _ _ | UpdateMapping t _ _ _ | PutIDP t _ _ _ _ _ _ _ _ _ _ _ _ _ _ | CreateConnector t _ _ _ _ _ _ _
  | UpdateConnector t _ _ _ _ _ _ _ | MarkConnector t _ _ _ | RequestApproval t _ _ _ _ _ | ReviewApproval t _ _ _ _ _
  | SyncApproval t _ _ _ _ _ | Provision t _ _ _ _ | StartToken t _ _ _ _ _ | ConsumeToken t _ _ | MarkAssertion t _ _
  | Sync t _ _ _ _ | SyncAccess t _ _ _ _ _ _ _ | Reconcile t _ _ | ReconcileAll t _ _ _ _ => t
  end.

(** A call on the directory alone. *)
Definition dir_call (c : Call) : option (Directory → Directory) :=
  match c with
  | CreateMapping t tn domain status => Some (exec (CreateDomainMapping t tn domain status))
  | UpdateMapping t tn id status => Some (exec (UpdateDomainMappingStatus t tn id status))
  | PutIDP t tn p issuer client auth token jwks info acs cert status mode actor scopes =>
      Some (exec (UpsertIDPConfig t tn p issuer client auth token jwks info acs cert status mode actor scopes))
  | CreateConnector t tn v status strategy cred hook by_ => Some (exec (CreateHRISConnector t tn v status strategy cred hook by_))
  | UpdateConnector t tn id status strategy cred hook by_ => Some (exec (UpdateHRISConnector t tn id status strategy cred hook by_))
  | MarkConnector t tn id at_ => Some (exec (MarkHRISConnectorSynced t tn id at_))
  | RequestApproval t tn email ext p status => Some (exec (UpsertJITProvisionApprovalRequest t tn email ext p status))
  | ReviewApproval t tn id decision by_ reason => Some (exec (ReviewJITProvisionApproval t tn id decision by_ reason))
  | SyncApproval t tn id status ref e => Some (exec (UpdateJITProvisionApprovalExternalSync t tn id status ref e))
  | Provision t tn email ext profile => Some (exec (ResolveOrProvisionJITEmployeeWithProfile t tn email ext profile))
  | StartToken t tn p email uri ttl => Some (exec (StartAuthStateToken t tn p email uri ttl))
  | ConsumeToken t token p => Some (exec (ConsumeAuthStateToken t token p))
  | MarkAssertion t id e => Some (λ s, (markSAMLAssertionConsumed t id e s).1)
  | Sync t tn src actor inputs => Some (exec (SyncEmployees t tn src actor inputs))
  | SyncAccess _ _ _ _ _ _ _ _ | Reconcile _ _ _ | ReconcileAll _ _ _ _ _ => None
  end.

(** ** What the calls on the directory alone keep *)

(** The calls of a sign-in. *)
Definition token_call (c : Call) : bool :=
  match c with StartToken _ _ _ _ _ _ | ConsumeToken _ _ _ | MarkAssertion _ _ _ => true | _ => false end.

Section frame.
Context (P : Directory → Prop).
Context (Hcore : ∀ s f, (∀ c, syncRequestRecords (f c) = syncRequestRecords c) → P s → P (s <| core ::= f |>)).
Context (Hrand : ∀ p, preserves P (randomID p)) (Hsave : preserves P persistLocked).
Lemma keeps_to_core f : (∀ c, syncRequestRecords (f c) = syncRequestRecords c) → preserves (E:=enterprise_err) P (to_core f).
Proof. intros Hf. apply pres_modify. intros s. by apply Hcore. Qed.
#[local] Hint Resolve keeps_to_core : opdb.
Ltac keeps := pres_all; try (apply keeps_to_core; by intros []).
Lemma keeps_locked t tn src actor inputs : preserves P (syncEmployeesLocked t tn src actor inputs).
Proof.
  assert (H : ∀ ds a i, preserves P (sync_one t tn src ds a i)) by (intros; unfold sync_one, reject; keeps).
  unfold syncEmployeesLocked. keeps. revert a1. induction inputs as [|i inputs IH]; intros a1; simpl; keeps.
Qed.
Lemma dir_call_keeps c f s : token_call c = false → dir_call c = Some f → P s → P (f s).
Proof.
  intros Ht Hc. assert (Hp : ∀ {A} (g : m A), preserves P g → ∀ s, P s → P (exec g s)) by done. revert s.
  destruct c; try discriminate Ht; simpl in Hc; try discriminate Hc; injection Hc as <-; apply Hp;
    unfold CreateDomainMapping, UpdateDomainMappingStatus, UpsertIDPConfig, CreateHRISConnector, UpdateHRISConnector,
      MarkHRISConnectorSynced, put_connector, UpsertJITProvisionApprovalRequest, ReviewJITProvisionApproval,
      UpdateJITProvisionApprovalExternalSync, put_approval, ResolveOrProvisionJITEmployeeWithProfile, SyncEmployees,
      named_connector, look_connector, look_approval; keeps. apply keeps_locked.
Qed.
End frame.

Section tokens.
Context (P : Directory → Prop) (Htok : ∀ s f, P s → P (s <| authStateTokens ::= f |>)).
Lemma token_start_keeps t tn p email uri ttl :
  (∀ pre, preserves P (randomID pre)) → preserves P (StartAuthStateToken t tn p email uri ttl).
Proof. intros Hrand. unfold StartAuthStateToken. pres_all; apply pres_modify; intros s; apply Htok. Qed.
Lemma token_consume_keeps t token p : preserves P (ConsumeAuthStateToken t token p).
Proof. unfold ConsumeAuthStateToken. pres_all; apply pres_modify; intros s; apply Htok. Qed.
End tokens.

Section histories.
Context `{!MapRange} {W : Type} (applier : AccessSyncApplier W).
Implicit Types (j : Joint W).

Definition run_call (c : Call) (j : Joint W) : Joint W :=
  match dir_call c with
  | Some f => j <| dir ::= f |>
  | None =>
      match c with
      | SyncAccess t tn src actor rid cid ref inputs =>
          exec (SyncEmployeesWithAccessUpsertMetadata t tn src actor rid cid ref inputs (Some applier)) j
      | Reconcile t tn rid => exec (ReconcileSyncRequestAccess t tn rid (Some applier)) j
      | ReconcileAll t tn limit attempts cooldown =>
          exec (ReconcilePendingSyncRequestsWithPolicy t tn limit attempts cooldown (Some applier)) j
      | _ => j
      end
  end.
Definition run_calls (cs : list Call) (j : Joint W) : Joint W := foldl (λ j c, run_call c j) j cs.

Lemma run_calls_keep (P : Joint W → Prop) (Q : Call → Prop) cs :
  (∀ c j, Q c → P j → P (run_call c j)) → Forall Q cs → ∀ j, P j → P (run_calls cs j).
Proof. intros Hstep. induction 1 as [|c cs Hc _ IH]; intros j Hj; simpl; [done|]. by apply IH, Hstep. Qed.

(** ** Batches *)

(** The record of a request, once the access service has taken it. *)
Definition settled (key : string) (r : SyncRequestRecord) (c : stateSnapshot) : Prop :=
  key ≠ "" ∧ AccessApplied r = true ∧ syncRequestRecords c !! key = Some r.

Context (key : string) (r : SyncRequestRecord).
#[local] Abbreviation kept := (λ j : Joint W, settled key r (core (dir j))).

Lemma settled_put key' r' c : key' ≠ key → settled key r c → settled key r (c <| syncRequestRecords ::= <[key' := r']> |>).
Proof. intros Hne (H1 & H2 & H3). split_and!; [done..|]. simpl. by rewrite lookup_insert_ne. Qed.
Lemma settled_apply t key' rid r' j :
  (key' = key → r' = r) → kept j → kept (exec (applyAccessForSyncRecordLocked t applier key' rid r') j).
Proof.
  intros Hk Hj. destruct (decide (key' = key)) as [->|Hne].
  - rewrite Hk by done. unfold applyAccessForSyncRecordLocked. pose proof Hj as (_ & -> & _). exact Hj.
  - apply (pres_apply_record (settled key r)); [intros; by apply settled_put|exact Hj].
Qed.
Lemma settled_sync t tn src actor rid cid ref inputs :
  preserves kept (SyncEmployeesWithAccessUpsertMetadata t tn src actor rid cid ref inputs (Some applier)).
Proof.
  destruct (decide (syncRequestRecordKey (TrimSpace tn) (TrimSpace rid) = key)) as [Hk|Hk].
  - intros j Hj. unfold SyncEmployeesWithAccessUpsertMetadata. rewrite exec_lift.
    destruct (normalizeSyncEmployeesRequest _ _ _ _ _) as [[[[tn' src'] act] rid']|e] eqn:Hn; [|exact Hj].
    apply normalize_sync_ok in Hn as (Htn & _ & Hrid). simpl in Htn, Hrid. subst tn' rid'. cbv zeta. rewrite exec_gets, Hk.
    pose proof Hj as (Hne & _ & Hl). apply is_empty_false in Hne. rewrite Hne, Hl. by apply settled_apply.
  - apply (pres_upsert (settled key r)).
    + intros src' act. by apply pres_locked.
    + intros c r'. by apply settled_put.
    + by intros before c (? & ? & ?) (? & ? & ?).
Qed.
Lemma settled_reconcile_each t l b :
  Forall (λ e, e.1 ≠ key) l → preserves kept (reconcile_each t applier l b).
Proof.
  intros Hl. revert b. induction Hl as [|[k r'] l Hk Hl IH]; intros b; simpl; [apply pres_ret|].
  apply pres_bind; [|intros d; apply pres_bind; [apply pres_gets|intros latest; apply IH]].
  apply pres_try_op. intros j Hj. by apply settled_apply.
Qed.
Lemma settled_reconcile_all t tn limit attempts cooldown :
  preserves kept (ReconcilePendingSyncRequestsWithPolicy t tn limit attempts cooldown (Some applier)).
Proof.
  unfold ReconcilePendingSyncRequestsWithPolicy. apply pres_check. intros _. apply pres_lift_bind. intros lim _.
  apply pres_gets_bind. intros j Hj. apply settled_reconcile_each; [|exact Hj].
  apply Forall_forall. intros [k r'] (i & Hin & _)%elem_of_take.
  apply list_elem_of_lookup_2, elem_of_sort_by, elem_of_filterb in Hin as [Hw Hin].
  apply elem_of_range in Hin. intros Hk. simpl in Hk. subst k. destruct Hj as (_ & Ha & Hr). assert (r' = r) as -> by congruence.
  revert Hw. unfold pending_state. simpl. rewrite Ha, orb_true_r. done.
Qed.
Lemma settled_dir c f s : dir_call c = Some f → settled key r (core s) → settled key r (core (f s)).
Proof.
  destruct (token_call c) eqn:Ht; intros Hc.
  - destruct c; try discriminate Ht; injection Hc as <-.
    + apply (token_start_keeps (λ s, settled key r (core s))); try done. by apply (pres_randomID (settled key r)).
    + by apply (token_consume_keeps (λ s, settled key r (core s))).
    + intros Hs. unfold markSAMLAssertionConsumed. by repeat case_match.
  - apply (dir_call_keeps (λ s, settled key r (core s)) ltac:(intros ? g Hg ?; unfold settled in *; simpl; by rewrite Hg)
      (pres_randomID _) (keeps_persist _) _ _ s Ht Hc).
Qed.
Lemma settled_call c j : kept j → kept (run_call c j).
Proof.
  intros Hj. unfold run_call. destruct (dir_call c) as [f|] eqn:Hc; [by apply (settled_dir c)|].
  destruct c; try discriminate Hc; [by apply settled_sync| |by apply settled_reconcile_all].
  unfold ReconcileSyncRequestAccess. revert j Hj. change (preserves kept (ReconcileSyncRequestAccess t tenantID requestID (Some applier))).
  apply pres_check. intros _. apply pres_check. intros _. apply pres_gets_bind. intros j Hj.
  destruct (sync_record _ _ _) as [r'|] eqn:Hr; [|exact Hj]. apply settled_apply; [|exact Hj]. intros <-.
  destruct Hj as (_ & _ & Hr'). unfold sync_record in Hr. congruence.
Qed.

(** What the record answers. *)
Definition recorded : Answer := (Result r, (AccessCreated r, AccessUpdated r, AccessRejected r)).
Lemma settled_answers t rid j : kept j → applyAccessForSyncRecordLocked t applier key rid r j = (j, Ok recorded).
Proof. intros (_ & Ha & _). unfold applyAccessForSyncRecordLocked. by rewrite Ha. Qed.
End histories.

Section once.
Context `{!MapRange} {W : Type} (applier : AccessSyncApplier W).
Implicit Types (j : Joint W).

Lemma put_record_core key r j : core (dir (exec (put_record key r) j)) = (core (dir j)) <| syncRequestRecords ::= <[key := r]> |>.
Proof.
  exact (persist_core ((dir j) <| core ::= λ c, c <| syncRequestRecords ::= <[key := r]> |> |>)).
Qed.
Lemma applied_settles t key rid r j j' a :
  key ≠ "" → syncRequestRecords (core (dir j)) !! key = Some r →
  applyAccessForSyncRecordLocked t applier key rid r j = (j', Ok a) → ∃ r', settled key r' (core (dir j')) ∧ a = recorded r'.
Proof.
  intros Hk Hr. unfold applyAccessForSyncRecordLocked. destruct (AccessApplied r) eqn:Ha.
  - intros [= <- <-]. by exists r.
  - rewrite bind_op_eq. unfold apply_access. destruct (applier _ _) as [w [[[c u] x]|cause]]; cbn beta iota; rewrite bind_op_eq;
      match goal with |- context [put_record key ?r' ?j'] => pose proof (put_record_core key r' j') as Hc;
        destruct (put_record_ok key r' j') as [d Hd]; unfold exec in Hc; rewrite Hd in Hc |- *; simpl in Hc end;
      intros Hrun; [|done]. injection Hrun as <- <-. eexists. split; [split_and!; [done| |]|].
    2: { simpl. rewrite Hc. simpl. apply lookup_insert_eq. } all: done.
Qed.
Lemma sync_settles t tn src actor rid cid ref inputs j j' a :
  let key := syncRequestRecordKey (TrimSpace tn) (TrimSpace rid) in
  key ≠ "" → SyncEmployeesWithAccessUpsertMetadata t tn src actor rid cid ref inputs (Some applier) j = (j', Ok a) →
  ∃ r, settled key r (core (dir j')) ∧ a = recorded r.
Proof.
  intros key Hk. unfold SyncEmployeesWithAccessUpsertMetadata. rewrite bind_lift.
  destruct (normalizeSyncEmployeesRequest _ _ _ _ _) as [[[[tn' src'] act] rid']|e] eqn:Hn; [|done].
  apply normalize_sync_ok in Hn as (Htn & _ & Hrid). simpl in Htn, Hrid. subst tn' rid'. cbv zeta. fold key.
  apply is_empty_false in Hk as He. rewrite He, bind_gets. destruct (_ !! key) as [r|] eqn:Hr; [by apply applied_settles|].
  rewrite bind_gets. intros (j1 & res & H1 & Hrun)%bind_ok. apply bind_ok in Hrun as (j2 & [] & H2 & Hrun).
  rewrite bind_op_eq in Hrun. unfold outcome in Hrun at 1.
  match type of Hrun with context [applyAccessForSyncRecordLocked ?t1 applier key ?rid1 ?r1 j2] =>
    assert (Hr2 : syncRequestRecords (core (dir j2)) !! key = Some r1);
    [|destruct (applyAccessForSyncRecordLocked t1 applier key rid1 r1 j2) as [j3 [a3|e3]] eqn:H3] end.
  - revert H2. unfold on_dir. rewrite bind_modify.
    match goal with |- context [persistLocked ?s] => pose proof (persist_core s) as Hc; unfold exec in Hc;
      destruct (persistLocked s) as [d [[]|e]]; intros [= <-] end. simpl in *. rewrite Hc. simpl. apply lookup_insert_eq.
  - injection Hrun as <- <-. by eapply applied_settles.
  - cbn beta iota in Hrun. unfold roll_back in Hrun.
    apply bind_ok in Hrun as (? & ? & _ & Hrun). by apply bind_ok in Hrun as (? & ? & _ & Hrun).
Qed.

(** C20: A batch with a request id is carried out once: after it has succeeded, whatever calls
    are made in between, the same id gets the same answer, and neither the directory nor
    the access service changes, whatever the employees of the repetition. *)
Theorem sync_request_once t tn src actor rid cid ref inputs j j1 a cs t' src' actor' cid' ref' inputs' :
  TrimSpace tn ≠ "" → TrimSpace rid ≠ "" →
  SyncEmployeesWithAccessUpsertMetadata t tn src actor rid cid ref inputs (Some applier) j = (j1, Ok a) →
  is_ok (normalizeSyncEmployeesRequest tn src' actor' rid inputs') = true →
  let j2 := run_calls applier cs j1 in
  SyncEmployeesWithAccessUpsertMetadata t' tn src' actor' rid cid' ref' inputs' (Some applier) j2 = (j2, Ok a).
Proof.
  intros Htn Hrid Hrun Hok j2.
  assert (Hk : syncRequestRecordKey (TrimSpace tn) (TrimSpace rid) ≠ "").
  { unfold syncRequestRecordKey. rewrite !TrimSpace_idem. apply is_empty_false in Htn as ->, Hrid as ->. simpl.
    intros Hk. destruct (TrimSpace tn); [|done]. done. }
  destruct (sync_settles _ _ _ _ _ _ _ _ _ _ _ Hk Hrun) as (r & Hset & ->).
  assert (H2 : settled (syncRequestRecordKey (TrimSpace tn) (TrimSpace rid)) r (core (dir j2))).
  { apply (run_calls_keep applier (λ j, settled _ r (core (dir j))) (λ _, True)); [|by apply Forall_true|exact Hset].
    intros c j' _. by apply settled_call. }
  unfold SyncEmployeesWithAccessUpsertMetadata. rewrite bind_lift.
  destruct (normalizeSyncEmployeesRequest _ _ _ _ _) as [[[[tn' src''] act] rid']|e] eqn:Hn; [|done].
  apply normalize_sync_ok in Hn as (Htn' & _ & Hrid'). simpl in Htn', Hrid'. subst tn' rid'. cbv zeta.
  apply is_empty_false in Hk as He. rewrite He, bind_gets. pose proof H2 as (_ & _ & ->). by apply settled_answers.
Qed.
End once.

(** ** Sign-ins *)

Section joint_frame.
Context {W : Type} (P : Directory → Prop).
Context (Hcore : ∀ s f, P s → P (s <| core ::= f |>)).
Context (Hrand : ∀ p, preserves P (randomID p)) (Hsave : preserves P persistLocked).
#[local] Abbreviation PJ := (λ j : Joint W, P (dir j)).
Lemma keeps_core f : preserves (E:=enterprise_err) P (to_core f).
Proof. apply pres_modify. intros s. by apply Hcore. Qed.
Lemma keeps_apply_record t applier key rid r : preserves PJ (applyAccessForSyncRecordLocked t applier key rid r).
Proof.
  unfold applyAccessForSyncRecordLocked, put_record.
  assert (H : ∀ f, preserves P (to_core f;; ignore_err persistLocked)) by (intros; pres_all; apply keeps_core).
  pres_all; try apply (pres_on_dir P), H. apply (pres_apply P).
Qed.
Lemma keeps_upsert t tn src actor rid cid ref inputs applier :
  preserves PJ (SyncEmployeesWithAccessUpsertMetadata t tn src actor rid cid ref inputs (Some applier)).
Proof.
  assert (H : ∀ b c, preserves PJ (roll_back b c)).
  { intros b c. unfold roll_back. pres_all; apply (pres_on_dir P); [apply keeps_core|done]. }
  unfold SyncEmployeesWithAccessUpsertMetadata. pres_all; try apply keeps_apply_record; try apply H.
  - by apply (pres_on_dir P), (keeps_locked P (λ s f _, Hcore s f)).
  - apply (pres_on_dir P). pres_all. apply keeps_core.
  - apply (pres_apply P).
  - apply (pres_outcome PJ), keeps_apply_record.
Qed.
Lemma keeps_reconcile t tn rid applier : preserves PJ (ReconcileSyncRequestAccess t tn rid (Some applier)).
Proof. unfold ReconcileSyncRequestAccess. pres_all. apply keeps_apply_record. Qed.
Lemma keeps_reconcile_all `{!MapRange} t tn limit attempts cooldown applier :
  preserves PJ (ReconcilePendingSyncRequestsWithPolicy t tn limit attempts cooldown (Some applier)).
Proof.
  unfold ReconcilePendingSyncRequestsWithPolicy. pres_all. generalize (mkBatchResult 0 0 0
    (Z.of_nat (length (filterb (λ r, is_over (pending_state t (TrimSpace tn) (0 `max` attempts) (0 `max` cooldown) r.2)) a1)))
    (Z.of_nat (length (filterb (λ r, is_cooling (pending_state t (TrimSpace tn) (0 `max` attempts) (0 `max` cooldown) r.2)) a1))) []).
  generalize (take (Z.to_nat a0) (sort_by older_pending (filterb (λ r, is_waits (pending_state t (TrimSpace tn)
    (0 `max` attempts) (0 `max` cooldown) r.2)) a1))).
  intros l. induction l as [|[k r] l IH]; intros b; simpl; pres_all. apply keeps_apply_record.
Qed.

(** The calls that are not those of a sign-in. *)
Lemma keeps_run_call `{!MapRange} applier c (j : Joint W) : token_call c = false → P (dir j) → P (dir (run_call applier c j)).
Proof.
  intros Ht Hj. unfold run_call. destruct (dir_call c) as [f|] eqn:Hc.
  - apply (dir_call_keeps P (λ s f _, Hcore s f) Hrand Hsave c f (dir j) Ht Hc Hj).
  - destruct c; try discriminate Hc; [by apply keeps_upsert|by apply keeps_reconcile|by apply keeps_reconcile_all].
Qed.
End joint_frame.

(** The token stands for this record or for none, and will not be drawn again. *)
Definition only (tok : string) (x : option AuthStateToken) (s : Directory) : Prop :=
  Forall (λ c, ("st_" +:+ hex_encode c) ≠ tok) (dirEntropy s)
  ∧ (authStateTokens s !! tok = x ∨ authStateTokens s !! tok = None).

Section only.
Context (tok : string) (x : option AuthStateToken).
#[local] Abbreviation P := (only tok x).
Lemma only_rand p : preserves P (randomID p).
Proof.
  intros s [Hf Hx]. unfold exec, randomID. destruct (dirEntropy s) as [|c cs] eqn:He; [by rewrite <- He in Hf|].
  split; [by inversion Hf|exact Hx].
Qed.
Lemma only_save : preserves P persistLocked.
Proof. intros s Hs. unfold exec, persistLocked. by destruct (coreStore s) as [[[|[] rs] st]|]. Qed.
Lemma only_delete k : preserves (E:=enterprise_err) P (modify (λ s, s <| authStateTokens ::= delete k |>)).
Proof.
  apply pres_modify. intros s [Hf Hx]. split; [done|]. simpl. destruct (decide (k = tok)) as [->|].
  - right. apply lookup_delete_eq. - by rewrite lookup_delete_ne.
Qed.
Lemma only_cleanup t : preserves (E:=enterprise_err) P (modify (cleanupExpiredAuthStateTokensLocked t)).
Proof.
  apply pres_modify. intros s [Hf Hx]. split; [done|]. simpl.
  destruct (filter _ _ !! tok) as [y|] eqn:Hy; [|by right]. apply map_lookup_filter_Some in Hy as [Hy _]. rewrite Hy in Hx. naive_solver.
Qed.
Lemma only_consume t token p : preserves P (ConsumeAuthStateToken t token p).
Proof. unfold ConsumeAuthStateToken. pres_all; [apply only_cleanup|apply only_delete]. Qed.
Lemma only_fresh s tv : P s → answer (randomID "st_") s = Ok tv → tv ≠ tok.
Proof.
  intros [Hf _]. unfold answer, randomID. destruct (dirEntropy s) as [|c cs]; [done|]. inversion Hf; subst. simpl.
  destruct (_ =? _)%nat; [|done]. by intros [= <-].
Qed.
Lemma only_start t tn p email uri ttl : preserves P (StartAuthStateToken t tn p email uri ttl).
Proof.
  unfold StartAuthStateToken. cbv zeta. apply pres_check. intros _. apply pres_lift_bind. intros np _.
  do 2 (apply pres_check; intros _). apply pres_bind; [apply only_cleanup|intros _].
  apply (pres_bind_post _ (λ tv, tv ≠ tok)); [apply only_rand|apply only_fresh|]. intros tv Htv.
  apply pres_bind; [apply only_rand|]. intros nv. apply pres_bind; [|intros; apply pres_ret].
  apply pres_modify. intros s2 [Hf Hx]. split; [done|]. simpl. by rewrite lookup_insert_ne.
Qed.
Lemma only_call `{!MapRange} {W} (applier : AccessSyncApplier W) c (j : Joint W) : P (dir j) → P (dir (run_call applier c j)).
Proof.
  intros Hj. destruct (token_call c) eqn:Ht; [|by apply (keeps_run_call P (λ s f Hs, Hs) only_rand only_save)].
  destruct c; try discriminate Ht; simpl; [by apply only_start|by apply only_consume|].
  unfold markSAMLAssertionConsumed. by repeat case_match.
Qed.
Lemma only_calls `{!MapRange} {W} (applier : AccessSyncApplier W) cs (j : Joint W) : P (dir j) → P (dir (run_calls applier cs j)).
Proof. apply (run_calls_keep applier (λ j, P (dir j)) (λ _, True)); [intros c j' _; apply only_call|by apply Forall_true]. Qed.
End only.

Lemma start_spec t tn p email uri ttl s s' r :
  StartAuthStateToken t tn p email uri ttl s = (s', Ok r) →
  authStateTokens s' !! atToken r = Some r
  ∧ atTenantID r = TrimSpace tn ∧ atEmail r = normalizeEmail email ∧ RedirectURI r = TrimSpace uri
  ∧ atExpiresAt r = t + (if ttl <=? 0 then defaultAuthStateTokenTTL else ttl).
Proof.
  unfold StartAuthStateToken. cbv zeta. rewrite fail_if_bind. destruct (is_empty _); [done|]. rewrite bind_lift.
  destruct (normalizeProvider p) as [np|e]; [|done]. rewrite !fail_if_bind. destruct (is_empty _); [done|].
  destruct (negb _); [done|]. rewrite bind_modify. intros (s1 & tv & _ & H)%bind_ok. apply bind_ok in H as (s2 & nv & _ & H).
  rewrite bind_modify in H. injection H as <- <-. split; [apply lookup_insert_eq|done].
Qed.
Lemma consume_spec t token p s s' r :
  ConsumeAuthStateToken t token p s = (s', Ok r) →
  authStateTokens s !! TrimSpace token = Some r ∧ t < atExpiresAt r ∧ authStateTokens s' !! TrimSpace token = None
  ∧ dirEntropy s' = dirEntropy s ∧ (TrimSpace p ≠ "" → atProvider r = ToLower (TrimSpace p)).
Proof.
  unfold ConsumeAuthStateToken. cbv zeta. rewrite fail_if_bind. destruct (is_empty _); [done|]. rewrite bind_lift.
  destruct (if is_empty _ then _ else _); [|done]. rewrite bind_modify, bind_gets. simpl.
  destruct (filter _ _ !! _) as [x|] eqn:Hx; [|done]. apply map_lookup_filter_Some in Hx as [Hx _].
  rewrite bind_modify, fail_if_bind. destruct (_ && _) eqn:Hp; [done|]. rewrite fail_if_bind. unfold live_token, After.
  destruct (Z.ltb_spec t (atExpiresAt x)) as [Hlt|]; [|done]. simpl. intros [= <- <-]. split_and!; try done.
  - apply lookup_delete_eq.
  - intros Hne. apply andb_false_iff in Hp as [Hp|Hp]; boolp; [|done].
    destruct (TrimSpace p) as [|c q]; [done|]. by rewrite ToLower_cons in Hp.
Qed.

(** C12: A sign-in ends as it was started: whatever calls come between, the token of a start
    names its record, with the tenant, the address and the redirect of the start, until it
    expires, and once taken it is never good again.  The random source must not draw the
    token a second time. *)
Theorem signin_state `{!MapRange} {W} (applier : AccessSyncApplier W) t tn p email uri ttl j d1 r cs t1 token p1 d2 r1 cs' t2 token' p2 :
  StartAuthStateToken t tn p email uri ttl (dir j) = (d1, Ok r) →
  Forall (λ c, ("st_" +:+ hex_encode c) ≠ atToken r) (dirEntropy d1) →
  TrimSpace token = atToken r → TrimSpace token' = atToken r →
  let j1 := run_calls applier cs (j <| dir := d1 |>) in
  ConsumeAuthStateToken t1 token p1 (dir j1) = (d2, Ok r1) →
  let j2 := run_calls applier cs' (j1 <| dir := d2 |>) in
  (r1 = r ∧ t1 < t + (if ttl <=? 0 then defaultAuthStateTokenTTL else ttl)
   ∧ atTenantID r1 = TrimSpace tn ∧ atEmail r1 = normalizeEmail email ∧ RedirectURI r1 = TrimSpace uri)
  ∧ is_ok (answer (ConsumeAuthStateToken t2 token' p2) (dir j2)) = false.
Proof.
  intros Hs Hf Ht Ht' j1 Hc j2. apply start_spec in Hs as (Hr & H1 & H2 & H3 & H4).
  assert (Hj1 : only (atToken r) (Some r) (dir j1)) by (apply only_calls; split; [exact Hf|by left]).
  apply consume_spec in Hc as (Hc & Hlt & Hd & He & _). rewrite Ht in Hc, Hd.
  assert (r1 = r) as -> by (destruct Hj1 as [_ [Hx|Hx]]; congruence). split; [by rewrite <- H4|].
  assert (Hj2 : only (atToken r) None (dir j2)).
  { apply only_calls. split; [|by left]. simpl. rewrite He. by destruct Hj1. }
  unfold answer. destruct (ConsumeAuthStateToken t2 token' p2 (dir j2)) as [d3 [r3|e]] eqn:H5; [|done].
  apply consume_spec in H5 as (H5 & _). rewrite Ht' in H5. destruct Hj2 as [_ [Hx|Hx]]; congruence.
Qed.

(** ** Assertions *)

Lemma mark_once t id e s s' :
  markSAMLAssertionConsumed t id e s = (s', true) → TrimSpace id ≠ "" →
  consumedSAMLAssertions s' !! TrimSpace id = Some (if After e t then e else t + defaultSAMLAssertionReplayWindow).
Proof.
  unfold markSAMLAssertionConsumed. intros H Hid. apply is_empty_false in Hid. rewrite Hid in H.
  destruct (match _ with Some _ => _ | None => _ end); [done|]. injection H as <-. apply lookup_insert_eq.
Qed.

(** The assertion is on the list until [exp]. *)
Definition listed (id : string) (exp : Z) (s : Directory) : Prop := consumedSAMLAssertions s !! id = Some exp.
Lemma given_rand id exp p : preserves (listed id exp) (randomID p).
Proof. intros s Hs. unfold exec, randomID. by destruct (dirEntropy s). Qed.
Lemma listed_start id exp t tn p email uri ttl : preserves (listed id exp) (StartAuthStateToken t tn p email uri ttl).
Proof. unfold StartAuthStateToken. pres_all; try apply given_rand; by apply pres_modify. Qed.
Lemma listed_consume id exp t token p : preserves (listed id exp) (ConsumeAuthStateToken t token p).
Proof. unfold ConsumeAuthStateToken. pres_all; by apply pres_modify. Qed.
Lemma listed_call `{!MapRange} {W} (applier : AccessSyncApplier W) id exp c (j : Joint W) :
  call_time c < exp → listed id exp (dir j) → listed id exp (dir (run_call applier c j)).
Proof.
  intros Ht Hj. destruct (token_call c) eqn:Hc.
  - destruct c; try discriminate Hc; simpl in Ht |- *.
    + by apply listed_start.
    + by apply listed_consume.
    + unfold markSAMLAssertionConsumed, listed in *. destruct (is_empty _); [exact Hj|].
      assert (Hk : filter (λ e, After e.2 t = true) (consumedSAMLAssertions (dir j)) !! id = Some exp).
      { apply map_lookup_filter_Some. split; [done|]. by apply Z.ltb_lt. }
      destruct (match _ with Some _ => _ | None => _ end) eqn:Hm; simpl; [exact Hk|].
      rewrite lookup_insert_ne; [exact Hk|]. intros Heq. rewrite Heq, Hk in Hm. unfold After in Hm. apply Z.ltb_ge in Hm. lia.
  - apply (keeps_run_call (listed id exp)); try done; [apply given_rand|].
    intros s Hs. unfold exec, persistLocked. by destruct (coreStore s) as [[[|[] rs] st]|].
Qed.

(** An assertion is accepted once: until it expires no later mark of the same id, after any
    calls made before that time, is the first. *)
Theorem assertion_once `{!MapRange} {W} (applier : AccessSyncApplier W) t id e j d1 cs t1 id1 e1 :
  TrimSpace id ≠ "" → TrimSpace id1 = TrimSpace id →
  markSAMLAssertionConsumed t id e (dir j) = (d1, true) →
  let exp := if After e t then e else t + defaultSAMLAssertionReplayWindow in
  Forall (λ c, call_time c < exp) cs → t1 < exp →
  (markSAMLAssertionConsumed t1 id1 e1 (dir (run_calls applier cs (j <| dir := d1 |>)))).2 = false.
Proof.
  intros Hid Hid1 Hm exp Hcs Ht1. apply mark_once in Hm; [|done]. fold exp in Hm.
  assert (Hl : listed (TrimSpace id) exp (dir (run_calls applier cs (j <| dir := d1 |>)))).
  { apply (run_calls_keep applier (λ j, listed (TrimSpace id) exp (dir j)) (λ c, call_time c < exp)); [|done..].
    intros c j'. apply listed_call. }
  unfold markSAMLAssertionConsumed. rewrite Hid1. apply is_empty_false in Hid as ->.
  assert (Hk : filter (λ e, After e.2 t1 = true) (consumedSAMLAssertions (dir (run_calls applier cs (j <| dir := d1 |>)))) !! TrimSpace id = Some exp).
  { apply map_lookup_filter_Some. split; [done|]. by apply Z.ltb_lt. }
  rewrite Hk. unfold After. by apply Z.ltb_lt in Ht1 as ->.
Qed.

(** ** Examples *)

Definition ex_history : list Call :=
  [Provision 6 "t1" "new@acme.example" "x7" (mkProfile "" "" "" "" "" "" ""); ReconcileAll 7 "t1" 0 0 0;
   SyncAccess 8 "t1" "hris" "" "r2" "" "" [ex_input "x1" "a3@acme.example" "" "terminated"];
   StartToken 9 "t2" "oidc" "" "https://app.example/cb" 0; UpdateMapping 10 "t1" "dm_1" "inactive"].

(** The repetition has other employees, a source and an actor of its own. *)
Lemma sync_request_once_witness :
  ∃ j1 a, SyncEmployeesWithAccessUpsertMetadata 5 "t1" "hris" "" "r1" "" "" ex_batch (Some ex_applier) ex_joint = (j1, Ok a)
    ∧ let j2 := @run_calls sorted_range nat ex_applier ex_history j1 in
      SyncEmployeesWithAccessUpsertMetadata 20 "t1" "scim" "root" "r1" "" "" [ex_input "" "z@acme.example" "" ""] (Some ex_applier) j2
      = (j2, Ok a).
Proof.
  eexists _, _. split; [vm_compute; reflexivity|].
  apply (@sync_request_once sorted_range nat ex_applier 5 "t1" "hris" "" "r1" "" "" ex_batch ex_joint _ _ ex_history 20 "scim" "root" "" ""
    [ex_input "" "z@acme.example" "" ""]); vm_compute; try reflexivity; discriminate.
Defined.

Definition ex_started : Directory * result enterprise_err AuthStateToken :=
  StartAuthStateToken 5 "t1" "oidc" " A@acme.example" "https://app.example/cb" 0 ex_dir.
Definition ex_token : AuthStateToken :=
  match ex_started.2 with Ok r => r | Err _ => mkStateToken "" "" "" "" "" "" 0 0 end.
Definition ex_midway : Joint nat := @run_calls sorted_range nat ex_applier ex_history (ex_joint <| dir := ex_started.1 |>).
Definition ex_spent : Directory := exec (ConsumeAuthStateToken 20 " st_010101010101" "oidc") (dir ex_midway).
Lemma signin_state_witness :
  ConsumeAuthStateToken 20 " st_010101010101" "oidc" (dir ex_midway) = (ex_spent, Ok ex_token)
  ∧ is_ok (answer (ConsumeAuthStateToken 30 "st_010101010101" "")
             (dir (@run_calls sorted_range nat ex_applier ex_history (ex_midway <| dir := ex_spent |>)))) = false.
Proof.
  split; [vm_compute; reflexivity|].
  refine (proj2 (@signin_state sorted_range nat ex_applier 5 "t1" "oidc" " A@acme.example" "https://app.example/cb" 0 ex_joint
    ex_started.1 ex_token ex_history 20 " st_010101010101" "oidc" ex_spent ex_token ex_history 30 "st_010101010101" "" _ _ _ _ _));
    try (vm_compute; reflexivity).
  apply (bool_decide_unpack _). vm_compute. exact Logic.I.
Defined.
