(* ===== verification/IdpTokens.v ===== *)
(** * Identity tokens (modules/enterprise/oidc.go and saml.go)

    What an OIDC or SAML provider hands over is checked against the configuration of the
    tenant.  The parser of signed tokens (golang-jwt), that of SAML responses
    (crewjam/saml), and the readers of PEM and X.509 are the class [IdpLibs]; what a key
    URL answers is an argument.  Keys are cached for an hour, in a map of the process. *)

From S2P Require Import Cas Prelude GoStrings GoTime Bytes Encoding GoText Url Directory Jit EmployeeSync DirectoryCalls.
#[local] Open Scope string_scope.
#[local] Open Scope list_scope.
#[local] Open Scope Z_scope.

Inductive idp_err :=
| FromDirectory (e : enterprise_err)
| ErrIDPTokenRequired | ErrInvalidIDPToken | ErrIDPJWKSURLRequired | ErrOIDCJWKSFetchFailed
| ErrOIDCTokenIssuerMismatch | ErrOIDCTokenAudienceMismatch | ErrOIDCIssuerNotConfigured
| ErrOIDCAudienceNotConfigured | ErrOIDCTokenSubjectRequired | ErrOIDCTokenEmailRequired | ErrOIDCTokenEmailMismatch
| ErrSAMLResponseRequired | ErrInvalidSAMLResponse | ErrInvalidSAMLX509Cert | ErrSAMLAssertionIssuerMismatch
| ErrSAMLAssertionAudienceMismatch | ErrSAMLIssuerNotConfigured | ErrSAMLAudienceNotConfigured | ErrSAMLAssertionReplayed
| ErrSAMLAssertionSubjectRequired | ErrSAMLAssertionEmailRequired | ErrSAMLAssertionEmailMismatch.

(** ** Data *)

Record OIDCIdentity := mkOIDCIdentity {
  oiSubject : string; oiEmail : string; oiName : string; oiDepartment : string; oiJobTitle : string; oiLocation : string;
  oiPhone : string; oiManagerExternalID : string; oiEmploymentStatus : string; oiIssuer : string;
  oiAudience : list string; oiNonce : string; oiExpiresAt : Z; oiIssuedAt : Z
}.
(** With the registered claims. *)
Record oidcClaims := mkOIDCClaims {
  ocEmail : string; ocName : string; ocDepartment : string; ocJobTitle : string; ocTitle : string; ocLocation : string;
  ocPhoneNumber : string; ocPhone : string; ocManagerExternalID : string; ocManagerID : string;
  ocEmploymentStatus : string; ocStatus : string; ocActive : option bool; ocNonce : string;
  ocIssuer : string; ocSubject : string; ocAudience : list string; ocExpiresAt : option Z; ocIssuedAt : option Z
}.
Record jwkKey := mkJWK { Kid : string; Kty : string; jwkN : string; jwkE : string }.
Record PublicKey := mkPublicKey { modulus : Z; exponent : Z }.
Record jwksCacheEntry := mkCacheEntry { cachedKeys : gmap string PublicKey; expiresAt : Z }.
Abbreviation jwksCache := (gmap string jwksCacheEntry).

(** The parts of a SAML assertion the code reads: an attribute value and the name id in it. *)
Record SAMLAttribute := mkAttribute { attrName : string; FriendlyName : string; Values : list (string * option string) }.
Record SAMLAssertion := mkAssertion {
  asID : string; asNameID : option string; asIssuer : string; IssueInstant : Z;
  Conditions : option (Z * list string);     (* NotOnOrAfter, the audiences *)
  AttributeStatements : list (list SAMLAttribute)
}.
Record SAMLIdentity := mkSAMLIdentity {
  siSubject : string; siEmail : string; siIssuer : string; siAudience : list string; siExpiresAt : Z; siIssuedAt : Z;
  Attributes : gmap string (list string)
}.
(** The ACS URL as text; a blank entity id stands for it, and the metadata URL is a function of it. *)
Record ServiceProvider := mkProvider { EntityID : string; AcsURL : string; idpEntityID : string; signingCert : string }.

Class IdpLibs := {
  (* the claims of a token that is valid at that time, signed by one of the methods with the key of its key id *)
  ParseWithClaims : Z → (string → option PublicKey) → list string → string → option oidcClaims;
  ParseXMLResponse : Z → ServiceProvider → bytes → option SAMLAssertion;
  pem_decode : string → option bytes;
  ParseCertificate : bytes → option bytes      (* its Raw *)
}.

(** ** Base64 in its other forms *)

(** [base64.RawStdEncoding.DecodeString] *)
Definition base64_decode_raw (l : bytes) : option bytes :=
  let l := filterb not_newline l in
  if existsb is_pad l then None
  else match (length l mod 4)%nat with
       | 0%nat => base64_groups l
       | 2%nat => base64_groups (l ++ [pad; pad])
       | 3%nat => base64_groups (l ++ [pad])
       | _ => None
       end.
(** The alphabet of [base64.URLEncoding] in the standard one; its plus and slash are no digits. *)
Definition from_url_char (c : ascii) : ascii :=
  if code c =? 45 then chr 43 else if code c =? 95 then chr 47 else if (code c =? 43) || (code c =? 47) then chr 0 else c.
Definition base64_decode_url (l : bytes) : option bytes := base64_decode (from_url_char <$> l).
Definition base64_decode_rawurl (l : bytes) : option bytes := base64_decode_raw (from_url_char <$> l).

(** [url.QueryUnescape] *)
Definition plus_space (c : ascii) : ascii := if Ascii.eqb c "+" then " "%char else c.
Definition QueryUnescape (s : string) : option string := unescape false (to_string (plus_space <$> of_string s)).

Definition TrimSuffix (s suffix : string) : string :=
  if HasSuffix s suffix then String.substring 0 (String.length s - String.length suffix) s else s.

(** ** Keys *)

Definition bytes_number (l : bytes) : Z := foldl (λ n b, n * 256 + code b) 0 l.
(** The exponent is an [int]. *)
Definition bytes_int (l : bytes) : Z := foldl (λ e b, wrap64 (Z.lor (Z.shiftl e 8) (code b))) 0 l.
Definition rsaPublicKeyFromJWK (nRaw eRaw : string) : option PublicKey :=
  match base64_decode_rawurl (of_string (TrimSpace nRaw)), base64_decode_rawurl (of_string (TrimSpace eRaw)) with
  | Some ((_ :: _) as nBytes), Some ((_ :: _) as eBytes) =>
      if bytes_int eBytes <=? 0 then None else Some (mkPublicKey (bytes_number nBytes) (bytes_int eBytes))
  | _, _ => None
  end.

Definition take_key (keys : gmap string PublicKey) (key : jwkKey) : gmap string PublicKey :=
  let kid := TrimSpace (Kid key) in
  if negb (String.eqb (ToUpper (TrimSpace (Kty key))) "RSA") || is_empty kid then keys
  else match rsaPublicKeyFromJWK (jwkN key) (jwkE key) with Some pub => <[kid := pub]> keys | None => keys end.

Definition oidcJWKSCacheTTL : Z := hour.
Definition oidcJWKSCacheMaxEntries : nat := 128.
#[global] Arguments oidcJWKSCacheMaxEntries : simpl never.

(** Copies of the keys are the keys. *)
Definition loadCachedJWKS (rawURL : string) (now : Z) (cache : jwksCache) : jwksCache * option (gmap string PublicKey) :=
  match cache !! rawURL with
  | None => (cache, None)
  | Some entry => if Before now (expiresAt entry) then (cache, Some (cachedKeys entry)) else (delete rawURL cache, None)
  end.

(** The entry that expires first, in the order of the loop; blank when there is none. *)
Definition oldest_entry `{!MapRange} (cache : jwksCache) : string :=
  (foldl (λ best e, if is_empty best.1 || Before (expiresAt e.2) best.2 then (e.1, expiresAt e.2) else best)
     ("", time_zero) (range cache)).1.
(** One entry less in every turn, so the size is fuel enough. *)
Fixpoint evict_oldest `{!MapRange} (fuel : nat) (cache : jwksCache) : jwksCache :=
  match fuel with
  | O => cache
  | S fuel' =>
      if (size cache <? oidcJWKSCacheMaxEntries)%nat then cache
      else let oldestURL := oldest_entry cache in
           if is_empty oldestURL then cache else evict_oldest fuel' (delete oldestURL cache)
  end.
Definition storeCachedJWKS `{!MapRange} (now : Z) (rawURL : string) (keys : gmap string PublicKey) (expires : Z) (cache : jwksCache) :
    jwksCache :=
  if is_empty rawURL || (size keys =? 0)%nat then cache
  else
    let live := filter (λ e, Before now (expiresAt e.2) = true) cache in
    let live := if bool_decide (is_Some (live !! rawURL)) then live else evict_oldest (size live) live in
    <[rawURL := mkCacheEntry keys expires]> live.

Abbreviation jm := (op jwksCache idp_err).

(** [read] is [readJWKSBytes] with the decoding: what the URL answers, if it can be read. *)
Definition fetchJWKS `{!MapRange} (now : Z) (read : string → option (list jwkKey)) (rawURL : string) :
    jm (gmap string PublicKey) :=
  let nextURL := TrimSpace rawURL in
  fail_if (is_empty nextURL) ErrIDPJWKSURLRequired;;
  cached ← (λ c, let '(c', r) := loadCachedJWKS nextURL now c in (c', Ok r));
  match cached with
  | Some keys => mret keys
  | None =>
      match read nextURL with
      | None => throw ErrOIDCJWKSFetchFailed
      | Some doc =>
          let keys := foldl take_key ∅ doc in
          fail_if (size keys =? 0)%nat ErrOIDCJWKSFetchFailed;;
          modify (storeCachedJWKS now nextURL keys (now + oidcJWKSCacheTTL));;
          mret keys
      end
  end.

Definition effectiveJWKSURL (config : IDPConfig) : string :=
  let next := TrimSpace (JWKSURL config) in
  if negb (is_empty next) then next
  else let issuer := TrimSpace (IssuerURL config) in
       if is_empty issuer then "" else TrimSuffix issuer "/" +:+ "/.well-known/jwks.json".

(** ** OIDC *)

Definition containsAudience (values : list string) (expected : string) : bool :=
  let nextExpected := TrimSpace expected in
  is_empty nextExpected || existsb (λ v, String.eqb (TrimSpace v) nextExpected) values.
Definition normalizeOIDCEmploymentStatus (employmentStatus status : string) (active : option bool) : string :=
  if negb (is_empty (NormalizeEmploymentStatus employmentStatus)) then NormalizeEmploymentStatus employmentStatus
  else if negb (is_empty (NormalizeEmploymentStatus status)) then NormalizeEmploymentStatus status
  else match active with None => "" | Some true => "active" | Some false => "inactive" end.

Definition or_blank (first second : string) : string := if is_empty (TrimSpace first) then TrimSpace second else TrimSpace first.
Definition oidc_identity (claims : oidcClaims) : OIDCIdentity :=
  mkOIDCIdentity (TrimSpace (ocSubject claims)) (normalizeEmail (ocEmail claims)) (TrimSpace (ocName claims))
    (TrimSpace (ocDepartment claims)) (or_blank (ocJobTitle claims) (ocTitle claims)) (TrimSpace (ocLocation claims))
    (or_blank (ocPhoneNumber claims) (ocPhone claims)) (or_blank (ocManagerExternalID claims) (ocManagerID claims))
    (normalizeOIDCEmploymentStatus (ocEmploymentStatus claims) (ocStatus claims) (ocActive claims))
    (TrimSpace (ocIssuer claims)) (ocAudience claims) (TrimSpace (ocNonce claims)) (default time_zero (ocExpiresAt claims))
    (default time_zero (ocIssuedAt claims)).

(** The key function of the parser. *)
Definition key_of (keys : gmap string PublicKey) (kid : string) : option PublicKey :=
  if is_empty (TrimSpace kid) then None else keys !! TrimSpace kid.
Definition rsa_methods : list string := ["RS256";"RS384";"RS512"].

(** What is asked of the claims of a valid token. *)
Definition check_claims (config : IDPConfig) (expectedEmail : string) (claims : oidcClaims) : result idp_err OIDCIdentity :=
  let expectedIssuer := TrimSpace (IssuerURL config) in
  let expectedAudience := TrimSpace (ClientID config) in
  let expected := normalizeEmail expectedEmail in
  if is_empty expectedIssuer then Err ErrOIDCIssuerNotConfigured
  else if negb (String.eqb (TrimSpace (ocIssuer claims)) expectedIssuer) then Err ErrOIDCTokenIssuerMismatch
  else if is_empty expectedAudience then Err ErrOIDCAudienceNotConfigured
  else if negb (containsAudience (ocAudience claims) expectedAudience) then Err ErrOIDCTokenAudienceMismatch
  else if is_empty (TrimSpace (ocSubject claims)) then Err ErrOIDCTokenSubjectRequired
  else if is_empty (normalizeEmail (ocEmail claims)) then Err ErrOIDCTokenEmailRequired
  else if negb (is_empty expected) && negb (String.eqb expected (normalizeEmail (ocEmail claims)))
  then Err ErrOIDCTokenEmailMismatch
  else Ok (oidc_identity claims).

Definition VerifyOIDCIDToken `{!MapRange, !IdpLibs} (now : Z) (read : string → option (list jwkKey)) (config : IDPConfig)
    (rawToken expectedEmail : string) : jm OIDCIdentity :=
  fail_if (negb (String.eqb (ToLower (TrimSpace (idpProvider config))) "oidc")) (FromDirectory ErrInvalidIDPProvider);;
  let nextToken := TrimSpace rawToken in
  fail_if (is_empty nextToken) ErrIDPTokenRequired;;
  let jwksURL := effectiveJWKSURL config in
  fail_if (is_empty jwksURL) ErrIDPJWKSURLRequired;;
  keys ← or_err (fetchJWKS now read jwksURL) ErrOIDCJWKSFetchFailed;
  match ParseWithClaims now (key_of keys) rsa_methods nextToken with
  | None => throw ErrInvalidIDPToken
  | Some claims => lift (check_claims config expectedEmail claims)
  end.

(** ** SAML *)

Definition compactWhitespace (value : string) : string := Join (Fields value) "".
Definition looksLikeEmail (value : string) : bool :=
  let next := normalizeEmail value in
  negb (is_empty next) && match Split next "@" with [_; domain] => Contains domain "." | _ => false end.

(** The first prefix the text has, and what follows it. *)
Definition after_prefix (prefixes : list string) (s : string) : option string :=
  match findi (HasPrefix s) prefixes with Some (_, p) => Some (TrimPrefix s p) | None => None end.
Definition first_decoded (value : string) : option bytes :=
  let l := of_string (compactWhitespace value) in
  match base64_decode l, base64_decode_raw l, base64_decode_url l, base64_decode_rawurl l with
  | Some b, _, _, _ | None, Some b, _, _ | None, None, Some b, _ | None, None, None, Some b => Some b
  | None, None, None, None => None
  end.
Definition decodeSAMLResponse (raw : string) : result idp_err bytes :=
  let next := TrimSpace raw in
  let decoded o := match o with Some b => Ok b | None => Err ErrInvalidSAMLResponse end in
  if is_empty next then Err ErrSAMLResponseRequired
  else if HasPrefix next "<" then Ok (of_string next)
  else match after_prefix ["data:application/samlassertion+xml;base64,"; "data:application/xml;base64,";
                           "data:text/xml;base64,"] next with
       | Some rest => decoded (base64_decode (of_string rest))
       | None =>
           match first_decoded next with
           | Some b => Ok b
           | None =>
               match QueryUnescape next with
               | Some unescaped => if String.eqb unescaped next then Err ErrInvalidSAMLResponse else decoded (first_decoded unescaped)
               | None => Err ErrInvalidSAMLResponse
               end
           end
       end.

Section certificates.
Context `{!IdpLibs}.
Definition normalizeSAMLX509Certificate (raw : string) : result idp_err string :=
  let next := TrimSpace raw in
  let wrong := Err ErrInvalidSAMLX509Cert in
  if is_empty next then Err (FromDirectory ErrSAMLX509CertRequired)
  else
    match match after_prefix ["data:application/x-pem-file;base64,"; "data:application/pkix-cert;base64,";
                              "data:application/octet-stream;base64,"] next with
          | Some rest => to_string <$> base64_decode (of_string rest) | None => Some next end with
    | None => wrong
    | Some next =>
        let certDER :=
          if Contains next "-----BEGIN CERTIFICATE-----"
          then match pem_decode next with Some [] => None | o => o end
          else let compact := of_string (compactWhitespace next) in
               match base64_decode compact with Some b => Some b | None => base64_decode_raw compact end in
        match certDER with
        | None => wrong
        | Some der => match ParseCertificate der with Some raw => Ok (to_string (base64_encode raw)) | None => wrong end
        end
    end.
End certificates.

(** A value under a key, unless one is blank or it is there. *)
Definition push (key value : string) (out : gmap string (list string)) : gmap string (list string) :=
  let nextKey := ToLower (TrimSpace key) in
  let nextValue := TrimSpace value in
  let values := default [] (out !! nextKey) in
  if is_empty nextKey || is_empty nextValue || existsb (String.eqb nextValue) values then out
  else <[nextKey := values ++ [nextValue]]> out.
Definition push_value (attr : SAMLAttribute) (out : gmap string (list string)) (v : string * option string) :
    gmap string (list string) :=
  let value := if is_empty (TrimSpace v.1) then match v.2 with Some n => TrimSpace n | None => "" end else TrimSpace v.1 in
  push (FriendlyName attr) value (push (attrName attr) value out).
Definition collectSAMLAttributes (assertion : SAMLAssertion) : gmap string (list string) :=
  foldl (foldl (λ out attr, foldl (push_value attr) out (Values attr))) ∅ (AttributeStatements assertion).

Fixpoint audiences_from (seen l : list string) : list string :=
  match l with
  | [] => []
  | x :: l' =>
      let next := TrimSpace x in
      if is_empty next || existsb (String.eqb next) seen then audiences_from seen l' else next :: audiences_from (next :: seen) l'
  end.
Definition collectSAMLAudience (assertion : SAMLAssertion) : list string :=
  match Conditions assertion with None => [] | Some (_, audiences) => audiences_from [] audiences end.

Definition email_keys : list string :=
  ["email"; "mail"; "emailaddress"; "urn:oid:0.9.2342.19200300.100.1.3";
   "http://schemas.xmlsoap.org/ws/2005/05/identity/claims/emailaddress"; "urn:oasis:names:tc:saml:attribute:subject-id"].
(** The first address under the first key that has one. *)
Definition extractSAMLEmail (attributes : gmap string (list string)) : string :=
  let all := concat ((λ k, normalizeEmail <$> default [] (attributes !! k)) <$> email_keys) in
  match findi looksLikeEmail all with Some (_, e) => e | None => "" end.

Definition saml_subject (assertion : SAMLAssertion) : string :=
  match asNameID assertion with Some n => TrimSpace n | None => "" end.
Definition saml_email (subject : string) (attributes : gmap string (list string)) : string :=
  let email := extractSAMLEmail attributes in
  if is_empty email && looksLikeEmail subject then normalizeEmail subject else email.
Definition buildSAMLIdentity (assertion : SAMLAssertion) : result idp_err SAMLIdentity :=
  let subject := saml_subject assertion in
  let attributes := collectSAMLAttributes assertion in
  let email := saml_email subject attributes in
  if is_empty subject then Err ErrSAMLAssertionSubjectRequired
  else if is_empty email then Err ErrSAMLAssertionEmailRequired
  else Ok (mkSAMLIdentity subject email (TrimSpace (asIssuer assertion)) (collectSAMLAudience assertion)
             (match Conditions assertion with Some (t, _) => t | None => time_zero end) (IssueInstant assertion) attributes).

(** What is asked of the identity. *)
Definition check_identity (config : IDPConfig) (expectedEmail : string) (identity : SAMLIdentity) : result idp_err unit :=
  let expectedIssuer := TrimSpace (IssuerURL config) in
  let expectedAudience := TrimSpace (ClientID config) in
  let expected := normalizeEmail expectedEmail in
  if is_empty expectedIssuer then Err ErrSAMLIssuerNotConfigured
  else if negb (String.eqb (TrimSpace (siIssuer identity)) expectedIssuer) then Err ErrSAMLAssertionIssuerMismatch
  else if is_empty expectedAudience then Err ErrSAMLAudienceNotConfigured
  else if negb (containsAudience (siAudience identity) expectedAudience) then Err ErrSAMLAssertionAudienceMismatch
  else if negb (is_empty expected) && negb (String.eqb expected (siEmail identity)) then Err ErrSAMLAssertionEmailMismatch
  else Ok tt.

Section saml.
Context `{!IdpLibs, !IPLiteral}.
Definition buildSAMLServiceProvider (idpEntity spEntityID acsURL signing : string) : result idp_err ServiceProvider :=
  match Parse (TrimSpace acsURL) with
  | None => Err ErrInvalidSAMLResponse
  | Some _ => Ok (mkProvider (TrimSpace spEntityID) (TrimSpace acsURL) (TrimSpace idpEntity) signing)
  end.

(** What comes before the parser: the provider, and the response. *)
Definition saml_request (config : IDPConfig) (rawResponse : string) : result idp_err (ServiceProvider * bytes) :=
  if negb (String.eqb (ToLower (TrimSpace (idpProvider config))) "saml") then Err (FromDirectory ErrInvalidIDPProvider)
  else if is_empty (TrimSpace rawResponse) then Err ErrSAMLResponseRequired
  else
    let nextACSURL := if is_empty (TrimSpace (SAMLACSURL config)) then TrimSpace (AuthURL config) else TrimSpace (SAMLACSURL config) in
    if is_empty nextACSURL then Err (FromDirectory ErrSAMLACSURLRequired)
    else if negb (looksLikeHTTPSURL nextACSURL) then Err (FromDirectory ErrInvalidSAMLACSURL)
    else
      normalizedCert ← normalizeSAMLX509Certificate (TrimSpace (SAMLX509Cert config));
      responseXML ← decodeSAMLResponse (TrimSpace rawResponse);
      sp ← buildSAMLServiceProvider (TrimSpace (IssuerURL config)) (TrimSpace (ClientID config)) nextACSURL normalizedCert;
      Ok (sp, responseXML).

(** An assertion counts once; one without an id always does. *)
Definition consume_assertion (now : Z) (id : string) (expiry : Z) : op Directory idp_err unit := λ s,
  let expiry := if IsZero expiry then now + defaultSAMLAssertionReplayWindow else expiry in
  let '(s', first) := markSAMLAssertionConsumed now id expiry s in
  (s', if first then Ok tt else Err ErrSAMLAssertionReplayed).

Definition VerifySAMLResponse (now : Z) (config : IDPConfig) (rawResponse expectedEmail : string) :
    op Directory idp_err SAMLIdentity :=
  '(sp, responseXML) ← lift (saml_request config rawResponse);
  match ParseXMLResponse now sp responseXML with
  | None => throw ErrInvalidSAMLResponse
  | Some assertion =>
      identity ← lift (buildSAMLIdentity assertion);
      lift (check_identity config expectedEmail identity);;
      (if is_empty (TrimSpace (asID assertion)) then mret tt
       else consume_assertion now (TrimSpace (asID assertion)) (siExpiresAt identity));;
      mret identity
  end.
End saml.

(** ** Facts *)

(** *** The cache of keys *)

(** It is bounded, and every entry is taken from a URL and has an hour left at most. *)
Definition cache_ok (now : Z) (cache : jwksCache) : Prop :=
  (size cache ≤ oidcJWKSCacheMaxEntries)%nat
  ∧ map_Forall (λ url e, url ≠ "" ∧ expiresAt e ≤ now + oidcJWKSCacheTTL) cache.

Section cache.
Context `{!MapRange}.
Implicit Types (cache : jwksCache).

Lemma oldest_is_there cache :
  cache ≠ ∅ → map_Forall (λ url _, url ≠ "") cache → oldest_entry cache ≠ "" ∧ is_Some (cache !! oldest_entry cache).
Proof.
  intros Hne Hall. unfold oldest_entry.
  assert (Hin : ∀ e, e ∈ range cache → e.1 ≠ "" ∧ is_Some (cache !! e.1)).
  { intros [k x] Hk%elem_of_range. split; [by apply (Hall k x)|eauto]. }
  assert (Hne' : range cache ≠ []).
  { intros Hr. apply Hne, map_empty. intros k. apply eq_None_not_Some. intros [x Hx].
    assert (Hk : (k, x) ∈ range cache) by by apply elem_of_range. rewrite Hr in Hk. by apply elem_of_nil in Hk. }
  destruct (range cache) as [|e l]; [done|]. clear Hne'. simpl.
  assert (He := Hin e ltac:(by left)). assert (Hl : ∀ e', e' ∈ l → e'.1 ≠ "" ∧ is_Some (cache !! e'.1)) by (intros e' ?; apply Hin; by right).
  clear Hin. set (b := (e.1, expiresAt e.2)). assert (Hb : b.1 ≠ "" ∧ is_Some (cache !! b.1)) by done. clearbody b. clear He.
  revert b Hb. induction l as [|e' l IH]; intros b Hb; [done|]. simpl. apply IH; [intros; apply Hl; by right|].
  destruct (is_empty b.1 || Before (expiresAt e'.2) b.2); [|done]. apply Hl. by left.
Qed.

Lemma evict_ok fuel cache :
  (size cache ≤ fuel)%nat → map_Forall (λ url _, url ≠ "") cache →
  (size (evict_oldest fuel cache) < oidcJWKSCacheMaxEntries)%nat ∧ evict_oldest fuel cache ⊆ cache.
Proof.
  revert cache. induction fuel as [|fuel IH]; simpl; intros cache Hs Hall.
  - split; [unfold oidcJWKSCacheMaxEntries; lia|done].
  - destruct (Nat.ltb_spec (size cache) oidcJWKSCacheMaxEntries); [done|].
    destruct (oldest_is_there cache) as [Ho [x Hx]]; [|done|].
    { intros ->. rewrite map_size_empty in *. unfold oidcJWKSCacheMaxEntries in *. lia. }
    apply is_empty_false in Ho. rewrite Ho. destruct (IH (delete (oldest_entry cache) cache)) as [H1 H2].
    + pose proof (map_size_delete_Some _ _ (mk_is_Some _ _ Hx)). lia.
    + by apply map_Forall_delete.
    + split; [done|]. etrans; [exact H2|apply delete_subseteq].
Qed.

Lemma store_ok now url keys cache :
  cache_ok now cache → cache_ok now (storeCachedJWKS now url keys (now + oidcJWKSCacheTTL) cache).
Proof.
  intros [Hs Hall]. unfold storeCachedJWKS. destruct (is_empty url || _)%bool eqn:Hu; [done|]. apply orb_false_iff in Hu as [Hu _].
  apply is_empty_false in Hu. set (live := filter _ cache).
  assert (Hsub : live ⊆ cache) by apply map_filter_subseteq.
  assert (Hl : (size live ≤ size cache)%nat) by by apply map_subseteq_size.
  assert (Hok : ∀ c, c ⊆ cache → map_Forall (λ u e, u ≠ "" ∧ expiresAt e ≤ now + oidcJWKSCacheTTL) (<[url := mkCacheEntry keys (now + oidcJWKSCacheTTL)]> c)).
  { intros c Hc. apply map_Forall_insert_2; [done|]. intros u e He. apply Hall. by eapply lookup_weaken. }
  case_bool_decide as Hin.
  - split; [|by apply Hok]. rewrite map_size_insert_Some by done. lia.
  - destruct (evict_ok (size live) live) as [H1 H2]; [done| |].
    { intros u e He. destruct (Hall u e) as [? _]; [|done]. by eapply lookup_weaken. }
    split; [|apply Hok; by etrans]. rewrite map_size_insert_None; [lia|].
    apply eq_None_not_Some. intros [x Hx]. apply Hin. exists x. by eapply lookup_weaken.
Qed.

Lemma load_ok now t url cache : cache_ok t cache → cache_ok t (loadCachedJWKS url now cache).1.
Proof.
  intros [Hs Hall]. unfold loadCachedJWKS. destruct (cache !! url) as [e|] eqn:He; [|done]. destruct (Before _ _); [done|].
  split; simpl; [|by apply map_Forall_delete]. pose proof (map_size_delete_Some _ _ (mk_is_Some _ _ He)). lia.
Qed.

(** The keys a token is checked with: what the URL answers now, or answered less than an hour ago. *)
Lemma fetch_spec now read url cache cache' r :
  cache_ok now cache → fetchJWKS now read url cache = (cache', r) →
  cache_ok now cache'
  ∧ ∀ keys, r = Ok keys →
      (∃ e, cache !! TrimSpace url = Some e ∧ cachedKeys e = keys ∧ now < expiresAt e)
      ∨ (∃ doc, read (TrimSpace url) = Some doc ∧ keys = foldl take_key ∅ doc).
Proof.
  intros Hok. unfold fetchJWKS. cbv zeta. rewrite fail_if_bind. destruct (is_empty _) eqn:Hu; [by intros [= <- <-]|].
  rewrite bind_op_eq. pose proof (load_ok now now (TrimSpace url) cache Hok) as Hl. unfold loadCachedJWKS in *.
  destruct (cache !! TrimSpace url) as [e|] eqn:He; [destruct (Before now (expiresAt e)) eqn:Hb|].
  - intros [= <- <-]. split; [done|]. intros keys [= <-]. left. exists e. split_and!; [done..|]. by apply Z.ltb_lt in Hb.
  - destruct (read (TrimSpace url)) as [doc|] eqn:Hr; [|by intros [= <- <-]]. rewrite fail_if_bind.
    destruct (_ =? _)%nat; [by intros [= <- <-]|]. rewrite bind_modify. intros [= <- <-]. split; [by apply store_ok|].
    intros keys [= <-]. right. eauto.
  - destruct (read (TrimSpace url)) as [doc|] eqn:Hr; [|by intros [= <- <-]]. rewrite fail_if_bind.
    destruct (_ =? _)%nat; [by intros [= <- <-]|]. rewrite bind_modify. intros [= <- <-]. split; [by apply store_ok|].
    intros keys [= <-]. right. eauto.
Qed.
End cache.

(** *** Tokens *)

Lemma check_claims_ok config expectedEmail claims id :
  check_claims config expectedEmail claims = Ok id →
  id = oidc_identity claims ∧ oiIssuer id = TrimSpace (IssuerURL config) ∧ oiIssuer id ≠ ""
  ∧ (∃ a, a ∈ oiAudience id ∧ TrimSpace a = TrimSpace (ClientID config)) ∧ oiEmail id ≠ ""
  ∧ (normalizeEmail expectedEmail ≠ "" → oiEmail id = normalizeEmail expectedEmail).
Proof.
  unfold check_claims. destruct (is_empty (TrimSpace (IssuerURL config))) eqn:Hi; [done|]. apply is_empty_false in Hi.
  destruct (String.eqb_spec (TrimSpace (ocIssuer claims)) (TrimSpace (IssuerURL config))) as [Hiss|]; [|done]. simpl.
  destruct (is_empty (TrimSpace (ClientID config))) eqn:Hc; [done|].
  destruct (containsAudience _ _) eqn:Ha; [|done]. simpl. destruct (is_empty (TrimSpace (ocSubject claims))); [done|].
  destruct (is_empty (normalizeEmail (ocEmail claims))) eqn:He; [done|]. apply is_empty_false in He.
  destruct (_ && _) eqn:Hx; [done|]. intros [= <-]. split_and!; try done; simpl; [by rewrite Hiss| |].
  - unfold containsAudience in Ha. rewrite TrimSpace_idem, Hc in Ha. simpl in Ha.
    apply existsb_exists in Ha as (a & Hin & Hain%String.eqb_eq). exists a. split; [by apply list_elem_of_In|done].
  - intros Hne. apply andb_false_iff in Hx as [Hx|Hx]; boolp; [|done]. by apply is_empty_false in Hne; rewrite Hne in Hx.
Qed.
Lemma oidc_checked `{!MapRange, !IdpLibs} now read config rawToken expectedEmail cache cache' id :
  VerifyOIDCIDToken now read config rawToken expectedEmail cache = (cache', Ok id) →
  ∃ claims, check_claims config expectedEmail claims = Ok id.
Proof.
  unfold VerifyOIDCIDToken. cbv zeta. rewrite !fail_if_bind. destruct (negb _); [done|]. do 2 (destruct (is_empty _); [done|]).
  intros (c & keys & _ & H1)%bind_ok. destruct (ParseWithClaims _ _ _ _) as [claims|]; [|done]. exists claims. by injection H1.
Qed.

(** C10: An ID token is accepted only with a key the provider of the tenant publishes, or
    published less than an hour before; it names the issuer and the client of the
    configuration, and the address that was asked for, if one was.  The cache of keys
    stays within its 128 entries and its hour, also when the token is refused. *)
Theorem oidc_accepts `{!MapRange, !IdpLibs} now read config rawToken expectedEmail cache cache' r :
  cache_ok now cache →
  VerifyOIDCIDToken now read config rawToken expectedEmail cache = (cache', r) →
  cache_ok now cache'
  ∧ ∀ id, r = Ok id → ∃ keys claims,
      ((∃ e, cache !! TrimSpace (effectiveJWKSURL config) = Some e ∧ cachedKeys e = keys ∧ now < expiresAt e)
       ∨ (∃ doc, read (TrimSpace (effectiveJWKSURL config)) = Some doc ∧ keys = foldl take_key ∅ doc))
      ∧ ParseWithClaims now (key_of keys) rsa_methods (TrimSpace rawToken) = Some claims ∧ id = oidc_identity claims
      ∧ oiIssuer id = TrimSpace (IssuerURL config) ∧ oiIssuer id ≠ ""
      ∧ (∃ a, a ∈ oiAudience id ∧ TrimSpace a = TrimSpace (ClientID config)) ∧ oiEmail id ≠ ""
      ∧ (normalizeEmail expectedEmail ≠ "" → oiEmail id = normalizeEmail expectedEmail).
Proof.
  intros Hok. unfold VerifyOIDCIDToken. cbv zeta. rewrite !fail_if_bind. destruct (negb _); [by intros [= <- <-]|].
  do 2 (destruct (is_empty _); [by intros [= <- <-]|]). rewrite bind_op_eq. unfold or_err.
  destruct (fetchJWKS now read _ cache) as [c1 [keys|e]] eqn:Hf;
    destruct (fetch_spec _ _ _ _ _ _ Hok Hf) as [H1 H2]; [|by intros [= <- <-]].
  destruct (ParseWithClaims _ _ _ _) as [claims|] eqn:Hp; [|by intros [= <- <-]]. intros [= <- Hr]. split; [done|].
  intros id ->. apply check_claims_ok in Hr. exists keys, claims. by split; [apply H2|].
Qed.

(** The parts of an accepted SAML response. *)
Lemma saml_accepted `{!IdpLibs, !IPLiteral} now config raw email s s' id :
  VerifySAMLResponse now config raw email s = (s', Ok id) →
  ∃ sp xml assertion, saml_request config raw = Ok (sp, xml) ∧ ParseXMLResponse now sp xml = Some assertion
    ∧ buildSAMLIdentity assertion = Ok id ∧ check_identity config email id = Ok tt
    ∧ (TrimSpace (asID assertion) = "" ∧ s' = s
       ∨ TrimSpace (asID assertion) ≠ ""
         ∧ markSAMLAssertionConsumed now (TrimSpace (asID assertion))
             (if IsZero (siExpiresAt id) then now + defaultSAMLAssertionReplayWindow else siExpiresAt id) s = (s', true)).
Proof.
  unfold VerifySAMLResponse. rewrite bind_lift. destruct (saml_request _ _) as [[sp xml]|] eqn:Hr; [|done].
  destruct (ParseXMLResponse _ _ _) as [a|] eqn:Hp; [|done]. rewrite bind_lift.
  destruct (buildSAMLIdentity a) as [i|] eqn:Hb; [|done]. rewrite bind_lift. destruct (check_identity _ _ _) as [[]|] eqn:Hc; [|done].
  intros (s1 & [] & Hm & [= <- <-])%bind_ok. exists sp, xml, a. split_and!; try done.
  destruct (is_empty (TrimSpace (asID a))) eqn:He.
  - left. injection Hm as <-. by apply String.eqb_eq in He.
  - right. apply is_empty_false in He. split; [done|]. unfold consume_assertion in Hm.
    destruct (markSAMLAssertionConsumed _ _ _ _) as [s2 [|]]; by injection Hm as <-.
Qed.

Lemma check_identity_email config expectedEmail id :
  check_identity config expectedEmail id = Ok tt → normalizeEmail expectedEmail ≠ "" → siEmail id = normalizeEmail expectedEmail.
Proof.
  unfold check_identity. do 4 (case_match; [done|]). destruct (_ && _) eqn:Hx; [done|]. intros _ Hne.
  apply andb_false_iff in Hx as [Hx|Hx]; boolp; [|done]. by apply is_empty_false in Hne; rewrite Hne in Hx.
Qed.
Lemma built_email a id : buildSAMLIdentity a = Ok id → siEmail id ≠ "".
Proof.
  unfold buildSAMLIdentity. cbv zeta. destruct (is_empty (saml_subject a)); [done|].
  destruct (is_empty (saml_email _ _)) eqn:He; [done|]. apply is_empty_false in He. by intros [= <-].
Qed.

(** C11: A SAML assertion signs in once: after it was accepted, no response with an assertion of
    the same id is accepted before it expires, for any tenant and whatever calls of the
    service come in between. *)
Theorem saml_once `{!MapRange, !IdpLibs, !IPLiteral} {W} (applier : AccessSyncApplier W) now config raw email j d1 id sp xml assertion
    cs t1 config1 raw1 email1 sp1 xml1 assertion1 :
  VerifySAMLResponse now config raw email (dir j) = (d1, Ok id) →
  saml_request config raw = Ok (sp, xml) → ParseXMLResponse now sp xml = Some assertion →
  saml_request config1 raw1 = Ok (sp1, xml1) → ParseXMLResponse t1 sp1 xml1 = Some assertion1 →
  asID assertion1 = asID assertion → TrimSpace (asID assertion) ≠ "" →
  Forall (λ c, call_time c < siExpiresAt id) cs → t1 < siExpiresAt id → now < siExpiresAt id → IsZero (siExpiresAt id) = false →
  is_ok (answer (VerifySAMLResponse t1 config1 raw1 email1) (dir (run_calls applier cs (j <| dir := d1 |>)))) = false.
Proof.
  intros Hv Hsp Hp Hsp1 Hp1 Hid Hne Hcs Ht1 Hnow Hz. apply saml_accepted in Hv as (sp' & xml' & a & P1 & P2 & _ & _ & Hm).
  assert (a = assertion) as -> by congruence. destruct Hm as [[? _]|[_ Hm]]; [done|]. rewrite Hz in Hm.
  unfold answer. destruct (VerifySAMLResponse t1 _ _ _ _) as [d2 [id2|e]] eqn:Hv2; [|done].
  apply saml_accepted in Hv2 as (sp'' & xml'' & a1 & P3 & P4 & _ & _ & Hm2). assert (a1 = assertion1) as -> by congruence.
  rewrite Hid in Hm2. destruct Hm2 as [[? _]|[_ Hm2]]; [done|].
  pose proof (assertion_once applier now (TrimSpace (asID assertion)) (siExpiresAt id) j d1 cs t1 (TrimSpace (asID assertion))
    (if IsZero (siExpiresAt id2) then t1 + defaultSAMLAssertionReplayWindow else siExpiresAt id2)) as Hass.
  rewrite TrimSpace_idem in Hass. cbv zeta in Hass. assert (After (siExpiresAt id) now = true) as Ha by by apply Z.ltb_lt. rewrite Ha in Hass.
  by rewrite Hm2 in Hass; discriminate Hass.
Qed.

(** ** Examples *)

(** Libraries that know a table of tokens, all signed with the key "k", and read a
    response as the id of an assertion that is good for an hour. *)
Definition toy_assertion (id : bytes) : SAMLAssertion :=
  mkAssertion (to_string id) (Some "a@acme.example") "https://idp.acme.example" 0 (Some (hour, ["app"])) [].
Definition toy_idp (table : list (string * oidcClaims)) : IdpLibs := {|
  ParseWithClaims _ keys _ tok :=
    match keys "k", findi (λ e, String.eqb e.1 tok) table with Some _, Some (_, e) => Some e.2 | _, _ => None end;
  ParseXMLResponse _ _ xml := Some (toy_assertion xml);
  pem_decode _ := None;
  ParseCertificate der := Some der
|}.
Definition ex_claims (email nonce status : string) : oidcClaims :=
  mkOIDCClaims email "Ada" "" "" "" "" "" "" "" "" status "" None nonce "https://idp.acme.example" "sub-1" ["app"] None None.
Definition ex_config (provider mode : string) : IDPConfig :=
  mkIDPConfig "idp_1" "t1" provider "https://idp.acme.example" "app" "https://idp.acme.example/login" "" "" ""
    "https://app.example/acs" "QUJD" [] "active" mode "" 0 0.
(** A key set with one usable key: the number 1 and the exponent 65537. *)
Definition ex_read (url : string) : option (list jwkKey) := Some [mkJWK "k" "rsa" "AQ" "AQAB"; mkJWK "" "RSA" "AQ" "AQAB"].

Example key_of_65537 : rsaPublicKeyFromJWK "AQ" "AQAB" = Some (mkPublicKey 1 65537).
Proof. vm_compute. reflexivity. Qed.

Lemma oidc_accepts_witness :
  let '(c, r) := @VerifyOIDCIDToken sorted_range (toy_idp [("tok", ex_claims "A@acme.example" "n" "")]) 5 ex_read
                   (ex_config "oidc" "jit") " tok" "a@acme.example" ∅ in
  r = Ok (oidc_identity (ex_claims "A@acme.example" "n" "")) ∧ cache_ok 5 c.
Proof.
  split; [vm_compute; reflexivity|].
  refine (proj1 (@oidc_accepts sorted_range (toy_idp [("tok", ex_claims "A@acme.example" "n" "")]) 5 ex_read (ex_config "oidc" "jit")
    " tok" "a@acme.example" ∅ _ _ _ eq_refl)).
  split; [vm_compute; lia|]. intros k x Hx. discriminate Hx.
Defined.

Definition ex_idp : IdpLibs := toy_idp [].
Definition ex_verified : Directory * result idp_err SAMLIdentity :=
  @VerifySAMLResponse ex_idp no_literals 5 (ex_config "saml" "jit") "QUJD" "" ex_dir.
Definition ex_saml_id : SAMLIdentity :=
  match ex_verified.2 with Ok i => i | Err _ => mkSAMLIdentity "" "" "" [] 0 0 ∅ end.
Lemma saml_once_witness :
  is_ok ex_verified.2 = true
  ∧ is_ok (answer (@VerifySAMLResponse ex_idp no_literals (50 * minute) (ex_config "saml" "manual") " QUJD" "a@acme.example")
             (dir (@run_calls sorted_range nat ex_applier ex_history (ex_joint <| dir := ex_verified.1 |>)))) = false.
Proof.
  split; [vm_compute; reflexivity|].
  refine (@saml_once sorted_range ex_idp no_literals nat ex_applier 5 (ex_config "saml" "jit") "QUJD" "" ex_joint ex_verified.1 ex_saml_id
    (mkProvider "app" "https://app.example/acs" "https://idp.acme.example" "QUJD") (of_string "ABC") (toy_assertion (of_string "ABC"))
    ex_history (50 * minute) (ex_config "saml" "manual") " QUJD" "a@acme.example"
    (mkProvider "app" "https://app.example/acs" "https://idp.acme.example" "QUJD") (of_string "ABC") (toy_assertion (of_string "ABC"))
    _ _ _ _ _ _ _ _ _ _ _).
  - vm_compute. reflexivity.
  - vm_compute. reflexivity.
  - vm_compute. reflexivity.
  - vm_compute. reflexivity.
  - vm_compute. reflexivity.
  - reflexivity.
  - discriminate.
  - apply (bool_decide_unpack _). vm_compute. exact Logic.I.
  - vm_compute. reflexivity.
  - vm_compute. reflexivity.
  - vm_compute. reflexivity.
Defined.
