(* ===== verification/EnterpriseSignIn.v ===== *)
(** * Sign-in through an identity provider (http: routes_enterprise_auth.go,
      routes_enterprise_exchange.go, routes_enterprise_callback.go and the first half of
      router_handlers_enterprise_auth.go)

    The three services a sign-in goes through are one state: the accounts and sessions of
    [Auth], the directory of [Directory] and [Jit], and the keys of [IdpTokens].  A
    request is its decoded body or query.  An answer is what is written on success, or a
    status and an error; the entries for the audit trail are collected in order. *)

From S2P Require Import Cas Prelude GoStrings GoTime Bytes Encoding Vault AuthStore Auth AuthToy GoText Url Directory Jit EmployeeSync DirectoryCalls IdpTokens.
#[local] Open Scope string_scope.
#[local] Open Scope list_scope.
#[local] Open Scope Z_scope.

Inductive signin_err :=
| FromAuth (e : AuthErr) | FromEnterprise (e : enterprise_err) | FromIdp (e : idp_err)
| Told (text : string)
| BadURL (raw : string).          (* an error of [url.Parse] *)
(** [writeError(w, status, err)] *)
Record Refusal := refused { refStatus : Z; refError : signin_err }.

Record AuditEntry := audited { auTenantID : string; auAction : string; auTarget : string; auSource : string }.

(** What the token endpoint of a provider answers: the body, and the fields that can be read of it. *)
Record TokenReply := mkTokenReply { trStatus : Z; trBody : string; trIDToken : string; trError : string; trDescription : string }.
Inductive PostReply := NoAnswer (cause : string) | Unreadable (cause : string) | Answered (r : TokenReply).
(** What is posted to it. *)
Record TokenRequest := mkTokenRequest { tqURL : string; tqForm : list (string * string) }.

(** ** Profiles *)

Definition enterpriseJITProfileFromOIDCIdentity (identity : OIDCIdentity) : JITProvisionProfile :=
  mkProfile (TrimSpace (oiName identity)) (TrimSpace (oiDepartment identity)) (TrimSpace (oiJobTitle identity))
    (TrimSpace (oiLocation identity)) (TrimSpace (oiPhone identity)) (TrimSpace (oiManagerExternalID identity))
    (NormalizeEmploymentStatus (oiEmploymentStatus identity)).

(** The first value that is not blank, under the first key that has one. *)
Definition samlAttributeFirst (attributes : gmap string (list string)) (keys : list string) : string :=
  let all := concat ((λ k, let key := ToLower (TrimSpace k) in
                           if is_empty key then [] else TrimSpace <$> default [] (attributes !! key)) <$> keys) in
  match findi (λ v, negb (is_empty v)) all with Some (_, v) => v | None => "" end.
Definition enterpriseJITEmploymentStatusFromSAML (identity : SAMLIdentity) : string :=
  let status := samlAttributeFirst (Attributes identity) ["employment_status"; "employmentstatus"; "status"] in
  if negb (is_empty status) then NormalizeEmploymentStatus status
  else let activeFlag := samlAttributeFirst (Attributes identity) ["active"] in
       if is_empty activeFlag then "" else NormalizeEmploymentStatus activeFlag.
Definition enterpriseJITProfileFromSAMLIdentity (identity : SAMLIdentity) : JITProvisionProfile :=
  let claim name := "http://schemas.xmlsoap.org/ws/2005/05/identity/claims/" +:+ name in
  let first := samlAttributeFirst (Attributes identity) in
  mkProfile (first ["name"; "displayname"; "display_name"; "full_name"; "fullname"; "cn"; claim "name"])
    (first ["department"; "dept"; claim "department"]) (first ["job_title"; "title"; claim "title"])
    (first ["location"; "city"; "office"; "physicaldeliveryofficename"])
    (first ["phone_number"; "phone"; "mobile"; "telephone"; claim "mobilephone"])
    (first ["manager_external_id"; "manager_id"; "manager"]) (enterpriseJITEmploymentStatusFromSAML identity).

(** ** The user an employee signs in as *)

Section user.
Context {cipher : AEAD}.
Definition enterpriseJITUserID (tenantID email externalID identitySubject : string) : string :=
  let nextEmail := ToLower (TrimSpace email) in
  let nextExternalID := TrimSpace externalID in
  let nextExternalID := if is_empty nextExternalID then TrimSpace identitySubject else nextExternalID in
  let nextExternalID := if is_empty nextExternalID then nextEmail else nextExternalID in
  let seed := TrimSpace tenantID +:+ "|" +:+ nextEmail +:+ "|" +:+ nextExternalID in
  "usr_ent_jit_" +:+ hex_encode (take 8 (sha256 (of_string seed))).
Definition enterpriseJITTrustedUser (tenantID : string) (employee : EnterpriseEmployee) (fallbackEmail identitySubject : string) : User :=
  let nextTenantID := TrimSpace tenantID in
  let nextEmail := if is_empty (TrimSpace (emEmail employee)) then TrimSpace fallbackEmail else TrimSpace (emEmail employee) in
  let nextRole := ToLower (TrimSpace (AccessRole employee)) in
  let nextRole := if is_empty nextRole then "resident" else nextRole in
  let buildingID := TrimSpace (emBuildingID employee) in
  mkUser (enterpriseJITUserID nextTenantID nextEmail (TrimSpace (ExternalID employee)) identitySubject) "" nextEmail nextRole
    nextTenantID (if is_empty buildingID then [] else [buildingID]) "" false.
End user.

(** ** Where the user is sent *)

Section urls.
Context `{!IPLiteral}.
(** A URL with a scheme and a host; it is passed on as text. *)
Definition usable_url (baseURL wrong : string) : result signin_err string :=
  match Parse baseURL with
  | None => Err (BadURL baseURL)
  | Some u => if is_empty (urlScheme u) || is_empty (urlHost u) then Err (Told (wrong +:+ baseURL)) else Ok baseURL
  end.
Definition url_or_issuer (config : IDPConfig) (url path : string) : string :=
  if is_empty (TrimSpace url) then TrimSuffix (TrimSpace (IssuerURL config)) "/" +:+ path else TrimSpace url.

(** The URL and the parameters that are set on top of its own. *)
Definition buildEnterpriseOIDCAuthorizeURL (config : IDPConfig) (stateToken redirectURI nonce : string) :
    result signin_err (string * list (string * string)) :=
  url ← usable_url (url_or_issuer config (AuthURL config) "/oauth2/auth") "invalid oidc auth_url: ";
  let scopes := match idpScopes config with [] => ["openid"; "profile"; "email"] | l => l end in
  Ok (url, [("client_id", ClientID config); ("response_type", "code"); ("redirect_uri", redirectURI);
            ("scope", Join scopes " "); ("state", stateToken)]
           ++ (if is_empty (TrimSpace nonce) then [] else [("nonce", nonce)])).
Definition buildEnterpriseSAMLSSOURL (config : IDPConfig) (stateToken redirectURI : string) :
    result signin_err (string * list (string * string)) :=
  url ← usable_url (if is_empty (TrimSpace (AuthURL config)) then TrimSpace (IssuerURL config) else TrimSpace (AuthURL config))
          "invalid saml sso url: ";
  Ok (url, [("RelayState", stateToken); ("redirect_uri", redirectURI)]).

Definition enterpriseOIDCTokenURL (config : IDPConfig) : result signin_err string :=
  let baseURL := url_or_issuer config (TokenURL config) "/oauth2/token" in
  match usable_url baseURL "" with Ok u => Ok u | Err _ => Err (Told ("invalid oidc token_url: " +:+ baseURL)) end.
End urls.

(** The code is exchanged for an ID token; [post] is the provider. *)
Section code.
Context `{!IPLiteral} (post : TokenRequest → PostReply) (StatusText : Z → string).
Definition token_message (r : TokenReply) : string :=
  let message := TrimSpace (trError r) in
  let message := if is_empty message then TrimSpace (trBody r) else message in
  let message := if is_empty message then StatusText (trStatus r) else message in
  let detail := TrimSpace (trDescription r) in
  if negb (is_empty detail) && negb (Contains message detail) then message +:+ ": " +:+ detail else message.
Definition exchangeEnterpriseOIDCCodeForIDTokenWithClient (config : IDPConfig) (code redirectURI : string) : result Refusal string :=
  let nextCode := TrimSpace code in
  let nextClientID := TrimSpace (ClientID config) in
  let nextRedirectURI := TrimSpace redirectURI in
  if is_empty nextCode then Err (refused 400 (Told "oidc authorization code is required"))
  else if is_empty nextClientID then Err (refused 400 (Told "oidc client_id is required"))
  else match enterpriseOIDCTokenURL config with
       | Err e => Err (refused 400 e)
       | Ok tokenURL =>
           let form := [("grant_type", "authorization_code"); ("code", nextCode); ("client_id", nextClientID)]
                       ++ (if is_empty nextRedirectURI then [] else [("redirect_uri", nextRedirectURI)]) in
           match post (mkTokenRequest tokenURL form) with
           | NoAnswer cause => Err (refused 502 (Told ("oidc token exchange request failed: " +:+ cause)))
           | Unreadable cause => Err (refused 502 (Told ("failed to read oidc token response: " +:+ cause)))
           | Answered r =>
               if (trStatus r <? 200) || (300 <=? trStatus r)
               then Err (refused 401 (Told ("oidc code exchange failed: " +:+ token_message r)))
               else if is_empty (TrimSpace (trIDToken r)) then Err (refused 502 (Told "oidc token response missing id_token"))
               else Ok (TrimSpace (trIDToken r))
           end
       end.
End code.

(** ** What goes wrong, and the status it is told with *)

Definition resolve_status (not_mapped : Z) (e : enterprise_err) : Z :=
  match e with ErrEmailRequired | ErrInvalidDomain => 400 | ErrDomainNotMapped => not_mapped | _ => 500 end.
Definition consume_status (e : enterprise_err) : Z :=
  match e with
  | ErrAuthStateTokenRequired | ErrInvalidIDPProvider => 400
  | ErrAuthStateTokenNotFound | ErrAuthStateProviderMismatch => 401
  | _ => 500
  end.
Definition start_status (e : enterprise_err) : Z :=
  match e with ErrTenantIDRequired | ErrInvalidIDPProvider | ErrRedirectURIRequired | ErrInvalidRedirectURI => 400 | _ => 500 end.
Definition oidc_status (e : idp_err) : Z :=
  match e with
  | ErrIDPTokenRequired | FromDirectory ErrInvalidIDPProvider | ErrIDPJWKSURLRequired => 400
  | ErrInvalidIDPToken | ErrOIDCJWKSFetchFailed | ErrOIDCTokenIssuerMismatch | ErrOIDCTokenAudienceMismatch
  | ErrOIDCTokenSubjectRequired | ErrOIDCTokenEmailRequired | ErrOIDCTokenEmailMismatch => 401
  | _ => 500
  end.
Definition saml_status (e : idp_err) : Z :=
  match e with
  | ErrSAMLResponseRequired | FromDirectory ErrInvalidIDPProvider | FromDirectory ErrSAMLACSURLRequired
  | FromDirectory ErrInvalidSAMLACSURL | FromDirectory ErrSAMLX509CertRequired | ErrInvalidSAMLX509Cert => 400
  | ErrInvalidSAMLResponse | ErrSAMLAssertionIssuerMismatch | ErrSAMLAssertionAudienceMismatch
  | ErrSAMLAssertionSubjectRequired | ErrSAMLAssertionEmailRequired | ErrSAMLAssertionEmailMismatch | ErrSAMLAssertionReplayed => 401
  | _ => 500
  end.
Definition enterpriseTrustedSessionErrorStatusCode (e : signin_err) : Z :=
  match e with
  | FromEnterprise ErrEmployeeInactive | FromEnterprise ErrJITProvisionApprovalRequired => 403
  | FromEnterprise ErrEmployeeExternalIDConflict => 409
  | FromEnterprise ErrEmailRequired | FromEnterprise ErrInvalidDomain => 400
  | FromAuth ErrInvalidCredentials => 401
  | _ => 500
  end.

(** A result whose errors are told with a status. *)
Definition told {E A} (status : E → Z) (wrap : E → signin_err) (r : result E A) : result Refusal A :=
  match r with Ok a => Ok a | Err e => Err (refused (status e) (wrap e)) end.

(** ** The services behind a sign-in *)

Section sign_in.
Context {P V : Type} {pers : Persistence P} {vol : SessionStore V}.
Context {crypto : AuthCrypto} {cipher : AEAD} {order : MapRange} {libs : IdpLibs} {ips : IPLiteral}.
(** [cfg.EnterpriseJITProvisionApprovalRequired], what key URLs and token endpoints answer, the texts of net/http. *)
Context (approvalRequired : bool) (read : string → option (list jwkKey)) (post : TokenRequest → PostReply) (StatusText : Z → string).

Record World := mkWorld { auth : Service P V; directory : Directory; keyCache : jwksCache; trail : list AuditEntry }.
#[export] Instance eta_World : Eta World := λ w, mkWorld (auth w) (directory w) (keyCache w) (trail w).

Definition on_auth {A} (f : op (Service P V) AuthErr A) : op World signin_err A := λ w,
  let '(a, r) := f (auth w) in (w <| auth := a |>, match r with Ok x => Ok x | Err e => Err (FromAuth e) end).
Definition on_directory {A} (f : op Directory enterprise_err A) : op World signin_err A := λ w,
  let '(d, r) := f (directory w) in (w <| directory := d |>, match r with Ok x => Ok x | Err e => Err (FromEnterprise e) end).

(** *** The session *)

(** Whether the address has an account: it is signed in once to find out. *)
Definition probe_account (now : Z) (email : string) : op World signin_err bool := λ w,
  let '(a, r) := LoginByTrustedIdentity now email None (auth w) in
  (w <| auth := a |>, match r with Ok _ => Ok true | Err ErrInvalidCredentials => Ok false | Err e => Err (FromAuth e) end).

(** The approval an unknown employee needs, where approvals are asked for. *)
Definition check_approval (tenantID email externalID : string) : op World signin_err unit :=
  if approvalRequired then
    matched ← on_directory (HasActiveJITEmployeeIdentity tenantID email externalID);
    if matched : bool then mret tt
    else
      approved ← on_directory (HasApprovedJITProvisionApproval tenantID email externalID);
      fail_if (negb approved) (FromEnterprise ErrJITProvisionApprovalRequired)
  else mret tt.

(** The tokens, whether something was provisioned, and the external id. *)
Definition issueEnterpriseTrustedSession (now : Z) (tenantID syncMode loginEmail identitySubject : string)
    (jitProfile : JITProvisionProfile) : op World signin_err (LoginResponse * bool * string) :=
  let nextTenantID := TrimSpace tenantID in
  let nextEmail := TrimSpace loginEmail in
  let nextIdentitySubject := TrimSpace identitySubject in
  if negb (String.eqb (TrimSpace syncMode) "jit") then
    response ← on_auth (LoginByTrustedIdentity now nextEmail None);
    mret (response, false, nextIdentitySubject)
  else
    fail_if (EmploymentStatusBlocksSession (pfEmploymentStatus jitProfile)) (FromEnterprise ErrEmployeeInactive);;
    check_approval nextTenantID nextEmail nextIdentitySubject;;
    '(employee, employeeCreated) ←
      on_directory (ResolveOrProvisionJITEmployeeWithProfile now nextTenantID nextEmail nextIdentitySubject jitProfile);
    let nextIdentitySubject := if is_empty nextIdentitySubject then TrimSpace (ExternalID employee) else nextIdentitySubject in
    userExisted ← probe_account now nextEmail;
    response ← on_auth (LoginByTrustedUser now (enterpriseJITTrustedUser nextTenantID employee nextEmail nextIdentitySubject));
    mret (response, employeeCreated || negb userExisted, nextIdentitySubject).

(** *** After a refusal *)

Abbreviation handler := (op World Refusal).
Definition appendAuditLog (tenantID action target source : string) : handler unit :=
  if is_empty (TrimSpace tenantID) then mret tt
  else modify (λ w, w <| trail ::= λ l, l ++ [audited (TrimSpace tenantID) (TrimSpace action) (TrimSpace target) (TrimSpace source)] |>).
(** The error of a service is not looked at. *)
Definition try_auth {A} (otherwise : A) (f : op (Service P V) AuthErr A) : handler A := λ w,
  let '(a, r) := f (auth w) in (w <| auth := a |>, Ok (match r with Ok x => x | Err _ => otherwise end)).
Definition try_directory {A} (f : op Directory enterprise_err A) : handler (option A) := λ w,
  let '(d, r) := f (directory w) in (w <| directory := d |>, Ok (match r with Ok x => Some x | Err _ => None end)).

Definition bool_text (b : bool) : string := if b then "true" else "false".
Definition identity_text (provider email externalID employmentStatus : string) : string :=
  "provider=" +:+ TrimSpace provider +:+ ",email=" +:+ ToLower (TrimSpace email) +:+ ",external_id=" +:+ TrimSpace externalID
  +:+ ",employment_status=" +:+ NormalizeEmploymentStatus employmentStatus.
Definition is_inactive (e : signin_err) : bool := match e with FromEnterprise ErrEmployeeInactive => true | _ => false end.
Definition wants_approval (e : signin_err) : bool := match e with FromEnterprise ErrJITProvisionApprovalRequired => true | _ => false end.

Definition applyEnterpriseJITDeprovisionOnInactive (now : Z) (tenantID provider email externalID employmentStatus : string)
    (e : signin_err) : handler unit :=
  if negb (is_inactive e) || is_empty (TrimSpace tenantID) then mret tt
  else
    revoked ← try_auth 0 (RevokeRefreshTokensByUserEmail now email);
    downgraded ← try_auth None (DowngradeTrustedUserToLeastPrivilegeByEmail now email (TrimSpace tenantID));
    let role (f : User * User → User) := match downgraded with Some p => TrimSpace (uRole (f p)) | None => "" end in
    let count (f : User * User → User) := match downgraded with Some p => Z.of_nat (length (uBuildingIDs (f p))) | None => 0 end in
    appendAuditLog (TrimSpace tenantID) "enterprise_jit_deprovision_applied"
      (TrimSpace (identity_text provider email externalID employmentStatus +:+ ",revoked_refresh=" +:+ Itoa revoked
         +:+ ",downgraded_local=" +:+ bool_text (match downgraded with Some _ => true | None => false end)
         +:+ ",old_role=" +:+ role fst +:+ ",new_role=" +:+ role snd
         +:+ ",old_building_scope=" +:+ Itoa (count fst) +:+ ",new_building_scope=" +:+ Itoa (count snd)))
      "enterprise_auth".
Definition applyEnterpriseJITApprovalRequiredAudit (now : Z) (tenantID provider email externalID employmentStatus : string)
    (e : signin_err) : handler unit :=
  if negb (wants_approval e) || is_empty (TrimSpace tenantID) then mret tt
  else
    approval ← try_directory (UpsertJITProvisionApprovalRequest now (TrimSpace tenantID) email externalID provider employmentStatus);
    appendAuditLog (TrimSpace tenantID) "enterprise_jit_approval_required"
      (TrimSpace (identity_text provider email externalID employmentStatus +:+ ",approval_id="
         +:+ match approval with Some a => TrimSpace (apID a) | None => "" end +:+ ",reason=jit_auto_provision_requires_approval"))
      "enterprise_auth".

(** *** The endpoints *)

(** Who the provider says it is: the address, the subject, the profile and the whole. *)
Definition Identified : Type := string * string * JITProvisionProfile * (OIDCIdentity + SAMLIdentity).
Definition identify_oidc (now : Z) (config : IDPConfig) (token expectedEmail : string) : handler Identified := λ w,
  let '(c, r) := VerifyOIDCIDToken now read config token expectedEmail (keyCache w) in
  (w <| keyCache := c |>,
   match told oidc_status FromIdp r with
   | Ok i => Ok (oiEmail i, oiSubject i, enterpriseJITProfileFromOIDCIdentity i, inl i)
   | Err e => Err e
   end).
Definition identify_saml (now : Z) (config : IDPConfig) (response expectedEmail : string) : handler Identified := λ w,
  let '(d, r) := VerifySAMLResponse now config response expectedEmail (directory w) in
  (w <| directory := d |>,
   match told saml_status FromIdp r with
   | Ok i => Ok (siEmail i, siSubject i, enterpriseJITProfileFromSAMLIdentity i, inr i)
   | Err e => Err e
   end).

Record SignedIn := mkSignedIn {
  sgTenantID : string; sgProvider : string; sgSyncMode : string; sgJITApplied : bool; sgExternalID : string;
  sgIdentity : OIDCIdentity + SAMLIdentity; sgRedirectURI : option string; sgToken : LoginResponse
}.
(** The session, or the consequences of a refusal. *)
Definition finish_sign_in (now : Z) (tenantID : string) (config : IDPConfig) (loginEmail subject : string)
    (jitProfile : JITProvisionProfile) (identity : OIDCIdentity + SAMLIdentity) (redirect : option string) : handler SignedIn := λ w,
  match issueEnterpriseTrustedSession now tenantID (SyncMode config) loginEmail subject jitProfile w with
  | (w', Ok (response, jitApplied, externalID)) =>
      (w', Ok (mkSignedIn tenantID (idpProvider config) (SyncMode config) jitApplied externalID identity redirect response))
  | (w', Err e) =>
      (applyEnterpriseJITDeprovisionOnInactive now tenantID (idpProvider config) loginEmail subject
         (pfEmploymentStatus jitProfile) e;;
       applyEnterpriseJITApprovalRequiredAudit now tenantID (idpProvider config) loginEmail subject
         (pfEmploymentStatus jitProfile) e;;
       throw (refused (enterpriseTrustedSessionErrorStatusCode e) e)) w'
  end.

Definition ask {A} (f : Directory → result Refusal A) : handler A := λ w, (w, f (directory w)).
(** [GetIDPConfig] of an endpoint. *)
Definition idp_config (tenantID : string) : handler IDPConfig :=
  ask (λ d, told (λ e, match e with ErrIDPConfigNotFound => 401 | _ => 500 end) FromEnterprise (GetIDPConfig tenantID d)).
Definition resolve (not_mapped : Z) (email : string) : handler TenantResolution :=
  ask (λ d, told (resolve_status not_mapped) FromEnterprise (ResolveTenantByEmail email d)).

Definition resolveEnterpriseTenantByEmail (email : string) : handler TenantResolution := resolve 404 email.

Record exchange_request := mkExchange { xqEmail : string; xqProvider : string; xqTenantID : string; xqIDPToken : string; xqExternalID : string }.
Definition enterpriseAuthExchange (now : Z) (request : exchange_request) : handler SignedIn :=
  fail_if (is_empty (TrimSpace (xqIDPToken request))) (refused 400 (Told "idp_token is required"));;
  resolution ← resolve 401 (xqEmail request);
  let requestedTenantID := TrimSpace (xqTenantID request) in
  fail_if (negb (is_empty requestedTenantID) && negb (String.eqb requestedTenantID (trTenantID resolution)))
    (refused 403 (Told "tenant scope forbidden"));;
  config ← idp_config (trTenantID resolution);
  fail_if (negb (String.eqb (idpStatus config) "active")) (refused 401 (Told "enterprise idp config is inactive"));;
  let requestProvider := ToLower (TrimSpace (xqProvider request)) in
  fail_if (negb (is_empty requestProvider) && negb (String.eqb requestProvider (idpProvider config)))
    (refused 401 (Told "idp provider mismatch"));;
  '(email, subject, jitProfile, identity) ←
    if String.eqb (idpProvider config) "oidc" then identify_oidc now config (xqIDPToken request) (xqEmail request)
    else if String.eqb (idpProvider config) "saml" then identify_saml now config (xqIDPToken request) (xqEmail request)
    else throw (refused 400 (FromEnterprise ErrInvalidIDPProvider));
  let loginEmail := if is_empty email then TrimSpace (xqEmail request) else email in
  let identitySubject := if is_empty (TrimSpace (xqExternalID request)) then subject else TrimSpace (xqExternalID request) in
  finish_sign_in now (trTenantID resolution) config loginEmail identitySubject jitProfile identity None.

(** The state token of a callback, and the configuration of its tenant. *)
Definition callback_state (now : Z) (token provider : string) : handler (AuthStateToken * IDPConfig) :=
  let stateToken := TrimSpace token in
  fail_if (is_empty stateToken) (refused 400 (FromEnterprise ErrAuthStateTokenRequired));;
  authState ← (λ w, let '(d, r) := ConsumeAuthStateToken now stateToken provider (directory w) in
                    (w <| directory := d |>, told consume_status FromEnterprise r));
  config ← idp_config (atTenantID authState);
  fail_if (negb (String.eqb (idpStatus config) "active") || negb (String.eqb (idpProvider config) provider))
    (refused 401 (Told "enterprise idp config is inactive or provider mismatch"));;
  mret (authState, config).

Record oidc_callback := mkOIDCCallback { cqState : string; cqIDPToken : string; cqIDToken : string; cqCode : string; cqEmail : string }.
Definition enterpriseOIDCCallback (now : Z) (query : oidc_callback) : handler SignedIn :=
  '(authState, config) ← callback_state now (cqState query) "oidc";
  let idpToken := if is_empty (TrimSpace (cqIDPToken query)) then TrimSpace (cqIDToken query) else TrimSpace (cqIDPToken query) in
  idpToken ←
    if negb (is_empty idpToken) then mret idpToken
    else if is_empty (TrimSpace (cqCode query)) then throw (refused 400 (FromIdp ErrIDPTokenRequired))
    else lift (exchangeEnterpriseOIDCCodeForIDTokenWithClient post StatusText config (TrimSpace (cqCode query)) (RedirectURI authState));
  let expectedEmail := if is_empty (atEmail authState) then TrimSpace (cqEmail query) else atEmail authState in
  '(email, subject, jitProfile, identity) ← identify_oidc now config idpToken expectedEmail;
  let nonce := match identity with inl i => oiNonce i | inr _ => "" end in
  fail_if (negb (is_empty (atNonce authState)) && negb (String.eqb (TrimSpace nonce) (atNonce authState)))
    (refused 401 (Told "token nonce mismatch"));;
  let loginEmail := if is_empty email then TrimSpace expectedEmail else email in
  finish_sign_in now (atTenantID authState) config loginEmail (TrimSpace subject) jitProfile identity (Some (RedirectURI authState)).

Record saml_callback := mkSAMLCallback { bqState : string; bqIDPToken : string; bqSAMLResponse : string; bqEmail : string; bqExternalID : string }.
Definition enterpriseSAMLCallback (now : Z) (request : saml_callback) : handler SignedIn :=
  fail_if (is_empty (TrimSpace (bqState request))) (refused 400 (FromEnterprise ErrAuthStateTokenRequired));;
  let idpToken := if is_empty (TrimSpace (bqIDPToken request)) then TrimSpace (bqSAMLResponse request) else TrimSpace (bqIDPToken request) in
  fail_if (is_empty idpToken) (refused 400 (FromIdp ErrSAMLResponseRequired));;
  '(authState, config) ← callback_state now (bqState request) "saml";
  let expectedEmail := if is_empty (atEmail authState) then TrimSpace (bqEmail request) else atEmail authState in
  '(email, subject, jitProfile, identity) ← identify_saml now config idpToken expectedEmail;
  let loginEmail := if is_empty email then TrimSpace expectedEmail else email in
  let identitySubject := if is_empty (TrimSpace (bqExternalID request)) then TrimSpace subject else TrimSpace (bqExternalID request) in
  finish_sign_in now (atTenantID authState) config loginEmail identitySubject jitProfile identity (Some (RedirectURI authState)).

Record start_request := mkStart { tqEmail : string; tqTenantID : string; tqProvider : string; tqRedirectURI : string }.
(** The tenant, the provider, the sync mode, the state token, and where to go with which parameters. *)
Record Started := mkStarted { stTenantID : string; stProvider : string; stSyncMode : string; stToken : AuthStateToken; stURL : string * list (string * string) }.
Definition enterpriseAuthStart (now : Z) (request : start_request) : handler Started :=
  let requestedTenantID := TrimSpace (tqTenantID request) in
  let requestedEmail := TrimSpace (tqEmail request) in
  fail_if (is_empty requestedTenantID && is_empty requestedEmail) (refused 400 (Told "email or tenant_id is required"));;
  resolvedTenantID ← if is_empty requestedEmail then mret requestedTenantID
                     else (r ← resolve 401 requestedEmail; mret (trTenantID r));
  fail_if (negb (is_empty requestedTenantID) && negb (is_empty resolvedTenantID) && negb (String.eqb requestedTenantID resolvedTenantID))
    (refused 403 (Told "tenant scope forbidden"));;
  fail_if (is_empty resolvedTenantID) (refused 400 (FromEnterprise ErrTenantIDRequired));;
  config ← idp_config resolvedTenantID;
  fail_if (negb (String.eqb (idpStatus config) "active")) (refused 401 (Told "enterprise idp config is inactive"));;
  let provider := ToLower (TrimSpace (tqProvider request)) in
  let provider := if is_empty provider then idpProvider config else provider in
  fail_if (negb (String.eqb provider (idpProvider config))) (refused 401 (Told "idp provider mismatch"));;
  token ← (λ w, let '(d, r) := StartAuthStateToken now resolvedTenantID provider requestedEmail (tqRedirectURI request) (5 * minute) (directory w) in
                (w <| directory := d |>, told start_status FromEnterprise r));
  url ← lift (if String.eqb provider "oidc"
              then told (λ _, 500) id (buildEnterpriseOIDCAuthorizeURL config (atToken token) (RedirectURI token) (atNonce token))
              else if String.eqb provider "saml"
              then told (λ _, 500) id (buildEnterpriseSAMLSSOURL config (atToken token) (RedirectURI token))
              else Err (refused 400 (FromEnterprise ErrInvalidIDPProvider)));
  mret (mkStarted resolvedTenantID provider (SyncMode config) token url).

Record logout_request := mkLogout { lqTenantID : string; lqAccessToken : string; lqRefreshToken : string }.
(** Whether each token was revoked, and the error if it was not; [None] where none was given. *)
Record LoggedOut := mkLoggedOut { loAccess : option (option AuthErr); loRefresh : option (option AuthErr) }.
Definition enterpriseAuthLogout (now : Z) (request : logout_request) : handler (Z * LoggedOut) :=
  let tenantID := TrimSpace (lqTenantID request) in
  let accessToken := TrimSpace (lqAccessToken request) in
  let refreshToken := TrimSpace (lqRefreshToken request) in
  fail_if (is_empty accessToken && is_empty refreshToken) (refused 400 (Told "access_token or refresh_token is required"));;
  fail_if (negb (is_empty tenantID) && is_empty accessToken) (refused 400 (Told "tenant_id validation requires access_token"));;
  (if is_empty tenantID then mret tt
   else
     user ← (λ w, let '(a, r) := VerifyAccessToken now accessToken (auth w) in
                  (w <| auth := a |>, told (λ _, 401) (λ _, FromAuth ErrInvalidAccessToken) r));
     fail_if (negb (String.eqb (TrimSpace (uTenantID user)) tenantID)) (refused 403 (Told "tenant scope forbidden")));;
  let attempt (token : string) (f : op (Service P V) AuthErr unit) : handler (option (option AuthErr)) :=
    if is_empty token then mret None
    else λ w, let '(a, r) := f (auth w) in (w <| auth := a |>, Ok (Some (match r with Ok _ => None | Err e => Some e end))) in
  access ← attempt accessToken (Logout now accessToken);
  refresh ← attempt refreshToken (RevokeRefreshToken now refreshToken);
  let revoked (o : option (option AuthErr)) := match o with Some None => true | _ => false end in
  let failed (o : option (option AuthErr)) := match o with Some (Some _) => true | _ => false end in
  mret (if negb (revoked access) && negb (revoked refresh) && (failed access || failed refresh) then 401 else 200,
        mkLoggedOut access refresh).
End sign_in.

(** ** Facts *)

Section facts.
Context {P V : Type} {pers : Persistence P} {vol : SessionStore V}.
Context {crypto : AuthCrypto} {cipher : AEAD} {order : MapRange} {libs : IdpLibs} {ips : IPLiteral}.
Context (approvalRequired : bool) (read : string → option (list jwkKey)).
Implicit Types (w : @World P V).

Lemma issued_user now user meta (s s' : Service P V) resp :
  issueTokenPairWithMetadataLocked now user meta s = (s', Ok resp) → LoginUser resp = user.
Proof.
  unfold issueTokenPairWithMetadataLocked. rewrite !bind_gets. intros (s1 & [tok c] & _ & H)%bind_ok.
  apply bind_ok in H as (s2 & [tok' c'] & _ & H). apply bind_ok in H as (s3 & [] & _ & H). by injection H as <- <-.
Qed.
Lemma trusted_user now user (s s' : Service P V) resp :
  LoginByTrustedUser now user s = (s', Ok resp) →
  uEmail (LoginUser resp) = AuthStore.normalizeEmail (uEmail user) ∧ uTenantID (LoginUser resp) = TrimSpace (uTenantID user)
  ∧ uRole (LoginUser resp) = ToLower (TrimSpace (uRole user)) ∧ uBuildingIDs (LoginUser resp) = uniqueNormalizedIDs (uBuildingIDs user).
Proof.
  unfold LoginByTrustedUser. cbv zeta. rewrite fail_if_bind. destruct (_ || _)%bool; [done|].
  intros (s1 & r & _ & H)%bind_ok. apply bind_ok in H as (s2 & [] & _ & H). apply bind_ok in H as (s3 & [] & _ & H).
  apply issued_user in H. by rewrite H.
Qed.
Lemma on_auth_ok {A} (f : op (Service P V) AuthErr A) w w' a :
  on_auth f w = (w', Ok a) → ∃ s', f (auth w) = (s', Ok a) ∧ directory w' = directory w.
Proof. unfold on_auth. destruct (f (auth w)) as [s' [x|e]]; [|done]. intros [= <- <-]. eauto. Qed.
Lemma on_directory_ok {A} (f : op Directory enterprise_err A) w w' a :
  on_directory f w = (w', Ok a) → f (directory w) = (directory w', Ok a).
Proof. unfold on_directory. destruct (f (directory w)) as [d [x|e]]; [|done]. by intros [= <- <-]. Qed.

Lemma pure_directory {A} (f : op Directory enterprise_err A) w w' r :
  (∀ d, exec f d = d) → on_directory f w = (w', r) → directory w' = directory w.
Proof. intros Hf. unfold on_directory. specialize (Hf (directory w)). unfold exec in Hf. destruct (f (directory w)). simpl in Hf. subst. by intros [= <- _]. Qed.
Lemma active_identity_reads tn email ext d : exec (HasActiveJITEmployeeIdentity tn email ext) d = d.
Proof.
  unfold HasActiveJITEmployeeIdentity. rewrite exec_lift. destruct (signin_identity _ _) as [[[t e] dom]|]; [|done].
  rewrite exec_gets, exec_fail_if. destruct (negb _); [done|]. rewrite exec_gets. destruct (findJITEmployeeMatchIndexLocked _ _ _ _) as [[i x]|]; [|done].
  rewrite exec_lift. by destruct (may_sign_in _ x).
Qed.
Lemma approved_reads tn email ext d : exec (HasApprovedJITProvisionApproval tn email ext) d = d.
Proof. unfold HasApprovedJITProvisionApproval. rewrite !exec_fail_if. by repeat case_match. Qed.
Lemma check_approval_reads tn email ext w w' r :
  check_approval approvalRequired tn email ext w = (w', r) → directory w' = directory w.
Proof.
  unfold check_approval. destruct approvalRequired; [|by intros [= <- _]]. rewrite bind_op_eq.
  destruct (on_directory (HasActiveJITEmployeeIdentity _ _ _) w) as [w1 [b|e]] eqn:H1; apply pure_directory in H1; try apply active_identity_reads.
  - destruct b; [by intros [= <- _]|]. rewrite bind_op_eq.
    destruct (on_directory (HasApprovedJITProvisionApproval _ _ _) w1) as [w2 [b|e]] eqn:H2; apply pure_directory in H2; try apply approved_reads.
    + destruct b; intros [= <- _]; congruence.
    + intros [= <- _]. congruence.
  - by intros [= <- _].
Qed.
Lemma probe_reads now email w w' r : probe_account now email w = (w', r) → directory w' = directory w.
Proof. unfold probe_account. destruct (LoginByTrustedIdentity _ _ _ _) as [a x]. by intros [= <- _]. Qed.

(** The account an employee signs in as. *)
Lemma trusted_as now tn e email sub (s s' : Service P V) resp :
  LoginByTrustedUser now (enterpriseJITTrustedUser tn e (TrimSpace email) sub) s = (s', Ok resp) →
  emEmail e = Directory.normalizeEmail email →
  uEmail (LoginUser resp) = Directory.normalizeEmail email ∧ uTenantID (LoginUser resp) = TrimSpace tn
  ∧ uRole (LoginUser resp) = (if is_empty (ToLower (TrimSpace (AccessRole e))) then "resident" else ToLower (TrimSpace (AccessRole e))).
Proof.
  intros (U1 & U2 & U3 & _)%trusted_user Hem. rewrite U1, U2, U3. unfold enterpriseJITTrustedUser. simpl.
  split_and!; [|by rewrite !TrimSpace_idem|].
  - change (Directory.normalizeEmail (if is_empty (TrimSpace (emEmail e)) then TrimSpace (TrimSpace email) else TrimSpace (emEmail e))
      = Directory.normalizeEmail email).
    rewrite Hem. unfold Directory.normalizeEmail. rewrite TrimSpace_lower.
    destruct (is_empty (ToLower (TrimSpace email))); by rewrite ?TrimSpace_idem, ?TrimSpace_lower, ?ToLower_idem.
  - destruct (is_empty (ToLower (TrimSpace (AccessRole e)))); [done|]. by rewrite TrimSpace_lower, ToLower_idem.
Qed.
Lemma normalize_trimmed s : Directory.normalizeEmail (TrimSpace s) = Directory.normalizeEmail s.
Proof. unfold Directory.normalizeEmail. by rewrite TrimSpace_idem. Qed.

(** The steps of a session with provisioning. *)
Lemma jit_steps now tn mode email sub profile w w' resp applied ext :
  TrimSpace mode = "jit" →
  issueEnterpriseTrustedSession approvalRequired now tn mode email sub profile w = (w', Ok (resp, applied, ext)) →
  ∃ e isNew sub' s s', ResolveOrProvisionJITEmployeeWithProfile now (TrimSpace tn) (TrimSpace email) (TrimSpace sub) profile (directory w)
      = (directory w', Ok (e, isNew))
    ∧ LoginByTrustedUser now (enterpriseJITTrustedUser (TrimSpace tn) e (TrimSpace email) sub') s = (s', Ok resp).
Proof.
  intros Hmode. unfold issueEnterpriseTrustedSession. cbv zeta. rewrite Hmode. change (negb (String.eqb "jit" "jit")) with false. cbv iota.
  rewrite fail_if_bind. destruct (EmploymentStatusBlocksSession _); [done|]. intros (w1 & [] & H1 & H)%bind_ok. apply check_approval_reads in H1.
  apply bind_ok in H as (w2 & [e isNew] & H2 & H). apply on_directory_ok in H2. rewrite H1 in H2.
  apply bind_ok in H as (w3 & existed & H3 & H). apply probe_reads in H3. apply bind_ok in H as (w4 & r & H4 & H).
  injection H as <- <- <- <-. apply on_auth_ok in H4 as (s' & H4 & Hd). rewrite Hd, H3. eauto 10.
Qed.

(** C5: A session of a tenant with just-in-time provisioning is for an address under an active
    domain of the tenant.  The employee is active and of the tenant, and is in the
    directory afterwards; the account that is signed in has that address, is of the tenant
    and has the role of the employee. *)
Theorem jit_session now tenantID syncMode loginEmail identitySubject profile w w' resp applied ext :
  TrimSpace syncMode = "jit" →
  issueEnterpriseTrustedSession approvalRequired now tenantID syncMode loginEmail identitySubject profile w
    = (w', Ok (resp, applied, ext)) →
  (∃ domain d, emailDomain (Directory.normalizeEmail loginEmail) = Ok domain ∧ d ∈ domainMappings (core (directory w))
     ∧ dmTenantID d = TrimSpace tenantID ∧ dmStatus d = "active" ∧ domainMatches domain (dmDomain d) = true)
  ∧ ∃ e, e ∈ employees (core (directory w')) ∧ normalizeEmployeeStatus (emStatus e) = "active"
      ∧ TrimSpace (emTenantID e) = TrimSpace tenantID ∧ emEmail e = Directory.normalizeEmail loginEmail
      ∧ uEmail (LoginUser resp) = Directory.normalizeEmail loginEmail ∧ uTenantID (LoginUser resp) = TrimSpace tenantID
      ∧ uRole (LoginUser resp) = (if is_empty (ToLower (TrimSpace (AccessRole e))) then "resident" else ToLower (TrimSpace (AccessRole e))).
Proof.
  intros Hmode (e & isNew & sub' & s & s' & Hp & Hu)%jit_steps; [|done].
  apply provision_spec in Hp as (Hc & Hact & Htn & Hem & Hrows). rewrite normalize_trimmed in *. rewrite TrimSpace_idem in *.
  split; [exact Hc|]. exists e. split.
  { destruct (findJITEmployeeMatchIndexLocked _ _ _ _) as [[i x]|] eqn:Hf.
    - destruct Hrows as (_ & -> & _). apply match_Some in Hf as (Hi & _). apply list_elem_of_lookup_2 with i.
      apply list_lookup_insert_eq. by eapply lookup_lt_Some.
    - destruct Hrows as (_ & ->). by left. }
  do 3 (split; [done|]). apply trusted_as in Hu; [|done]. by rewrite TrimSpace_idem in Hu.
Qed.

(** *** The endpoints *)

(** Whose session it is: where the tenant provisions at sign-in, that of the account of the
    tenant with that address; elsewhere that of the account the auth service finds under
    the address, of whatever tenant that account is. *)
Definition session_for (tenantID mode email : string) (accounts : Service P V) (resp : LoginResponse) : Prop :=
  if String.eqb (TrimSpace mode) "jit"
  then uEmail (LoginUser resp) = Directory.normalizeEmail email ∧ uTenantID (LoginUser resp) = TrimSpace tenantID
  else ∃ accounts' record, findUserByEmail (Directory.normalizeEmail email) accounts = (accounts', Ok (Some record))
         ∧ LoginUser resp = rUser record.
Lemma trusted_identity_user now email meta (s s' : Service P V) resp :
  LoginByTrustedIdentity now email meta s = (s', Ok resp) →
  ∃ s1 record, findUserByEmail (AuthStore.normalizeEmail email) s = (s1, Ok (Some record)) ∧ LoginUser resp = rUser record.
Proof.
  unfold LoginByTrustedIdentity. cbv zeta. rewrite fail_if_bind. destruct (is_empty _); [done|].
  intros (s1 & record & Hf & H)%bind_ok. apply bind_ok in H as (s2 & [] & _ & H). apply issued_user in H.
  unfold the in Hf. apply bind_ok in Hf as (s3 & [r|] & Hf & Hr); [|done]. injection Hr as <- <-.
  unfold or_err in Hf. destruct (findUserByEmail _ s) as [s4 [x|e]]; [|done]. injection Hf as -> ->. by exists s3, r.
Qed.
Lemma issue_session now tn mode email sub profile w w' resp applied ext :
  issueEnterpriseTrustedSession approvalRequired now tn mode email sub profile w = (w', Ok (resp, applied, ext)) →
  session_for tn mode email (auth w) resp.
Proof.
  unfold session_for. destruct (String.eqb_spec (TrimSpace mode) "jit") as [Hm|Hm].
  - intros (e & isNew & sub' & s & s' & Hp & Hu)%jit_steps; [|done]. apply provision_spec in Hp as (_ & _ & _ & Hem & _).
    rewrite normalize_trimmed in Hem. apply trusted_as in Hu as (? & ? & _); [|done]. by rewrite TrimSpace_idem in *.
  - unfold issueEnterpriseTrustedSession. cbv zeta. apply String.eqb_neq in Hm. rewrite Hm. simpl negb. cbv iota.
    intros (w1 & r & H1 & H)%bind_ok. injection H as <- <- <- <-. apply on_auth_ok in H1 as (s' & H1 & _).
    apply trusted_identity_user in H1 as (s1 & record & H1 & Hu). exists s1, record. split; [|done].
    by rewrite <-(normalize_trimmed email).
Qed.
Lemma finish_ok now tn config email sub profile identity redirect w w' s :
  finish_sign_in approvalRequired now tn config email sub profile identity redirect w = (w', Ok s) →
  sgTenantID s = tn ∧ sgSyncMode s = SyncMode config ∧ sgIdentity s = identity ∧ sgRedirectURI s = redirect
  ∧ session_for tn (SyncMode config) email (auth w) (sgToken s).
Proof.
  unfold finish_sign_in. destruct (issueEnterpriseTrustedSession _ _ _ _ _ _ _ w) as [w1 [[[resp applied] ext]|e]] eqn:Hi.
  - intros [= <- <-]. apply issue_session in Hi. done.
  - intros (w2 & [] & _ & H)%bind_ok. by apply bind_ok in H as (w3 & [] & _ & H).
Qed.

Definition identity_email (i : OIDCIdentity + SAMLIdentity) : string := match i with inl i => oiEmail i | inr i => siEmail i end.
(** The provider of the configuration vouches for the identity, its address being the one that was asked for. *)
Definition vouched (now : Z) (config : IDPConfig) (email : string) (identity : OIDCIdentity + SAMLIdentity) : Prop :=
  match identity with
  | inl i => idpProvider config = "oidc" ∧ ∃ token c c', VerifyOIDCIDToken now read config token email c = (c', Ok i)
  | inr i => idpProvider config = "saml" ∧ ∃ response d d', VerifySAMLResponse now config response email d = (d', Ok i)
  end.
Lemma vouched_email now config email identity :
  vouched now config email identity →
  identity_email identity ≠ "" ∧ (Directory.normalizeEmail email ≠ "" → identity_email identity = Directory.normalizeEmail email).
Proof.
  destruct identity as [i|i]; simpl.
  - intros (_ & token & c & c' & H). apply oidc_checked in H as [claims H]. apply check_claims_ok in H. tauto.
  - intros (_ & response & d & d' & H). apply saml_accepted in H as (sp & xml & a & _ & _ & Hb & Hc & _).
    split; [by eapply built_email|by eapply check_identity_email].
Qed.
Lemma identify_oidc_ok now config token email w w' em sub profile identity :
  identify_oidc read now config token email w = (w', Ok (em, sub, profile, identity)) → idpProvider config = "oidc" →
  vouched now config email identity ∧ em = identity_email identity ∧ directory w' = directory w ∧ auth w' = auth w.
Proof.
  unfold identify_oidc. destruct (VerifyOIDCIDToken _ _ _ _ _ _) as [c [i|e]] eqn:Hv; [|done].
  intros [= <- <- <- <- <-] Hp. simpl. eauto 10.
Qed.
Lemma identify_saml_ok now config response email w w' em sub profile identity :
  identify_saml now config response email w = (w', Ok (em, sub, profile, identity)) → idpProvider config = "saml" →
  vouched now config email identity ∧ em = identity_email identity ∧ auth w' = auth w.
Proof.
  unfold identify_saml. destruct (VerifySAMLResponse _ _ _ _ _) as [d [i|e]] eqn:Hv; [|done].
  intros [= <- <- <- <- <-] Hp. simpl. eauto 10.
Qed.
Lemma ask_ok {A} (f : Directory → result Refusal A) w w' a : ask f w = (w', Ok a) → w' = w ∧ f (directory w) = Ok a.
Proof. unfold ask. by intros [= <- ->]. Qed.
Lemma told_ok {E A} status wrap (r : result E A) a : told status wrap r = Ok a → r = Ok a.
Proof. destruct r; [by intros [= ->]|done]. Qed.
Lemma resolved_email email d r : ResolveTenantByEmail email d = Ok r → Directory.normalizeEmail email ≠ "".
Proof. unfold ResolveTenantByEmail. destruct (is_empty _) eqn:He; [done|]. by apply is_empty_false in He. Qed.

(** C4: A sign-in by exchange is of the tenant the address belongs to, whose identity
    provider is active and vouches for that very address.  The session is that of the
    account with the address: where the tenant provisions at sign-in, an account of the
    tenant; elsewhere the one the auth service has under the address, whichever tenant that
    account is of. *)
Theorem exchange_vouched now request w w' s :
  enterpriseAuthExchange approvalRequired read now request w = (w', Ok s) →
  ∃ r config, ResolveTenantByEmail (xqEmail request) (directory w) = Ok r ∧ sgTenantID s = trTenantID r
    ∧ GetIDPConfig (sgTenantID s) (directory w) = Ok config ∧ idpStatus config = "active" ∧ sgSyncMode s = SyncMode config
    ∧ vouched now config (xqEmail request) (sgIdentity s) ∧ identity_email (sgIdentity s) = Directory.normalizeEmail (xqEmail request)
    ∧ session_for (sgTenantID s) (sgSyncMode s) (Directory.normalizeEmail (xqEmail request)) (auth w) (sgToken s).
Proof.
  unfold enterpriseAuthExchange. cbv zeta. rewrite fail_if_bind. destruct (is_empty _); [done|].
  intros (w1 & r & Hr & H)%bind_ok. apply ask_ok in Hr as [-> Hr%told_ok]. rewrite fail_if_bind in H. destruct (_ && _); [done|].
  apply bind_ok in H as (w2 & config & Hc & H). apply ask_ok in Hc as [-> Hc%told_ok]. rewrite !fail_if_bind in H.
  destruct (negb _) eqn:Hact; [done|]. boolp. destruct (_ && _); [done|].
  apply bind_ok in H as (w3 & [[[em sub] profile] identity] & Hi & H). pose proof (resolved_email _ _ _ Hr) as Hne.
  assert (Hv : vouched now config (xqEmail request) identity ∧ em = identity_email identity ∧ auth w3 = auth w).
  { destruct (String.eqb_spec (idpProvider config) "oidc"); [apply identify_oidc_ok in Hi as (? & ? & _ & ?); done|].
    destruct (String.eqb_spec (idpProvider config) "saml"); [by apply identify_saml_ok in Hi|done]. }
  destruct Hv as (Hv & -> & Ha). destruct (vouched_email _ _ _ _ Hv) as [Hne' Hem]. specialize (Hem Hne).
  apply is_empty_false in Hne'. rewrite Hne', Hem in H. apply finish_ok in H as (-> & -> & -> & _ & Hs). rewrite Ha in Hs.
  exists r, config. by split_and!.
Qed.


Context (post : TokenRequest → PostReply) (StatusText : Z → string).

End facts.

(** ** Examples: the libraries of [AuthToy] and [IdpTokens] *)

(** The platform has a super administrator; tenant t1 has the domain acme.example and an
    OIDC provider, which vouches for whom it likes. *)
Definition ex_root : userRecord :=
  mkUserRecord (mkUser "usr_root" "Root" "root@platform.example" "super_admin" "platform" [] "" true) "hpw".
Definition ex_auth : Service Postgres Postgres :=
  NewService "key" "" 0 0 [ex_root] "" ((λ i, repeat (chr i) 12) <$> [1; 2; 3; 4; 5; 6; 7; 8]).
Definition ex_tokens : IdpLibs :=
  toy_idp [("tok", ex_claims "New@acme.example" "" ""); ("evil", ex_claims "root@platform.example" "non_020202020202" "");
           ("gone", ex_claims "root@platform.example" "non_020202020202" "terminated")].
Definition ex_state (mode : string) : AuthStateToken :=
  mkStateToken "st_01" "t1" "oidc" "" "https://app.example/cb" "non_020202020202" 0 (5 * minute).
Definition ex_world (mode : string) : World :=
  mkWorld ex_auth (mkDirectory (ex_core <| idpConfigs := {["t1" := ex_config "oidc" mode]} |>) {["st_01" := ex_state mode]} ∅ None
                     ((λ i, repeat (chr i) 6) <$> [1; 2; 3; 4])) ∅ [].
Definition ex_post : TokenRequest → PostReply := λ _, NoAnswer "".
Definition ex_callback (mode token : string) : World * result Refusal SignedIn :=
  @enterpriseOIDCCallback Postgres Postgres _ _ toy_auth toy_aead sorted_range ex_tokens no_literals false ex_read ex_post (λ _, "")
    5 (mkOIDCCallback "st_01" token "" "" "") (ex_world mode).
Definition ex_exchange (mode : string) : World * result Refusal SignedIn :=
  @enterpriseAuthExchange Postgres Postgres _ _ toy_auth toy_aead sorted_range ex_tokens no_literals false ex_read
    5 (mkExchange "new@acme.example" "" "t1" "tok" "") (ex_world mode).

(** Where the tenant does not provision at sign-in, the callback signs in whoever its
    provider names: tenant t1 gets a session of the administrator of the platform. *)
Example callback_takeover :
  match (ex_callback "scheduled" "evil").2 with
  | Ok s => sgTenantID s = "t1" ∧ LoginUser (sgToken s) = rUser ex_root ∧ uRole (LoginUser (sgToken s)) = "super_admin"
  | Err _ => False
  end.
Proof. vm_compute. split_and!; reflexivity. Qed.

(** Where it does, the domain is checked, but not before the employment status: the same
    provider takes the administrator's role away by calling the account terminated. *)
Example foreign_downgrade :
  refStatus <$> (match (ex_callback "jit" "evil").2 with Ok _ => None | Err e => Some e end) = Some 500
  ∧ refStatus <$> (match (ex_callback "jit" "gone").2 with Ok _ => None | Err e => Some e end) = Some 403
  ∧ (λ r, uRole (rUser r)) <$> usersByEmail (auth (ex_callback "jit" "gone").1) !! "root@platform.example" = Some "resident".
Proof. vm_compute. split_and!; reflexivity. Qed.

(** The probe leaves a session of its own: two refresh sessions for one sign-in. *)
Example probe_leaves_session :
  let w := (ex_exchange "jit").1 in
  let again := (@enterpriseAuthExchange Postgres Postgres _ _ toy_auth toy_aead sorted_range ex_tokens no_literals false ex_read
    5 (mkExchange "new@acme.example" "" "t1" "tok" "") w).1 in
  size (refreshSessions (auth w)) = 1%nat ∧ size (refreshSessions (auth again)) = 3%nat.
Proof. vm_compute. split; reflexivity. Qed.

Definition no_answer : SignedIn := mkSignedIn "" "" "" false "" (inr (mkSAMLIdentity "" "" "" [] 0 0 ∅)) None (mkLogin "" "" 0 (rUser ex_root)).
Definition ex_signed (r : result Refusal SignedIn) : SignedIn := match r with Ok s => s | Err _ => no_answer end.

(** With provisioning: an account of the tenant. *)
Lemma exchange_vouched_witness :
  is_ok (ex_exchange "jit").2 = true
  ∧ ∃ config, GetIDPConfig (sgTenantID (ex_signed (ex_exchange "jit").2)) (directory (ex_world "jit")) = Ok config
      ∧ uEmail (LoginUser (sgToken (ex_signed (ex_exchange "jit").2))) = "new@acme.example"
      ∧ uTenantID (LoginUser (sgToken (ex_signed (ex_exchange "jit").2))) = "t1".
Proof.
  split; [vm_compute; reflexivity|].
  destruct (@exchange_vouched Postgres Postgres _ _ toy_auth toy_aead sorted_range ex_tokens no_literals false ex_read 5
    (mkExchange "new@acme.example" "" "t1" "tok" "") (ex_world "jit") (ex_exchange "jit").1 (ex_signed (ex_exchange "jit").2))
    as (r & config & _ & _ & Hc & _ & _ & _ & _ & Hs); [vm_compute; reflexivity|].
  exists config. split; [exact Hc|]. exact Hs.
Defined.

Definition ex_issue : World * result signin_err (LoginResponse * bool * string) :=
  @issueEnterpriseTrustedSession Postgres Postgres _ _ toy_auth toy_aead false 5 "t1" "jit" " New@acme.example" "s"
    (mkProfile "" "" "Recruiter" "" "" "" "") (ex_world "jit").
Definition ex_resp : LoginResponse * bool * string :=
  match ex_issue.2 with Ok r => r | Err _ => (mkLogin "" "" 0 (rUser ex_root), false, "") end.
(** The recruiter comes out as an administrator of the tenant. *)
Lemma jit_session_witness :
  uRole (LoginUser ex_resp.1.1) = "tenant_admin"
  ∧ ∃ e, e ∈ employees (core (directory ex_issue.1)) ∧ emEmail e = "new@acme.example".
Proof.
  split; [vm_compute; reflexivity|].
  destruct (@jit_session Postgres Postgres _ _ toy_auth toy_aead false 5 "t1" "jit" " New@acme.example" "s"
    (mkProfile "" "" "Recruiter" "" "" "" "") (ex_world "jit") ex_issue.1 ex_resp.1.1 ex_resp.1.2 ex_resp.2)
    as (_ & e & He & _ & _ & Hem & _); [reflexivity|vm_compute; reflexivity|]. exists e. split; [exact He|exact Hem].
Defined.

